(* ===== verification/_CoqProject ===== *)
-Q . S2P
Prelude.v
Memory.v
GrowableMemory.v
Bits.v
Pack.v
Checksums.v
Hash.v
Md5Sha1.v
Sha2.v
Utf8.v
Encodings.v
Codepage.v
Stream.v
MemStream.v
BufferedStream.v
LimitedStream.v
Multiplex.v
TextFile.v
Strings.v
Format.v
Values.v
Redis.v
RedisProps.v
RedisSpec.v
Resp.v
RespServer.v
Json.v
Async.v
AsyncProps.v
AsyncSpec.v
Xml.v
XmlProps.v
XmlText.v
RedisClient.v
RedisClientProps.v
Unicode.v
Sinks.v
Headers.v
Url.v
Mime.v
MimeProps.v
FileNames.v
MultiList.v
MultiListSort.v
FileSystem.v
FileSystemProps.v
FileSystemSpec.v
Directories.v
DirectoriesProps.v
Transforms.v
TransformsProps.v
Archives.v
ArchivesProps.v
ArReaderProps.v
ZipReaderProps.v
