(* ===== verification/Prelude.v ===== *)
(** * Verification of the AFL foundation library

    AFL (src/afl) is a C++ class library: memory descriptors and byte packing,
    checksums and hashes, character sets, streams and file formats, containers,
    network protocols and wrappers around operating system services.  This
    development models the parts on which the others are built, and the formats and
    protocols on top of them, and proves what their interfaces promise.

    ** Parts of the program and the files that model them

    - Prelude.v: machine integers ([wrap], [u32], [swrap]: a w-bit integer is a
      [Z] with its wrap-around written out), byte strings, outcomes of code that
      can throw, the bit-level proof automation, and generic lemmas.
    - Memory.v: base/memory.hpp and base/memorytraits.hpp.  [Mem.Memory] is the
      descriptor (pointer and size); memory is a finite map from addresses to
      elements, so that overlapping descriptors alias; reading an unmapped cell
      is an error ([None]).  The three trait classes (generic, POD, char) are
      instances of one class with laws.
    - GrowableMemory.v: base/growablememory.hpp over an abstract allocator; a
      state monad with the outcomes "returned", "threw bad_alloc" and "undefined
      behaviour".
    - Bits.v: bits/bits.cpp, bits/rotate.hpp, bits/smallset.hpp.
    - Pack.v: the integer descriptors bits/{u,}int{8,16,32,64}{le,be}.hpp,
      bits/pack.hpp, bits/value.hpp and bits/fixedstring.cpp.
    - Checksums.v: checksums/checksum.hpp and the classes ByteSum, Adler32,
      CRC16, CRC32.
    - Hash.v: checksums/hash.hpp and hash.cpp (the interface as a class with
      laws, HMAC and PBKDF2 proved against it); Md5Sha1.v and Sha2.v: the six
      hash classes, which discharge the laws.
    - Utf8.v: charset/unicode.hpp, utf8.cpp, utf8reader.cpp; Encodings.v:
      string/hex.cpp and the transport encodings of charset/; Codepage.v:
      charset/codepagecharset.cpp, the ten tables and utf8charset.cpp; Unicode.v:
      the case tables of charset/unicode.cpp, asciitransliterator.cpp and
      defaultcharsetfactory.cpp.
    - Stream.v: io/stream.cpp and io/internalfilemapping.cpp.  A stream is an
      instance of the class [Stream]; a method is a function from the state of
      the object to its new state and a result or exception.  [FileLaws] says
      that a stream acts as an abstract [file].  MemStream.v: internalstream.cpp,
      constmemorystream.cpp, memorystream.cpp, nullstream.cpp; BufferedStream.v,
      LimitedStream.v, Multiplex.v and TextFile.v: the files of these names in
      io/.  The stream classes compose: each is proved on top of any stream with
      [FileLaws] and provides [FileLaws] itself.
    - Strings.v and Format.v: string/char.hpp, string.cpp, parse.cpp,
      parsememory.cpp, format.cpp, formatstate.cpp, formattraits.cpp.
    - Values.v: data/ (name maps, segments, hashes, views, access to values, the
      default value factory); Json.v: io/json.
    - Redis.v (the database of net/redis/internaldatabase.cpp as a state monad over
      a map from keys to values), RedisProps.v (lemmas for each command) and
      RedisSpec.v (its theorems); Resp.v and RespServer.v: io/resp and net/resp, the
      writer, the parser as a stack machine, the server and client connections;
      RedisClient.v and RedisClientProps.v: the classes of net/redis on top of a
      command handler, which is the database itself or the database behind a RESP
      connection.
    - Async.v, AsyncProps.v, AsyncSpec.v: async/ and sys/semaphore.hpp: operation
      lists, controllers, semaphores, mutexes, timers, message exchange.  Each
      method holds its mutex and is one atomic step; a run is any interleaving of
      steps ([rtc]).
    - Xml.v, XmlProps.v, XmlText.v: io/xml, the node tree, writer, the tokenizer,
      the base reader and the node reader.
    - Sinks.v: io/datasink.cpp and the sinks of io/, and net/http/chunkedsink.cpp.  A
      sink is an instance of [DataSink]; [ByteSink] is the contract: it acts as a
      machine on single bytes.  Headers.v: net/headerparser.cpp, headerfield.cpp,
      headertable.cpp, parameterencoder.cpp, http/formparser.cpp, over a class of
      header consumers; Url.v: net/url.cpp and net/name.cpp.
    - Mime.v: src/afl/net/mimebuilder.cpp and mimeparser.cpp with its enumerators of
      parts; MimeProps.v: their lemmas and theorems.
    - FileNames.v: src/afl/string/posixfilenames.cpp and win32filenames.cpp (Modules
      Posix and Win32).
    - MultiList.v: src/afl/container/ptrmultilistbase.cpp and ptrmultilist.hpp: nodes with
      their cross pointers in a store, and the live iterators; MultiListSort.v: sort.
    - FileSystem.v: src/afl/io/internalfilesystem.cpp with the base classes in
      directory.cpp and directoryentry.cpp.  The state has the node lists and the streams,
      both shared through references; operations are functions in a state and exception
      monad.  FileSystemProps.v: invariant, lemmas of the operations, paths;
      FileSystemSpec.v: the theorems.
    - Directories.v: internaldirectory.cpp, multidirectory.cpp (over a type class of
      directories), unchangeabledirectoryentry.cpp; DirectoriesProps.v: their theorems.
    - Transforms.v: src/afl/io/transform.hpp, transformreaderstream.cpp,
      transformdatasink.cpp, msexpandtransform.cpp and inflatetransform.cpp, whose zlib is
      a parameter; TransformsProps.v: the contract of transformations and the theorems.
    - Archives.v: src/afl/io/archive/tarreader.cpp, arreader.cpp and zipreader.cpp (Modules
      Tar, Ar, Zip), with what they share written once over a type class; ArchivesProps.v:
      the contract of a reader, enumeration and search, members and TAR;
      ArReaderProps.v and ZipReaderProps.v: the other two formats.

    Definitions carry the names of the C++ functions and members; methods with
    the same name in several classes have the class name in front.

    ** What the theorems show

    The properties are the theorems whose comment starts with a claim number.

    - Streams: buffered, limited, multiplexed and in-memory streams refine the
      abstract file for every sequence of supported operations
      (buffered_stream_transparent, limited_stream_correct, children_isolated,
      memory_streams_act_as_files); text files read back what was written
      (text_file_correct); what a failing underlying stream does to a buffered one
      (buffered_failure_states).
    - Memory: a growable buffer refines a list and owns its block
      (growable_refines_list); every descriptor derived from another stays inside
      it (descriptors_correct).
    - Hashes and checksums: blocking and padding are right however the message is
      split (hash_functions_correct); HMAC and PBKDF2 follow their RFCs for any hash
      that meets the interface (mac_functions_correct); the CRC tables equal the
      shift register, Adler32 cannot overflow, and bursts are detected
      (checksums_correct, crc_detects_bursts).
    - Text: transparency of UTF-8 for invalid input, round trips of codepages and
      transport encodings, case mapping, transliteration, number parsing and
      formatting (utf8_transparent, codepage_roundtrip, transport_encodings_correct,
      case_mapping_correct, transliteration_correct, number_parsing_correct,
      format_correct).
    - Formats: round trips of JSON, XML, RESP, header fields, URLs, parameters and
      chunked data (json_roundtrip, xml_roundtrip, node_reader_roundtrip,
      resp_connection_correct, headers_roundtrip, url_roundtrip,
      parameters_roundtrip, chunked_decoding_correct); parsers that are fed in pieces
      give the same result whatever the pieces (resp_parser_pieces and the
      [ByteSink] instances).
    - Redis: the commands act on lists, sets, and sorted views as documented, keep
      the invariant that containers are not empty as far as the code does, and
      report wrong types (redis_lists_correct, redis_sort_correct,
      redis_containers_nonempty, redis_wrong_type); the client classes refine typed
      values, and cannot tell a database behind a connection from a local one
      (redis_client_typed, redis_remote_transparent).
    - Concurrency: at most one owner of a mutex, units of a semaphore reach the
      waiters, exchanged messages arrive once, timers are served in order
      (mutex_exclusive, semaphore_serves_waiters, exchange_correct, timer_correct).
    - MIME: the search for a boundary ends with one that is not in use, and a multipart
      message is taken apart into the parts it was made of, in any pieces
      (mime_finish_terminates, mime_roundtrip).
    - Files: the tree invariant of the internal file system and what each operation does
      to the node at every path (file_system_invariant, file_system_correct,
      file_system_moves, erase_content_terminates); virtual directories
      (internal_directory_correct, multi_directory_correct); the multi-list refines a
      sequence with cursors, and its sort sorts (multi_list_correct, multi_list_sorts);
      path names (path_names_correct).
    - Transformations: readers deliver exactly the transformed data in any pieces
      (transform_reader_correct); the MS-EXPAND decoder inverts its format
      (msexpand_correct).  The fuel of the reader's loop is the length of the input plus two.
    - Archives: files of each format are enumerated, searched and read back
      (tar_reader_correct, ar_reader_correct, zip_reader_correct); one unit of fuel
      per member is enough for the loops over the index.

    ** Parameters

    Code that is not part of the library is a parameter, with its documented
    behaviour as hypotheses: the allocator, the underlying stream (with [FileLaws]),
    std::rand and std::sort (a sort permutes, and orders by the given comparison),
    strtod and the formatting of doubles, zlib's inflate (with [ZlibLaws] for raw
    deflate streams), the operating system's clock, and the
    handlers a caller supplies (XML entities, charset factories, command handlers,
    header consumers, sinks).  Each theorem with such a hypothesis has a witness in
    which the parameter is a concrete function.

    ** Bounds and fuel

    size_t and long have 64 bits ([SIZE_BITS], [LONG_BITS]); splitUpdate is also
    modelled for a narrower size_t.  Loops that are not structural take fuel: the
    number of bytes they have to process (fullRead, fullWrite, write, UTF-8 loops,
    hash blocks, text lines, header values, URL arguments: every round consumes at
    least one byte), the size of the content for the search of a MIME boundary, twice that number for ChunkedSink (a round may only change the
    state), the number of bits of the operand (bitPop, take of a SmallSet), twice the
    number of tokens for the node reader, or, where the length is not known to the
    caller (copyFrom up to the end, createVirtualMapping), an argument for which the
    theorem states that one more than the bytes that are left is enough.  Running out
    of fuel is an outcome of its own ([None] or [out_of_fuel]) or, where the loop has
    a natural value, excluded by a lemma; the theorems show that it does not occur.

    ** What is not modelled

    Object representations (reinterpreting memory as another type), file names
    reported by getName(), operating system calls (files, sockets, threads, dynamic
    libraries, the environment; arch/), third-party code (zlib, TLS), logging, the
    ownership of heap objects by smart pointers and the other pointer containers, the test
    framework and the sample programs, and the parts of PROJECT.json that are listed
    there as not modelled, with the reason. *)

From Stdlib Require Import ZArith Lia Bool Btauto.
From stdpp Require Import base tactics numbers list.

Local Open Scope Z_scope.

(** ** Machine integers

    A w-bit unsigned integer is a [Z] in [0 .. 2^w-1]; every operation that can
    leave that range is followed by [wrap w], which is what the C++ standard
    prescribes for unsigned arithmetic and for conversions to unsigned types. *)

Definition wrap (w x : Z) : Z := x mod 2 ^ w.

Definition u8 (x : Z) : Z := wrap 8 x.
Definition u16 (x : Z) : Z := wrap 16 x.
Definition u32 (x : Z) : Z := wrap 32 x.
Definition u64 (x : Z) : Z := wrap 64 x.

(** [size_t] of the modelled (LP64) platform. *)
Definition SIZE_BITS : Z := 64.
Definition usize (x : Z) : Z := wrap SIZE_BITS x.

(** Conversion to a w-bit signed type: the two's complement reading that every
    compiler supported by the library gives to this implementation-defined
    conversion. *)
Definition swrap (w x : Z) : Z :=
  if wrap w x <? 2 ^ (w - 1) then wrap w x else wrap w x - 2 ^ w.

(** Bitwise complement of a w-bit unsigned value. *)
Definition unot (w x : Z) : Z := wrap w (Z.lnot x).

(** [in_u w x]: [x] is a value of the w-bit unsigned type. *)
Definition in_u (w x : Z) : Prop := 0 <= x < 2 ^ w.

Definition in_s (w x : Z) : Prop := - 2 ^ (w - 1) <= x < 2 ^ (w - 1).

(** Bytes and byte strings. *)
Definition is_byte (b : Z) : Prop := 0 <= b < 256.
Definition bytes (l : list Z) : Prop := Forall is_byte l.

(** Outcome of code that can throw a C++ exception. *)
Inductive outcome (E A : Type) : Type :=
| Ok (a : A)
| Throw (e : E).
Arguments Ok {E A} _.
Arguments Throw {E A} _.

Definition obind {E A B} (m : outcome E A) (f : A -> outcome E B) : outcome E B :=
  match m with
  | Ok a => f a
  | Throw e => Throw e
  end.

Declare Scope afl_scope.
Delimit Scope afl_scope with afl.
Notation "'let!' x ':=' m 'in' k" := (obind m (fun x => k))
  (at level 10, x pattern, m at level 100, k at level 200) : afl_scope.

#[export] Instance is_byte_dec b : Decision (is_byte b).
Proof. unfold is_byte. apply _. Defined.

#[export] Instance bytes_dec l : Decision (bytes l).
Proof. unfold bytes. apply _. Defined.

(** ** Tactics *)

(** [case_ltb] splits on every integer comparison the goal branches on and
    leaves the facts as linear arithmetic. *)
Ltac zcases :=
  repeat match goal with
  | |- context [ Z.ltb ?a ?b ] => destruct (Z.ltb_spec a b)
  | |- context [ Z.leb ?a ?b ] => destruct (Z.leb_spec a b)
  | |- context [ Z.eqb ?a ?b ] => destruct (Z.eqb_spec a b)
  | H : context [ Z.ltb ?a ?b ] |- _ => destruct (Z.ltb_spec a b)
  | H : context [ Z.leb ?a ?b ] |- _ => destruct (Z.leb_spec a b)
  | H : context [ Z.eqb ?a ?b ] |- _ => destruct (Z.eqb_spec a b)
  end.

(** ** Lemmas on machine integers *)

Create HintDb afl.

Lemma wrap_range w x : 0 <= w -> 0 <= wrap w x < 2 ^ w.
Proof. intros Hw. apply Z.mod_pos_bound. lia. Qed.

Lemma wrap_small w x : 0 <= x < 2 ^ w -> wrap w x = x.
Proof. apply Z.mod_small. Qed.

Lemma wrap_idem w x : wrap w (wrap w x) = wrap w x.
Proof. apply Zmod_mod. Qed.

Lemma wrap_add_l w x y : wrap w (wrap w x + y) = wrap w (x + y).
Proof. apply Zplus_mod_idemp_l. Qed.

Lemma wrap_add_r w x y : wrap w (x + wrap w y) = wrap w (x + y).
Proof. apply Zplus_mod_idemp_r. Qed.

Lemma wrap_spec w x i :
  0 <= w -> 0 <= i -> Z.testbit (wrap w x) i = (i <? w) && Z.testbit x i.
Proof.
  intros Hw Hi. unfold wrap. destruct (Z.ltb_spec i w); simpl.
  - apply Z.mod_pow2_bits_low. lia.
  - apply Z.mod_pow2_bits_high. lia.
Qed.

Lemma testbit_in_u w x i : in_u w x -> w <= i -> Z.testbit x i = false.
Proof.
  intros [Hx Hxw] Hi.
  destruct (decide (0 <= w)) as [Hw|Hw].
  - rewrite <- (Z.mod_small x (2 ^ w)) by lia. by apply Z.mod_pow2_bits_high.
  - rewrite Z.pow_neg_r in Hxw by lia. lia.
Qed.

Lemma in_u_testbit w x :
  0 <= w -> 0 <= x -> (forall i, w <= i -> Z.testbit x i = false) -> in_u w x.
Proof.
  intros Hw Hx Hbits. split; [done|].
  assert (x = wrap w x) as ->; [|apply wrap_range; lia].
  apply Z.bits_inj'. intros i Hi. rewrite wrap_spec by lia.
  destruct (Z.ltb_spec i w); [done|]. by apply Hbits.
Qed.

Lemma in_u_land w x y : 0 <= w -> in_u w x -> 0 <= y -> in_u w (Z.land x y).
Proof.
  intros Hw Hx Hy. apply in_u_testbit; [done| |].
  - apply Z.land_nonneg. unfold in_u in Hx. lia.
  - intros i Hi. by rewrite Z.land_spec, (testbit_in_u w x).
Qed.

Lemma in_u_land_any w x y : 0 <= w -> in_u w x -> in_u w (Z.land x y).
Proof.
  intros Hw Hx. apply in_u_testbit; [done| |].
  - apply Z.land_nonneg. unfold in_u in Hx. lia.
  - intros i Hi. by rewrite Z.land_spec, (testbit_in_u w x).
Qed.

Lemma in_u_lor w x y : 0 <= w -> in_u w x -> in_u w y -> in_u w (Z.lor x y).
Proof.
  intros Hw Hx Hy. apply in_u_testbit; [done| |].
  - apply Z.lor_nonneg. unfold in_u in *. lia.
  - intros i Hi. by rewrite Z.lor_spec, (testbit_in_u w x), (testbit_in_u w y).
Qed.

Lemma in_u_lxor w x y : 0 <= w -> in_u w x -> in_u w y -> in_u w (Z.lxor x y).
Proof.
  intros Hw Hx Hy. apply in_u_testbit; [done| |].
  - apply Z.lxor_nonneg. unfold in_u in *. lia.
  - intros i Hi. by rewrite Z.lxor_spec, (testbit_in_u w x), (testbit_in_u w y).
Qed.

Lemma in_u_wrap w x : 0 <= w -> in_u w (wrap w x).
Proof. apply wrap_range. Qed.

Lemma in_u_shiftr w x n : 0 <= w -> 0 <= n -> in_u w x -> in_u w (Z.shiftr x n).
Proof.
  intros Hw Hn Hx. apply in_u_testbit; [done| |].
  - apply Z.shiftr_nonneg. unfold in_u in Hx. lia.
  - intros i Hi. rewrite Z.shiftr_spec by lia. apply (testbit_in_u w x); [done|lia].
Qed.

Lemma in_u_unot w x : 0 <= w -> in_u w (unot w x).
Proof. intros. by apply in_u_wrap. Qed.

#[export] Hint Resolve in_u_land in_u_lor in_u_lxor in_u_wrap in_u_shiftr in_u_unot : afl.

Lemma swrap_range w x : 0 < w -> in_s w (swrap w x).
Proof.
  intros Hw. unfold swrap, in_s. pose proof (wrap_range w x ltac:(lia)).
  assert (2 ^ w = 2 * 2 ^ (w - 1)) by (rewrite <- Z.pow_succ_r by lia; f_equal; lia).
  zcases; lia.
Qed.

Lemma swrap_wrap w x : 0 < w -> in_s w x -> swrap w (wrap w x) = x.
Proof.
  intros Hw Hx. unfold swrap, in_s in *. rewrite wrap_idem.
  assert (2 ^ w = 2 * 2 ^ (w - 1)) as E by (rewrite <- Z.pow_succ_r by lia; f_equal; lia).
  destruct (Z_lt_le_dec x 0).
  - assert (wrap w x = x + 2 ^ w) as ->; [|zcases; lia].
    unfold wrap. rewrite <- (Z.mod_add x 1), Z.mod_small by lia. lia.
  - rewrite wrap_small by lia. zcases; lia.
Qed.

Lemma wrap_swrap w x : 0 < w -> in_u w x -> wrap w (swrap w x) = x.
Proof.
  intros Hw Hx. unfold swrap. rewrite (wrap_small w x) by done. unfold in_u in Hx.
  zcases; [by apply wrap_small|].
  unfold wrap. rewrite <- (Z.mod_add _ 1), Z.mod_small by lia. lia.
Qed.

Lemma swrap_small w x : 0 < w -> in_s w x -> swrap w x = x.
Proof. intros Hw Hx. rewrite <- (swrap_wrap w x Hw Hx) at 2. unfold swrap. by rewrite wrap_idem. Qed.

Lemma swrap_fix w x : 0 < w -> swrap w x = x <-> in_s w x.
Proof. intros Hw. split; [intros <-; by apply swrap_range|by apply swrap_small]. Qed.

Lemma wrap_fix w x : 0 <= w -> wrap w x = x <-> in_u w x.
Proof. intros Hw. split; [intros <-; by apply wrap_range|by apply wrap_small]. Qed.

Lemma unot_spec w x i :
  0 <= w -> 0 <= i -> Z.testbit (unot w x) i = (i <? w) && negb (Z.testbit x i).
Proof. intros. unfold unot. by rewrite wrap_spec, Z.lnot_spec by lia. Qed.

(** [bitwise] proves an equation between bit expressions bit by bit: every
    operator is pushed through [Z.testbit], comparisons of the bit index are
    split, and what is left is a propositional identity. *)
Ltac testbit_step :=
  match goal with
  | |- context [ Z.testbit (wrap ?w ?x) ?i ] => rewrite (wrap_spec w x i) by lia
  | |- context [ Z.testbit (unot ?w ?x) ?i ] => rewrite (unot_spec w x i) by lia
  | |- context [ Z.testbit (Z.lor ?x ?y) ?i ] => rewrite (Z.lor_spec x y i)
  | |- context [ Z.testbit (Z.land ?x ?y) ?i ] => rewrite (Z.land_spec x y i)
  | |- context [ Z.testbit (Z.lxor ?x ?y) ?i ] => rewrite (Z.lxor_spec x y i)
  | |- context [ Z.testbit (Z.shiftr ?x ?n) ?i ] => rewrite (Z.shiftr_spec x n i) by lia
  | |- context [ Z.testbit (Z.shiftl ?x ?n) ?i ] => rewrite (Z.shiftl_spec x n i) by lia
  | |- context [ Z.testbit (Z.lnot ?x) ?i ] => rewrite (Z.lnot_spec x i) by lia
  | |- context [ Z.testbit (Z.ones ?n) ?i ] => rewrite (Z.testbit_ones_nonneg n i) by lia
  | |- context [ Z.testbit 0 ?i ] => rewrite (Z.testbit_0_l i)
  | |- context [ Z.testbit ?x ?i ] => rewrite (Z.testbit_neg_r x i) by lia
  | H : in_u ?w ?x |- context [ Z.testbit ?x ?i ] => rewrite (testbit_in_u w x i H) by lia
  end.

Ltac bool_norm :=
  rewrite ?andb_true_r, ?andb_false_r, ?orb_false_r, ?orb_true_r, ?xorb_false_r,
    ?xorb_false_l, ?andb_true_l, ?andb_false_l, ?orb_false_l, ?orb_true_l.

Ltac bitwise :=
  apply Z.bits_inj'; intros ?i ?Hi;
  repeat testbit_step;
  repeat (zcases; repeat testbit_step);
  bool_norm; try reflexivity; try lia; try (do 2 f_equal; lia); try (f_equal; lia);
  try btauto.

(** ** Byte strings by position *)

Definition byte_at (l : list Z) (i : nat) : Z := nth i l 0.

(** [while (len > 0 && p[len-1] == c) --len;] *)
Fixpoint trim_right (c : Z) (p : list Z) (len : nat) : nat :=
  match len with
  | O => 0%nat
  | S len' => if byte_at p len' =? c then trim_right c p len' else len
  end.

Lemma trim_right_spec c p len :
  (trim_right c p len <= len)%nat /\
  (forall i, (trim_right c p len <= i < len)%nat -> byte_at p i = c) /\
  (trim_right c p len = 0%nat \/ byte_at p (trim_right c p len - 1) <> c).
Proof.
  induction len as [|len (IH1 & IH2 & IH3)]; simpl.
  { split; [lia|]. split; [intros; lia|]. by left. }
  destruct (Z.eqb_spec (byte_at p len) c) as [E|E].
  - split; [lia|]. split; [|done]. intros i Hi.
    destruct (decide (i = len)) as [->|]; [done|]. apply IH2. lia.
  - split; [lia|]. split; [intros; lia|]. right. by rewrite Nat.sub_succ, Nat.sub_0_r.
Qed.

Lemma byte_at_app_l p q i : (i < length p)%nat -> byte_at (p ++ q) i = byte_at p i.
Proof. apply app_nth1. Qed.

Lemma drop_byte_at l i : (i < length l)%nat -> drop i l = byte_at l i :: drop (S i) l.
Proof.
  intros Hi. apply drop_S. unfold byte_at.
  destruct (nth_lookup_or_length l i 0) as [E|E]; [exact E|lia].
Qed.

Lemma byte_at_padding c p k i :
  (length p <= i < length p + k)%nat -> byte_at (p ++ replicate k c) i = c.
Proof.
  intros Hi. unfold byte_at. rewrite app_nth2 by lia.
  apply (nth_lookup_Some _ _ 0 c). apply lookup_replicate. split; [done|lia].
Qed.

Lemma byte_at_last p : p <> [] -> last p = Some (byte_at p (length p - 1)).
Proof.
  intros Hp. rewrite last_lookup. replace (pred (length p)) with (length p - 1)%nat by lia.
  unfold byte_at. destruct (nth_lookup_or_length p (length p - 1) 0) as [E|E]; [exact E|].
  destruct p; simpl in *; [done|lia].
Qed.

(** Trimming stops exactly at the end of a string that does not end in [c]. *)
Lemma trim_right_padding c p k :
  last p <> Some c -> trim_right c (p ++ replicate k c) (length p + k) = length p.
Proof.
  intros Hlast. set (q := p ++ replicate k c).
  destruct (trim_right_spec c q (length p + k)) as (H1 & H2 & H3).
  set (t := trim_right c q (length p + k)) in *.
  destruct (Nat.lt_trichotomy t (length p)) as [Hlt|[?|Hgt]]; [|done|].
  - assert (p <> []) as Hp by (intros ->; simpl in Hlt; lia).
    destruct Hlast. rewrite byte_at_last by done. f_equal.
    rewrite <- (H2 (length p - 1)%nat) by lia. symmetry. apply byte_at_app_l. lia.
  - destruct H3 as [H3|H3]; [lia|]. destruct H3. apply byte_at_padding. lia.
Qed.

(** A property of every byte, checked by evaluation. *)
Lemma all_bytes (f : Z -> bool) : forallb f (map Z.of_nat (seq 0 256)) = true -> forall b, is_byte b -> f b = true.
Proof.
  intros Hf b Hb. unfold is_byte in Hb. rewrite forallb_forall in Hf. apply Hf, in_map_iff.
  exists (Z.to_nat b). split; [lia|]. apply in_seq. lia.
Qed.

(** [Bytes_t(buf).subrange(index).copyFrom(data)] *)
Definition copy_at (buf : list Z) (index : nat) (data : list Z) : list Z :=
  let n := Nat.min (length buf - index) (length data) in
  take index buf ++ take n data ++ drop (index + n) buf.

Lemma copy_at_prefix buf index data :
  (index + length data <= length buf)%nat ->
  take (index + length data) (copy_at buf index data) = take index buf ++ data.
Proof.
  intros Hl. unfold copy_at. rewrite (Nat.min_r (length buf - index) (length data)), firstn_all by lia.
  rewrite app_assoc. apply take_app_length'. rewrite length_app, length_take. lia.
Qed.

Lemma copy_at_length buf index data :
  (index <= length buf)%nat -> length (copy_at buf index data) = length buf.
Proof.
  intros Hl. unfold copy_at. rewrite !length_app, !length_take, length_drop. lia.
Qed.

Lemma copy_at_full buf index data :
  (index + length data = length buf)%nat -> copy_at buf index data = take index buf ++ data.
Proof.
  intros Hl. rewrite <- copy_at_prefix by lia. rewrite take_ge; [done|].
  rewrite copy_at_length; lia.
Qed.

(** ** The first element for each key *)
Section Firsts.
Context {A : Type} (key : A -> list Z).
Fixpoint firsts (seen : list (list Z)) (l : list A) : list A :=
  match l with
  | [] => []
  | x :: l' => if decide (key x ∈ seen) then firsts seen l' else x :: firsts (key x :: seen) l'
  end.
Lemma firsts_length seen l : (length (firsts seen l) <= length l)%nat.
Proof.
  revert seen. induction l as [|x l IH]; intros seen; cbn [firsts length]; [lia|]. destruct (decide (key x ∈ seen)); [pose proof (IH seen)|pose proof (IH (key x :: seen)); cbn [length]]; lia.
Qed.
Lemma firsts_distinct seen l : NoDup (map key (firsts seen l)) /\ Forall (fun x => key x ∉ seen) (firsts seen l).
Proof.
  revert seen. induction l as [|x l IH]; intros seen; [split; constructor|]. cbn [firsts]. destruct (decide (key x ∈ seen)); [apply IH|]. destruct (IH (key x :: seen)) as [H1 H2]. cbn [map]. split; [constructor; [|done]|constructor; [done|]].
  - intros (y & Hy & Hin)%list_elem_of_fmap. rewrite Forall_forall in H2. apply (H2 y Hin). rewrite Hy. constructor.
  - eapply Forall_impl; [exact H2|]. intros y Hy. apply not_elem_of_cons in Hy. tauto.
Qed.
(** The one that is kept is the first. *)
Lemma firsts_first seen l x : x ∈ firsts seen l <-> exists a b, l = a ++ x :: b /\ (key x ∉ seen) /\ Forall (fun y => key y <> key x) a.
Proof.
  revert seen. induction l as [|y l IH]; intros seen; cbn [firsts]; [split; [by intros ?%elem_of_nil|by intros ([|] & b & ? & _)]|]. destruct (decide (key y ∈ seen)) as [Hy|Hy].
  - rewrite IH. split; [intros (a & b & -> & H1 & H2); exists (y :: a), b; split; [done|]; split; [done|]; constructor; [congruence|done]|]. intros ([|z a] & b & [= <- ->] & H1 & H2); [done|]. apply Forall_cons in H2 as [_ H2]. by exists a, b.
  - rewrite elem_of_cons, IH. split.
    + intros [->|(a & b & -> & [H0 H1]%not_elem_of_cons & H2)]; [exists [], l; by split_and!; [| |constructor]|]. exists (y :: a), b. split; [done|]. split; [done|]. constructor; [congruence|done].
    + intros ([|z a] & b & [= <- ->] & H1 & H2); [by left|]. right. apply Forall_cons in H2 as [H2 H3]. exists a, b. split; [done|]. split; [|done]. apply not_elem_of_cons. split; [congruence|done].
Qed.
Lemma firsts_same seen seen' l : (forall k, k ∈ seen <-> k ∈ seen') -> firsts seen l = firsts seen' l.
Proof.
  revert seen seen'. induction l as [|x l IH]; intros seen seen' H; cbn [firsts]; [done|]. destruct (decide (key x ∈ seen)) as [H1|H1]; destruct (decide (key x ∈ seen')) as [H2|H2]; try (exfalso; by apply H2, H || by apply H1, H); [by apply IH|]. f_equal. apply IH. intros k. rewrite !elem_of_cons, H. done.
Qed.
End Firsts.
