(* ===== verification/Memory.v ===== *)
(** * Memory descriptors

    [afl::base::Memory<T>] (src/afl/base/memory.hpp): a pointer and a size that
    travel together.  Pointers are addresses in a flat space whose unit is one
    object of type [T]; the null pointer is 0.  The store is a finite map from
    addresses to objects; an access outside it is undefined behaviour in C++
    and [None] here, so "the operation is safe" is the statement that it does
    not return [None].  The file models the element traits the descriptor
    dispatches to, every operation of the descriptor, and shows that
    descriptors derived from a valid one never leave its memory and what each
    operation does to the contents. *)

From Stdlib Require Import ZArith Lia Bool.
From stdpp Require Import base tactics numbers option list gmap fin_maps.
From S2P Require Import Prelude.

Local Open Scope Z_scope.

(** ** Store *)

Section Heap.
Context {T : Type}.
Implicit Types (h : gmap Z T) (p : Z) (l : list T).

(** Read [n] objects starting at [p]. *)
Fixpoint load h p (n : nat) : option (list T) :=
  match n with
  | O => Some []
  | S n' =>
      match h !! p, load h (p + 1) n' with
      | Some x, Some l => Some (x :: l)
      | _, _ => None
      end
  end.

(** Assign one object; the address must denote an object. *)
Definition store1 h p (x : T) : option (gmap Z T) :=
  match h !! p with
  | Some _ => Some (<[p := x]> h)
  | None => None
  end.

(** Assign consecutive objects. *)
Fixpoint store_list h p l : option (gmap Z T) :=
  match l with
  | [] => Some h
  | x :: l' =>
      match store1 h p x with
      | Some h' => store_list h' (p + 1) l'
      | None => None
      end
  end.

(** The store after a successful [store_list]. *)
Fixpoint write h p l : gmap Z T :=
  match l with
  | [] => h
  | x :: l' => write (<[p := x]> h) (p + 1) l'
  end.

Definition mapped h p (n : Z) : Prop := forall i, 0 <= i < n -> is_Some (h !! (p + i)).

Lemma lookup_write h p l a :
  write h p l !! a =
  if decide (p <= a < p + Z.of_nat (length l)) then l !! Z.to_nat (a - p) else h !! a.
Proof.
  revert h p. induction l as [|x l IH]; intros h p; simpl.
  - case_decide; [lia|done].
  - rewrite IH. destruct (decide (a = p)) as [->|Hne].
    + rewrite decide_False by lia. rewrite decide_True by lia.
      rewrite Z.sub_diag. simpl. by rewrite lookup_insert_eq.
    + rewrite lookup_insert_ne by done. do 2 case_decide; try lia; [|done].
      replace (Z.to_nat (a - p)) with (S (Z.to_nat (a - (p + 1)))) by lia. done.
Qed.

Lemma mapped_write h p l q n : mapped h q n -> mapped (write h p l) q n.
Proof.
  intros Hm i Hi. rewrite lookup_write. case_decide; [|by apply Hm].
  apply lookup_lt_is_Some. lia.
Qed.

Lemma mapped_insert h p x q n : mapped h q n -> mapped (<[p := x]> h) q n.
Proof. apply (mapped_write h p [x]). Qed.

Lemma store_list_write h p l :
  mapped h p (Z.of_nat (length l)) -> store_list h p l = Some (write h p l).
Proof.
  revert h p. induction l as [|x l IH]; intros h p Hm; simpl; [done|].
  unfold store1. destruct (Hm 0) as [y Hy]; [simpl; lia|].
  rewrite Z.add_0_r in Hy. rewrite Hy. apply IH.
  apply mapped_insert. intros i Hi. rewrite <- Z.add_assoc. apply Hm. simpl. lia.
Qed.

Lemma load_length h p n l : load h p n = Some l -> length l = n.
Proof.
  revert p l. induction n as [|n IH]; intros p l; simpl.
  - intros [= <-]. done.
  - destruct (h !! p), (load h (p + 1) n) eqn:E; intros; simplify_eq/=.
    f_equal. by eapply IH.
Qed.

Lemma load_lookup h p n l (i : nat) :
  load h p n = Some l -> (i < n)%nat -> h !! (p + Z.of_nat i) = l !! i.
Proof.
  revert p l i. induction n as [|n IH]; intros p l i; simpl; [lia|].
  destruct (h !! p) eqn:Ep, (load h (p + 1) n) eqn:E; intros ? Hi; simplify_eq/=.
  destruct i as [|i]; simpl.
  - by rewrite Z.add_0_r.
  - rewrite <- (IH (p + 1) _ i E) by lia. f_equal. lia.
Qed.

Lemma load_intro h p l :
  (forall i : nat, (i < length l)%nat -> h !! (p + Z.of_nat i) = l !! i) ->
  load h p (length l) = Some l.
Proof.
  revert p. induction l as [|x l IH]; intros p Hl; simpl; [done|].
  pose proof (Hl 0%nat ltac:(simpl; lia)) as H0. simpl in H0.
  rewrite Z.add_0_r in H0. rewrite H0, IH; [done|].
  intros i Hi. specialize (Hl (S i) ltac:(simpl; lia)). simpl in Hl.
  rewrite <- Hl. f_equal. lia.
Qed.

Lemma load_mapped h p n : mapped h p (Z.of_nat n) <-> is_Some (load h p n).
Proof.
  revert p. induction n as [|n IH]; intros p; simpl.
  - split; [eauto|]. intros _ i Hi. lia.
  - split.
    + intros Hm. destruct (Hm 0) as [x Hx]; [lia|]. rewrite Z.add_0_r in Hx.
      destruct (proj1 (IH (p + 1))) as [l Hl].
      { intros i Hi. rewrite <- Z.add_assoc. apply Hm. lia. }
      rewrite Hx, Hl. eauto.
    + intros [l Hl]. destruct (h !! p) eqn:Hp; [|done].
      destruct (load h (p + 1) n) eqn:E; [|done].
      intros i Hi. destruct (decide (i = 0)) as [->|].
      * rewrite Z.add_0_r. eauto.
      * destruct (proj2 (IH (p + 1))) with (i := i - 1); [eauto|lia|].
        replace (p + 1 + (i - 1)) with (p + i) in * by lia. eauto.
Qed.

Lemma load_Some_mapped h p n l : load h p n = Some l -> mapped h p (Z.of_nat n).
Proof. intros H. apply load_mapped. eauto. Qed.

(** Loads are congruent for stores that agree on the range. *)
Lemma load_ext h h' p n :
  (forall i, 0 <= i < Z.of_nat n -> h !! (p + i) = h' !! (p + i)) ->
  load h p n = load h' p n.
Proof.
  revert p. induction n as [|n IH]; intros p Heq; simpl; [done|].
  pose proof (Heq 0 ltac:(lia)) as H0. rewrite Z.add_0_r in H0. rewrite H0.
  rewrite (IH (p + 1)); [done|]. intros i Hi. rewrite <- Z.add_assoc. apply Heq. lia.
Qed.

Lemma load_write_same h p l : load (write h p l) p (length l) = Some l.
Proof.
  apply load_intro. intros i Hi. rewrite lookup_write. rewrite decide_True by lia.
  f_equal. lia.
Qed.

Lemma load_write_disjoint h p l q n :
  q + Z.of_nat n <= p \/ p + Z.of_nat (length l) <= q ->
  load (write h p l) q n = load h q n.
Proof.
  intros Hd. apply load_ext. intros i Hi. rewrite lookup_write.
  rewrite decide_False by lia. done.
Qed.

Lemma load_app h p n m :
  load h p (n + m) =
  match load h p n, load h (p + Z.of_nat n) m with
  | Some l, Some l' => Some (l ++ l')
  | _, _ => None
  end.
Proof.
  revert p. induction n as [|n IH]; intros p; simpl.
  - rewrite Z.add_0_r. by destruct (load h p m).
  - destruct (h !! p); [|done]. rewrite IH.
    replace (p + 1 + Z.of_nat n) with (p + Z.of_nat (S n)) by lia.
    by destruct (load h (p + 1) n), (load h (p + Z.of_nat (S n)) m).
Qed.

Lemma load_take h p n l (k : nat) :
  load h p n = Some l -> (k <= n)%nat -> load h p k = Some (take k l).
Proof.
  intros Hl Hk. pose proof (load_length _ _ _ _ Hl) as Hlen.
  assert (k = length (take k l)) as E by (rewrite length_take; lia).
  rewrite E at 1. apply load_intro. intros i Hi. rewrite <- E in Hi.
  rewrite lookup_take_lt by lia. apply (load_lookup h p n); [done|lia].
Qed.

Lemma load_drop h p n l (k : nat) :
  load h p n = Some l -> (k <= n)%nat ->
  load h (p + Z.of_nat k) (n - k) = Some (drop k l).
Proof.
  intros Hl Hk. pose proof (load_length _ _ _ _ Hl) as Hlen.
  assert ((n - k)%nat = length (drop k l)) as -> by (rewrite length_drop; lia).
  apply load_intro. intros i Hi. rewrite length_drop in Hi.
  rewrite lookup_drop, <- (load_lookup h p n l (k + i)) by (done || lia).
  f_equal. lia.
Qed.
End Heap.

(** ** Element traits

    [afl::base::detail::Memory*Traits]: the loops a descriptor runs on raw
    pointers. *)

(** Lexicographic comparison of two sequences by the element order [ltb]:
    -1, 0 or 1. *)
Fixpoint lex {T} `{EqDecision T} (ltb : T -> T -> bool) (la lb : list T) : Z :=
  match la, lb with
  | [], [] => 0
  | [], _ :: _ => -1
  | _ :: _, [] => 1
  | x :: la', y :: lb' =>
      if decide (x = y) then lex ltb la' lb' else if ltb x y then -1 else 1
  end.

(** Number of elements before the first one that satisfies [P]. *)
Fixpoint index_of {T} (P : T -> bool) (l : list T) : nat :=
  match l with
  | [] => 0
  | x :: l' => if P x then 0 else S (index_of P l')
  end.

(** What a descriptor needs from the traits of its element type; the laws say
    what the operations promise on mapped memory. *)
Class MemoryTraits (T : Type) := {
  mt_equal : gmap Z T -> Z -> Z -> nat -> option bool;
  mt_compare : gmap Z T -> Z -> Z -> nat -> option Z;
  mt_fill : gmap Z T -> Z -> T -> nat -> option (gmap Z T);
  mt_copy : gmap Z T -> Z -> Z -> nat -> option (gmap Z T);
  mt_find : gmap Z T -> Z -> nat -> T -> option Z
}.

Class MemoryTraitsLaws (T : Type) `{EqDecision T, MemoryTraits T}
    (elem : T -> Prop) (ltb : T -> T -> bool) := {
  mt_equal_law h a b n la lb :
    Forall elem la -> Forall elem lb ->
    load h a n = Some la -> load h b n = Some lb ->
    mt_equal h a b n = Some (bool_decide (la = lb));
  mt_compare_law h a b n la lb :
    Forall elem la -> Forall elem lb ->
    load h a n = Some la -> load h b n = Some lb ->
    exists c, mt_compare h a b n = Some c /\ Z.sgn c = lex ltb la lb;
  mt_fill_law h a v n :
    elem v -> mapped h a (Z.of_nat n) ->
    mt_fill h a v n = Some (write h a (replicate n v));
  mt_copy_law h dest src n l :
    load h src n = Some l -> mapped h dest (Z.of_nat n) ->
    mt_copy h dest src n = Some (write h dest l);
  mt_find_law h a n l v :
    elem v -> Forall elem l -> load h a n = Some l ->
    mt_find h a n v = Some (Z.of_nat (index_of (fun x => bool_decide (x = v)) l))
}.

(** *** Generic traits: loops over objects *)
Section Generic.
Context {T : Type} `{EqDecision T} (ltb : T -> T -> bool).
Implicit Types (h : gmap Z T) (a b dest src : Z).

(** [std::equal(a, a + count, b)] *)
Fixpoint gen_equal h a b (count : nat) : option bool :=
  match count with
  | O => Some true
  | S n =>
      match h !! a, h !! b with
      | Some x, Some y => if decide (x = y) then gen_equal h (a + 1) (b + 1) n else Some false
      | _, _ => None
      end
  end.

Fixpoint gen_compare h a b (count : nat) : option Z :=
  match count with
  | O => Some 0
  | S n =>
      match h !! a, h !! b with
      | Some x, Some y =>
          if decide (x = y) then gen_compare h (a + 1) (b + 1) n
          else if ltb x y then Some (-1) else Some 1
      | _, _ => None
      end
  end.

(** [std::fill_n(a, count, val)] *)
Fixpoint gen_fill h a (val : T) (count : nat) : option (gmap Z T) :=
  match count with
  | O => Some h
  | S n =>
      match store1 h a val with
      | Some h' => gen_fill h' (a + 1) val n
      | None => None
      end
  end.

(** [std::copy(src, src + count, dest)] *)
Fixpoint std_copy h src (count : nat) dest : option (gmap Z T) :=
  match count with
  | O => Some h
  | S n =>
      match h !! src with
      | Some x =>
          match store1 h dest x with
          | Some h' => std_copy h' (src + 1) n (dest + 1)
          | None => None
          end
      | None => None
      end
  end.

(** [std::copy_backward(src, src + count, dest + count)] *)
Fixpoint std_copy_backward h src (count : nat) dest : option (gmap Z T) :=
  match count with
  | O => Some h
  | S n =>
      match h !! (src + Z.of_nat n) with
      | Some x =>
          match store1 h (dest + Z.of_nat n) x with
          | Some h' => std_copy_backward h' src n dest
          | None => None
          end
      | None => None
      end
  end.

Definition gen_copy h dest src (count : nat) : option (gmap Z T) :=
  if src =? dest then Some h
  else if (src <? dest) && (dest <? src + Z.of_nat count)
  then std_copy_backward h src count dest
  else std_copy h src count dest.

(** [std::find(a, a + count, val) - a] *)
Fixpoint gen_find h a (count : nat) (val : T) : option Z :=
  match count with
  | O => Some 0
  | S n =>
      match h !! a with
      | Some x =>
          if decide (x = val) then Some 0
          else match gen_find h (a + 1) n val with
               | Some k => Some (k + 1)
               | None => None
               end
      | None => None
      end
  end.

Lemma load_S_inv h p n l :
  load h p (S n) = Some l ->
  exists x l', l = x :: l' /\ h !! p = Some x /\ load h (p + 1) n = Some l'.
Proof.
  simpl. destruct (h !! p) as [x|], (load h (p + 1) n) as [l'|]; intros; simplify_eq.
  eauto.
Qed.

Lemma gen_equal_spec h a b n la lb :
  load h a n = Some la -> load h b n = Some lb ->
  gen_equal h a b n = Some (bool_decide (la = lb)).
Proof.
  revert a b la lb. induction n as [|n IH]; intros a b la lb Ha Hb.
  - by simplify_eq/=.
  - apply load_S_inv in Ha as (x & la' & -> & Hx & Ha).
    apply load_S_inv in Hb as (y & lb' & -> & Hy & Hb).
    simpl. rewrite Hx, Hy. case_decide as Hxy.
    + rewrite (IH _ _ _ _ Ha Hb). f_equal. apply bool_decide_ext. naive_solver.
    + by rewrite bool_decide_false by naive_solver.
Qed.

Lemma gen_compare_spec h a b n la lb :
  load h a n = Some la -> load h b n = Some lb ->
  gen_compare h a b n = Some (lex ltb la lb).
Proof.
  revert a b la lb. induction n as [|n IH]; intros a b la lb Ha Hb.
  - by simplify_eq/=.
  - apply load_S_inv in Ha as (x & la' & -> & Hx & Ha).
    apply load_S_inv in Hb as (y & lb' & -> & Hy & Hb).
    simpl. rewrite Hx, Hy. case_decide; [by apply IH|]. by destruct (ltb x y).
Qed.

Lemma gen_fill_spec h a v n :
  mapped h a (Z.of_nat n) -> gen_fill h a v n = Some (write h a (replicate n v)).
Proof.
  revert h a. induction n as [|n IH]; intros h a Hm; simpl; [done|].
  unfold store1. destruct (Hm 0) as [y Hy]; [lia|]. rewrite Z.add_0_r in Hy. rewrite Hy.
  apply IH, mapped_insert. intros i Hi. rewrite <- Z.add_assoc. apply Hm. lia.
Qed.

Lemma std_copy_spec h src n dest l :
  load h src n = Some l -> mapped h dest (Z.of_nat n) ->
  dest <= src \/ src + Z.of_nat n <= dest ->
  std_copy h src n dest = Some (write h dest l).
Proof.
  revert h src dest l. induction n as [|n IH]; intros h src dest l Hl Hm Hd.
  - by simplify_eq/=.
  - apply load_S_inv in Hl as (x & l' & -> & Hx & Hl). simpl. rewrite Hx.
    unfold store1. destruct (Hm 0) as [y Hy]; [lia|]. rewrite Z.add_0_r in Hy. rewrite Hy.
    apply IH; [| |lia].
    + rewrite <- Hl. apply load_ext. intros i Hi. rewrite lookup_insert_ne; [done|lia].
    + apply mapped_insert. intros i Hi. rewrite <- Z.add_assoc. apply Hm. lia.
Qed.

Lemma std_copy_backward_spec h src n dest l :
  load h src n = Some l -> mapped h dest (Z.of_nat n) -> src <= dest ->
  std_copy_backward h src n dest = Some (write h dest l).
Proof.
  revert h l. induction n as [|n IH]; intros h l Hl Hm Hd.
  - by simplify_eq/=.
  - simpl. pose proof (load_length _ _ _ _ Hl) as Hlen.
    rewrite (load_lookup _ _ _ _ n Hl) by lia.
    destruct (lookup_lt_is_Some_2 l n) as [x Hx]; [lia|]. rewrite Hx.
    unfold store1. destruct (Hm (Z.of_nat n)) as [y Hy]; [lia|]. rewrite Hy.
    rewrite (IH _ (take n l)).
    + f_equal. apply map_eq. intros a. rewrite !lookup_write.
      rewrite length_take_le by lia. rewrite Hlen.
      do 2 case_decide; try lia.
      * rewrite lookup_take_lt by lia. done.
      * assert (a = dest + Z.of_nat n) as -> by lia. rewrite lookup_insert_eq, <- Hx.
        f_equal. lia.
      * rewrite lookup_insert_ne by lia. done.
    + rewrite <- (load_take h src (S n) l n Hl) by lia. apply load_ext.
      intros i Hi. rewrite lookup_insert_ne by lia. done.
    + apply mapped_insert. intros i Hi. apply Hm. lia.
    + done.
Qed.

Lemma write_load_id h p n l : load h p n = Some l -> write h p l = h.
Proof.
  intros Hl. apply map_eq. intros a. rewrite lookup_write.
  rewrite (load_length _ _ _ _ Hl). case_decide; [|done].
  rewrite <- (load_lookup _ _ _ _ (Z.to_nat (a - p)) Hl) by lia. f_equal. lia.
Qed.

Lemma gen_copy_spec h dest src n l :
  load h src n = Some l -> mapped h dest (Z.of_nat n) ->
  gen_copy h dest src n = Some (write h dest l).
Proof.
  intros Hl Hm. unfold gen_copy. destruct (Z.eqb_spec src dest) as [->|Hne].
  - by rewrite (write_load_id _ _ _ _ Hl).
  - destruct (Z.ltb_spec src dest), (Z.ltb_spec dest (src + Z.of_nat n)); simpl;
      first [apply std_copy_backward_spec | apply std_copy_spec]; done || lia.
Qed.

Lemma gen_find_spec h a n l v :
  load h a n = Some l ->
  gen_find h a n v = Some (Z.of_nat (index_of (fun x => bool_decide (x = v)) l)).
Proof.
  revert a l. induction n as [|n IH]; intros a l Hl.
  - by simplify_eq/=.
  - apply load_S_inv in Hl as (x & l' & -> & Hx & Hl). simpl. rewrite Hx.
    case_decide; [by rewrite bool_decide_true|].
    rewrite bool_decide_false by done. rewrite (IH _ _ Hl). f_equal. lia.
Qed.
End Generic.

Definition MemoryGenericTraits {T} `{EqDecision T} (ltb : T -> T -> bool) : MemoryTraits T := {|
  mt_equal := gen_equal;
  mt_compare := gen_compare ltb;
  mt_fill := gen_fill;
  mt_copy := gen_copy;
  mt_find := gen_find
|}.

(** *** PODs: [std::memmove] copies, the rest is generic *)
Definition memmove {T} (h : gmap Z T) (dest src : Z) (count : nat) : option (gmap Z T) :=
  match load h src count with
  | Some l => store_list h dest l
  | None => None
  end.

Definition MemoryPodTraits {T} `{EqDecision T} (ltb : T -> T -> bool) : MemoryTraits T := {|
  mt_equal := gen_equal;
  mt_compare := gen_compare ltb;
  mt_fill := gen_fill;
  mt_copy := memmove;
  mt_find := gen_find
|}.

(** *** Characters: [std::memcmp], [std::memset], [std::memmove], [std::memchr]

    Objects are [uint8_t] values.  [memcmp] only promises the sign of its
    result; the difference of the first differing bytes stands for it. *)
Fixpoint memcmp (h : gmap Z Z) (a b : Z) (count : nat) : option Z :=
  match count with
  | O => Some 0
  | S n =>
      match h !! a, h !! b with
      | Some x, Some y => if u8 x =? u8 y then memcmp h (a + 1) (b + 1) n else Some (u8 x - u8 y)
      | _, _ => None
      end
  end.

Definition memset (h : gmap Z Z) (a val : Z) (count : nat) : option (gmap Z Z) :=
  gen_fill h a (u8 val) count.

(** [memchr(a, n, count)] as the distance of the result from [a]; [None] of the
    inner option is the null pointer. *)
Fixpoint memchr (h : gmap Z Z) (a n : Z) (count : nat) : option (option Z) :=
  match count with
  | O => Some None
  | S k =>
      match h !! a with
      | Some x =>
          if u8 x =? u8 n then Some (Some 0)
          else match memchr h (a + 1) n k with
               | Some r => Some (option_map (fun d => d + 1) r)
               | None => None
               end
      | None => None
      end
  end.

Definition char_compare := memcmp.

Definition char_equal (h : gmap Z Z) (a b : Z) (count : nat) : option bool :=
  match char_compare h a b count with
  | Some c => Some (c =? 0)
  | None => None
  end.

Definition char_find (h : gmap Z Z) (a : Z) (count : nat) (n : Z) : option Z :=
  match memchr h a n count with
  | Some None => Some (Z.of_nat count)
  | Some (Some d) => Some d
  | None => None
  end.

Definition MemoryCharTraits : MemoryTraits Z := {|
  mt_equal := char_equal;
  mt_compare := char_compare;
  mt_fill := memset;
  mt_copy := memmove;
  mt_find := char_find
|}.

Lemma memmove_spec {T} (h : gmap Z T) dest src n l :
  load h src n = Some l -> mapped h dest (Z.of_nat n) ->
  memmove h dest src n = Some (write h dest l).
Proof.
  intros Hl Hm. unfold memmove. rewrite Hl. apply store_list_write.
  by rewrite (load_length _ _ _ _ Hl).
Qed.

Lemma u8_byte b : is_byte b -> u8 b = b.
Proof. intros. apply wrap_small. done. Qed.

Lemma memcmp_spec h a b n la lb :
  bytes la -> bytes lb -> load h a n = Some la -> load h b n = Some lb ->
  exists c, memcmp h a b n = Some c /\ Z.sgn c = lex Z.ltb la lb /\ (c = 0 <-> la = lb).
Proof.
  revert a b la lb. induction n as [|n IH]; intros a b la lb Fa Fb Ha Hb.
  - simplify_eq/=. by exists 0.
  - apply load_S_inv in Ha as (x & la' & -> & Hx & Ha).
    apply load_S_inv in Hb as (y & lb' & -> & Hy & Hb).
    apply Forall_cons in Fa as [Bx Fa]. apply Forall_cons in Fb as [By Fb].
    simpl. rewrite Hx, Hy, !u8_byte by done. destruct (Z.eqb_spec x y) as [->|Hne].
    + rewrite decide_True by done.
      destruct (IH _ _ _ _ Fa Fb Ha Hb) as (c & Hc & Hs & Heq). exists c.
      split; [done|]. split; [done|]. split; congruence || naive_solver.
    + rewrite decide_False by done. exists (x - y). split; [done|].
      split; [destruct (Z.ltb_spec x y); lia|]. split; [lia|]. naive_solver lia.
Qed.

Lemma memchr_spec h a c n l :
  is_byte c -> bytes l -> load h a n = Some l ->
  exists r, memchr h a c n = Some r /\
    (match r with Some d => d | None => Z.of_nat n end
     = Z.of_nat (index_of (fun x => bool_decide (x = c)) l)).
Proof.
  intros Bc. revert a l. induction n as [|n IH]; intros a l Fl Hl.
  - simplify_eq/=. eauto.
  - apply load_S_inv in Hl as (x & l' & -> & Hx & Hl).
    apply Forall_cons in Fl as [Bx Fl]. simpl. rewrite Hx, !u8_byte by done.
    destruct (Z.eqb_spec x c) as [->|Hne].
    + rewrite bool_decide_true by done. eauto.
    + rewrite bool_decide_false by done.
      destruct (IH _ _ Fl Hl) as (r & Hr & Hd). rewrite Hr. eexists. split; [done|].
      destruct r; simpl; lia.
Qed.

#[export] Instance MemoryGenericTraits_laws {T} `{EqDecision T} (ltb : T -> T -> bool) :
  @MemoryTraitsLaws T _ (MemoryGenericTraits ltb) (fun _ => True) ltb.
Proof.
  split; intros; simpl.
  - by apply gen_equal_spec.
  - eexists. split; [by apply gen_compare_spec|].
    clear. revert lb. induction la as [|x la IH]; intros [|y lb]; simpl; try done.
    case_decide; [done|]. by destruct (ltb x y).
  - by apply gen_fill_spec.
  - by apply gen_copy_spec.
  - by apply gen_find_spec.
Qed.

#[export] Instance MemoryPodTraits_laws {T} `{EqDecision T} (ltb : T -> T -> bool) :
  @MemoryTraitsLaws T _ (MemoryPodTraits ltb) (fun _ => True) ltb.
Proof.
  pose proof (MemoryGenericTraits_laws ltb) as [H1 H2 H3 H4 H5].
  split; intros; simpl; eauto using memmove_spec.
Qed.

#[export] Instance MemoryCharTraits_laws :
  @MemoryTraitsLaws Z _ MemoryCharTraits is_byte Z.ltb.
Proof.
  split; intros; simpl.
  - unfold char_equal, char_compare.
    destruct (memcmp_spec h a b n la lb) as (c & -> & _ & Hc); [done..|].
    f_equal. destruct (Z.eqb_spec c 0); [rewrite bool_decide_true|rewrite bool_decide_false];
      naive_solver.
  - destruct (memcmp_spec h a b n la lb) as (c & ? & ? & _); [done..|]. eauto.
  - unfold memset. rewrite u8_byte by done. by apply gen_fill_spec.
  - by apply memmove_spec.
  - unfold char_find. destruct (memchr_spec h a v n l) as (r & -> & Hr); [done..|].
    rewrite <- Hr. by destruct r.
Qed.

(** ** The descriptor *)
Module Mem.

Definition null : Z := 0.

Record Memory := mkMemory { m_ptr : Z; m_size : Z }.

#[export] Instance Memory_eq_dec : EqDecision Memory.
Proof. solve_decision. Defined.

(** [Memory()], [Memory(Nothing)] *)
Definition Nothing : Memory := mkMemory null 0.

(** [Memory(T (&array)[N])], [unsafeCreate(ptr, size)], [Memory(T*, size_t)] *)
Definition unsafeCreate (ptr size : Z) : Memory := mkMemory ptr size.

(** [Memory(std::vector<T>&)]: the vector is given by the address of its first
    element and its size. *)
Definition fromVector (data size : Z) : Memory :=
  mkMemory (if size =? 0 then null else data) (if size =? 0 then 0 else size).

Definition fromSingleObject (obj : Z) : Memory := mkMemory obj 1.

Definition empty (m : Memory) : bool := m_size m =? 0.
Definition size (m : Memory) : Z := m_size m.
Definition unsafeData (m : Memory) : Z := m_ptr m.

Definition subrange (m : Memory) (pos len : Z) : Memory :=
  let realPos := Z.min pos (m_size m) in
  let realSize := Z.min len (m_size m - realPos) in
  if negb (realSize =? 0) then mkMemory (m_ptr m + realPos) realSize else Nothing.

(** Returns the removed part and the updated descriptor. *)
Definition split (m : Memory) (amount : Z) : Memory * Memory :=
  let realSize := Z.min amount (m_size m) in
  let result := mkMemory (m_ptr m) realSize in
  (result,
   if negb (realSize =? 0) then mkMemory (m_ptr m + realSize) (m_size m - realSize) else m).

(** An integer type [Size_t]: signedness and width. *)
Record inttype := mkInttype { it_signed : bool; it_bits : Z }.

Definition cast (ty : inttype) (x : Z) : Z :=
  if it_signed ty then swrap (it_bits ty) x else wrap (it_bits ty) x.

Definition in_type (ty : inttype) (x : Z) : Prop :=
  if it_signed ty then in_s (it_bits ty) x else in_u (it_bits ty) x.

(** [splitUpdate<Size_t>]; [sw] is the width of [size_t].  Returns the removed
    part, the updated descriptor and the updated amount. *)
Definition splitUpdate (sw : Z) (ty : inttype) (m : Memory) (amount : Z) : Memory * Memory * Z :=
  let realSize :=
    if amount <=? 0 then 0
    else if negb (cast ty (wrap sw amount) =? amount) then m_size m
    else Z.min (wrap sw amount) (m_size m) in
  let result := mkMemory (m_ptr m) realSize in
  if negb (realSize =? 0)
  then (result, mkMemory (m_ptr m + realSize) (m_size m - realSize),
        cast ty (wrap sw (wrap sw amount - realSize)))
  else (result, m, amount).

Definition trim (m : Memory) (len : Z) : Memory :=
  mkMemory (m_ptr m) (Z.min (m_size m) len).

Definition merge (m e : Memory) : bool * Memory :=
  if m_size e =? 0 then (true, m)
  else if m_size m =? 0 then (true, e)
  else if m_ptr m + m_size m =? m_ptr e
  then (true, mkMemory (m_ptr m) (usize (m_size m + m_size e)))
  else (false, m).

Definition reset (m : Memory) : Memory := mkMemory null 0.

(** Element access: a pointer, null if there is no such element. *)
Definition at_ (m : Memory) (n : Z) : Z := if n <? m_size m then m_ptr m + n else null.

Definition eat (m : Memory) : Z * Memory :=
  if m_size m =? 0 then (null, m)
  else (m_ptr m, mkMemory (m_ptr m + 1) (m_size m - 1)).

Definition eatN (N : Z) (m : Memory) : Z * Memory :=
  if m_size m <? N then (null, m)
  else (m_ptr m, mkMemory (m_ptr m + N) (m_size m - N)).

Definition atEnd (m : Memory) (n : Z) : Z :=
  if n <? m_size m then m_ptr m + (m_size m - n - 1) else null.

Definition removeEnd (m : Memory) (n : Z) : Memory :=
  if n <? m_size m then mkMemory (m_ptr m) (m_size m - n) else mkMemory (m_ptr m) 0.

(** [operator==]: same memory. *)
Definition eq_mem (m other : Memory) : bool :=
  (m_size m =? m_size other) && ((m_size m =? 0) || (m_ptr m =? m_ptr other)).

(** *** Operations that access the store *)
Section Access.
Context {T : Type} `{EqDecision T} `{MemoryTraits T}.
Implicit Types (h : gmap Z T) (m : Memory).

Definition fill h m (elem : T) : option (gmap Z T) :=
  if negb (m_size m =? 0) then mt_fill h (m_ptr m) elem (Z.to_nat (m_size m)) else Some h.

Definition equalContent h m (other : Memory) : option bool :=
  if m_size m =? m_size other
  then if m_size m =? 0 then Some true
       else mt_equal h (m_ptr m) (m_ptr other) (Z.to_nat (m_size m))
  else Some false.

Definition compareContent h m (other : Memory) : option Z :=
  let amountToCompare := Z.min (m_size m) (m_size other) in
  let sizes :=
    if m_size m =? m_size other then 0 else if m_size m <? m_size other then -1 else 1 in
  if negb (amountToCompare =? 0)
  then match mt_compare h (m_ptr m) (m_ptr other) (Z.to_nat amountToCompare) with
       | Some delta => if negb (delta =? 0) then Some delta else Some sizes
       | None => None
       end
  else Some sizes.

(** Returns the new store and the descriptor of the copied part. *)
Definition copyFrom h m (other : Memory) : option (gmap Z T * Memory) :=
  let amountToCopy := Z.min (m_size m) (m_size other) in
  let result := mkMemory (m_ptr m) amountToCopy in
  if negb (amountToCopy =? 0)
  then match mt_copy h (m_ptr m) (m_ptr other) (Z.to_nat amountToCopy) with
       | Some h' => Some (h', result)
       | None => None
       end
  else Some (h, result).

(** Returns success, the new store and the updated descriptor. *)
Definition fullRead h m (out : Memory) : option (bool * gmap Z T * Memory) :=
  if size out <=? size m
  then let '(head, rest) := split m (size out) in
       match copyFrom h out head with
       | Some (h', _) => Some (true, h', rest)
       | None => None
       end
  else Some (false, h, reset m).

Definition find h m (elem : T) : option Z := mt_find h (m_ptr m) (Z.to_nat (m_size m)) elem.

(** [while (count < m_size && m_ptr[count] == elem) ++count;] with [n] elements
    left. *)
Fixpoint findNot_loop h (p : Z) (n : nat) (elem : T) (count : Z) : option Z :=
  match n with
  | O => Some count
  | S n' =>
      match h !! p with
      | Some x =>
          if decide (x = elem) then findNot_loop h (p + 1) n' elem (count + 1) else Some count
      | None => None
      end
  end.

Definition findNot h m (elem : T) : option Z :=
  findNot_loop h (m_ptr m) (Z.to_nat (m_size m)) elem 0.

Fixpoint findFirstOf_loop h (p : Z) (n : nat) (elems : Memory) (i : Z) : option Z :=
  match n with
  | O => Some i
  | S n' =>
      match h !! p with
      | Some x =>
          match find h elems x with
          | Some k =>
              if k =? m_size elems then findFirstOf_loop h (p + 1) n' elems (i + 1) else Some i
          | None => None
          end
      | None => None
      end
  end.

Definition findFirstOf h m (elems : Memory) : option Z :=
  if empty elems then Some (m_size m)
  else findFirstOf_loop h (m_ptr m) (Z.to_nat (m_size m)) elems 0.
End Access.

(** ** Validity and contents *)

(** A descriptor is valid in a store if its size is a [size_t] and every element
    it covers is an object at a non-null address. *)
Definition valid {T} (h : gmap Z T) (m : Memory) : Prop :=
  in_u SIZE_BITS (m_size m) /\ (m_size m <> 0 -> 0 < m_ptr m) /\ mapped h (m_ptr m) (m_size m).

Definition contents {T} (h : gmap Z T) (m : Memory) : option (list T) :=
  load h (m_ptr m) (Z.to_nat (m_size m)).

(** [within m m']: the elements of [m'] are elements of [m]. *)
Definition within (m m' : Memory) : Prop :=
  0 <= m_size m' /\
  (m_size m' = 0 \/ (m_ptr m <= m_ptr m' /\ m_ptr m' + m_size m' <= m_ptr m + m_size m)).

(** One call of an operation that makes or updates a descriptor. *)
Inductive derive : Memory -> Memory -> Prop :=
| derive_subrange m pos len : 0 <= pos -> 0 <= len -> derive m (subrange m pos len)
| derive_split_head m n : 0 <= n -> derive m (split m n).1
| derive_split_tail m n : 0 <= n -> derive m (split m n).2
| derive_splitUpdate_head sw ty m n : 0 <= sw -> derive m (splitUpdate sw ty m n).1.1
| derive_splitUpdate_tail sw ty m n : 0 <= sw -> derive m (splitUpdate sw ty m n).1.2
| derive_trim m n : 0 <= n -> derive m (trim m n)
| derive_reset m : derive m (reset m)
| derive_eat m : derive m (eat m).2
| derive_eatN N m : 0 < N -> derive m (eatN N m).2
| derive_removeEnd m n : 0 <= n -> derive m (removeEnd m n).

Lemma valid_contents {T} (h : gmap Z T) m :
  valid h m -> exists l, contents h m = Some l /\ m_size m = Z.of_nat (length l).
Proof.
  intros (Hs & _ & Hm). unfold contents. unfold in_u in Hs.
  destruct (proj1 (load_mapped h (m_ptr m) (Z.to_nat (m_size m)))) as [l Hl].
  { rewrite Z2Nat.id by lia. done. }
  exists l. split; [done|]. rewrite (load_length _ _ _ _ Hl). lia.
Qed.

Lemma contents_size {T} (h : gmap Z T) m l :
  0 <= m_size m -> contents h m = Some l -> m_size m = Z.of_nat (length l).
Proof. intros ? Hl. rewrite (load_length _ _ _ _ Hl). lia. Qed.

Lemma within_refl m : 0 <= m_size m -> within m m.
Proof. unfold within. lia. Qed.

Lemma within_trans m1 m2 m3 : within m1 m2 -> within m2 m3 -> within m1 m3.
Proof. unfold within. lia. Qed.

Lemma within_valid {T} (h : gmap Z T) m m' : valid h m -> within m m' -> valid h m'.
Proof.
  unfold valid, within, in_u. intros (Hs & Hp & Hm) (H0 & Hw).
  split; [|split].
  - lia.
  - intros. lia.
  - intros i Hi. destruct Hw as [|[H1 H2]]; [lia|].
    replace (m_ptr m' + i) with (m_ptr m + (m_ptr m' - m_ptr m + i)) by lia.
    apply Hm. lia.
Qed.

Lemma derive_within m m' : 0 <= m_size m -> derive m m' -> within m m'.
Proof.
  intros Hs Hd. destruct Hd; unfold within;
    cbv [subrange split splitUpdate trim reset eat eatN removeEnd Nothing];
    try pose proof (wrap_range sw n ltac:(assumption));
    repeat (zcases; simpl in * ); simpl; lia.
Qed.

Section MemoryProps.
Context {T : Type} `{EqDecision T} (elem : T -> Prop) (ltb : T -> T -> bool).
Context `{!MemoryTraits T, !MemoryTraitsLaws T elem ltb}.
Implicit Types (h : gmap Z T) (m : Memory) (l : list T).

(** Memory safety of descriptors: whatever sequence of descriptor
    operations (subrange, split, splitUpdate, trim, reset, eat, eatN,
    removeEnd, with any arguments) is applied to a valid descriptor, the
    result is valid and covers only elements of the original. *)
Lemma derived_descriptor_safe h m m' :
  valid h m -> rtc derive m m' -> valid h m' /\ within m m'.
Proof.
  intros Hv Hd. assert (within m m') as Hw.
  { assert (0 <= m_size m) as Hs by (destruct Hv as [Hs _]; apply Hs). clear Hv.
    induction Hd as [m|m1 m2 m3 H12 H23 IH]; [by apply within_refl|].
    apply derive_within in H12; [|done]. eapply within_trans; [done|].
    apply IH. unfold within in H12. lia. }
  split; [|done]. by eapply within_valid.
Qed.

(** ** Contents of derived descriptors *)

Lemma contents_prefix h m l (k : nat) :
  contents h m = Some l -> (k <= length l)%nat ->
  load h (m_ptr m) k = Some (take k l).
Proof.
  unfold contents. intros Hl Hk. rewrite (load_length _ _ _ _ Hl) in Hk.
  eapply load_take; [done|lia].
Qed.

Lemma contents_suffix h m l (k : nat) :
  contents h m = Some l -> (k <= length l)%nat ->
  load h (m_ptr m + Z.of_nat k) (length l - k) = Some (drop k l).
Proof.
  unfold contents. intros Hl Hk. pose proof (load_length _ _ _ _ Hl) as E.
  rewrite E in Hk |- *. by apply load_drop.
Qed.

Lemma contents_split h m l n :
  valid h m -> contents h m = Some l -> 0 <= n ->
  contents h (split m n).1 = Some (take (Z.to_nat n) l) /\
  contents h (split m n).2 = Some (drop (Z.to_nat n) l).
Proof.
  intros [Hs _] Hl Hn. unfold in_u in Hs.
  pose proof (contents_size _ _ _ (proj1 Hs) Hl) as Hsz.
  unfold split. simpl. split.
  - unfold contents at 1. simpl.
    replace (Z.to_nat (Z.min n (m_size m))) with (Nat.min (Z.to_nat n) (length l)) by lia.
    rewrite (contents_prefix _ _ _ _ Hl) by lia. by rewrite <- take_take, firstn_all.
  - destruct (Z.eqb_spec (Z.min n (m_size m)) 0) as [E|E]; simpl.
    + rewrite Hl. destruct (decide (n = 0)) as [->|]; [done|].
      destruct l; [by rewrite drop_nil|simpl in *; lia].
    + unfold contents at 1. simpl. destruct (decide (n <= m_size m)).
      * rewrite Z.min_l by lia.
        replace (m_ptr m + n) with (m_ptr m + Z.of_nat (Z.to_nat n)) by lia.
        replace (Z.to_nat (m_size m - n)) with (length l - Z.to_nat n)%nat by lia.
        apply contents_suffix; [done|lia].
      * rewrite drop_ge by lia. replace (Z.to_nat _) with 0%nat by lia. done.
Qed.

Lemma contents_subrange h m l pos len :
  valid h m -> contents h m = Some l -> 0 <= pos -> 0 <= len ->
  contents h (subrange m pos len) = Some (take (Z.to_nat len) (drop (Z.to_nat pos) l)).
Proof.
  intros [Hs _] Hl Hp Hn. unfold in_u in Hs.
  pose proof (contents_size _ _ _ (proj1 Hs) Hl) as Hsz. unfold subrange.
  destruct (Z.eqb_spec (Z.min len (m_size m - Z.min pos (m_size m))) 0) as [E|E]; simpl.
  - destruct (decide (len = 0)) as [->|]; [done|]. rewrite drop_ge by lia.
    by rewrite take_nil.
  - unfold contents at 1. simpl. assert (pos < m_size m) by lia.
    rewrite (Z.min_l pos) in E |- * by lia.
    replace (m_ptr m + pos) with (m_ptr m + Z.of_nat (Z.to_nat pos)) by lia.
    pose proof (contents_suffix h m l (Z.to_nat pos) Hl ltac:(lia)) as Hd.
    rewrite (load_take _ _ _ _ (Z.to_nat (Z.min len (m_size m - pos))) Hd) by lia.
    f_equal. destruct (decide (len <= m_size m - pos)).
    + by rewrite Z.min_l by lia.
    + rewrite !take_ge; [done|rewrite length_drop; lia|rewrite length_drop; lia].
Qed.

Lemma contents_trim h m l n :
  valid h m -> contents h m = Some l -> 0 <= n ->
  contents h (trim m n) = Some (take (Z.to_nat n) l).
Proof.
  intros [Hs _] Hl Hn. unfold in_u in Hs.
  pose proof (contents_size _ _ _ (proj1 Hs) Hl) as Hsz. unfold contents at 1. simpl.
  replace (Z.to_nat (Z.min (m_size m) n)) with (Nat.min (Z.to_nat n) (length l)) by lia.
  rewrite (contents_prefix _ _ _ _ Hl) by lia. by rewrite <- take_take, firstn_all.
Qed.

Lemma contents_eat h m l :
  valid h m -> contents h m = Some l ->
  contents h (eat m).2 = Some (tail l) /\
  ((eat m).1 = null <-> l = []) /\
  (forall x l', l = x :: l' -> h !! (eat m).1 = Some x).
Proof.
  intros (Hs & Hp & _) Hl. unfold in_u in Hs.
  pose proof (contents_size _ _ _ (proj1 Hs) Hl) as Hsz. unfold eat.
  destruct (Z.eqb_spec (m_size m) 0) as [E|E]; simpl.
  - destruct l; [|simpl in *; lia]. naive_solver.
  - destruct l as [|x l]; [simpl in *; lia|]. simpl in Hsz.
    unfold contents in *. rewrite Hsz, Nat2Z.id in Hl.
    apply load_S_inv in Hl as (y & l' & [= <- <-] & Hx & Hl').
    simpl. replace (Z.to_nat (m_size m - 1)) with (length l) by lia.
    specialize (Hp E). unfold null. split; [done|]. split; [split; intros; [lia|done]|].
    naive_solver.
Qed.

(** The contents of descriptors obtained by split and subrange are the
    corresponding pieces of the original contents, for any requested amount
    (out-of-range requests are truncated), and merging the two halves of a
    split gives back the original descriptor. *)
Lemma split_subrange_contents h m l n pos len :
  valid h m -> contents h m = Some l -> 0 <= n -> 0 <= pos -> 0 <= len ->
  contents h (split m n).1 = Some (take (Z.to_nat n) l) /\
  contents h (split m n).2 = Some (drop (Z.to_nat n) l) /\
  contents h (subrange m pos len) = Some (take (Z.to_nat len) (drop (Z.to_nat pos) l)) /\
  merge (split m n).1 (split m n).2 = (true, m).
Proof.
  intros Hv Hl Hn Hp Hlen.
  destruct (contents_split h m l n) as [H1 H2]; [done..|].
  split; [done|]. split; [done|]. split; [by apply contents_subrange|].
  destruct Hv as [Hs _]. unfold in_u in Hs. destruct m as [p s]. simpl in *.
  unfold split, merge. simpl.
  repeat (zcases; simpl in * ); try lia; repeat f_equal; try lia.
  unfold usize. rewrite wrap_small by lia. lia.
Qed.

(** Memory descriptors.  Whatever sequence of descriptor operations
    (subrange, split, splitUpdate, trim, reset, eat, eatN, removeEnd, with any
    arguments) is applied to a valid descriptor, the result is valid and covers
    only elements of the original.  The contents of descriptors obtained by split
    and subrange are the corresponding pieces of the original contents, and merging
    the two halves of a split gives back the original descriptor. *)
Theorem descriptors_correct :
  (forall h m m',
  valid h m -> rtc derive m m' -> valid h m' /\ within m m') /\
  (forall h m l n pos len,
  valid h m -> contents h m = Some l -> 0 <= n -> 0 <= pos -> 0 <= len ->
  contents h (split m n).1 = Some (take (Z.to_nat n) l) /\
  contents h (split m n).2 = Some (drop (Z.to_nat n) l) /\
  contents h (subrange m pos len) = Some (take (Z.to_nat len) (drop (Z.to_nat pos) l)) /\
  merge (split m n).1 (split m n).2 = (true, m)).
Proof. exact (conj derived_descriptor_safe split_subrange_contents). Qed.

(** ** Copying *)

Lemma copyFrom_write h m other lo :
  valid h m -> valid h other -> contents h other = Some lo ->
  copyFrom h m other =
    Some (write h (m_ptr m) (take (Z.to_nat (m_size m)) lo),
          mkMemory (m_ptr m) (Z.min (m_size m) (m_size other))).
Proof.
  intros (Hs & _ & Hm) (Hso & _) Hlo. unfold in_u in *.
  pose proof (contents_size _ _ _ (proj1 Hso) Hlo) as Hsz. unfold copyFrom.
  destruct (Z.eqb_spec (Z.min (m_size m) (m_size other)) 0) as [E|E]; simpl.
  - assert (take (Z.to_nat (m_size m)) lo = []) as ->; [|done].
    apply nil_length_inv. rewrite length_take. lia.
  - erewrite mt_copy_law; [|apply (contents_prefix _ _ _ _ Hlo); lia|].
    + do 3 f_equal. destruct (decide (m_size m <= m_size other)).
      * by rewrite Z.min_l by lia.
      * rewrite !take_ge; [done|lia|lia].
    + intros i Hi. apply Hm. lia.
Qed.

Lemma copyFrom_spec h m other lm lo :
  valid h m -> valid h other -> contents h m = Some lm -> contents h other = Some lo ->
  exists h' r, copyFrom h m other = Some (h', r) /\
    contents h' r = Some (take (length lm) lo) /\
    contents h' m = Some (take (length lm) lo ++ drop (length lo) lm) /\
    (forall a, ~ (m_ptr m <= a < m_ptr m + m_size r) -> h' !! a = h !! a) /\
    m_size r = Z.min (m_size m) (m_size other) /\ within m r.
Proof.
  intros Hv Hvo Hlm Hlo. rewrite (copyFrom_write h m other lo) by done.
  destruct Hv as (Hs & Hp & Hm), Hvo as (Hso & _). unfold in_u in *.
  pose proof (contents_size _ _ _ (proj1 Hs) Hlm) as Hsz.
  pose proof (contents_size _ _ _ (proj1 Hso) Hlo) as Hszo.
  rewrite Hsz, Nat2Z.id. set (c := take (length lm) lo).
  assert (length c = Nat.min (length lm) (length lo)) as Hc by apply length_take.
  eexists _, _. split; [done|]. split; [|split; [|split; [|split]]].
  - unfold contents. simpl. replace (Z.to_nat _) with (length c) by lia.
    apply load_write_same.
  - unfold contents. replace (Z.to_nat (m_size m)) with (length c + (length lm - length c))%nat by lia.
    rewrite load_app, load_write_same, load_write_disjoint by lia.
    rewrite (contents_suffix _ _ _ _ Hlm) by lia. do 2 f_equal.
    destruct (decide (length lm <= length lo)%nat); [|f_equal; lia].
    rewrite !drop_ge; [done|lia|lia].
  - simpl. intros a Ha. rewrite lookup_write, decide_False by lia. done.
  - simpl. lia.
  - unfold within. simpl. lia.
Qed.

(** ** Comparison *)

Lemma lex_app_prefix (la lb : list T) :
  lex ltb la lb =
  (let n := Nat.min (length la) (length lb) in
   let c := lex ltb (take n la) (take n lb) in
   if c =? 0 then Z.sgn (Z.of_nat (length la) - Z.of_nat (length lb)) else c).
Proof.
  revert lb. induction la as [|x la IH]; intros [|y lb]; simpl; try done; try lia.
  case_decide.
  - rewrite IH. simpl. destruct (_ =? 0); [f_equal; lia|done].
  - by destruct (ltb x y).
Qed.

Lemma lex_eq_0 (la lb : list T) : lex ltb la lb = 0 <-> la = lb.
Proof.
  revert lb. induction la as [|x la IH]; intros [|y lb]; simpl; try naive_solver.
  case_decide as Hxy; [naive_solver|]. destruct (ltb x y); naive_solver.
Qed.

(** CompareContent orders descriptors lexicographically by their contents
    (negative when this one comes first), and equalContent decides equality
    of contents; both are total on valid descriptors. *)
Lemma compareContent_lex h m other lm lo :
  valid h m -> valid h other -> contents h m = Some lm -> contents h other = Some lo ->
  Forall elem lm -> Forall elem lo ->
  (exists c, compareContent h m other = Some c /\ Z.sgn c = lex ltb lm lo) /\
  equalContent h m other = Some (bool_decide (lm = lo)).
Proof.
  intros (Hs & _) (Hso & _) Hlm Hlo Fm Fo. unfold in_u in *.
  pose proof (contents_size _ _ _ (proj1 Hs) Hlm) as Hsz.
  pose proof (contents_size _ _ _ (proj1 Hso) Hlo) as Hszo. split.
  - unfold compareContent. rewrite lex_app_prefix. simpl.
    assert (Z.sgn (if m_size m =? m_size other then 0 else if m_size m <? m_size other then -1 else 1)
            = Z.sgn (Z.of_nat (length lm) - Z.of_nat (length lo))) as Hss
      by (zcases; lia).
    replace (Z.to_nat (Z.min _ _)) with (Nat.min (length lm) (length lo)) by lia.
    destruct (Z.eqb_spec (Z.min (m_size m) (m_size other)) 0) as [E|E]; simpl.
    + replace (Nat.min (length lm) (length lo)) with 0%nat by lia. simpl. eauto.
    + edestruct mt_compare_law as (c & -> & Hc);
        [| |apply (contents_prefix _ _ _ _ Hlm); lia|apply (contents_prefix _ _ _ _ Hlo); lia|];
        [by apply Forall_take..|].
      rewrite <- Hc. destruct (Z.eqb_spec c 0) as [->|]; simpl; [eauto|].
      rewrite (proj2 (Z.eqb_neq (Z.sgn c) 0)) by lia. eauto.
  - unfold equalContent. destruct (Z.eqb_spec (m_size m) (m_size other)) as [E|E].
    + destruct (Z.eqb_spec (m_size m) 0) as [E0|E0].
      * destruct lm, lo; simpl in *; try lia. done.
      * eapply mt_equal_law; [apply Fm|apply Fo|done|]. by rewrite E.
    + rewrite bool_decide_false; [done|]. intros ->. lia.
Qed.

(** ** Searching *)

Lemma index_of_le (P : T -> bool) l : (index_of P l <= length l)%nat.
Proof. induction l as [|x l IH]; simpl; [lia|]. destruct (P x); lia. Qed.

Lemma index_of_before (P : T -> bool) l i x :
  (i < index_of P l)%nat -> l !! i = Some x -> P x = false.
Proof.
  revert i. induction l as [|y l IH]; intros i; simpl; [lia|].
  destruct (P y) eqn:E; [lia|]. destruct i; simpl; [naive_solver|].
  intros. eapply IH; [|done]. lia.
Qed.

Lemma index_of_at (P : T -> bool) l x : l !! index_of P l = Some x -> P x = true.
Proof.
  induction l as [|y l IH]; simpl; [done|]. destruct (P y) eqn:E; simpl; naive_solver.
Qed.

Lemma index_of_none (P : T -> bool) l :
  (forall x, x ∈ l -> P x = false) -> index_of P l = length l.
Proof.
  induction l as [|y l IH]; intros HP; simpl; [done|]. rewrite (HP y) by left.
  f_equal. apply IH. intros x Hx. apply HP. by right.
Qed.

Lemma index_of_not_found l v :
  index_of (fun x => bool_decide (x = v)) l = length l <-> v ∉ l.
Proof.
  split.
  - intros Hi Hv. apply list_elem_of_lookup in Hv as [i Hi'].
    pose proof (lookup_lt_Some _ _ _ Hi').
    pose proof (index_of_before (fun x => bool_decide (x = v)) l i v ltac:(lia) Hi') as Hf.
    simpl in Hf. by rewrite bool_decide_true in Hf.
  - intros Hv. destruct (l !! index_of (fun x => bool_decide (x = v)) l) as [x|] eqn:E.
    + pose proof (index_of_at _ _ _ E) as Hx. apply bool_decide_eq_true in Hx as ->.
      apply list_elem_of_lookup_2 in E. done.
    + apply lookup_ge_None in E.
      pose proof (index_of_le (fun x => bool_decide (x = v)) l). lia.
Qed.

Lemma findNot_loop_spec h p n v l c :
  load h p n = Some l ->
  findNot_loop h p n v c = Some (c + Z.of_nat (index_of (fun x => negb (bool_decide (x = v))) l)).
Proof.
  revert p l c. induction n as [|n IH]; intros p l c Hl.
  - simplify_eq/=. f_equal. lia.
  - apply load_S_inv in Hl as (x & l' & -> & Hx & Hl). simpl. rewrite Hx.
    case_decide; simpl.
    + rewrite bool_decide_true by done. simpl. rewrite (IH _ _ _ Hl). f_equal. lia.
    + rewrite bool_decide_false by done. simpl. f_equal. lia.
Qed.

Lemma findFirstOf_loop_spec h p n elems le l i :
  valid h elems -> contents h elems = Some le -> Forall elem le -> Forall elem l ->
  load h p n = Some l ->
  findFirstOf_loop h p n elems i =
    Some (i + Z.of_nat (index_of (fun x => bool_decide (x ∈ le)) l)).
Proof.
  intros (Hs & _) Hle Fe. revert p l i.
  pose proof (contents_size _ _ _ (proj1 Hs) Hle) as Hsz.
  induction n as [|n IH]; intros p l i Fl Hl.
  - simplify_eq/=. f_equal. lia.
  - apply load_S_inv in Hl as (x & l' & -> & Hx & Hl). simpl. rewrite Hx.
    apply Forall_cons in Fl as [Fx Fl]. unfold find.
    rewrite (mt_find_law _ _ _ _ _ Fx Fe Hle).
    destruct (Z.eqb_spec (Z.of_nat (index_of (fun y => bool_decide (y = x)) le)) (m_size elems)) as [E|E].
    + assert (x ∉ le) by (apply index_of_not_found; lia).
      rewrite bool_decide_false by done. rewrite (IH _ _ _ Fl Hl). f_equal. lia.
    + rewrite bool_decide_true; [f_equal; lia|].
      destruct (decide (x ∈ le)) as [|Hn]; [done|]. apply index_of_not_found in Hn. lia.
Qed.

(** The search functions return the position of the first element they
    look for, and the size if there is none: find looks for one value,
    findNot for the first different value, findFirstOf for any value of a
    second descriptor. *)
Lemma search_correct h m elems l le v :
  valid h m -> valid h elems -> contents h m = Some l -> contents h elems = Some le ->
  Forall elem l -> Forall elem le -> elem v ->
  find h m v = Some (Z.of_nat (index_of (fun x => bool_decide (x = v)) l)) /\
  findNot h m v = Some (Z.of_nat (index_of (fun x => negb (bool_decide (x = v))) l)) /\
  findFirstOf h m elems = Some (Z.of_nat (index_of (fun x => bool_decide (x ∈ le)) l)).
Proof.
  intros Hv Hve Hl Hle Fl Fe Fv. split; [|split].
  - unfold find. by apply mt_find_law.
  - unfold findNot. erewrite findNot_loop_spec by apply Hl. f_equal.
  - unfold findFirstOf, empty. destruct (Z.eqb_spec (m_size elems) 0) as [E|E].
    + rewrite (contents_size _ _ _ (proj1 (proj1 Hve)) Hle) in E.
      destruct le; [|simpl in *; lia]. f_equal.
      rewrite (contents_size _ _ _ (proj1 (proj1 Hv)) Hl). f_equal.
      symmetry. apply index_of_none. intros x _. apply bool_decide_eq_false. set_solver.
    + by rewrite (findFirstOf_loop_spec h _ _ _ _ _ _ Hve Hle Fe Fl Hl).
Qed.

(** ** Reading through a descriptor *)

(** FullRead either fills the output completely with the first elements and
    removes them from the descriptor, or, if there are too few, leaves the
    store alone and makes the descriptor empty. *)
Lemma fullRead_correct h m out l lo :
  valid h m -> valid h out -> contents h m = Some l -> contents h out = Some lo ->
  (forall a, m_ptr m <= a < m_ptr m + m_size m ->
             m_ptr out <= a < m_ptr out + m_size out -> False) ->
  exists ok h' m', fullRead h m out = Some (ok, h', m') /\
    ok = bool_decide (length lo <= length l)%nat /\
    (if ok
     then contents h' out = Some (take (length lo) l) /\ contents h' m' = Some (drop (length lo) l)
     else h' = h /\ m' = Nothing).
Proof.
  intros Hv Hvo Hl Hlo Hdis. unfold fullRead, size.
  pose proof (contents_size _ _ _ (proj1 (proj1 Hv)) Hl) as Hsz.
  pose proof (contents_size _ _ _ (proj1 (proj1 Hvo)) Hlo) as Hszo.
  destruct (Z.leb_spec (m_size out) (m_size m)) as [Hle|Hgt].
  2: { eexists _, _, _. split; [done|]. rewrite bool_decide_false by lia. done. }
  destruct (contents_split h m l (m_size out) Hv Hl ltac:(lia)) as [Hhead Htail].
  assert (valid h (split m (m_size out)).1) as Hvh.
  { apply (within_valid h m); [done|]. apply derive_within; [lia|]. constructor. lia. }
  destruct (copyFrom_spec h out (split m (m_size out)).1 lo _ Hvo Hvh Hlo Hhead)
    as (h' & r & Hcp & _ & Hout & Hframe & Hr & _).
  destruct (split m (m_size out)) as [head rest] eqn:Es. simpl in *. rewrite Hcp.
  eexists _, _, _. split; [done|]. rewrite bool_decide_true by lia. split; [done|].
  rewrite Hszo, Nat2Z.id in *. split.
  - rewrite Hout. rewrite take_take, Nat.min_id. rewrite drop_ge, app_nil_r; [done|].
    rewrite length_take. lia.
  - rewrite <- Htail. apply load_ext. intros i Hi. apply Hframe. intros Ha.
    assert (within m rest) as Hw.
    { apply derive_within; [lia|]. replace rest with (split m (Z.of_nat (length lo))).2 by by rewrite Es.
      constructor. lia. }
    unfold within in Hw. apply (Hdis (m_ptr rest + i)); lia.
Qed.

(** Queries on descriptors.  compareContent is the three-way lexicographic
    comparison of the contents and equalContent their equality; find, findNot and
    findFirstOf return the index of the first matching element, or the size;
    fullRead fills the output completely from the start and consumes what it
    copied, or fails, consumes everything and writes nothing. *)
Theorem memory_queries_correct :
  (forall h m other lm lo,
  valid h m -> valid h other -> contents h m = Some lm -> contents h other = Some lo ->
  Forall elem lm -> Forall elem lo ->
  (exists c, compareContent h m other = Some c /\ Z.sgn c = lex ltb lm lo) /\
  equalContent h m other = Some (bool_decide (lm = lo))) /\
  (forall h m elems l le v,
  valid h m -> valid h elems -> contents h m = Some l -> contents h elems = Some le ->
  Forall elem l -> Forall elem le -> elem v ->
  find h m v = Some (Z.of_nat (index_of (fun x => bool_decide (x = v)) l)) /\
  findNot h m v = Some (Z.of_nat (index_of (fun x => negb (bool_decide (x = v))) l)) /\
  findFirstOf h m elems = Some (Z.of_nat (index_of (fun x => bool_decide (x ∈ le)) l))) /\
  (forall h m out l lo,
  valid h m -> valid h out -> contents h m = Some l -> contents h out = Some lo ->
  (forall a, m_ptr m <= a < m_ptr m + m_size m ->
             m_ptr out <= a < m_ptr out + m_size out -> False) ->
  exists ok h' m', fullRead h m out = Some (ok, h', m') /\
    ok = bool_decide (length lo <= length l)%nat /\
    (if ok
     then contents h' out = Some (take (length lo) l) /\ contents h' m' = Some (drop (length lo) l)
     else h' = h /\ m' = Nothing)).
Proof. exact (conj compareContent_lex (conj search_correct fullRead_correct)). Qed.
End MemoryProps.

(** copyFrom is memmove: it copies as many elements as both sides have,
    the copied elements are those the source had before the call even if
    source and target overlap, the rest of the target and everything outside
    it is unchanged, and the returned descriptor covers exactly the copy.  The
    element-wise loops of the generic traits, with their overlap test, give
    the same result as the library's memmove. *)
Theorem copyFrom_correct {T} `{EqDecision T} (ltb : T -> T -> bool) (h : gmap Z T) m other lm lo :
  valid h m -> valid h other -> contents h m = Some lm -> contents h other = Some lo ->
  exists h' r,
    @copyFrom T (MemoryGenericTraits ltb) h m other = Some (h', r) /\
    @copyFrom T (MemoryPodTraits ltb) h m other = Some (h', r) /\
    contents h' r = Some (take (length lm) lo) /\
    contents h' m = Some (take (length lm) lo ++ drop (length lo) lm) /\
    (forall a, ~ (m_ptr m <= a < m_ptr m + m_size r) -> h' !! a = h !! a) /\
    m_size r = Z.min (m_size m) (m_size other) /\ within m r.
Proof.
  intros Hv Hvo Hlm Hlo.
  destruct (@copyFrom_spec T _ _ ltb (MemoryGenericTraits ltb) _ h m other lm lo)
    as (h' & r & Hc & Hrest); [done..|].
  exists h', r. split; [done|]. split; [|done]. rewrite <- Hc.
  by rewrite !(@copyFrom_write T _ _ ltb _ _ h m other lo).
Qed.

(** ** Splitting with arbitrary integer types *)

Lemma cast_id ty x : 0 <= it_bits ty -> in_type ty x -> cast ty x = x.
Proof.
  unfold in_type, cast, in_s, in_u. intros Hb Hx. destruct (it_signed ty).
  - unfold swrap, wrap. destruct (decide (it_bits ty = 0)) as [E|E].
    { rewrite E in *. rewrite Z.pow_neg_r in Hx by lia. lia. }
    assert (2 ^ it_bits ty = 2 * 2 ^ (it_bits ty - 1)) as E2.
    { rewrite <- Z.pow_succ_r by lia. f_equal. lia. }
    destruct (decide (0 <= x)).
    + rewrite Z.mod_small by lia. zcases; lia.
    + replace (x mod 2 ^ it_bits ty) with (x + 2 ^ it_bits ty).
      * zcases; lia.
      * rewrite <- (Z_mod_plus_full x 1). rewrite Z.mod_small; lia.
  - by apply wrap_small.
Qed.

(** SplitUpdate removes max(0, min(amount, size)) elements and reduces the
    amount by exactly the number of removed elements, for every integer type
    of the amount (any width and signedness), as long as the amount is
    representable as a size_t. *)
Lemma splitUpdate_correct sw ty m amount :
  0 <= sw -> 0 <= it_bits ty -> in_type ty amount -> amount < 2 ^ sw ->
  0 <= m_size m < 2 ^ sw ->
  let k := Z.max 0 (Z.min amount (m_size m)) in
  splitUpdate sw ty m amount = ((split m k).1, (split m k).2, amount - k).
Proof.
  intros Hsw Hb Hty Ha Hs. unfold splitUpdate, split. simpl.
  destruct (Z.leb_spec amount 0) as [Hle|Hgt]; simpl.
  - rewrite (Z.max_l 0) by lia. rewrite Z.min_l by lia. simpl. f_equal. lia.
  - rewrite (wrap_small sw amount) by lia. rewrite cast_id by done.
    rewrite Z.eqb_refl. simpl. rewrite Z.max_r by lia.
    assert (cast ty (wrap sw (amount - Z.min amount (m_size m))) = amount - Z.min amount (m_size m)) as Hc.
    { rewrite wrap_small by lia. apply cast_id; [done|].
      unfold in_type, in_s, in_u in *. destruct (it_signed ty); [|lia].
      pose proof (Z.pow_nonneg 2 (it_bits ty - 1)). lia. }
    rewrite Hc. replace (Z.min (Z.min amount (m_size m)) (m_size m)) with (Z.min amount (m_size m)) by lia.
    destruct (Z.eqb_spec (Z.min amount (m_size m)) 0); simpl; [|done]. do 2 f_equal. lia.
Qed.

(** The amount is not updated correctly for a 64-bit amount of 2^32 or more
    where size_t has 32 bits: splitting 10 elements off a request of 2^33
    leaves 2^32 - 10 instead of 2^33 - 10. *)
Lemma splitUpdate_narrow_size_t :
  splitUpdate 32 (mkInttype false 64) (mkMemory 1000 10) (2 ^ 33)
  = (mkMemory 1000 10, mkMemory 1010 0, 2 ^ 32 - 10).
Proof. reflexivity. Qed.

(** splitUpdate.  With an amount that fits in size_t it removes
    max(0, min(amount, size)) elements and reduces the amount by what was taken.
    With a 32-bit size_t and a 64-bit amount of 2^32 or more, the amount is
    truncated first and the remaining amount is wrong. *)
Theorem splitUpdate_behaviour :
  (forall sw ty m amount,
  0 <= sw -> 0 <= it_bits ty -> in_type ty amount -> amount < 2 ^ sw ->
  0 <= m_size m < 2 ^ sw ->
  let k := Z.max 0 (Z.min amount (m_size m)) in
  splitUpdate sw ty m amount = ((split m k).1, (split m k).2, amount - k)) /\
  (splitUpdate 32 (mkInttype false 64) (mkMemory 1000 10) (2 ^ 33)
  = (mkMemory 1000 10, mkMemory 1010 0, 2 ^ 32 - 10)).
Proof. exact (conj splitUpdate_correct splitUpdate_narrow_size_t). Qed.

(** ** Examples of the theorems at work *)

(** Six bytes at address 100, three more at address 200. *)
Definition ex_heap : gmap Z Z :=
  write ∅ 100 [104; 101; 108; 108; 111; 33] ∪ write ∅ 200 [108; 120; 121].

Lemma valid_intro {T} (h : gmap Z T) m l :
  contents h m = Some l -> 0 <= m_size m < 2 ^ SIZE_BITS -> 0 < m_ptr m -> valid h m.
Proof.
  intros Hl Hs Hp. split; [done|]. split; [done|].
  unfold contents in Hl. apply load_Some_mapped in Hl. by rewrite Z2Nat.id in Hl by lia.
Qed.

Ltac ex_valid l :=
  apply (valid_intro _ _ l); [vm_compute; reflexivity|unfold SIZE_BITS; simpl; lia|simpl; lia].

Lemma descriptors_correct_witness :
  valid ex_heap (removeEnd (split (mkMemory 100 6) 2).2 1) /\
  contents ex_heap (subrange (mkMemory 100 6) 1 99) = Some [101; 108; 108; 111; 33].
Proof.
  assert (valid ex_heap (mkMemory 100 6)) as Hv by ex_valid [104; 101; 108; 108; 111; 33].
  destruct (@descriptors_correct Z) as [H1 H2]. split.
  - apply (H1 ex_heap (mkMemory 100 6)); [done|].
    eapply rtc_l; [apply derive_split_tail with (n := 2); lia|]. apply rtc_once. apply derive_removeEnd. lia.
  - apply (H2 ex_heap (mkMemory 100 6) [104; 101; 108; 108; 111; 33] 4 1 99); [done|done|lia..].
Defined.

(** Overlapping copy: "hello!" shifted up by one within itself. *)
Lemma copyFrom_correct_witness :
  exists h' r, @copyFrom Z (MemoryGenericTraits Z.ltb) ex_heap (mkMemory 101 5) (mkMemory 100 5) = Some (h', r) /\
    contents h' (mkMemory 100 6) = Some [104; 104; 101; 108; 108; 111].
Proof.
  destruct (copyFrom_correct Z.ltb ex_heap (mkMemory 101 5) (mkMemory 100 5)
              [101; 108; 108; 111; 33] [104; 101; 108; 108; 111])
    as (h' & r & Hc & _); [ex_valid [101; 108; 108; 111; 33]|ex_valid [104; 101; 108; 108; 111]|done..|].
  exists h', r. split; [exact Hc|]. vm_compute in Hc. injection Hc as <- _. reflexivity.
Defined.

Lemma memory_queries_correct_witness :
  @equalContent Z MemoryCharTraits ex_heap (mkMemory 102 1) (mkMemory 200 1) = Some true /\
  @findFirstOf Z MemoryCharTraits ex_heap (mkMemory 100 6) (mkMemory 200 3) = Some 2 /\
  exists h' m', @fullRead Z MemoryCharTraits ex_heap (mkMemory 100 6) (mkMemory 200 3) = Some (true, h', m')
    /\ contents h' (mkMemory 200 3) = Some [104; 101; 108].
Proof.
  destruct (@memory_queries_correct Z _ is_byte Z.ltb MemoryCharTraits MemoryCharTraits_laws) as (H1 & H2 & H3).
  split; [|split].
  - apply (H1 ex_heap (mkMemory 102 1) (mkMemory 200 1) [108] [108]);
      [ex_valid [108]|ex_valid [108]|done|done|by apply (bool_decide_unpack _)..].
  - apply (H2 ex_heap (mkMemory 100 6) (mkMemory 200 3) [104; 101; 108; 108; 111; 33] [108; 120; 121] 0);
      [ex_valid [104; 101; 108; 108; 111; 33]|ex_valid [108; 120; 121]|done|done|
       by apply (bool_decide_unpack _)..].
  - destruct (H3 ex_heap (mkMemory 100 6) (mkMemory 200 3) [104; 101; 108; 108; 111; 33] [108; 120; 121])
      as (ok & h' & m' & Hr & -> & Hres);
      [ex_valid [104; 101; 108; 108; 111; 33]|ex_valid [108; 120; 121]|done|done|simpl; lia|].
    exists h', m'. split; [exact Hr|]. apply Hres.
Defined.

(** A negative 16-bit amount removes nothing; 4 of a request for 7 are missing. *)
Lemma splitUpdate_behaviour_witness :
  splitUpdate 64 (mkInttype true 16) (mkMemory 200 3) (-5) = (mkMemory 200 0, mkMemory 200 3, -5) /\
  splitUpdate 64 (mkInttype true 16) (mkMemory 200 3) 7 = (mkMemory 200 3, mkMemory 203 0, 4).
Proof.
  split.
  - apply (proj1 splitUpdate_behaviour 64 (mkInttype true 16) (mkMemory 200 3) (-5));
      unfold in_type, in_s; simpl; lia.
  - apply (proj1 splitUpdate_behaviour 64 (mkInttype true 16) (mkMemory 200 3) 7);
      unfold in_type, in_s; simpl; lia.
Defined.

End Mem.
