(* ===== verification/GrowableMemory.v ===== *)
(** * Growable buffers

    [afl::base::GrowableMemory<T>] (src/afl/base/growablememory.hpp): a
    heap-allocated buffer with a size and a capacity.  The store of
    Memory.v is extended with the set of live allocations, so that a double
    or wild [delete[]] is a fault and leaks are visible.  The main results: the
    buffer behaves like a list under every sequence of operations, including
    appending a part of itself while it is being reallocated, and the
    destructor returns every allocation. *)

From Stdlib Require Import ZArith Lia Bool.
From stdpp Require Import base tactics numbers option list gmap fin_maps.
From S2P Require Import Prelude Memory.
Import Memory.Mem.

Local Open Scope Z_scope.

(** ** Store with allocations *)

(** Objects, and the live allocations: base address to number of objects. *)
Record store (T : Type) := mkStore { cells : gmap Z T; blocks : gmap Z Z }.
Arguments mkStore {T} _ _.
Arguments cells {T} _.
Arguments blocks {T} _.

(** [new T[n]]: [None] when it throws [std::bad_alloc].  The law is what the
    language guarantees: storage that was not in use, everything else
    unchanged. *)
Class Allocator (T : Type) := {
  new_array : store T -> Z -> option (Z * store T);
  new_array_law s n p s' :
    0 <= n -> new_array s n = Some (p, s') ->
    0 < p /\ blocks s !! p = None /\ blocks s' = <[p := n]> (blocks s) /\
    (forall i, 0 <= i < n -> cells s !! (p + i) = None) /\
    (forall i, 0 <= i < n -> is_Some (cells s' !! (p + i))) /\
    (forall a, ~ (p <= a < p + n) -> cells s' !! a = cells s !! a)
}.

Fixpoint free_cells {T} (h : gmap Z T) (p : Z) (n : nat) : gmap Z T :=
  match n with
  | O => h
  | S n' => free_cells (delete p h) (p + 1) n'
  end.

(** [delete[] p]: nothing for null, a fault for a pointer that is not a live
    allocation. *)
Definition delete_array {T} (s : store T) (p : Z) : option (store T) :=
  if p =? null then Some s
  else match blocks s !! p with
       | Some n => Some (mkStore (free_cells (cells s) p (Z.to_nat n)) (delete p (blocks s)))
       | None => None
       end.

Lemma lookup_free_cells {T} (h : gmap Z T) p n a :
  free_cells h p n !! a = if decide (p <= a < p + Z.of_nat n) then None else h !! a.
Proof.
  revert h p. induction n as [|n IH]; intros h p; simpl.
  - case_decide; [lia|done].
  - rewrite IH. destruct (decide (a = p)) as [->|].
    + rewrite decide_False by lia. rewrite decide_True by lia. by rewrite lookup_delete_eq.
    + rewrite lookup_delete_ne by done. do 2 case_decide; done || lia.
Qed.

(** ** The buffer *)
Module Growable.

Record GrowableMemory := mkGrowable { m_data : Z; m_capacity : Z; g_size : Z }.

(** Code that works on the store and one buffer: it returns, throws
    [std::bad_alloc], or runs into undefined behaviour. *)
Inductive result (T A : Type) : Type :=
| Ret (s : store T) (g : GrowableMemory) (a : A)
| BadAlloc (s : store T) (g : GrowableMemory)
| Fault.
Arguments Ret {T A} _ _ _.
Arguments BadAlloc {T A} _ _.
Arguments Fault {T A}.

Section Ops.
Context {T : Type} `{EqDecision T} `{!MemoryTraits T} `{!Allocator T} (sizeofT : Z).
Implicit Types (s : store T) (g : GrowableMemory).

Definition M (A : Type) : Type := store T -> GrowableMemory -> result T A.

Definition mret {A} (a : A) : M A := fun s g => Ret s g a.
Definition mbind {A B} (m : M A) (f : A -> M B) : M B :=
  fun s g => match m s g with
             | Ret s' g' a => f a s' g'
             | BadAlloc s' g' => BadAlloc s' g'
             | Fault => Fault
             end.
Notation "'let*' x ':=' m 'in' k" := (mbind m (fun x => k))
  (at level 10, x pattern, m at level 100, k at level 200).

Definition throw_bad_alloc {A} : M A := fun s g => BadAlloc s g.
Definition lift_cells (f : gmap Z T -> option (gmap Z T)) : M unit :=
  fun s g => match f (cells s) with
             | Some h => Ret (mkStore h (blocks s)) g tt
             | None => Fault
             end.
Definition mdelete (p : Z) : M unit :=
  fun s g => match delete_array s p with
             | Some s' => Ret s' g tt
             | None => Fault
             end.
Definition mget : M GrowableMemory := fun s g => Ret s g g.
Definition mset (g' : GrowableMemory) : M unit := fun s _ => Ret s g' tt.
Definition mnew (n : Z) : M Z :=
  fun s g => match new_array s n with
             | Some (p, s') => Ret s' g p
             | None => BadAlloc s g
             end.

Definition MINIMUM_CAPACITY : Z := 256 / sizeofT.

Definition new_growable : GrowableMemory := mkGrowable null 0 0.

Definition toMemory g : Memory := unsafeCreate (m_data g) (g_size g).

Definition gsubrange g (pos len : Z) : Memory := subrange (toMemory g) pos len.

Definition gtrim (len : Z) : M unit :=
  let* g := mget in mset (mkGrowable (m_data g) (m_capacity g) (Z.min (g_size g) len)).

Definition greset : M unit :=
  let* g := mget in mset (mkGrowable (m_data g) (m_capacity g) 0).

Definition gclear : M unit := greset.

Definition gremoveEnd (n : Z) : M unit :=
  let* g := mget in
  if n <? g_size g then mset (mkGrowable (m_data g) (m_capacity g) (g_size g - n))
  else mset (mkGrowable (m_data g) (m_capacity g) 0).

Definition gfill (elem : T) : M unit :=
  let* g := mget in lift_cells (fun h => fill h (toMemory g) elem).

(** Returns the old buffer, to be deleted by the caller; null if nothing was
    reallocated. *)
Definition ensureCapacityInternal (newCapacity : Z) : M Z :=
  let* g := mget in
  if m_capacity g <=? newCapacity
  then let newCapacity := Z.max newCapacity (usize (g_size g * 2)) in
       let newCapacity := Z.max newCapacity MINIMUM_CAPACITY in
       let* n := mnew newCapacity in
       let* _ := (if negb (g_size g =? 0)
           then lift_cells (fun h => mt_copy h n (m_data g) (Z.to_nat (g_size g)))
           else mret tt) in
       let* _ := mset (mkGrowable n newCapacity (g_size g)) in
       mret (m_data g)
  else mret null.

Definition reserve (newCapacity : Z) : M unit :=
  let* p := ensureCapacityInternal newCapacity in mdelete p.

Definition ensureSize (newSize : Z) : M unit :=
  let* g := mget in
  if g_size g <? newSize
  then let* _ := reserve newSize in
       let* g := mget in mset (mkGrowable (m_data g) (m_capacity g) newSize)
  else mret tt.

Definition resize (newSize : Z) : M unit :=
  let* g := mget in
  if g_size g <? newSize then ensureSize newSize else gtrim newSize.

(** [append(Memory<const T>)] *)
Definition append (data : Memory) : M unit :=
  if negb (empty data)
  then let* g := mget in
       let newSize := usize (g_size g + size data) in
       if newSize <? g_size g then throw_bad_alloc
       else let* toDelete := ensureCapacityInternal newSize in
            let* g := mget in
            let* _ := lift_cells (fun h => mt_copy h (m_data g + g_size g) (unsafeData data)
                                      (Z.to_nat (size data))) in
            let* _ := mset (mkGrowable (m_data g) (m_capacity g) (usize (g_size g + size data))) in
            mdelete toDelete
  else mret tt.

Definition appendN (what : T) (count : Z) : M Memory :=
  if negb (count =? 0)
  then let* g := mget in
       if usize (g_size g + count) <? g_size g then throw_bad_alloc
       else let* _ := reserve (usize (g_size g + count)) in
            let* g := mget in
            let* _ := lift_cells (fun h => mt_fill h (m_data g + g_size g) what (Z.to_nat count)) in
            let* _ := mset (mkGrowable (m_data g) (m_capacity g) (usize (g_size g + count))) in
            let* g := mget in
            mret (unsafeCreate (m_data g + (g_size g - count)) count)
  else mret Nothing.

(** [append(T)] *)
Definition append1 (what : T) : M Memory := appendN what 1.

(** Destructor. *)
Definition destroy : M unit := let* g := mget in mdelete (m_data g).

(** Copy constructor: a new buffer gets the contents of another one. *)
Definition copy_construct (other : GrowableMemory) : M unit :=
  let* _ := mset new_growable in append (toMemory other).
End Ops.

(** [swap(other)] *)
Definition gswap (g other : GrowableMemory) : GrowableMemory * GrowableMemory :=
  (mkGrowable (m_data other) (m_capacity other) (g_size other),
   mkGrowable (m_data g) (m_capacity g) (g_size g)).

(** ** Representation *)

(** [owns s g]: the buffer's memory is a live allocation of its capacity (or
    there is none yet) and the size does not exceed the capacity. *)
Definition owns {T} (s : store T) (g : GrowableMemory) : Prop :=
  0 <= g_size g <= m_capacity g /\ m_capacity g < 2 ^ SIZE_BITS /\ blocks s !! null = None /\
  ((m_data g = null /\ m_capacity g = 0) \/
   (0 < m_data g /\ blocks s !! m_data g = Some (m_capacity g) /\
    mapped (cells s) (m_data g) (m_capacity g))).

(** [rep s g l]: the buffer [g] represents the list [l]. *)
Definition rep {T} (s : store T) (g : GrowableMemory) (l : list T) : Prop :=
  owns s g /\ load (cells s) (m_data g) (Z.to_nat (g_size g)) = Some l.

(** Addresses of the buffer's allocation. *)
Definition owned (g : GrowableMemory) (a : Z) : Prop := m_data g <= a < m_data g + m_capacity g.

(** [frame s g s' g']: going from [s] to [s'] only exchanged the buffer's own
    allocation; all other objects and allocations are as before. *)
Definition frame {T} (s : store T) (g : GrowableMemory) (s' : store T) (g' : GrowableMemory) : Prop :=
  delete (m_data g') (blocks s') = delete (m_data g) (blocks s) /\
  (forall a x, cells s !! a = Some x -> ~ owned g a -> cells s' !! a = Some x /\ ~ owned g' a).


(** [realloc s g s1 g1]: [g1] has a fresh buffer in [s1]; the buffer of [g] is
    still allocated. *)
Record realloc {T} (s : store T) (g : GrowableMemory) (s1 : store T) (g1 : GrowableMemory) : Prop := {
  re_nonnull : 0 < m_data g1;
  re_size : 0 <= g_size g1 <= m_capacity g1 /\ m_capacity g1 < 2 ^ SIZE_BITS;
  re_fresh : blocks s !! m_data g1 = None;
  re_blocks : blocks s1 = <[m_data g1 := m_capacity g1]> (blocks s);
  re_unused : forall i, 0 <= i < m_capacity g1 -> cells s !! (m_data g1 + i) = None;
  re_mapped : mapped (cells s1) (m_data g1) (m_capacity g1);
  re_cells : forall a, ~ owned g1 a -> cells s1 !! a = cells s !! a
}.

Section Lemmas.
Context {T : Type}.
Implicit Types (s : store T) (g : GrowableMemory) (l : list T).

Lemma frame_refl s g : frame s g s g.
Proof. by split. Qed.

Lemma frame_trans s1 g1 s2 g2 s3 g3 :
  frame s1 g1 s2 g2 -> frame s2 g2 s3 g3 -> frame s1 g1 s3 g3.
Proof.
  intros [H12 C12] [H23 C23]. split; [congruence|]. intros a x Ha Hn.
  destruct (C12 a x Ha Hn). by apply C23.
Qed.

Lemma realloc_disjoint s g s1 g1 a :
  owns s g -> realloc s g s1 g1 -> owned g a -> ~ owned g1 a.
Proof.
  intros (Hs & _ & _ & Hd) Hr Ha Hb. unfold owned in *.
  destruct Hd as [[? ?]|(_ & _ & Hm)]; [lia|].
  pose proof (re_unused _ _ _ _ Hr (a - m_data g1)) as Hu.
  destruct (Hm (a - m_data g)) as [x Hx]; [lia|].
  rewrite Z.add_sub_assoc, Z.add_simpl_l in Hx.
  rewrite Z.add_sub_assoc, Z.add_simpl_l in Hu. rewrite Hu in Hx; [done|lia].
Qed.

(** Writing into the new buffer keeps the reallocation relation. *)
Lemma realloc_write s g s1 g1 p l :
  realloc s g s1 g1 ->
  m_data g1 <= p -> p + Z.of_nat (length l) <= m_data g1 + m_capacity g1 ->
  realloc s g (mkStore (write (cells s1) p l) (blocks s1)) g1.
Proof.
  intros [] ? ?. split; simpl; try done.
  - by apply mapped_write.
  - intros a Ha. rewrite lookup_write, decide_False by (unfold owned in *; lia). auto.
Qed.

Lemma realloc_resize s g s1 g1 n :
  realloc s g s1 g1 -> 0 <= n <= m_capacity g1 ->
  realloc s g s1 (mkGrowable (m_data g1) (m_capacity g1) n).
Proof. intros [] ?. split; simpl; try done. lia. Qed.

(** Deleting the old buffer completes the exchange. *)
Lemma realloc_retire s g s1 g1 :
  owns s g -> realloc s g s1 g1 ->
  exists s2, delete_array s1 (m_data g) = Some s2 /\ owns s2 g1 /\ frame s g s2 g1 /\
    forall n, Z.of_nat n <= m_capacity g1 ->
      load (cells s2) (m_data g1) n = load (cells s1) (m_data g1) n.
Proof.
  intros Ho Hr. pose proof Ho as (Hs & Hc & Hnull & Hd).
  pose proof (realloc_disjoint s g s1 g1) as Hdis.
  destruct Hr as [Hn Hsz Hf Hb Hu Hm Hcs] eqn:Er. clear Er. unfold delete_array.
  destruct Hd as [[Hp Hc0]|(Hp & Hbl & Hmap)].
  - rewrite Hp. rewrite Z.eqb_refl. exists s1. split; [done|]. split; [|split; [|done]].
    + split; [lia|]. split; [lia|]. split; [|right; split; [lia|split]].
      * rewrite Hb, lookup_insert_ne by (unfold null; lia). done.
      * by rewrite Hb, lookup_insert_eq.
      * done.
    + split.
      * rewrite Hb, Hp, delete_insert_id, delete_id by done. done.
      * intros a x Ha Hna. assert (~ owned g1 a) as Hna1.
        { intros Hb1. unfold owned in Hb1. specialize (Hu (a - m_data g1) ltac:(lia)).
          rewrite Z.add_sub_assoc, Z.add_simpl_l in Hu. congruence. }
        rewrite Hcs by done. done.
  - assert (m_data g <> m_data g1) as Hne by congruence.
    rewrite (proj2 (Z.eqb_neq (m_data g) null)) by (unfold null; lia).
    rewrite Hb, lookup_insert_ne, Hbl by done.
    eexists. split; [done|]. split; [|split].
    + split; [lia|]. split; [lia|]. simpl. split; [|right; split; [lia|split]].
      * rewrite lookup_delete_ne, lookup_insert_ne by (unfold null; lia). done.
      * by rewrite lookup_delete_ne, lookup_insert_eq.
      * intros i Hi. rewrite lookup_free_cells, decide_False; [by apply Hm|].
        intros Hin. apply (Hdis (m_data g1 + i)); [done|by split|unfold owned; lia|unfold owned; lia].
    + split; simpl.
      * rewrite delete_delete, delete_insert_id by done. done.
      * intros a x Ha Hna. assert (~ owned g1 a) as Hna1.
        { intros Hb1. unfold owned in Hb1. specialize (Hu (a - m_data g1) ltac:(lia)).
          rewrite Z.add_sub_assoc, Z.add_simpl_l in Hu. congruence. }
        rewrite lookup_free_cells, decide_False by (unfold owned in Hna; lia).
        rewrite Hcs by done. done.
    + intros n Hle. simpl. apply load_ext. intros i Hi.
      rewrite lookup_free_cells, decide_False; [done|].
      intros Hin. apply (Hdis (m_data g1 + i)); [done|by split|unfold owned; lia|unfold owned; lia].
Qed.

(** Writing into the buffer itself. *)
Lemma own_write s g p l n :
  owns s g -> 0 <= n <= m_capacity g ->
  m_data g <= p -> p + Z.of_nat (length l) <= m_data g + m_capacity g ->
  let s' := mkStore (write (cells s) p l) (blocks s) in
  let g' := mkGrowable (m_data g) (m_capacity g) n in
  owns s' g' /\ frame s g s' g'.
Proof.
  intros (Hs & Hc & Hnull & Hd) Hn Hp Hl. simpl. split.
  - split; [simpl; lia|]. split; [simpl; lia|]. split; [done|]. simpl.
    destruct Hd as [?|(? & ? & Hm)]; [by left|right]. split; [done|]. split; [done|].
    by apply mapped_write.
  - split; [done|]. simpl. intros a x Ha Hna. split; [|done].
    rewrite lookup_write, decide_False by (unfold owned in Hna; lia). done.
Qed.

Lemma own_resize s g n :
  owns s g -> 0 <= n <= m_capacity g ->
  owns s (mkGrowable (m_data g) (m_capacity g) n) /\
  frame s g s (mkGrowable (m_data g) (m_capacity g) n).
Proof.
  intros (Hs & Hc & Hnull & Hd) Hn. split; [|by split]. split; [simpl; lia|].
  split; [simpl; lia|]. done.
Qed.

Lemma rep_length s g l : rep s g l -> g_size g = Z.of_nat (length l).
Proof.
  intros [(Hs & _) Hl]. rewrite (load_length _ _ _ _ Hl). lia.
Qed.

Lemma rep_truncate s g l n :
  rep s g l -> 0 <= n -> n <= g_size g ->
  rep s (mkGrowable (m_data g) (m_capacity g) n) (take (Z.to_nat n) l) /\
  frame s g s (mkGrowable (m_data g) (m_capacity g) n).
Proof.
  intros Hr Hn Hle. pose proof Hr as [Ho Hl]. pose proof Ho as (Hs & _).
  destruct (own_resize s g n) as [Ho' Hf]; [done|lia|]. split; [|done]. split; [done|].
  simpl. eapply load_take; [done|lia].
Qed.

Lemma rep_valid s g l : rep s g l -> valid (cells s) (toMemory g) /\ contents (cells s) (toMemory g) = Some l.
Proof.
  intros [(Hs & Hc & _ & Hd) Hl]. split; [|done].
  split; [unfold in_u; simpl; lia|]. simpl. split; [intros; lia|].
  apply load_Some_mapped in Hl. by rewrite Z2Nat.id in Hl by lia.
Qed.
End Lemmas.

(** ** Behaviour of the operations *)
Section Spec.
Context {T : Type} `{EqDecision T} (elem : T -> Prop) (ltb : T -> T -> bool).
Context `{!MemoryTraits T, !MemoryTraitsLaws T elem ltb, !Allocator T}.
Context (sizeofT : Z) (Hsizeof : 0 < sizeofT).
Implicit Types (s : store T) (g : GrowableMemory) (l : list T).

(** The only reasons for [std::bad_alloc]. *)
Definition out_of_memory s : Prop := exists n, new_array s n = None.

Lemma ensureCapacity_spec s g l nc :
  rep s g l -> in_u SIZE_BITS nc ->
  (ensureCapacityInternal sizeofT nc s g = BadAlloc s g /\ out_of_memory s) \/
  (nc < m_capacity g /\ ensureCapacityInternal sizeofT nc s g = Ret s g null) \/
  (exists s1 g1, m_capacity g <= nc /\
    ensureCapacityInternal sizeofT nc s g = Ret s1 g1 (m_data g) /\
    realloc s g s1 g1 /\ g_size g1 = g_size g /\ nc <= m_capacity g1 /\
    load (cells s1) (m_data g1) (Z.to_nat (g_size g)) = Some l).
Proof.
  intros Hr Hnc. pose proof (rep_length _ _ _ Hr) as Hlen. pose proof Hr as [Ho Hl].
  pose proof Ho as (Hs & Hc & _). unfold in_u in Hnc.
  unfold ensureCapacityInternal, mbind, mget. simpl.
  destruct (Z.leb_spec (m_capacity g) nc) as [Hle|Hlt]; [|right; left; done].
  set (nc' := Z.max (Z.max nc (usize (g_size g * 2))) (MINIMUM_CAPACITY sizeofT)).
  assert (nc <= nc' < 2 ^ SIZE_BITS) as Hnc'.
  { unfold nc', usize, MINIMUM_CAPACITY.
    pose proof (wrap_range SIZE_BITS (g_size g * 2) ltac:(unfold SIZE_BITS; lia)).
    pose proof (Z.div_le_upper_bound 256 sizeofT 256 ltac:(lia) ltac:(lia)).
    unfold SIZE_BITS in *. lia. }
  unfold mnew. destruct (new_array s nc') as [[p s1]|] eqn:En; [|left; unfold out_of_memory; eauto].
  right; right. destruct (new_array_law s nc' p s1) as (Hp & Hfr & Hb & Hun & Hmp & Hcs); [lia|done|].
  set (g1 := mkGrowable p nc' (g_size g)).
  assert (realloc s g s1 g1) as Hre.
  { split; unfold owned; simpl; try done. lia. }
  destruct (Z.eqb_spec (g_size g) 0) as [E|E]; simpl.
  - exists s1, g1. repeat (split; [done || (simpl; lia)|]).
    destruct l; [|simpl in *; lia]. by rewrite E.
  - unfold lift_cells.
    rewrite (mt_copy_law (cells s1) p (m_data g) (Z.to_nat (g_size g)) l).
    + eexists _, g1. split; [done|]. split; [done|].
      split; [apply realloc_write; simpl; done || lia|].
      repeat (split; [done || (simpl; lia)|]). simpl.
      replace (Z.to_nat (g_size g)) with (length l) by lia. apply load_write_same.
    + rewrite <- Hl. apply load_ext. intros i Hi. apply Hcs. intros Hin.
      eapply (realloc_disjoint s g s1 g1); [done|done| |]; unfold owned; simpl; [|exact Hin]. lia.
    + intros i Hi. apply Hmp. lia.
Qed.

Lemma reserve_spec s g l nc :
  rep s g l -> in_u SIZE_BITS nc ->
  (reserve sizeofT nc s g = BadAlloc s g /\ out_of_memory s) \/
  (exists s' g', reserve sizeofT nc s g = Ret s' g' tt /\ rep s' g' l /\
     frame s g s' g' /\ nc <= m_capacity g').
Proof.
  intros Hr Hnc. pose proof Hr as [Ho Hl]. unfold reserve, mbind.
  destruct (ensureCapacity_spec s g l nc Hr Hnc) as [[-> ?]|[[? ->]|(s1 & g1 & _ & -> & Hre & Hsz & Hc & Hl1)]].
  - by left.
  - right. exists s, g. unfold mdelete. simpl. split; [done|]. split; [done|].
    split; [apply frame_refl|lia].
  - right. destruct (realloc_retire s g s1 g1 Ho Hre) as (s2 & Hdel & Ho2 & Hf & Hload).
    exists s2, g1. unfold mdelete. rewrite Hdel. split; [done|]. split; [|done].
    split; [done|]. rewrite Hload, Hsz; [done|].
    destruct (re_size _ _ _ _ Hre). lia.
Qed.

Lemma usize_sum x y :
  in_u SIZE_BITS x -> in_u SIZE_BITS y ->
  (usize (x + y) < x <-> 2 ^ SIZE_BITS <= x + y) /\
  (x + y < 2 ^ SIZE_BITS -> usize (x + y) = x + y).
Proof.
  unfold in_u, usize. intros Hx Hy. destruct (Z_lt_le_dec (x + y) (2 ^ SIZE_BITS)).
  - rewrite wrap_small by lia. lia.
  - assert (wrap SIZE_BITS (x + y) = x + y - 2 ^ SIZE_BITS) as ->; [|lia].
    unfold wrap. rewrite <- (Z_mod_plus_full (x + y) (-1)).
    rewrite Z.mod_small; lia.
Qed.

(** Appending elements next to the current contents, in a buffer with room. *)
Lemma load_append h p n l ld :
  load h p n = Some l ->
  load (write h (p + Z.of_nat n) ld) p (n + length ld) = Some (l ++ ld).
Proof.
  intros Hl. rewrite load_app, load_write_disjoint, Hl, load_write_same by lia. done.
Qed.

Lemma append_spec s g l data ld :
  rep s g l -> valid (cells s) data -> contents (cells s) data = Some ld ->
  (append sizeofT data s g = BadAlloc s g /\
     (2 ^ SIZE_BITS <= g_size g + size data \/ out_of_memory s)) \/
  (exists s' g', append sizeofT data s g = Ret s' g' tt /\ rep s' g' (l ++ ld) /\ frame s g s' g').
Proof.
  intros Hr (Hds & Hdp & Hdm) Hld. pose proof Hr as [Ho Hl]. pose proof Ho as (Hs & Hc & _).
  pose proof (rep_length _ _ _ Hr) as Hlen.
  pose proof (contents_size _ _ _ (proj1 Hds) Hld) as Hdlen.
  unfold append, empty, size. destruct (Z.eqb_spec (m_size data) 0) as [E|E]; simpl.
  { right. exists s, g. split; [done|]. destruct ld; [|simpl in *; lia].
    rewrite app_nil_r. split; [done|apply frame_refl]. }
  unfold mbind, mget. simpl.
  destruct (usize_sum (g_size g) (m_size data)) as [Hov Hno]; [unfold in_u; lia|done|].
  destruct (Z.ltb_spec (usize (g_size g + m_size data)) (g_size g)) as [Hlt|Hge].
  { left. split; [done|]. left. lia. }
  assert (g_size g + m_size data < 2 ^ SIZE_BITS) by lia.
  rewrite Hno by lia. unfold in_u in Hds.
  destruct (ensureCapacity_spec s g l (g_size g + m_size data) Hr) as
    [[-> ?]|[[Hcap ->]|(s1 & g1 & Hcap & -> & Hre & Hsz & Hc1 & Hl1)]].
  { unfold in_u. lia. }
  - left. auto.
  - right. unfold lift_cells, mset, mdelete, unsafeData.
    rewrite (mt_copy_law _ _ _ _ ld Hld); [|].
    2: { intros i Hi. destruct Ho as (_ & _ & _ & [[? ?]|(_ & _ & Hm)]); [lia|].
         rewrite <- Z.add_assoc. apply Hm. lia. }
    rewrite Hno by lia. eexists _, _. split; [done|].
    destruct (own_write s g (m_data g + g_size g) ld (g_size g + m_size data)) as [Ho' Hf];
      [done|lia..|]. split; [|done]. split; [done|]. simpl.
    replace (g_size g) with (Z.of_nat (Z.to_nat (g_size g))) at 1 by lia.
    replace (Z.to_nat (g_size g + m_size data)) with (Z.to_nat (g_size g) + length ld)%nat by lia.
    by apply load_append.
  - right. unfold lift_cells, mset, mdelete, unsafeData. rewrite Hsz, Hno by lia.
    rewrite (mt_copy_law _ _ _ _ ld).
    2: { rewrite <- Hld. apply load_ext. intros i Hi. apply (re_cells _ _ _ _ Hre). intros Hin.
         unfold owned in Hin. destruct (Hdm i) as [x Hx]; [lia|].
         pose proof (re_unused _ _ _ _ Hre (m_ptr data + i - m_data g1) ltac:(lia)) as Hu.
         replace (m_data g1 + (m_ptr data + i - m_data g1)) with (m_ptr data + i) in Hu by lia.
         congruence. }
    2: { intros i Hi. rewrite <- Z.add_assoc. apply (re_mapped _ _ _ _ Hre). lia. }
    set (g2 := mkGrowable (m_data g1) (m_capacity g1) (g_size g + m_size data)).
    assert (realloc s g (mkStore (write (cells s1) (m_data g1 + g_size g) ld) (blocks s1)) g2) as Hre2.
    { apply realloc_resize; [|lia]. apply realloc_write; [done|lia|lia]. }
    destruct (realloc_retire s g _ g2 Ho Hre2) as (s2 & Hdel & Ho2 & Hf & Hload).
    rewrite Hdel. exists s2, g2. split; [done|]. split; [|done]. split; [done|].
    rewrite Hload by (simpl; lia). simpl.
    replace (g_size g) with (Z.of_nat (Z.to_nat (g_size g))) at 1 by lia.
    replace (Z.to_nat (g_size g + m_size data)) with (Z.to_nat (g_size g) + length ld)%nat by lia.
    by apply load_append.
Qed.

Lemma appendN_spec s g l v n :
  rep s g l -> elem v -> in_u SIZE_BITS n ->
  (appendN sizeofT v n s g = BadAlloc s g /\
     (2 ^ SIZE_BITS <= g_size g + n \/ out_of_memory s)) \/
  (exists s' g' m, appendN sizeofT v n s g = Ret s' g' m /\
     rep s' g' (l ++ replicate (Z.to_nat n) v) /\ frame s g s' g' /\
     contents (cells s') m = Some (replicate (Z.to_nat n) v)).
Proof.
  intros Hr Hv Hn. pose proof Hr as [Ho Hl]. pose proof Ho as (Hs & Hc & _).
  unfold appendN. destruct (Z.eqb_spec n 0) as [->|E]; simpl.
  { right. exists s, g, Nothing. split; [done|]. rewrite app_nil_r.
    split; [done|]. split; [apply frame_refl|done]. }
  unfold mbind, mget. destruct (usize_sum (g_size g) n) as [Hov Hno]; [unfold in_u; lia|done|].
  destruct (Z.ltb_spec (usize (g_size g + n)) (g_size g)) as [Hlt|Hge].
  { left. split; [done|]. left. lia. }
  assert (g_size g + n < 2 ^ SIZE_BITS) by lia.
  rewrite Hno by lia. unfold in_u in Hn.
  destruct (reserve_spec s g l (g_size g + n) Hr) as [[-> ?]|(s1 & g1 & -> & Hr1 & Hf1 & Hc1)];
    [unfold in_u; lia|left; by auto|]. right.
  pose proof (rep_length _ _ _ Hr) as Hlen. pose proof (rep_length _ _ _ Hr1) as Hlen1.
  pose proof Hr1 as [Ho1 Hl1]. unfold lift_cells, mset, mret.
  rewrite (mt_fill_law _ _ _ _ Hv).
  2: { intros i Hi. destruct Ho1 as (? & _ & _ & [[? ?]|(_ & _ & Hm)]); [lia|].
       rewrite <- Z.add_assoc. apply Hm. lia. }
  destruct (own_write s1 g1 (m_data g1 + g_size g1) (replicate (Z.to_nat n) v) (g_size g1 + n))
    as [Ho2 Hf2]; rewrite ?length_replicate; [done|lia..|].
  rewrite (proj2 (usize_sum (g_size g1) n ltac:(unfold in_u; lia) ltac:(unfold in_u; lia))) by lia.
  eexists _, _, _. split; [done|]. split; [|split; [by eapply frame_trans|]].
  - split; [done|]. simpl.
    replace (g_size g1) with (Z.of_nat (Z.to_nat (g_size g1))) at 1 by lia.
    replace (Z.to_nat (g_size g1 + n)) with (Z.to_nat (g_size g1) + length (replicate (Z.to_nat n) v))%nat
      by (rewrite length_replicate; lia). by apply load_append.
  - unfold contents. simpl. replace (m_data g1 + (g_size g1 + n - n)) with (m_data g1 + g_size g1) by lia.
    rewrite <- (length_replicate (Z.to_nat n) v) at 2. apply load_write_same.
Qed.

Lemma ensureSize_spec s g l n :
  rep s g l -> in_u SIZE_BITS n ->
  (ensureSize sizeofT n s g = BadAlloc s g /\ out_of_memory s) \/
  (exists s' g' junk, ensureSize sizeofT n s g = Ret s' g' tt /\ rep s' g' (l ++ junk) /\
     frame s g s' g' /\ g_size g' = Z.max (g_size g) n).
Proof.
  intros Hr Hn. pose proof (rep_length _ _ _ Hr) as Hlen. unfold ensureSize, mbind, mget.
  unfold in_u in Hn. destruct (Z.ltb_spec (g_size g) n) as [Hlt|Hge].
  2: { right. exists s, g, []. rewrite app_nil_r. split; [done|]. split; [done|].
       split; [apply frame_refl|lia]. }
  destruct (reserve_spec s g l n Hr) as [[-> ?]|(s1 & g1 & -> & Hr1 & Hf1 & Hc1)];
    [done|by left|right].
  pose proof (rep_length _ _ _ Hr1) as Hlen1. pose proof Hr1 as [Ho1 Hl1].
  destruct (own_resize s1 g1 n Ho1) as [Ho2 Hf2]; [lia|].
  assert (mapped (cells s1) (m_data g1) (Z.of_nat (Z.to_nat n))) as Hm.
  { destruct Ho1 as (? & _ & _ & [[? ?]|(_ & _ & Hm)]); [lia|]. intros i Hi. apply Hm. lia. }
  apply load_mapped in Hm as [l' Hl'].
  eexists _, _, (drop (length l) l'). split; [done|].
  split; [|split; [by eapply frame_trans|simpl; lia]]. split; [done|]. simpl.
  rewrite Hl'. f_equal. rewrite <- (take_drop (length l) l') at 1. f_equal.
  pose proof (load_take _ _ _ _ (length l) Hl' ltac:(lia)) as Ht.
  replace (length l) with (Z.to_nat (g_size g1)) in Ht at 1 by lia. congruence.
Qed.

(** [delete[]] of the buffer returns its allocation and nothing else. *)
Lemma destroy_spec s g l :
  rep s g l ->
  exists s', destroy s g = Ret s' g tt /\ blocks s' = delete (m_data g) (blocks s) /\
    forall a x, cells s !! a = Some x -> ~ owned g a -> cells s' !! a = Some x.
Proof.
  intros [(Hs & Hc & Hnull & Hd) _]. unfold destroy, mbind, mget, mdelete, delete_array.
  destruct Hd as [[-> ?]|(Hp & Hb & _)].
  - exists s. rewrite Z.eqb_refl, delete_id by done. done.
  - rewrite (proj2 (Z.eqb_neq (m_data g) null)) by (unfold null; lia). rewrite Hb.
    eexists. split; [done|]. split; [done|]. simpl. intros a x Ha Hna.
    rewrite lookup_free_cells, decide_False; [done|]. unfold owned in Hna. lia.
Qed.

(** ** Programs: sequences of operations on one buffer *)

Inductive gop : Type :=
| OpAppend (data : Memory)
| OpAppendSelf (pos len : Z)
| OpAppendN (what : T) (count : Z)
| OpTrim (len : Z)
| OpRemoveEnd (n : Z)
| OpReset
| OpFill (what : T)
| OpReserve (n : Z)
| OpResize (n : Z).

(** [OpAppendSelf] is [x.append(x.subrange(pos, len))]. *)
Definition run_op (op : gop) : M unit :=
  fun s g =>
  match op with
  | OpAppend data => append sizeofT data s g
  | OpAppendSelf pos len => append sizeofT (gsubrange g pos len) s g
  | OpAppendN what count =>
      match appendN sizeofT what count s g with
      | Ret s' g' _ => Ret s' g' tt
      | BadAlloc s' g' => BadAlloc s' g'
      | Fault => Fault
      end
  | OpTrim len => gtrim len s g
  | OpRemoveEnd n => gremoveEnd n s g
  | OpReset => greset s g
  | OpFill what => gfill what s g
  | OpReserve n => reserve sizeofT n s g
  | OpResize n => resize sizeofT n s g
  end.

Fixpoint run (ops : list gop) : M unit :=
  match ops with
  | [] => mret tt
  | op :: ops' => mbind (run_op op) (fun _ => run ops')
  end.

(** Arguments are [size_t]s and elements; appended descriptors are valid in the
    store [s0] and do not depend on the buffer. *)
Definition op_ok (s0 : store T) (op : gop) : Prop :=
  match op with
  | OpAppend data => valid (cells s0) data
  | OpAppendSelf pos len => in_u SIZE_BITS pos /\ in_u SIZE_BITS len
  | OpAppendN what count => elem what /\ in_u SIZE_BITS count
  | OpTrim n | OpRemoveEnd n | OpReserve n | OpResize n => in_u SIZE_BITS n
  | OpReset => True
  | OpFill what => elem what
  end.

(** The abstract buffer is a list.  Growing by [resize] leaves the new elements
    unspecified. *)
Definition op_spec (s0 : store T) (op : gop) (l l' : list T) : Prop :=
  match op with
  | OpAppend data => exists ld, contents (cells s0) data = Some ld /\ l' = l ++ ld
  | OpAppendSelf pos len => l' = l ++ take (Z.to_nat len) (drop (Z.to_nat pos) l)
  | OpAppendN what count => l' = l ++ replicate (Z.to_nat count) what
  | OpTrim n => l' = take (Z.to_nat n) l
  | OpRemoveEnd n => l' = take (length l - Z.to_nat n) l
  | OpReset => l' = []
  | OpFill what => l' = replicate (length l) what
  | OpReserve _ => l' = l
  | OpResize n =>
      length l' = Z.to_nat n /\ take (Nat.min (length l) (Z.to_nat n)) l' = take (Z.to_nat n) l
  end.

Inductive specs (s0 : store T) : list gop -> list T -> list T -> Prop :=
| specs_nil l : specs s0 [] l l
| specs_cons op ops l l' l'' :
    op_spec s0 op l l' -> specs s0 ops l' l'' -> specs s0 (op :: ops) l l''.

(** One operation: it refines its specification, or throws [bad_alloc] with
    nothing changed; it never faults. *)
Definition op_refines (s0 : store T) (op : gop) s g l (r : result T unit) : Prop :=
  match r with
  | Ret s' g' _ => exists l', op_spec s0 op l l' /\ rep s' g' l' /\ frame s g s' g'
  | BadAlloc s' g' => s' = s /\ g' = g
  | Fault => False
  end.

Lemma frame_contents s0 s g data ld :
  frame s0 new_growable s g -> valid (cells s0) data -> contents (cells s0) data = Some ld ->
  valid (cells s) data /\ contents (cells s) data = Some ld.
Proof.
  intros [_ Hext] (Hs & Hp & Hm) Hld. unfold in_u in Hs.
  assert (forall i, 0 <= i < m_size data -> cells s0 !! (m_ptr data + i) = cells s !! (m_ptr data + i)) as He.
  { intros i Hi. destruct (Hm i) as [x Hx]; [lia|]. rewrite Hx. symmetry.
    apply Hext; [done|]. unfold owned. simpl. lia. }
  split.
  - split; [done|]. split; [done|]. intros i Hi. rewrite <- He by lia. by apply Hm.
  - rewrite <- Hld. symmetry. apply load_ext. intros i Hi. apply He. lia.
Qed.

Lemma resize_refines s0 s g l n :
  rep s g l -> in_u SIZE_BITS n -> op_refines s0 (OpResize n) s g l (resize sizeofT n s g).
Proof.
  intros Hr Hn. pose proof (rep_length _ _ _ Hr) as Hlen. unfold op_refines.
  unfold resize, mbind, mget. destruct (Z.ltb_spec (g_size g) n) as [Hlt|Hge].
  - destruct (ensureSize_spec s g l n Hr Hn) as [[-> _]|(s' & g' & junk & -> & Hr' & Hf & Hsz)]; [done|].
    exists (l ++ junk). split; [|done]. rewrite (rep_length _ _ _ Hr') in Hsz.
    split; [lia|]. rewrite Nat.min_l by lia. rewrite take_app_length. by rewrite take_ge by lia.
  - unfold gtrim, mbind, mget, mset. destruct Hn as [Hn _].
    destruct (rep_truncate s g l n) as [Hr' Hf]; [done|lia|lia|]. rewrite Z.min_r by lia.
    exists (take (Z.to_nat n) l). split; [|done]. simpl. rewrite length_take. split; [lia|].
    rewrite Nat.min_r by lia. rewrite take_take. f_equal. lia.
Qed.

Lemma fill_refines s0 s g l v :
  rep s g l -> elem v -> op_refines s0 (OpFill v) s g l (gfill v s g).
Proof.
  intros Hr Hv. pose proof (rep_length _ _ _ Hr) as Hlen. pose proof Hr as [Ho Hl].
  pose proof Ho as (Hs & _). unfold op_refines, gfill, mbind, mget, lift_cells, fill. simpl.
  destruct (Z.eqb_spec (g_size g) 0) as [E|E]; simpl.
  - destruct s as [h b]. exists l. destruct l; [|simpl in *; lia].
    split; [done|]. split; [done|apply frame_refl].
  - rewrite (mt_fill_law _ _ _ _ Hv) by by apply load_Some_mapped in Hl.
    destruct (own_write s g (m_data g) (replicate (Z.to_nat (g_size g)) v) (g_size g)) as [Ho' Hf];
      [done|rewrite ?length_replicate; lia..|].
    destruct g as [d c z]. simpl in *. eexists. split; [done|]. split; [|done].
    split; [done|]. simpl. rewrite Hlen, Nat2Z.id.
    rewrite <- (length_replicate (length l) v) at 2. apply load_write_same.
Qed.

Lemma run_op_spec s0 op s g l :
  rep s g l -> op_ok s0 op -> frame s0 new_growable s g ->
  op_refines s0 op s g l (run_op op s g).
Proof.
  intros Hr Hok Hext. pose proof (rep_length _ _ _ Hr) as Hlen.
  pose proof Hr as [Ho Hl]. pose proof Ho as (Hs & Hc & _).
  destruct op as [data|pos len|what count|n|n| |what|n|n]; simpl in Hok |- *;
    try (by apply resize_refines); try (by apply fill_refines); unfold op_refines.
  - destruct (valid_contents _ _ Hok) as (ld & Hld & Hsz).
    destruct (frame_contents s0 s g data ld Hext Hok Hld) as [Hv' Hld'].
    destruct (append_spec s g l data ld Hr Hv' Hld') as [[-> _]|(s' & g' & -> & Hr' & Hf)]; [done|].
    exists (l ++ ld). split; [|done]. simpl. eauto.
  - destruct Hok as [[Hp _] [Hn _]]. destruct (rep_valid _ _ _ Hr) as [Hv Hct].
    pose proof (contents_subrange _ _ _ pos len Hv Hct Hp Hn) as Hsub.
    assert (valid (cells s) (gsubrange g pos len)) as Hvs.
    { apply (within_valid _ (toMemory g)); [done|]. apply derive_within; [simpl; lia|].
      by constructor. }
    destruct (append_spec s g l _ _ Hr Hvs Hsub) as [[-> _]|(s' & g' & -> & Hr' & Hf)]; [done|].
    eexists. split; [|done]. done.
  - destruct Hok as [He Hn].
    destruct (appendN_spec s g l what count Hr He Hn) as [[-> _]|(s' & g' & m & -> & Hr' & Hf & _)];
      [done|]. eexists. split; [|done]. done.
  - unfold gtrim, mbind, mget, mset. destruct Hok as [Hn _].
    destruct (rep_truncate s g l (Z.min (g_size g) n)) as [Hr' Hf]; [done|lia|lia|].
    eexists. split; [done|]. split; [|done].
    destruct (decide (n <= g_size g)); [by rewrite Z.min_r in * by lia|].
    rewrite Z.min_l in * by lia. rewrite take_ge in Hr' by lia. by rewrite take_ge by lia.
  - unfold gremoveEnd, mbind, mget, mset. destruct Hok as [Hn _].
    destruct (Z.ltb_spec n (g_size g)) as [Hlt|Hge].
    + destruct (rep_truncate s g l (g_size g - n)) as [Hr' Hf]; [done|lia|lia|].
      eexists. split; [done|].
      by replace (length l - Z.to_nat n)%nat with (Z.to_nat (g_size g - n)) by lia.
    + destruct (rep_truncate s g l 0) as [Hr' Hf]; [done|lia|lia|].
      eexists. split; [done|]. by replace (length l - Z.to_nat n)%nat with 0%nat by lia.
  - unfold greset, mbind, mget, mset.
    destruct (rep_truncate s g l 0) as [Hr' Hf]; [done|lia|lia|]. eexists. split; [done|]. done.
  - destruct (reserve_spec s g l n Hr Hok) as [[-> _]|(s' & g' & -> & Hr' & Hf & _)]; [done|].
    eexists. split; [|done]. done.
Qed.

Lemma run_spec s0 ops s g l :
  rep s g l -> Forall (op_ok s0) ops -> frame s0 new_growable s g ->
  match run ops s g with
  | Ret s' g' _ => exists l', specs s0 ops l l' /\ rep s' g' l' /\ frame s0 new_growable s' g'
  | BadAlloc s' g' => exists done_ l' op rest, ops = done_ ++ op :: rest /\ specs s0 done_ l l' /\
      rep s' g' l' /\ frame s0 new_growable s' g'
  | Fault => False
  end.
Proof.
  revert s g l. induction ops as [|op ops IH]; intros s g l Hr Hok Hf; simpl.
  - exists l. split; [constructor|done].
  - apply Forall_cons in Hok as [Hop Hok]. unfold mbind.
    pose proof (run_op_spec s0 op s g l Hr Hop Hf) as Hop'.
    destruct (run_op op s g) as [s1 g1 a|s1 g1|]; simpl in Hop'; [|destruct Hop' as [-> ->]|done].
    + destruct Hop' as (l1 & Hsp & Hr1 & Hf1).
      pose proof (frame_trans _ _ _ _ _ _ Hf Hf1) as Hf01.
      specialize (IH s1 g1 l1 Hr1 Hok Hf01). destruct (run ops s1 g1) as [s2 g2 b|s2 g2|]; [| |done].
      * destruct IH as (l2 & ? & ? & ?). exists l2. split; [by econstructor|done].
      * destruct IH as (dn & l2 & op' & rest & -> & ? & ? & ?).
        exists (op :: dn), l2, op', rest. split; [done|]. split; [by econstructor|done].
    + exists [], l, op, ops. split; [done|]. split; [constructor|done].
Qed.

Lemma rep_new s : blocks s !! null = None -> rep s new_growable [].
Proof.
  intros Hb. split; [|done]. split; [simpl; lia|]. simpl. unfold SIZE_BITS.
  split; [lia|]. split; [done|]. by left.
Qed.

Lemma destroy_frame s0 s g l :
  blocks s0 !! null = None -> rep s g l -> frame s0 new_growable s g ->
  exists s', destroy s g = Ret s' g tt /\ blocks s' = blocks s0 /\
    (forall a x, cells s0 !! a = Some x -> cells s' !! a = Some x).
Proof.
  intros Hb Hr [Hfb Hfc]. destruct (destroy_spec s g l Hr) as (s' & -> & Hb' & Hc').
  exists s'. split; [done|]. split.
  - rewrite Hb', Hfb. simpl. by apply delete_id.
  - intros a x Ha. destruct (Hfc a x Ha) as [? ?]; [unfold owned; simpl; lia|]. by apply Hc'.
Qed.

(** C2. A buffer refines a list: running any sequence of operations on a new
    buffer (appending external memory or parts of the buffer itself even
    while it is reallocated, appendN, trim, removeEnd, reset, fill, reserve,
    resize) never faults; if it returns, the buffer represents the list the
    operations describe; if it throws bad_alloc, it represents the list after
    the operations completed before.  In both cases the destructor leaves
    exactly the allocations there were at the start (no leak, no double
    free), and no other object has changed. *)
Theorem growable_refines_list s0 ops :
  blocks s0 !! null = None -> Forall (op_ok s0) ops ->
  exists s g l done_ rest s',
    run ops s0 new_growable = (match rest with [] => Ret s g tt | _ => BadAlloc s g end) /\
    ops = done_ ++ rest /\ specs s0 done_ [] l /\ rep s g l /\
    destroy s g = Ret s' g tt /\ blocks s' = blocks s0 /\
    (forall a x, cells s0 !! a = Some x -> cells s' !! a = Some x).
Proof.
  intros Hb Hok.
  pose proof (run_spec s0 ops s0 new_growable [] (rep_new _ Hb) Hok (frame_refl _ _)) as Hrun.
  destruct (run ops s0 new_growable) as [s g []|s g|]; [| |done].
  - destruct Hrun as (l & ? & Hr & Hf). destruct (destroy_frame s0 s g l Hb Hr Hf) as (s' & ? & ? & ?).
    exists s, g, l, ops, [], s'. rewrite app_nil_r. done.
  - destruct Hrun as (dn & l & op & rest & -> & ? & Hr & Hf).
    destruct (destroy_frame s0 s g l Hb Hr Hf) as (s' & ? & ? & ?).
    exists s, g, l, dn, (op :: rest), s'. done.
Qed.

(** append of any valid memory, including memory inside the buffer: it
    throws bad_alloc (leaving everything unchanged) only if the new size
    would not fit a size_t or the allocator fails; otherwise the buffer holds
    the old contents followed by the contents the data had before the call. *)
Theorem append_correct s g l data ld :
  rep s g l -> valid (cells s) data -> contents (cells s) data = Some ld ->
  (append sizeofT data s g = BadAlloc s g /\
     (2 ^ SIZE_BITS <= g_size g + size data \/ out_of_memory s)) \/
  (exists s' g', append sizeofT data s g = Ret s' g' tt /\ rep s' g' (l ++ ld) /\ frame s g s' g').
Proof. apply append_spec. Qed.

(** C38. reserve with exactly the current capacity is not a no-op: if the
    allocation succeeds, the buffer moves to a new allocation, so descriptors
    obtained before become invalid although the capacity was big enough. *)
Theorem reserve_capacity_moves s g l s' g' :
  rep s g l -> reserve sizeofT (m_capacity g) s g = Ret s' g' tt ->
  m_data g' <> m_data g.
Proof.
  intros Hr Hres. pose proof Hr as [Ho _]. pose proof Ho as (? & ? & ? & Hd).
  unfold reserve, mbind in Hres.
  destruct (ensureCapacity_spec s g l (m_capacity g) Hr) as
    [[E _]|[[? _]|(s1 & g1 & _ & E & Hre & _)]]; [unfold in_u; lia| |lia|]; rewrite E in Hres; [done|].
  unfold mdelete in Hres. destruct (delete_array s1 (m_data g)); simplify_eq.
  destruct Hre as [Hpos _ Hfresh _ _ _ _]. intros Heq. rewrite Heq in *.
  destruct Hd as [[Hn _]|(_ & Hb & _)]; [unfold null in *; lia|congruence].
Qed.
End Spec.

(** ** A concrete allocator

    Allocations are placed behind everything in use; new objects get the value
    [junk]. *)
Section Bump.
Context {T : Type} (junk : T).

Definition max_key {A} (m : gmap Z A) : Z := map_fold (fun k _ acc => Z.max k acc) 0 m.

Lemma max_key_bound {A} (m : gmap Z A) k x : m !! k = Some x -> k <= max_key m.
Proof.
  unfold max_key. revert k x.
  apply (map_fold_weak_ind (fun acc m => forall k x, m !! k = Some x -> k <= acc)).
  - intros k x. by rewrite lookup_empty.
  - intros i x m' r Hi IH k y. destruct (decide (i = k)) as [->|].
    + lia.
    + rewrite lookup_insert_ne by done. intros Hk. apply IH in Hk. lia.
Qed.

Definition bump_new (s : store T) (n : Z) : option (Z * store T) :=
  let p := 1 + Z.max 0 (Z.max (max_key (cells s)) (max_key (blocks s))) in
  Some (p, mkStore (list_to_map ((fun i => (p + Z.of_nat i, junk)) <$> seq 0 (Z.to_nat n)) ∪ cells s)
                   (<[p := n]> (blocks s))).

Lemma bump_law s n p s' :
  0 <= n -> bump_new s n = Some (p, s') ->
  0 < p /\ blocks s !! p = None /\ blocks s' = <[p := n]> (blocks s) /\
  (forall i, 0 <= i < n -> cells s !! (p + i) = None) /\
  (forall i, 0 <= i < n -> is_Some (cells s' !! (p + i))) /\
  (forall a, ~ (p <= a < p + n) -> cells s' !! a = cells s !! a).
Proof.
  unfold bump_new. intros Hn [= <- <-]. simpl.
  set (p := 1 + Z.max 0 (Z.max (max_key (cells s)) (max_key (blocks s)))).
  split; [lia|]. split; [|split; [done|split; [|split]]].
  - apply eq_None_not_Some. intros [x Hx]. apply max_key_bound in Hx. lia.
  - intros i Hi. apply eq_None_not_Some. intros [x Hx]. apply max_key_bound in Hx. lia.
  - intros i Hi. apply lookup_union_is_Some. left.
    apply elem_of_dom. rewrite dom_list_to_map_L, elem_of_list_to_set.
    rewrite <- list_fmap_compose. apply list_elem_of_fmap. exists (Z.to_nat i).
    split; [simpl; lia|]. apply elem_of_seq. lia.
  - intros a Ha. apply lookup_union_r. apply not_elem_of_list_to_map.
    rewrite <- list_fmap_compose. intros (i & -> & Hi)%list_elem_of_fmap.
    apply elem_of_seq in Hi. simpl in Ha. lia.
Qed.

Definition BumpAllocator : Allocator T := {| new_array := bump_new; new_array_law := bump_law |}.
End Bump.

(** ** Examples of the theorems at work *)

#[local] Existing Instance MemoryCharTraits.
#[local] Instance ex_allocator : Allocator Z := BumpAllocator 170.

Definition ex_store : store Z := mkStore ex_heap {[ 100 := 6; 200 := 3 ]}.

(** "hello!" appended, then the buffer appended to itself, truncated and
    padded: the buffer is reallocated between the steps. *)
Definition ex_program : list gop :=
  [OpAppend (mkMemory 100 6); OpReserve 6; OpAppendSelf 0 300; OpTrim 8; OpAppendN 46 2; OpRemoveEnd 1].

Lemma ex_program_ok : Forall (op_ok is_byte ex_store) ex_program.
Proof.
  unfold ex_program.
  repeat apply Forall_cons_2; try apply Forall_nil_2; cbn [op_ok]; unfold in_u, is_byte, SIZE_BITS;
    try lia. ex_valid [104; 101; 108; 108; 111; 33].
Qed.

Lemma growable_refines_list_witness :
  blocks ex_store !! null = None /\ Forall (op_ok is_byte ex_store) ex_program /\
  exists s g l done_ rest s',
    run 1 ex_program ex_store new_growable = (match rest with [] => Ret s g tt | _ => BadAlloc s g end) /\
    ex_program = done_ ++ rest /\ specs ex_store done_ [] l /\ rep s g l /\
    destroy s g = Ret s' g tt /\ blocks s' = blocks ex_store /\
    (forall a x, cells ex_store !! a = Some x -> cells s' !! a = Some x).
Proof.
  split; [reflexivity|]. split; [exact ex_program_ok|].
  apply (growable_refines_list is_byte Z.ltb 1 ltac:(lia) ex_store ex_program);
    [reflexivity|exact ex_program_ok].
Defined.

(** What the program computes. *)
Example ex_program_result :
  match run 1 ex_program ex_store new_growable with
  | Ret s g _ => contents (cells s) (toMemory g)
  | _ => None
  end = Some [104; 101; 108; 108; 111; 33; 104; 101; 46].
Proof. vm_compute. reflexivity. Qed.

(** A buffer of capacity 6 holding "hello!" in the existing allocation. *)
Definition ex_growable : GrowableMemory := mkGrowable 100 6 6.

Lemma ex_rep : rep ex_store ex_growable [104; 101; 108; 108; 111; 33].
Proof.
  split; [|reflexivity]. split; [simpl; lia|]. split; [unfold SIZE_BITS; simpl; lia|].
  split; [reflexivity|]. right. split; [simpl; lia|]. split; [reflexivity|].
  apply (load_Some_mapped _ _ 6 [104; 101; 108; 108; 111; 33]). reflexivity.
Qed.

Definition returns {T A} (r : result T A) : bool :=
  match r with Ret _ _ _ => true | _ => false end.

Lemma append_correct_witness :
  exists s' g', append 1 (mkMemory 102 4) ex_store ex_growable = Ret s' g' tt /\
    rep s' g' [104; 101; 108; 108; 111; 33; 108; 108; 111; 33].
Proof.
  destruct (append_correct is_byte Z.ltb 1 ltac:(lia) ex_store ex_growable
              [104; 101; 108; 108; 111; 33] (mkMemory 102 4) [108; 108; 111; 33])
    as [[Hb _]|(s' & g' & Ha & Hr & _)].
  - exact ex_rep.
  - ex_valid [108; 108; 111; 33].
  - reflexivity.
  - assert (returns (append 1 (mkMemory 102 4) ex_store ex_growable) = true) as Ht
      by (vm_compute; reflexivity).
    rewrite Hb in Ht. discriminate Ht.
  - exists s', g'. split; [exact Ha|exact Hr].
Defined.

Lemma reserve_capacity_moves_witness :
  exists s' g', reserve 1 6 ex_store ex_growable = Ret s' g' tt /\ m_data g' <> 100.
Proof.
  assert (returns (reserve 1 6 ex_store ex_growable) = true) as Ht by (vm_compute; reflexivity).
  destruct (reserve 1 6 ex_store ex_growable) as [s' g' []| |] eqn:E; [|discriminate Ht..].
  exists s', g'. split; [reflexivity|].
  apply (reserve_capacity_moves is_byte Z.ltb 1 ltac:(lia) ex_store ex_growable
           [104; 101; 108; 108; 111; 33] s' g'); [exact ex_rep|exact E].
Defined.
End Growable.
