(* ===== verification/Bits.v ===== *)
(** * Bit operations and small sets

    src/afl/bits/rotate.hpp, bits.hpp, bits.cpp and smallset.hpp.  Words are
    [Z] values of the function's width; [int] shift counts are unbounded, as
    the code masks them first.  The theorems give every function's effect on
    the individual bits. *)

From Stdlib Require Import ZArith Lia Bool Btauto.
From stdpp Require Import base tactics numbers option list.
From S2P Require Import Prelude.

Local Open Scope Z_scope.

(** ** Rotation (rotate.hpp) *)

Definition rotateLeft8 (a c : Z) : Z :=
  let c := Z.land c 7 in
  u8 (Z.lor (Z.shiftl a c) (Z.shiftr a (8 - c))).

Definition rotateRight8 (a c : Z) : Z := rotateLeft8 a (8 - c).

Definition rotateLeft16 (a c : Z) : Z :=
  let c := Z.land c 15 in
  if negb (c =? 0) then u16 (Z.lor (Z.shiftl a c) (Z.shiftr a (16 - c))) else a.

Definition rotateRight16 (a c : Z) : Z := rotateLeft16 a (16 - c).

Definition rotateLeft32 (a c : Z) : Z :=
  let c := Z.land c 31 in
  if negb (c =? 0) then Z.lor (u32 (Z.shiftl a c)) (Z.shiftr a (32 - c)) else a.

Definition rotateRight32 (a c : Z) : Z :=
  let c := Z.land c 31 in
  if negb (c =? 0) then Z.lor (u32 (Z.shiftl a (32 - c))) (Z.shiftr a c) else a.

Definition rotateLeft64 (a c : Z) : Z :=
  let c := Z.land c 63 in
  if negb (c =? 0) then Z.lor (u64 (Z.shiftl a c)) (Z.shiftr a (64 - c)) else a.

Definition rotateRight64 (a c : Z) : Z :=
  let c := Z.land c 63 in
  if negb (c =? 0) then Z.lor (u64 (Z.shiftl a (64 - c))) (Z.shiftr a c) else a.

(** ** Logarithm, reversal, population count (bits.cpp) *)

(** One iteration of the logarithm loop on the pair (v, result). *)
Definition bitLog_step (bitNr : Z) (st : Z * Z) : Z * Z :=
  let '(v, result) := st in
  if negb (Z.shiftr v bitNr =? 0) then (Z.shiftr v bitNr, result + bitNr) else (v, result).

(** [for (int bitNr = start; bitNr != 0; bitNr >>= 1)] for a start value 2^n. *)
Fixpoint bitLog_loop (n : nat) (st : Z * Z) : Z * Z :=
  let st' := bitLog_step (2 ^ Z.of_nat n) st in
  match n with
  | O => st'
  | S n' => bitLog_loop n' st'
  end.

Definition bitLog32 (v : Z) : Z :=
  if v =? 0 then -1 else (bitLog_loop 4 (v, 0)).2.

Definition bitLog64 (v : Z) : Z :=
  if v =? 0 then -1 else (bitLog_loop 5 (v, 0)).2.

Definition reverse_table : list Z := [0; 8; 4; 12; 2; 10; 6; 14; 1; 9; 5; 13; 3; 11; 7; 15].

Definition table_at (t : list Z) (i : Z) : Z := nth (Z.to_nat i) t 0.

Definition bitReverse8 (a : Z) : Z :=
  u8 (Z.lor (Z.shiftl (table_at reverse_table (Z.land a 15)) 4)
            (table_at reverse_table (Z.land (Z.shiftr a 4) 15))).

Definition bitReverse16 (a : Z) : Z :=
  u16 (Z.lor (bitReverse8 (u8 (Z.shiftr a 8)))
             (Z.shiftl (u16 (bitReverse8 (u8 (Z.land a 255)))) 8)).

Definition bitReverse32 (a : Z) : Z :=
  u32 (Z.lor (bitReverse16 (u16 (Z.shiftr a 16)))
             (u32 (Z.shiftl (u32 (bitReverse16 (u16 (Z.land a 65535)))) 16))).

Definition bitReverse64 (a : Z) : Z :=
  u64 (Z.lor (bitReverse32 (u32 (Z.shiftr a 32)))
             (u64 (Z.shiftl (u64 (bitReverse32 (u32 (Z.land a 0xFFFFFFFF)))) 32))).

(** [while (v) { v &= (v-1); ++result; }] on w-bit words, with fuel. *)
Fixpoint bitPop_loop (w : Z) (fuel : nat) (v result : Z) : option Z :=
  if v =? 0 then Some result
  else match fuel with
       | O => None
       | S fuel' => bitPop_loop w fuel' (Z.land v (wrap w (v - 1))) (result + 1)
       end.

Definition bitPop32 (v : Z) : option Z := bitPop_loop 32 32 v 0.
Definition bitPop64 (v : Z) : option Z := bitPop_loop 64 64 v 0.
Definition bitPop8 (v : Z) : option Z := bitPop32 v.
Definition bitPop16 (v : Z) : option Z := bitPop32 v.

(** [isPowerOfTwo<T>] for a w-bit unsigned [T]. *)
Definition isPowerOfTwo (w i : Z) : bool := Z.land i (wrap w (i - 1)) =? 0.

(** ** Lemmas *)

(** Number of set bits among bits [0 .. n-1]. *)
Fixpoint rank (x : Z) (n : nat) : Z :=
  match n with
  | O => 0
  | S n' => rank x n' + Z.b2z (Z.testbit x (Z.of_nat n'))
  end.

Lemma rank_nonneg x n : 0 <= rank x n.
Proof. induction n; simpl; [lia|]. destruct (Z.testbit _ _); simpl; lia. Qed.

Lemma rank_ext x y n :
  (forall i, 0 <= i < Z.of_nat n -> Z.testbit x i = Z.testbit y i) -> rank x n = rank y n.
Proof.
  induction n as [|n IH]; intros Heq; simpl; [done|].
  rewrite IH by (intros; apply Heq; lia). by rewrite Heq by lia.
Qed.

Lemma rank_mono x n m : (n <= m)%nat -> rank x n <= rank x m.
Proof. induction 1; simpl; [lia|]. destruct (Z.testbit _ _); simpl; lia. Qed.

Lemma rank_0 n : rank 0 n = 0.
Proof. induction n as [|n IH]; simpl; [done|]. by rewrite IH, Z.testbit_0_l. Qed.

Lemma rank_double x n b : rank (2 * x + Z.b2z b) (S n) = Z.b2z b + rank x n.
Proof.
  induction n as [|n IH].
  - cbn [rank]. change (Z.of_nat 0) with 0. rewrite Z.testbit_0_r. lia.
  - cbn [rank] in *. rewrite IH. rewrite Nat2Z.inj_succ, Z.testbit_succ_r by lia. lia.
Qed.

Lemma rank_high x m n : in_u (Z.of_nat m) x -> (m <= n)%nat -> rank x n = rank x m.
Proof.
  intros Hx. induction 1 as [|n Hn IH]; simpl; [done|].
  rewrite IH, (testbit_in_u (Z.of_nat m)) by (done || lia). simpl. lia.
Qed.

Lemma rank_low_zero x n :
  (forall i, 0 <= i < Z.of_nat n -> Z.testbit x i = false) -> rank x n = 0.
Proof.
  intros H. rewrite (rank_ext x 0); [apply rank_0|].
  intros i Hi. by rewrite H, Z.testbit_0_l.
Qed.

(** Clearing the lowest set bit. *)
Lemma land_pred_double p :
  Z.land (Z.pos p~0) (Z.pos p~0 - 1) = 2 * Z.land (Z.pos p) (Z.pos p - 1).
Proof.
  apply Z.bits_inj'. intros i Hi.
  destruct (decide (i = 0)) as [->|].
  - rewrite Z.land_spec. rewrite (Z.testbit_even_0 (Z.land _ _)). done.
  - replace i with (Z.succ (i - 1)) by lia.
    replace (Z.pos p~0) with (2 * Z.pos p) by lia.
    replace (2 * Z.pos p - 1) with (2 * (Z.pos p - 1) + 1) by lia.
    rewrite Z.land_spec, !Z.testbit_even_succ, Z.testbit_odd_succ, Z.land_spec by lia. done.
Qed.

Lemma rank_land_pred v n :
  0 < v -> v < 2 ^ Z.of_nat n -> rank (Z.land v (v - 1)) n = rank v n - 1.
Proof.
  destruct v as [|p|p]; try lia. intros _. revert n.
  induction p as [p _|p IH|]; intros n Hn.
  - destruct n as [|n]; [simpl in Hn; lia|].
    replace (Z.pos p~1) with (2 * Z.pos p + Z.b2z true) by (simpl; lia).
    replace (2 * Z.pos p + Z.b2z true - 1) with (2 * Z.pos p + Z.b2z false) by (simpl; lia).
    assert (Z.land (2 * Z.pos p + Z.b2z true) (2 * Z.pos p + Z.b2z false) = 2 * Z.pos p + Z.b2z false) as ->.
    { apply Z.bits_inj'. intros i Hi. rewrite Z.land_spec. destruct (decide (i = 0)) as [->|].
      - rewrite !Z.testbit_0_r. done.
      - replace i with (Z.succ (i - 1)) by lia. rewrite !Z.testbit_succ_r by lia. btauto. }
    rewrite !rank_double. simpl. lia.
  - destruct n as [|n]; [simpl in Hn; lia|].
    rewrite land_pred_double.
    replace (2 * Z.land (Z.pos p) (Z.pos p - 1))
      with (2 * Z.land (Z.pos p) (Z.pos p - 1) + Z.b2z false) by (simpl; lia).
    replace (Z.pos p~0) with (2 * Z.pos p + Z.b2z false) by (simpl; lia).
    rewrite !rank_double, IH; [lia|].
    rewrite Nat2Z.inj_succ, Z.pow_succ_r in Hn by lia. lia.
  - destruct n as [|n]; [simpl in Hn; lia|]. change (Z.land 1 (1 - 1)) with 0.
    rewrite rank_0. change 1 with (2 * 0 + Z.b2z true) at 1. rewrite rank_double, rank_0. done.
Qed.

Lemma rank_pos v n : 0 < v -> v < 2 ^ Z.of_nat n -> 0 < rank v n.
Proof.
  intros H0 Hn. pose proof (rank_land_pred v n H0 Hn). pose proof (rank_nonneg (Z.land v (v - 1)) n). lia.
Qed.

Lemma bitPop_loop_spec w fuel v r :
  in_u (Z.of_nat w) v -> rank v w <= Z.of_nat fuel ->
  bitPop_loop (Z.of_nat w) fuel v r = Some (r + rank v w).
Proof.
  revert v r. induction fuel as [|fuel IH]; intros v r Hv Hr; simpl;
    destruct (Z.eqb_spec v 0) as [->|Hne].
  - rewrite rank_0. f_equal. lia.
  - unfold in_u in Hv. pose proof (rank_pos v w). lia.
  - rewrite rank_0. f_equal. lia.
  - unfold in_u in Hv. rewrite wrap_small by lia.
    rewrite IH; [rewrite rank_land_pred by lia; f_equal; lia| |rewrite rank_land_pred by lia; lia].
    apply in_u_land; [lia|exact Hv|lia].
Qed.

Lemma rank_le_width x n : rank x n <= Z.of_nat n.
Proof. induction n; simpl; [lia|]. destruct (Z.testbit _ _); simpl; lia. Qed.

Lemma bitPop64_spec v : in_u 64 v -> bitPop64 v = Some (rank v 64).
Proof.
  intros Hv. pose proof (bitPop_loop_spec 64 64 v 0 Hv (rank_le_width _ _)) as Hp.
  rewrite Z.add_0_l in Hp. exact Hp.
Qed.

Lemma bitPop32_spec v : in_u 32 v -> bitPop32 v = Some (rank v 32).
Proof.
  intros Hv. pose proof (bitPop_loop_spec 32 32 v 0 Hv (rank_le_width _ _)) as Hp.
  rewrite Z.add_0_l in Hp. exact Hp.
Qed.

(** *** Rotation *)

Lemma land_ones_range c n : 0 <= n -> 0 <= Z.land c (Z.ones n) < 2 ^ n.
Proof. intros. rewrite Z.land_ones by lia. apply Z.mod_pos_bound. lia. Qed.

(** The or of the two shifted halves, bit by bit. *)
Lemma rotl_bits w a c i :
  0 < w -> in_u w a -> 0 <= c < w -> 0 <= i < w ->
  Z.testbit (Z.lor (Z.shiftl a c) (Z.shiftr a (w - c))) i = Z.testbit a ((i - c) mod w).
Proof.
  intros Hw Ha Hc Hi. rewrite Z.lor_spec, Z.shiftl_spec, Z.shiftr_spec by lia.
  destruct (Z_lt_le_dec i c).
  - rewrite (Z.testbit_neg_r a (i - c)) by lia. simpl. f_equal.
    rewrite <- (Z_mod_plus_full (i - c) 1). rewrite Z.mod_small; lia.
  - rewrite (testbit_in_u w a (i + (w - c))) by (done || lia). rewrite orb_false_r.
    by rewrite Z.mod_small by lia.
Qed.

Lemma rotl_wrap_bits w a c i :
  0 < w -> in_u w a -> 0 <= c < w -> 0 <= i < w ->
  Z.testbit (Z.lor (wrap w (Z.shiftl a c)) (Z.shiftr a (w - c))) i = Z.testbit a ((i - c) mod w).
Proof.
  intros Hw Ha Hc Hi. rewrite <- rotl_bits by done.
  rewrite !Z.lor_spec, wrap_spec by lia. by rewrite (proj2 (Z.ltb_lt i w)) by lia.
Qed.

Lemma mod_land_sub c w n i : 0 <= n -> w = 2 ^ n -> (i - Z.land c (Z.ones n)) mod w = (i - c) mod w.
Proof. intros Hn ->. rewrite Z.land_ones by lia. by rewrite Zminus_mod_idemp_r. Qed.

Lemma mod_land_add c w n i :
  0 <= n -> w = 2 ^ n -> (i - (w - Z.land c (Z.ones n))) mod w = (i + c) mod w.
Proof.
  intros Hn ->. rewrite Z.land_ones by lia.
  replace (i - (2 ^ n - c mod 2 ^ n)) with (i + c mod 2 ^ n + (-1) * 2 ^ n) by lia.
  by rewrite Z_mod_plus_full, Zplus_mod_idemp_r.
Qed.

Lemma rotateLeft8_bits a c i :
  in_u 8 a -> 0 <= i < 8 -> Z.testbit (rotateLeft8 a c) i = Z.testbit a ((i - c) mod 8).
Proof.
  intros Ha Hi. unfold rotateLeft8, u8. rewrite wrap_spec by lia.
  rewrite (proj2 (Z.ltb_lt i 8)) by lia. rewrite andb_true_l.
  change 7 with (Z.ones 3). pose proof (land_ones_range c 3).
  rewrite rotl_bits by (done || lia). f_equal. by apply mod_land_sub.
Qed.

(** Rotation as the wider functions write it, with the zero count apart. *)
Lemma rotl_cond w n a c i :
  0 <= n -> w = 2 ^ n -> in_u w a -> 0 <= i < w ->
  Z.testbit (let c := Z.land c (Z.ones n) in
             if negb (c =? 0) then Z.lor (wrap w (Z.shiftl a c)) (Z.shiftr a (w - c)) else a) i
  = Z.testbit a ((i - c) mod w).
Proof.
  intros Hn Hw Ha Hi. cbv zeta. pose proof (land_ones_range c n Hn) as Hc.
  rewrite <- (mod_land_sub c w n i) by done.
  destruct (Z.eqb_spec (Z.land c (Z.ones n)) 0) as [E|E]; cbn [negb].
  - rewrite E, Z.sub_0_r. by rewrite Z.mod_small by lia.
  - apply rotl_wrap_bits; done || lia.
Qed.

Lemma rotr_cond w n a c i :
  0 <= n -> w = 2 ^ n -> in_u w a -> 0 <= i < w ->
  Z.testbit (let c := Z.land c (Z.ones n) in
             if negb (c =? 0) then Z.lor (wrap w (Z.shiftl a (w - c))) (Z.shiftr a c) else a) i
  = Z.testbit a ((i + c) mod w).
Proof.
  intros Hn Hw Ha Hi. cbv zeta. pose proof (land_ones_range c n Hn) as Hc.
  rewrite <- (mod_land_add c w n i) by done.
  destruct (Z.eqb_spec (Z.land c (Z.ones n)) 0) as [E|E]; cbn [negb].
  - rewrite E. replace (i - (w - 0)) with (i + (-1) * w) by lia.
    by rewrite Z_mod_plus_full, Z.mod_small by lia.
  - rewrite <- (rotl_wrap_bits w a (w - Z.land c (Z.ones n)) i) by (done || lia).
    do 3 f_equal. lia.
Qed.

Lemma rotateLeft16_bits a c i :
  in_u 16 a -> 0 <= i < 16 -> Z.testbit (rotateLeft16 a c) i = Z.testbit a ((i - c) mod 16).
Proof.
  intros Ha Hi. rewrite <- (rotl_cond 16 4 a c i) by done. unfold rotateLeft16, u16.
  change 15 with (Z.ones 4). destruct (negb _); [|done].
  rewrite wrap_spec, !Z.lor_spec, wrap_spec by lia.
  by rewrite (proj2 (Z.ltb_lt i 16)) by lia.
Qed.

Lemma rotateLeft32_bits a c i :
  in_u 32 a -> 0 <= i < 32 -> Z.testbit (rotateLeft32 a c) i = Z.testbit a ((i - c) mod 32).
Proof. intros. by rewrite <- (rotl_cond 32 5). Qed.

Lemma rotateLeft64_bits a c i :
  in_u 64 a -> 0 <= i < 64 -> Z.testbit (rotateLeft64 a c) i = Z.testbit a ((i - c) mod 64).
Proof. intros. by rewrite <- (rotl_cond 64 6). Qed.

Lemma rotateRight32_bits a c i :
  in_u 32 a -> 0 <= i < 32 -> Z.testbit (rotateRight32 a c) i = Z.testbit a ((i + c) mod 32).
Proof. intros. by rewrite <- (rotr_cond 32 5). Qed.

Lemma rotateRight64_bits a c i :
  in_u 64 a -> 0 <= i < 64 -> Z.testbit (rotateRight64 a c) i = Z.testbit a ((i + c) mod 64).
Proof. intros. by rewrite <- (rotr_cond 64 6). Qed.

Lemma rotateRight8_bits a c i :
  in_u 8 a -> 0 <= i < 8 -> Z.testbit (rotateRight8 a c) i = Z.testbit a ((i + c) mod 8).
Proof.
  intros. unfold rotateRight8. rewrite rotateLeft8_bits by done. f_equal.
  replace (i - (8 - c)) with (i + c + (-1) * 8) by lia. apply Z_mod_plus_full.
Qed.

Lemma rotateRight16_bits a c i :
  in_u 16 a -> 0 <= i < 16 -> Z.testbit (rotateRight16 a c) i = Z.testbit a ((i + c) mod 16).
Proof.
  intros. unfold rotateRight16. rewrite rotateLeft16_bits by done. f_equal.
  replace (i - (16 - c)) with (i + c + (-1) * 16) by lia. apply Z_mod_plus_full.
Qed.

Lemma rotateLeft32_in_u a c : in_u 32 a -> in_u 32 (rotateLeft32 a c).
Proof.
  intros Ha. unfold rotateLeft32. cbv zeta. destruct (negb _); [|done].
  pose proof (land_ones_range c 5). change (Z.ones 5) with 31 in *.
  apply in_u_lor; [lia|by apply in_u_wrap|apply in_u_shiftr; done || lia].
Qed.

Lemma rotateRight32_in_u a c : in_u 32 a -> in_u 32 (rotateRight32 a c).
Proof.
  intros Ha. unfold rotateRight32. cbv zeta. destruct (negb _); [|done].
  pose proof (land_ones_range c 5). change (Z.ones 5) with 31 in *.
  apply in_u_lor; [lia|by apply in_u_wrap|apply in_u_shiftr; done || lia].
Qed.

Lemma rotateRight64_in_u a c : in_u 64 a -> in_u 64 (rotateRight64 a c).
Proof.
  intros Ha. unfold rotateRight64. cbv zeta. destruct (negb _); [|done].
  pose proof (land_ones_range c 6). change (Z.ones 6) with 63 in *.
  apply in_u_lor; [lia|by apply in_u_wrap|apply in_u_shiftr; done || lia].
Qed.

(** *** Logarithm *)

Lemma bitLog_loop_spec n v r :
  0 < v < 2 ^ (2 ^ Z.of_nat (S n)) ->
  bitLog_loop n (v, r) = (1, r + Z.log2 v).
Proof.
  assert (forall b v r, 0 <= b -> 0 < v < 2 ^ (2 * b) ->
    exists v', bitLog_step b (v, r) = (v', r + Z.log2 v - Z.log2 v') /\ 0 < v' < 2 ^ b) as Hstep.
  { clear. intros b v r Hb Hv. unfold bitLog_step.
    destruct (Z.eqb_spec (Z.shiftr v b) 0) as [E|E]; cbn [negb].
    - exists v. split; [f_equal; lia|]. split; [lia|].
      rewrite Z.shiftr_div_pow2 in E by lia. apply Z.div_small_iff in E; lia.
    - assert (b <= Z.log2 v) as Hlog.
      { destruct (Z_lt_le_dec (Z.log2 v) b) as [Hlt|]; [|done]. exfalso. apply E.
        apply Z.shiftr_eq_0; lia. }
      exists (Z.shiftr v b). rewrite Z.log2_shiftr by lia. split; [f_equal; lia|].
      rewrite Z.shiftr_div_pow2 in * by lia.
      assert (0 <= v / 2 ^ b) by (apply Z.div_pos; lia). split; [lia|].
      apply Z.div_lt_upper_bound; [lia|]. rewrite <- Z.pow_add_r by lia.
      replace (b + b) with (2 * b) by lia. lia. }
  revert v r. induction n as [|n IH]; intros v r Hv.
  - cbn [bitLog_loop]. destruct (Hstep (2 ^ Z.of_nat 0) v r) as (v' & -> & Hv'); [lia|exact Hv|].
    change (2 ^ 2 ^ Z.of_nat 0) with 2 in Hv'. assert (v' = 1) as -> by lia.
    f_equal. simpl. lia.
  - cbn [bitLog_loop]. destruct (Hstep (2 ^ Z.of_nat (S n)) v r) as (v' & -> & Hv'); [lia| |].
    { rewrite <- Z.pow_succ_r by lia. by rewrite <- Nat2Z.inj_succ. }
    rewrite IH by done. f_equal. lia.
Qed.

(** *** Reversal *)

Lemma bitReverse8_in_u a : in_u 8 (bitReverse8 a).
Proof. by apply in_u_wrap. Qed.

Lemma bitReverse8_bits a i :
  in_u 8 a -> 0 <= i < 8 -> Z.testbit (bitReverse8 a) i = Z.testbit a (7 - i).
Proof.
  intros Ha Hi.
  assert (forallb (fun a => forallb (fun i => eqb (Z.testbit (bitReverse8 a) i) (Z.testbit a (7 - i)))
            (seqZ 0 8)) (seqZ 0 256) = true) as Hall by (vm_compute; reflexivity).
  rewrite forallb_forall in Hall.
  specialize (Hall a). rewrite forallb_forall in Hall. apply eqb_prop, Hall.
  - apply list_elem_of_In, elem_of_seqZ. unfold in_u in Ha. simpl in Ha. lia.
  - apply list_elem_of_In, elem_of_seqZ. lia.
Qed.

(** Reversing a double word from the reversals of its halves. *)
Lemma reverse_combine w (f : Z -> Z) a i :
  0 < w -> in_u (2 * w) a ->
  (forall x, in_u w (f x)) ->
  (forall x i, in_u w x -> 0 <= i < w -> Z.testbit (f x) i = Z.testbit x (w - 1 - i)) ->
  0 <= i < 2 * w ->
  Z.testbit (Z.lor (f (wrap w (Z.shiftr a w))) (Z.shiftl (f (wrap w a)) w)) i
  = Z.testbit a (2 * w - 1 - i).
Proof.
  intros Hw Ha Hf Hb Hi. rewrite Z.lor_spec, Z.shiftl_spec by lia.
  destruct (Z_lt_le_dec i w).
  - rewrite Hb; [|apply in_u_wrap; lia|lia].
    rewrite (Z.testbit_neg_r _ (i - w)) by lia. rewrite orb_false_r.
    rewrite wrap_spec, Z.shiftr_spec by lia. rewrite (proj2 (Z.ltb_lt _ _)) by lia.
    simpl. f_equal. lia.
  - rewrite (testbit_in_u w (f _) i) by (done || lia). simpl.
    rewrite Hb; [|apply in_u_wrap; lia|lia].
    rewrite wrap_spec by lia. rewrite (proj2 (Z.ltb_lt _ _)) by lia. simpl. f_equal. lia.
Qed.

Lemma wrap_land_ones w a : 0 <= w -> wrap w (Z.land a (Z.ones w)) = wrap w a.
Proof. intros. rewrite Z.land_ones by lia. apply wrap_idem. Qed.

Lemma bitReverse16_bits a i :
  in_u 16 a -> 0 <= i < 16 -> Z.testbit (bitReverse16 a) i = Z.testbit a (15 - i).
Proof.
  intros Ha Hi. unfold bitReverse16, u16, u8. change 255 with (Z.ones 8).
  rewrite wrap_land_ones, (wrap_small 16 (bitReverse8 _)) by
    (lia || (pose proof (bitReverse8_in_u (wrap 8 a)); unfold in_u in *; lia)).
  rewrite wrap_spec by lia. rewrite (proj2 (Z.ltb_lt i 16)), andb_true_l by lia.
  rewrite (reverse_combine 8 bitReverse8) by (auto using bitReverse8_in_u, bitReverse8_bits || lia).
  f_equal.
Qed.

Lemma bitReverse16_in_u a : in_u 16 (bitReverse16 a).
Proof. by apply in_u_wrap. Qed.

Lemma bitReverse32_bits a i :
  in_u 32 a -> 0 <= i < 32 -> Z.testbit (bitReverse32 a) i = Z.testbit a (31 - i).
Proof.
  intros Ha Hi. unfold bitReverse32, u32, u16. change 65535 with (Z.ones 16).
  rewrite wrap_land_ones, (wrap_small 32 (bitReverse16 _)) by
    (lia || (pose proof (bitReverse16_in_u (wrap 16 a)); unfold in_u in *; lia)).
  rewrite wrap_spec by lia. rewrite (proj2 (Z.ltb_lt i 32)), andb_true_l by lia.
  rewrite Z.lor_spec, wrap_spec by lia. rewrite (proj2 (Z.ltb_lt i 32)), andb_true_l by lia.
  rewrite <- Z.lor_spec.
  rewrite (reverse_combine 16 bitReverse16) by (auto using bitReverse16_in_u, bitReverse16_bits || lia).
  f_equal.
Qed.

Lemma bitReverse32_in_u a : in_u 32 (bitReverse32 a).
Proof. by apply in_u_wrap. Qed.

Lemma bitReverse64_bits a i :
  in_u 64 a -> 0 <= i < 64 -> Z.testbit (bitReverse64 a) i = Z.testbit a (63 - i).
Proof.
  intros Ha Hi. unfold bitReverse64, u64, u32. change 0xFFFFFFFF with (Z.ones 32).
  rewrite wrap_land_ones, (wrap_small 64 (bitReverse32 _)) by
    (lia || (pose proof (bitReverse32_in_u (wrap 32 a)); unfold in_u in *; lia)).
  rewrite wrap_spec by lia. rewrite (proj2 (Z.ltb_lt i 64)), andb_true_l by lia.
  rewrite Z.lor_spec, wrap_spec by lia. rewrite (proj2 (Z.ltb_lt i 64)), andb_true_l by lia.
  rewrite <- Z.lor_spec.
  rewrite (reverse_combine 32 bitReverse32) by (auto using bitReverse32_in_u, bitReverse32_bits || lia).
  f_equal.
Qed.

(** ** Properties *)

(** Rotation: bit i of the left (right) rotation of a w-bit word by c is
    bit (i - c) mod w (bit (i + c) mod w) of the word, for every width and
    every int count, including negative ones and ones of w or more. *)
Lemma rotate_bits a c i :
  (in_u 8 a -> 0 <= i < 8 ->
     Z.testbit (rotateLeft8 a c) i = Z.testbit a ((i - c) mod 8) /\
     Z.testbit (rotateRight8 a c) i = Z.testbit a ((i + c) mod 8)) /\
  (in_u 16 a -> 0 <= i < 16 ->
     Z.testbit (rotateLeft16 a c) i = Z.testbit a ((i - c) mod 16) /\
     Z.testbit (rotateRight16 a c) i = Z.testbit a ((i + c) mod 16)) /\
  (in_u 32 a -> 0 <= i < 32 ->
     Z.testbit (rotateLeft32 a c) i = Z.testbit a ((i - c) mod 32) /\
     Z.testbit (rotateRight32 a c) i = Z.testbit a ((i + c) mod 32)) /\
  (in_u 64 a -> 0 <= i < 64 ->
     Z.testbit (rotateLeft64 a c) i = Z.testbit a ((i - c) mod 64) /\
     Z.testbit (rotateRight64 a c) i = Z.testbit a ((i + c) mod 64)).
Proof.
  auto 10 using rotateLeft8_bits, rotateRight8_bits, rotateLeft16_bits, rotateRight16_bits,
    rotateLeft32_bits, rotateRight32_bits, rotateLeft64_bits, rotateRight64_bits.
Qed.

(** BitLog returns the position of the most significant set bit (the
    p with v >> p = 1), and -1 for 0; bitReverse maps bit i to bit w-1-i;
    bitPop terminates and returns the number of set bits. *)
Lemma bit_functions_correct v :
  in_u 64 v ->
  bitLog64 v = (if v =? 0 then -1 else Z.log2 v) /\
  (in_u 32 v -> bitLog32 v = (if v =? 0 then -1 else Z.log2 v)) /\
  (forall i, 0 <= i < 64 -> Z.testbit (bitReverse64 v) i = Z.testbit v (63 - i)) /\
  (in_u 32 v -> forall i, 0 <= i < 32 -> Z.testbit (bitReverse32 v) i = Z.testbit v (31 - i)) /\
  (in_u 16 v -> forall i, 0 <= i < 16 -> Z.testbit (bitReverse16 v) i = Z.testbit v (15 - i)) /\
  (in_u 8 v -> forall i, 0 <= i < 8 -> Z.testbit (bitReverse8 v) i = Z.testbit v (7 - i)) /\
  bitPop64 v = Some (rank v 64) /\
  (in_u 32 v -> bitPop32 v = Some (rank v 32)).
Proof.
  intros Hv. split; [|split; [|split; [|split; [|split; [|split; [|split]]]]]];
    eauto using bitReverse64_bits, bitReverse32_bits, bitReverse16_bits, bitReverse8_bits.
  - unfold bitLog64. destruct (Z.eqb_spec v 0); [done|].
    unfold in_u in Hv. rewrite (bitLog_loop_spec 5 v 0) by (change (2 ^ 2 ^ Z.of_nat 6) with (2 ^ 64); lia).
    apply Z.add_0_l.
  - intros H32. unfold bitLog32. destruct (Z.eqb_spec v 0); [done|].
    unfold in_u in H32. rewrite (bitLog_loop_spec 4 v 0) by (change (2 ^ 2 ^ Z.of_nat 5) with (2 ^ 32); lia).
    apply Z.add_0_l.
  - by apply bitPop64_spec.
  - intros H32. by apply bitPop32_spec.
Qed.

(** Bit operations.  Bit i of a rotated word is the bit that the rotation
    moves there, for every width and every count; bitLog is the position of the
    highest bit, bitReverse mirrors the word, and the loop of bitPop ends with
    the number of set bits. *)
Theorem bit_operations_correct :
  (forall a c i,
  (in_u 8 a -> 0 <= i < 8 ->
     Z.testbit (rotateLeft8 a c) i = Z.testbit a ((i - c) mod 8) /\
     Z.testbit (rotateRight8 a c) i = Z.testbit a ((i + c) mod 8)) /\
  (in_u 16 a -> 0 <= i < 16 ->
     Z.testbit (rotateLeft16 a c) i = Z.testbit a ((i - c) mod 16) /\
     Z.testbit (rotateRight16 a c) i = Z.testbit a ((i + c) mod 16)) /\
  (in_u 32 a -> 0 <= i < 32 ->
     Z.testbit (rotateLeft32 a c) i = Z.testbit a ((i - c) mod 32) /\
     Z.testbit (rotateRight32 a c) i = Z.testbit a ((i + c) mod 32)) /\
  (in_u 64 a -> 0 <= i < 64 ->
     Z.testbit (rotateLeft64 a c) i = Z.testbit a ((i - c) mod 64) /\
     Z.testbit (rotateRight64 a c) i = Z.testbit a ((i + c) mod 64))) /\
  (forall v,
  in_u 64 v ->
  bitLog64 v = (if v =? 0 then -1 else Z.log2 v) /\
  (in_u 32 v -> bitLog32 v = (if v =? 0 then -1 else Z.log2 v)) /\
  (forall i, 0 <= i < 64 -> Z.testbit (bitReverse64 v) i = Z.testbit v (63 - i)) /\
  (in_u 32 v -> forall i, 0 <= i < 32 -> Z.testbit (bitReverse32 v) i = Z.testbit v (31 - i)) /\
  (in_u 16 v -> forall i, 0 <= i < 16 -> Z.testbit (bitReverse16 v) i = Z.testbit v (15 - i)) /\
  (in_u 8 v -> forall i, 0 <= i < 8 -> Z.testbit (bitReverse8 v) i = Z.testbit v (7 - i)) /\
  bitPop64 v = Some (rank v 64) /\
  (in_u 32 v -> bitPop32 v = Some (rank v 32))).
Proof. exact (conj rotate_bits bit_functions_correct). Qed.

(** ** Small sets (smallset.hpp)

    [SmallSet<T, Rep>]: a set of enumerators stored as the bits of an unsigned
    integer of [w] bits.  Enumerators are their numeric values. *)
Module SmallSet.
Section SmallSet.
Context (w : Z).
Implicit Types (s other t : Z).

(** [Rep_t(1) << t] *)
Definition bit t : Z := wrap w (Z.shiftl 1 t).

Definition empty_set : Z := 0.
Definition unit_set t : Z := bit t.
(** [operator|=], [operator+=], [operator|], [operator+] *)
Definition add s t : Z := Z.lor s (bit t).
Definition union s other : Z := Z.lor s other.
(** [operator-=], [operator-] *)
Definition remove s t : Z := Z.land s (unot w (bit t)).
Definition difference s other : Z := Z.land s (unot w other).
(** [operator&=], [operator&] *)
Definition intersection s other : Z := Z.land s other.
(** [operator^=], [operator^] *)
Definition toggle s t : Z := Z.lxor s (bit t).
Definition symmetric_difference s other : Z := Z.lxor s other.

Definition contains s t : bool := negb (Z.land s (bit t) =? 0).
Definition contains_set s other : bool := Z.land other (unot w s) =? 0.
Definition containsAnyOf s other : bool := negb (Z.land s other =? 0).
Definition is_empty s : bool := s =? 0.
Definition clear (s : Z) : Z := 0.
Definition isUnitSet s : bool := Z.land s (wrap w (s - 1)) =? 0.
Definition allUpTo t : Z := wrap w (wrap w (Z.shiftl (wrap w (bit t - 1)) 1) + 1).
Definition eq_set s other : bool := s =? other.
Definition eq_unit s t : bool := s =? bit t.
Definition nonempty s : bool := negb (s =? 0).
Definition toInteger s : Z := s.
Definition fromInteger (v : Z) : Z := v.
Definition set_ s t (flag : bool) : Z := if flag then add s t else remove s t.

(** Loop of [take]: state is (mask, result, m_rep, n). *)
Fixpoint take_loop (fuel : nat) (mask result s n : Z) : option (Z * Z) :=
  if negb (s =? 0) && negb (n =? 0)
  then match fuel with
       | O => None
       | S fuel' =>
           let mask' := wrap w (Z.shiftl mask 1) in
           if negb (Z.land s mask =? 0)
           then take_loop fuel' mask' (Z.lor result mask) (Z.land s (unot w mask)) (n - 1)
           else take_loop fuel' mask' result s n
       end
  else Some (result, s).

(** Returns the taken elements and the remaining set. *)
Definition take_ s (n : Z) : option (Z * Z) := take_loop (Z.to_nat w) 1 0 s n.
End SmallSet.

(** [size()] for the four representation types. *)
Definition size_ (w s : Z) : option Z :=
  if w =? 8 then bitPop8 s else if w =? 16 then bitPop16 s
  else if w =? 32 then bitPop32 s else bitPop64 s.

Section Props.
Context (w : Z) (Hw : 0 < w).

Lemma bit_spec t i : 0 <= t < w -> 0 <= i -> Z.testbit (bit w t) i = (i =? t).
Proof.
  intros Ht Hi. unfold bit. rewrite wrap_spec, Z.shiftl_spec by lia.
  destruct (Z.ltb_spec i w), (Z.eqb_spec i t) as [->|]; simpl; try lia.
  - by rewrite Z.sub_diag.
  - destruct (Z_lt_le_dec (i - t) 0); [by rewrite Z.testbit_neg_r|].
    apply Z.bits_above_log2; simpl; lia.
Qed.

Lemma contains_testbit s t : in_u w s -> 0 <= t < w -> contains w s t = Z.testbit s t.
Proof.
  intros Hs Ht. unfold contains.
  assert (Z.land s (bit w t) = if Z.testbit s t then bit w t else 0) as ->.
  { apply Z.bits_inj'. intros i Hi. rewrite Z.land_spec, bit_spec by lia.
    destruct (Z.eqb_spec i t) as [->|].
    - destruct (Z.testbit s t); [by rewrite bit_spec, Z.eqb_refl by lia|by rewrite Z.testbit_0_l].
    - rewrite andb_false_r. destruct (Z.testbit s t); [|by rewrite Z.testbit_0_l].
      rewrite bit_spec by lia. symmetry. by apply Z.eqb_neq. }
  destruct (Z.testbit s t); [|done].
  destruct (Z.eqb_spec (bit w t) 0) as [E|]; [|done].
  pose proof (bit_spec t t Ht (proj1 Ht)) as Hb. rewrite E, Z.testbit_0_l, Z.eqb_refl in Hb. done.
Qed.

Lemma eq_0_testbit x : in_u w x -> (x = 0 <-> forall i, 0 <= i < w -> Z.testbit x i = false).
Proof.
  intros Hx. split; [intros -> i _; apply Z.testbit_0_l|].
  intros Hb. apply Z.bits_inj'. intros i Hi. rewrite Z.testbit_0_l.
  destruct (Z_lt_le_dec i w); [apply Hb; lia|by apply (testbit_in_u w)].
Qed.

Lemma bit_in_u t : in_u w (bit w t).
Proof. apply in_u_wrap. lia. Qed.

Lemma bit_pow2 t : 0 <= t < w -> bit w t = 2 ^ t.
Proof.
  intros Ht. unfold bit. rewrite Z.shiftl_1_l. apply wrap_small.
  pose proof (Z.pow_lt_mono_r 2 t w). lia.
Qed.

Lemma allUpTo_ones t : 0 <= t < w -> allUpTo w t = Z.ones (t + 1).
Proof.
  intros Ht. unfold allUpTo. rewrite bit_pow2, Z.ones_equiv by lia.
  assert (2 ^ (t + 1) = 2 * 2 ^ t) as E by (rewrite Z.pow_add_r; lia).
  pose proof (Z.pow_pos_nonneg 2 t). pose proof (Z.pow_le_mono_r 2 (t + 1) w).
  rewrite (wrap_small w (2 ^ t - 1)), Z.shiftl_mul_pow2, E by lia.
  rewrite (wrap_small w (_ * _)), wrap_small by lia. lia.
Qed.

(** Number of members of [s] below [i]. *)
Definition rank_at (s i : Z) : Z := rank s (Z.to_nat i).

(** Removing member [k] lowers the rank of everything above it by one. *)
Lemma rank_remove s k n :
  in_u w s -> 0 <= k < w -> Z.testbit s k = true ->
  rank (Z.land s (unot w (bit w k))) n = rank s n - Z.b2z (k <? Z.of_nat n).
Proof.
  intros Hs Hk Hb. induction n as [|n IH]; cbn [rank].
  { destruct (Z.ltb_spec k (Z.of_nat 0)); [lia|done]. }
  rewrite IH, Z.land_spec, unot_spec, bit_spec by lia.
  destruct (Z.eqb_spec (Z.of_nat n) k) as [E|E].
  - rewrite E, Hb, andb_false_r, andb_false_r. zcases; simpl; lia.
  - rewrite andb_true_r. destruct (Z.ltb_spec (Z.of_nat n) w).
    + rewrite andb_true_r. zcases; simpl; lia.
    + rewrite (testbit_in_u w s) by (done || lia). simpl. zcases; simpl; lia.
Qed.

Lemma take_loop_spec fuel k result s n :
  0 <= n -> in_u w s -> 0 <= k -> k + Z.of_nat fuel = w ->
  (forall i, 0 <= i < k -> Z.testbit s i = false) ->
  exists r rest,
    take_loop w fuel (bit w k) result s n = Some (r, rest) /\ 0 <= rest /\
    forall i, 0 <= i ->
      Z.testbit r i = Z.testbit result i || (Z.testbit s i && (rank_at s i <? n)) /\
      Z.testbit rest i = Z.testbit s i && negb (rank_at s i <? n).
Proof.
  assert (Hexit : forall r s' n', 0 <= s' -> s' = 0 \/ n' = 0 -> forall i, 0 <= i ->
     Z.testbit r i = Z.testbit r i || (Z.testbit s' i && (rank_at s' i <? n')) /\
     Z.testbit s' i = Z.testbit s' i && negb (rank_at s' i <? n')).
  { intros r s' n' _ [->| ->] i Hi; [rewrite Z.testbit_0_l; by bool_norm|].
    rewrite (proj2 (Z.ltb_ge _ _)) by (apply rank_nonneg). by bool_norm. }
  revert k result s n. induction fuel as [|fuel IH]; intros k result s n Hn Hs Hk Hkw Hlow.
  { assert (s = 0) as -> by (apply eq_0_testbit; [done|]; intros; apply Hlow; lia).
    exists result, 0. split; [done|]. split; [done|]. apply Hexit; auto with lia. }
  cbn [take_loop]. destruct (Z.eqb_spec s 0) as [->|Hs0].
  { exists result, 0. split; [done|]. split; [done|]. apply Hexit; auto with lia. }
  destruct (Z.eqb_spec n 0) as [->|Hn0].
  { exists result, s. split; [done|]. unfold in_u in Hs. split; [lia|]. apply Hexit; auto with lia. }
  cbn [negb andb].
  assert (Hmask : wrap w (Z.shiftl (bit w k) 1) = bit w (k + 1)).
  { unfold bit. rewrite !Z.shiftl_1_l, Z.shiftl_mul_pow2 by lia. unfold wrap.
    rewrite Zmult_mod_idemp_l, <- Z.pow_add_r by lia. done. }
  rewrite Hmask. fold (contains w s k). rewrite contains_testbit by (done || lia).
  assert (rank_at s k = 0) as Hrk by (apply rank_low_zero; intros; apply Hlow; lia).
  destruct (Z.testbit s k) eqn:Hb.
  - destruct (IH (k + 1) (Z.lor result (bit w k)) (Z.land s (unot w (bit w k))) (n - 1))
      as (r & rest & -> & Hrest & Hspec); try lia.
    { apply in_u_land_any; [lia|done]. }
    { intros i Hi. rewrite Z.land_spec, unot_spec, bit_spec by lia.
      destruct (Z.eqb_spec i k); [by bool_norm|]. by rewrite Hlow by lia. }
    exists r, rest. split; [done|]. split; [done|]. intros i Hi.
    destruct (Hspec i Hi) as [-> ->]. unfold rank_at. rewrite rank_remove by (done || lia).
    fold (rank_at s i). rewrite Z2Nat.id, Z.lor_spec, !Z.land_spec, !unot_spec, bit_spec by lia.
    destruct (Z.eqb_spec i k) as [->|].
    + rewrite Hb, Hrk. bool_norm. zcases; try lia; done.
    + destruct (Z.ltb_spec i w); [|rewrite (testbit_in_u w s i) by (done || lia); by bool_norm].
      bool_norm. destruct (Z.ltb_spec k i).
      * assert ((rank_at s i - Z.b2z true <? n - 1) = (rank_at s i <? n)) as -> by (simpl; zcases; lia).
        done.
      * rewrite Hlow by lia. done.
  - apply IH; try lia; try done.
    intros i Hi. destruct (decide (i = k)) as [->|]; [done|]. apply Hlow. lia.
Qed.

(** Membership in the result of each operation, as bits. *)
Ltac set_bits :=
  rewrite !contains_testbit by (try lia; auto with afl; apply in_u_land_any; auto with afl; lia);
  rewrite ?Z.lor_spec, ?Z.land_spec, ?Z.lxor_spec, ?unot_spec, ?bit_spec by lia;
  repeat match goal with |- context [ ?x <? w ] => rewrite (proj2 (Z.ltb_lt x w)) by lia end;
  try btauto.

(** SmallSet operations are the set operations: membership in the result
    of every operator is the corresponding Boolean combination of
    memberships, for every representation width. *)
Lemma smallset_operations s other t x :
  in_u w s -> in_u w other -> 0 <= t < w -> 0 <= x < w ->
  contains w (unit_set w t) x = (x =? t) /\
  contains w (add w s t) x = (x =? t) || contains w s x /\
  contains w (union s other) x = contains w s x || contains w other x /\
  contains w (remove w s t) x = negb (x =? t) && contains w s x /\
  contains w (difference w s other) x = contains w s x && negb (contains w other x) /\
  contains w (intersection s other) x = contains w s x && contains w other x /\
  contains w (toggle w s t) x = xorb (contains w s x) (x =? t) /\
  contains w (symmetric_difference s other) x = xorb (contains w s x) (contains w other x) /\
  contains w (allUpTo w t) x = (x <=? t) /\
  (forall flag, contains w (set_ w s t flag) t = flag).
Proof.
  intros Hs Ho Ht Hx. pose proof (bit_in_u t) as Hbt. assert (0 <= w) as Hw0 by lia.
  unfold unit_set, union, difference, intersection, toggle, symmetric_difference, set_, add, remove.
  split; [set_bits|]. split; [set_bits|]. split; [set_bits|]. split; [set_bits|].
  split; [set_bits|]. split; [set_bits|]. split; [set_bits|]. split; [set_bits|]. split.
  - rewrite contains_testbit; [|apply in_u_wrap; lia|lia].
    rewrite allUpTo_ones, Z.testbit_ones_nonneg by lia. zcases; lia.
  - intros []; set_bits; rewrite Z.eqb_refl; btauto.
Qed.

Lemma isUnitSet_rank s : in_u w s -> isUnitSet w s = (rank s (Z.to_nat w) <=? 1).
Proof.
  intros Hs. unfold isUnitSet. destruct (decide (s = 0)) as [->|Hne].
  { rewrite rank_0. done. }
  assert (0 < s < 2 ^ Z.of_nat (Z.to_nat w)) as Hr by (unfold in_u in Hs; rewrite Z2Nat.id by lia; lia).
  rewrite wrap_small by (unfold in_u in Hs; lia).
  pose proof (rank_land_pred s (Z.to_nat w) ltac:(lia) ltac:(lia)) as Hl.
  pose proof (rank_pos s (Z.to_nat w) ltac:(lia) ltac:(lia)).
  assert (in_u w (Z.land s (s - 1))) as [Hnn Hlt] by (apply in_u_land_any; [lia|done]).
  destruct (Z.eqb_spec (Z.land s (s - 1)) 0) as [E|E].
  - rewrite E, rank_0 in Hl. symmetry. apply Z.leb_le. lia.
  - symmetry. apply Z.leb_gt. pose proof (rank_pos (Z.land s (s - 1)) (Z.to_nat w)) as Hp.
    rewrite Z2Nat.id in Hp by lia. lia.
Qed.

Lemma contains_set_subset s other :
  in_u w s -> in_u w other ->
  contains_set w s other = true <->
  (forall x, 0 <= x < w -> contains w other x = true -> contains w s x = true).
Proof.
  intros Hs Ho. unfold contains_set. rewrite Z.eqb_eq, eq_0_testbit by (apply in_u_land_any; [lia|done]).
  apply forall_proper. intros x. split; intros H Hx.
  - specialize (H Hx). rewrite Z.land_spec, unot_spec in H by lia.
    rewrite !contains_testbit by done. rewrite (proj2 (Z.ltb_lt x w)) in H by lia.
    destruct (Z.testbit other x), (Z.testbit s x); done.
  - rewrite Z.land_spec, unot_spec, (proj2 (Z.ltb_lt x w)) by lia.
    rewrite !contains_testbit in H by done.
    destruct (Z.testbit other x), (Z.testbit s x); try done. specialize (H Hx eq_refl). done.
Qed.

Lemma size_rank s :
  w = 8 \/ w = 16 \/ w = 32 \/ w = 64 -> in_u w s -> size_ w s = Some (rank s (Z.to_nat w)).
Proof.
  intros Hww Hs. assert (forall v, w <= v -> in_u v s) as Hwide.
  { intros v Hv. unfold in_u in *. pose proof (Z.pow_le_mono_r 2 w v). lia. }
  unfold size_, bitPop8, bitPop16. destruct (Z.eqb_spec w 64) as [E|E].
  - rewrite !(proj2 (Z.eqb_neq w _)) by lia. rewrite bitPop64_spec by (apply Hwide; lia).
    rewrite E. done.
  - assert (bitPop32 s = Some (rank s (Z.to_nat w))) as H32.
    { rewrite bitPop32_spec by (apply Hwide; lia). f_equal. apply rank_high; [|lia].
      by rewrite Z2Nat.id by lia. }
    zcases; try lia; done.
Qed.

(** Queries and take(): size() terminates and is the number of members,
    isUnitSet() holds for at most one member, contains(set) is the subset
    relation, equality is extensional; take(n) terminates, returns exactly the
    members with fewer than n members below them and leaves the others. *)
Lemma smallset_queries_take s other n :
  w = 8 \/ w = 16 \/ w = 32 \/ w = 64 -> in_u w s -> in_u w other -> 0 <= n ->
  size_ w s = Some (rank s (Z.to_nat w)) /\
  isUnitSet w s = (rank s (Z.to_nat w) <=? 1) /\
  (contains_set w s other = true <->
     forall x, 0 <= x < w -> contains w other x = true -> contains w s x = true) /\
  (eq_set s other = true <-> forall x, 0 <= x < w -> contains w s x = contains w other x) /\
  exists r rest, take_ w s n = Some (r, rest) /\
    forall x, 0 <= x < w ->
      contains w r x = contains w s x && (rank_at s x <? n) /\
      contains w rest x = contains w s x && negb (rank_at s x <? n).
Proof.
  intros Hww Hs Ho Hn. split; [by apply size_rank|]. split; [by apply isUnitSet_rank|].
  split; [by apply contains_set_subset|]. split.
  - unfold eq_set. rewrite Z.eqb_eq. split; [by intros ->|]. intros H. apply Z.bits_inj'. intros i Hi.
    destruct (Z_lt_le_dec i w); [rewrite <- !contains_testbit by (done || lia); apply H; lia|].
    by rewrite !(testbit_in_u w).
  - destruct (take_loop_spec (Z.to_nat w) 0 0 s n) as (r & rest & Ht & Hrest & Hspec); try (done || lia).
    assert (bit w 0 = 1) as E0 by (rewrite bit_pow2; lia). rewrite E0 in Ht.
    assert (in_u w rest /\ in_u w r) as [Hir Hrr].
    { split; apply in_u_testbit; try lia.
      - intros i Hi. rewrite (proj2 (Hspec i ltac:(lia))), (testbit_in_u w s) by (done || lia). done.
      - apply Z.bits_iff_nonneg_ex. exists w. intros i Hi.
        rewrite (proj1 (Hspec i ltac:(lia))), (testbit_in_u w s), Z.testbit_0_l by (done || lia). done.
      - intros i Hi. rewrite (proj1 (Hspec i ltac:(lia))), (testbit_in_u w s), Z.testbit_0_l by (done || lia). done. }
    exists r, rest. split; [done|]. intros x Hx.
    rewrite !contains_testbit by (done || lia). rewrite (proj1 (Hspec x ltac:(lia))), (proj2 (Hspec x ltac:(lia))).
    by rewrite Z.testbit_0_l.
Qed.

(** SmallSet is a set of small integers: its operators are the set
    operations, its queries the set queries, and take(n) ends and splits off the
    n smallest members. *)
Theorem smallset_correct :
  (forall s other t x,
  in_u w s -> in_u w other -> 0 <= t < w -> 0 <= x < w ->
  contains w (unit_set w t) x = (x =? t) /\
  contains w (add w s t) x = (x =? t) || contains w s x /\
  contains w (union s other) x = contains w s x || contains w other x /\
  contains w (remove w s t) x = negb (x =? t) && contains w s x /\
  contains w (difference w s other) x = contains w s x && negb (contains w other x) /\
  contains w (intersection s other) x = contains w s x && contains w other x /\
  contains w (toggle w s t) x = xorb (contains w s x) (x =? t) /\
  contains w (symmetric_difference s other) x = xorb (contains w s x) (contains w other x) /\
  contains w (allUpTo w t) x = (x <=? t) /\
  (forall flag, contains w (set_ w s t flag) t = flag)) /\
  (forall s other n,
  w = 8 \/ w = 16 \/ w = 32 \/ w = 64 -> in_u w s -> in_u w other -> 0 <= n ->
  size_ w s = Some (rank s (Z.to_nat w)) /\
  isUnitSet w s = (rank s (Z.to_nat w) <=? 1) /\
  (contains_set w s other = true <->
     forall x, 0 <= x < w -> contains w other x = true -> contains w s x = true) /\
  (eq_set s other = true <-> forall x, 0 <= x < w -> contains w s x = contains w other x) /\
  exists r rest, take_ w s n = Some (r, rest) /\
    forall x, 0 <= x < w ->
      contains w r x = contains w s x && (rank_at s x <? n) /\
      contains w rest x = contains w s x && negb (rank_at s x <? n)).
Proof. exact (conj smallset_operations smallset_queries_take). Qed.
End Props.

Lemma smallset_correct_witness :
  contains 32 (add 32 5 4) 4 = true /\
  exists r rest, take_ 8 0xB6 2 = Some (r, rest) /\ contains 8 r 2 = true /\ contains 8 rest 2 = false.
Proof.
  destruct (smallset_correct 32 eq_refl) as [Ho _]. destruct (smallset_correct 8 eq_refl) as [_ Hq]. split.
  - destruct (Ho 5 6 4 4) as (_ & H & _); try (split; [lia|done]); try lia. exact H.
  - destruct (Hq 0xB6 0 2) as (_ & _ & _ & _ & r & rest & E & H); try (split; [lia|done]); try lia.
    exists r, rest. split; [exact E|]. destruct (H 2) as [H1 H2]; [lia|]. split; [exact H1|exact H2].
Defined.

Example take_example : take_ 8 0xB6 2 = Some (6, 0xB0).
Proof. reflexivity. Qed.
End SmallSet.

Lemma bit_operations_correct_witness :
  Z.testbit (rotateLeft32 0x80000001 (-31)) 1 = true /\ bitLog64 0x123456789 = 32 /\ bitPop64 0x123456789 = Some 15.
Proof.
  destruct bit_operations_correct as [Hr Hb].
  destruct (Hr 0x80000001 (-31) 1) as (_ & _ & H & _).
  destruct (Hb 0x123456789) as (H1 & _ & _ & _ & _ & _ & H2 & _); [split; [lia|done]|].
  split; [|split; [exact H1|exact H2]]. destruct H as [H _]; [split; [lia|done]|lia|exact H].
Defined.

