(* ===== verification/Pack.v ===== *)
(** * Packed integers and strings

    src/afl/bits/uint8.hpp, uint16le.hpp ... int64be.hpp (element descriptors),
    value.hpp, pack.hpp and fixedstring.hpp/.cpp.  A byte array is a [list Z] of
    bytes, [bytes[i]] is [byte_at].  A descriptor is a record of its operations;
    what clients rely on is the class [Lossless], discharged for every integer
    descriptor, and used by the array routines and by [Value]. *)

From Stdlib Require Import ZArith Lia Bool.
From stdpp Require Import base tactics numbers option list.
From S2P Require Import Prelude.

Local Open Scope Z_scope.

(** ** Definitions *)

(** [static_cast<uint8_t>((word >> k) & 255)] *)
Definition octet (word k : Z) : Z := u8 (Z.land (Z.shiftr word k) 255).

Definition UInt8_unpack (b : list Z) : Z := byte_at b 0.
Definition UInt8_pack (word : Z) : list Z := [word].

Definition UInt16LE_unpack (b : list Z) : Z := u16 (256 * byte_at b 1 + byte_at b 0).
Definition UInt16LE_pack (word : Z) : list Z := [octet word 0; octet word 8].

Definition UInt16BE_unpack (b : list Z) : Z := u16 (256 * byte_at b 0 + byte_at b 1).
Definition UInt16BE_pack (word : Z) : list Z := [octet word 8; octet word 0].

Definition UInt32LE_unpack (b : list Z) : Z :=
  u32 (byte_at b 0 + u32 (Z.shiftl (byte_at b 1) 8) + u32 (Z.shiftl (byte_at b 2) 16)
       + u32 (Z.shiftl (byte_at b 3) 24)).
Definition UInt32LE_pack (word : Z) : list Z :=
  [octet word 0; octet word 8; octet word 16; octet word 24].

Definition UInt32BE_unpack (b : list Z) : Z :=
  u32 (byte_at b 3 + u32 (Z.shiftl (byte_at b 2) 8) + u32 (Z.shiftl (byte_at b 1) 16)
       + u32 (Z.shiftl (byte_at b 0) 24)).
Definition UInt32BE_pack (word : Z) : list Z :=
  [octet word 24; octet word 16; octet word 8; octet word 0].

Definition UInt64LE_unpack (b : list Z) : Z :=
  u64 (byte_at b 0 + u64 (Z.shiftl (byte_at b 1) 8) + u64 (Z.shiftl (byte_at b 2) 16)
       + u64 (Z.shiftl (byte_at b 3) 24) + u64 (Z.shiftl (byte_at b 4) 32)
       + u64 (Z.shiftl (byte_at b 5) 40) + u64 (Z.shiftl (byte_at b 6) 48)
       + u64 (Z.shiftl (byte_at b 7) 56)).
Definition UInt64LE_pack (word : Z) : list Z :=
  [octet word 0; octet word 8; octet word 16; octet word 24;
   octet word 32; octet word 40; octet word 48; octet word 56].

Definition UInt64BE_unpack (b : list Z) : Z :=
  u64 (byte_at b 7 + u64 (Z.shiftl (byte_at b 6) 8) + u64 (Z.shiftl (byte_at b 5) 16)
       + u64 (Z.shiftl (byte_at b 4) 24) + u64 (Z.shiftl (byte_at b 3) 32)
       + u64 (Z.shiftl (byte_at b 2) 40) + u64 (Z.shiftl (byte_at b 1) 48)
       + u64 (Z.shiftl (byte_at b 0) 56)).
Definition UInt64BE_pack (word : Z) : list Z :=
  [octet word 56; octet word 48; octet word 40; octet word 32;
   octet word 24; octet word 16; octet word 8; octet word 0].

(** Signed types.  For 8 and 16 bits, integral promotion makes
    [-(~tmp) - 1] an [int] computation; for 32 and 64 bits it is done in the
    unsigned type. *)
Definition Int8_unpack (b : list Z) : Z :=
  let tmp := UInt8_unpack b in
  if negb (Z.land tmp 0x80 =? 0) then swrap 8 (- Z.lnot tmp - 1) else swrap 8 tmp.
Definition Int8_pack (word : Z) : list Z := UInt8_pack (u8 word).

Definition Int16LE_unpack (b : list Z) : Z :=
  let tmp := UInt16LE_unpack b in
  if negb (Z.land tmp 0x8000 =? 0) then swrap 16 (- Z.lnot tmp - 1) else swrap 16 tmp.
Definition Int16LE_pack (word : Z) : list Z := UInt16LE_pack (u16 word).

Definition Int16BE_unpack (b : list Z) : Z :=
  let tmp := UInt16BE_unpack b in
  if negb (Z.land tmp 0x8000 =? 0) then swrap 16 (- Z.lnot tmp - 1) else swrap 16 tmp.
Definition Int16BE_pack (word : Z) : list Z := UInt16BE_pack (u16 word).

Definition Int32LE_unpack (b : list Z) : Z :=
  let tmp := UInt32LE_unpack b in
  if negb (Z.land tmp 0x80000000 =? 0) then swrap 32 (u32 (u32 (- unot 32 tmp) - 1))
  else swrap 32 tmp.
Definition Int32LE_pack (word : Z) : list Z := UInt32LE_pack (u32 word).

Definition Int32BE_unpack (b : list Z) : Z :=
  let tmp := UInt32BE_unpack b in
  if negb (Z.land tmp 0x80000000 =? 0) then swrap 32 (u32 (u32 (- unot 32 tmp) - 1))
  else swrap 32 tmp.
Definition Int32BE_pack (word : Z) : list Z := UInt32BE_pack (u32 word).

Definition Int64LE_unpack (b : list Z) : Z :=
  let tmp := UInt64LE_unpack b in
  if negb (Z.land tmp 0x8000000000000000 =? 0) then swrap 64 (u64 (u64 (- unot 64 tmp) - 1))
  else swrap 64 tmp.
Definition Int64LE_pack (word : Z) : list Z := UInt64LE_pack (u64 word).

Definition Int64BE_unpack (b : list Z) : Z :=
  let tmp := UInt64BE_unpack b in
  if negb (Z.land tmp 0x8000000000000000 =? 0) then swrap 64 (u64 (u64 (- unot 64 tmp) - 1))
  else swrap 64 tmp.
Definition Int64BE_pack (word : Z) : list Z := UInt64BE_pack (u64 word).

(** An element descriptor (pack.hpp): [sizeof(Bytes_t)], the two functions and
    the values of [Word_t]. *)
Record Descriptor := {
  d_size : nat;
  d_unpack : list Z -> Z;
  d_pack : Z -> list Z;
  d_word : Z -> Prop;
}.

Definition UInt8 := Build_Descriptor 1 UInt8_unpack UInt8_pack (in_u 8).
Definition UInt16LE := Build_Descriptor 2 UInt16LE_unpack UInt16LE_pack (in_u 16).
Definition UInt16BE := Build_Descriptor 2 UInt16BE_unpack UInt16BE_pack (in_u 16).
Definition UInt32LE := Build_Descriptor 4 UInt32LE_unpack UInt32LE_pack (in_u 32).
Definition UInt32BE := Build_Descriptor 4 UInt32BE_unpack UInt32BE_pack (in_u 32).
Definition UInt64LE := Build_Descriptor 8 UInt64LE_unpack UInt64LE_pack (in_u 64).
Definition UInt64BE := Build_Descriptor 8 UInt64BE_unpack UInt64BE_pack (in_u 64).
Definition Int8 := Build_Descriptor 1 Int8_unpack Int8_pack (in_s 8).
Definition Int16LE := Build_Descriptor 2 Int16LE_unpack Int16LE_pack (in_s 16).
Definition Int16BE := Build_Descriptor 2 Int16BE_unpack Int16BE_pack (in_s 16).
Definition Int32LE := Build_Descriptor 4 Int32LE_unpack Int32LE_pack (in_s 32).
Definition Int32BE := Build_Descriptor 4 Int32BE_unpack Int32BE_pack (in_s 32).
Definition Int64LE := Build_Descriptor 8 Int64LE_unpack Int64LE_pack (in_s 64).
Definition Int64BE := Build_Descriptor 8 Int64BE_unpack Int64BE_pack (in_s 64).

(** [Value<Desc>] (value.hpp): storage with assignment and conversion. *)
Record Value := { m_bytes : list Z }.
Definition value_assign (d : Descriptor) (v : Value) (word : Z) : Value :=
  {| m_bytes := d_pack d word |}.
Definition value_get (d : Descriptor) (v : Value) : Z := d_unpack d (m_bytes v).

(** [Memory::eatN] on the contents of a descriptor. *)
Definition eatN {A} (n : nat) (l : list A) : option (list A * list A) :=
  if (n <=? length l)%nat then Some (take n l, drop n l) else None.

(** [unpackArray]: contents of the [out] array ([count] elements). *)
Fixpoint unpackArray (d : Descriptor) (count : nat) (inp : list Z) (defaultValue : Z) : list Z :=
  match count with
  | O => []
  | S count' =>
      match eatN (d_size d) inp with
      | Some (srcEle, inp') => d_unpack d srcEle :: unpackArray d count' inp' defaultValue
      | None => defaultValue :: unpackArray d count' inp defaultValue
      end
  end.

(** [packArray]: contents of the [out] array, given its size in bytes; [fuel]
    bounds the number of elements that fit. *)
Fixpoint packArray_loop (d : Descriptor) (fuel : nat) (outSize : nat) (inp : list Z) : list Z :=
  match fuel with
  | O => []
  | S fuel' =>
      if (d_size d <=? outSize)%nat then
        match inp with
        | srcEle :: inp' => d_pack d srcEle ++ packArray_loop d fuel' (outSize - d_size d) inp'
        | [] => d_pack d 0 ++ packArray_loop d fuel' (outSize - d_size d) []
        end
      else replicate outSize 0
  end.

Definition packArray (d : Descriptor) (outSize : nat) (inp : list Z) : list Z :=
  packArray_loop d (S outSize) outSize inp.

(** *** Fixed-size strings (fixedstring.cpp) *)

(** [while (len < n && p[len] != 0) ++len;] from the current position on. *)
Fixpoint find_null (p : list Z) : nat :=
  match p with
  | [] => 0%nat
  | c :: p' => if negb (c =? 0) then S (find_null p') else 0%nat
  end.

(** [while (len > 0 && p[len-1] == ' ') --len;] *)
Definition trim_spaces (p : list Z) (len : nat) : nat := trim_right 32 p len.

Definition unpackFixedString (mem : list Z) : list Z :=
  let len := find_null mem in
  let len := trim_spaces mem len in
  take len mem.

(** New contents of a target of [size] bytes. *)
Definition packFixedString (size : nat) (src : list Z) : list Z :=
  let copied := Nat.min size (length src) in
  take copied src ++ replicate (size - copied) 32.

(** [FixedString<Size>::pack] and [unpack]. *)
Definition FixedString_unpack (size : nat) (b : list Z) : list Z := unpackFixedString (take size b).
Definition FixedString_pack (size : nat) (word : list Z) : list Z := packFixedString size word.

(** ** Interface: lossless descriptors *)

Class Lossless (d : Descriptor) : Prop := {
  size_pos : (0 < d_size d)%nat;
  zero_word : d_word d 0;
  pack_length w : d_word d w -> length (d_pack d w) = d_size d;
  pack_bytes w : d_word d w -> bytes (d_pack d w);
  unpack_pack w : d_word d w -> d_unpack d (d_pack d w) = w;
  unpack_word b : bytes b -> length b = d_size d -> d_word d (d_unpack d b);
  pack_unpack b : bytes b -> length b = d_size d -> d_pack d (d_unpack d b) = b;
}.

(** ** Positional notation *)

(** Value of a byte string, least significant byte first, and back. *)
Fixpoint le_val (l : list Z) : Z :=
  match l with
  | [] => 0
  | b :: l' => b + 256 * le_val l'
  end.

Fixpoint le_bytes (n : nat) (w : Z) : list Z :=
  match n with
  | O => []
  | S n' => w mod 256 :: le_bytes n' (w / 256)
  end.

Lemma pow256_S n : 2 ^ (8 * Z.of_nat (S n)) = 256 * 2 ^ (8 * Z.of_nat n).
Proof. replace (8 * Z.of_nat (S n)) with (8 + 8 * Z.of_nat n) by lia. by rewrite Z.pow_add_r by lia. Qed.

Lemma le_val_range l : bytes l -> in_u (8 * Z.of_nat (length l)) (le_val l).
Proof.
  unfold in_u. induction 1 as [|b l Hb Hl IH]; cbn [length le_val]; [simpl; lia|].
  rewrite pow256_S. unfold is_byte in Hb. lia.
Qed.

Lemma le_bytes_length n w : length (le_bytes n w) = n.
Proof. revert w. induction n; intros; simpl; auto. Qed.

Lemma le_bytes_bytes n w : bytes (le_bytes n w).
Proof.
  revert w. induction n as [|n IH]; intros w; simpl; [constructor|]. constructor; [|apply IH].
  unfold is_byte. pose proof (Z.mod_pos_bound w 256). lia.
Qed.

Lemma le_val_le_bytes n w : in_u (8 * Z.of_nat n) w -> le_val (le_bytes n w) = w.
Proof.
  unfold in_u. revert w. induction n as [|n IH]; intros w Hw; cbn [le_val le_bytes]; [simpl in Hw; lia|].
  rewrite pow256_S in Hw. rewrite IH; [|split].
  - pose proof (Z.div_mod w 256). lia.
  - apply Z.div_pos; lia.
  - apply Z.div_lt_upper_bound; lia.
Qed.

Lemma le_bytes_le_val l : bytes l -> le_bytes (length l) (le_val l) = l.
Proof.
  induction 1 as [|b l Hb Hl IH]; cbn [length le_val le_bytes]; [done|]. unfold is_byte in Hb.
  rewrite (Z.mul_comm 256), Z.mod_add, Z.mod_small, Z.div_add, Z.div_small by lia.
  by rewrite Z.add_0_l, IH.
Qed.

Lemma octet_le w k : 0 <= k -> octet w k = (w / 2 ^ k) mod 256.
Proof.
  intros. unfold octet, u8. change 255 with (Z.ones 8).
  rewrite Z.land_ones, Z.shiftr_div_pow2 by lia. unfold wrap. change (2 ^ 8) with 256. apply Zmod_mod.
Qed.

(** Evaluates an unpack function on a byte string of known length to its
    positional value. *)
Ltac unpack_value :=
  unfold bytes in *;
  repeat match goal with
  | H : Forall is_byte (_ :: _) |- _ => apply Forall_cons in H; destruct H as [? H]
  end;
  unfold is_byte in *; unfold byte_at; cbn [nth rev app le_val];
  unfold u16, u32, u64; rewrite ?Z.shiftl_mul_pow2 by lia;
  rewrite !wrap_small by (rewrite ?wrap_small by lia; lia); lia.

Ltac list_of_length H :=
  repeat match type of H with
  | length ?l = S _ => destruct l as [|? l]; [done|]; cbn [length] in H; apply (inj S) in H
  | length ?l = O => apply length_zero_iff_nil in H; subst l
  end.

Ltac pack_value :=
  cbn [le_bytes rev app]; rewrite !octet_le by lia; rewrite ?Z.div_div, ?Z.div_1_r by lia; done.

Lemma UInt16LE_val b : bytes b -> length b = 2%nat -> UInt16LE_unpack b = le_val b.
Proof. intros Hb Hl. list_of_length Hl. unfold UInt16LE_unpack. unpack_value. Qed.
Lemma UInt16BE_val b : bytes b -> length b = 2%nat -> UInt16BE_unpack b = le_val (rev b).
Proof. intros Hb Hl. list_of_length Hl. unfold UInt16BE_unpack. unpack_value. Qed.
Lemma UInt32LE_val b : bytes b -> length b = 4%nat -> UInt32LE_unpack b = le_val b.
Proof. intros Hb Hl. list_of_length Hl. unfold UInt32LE_unpack. unpack_value. Qed.
Lemma UInt32BE_val b : bytes b -> length b = 4%nat -> UInt32BE_unpack b = le_val (rev b).
Proof. intros Hb Hl. list_of_length Hl. unfold UInt32BE_unpack. unpack_value. Qed.
Lemma UInt64LE_val b : bytes b -> length b = 8%nat -> UInt64LE_unpack b = le_val b.
Proof. intros Hb Hl. list_of_length Hl. unfold UInt64LE_unpack. unpack_value. Qed.
Lemma UInt64BE_val b : bytes b -> length b = 8%nat -> UInt64BE_unpack b = le_val (rev b).
Proof. intros Hb Hl. list_of_length Hl. unfold UInt64BE_unpack. unpack_value. Qed.

Lemma UInt16LE_bytes w : UInt16LE_pack w = le_bytes 2 w.
Proof. unfold UInt16LE_pack. pack_value. Qed.
Lemma UInt16BE_bytes w : UInt16BE_pack w = rev (le_bytes 2 w).
Proof. unfold UInt16BE_pack. pack_value. Qed.
Lemma UInt32LE_bytes w : UInt32LE_pack w = le_bytes 4 w.
Proof. unfold UInt32LE_pack. pack_value. Qed.
Lemma UInt32BE_bytes w : UInt32BE_pack w = rev (le_bytes 4 w).
Proof. unfold UInt32BE_pack. pack_value. Qed.
Lemma UInt64LE_bytes w : UInt64LE_pack w = le_bytes 8 w.
Proof. unfold UInt64LE_pack. pack_value. Qed.
Lemma UInt64BE_bytes w : UInt64BE_pack w = rev (le_bytes 8 w).
Proof. unfold UInt64BE_pack. pack_value. Qed.

(** ** Descriptors are lossless *)

(** A little- or big-endian unsigned descriptor of [n] bytes. *)
Lemma lossless_le n unpack pack :
  (0 < n)%nat ->
  (forall b, bytes b -> length b = n -> unpack b = le_val b) ->
  (forall w, pack w = le_bytes n w) ->
  Lossless (Build_Descriptor n unpack pack (in_u (8 * Z.of_nat n))).
Proof.
  intros Hn Hu Hp. constructor; cbn; intros.
  - done.
  - split; [lia|]. apply Z.pow_pos_nonneg; lia.
  - rewrite Hp. apply le_bytes_length.
  - rewrite Hp. apply le_bytes_bytes.
  - rewrite Hp, Hu by auto using le_bytes_length, le_bytes_bytes. by apply le_val_le_bytes.
  - rewrite Hu by done. subst n. by apply le_val_range.
  - rewrite Hp, Hu by done. subst n. by apply le_bytes_le_val.
Qed.

Lemma bytes_rev l : bytes (rev l) <-> bytes l.
Proof. unfold bytes. rewrite !List.Forall_forall. setoid_rewrite <- in_rev. done. Qed.

Lemma lossless_be n unpack pack :
  (0 < n)%nat ->
  (forall b, bytes b -> length b = n -> unpack b = le_val (rev b)) ->
  (forall w, pack w = rev (le_bytes n w)) ->
  Lossless (Build_Descriptor n unpack pack (in_u (8 * Z.of_nat n))).
Proof.
  intros Hn Hu Hp.
  assert (Hl : forall w, length (rev (le_bytes n w)) = n) by (intros; by rewrite length_rev, le_bytes_length).
  assert (Hb : forall w, bytes (rev (le_bytes n w))) by (intros; apply bytes_rev, le_bytes_bytes).
  constructor; cbn; intros.
  - done.
  - split; [lia|]. apply Z.pow_pos_nonneg; lia.
  - by rewrite Hp.
  - by rewrite Hp.
  - rewrite Hp, Hu by done. rewrite rev_involutive. by apply le_val_le_bytes.
  - rewrite Hu by done. rewrite <- (length_rev b) in *. subst n. by apply le_val_range, bytes_rev.
  - rewrite Hp, Hu by done. rewrite <- (length_rev b) in *. subst n.
    rewrite le_bytes_le_val by (by apply bytes_rev). apply rev_involutive.
Qed.

(** A signed descriptor on top of the unsigned one of the same layout. *)
Lemma lossless_signed n du unpack pack :
  (0 < n)%nat -> Lossless du -> d_size du = n -> d_word du = in_u (8 * Z.of_nat n) ->
  (forall b, bytes b -> length b = n -> unpack b = swrap (8 * Z.of_nat n) (d_unpack du b)) ->
  (forall w, pack w = d_pack du (wrap (8 * Z.of_nat n) w)) ->
  Lossless (Build_Descriptor n unpack pack (in_s (8 * Z.of_nat n))).
Proof.
  intros Hn Hdu Hsz Hwd Hu Hp.
  assert (Hw : forall w, d_word du (wrap (8 * Z.of_nat n) w)) by (intros; rewrite Hwd; apply in_u_wrap; lia).
  constructor; cbn; intros.
  - done.
  - unfold in_s. pose proof (Z.pow_pos_nonneg 2 (8 * Z.of_nat n - 1)). lia.
  - by rewrite Hp, pack_length by apply Hw.
  - rewrite Hp. apply pack_bytes, Hw.
  - rewrite Hp, Hu; [|apply pack_bytes, Hw|by rewrite pack_length by apply Hw].
    rewrite unpack_pack by apply Hw. apply swrap_wrap; [lia|done].
  - rewrite Hu by done. apply swrap_range. lia.
  - rewrite Hp, Hu by done. rewrite wrap_swrap; [|lia|].
    + apply pack_unpack; congruence.
    + rewrite <- Hwd. apply unpack_word; congruence.
Qed.

(** Both branches of the sign test are the same conversion. *)
Lemma neg_lnot x : - Z.lnot x - 1 = x.
Proof. unfold Z.lnot. lia. Qed.

Lemma neg_unot w x : 0 <= w -> in_u w x -> wrap w (wrap w (- unot w x) - 1) = x.
Proof.
  intros Hw Hx. unfold in_u in Hx. unfold unot, Z.lnot.
  assert (wrap w (Z.pred (- x)) = 2 ^ w - 1 - x) as ->.
  { unfold wrap. rewrite <- (Z.mod_add _ 1), Z.mod_small by lia. lia. }
  destruct (decide (x = 2 ^ w - 1)) as [->|].
  - replace (- (2 ^ w - 1 - (2 ^ w - 1))) with 0 by lia. rewrite (wrap_small w 0) by lia.
    unfold wrap. rewrite <- (Z.mod_add _ 1), Z.mod_small by lia. lia.
  - assert (wrap w (- (2 ^ w - 1 - x)) = x + 1) as ->.
    { unfold wrap. rewrite <- (Z.mod_add _ 1), Z.mod_small by lia. lia. }
    rewrite wrap_small by lia. lia.
Qed.

#[export] Instance UInt8_lossless : Lossless UInt8.
Proof.
  constructor; cbn; intros.
  - lia.
  - split; lia.
  - done.
  - constructor; [exact H|constructor].
  - done.
  - list_of_length H0. apply Forall_inv in H. exact H.
  - list_of_length H0. done.
Qed.
#[export] Instance UInt16LE_lossless : Lossless UInt16LE.
Proof. apply (lossless_le 2); auto using UInt16LE_val, UInt16LE_bytes with lia. Qed.
#[export] Instance UInt16BE_lossless : Lossless UInt16BE.
Proof. apply (lossless_be 2); auto using UInt16BE_val, UInt16BE_bytes with lia. Qed.
#[export] Instance UInt32LE_lossless : Lossless UInt32LE.
Proof. apply (lossless_le 4); auto using UInt32LE_val, UInt32LE_bytes with lia. Qed.
#[export] Instance UInt32BE_lossless : Lossless UInt32BE.
Proof. apply (lossless_be 4); auto using UInt32BE_val, UInt32BE_bytes with lia. Qed.
#[export] Instance UInt64LE_lossless : Lossless UInt64LE.
Proof. apply (lossless_le 8); auto using UInt64LE_val, UInt64LE_bytes with lia. Qed.
#[export] Instance UInt64BE_lossless : Lossless UInt64BE.
Proof. apply (lossless_be 8); auto using UInt64BE_val, UInt64BE_bytes with lia. Qed.

(** The signed unpack function in [def] is the signed reading of [du]'s. *)
Ltac signed_unpack def du :=
  intros b Hb Hl; unfold def; cbn [d_unpack du];
  pose proof (unpack_word (d := du) b Hb Hl) as Hw; cbn in Hw;
  match goal with |- context [ Z.land ?t ?m ] => destruct (Z.eqb_spec (Z.land t m) 0) end; cbn [negb];
  [done|unfold u32, u64; rewrite ?neg_lnot, ?neg_unot by (lia || done); done].

#[export] Instance Int8_lossless : Lossless Int8.
Proof. apply (lossless_signed 1 UInt8); try (done || lia || apply _). signed_unpack Int8_unpack UInt8. Qed.
#[export] Instance Int16LE_lossless : Lossless Int16LE.
Proof. apply (lossless_signed 2 UInt16LE); try (done || lia || apply _). signed_unpack Int16LE_unpack UInt16LE. Qed.
#[export] Instance Int16BE_lossless : Lossless Int16BE.
Proof. apply (lossless_signed 2 UInt16BE); try (done || lia || apply _). signed_unpack Int16BE_unpack UInt16BE. Qed.
#[export] Instance Int32LE_lossless : Lossless Int32LE.
Proof. apply (lossless_signed 4 UInt32LE); try (done || lia || apply _). signed_unpack Int32LE_unpack UInt32LE. Qed.
#[export] Instance Int32BE_lossless : Lossless Int32BE.
Proof. apply (lossless_signed 4 UInt32BE); try (done || lia || apply _). signed_unpack Int32BE_unpack UInt32BE. Qed.
#[export] Instance Int64LE_lossless : Lossless Int64LE.
Proof. apply (lossless_signed 8 UInt64LE); try (done || lia || apply _). signed_unpack Int64LE_unpack UInt64LE. Qed.
#[export] Instance Int64BE_lossless : Lossless Int64BE.
Proof. apply (lossless_signed 8 UInt64BE); try (done || lia || apply _). signed_unpack Int64BE_unpack UInt64BE. Qed.

(** ** Arrays over a lossless descriptor *)

Section Arrays.
Context (d : Descriptor) `{!Lossless d}.

(** Reference: the elements packed one after the other. *)
Definition packed (ws : list Z) : list Z := concat (map (d_pack d) ws).

Lemma packed_length ws : Forall (d_word d) ws -> length (packed ws) = (d_size d * length ws)%nat.
Proof.
  unfold packed. induction 1 as [|w ws Hw _ IH]; simpl; [lia|].
  rewrite length_app, pack_length, IH by done. lia.
Qed.

Lemma packed_bytes ws : Forall (d_word d) ws -> bytes (packed ws).
Proof.
  unfold packed. induction 1 as [|w ws Hw _ IH]; simpl; [constructor|].
  apply Forall_app. split; [by apply pack_bytes|done].
Qed.

Lemma eatN_app {A} (x y : list A) : eatN (length x) (x ++ y) = Some (x, y).
Proof.
  unfold eatN. rewrite length_app. destruct (Nat.leb_spec (length x) (length x + length y)); [|lia].
  by rewrite take_app_length, drop_app_length.
Qed.

Lemma unpackArray_short count inp def :
  (length inp < d_size d)%nat -> unpackArray d count inp def = replicate count def.
Proof.
  intros Hs. induction count as [|count IH]; simpl; [done|].
  unfold eatN. destruct (Nat.leb_spec (d_size d) (length inp)); [lia|]. by rewrite IH.
Qed.

Lemma unpackArray_packed ws tail count def :
  Forall (d_word d) ws -> (length tail < d_size d)%nat -> (length ws <= count)%nat ->
  unpackArray d count (packed ws ++ tail) def = ws ++ replicate (count - length ws) def.
Proof.
  intros Hws Ht. revert count. induction Hws as [|w ws Hw _ IH]; intros count Hc.
  - simpl. rewrite unpackArray_short by done. f_equal. lia.
  - destruct count as [|count]; [simpl in Hc; lia|]. cbn [unpackArray packed map concat].
    rewrite <- app_assoc. rewrite <- (pack_length w Hw), eatN_app, unpack_pack by done.
    simpl in *. f_equal. apply IH. lia.
Qed.

(** [packArray] writes as many whole elements as fit, padding with zeros. *)
Lemma packArray_loop_spec fuel outSize inp :
  (outSize < fuel)%nat ->
  exists k,
    packArray_loop d fuel outSize inp
      = packed (take k inp ++ replicate (k - length inp) 0) ++ replicate (outSize - k * d_size d) 0 /\
    (k * d_size d <= outSize < (k + 1) * d_size d)%nat.
Proof.
  pose proof size_pos as Hpos.
  revert outSize inp. induction fuel as [|fuel IH]; intros outSize inp Hf; [lia|].
  cbn [packArray_loop]. destruct (Nat.leb_spec (d_size d) outSize) as [Hle|Hgt].
  - destruct inp as [|w inp].
    + destruct (IH (outSize - d_size d)%nat []) as (k & -> & Hk); [lia|].
      exists (S k). rewrite !take_nil, !Nat.sub_0_r. simpl. split; [|lia].
      unfold packed. simpl. rewrite <- app_assoc. do 3 f_equal. lia.
    + destruct (IH (outSize - d_size d)%nat inp) as (k & -> & Hk); [lia|].
      exists (S k). simpl. split; [|lia].
      unfold packed. simpl. rewrite <- app_assoc. do 3 f_equal. lia.
  - exists 0%nat. simpl. split; [|lia]. f_equal. lia.
Qed.

Lemma packArray_spec outSize inp :
  let k := (outSize / d_size d)%nat in
  packArray d outSize inp
    = packed (take k inp ++ replicate (k - length inp) 0) ++ replicate (outSize mod d_size d) 0.
Proof.
  intros k. pose proof size_pos as Hpos.
  destruct (packArray_loop_spec (S outSize) outSize inp) as (k' & E & Hk'); [lia|].
  assert (k' = k) as ->.
  { subst k. apply (Nat.div_unique _ _ _ (outSize - k' * d_size d)); lia. }
  unfold packArray. rewrite E. do 2 f_equal. subst k.
  pose proof (Nat.div_mod outSize (d_size d)). lia.
Qed.
End Arrays.

(** ** Properties of descriptors *)

(** The descriptors and, for each, the value it assigns to a byte string. *)
Definition unsigned_layout : list (Descriptor * (list Z -> Z)) :=
  [(UInt8, le_val); (UInt16LE, le_val); (UInt32LE, le_val); (UInt64LE, le_val);
   (UInt16BE, fun b => le_val (rev b)); (UInt32BE, fun b => le_val (rev b));
   (UInt64BE, fun b => le_val (rev b))].

Definition signed_layout : list (Descriptor * (list Z -> Z)) :=
  [(Int8, le_val); (Int16LE, le_val); (Int32LE, le_val); (Int64LE, le_val);
   (Int16BE, fun b => le_val (rev b)); (Int32BE, fun b => le_val (rev b));
   (Int64BE, fun b => le_val (rev b))].

(** What it means for a descriptor to convert without loss in both directions. *)
Definition roundtrips (d : Descriptor) : Prop :=
  (forall w, d_word d w ->
     length (d_pack d w) = d_size d /\ bytes (d_pack d w) /\ d_unpack d (d_pack d w) = w) /\
  (forall b, bytes b -> length b = d_size d ->
     d_word d (d_unpack d b) /\ d_pack d (d_unpack d b) = b).

Lemma roundtrips_lossless d `{!Lossless d} : roundtrips d.
Proof. split; intros; split_and?; eauto using pack_length, pack_bytes, unpack_pack, unpack_word, pack_unpack. Qed.

Lemma UInt8_val b : bytes b -> length b = 1%nat -> UInt8_unpack b = le_val b.
Proof. intros Hb Hl. list_of_length Hl. unfold UInt8_unpack, byte_at. cbn [nth le_val]. lia. Qed.

Create HintDb layout.
#[local] Hint Resolve UInt8_val UInt16LE_val UInt16BE_val UInt32LE_val UInt32BE_val
  UInt64LE_val UInt64BE_val : layout.

(** The layouts' contract: conversion without loss, and the value read. *)
Definition unsigned_ok '((d, value) : Descriptor * (list Z -> Z)) : Prop :=
  roundtrips d /\
  forall b, bytes b -> length b = d_size d -> d_unpack d b = value b.

Definition signed_ok '((d, value) : Descriptor * (list Z -> Z)) : Prop :=
  roundtrips d /\
  forall b, bytes b -> length b = d_size d ->
    d_unpack d b = (if value b <? 2 ^ (8 * Z.of_nat (d_size d) - 1) then value b
                    else value b - 2 ^ (8 * Z.of_nat (d_size d))).

Lemma signed_value du unpack value b :
  (forall b, bytes b -> length b = d_size du -> unpack b = swrap (8 * Z.of_nat (d_size du)) (d_unpack du b)) ->
  (forall b, bytes b -> length b = d_size du -> d_unpack du b = value b) ->
  (forall b, bytes b -> length b = d_size du -> in_u (8 * Z.of_nat (d_size du)) (d_unpack du b)) ->
  bytes b -> length b = d_size du ->
  unpack b = if value b <? 2 ^ (8 * Z.of_nat (d_size du) - 1) then value b
             else value b - 2 ^ (8 * Z.of_nat (d_size du)).
Proof.
  intros Hu Hv Hr Hb Hl. rewrite Hu by done. unfold swrap.
  rewrite wrap_small by (by apply Hr). by rewrite Hv.
Qed.

Ltac signed_case def du value :=
  split; [apply roundtrips_lossless; apply _|];
  intros b0 Hb0 Hl0; apply (signed_value du def value); try done;
  [signed_unpack def du|simpl; auto with layout|apply (unpack_word (d := du))].

(** Every integer descriptor (8, 16, 32 and 64 bits, signed and unsigned,
    little and big endian) converts words to bytes and back without loss in
    both directions, and reads the bytes as a number in base 256 in the byte
    order its name says; the signed ones as two's complement. *)
Theorem integer_descriptors_correct :
  Forall unsigned_ok unsigned_layout /\ Forall signed_ok signed_layout.
Proof.
  split.
  - repeat (constructor; [split; [apply roundtrips_lossless; apply _|simpl; auto with layout]|]).
    constructor.
  - apply Forall_cons; split; [signed_case Int8_unpack UInt8 le_val|].
    apply Forall_cons; split; [signed_case Int16LE_unpack UInt16LE le_val|].
    apply Forall_cons; split; [signed_case Int32LE_unpack UInt32LE le_val|].
    apply Forall_cons; split; [signed_case Int64LE_unpack UInt64LE le_val|].
    apply Forall_cons; split; [signed_case Int16BE_unpack UInt16BE (fun b => le_val (rev b))|].
    apply Forall_cons; split; [signed_case Int32BE_unpack UInt32BE (fun b => le_val (rev b))|].
    apply Forall_cons; split; [signed_case Int64BE_unpack UInt64BE (fun b => le_val (rev b))|constructor].
Qed.

(** PackArray fills the whole output: as many elements as fit, the input
    first, then packed zeros, then zero bytes for a partial element; unpacking
    gives back the input, followed by the default value where the packed data
    is too short; Value stores a word and returns it. *)
Lemma arrays_roundtrip d outSize inp count def (Hd : Lossless d) :
  Forall (d_word d) inp -> (length inp <= count)%nat ->
  let k := (outSize / d_size d)%nat in
  packArray d outSize inp
    = packed d (take k inp ++ replicate (k - length inp) 0) ++ replicate (outSize mod d_size d) 0 /\
  length (packArray d outSize inp) = outSize /\
  unpackArray d count (packArray d (d_size d * length inp) inp) def
    = inp ++ replicate (count - length inp) def /\
  (forall v w, d_word d w -> value_get d (value_assign d v w) = w).
Proof.
  intros Hinp Hcount k. pose proof size_pos as Hpos.
  split; [by apply packArray_spec|]. split; [|split].
  - rewrite packArray_spec by done. fold k.
    rewrite length_app, packed_length, length_app, length_take, !length_replicate by
      (done || (apply Forall_app; split; [by apply Forall_take|apply Forall_replicate, zero_word])).
    pose proof (Nat.div_mod outSize (d_size d) ltac:(lia)) as E. fold k in E.
    replace (Nat.min k (length inp) + (k - length inp))%nat with k by lia. lia.
  - rewrite packArray_spec by done.
    rewrite (Nat.mul_comm (d_size d)), Nat.div_mul, Nat.Div0.mod_mul, firstn_all, Nat.sub_diag by lia.
    cbn [replicate]. rewrite (app_nil_r inp). apply unpackArray_packed; simpl; done || lia.
  - intros v w Hw. by apply unpack_pack.
Qed.

Example packArray_example : packArray UInt16LE 7 [1; 515] = [1; 0; 3; 2; 0; 0; 0].
Proof. reflexivity. Qed.

(** ** Properties of fixed-size strings *)

Lemma find_null_spec p :
  (find_null p <= length p)%nat /\
  (forall i, (i < find_null p)%nat -> byte_at p i <> 0) /\
  (find_null p = length p \/ byte_at p (find_null p) = 0).
Proof.
  induction p as [|c p (IH1 & IH2 & IH3)]; simpl.
  { split; [lia|]. split; [intros; lia|]. by left. }
  destruct (Z.eqb_spec c 0) as [->|Hc]; simpl.
  { split; [lia|]. split; [intros; lia|]. by right. }
  split; [lia|]. split.
  - intros [|i] Hi; simpl; [done|]. apply IH2. lia.
  - destruct IH3 as [->|IH3]; [by left|by right].
Qed.

Lemma find_null_none p : Forall (fun c => c <> 0) p -> find_null p = length p.
Proof. induction 1 as [|c p Hc _ IH]; simpl; [done|]. destruct (Z.eqb_spec c 0); simpl; [done|]. by rewrite IH. Qed.

Lemma unpack_pack_fixed size src :
  Forall (fun c => c <> 0) src -> last src <> Some 32 -> (length src <= size)%nat ->
  FixedString_unpack size (FixedString_pack size src) = src.
Proof.
  intros Hz Hl Hs. unfold FixedString_unpack, FixedString_pack, packFixedString.
  rewrite (Nat.min_r size), firstn_all by done.
  assert (Hlen : length (src ++ replicate (size - length src) 32) = (length src + (size - length src))%nat)
    by (rewrite length_app, length_replicate; lia).
  rewrite take_ge by (rewrite Hlen; lia). unfold unpackFixedString.
  rewrite find_null_none, Hlen; [unfold trim_spaces; rewrite trim_right_padding, take_app_length; done|].
  apply Forall_app. split; [done|]. by apply Forall_replicate.
Qed.

(** UnpackFixedString returns the part before the first null byte (or the
    whole field) without the trailing spaces: the result is the prefix r such
    that only spaces separate it from a null byte or the end of the field, it
    has no null byte and does not end in a space. packFixedString fills the
    field exactly; a string that fits, without null bytes and trailing
    spaces, is read back unchanged. *)
Lemma fixed_string_correct mem size src :
  (let len := length (unpackFixedString mem) in
   unpackFixedString mem = take len mem /\
   (forall i, (i < len)%nat -> byte_at mem i <> 0) /\
   (len = 0%nat \/ byte_at mem (len - 1) <> 32) /\
   exists stop, (len <= stop <= length mem)%nat /\
     (forall i, (len <= i < stop)%nat -> byte_at mem i = 32) /\
     (stop = length mem \/ byte_at mem stop = 0)) /\
  length (FixedString_pack size src) = size /\
  (Forall (fun c => c <> 0) src -> last src <> Some 32 -> (length src <= size)%nat ->
   FixedString_unpack size (FixedString_pack size src) = src).
Proof.
  split; [|split].
  - intros len.
    destruct (find_null_spec mem) as (F1 & F2 & F3).
    destruct (trim_right_spec 32 mem (find_null mem)) as (T1 & T2 & T3).
    assert (len = trim_right 32 mem (find_null mem)) as Elen.
    { subst len. unfold unpackFixedString, trim_spaces. rewrite length_take. lia. }
    unfold unpackFixedString, trim_spaces. rewrite <- Elen in *. split; [done|]. split; [intros; apply F2; lia|]. split; [done|].
    exists (find_null mem). split; [lia|]. done.
  - unfold FixedString_pack, packFixedString.
    rewrite length_app, length_take, length_replicate. lia.
  - apply unpack_pack_fixed.
Qed.

(** Packed data.  packArray fills the whole output: as many elements as fit,
    the input first, then packed zeros, then zero bytes for a partial element;
    unpacking gives back the input, followed by the default value where the packed
    data is too short; Value stores a word and returns it.  unpackFixedString
    returns the part before the first null byte without the trailing spaces,
    packFixedString fills the field exactly, and a string that fits, without null
    bytes and trailing spaces, is read back unchanged. *)
Theorem packed_data_correct :
  (forall d outSize inp count def (Hd : Lossless d),
  Forall (d_word d) inp -> (length inp <= count)%nat ->
  let k := (outSize / d_size d)%nat in
  packArray d outSize inp
    = packed d (take k inp ++ replicate (k - length inp) 0) ++ replicate (outSize mod d_size d) 0 /\
  length (packArray d outSize inp) = outSize /\
  unpackArray d count (packArray d (d_size d * length inp) inp) def
    = inp ++ replicate (count - length inp) def /\
  (forall v w, d_word d w -> value_get d (value_assign d v w) = w)) /\
  (forall mem size src,
  (let len := length (unpackFixedString mem) in
   unpackFixedString mem = take len mem /\
   (forall i, (i < len)%nat -> byte_at mem i <> 0) /\
   (len = 0%nat \/ byte_at mem (len - 1) <> 32) /\
   exists stop, (len <= stop <= length mem)%nat /\
     (forall i, (len <= i < stop)%nat -> byte_at mem i = 32) /\
     (stop = length mem \/ byte_at mem stop = 0)) /\
  length (FixedString_pack size src) = size /\
  (Forall (fun c => c <> 0) src -> last src <> Some 32 -> (length src <= size)%nat ->
   FixedString_unpack size (FixedString_pack size src) = src)).
Proof. exact (conj arrays_roundtrip fixed_string_correct). Qed.

Lemma packed_data_correct_witness :
  unpackArray Int16BE 3 (packArray Int16BE 4 [-2; 77]) 9 = [-2; 77; 9] /\
  FixedString_unpack 6 (FixedString_pack 6 [104; 32; 105]) = [104; 32; 105].
Proof.
  destruct packed_data_correct as [H1 H2]. split.
  - apply (H1 Int16BE 5%nat [-2; 77] 3%nat 9 _); [|simpl; lia]. repeat constructor; simpl; lia.
  - apply (H2 [] 6%nat [104; 32; 105]); [|done|simpl; lia]. repeat constructor; done.
Defined.

Example unpackFixedString_example :
  unpackFixedString [97; 98; 32; 32; 0; 99] = [97; 98].
Proof. reflexivity. Qed.
