(* ===== verification/Checksums.v ===== *)
(** * Checksums

    src/afl/checksums/checksum.hpp (the interface), bytesum.cpp, adler32.cpp,
    crc16.cpp, crc32.cpp.  The data block is the list of its bytes; [eat()] in
    a loop is structural recursion.  The interface is the class [Checksum]; its
    documented invariant, add(whole, n) = add(second, add(first, n)), is the
    class [ChecksumLaws], discharged for the four implementations. *)

From Stdlib Require Import ZArith Lia Bool Btauto.
From stdpp Require Import base tactics numbers option list.
From S2P Require Import Prelude Pack.

Local Open Scope Z_scope.

(** ** The interface (checksum.hpp) *)

(** A class [C] derived from [Checksum] overrides two virtual functions. *)
Class Checksum (C : Type) := {
  addImpl : C -> list Z -> Z -> Z;
  bitsImpl : C -> Z;
}.

Definition checksum_add {C} `{!Checksum C} (c : C) (data : list Z) (prev : Z) : Z := addImpl c data prev.
Definition checksum_bits {C} `{!Checksum C} (c : C) : Z := bitsImpl c.

(** ** ByteSum *)

Inductive ByteSum := MkByteSum.

Fixpoint ByteSum_add (data : list Z) (prev : Z) : Z :=
  match data with
  | [] => prev
  | p :: data' => ByteSum_add data' (u32 (prev + p))
  end.

#[export] Instance ByteSum_checksum : Checksum ByteSum := {
  addImpl _ data prev := ByteSum_add data prev;
  bitsImpl _ := 32;
}.

(** ** Adler32 *)

Inductive Adler32 := MkAdler32.

Definition BASE : Z := 65521.

(** Loop over the data, on (s1, s2, counter). *)
Fixpoint Adler32_loop (data : list Z) (s1 s2 counter : Z) : Z * Z :=
  match data with
  | [] => (s1, s2)
  | p :: data' =>
      let counter := u32 (counter + 1) in
      let '(s1, s2, counter) :=
        if 5500 <? counter then (s1 mod BASE, s2 mod BASE, 0) else (s1, s2, counter) in
      let s1 := u32 (s1 + p) in
      let s2 := u32 (s2 + s1) in
      Adler32_loop data' s1 s2 counter
  end.

Definition Adler32_add (data : list Z) (prev : Z) : Z :=
  let '(s1, s2) := Adler32_loop data (Z.land prev 0xFFFF) (Z.shiftr prev 16) 0 in
  let s1 := s1 mod BASE in
  let s2 := s2 mod BASE in
  Z.lor (u32 (Z.shiftl s2 16)) s1.

#[export] Instance Adler32_checksum : Checksum Adler32 := {
  addImpl _ data prev := Adler32_add data prev;
  bitsImpl _ := 32;
}.

(** ** CRC16 and CRC32 *)

(** One iteration of the inner loop of [init]. *)
Definition crc_bit (poly n : Z) : Z :=
  if negb (Z.land n 1 =? 0) then Z.lxor poly (Z.shiftr n 1) else Z.shiftr n 1.

Definition seqZ256 : list Z := map Z.of_nat (seq 0 256).

Record CRC16 := { crc16_table : list Z }.

Definition CRC16_init (poly : Z) : CRC16 :=
  {| crc16_table := map (fun i => Nat.iter 8 (fun n => u16 (crc_bit poly n)) i) seqZ256 |}.

Fixpoint CRC16_loop (m_table : list Z) (data : list Z) (accum : Z) : Z :=
  match data with
  | [] => accum
  | p :: data' =>
      CRC16_loop m_table data'
        (u16 (Z.lxor (nth (Z.to_nat (Z.land (Z.lxor p accum) 255)) m_table 0) (Z.shiftr accum 8)))
  end.

Definition CRC16_add (c : CRC16) (data : list Z) (prev : Z) : Z := CRC16_loop (crc16_table c) data prev.

Definition CRC16_default : CRC16 := CRC16_init 0x8408.

#[export] Instance CRC16_checksum : Checksum CRC16 := {
  addImpl c data prev := CRC16_add c data (u16 prev);
  bitsImpl _ := 16;
}.

Record CRC32 := { crc32_table : list Z }.

Definition CRC32_init (poly : Z) : CRC32 :=
  {| crc32_table := map (fun i => Nat.iter 8 (crc_bit poly) i) seqZ256 |}.

Fixpoint CRC32_loop (m_table : list Z) (data : list Z) (accum : Z) : Z :=
  match data with
  | [] => accum
  | p :: data' =>
      CRC32_loop m_table data'
        (Z.lxor (nth (Z.to_nat (Z.land (Z.lxor p accum) 255)) m_table 0) (Z.shiftr accum 8))
  end.

Definition CRC32_add (c : CRC32) (data : list Z) (prev : Z) : Z :=
  unot 32 (CRC32_loop (crc32_table c) data (unot 32 prev)).

Definition CRC32_default : CRC32 := CRC32_init 0xEDB88320.

#[export] Instance CRC32_checksum : Checksum CRC32 := {
  addImpl c data prev := CRC32_add c data prev;
  bitsImpl _ := 32;
}.

(** ** Lemmas: Adler32 *)

(** The defining recurrence, reduced after every byte. *)
Definition adler_step (st : Z * Z) (p : Z) : Z * Z :=
  let a := (st.1 + p) mod BASE in (a, (st.2 + a) mod BASE).

(** Bounds on the deferred sums after [m] additions since the last reduction. *)
Definition adler_bound (m s1 s2 : Z) : Prop :=
  0 <= s1 <= 65535 + 255 * m /\ 0 <= s2 /\ 2 * s2 <= 2 * 65535 + m * (2 * 65535 + 255 * (m + 1)).

Lemma adler_bound_step m s1 s2 p :
  0 <= m <= 5500 -> is_byte p -> adler_bound m s1 s2 ->
  u32 (s1 + p) = s1 + p /\ u32 (s2 + (s1 + p)) = s2 + (s1 + p) /\
  adler_bound (m + 1) (s1 + p) (s2 + (s1 + p)).
Proof.
  unfold adler_bound, is_byte, u32. intros Hm Hp (H1 & H2 & H3).
  assert (adler_bound (m + 1) (s1 + p) (s2 + (s1 + p))) as (B1 & B2 & B3)
    by (unfold adler_bound; split; [lia|split; [lia|nia]]).
  assert (m * (2 * 65535 + 255 * (m + 1)) <= 5500 * (2 * 65535 + 255 * 5501)) by nia.
  rewrite !wrap_small by lia. auto.
Qed.

Lemma adler_bound_mod s1 s2 m : 0 <= m -> adler_bound m (s1 mod BASE) (s2 mod BASE).
Proof.
  intros Hm. unfold adler_bound, BASE.
  pose proof (Z.mod_pos_bound s1 65521). pose proof (Z.mod_pos_bound s2 65521). nia.
Qed.

Definition reduce (st : Z * Z) : Z * Z := (st.1 mod BASE, st.2 mod BASE).

Lemma adler_step_reduce s1 s2 p :
  adler_step (reduce (s1, s2)) p = reduce (s1 + p, s2 + (s1 + p)).
Proof.
  unfold adler_step, reduce. cbn [fst snd]. f_equal; [by rewrite Zplus_mod_idemp_l|].
  rewrite Zplus_mod_idemp_l, Zplus_mod_idemp_l, Zplus_mod_idemp_r. done.
Qed.

(** The deferred reduction never overflows: [counter + 1] bounds the number of
    additions since the last one. *)
Lemma Adler32_loop_spec data s1 s2 counter :
  bytes data -> 0 <= counter <= 5500 -> adler_bound (counter + 1) s1 s2 ->
  reduce (Adler32_loop data s1 s2 counter) = foldl adler_step (reduce (s1, s2)) data.
Proof.
  intros Hd. revert s1 s2 counter. induction Hd as [|p data Hp Hd IH]; intros s1 s2 counter Hc Hb; [done|].
  cbn [Adler32_loop foldl]. unfold u32 at 1 2. rewrite (wrap_small 32 (counter + 1)) by lia.
  rewrite adler_step_reduce. destruct (Z.ltb_spec 5500 (counter + 1)).
  - destruct (adler_bound_step 0 (s1 mod BASE) (s2 mod BASE) p) as (-> & -> & Hb');
      [lia|done|by apply adler_bound_mod|].
    rewrite IH by (lia || done). f_equal.
    rewrite <- !adler_step_reduce. f_equal. unfold reduce. cbn [fst snd]. by rewrite !Zmod_mod.
  - destruct (adler_bound_step (counter + 1) s1 s2 p) as (-> & -> & Hb'); [lia|done|done|].
    rewrite IH by (lia || done). done.
Qed.

(** Packing and unpacking of the two halves. *)
Definition adler_pack (st : Z * Z) : Z := st.2 * 65536 + st.1.
Definition adler_unpack (v : Z) : Z * Z := (v mod 65536, v / 65536).

Lemma reduce_range st : 0 <= (reduce st).1 < BASE /\ 0 <= (reduce st).2 < BASE.
Proof. split; apply Z.mod_pos_bound; unfold BASE; lia. Qed.

Lemma Adler32_add_spec data prev :
  bytes data -> in_u 32 prev ->
  Adler32_add data prev = adler_pack (foldl adler_step (reduce (adler_unpack prev)) data).
Proof.
  intros Hd Hp. unfold in_u in Hp. unfold Adler32_add.
  change 0xFFFF with (Z.ones 16). rewrite Z.land_ones, Z.shiftr_div_pow2 by lia.
  change (2 ^ 16) with 65536. fold (adler_unpack prev).
  pose proof (Adler32_loop_spec data (prev mod 65536) (prev / 65536) 0 Hd) as Hl.
  destruct (Adler32_loop data (prev mod 65536) (prev / 65536) 0) as [s1 s2].
  change (prev mod 65536, prev / 65536) with (adler_unpack prev) in Hl. rewrite <- Hl.
  - pose proof (reduce_range (s1, s2)) as [R1 R2]. unfold reduce in *. cbn [fst snd] in *. unfold BASE in *.
    unfold adler_pack, u32. cbn [fst snd]. rewrite Z.shiftl_mul_pow2, wrap_small by lia.
    rewrite <- Z.shiftl_mul_pow2 by lia.
    pose proof (Z.add_lor_land (Z.shiftl (s2 mod 65521) 16) (s1 mod 65521)) as E.
    assert (Z.land (Z.shiftl (s2 mod 65521) 16) (s1 mod 65521) = 0) as El.
    { apply Z.bits_inj'. intros i Hi. rewrite Z.land_spec, Z.shiftl_spec, Z.testbit_0_l by lia.
      destruct (Z_lt_le_dec i 16); [by rewrite Z.testbit_neg_r by lia|].
      rewrite (testbit_in_u 16 (s1 mod 65521)) by (unfold in_u; lia). apply andb_false_r. }
    rewrite El, Z.shiftl_mul_pow2 in E by lia. rewrite Z.shiftl_mul_pow2 by lia. lia.
  - lia.
  - unfold adler_bound. pose proof (Z.mod_pos_bound prev 65536).
    assert (0 <= prev / 65536 < 65536) by (split; [apply Z.div_pos|apply Z.div_lt_upper_bound]; lia). lia.
Qed.

Lemma foldl_adler_reduced data s1 s2 :
  reduce (foldl adler_step (reduce (s1, s2)) data) = foldl adler_step (reduce (s1, s2)) data.
Proof.
  revert s1 s2. induction data as [|p data IH]; intros s1 s2; cbn [foldl].
  - unfold reduce. cbn [fst snd]. by rewrite !Zmod_mod.
  - by rewrite adler_step_reduce, IH.
Qed.

Lemma adler_unpack_pack st : 0 <= st.1 < 65536 -> adler_unpack (adler_pack st) = st.
Proof.
  destruct st as [a b]. unfold adler_pack, adler_unpack. cbn [fst snd]. intros Ha.
  rewrite (Z.add_comm (b * 65536)), Z.mod_add, Z.mod_small, Z.div_add, Z.div_small by lia. done.
Qed.

Lemma Adler32_in_u data prev : bytes data -> in_u 32 prev -> in_u 32 (Adler32_add data prev).
Proof.
  intros Hd Hp. rewrite Adler32_add_spec by done. unfold adler_unpack at 1. rewrite <- foldl_adler_reduced.
  pose proof (reduce_range (foldl adler_step (reduce (prev mod 65536, prev / 65536)) data)) as [R1 R2].
  unfold adler_pack, in_u. unfold BASE in *. lia.
Qed.

Lemma Adler32_app d1 d2 prev :
  bytes d1 -> bytes d2 -> in_u 32 prev ->
  Adler32_add (d1 ++ d2) prev = Adler32_add d2 (Adler32_add d1 prev).
Proof.
  intros H1 H2 Hp. rewrite (Adler32_add_spec d2) by auto using Adler32_in_u.
  rewrite !Adler32_add_spec by (done || (by apply Forall_app)).
  rewrite foldl_app. unfold adler_unpack at 1 3.
  pose proof (foldl_adler_reduced d1 (prev mod 65536) (prev / 65536)) as Hr.
  set (st := foldl adler_step _ d1) in *.
  rewrite adler_unpack_pack, Hr; [done|]. rewrite <- Hr.
  pose proof (reduce_range st). unfold BASE in *. lia.
Qed.

(** ** Lemmas: CRC *)

Lemma land_1_testbit n : negb (Z.land n 1 =? 0) = Z.testbit n 0.
Proof.
  change 1 with (Z.ones 1). rewrite Z.land_ones by lia. change (2 ^ 1) with 2.
  rewrite Zmod_odd, Z.bit0_odd. by destruct (Z.odd n).
Qed.

Lemma crc_bit_spec poly n i :
  0 <= i -> Z.testbit (crc_bit poly n) i
            = xorb (Z.testbit n 0 && Z.testbit poly i) (Z.testbit n (i + 1)).
Proof.
  intros Hi. unfold crc_bit. rewrite land_1_testbit.
  destruct (Z.testbit n 0); rewrite ?Z.lxor_spec, Z.shiftr_spec by lia; by rewrite ?xorb_false_l.
Qed.

(** The shift register step is linear over exclusive or. *)
Lemma crc_bit_lxor poly a b : crc_bit poly (Z.lxor a b) = Z.lxor (crc_bit poly a) (crc_bit poly b).
Proof.
  apply Z.bits_inj'. intros i Hi. rewrite Z.lxor_spec, !crc_bit_spec, !Z.lxor_spec by done. btauto.
Qed.

Lemma crc_iter_lxor poly k a b :
  Nat.iter k (crc_bit poly) (Z.lxor a b) = Z.lxor (Nat.iter k (crc_bit poly) a) (Nat.iter k (crc_bit poly) b).
Proof. induction k as [|k IH]; [done|]. change (Nat.iter (S k) ?f ?x) with (f (Nat.iter k f x)). by rewrite IH, crc_bit_lxor. Qed.

(** Zero bits only shift. *)
Lemma crc_iter_zeros poly k x : Nat.iter k (crc_bit poly) (Z.shiftl x (Z.of_nat k)) = x.
Proof.
  revert x. induction k as [|k IH]; intros x; [apply Z.shiftl_0_r|].
  change (Nat.iter (S k) ?f ?y) with (f (Nat.iter k f y)).
  replace (Z.of_nat (S k)) with (1 + Z.of_nat k) by lia. rewrite <- Z.shiftl_shiftl, IH by lia.
  unfold crc_bit. rewrite land_1_testbit, Z.shiftl_spec, Z.testbit_neg_r by lia.
  rewrite Z.shiftr_shiftl_l, Z.shiftl_0_r by lia. done.
Qed.

(** Reference: the bits of one byte clocked through the shift register. *)
Definition crc_byte (poly accum p : Z) : Z := Nat.iter 8 (crc_bit poly) (Z.lxor accum p).

Lemma crc_byte_table poly accum p :
  is_byte p ->
  crc_byte poly accum p
    = Z.lxor (Nat.iter 8 (crc_bit poly) (Z.land (Z.lxor p accum) 255)) (Z.shiftr accum 8).
Proof.
  intros Hp. unfold crc_byte.
  assert (Z.lxor accum p = Z.lxor (Z.land (Z.lxor p accum) 255) (Z.shiftl (Z.shiftr accum 8) (Z.of_nat 8))) as ->.
  { apply Z.bits_inj'. intros i Hi. change 255 with (Z.ones 8).
    rewrite !Z.lxor_spec, Z.land_spec, Z.testbit_ones_nonneg, Z.shiftl_spec, Z.lxor_spec by lia.
    destruct (Z.ltb_spec i 8).
    - rewrite (Z.testbit_neg_r _ (i - _)) by lia. btauto.
    - rewrite Z.shiftr_spec by lia. rewrite (testbit_in_u 8 p) by (done || lia).
      replace (i - Z.of_nat 8 + 8) with i by lia. btauto. }
  rewrite crc_iter_lxor, crc_iter_zeros. done.
Qed.

Lemma crc_bit_in_u w poly n : 0 <= w -> in_u w poly -> in_u w n -> in_u w (crc_bit poly n).
Proof. intros Hw Hp Hn. unfold crc_bit. destruct (negb _); auto with afl lia. Qed.

Lemma crc_iter_in_u w poly k n : 0 <= w -> in_u w poly -> in_u w n -> in_u w (Nat.iter k (crc_bit poly) n).
Proof. intros Hw Hp Hn. induction k; simpl; [done|]. by apply crc_bit_in_u. Qed.

Lemma crc_byte_in_u w poly accum p :
  8 <= w -> in_u w poly -> in_u w accum -> is_byte p -> in_u w (crc_byte poly accum p).
Proof.
  intros Hw Hpoly Ha Hp. apply crc_iter_in_u; [lia|done|]. apply in_u_lxor; [lia|done|].
  unfold in_u, is_byte in *. pose proof (Z.pow_le_mono_r 2 8 w). lia.
Qed.

Lemma nth_seqZ256 (f : Z -> Z) i : 0 <= i < 256 -> nth (Z.to_nat i) (map f seqZ256) 0 = f i.
Proof.
  intros Hi. unfold seqZ256. rewrite map_map.
  rewrite (nth_indep _ 0 (f (Z.of_nat 0))) by (rewrite length_map, length_seq; lia).
  rewrite (map_nth (fun x => f (Z.of_nat x)) (seq 0 256) 0%nat (Z.to_nat i)).
  rewrite seq_nth by lia. f_equal. lia.
Qed.

Lemma land_255_range x : 0 <= Z.land x 255 < 256.
Proof. change 255 with (Z.ones 8). rewrite Z.land_ones by lia. apply Z.mod_pos_bound. lia. Qed.

Lemma CRC32_loop_ref poly data accum :
  in_u 32 poly -> bytes data -> in_u 32 accum ->
  CRC32_loop (crc32_table (CRC32_init poly)) data accum = foldl (crc_byte poly) accum data.
Proof.
  intros Hpoly Hd. revert accum. induction Hd as [|p data Hp Hd IH]; intros accum Ha; [done|].
  cbn [CRC32_loop foldl]. cbn [CRC32_init crc32_table] in *.
  rewrite nth_seqZ256 by apply land_255_range. rewrite <- crc_byte_table by done.
  apply IH. apply crc_byte_in_u; done || lia.
Qed.

Lemma CRC16_iter poly k n :
  in_u 16 poly -> in_u 16 n ->
  Nat.iter k (fun n => u16 (crc_bit poly n)) n = Nat.iter k (crc_bit poly) n.
Proof.
  intros Hp Hn. induction k as [|k IH]; [done|].
  change (Nat.iter (S k) ?f ?x) with (f (Nat.iter k f x)). cbv beta. rewrite IH.
  apply wrap_small. apply crc_bit_in_u; [lia|done|]. apply crc_iter_in_u; done || lia.
Qed.

Lemma CRC16_loop_ref poly data accum :
  in_u 16 poly -> bytes data -> in_u 16 accum ->
  CRC16_loop (crc16_table (CRC16_init poly)) data accum = foldl (crc_byte poly) accum data.
Proof.
  intros Hpoly Hd. revert accum. induction Hd as [|p data Hp Hd IH]; intros accum Ha; [done|].
  cbn [CRC16_loop foldl]. cbn [CRC16_init crc16_table] in *.
  pose proof (land_255_range (Z.lxor p accum)).
  rewrite nth_seqZ256, CRC16_iter by (done || unfold in_u; lia). rewrite <- crc_byte_table by done.
  assert (in_u 16 (crc_byte poly accum p)) as Hin by (apply crc_byte_in_u; done || lia).
  unfold u16. rewrite wrap_small by done. by apply IH.
Qed.

(** The register after a block is the register before it, combined with the
    block read as one number, clocked once per bit. *)
Lemma lxor_le_val p data : is_byte p -> Z.lxor p (Z.shiftl (le_val data) 8) = p + 256 * le_val data.
Proof.
  intros Hp. rewrite Z.shiftl_mul_pow2 by lia.
  rewrite <- Z.add_nocarry_lxor; [lia|]. rewrite <- Z.shiftl_mul_pow2 by lia.
  apply Z.bits_inj'. intros i Hi. rewrite Z.land_spec, Z.shiftl_spec, Z.testbit_0_l by lia.
  destruct (Z_lt_le_dec i 8); [by rewrite (Z.testbit_neg_r (le_val _)), andb_false_r by lia|].
  by rewrite (testbit_in_u 8 p) by (done || lia).
Qed.

Lemma crc_bytes_iter poly accum data :
  bytes data ->
  foldl (crc_byte poly) accum data
    = Nat.iter (8 * length data) (crc_bit poly) (Z.lxor accum (le_val data)).
Proof.
  intros Hd. revert accum. induction Hd as [|p data Hp Hd IH]; intros accum.
  { simpl. by rewrite Z.lxor_0_r. }
  cbn [foldl length le_val]. rewrite IH. unfold crc_byte.
  rewrite <- (crc_iter_zeros poly 8 (le_val data)) at 1. rewrite <- crc_iter_lxor.
  replace (8 * S (length data))%nat with (8 * length data + 8)%nat by lia.
  rewrite Nat.iter_add. rewrite Z.lxor_assoc. change (Z.of_nat 8) with 8. by rewrite lxor_le_val.
Qed.

(** With the x^0 term in the polynomial, the register step is injective. *)
Lemma crc_bit_inj w poly a b :
  0 < w -> Z.testbit poly (w - 1) = true -> in_u w a -> in_u w b ->
  crc_bit poly a = crc_bit poly b -> a = b.
Proof.
  intros Hw Hp Ha Hb E.
  assert (forall i, 0 <= i -> xorb (Z.testbit a 0 && Z.testbit poly i) (Z.testbit a (i + 1))
                         = xorb (Z.testbit b 0 && Z.testbit poly i) (Z.testbit b (i + 1))) as Hi.
  { intros i Hi. by rewrite <- !crc_bit_spec, E by done. }
  assert (Z.testbit a 0 = Z.testbit b 0) as H0.
  { specialize (Hi (w - 1) ltac:(lia)). rewrite Hp, (testbit_in_u w a (w - 1 + 1)),
      (testbit_in_u w b (w - 1 + 1)) in Hi by (done || lia).
    revert Hi. by destruct (Z.testbit a 0), (Z.testbit b 0). }
  apply Z.bits_inj'. intros i Hi'. destruct (decide (i = 0)) as [->|]; [done|].
  specialize (Hi (i - 1) ltac:(lia)). rewrite H0 in Hi. replace (i - 1 + 1) with i in Hi by lia.
  revert Hi. by destruct (Z.testbit b 0 && Z.testbit poly (i - 1)), (Z.testbit a i), (Z.testbit b i).
Qed.

Lemma crc_iter_inj w poly k a b :
  0 < w -> in_u w poly -> Z.testbit poly (w - 1) = true -> in_u w a -> in_u w b ->
  Nat.iter k (crc_bit poly) a = Nat.iter k (crc_bit poly) b -> a = b.
Proof.
  intros Hw Hp Ht Ha Hb. induction k as [|k IH]; [done|].
  change (Nat.iter (S k) ?f ?x) with (f (Nat.iter k f x)). intros E. apply IH.
  apply (crc_bit_inj w poly); auto using crc_iter_in_u with lia.
Qed.

Lemma foldl_crc_in_u w poly data accum :
  8 <= w -> in_u w poly -> bytes data -> in_u w accum -> in_u w (foldl (crc_byte poly) accum data).
Proof.
  intros Hw Hp Hd. revert accum. induction Hd; intros accum Ha; simpl; [done|]. auto using crc_byte_in_u.
Qed.

Lemma lxor_cancel a x y : Z.lxor a x = Z.lxor a y -> x = y.
Proof.
  intros E. apply (f_equal (Z.lxor a)) in E. by rewrite <- !Z.lxor_assoc, !Z.lxor_nilpotent, !Z.lxor_0_l in E.
Qed.

Lemma le_val_inj x y : bytes x -> bytes y -> length x = length y -> le_val x = le_val y -> x = y.
Proof. intros Hx Hy Hl E. rewrite <- (le_bytes_le_val x), <- (le_bytes_le_val y) by done. by rewrite E, Hl. Qed.

(** A damaged block that fits the register changes the register... *)
Lemma crc_block_inj w poly accum x y :
  8 <= w -> in_u w poly -> Z.testbit poly (w - 1) = true -> in_u w accum ->
  bytes x -> bytes y -> length x = length y -> 8 * Z.of_nat (length x) <= w ->
  foldl (crc_byte poly) accum x = foldl (crc_byte poly) accum y -> x = y.
Proof.
  intros Hw Hp Ht Ha Hx Hy Hl Hlw E. rewrite !crc_bytes_iter, <- Hl in E by done.
  assert (forall z, bytes z -> length z = length x -> in_u w (le_val z)) as Hin.
  { intros z Hz Hlz. pose proof (le_val_range z Hz) as Hr. unfold in_u in *. rewrite Hlz in Hr.
    pose proof (Z.pow_le_mono_r 2 (8 * Z.of_nat (length x)) w). lia. }
  apply (crc_iter_inj w poly) in E; auto using in_u_lxor with lia; try (apply in_u_lxor; auto with lia).
  apply lxor_cancel in E. by apply le_val_inj.
Qed.

(** ... and equal blocks after it keep different registers different. *)
Lemma crc_suffix_inj w poly a b data :
  8 <= w -> in_u w poly -> Z.testbit poly (w - 1) = true -> in_u w a -> in_u w b -> bytes data ->
  foldl (crc_byte poly) a data = foldl (crc_byte poly) b data -> a = b.
Proof.
  intros Hw Hp Ht Ha Hb Hd. revert a b Ha Hb. induction Hd as [|p data Hpb Hd IH]; intros a b Ha Hb E; [done|].
  cbn [foldl] in E. apply IH in E; [|by apply crc_byte_in_u..].
  unfold crc_byte in E. assert (in_u w p).
  { unfold in_u, is_byte in *. pose proof (Z.pow_le_mono_r 2 8 w). lia. }
  apply (crc_iter_inj w poly) in E; auto using in_u_lxor with lia; try (apply in_u_lxor; auto with lia).
  rewrite !(Z.lxor_comm _ p) in E. by apply lxor_cancel in E.
Qed.

Lemma unot_involutive w x : 0 <= w -> in_u w x -> unot w (unot w x) = x.
Proof.
  intros Hw Hx. apply Z.bits_inj'. intros i Hi. rewrite !unot_spec by done.
  destruct (Z.ltb_spec i w); simpl; [by rewrite negb_involutive|]. by rewrite (testbit_in_u w).
Qed.

(** ** The interface's laws *)

(** The contract of checksum.hpp: values have the announced number of bits,
    and the split of the stream into blocks does not matter. *)
Class ChecksumLaws (C : Type) `{!Checksum C} (valid : C -> Prop) : Prop := {
  add_range c data prev :
    valid c -> bytes data -> in_u (bitsImpl c) prev -> in_u (bitsImpl c) (addImpl c data prev);
  add_app c d1 d2 prev :
    valid c -> bytes d1 -> bytes d2 -> in_u (bitsImpl c) prev ->
    addImpl c (d1 ++ d2) prev = addImpl c d2 (addImpl c d1 prev);
}.

Lemma ByteSum_add_app d1 d2 prev : ByteSum_add (d1 ++ d2) prev = ByteSum_add d2 (ByteSum_add d1 prev).
Proof. revert prev. induction d1; intros; simpl; auto. Qed.

Lemma ByteSum_in_u data prev : in_u 32 prev -> in_u 32 (ByteSum_add data prev).
Proof. revert prev. induction data; intros; simpl; [done|]. apply IHdata. by apply in_u_wrap. Qed.

#[export] Instance ByteSum_laws : ChecksumLaws ByteSum (fun _ => True).
Proof. constructor; simpl; intros; [by apply ByteSum_in_u|apply ByteSum_add_app]. Qed.

#[export] Instance Adler32_laws : ChecksumLaws Adler32 (fun _ => True).
Proof. constructor; simpl; intros; [by apply Adler32_in_u|by apply Adler32_app]. Qed.

#[export] Instance CRC16_laws : ChecksumLaws CRC16 (fun c => exists poly, in_u 16 poly /\ c = CRC16_init poly).
Proof.
  constructor; intros c * (poly & Hp & ->); intros; cbn [addImpl bitsImpl CRC16_checksum] in *; unfold CRC16_add, u16.
  - rewrite wrap_small, CRC16_loop_ref by done. apply foldl_crc_in_u; done || lia.
  - rewrite !CRC16_loop_ref; try done; try (apply in_u_wrap; lia); [|by apply Forall_app].
    rewrite foldl_app, (wrap_small 16 (foldl _ _ _)); [done|].
    apply foldl_crc_in_u; try done. apply in_u_wrap; lia.
Qed.

#[export] Instance CRC32_laws : ChecksumLaws CRC32 (fun c => exists poly, in_u 32 poly /\ c = CRC32_init poly).
Proof.
  constructor; intros c * (poly & Hp & ->); intros; cbn [addImpl bitsImpl CRC32_checksum] in *; unfold CRC32_add.
  - by apply in_u_unot.
  - rewrite !CRC32_loop_ref; try done; try (by apply in_u_unot); [|by apply Forall_app].
    rewrite foldl_app, unot_involutive; [done|lia|]. apply foldl_crc_in_u; try done. by apply in_u_unot.
Qed.

(** Splitting into any number of blocks. *)
Lemma add_blocks {C} (valid : C -> Prop) `{ChecksumLaws C valid} c blocks prev :
  valid c -> Forall bytes blocks -> in_u (bitsImpl c) prev ->
  foldl (fun n b => checksum_add c b n) prev blocks
    = match blocks with [] => prev | _ => checksum_add c (concat blocks) prev end.
Proof.
  intros Hc Hb. revert prev. induction Hb as [|b blocks Hb Hbs IH]; intros prev Hp; [done|].
  cbn [foldl concat]. rewrite IH by (by apply add_range). destruct blocks as [|b' blocks].
  - simpl. by rewrite app_nil_r.
  - unfold checksum_add. rewrite add_app; try done. by apply Forall_concat.
Qed.

(** ** Properties *)

(** Block-wise computation of a checksum [c] agrees with the one over the
    whole stream, and stays in range. *)
Definition split_invariant {C} `{!Checksum C} (c : C) (blocks : list (list Z)) (prev : Z) : Prop :=
  let blockwise := foldl (fun n b => checksum_add c b n) prev blocks in
  blockwise = checksum_add c (concat blocks) prev /\ in_u (checksum_bits c) blockwise.

Lemma laws_split_invariant {C} (valid : C -> Prop) `{ChecksumLaws C valid} c blocks prev :
  valid c -> Forall bytes blocks -> blocks <> [] -> in_u (bitsImpl c) prev -> split_invariant c blocks prev.
Proof.
  intros Hc Hb Hne Hp. unfold split_invariant. rewrite (add_blocks valid) by done.
  destruct blocks; [done|]. split; [done|]. apply add_range; try done. by apply Forall_concat.
Qed.

(** The interface's invariant: for each of the four checksums (with any
    polynomial for the CRCs), computing the checksum of a stream block by
    block gives the checksum of the whole stream, for any split into blocks,
    and the result has the announced number of bits. *)
Lemma checksum_block_split blocks prev poly16 poly32 :
  Forall bytes blocks -> blocks <> [] -> in_u 16 poly16 -> in_u 32 poly32 -> in_u 32 prev ->
  split_invariant MkByteSum blocks prev /\
  split_invariant MkAdler32 blocks prev /\
  (in_u 16 prev -> split_invariant (CRC16_init poly16) blocks prev) /\
  split_invariant (CRC32_init poly32) blocks prev.
Proof.
  intros Hb Hne H16 H32 Hp. split_and!; intros.
  - by apply (laws_split_invariant (fun _ => True)).
  - by apply (laws_split_invariant (fun _ => True)).
  - apply (laws_split_invariant (fun c => exists poly, in_u 16 poly /\ c = CRC16_init poly)); eauto.
  - apply (laws_split_invariant (fun c => exists poly, in_u 32 poly /\ c = CRC32_init poly)); eauto.
Qed.

(** Adler32: although the division is deferred for up to 5500 bytes, no
    32-bit sum ever overflows, and the result is the one of the defining
    recurrence that reduces both sums modulo 65521 after every byte. *)
Lemma adler32_correct data prev :
  bytes data -> in_u 32 prev ->
  Adler32_add data prev
    = (let '(a, b) := foldl (fun '(a, b) p => ((a + p) mod BASE, (b + (a + p) mod BASE) mod BASE))
                            ((prev mod 65536) mod BASE, (prev / 65536) mod BASE) data in
       b * 65536 + a).
Proof.
  intros Hd Hp. rewrite Adler32_add_spec by done. unfold adler_pack, adler_unpack, reduce. cbn [fst snd].
  generalize ((prev mod 65536) mod BASE) ((prev / 65536) mod BASE). clear Hd.
  induction data as [|p data IH]; intros a b; [done|]. apply IH.
Qed.

(** The table-driven CRC16 and CRC32 compute the bit-serial shift
    register: for every polynomial, each byte is combined into the register,
    which is then clocked eight times (for CRC32 with the register inverted
    before and after). *)
Lemma crc_table_correct poly data prev :
  bytes data ->
  (in_u 16 poly -> in_u 16 prev ->
     CRC16_add (CRC16_init poly) data prev = foldl (crc_byte poly) prev data) /\
  (in_u 32 poly -> in_u 32 prev ->
     CRC32_add (CRC32_init poly) data prev
       = unot 32 (foldl (crc_byte poly) (unot 32 prev) data)).
Proof.
  intros Hd. split; intros Hp Ha.
  - by apply CRC16_loop_ref.
  - unfold CRC32_add. rewrite CRC32_loop_ref; [done|done|done|]. by apply in_u_unot.
Qed.

(** C39. Checksums.  For ByteSum, Adler32, CRC16 and CRC32 (with any polynomial)
    the checksum of a stream does not depend on its split into blocks, and has the
    announced number of bits.  Adler32's deferred division never overflows 32 bits
    and gives the recurrence that reduces both sums modulo 65521 after every byte.
    The table-driven CRCs compute the bit-serial shift register, clocked eight
    times per byte. *)
Theorem checksums_correct :
  (forall blocks prev poly16 poly32,
  Forall bytes blocks -> blocks <> [] -> in_u 16 poly16 -> in_u 32 poly32 -> in_u 32 prev ->
  split_invariant MkByteSum blocks prev /\
  split_invariant MkAdler32 blocks prev /\
  (in_u 16 prev -> split_invariant (CRC16_init poly16) blocks prev) /\
  split_invariant (CRC32_init poly32) blocks prev) /\
  (forall data prev,
  bytes data -> in_u 32 prev ->
  Adler32_add data prev
    = (let '(a, b) := foldl (fun '(a, b) p => ((a + p) mod BASE, (b + (a + p) mod BASE) mod BASE))
                            ((prev mod 65536) mod BASE, (prev / 65536) mod BASE) data in
       b * 65536 + a)) /\
  (forall poly data prev,
  bytes data ->
  (in_u 16 poly -> in_u 16 prev ->
     CRC16_add (CRC16_init poly) data prev = foldl (crc_byte poly) prev data) /\
  (in_u 32 poly -> in_u 32 prev ->
     CRC32_add (CRC32_init poly) data prev
       = unot 32 (foldl (crc_byte poly) (unot 32 prev) data))).
Proof. exact (conj checksum_block_split (conj adler32_correct crc_table_correct)). Qed.

Lemma checksums_correct_witness :
  split_invariant MkAdler32 [[1; 2]; []; [255]] 1 /\
  Adler32_add [87; 105; 107; 105] 1 = 0x03DA0195 /\
  CRC32_add CRC32_default [49; 50; 51; 52; 53; 54; 55; 56; 57] 0 = 0xCBF43926.
Proof.
  destruct checksums_correct as (H1 & H2 & H3). split; [|split].
  - assert (Forall bytes [[1; 2]; []; [255]]) as Hb by (apply (bool_decide_unpack _); vm_compute; exact I).
    destruct (H1 [[1; 2]; []; [255]] 1 0x8408 0xEDB88320 Hb) as (_ & HA & _ & _);
      try (split; vm_compute; congruence); [congruence|]. exact HA.
  - rewrite (H2 [87; 105; 107; 105] 1); [vm_compute; reflexivity| |split; lia].
    apply (bool_decide_unpack _). vm_compute. exact I.
  - unfold CRC32_default. destruct (H3 0xEDB88320 [49; 50; 51; 52; 53; 54; 55; 56; 57] 0) as [_ H].
    + apply (bool_decide_unpack _). vm_compute. exact I.
    + rewrite H by (split; vm_compute; congruence). vm_compute. reflexivity.
Defined.

(** Error detection: two messages that agree outside a block of at most
    2 bytes (CRC16) or 4 bytes (CRC32) and differ within it have different
    checksums, for every polynomial with its x^0 term (the most significant
    bit), as the two default polynomials have. *)
Theorem crc_detects_bursts poly pre x y post prev :
  bytes pre -> bytes x -> bytes y -> bytes post -> length x = length y -> x <> y ->
  (in_u 16 poly -> Z.testbit poly 15 = true -> in_u 16 prev -> (length x <= 2)%nat ->
     CRC16_add (CRC16_init poly) (pre ++ x ++ post) prev <> CRC16_add (CRC16_init poly) (pre ++ y ++ post) prev) /\
  (in_u 32 poly -> Z.testbit poly 31 = true -> in_u 32 prev -> (length x <= 4)%nat ->
     CRC32_add (CRC32_init poly) (pre ++ x ++ post) prev <> CRC32_add (CRC32_init poly) (pre ++ y ++ post) prev).
Proof.
  intros Hpre Hx Hy Hpost Hl Hne.
  assert (forall z, bytes z -> bytes (pre ++ z ++ post)) as Hall by (intros; unfold bytes in *; rewrite !Forall_app; auto).
  assert (forall w accum, 8 <= w -> in_u w poly -> Z.testbit poly (w - 1) = true -> in_u w accum ->
    8 * Z.of_nat (length x) <= w ->
    foldl (crc_byte poly) accum (pre ++ x ++ post) <> foldl (crc_byte poly) accum (pre ++ y ++ post)) as Hcrc.
  { intros w accum Hw Hp Ht Ha Hlw E. rewrite !foldl_app in E.
    assert (in_u w (foldl (crc_byte poly) accum pre)) by (by apply foldl_crc_in_u).
    apply (crc_suffix_inj w poly) in E; auto using foldl_crc_in_u.
    by apply (crc_block_inj w poly) in E. }
  split; intros Hp Ht Ha Hlx E; unfold CRC16_add, CRC32_add in E.
  - rewrite !CRC16_loop_ref in E by auto. revert E. apply (Hcrc 16); auto with lia.
  - rewrite !CRC32_loop_ref in E by (auto; by apply in_u_unot).
    assert (in_u 32 (unot 32 prev)) as Hu by (by apply in_u_unot).
    apply (f_equal (unot 32)) in E. rewrite !unot_involutive in E by (lia || (apply foldl_crc_in_u; auto with lia)).
    revert E. apply (Hcrc 32); auto with lia.
Qed.

Lemma crc_detects_bursts_witness :
  CRC32_add CRC32_default [1; 2; 3; 4; 5; 6] 0 <> CRC32_add CRC32_default [1; 2; 9; 4; 5; 6] 0.
Proof.
  destruct (crc_detects_bursts 0xEDB88320 [1; 2] [3] [9] [4; 5; 6] 0) as [_ H];
    [apply (bool_decide_unpack _); vm_compute; exact I ..|].
  apply H; [split; vm_compute; congruence|reflexivity|split; vm_compute; congruence|simpl; lia].
Defined.
