(* ===== verification/Hash.v ===== *)
(** * The hash interface, HMAC and PBKDF2

    src/afl/checksums/hash.hpp and hash.cpp.  A derived class is an instance of
    [Hash]; what hash.hpp promises of it (the split into add() calls does not
    matter, getHash() has no side effect, fixed sizes) is [HashLaws].  HMAC and
    PBKDF2 are proved against the interface; Md5Sha1.v and Sha2.v discharge it.

    A buffer passed to getHash() is its size; the result is the contents of the
    returned sub-range. *)

From Stdlib Require Import ZArith Lia Bool String.
From stdpp Require Import base tactics numbers option list.
From S2P Require Import Prelude Pack.

Local Open Scope Z_scope.
Local Open Scope afl_scope.

(** ** Interface *)

Class Hash (H : Type) := {
  clear : H -> H;
  add : H -> list Z -> H;
  getHashSize : nat;
  getBlockSize : nat;
  getHash : H -> nat -> list Z;
}.

Class HashLaws (H : Type) `{!Hash H} := {
  (** The hash function, and the objects that have been fed a message. *)
  digest : list Z -> list Z;
  fed : H -> list Z -> Prop;
  fed_clear h msg : fed h msg -> fed (clear h) [];
  fed_add h msg data : fed h msg -> fed (add h data) (msg ++ data);
  getHash_digest h msg n : fed h msg -> (getHashSize <= n)%nat -> getHash h n = digest msg;
  digest_length msg : length (digest msg) = getHashSize;
  getHashSize_pos : (0 < getHashSize)%nat;
}.

(** ** Block-wise processing, shared by the implementations

    [eat_blocks] is [while (const Block_t* p = data.eatN<n>()) f(state, *p);],
    with the size of the data as fuel. *)
Fixpoint eat_blocks {S} (n : nat) (f : S -> list Z -> S) (fuel : nat) (st : S) (data : list Z) : S * list Z :=
  match fuel with
  | O => (st, data)
  | Datatypes.S fuel' =>
      match eatN n data with
      | Some (b, data') => eat_blocks n f fuel' (f st b) data'
      | None => (st, data)
      end
  end.

Definition absorb {S} (n : nat) (f : S -> list Z -> S) (st : S) (data : list Z) : S * list Z :=
  eat_blocks n f (length data) st data.

(** ** HMAC and PBKDF2 (hash.cpp) *)

Definition MAX_HASH_SIZE : nat := 64.
Definition MAX_BLOCK_SIZE : nat := 128.

Inductive exception := UnsupportedException (what : string).

Section HMAC.
Context {H : Type} `{!Hash H}.

(** k_ipad or k_opad: the key in a zeroed buffer, each byte combined with [c]. *)
Definition hmac_pad (key : list Z) (c : Z) : list Z :=
  map (fun b => Z.lxor b c) (copy_at (replicate MAX_BLOCK_SIZE 0) 0 key).

Definition computeHMAC (h : H) (key data : list Z) : outcome exception H :=
  let hashSize := getHashSize in
  let blockSize := getBlockSize in
  if (MAX_HASH_SIZE <? hashSize)%nat || (MAX_BLOCK_SIZE <? blockSize)%nat || (blockSize <? hashSize)%nat
  then Throw (UnsupportedException "hmac")
  else
    let '(h, key) :=
      if (blockSize <? length key)%nat
      then let h := add (clear h) key in (h, getHash h MAX_HASH_SIZE)
      else (h, key) in
    let k_ipad := hmac_pad key 0x36 in
    let k_opad := hmac_pad key 0x5C in
    let h := clear h in
    let h := add h (take blockSize k_ipad) in
    let h := add h data in
    let dig := getHash h MAX_HASH_SIZE in
    let h := clear h in
    let h := add h (take blockSize k_opad) in
    Ok (add h dig).

(** [for (i = 1; i < numIterations; ++i)], [n] iterations to go; the state is
    the object, [prev] and the accumulator. *)
Fixpoint pbkdf2_iterate (n : nat) (h : H) (password prev acc : list Z) : outcome exception (H * list Z) :=
  match n with
  | O => Ok (h, acc)
  | S n' =>
      let! h := computeHMAC h password prev in
      let next := getHash h MAX_HASH_SIZE in
      pbkdf2_iterate n' h password next (zip_with Z.lxor acc next)
  end.

(** [while (!out.empty())], producing the contents of [out]; [fuel] bounds the
    number of bytes to produce. *)
Fixpoint pbkdf2_blocks (fuel : nat) (h : H) (outSize : nat) (password salt : list Z) (index numIterations : Z)
    : outcome exception (H * list Z) :=
  match fuel with
  | O => Ok (h, [])
  | S fuel' =>
      if (outSize =? 0)%nat then Ok (h, []) else
      let index := u32 (index + 1) in
      let! h := computeHMAC h password (salt ++ UInt32BE_pack index) in
      let prev := getHash h MAX_HASH_SIZE in
      let! (h, acc) := pbkdf2_iterate (Z.to_nat (numIterations - 1)) h password prev prev in
      let n := Nat.min (length prev) outSize in
      let! (h, rest) := pbkdf2_blocks fuel' h (outSize - n) password salt index numIterations in
      Ok (h, take n acc ++ rest)
  end.

Definition computePBKDF2 (h : H) (outSize : nat) (password salt : list Z) (numIterations : Z)
    : outcome exception (H * list Z) :=
  (* saltAndIndex.trim(salt.size() + 4) of a buffer of MAX_BLOCK_SIZE + 4; pIndex is its part behind the salt *)
  if (Nat.min (length salt + 4) (MAX_BLOCK_SIZE + 4) <? length salt + 4)%nat
  then Throw (UnsupportedException "pbkdf2")
  else pbkdf2_blocks outSize h outSize password salt 0 numIterations.
End HMAC.

(** ** Lemmas on blocks *)

Section Blocks.
Context {S : Type} (n : nat) (Hn : (0 < n)%nat) (f : S -> list Z -> S).

Lemma eatN_None {A} k (l : list A) : (length l < k)%nat -> eatN k l = None.
Proof. intros. unfold eatN. destruct (Nat.leb_spec k (length l)); [lia|done]. Qed.

Lemma eatN_Some {A} k (l : list A) : (k <= length l)%nat -> eatN k l = Some (take k l, drop k l).
Proof. intros. unfold eatN. destruct (Nat.leb_spec k (length l)); [done|lia]. Qed.

(** More fuel than the size of the data changes nothing. *)
Lemma eat_blocks_fuel fuel st data :
  (length data <= fuel)%nat -> eat_blocks n f fuel st data = absorb n f st data.
Proof.
  unfold absorb. remember (length data) as len eqn:Hlen. revert fuel st data Hlen.
  induction (lt_wf len) as [len _ IH]; intros fuel st data Hlen Hf.
  destruct (Nat.lt_ge_cases len n) as [Hlt|Hge].
  - destruct fuel as [|fuel], len as [|len]; simpl; rewrite ?eatN_None by lia; done.
  - destruct fuel as [|fuel]; [lia|]. destruct len as [|len]; [lia|]. simpl.
    rewrite eatN_Some by lia.
    rewrite (IH (length (drop n data))) by (rewrite ?length_drop; lia).
    symmetry. apply IH; rewrite ?length_drop; lia.
Qed.

Lemma absorb_short st data : (length data < n)%nat -> absorb n f st data = (st, data).
Proof.
  intros Hl. unfold absorb. destruct (length data) eqn:E; simpl; [done|].
  by rewrite eatN_None by lia.
Qed.

Lemma absorb_block st b data : length b = n -> absorb n f st (b ++ data) = absorb n f (f st b) data.
Proof.
  intros Hb. rewrite <- (eat_blocks_fuel (Datatypes.S (length (b ++ data)))) by lia.
  cbn [eat_blocks]. rewrite eatN_Some by (rewrite length_app; lia).
  rewrite take_app_length', drop_app_length' by done. apply eat_blocks_fuel. rewrite length_app. lia.
Qed.

(** The unprocessed rest is what is left after whole blocks. *)
Lemma absorb_rest st data : length (absorb n f st data).2 = (length data mod n)%nat.
Proof.
  remember (length data) as len eqn:Hlen. revert st data Hlen.
  induction (lt_wf len) as [len _ IH]; intros st data Hlen.
  destruct (Nat.lt_ge_cases len n) as [Hlt|Hge].
  - rewrite absorb_short by lia. simpl. by rewrite Nat.mod_small by lia.
  - rewrite <- (take_drop n data), absorb_block by (rewrite length_take; lia).
    rewrite (IH (len - n)%nat) by (rewrite ?length_drop; lia).
    replace len with (len - n + 1 * n)%nat at 2 by lia. by rewrite Nat.Div0.mod_add.
Qed.

(** Absorbing in two portions: the rest of the first is put in front of the second. *)
Lemma absorb_app st a b :
  absorb n f st (a ++ b) = (let '(st', r) := absorb n f st a in absorb n f st' (r ++ b)).
Proof.
  remember (length a) as len eqn:Hlen. revert st a Hlen.
  induction (lt_wf len) as [len _ IH]; intros st a Hlen.
  destruct (Nat.lt_ge_cases len n) as [Hlt|Hge].
  - by rewrite (absorb_short st a) by lia.
  - assert (length (take n a) = n) as Ht by (rewrite length_take; lia).
    rewrite <- (take_drop n a), <- app_assoc, (absorb_block st (take n a) (drop n a ++ b)),
      (absorb_block st (take n a) (drop n a)) by done.
    apply (IH (len - n)%nat); rewrite ?length_drop; lia.
Qed.
End Blocks.

(** ** Buffered absorption

    [buffered n f init msg state buf]: an object that was fed [msg] has run its
    whole blocks through [f], and keeps the rest at the start of its buffer. *)
Definition buffered {S} (n : nat) (f : S -> list Z -> S) (init : S) (msg : list Z) (state : S) (buf : list Z) : Prop :=
  length buf = n /\
  absorb n f init msg = (state, take (length msg mod n) buf).

Section Buffered.
Context {S : Type} (n : nat) (Hn : (0 < n)%nat) (f : S -> list Z -> S) (init : S).
Implicit Types (msg data buf : list Z).

Lemma buffered_nil buf : length buf = n -> buffered n f init [] init buf.
Proof. intros Hb. split; [done|]. rewrite absorb_short by done. simpl. by rewrite Nat.Div0.mod_0_l, take_0. Qed.

(** After processing, the rest is stored at the start of a buffer. *)
Lemma buffered_store msg state r buf :
  length buf = n -> absorb n f init msg = (state, r) -> buffered n f init msg state (copy_at buf 0 r).
Proof.
  intros Hb E. pose proof (absorb_rest n Hn f init msg) as Hr. rewrite E in Hr. simpl in Hr.
  pose proof (Nat.mod_upper_bound (length msg) n ltac:(lia)).
  split; [rewrite copy_at_length; lia|]. rewrite E. f_equal. rewrite <- Hr.
  pose proof (copy_at_prefix buf 0 r) as Hp. simpl in Hp. rewrite Hp, ?take_0 by lia. done.
Qed.

(** New data that does not complete a block is stored behind the rest. *)
Lemma buffered_partial msg state buf data :
  buffered n f init msg state buf -> (length msg mod n + length data < n)%nat ->
  buffered n f init (msg ++ data) state (copy_at buf (length msg mod n) data).
Proof.
  intros [Hb E] Hd. set (i := (length msg mod n)%nat) in *.
  split; [rewrite copy_at_length; lia|].
  assert (length (msg ++ data) mod n = i + length data)%nat as ->.
  { rewrite length_app, Nat.Div0.add_mod, (Nat.mod_small (length data)) by lia. by apply Nat.mod_small. }
  rewrite copy_at_prefix, absorb_app, E by lia.
  apply absorb_short; rewrite ?length_app, ?length_take; lia.
Qed.

(** New data that completes a block: the buffer, filled up, is that block. *)
Lemma buffered_complete msg state buf data :
  buffered n f init msg state buf -> (n <= length msg mod n + length data)%nat ->
  let room := (n - length msg mod n)%nat in
  let buf' := copy_at buf (length msg mod n) (take room data) in
  length buf' = n /\
  absorb n f init (msg ++ data) = absorb n f (f state buf') (drop room data).
Proof.
  intros [Hb E] Hd room buf'. set (i := (length msg mod n)%nat) in *.
  pose proof (Nat.mod_upper_bound (length msg) n ltac:(lia)) as Hi. fold i in Hi.
  assert (length buf' = n) as Hl by (subst buf'; rewrite copy_at_length; lia). split; [done|].
  rewrite absorb_app, E by lia. rewrite <- (take_drop room data) at 1.
  rewrite app_assoc, <- (copy_at_full buf i (take room data)) by (rewrite length_take; lia).
  by apply absorb_block.
Qed.

(** Whole blocks arriving at an empty buffer. *)
Lemma buffered_aligned msg state buf data :
  buffered n f init msg state buf -> (length msg mod n = 0)%nat ->
  absorb n f init (msg ++ data) = absorb n f state data.
Proof. intros [Hb E] Hi. rewrite absorb_app, E, Hi, take_0 by lia. done. Qed.
End Buffered.

(** ** Message padding

    A byte 0x80, zeros, and room for the length in [lenSize] bytes, up to a
    multiple of the block size (RFC 1321, RFC 3174, RFC 6234). *)
Definition pad_zeros (bs lenSize len : nat) : nat :=
  Z.to_nat ((- Z.of_nat (len + 1 + lenSize)) mod Z.of_nat bs).

Definition md_padding (bs lenSize len : nat) : list Z := 0x80 :: replicate (pad_zeros bs lenSize len) 0.

Lemma pad_zeros_aligned bs lenSize len :
  (0 < bs)%nat -> ((len + 1 + pad_zeros bs lenSize len + lenSize) mod bs = 0)%nat.
Proof.
  intros Hb. apply Nat2Z.inj. rewrite Nat2Z.inj_mod. unfold pad_zeros.
  pose proof (Z.mod_pos_bound (- Z.of_nat (len + 1 + lenSize)) (Z.of_nat bs) ltac:(lia)).
  replace (Z.of_nat (len + 1 + _ + lenSize))
    with (Z.of_nat (len + 1 + lenSize) + (- Z.of_nat (len + 1 + lenSize)) mod Z.of_nat bs) by lia.
  rewrite Zplus_mod_idemp_r. rewrite Z.add_opp_diag_r. done.
Qed.

(** The number of zeros, from the fill level of the last block. *)
Lemma pad_zeros_index bs lenSize len :
  (lenSize < bs)%nat ->
  let i := (len mod bs)%nat in
  pad_zeros bs lenSize len = (if i <? bs - lenSize then bs - lenSize - 1 - i else 2 * bs - lenSize - 1 - i)%nat.
Proof.
  intros Hl i. pose proof (Nat.mod_upper_bound len bs ltac:(lia)) as Hi. fold i in Hi.
  unfold pad_zeros.
  assert (forall z, 0 <= z < Z.of_nat bs -> (exists q, - Z.of_nat (i + 1 + lenSize) = z + q * Z.of_nat bs) ->
    Z.to_nat ((- Z.of_nat (len + 1 + lenSize)) mod Z.of_nat bs) = Z.to_nat z) as Hz.
  { intros z Hz [q Hq]. f_equal. symmetry.
    apply (Z.mod_unique _ _ (q - Z.of_nat (len / bs))); [lia|].
    pose proof (Nat.div_mod len bs ltac:(lia)) as Hdm. fold i in Hdm. nia. }
  destruct (Nat.ltb_spec i (bs - lenSize)).
  - rewrite (Hz (Z.of_nat (bs - lenSize - 1 - i))); [lia|lia|]. exists (-1). lia.
  - rewrite (Hz (Z.of_nat (2 * bs - lenSize - 1 - i))); [lia|lia|]. exists (-2). lia.
Qed.

(** ** HMAC and PBKDF2 against the interface *)

Section Correct.
Context {H : Type} `{!Hash H} {laws : HashLaws H}.
Implicit Types (h : H) (msg key data : list Z).

(** RFC 2104: the key, hashed if it is longer than a block, padded to a block. *)
Definition hmac_key key : list Z :=
  let k := if (getBlockSize (H := H) <? length key)%nat then digest key else key in
  k ++ replicate (getBlockSize (H := H) - length k) 0.

Definition xor_with (c : Z) (k : list Z) : list Z := map (fun b => Z.lxor b c) k.

(** RFC 2104: the message whose digest is the HMAC. *)
Definition hmac_message key data : list Z :=
  xor_with 0x5C (hmac_key key) ++ digest (xor_with 0x36 (hmac_key key) ++ data).

Definition hmac key data : list Z := digest (hmac_message key data).

Definition hmac_supported : Prop :=
  (getHashSize (H := H) <= MAX_HASH_SIZE)%nat /\ (getBlockSize (H := H) <= MAX_BLOCK_SIZE)%nat /\
  (getHashSize (H := H) <= getBlockSize (H := H))%nat.

Lemma hmac_pad_correct k c :
  (length k <= getBlockSize (H := H) <= MAX_BLOCK_SIZE)%nat ->
  take (getBlockSize (H := H)) (hmac_pad k c)
    = xor_with c (k ++ replicate (getBlockSize (H := H) - length k) 0).
Proof.
  intros Hk. unfold hmac_pad, copy_at. rewrite length_replicate, Nat.sub_0_r, Nat.min_r by lia.
  rewrite firstn_all. cbn [take app Nat.add]. unfold xor_with. rewrite firstn_map. f_equal.
  rewrite take_0, app_nil_l, drop_replicate, take_app_ge by lia. rewrite take_replicate. do 2 f_equal. lia.
Qed.

Lemma hmac_key_length key : (getHashSize (H := H) <= getBlockSize (H := H))%nat ->
  (length (if (getBlockSize (H := H) <? length key)%nat then digest key else key) <= getBlockSize (H := H))%nat.
Proof. intros Hm. destruct (Nat.ltb_spec (getBlockSize (H := H)) (length key)); [by rewrite digest_length|done]. Qed.

Lemma fed_restart h msg data : fed h msg -> fed (add (clear h) data) data.
Proof. intros Hf. rewrite <- (app_nil_l data) at 2. eapply fed_add, fed_clear, Hf. Qed.

Lemma computeHMAC_spec h msg key data :
  fed h msg -> hmac_supported ->
  exists h', computeHMAC h key data = Ok h' /\ fed h' (hmac_message key data).
Proof.
  intros Hf (Hs & Hb & Hm). unfold computeHMAC.
  rewrite !(proj2 (Nat.ltb_ge _ _)) by lia. cbn [orb].
  assert (Hcore : forall h0 msg0 k, fed h0 msg0 -> (length k <= getBlockSize (H := H))%nat ->
    let pad c := take getBlockSize (hmac_pad k c) in
    let inner := add (add (clear h0) (pad 0x36)) data in
    let padded := k ++ replicate (getBlockSize (H := H) - length k) 0 in
    fed (add (add (clear inner) (pad 0x5C)) (getHash inner MAX_HASH_SIZE))
        (xor_with 0x5C padded ++ digest (xor_with 0x36 padded ++ data))).
  { intros h0 msg0 k Hf0 Hk pad inner padded. subst pad. cbv beta in *.
    assert (fed inner (xor_with 0x36 padded ++ data)) as Hin.
    { subst inner. rewrite hmac_pad_correct by lia. eapply fed_add, fed_restart, Hf0. }
    rewrite (getHash_digest _ _ MAX_HASH_SIZE Hin), hmac_pad_correct by (done || lia).
    eapply fed_add, fed_restart, Hin. }
  pose proof (hmac_key_length key Hm) as Hkl. unfold hmac_message, hmac_key.
  destruct (getBlockSize <? length key)%nat.
  - assert (fed (add (clear h) key) key) as Hk by (eapply fed_restart, Hf).
    rewrite (getHash_digest _ _ MAX_HASH_SIZE Hk) by done.
    eexists. split; [done|]. by eapply Hcore.
  - eexists. split; [done|]. by eapply Hcore.
Qed.

Lemma computeHMAC_unsupported h key data :
  ~ hmac_supported -> computeHMAC h key data = Throw (UnsupportedException "hmac").
Proof.
  intros Hn. unfold computeHMAC, hmac_supported in *.
  destruct (Nat.ltb_spec MAX_HASH_SIZE (getHashSize (H := H))); [done|].
  destruct (Nat.ltb_spec MAX_BLOCK_SIZE (getBlockSize (H := H))); [done|].
  destruct (Nat.ltb_spec (getBlockSize (H := H)) (getHashSize (H := H))); [done|]. lia.
Qed.

(** RFC 2898: U_1 = PRF(P, S || INT(i)), U_(j+1) = PRF(P, U_j), and T_i is the
    exclusive or of the first c of them. *)
Fixpoint pbkdf2_xor (n : nat) (password u : list Z) : list Z :=
  match n with
  | O => u
  | S n' => zip_with Z.lxor u (pbkdf2_xor n' password (hmac password u))
  end.

Definition pbkdf2_T (password salt : list Z) (c i : Z) : list Z :=
  pbkdf2_xor (Z.to_nat (c - 1)) password (hmac password (salt ++ UInt32BE_pack i)).

(** T_(i+1) || T_(i+2) || ... || T_(i+n) *)
Fixpoint pbkdf2_stream (n : nat) (password salt : list Z) (c i : Z) : list Z :=
  match n with
  | O => []
  | S n' => pbkdf2_T password salt c (i + 1) ++ pbkdf2_stream n' password salt c (i + 1)
  end.

Lemma hmac_length key data : length (hmac key data) = getHashSize (H := H).
Proof. apply digest_length. Qed.

Lemma zip_lxor_assoc a b c :
  zip_with Z.lxor (zip_with Z.lxor a b) c = zip_with Z.lxor a (zip_with Z.lxor b c).
Proof.
  revert b c. induction a as [|x a IH]; intros [|y b] [|z c]; simpl; try done.
  by rewrite IH, Z.lxor_assoc.
Qed.

Lemma pbkdf2_xor_length n password u :
  length u = getHashSize (H := H) -> length (pbkdf2_xor n password u) = getHashSize (H := H).
Proof.
  revert u. induction n as [|n IH]; intros u Hu; simpl; [done|].
  rewrite length_zip_with, IH, Hu by apply hmac_length. lia.
Qed.

(** The accumulator holds the part computed so far. *)
Lemma pbkdf2_iterate_spec n h msg password prev pre :
  fed h msg -> hmac_supported -> length prev = getHashSize (H := H) ->
  exists h' msg', fed h' msg' /\
    pbkdf2_iterate n h password prev (zip_with Z.lxor pre prev)
      = Ok (h', zip_with Z.lxor pre (pbkdf2_xor n password prev)).
Proof.
  intros Hf Hs. revert h msg prev pre Hf. induction n as [|n IH]; intros h msg prev pre Hf Hl; [eauto|].
  cbn [pbkdf2_iterate pbkdf2_xor].
  destruct (computeHMAC_spec h msg password prev Hf Hs) as (h1 & -> & Hf1). cbn [obind].
  rewrite (getHash_digest _ _ MAX_HASH_SIZE Hf1) by apply Hs. fold (hmac password prev).
  destruct (IH h1 _ (hmac password prev) (zip_with Z.lxor pre prev) Hf1 (hmac_length _ _))
    as (h2 & msg2 & Hf2 & ->).
  eexists _, _. split; [done|]. by rewrite zip_lxor_assoc.
Qed.

Lemma zip_lxor_zero n u : (length u <= n)%nat -> zip_with Z.lxor (replicate n 0) u = u.
Proof.
  revert n. induction u as [|x u IH]; intros [|n] Hl; simpl in *; try (done || lia).
  rewrite IH, Z.lxor_0_l by lia. done.
Qed.

Lemma pbkdf2_iterate_spec0 n h msg password prev :
  fed h msg -> hmac_supported -> length prev = getHashSize (H := H) ->
  exists h' msg', fed h' msg' /\
    pbkdf2_iterate n h password prev prev = Ok (h', pbkdf2_xor n password prev).
Proof.
  intros Hf Hs Hl.
  destruct (pbkdf2_iterate_spec n h msg password prev (replicate (length prev) 0) Hf Hs Hl)
    as (h' & msg' & Hf' & E).
  exists h', msg'. split; [done|].
  rewrite !zip_lxor_zero in E by (rewrite ?pbkdf2_xor_length by done; lia). done.
Qed.

Lemma pbkdf2_T_length password salt c i : length (pbkdf2_T password salt c i) = getHashSize (H := H).
Proof. apply pbkdf2_xor_length, hmac_length. Qed.

Lemma pbkdf2_stream_length n password salt c i :
  length (pbkdf2_stream n password salt c i) = (n * getHashSize (H := H))%nat.
Proof. revert i. induction n as [|n IH]; intros i; simpl; [done|]. by rewrite length_app, pbkdf2_T_length, IH. Qed.

Lemma pbkdf2_stream_app a b password salt c i :
  pbkdf2_stream (a + b) password salt c i
    = pbkdf2_stream a password salt c i ++ pbkdf2_stream b password salt c (i + Z.of_nat a).
Proof.
  revert i. induction a as [|a IH]; intros i; simpl; [by rewrite Z.add_0_r|].
  rewrite IH, <- app_assoc. do 3 f_equal. lia.
Qed.

(** The first [m] bytes need no more than [m] blocks. *)
Lemma take_pbkdf2_stream m k password salt c i :
  (m <= k)%nat -> take m (pbkdf2_stream k password salt c i) = take m (pbkdf2_stream m password salt c i).
Proof.
  intros Hmk. replace k with (m + (k - m))%nat by lia. rewrite pbkdf2_stream_app.
  pose proof getHashSize_pos. rewrite take_app_le; [done|]. rewrite pbkdf2_stream_length. nia.
Qed.

Lemma pbkdf2_blocks_spec fuel h msg outSize password salt index c :
  fed h msg -> hmac_supported -> (outSize <= fuel)%nat ->
  0 <= index <= 2 ^ 32 - 1 ->
  Z.of_nat outSize <= (2 ^ 32 - 1 - index) * Z.of_nat (getHashSize (H := H)) ->
  exists h' msg', fed h' msg' /\
    pbkdf2_blocks fuel h outSize password salt index c
      = Ok (h', take outSize (pbkdf2_stream outSize password salt c index)).
Proof.
  intros Hf Hs. revert h msg outSize index Hf.
  induction fuel as [|fuel IH]; intros h msg outSize index Hf Hfuel Hi0 Hi.
  { assert (outSize = 0%nat) as -> by lia. cbn. eauto. }
  cbn [pbkdf2_blocks]. destruct (Nat.eqb_spec outSize 0) as [->|Hne]; [cbn; eauto|].
  assert (index < 2 ^ 32 - 1) as Hlt by nia.
  unfold u32. rewrite wrap_small by lia.
  destruct (computeHMAC_spec h msg password (salt ++ UInt32BE_pack (index + 1)) Hf Hs) as (h1 & -> & Hf1).
  cbn [obind]. rewrite (getHash_digest _ _ MAX_HASH_SIZE Hf1) by apply Hs.
  fold (hmac password (salt ++ UInt32BE_pack (index + 1))).
  destruct (pbkdf2_iterate_spec0 (Z.to_nat (c - 1)) h1 _ password _ Hf1 Hs
    (hmac_length password (salt ++ UInt32BE_pack (index + 1)))) as (h2 & msg2 & Hf2 & ->).
  cbn [obind]. rewrite hmac_length. fold (pbkdf2_T password salt c (index + 1)).
  pose proof getHashSize_pos as Hpos. set (n := Nat.min getHashSize outSize).
  destruct (IH h2 msg2 (outSize - n)%nat (index + 1) Hf2) as (h3 & msg3 & Hf3 & ->); [lia|lia|nia|].
  cbn [obind]. exists h3, msg3. split; [done|]. do 2 f_equal.
  pose proof (pbkdf2_T_length password salt c (index + 1)) as HT.
  destruct outSize as [|m]; [lia|]. cbn [pbkdf2_stream].
  rewrite <- (take_pbkdf2_stream _ m) by lia. rewrite take_app, HT. f_equal.
  - subst n. destruct (Nat.min_spec getHashSize (S m)) as [[? ->]|[? ->]]; [|done].
    rewrite !take_ge by lia. done.
  - f_equal. lia.
Qed.

(** ComputeHMAC implements RFC 2104 for every hash that meets the
    interface's contract and fits the buffers: afterwards getHash() returns
    H((K xor opad) || H((K xor ipad) || data)), with K the key (hashed, if
    longer than a block) padded with zeros; otherwise it throws. *)
Lemma computeHMAC_correct h msg key data n :
  fed h msg -> (getHashSize (H := H) <= n)%nat ->
  (hmac_supported ->
     exists h', computeHMAC h key data = Ok h' /\ fed h' (hmac_message key data) /\
       getHash h' n = digest (xor_with 0x5C (hmac_key key) ++ digest (xor_with 0x36 (hmac_key key) ++ data)) /\
       length (hmac_key key) = getBlockSize (H := H)) /\
  (~ hmac_supported -> computeHMAC h key data = Throw (UnsupportedException "hmac")).
Proof.
  intros Hf Hn. split; [|apply computeHMAC_unsupported]. intros Hs.
  destruct (computeHMAC_spec h msg key data Hf Hs) as (h' & E & Hf'). exists h'.
  split; [done|]. split; [done|]. split; [by apply getHash_digest|].
  unfold hmac_key. rewrite length_app, length_replicate. pose proof (hmac_key_length key (proj2 (proj2 Hs))). lia.
Qed.

(** ComputePBKDF2 implements RFC 2898 over the interface: for a salt of at
    most 128 bytes and an output of at most (2^32-1) hash sizes it terminates
    and fills the output with the first bytes of T_1 || T_2 || ..., T_i the
    exclusive or of the first c iterates of HMAC on salt || INT(i); for a
    longer salt it throws. *)
Lemma computePBKDF2_correct h msg outSize password salt c :
  fed h msg -> hmac_supported ->
  ((length salt <= MAX_BLOCK_SIZE)%nat ->
     Z.of_nat outSize <= (2 ^ 32 - 1) * Z.of_nat (getHashSize (H := H)) ->
     exists h' out, computePBKDF2 h outSize password salt c = Ok (h', out) /\
       length out = outSize /\
       out = take outSize (pbkdf2_stream outSize password salt c 0)) /\
  ((MAX_BLOCK_SIZE < length salt)%nat ->
     computePBKDF2 h outSize password salt c = Throw (UnsupportedException "pbkdf2")).
Proof.
  intros Hf Hs. unfold computePBKDF2, MAX_BLOCK_SIZE. split.
  - intros Hl Hn. rewrite (proj2 (Nat.ltb_ge _ _)) by lia.
    destruct (pbkdf2_blocks_spec outSize h msg outSize password salt 0 c Hf Hs) as (h' & msg' & _ & ->); [lia..|].
    eexists _, _. split; [done|]. split; [|done].
    rewrite length_take, pbkdf2_stream_length. pose proof getHashSize_pos. nia.
  - intros Hl. by rewrite (proj2 (Nat.ltb_lt _ _)) by lia.
Qed.

(** C35. HMAC and PBKDF2, for every hash that meets the interface's contract,
    fits the buffers and is not longer than a block.  computeHMAC implements RFC 2104: afterwards getHash()
    returns H((K xor opad) || H((K xor ipad) || data)), with K the key (hashed, if
    longer than a block) padded with zeros; for other hashes it throws.
    computePBKDF2 implements RFC 2898: for a salt of at most 128 bytes and an output
    of at most (2^32-1) hash sizes it terminates and fills the output with the first
    bytes of T_1 || T_2 || ..., T_i the exclusive or of the first c iterates of HMAC
    on salt || INT(i); for a longer salt it throws. *)
Theorem mac_functions_correct :
  (forall h msg key data n,
  fed h msg -> (getHashSize (H := H) <= n)%nat ->
  (hmac_supported ->
     exists h', computeHMAC h key data = Ok h' /\ fed h' (hmac_message key data) /\
       getHash h' n = digest (xor_with 0x5C (hmac_key key) ++ digest (xor_with 0x36 (hmac_key key) ++ data)) /\
       length (hmac_key key) = getBlockSize (H := H)) /\
  (~ hmac_supported -> computeHMAC h key data = Throw (UnsupportedException "hmac"))) /\
  (forall h msg outSize password salt c,
  fed h msg -> hmac_supported ->
  ((length salt <= MAX_BLOCK_SIZE)%nat ->
     Z.of_nat outSize <= (2 ^ 32 - 1) * Z.of_nat (getHashSize (H := H)) ->
     exists h' out, computePBKDF2 h outSize password salt c = Ok (h', out) /\
       length out = outSize /\
       out = take outSize (pbkdf2_stream outSize password salt c 0)) /\
  ((MAX_BLOCK_SIZE < length salt)%nat ->
     computePBKDF2 h outSize password salt c = Throw (UnsupportedException "pbkdf2"))).
Proof. exact (conj computeHMAC_correct computePBKDF2_correct). Qed.
End Correct.
