(* ===== verification/Md5Sha1.v ===== *)
(** * MD5 and SHA-1

    src/afl/checksums/md5.cpp, md5.hpp, sha1.cpp, sha1.hpp.  An object is the
    byte count, the chaining state and the 64-byte block buffer, whose initial
    contents are arbitrary.  Both classes are shown to meet the contract of the
    hash interface, with the padding of RFC 1321 and RFC 3174. *)

From Stdlib Require Import ZArith Lia Bool String.
From stdpp Require Import base tactics numbers option list.
From S2P Require Import Prelude Bits Pack Hash.

Local Open Scope Z_scope.

#[local] Notation "x @ i" := (nth i%nat x 0) (at level 9, i at level 9).

(** ** MD5 *)

Definition S11 : Z := 7.
Definition S12 : Z := 12.
Definition S13 : Z := 17.
Definition S14 : Z := 22.
Definition S21 : Z := 5.
Definition S22 : Z := 9.
Definition S23 : Z := 14.
Definition S24 : Z := 20.
Definition S31 : Z := 4.
Definition S32 : Z := 11.
Definition S33 : Z := 16.
Definition S34 : Z := 23.
Definition S41 : Z := 6.
Definition S42 : Z := 10.
Definition S43 : Z := 15.
Definition S44 : Z := 21.

Definition MD5_F (x y z : Z) : Z := Z.lor (Z.land x y) (Z.land (unot 32 x) z).
Definition MD5_G (x y z : Z) : Z := Z.lor (Z.land x z) (Z.land y (unot 32 z)).
Definition MD5_H (x y z : Z) : Z := Z.lxor (Z.lxor x y) z.
Definition MD5_I (x y z : Z) : Z := Z.lxor y (Z.lor x (unot 32 z)).

Definition FF (a b c d x s ac : Z) : Z :=
  u32 (rotateLeft32 (u32 (a + (MD5_F b c d + x + ac))) s + b).
Definition GG (a b c d x s ac : Z) : Z :=
  u32 (rotateLeft32 (u32 (a + (MD5_G b c d + x + ac))) s + b).
Definition HH (a b c d x s ac : Z) : Z :=
  u32 (rotateLeft32 (u32 (a + (MD5_H b c d + x + ac))) s + b).
Definition II (a b c d x s ac : Z) : Z :=
  u32 (rotateLeft32 (u32 (a + (MD5_I b c d + x + ac))) s + b).

Definition MD5_round1 (x : list Z) '((a, b, c, d) : Z * Z * Z * Z) : Z * Z * Z * Z :=
  let a := FF a b c d (x@0) S11 0xd76aa478 in
  let d := FF d a b c (x@1) S12 0xe8c7b756 in
  let c := FF c d a b (x@2) S13 0x242070db in
  let b := FF b c d a (x@3) S14 0xc1bdceee in
  let a := FF a b c d (x@4) S11 0xf57c0faf in
  let d := FF d a b c (x@5) S12 0x4787c62a in
  let c := FF c d a b (x@6) S13 0xa8304613 in
  let b := FF b c d a (x@7) S14 0xfd469501 in
  let a := FF a b c d (x@8) S11 0x698098d8 in
  let d := FF d a b c (x@9) S12 0x8b44f7af in
  let c := FF c d a b (x@10) S13 0xffff5bb1 in
  let b := FF b c d a (x@11) S14 0x895cd7be in
  let a := FF a b c d (x@12) S11 0x6b901122 in
  let d := FF d a b c (x@13) S12 0xfd987193 in
  let c := FF c d a b (x@14) S13 0xa679438e in
  let b := FF b c d a (x@15) S14 0x49b40821 in
  (a, b, c, d).

Definition MD5_round2 (x : list Z) '((a, b, c, d) : Z * Z * Z * Z) : Z * Z * Z * Z :=
  let a := GG a b c d (x@1) S21 0xf61e2562 in
  let d := GG d a b c (x@6) S22 0xc040b340 in
  let c := GG c d a b (x@11) S23 0x265e5a51 in
  let b := GG b c d a (x@0) S24 0xe9b6c7aa in
  let a := GG a b c d (x@5) S21 0xd62f105d in
  let d := GG d a b c (x@10) S22 0x2441453 in
  let c := GG c d a b (x@15) S23 0xd8a1e681 in
  let b := GG b c d a (x@4) S24 0xe7d3fbc8 in
  let a := GG a b c d (x@9) S21 0x21e1cde6 in
  let d := GG d a b c (x@14) S22 0xc33707d6 in
  let c := GG c d a b (x@3) S23 0xf4d50d87 in
  let b := GG b c d a (x@8) S24 0x455a14ed in
  let a := GG a b c d (x@13) S21 0xa9e3e905 in
  let d := GG d a b c (x@2) S22 0xfcefa3f8 in
  let c := GG c d a b (x@7) S23 0x676f02d9 in
  let b := GG b c d a (x@12) S24 0x8d2a4c8a in
  (a, b, c, d).

Definition MD5_round3 (x : list Z) '((a, b, c, d) : Z * Z * Z * Z) : Z * Z * Z * Z :=
  let a := HH a b c d (x@5) S31 0xfffa3942 in
  let d := HH d a b c (x@8) S32 0x8771f681 in
  let c := HH c d a b (x@11) S33 0x6d9d6122 in
  let b := HH b c d a (x@14) S34 0xfde5380c in
  let a := HH a b c d (x@1) S31 0xa4beea44 in
  let d := HH d a b c (x@4) S32 0x4bdecfa9 in
  let c := HH c d a b (x@7) S33 0xf6bb4b60 in
  let b := HH b c d a (x@10) S34 0xbebfbc70 in
  let a := HH a b c d (x@13) S31 0x289b7ec6 in
  let d := HH d a b c (x@0) S32 0xeaa127fa in
  let c := HH c d a b (x@3) S33 0xd4ef3085 in
  let b := HH b c d a (x@6) S34 0x4881d05 in
  let a := HH a b c d (x@9) S31 0xd9d4d039 in
  let d := HH d a b c (x@12) S32 0xe6db99e5 in
  let c := HH c d a b (x@15) S33 0x1fa27cf8 in
  let b := HH b c d a (x@2) S34 0xc4ac5665 in
  (a, b, c, d).

Definition MD5_round4 (x : list Z) '((a, b, c, d) : Z * Z * Z * Z) : Z * Z * Z * Z :=
  let a := II a b c d (x@0) S41 0xf4292244 in
  let d := II d a b c (x@7) S42 0x432aff97 in
  let c := II c d a b (x@14) S43 0xab9423a7 in
  let b := II b c d a (x@5) S44 0xfc93a039 in
  let a := II a b c d (x@12) S41 0x655b59c3 in
  let d := II d a b c (x@3) S42 0x8f0ccc92 in
  let c := II c d a b (x@10) S43 0xffeff47d in
  let b := II b c d a (x@1) S44 0x85845dd1 in
  let a := II a b c d (x@8) S41 0x6fa87e4f in
  let d := II d a b c (x@15) S42 0xfe2ce6e0 in
  let c := II c d a b (x@6) S43 0xa3014314 in
  let b := II b c d a (x@13) S44 0x4e0811a1 in
  let a := II a b c d (x@4) S41 0xf7537e82 in
  let d := II d a b c (x@11) S42 0xbd3af235 in
  let c := II c d a b (x@2) S43 0x2ad7d2bb in
  let b := II b c d a (x@9) S44 0xeb86d391 in
  (a, b, c, d).

Definition MD5_transform (state block : list Z) : list Z :=
  let x := unpackArray UInt32LE 16 block 0 in
  let '(a, b, c, d) := MD5_round4 x (MD5_round3 x (MD5_round2 x (MD5_round1 x
    (state@0, state@1, state@2, state@3)))) in
  [u32 (state@0 + a); u32 (state@1 + b); u32 (state@2 + c); u32 (state@3 + d)].

Record MD5 := mkMD5 { md5_count : Z; md5_state : list Z; md5_buffer : list Z }.

Definition MD5_init_state : list Z := [0x67452301; 0xefcdab89; 0x98badcfe; 0x10325476].

Definition MD5_clear (h : MD5) : MD5 := mkMD5 0 MD5_init_state (md5_buffer h).

(** A new object; its buffer is not initialised. *)
Definition MD5_new (junk : list Z) : MD5 := MD5_clear (mkMD5 0 [] junk).

Definition MD5_add (h : MD5) (data : list Z) : MD5 :=
  let index := Z.to_nat (Z.land (md5_count h) 0x3F) in
  let remainder := (length (md5_buffer h) - index)%nat in
  let count := u64 (md5_count h + Z.of_nat (length data)) in
  let '(state, buffer, data, index) :=
    if (remainder <=? length data)%nat then
      let buffer := copy_at (md5_buffer h) index (take remainder data) in
      let state := MD5_transform (md5_state h) buffer in
      let '(state, data) := absorb 64 MD5_transform state (drop remainder data) in
      (state, buffer, data, 0%nat)
    else (md5_state h, md5_buffer h, data, index) in
  mkMD5 count state (copy_at buffer index data).

Definition MD5_PADDING : list Z := 0x80 :: replicate 63 0.

Definition MD5_HASH_SIZE : nat := 16.

Definition MD5_getHash (h : MD5) (n : nat) : list Z :=
  let bits := UInt64LE_pack (u64 (Z.shiftl (md5_count h) 3)) in
  let index := Z.to_nat (Z.land (md5_count h) 0x3F) in
  let padLen := if (index <? 56)%nat then (56 - index)%nat else (120 - index)%nat in
  let clone := MD5_add h (take padLen MD5_PADDING) in
  let clone := MD5_add clone bits in
  take n (packArray UInt32LE 16 (md5_state clone)).

#[export] Instance MD5_hash : Hash MD5 := {
  clear := MD5_clear;
  add := MD5_add;
  getHashSize := MD5_HASH_SIZE;
  getBlockSize := 64;
  getHash := MD5_getHash;
}.

(** ** SHA-1 *)

Definition SHA1_HASH_SIZE : nat := 20.

(** [for (t = 16; t < 80; t++) W[t] = ...], [n] words to go. *)
Fixpoint SHA1_schedule (n : nat) (W : list Z) : list Z :=
  match n with
  | O => W
  | S n' =>
      let t := length W in
      SHA1_schedule n' (W ++ [rotateLeft32 (Z.lxor (Z.lxor (Z.lxor (W@(t - 3)) (W@(t - 8))) (W@(t - 14))) (W@(t - 16))) 1])
  end.

(** The four functions of the four loops over t, and their constants. *)
Definition SHA1_f (t : nat) (B C D : Z) : Z :=
  if (t <? 20)%nat then Z.lor (Z.land B C) (Z.land (unot 32 B) D)
  else if (t <? 40)%nat then Z.lxor (Z.lxor B C) D
  else if (t <? 60)%nat then Z.lor (Z.land B C) (Z.land (Z.lor B C) D)
  else Z.lxor (Z.lxor B C) D.

Definition SHA1_K (t : nat) : Z :=
  if (t <? 20)%nat then 0x5A827999 else if (t <? 40)%nat then 0x6ED9EBA1
  else if (t <? 60)%nat then 0x8F1BBCDC else 0xCA62C1D6.

(** The body of the loops, over the words from index [t] on. *)
Fixpoint SHA1_loop (t : nat) (W : list Z) (regs : Z * Z * Z * Z * Z) : Z * Z * Z * Z * Z :=
  let '(A, B, C, D, E) := regs in
  match W with
  | [] => (A, B, C, D, E)
  | w :: W' =>
      let tmp := u32 (rotateLeft32 A 5 + SHA1_f t B C D + E + w + SHA1_K t) in
      SHA1_loop (S t) W' (tmp, A, rotateLeft32 B 30, C, D)
  end.

Definition SHA1_processBlock (state block : list Z) : list Z :=
  let W := SHA1_schedule 64 (unpackArray UInt32BE 16 block 0) in
  let '(A, B, C, D, E) := SHA1_loop 0 W (state@0, state@1, state@2, state@3, state@4) in
  [u32 (state@0 + A); u32 (state@1 + B); u32 (state@2 + C); u32 (state@3 + D); u32 (state@4 + E)].

Record SHA1 := mkSHA1 { sha1_bytes : Z; sha1_state : list Z; sha1_block : list Z }.

Definition SHA1_init_state : list Z := [0x67452301; 0xEFCDAB89; 0x98BADCFE; 0x10325476; 0xC3D2E1F0].

Definition SHA1_clear (h : SHA1) : SHA1 := mkSHA1 0 SHA1_init_state (sha1_block h).

Definition SHA1_new (junk : list Z) : SHA1 := SHA1_clear (mkSHA1 0 [] junk).

Definition SHA1_add (h : SHA1) (data : list Z) : SHA1 :=
  let index := Z.to_nat (sha1_bytes h mod Z.of_nat (length (sha1_block h))) in
  let count := u64 (sha1_bytes h + Z.of_nat (length data)) in
  let room := (length (sha1_block h) - index)%nat in
  let '(state, block, data, index) :=
    if negb (index =? 0)%nat && (room <=? length data)%nat then
      let block := copy_at (sha1_block h) index (take room data) in
      (SHA1_processBlock (sha1_state h) block, block, drop room data, 0%nat)
    else (sha1_state h, sha1_block h, data, index) in
  let '(state, data) := absorb 64 SHA1_processBlock state data in
  mkSHA1 count state (copy_at block index data).

Definition SHA1_pad : list Z := 0x80 :: replicate 63 0.

Definition SHA1_padMessage (h : SHA1) : SHA1 :=
  let index := Z.to_nat (sha1_bytes h mod Z.of_nat (length (sha1_block h))) in
  let encodedSize := UInt64BE_pack (u64 (Z.shiftl (sha1_bytes h) 3)) in
  let padSize := if (55 <? index)%nat then (120 - index)%nat else (56 - index)%nat in
  let h := SHA1_add h (take padSize SHA1_pad) in
  SHA1_add h encodedSize.

Definition SHA1_getHash (h : SHA1) (n : nat) : list Z :=
  let copy := SHA1_padMessage h in
  take n (packArray UInt32BE SHA1_HASH_SIZE (sha1_state copy)).

#[export] Instance SHA1_hash : Hash SHA1 := {
  clear := SHA1_clear;
  add := SHA1_add;
  getHashSize := SHA1_HASH_SIZE;
  getBlockSize := 64;
  getHash := SHA1_getHash;
}.

Example MD5_empty : MD5_getHash (MD5_new (replicate 64 7)) 16
  = [0xd4;0x1d;0x8c;0xd9;0x8f;0x00;0xb2;0x04;0xe9;0x80;0x09;0x98;0xec;0xf8;0x42;0x7e].
Proof. vm_compute. reflexivity. Qed.

(** "abc" *)
Example SHA1_abc : SHA1_getHash (SHA1_add (SHA1_new (replicate 64 7)) [97; 98; 99]) 64
  = [0xa9;0x99;0x3e;0x36;0x47;0x06;0x81;0x6a;0xba;0x3e;0x25;0x71;0x78;0x50;0xc2;0x6c;0x9c;0xd0;0xd8;0x9d].
Proof. vm_compute. reflexivity. Qed.

(** ** Lemmas *)

(** The fill level, from the 64-bit byte count. *)
Lemma count_mod_64 len : Z.to_nat (u64 (Z.of_nat len) mod 64) = (len mod 64)%nat.
Proof.
  unfold u64, wrap. change (2 ^ 64) with (64 * 2 ^ 58).
  rewrite Z.mod_mod_divide by (exists (2 ^ 58); lia).
  change 64 with (Z.of_nat 64). by rewrite <- Nat2Z.inj_mod, Nat2Z.id.
Qed.

Lemma count_land_63 len : Z.to_nat (Z.land (u64 (Z.of_nat len)) 0x3F) = (len mod 64)%nat.
Proof. change 0x3F with (Z.ones 6). rewrite Z.land_ones by lia. apply count_mod_64. Qed.

Lemma count_add len (data : list Z) :
  u64 (u64 (Z.of_nat len) + Z.of_nat (length data)) = u64 (Z.of_nat (len + length data)).
Proof. unfold u64. rewrite wrap_add_l. f_equal. lia. Qed.

(** Bit count: the shift wraps like the byte count. *)
Lemma count_shift len : u64 (Z.shiftl (u64 (Z.of_nat len)) 3) = u64 (8 * Z.of_nat len).
Proof.
  unfold u64, wrap. rewrite Z.shiftl_mul_pow2, Zmult_mod_idemp_l by lia. f_equal. lia.
Qed.

Lemma take_padding k : (0 < k <= 64)%nat -> take k (0x80 :: replicate 63 0) = 0x80 :: replicate (k - 1) 0.
Proof.
  intros Hk. destruct k as [|k]; [lia|]. cbn [take]. rewrite take_replicate. do 2 f_equal. lia.
Qed.

Lemma packed_length_words d `{!Lossless d} k ws :
  Forall (d_word d) ws -> length (packArray d k ws) = k.
Proof.
  intros Hw. pose proof (size_pos (d := d)) as Hpos. rewrite packArray_spec by done.
  set (q := (k / d_size d)%nat).
  rewrite length_app, packed_length, length_app, length_take, !length_replicate by
    (done || (apply Forall_app; split; [by apply Forall_take|apply Forall_replicate, zero_word])).
  pose proof (Nat.div_mod k (d_size d) ltac:(lia)) as E. fold q in E.
  replace (Nat.min q (length ws) + (q - length ws))%nat with q by lia. lia.
Qed.

(** *** MD5 *)

Lemma MD5_transform_words state block : Forall (in_u 32) (MD5_transform state block).
Proof.
  unfold MD5_transform. destruct (MD5_round4 _ _) as [[[a b] c] d].
  repeat constructor; apply in_u_wrap; lia.
Qed.

(** An MD5 object that has been fed [msg]. *)
Definition MD5_fed (h : MD5) (msg : list Z) : Prop :=
  md5_count h = u64 (Z.of_nat (length msg)) /\
  buffered 64 MD5_transform MD5_init_state msg (md5_state h) (md5_buffer h).

Lemma MD5_new_fed junk : length junk = 64%nat -> MD5_fed (MD5_new junk) [].
Proof. intros Hj. split; [done|]. apply buffered_nil; [lia|done]. Qed.

Lemma MD5_fed_add h msg data : MD5_fed h msg -> MD5_fed (MD5_add h data) (msg ++ data).
Proof.
  intros [Hc Hb]. pose proof (proj1 Hb) as Hl. unfold MD5_add.
  rewrite Hc, count_land_63, Hl. destruct (Nat.leb_spec (64 - length msg mod 64) (length data)) as [Hle|Hgt].
  - destruct (buffered_complete 64 ltac:(lia) _ _ msg _ _ data Hb ltac:(lia)) as [Hl' Habs].
    destruct (absorb 64 MD5_transform _ (drop (64 - length msg mod 64) data)) as [st r] eqn:E.
    split; cbn [md5_count md5_state md5_buffer]; [rewrite length_app; apply count_add|].
    apply buffered_store; [lia|done|]. by rewrite Habs.
  - split; cbn [md5_count md5_state md5_buffer]; [rewrite length_app; apply count_add|].
    apply buffered_partial; [lia|done|]. pose proof (Nat.mod_upper_bound (length msg) 64). lia.
Qed.

(** RFC 1321: the digest of the padded message. *)
Definition MD5_padded (msg : list Z) : list Z :=
  msg ++ md_padding 64 8 (length msg) ++ UInt64LE_pack (u64 (8 * Z.of_nat (length msg))).

Definition MD5_digest (msg : list Z) : list Z :=
  packArray UInt32LE 16 (absorb 64 MD5_transform MD5_init_state (MD5_padded msg)).1.

Lemma absorb_words {S} n (f : S -> list Z -> S) (P : S -> Prop) st data :
  (forall s b, P (f s b)) -> P st -> P (absorb n f st data).1.
Proof.
  intros Hf. unfold absorb. generalize (length data) as fuel. intros fuel. revert st data.
  induction fuel as [|fuel IH]; intros st data Hst; simpl; [done|].
  destruct (eatN n data) as [[b rest]|]; [|done]. by apply IH.
Qed.

Lemma MD5_getHash_digest h msg n : MD5_fed h msg -> MD5_getHash h n = take n (MD5_digest msg).
Proof.
  intros Hf. pose proof (proj1 Hf) as Hc. unfold MD5_getHash, MD5_digest, MD5_padded.
  rewrite Hc, count_land_63, count_shift.
  pose proof (Nat.mod_upper_bound (length msg) 64 ltac:(lia)) as Hi.
  assert (take (if (length msg mod 64 <? 56)%nat then 56 - length msg mod 64 else 120 - length msg mod 64)%nat
            MD5_PADDING = md_padding 64 8 (length msg)) as ->.
  { unfold md_padding. rewrite pad_zeros_index by lia. cbn [Nat.sub Nat.mul Nat.add].
    unfold MD5_PADDING. destruct (Nat.ltb_spec (length msg mod 64) 56); rewrite take_padding by lia;
      do 2 f_equal; lia. }
  destruct (MD5_fed_add _ _ (UInt64LE_pack (u64 (8 * Z.of_nat (length msg))))
    (MD5_fed_add h msg (md_padding 64 8 (length msg)) Hf)) as [_ [_ E]].
  rewrite <- app_assoc in E. by rewrite E.
Qed.

Lemma MD5_digest_length msg : length (MD5_digest msg) = MD5_HASH_SIZE.
Proof.
  apply packed_length_words; [apply _|]. apply absorb_words; [intros; apply MD5_transform_words|].
  repeat constructor; lia.
Qed.

Lemma MD5_fed_clear h msg : MD5_fed h msg -> MD5_fed (MD5_clear h) [].
Proof. intros [_ Hb]. split; [done|]. apply buffered_nil; [lia|apply Hb]. Qed.

Lemma MD5_getHash_whole h msg n :
  MD5_fed h msg -> (MD5_HASH_SIZE <= n)%nat -> MD5_getHash h n = MD5_digest msg.
Proof.
  intros Hf Hn. rewrite MD5_getHash_digest with (msg := msg) by done.
  apply take_ge. by rewrite MD5_digest_length.
Qed.

#[export] Instance MD5_laws : HashLaws MD5 := {
  digest := MD5_digest;
  fed := MD5_fed;
  fed_clear := MD5_fed_clear;
  fed_add := MD5_fed_add;
  getHash_digest := MD5_getHash_whole;
  digest_length := MD5_digest_length;
  getHashSize_pos := ltac:(cbn; unfold MD5_HASH_SIZE; lia);
}.

(** *** SHA-1 *)

Lemma SHA1_processBlock_words state block : Forall (in_u 32) (SHA1_processBlock state block).
Proof.
  unfold SHA1_processBlock. destruct (SHA1_loop _ _ _) as [[[[A B] C] D] E].
  repeat constructor; apply in_u_wrap; lia.
Qed.

Definition SHA1_fed (h : SHA1) (msg : list Z) : Prop :=
  sha1_bytes h = u64 (Z.of_nat (length msg)) /\
  buffered 64 SHA1_processBlock SHA1_init_state msg (sha1_state h) (sha1_block h).

Lemma SHA1_new_fed junk : length junk = 64%nat -> SHA1_fed (SHA1_new junk) [].
Proof. intros Hj. split; [done|]. apply buffered_nil; [lia|done]. Qed.

Lemma SHA1_fed_add h msg data : SHA1_fed h msg -> SHA1_fed (SHA1_add h data) (msg ++ data).
Proof.
  intros [Hc Hb]. pose proof (proj1 Hb) as Hl. unfold SHA1_add.
  pose proof (Nat.mod_upper_bound (length msg) 64 ltac:(lia)) as Hi.
  rewrite Hl, Hc. change (Z.of_nat 64) with 64. rewrite count_mod_64.
  destruct (Nat.eqb_spec (length msg mod 64) 0) as [H0|H0]; cbn [negb andb].
  - rewrite H0. destruct (absorb 64 SHA1_processBlock (sha1_state h) data) as [st r] eqn:E.
    split; cbn [sha1_bytes sha1_state sha1_block]; [rewrite length_app; apply count_add|].
    apply buffered_store; [lia|done|]. rewrite <- E. apply (buffered_aligned 64 ltac:(lia) _ _ _ _ _ _ Hb H0).
  - destruct (Nat.leb_spec (64 - length msg mod 64) (length data)) as [Hle|Hgt].
    + destruct (buffered_complete 64 ltac:(lia) _ _ msg _ _ data Hb ltac:(lia)) as [Hl' Habs].
      destruct (absorb 64 SHA1_processBlock _ (drop (64 - length msg mod 64) data)) as [st r] eqn:E.
      split; cbn [sha1_bytes sha1_state sha1_block]; [rewrite length_app; apply count_add|].
      apply buffered_store; [lia|done|]. by rewrite Habs.
    + rewrite absorb_short by lia.
      split; cbn [sha1_bytes sha1_state sha1_block]; [rewrite length_app; apply count_add|].
      apply buffered_partial; [lia|done|lia].
Qed.

(** RFC 3174. *)
Definition SHA1_padded (msg : list Z) : list Z :=
  msg ++ md_padding 64 8 (length msg) ++ UInt64BE_pack (u64 (8 * Z.of_nat (length msg))).

Definition SHA1_digest (msg : list Z) : list Z :=
  packArray UInt32BE SHA1_HASH_SIZE (absorb 64 SHA1_processBlock SHA1_init_state (SHA1_padded msg)).1.

Lemma SHA1_getHash_digest h msg n : SHA1_fed h msg -> SHA1_getHash h n = take n (SHA1_digest msg).
Proof.
  intros Hf. destruct Hf as [Hc Hb] eqn:Ef. unfold SHA1_getHash, SHA1_padMessage, SHA1_digest, SHA1_padded.
  rewrite (proj1 Hb), Hc. change (Z.of_nat 64) with 64. rewrite count_mod_64, count_shift.
  pose proof (Nat.mod_upper_bound (length msg) 64 ltac:(lia)) as Hi.
  assert (take (if (55 <? length msg mod 64)%nat then 120 - length msg mod 64 else 56 - length msg mod 64)%nat
            SHA1_pad = md_padding 64 8 (length msg)) as ->.
  { unfold md_padding. rewrite pad_zeros_index by lia. cbn [Nat.sub Nat.mul Nat.add].
    unfold SHA1_pad. destruct (Nat.ltb_spec (length msg mod 64) 56), (Nat.ltb_spec 55 (length msg mod 64)); try lia;
      rewrite take_padding by lia; do 2 f_equal; lia. }
  destruct (SHA1_fed_add _ _ (UInt64BE_pack (u64 (8 * Z.of_nat (length msg))))
    (SHA1_fed_add h msg (md_padding 64 8 (length msg)) Hf)) as [_ [_ E]].
  rewrite <- app_assoc in E. by rewrite E.
Qed.

Lemma SHA1_digest_length msg : length (SHA1_digest msg) = SHA1_HASH_SIZE.
Proof.
  apply packed_length_words; [apply _|]. apply absorb_words; [intros; apply SHA1_processBlock_words|].
  repeat constructor; lia.
Qed.

Lemma SHA1_fed_clear h msg : SHA1_fed h msg -> SHA1_fed (SHA1_clear h) [].
Proof. intros [_ Hb]. split; [done|]. apply buffered_nil; [lia|apply Hb]. Qed.

Lemma SHA1_getHash_whole h msg n :
  SHA1_fed h msg -> (SHA1_HASH_SIZE <= n)%nat -> SHA1_getHash h n = SHA1_digest msg.
Proof.
  intros Hf Hn. rewrite SHA1_getHash_digest with (msg := msg) by done.
  apply take_ge. by rewrite SHA1_digest_length.
Qed.

#[export] Instance SHA1_laws : HashLaws SHA1 := {
  digest := SHA1_digest;
  fed := SHA1_fed;
  fed_clear := SHA1_fed_clear;
  fed_add := SHA1_fed_add;
  getHash_digest := SHA1_getHash_whole;
  digest_length := SHA1_digest_length;
  getHashSize_pos := ltac:(cbn; unfold SHA1_HASH_SIZE; lia);
}.
