(* ===== verification/Sha2.v ===== *)
(** * SHA-2

    src/afl/checksums/sha2core.hpp, sha2core.cpp and sha224.cpp, sha256.cpp,
    sha384.cpp, sha512.cpp.  [SHA2Core<T>] is a record parameterised, like the
    template, by the traits [T]; SHA2_32 and SHA2_64 are the two traits values.
    The four hash classes meet the contract of the hash interface, with the
    padding of RFC 6234. *)

From Stdlib Require Import ZArith Lia Bool String.
From stdpp Require Import base tactics numbers option list.
From S2P Require Import Prelude Bits Pack Hash Md5Sha1.

Local Open Scope Z_scope.

#[local] Notation "x @ i" := (nth i%nat x 0) (at level 9, i at level 9).

(** ** Traits *)

Record SHA2Traits := {
  word_bits : Z;
  desc : Descriptor;                  (* packs and unpacks one word *)
  ch : Z -> Z -> Z -> Z;
  maj : Z -> Z -> Z -> Z;
  bsig0 : Z -> Z;
  bsig1 : Z -> Z;
  ssig0 : Z -> Z;
  ssig1 : Z -> Z;
  unpack : list Z -> list Z;
  pack_length : Z -> Z -> list Z;     (* low and high half of the bit count *)
  ks : list Z;
  ITERATIONS : nat;
  block_size : nat;                   (* sizeof(Block_t) *)
  length_size : nat;                  (* sizeof(len_bits) *)
}.

(** Row by row, as in the source. *)
Definition ks_32 : list Z :=
  concat [
    [0x428A2F98; 0x71374491; 0xB5C0FBCF; 0xE9B5DBA5];
    [0x3956C25B; 0x59F111F1; 0x923F82A4; 0xAB1C5ED5];
    [0xD807AA98; 0x12835B01; 0x243185BE; 0x550C7DC3];
    [0x72BE5D74; 0x80DEB1FE; 0x9BDC06A7; 0xC19BF174];
    [0xE49B69C1; 0xEFBE4786; 0x0FC19DC6; 0x240CA1CC];
    [0x2DE92C6F; 0x4A7484AA; 0x5CB0A9DC; 0x76F988DA];
    [0x983E5152; 0xA831C66D; 0xB00327C8; 0xBF597FC7];
    [0xC6E00BF3; 0xD5A79147; 0x06CA6351; 0x14292967];
    [0x27B70A85; 0x2E1B2138; 0x4D2C6DFC; 0x53380D13];
    [0x650A7354; 0x766A0ABB; 0x81C2C92E; 0x92722C85];
    [0xA2BFE8A1; 0xA81A664B; 0xC24B8B70; 0xC76C51A3];
    [0xD192E819; 0xD6990624; 0xF40E3585; 0x106AA070];
    [0x19A4C116; 0x1E376C08; 0x2748774C; 0x34B0BCB5];
    [0x391C0CB3; 0x4ED8AA4A; 0x5B9CCA4F; 0x682E6FF3];
    [0x748F82EE; 0x78A5636F; 0x84C87814; 0x8CC70208];
    [0x90BEFFFA; 0xA4506CEB; 0xBEF9A3F7; 0xC67178F2] ].

(** Row by row, as in the source. *)
Definition ks_64 : list Z :=
  concat [
    [0x428A2F98D728AE22; 0x7137449123EF65CD; 0xB5C0FBCFEC4D3B2F; 0xE9B5DBA58189DBBC];
    [0x3956C25BF348B538; 0x59F111F1B605D019; 0x923F82A4AF194F9B; 0xAB1C5ED5DA6D8118];
    [0xD807AA98A3030242; 0x12835B0145706FBE; 0x243185BE4EE4B28C; 0x550C7DC3D5FFB4E2];
    [0x72BE5D74F27B896F; 0x80DEB1FE3B1696B1; 0x9BDC06A725C71235; 0xC19BF174CF692694];
    [0xE49B69C19EF14AD2; 0xEFBE4786384F25E3; 0x0FC19DC68B8CD5B5; 0x240CA1CC77AC9C65];
    [0x2DE92C6F592B0275; 0x4A7484AA6EA6E483; 0x5CB0A9DCBD41FBD4; 0x76F988DA831153B5];
    [0x983E5152EE66DFAB; 0xA831C66D2DB43210; 0xB00327C898FB213F; 0xBF597FC7BEEF0EE4];
    [0xC6E00BF33DA88FC2; 0xD5A79147930AA725; 0x06CA6351E003826F; 0x142929670A0E6E70];
    [0x27B70A8546D22FFC; 0x2E1B21385C26C926; 0x4D2C6DFC5AC42AED; 0x53380D139D95B3DF];
    [0x650A73548BAF63DE; 0x766A0ABB3C77B2A8; 0x81C2C92E47EDAEE6; 0x92722C851482353B];
    [0xA2BFE8A14CF10364; 0xA81A664BBC423001; 0xC24B8B70D0F89791; 0xC76C51A30654BE30];
    [0xD192E819D6EF5218; 0xD69906245565A910; 0xF40E35855771202A; 0x106AA07032BBD1B8];
    [0x19A4C116B8D2D0C8; 0x1E376C085141AB53; 0x2748774CDF8EEB99; 0x34B0BCB5E19B48A8];
    [0x391C0CB3C5C95A63; 0x4ED8AA4AE3418ACB; 0x5B9CCA4F7763E373; 0x682E6FF3D6B2B8A3];
    [0x748F82EE5DEFB2FC; 0x78A5636F43172F60; 0x84C87814A1F0AB72; 0x8CC702081A6439EC];
    [0x90BEFFFA23631E28; 0xA4506CEBDE82BDE9; 0xBEF9A3F7B2C67915; 0xC67178F2E372532B];
    [0xCA273ECEEA26619C; 0xD186B8C721C0C207; 0xEADA7DD6CDE0EB1E; 0xF57D4F7FEE6ED178];
    [0x06F067AA72176FBA; 0x0A637DC5A2C898A6; 0x113F9804BEF90DAE; 0x1B710B35131C471B];
    [0x28DB77F523047D84; 0x32CAAB7B40C72493; 0x3C9EBE0A15C9BEBC; 0x431D67C49C100D4C];
    [0x4CC5D4BECB3E42B6; 0x597F299CFC657E2A; 0x5FCB6FAB3AD6FAEC; 0x6C44198C4A475817] ].

Definition SHA2_32 : SHA2Traits := {|
  word_bits := 32;
  desc := UInt32BE;
  ch x y z := Z.lxor (Z.land x y) (Z.land (unot 32 x) z);
  maj x y z := Z.lxor (Z.lxor (Z.land x y) (Z.land x z)) (Z.land y z);
  bsig0 x := Z.lxor (Z.lxor (rotateRight32 x 2) (rotateRight32 x 13)) (rotateRight32 x 22);
  bsig1 x := Z.lxor (Z.lxor (rotateRight32 x 6) (rotateRight32 x 11)) (rotateRight32 x 25);
  ssig0 x := Z.lxor (Z.lxor (rotateRight32 x 7) (rotateRight32 x 18)) (Z.shiftr x 3);
  ssig1 x := Z.lxor (Z.lxor (rotateRight32 x 17) (rotateRight32 x 19)) (Z.shiftr x 10);
  unpack inp := unpackArray UInt32BE 16 inp 0;
  pack_length lo hi := UInt64BE_pack lo;
  ks := ks_32;
  ITERATIONS := 64;
  block_size := 64;
  length_size := 8;
|}.

Definition SHA2_64 : SHA2Traits := {|
  word_bits := 64;
  desc := UInt64BE;
  ch x y z := Z.lxor (Z.land x y) (Z.land (unot 64 x) z);
  maj x y z := Z.lxor (Z.lxor (Z.land x y) (Z.land x z)) (Z.land y z);
  bsig0 x := Z.lxor (Z.lxor (rotateRight64 x 28) (rotateRight64 x 34)) (rotateRight64 x 39);
  bsig1 x := Z.lxor (Z.lxor (rotateRight64 x 14) (rotateRight64 x 18)) (rotateRight64 x 41);
  ssig0 x := Z.lxor (Z.lxor (rotateRight64 x 1) (rotateRight64 x 8)) (Z.shiftr x 7);
  ssig1 x := Z.lxor (Z.lxor (rotateRight64 x 19) (rotateRight64 x 61)) (Z.shiftr x 6);
  unpack inp := unpackArray UInt64BE 16 inp 0;
  pack_length lo hi := UInt64BE_pack hi ++ UInt64BE_pack lo;
  ks := ks_64;
  ITERATIONS := 80;
  block_size := 128;
  length_size := 16;
|}.

(** ** SHA2Core *)

Record SHA2Core := mkSHA2Core {
  m_hs : list Z;
  m_counterLo : Z;
  m_counterHi : Z;
  m_fill : nat;
  m_block : list Z;
}.

Section Core.
Context (T : SHA2Traits).

Definition word (x : Z) : Z := wrap (word_bits T) x.

(** Message schedule, [n] words to go. *)
Fixpoint SHA2_schedule (n : nat) (ws : list Z) : list Z :=
  match n with
  | O => ws
  | S n' =>
      let t := length ws in
      SHA2_schedule n'
        (ws ++ [word (ssig1 T (ws@(t - 2)) + ws@(t - 7) + ssig0 T (ws@(t - 15)) + ws@(t - 16))])
  end.

(** Main computation over the pairs (ks[t], ws[t]). *)
Fixpoint SHA2_loop (kws : list (Z * Z)) (regs : Z * Z * Z * Z * Z * Z * Z * Z) : Z * Z * Z * Z * Z * Z * Z * Z :=
  match kws with
  | [] => regs
  | (k, w) :: kws' =>
      let '(a, b, c, d, e, f, g, h) := regs in
      let T1 := word (h + bsig1 T e + ch T e f g + k + w) in
      let T2 := word (bsig0 T a + maj T a b c) in
      SHA2_loop kws' (word (T1 + T2), a, b, c, word (d + T1), e, f, g)
  end.

Definition SHA2_block (hs ms : list Z) : list Z :=
  let ws := SHA2_schedule (ITERATIONS T - 16) (take 16 ms) in
  let '(a, b, c, d, e, f, g, h) :=
    SHA2_loop (zip (ks T) ws) (hs@0, hs@1, hs@2, hs@3, hs@4, hs@5, hs@6, hs@7) in
  [word (hs@0 + a); word (hs@1 + b); word (hs@2 + c); word (hs@3 + d);
   word (hs@4 + e); word (hs@5 + f); word (hs@6 + g); word (hs@7 + h)].

Definition SHA2_init (init : list Z) (c : SHA2Core) : SHA2Core :=
  mkSHA2Core init 0 0 0 (m_block c).

(** [while (size > 0)], with the size as fuel: every iteration takes at least
    one byte. *)
Fixpoint SHA2_add_loop (fuel : nat) (c : SHA2Core) (buf : list Z) : SHA2Core :=
  match fuel with
  | O => c
  | S fuel' =>
      if (length buf =? 0)%nat then c else
      let avail := (block_size T - m_fill c)%nat in
      let now := Nat.min (length buf) avail in
      let block := copy_at (m_block c) (m_fill c) (take now buf) in
      let fill := (m_fill c + now)%nat in
      let lo := u64 (m_counterLo c + 8 * Z.of_nat now) in
      let hi := if lo <? 8 * Z.of_nat now then u64 (m_counterHi c + 1) else m_counterHi c in
      let c' :=
        if (block_size T <=? fill)%nat
        then mkSHA2Core (SHA2_block (m_hs c) (unpack T block)) lo hi 0 block
        else mkSHA2Core (m_hs c) lo hi fill block in
      SHA2_add_loop fuel' c' (drop now buf)
  end.

Definition SHA2_add (c : SHA2Core) (buf : list Z) : SHA2Core := SHA2_add_loop (length buf) c buf.

(** [while (m_fill != sizeof(m_block)-sizeof(len_bits)) add(&zero, 1);]; a
    block's size is enough fuel. *)
Fixpoint SHA2_pad_loop (fuel : nat) (c : SHA2Core) : SHA2Core :=
  match fuel with
  | O => c
  | S fuel' =>
      if (m_fill c =? block_size T - length_size T)%nat then c
      else SHA2_pad_loop fuel' (SHA2_add c [0])
  end.

Definition SHA2_pad (c : SHA2Core) : SHA2Core :=
  let len := m_counterLo c in
  let len_hi := m_counterHi c in
  let c := SHA2_add c [0x80] in
  let c := SHA2_pad_loop (block_size T) c in
  SHA2_add c (pack_length T len len_hi).
End Core.

(** ** SHA-224 *)

Definition INIT_224 : list Z :=
  [ 0xc1059ed8; 0x367cd507; 0x3070dd17; 0xf70e5939;
    0xffc00b31; 0x68581511; 0x64f98fa7; 0xbefa4fa4 ].

Definition SHA224_HASH_SIZE : nat := 28.

Record SHA224 := mkSHA224 { sha224_state : SHA2Core }.

Definition SHA224_clear (h : SHA224) : SHA224 := mkSHA224 (SHA2_init INIT_224 (sha224_state h)).

Definition SHA224_new (junk : list Z) : SHA224 := SHA224_clear (mkSHA224 (mkSHA2Core [] 0 0 0 junk)).

Definition SHA224_add (h : SHA224) (data : list Z) : SHA224 := mkSHA224 (SHA2_add SHA2_32 (sha224_state h) data).

Definition SHA224_getHash (h : SHA224) (n : nat) : list Z :=
  let copy := SHA2_pad SHA2_32 (sha224_state h) in
  packArray UInt32BE (Nat.min n SHA224_HASH_SIZE) (m_hs copy).

#[export] Instance SHA224_hash : Hash SHA224 := {
  clear := SHA224_clear;
  add := SHA224_add;
  getHashSize := SHA224_HASH_SIZE;
  getBlockSize := block_size SHA2_32;
  getHash := SHA224_getHash;
}.

(** ** SHA-256 *)

Definition INIT_256 : list Z :=
  [ 0x6a09e667; 0xbb67ae85; 0x3c6ef372; 0xa54ff53a;
    0x510e527f; 0x9b05688c; 0x1f83d9ab; 0x5be0cd19 ].

Definition SHA256_HASH_SIZE : nat := 32.

Record SHA256 := mkSHA256 { sha256_state : SHA2Core }.

Definition SHA256_clear (h : SHA256) : SHA256 := mkSHA256 (SHA2_init INIT_256 (sha256_state h)).

Definition SHA256_new (junk : list Z) : SHA256 := SHA256_clear (mkSHA256 (mkSHA2Core [] 0 0 0 junk)).

Definition SHA256_add (h : SHA256) (data : list Z) : SHA256 := mkSHA256 (SHA2_add SHA2_32 (sha256_state h) data).

Definition SHA256_getHash (h : SHA256) (n : nat) : list Z :=
  let copy := SHA2_pad SHA2_32 (sha256_state h) in
  packArray UInt32BE (Nat.min n SHA256_HASH_SIZE) (m_hs copy).

#[export] Instance SHA256_hash : Hash SHA256 := {
  clear := SHA256_clear;
  add := SHA256_add;
  getHashSize := SHA256_HASH_SIZE;
  getBlockSize := block_size SHA2_32;
  getHash := SHA256_getHash;
}.

(** ** SHA-384 *)

Definition INIT_384 : list Z :=
  [ 0xcbbb9d5dc1059ed8; 0x629a292a367cd507; 0x9159015a3070dd17; 0x152fecd8f70e5939;
    0x67332667ffc00b31; 0x8eb44a8768581511; 0xdb0c2e0d64f98fa7; 0x47b5481dbefa4fa4 ].

Definition SHA384_HASH_SIZE : nat := 48.

Record SHA384 := mkSHA384 { sha384_state : SHA2Core }.

Definition SHA384_clear (h : SHA384) : SHA384 := mkSHA384 (SHA2_init INIT_384 (sha384_state h)).

Definition SHA384_new (junk : list Z) : SHA384 := SHA384_clear (mkSHA384 (mkSHA2Core [] 0 0 0 junk)).

Definition SHA384_add (h : SHA384) (data : list Z) : SHA384 := mkSHA384 (SHA2_add SHA2_64 (sha384_state h) data).

Definition SHA384_getHash (h : SHA384) (n : nat) : list Z :=
  let copy := SHA2_pad SHA2_64 (sha384_state h) in
  packArray UInt64BE (Nat.min n SHA384_HASH_SIZE) (m_hs copy).

#[export] Instance SHA384_hash : Hash SHA384 := {
  clear := SHA384_clear;
  add := SHA384_add;
  getHashSize := SHA384_HASH_SIZE;
  getBlockSize := block_size SHA2_64;
  getHash := SHA384_getHash;
}.

(** ** SHA-512 *)

Definition INIT_512 : list Z :=
  [ 0x6a09e667f3bcc908; 0xbb67ae8584caa73b; 0x3c6ef372fe94f82b; 0xa54ff53a5f1d36f1;
    0x510e527fade682d1; 0x9b05688c2b3e6c1f; 0x1f83d9abfb41bd6b; 0x5be0cd19137e2179 ].

Definition SHA512_HASH_SIZE : nat := 64.

Record SHA512 := mkSHA512 { sha512_state : SHA2Core }.

Definition SHA512_clear (h : SHA512) : SHA512 := mkSHA512 (SHA2_init INIT_512 (sha512_state h)).

Definition SHA512_new (junk : list Z) : SHA512 := SHA512_clear (mkSHA512 (mkSHA2Core [] 0 0 0 junk)).

Definition SHA512_add (h : SHA512) (data : list Z) : SHA512 := mkSHA512 (SHA2_add SHA2_64 (sha512_state h) data).

Definition SHA512_getHash (h : SHA512) (n : nat) : list Z :=
  let copy := SHA2_pad SHA2_64 (sha512_state h) in
  packArray UInt64BE (Nat.min n SHA512_HASH_SIZE) (m_hs copy).

#[export] Instance SHA512_hash : Hash SHA512 := {
  clear := SHA512_clear;
  add := SHA512_add;
  getHashSize := SHA512_HASH_SIZE;
  getBlockSize := block_size SHA2_64;
  getHash := SHA512_getHash;
}.

(** "abc" *)
Example SHA256_abc : SHA256_getHash (SHA256_add (SHA256_new (replicate 64 9)) [97; 98; 99]) 4
  = [0xba; 0x78; 0x16; 0xbf].
Proof. vm_compute. reflexivity. Qed.

Example SHA512_abc : SHA512_getHash (SHA512_add (SHA512_new (replicate 128 9)) [97; 98; 99]) 8
  = [0xdd; 0xaf; 0x35; 0xa1; 0x93; 0x61; 0x7a; 0xba].
Proof. vm_compute. reflexivity. Qed.

Example SHA224_abc : SHA224_getHash (SHA224_add (SHA224_new (replicate 64 9)) [97; 98; 99]) 4
  = [0x23; 0x09; 0x7d; 0x22].
Proof. vm_compute. reflexivity. Qed.

Example SHA384_abc : SHA384_getHash (SHA384_add (SHA384_new (replicate 128 9)) [97; 98; 99]) 8
  = [0xcb; 0x00; 0x75; 0x3f; 0x45; 0xa3; 0x5e; 0x8b].
Proof. vm_compute. reflexivity. Qed.

(** ** Lemmas *)

Section CoreProps.
Context (T : SHA2Traits) (INIT : list Z).
Context (Hbs : (0 < length_size T < block_size T)%nat /\ (block_size T <= 1024)%nat).

Definition compress (hs block : list Z) : list Z := SHA2_block T hs (unpack T block).

(** A core that has been fed [msg]; the counters are the 128-bit bit count. *)
Definition SHA2_fed (c : SHA2Core) (msg : list Z) : Prop :=
  m_counterLo c = u64 (8 * Z.of_nat (length msg)) /\
  m_counterHi c = u64 (8 * Z.of_nat (length msg) / 2 ^ 64) /\
  m_fill c = (length msg mod block_size T)%nat /\
  buffered (block_size T) compress INIT msg (m_hs c) (m_block c).

Lemma SHA2_init_fed c : length (m_block c) = block_size T -> SHA2_fed (SHA2_init INIT c) [].
Proof.
  intros Hb. unfold SHA2_fed. cbn [SHA2_init m_counterLo m_counterHi m_fill m_block m_hs length].
  rewrite Nat.Div0.mod_0_l. split_and!; try done. apply buffered_nil; [lia|done].
Qed.

(** The carry into the high counter. *)
Lemma counter_step l now :
  0 <= l -> 0 <= now < 2 ^ 64 ->
  u64 (u64 l + now) = u64 (l + now) /\
  (if u64 (u64 l + now) <? now then u64 (u64 (l / 2 ^ 64) + 1) else u64 (l / 2 ^ 64)) = u64 ((l + now) / 2 ^ 64).
Proof.
  intros Hl Hnow. unfold u64. rewrite !wrap_add_l. split; [done|].
  pose proof (Z.div_mod l (2 ^ 64) ltac:(lia)) as Hdm.
  pose proof (Z.mod_pos_bound l (2 ^ 64) ltac:(lia)) as Hm.
  set (q := l / 2 ^ 64) in *. set (r := l mod 2 ^ 64) in *.
  assert (wrap 64 (l + now) = if r + now <? 2 ^ 64 then r + now else r + now - 2 ^ 64) as ->.
  { unfold wrap. destruct (Z.ltb_spec (r + now) (2 ^ 64)); symmetry.
    - apply (Z.mod_unique _ _ q); lia.
    - apply (Z.mod_unique _ _ (q + 1)); lia. }
  destruct (Z.ltb_spec (r + now) (2 ^ 64)).
  - destruct (Z.ltb_spec (r + now) now); [lia|]. f_equal. apply (Z.div_unique _ _ _ (r + now)); lia.
  - destruct (Z.ltb_spec (r + now - 2 ^ 64) now); [|lia]. f_equal.
    apply (Z.div_unique _ _ _ (r + now - 2 ^ 64)); lia.
Qed.

(** One iteration: [now] bytes are taken, filling the block at most. *)
Lemma SHA2_add_step c msg buf :
  SHA2_fed c msg -> buf <> [] ->
  exists now c', (0 < now <= length buf)%nat /\ SHA2_fed c' (msg ++ take now buf) /\
    forall fuel, SHA2_add_loop T (S fuel) c buf = SHA2_add_loop T fuel c' (drop now buf).
Proof.
  intros (Hlo & Hhi & Hfill & Hb) Hne.
  pose proof (Nat.mod_upper_bound (length msg) (block_size T) ltac:(lia)) as Hi.
  assert (0 < length buf)%nat as Hl by (destruct buf; simpl; [done|lia]).
  set (now := Nat.min (length buf) (block_size T - m_fill c)).
  assert (length (take now buf) = now) as Ht by (rewrite length_take; lia).
  exists now. eexists. split; [lia|]. split; [|intros fuel; cbn [SHA2_add_loop];
    rewrite (proj2 (Nat.eqb_neq _ _)) by lia; reflexivity].
  fold now.
  destruct (counter_step (8 * Z.of_nat (length msg)) (8 * Z.of_nat now)) as [Ec Eh]; [lia|lia|].
  replace (8 * Z.of_nat (length msg) + 8 * Z.of_nat now)
    with (8 * Z.of_nat (length (msg ++ take now buf))) in Ec, Eh by (rewrite length_app; lia).
  rewrite Hlo, Hhi, Hfill in *. destruct (Nat.leb_spec (block_size T) (length msg mod block_size T + now)) as [Hfull|Hpart].
  - assert (now = block_size T - length msg mod block_size T)%nat as Hnow by lia.
    destruct (buffered_complete (block_size T) ltac:(lia) _ _ _ _ _ (take now buf) Hb ltac:(lia)) as [Hl' Habs].
    rewrite <- Hnow, take_take, Nat.min_id in Hl'.
    rewrite <- Hnow, take_take, Nat.min_id, drop_ge in Habs by lia.
    rewrite (absorb_short (block_size T) ltac:(lia) _ _ []) in Habs by (simpl; lia).
    assert (length (msg ++ take now buf) mod block_size T = 0)%nat as Hmod.
    { pose proof (absorb_rest (block_size T) ltac:(lia) compress INIT (msg ++ take now buf)) as Hr.
      rewrite Habs in Hr. done. }
    split_and!; cbn [m_counterLo m_counterHi m_fill m_hs m_block]; [done|done|by rewrite Hmod|].
    split; [done|]. rewrite Habs, Hmod, take_0. done.
  - split_and!; cbn [m_counterLo m_counterHi m_fill m_hs m_block]; [done|done| |].
    + rewrite length_app, Ht, Nat.Div0.add_mod, (Nat.mod_small now) by lia. symmetry. by apply Nat.mod_small.
    + apply buffered_partial; [lia|done|lia].
Qed.

Lemma SHA2_add_loop_fed fuel c msg buf :
  (length buf <= fuel)%nat -> SHA2_fed c msg -> SHA2_fed (SHA2_add_loop T fuel c buf) (msg ++ buf).
Proof.
  revert c msg buf. induction fuel as [|fuel IH]; intros c msg buf Hf Hc.
  - destruct buf; [|simpl in Hf; lia]. by rewrite app_nil_r.
  - destruct (decide (buf = [])) as [->|Hne]; [by rewrite app_nil_r|].
    destruct (SHA2_add_step c msg buf Hc Hne) as (now & c' & Hnow & Hc' & ->).
    rewrite <- (take_drop now buf) at 2. rewrite app_assoc. apply IH; [rewrite length_drop; lia|done].
Qed.

Lemma SHA2_add_fed c msg buf : SHA2_fed c msg -> SHA2_fed (SHA2_add T c buf) (msg ++ buf).
Proof. by apply SHA2_add_loop_fed. Qed.

(** The padding loop ends with the room for the length left, after the number
    of zeros that the fill level asks for. *)
Lemma SHA2_pad_loop_fed fuel c msg :
  SHA2_fed c msg ->
  let target := (block_size T - length_size T)%nat in
  let zeros := (if m_fill c <=? target then target - m_fill c else block_size T + target - m_fill c)%nat in
  (zeros <= fuel)%nat -> SHA2_fed (SHA2_pad_loop T fuel c) (msg ++ replicate zeros 0).
Proof.
  revert c msg. induction fuel as [|fuel IH]; intros c msg Hc target zeros Hz.
  - assert (zeros = 0)%nat as -> by lia. by rewrite app_nil_r.
  - cbn [SHA2_pad_loop]. fold target. pose proof Hc as (_ & _ & Hfill & _).
    pose proof (Nat.mod_upper_bound (length msg) (block_size T) ltac:(lia)) as Hi.
    destruct (Nat.eqb_spec (m_fill c) target) as [E|E].
    + assert (zeros = 0)%nat as -> by (subst zeros; destruct (Nat.leb_spec (m_fill c) target); lia).
      by rewrite app_nil_r.
    + pose proof (SHA2_add_fed c msg [0] Hc) as Hc'. pose proof Hc' as (_ & _ & Hfill' & _).
      assert (m_fill (SHA2_add T c [0%Z]) = if S (m_fill c) =? block_size T then 0 else S (m_fill c))%nat as Hn.
      { rewrite Hfill', Hfill, length_app, Nat.Div0.add_mod. cbn [length].
        destruct (Nat.eqb_spec (S (length msg mod block_size T)) (block_size T)) as [Ee|Ee].
        - destruct (decide (block_size T = 1)%nat) as [E1|]; [rewrite E1 in *; apply Nat.mod_1_r|].
          rewrite (Nat.mod_small 1) by lia. replace (_ + 1)%nat with (block_size T) by lia. apply Nat.Div0.mod_same.
        - rewrite (Nat.mod_small 1), Nat.mod_small by lia. lia. }
      assert (zeros = S (zeros - 1))%nat as Hzs.
      { subst zeros. destruct (Nat.leb_spec (m_fill c) target); lia. }
      rewrite Hzs. cbn [replicate]. rewrite cons_middle, app_assoc.
      specialize (IH _ _ Hc'). cbv zeta in IH. fold target in IH.
      assert ((if m_fill (SHA2_add T c [0%Z]) <=? target then target - m_fill (SHA2_add T c [0%Z])
         else block_size T + target - m_fill (SHA2_add T c [0%Z])) = zeros - 1)%nat as Hz'.
      { rewrite Hn. assert (0 < target < block_size T)%nat by lia. subst zeros. clearbody target.
        destruct (Nat.eqb_spec (S (m_fill c)) (block_size T));
          repeat match goal with |- context [ (?x <=? ?y)%nat ] => destruct (Nat.leb_spec x y) end; lia. }
      rewrite Hz' in IH. apply IH. lia.
Qed.

(** RFC 6234. *)
Definition SHA2_padded (msg : list Z) : list Z :=
  let bits := 8 * Z.of_nat (length msg) in
  msg ++ md_padding (block_size T) (length_size T) (length msg)
      ++ pack_length T (u64 bits) (u64 (bits / 2 ^ 64)).

Definition SHA2_final (msg : list Z) : list Z := (absorb (block_size T) compress INIT (SHA2_padded msg)).1.

Lemma SHA2_pad_final c msg : SHA2_fed c msg -> m_hs (SHA2_pad T c) = SHA2_final msg.
Proof.
  intros Hc. pose proof Hc as (Hlo & Hhi & Hfill & _). unfold SHA2_pad, SHA2_final, SHA2_padded.
  pose proof (SHA2_add_fed c msg [0x80] Hc) as H1. pose proof H1 as (_ & _ & Hfill1 & _).
  pose proof (Nat.mod_upper_bound (length msg) (block_size T) ltac:(lia)) as Hi.
  pose proof (Nat.mod_upper_bound (length (msg ++ [0x80])) (block_size T) ltac:(lia)) as Hi1.
  pose proof (SHA2_pad_loop_fed (block_size T) _ _ H1) as H2. cbv zeta in H2.
  rewrite Hfill1 in H2. rewrite Hlo, Hhi.
  assert (Hz : forall i', i' = (length (msg ++ [0x80%Z]) mod block_size T)%nat ->
    (if i' <=? block_size T - length_size T then block_size T - length_size T - i'
     else block_size T + (block_size T - length_size T) - i')%nat
    = pad_zeros (block_size T) (length_size T) (length msg)).
  { intros i' ->. rewrite pad_zeros_index by lia. rewrite length_app. cbn [length].
    rewrite Nat.Div0.add_mod.
    destruct (decide (block_size T = 1)%nat) as [E1|]; [rewrite E1 in *; lia|].
    rewrite (Nat.mod_small 1) by lia. set (i := (length msg mod block_size T)%nat) in *.
    destruct (decide (i + 1 = block_size T)%nat) as [E|E].
    - rewrite E, Nat.Div0.mod_same. destruct (Nat.ltb_spec i (block_size T - length_size T)); simpl; lia.
    - rewrite Nat.mod_small by lia.
      destruct (Nat.ltb_spec i (block_size T - length_size T)), (Nat.leb_spec (i + 1) (block_size T - length_size T)); lia. }
  rewrite (Hz _ eq_refl) in H2.
  assert (pad_zeros (block_size T) (length_size T) (length msg) <= block_size T)%nat as Hpz.
  { rewrite pad_zeros_index by lia. destruct (Nat.ltb_spec (length msg mod block_size T) (block_size T - length_size T)); lia. }
  specialize (H2 Hpz).
  destruct (SHA2_add_fed _ _ (pack_length T (u64 (8 * Z.of_nat (length msg))) (u64 (8 * Z.of_nat (length msg) / 2 ^ 64))) H2)
    as (_ & _ & _ & _ & E).
  unfold md_padding. rewrite <- !app_assoc in E. cbn [app] in E |- *. rewrite E. done.
Qed.
End CoreProps.

Lemma SHA2_block_words T hs ms : 0 <= word_bits T -> Forall (in_u (word_bits T)) (SHA2_block T hs ms).
Proof.
  intros Hw. unfold SHA2_block. destruct (SHA2_loop _ _ _) as [[[[[[[a b] c] d] e] f] g] h].
  repeat constructor; by apply in_u_wrap.
Qed.

Lemma SHA2_final_words T INIT msg :
  0 <= word_bits T -> Forall (in_u (word_bits T)) INIT -> Forall (in_u (word_bits T)) (SHA2_final T INIT msg).
Proof.
  intros Hw Hi. unfold SHA2_final.
  apply (absorb_words _ _ (Forall (in_u (word_bits T)))); [|done]. intros. by apply SHA2_block_words.
Qed.

(** *** SHA-224 *)

Definition SHA224_digest (msg : list Z) : list Z :=
  packArray UInt32BE SHA224_HASH_SIZE (SHA2_final SHA2_32 INIT_224 msg).

Definition SHA224_fed (h : SHA224) (msg : list Z) : Prop := SHA2_fed SHA2_32 INIT_224 (sha224_state h) msg.

Lemma SHA224_fed_add h msg data : SHA224_fed h msg -> SHA224_fed (SHA224_add h data) (msg ++ data).
Proof. apply SHA2_add_fed; simpl; lia. Qed.

Lemma SHA224_fed_clear h msg : SHA224_fed h msg -> SHA224_fed (SHA224_clear h) [].
Proof. intros (_ & _ & _ & Hb & _). apply SHA2_init_fed; [simpl; lia|exact Hb]. Qed.

Lemma SHA224_new_fed junk : length junk = block_size SHA2_32 -> SHA224_fed (SHA224_new junk) [].
Proof. intros Hj. apply SHA2_init_fed; [simpl; lia|done]. Qed.

Lemma SHA224_getHash_digest h msg n :
  SHA224_fed h msg -> (SHA224_HASH_SIZE <= n)%nat -> SHA224_getHash h n = SHA224_digest msg.
Proof.
  intros Hf Hn. unfold SHA224_getHash, SHA224_digest. rewrite Nat.min_r by done.
  by rewrite (SHA2_pad_final SHA2_32 INIT_224 ltac:(simpl; lia) _ msg Hf).
Qed.

Lemma SHA224_digest_length msg : length (SHA224_digest msg) = SHA224_HASH_SIZE.
Proof.
  apply packed_length_words; [apply _|]. apply (SHA2_final_words SHA2_32); [simpl; lia|].
  repeat constructor; simpl; lia.
Qed.

#[export] Instance SHA224_laws : HashLaws SHA224 := {
  digest := SHA224_digest;
  fed := SHA224_fed;
  fed_clear := SHA224_fed_clear;
  fed_add := SHA224_fed_add;
  getHash_digest := SHA224_getHash_digest;
  digest_length := SHA224_digest_length;
  getHashSize_pos := ltac:(cbn; unfold SHA224_HASH_SIZE; lia);
}.

(** *** SHA-256 *)

Definition SHA256_digest (msg : list Z) : list Z :=
  packArray UInt32BE SHA256_HASH_SIZE (SHA2_final SHA2_32 INIT_256 msg).

Definition SHA256_fed (h : SHA256) (msg : list Z) : Prop := SHA2_fed SHA2_32 INIT_256 (sha256_state h) msg.

Lemma SHA256_fed_add h msg data : SHA256_fed h msg -> SHA256_fed (SHA256_add h data) (msg ++ data).
Proof. apply SHA2_add_fed; simpl; lia. Qed.

Lemma SHA256_fed_clear h msg : SHA256_fed h msg -> SHA256_fed (SHA256_clear h) [].
Proof. intros (_ & _ & _ & Hb & _). apply SHA2_init_fed; [simpl; lia|exact Hb]. Qed.

Lemma SHA256_new_fed junk : length junk = block_size SHA2_32 -> SHA256_fed (SHA256_new junk) [].
Proof. intros Hj. apply SHA2_init_fed; [simpl; lia|done]. Qed.

Lemma SHA256_getHash_digest h msg n :
  SHA256_fed h msg -> (SHA256_HASH_SIZE <= n)%nat -> SHA256_getHash h n = SHA256_digest msg.
Proof.
  intros Hf Hn. unfold SHA256_getHash, SHA256_digest. rewrite Nat.min_r by done.
  by rewrite (SHA2_pad_final SHA2_32 INIT_256 ltac:(simpl; lia) _ msg Hf).
Qed.

Lemma SHA256_digest_length msg : length (SHA256_digest msg) = SHA256_HASH_SIZE.
Proof.
  apply packed_length_words; [apply _|]. apply (SHA2_final_words SHA2_32); [simpl; lia|].
  repeat constructor; simpl; lia.
Qed.

#[export] Instance SHA256_laws : HashLaws SHA256 := {
  digest := SHA256_digest;
  fed := SHA256_fed;
  fed_clear := SHA256_fed_clear;
  fed_add := SHA256_fed_add;
  getHash_digest := SHA256_getHash_digest;
  digest_length := SHA256_digest_length;
  getHashSize_pos := ltac:(cbn; unfold SHA256_HASH_SIZE; lia);
}.

(** *** SHA-384 *)

Definition SHA384_digest (msg : list Z) : list Z :=
  packArray UInt64BE SHA384_HASH_SIZE (SHA2_final SHA2_64 INIT_384 msg).

Definition SHA384_fed (h : SHA384) (msg : list Z) : Prop := SHA2_fed SHA2_64 INIT_384 (sha384_state h) msg.

Lemma SHA384_fed_add h msg data : SHA384_fed h msg -> SHA384_fed (SHA384_add h data) (msg ++ data).
Proof. apply SHA2_add_fed; simpl; lia. Qed.

Lemma SHA384_fed_clear h msg : SHA384_fed h msg -> SHA384_fed (SHA384_clear h) [].
Proof. intros (_ & _ & _ & Hb & _). apply SHA2_init_fed; [simpl; lia|exact Hb]. Qed.

Lemma SHA384_new_fed junk : length junk = block_size SHA2_64 -> SHA384_fed (SHA384_new junk) [].
Proof. intros Hj. apply SHA2_init_fed; [simpl; lia|done]. Qed.

Lemma SHA384_getHash_digest h msg n :
  SHA384_fed h msg -> (SHA384_HASH_SIZE <= n)%nat -> SHA384_getHash h n = SHA384_digest msg.
Proof.
  intros Hf Hn. unfold SHA384_getHash, SHA384_digest. rewrite Nat.min_r by done.
  by rewrite (SHA2_pad_final SHA2_64 INIT_384 ltac:(simpl; lia) _ msg Hf).
Qed.

Lemma SHA384_digest_length msg : length (SHA384_digest msg) = SHA384_HASH_SIZE.
Proof.
  apply packed_length_words; [apply _|]. apply (SHA2_final_words SHA2_64); [simpl; lia|].
  repeat constructor; simpl; lia.
Qed.

#[export] Instance SHA384_laws : HashLaws SHA384 := {
  digest := SHA384_digest;
  fed := SHA384_fed;
  fed_clear := SHA384_fed_clear;
  fed_add := SHA384_fed_add;
  getHash_digest := SHA384_getHash_digest;
  digest_length := SHA384_digest_length;
  getHashSize_pos := ltac:(cbn; unfold SHA384_HASH_SIZE; lia);
}.

(** *** SHA-512 *)

Definition SHA512_digest (msg : list Z) : list Z :=
  packArray UInt64BE SHA512_HASH_SIZE (SHA2_final SHA2_64 INIT_512 msg).

Definition SHA512_fed (h : SHA512) (msg : list Z) : Prop := SHA2_fed SHA2_64 INIT_512 (sha512_state h) msg.

Lemma SHA512_fed_add h msg data : SHA512_fed h msg -> SHA512_fed (SHA512_add h data) (msg ++ data).
Proof. apply SHA2_add_fed; simpl; lia. Qed.

Lemma SHA512_fed_clear h msg : SHA512_fed h msg -> SHA512_fed (SHA512_clear h) [].
Proof. intros (_ & _ & _ & Hb & _). apply SHA2_init_fed; [simpl; lia|exact Hb]. Qed.

Lemma SHA512_new_fed junk : length junk = block_size SHA2_64 -> SHA512_fed (SHA512_new junk) [].
Proof. intros Hj. apply SHA2_init_fed; [simpl; lia|done]. Qed.

Lemma SHA512_getHash_digest h msg n :
  SHA512_fed h msg -> (SHA512_HASH_SIZE <= n)%nat -> SHA512_getHash h n = SHA512_digest msg.
Proof.
  intros Hf Hn. unfold SHA512_getHash, SHA512_digest. rewrite Nat.min_r by done.
  by rewrite (SHA2_pad_final SHA2_64 INIT_512 ltac:(simpl; lia) _ msg Hf).
Qed.

Lemma SHA512_digest_length msg : length (SHA512_digest msg) = SHA512_HASH_SIZE.
Proof.
  apply packed_length_words; [apply _|]. apply (SHA2_final_words SHA2_64); [simpl; lia|].
  repeat constructor; simpl; lia.
Qed.

#[export] Instance SHA512_laws : HashLaws SHA512 := {
  digest := SHA512_digest;
  fed := SHA512_fed;
  fed_clear := SHA512_fed_clear;
  fed_add := SHA512_fed_add;
  getHash_digest := SHA512_getHash_digest;
  digest_length := SHA512_digest_length;
  getHashSize_pos := ltac:(cbn; unfold SHA512_HASH_SIZE; lia);
}.

(** ** Properties *)

(** Feeding the blocks of a message one by one to a new object. *)
Lemma fed_blocks {H} `{HashLaws H} h msg blocks : fed h msg -> fed (foldl add h blocks) (msg ++ concat blocks).
Proof.
  revert h msg. induction blocks as [|b blocks IH]; intros h msg Hf; simpl; [by rewrite app_nil_r|].
  rewrite app_assoc. by apply IH, fed_add.
Qed.

Lemma hash_blocks {H} `{HashLaws H} h blocks n :
  fed h [] -> (getHashSize (H := H) <= n)%nat -> getHash (foldl add h blocks) n = digest (concat blocks).
Proof. intros Hf Hn. apply getHash_digest; [|done]. apply (fed_blocks h []), Hf. Qed.

(** Hashing: for each of the six classes, whatever its uninitialised
    buffer held and however the message is split into add() calls, getHash()
    returns the digest of the whole message as the RFCs define it: the initial
    state run over the blocks of the padded message, packed in the byte order
    of the algorithm. *)
Lemma hashes_correct blocks junk64 junk128 n :
  length junk64 = 64%nat -> length junk128 = 128%nat -> (MAX_HASH_SIZE <= n)%nat ->
  let msg := concat blocks in
  getHash (foldl add (MD5_new junk64) blocks) n
    = packArray UInt32LE 16 (absorb 64 MD5_transform MD5_init_state (MD5_padded msg)).1 /\
  getHash (foldl add (SHA1_new junk64) blocks) n
    = packArray UInt32BE 20 (absorb 64 SHA1_processBlock SHA1_init_state (SHA1_padded msg)).1 /\
  getHash (foldl add (SHA224_new junk64) blocks) n
    = packArray UInt32BE 28 (absorb 64 (compress SHA2_32) INIT_224 (SHA2_padded SHA2_32 msg)).1 /\
  getHash (foldl add (SHA256_new junk64) blocks) n
    = packArray UInt32BE 32 (absorb 64 (compress SHA2_32) INIT_256 (SHA2_padded SHA2_32 msg)).1 /\
  getHash (foldl add (SHA384_new junk128) blocks) n
    = packArray UInt64BE 48 (absorb 128 (compress SHA2_64) INIT_384 (SHA2_padded SHA2_64 msg)).1 /\
  getHash (foldl add (SHA512_new junk128) blocks) n
    = packArray UInt64BE 64 (absorb 128 (compress SHA2_64) INIT_512 (SHA2_padded SHA2_64 msg)).1.
Proof.
  intros H64 H128 Hn msg. unfold MAX_HASH_SIZE in Hn.
  split; [|split; [|split; [|split; [|split]]]].
  - refine (hash_blocks (MD5_new junk64) blocks n _ _); [by apply MD5_new_fed|cbn; unfold MD5_HASH_SIZE; lia].
  - refine (hash_blocks (SHA1_new junk64) blocks n _ _); [by apply SHA1_new_fed|cbn; unfold SHA1_HASH_SIZE; lia].
  - refine (hash_blocks (SHA224_new junk64) blocks n _ _); [by apply SHA224_new_fed|cbn; unfold SHA224_HASH_SIZE; lia].
  - refine (hash_blocks (SHA256_new junk64) blocks n _ _); [by apply SHA256_new_fed|cbn; unfold SHA256_HASH_SIZE; lia].
  - refine (hash_blocks (SHA384_new junk128) blocks n _ _); [by apply SHA384_new_fed|cbn; unfold SHA384_HASH_SIZE; lia].
  - refine (hash_blocks (SHA512_new junk128) blocks n _ _); [by apply SHA512_new_fed|cbn; unfold SHA512_HASH_SIZE; lia].
Qed.

(** The length field of a padded message, and where it starts. *)
Lemma md_padded_inj bs lenSize (enc : nat -> list Z) m1 m2 :
  (0 < bs)%nat -> (forall l, length (enc l) = lenSize) ->
  (enc (length m1) = enc (length m2) -> length m1 = length m2) ->
  m1 ++ md_padding bs lenSize (length m1) ++ enc (length m1)
    = m2 ++ md_padding bs lenSize (length m2) ++ enc (length m2) -> m1 = m2.
Proof.
  intros Hbs Hl Hinj E. rewrite !app_assoc in E.
  apply app_inj_2 in E as [E1 E2]; [|by rewrite !Hl].
  specialize (Hinj E2). apply app_inj_1 in E1 as [-> _]; done.
Qed.

Lemma be64_inj a b : in_u 64 a -> in_u 64 b -> UInt64BE_pack a = UInt64BE_pack b -> a = b.
Proof.
  intros Ha Hb E. rewrite <- (unpack_pack (d := UInt64BE) a Ha), <- (unpack_pack (d := UInt64BE) b Hb).
  cbn [d_pack UInt64BE]. by rewrite E.
Qed.

Lemma le64_inj a b : in_u 64 a -> in_u 64 b -> UInt64LE_pack a = UInt64LE_pack b -> a = b.
Proof.
  intros Ha Hb E. rewrite <- (unpack_pack (d := UInt64LE) a Ha), <- (unpack_pack (d := UInt64LE) b Hb).
  cbn [d_pack UInt64LE]. by rewrite E.
Qed.

Lemma bit_count_inj l1 l2 :
  8 * Z.of_nat l1 < 2 ^ 64 -> 8 * Z.of_nat l2 < 2 ^ 64 ->
  u64 (8 * Z.of_nat l1) = u64 (8 * Z.of_nat l2) -> l1 = l2.
Proof. intros H1 H2. unfold u64. rewrite !wrap_small by lia. lia. Qed.

(** Padding: every padded message is a whole number of blocks, so that
    all of it enters the digest; it starts with the message; and different
    messages (of less than 2^64 bits) are padded differently, for MD5, SHA-1
    and both SHA-2 families. *)
Lemma padding_correct m1 m2 :
  8 * Z.of_nat (length m1) < 2 ^ 64 -> 8 * Z.of_nat (length m2) < 2 ^ 64 ->
  Forall (fun '(bs, padded) =>
      (length (padded m1) mod bs = 0)%nat /\ take (length m1) (padded m1) = m1 /\
      (padded m1 = padded m2 -> m1 = m2))
    [(64%nat, MD5_padded); (64%nat, SHA1_padded); (64%nat, SHA2_padded SHA2_32); (128%nat, SHA2_padded SHA2_64)].
Proof.
  intros H1 H2.
  assert (forall bs lenSize (enc : nat -> list Z), (0 < bs)%nat -> (forall l, length (enc l) = lenSize) ->
    (length (m1 ++ md_padding bs lenSize (length m1) ++ enc (length m1)) mod bs = 0)%nat /\
    take (length m1) (m1 ++ md_padding bs lenSize (length m1) ++ enc (length m1)) = m1) as Hgen.
  { intros bs lenSize enc Hbs Hl. split; [|apply take_app_length].
    rewrite !length_app, Hl. unfold md_padding. cbn [length]. rewrite length_replicate.
    rewrite <- (pad_zeros_aligned bs lenSize (length m1) Hbs). f_equal. lia. }
  assert (forall l, in_u 64 (u64 (8 * Z.of_nat l))) as Hr by (intros; apply in_u_wrap; lia).
  repeat constructor; try (apply (Hgen 64%nat 8%nat (fun l => UInt64LE_pack (u64 (8 * Z.of_nat l)))); [lia|done]);
    try (apply (Hgen 64%nat 8%nat (fun l => UInt64BE_pack (u64 (8 * Z.of_nat l)))); [lia|done]);
    try (apply (Hgen 128%nat 16%nat (fun l => UInt64BE_pack (u64 (8 * Z.of_nat l / 2 ^ 64)) ++ UInt64BE_pack (u64 (8 * Z.of_nat l)))); [lia|done]).
  - apply (md_padded_inj 64 8 (fun l => UInt64LE_pack (u64 (8 * Z.of_nat l)))); [lia|done|].
    intros E. apply le64_inj in E; [|done..]. by apply bit_count_inj.
  - apply (md_padded_inj 64 8 (fun l => UInt64BE_pack (u64 (8 * Z.of_nat l)))); [lia|done|].
    intros E. apply be64_inj in E; [|done..]. by apply bit_count_inj.
  - apply (md_padded_inj 64 8 (fun l => UInt64BE_pack (u64 (8 * Z.of_nat l)))); [lia|done|].
    intros E. apply be64_inj in E; [|done..]. by apply bit_count_inj.
  - apply (md_padded_inj 128 16 (fun l => UInt64BE_pack (u64 (8 * Z.of_nat l / 2 ^ 64)) ++ UInt64BE_pack (u64 (8 * Z.of_nat l)))); [lia|done|].
    intros E. apply app_inj_2 in E as [_ E]; [|done]. apply be64_inj in E; [|done..]. by apply bit_count_inj.
Qed.

(** C34. Hash functions.  For each of the six classes, whatever its uninitialised
    buffer held and however the message is split into add() calls, getHash()
    returns the digest of the whole message as the RFCs define it: the initial
    state run over the blocks of the padded message, packed in the byte order of
    the algorithm.  Every padded message is a whole number of blocks and starts
    with the message, and different messages (of less than 2^64 bits) are padded
    differently. *)
Theorem hash_functions_correct :
  (forall blocks junk64 junk128 n,
  length junk64 = 64%nat -> length junk128 = 128%nat -> (MAX_HASH_SIZE <= n)%nat ->
  let msg := concat blocks in
  getHash (foldl add (MD5_new junk64) blocks) n
    = packArray UInt32LE 16 (absorb 64 MD5_transform MD5_init_state (MD5_padded msg)).1 /\
  getHash (foldl add (SHA1_new junk64) blocks) n
    = packArray UInt32BE 20 (absorb 64 SHA1_processBlock SHA1_init_state (SHA1_padded msg)).1 /\
  getHash (foldl add (SHA224_new junk64) blocks) n
    = packArray UInt32BE 28 (absorb 64 (compress SHA2_32) INIT_224 (SHA2_padded SHA2_32 msg)).1 /\
  getHash (foldl add (SHA256_new junk64) blocks) n
    = packArray UInt32BE 32 (absorb 64 (compress SHA2_32) INIT_256 (SHA2_padded SHA2_32 msg)).1 /\
  getHash (foldl add (SHA384_new junk128) blocks) n
    = packArray UInt64BE 48 (absorb 128 (compress SHA2_64) INIT_384 (SHA2_padded SHA2_64 msg)).1 /\
  getHash (foldl add (SHA512_new junk128) blocks) n
    = packArray UInt64BE 64 (absorb 128 (compress SHA2_64) INIT_512 (SHA2_padded SHA2_64 msg)).1) /\
  (forall m1 m2,
  8 * Z.of_nat (length m1) < 2 ^ 64 -> 8 * Z.of_nat (length m2) < 2 ^ 64 ->
  Forall (fun '(bs, padded) =>
      (length (padded m1) mod bs = 0)%nat /\ take (length m1) (padded m1) = m1 /\
      (padded m1 = padded m2 -> m1 = m2))
    [(64%nat, MD5_padded); (64%nat, SHA1_padded); (64%nat, SHA2_padded SHA2_32); (128%nat, SHA2_padded SHA2_64)]).
Proof. exact (conj hashes_correct padding_correct). Qed.

Lemma hash_functions_correct_witness :
  getHash (foldl add (MD5_new (replicate 64 5)) [[97]; [98; 99]]) 64
    = [0x90; 0x01; 0x50; 0x98; 0x3c; 0xd2; 0x4f; 0xb0; 0xd6; 0x96; 0x3f; 0x7d; 0x28; 0xe1; 0x7f; 0x72] /\
  (length (SHA1_padded [1%Z; 2%Z]) mod 64 = 0)%nat.
Proof.
  destruct hash_functions_correct as [H1 H2]. split.
  - destruct (H1 [[97]; [98; 99]] (replicate 64 5) (replicate 128 5) 64%nat) as [H _];
      [reflexivity|reflexivity|unfold MAX_HASH_SIZE; lia|].
    rewrite H. vm_compute. reflexivity.
  - assert (8 * Z.of_nat (length [1; 2]) < 2 ^ 64) as Hl by (vm_compute; reflexivity).
    specialize (H2 [1; 2] [1; 3] Hl Hl). apply Forall_cons in H2 as [_ H2]. apply Forall_cons in H2 as [H2 _]. apply H2.
Defined.

(** ** HMAC and PBKDF2 at concrete hashes *)

(** RFC 2202 and RFC 6070, first test vectors *)
Lemma mac_functions_correct_witness :
  (exists h', computeHMAC (MD5_new (replicate 64 0)) (replicate 16 0x0b) [72; 105; 32; 84; 104; 101; 114; 101] = Ok h' /\
    getHash h' 16 = [0x92; 0x94; 0x72; 0x7a; 0x36; 0x38; 0xbb; 0x1c; 0x13; 0xf4; 0x8e; 0xf8; 0x15; 0x8b; 0xfc; 0x9d]) /\
  (exists h' out, computePBKDF2 (SHA1_new (replicate 64 0)) 20 [112; 97; 115; 115; 119; 111; 114; 100] [115; 97; 108; 116] 1 = Ok (h', out) /\
    out = [0x0c; 0x60; 0xc8; 0x0f; 0x96; 0x1f; 0x0e; 0x71; 0xf3; 0xa9; 0xb5; 0x24; 0xaf; 0x60; 0x12; 0x06; 0x2f; 0xe0; 0x37; 0xa6]).
Proof.
  split.
  - destruct (mac_functions_correct (H := MD5)) as [HM _].
    destruct (HM (MD5_new (replicate 64 0)) [] (replicate 16 0x0b) [72; 105; 32; 84; 104; 101; 114; 101] 16%nat)
      as [H _]; [apply MD5_new_fed; reflexivity|cbn; unfold MD5_HASH_SIZE; lia|].
    destruct H as (h' & E & _ & G & _); [split; cbn; unfold MAX_HASH_SIZE, MAX_BLOCK_SIZE, MD5_HASH_SIZE; lia|].
    exists h'. split; [exact E|]. rewrite G. vm_compute. reflexivity.
  - destruct (mac_functions_correct (H := SHA1)) as [_ HP].
    destruct (HP (SHA1_new (replicate 64 0)) [] 20%nat [112; 97; 115; 115; 119; 111; 114; 100] [115; 97; 108; 116] 1)
      as [H _]; [apply SHA1_new_fed; reflexivity|split; cbn; unfold MAX_HASH_SIZE, MAX_BLOCK_SIZE, SHA1_HASH_SIZE; lia|].
    destruct H as (h' & out & E & _ & G); [apply Nat.leb_le; reflexivity|vm_compute; congruence|].
    exists h', out. split; [exact E|]. rewrite G. vm_compute. reflexivity.
Defined.

(** With a buffer that ends within a word, the SHA-2 classes do not truncate
    the hash: packArray zero-fills the partial word. *)
Lemma SHA256_getHash_partial_word :
  getHash (SHA256_new (replicate 64 0)) 6 = [0xe3; 0xb0; 0xc4; 0x42; 0; 0] /\
  take 6 (SHA256_digest []) = [0xe3; 0xb0; 0xc4; 0x42; 0x98; 0xfc].
Proof. split; vm_compute; reflexivity. Qed.
