(* ===== verification/Utf8.v ===== *)
(** * UTF-8

    src/afl/charset/unicode.hpp (error characters), utf8.cpp, utf8.hpp,
    utf8reader.cpp, utf8reader.hpp.  A string is the list of its bytes; a
    [Utf8Reader] is its flags and the bytes not yet read.  The theorems: what is
    encoded is decoded again, whatever the flags; with error escapes every byte
    string survives decoding and encoding; positions and sub-strings follow the
    division of the text into runes. *)

From Stdlib Require Import ZArith Lia Bool.
From stdpp Require Import base tactics numbers option list.
From S2P Require Import Prelude.

Local Open Scope Z_scope.

(** ** Definitions *)

Definition UNICODE_MAX : Z := 0x10FFFF.
Definition UNICODE_HIGH_SURROGATE_MIN : Z := 0xD800.
Definition UNICODE_HIGH_SURROGATE_MAX : Z := 0xDBFF.
Definition UNICODE_LOW_SURROGATE_MIN : Z := 0xDC00.
Definition UNICODE_LOW_SURROGATE_MAX : Z := 0xDFFF.
Definition UNICODE_ERROR_MIN : Z := 0xEF80.
Definition UNICODE_ERROR_MAX : Z := 0xEFFF.

Definition makeErrorCharacter (id : Z) : Z := u32 (UNICODE_ERROR_MIN + u32 (id - 0x80)).
Definition isErrorCharacter (uc : Z) : bool := (UNICODE_ERROR_MIN <=? uc) && (uc <=? UNICODE_ERROR_MAX).
Definition getErrorCharacterId (uc : Z) : Z := u8 (u32 (uc - UNICODE_ERROR_MIN + 0x80)).

(** Flags (utf8.hpp); [flag f x] is [(m_flags & x) != 0]. *)
Definition AllowEncodedZero : Z := 1.
Definition AllowSurrogates : Z := 2.
Definition AllowNonMinimal : Z := 4.
Definition AllowNonCharacters : Z := 8.
Definition AllowErrorEscapes : Z := 16.

Definition flag (flags x : Z) : bool := negb (Z.land flags x =? 0).

(** *** Encoding (utf8.cpp) *)

(** [while (extraBytes > 0) { --extraBytes; ... }] *)
Fixpoint put_extra (extraBytes : nat) (ch : Z) : list Z :=
  match extraBytes with
  | O => []
  | S e => u8 (0x80 + Z.land (Z.shiftr ch (6 * Z.of_nat e)) 0x3F) :: put_extra e ch
  end.

Definition appendOne (ch : Z) : list Z :=
  if ch <=? 0x7FF then u8 (0xC0 + Z.shiftr ch 6) :: put_extra 1 ch
  else if ch <=? 0xFFFF then u8 (0xE0 + Z.shiftr ch 12) :: put_extra 2 ch
  else if ch <=? 0x1FFFFF then u8 (0xF0 + Z.shiftr ch 18) :: put_extra 3 ch
  else if ch <=? 0x3FFFFFF then u8 (0xF8 + Z.shiftr ch 24) :: put_extra 4 ch
  else if ch <=? 0x7FFFFFFF then u8 (0xFC + Z.shiftr ch 30) :: put_extra 5 ch
  else 0xFE :: put_extra 6 ch.

(** The bytes that [Utf8::append] adds to the string. *)
Definition append (flags ch : Z) : list Z :=
  if flag flags AllowErrorEscapes && isErrorCharacter ch then [getErrorCharacterId ch]
  else if (0x10000 <=? ch) && (ch <=? UNICODE_MAX) && flag flags AllowSurrogates then
    let ch := ch - 0x10000 in
    appendOne (UNICODE_HIGH_SURROGATE_MIN + Z.land (Z.shiftr ch 10) 0x3FF)
      ++ appendOne (UNICODE_LOW_SURROGATE_MIN + Z.land ch 0x3FF)
  else if (ch =? 0) && flag flags AllowEncodedZero then appendOne 0
  else if 0x80 <=? ch then appendOne ch
  else [u8 ch].

(** *** Decoding (utf8reader.cpp) *)

Record Character := { c_value : Z; c_firstChar : Z; c_size : nat }.

(** [for (size_t i = 0; i < extra; ++i)]; [None] is the failure exit. *)
Fixpoint parse_extra (extra : nat) (rune : Z) (data : list Z) : option Z :=
  match extra with
  | O => Some rune
  | S e =>
      match data with
      | pch :: data' =>
          if (Z.land pch 0xC0 =? 0x80) && (Z.land rune 0xFC000000 =? 0)
          then parse_extra e (Z.lor (u32 (Z.shiftl rune 6)) (Z.land pch 0x3F)) data'
          else None
      | [] => None
      end
  end.

(** Classification of the first byte: (rune, extra, minVal). *)
Definition parse_lead (ch : Z) : option (Z * nat * Z) :=
  if ch <? 0x80 then Some (ch, 0%nat, 0)
  else if (0xC0 <=? ch) && (ch <? 0xE0) then Some (ch - 0xC0, 1%nat, 0x80)
  else if (0xE0 <=? ch) && (ch <? 0xF0) then Some (ch - 0xE0, 2%nat, 0x800)
  else if (0xF0 <=? ch) && (ch <? 0xF8) then Some (ch - 0xF0, 3%nat, 0x10000)
  else if (0xF8 <=? ch) && (ch <? 0xFC) then Some (ch - 0xF8, 4%nat, 0x200000)
  else if (0xFC <=? ch) && (ch <? 0xFE) then Some (ch - 0xFC, 5%nat, 0x4000000)
  else if (0xFE <=? ch) && (ch <? 0xFF) then Some (ch - 0xFE, 6%nat, 0x80000000)
  else None.

(** The range check: [true] if the rune is refused. *)
Definition refused (flags rune minVal : Z) (extra : nat) : bool :=
  (isErrorCharacter rune && flag flags AllowErrorEscapes)
  || ((rune <? minVal) && negb (flag flags AllowNonMinimal)
      && negb ((rune =? 0) && flag flags AllowEncodedZero && (extra =? 1)%nat))
  || (((UNICODE_MAX <=? rune) || (0xFFFE <=? Z.land rune 0xFFFF)) && negb (flag flags AllowNonCharacters)).

Definition parse (flags : Z) (data : list Z) : Character :=
  match data with
  | [] => {| c_value := 0; c_firstChar := 0; c_size := 0 |}
  | ch :: data' =>
      let failure := {| c_value := makeErrorCharacter ch; c_firstChar := ch; c_size := 1 |} in
      match parse_lead ch with
      | None => failure
      | Some (rune, extra, minVal) =>
          match parse_extra extra rune data' with
          | None => failure
          | Some rune =>
              if refused flags rune minVal extra then failure
              else {| c_value := rune; c_firstChar := ch; c_size := 1 + extra |}
          end
      end
  end.

(** [eat()]: the character and the remaining data. *)
Definition eat (flags : Z) (m_data : list Z) : Z * list Z :=
  let first := parse flags m_data in
  let v := c_value first in
  if (c_size first =? 0)%nat then (0, m_data)
  else if (UNICODE_HIGH_SURROGATE_MIN <=? v) && (v <=? UNICODE_HIGH_SURROGATE_MAX) then
    if flag flags AllowSurrogates then
      let second := parse flags (drop (c_size first) m_data) in
      let v2 := c_value second in
      if (UNICODE_LOW_SURROGATE_MIN <=? v2) && (v2 <=? UNICODE_LOW_SURROGATE_MAX) then
        (u32 (0x10000 + u32 (Z.shiftl (Z.land v 0x3FF) 10) + Z.land v2 0x3FF),
         drop (c_size first + c_size second) m_data)
      else (makeErrorCharacter (c_firstChar first), drop 1 m_data)
    else if flag flags AllowNonCharacters then (v, drop (c_size first) m_data)
    else (makeErrorCharacter (c_firstChar first), drop 1 m_data)
  else if (UNICODE_LOW_SURROGATE_MIN <=? v) && (v <=? UNICODE_LOW_SURROGATE_MAX) then
    if flag flags AllowNonCharacters then (v, drop (c_size first) m_data)
    else (makeErrorCharacter (c_firstChar first), drop 1 m_data)
  else (v, drop (c_size first) m_data).

Definition hasMore (m_data : list Z) : bool := negb (length m_data =? 0)%nat.

(** [count()]: [None] if the fuel does not suffice. *)
Fixpoint count_loop (fuel : nat) (flags : Z) (m_data : list Z) (n : Z) : option Z :=
  if hasMore m_data then
    match fuel with
    | O => None
    | S fuel' => count_loop fuel' flags (eat flags m_data).2 (n + 1)
    end
  else Some n.

Definition count (flags : Z) (m_data : list Z) : option Z := count_loop (length m_data) flags m_data 0.

(** *** Positions (utf8.cpp) *)

Definition utf8_length (flags : Z) (text : list Z) : option Z := count flags text.

(** [while (rdr.hasMore() && index != 0) { rdr.eat(); --index; }]: the reader
    and the index afterwards. *)
Fixpoint skip_runes (index : nat) (flags : Z) (rdr : list Z) : list Z * nat :=
  match index with
  | O => (rdr, 0%nat)
  | S index' => if hasMore rdr then skip_runes index' flags (eat flags rdr).2 else (rdr, index)
  end.

Definition substrMemory (flags : Z) (text : list Z) (index cnt : nat) : list Z :=
  let rdr := (skip_runes index flags text).1 in
  let tail := rdr in
  if (length tail <=? cnt)%nat then tail
  else
    let rdr := (skip_runes cnt flags rdr).1 in
    take (length tail - length rdr) tail.

Definition charAt (flags : Z) (text : list Z) (index : nat) : Z :=
  let '(rdr, index) := skip_runes index flags text in
  if (index =? 0)%nat && hasMore rdr then (eat flags rdr).1 else 0.

(** [while (total - rdr.getRemainder().size() < bytePos) { rdr.eat(); ++result; }] *)
Fixpoint byteToCharPos_loop (fuel : nat) (flags : Z) (total : nat) (rdr : list Z) (bytePos : nat) (result : Z) : option Z :=
  if (total - length rdr <? bytePos)%nat then
    match fuel with
    | O => None
    | S fuel' => byteToCharPos_loop fuel' flags total (eat flags rdr).2 bytePos (result + 1)
    end
  else Some result.

Definition byteToCharPos (flags : Z) (text : list Z) (bytePos : nat) : option Z :=
  if (length text <=? bytePos)%nat then count flags text
  else byteToCharPos_loop bytePos flags (length text) text bytePos 0.

(** [while (charPos != 0) { rdr.eat(); --charPos; }] *)
Fixpoint eat_runes (charPos : nat) (flags : Z) (rdr : list Z) : list Z :=
  match charPos with
  | O => rdr
  | S charPos' => eat_runes charPos' flags (eat flags rdr).2
  end.

Definition charToBytePos (flags : Z) (text : list Z) (charPos : nat) : nat :=
  if (length text <=? charPos)%nat then length text
  else (length text - length (eat_runes charPos flags text))%nat.

Definition isContinuationByte (byte : Z) : bool := Z.land byte 0xC0 =? 0x80.

(** ** Lemmas: encoding *)

Lemma land_3F x : Z.land x 0x3F = x mod 64.
Proof. change 0x3F with (Z.ones 6). by rewrite Z.land_ones by lia. Qed.

Lemma put_extra_S e ch : put_extra (S e) ch = (0x80 + (ch / 64 ^ Z.of_nat e) mod 64) :: put_extra e ch.
Proof.
  cbn [put_extra]. f_equal. rewrite land_3F, Z.shiftr_div_pow2, Z.pow_mul_r by lia.
  change (2 ^ 6) with 64. unfold u8. apply wrap_small.
  pose proof (Z.mod_pos_bound (ch / 64 ^ Z.of_nat e) 64). lia.
Qed.

Lemma put_extra_length e ch : length (put_extra e ch) = e.
Proof. induction e; simpl; auto. Qed.

(** A continuation byte and its value. *)
Lemma land_C0 b : is_byte b -> (Z.land b 0xC0 =? 0x80) = (0x80 <=? b) && (b <? 0xC0).
Proof.
  intros Hb. apply eqb_prop. revert b Hb. apply all_bytes. vm_compute. reflexivity.
Qed.

Lemma land_FC r : in_u 32 r -> (Z.land r 0xFC000000 =? 0) = (r <? 2 ^ 26).
Proof.
  intros Hr. assert (Z.land r 0xFC000000 = Z.shiftl (Z.shiftr r 26) 26) as ->.
  { change 0xFC000000 with (Z.shiftl (Z.ones 6) 26). apply Z.bits_inj'. intros i Hi.
    rewrite Z.land_spec, !Z.shiftl_spec by lia. destruct (Z_lt_le_dec i 26).
    - rewrite !(Z.testbit_neg_r _ (i - 26)) by lia. apply andb_false_r.
    - rewrite Z.shiftr_spec, Z.testbit_ones_nonneg by lia. replace (i - 26 + 26) with i by lia.
      destruct (Z.ltb_spec (i - 26) 6); [apply andb_true_r|]. by rewrite (testbit_in_u 32 r) by (done || lia). }
  rewrite Z.shiftl_mul_pow2, Z.shiftr_div_pow2 by lia. unfold in_u in Hr.
  destruct (Z.ltb_spec r (2 ^ 26)).
  - rewrite Z.div_small by lia. done.
  - apply Z.eqb_neq. pose proof (Z.div_le_lower_bound r (2 ^ 26) 1). lia.
Qed.

Lemma lor_shift_6 r b : 0 <= r < 2 ^ 26 -> Z.lor (u32 (Z.shiftl r 6)) (b mod 64) = 64 * r + b mod 64.
Proof.
  intros Hr. pose proof (Z.mod_pos_bound b 64 ltac:(lia)) as Hb.
  unfold u32. rewrite wrap_small by (rewrite Z.shiftl_mul_pow2; lia).
  pose proof (Z.add_lor_land (Z.shiftl r 6) (b mod 64)) as E.
  assert (Z.land (Z.shiftl r 6) (b mod 64) = 0) as E0.
  { apply Z.bits_inj'. intros i Hi. rewrite Z.land_spec, Z.shiftl_spec, Z.testbit_0_l by lia.
    destruct (Z_lt_le_dec i 6); [by rewrite (Z.testbit_neg_r r) by lia|].
    rewrite (testbit_in_u 6 (b mod 64)) by (unfold in_u; lia). apply andb_false_r. }
  rewrite E0, Z.shiftl_mul_pow2 in E by lia. rewrite Z.shiftl_mul_pow2 by lia. lia.
Qed.

(** One step of the decoder loop in arithmetic. *)
Lemma parse_extra_S e rune b data :
  is_byte b -> in_u 32 rune ->
  parse_extra (S e) rune (b :: data)
    = if (0x80 <=? b) && (b <? 0xC0) && (rune <? 2 ^ 26) then parse_extra e (64 * rune + (b - 0x80)) data else None.
Proof.
  intros Hb Hr. cbn [parse_extra]. rewrite land_C0, land_FC by done.
  destruct (Z.leb_spec 0x80 b); [|done]. destruct (Z.ltb_spec b 0xC0); [|done].
  destruct (Z.ltb_spec rune (2 ^ 26)); [|done]. cbn [andb]. f_equal.
  unfold in_u in Hr. rewrite land_3F, lor_shift_6 by lia. f_equal.
  symmetry. apply (Z.mod_unique b 64 2); lia.
Qed.

(** Decoding what the encoder wrote. *)
Lemma parse_put_extra e ch rest :
  in_u 32 ch -> parse_extra e (ch / 64 ^ Z.of_nat e) (put_extra e ch ++ rest) = Some ch.
Proof.
  intros Hch. unfold in_u in Hch. induction e as [|e IH]; [by rewrite Z.div_1_r|].
  rewrite put_extra_S. cbn [app].
  pose proof (Z.mod_pos_bound (ch / 64 ^ Z.of_nat e) 64 ltac:(lia)) as Hm.
  assert (64 ^ Z.of_nat (S e) = 64 * 64 ^ Z.of_nat e) as Hp by (rewrite Nat2Z.inj_succ, Z.pow_succ_r; lia).
  assert (0 < 64 ^ Z.of_nat e) as Hpos by (apply Z.pow_pos_nonneg; lia).
  assert (ch / 64 ^ Z.of_nat (S e) = ch / 64 ^ Z.of_nat e / 64) as Hdiv
    by (rewrite Hp, (Z.mul_comm 64), Z.div_div by lia; done).
  assert (0 <= ch / 64 ^ Z.of_nat e < 2 ^ 32) as Hq.
  { split; [apply Z.div_pos; lia|]. apply Z.div_lt_upper_bound; [lia|]. nia. }
  assert (0 <= ch / 64 ^ Z.of_nat (S e) < 2 ^ 26) as Hq'.
  { rewrite Hdiv. split; [apply Z.div_pos; lia|apply Z.div_lt_upper_bound; lia]. }
  rewrite parse_extra_S; [|unfold is_byte; lia|unfold in_u; lia].
  rewrite (proj2 (Z.leb_le _ _)), !(proj2 (Z.ltb_lt _ _)) by lia. cbn [andb].
  rewrite <- IH. f_equal. rewrite Hdiv. pose proof (Z.div_mod (ch / 64 ^ Z.of_nat e) 64). lia.
Qed.

(** Conversely, what the decoder accepted is what the encoder writes. *)
Lemma parse_extra_inv e rune data r :
  bytes data -> in_u 32 rune -> parse_extra e rune data = Some r ->
  in_u 32 r /\ rune = r / 64 ^ Z.of_nat e /\ data = put_extra e r ++ drop e data.
Proof.
  revert rune data. induction e as [|e IH]; intros rune data Hd Hr E.
  { injection E as <-. rewrite Z.div_1_r. done. }
  destruct data as [|b data]; [done|]. apply Forall_cons in Hd as [Hb Hd].
  rewrite parse_extra_S in E by done.
  destruct (Z.leb_spec 0x80 b) as [Hb1|]; [|done]. destruct (Z.ltb_spec b 0xC0) as [Hb2|]; [|done].
  destruct (Z.ltb_spec rune (2 ^ 26)) as [Hlt|]; [|done]. cbn [andb] in E. unfold in_u in Hr.
  apply IH in E as (Hr' & Hq & Hdata); [|done|unfold in_u; lia].
  assert (64 ^ Z.of_nat (S e) = 64 ^ Z.of_nat e * 64) as Hp by (rewrite Nat2Z.inj_succ, Z.pow_succ_r; lia).
  assert (0 < 64 ^ Z.of_nat e) as Hpos by (apply Z.pow_pos_nonneg; lia).
  split; [done|]. split.
  - rewrite Hp, <- Z.div_div, <- Hq by lia. apply (Z.div_unique _ _ _ (b - 0x80)); lia.
  - rewrite put_extra_S. cbn [drop app]. rewrite <- Hdata. f_equal.
    rewrite <- Hq. replace ((64 * rune + (b - 128)) mod 64) with (b - 128); [lia|].
    apply (Z.mod_unique _ _ rune); lia.
Qed.

(** An interval of lead bytes, checked by evaluation. *)
Lemma parse_lead_interval base width e minVal :
  forallb (fun v => match parse_lead (base + v) with
                    | Some (r, e', m) => (r =? v) && (e' =? e)%nat && (m =? minVal)
                    | None => false
                    end) (map Z.of_nat (seq 0 (Z.to_nat width))) = true ->
  forall v, 0 <= v < width -> parse_lead (base + v) = Some (v, e, minVal).
Proof.
  intros Hall v Hv. rewrite forallb_forall in Hall. specialize (Hall v).
  destruct (parse_lead (base + v)) as [[[r e'] m]|].
  - assert ((r =? v) && (e' =? e)%nat && (m =? minVal) = true) as H.
    { apply Hall. apply in_map_iff. exists (Z.to_nat v). split; [lia|]. apply in_seq. lia. }
    apply andb_prop in H as [H H3]. apply andb_prop in H as [H1 H2].
    apply Z.eqb_eq in H1, H3. apply Nat.eqb_eq in H2. by subst.
  - discriminate Hall. apply in_map_iff. exists (Z.to_nat v). split; [lia|]. apply in_seq. lia.
Qed.

(** The shape of an encoded rune: a lead byte that announces the number of
    continuation bytes and carries the top bits. *)
Lemma appendOne_lead ch :
  in_u 32 ch ->
  exists b e minVal,
    appendOne ch = b :: put_extra e ch /\ 0xC0 <= b < 0xFF /\
    parse_lead b = Some (ch / 64 ^ Z.of_nat e, e, minVal) /\
    (0x80 <= ch -> minVal <= ch) /\ (ch < 0x80 -> e = 1%nat).
Proof.
  intros Hch. unfold in_u in Hch. unfold appendOne. rewrite !Z.shiftr_div_pow2 by lia. unfold u8.
  assert (Hlead : forall base e minVal width,
    0 <= ch / 64 ^ Z.of_nat e < width -> 0xC0 <= base -> base + width <= 0xFF ->
    (forall v, 0 <= v < width -> parse_lead (base + v) = Some (v, e, minVal)) ->
    wrap 8 (base + ch / 64 ^ Z.of_nat e) = base + ch / 64 ^ Z.of_nat e /\
    0xC0 <= base + ch / 64 ^ Z.of_nat e < 0xFF /\
    parse_lead (base + ch / 64 ^ Z.of_nat e) = Some (ch / 64 ^ Z.of_nat e, e, minVal)).
  { intros base e minVal width Hq H1 H2 Hl. rewrite wrap_small by lia. split; [done|]. split; [lia|]. by apply Hl. }
  assert (Hd : forall e, 0 <= ch -> 0 <= ch / 64 ^ Z.of_nat e) by (intros; apply Z.div_pos; lia).
  destruct (Z.leb_spec ch 0x7FF); [|destruct (Z.leb_spec ch 0xFFFF); [|destruct (Z.leb_spec ch 0x1FFFFF);
    [|destruct (Z.leb_spec ch 0x3FFFFFF); [|destruct (Z.leb_spec ch 0x7FFFFFFF)]]]].
  - destruct (Hlead 0xC0 1%nat 0x80 32) as (E1 & E2 & E3); [split; [by apply Hd; lia|apply Z.div_lt_upper_bound; lia]|lia|lia| |].
    { apply parse_lead_interval. vm_compute. reflexivity. }
    eexists _, _, _. change (2 ^ 6) with (64 ^ Z.of_nat 1). rewrite E1. split_and!; try done; lia.
  - destruct (Hlead 0xE0 2%nat 0x800 16) as (E1 & E2 & E3); [split; [by apply Hd; lia|apply Z.div_lt_upper_bound; lia]|lia|lia| |].
    { apply parse_lead_interval. vm_compute. reflexivity. }
    eexists _, _, _. change (2 ^ 12) with (64 ^ Z.of_nat 2). rewrite E1. split_and!; try done; lia.
  - destruct (Hlead 0xF0 3%nat 0x10000 8) as (E1 & E2 & E3); [split; [by apply Hd; lia|apply Z.div_lt_upper_bound; lia]|lia|lia| |].
    { apply parse_lead_interval. vm_compute. reflexivity. }
    eexists _, _, _. change (2 ^ 18) with (64 ^ Z.of_nat 3). rewrite E1. split_and!; try done; lia.
  - destruct (Hlead 0xF8 4%nat 0x200000 4) as (E1 & E2 & E3); [split; [by apply Hd; lia|apply Z.div_lt_upper_bound; lia]|lia|lia| |].
    { apply parse_lead_interval. vm_compute. reflexivity. }
    eexists _, _, _. change (2 ^ 24) with (64 ^ Z.of_nat 4). rewrite E1. split_and!; try done; lia.
  - destruct (Hlead 0xFC 5%nat 0x4000000 2) as (E1 & E2 & E3); [split; [by apply Hd; lia|apply Z.div_lt_upper_bound; lia]|lia|lia| |].
    { apply parse_lead_interval. vm_compute. reflexivity. }
    eexists _, _, _. change (2 ^ 30) with (64 ^ Z.of_nat 5). rewrite E1. split_and!; try done; lia.
  - assert (ch / 64 ^ Z.of_nat 6 = 0) as E0 by (apply Z.div_small; simpl; lia).
    eexists 0xFE, 6%nat, 0x80000000. rewrite E0. split_and!; try done; lia.
Qed.

(** The character classes of the range check. *)
Definition plain_ok (flags ch : Z) : bool :=
  negb (isErrorCharacter ch && flag flags AllowErrorEscapes)
  && (((ch <? UNICODE_MAX) && (Z.land ch 0xFFFF <? 0xFFFE)) || flag flags AllowNonCharacters).

Lemma refused_plain flags ch minVal e :
  plain_ok flags ch = true -> minVal <= ch -> refused flags ch minVal e = false.
Proof.
  unfold plain_ok, refused. intros Hp Hm. apply andb_prop in Hp as [Hp1 Hp2].
  apply negb_true_iff in Hp1. rewrite Hp1. rewrite (proj2 (Z.ltb_ge ch minVal)) by lia. cbn [orb andb].
  destruct (flag flags AllowNonCharacters); [by rewrite andb_false_r|].
  rewrite orb_false_r in Hp2. apply andb_prop in Hp2 as [H1 H2]. apply Z.ltb_lt in H1, H2.
  rewrite (proj2 (Z.leb_gt UNICODE_MAX ch)), (proj2 (Z.leb_gt 0xFFFE _)) by lia. done.
Qed.

(** Parsing an encoded rune that the flags accept. *)
Lemma parse_appendOne flags ch rest :
  in_u 32 ch -> 0x80 <= ch -> plain_ok flags ch = true ->
  c_value (parse flags (appendOne ch ++ rest)) = ch /\
  c_size (parse flags (appendOne ch ++ rest)) = length (appendOne ch).
Proof.
  intros Hch H80 Hp. destruct (appendOne_lead ch Hch) as (b & e & minVal & -> & Hb & Hlead & Hmin & _).
  cbn [parse app]. rewrite Hlead, parse_put_extra, refused_plain by auto.
  cbn [c_value c_size length]. by rewrite put_extra_length.
Qed.

Lemma parse_zero flags rest :
  flag flags AllowEncodedZero = true ->
  c_value (parse flags (appendOne 0 ++ rest)) = 0 /\ c_size (parse flags (appendOne 0 ++ rest)) = 2%nat.
Proof.
  intros Hz. assert (refused flags 0 0x80 1 = false) as Hr.
  { unfold refused. rewrite Hz. cbn. by rewrite andb_false_r. }
  change (appendOne 0 ++ rest) with (0xC0 :: 0x80 :: rest). unfold parse.
  replace (parse_lead 0xC0) with (Some (0, 1%nat, 0x80)) by done. cbv beta iota.
  replace (parse_extra 1 0 (0x80 :: rest)) with (Some 0) by done. cbv beta iota.
  by rewrite Hr.
Qed.

Lemma parse_ascii flags ch rest :
  0 <= ch < 0x80 -> parse flags (ch :: rest) = {| c_value := ch; c_firstChar := ch; c_size := 1 |}.
Proof.
  intros Hch. cbn [parse]. unfold parse_lead. rewrite (proj2 (Z.ltb_lt ch 0x80)) by lia. cbn [parse_extra].
  rewrite refused_plain; [done| |lia]. unfold plain_ok, isErrorCharacter, UNICODE_ERROR_MIN, UNICODE_MAX.
  rewrite (proj2 (Z.leb_gt 0xEF80 ch)), (proj2 (Z.ltb_lt ch 0x10FFFF)) by lia. cbn [andb negb].
  change 0xFFFF with (Z.ones 16). rewrite Z.land_ones, Z.mod_small by lia.
  by rewrite (proj2 (Z.ltb_lt ch 0xFFFE)) by lia.
Qed.

Lemma land_3FF x : Z.land x 0x3FF = x mod 1024.
Proof. change 0x3FF with (Z.ones 10). by rewrite Z.land_ones by lia. Qed.

Lemma plain_surrogate flags v : 0xD800 <= v <= 0xDFFF -> plain_ok flags v = true.
Proof.
  intros Hv. unfold plain_ok, isErrorCharacter, UNICODE_ERROR_MIN, UNICODE_MAX.
  rewrite (proj2 (Z.leb_gt 0xEF80 v)), (proj2 (Z.ltb_lt v 0x10FFFF)) by lia. cbn [andb negb].
  change 0xFFFF with (Z.ones 16). rewrite Z.land_ones, Z.mod_small by lia.
  by rewrite (proj2 (Z.ltb_lt v 0xFFFE)) by lia.
Qed.

(** Characters that survive encoding and decoding with the given flags. *)
Definition surrogate_ok (flags ch : Z) : bool :=
  negb ((UNICODE_HIGH_SURROGATE_MIN <=? ch) && (ch <=? UNICODE_LOW_SURROGATE_MAX))
  || (flag flags AllowNonCharacters
      && ((UNICODE_LOW_SURROGATE_MIN <=? ch) || negb (flag flags AllowSurrogates))).

Definition encodable (flags ch : Z) : Prop :=
  in_u 32 ch /\
  ((0x10000 <= ch <= UNICODE_MAX /\ flag flags AllowSurrogates = true)
   \/ (plain_ok flags ch = true /\ surrogate_ok flags ch = true)).

(** Reading back a surrogate pair. *)
Lemma eat_pair flags ch rest :
  0x10000 <= ch <= UNICODE_MAX -> flag flags AllowSurrogates = true ->
  eat flags (append flags ch ++ rest) = (ch, rest).
Proof.
  unfold UNICODE_MAX. intros Hch Hs. unfold append, UNICODE_MAX.
  assert (isErrorCharacter ch = false) as ->.
  { unfold isErrorCharacter, UNICODE_ERROR_MIN, UNICODE_ERROR_MAX. rewrite (proj2 (Z.leb_gt ch 0xEFFF)) by lia. apply andb_false_r. }
  rewrite andb_false_r, Hs, !(proj2 (Z.leb_le _ _)) by lia. cbn [andb].
  unfold UNICODE_HIGH_SURROGATE_MIN, UNICODE_LOW_SURROGATE_MIN.
  rewrite !land_3FF, Z.shiftr_div_pow2 by lia. change (2 ^ 10) with 1024.
  set (c := ch - 0x10000). assert (0 <= c < 0x100000) as Hc by lia.
  assert (0 <= c / 1024 < 1024) as Hq by (split; [apply Z.div_pos|apply Z.div_lt_upper_bound]; lia).
  rewrite (Z.mod_small (c / 1024)) by lia. pose proof (Z.mod_pos_bound c 1024 ltac:(lia)) as Hm.
  set (hi := 0xD800 + c / 1024). set (lo := 0xDC00 + c mod 1024).
  destruct (parse_appendOne flags hi (appendOne lo ++ rest)) as [V1 S1];
    [unfold in_u; lia|lia|apply plain_surrogate; lia|].
  destruct (parse_appendOne flags lo rest) as [V2 S2]; [unfold in_u; lia|lia|apply plain_surrogate; lia|].
  assert (0 < length (appendOne hi))%nat as Hl1.
  { destruct (appendOne_lead hi) as (? & ? & ? & -> & _); [unfold in_u; lia|]. simpl. lia. }
  unfold eat. rewrite <- app_assoc, V1, S1, (proj2 (Nat.eqb_neq _ _)) by lia.
  unfold UNICODE_HIGH_SURROGATE_MIN, UNICODE_HIGH_SURROGATE_MAX, UNICODE_LOW_SURROGATE_MIN, UNICODE_LOW_SURROGATE_MAX.
  rewrite !(proj2 (Z.leb_le _ _)), Hs, drop_app_length, V2, S2 by lia. cbn [andb].
  rewrite !(proj2 (Z.leb_le _ _)) by lia. cbn [andb]. f_equal.
  - rewrite !land_3FF. replace (hi mod 1024) with (c / 1024) by (apply (Z.mod_unique _ _ 54); lia).
    replace (lo mod 1024) with (c mod 1024) by (apply (Z.mod_unique _ _ 55); lia).
    rewrite Z.shiftl_mul_pow2 by lia. unfold u32. rewrite !wrap_small by (rewrite ?wrap_small by lia; lia).
    pose proof (Z.div_mod c 1024). lia.
  - rewrite app_assoc. apply drop_app_length'. rewrite length_app. lia.
Qed.

(** Reading back any other character. *)
Lemma eat_plain flags v n data rest :
  c_value (parse flags data) = v -> c_size (parse flags data) = n -> (0 < n)%nat -> drop n data = rest ->
  surrogate_ok flags v = true -> eat flags data = (v, rest).
Proof.
  intros HV HS Hn Hd Hok. unfold eat. rewrite HV, HS, (proj2 (Nat.eqb_neq _ _)) by lia.
  unfold surrogate_ok, UNICODE_HIGH_SURROGATE_MIN, UNICODE_HIGH_SURROGATE_MAX,
    UNICODE_LOW_SURROGATE_MIN, UNICODE_LOW_SURROGATE_MAX in *.
  destruct (flag flags AllowNonCharacters), (flag flags AllowSurrogates);
    zcases; cbn in *; try lia; try done; by rewrite Hd.
Qed.

Lemma eat_append flags ch rest :
  encodable flags ch -> eat flags (append flags ch ++ rest) = (ch, rest).
Proof.
  intros [Hch Henc]. destruct (flag flags AllowSurrogates && (0x10000 <=? ch) && (ch <=? UNICODE_MAX)) eqn:Epair.
  { apply andb_prop in Epair as [Ep E3]. apply andb_prop in Ep as [E1 E2]. apply Z.leb_le in E2, E3.
    by apply eat_pair. }
  assert (plain_ok flags ch = true /\ surrogate_ok flags ch = true) as [Hp Hs].
  { destruct Henc as [[Hr Hf]|]; [|done]. rewrite Hf in Epair.
    rewrite (proj2 (Z.leb_le 0x10000 ch)), (proj2 (Z.leb_le ch UNICODE_MAX)) in Epair by lia. done. }
  unfold append.
  assert (flag flags AllowErrorEscapes && isErrorCharacter ch = false) as ->.
  { unfold plain_ok in Hp. apply andb_prop in Hp as [Hp _]. apply negb_true_iff in Hp. by rewrite andb_comm. }
  assert ((0x10000 <=? ch) && (ch <=? UNICODE_MAX) && flag flags AllowSurrogates = false) as ->.
  { rewrite andb_comm, andb_assoc. exact Epair. }
  unfold in_u in Hch. destruct (Z.eqb_spec ch 0) as [->|Hne].
  - destruct (flag flags AllowEncodedZero) eqn:Ez; cbn [andb].
    + destruct (parse_zero flags rest Ez). eapply (eat_plain _ _ 2); [done|done|lia|done|done].
    + change (0x80 <=? 0) with false. cbv iota. cbn [app]. change (u8 0) with 0.
      eapply (eat_plain _ _ 1); [by rewrite parse_ascii by lia|by rewrite parse_ascii by lia|lia|done|done].
  - cbn [andb]. destruct (Z.leb_spec 0x80 ch).
    + destruct (parse_appendOne flags ch rest) as [V S]; [done|done|done|].
      eapply eat_plain; [exact V|exact S| |by apply drop_app_length|done].
      destruct (appendOne_lead ch) as (? & ? & ? & -> & _); [done|]. simpl. lia.
    + unfold u8. rewrite wrap_small by lia. cbn [app].
      eapply (eat_plain _ _ 1); [by rewrite parse_ascii by lia|by rewrite parse_ascii by lia|lia|done|done].
Qed.

(** ** Lemmas: progress and runes *)

Lemma parse_extra_length e rune data r : parse_extra e rune data = Some r -> (e <= length data)%nat.
Proof.
  revert rune data. induction e as [|e IH]; intros rune data E; [lia|].
  destruct data as [|b data]; [done|]. cbn [parse_extra] in E.
  destruct (_ && _); [|done]. apply IH in E. simpl. lia.
Qed.

Lemma parse_size flags data : (c_size (parse flags data) <= length data)%nat.
Proof.
  destruct data as [|ch data]; [done|]. cbn [parse].
  destruct (parse_lead ch) as [[[rune extra] minVal]|]; [|simpl; lia].
  destruct (parse_extra extra rune data) as [r|] eqn:E; [|simpl; lia].
  apply parse_extra_length in E. destruct (refused _ _ _ _); simpl; lia.
Qed.

Lemma parse_size_pos flags ch data : (0 < c_size (parse flags (ch :: data)))%nat.
Proof.
  cbn [parse]. destruct (parse_lead ch) as [[[rune extra] minVal]|]; [|simpl; lia].
  destruct (parse_extra extra rune data) as [r|]; [|simpl; lia]. destruct (refused _ _ _ _); simpl; lia.
Qed.

(** Reading a character takes at least one byte. *)
Lemma eat_progress flags data :
  data <> [] -> exists k, (0 < k <= length data)%nat /\ (eat flags data).2 = drop k data.
Proof.
  intros Hne. destruct data as [|ch data]; [done|]. set (s := ch :: data).
  pose proof (parse_size_pos flags ch data) as Hp. fold s in Hp.
  pose proof (parse_size flags s) as Hs.
  pose proof (parse_size flags (drop (c_size (parse flags s)) s)) as Hs2. rewrite length_drop in Hs2.
  unfold eat. rewrite (proj2 (Nat.eqb_neq _ _)) by lia.
  repeat match goal with |- context [ if ?b then _ else _ ] => destruct b end;
    cbn [snd]; (eexists; split; [|reflexivity]); lia.
Qed.

Lemma hasMore_spec data : hasMore data = true <-> data <> [].
Proof. unfold hasMore. destruct data; simpl; split; done. Qed.

(** The division of a text into runes: the character read, and its bytes. *)
Fixpoint runes_loop (fuel : nat) (flags : Z) (data : list Z) : list (Z * list Z) :=
  match fuel with
  | O => []
  | S fuel' =>
      if hasMore data then
        let '(c, rest) := eat flags data in
        (c, take (length data - length rest) data) :: runes_loop fuel' flags rest
      else []
  end.

Definition runes (flags : Z) (data : list Z) : list (Z * list Z) := runes_loop (length data) flags data.

Lemma runes_loop_fuel fuel flags data :
  (length data <= fuel)%nat -> runes_loop fuel flags data = runes flags data.
Proof.
  unfold runes. remember (length data) as len eqn:Hlen. revert fuel data Hlen.
  induction (lt_wf len) as [len _ IH]; intros fuel data Hlen Hf.
  destruct (decide (data = [])) as [->|Hne]; [by destruct fuel, len|].
  destruct fuel as [|fuel]; [destruct data; simpl in *; [done|lia]|].
  destruct len as [|len]; [destruct data; simpl in *; done|].
  cbn [runes_loop]. rewrite (proj2 (hasMore_spec data)) by done.
  destruct (eat_progress flags data Hne) as (k & Hk & Ek). destruct (eat flags data) as [c rest]. simpl in Ek. subst rest.
  f_equal. rewrite (IH (length (drop k data))) by (rewrite ?length_drop; lia).
  symmetry. apply IH; rewrite ?length_drop; lia.
Qed.

Lemma runes_nil flags : runes flags [] = [].
Proof. done. Qed.

Lemma runes_cons flags data :
  data <> [] ->
  runes flags data = ((eat flags data).1, take (length data - length (eat flags data).2) data) :: runes flags (eat flags data).2.
Proof.
  intros Hne. rewrite <- (runes_loop_fuel (S (length data))) by lia. cbn [runes_loop].
  rewrite (proj2 (hasMore_spec data)) by done.
  destruct (eat_progress flags data Hne) as (k & Hk & Ek). destruct (eat flags data) as [c rest]. simpl in *. subst rest.
  f_equal. apply runes_loop_fuel. rewrite length_drop. lia.
Qed.

(** Induction over the runes of a text. *)
Lemma runes_ind flags (P : list Z -> Prop) :
  P [] -> (forall data, data <> [] -> P (eat flags data).2 -> P data) -> forall data, P data.
Proof.
  intros H0 HS data. remember (length data) as len eqn:Hlen. revert data Hlen.
  induction (lt_wf len) as [len _ IH]; intros data Hlen.
  destruct (decide (data = [])) as [->|Hne]; [done|]. apply HS; [done|].
  destruct (eat_progress flags data Hne) as (k & Hk & Ek).
  apply (IH (length (eat flags data).2)); [rewrite Ek, length_drop; lia|done].
Qed.

Definition rune_bytes (rs : list (Z * list Z)) : list Z := concat (map snd rs).

Lemma rune_split flags data :
  data <> [] ->
  data = take (length data - length (eat flags data).2) data ++ (eat flags data).2 /\
  (0 < length (take (length data - length (eat flags data).2) data))%nat.
Proof.
  intros Hne. destruct (eat_progress flags data Hne) as (k & Hk & ->).
  rewrite length_drop, length_take. replace (length data - (length data - k))%nat with k by lia.
  rewrite take_drop. split; [done|lia].
Qed.

(** The runes make up the text, and none is empty. *)
Lemma runes_concat flags data : rune_bytes (runes flags data) = data.
Proof.
  induction data as [|data Hne IH] using (runes_ind flags); [done|].
  rewrite runes_cons by done. unfold rune_bytes in *. cbn [map concat snd]. rewrite IH.
  symmetry. by apply rune_split.
Qed.

Lemma runes_nonempty flags data : Forall (fun r => (0 < length r.2)%nat) (runes flags data).
Proof.
  induction data as [|data Hne IH] using (runes_ind flags); [constructor|].
  rewrite runes_cons by done. constructor; [|done]. by apply rune_split.
Qed.

(** *** The loops of utf8.cpp in terms of runes *)

Lemma count_loop_spec fuel flags data n :
  (length data <= fuel)%nat -> count_loop fuel flags data n = Some (n + Z.of_nat (length (runes flags data))).
Proof.
  revert data n. induction fuel as [|fuel IH]; intros data n Hf.
  { destruct data; [|simpl in Hf; lia]. simpl. f_equal. lia. }
  cbn [count_loop]. destruct (hasMore data) eqn:Hm.
  - apply hasMore_spec in Hm. rewrite runes_cons by done.
    destruct (eat_progress flags data Hm) as (k & Hk & Ek).
    rewrite IH by (rewrite Ek, length_drop; lia). f_equal. cbn [length]. lia.
  - destruct data; [|done]. cbn. f_equal. lia.
Qed.

Lemma count_spec flags data : count flags data = Some (Z.of_nat (length (runes flags data))).
Proof. apply count_loop_spec. lia. Qed.

Lemma skip_runes_spec i flags data :
  skip_runes i flags data = (rune_bytes (drop i (runes flags data)), (i - length (runes flags data))%nat).
Proof.
  revert data. induction i as [|i IH]; intros data; [cbn [skip_runes eat_runes]; by rewrite drop_0, runes_concat|].
  cbn [skip_runes]. destruct (hasMore data) eqn:Hm.
  - apply hasMore_spec in Hm. rewrite IH, (runes_cons flags data) by done. done.
  - destruct data; done.
Qed.

Lemma eat_nil flags : eat flags [] = (0, []).
Proof. done. Qed.

Lemma eat_runes_spec i flags data : eat_runes i flags data = rune_bytes (drop i (runes flags data)).
Proof.
  revert data. induction i as [|i IH]; intros data; [cbn [skip_runes eat_runes]; by rewrite drop_0, runes_concat|].
  cbn [eat_runes]. destruct (decide (data = [])) as [->|Hne].
  - rewrite eat_nil. cbn [snd]. rewrite IH, runes_nil. by rewrite drop_nil.
  - rewrite IH, (runes_cons flags data) by done. done.
Qed.

Lemma rune_bytes_app a b : rune_bytes (a ++ b) = rune_bytes a ++ rune_bytes b.
Proof. unfold rune_bytes. by rewrite map_app, concat_app. Qed.

Lemma rune_bytes_long rs :
  Forall (fun r : Z * list Z => (0 < length r.2)%nat) rs -> (length rs <= length (rune_bytes rs))%nat.
Proof.
  induction 1 as [|r rs Hr _ IH]; [done|]. unfold rune_bytes in *. simpl. rewrite length_app. lia.
Qed.

Lemma runes_tail flags data i : runes flags (rune_bytes (drop i (runes flags data))) = drop i (runes flags data).
Proof.
  revert data. induction i as [|i IH]; intros data; [cbn [skip_runes eat_runes]; by rewrite drop_0, runes_concat|].
  destruct (decide (data = [])) as [->|Hne]; [done|].
  rewrite (runes_cons flags data) by done. cbn [drop]. apply IH.
Qed.

(** *** Re-encoding what was read *)

Lemma error_character id :
  0x80 <= id < 0x100 ->
  makeErrorCharacter id = 0xEF00 + id /\ isErrorCharacter (makeErrorCharacter id) = true /\
  getErrorCharacterId (makeErrorCharacter id) = id.
Proof.
  intros Hid. assert (makeErrorCharacter id = 0xEF00 + id) as E.
  { unfold makeErrorCharacter, u32, UNICODE_ERROR_MIN. rewrite !wrap_small by (rewrite ?wrap_small by lia; lia). lia. }
  rewrite E. split; [done|]. split.
  - unfold isErrorCharacter, UNICODE_ERROR_MIN, UNICODE_ERROR_MAX. by rewrite !(proj2 (Z.leb_le _ _)) by lia.
  - unfold getErrorCharacterId, u8, u32, UNICODE_ERROR_MIN.
    rewrite (wrap_small 32) by lia. rewrite wrap_small by lia. lia.
Qed.

(** How a lead byte determines the range of the minimally encoded runes. *)
Lemma parse_lead_range ch rune e minVal :
  is_byte ch -> parse_lead ch = Some (rune, e, minVal) ->
  (e = 0%nat /\ rune = ch /\ ch < 0x80) \/
  (0xC0 <= ch /\ in_u 32 rune /\
   forall r, in_u 32 r -> rune = r / 64 ^ Z.of_nat e -> minVal <= r -> 0x80 <= r /\ appendOne r = ch :: put_extra e r).
Proof.
  intros Hb E. unfold is_byte in Hb. unfold parse_lead in E.
  assert (Hcase : forall base e' lim, (0 < e')%nat -> ch = base + rune -> e' = e -> 0 <= rune ->
    (forall r, in_u 32 r -> rune = r / 64 ^ Z.of_nat e' -> minVal <= r ->
       0x80 <= r /\ appendOne r = u8 (base + Z.shiftr r (6 * Z.of_nat e')) :: put_extra e' r) -> 0xC0 <= base -> lim = base ->
    0xC0 <= ch /\ in_u 32 rune /\
    forall r, in_u 32 r -> rune = r / 64 ^ Z.of_nat e -> minVal <= r -> 0x80 <= r /\ appendOne r = ch :: put_extra e r).
  { intros base e' lim He Hch <- Hr Happ Hbase _. split; [lia|]. split; [unfold in_u; lia|].
    intros r Hr32 Hq Hm. destruct (Happ r Hr32 Hq Hm) as [H1 ->]. split; [done|]. f_equal.
    rewrite Z.shiftr_div_pow2, Z.pow_mul_r by lia. change (2 ^ 6) with 64. rewrite <- Hq, <- Hch.
    unfold u8. apply wrap_small. lia. }
  assert (Hrange : forall r k w, 0 < k -> rune = r / k -> rune < w -> r < w * k).
  { intros r k w Hk Hq Hw. pose proof (Z.div_mod r k ltac:(lia)). pose proof (Z.mod_pos_bound r k ltac:(lia)). nia. }
  destruct (Z.ltb_spec ch 0x80); [left; by simplify_eq|right].
  destruct ((0xC0 <=? ch) && (ch <? 0xE0)) eqn:E1.
  { simplify_eq. apply (Hcase 0xC0 1%nat 0xC0); try lia. unfold in_u. intros r Hr Hq Hm.
    pose proof (Hrange r 64 32 ltac:(lia) Hq ltac:(lia)). clear E1. unfold appendOne. zcases; lia || (split; [lia|done]). }
  destruct ((0xE0 <=? ch) && (ch <? 0xF0)) eqn:E2.
  { simplify_eq. apply (Hcase 0xE0 2%nat 0xE0); try lia. unfold in_u. intros r Hr Hq Hm.
    pose proof (Hrange r (64 ^ 2) 16 ltac:(lia) Hq ltac:(lia)). clear E1 E2. unfold appendOne. zcases; lia || (split; [lia|done]). }
  destruct ((0xF0 <=? ch) && (ch <? 0xF8)) eqn:E3.
  { simplify_eq. apply (Hcase 0xF0 3%nat 0xF0); try lia. unfold in_u. intros r Hr Hq Hm.
    pose proof (Hrange r (64 ^ 3) 8 ltac:(lia) Hq ltac:(lia)). clear E1 E2 E3. unfold appendOne. zcases; lia || (split; [lia|done]). }
  destruct ((0xF8 <=? ch) && (ch <? 0xFC)) eqn:E4.
  { simplify_eq. apply (Hcase 0xF8 4%nat 0xF8); try lia. unfold in_u. intros r Hr Hq Hm.
    pose proof (Hrange r (64 ^ 4) 4 ltac:(lia) Hq ltac:(lia)). clear E1 E2 E3 E4. unfold appendOne. zcases; lia || (split; [lia|done]). }
  destruct ((0xFC <=? ch) && (ch <? 0xFE)) eqn:E5.
  { simplify_eq. apply (Hcase 0xFC 5%nat 0xFC); try lia. unfold in_u. intros r Hr Hq Hm.
    pose proof (Hrange r (64 ^ 5) 2 ltac:(lia) Hq ltac:(lia)). clear E1 E2 E3 E4 E5. unfold appendOne. zcases; lia || (split; [lia|done]). }
  destruct ((0xFE <=? ch) && (ch <? 0xFF)) eqn:E6; [|done].
  simplify_eq. assert (ch = 0xFE) as -> by lia. split; [lia|]. split; [unfold in_u; lia|]. unfold in_u.
  clear - Hcase. intros r Hr Hq Hm. split; [lia|]. unfold appendOne. zcases; try lia. done.
Qed.

(** The two ways [parse] can go on a non-empty text. *)
Lemma parse_cases flags ch data :
  bytes (ch :: data) ->
  let c := parse flags (ch :: data) in
  c_firstChar c = ch /\
  ((c_size c = 1%nat /\ 0x80 <= ch /\ c_value c = makeErrorCharacter ch) \/
   (exists rune e minVal, parse_lead ch = Some (rune, e, minVal) /\
      in_u 32 (c_value c) /\ rune = c_value c / 64 ^ Z.of_nat e /\ c_size c = S e /\
      data = put_extra e (c_value c) ++ drop e data /\ refused flags (c_value c) minVal e = false)).
Proof.
  intros Hb c. pose proof Hb as Hb'. apply Forall_cons in Hb' as [Hch Hd]. unfold is_byte in Hch.
  destruct (Z_lt_le_dec ch 0x80) as [Hlt|Hge].
  { subst c. rewrite parse_ascii by lia. cbn [c_firstChar c_value c_size]. split; [done|]. right.
    exists ch, 0%nat, 0. unfold parse_lead. rewrite (proj2 (Z.ltb_lt ch 0x80)) by lia.
    split; [done|]. split; [unfold in_u; lia|]. rewrite Z.div_1_r. split; [done|]. split; [done|]. split; [done|].
    pose proof (parse_ascii flags ch data ltac:(lia)) as Hp. cbn [parse] in Hp. unfold parse_lead in Hp.
    rewrite (proj2 (Z.ltb_lt ch 0x80)) in Hp by lia. cbn [parse_extra] in Hp.
    destruct (refused flags ch 0 0); [|done]. injection Hp as Hp.
    unfold makeErrorCharacter, u32, UNICODE_ERROR_MIN in Hp. exfalso. revert Hp.
    unfold wrap. rewrite Zplus_mod_idemp_r. rewrite Z.mod_small by lia. lia. }
  subst c. cbn [parse]. destruct (parse_lead ch) as [[[rune e] minVal]|] eqn:El; [|by auto].
  destruct (parse_extra e rune data) as [r|] eqn:Ee; [|by auto].
  assert (in_u 32 rune) as Hr.
  { destruct (parse_lead_range ch rune e minVal) as [(_ & -> & _)|(_ & ? & _)]; try done. unfold in_u. lia. }
  apply parse_extra_inv in Ee as (Hr' & Hq & Hdata); [|done|done].
  destruct (refused flags r minVal e) eqn:Er; cbn [c_firstChar c_size c_value]; [by auto|].
  split; [done|]. right. exists rune, e, minVal. split_and!; done.
Qed.

(** Flags with which every byte string is transparent. *)
Definition transparent (flags : Z) : Prop :=
  flag flags AllowErrorEscapes = true /\ flag flags AllowEncodedZero = false /\
  flag flags AllowSurrogates = false /\ flag flags AllowNonMinimal = false.

Lemma append_error flags id :
  flag flags AllowErrorEscapes = true -> 0x80 <= id < 0x100 -> append flags (makeErrorCharacter id) = [id].
Proof.
  intros Hf Hid. destruct (error_character id Hid) as (_ & H1 & H2). unfold append. by rewrite Hf, H1, H2.
Qed.

(** An accepted rune is encoded as the bytes it was read from. *)
Lemma append_accepted flags ch rune e minVal r :
  transparent flags -> is_byte ch -> parse_lead ch = Some (rune, e, minVal) -> in_u 32 r ->
  rune = r / 64 ^ Z.of_nat e -> refused flags r minVal e = false -> append flags r = ch :: put_extra e r.
Proof.
  intros (He & Hz & Hs & Hm) Hb El Hr Hq Href. unfold refused in Href. rewrite He, Hz, Hm, andb_true_r in Href.
  apply orb_false_iff in Href as [Href _]. apply orb_false_iff in Href as [Herr Hmin].
  cbn [negb andb] in Hmin. rewrite andb_true_r, andb_false_r in Hmin. cbn [negb andb] in Hmin.
  rewrite andb_true_r in Hmin. apply Z.ltb_ge in Hmin.
  unfold append. rewrite He, Herr, Hz, Hs, !andb_false_r. cbn [andb].
  destruct (parse_lead_range ch rune e minVal Hb El) as [(-> & -> & Hlt)|(_ & _ & Happ)].
  - rewrite Z.div_1_r in Hq. subst ch. rewrite (proj2 (Z.leb_gt 0x80 r)) by lia. unfold u8. unfold in_u in Hr.
    by rewrite wrap_small by lia.
  - destruct (Happ r Hr Hq Hmin) as [H80 ->]. by rewrite (proj2 (Z.leb_le 0x80 r)) by lia.
Qed.

(** A surrogate half is read from a three-byte sequence. *)
Lemma lead_of_surrogate ch rune e minVal r :
  is_byte ch -> parse_lead ch = Some (rune, e, minVal) -> rune = r / 64 ^ Z.of_nat e -> 0x80 <= r -> 0x80 <= ch.
Proof.
  intros Hb El Hq H80. destruct (parse_lead_range ch rune e minVal Hb El) as [(-> & -> & Hlt)|(? & _)]; [|lia].
  rewrite Z.div_1_r in Hq. lia.
Qed.

Lemma append_eat flags data :
  transparent flags -> bytes data -> data <> [] ->
  append flags (eat flags data).1 ++ (eat flags data).2 = data.
Proof.
  intros Hf Hb Hne. destruct data as [|ch data]; [done|].
  pose proof Hf as (He & Hz & Hs & Hm). pose proof (proj1 (Forall_cons_1 _ _ _ Hb)) as Hch.
  destruct (parse_cases flags ch data Hb) as (Hfirst & Hcase). unfold eat.
  pose proof (parse_size_pos flags ch data). rewrite (proj2 (Nat.eqb_neq _ 0)) by lia.
  rewrite Hs, Hfirst. set (c := parse flags (ch :: data)) in *.
  destruct Hcase as [(Hsz & H80 & Hv)|(rune & e & minVal & El & Hr & Hq & Hsz & Hdata & Href)].
  - unfold is_byte in Hch. destruct (error_character ch ltac:(lia)) as (Ev & _).
    rewrite Hsz, Hv. pose proof (append_error flags ch He ltac:(lia)) as Ha.
    repeat match goal with |- context [ if ?b then _ else _ ] => destruct b end; cbn [fst snd]; by rewrite Ha.
  - assert (Hgood : append flags (c_value c) ++ drop (c_size c) (ch :: data) = ch :: data).
    { rewrite (append_accepted flags ch rune e minVal), Hsz by done. cbn [drop app]. by rewrite <- Hdata. }
    assert (Hbad : 0x80 <= c_value c -> append flags (makeErrorCharacter ch) ++ drop 1 (ch :: data) = ch :: data).
    { intros Hv. unfold is_byte in Hch. rewrite append_error; [done|done|].
      pose proof (lead_of_surrogate ch rune e minVal (c_value c) Hch El Hq Hv). lia. }
    unfold UNICODE_HIGH_SURROGATE_MIN, UNICODE_HIGH_SURROGATE_MAX, UNICODE_LOW_SURROGATE_MIN, UNICODE_LOW_SURROGATE_MAX.
    destruct (flag flags AllowNonCharacters); zcases; cbn [andb fst snd]; try done; apply Hbad; lia.
Qed.

(** Decoding a whole text, and encoding a sequence of characters. *)
Definition decode (flags : Z) (text : list Z) : list Z := map fst (runes flags text).
Definition encode (flags : Z) (chars : list Z) : list Z := concat (map (append flags) chars).

(** *** Positions *)

(** Number of bytes in the first [k] runes. *)
Definition prefix_size (flags : Z) (text : list Z) (k : nat) : nat := length (rune_bytes (take k (runes flags text))).

Lemma prefix_size_split flags text k :
  (prefix_size flags text k + length (rune_bytes (drop k (runes flags text))) = length text)%nat.
Proof.
  unfold prefix_size. rewrite <- length_app, <- rune_bytes_app, take_drop. by rewrite runes_concat.
Qed.

Lemma prefix_size_S flags text k :
  (k < length (runes flags text))%nat -> (prefix_size flags text k < prefix_size flags text (S k))%nat.
Proof.
  intros Hk. unfold prefix_size. destruct (lookup_lt_is_Some_2 (runes flags text) k Hk) as [r Hr].
  rewrite (take_S_r _ _ r Hr), rune_bytes_app, length_app. unfold rune_bytes at 3. cbn [map concat]. rewrite app_nil_r.
  pose proof (Forall_lookup_1 _ _ _ _ (runes_nonempty flags text) Hr) as Hp. simpl in Hp. lia.
Qed.

Lemma prefix_size_ge flags text k : (length (runes flags text) <= k)%nat -> prefix_size flags text k = length text.
Proof. intros Hk. unfold prefix_size. rewrite take_ge by done. by rewrite runes_concat. Qed.

Lemma prefix_size_mono flags text j k : (j <= k)%nat -> (prefix_size flags text j <= prefix_size flags text k)%nat.
Proof.
  induction 1 as [|k Hk IH]; [done|].
  destruct (Nat.lt_ge_cases k (length (runes flags text))).
  - pose proof (prefix_size_S flags text k). lia.
  - pose proof (prefix_size_ge flags text k). pose proof (prefix_size_ge flags text (S k)). lia.
Qed.

Lemma eat_runes_S k flags data : eat_runes (S k) flags data = (eat flags (eat_runes k flags data)).2.
Proof. revert data. induction k as [|k IH]; intros data; [done|]. apply IH. Qed.

(** The loop stops at the first rune boundary at or behind [bytePos]. *)
Lemma byteToCharPos_loop_spec fuel flags text bytePos k :
  (bytePos <= prefix_size flags text k + fuel)%nat -> (bytePos <= length text)%nat ->
  (forall j, (j < k)%nat -> (prefix_size flags text j < bytePos)%nat) ->
  exists k', (k <= k')%nat /\
    byteToCharPos_loop fuel flags (length text) (eat_runes k flags text) bytePos (Z.of_nat k) = Some (Z.of_nat k') /\
    (bytePos <= prefix_size flags text k')%nat /\
    (forall j, (j < k')%nat -> (prefix_size flags text j < bytePos)%nat).
Proof.
  revert k. induction fuel as [|fuel IH]; intros k Hf Hb Hlow.
  all: assert (length text - length (eat_runes k flags text) = prefix_size flags text k)%nat as Hpos
    by (rewrite eat_runes_spec; pose proof (prefix_size_split flags text k); lia).
  - exists k. cbn [byteToCharPos_loop]. rewrite Hpos, (proj2 (Nat.ltb_ge _ _)) by lia. auto with lia.
  - cbn [byteToCharPos_loop]. rewrite Hpos. destruct (Nat.ltb_spec (prefix_size flags text k) bytePos) as [Hlt|Hge].
    + assert (k < length (runes flags text))%nat as Hk.
      { destruct (Nat.lt_ge_cases k (length (runes flags text))); [done|]. rewrite prefix_size_ge in Hlt by done. lia. }
      pose proof (prefix_size_S flags text k Hk).
      rewrite <- eat_runes_S. replace (Z.of_nat k + 1) with (Z.of_nat (S k)) by lia.
      destruct (IH (S k)) as (k' & Hk' & H1 & H2 & H3); [lia|done| |].
      { intros j Hj. destruct (decide (j = k)) as [->|]; [done|]. apply Hlow. lia. }
      exists k'. split; [lia|]. done.
    + exists k. auto with lia.
Qed.

Lemma byteToCharPos_spec flags text bytePos :
  exists k, byteToCharPos flags text bytePos = Some (Z.of_nat k) /\
    (Nat.min bytePos (length text) <= prefix_size flags text k)%nat /\
    (forall j, (j < k)%nat -> (prefix_size flags text j < Nat.min bytePos (length text))%nat).
Proof.
  unfold byteToCharPos. destruct (Nat.leb_spec (length text) bytePos) as [Hge|Hlt].
  - exists (length (runes flags text)). split; [apply count_spec|]. rewrite prefix_size_ge by lia.
    split; [lia|]. intros j Hj. rewrite Nat.min_r by lia. pose proof (prefix_size_S flags text j Hj).
    pose proof (prefix_size_mono flags text (S j) (length (runes flags text)) ltac:(lia)).
    pose proof (prefix_size_ge flags text (length (runes flags text)) ltac:(lia)). lia.
  - destruct (byteToCharPos_loop_spec bytePos flags text bytePos 0) as (k & _ & H1 & H2 & H3); [lia|lia|intros; lia|].
    exists k. rewrite Nat.min_l by lia. done.
Qed.

Lemma charToBytePos_spec flags text p : charToBytePos flags text p = prefix_size flags text p.
Proof.
  unfold charToBytePos. destruct (Nat.leb_spec (length text) p) as [Hge|Hlt].
  - symmetry. apply prefix_size_ge. pose proof (rune_bytes_long _ (runes_nonempty flags text)) as Hl.
    rewrite runes_concat in Hl. lia.
  - rewrite eat_runes_spec. pose proof (prefix_size_split flags text p). lia.
Qed.

Lemma substrMemory_spec flags text i n :
  substrMemory flags text i n = rune_bytes (take n (drop i (runes flags text))).
Proof.
  unfold substrMemory. rewrite !skip_runes_spec. cbn [fst]. rewrite runes_tail.
  set (rs := drop i (runes flags text)).
  assert (Forall (fun r : Z * list Z => (0 < length r.2)%nat) rs) as Hrs by (apply Forall_drop, runes_nonempty).
  destruct (Nat.leb_spec (length (rune_bytes rs)) n) as [Hle|Hgt].
  - pose proof (rune_bytes_long rs Hrs). by rewrite take_ge by lia.
  - rewrite <- (take_drop n rs) at 1 3. rewrite rune_bytes_app, length_app.
    replace (_ + length (rune_bytes (drop n rs)) - length (rune_bytes (drop n rs)))%nat
      with (length (rune_bytes (take n rs))) by lia.
    apply take_app_length.
Qed.

Lemma charAt_spec flags text i : charAt flags text i = nth i (decode flags text) 0.
Proof.
  unfold charAt, decode. rewrite skip_runes_spec.
  destruct (Nat.lt_ge_cases i (length (runes flags text))) as [Hlt|Hge].
  - replace (i - length (runes flags text))%nat with 0%nat by lia. cbn [Nat.eqb andb].
    set (rs := drop i (runes flags text)).
    pose proof (runes_tail flags text i) as Ht. fold rs in Ht.
    assert (rune_bytes rs <> []) as Hne.
    { intros E. rewrite E, runes_nil in Ht. apply (f_equal length) in Ht. subst rs. rewrite length_drop in Ht. simpl in Ht. lia. }
    rewrite (proj2 (hasMore_spec _) Hne). rewrite runes_cons in Ht by done.
    destruct (lookup_lt_is_Some_2 (runes flags text) i Hlt) as [r Hr].
    assert (head rs = Some r) as Hh by (subst rs; by rewrite (drop_S _ r i Hr)).
    rewrite <- Ht in Hh. simpl in Hh. injection Hh as <-. symmetry.
    rewrite (nth_indep _ 0 (eat flags (rune_bytes rs)).1) by (rewrite length_map; lia).
    apply nth_lookup_Some with (d := (eat flags (rune_bytes rs)).1).
    rewrite list_lookup_fmap. by rewrite Hr.
  - rewrite (nth_overflow _ 0) by (rewrite length_map; lia).
    rewrite (drop_ge _ i) by lia. cbn [rune_bytes map concat hasMore length negb]. by rewrite andb_false_r.
Qed.

(** ** Properties *)

Lemma append_nonempty flags ch : encodable flags ch -> append flags ch <> [].
Proof.
  intros Hch E. pose proof (eat_append flags ch [] Hch) as H1. pose proof (eat_append flags ch [0x41] Hch) as H2.
  rewrite E, app_nil_l, eat_nil in H1. rewrite E, app_nil_l in H2. injection H1 as <-. done.
Qed.

Lemma decode_encode_chars flags chars : Forall (encodable flags) chars -> decode flags (encode flags chars) = chars.
Proof.
  induction 1 as [|ch chars Hch _ IH]; [done|]. unfold decode, encode in *. cbn [map concat].
  rewrite runes_cons; [rewrite eat_append by done; cbn [map fst snd]; by rewrite IH|].
  intros E. apply app_eq_nil in E as [E _]. by apply append_nonempty in E.
Qed.

(** Encoding and decoding: for every combination of flags, every
    character the flags admit is read back by one eat() from what append()
    wrote, whatever follows, and a sequence of such characters is read back
    from the concatenation. *)
Theorem utf8_decode_encode flags chars :
  Forall (encodable flags) chars ->
  decode flags (encode flags chars) = chars /\
  (forall ch rest, In ch chars -> eat flags (append flags ch ++ rest) = (ch, rest)).
Proof.
  intros Hall. split; [by apply decode_encode_chars|].
  intros ch rest Hin. apply eat_append. rewrite List.Forall_forall in Hall. by apply Hall.
Qed.

Lemma utf8_decode_encode_witness :
  decode 0 (encode 0 [0x41; 0xE4; 0x20AC; 0x1F600]) = [0x41; 0xE4; 0x20AC; 0x1F600].
Proof.
  apply (utf8_decode_encode 0 [0x41; 0xE4; 0x20AC; 0x1F600]).
  repeat constructor; try (vm_compute; congruence); right; split; reflexivity.
Defined.

(** C37. Transparency: with AllowErrorEscapes, and without AllowEncodedZero, AllowSurrogates
    and AllowNonMinimal, with which different byte strings stand for the same characters, decoding any byte string, valid
    UTF-8 or not, and encoding the characters again gives the same bytes. *)
Theorem utf8_transparent flags text :
  transparent flags -> bytes text -> encode flags (decode flags text) = text.
Proof.
  intros Hf. unfold decode, encode.
  induction text as [|data Hne IH] using (runes_ind flags); intros Hb; [done|].
  rewrite runes_cons by done. cbn [map concat fst].
  destruct (eat_progress flags data Hne) as (k & Hk & Ek).
  rewrite IH by (rewrite Ek; by apply Forall_drop). by apply append_eat.
Qed.

Lemma utf8_transparent_witness :
  encode AllowErrorEscapes (decode AllowErrorEscapes [0xC3; 0xA4; 0xFF; 0xC3; 0x41; 0xED; 0xA0; 0x80])
    = [0xC3; 0xA4; 0xFF; 0xC3; 0x41; 0xED; 0xA0; 0x80].
Proof.
  apply (utf8_transparent AllowErrorEscapes); [repeat split|].
  apply (bool_decide_unpack _). vm_compute. exact I.
Defined.

(** Positions: the runes divide the text into non-empty pieces, each
    read by one eat(); all loops terminate, and length(), substr(), charAt(),
    charToBytePos() and byteToCharPos() are what that division says:
    byteToCharPos() is the number of the first rune boundary at or behind the
    byte position, and inverts charToBytePos(). *)
Theorem utf8_positions flags text i n :
  let rs := runes flags text in
  rune_bytes rs = text /\ Forall (fun r => (0 < length r.2)%nat) rs /\
  utf8_length flags text = Some (Z.of_nat (length rs)) /\
  substrMemory flags text i n = rune_bytes (take n (drop i rs)) /\
  charAt flags text i = nth i (map fst rs) 0 /\
  charToBytePos flags text i = length (rune_bytes (take i rs)) /\
  (exists k, byteToCharPos flags text i = Some (Z.of_nat k) /\
     (Nat.min i (length text) <= charToBytePos flags text k)%nat /\
     (forall j, (j < k)%nat -> (charToBytePos flags text j < Nat.min i (length text))%nat)) /\
  byteToCharPos flags text (charToBytePos flags text i) = Some (Z.of_nat (Nat.min i (length rs))).
Proof.
  cbv zeta. split; [apply runes_concat|]. split; [apply runes_nonempty|]. split; [apply count_spec|].
  split; [apply substrMemory_spec|]. split; [apply charAt_spec|]. split; [apply charToBytePos_spec|]. split.
  - destruct (byteToCharPos_spec flags text i) as (k & H1 & H2 & H3). exists k.
    setoid_rewrite charToBytePos_spec. done.
  - destruct (byteToCharPos_spec flags text (charToBytePos flags text i)) as (k & -> & H2 & H3).
    rewrite !charToBytePos_spec in *. do 2 f_equal. set (m := Nat.min i (length (runes flags text))).
    assert (prefix_size flags text i = prefix_size flags text m) as Em.
    { subst m. destruct (Nat.min_spec i (length (runes flags text))) as [[? ->]|[? ->]]; [done|]. by rewrite !prefix_size_ge. }
    assert (prefix_size flags text i <= length text)%nat as Hle by (pose proof (prefix_size_split flags text i); lia).
    rewrite Nat.min_l, Em in H2, H3 by lia.
    destruct (Nat.lt_trichotomy k m) as [Hlt|[?|Hgt]]; [|done|].
    + pose proof (prefix_size_S flags text k ltac:(subst m; lia)).
      pose proof (prefix_size_mono flags text (S k) m ltac:(lia)). lia.
    + specialize (H3 m Hgt). lia.
Qed.

Example utf8_positions_example :
  byteToCharPos 0 [0xC3; 0xA4; 0x41; 0xE2; 0x82; 0xAC; 0x42] 3 = Some 2 /\
  substrMemory 0 [0xC3; 0xA4; 0x41; 0xE2; 0x82; 0xAC; 0x42] 1 2 = [0x41; 0xE2; 0x82; 0xAC].
Proof. split; reflexivity. Qed.
