(* ===== verification/Encodings.v ===== *)
(** * Transport encodings

    src/afl/string/hex.cpp and src/afl/charset/hexencoding.cpp, base64.cpp,
    quotedprintable.cpp, urlencoding.cpp, and Hash::getHashAsHexString of
    src/afl/checksums/hash.cpp.  Strings and byte arrays are lists of bytes;
    loops that eat() from the input are recursion over it. *)

From Stdlib Require Import ZArith Lia Bool.
From stdpp Require Import base tactics numbers option list.
From S2P Require Import Prelude Hash Md5Sha1.

Local Open Scope Z_scope.

(** ** Interface (charset.hpp) *)

Class Charset (C : Type) := {
  cs_encode : C -> list Z -> list Z;
  cs_decode : C -> list Z -> list Z;
}.

(** A transport encoding: every byte string survives encoding and decoding. *)
Class TransportEncoding (C : Type) `{!Charset C} (valid : C -> Prop) : Prop :=
  decode_encode c s : valid c -> bytes s -> cs_decode c (cs_encode c s) = s.

(** ** Hex digits (hex.cpp) *)

Definition HEX_DIGITS_UPPER : list Z :=
  [48; 49; 50; 51; 52; 53; 54; 55; 56; 57; 65; 66; 67; 68; 69; 70].
Definition HEX_DIGITS_LOWER : list Z :=
  [48; 49; 50; 51; 52; 53; 54; 55; 56; 57; 97; 98; 99; 100; 101; 102].

Definition getHexDigitValue (c : Z) : Z :=
  if (48 <=? c) && (c <=? 57) then c - 48
  else if (65 <=? c) && (c <=? 70) then c - 65 + 10
  else if (97 <=? c) && (c <=? 102) then c - 97 + 10
  else -1.

Definition digit (digits : list Z) (i : Z) : Z := nth (Z.to_nat i) digits 0.

Definition putHexByte (b : Z) (digits : list Z) : list Z :=
  [digit digits (Z.land (Z.shiftr b 4) 15); digit digits (Z.land b 15)].

(** [Hash::getHashAsHexString] *)
Definition getHashAsHexString {H} `{!Hash H} (h : H) : list Z :=
  concat (map (fun p => putHexByte p HEX_DIGITS_LOWER) (getHash h MAX_HASH_SIZE)).

(** ** Hex encoding *)

Record HexEncoding := { m_digits : list Z }.

Fixpoint hex_encode (digits : list Z) (inp : list Z) : list Z :=
  match inp with
  | [] => []
  | i :: inp' => digit digits (Z.shiftr i 4) :: digit digits (Z.land i 15) :: hex_encode digits inp'
  end.

Fixpoint hex_decode (inp : list Z) : list Z :=
  match inp with
  | [] => []
  | p :: inp' =>
      let a := getHexDigitValue p in
      if 0 <=? a then
        match inp' with
        | q :: inp'' =>
            let b := getHexDigitValue q in
            if 0 <=? b then u8 (16 * a + b) :: hex_decode inp'' else hex_decode inp''
        | [] => []
        end
      else hex_decode inp'
  end.

#[export] Instance HexEncoding_charset : Charset HexEncoding := {
  cs_encode c inp := hex_encode (m_digits c) inp;
  cs_decode c inp := hex_decode inp;
}.

(** ** Base64 *)

Inductive Base64 := MkBase64.

Definition g_base64Alphabet : list Z :=
  map Z.of_nat (seq 65 26) ++ map Z.of_nat (seq 97 26) ++ map Z.of_nat (seq 48 10) ++ [43; 47].

Fixpoint position (c : Z) (l : list Z) : option Z :=
  match l with
  | [] => None
  | x :: l' => if x =? c then Some 0 else option_map (Z.add 1) (position c l')
  end.

Definition b64Value (c : Z) : Z :=
  match position c g_base64Alphabet with
  | Some i => u8 i
  | None => 0
  end.

(** [g_base64Alphabet[(value >> k) & 63]] *)
Definition b64_char (value k : Z) : Z := digit g_base64Alphabet (Z.land (Z.shiftr value k) 63).

Fixpoint base64_encode (inp : list Z) : list Z :=
  match inp with
  | p0 :: p1 :: p2 :: inp' =>
      let value := 65536 * p0 + 256 * p1 + p2 in
      b64_char value 18 :: b64_char value 12 :: b64_char value 6 :: b64_char value 0 :: base64_encode inp'
  | [p1; p2] =>
      let value := 65536 * p1 + 256 * p2 in
      [b64_char value 18; b64_char value 12; b64_char value 6; 61]
  | [p1] =>
      let value := 65536 * p1 in
      [b64_char value 18; b64_char value 12; 61; 61]
  | [] => []
  end.

(** [while (!in.empty())]: up to four characters per iteration. *)
Fixpoint base64_decode_loop (inp : list Z) : list Z :=
  match inp with
  | [] => []
  | c1 :: inp =>
      let value := Z.shiftl (b64Value c1) 18 in
      match inp with
      | [] => []
      | c2 :: inp =>
          let value := value + Z.shiftl (b64Value c2) 12 in
          Z.land (Z.shiftr value 16) 255 ::
          match inp with
          | [] => []
          | c3 :: inp =>
              let value := value + Z.shiftl (b64Value c3) 6 in
              Z.land (Z.shiftr value 8) 255 ::
              match inp with
              | [] => []
              | c4 :: inp =>
                  let value := value + b64Value c4 in
                  Z.land value 255 :: base64_decode_loop inp
              end
          end
      end
  end.

Definition base64_decode (inp : list Z) : list Z :=
  base64_decode_loop (take (trim_right 61 inp (length inp)) inp).

#[export] Instance Base64_charset : Charset Base64 := {
  cs_encode _ inp := base64_encode inp;
  cs_decode _ inp := base64_decode inp;
}.

(** ** Quoted-printable and URL encoding *)

(** The escape character followed by two upper-case hex digits. *)
Definition escaped (esc u : Z) : list Z :=
  [esc; digit HEX_DIGITS_UPPER (Z.shiftr u 4); digit HEX_DIGITS_UPPER (Z.land u 15)].

Inductive QuotedPrintable := MkQuotedPrintable.

Fixpoint qp_encode (inp : list Z) : list Z :=
  match inp with
  | [] => []
  | u :: inp' =>
      (if (0x80 <=? u) || (u <? 0x20) || (u =? 61) then escaped 61 u else [u]) ++ qp_encode inp'
  end.

Fixpoint qp_decode (inp : list Z) : list Z :=
  match inp with
  | [] => []
  | pc :: inp' =>
      if pc =? 61 then
        match inp' with
        | p0 :: p1 :: inp'' =>
            let a := getHexDigitValue p0 in
            let b := getHexDigitValue p1 in
            if (0 <=? a) && (0 <=? b) then u8 (16 * a + b) :: qp_decode inp''
            else pc :: p0 :: p1 :: qp_decode inp''
        | _ => pc :: qp_decode inp'
        end
      else pc :: qp_decode inp'
  end.

#[export] Instance QuotedPrintable_charset : Charset QuotedPrintable := {
  cs_encode _ inp := qp_encode inp;
  cs_decode _ inp := qp_decode inp;
}.

Inductive UrlEncoding := MkUrlEncoding.

(** '%' is 37, '&' 38, '+' 43, '=' 61, the space 32. *)
Fixpoint url_encode (inp : list Z) : list Z :=
  match inp with
  | [] => []
  | u :: inp' =>
      (if (0x80 <=? u) || (u <? 0x20) || (u =? 37) || (u =? 38) || (u =? 43) || (u =? 61) then escaped 37 u
       else if u =? 32 then [43]
       else [u]) ++ url_encode inp'
  end.

Fixpoint url_decode (inp : list Z) : list Z :=
  match inp with
  | [] => []
  | pc :: inp' =>
      let other := if pc =? 43 then 32 else pc in
      if pc =? 37 then
        match inp' with
        | p0 :: p1 :: inp'' =>
            let a := getHexDigitValue p0 in
            let b := getHexDigitValue p1 in
            if (0 <=? a) && (0 <=? b) then u8 (16 * a + b) :: url_decode inp''
            else pc :: p0 :: p1 :: url_decode inp''
        | _ => other :: url_decode inp'
        end
      else other :: url_decode inp'
  end.

#[export] Instance UrlEncoding_charset : Charset UrlEncoding := {
  cs_encode _ inp := url_encode inp;
  cs_decode _ inp := url_decode inp;
}.

(** ** Lemmas *)

(** The digit sets the library provides. *)
Definition valid_digits (digits : list Z) : Prop := digits = HEX_DIGITS_UPPER \/ digits = HEX_DIGITS_LOWER.

(** The digits of a byte, read back. *)
Lemma hex_byte_digits digits b :
  valid_digits digits -> is_byte b ->
  0 <= getHexDigitValue (digit digits (Z.shiftr b 4)) /\ 0 <= getHexDigitValue (digit digits (Z.land b 15)) /\
  u8 (16 * getHexDigitValue (digit digits (Z.shiftr b 4)) + getHexDigitValue (digit digits (Z.land b 15))) = b.
Proof.
  intros Hd Hb.
  assert ((0 <=? getHexDigitValue (digit digits (Z.shiftr b 4))) && (0 <=? getHexDigitValue (digit digits (Z.land b 15)))
    && (u8 (16 * getHexDigitValue (digit digits (Z.shiftr b 4)) + getHexDigitValue (digit digits (Z.land b 15))) =? b) = true) as H.
  { revert b Hb. destruct Hd as [-> | ->]; apply all_bytes; vm_compute; reflexivity. }
  apply andb_prop in H as [H H3]. apply andb_prop in H as [H1 H2].
  apply Z.leb_le in H1, H2. apply Z.eqb_eq in H3. done.
Qed.

#[export] Instance HexEncoding_transport : TransportEncoding HexEncoding (fun c => valid_digits (m_digits c)).
Proof.
  intros [digits] s Hd Hs. cbn in *. induction Hs as [|b s Hb Hs IH]; [done|]. cbn [hex_encode hex_decode].
  destruct (hex_byte_digits digits b Hd Hb) as (H1 & H2 & H3).
  rewrite !(proj2 (Z.leb_le 0 _)) by done. by rewrite H3, IH.
Qed.

Lemma putHexByte_encode b digits s : is_byte b -> putHexByte b digits ++ hex_encode digits s = hex_encode digits (b :: s).
Proof.
  intros Hb. unfold putHexByte. cbn [hex_encode app]. do 2 f_equal.
  unfold is_byte in Hb. change 15 with (Z.ones 4). rewrite Z.land_ones, Z.shiftr_div_pow2 by lia.
  apply Z.mod_small. split; [apply Z.div_pos; lia|apply Z.div_lt_upper_bound; lia].
Qed.

(** Base64: the value of an alphabet character. *)
Lemma b64Value_char i : 0 <= i < 64 -> b64Value (digit g_base64Alphabet i) = i /\ digit g_base64Alphabet i <> 61.
Proof.
  intros Hi. assert (forallb (fun i => (b64Value (digit g_base64Alphabet i) =? i) && negb (digit g_base64Alphabet i =? 61))
    (map Z.of_nat (seq 0 64)) = true) as H by (vm_compute; reflexivity).
  rewrite forallb_forall in H. specialize (H i). apply andb_prop in H as [H1 H2].
  - apply Z.eqb_eq in H1. apply negb_true_iff, Z.eqb_neq in H2. done.
  - apply in_map_iff. exists (Z.to_nat i). split; [lia|]. apply in_seq. lia.
Qed.

Lemma b64_char_digit value k : 0 <= k -> b64_char value k = digit g_base64Alphabet ((value / 2 ^ k) mod 64).
Proof.
  intros Hk. unfold b64_char. change 63 with (Z.ones 6). by rewrite Z.land_ones, Z.shiftr_div_pow2 by lia.
Qed.

Lemma b64Value_b64_char value k : 0 <= k -> b64Value (b64_char value k) = (value / 2 ^ k) mod 64.
Proof. intros Hk. rewrite b64_char_digit by done. apply b64Value_char. apply Z.mod_pos_bound. lia. Qed.

Lemma b64_char_not_pad value k : 0 <= k -> b64_char value k <> 61.
Proof. intros Hk. rewrite b64_char_digit by done. apply b64Value_char. apply Z.mod_pos_bound. lia. Qed.

Lemma land_255 x : Z.land x 255 = x mod 256.
Proof. change 255 with (Z.ones 8). by rewrite Z.land_ones by lia. Qed.

(** The bytes of a 24-bit value, from the sums of its 6-bit digits. *)
Lemma sextets value :
  0 <= value < 2 ^ 24 ->
  let d k := (value / 2 ^ k) mod 64 * 2 ^ k in
  ((d 18 + d 12) / 65536) mod 256 = value / 65536 /\
  ((d 18 + d 12 + d 6) / 256) mod 256 = (value / 256) mod 256 /\
  (d 18 + d 12 + d 6 + (value / 2 ^ 0) mod 64) mod 256 = value mod 256.
Proof.
  intros Hv d. subst d. cbv beta.
  change (2 ^ 0) with 1. change (2 ^ 6) with 64. change (2 ^ 12) with 4096. change (2 ^ 18) with 262144.
  rewrite Z.div_1_r. split_and!; Z.to_euclidean_division_equations; lia.
Qed.

(** What decoding makes of the characters of a 24-bit value. *)
Ltac decode_chars :=
  cbn [base64_decode_loop]; rewrite !b64Value_b64_char by lia;
  rewrite !land_255, !Z.shiftl_mul_pow2, ?Z.shiftr_div_pow2 by lia.

Lemma decode_value_4 value rest :
  0 <= value < 2 ^ 24 ->
  base64_decode_loop (b64_char value 18 :: b64_char value 12 :: b64_char value 6 :: b64_char value 0 :: rest)
    = value / 65536 :: (value / 256) mod 256 :: value mod 256 :: base64_decode_loop rest.
Proof. intros Hv. destruct (sextets value Hv) as (H1 & H2 & H3). decode_chars. by rewrite <- H1, <- H2, <- H3. Qed.

Lemma decode_value_3 value :
  0 <= value < 2 ^ 24 ->
  base64_decode_loop [b64_char value 18; b64_char value 12; b64_char value 6] = [value / 65536; (value / 256) mod 256].
Proof. intros Hv. destruct (sextets value Hv) as (H1 & H2 & _). decode_chars. by rewrite <- H1, <- H2. Qed.

Lemma decode_value_2 value :
  0 <= value < 2 ^ 24 -> base64_decode_loop [b64_char value 18; b64_char value 12] = [value / 65536].
Proof. intros Hv. destruct (sextets value Hv) as (H1 & _). decode_chars. by rewrite <- H1. Qed.

(** Induction in steps of three. *)
Lemma list_ind3 {A} (P : list A -> Prop) :
  P [] -> (forall a, P [a]) -> (forall a b, P [a; b]) -> (forall a b c l, P l -> P (a :: b :: c :: l)) -> forall l, P l.
Proof.
  intros H0 H1 H2 H3. assert (forall l, P l /\ (forall a, P (a :: l)) /\ (forall a b, P (a :: b :: l))) as H.
  { induction l as [|x l (IH1 & IH2 & IH3)]; auto. }
  intros l. apply H.
Qed.

Lemma value_bytes a b c :
  is_byte a -> is_byte b -> is_byte c ->
  let value := 65536 * a + 256 * b + c in
  0 <= value < 2 ^ 24 /\ value / 65536 = a /\ (value / 256) mod 256 = b /\ value mod 256 = c.
Proof.
  intros Ha Hb Hc value. unfold is_byte in *. subst value.
  split; [lia|]. split_and!; Z.to_euclidean_division_equations; lia.
Qed.

(** The encoded text is a core that decodes to the input, and padding. *)
Lemma base64_core s :
  bytes s ->
  exists core k, base64_encode s = core ++ replicate k 61 /\ last core <> Some 61 /\
    base64_decode_loop core = s /\ length (base64_encode s) = ((length s + 2) / 3 * 4)%nat.
Proof.
  induction s as [|a|a b|a b c s IH] using list_ind3; intros Hs.
  - exists [], 0%nat. done.
  - apply Forall_cons in Hs as [Ha _]. assert (is_byte 0) as H0 by (unfold is_byte; lia).
    destruct (value_bytes a 0 0 Ha H0 H0) as (Hv & E1 & _). replace (65536 * a + 256 * 0 + 0) with (65536 * a) in * by lia.
    eexists [_; _], 2%nat. split; [done|]. split; [|split; [|done]].
    + simpl. intros [= E]. by apply b64_char_not_pad in E.
    + by rewrite decode_value_2, E1.
  - apply Forall_cons in Hs as [Ha Hs]. apply Forall_cons in Hs as [Hb _]. assert (is_byte 0) as H0 by (unfold is_byte; lia).
    destruct (value_bytes a b 0 Ha Hb H0) as (Hv & E1 & E2 & _). replace (65536 * a + 256 * b + 0) with (65536 * a + 256 * b) in * by lia.
    eexists [_; _; _], 1%nat. split; [done|]. split; [|split; [|done]].
    + simpl. intros [= E]. by apply b64_char_not_pad in E.
    + by rewrite decode_value_3, E1, E2.
  - apply Forall_cons in Hs as [Ha Hs]. apply Forall_cons in Hs as [Hb Hs]. apply Forall_cons in Hs as [Hc Hs].
    destruct (IH Hs) as (core & k & E & Hlast & Hdec & Hlen).
    destruct (value_bytes a b c Ha Hb Hc) as (Hv & E1 & E2 & E3).
    cbn [base64_encode]. set (value := 65536 * a + 256 * b + c) in *.
    exists (b64_char value 18 :: b64_char value 12 :: b64_char value 6 :: b64_char value 0 :: core), k.
    split; [by rewrite E|]. split; [|split].
    + destruct core as [|x core]; [simpl; intros [= E']; by apply b64_char_not_pad in E'|]. by rewrite !last_cons_cons.
    + by rewrite decode_value_4, E1, E2, E3, Hdec.
    + cbn [length]. rewrite Hlen. replace (S (S (S (length s))) + 2)%nat with (length s + 2 + 1 * 3)%nat by lia.
      rewrite Nat.div_add by lia. lia.
Qed.

#[export] Instance Base64_transport : TransportEncoding Base64 (fun _ => True).
Proof.
  intros [] s _ Hs. cbn [cs_encode cs_decode Base64_charset]. unfold base64_decode.
  destruct (base64_core s Hs) as (core & k & -> & Hlast & Hdec & _).
  rewrite length_app, length_replicate, trim_right_padding by done. by rewrite take_app_length.
Qed.

(** An escape sequence, read back. *)
Lemma escaped_digits u :
  is_byte u ->
  let a := getHexDigitValue (digit HEX_DIGITS_UPPER (Z.shiftr u 4)) in
  let b := getHexDigitValue (digit HEX_DIGITS_UPPER (Z.land u 15)) in
  (0 <=? a) && (0 <=? b) = true /\ u8 (16 * a + b) = u.
Proof.
  intros Hu a b. destruct (hex_byte_digits HEX_DIGITS_UPPER u (or_introl eq_refl) Hu) as (H1 & H2 & H3).
  split; [|done]. by rewrite !(proj2 (Z.leb_le 0 _)).
Qed.

#[export] Instance QuotedPrintable_transport : TransportEncoding QuotedPrintable (fun _ => True).
Proof.
  intros [] s _ Hs. cbn [cs_encode cs_decode QuotedPrintable_charset].
  induction Hs as [|u s Hu Hs IH]; [done|]. cbn [qp_encode].
  destruct ((0x80 <=? u) || (u <? 0x20) || (u =? 61)) eqn:E.
  - unfold escaped. cbn [app qp_decode]. rewrite Z.eqb_refl.
    destruct (escaped_digits u Hu) as [-> ->]. by rewrite IH.
  - apply orb_false_iff in E as [_ E]. cbn [app qp_decode]. by rewrite E, IH.
Qed.

#[export] Instance UrlEncoding_transport : TransportEncoding UrlEncoding (fun _ => True).
Proof.
  intros [] s _ Hs. cbn [cs_encode cs_decode UrlEncoding_charset].
  induction Hs as [|u s Hu Hs IH]; [done|]. cbn [url_encode].
  destruct (_ || (u =? 61)) eqn:E.
  - unfold escaped. cbn [app url_decode]. rewrite Z.eqb_refl.
    destruct (escaped_digits u Hu) as [-> ->]. by rewrite IH.
  - apply orb_false_iff in E as [E _]. apply orb_false_iff in E as [E E43]. apply orb_false_iff in E as [E _].
    apply orb_false_iff in E as [_ E37]. destruct (Z.eqb_spec u 32) as [->|_]; cbn [app url_decode].
    + by rewrite IH.
    + by rewrite E37, E43, IH.
Qed.

(** *** Characters of the encoded text *)

(** Printable ASCII (and DEL), less the given exceptions. *)
Definition text_char (except : list Z) (c : Z) : bool :=
  (0x20 <=? c) && (c <? 0x80) && forallb (fun x => negb (c =? x)) except.

Lemma url_encode_chars s : bytes s -> forallb (text_char [32; 38; 61]) (url_encode s) = true.
Proof.
  induction 1 as [|u s Hu _ IH]; [done|]. cbn [url_encode]. rewrite forallb_app, IH, andb_true_r.
  revert u Hu. apply all_bytes. vm_compute. reflexivity.
Qed.

Lemma qp_encode_chars s : bytes s -> forallb (text_char []) (qp_encode s) = true.
Proof.
  induction 1 as [|u s Hu _ IH]; [done|]. cbn [qp_encode]. rewrite forallb_app, IH, andb_true_r.
  revert u Hu. apply all_bytes. vm_compute. reflexivity.
Qed.

Lemma b64_char_text value k : 0 <= k -> text_char [32; 38; 45; 95] (b64_char value k) = true.
Proof.
  intros Hk. rewrite b64_char_digit by done. set (i := (value / 2 ^ k) mod 64).
  assert (0 <= i < 64) as Hi by (apply Z.mod_pos_bound; lia). clearbody i.
  assert (forallb (fun i => text_char [32; 38; 45; 95] (digit g_base64Alphabet i)) (map Z.of_nat (seq 0 64)) = true) as H
    by (vm_compute; reflexivity).
  rewrite forallb_forall in H. apply H, in_map_iff. exists (Z.to_nat i). split; [lia|]. apply in_seq. lia.
Qed.

Lemma base64_encode_chars s : forallb (text_char [32; 38; 45; 95]) (base64_encode s) = true.
Proof.
  induction s as [|a|a b|a b c s IH] using list_ind3; cbn [base64_encode forallb];
    rewrite ?b64_char_text, ?IH by lia; done.
Qed.

Lemma hex_string_encode l :
  bytes l -> concat (map (fun p => putHexByte p HEX_DIGITS_LOWER) l) = hex_encode HEX_DIGITS_LOWER l.
Proof.
  induction 1 as [|b l Hb _ IH]; [done|]. cbn [map concat]. rewrite IH. by apply putHexByte_encode.
Qed.

Lemma hex_encode_length digits l : length (hex_encode digits l) = (2 * length l)%nat.
Proof. induction l as [|b l IH]; [done|]. cbn [hex_encode length]. rewrite IH. lia. Qed.

Lemma hex_encode_digits digits l : valid_digits digits -> bytes l -> Forall (fun c => c ∈ digits) (hex_encode digits l).
Proof.
  intros Hd. induction 1 as [|b l Hb _ IH]; cbn [hex_encode]; [constructor|]. constructor; [|constructor; [|done]].
  all: apply (bool_decide_eq_true_1 _); revert b Hb; destruct Hd as [-> | ->]; apply all_bytes; vm_compute; reflexivity.
Qed.

(** Base64 text: characters of the alphabet, and as many = as bytes are
    missing from the last group of three *)
Lemma b64_char_alphabet value k : 0 <= k -> b64_char value k ∈ g_base64Alphabet.
Proof.
  intros Hk. rewrite b64_char_digit by done. set (i := (value / 2 ^ k) mod 64).
  assert (0 <= i < 64) as Hi by (apply Z.mod_pos_bound; lia). clearbody i.
  unfold digit. apply list_elem_of_In, nth_In. change (length g_base64Alphabet) with 64%nat. lia.
Qed.

Lemma base64_encode_alphabet s : exists core,
  base64_encode s = core ++ replicate ((3 - length s mod 3) mod 3) 61 /\ Forall (fun c => c ∈ g_base64Alphabet) core.
Proof.
  induction s as [|a|a b|a b c s (core & IH & Hc)] using list_ind3.
  - exists []. split; [done|constructor].
  - eexists [_; _]. split; [done|]. by repeat (constructor; [by apply b64_char_alphabet|]).
  - eexists [_; _; _]. split; [done|]. by repeat (constructor; [by apply b64_char_alphabet|]).
  - eexists (_ :: _ :: _ :: _ :: core). split; [|by repeat (constructor; [by apply b64_char_alphabet|])].
    cbn [base64_encode]. rewrite IH. cbn [length app]. replace (S (S (S (length s)))) with (length s + 1 * 3)%nat by lia.
    by rewrite Nat.Div0.mod_add.
Qed.

(** DEL is the only control character that is not escaped. *)
Lemma url_encode_del s : bytes s -> (127 ∈ url_encode s <-> 127 ∈ s).
Proof.
  induction 1 as [|u s Hu _ IH]; [done|]. cbn [url_encode]. rewrite elem_of_app, elem_of_cons, IH.
  set (here := if _ || _ then _ else _).
  assert (bool_decide (127 ∈ here) = bool_decide (127 = u)) as E
    by (subst here; apply eqb_prop; revert u Hu; apply all_bytes; vm_compute; reflexivity).
  assert (127 ∈ here <-> 127 = u) as ->; [|done].
  by rewrite <- (bool_decide_eq_true (127 ∈ here)), <- (bool_decide_eq_true (127 = u)), E.
Qed.

Lemma qp_encode_del s : bytes s -> (127 ∈ qp_encode s <-> 127 ∈ s).
Proof.
  induction 1 as [|u s Hu _ IH]; [done|]. cbn [qp_encode]. rewrite elem_of_app, elem_of_cons, IH.
  set (here := if _ || _ then _ else _).
  assert (bool_decide (127 ∈ here) = bool_decide (127 = u)) as E
    by (subst here; apply eqb_prop; revert u Hu; apply all_bytes; vm_compute; reflexivity).
  assert (127 ∈ here <-> 127 = u) as ->; [|done].
  by rewrite <- (bool_decide_eq_true (127 ∈ here)), <- (bool_decide_eq_true (127 = u)), E.
Qed.

(** ** Properties *)

(** Transport encodings: for every byte string, decoding the encoded
    string gives the string back, for Hex (with upper- or lower-case digits),
    Base64, quoted-printable and URL encoding. *)
Lemma transport_roundtrip digits s :
  valid_digits digits -> bytes s ->
  cs_decode {| m_digits := digits |} (cs_encode {| m_digits := digits |} s) = s /\
  cs_decode MkBase64 (cs_encode MkBase64 s) = s /\
  cs_decode MkQuotedPrintable (cs_encode MkQuotedPrintable s) = s /\
  cs_decode MkUrlEncoding (cs_encode MkUrlEncoding s) = s.
Proof.
  intros Hd Hs. split_and!.
  - by apply (decode_encode (valid := fun c => valid_digits (m_digits c))).
  - by apply (decode_encode (valid := fun _ => True)).
  - by apply (decode_encode (valid := fun _ => True)).
  - by apply (decode_encode (valid := fun _ => True)).
Qed.

(** Encoded text. *)
Lemma encoded_text digits s : valid_digits digits -> bytes s ->
  Forall (fun c => c ∈ digits) (hex_encode digits s) /\ length (hex_encode digits s) = (2 * length s)%nat /\
  (exists core, base64_encode s = core ++ replicate ((3 - length s mod 3) mod 3) 61 /\ Forall (fun c => c ∈ g_base64Alphabet) core) /\
  length (base64_encode s) = ((length s + 2) / 3 * 4)%nat /\
  Forall (fun c => 0x20 < c <= 0x7F /\ c <> 38 /\ c <> 61) (url_encode s) /\ (0x7F ∈ url_encode s <-> 0x7F ∈ s) /\
  Forall (fun c => 0x20 <= c <= 0x7F) (qp_encode s) /\ (0x7F ∈ qp_encode s <-> 0x7F ∈ s).
Proof.
  intros Hd Hs.
  assert (forall except l (P : Z -> Prop), forallb (text_char except) l = true ->
    (forall c, 0x20 <= c < 0x80 -> Forall (fun x => c <> x) except -> P c) -> Forall P l) as Hchars.
  { intros except l P Hl HP. apply List.Forall_forall. intros c Hc. rewrite forallb_forall in Hl.
    specialize (Hl c Hc). unfold text_char in Hl. apply andb_prop in Hl as [Hl He]. apply HP; [lia|].
    rewrite forallb_forall in He. apply List.Forall_forall. intros x Hx. specialize (He x Hx).
    by apply negb_true_iff, Z.eqb_neq in He. }
  split_and!.
  - by apply hex_encode_digits.
  - apply hex_encode_length.
  - apply base64_encode_alphabet.
  - by destruct (base64_core s Hs) as (_ & _ & _ & _ & _ & ?).
  - apply (Hchars _ _ _ (url_encode_chars s Hs)). intros c Hc He. rewrite !Forall_cons in He. lia.
  - by apply url_encode_del.
  - apply (Hchars _ _ _ (qp_encode_chars s Hs)). intros c Hc _. lia.
  - by apply qp_encode_del.
Qed.

(** The hex string of a hash *)
Lemma hash_hex_string H `{!Hash H} (h : H) : bytes (getHash h MAX_HASH_SIZE) ->
  length (getHashAsHexString h) = (2 * length (getHash h MAX_HASH_SIZE))%nat /\
  hex_decode (getHashAsHexString h) = getHash h MAX_HASH_SIZE.
Proof.
  intros Hh. unfold getHashAsHexString. rewrite hex_string_encode by done. split; [apply hex_encode_length|].
  exact (decode_encode (valid := fun c => valid_digits (m_digits c)) {| m_digits := HEX_DIGITS_LOWER |}
      (getHash h MAX_HASH_SIZE) (or_intror eq_refl) Hh).
Qed.

(** C38. Transport encodings.  Hex, Base64, quoted-printable and URL encoding
    are inverted by their decoders on every byte string.  Hex text has two digits
    of the given digit set per byte; Base64 text has four characters for every
    three bytes begun, which are of its alphabet but for as many = at the end as
    the last group lacks bytes.  URL-encoded text has no space, ampersand or
    equals sign, and neither it nor quoted-printable text has 8-bit or control
    characters, except that DEL is not escaped: it occurs exactly if the data has
    one.  The hex string of a hash has two digits per byte and decodes to the hash. *)
Theorem transport_encodings_correct :
  (forall digits s,
  valid_digits digits -> bytes s ->
  cs_decode {| m_digits := digits |} (cs_encode {| m_digits := digits |} s) = s /\
  cs_decode MkBase64 (cs_encode MkBase64 s) = s /\
  cs_decode MkQuotedPrintable (cs_encode MkQuotedPrintable s) = s /\
  cs_decode MkUrlEncoding (cs_encode MkUrlEncoding s) = s) /\
  (forall digits s, valid_digits digits -> bytes s ->
  Forall (fun c => c ∈ digits) (hex_encode digits s) /\ length (hex_encode digits s) = (2 * length s)%nat /\
  (exists core, base64_encode s = core ++ replicate ((3 - length s mod 3) mod 3) 61 /\ Forall (fun c => c ∈ g_base64Alphabet) core) /\
  length (base64_encode s) = ((length s + 2) / 3 * 4)%nat /\
  Forall (fun c => 0x20 < c <= 0x7F /\ c <> 38 /\ c <> 61) (url_encode s) /\ (0x7F ∈ url_encode s <-> 0x7F ∈ s) /\
  Forall (fun c => 0x20 <= c <= 0x7F) (qp_encode s) /\ (0x7F ∈ qp_encode s <-> 0x7F ∈ s)) /\
  (forall H `{!Hash H} (h : H), bytes (getHash h MAX_HASH_SIZE) ->
  length (getHashAsHexString h) = (2 * length (getHash h MAX_HASH_SIZE))%nat /\
  hex_decode (getHashAsHexString h) = getHash h MAX_HASH_SIZE).
Proof. exact (conj transport_roundtrip (conj encoded_text hash_hex_string)). Qed.

Lemma transport_encodings_correct_witness :
  cs_decode MkBase64 (cs_encode MkBase64 [102; 111; 111; 98]) = [102; 111; 111; 98] /\
  hex_decode (getHashAsHexString (MD5_new (replicate 64 0))) = getHash (MD5_new (replicate 64 0)) MAX_HASH_SIZE /\
  length (base64_encode [38; 32]) = 4%nat.
Proof.
  destruct transport_encodings_correct as (Hr & He & Hh). split.
  - apply (Hr HEX_DIGITS_LOWER [102; 111; 111; 98]); [right; reflexivity|].
    apply (bool_decide_unpack _). vm_compute. exact I.
  - split; [apply Hh; apply (bool_decide_unpack _); vm_compute; exact I|].
    apply (He HEX_DIGITS_UPPER [38; 32]); [left; reflexivity|]. apply (bool_decide_unpack _). vm_compute. exact I.
Defined.

