(* ===== verification/Codepage.v ===== *)
(** * Codepages

    src/afl/charset/codepage.hpp, codepage_*.cpp, codepagecharset.cpp and
    utf8charset.cpp: character sets over UTF-8 strings.  [Utf8Charset] copies;
    [CodepageCharset] translates through the table of the upper 128 characters. *)

From Stdlib Require Import ZArith Lia Bool.
From stdpp Require Import base tactics numbers option list.
From S2P Require Import Prelude Utf8 Encodings.

Local Open Scope Z_scope.

(** ** Definitions *)

(** The characters for 0x80 to 0xFF. *)
Record Codepage := { m_characters : list Z }.

Definition g_codepage1250 : Codepage := {| m_characters := concat [
    [0x20AC; 0x0000; 0x201A; 0x0000; 0x201E; 0x2026; 0x2020; 0x2021];
    [0x0000; 0x2030; 0x0160; 0x2039; 0x015A; 0x0164; 0x017D; 0x0179];
    [0x0000; 0x2018; 0x2019; 0x201C; 0x201D; 0x2219; 0x2013; 0x2014];
    [0x0000; 0x2122; 0x0161; 0x203A; 0x015B; 0x0165; 0x017E; 0x017A];
    [0x00A0; 0x02C7; 0x02D8; 0x0141; 0x00A4; 0x0104; 0x00A6; 0x00A7];
    [0x00A8; 0x00A9; 0x015E; 0x00AB; 0x00AC; 0x00AD; 0x00AE; 0x017B];
    [0x00B0; 0x00B1; 0x02DB; 0x0142; 0x00B4; 0x03BC; 0x00B6; 0x00B7];
    [0x00B8; 0x0105; 0x015F; 0x00BB; 0x013D; 0x02DD; 0x013E; 0x017C];
    [0x0154; 0x00C1; 0x00C2; 0x0102; 0x00C4; 0x0139; 0x0106; 0x00C7];
    [0x010C; 0x00C9; 0x0118; 0x00CB; 0x011A; 0x00CD; 0x00CE; 0x010E];
    [0x0110; 0x0143; 0x0147; 0x00D3; 0x00D4; 0x0150; 0x00D6; 0x00D7];
    [0x0158; 0x016E; 0x00DA; 0x0170; 0x00DC; 0x00DD; 0x0162; 0x00DF];
    [0x0155; 0x00E1; 0x00E2; 0x0103; 0x00E4; 0x013A; 0x0107; 0x00E7];
    [0x010D; 0x00E9; 0x0119; 0x00EB; 0x011B; 0x00ED; 0x00EE; 0x010F];
    [0x0111; 0x0144; 0x0148; 0x00F3; 0x00F4; 0x0151; 0x00F6; 0x00F7];
    [0x0159; 0x016F; 0x00FA; 0x0171; 0x00FC; 0x00FD; 0x0163; 0x02D9] ] |}.

Definition g_codepage1251 : Codepage := {| m_characters := concat [
    [0x0402; 0x0403; 0x201A; 0x0453; 0x201E; 0x2026; 0x2020; 0x2021];
    [0x20AC; 0x2030; 0x0409; 0x2039; 0x040A; 0x040C; 0x040B; 0x040F];
    [0x0452; 0x2018; 0x2019; 0x201C; 0x201D; 0x2219; 0x2013; 0x2014];
    [0x0000; 0x2122; 0x0459; 0x203A; 0x045A; 0x045C; 0x045B; 0x045F];
    [0x00A0; 0x040E; 0x045E; 0x0408; 0x00A4; 0x0490; 0x00A6; 0x00A7];
    [0x0401; 0x00A9; 0x0404; 0x00AB; 0x00AC; 0x00AD; 0x00AE; 0x0407];
    [0x00B0; 0x00B1; 0x0406; 0x0456; 0x0491; 0x03BC; 0x00B6; 0x00B7];
    [0x0451; 0x2116; 0x0454; 0x00BB; 0x0458; 0x0405; 0x0455; 0x0457];
    [0x0410; 0x0411; 0x0412; 0x0413; 0x0414; 0x0415; 0x0416; 0x0417];
    [0x0418; 0x0419; 0x041A; 0x041B; 0x041C; 0x041D; 0x041E; 0x041F];
    [0x0420; 0x0421; 0x0422; 0x0423; 0x0424; 0x0425; 0x0426; 0x0427];
    [0x0428; 0x0429; 0x042A; 0x042B; 0x042C; 0x042D; 0x042E; 0x042F];
    [0x0430; 0x0431; 0x0432; 0x0433; 0x0434; 0x0435; 0x0436; 0x0437];
    [0x0438; 0x0439; 0x043A; 0x043B; 0x043C; 0x043D; 0x043E; 0x043F];
    [0x0440; 0x0441; 0x0442; 0x0443; 0x0444; 0x0445; 0x0446; 0x0447];
    [0x0448; 0x0449; 0x044A; 0x044B; 0x044C; 0x044D; 0x044E; 0x044F] ] |}.

Definition g_codepage1252 : Codepage := {| m_characters := concat [
    [0x20AC; 0x0000; 0x201A; 0x0192; 0x201E; 0x2026; 0x2020; 0x2021];
    [0x005E; 0x2030; 0x0160; 0x2039; 0x0152; 0x0000; 0x017D; 0x0000];
    [0x0000; 0x2018; 0x2019; 0x201C; 0x201D; 0x2219; 0x2013; 0x2014];
    [0x007E; 0x2122; 0x0161; 0x203A; 0x0153; 0x0000; 0x017E; 0x0178];
    [0x00A0; 0x00A1; 0x00A2; 0x00A3; 0x00A4; 0x00A5; 0x00A6; 0x00A7];
    [0x00A8; 0x00A9; 0x00AA; 0x00AB; 0x00AC; 0x00AD; 0x00AE; 0x00AF];
    [0x00B0; 0x00B1; 0x00B2; 0x00B3; 0x00B4; 0x03BC; 0x00B6; 0x00B7];
    [0x00B8; 0x00B9; 0x00BA; 0x00BB; 0x00BC; 0x00BD; 0x00BE; 0x00BF];
    [0x00C0; 0x00C1; 0x00C2; 0x00C3; 0x00C4; 0x00C5; 0x00C6; 0x00C7];
    [0x00C8; 0x00C9; 0x00CA; 0x00CB; 0x00CC; 0x00CD; 0x00CE; 0x00CF];
    [0x00D0; 0x00D1; 0x00D2; 0x00D3; 0x00D4; 0x00D5; 0x00D6; 0x00D7];
    [0x00D8; 0x00D9; 0x00DA; 0x00DB; 0x00DC; 0x00DD; 0x00DE; 0x00DF];
    [0x00E0; 0x00E1; 0x00E2; 0x00E3; 0x00E4; 0x00E5; 0x00E6; 0x00E7];
    [0x00E8; 0x00E9; 0x00EA; 0x00EB; 0x00EC; 0x00ED; 0x00EE; 0x00EF];
    [0x00F0; 0x00F1; 0x00F2; 0x00F3; 0x00F4; 0x00F5; 0x00F6; 0x00F7];
    [0x00F8; 0x00F9; 0x00FA; 0x00FB; 0x00FC; 0x00FD; 0x00FE; 0x00FF] ] |}.

Definition g_codepage437 : Codepage := {| m_characters := concat [
    [0x00C7; 0x00FC; 0x00E9; 0x00E2; 0x00E4; 0x00E0; 0x00E5; 0x00E7];
    [0x00EA; 0x00EB; 0x00E8; 0x00EF; 0x00EE; 0x00EC; 0x00C4; 0x00C5];
    [0x00C9; 0x00E6; 0x00C6; 0x00F4; 0x00F6; 0x00F2; 0x00FB; 0x00F9];
    [0x00FF; 0x00D6; 0x00DC; 0x00A2; 0x00A3; 0x00A5; 0x20A7; 0x0192];
    [0x00E1; 0x00ED; 0x00F3; 0x00FA; 0x00F1; 0x00D1; 0x00AA; 0x00BA];
    [0x00BF; 0x2310; 0x00AC; 0x00BD; 0x00BC; 0x00A1; 0x00AB; 0x00BB];
    [0x2591; 0x2592; 0x2593; 0x2502; 0x2524; 0x2525; 0x2528; 0x2512];
    [0x2511; 0x252B; 0x2503; 0x2513; 0x251B; 0x251A; 0x2519; 0x2510];
    [0x2514; 0x2534; 0x252C; 0x251C; 0x2500; 0x253C; 0x251D; 0x2520];
    [0x2517; 0x250F; 0x253B; 0x2533; 0x2523; 0x2501; 0x254B; 0x2537];
    [0x2538; 0x252F; 0x2530; 0x2516; 0x2515; 0x250D; 0x250E; 0x2542];
    [0x253F; 0x2518; 0x250C; 0x2588; 0x2584; 0x258C; 0x2590; 0x2580];
    [0x03B1; 0x00DF; 0x0393; 0x03C0; 0x03A3; 0x03C3; 0x03BC; 0x03C4];
    [0x03A6; 0x0398; 0x03A9; 0x03B4; 0x221E; 0x03C6; 0x03B5; 0x2229];
    [0x2261; 0x00B1; 0x2265; 0x2264; 0x2320; 0x2321; 0x00F7; 0x2248];
    [0x00B0; 0x2219; 0x00B7; 0x221A; 0x207F; 0x00B2; 0x25A0; 0x00A0] ] |}.

Definition g_codepage850 : Codepage := {| m_characters := concat [
    [0x00C7; 0x00FC; 0x00E9; 0x00E2; 0x00E4; 0x00E0; 0x00E5; 0x00E7];
    [0x00EA; 0x00EB; 0x00E8; 0x00EF; 0x00EE; 0x00EC; 0x00C4; 0x00C5];
    [0x00C9; 0x00E6; 0x00C6; 0x00F4; 0x00F6; 0x00F2; 0x00FB; 0x00F9];
    [0x00FF; 0x00D6; 0x00DC; 0x00F8; 0x00A3; 0x00D8; 0x00D7; 0x0192];
    [0x00E1; 0x00ED; 0x00F3; 0x00FA; 0x00F1; 0x00D1; 0x00AA; 0x00BA];
    [0x00BF; 0x00AE; 0x00AC; 0x00BD; 0x00BC; 0x00A1; 0x00AB; 0x00BB];
    [0x2591; 0x2592; 0x2593; 0x2502; 0x2524; 0x00C1; 0x00C2; 0x00C0];
    [0x00A9; 0x252B; 0x2503; 0x2513; 0x251B; 0x00A2; 0x00A5; 0x2510];
    [0x2514; 0x2534; 0x252C; 0x251C; 0x2500; 0x253C; 0x00E3; 0x00C3];
    [0x2517; 0x250F; 0x253B; 0x2533; 0x2523; 0x2501; 0x254B; 0x00A4];
    [0x00F0; 0x00D0; 0x00CA; 0x00CB; 0x00C8; 0x0131; 0x00CD; 0x00CE];
    [0x00CF; 0x2518; 0x250C; 0x2588; 0x2584; 0x00A6; 0x00CC; 0x2580];
    [0x00D3; 0x00DF; 0x00D4; 0x00D2; 0x00F5; 0x00D5; 0x03BC; 0x00FE];
    [0x00DE; 0x00DA; 0x00DB; 0x00D9; 0x00FD; 0x00DD; 0x00AF; 0x00B4];
    [0x00AD; 0x00B1; 0x2017; 0x00BE; 0x00B6; 0x00A7; 0x00F7; 0x00B8];
    [0x00B0; 0x00A8; 0x00B7; 0x00B9; 0x00B3; 0x00B2; 0x25A0; 0x00A0] ] |}.

Definition g_codepage852 : Codepage := {| m_characters := concat [
    [0x00C7; 0x00FC; 0x00E9; 0x00E2; 0x00E4; 0x016F; 0x0107; 0x00E7];
    [0x0142; 0x00EB; 0x0150; 0x0151; 0x00EE; 0x0179; 0x00C4; 0x0106];
    [0x00C9; 0x0139; 0x013A; 0x00F4; 0x00F6; 0x013D; 0x013E; 0x015A];
    [0x015B; 0x00D6; 0x00DC; 0x0164; 0x0165; 0x0141; 0x00D7; 0x010D];
    [0x00E1; 0x00ED; 0x00F3; 0x00FA; 0x0104; 0x0105; 0x017D; 0x017E];
    [0x0118; 0x0119; 0x00AC; 0x017A; 0x010C; 0x015F; 0x00AB; 0x00BB];
    [0x2591; 0x2592; 0x2593; 0x2502; 0x2524; 0x00C1; 0x00C2; 0x011A];
    [0x015E; 0x252B; 0x2503; 0x2513; 0x251B; 0x017B; 0x017C; 0x2510];
    [0x2514; 0x2534; 0x252C; 0x251C; 0x2500; 0x253C; 0x0102; 0x0103];
    [0x2517; 0x250F; 0x253B; 0x2533; 0x2523; 0x2501; 0x254B; 0x00A4];
    [0x0111; 0x0110; 0x010E; 0x00CB; 0x010F; 0x0147; 0x00CD; 0x00CE];
    [0x011B; 0x2518; 0x250C; 0x2588; 0x2584; 0x0162; 0x016E; 0x2580];
    [0x00D3; 0x00DF; 0x00D4; 0x0143; 0x0144; 0x0148; 0x0160; 0x0161];
    [0x0154; 0x00DA; 0x0155; 0x0170; 0x00FD; 0x00DD; 0x0163; 0x00B4];
    [0x00AD; 0x02DD; 0x02DB; 0x02C7; 0x02D8; 0x00A7; 0x00F7; 0x00B8];
    [0x00B0; 0x00A8; 0x02D9; 0x0171; 0x0158; 0x0159; 0x25A0; 0x00A0] ] |}.

Definition g_codepage866 : Codepage := {| m_characters := concat [
    [0x0410; 0x0411; 0x0412; 0x0413; 0x0414; 0x0415; 0x0416; 0x0417];
    [0x0418; 0x0419; 0x041A; 0x041B; 0x041C; 0x041D; 0x041E; 0x041F];
    [0x0420; 0x0421; 0x0422; 0x0423; 0x0424; 0x0425; 0x0426; 0x0427];
    [0x0428; 0x0429; 0x042A; 0x042B; 0x042C; 0x042D; 0x042E; 0x042F];
    [0x0430; 0x0431; 0x0432; 0x0433; 0x0434; 0x0435; 0x0436; 0x0437];
    [0x0438; 0x0439; 0x043A; 0x043B; 0x043C; 0x043D; 0x043E; 0x043F];
    [0x2591; 0x2592; 0x2593; 0x2502; 0x2524; 0x2525; 0x2528; 0x2512];
    [0x2511; 0x252B; 0x2503; 0x2513; 0x251B; 0x251A; 0x2519; 0x2510];
    [0x2514; 0x2534; 0x252C; 0x251C; 0x2500; 0x253C; 0x251D; 0x2520];
    [0x2517; 0x250F; 0x253B; 0x2533; 0x2523; 0x2501; 0x254B; 0x2537];
    [0x2538; 0x252F; 0x2530; 0x2516; 0x2515; 0x250D; 0x250E; 0x2542];
    [0x253F; 0x2518; 0x250C; 0x2588; 0x2584; 0x258C; 0x2590; 0x2580];
    [0x0440; 0x0441; 0x0442; 0x0443; 0x0444; 0x0445; 0x0446; 0x0447];
    [0x0448; 0x0449; 0x044A; 0x044B; 0x044C; 0x044D; 0x044E; 0x044F];
    [0x0401; 0x0451; 0x0404; 0x0454; 0x0407; 0x0457; 0x040E; 0x045E];
    [0x00B0; 0x2219; 0x00B7; 0x221A; 0x2116; 0x00A4; 0x25A0; 0x00A0] ] |}.

Definition g_codepageKOI8R : Codepage := {| m_characters := concat [
    [0x2500; 0x2502; 0x250C; 0x2510; 0x2514; 0x2518; 0x251C; 0x2524];
    [0x252C; 0x2534; 0x253C; 0x2580; 0x2584; 0x2588; 0x258C; 0x2590];
    [0x2591; 0x2592; 0x2593; 0x2320; 0x25A0; 0x2219; 0x221A; 0x2248];
    [0x2264; 0x2265; 0x00A0; 0x2321; 0x00B0; 0x00B2; 0x00B7; 0x00F7];
    [0x2501; 0x2503; 0x250D; 0x0451; 0x250E; 0x250F; 0x2511; 0x2512];
    [0x2513; 0x2515; 0x2516; 0x2517; 0x2519; 0x251A; 0x251B; 0x251D];
    [0x2520; 0x2523; 0x2525; 0x0401; 0x2528; 0x252B; 0x252F; 0x2530];
    [0x2533; 0x2537; 0x2538; 0x253B; 0x253F; 0x2542; 0x254B; 0x00A9];
    [0x044E; 0x0430; 0x0431; 0x0446; 0x0434; 0x0435; 0x0444; 0x0433];
    [0x0445; 0x0438; 0x0439; 0x043A; 0x043B; 0x043C; 0x043D; 0x043E];
    [0x043F; 0x044F; 0x0440; 0x0441; 0x0442; 0x0443; 0x0436; 0x0432];
    [0x044C; 0x044B; 0x0437; 0x0448; 0x044D; 0x0449; 0x0447; 0x044A];
    [0x042E; 0x0410; 0x0411; 0x0426; 0x0414; 0x0415; 0x0424; 0x0413];
    [0x0425; 0x0418; 0x0419; 0x041A; 0x041B; 0x041C; 0x041D; 0x041E];
    [0x041F; 0x042F; 0x0420; 0x0421; 0x0422; 0x0423; 0x0416; 0x0412];
    [0x042C; 0x042B; 0x0417; 0x0428; 0x042D; 0x0429; 0x0427; 0x042A] ] |}.

Definition g_codepageLatin1 : Codepage := {| m_characters := concat [
    [0x0080; 0x0081; 0x0082; 0x0083; 0x0084; 0x0085; 0x0086; 0x0087];
    [0x0088; 0x0089; 0x008A; 0x008B; 0x008C; 0x008D; 0x008E; 0x008F];
    [0x0090; 0x0091; 0x0092; 0x0093; 0x0094; 0x0095; 0x0096; 0x0097];
    [0x0098; 0x0099; 0x009A; 0x009B; 0x009C; 0x009D; 0x009E; 0x009F];
    [0x00A0; 0x00A1; 0x00A2; 0x00A3; 0x00A4; 0x00A5; 0x00A6; 0x00A7];
    [0x00A8; 0x00A9; 0x00AA; 0x00AB; 0x00AC; 0x00AD; 0x00AE; 0x00AF];
    [0x00B0; 0x00B1; 0x00B2; 0x00B3; 0x00B4; 0x03BC; 0x00B6; 0x00B7];
    [0x00B8; 0x00B9; 0x00BA; 0x00BB; 0x00BC; 0x00BD; 0x00BE; 0x00BF];
    [0x00C0; 0x00C1; 0x00C2; 0x00C3; 0x00C4; 0x00C5; 0x00C6; 0x00C7];
    [0x00C8; 0x00C9; 0x00CA; 0x00CB; 0x00CC; 0x00CD; 0x00CE; 0x00CF];
    [0x00D0; 0x00D1; 0x00D2; 0x00D3; 0x00D4; 0x00D5; 0x00D6; 0x00D7];
    [0x00D8; 0x00D9; 0x00DA; 0x00DB; 0x00DC; 0x00DD; 0x00DE; 0x00DF];
    [0x00E0; 0x00E1; 0x00E2; 0x00E3; 0x00E4; 0x00E5; 0x00E6; 0x00E7];
    [0x00E8; 0x00E9; 0x00EA; 0x00EB; 0x00EC; 0x00ED; 0x00EE; 0x00EF];
    [0x00F0; 0x00F1; 0x00F2; 0x00F3; 0x00F4; 0x00F5; 0x00F6; 0x00F7];
    [0x00F8; 0x00F9; 0x00FA; 0x00FB; 0x00FC; 0x00FD; 0x00FE; 0x00FF] ] |}.

Definition g_codepageLatin2 : Codepage := {| m_characters := concat [
    [0x0080; 0x0081; 0x0082; 0x0083; 0x0084; 0x0085; 0x0086; 0x0087];
    [0x0088; 0x0089; 0x008A; 0x008B; 0x008C; 0x008D; 0x008E; 0x008F];
    [0x0090; 0x0091; 0x0092; 0x0093; 0x0094; 0x0095; 0x0096; 0x0097];
    [0x0098; 0x0099; 0x009A; 0x009B; 0x009C; 0x009D; 0x009E; 0x009F];
    [0x00A0; 0x0104; 0x02D8; 0x0141; 0x00A4; 0x013D; 0x015A; 0x00A7];
    [0x00A8; 0x0160; 0x015E; 0x0164; 0x0179; 0x00AD; 0x017D; 0x017B];
    [0x00B0; 0x0105; 0x02DB; 0x0142; 0x00B4; 0x013E; 0x015B; 0x02C7];
    [0x00B8; 0x0161; 0x015F; 0x0165; 0x017A; 0x02DD; 0x017E; 0x017C];
    [0x0154; 0x00C1; 0x00C2; 0x0102; 0x00C4; 0x0139; 0x0106; 0x00C7];
    [0x010C; 0x00C9; 0x0118; 0x00CB; 0x011A; 0x00CD; 0x00CE; 0x010E];
    [0x0110; 0x0143; 0x0147; 0x00D3; 0x00D4; 0x0150; 0x00D6; 0x00D7];
    [0x0158; 0x016E; 0x00DA; 0x0170; 0x00DC; 0x00DD; 0x0162; 0x00DF];
    [0x0155; 0x00E1; 0x00E2; 0x0103; 0x00E4; 0x013A; 0x0107; 0x00E7];
    [0x010D; 0x00E9; 0x0119; 0x00EB; 0x011B; 0x00ED; 0x00EE; 0x010F];
    [0x0111; 0x0144; 0x0148; 0x00F3; 0x00F4; 0x0151; 0x00F6; 0x00F7];
    [0x0159; 0x016F; 0x00FA; 0x0171; 0x00FC; 0x00FD; 0x0163; 0x02D9] ] |}.

Record CodepageCharset := { m_codepage : Codepage }.

(** [for (i = 0; i < countof(m_characters); ++i)]: the byte of a character, if
    the codepage has it. *)
Definition cp_encode_char (cp : Codepage) (ch : Z) : list Z :=
  if ch <? 0x80 then [u8 ch]
  else match position ch (m_characters cp) with
       | Some i => [u8 (0x80 + i)]
       | None => []
       end.

(** [while (rdr.hasMore())], with the size of the input as fuel. *)
Fixpoint cp_encode_loop (fuel : nat) (cp : Codepage) (rdr : list Z) : list Z :=
  match fuel with
  | O => []
  | S fuel' =>
      if hasMore rdr then
        let '(ch, rdr') := eat 0 rdr in
        cp_encode_char cp ch ++ cp_encode_loop fuel' cp rdr'
      else []
  end.

Definition CodepageCharset_encode (c : CodepageCharset) (inp : list Z) : list Z :=
  cp_encode_loop (length inp) (m_codepage c) inp.

(** The character of a byte. *)
Definition cp_decode_byte (cp : Codepage) (ch : Z) : Z :=
  if ch <? 0x80 then ch else nth (Z.to_nat (ch - 0x80)) (m_characters cp) 0.

Fixpoint CodepageCharset_decode (c : CodepageCharset) (inp : list Z) : list Z :=
  match inp with
  | [] => []
  | ch :: inp' => append 0 (cp_decode_byte (m_codepage c) ch) ++ CodepageCharset_decode c inp'
  end.

#[export] Instance CodepageCharset_charset : Charset CodepageCharset := {
  cs_encode := CodepageCharset_encode;
  cs_decode := CodepageCharset_decode;
}.

Inductive Utf8Charset := MkUtf8Charset.

#[export] Instance Utf8Charset_charset : Charset Utf8Charset := {
  cs_encode _ inp := inp;
  cs_decode _ inp := inp;
}.

(** ** Lemmas *)

(** The loop visits every character of the text. *)
Lemma cp_encode_runes fuel cp text :
  (length text <= fuel)%nat ->
  cp_encode_loop fuel cp text = concat (map (cp_encode_char cp) (decode 0 text)).
Proof.
  unfold decode. revert text. induction fuel as [|fuel IH]; intros text Hf.
  { destruct text; [done|simpl in Hf; lia]. }
  cbn [cp_encode_loop]. destruct (hasMore text) eqn:Hm.
  - apply hasMore_spec in Hm. rewrite runes_cons by done.
    destruct (eat_progress 0 text Hm) as (k & Hk & Ek). destruct (eat 0 text) as [ch rest]. cbn [fst snd map concat] in *.
    subst rest. by rewrite IH by (rewrite length_drop; lia).
  - destruct text; done.
Qed.

Lemma CodepageCharset_encode_chars c text :
  CodepageCharset_encode c text = concat (map (cp_encode_char (m_codepage c)) (decode 0 text)).
Proof. apply cp_encode_runes. lia. Qed.

Lemma CodepageCharset_decode_chars c inp :
  CodepageCharset_decode c inp = encode 0 (map (cp_decode_byte (m_codepage c)) inp).
Proof. unfold encode. induction inp as [|b inp IH]; [done|]. cbn [map concat CodepageCharset_decode]. by rewrite IH. Qed.

(** What a codepage must satisfy: 128 entries, characters that UTF-8 can carry,
    and no character (from 0x80 on) in two places. *)
Definition entry_ok (cp : Codepage) (i : Z) : bool :=
  let ch := nth (Z.to_nat i) (m_characters cp) 0 in
  (0 <=? ch) && (ch <? 0x10000) && plain_ok 0 ch && surrogate_ok 0 ch
  && ((ch <? 0x80) || match position ch (m_characters cp) with Some j => j =? i | None => false end).

Definition codepage_ok (cp : Codepage) : bool :=
  (length (m_characters cp) =? 128)%nat && forallb (entry_ok cp) (map Z.of_nat (seq 0 128)).

Lemma codepage_entry cp i : codepage_ok cp = true -> 0 <= i < 128 -> entry_ok cp i = true.
Proof.
  intros Hcp Hi. apply andb_prop in Hcp as [_ Hall]. rewrite forallb_forall in Hall.
  apply Hall, in_map_iff. exists (Z.to_nat i). split; [lia|]. apply in_seq. lia.
Qed.

Lemma encodable_ascii ch : 0 <= ch < 0x80 -> encodable 0 ch.
Proof.
  intros Hch. split; [unfold in_u; lia|]. right. split.
  - unfold plain_ok, isErrorCharacter, UNICODE_ERROR_MIN, UNICODE_MAX.
    rewrite (proj2 (Z.leb_gt 0xEF80 ch)), (proj2 (Z.ltb_lt ch 0x10FFFF)) by lia. cbn [andb negb].
    change 0xFFFF with (Z.ones 16). rewrite Z.land_ones, Z.mod_small by lia.
    by rewrite (proj2 (Z.ltb_lt ch 0xFFFE)) by lia.
  - unfold surrogate_ok, UNICODE_HIGH_SURROGATE_MIN. by rewrite (proj2 (Z.leb_gt 0xD800 ch)) by lia.
Qed.

Lemma cp_decode_encodable cp b : codepage_ok cp = true -> is_byte b -> encodable 0 (cp_decode_byte cp b).
Proof.
  intros Hcp Hb. unfold is_byte in Hb. unfold cp_decode_byte. destruct (Z.ltb_spec b 0x80); [apply encodable_ascii; lia|].
  pose proof (codepage_entry cp (b - 0x80) Hcp ltac:(lia)) as He. unfold entry_ok in He.
  apply andb_prop in He as [He _]. apply andb_prop in He as [He Hs]. apply andb_prop in He as [He Hp].
  split; [unfold in_u; lia|]. by right.
Qed.

(** The byte that a decoded byte is encoded to again: itself, unless the
    codepage maps it to an ASCII character. *)
Definition cp_again (cp : Codepage) (b : Z) : Z :=
  if (0x80 <=? b) && (cp_decode_byte cp b <? 0x80) then cp_decode_byte cp b else b.

Lemma cp_encode_decode cp b :
  codepage_ok cp = true -> is_byte b -> cp_encode_char cp (cp_decode_byte cp b) = [cp_again cp b].
Proof.
  intros Hcp Hb. unfold is_byte in Hb. unfold cp_encode_char, cp_again, cp_decode_byte.
  destruct (Z.ltb_spec b 0x80).
  - rewrite (proj2 (Z.ltb_lt b 0x80)), (proj2 (Z.leb_gt 0x80 b)) by lia. cbn [andb]. unfold u8. by rewrite wrap_small by lia.
  - rewrite (proj2 (Z.leb_le 0x80 b)) by lia. cbn [andb].
    pose proof (codepage_entry cp (b - 0x80) Hcp ltac:(lia)) as He. unfold entry_ok in He.
    set (ch := nth (Z.to_nat (b - 0x80)) (m_characters cp) 0) in *.
    apply andb_prop in He as [He Hpos]. destruct (Z.ltb_spec ch 0x80).
    + unfold u8. rewrite wrap_small by lia. done.
    + cbn [orb] in Hpos. destruct (position ch (m_characters cp)) as [j|]; [|done]. apply Z.eqb_eq in Hpos as ->.
      unfold u8. rewrite wrap_small by lia. f_equal. lia.
Qed.

Lemma position_nth ch l i : position ch l = Some i -> 0 <= i < Z.of_nat (length l) /\ nth (Z.to_nat i) l 0 = ch.
Proof.
  revert i. induction l as [|x l IH]; intros i E; [done|]. cbn [position] in E.
  destruct (Z.eqb_spec x ch) as [->|].
  - injection E as <-. cbn [length]. split; [lia|done].
  - destruct (position ch l) as [j|] eqn:Ej; [|done]. injection E as <-. destruct (IH j eq_refl) as [Hj Hn].
    cbn [length]. split; [lia|]. replace (Z.to_nat (1 + j)) with (S (Z.to_nat j)) by lia. done.
Qed.

(** The repertoire of a codepage. *)
Definition in_codepage (cp : Codepage) (ch : Z) : Prop :=
  0 <= ch < 0x80 \/ (0x80 <= ch /\ is_Some (position ch (m_characters cp))).

Lemma cp_decode_encode cp ch :
  codepage_ok cp = true -> in_codepage cp ch ->
  exists b, cp_encode_char cp ch = [b] /\ is_byte b /\ cp_decode_byte cp b = ch.
Proof.
  intros Hcp Hch. unfold cp_encode_char, cp_decode_byte, u8, is_byte. destruct Hch as [Hch|[Hch [i Hi]]].
  - rewrite (proj2 (Z.ltb_lt ch 0x80)), wrap_small by lia. exists ch. split; [done|]. split; [lia|].
    by rewrite (proj2 (Z.ltb_lt ch 0x80)) by lia.
  - rewrite (proj2 (Z.ltb_ge ch 0x80)), Hi by lia. destruct (position_nth _ _ _ Hi) as [Hr Hn].
    apply andb_prop in Hcp as [Hl _]. apply Nat.eqb_eq in Hl. rewrite wrap_small by lia.
    exists (0x80 + i). split; [done|]. split; [lia|]. rewrite (proj2 (Z.ltb_ge (0x80 + i) 0x80)) by lia.
    by replace (0x80 + i - 0x80) with i by lia.
Qed.

Lemma in_codepage_encodable cp ch : codepage_ok cp = true -> in_codepage cp ch -> encodable 0 ch.
Proof. intros Hcp Hch. destruct (cp_decode_encode cp ch Hcp Hch) as (b & _ & Hb & <-). by apply cp_decode_encodable. Qed.

(** ** Properties *)

Definition all_codepages : list Codepage :=
  [g_codepage1250; g_codepage1251; g_codepage1252; g_codepage437; g_codepage850; g_codepage852; g_codepage866;
   g_codepageKOI8R; g_codepageLatin1; g_codepageLatin2].

Lemma all_codepages_ok : forallb codepage_ok all_codepages = true.
Proof. vm_compute. reflexivity. Qed.

(** Codepages: for each of the ten codepages, every byte string survives
    decoding to UTF-8 and encoding again, except for bytes the table maps to
    an ASCII character, which become that character; UTF-8 text over the
    codepage's repertoire survives encoding and decoding; and other characters
    are dropped when encoding. *)
Theorem codepage_roundtrip cp s chars :
  In cp all_codepages -> bytes s -> Forall (encodable 0) chars ->
  let c := {| m_codepage := cp |} in
  cs_encode c (cs_decode c s) = map (cp_again cp) s /\
  (Forall (in_codepage cp) chars -> cs_decode c (cs_encode c (encode 0 chars)) = encode 0 chars) /\
  cs_encode c (encode 0 chars) = concat (map (cp_encode_char cp) chars) /\
  (forall ch, 0 <= ch -> ~ in_codepage cp ch -> cp_encode_char cp ch = []).
Proof.
  intros Hin Hs Hchars c. pose proof all_codepages_ok as Hok. rewrite forallb_forall in Hok. specialize (Hok cp Hin).
  cbn [cs_encode cs_decode CodepageCharset_charset].
  rewrite !CodepageCharset_encode_chars, (decode_encode_chars 0 chars), CodepageCharset_decode_chars by done.
  cbn [m_codepage c]. split; [|split; [|split; [done|]]].
  - rewrite decode_encode_chars.
    + clear -Hs Hok. induction Hs as [|b s Hb _ IH]; [done|]. cbn [map concat]. by rewrite cp_encode_decode, IH by done.
    + clear -Hs Hok. induction Hs; cbn [map]; constructor; [by apply cp_decode_encodable|done].
  - intros Hrep. rewrite CodepageCharset_decode_chars. f_equal. cbn [m_codepage c]. clear -Hrep Hok.
    induction Hrep as [|ch chars Hch _ IH]; [done|]. cbn [map concat].
    destruct (cp_decode_encode cp ch Hok Hch) as (b & -> & _ & Hd). cbn [app map]. by rewrite Hd, IH.
  - intros ch H0 Hn. unfold cp_encode_char, in_codepage in *. destruct (Z.ltb_spec ch 0x80); [lia|].
    destruct (position ch (m_characters cp)) eqn:E; [|done]. destruct Hn. right. split; [lia|done].
Qed.

Lemma codepage_roundtrip_witness :
  cs_encode {| m_codepage := g_codepage437 |} (cs_decode {| m_codepage := g_codepage437 |} [65; 0x84; 0xE1]) = [65; 0x84; 0xE1].
Proof.
  destruct (codepage_roundtrip g_codepage437 [65; 0x84; 0xE1] []) as [H _];
    [right; right; right; left; reflexivity|apply (bool_decide_unpack _); vm_compute; exact I|constructor|].
  exact H.
Defined.
