(* ===== verification/Stream.v ===== *)
(** * Streams: the interface and its derived functions

    src/afl/io/stream.hpp and stream.cpp, internalfilemapping.cpp.  A class
    derived from afl::io::Stream is an instance of [Stream]; a method is a
    state-passing function that returns or throws, and keeps the state of the
    object in either case.  What a stream that acts as a file promises is
    [FileLaws]: its state represents an abstract [file] (content, position), and
    each method acts on that file.  The derived functions (fullRead, fullWrite,
    copyFrom, createVirtualMapping) are proved against [FileLaws]; MemStream.v,
    LimitedStream.v, BufferedStream.v and Multiplex.v discharge it.

    A buffer passed to read() is its size, and the result is the list of bytes
    that were placed at its start; the returned count is the length of that
    list. *)

From Stdlib Require Import ZArith Lia Bool.
From stdpp Require Import base tactics numbers option list.
From S2P Require Import Prelude.

Local Open Scope Z_scope.

(** ** Effects *)

(** The messages of afl::string::Messages that streams, transforms and archive readers
    use; [invalidNameIndex] is the text of ArReader about its table of long names. *)
Inductive message := cannotWrite | rangeError | invalidOperation | fileNotFound | cannotAccessDirectories
| invalidNumber | invalidFileHeader | unsupportedFeature | unsupportedCompressionMode | invalidCompressedData
| invalidNameIndex.

(** Why a call did not return: an exception, a failed assert() (which ends the
    program and cannot be caught), or a loop that was given too little fuel. *)
Inductive fault :=
| FileProblemException (what : message)
| FileTooShortException
| FileFormatException (what : message)
| InvalidDataException (what : message)
| bad_alloc
| assertion_failed
| out_of_fuel.

Definition is_exception (e : fault) : bool :=
  match e with
  | assertion_failed | out_of_fuel => false
  | _ => true
  end.

Definition M (S A : Type) : Type := S -> S * outcome fault A.

Section Monad.
Context {S : Type}.

Definition ret {A} (a : A) : M S A := fun s => (s, Ok a).
Definition throw {A} (e : fault) : M S A := fun s => (s, Throw e).
Definition bind {A B} (m : M S A) (f : A -> M S B) : M S B := fun s =>
  match m s with
  | (s', Ok a) => f a s'
  | (s', Throw e) => (s', Throw e)
  end.
Definition get : M S S := fun s => (s, Ok s).
Definition put (s : S) : M S unit := fun _ => (s, Ok tt).

(** [try { m } catch (...) { h; throw; }]; an exception thrown by [h] replaces
    the first one. *)
Definition catch_rethrow {A} (m : M S A) (h : M S unit) : M S A := fun s =>
  match m s with
  | (s', Throw e) =>
      if is_exception e
      then match h s' with
           | (s'', Ok _) => (s'', Throw e)
           | (s'', Throw e') => (s'', Throw e')
           end
      else (s', Throw e)
  | r => r
  end.

(** Run a method of a sub-object that is stored in the state. *)
Definition on {P A} (getter : S -> P) (setter : P -> S -> S) (m : M P A) : M S A := fun s =>
  let '(p', r) := m (getter s) in (setter p' s, r).
End Monad.

Notation "'let@' x ':=' m 'in' k" := (bind m (fun x => k))
  (at level 10, x pattern, m at level 100, k at level 200) : afl_scope.
Local Open Scope afl_scope.

(** [returns m s Q]: from [s], [m] returns normally with a state and result in [Q]. *)
Definition returns {S A} (m : M S A) (s : S) (Q : S -> A -> Prop) : Prop :=
  match m s with
  | (s', Ok a) => Q s' a
  | (_, Throw _) => False
  end.

(** [throws m s e Q]: from [s], [m] throws [e] and leaves a state in [Q]. *)
Definition throws {S A} (m : M S A) (s : S) (e : fault) (Q : S -> Prop) : Prop :=
  match m s with
  | (_, Ok _) => False
  | (s', Throw e') => e' = e /\ Q s'
  end.

(** ** The interface *)

(** Length of a byte string, as a size_t or FileSize_t. *)
Abbreviation len l := (Z.of_nat (length l)).

Class Stream (S : Type) := {
  read : Z -> M S (list Z);
  write : list Z -> M S Z;
  flush : M S unit;
  setPos : Z -> M S unit;
  getPos : M S Z;
  getSize : M S Z;
  getCapabilities : M S Z;
  createFileMapping : Z -> M S (option (list Z));
}.

Definition CanRead : Z := 1.
Definition CanWrite : Z := 2.
Definition CanSeek : Z := 4.

(** ** Derived functions (stream.cpp) *)

Section Derived.
Context {S : Type} `{!Stream S}.

(** [while (!m.empty())]; every round removes at least a byte of [m], so the
    size of [m] is enough fuel. *)
Fixpoint fullRead_loop (fuel : nat) (m : Z) : M S (list Z) :=
  if m =? 0 then ret []
  else match fuel with
       | O => throw out_of_fuel
       | Datatypes.S fuel' =>
           let@ got := read m in
           if len got =? 0 then throw FileTooShortException
           else let@ rest := fullRead_loop fuel' (m - Z.min (len got) m) in
                ret (got ++ rest)
       end.

Definition fullRead (m : Z) : M S (list Z) := fullRead_loop (Z.to_nat m) m.

Fixpoint fullWrite_loop (fuel : nat) (m : list Z) : M S unit :=
  match m with
  | [] => ret tt
  | _ =>
      match fuel with
      | O => throw out_of_fuel
      | Datatypes.S fuel' =>
          let@ n := write m in
          if n =? 0 then throw (FileProblemException cannotWrite)
          else fullWrite_loop fuel' (drop (Z.to_nat n) m)
      end
  end.

Definition fullWrite (m : list Z) : M S unit := fullWrite_loop (length m) m.

Definition hasCapabilities (which : Z) : M S bool :=
  let@ caps := getCapabilities in ret (Z.land caps which =? which).

(** DataSink::handleData for a stream: returns the flag and the unprocessed data. *)
Definition handleData (data : list Z) : M S (bool * list Z) :=
  let@ n := write data in
  let data := drop (Z.to_nat n) data in
  ret (negb (len data =? 0), data).

(** InternalFileMapping::init (internalfilemapping.cpp): the mapped bytes. *)
Fixpoint mapping_loop (fuel : nat) (limit : Z) (m_data : list Z) : M S (list Z) :=
  if 0 <? limit
  then match fuel with
       | O => throw out_of_fuel
       | Datatypes.S fuel' =>
           let toRead := if limit <? 4096 then Z.min limit 4096 else 4096 in
           let@ got := read toRead in
           if len got =? 0 then ret m_data
           else mapping_loop fuel' (limit - len got) (m_data ++ got)
       end
  else ret m_data.

Definition createVirtualMapping (fuel : nat) (limit : Z) : M S (list Z) :=
  let@ mapping := createFileMapping limit in
  match mapping with
  | None => mapping_loop fuel limit []
  | Some mapping => ret mapping
  end.
End Derived.

(** copyFrom works on two objects. *)
Section Copy.
Context {S T : Type} `{!Stream S, !Stream T}.

Definition this_ {A} (m : M S A) : M (S * T) A := on fst (fun p s => (p, s.2)) m.
Definition other_ {A} (m : M T A) : M (S * T) A := on snd (fun p s => (s.1, p)) m.

Fixpoint copyFrom (fuel : nat) : M (S * T) unit :=
  match fuel with
  | O => throw out_of_fuel
  | Datatypes.S fuel' =>
      let@ m := other_ (read 4096) in
      match m with
      | [] => ret tt
      | _ => let@ _ := this_ (fullWrite m) in copyFrom fuel'
      end
  end.

(** [copyFrom(Stream&, FileSize_t)]; every round copies at least a byte, so
    [size] is enough fuel. *)
Fixpoint copyFrom_size_loop (fuel : nat) (size : Z) : M (S * T) unit :=
  if 0 <? size
  then match fuel with
       | O => throw out_of_fuel
       | Datatypes.S fuel' =>
           let n := if size <? 4096 then Z.min size 4096 else 4096 in
           let@ m := other_ (fullRead n) in
           let@ _ := this_ (fullWrite m) in
           copyFrom_size_loop fuel' (size - n)
       end
  else ret tt.

Definition copyFrom_size (size : Z) : M (S * T) unit := copyFrom_size_loop (Z.to_nat size) size.
End Copy.

(** ** The abstract file

    Content, position, a bound up to which positions and writes are supported,
    and whether writing is supported at all. *)

Record file := mkFile {
  f_data : list Z;
  f_pos : Z;
  f_limit : Z;
  f_writable : bool;
}.

Definition f_seek (f : file) (pos : Z) : file := mkFile (f_data f) pos (f_limit f) (f_writable f).

(** [c] with [d] written at [p]; a gap before [p] is filled with zeros. *)
Definition overwrite (c : list Z) (p : Z) (d : list Z) : list Z :=
  take (Z.to_nat p) (c ++ replicate (Z.to_nat p - length c) 0)
  ++ d ++ drop (Z.to_nat p + length d) c.

Definition f_write (f : file) (d : list Z) : file :=
  mkFile (overwrite (f_data f) (f_pos f) d) (f_pos f + len d) (f_limit f) (f_writable f).

(** Writing nothing changes nothing, not even at a position behind the end. *)
Definition f_put (f : file) (d : list Z) : file :=
  match d with
  | [] => f
  | _ => f_write f d
  end.

(** The bytes from the position on. *)
Definition f_rest (f : file) : list Z := drop (Z.to_nat (f_pos f)) (f_data f).

Definition f_wf (f : file) : Prop :=
  0 <= f_pos f <= f_limit f /\ len (f_data f) <= f_limit f < 2 ^ 64.

(** ** What a stream that acts as a file promises *)

Class FileLaws (S : Type) `{!Stream S} := {
  rep : S -> file -> Prop;
  rep_wf s f : rep s f -> f_wf f;
  (** A read returns some of the next bytes, and at least one unless the buffer
      is empty or the file ends here. *)
  read_law s f n :
    rep s f -> 0 <= n ->
    returns (read n) s (fun s' got =>
      exists k, got = take k (f_rest f) /\ len got <= n /\ (0 < n -> f_rest f <> [] -> got <> []) /\
        rep s' (f_seek f (f_pos f + len got)));
  (** A write of bytes that fit stores some of them, and at least one. *)
  write_law s f d :
    rep s f -> f_writable f = true -> d <> [] -> f_pos f + len d <= f_limit f ->
    returns (write d) s (fun s' n =>
      0 < n <= len d /\ rep s' (f_write f (take (Z.to_nat n) d)));
  write_refused_law s f d :
    rep s f -> f_writable f = false ->
    throws (write d) s (FileProblemException cannotWrite) (fun s' => rep s' f);
  setPos_law s f p :
    rep s f -> 0 <= p <= f_limit f -> returns (setPos p) s (fun s' _ => rep s' (f_seek f p));
  getPos_law s f : rep s f -> returns getPos s (fun s' p => p = f_pos f /\ rep s' f);
  getSize_law s f : rep s f -> returns getSize s (fun s' n => n = len (f_data f) /\ rep s' f);
  flush_law s f : rep s f -> returns flush s (fun s' _ => rep s' f);
  getCapabilities_law s f :
    rep s f -> returns getCapabilities s (fun s' caps =>
      Z.testbit caps 1 = f_writable f /\ rep s' f);
  (** These streams have no operating-system mapping. *)
  createFileMapping_law s f n :
    rep s f -> returns (createFileMapping n) s (fun s' m => m = None /\ rep s' f);
}.

(** ** Reasoning about effects *)

Section MonadLemmas.
Context {S : Type}.

Lemma returns_mono {A} (m : M S A) s (Q R : S -> A -> Prop) :
  returns m s Q -> (forall s' a, Q s' a -> R s' a) -> returns m s R.
Proof. unfold returns. intros Hm HQ. destruct (m s) as [s' [a|e]]; auto. Qed.

Lemma returns_bind {A B} (m : M S A) (f : A -> M S B) s Q R :
  returns m s Q -> (forall s' a, Q s' a -> returns (f a) s' R) -> returns (bind m f) s R.
Proof. unfold returns, bind. intros Hm Hf. destruct (m s) as [s' [a|e]]; [exact (Hf _ _ Hm)|done]. Qed.

Lemma returns_ret {A} (a : A) (s : S) (Q : S -> A -> Prop) : Q s a -> returns (ret a) s Q.
Proof. done. Qed.

Lemma bind_ok {A B} (m : M S A) (f : A -> M S B) s s' a : m s = (s', Ok a) -> bind m f s = f a s'.
Proof. unfold bind. by intros ->. Qed.

Lemma bind_throw {A B} (m : M S A) (f : A -> M S B) s s' e :
  m s = (s', Throw e) -> bind m f s = (s', Throw e).
Proof. unfold bind. by intros ->. Qed.

Lemma returns_get {B} (f : S -> M S B) s Q : returns (f s) s Q -> returns (bind get f) s Q.
Proof. done. Qed.

Lemma returns_put {B} (f : unit -> M S B) s s' Q : returns (f tt) s' Q -> returns (bind (put s') f) s Q.
Proof. done. Qed.

Lemma throws_get {B} (f : S -> M S B) s e Q : throws (f s) s e Q -> throws (bind get f) s e Q.
Proof. done. Qed.

Lemma throws_bind {A B} (m : M S A) (f : A -> M S B) s e Q :
  throws m s e Q -> throws (bind m f) s e Q.
Proof. unfold throws, bind. destruct (m s) as [s' [a|e']]; [done|auto]. Qed.

Lemma returns_throws_bind {A B} (m : M S A) (f : A -> M S B) s e Q R :
  returns m s Q -> (forall s' a, Q s' a -> throws (f a) s' e R) -> throws (bind m f) s e R.
Proof. unfold returns, throws, bind. intros Hm Hf. destruct (m s) as [s' [a|e']]; [exact (Hf _ _ Hm)|done]. Qed.

Lemma returns_catch {A} (m : M S A) h s Q : returns m s Q -> returns (catch_rethrow m h) s Q.
Proof. unfold returns, catch_rethrow. by destruct (m s) as [s' [a|e]]. Qed.

Lemma throws_catch {A} (m : M S A) h s e Q R :
  is_exception e = true -> throws m s e Q ->
  (forall s', Q s' -> returns h s' (fun s'' _ => R s'')) -> throws (catch_rethrow m h) s e R.
Proof.
  unfold returns, throws, catch_rethrow. intros He Hm Hh. destruct (m s) as [s' [a|e']]; [done|].
  destruct Hm as [-> HQ]. rewrite He. specialize (Hh s' HQ). by destruct (h s') as [s'' [u|e']].
Qed.

Lemma throws_mono {A} (m : M S A) s e (Q R : S -> Prop) :
  throws m s e Q -> (forall s', Q s' -> R s') -> throws m s e R.
Proof. unfold throws. intros Hm HQ. destruct (m s) as [s' [a|e']]; [done|]. destruct Hm; auto. Qed.

Lemma returns_on {P A} (getter : S -> P) setter (m : M P A) s Q :
  returns m (getter s) (fun p a => Q (setter p s) a) -> returns (on getter setter m) s Q.
Proof. unfold returns, on. by destruct (m (getter s)) as [p [a|e]]. Qed.

Lemma returns_bind_on {P A B} (getter : S -> P) setter (m : M P A) (f : A -> M S B) s Q R :
  returns m (getter s) Q -> (forall p a, Q p a -> returns (f a) (setter p s) R) ->
  returns (bind (on getter setter m) f) s R.
Proof.
  unfold returns, bind, on. intros Hm Hf.
  destruct (m (getter s)) as [p [a|e]]; [exact (Hf _ _ Hm)|done].
Qed.

Lemma throws_on {P A} (getter : S -> P) setter (m : M P A) s e Q :
  throws m (getter s) e (fun p => Q (setter p s)) -> throws (on getter setter m) s e Q.
Proof. unfold throws, on. by destruct (m (getter s)) as [p [a|e']]. Qed.
End MonadLemmas.

(** [run_bind H as pat] runs the first call of a sequence by the law [H]. *)
Tactic Notation "run_bind" uconstr(H) "as" simple_intropattern(p) :=
  eapply returns_bind; [eapply H|intros ? ? p]; [eauto..|].

(** ** Lemmas on the abstract file *)

Lemma overwrite_length c p d :
  0 <= p -> len (overwrite c p d) = Z.max (len c) (p + len d).
Proof.
  intros Hp. unfold overwrite.
  rewrite !length_app, length_take, length_app, length_replicate, length_drop. lia.
Qed.

Lemma overwrite_nil c p : 0 <= p <= len c -> overwrite c p [] = c.
Proof.
  intros Hp. unfold overwrite. rewrite (proj2 (Nat.sub_0_le _ _)) by lia.
  simpl. rewrite app_nil_r, Nat.add_0_r. apply take_drop.
Qed.

Lemma overwrite_app c p a b :
  0 <= p -> overwrite (overwrite c p a) (p + len a) b = overwrite c p (a ++ b).
Proof.
  intros Hp. unfold overwrite at 1.
  assert (length (overwrite c p a) = Nat.max (length c) (Z.to_nat p + length a)) as Hl
    by (pose proof (overwrite_length c p a Hp); lia).
  rewrite Hl. rewrite (proj2 (Nat.sub_0_le _ _)) by lia. simpl. rewrite app_nil_r.
  unfold overwrite.
  set (pre := take (Z.to_nat p) _).
  assert (length pre = Z.to_nat p) as Hpre.
  { unfold pre. rewrite length_take, length_app, length_replicate. lia. }
  replace (Z.to_nat (p + len a)) with (length (pre ++ a)) by (rewrite length_app; lia).
  rewrite (app_assoc pre a), take_app_length.
  rewrite drop_app, (drop_ge (pre ++ a)) by lia.
  rewrite drop_drop, !length_app, Hpre. simpl. rewrite <- !app_assoc. do 4 f_equal. lia.
Qed.

(** Two writes in a row are one write. *)
Lemma f_write_app f a b : 0 <= f_pos f -> f_write (f_write f a) b = f_write f (a ++ b).
Proof.
  intros Hp. unfold f_write; simpl. rewrite overwrite_app by done. rewrite length_app. f_equal. lia.
Qed.

Lemma f_put_app f a b : 0 <= f_pos f -> f_put (f_put f a) b = f_put f (a ++ b).
Proof.
  intros Hp. destruct a as [|x a]; [done|]. destruct b as [|y b]; [by rewrite app_nil_r|].
  exact (f_write_app f (x :: a) (y :: b) Hp).
Qed.

Lemma f_put_pos f d : f_pos (f_put f d) = f_pos f + len d.
Proof. destruct d; simpl; lia. Qed.

Lemma f_put_limit f d : f_limit (f_put f d) = f_limit f.
Proof. by destruct d. Qed.

Lemma f_put_writable f d : f_writable (f_put f d) = f_writable f.
Proof. by destruct d. Qed.

Lemma f_seek_seek f p q : f_seek (f_seek f p) q = f_seek f q.
Proof. done. Qed.

Lemma f_seek_id f : f_seek f (f_pos f) = f.
Proof. by destruct f. Qed.

Lemma f_rest_seek f n : 0 <= f_pos f -> 0 <= n -> f_rest (f_seek f (f_pos f + n)) = drop (Z.to_nat n) (f_rest f).
Proof. intros Hp Hn. unfold f_rest. simpl. rewrite drop_drop. f_equal. lia. Qed.

(** The part of the file that is left after some of it was read. *)
Lemma f_rest_seek_app f got k :
  0 <= f_pos f -> got = take k (f_rest f) ->
  f_rest f = got ++ f_rest (f_seek f (f_pos f + len got)).
Proof.
  intros Hp ->. rewrite f_rest_seek by lia. rewrite Nat2Z.id, length_take.
  rewrite <- (take_drop k (f_rest f)) at 1. f_equal.
  destruct (decide (k <= length (f_rest f))%nat); [f_equal; lia|].
  rewrite !drop_ge; [done|lia..].
Qed.

Lemma f_wf_seek f p : f_wf f -> 0 <= p <= f_limit f -> f_wf (f_seek f p).
Proof. unfold f_wf. simpl. tauto. Qed.

Lemma f_rest_length f : f_wf f -> len (f_rest f) = Z.max 0 (len (f_data f) - f_pos f).
Proof. intros (? & ?). unfold f_rest. rewrite length_drop. lia. Qed.

Lemma f_wf_read f got k :
  f_wf f -> got = take k (f_rest f) -> f_wf (f_seek f (f_pos f + len got)).
Proof.
  intros Hf ->. pose proof (f_rest_length f Hf). apply f_wf_seek; [done|].
  destruct Hf. rewrite length_take. lia.
Qed.

Lemma f_wf_write f d : f_wf f -> f_pos f + len d <= f_limit f -> f_wf (f_write f d).
Proof.
  intros (? & ?) Hd. unfold f_wf. simpl. rewrite overwrite_length by lia. lia.
Qed.

(** The position of a well-formed file fits in 64 bits. *)
Lemma f_wf_usize f p : f_wf f -> 0 <= p <= f_limit f -> usize p = p.
Proof. intros (? & ?) Hp. apply wrap_small. unfold SIZE_BITS. lia. Qed.

(** ** The derived functions on a file *)

Section DerivedLemmas.
Context {S : Type} `{!Stream S} `{!FileLaws S}.

Lemma rep_pos s f : rep s f -> 0 <= f_pos f.
Proof. intros H%rep_wf. unfold f_wf in H. lia. Qed.

Lemma fullRead_loop_spec fuel m s f :
  rep s f -> 0 <= m <= len (f_rest f) -> (Z.to_nat m <= fuel)%nat ->
  returns (fullRead_loop fuel m) s (fun s' got =>
    got = take (Z.to_nat m) (f_rest f) /\ rep s' (f_seek f (f_pos f + m))).
Proof.
  revert m s f. induction fuel as [|fuel IH]; intros m s f Hs Hm Hf; simpl;
    destruct (Z.eqb_spec m 0) as [->|Hm0].
  1, 3: apply returns_ret; rewrite Z.add_0_r, f_seek_id; done.
  { lia. }
  pose proof (rep_pos s f Hs) as Hp.
  eapply returns_bind; [apply (read_law s f); [done|lia]|].
  intros s1 got (k & Hgot & Hlen & Hne & Hs1). specialize (Hne ltac:(lia)).
  pose proof (f_rest_seek_app f got k Hp Hgot) as Happ.
  assert (0 < len got).
  { destruct got; simpl in *; [|lia]. destruct Hne; [|done]. intros E. rewrite E in Hm. simpl in Hm. lia. }
  destruct (Z.eqb_spec (len got) 0) as [?|_]; [lia|].
  pose proof (f_equal length Happ) as Hl. rewrite length_app in Hl.
  eapply returns_bind; [apply (IH _ _ _ Hs1); [lia|lia]|].
  intros s2 rest (-> & Hs2). apply returns_ret. split.
  - rewrite Happ. rewrite take_app, (take_ge got) by lia. do 2 f_equal. lia.
  - rewrite f_seek_seek in Hs2. simpl in Hs2. by replace (f_pos f + m) with (f_pos f + len got + (m - Z.min (len got) m)) by lia.
Qed.

Lemma fullRead_spec m s f :
  rep s f -> 0 <= m <= len (f_rest f) ->
  returns (fullRead m) s (fun s' got =>
    got = take (Z.to_nat m) (f_rest f) /\ rep s' (f_seek f (f_pos f + m))).
Proof. intros. by apply fullRead_loop_spec. Qed.

Lemma fullRead_loop_short fuel m s f :
  rep s f -> len (f_rest f) < m -> (Z.to_nat m <= fuel)%nat ->
  throws (fullRead_loop fuel m) s FileTooShortException (fun s' =>
    rep s' (f_seek f (f_pos f + len (f_rest f)))).
Proof.
  revert m s f. induction fuel as [|fuel IH]; intros m s f Hs Hm Hf; simpl;
    destruct (Z.eqb_spec m 0) as [->|Hm0]; [lia..|].
  pose proof (rep_pos s f Hs) as Hp.
  eapply returns_throws_bind; [apply (read_law s f); [done|lia]|].
  intros s1 got (k & Hgot & Hlen & Hne & Hs1). specialize (Hne ltac:(lia)).
  pose proof (f_rest_seek_app f got k Hp Hgot) as Happ.
  pose proof (f_equal length Happ) as Hl. rewrite length_app in Hl.
  destruct (Z.eqb_spec (len got) 0) as [E|E].
  - split; [done|]. destruct (f_rest f) as [|x r]; [|destruct got; [by destruct Hne|simpl in E; lia]].
    by rewrite E in Hs1.
  - apply throws_bind. eapply throws_mono; [apply (IH _ _ _ Hs1); [lia|lia]|].
    intros s2 Hs2. rewrite f_seek_seek in Hs2. simpl in Hs2. by rewrite <- Z.add_assoc, <- Nat2Z.inj_add, <- Hl in Hs2.
Qed.

Lemma fullRead_short m s f :
  rep s f -> len (f_rest f) < m ->
  throws (fullRead m) s FileTooShortException (fun s' => rep s' (f_seek f (f_pos f + len (f_rest f)))).
Proof. intros. by apply fullRead_loop_short. Qed.

Lemma fullWrite_loop_spec fuel d s f :
  rep s f -> f_writable f = true -> d <> [] -> f_pos f + len d <= f_limit f -> (length d <= fuel)%nat ->
  returns (fullWrite_loop fuel d) s (fun s' _ => rep s' (f_write f d)).
Proof.
  revert d s f. induction fuel as [|fuel IH]; intros d s f Hs Hw Hd Hfit Hf.
  { destruct d; simpl in Hf; [done|lia]. }
  pose proof (rep_pos s f Hs) as Hp. cbn [fullWrite_loop]. destruct d as [|x d']; [done|].
  remember (x :: d') as d eqn:Ed. clear Ed.
  eapply returns_bind; [apply (write_law s f d); done|]. intros s1 n (Hn & Hs1).
  destruct (Z.eqb_spec n 0) as [?|_]; [lia|].
  assert (length (take (Z.to_nat n) d) = Z.to_nat n) as Hl by (rewrite length_take; lia).
  destruct (decide (drop (Z.to_nat n) d = [])) as [E|E].
  - rewrite E. pose proof (f_equal length E) as Hl'. rewrite length_drop, length_nil in Hl'.
    rewrite take_ge in Hs1 by lia. by destruct fuel.
  - eapply returns_mono; [apply (IH _ _ _ Hs1 Hw E); simpl; rewrite ?length_drop; lia|].
    intros s2 ? Hs2. by rewrite f_write_app, take_drop in Hs2 by done.
Qed.

Lemma fullWrite_spec d s f :
  rep s f -> f_writable f = true -> f_pos f + len d <= f_limit f ->
  returns (fullWrite d) s (fun s' _ => rep s' (f_put f d)).
Proof. intros. destruct d as [|x d]; [done|]. by apply fullWrite_loop_spec. Qed.

Lemma fullWrite_refused d s f :
  rep s f -> f_writable f = false -> d <> [] ->
  throws (fullWrite d) s (FileProblemException cannotWrite) (fun s' => rep s' f).
Proof.
  intros Hs Hw Hd. destruct d as [|x d]; [done|]. unfold fullWrite. simpl.
  apply throws_bind. by apply write_refused_law.
Qed.

Lemma hasCapabilities_spec s f :
  rep s f -> returns (hasCapabilities CanWrite) s (fun s' b => b = f_writable f /\ rep s' f).
Proof.
  intros Hs. eapply returns_bind; [by apply getCapabilities_law|]. intros s1 caps (<- & Hs1).
  apply returns_ret. split; [|done]. unfold CanWrite.
  destruct (Z.testbit caps 1) eqn:E.
  - apply Z.eqb_eq. apply Z.bits_inj'. intros i Hi. rewrite Z.land_spec.
    destruct (decide (i = 1)) as [->|]; [by rewrite E|].
    replace (Z.testbit 2 i) with false by (symmetry; apply (Z.pow2_bits_false 1); lia). apply andb_false_r.
  - apply Z.eqb_neq. intros E2. apply (f_equal (fun x => Z.testbit x 1)) in E2.
    by rewrite Z.land_spec, E in E2.
Qed.

Lemma mapping_loop_spec fuel limit acc s f :
  rep s f -> 0 <= limit -> (length (f_rest f) < fuel)%nat ->
  returns (mapping_loop fuel limit acc) s (fun s' m =>
    m = acc ++ take (Z.to_nat limit) (f_rest f) /\
    rep s' (f_seek f (f_pos f + Z.min limit (len (f_rest f))))).
Proof.
  revert limit acc s f. induction fuel as [|fuel IH]; intros limit acc s f Hs Hl Hf; [lia|].
  cbn [mapping_loop]. destruct (Z.ltb_spec 0 limit) as [Hl0|?].
  2:{ apply returns_ret. replace limit with 0 by lia. rewrite Z.min_l, Z.add_0_r, f_seek_id by lia.
      split; [by rewrite app_nil_r|done]. }
  pose proof (rep_pos s f Hs) as Hp. cbv zeta. set (n := if _ <? _ then _ else _).
  assert (0 < n <= limit) as Hn by (unfold n; zcases; lia).
  eapply returns_bind; [apply (read_law s f); [done|lia]|].
  intros s1 got (k & Hgot & Hlen & Hne & Hs1). specialize (Hne ltac:(lia)).
  pose proof (f_rest_seek_app f got k Hp Hgot) as Happ.
  pose proof (f_equal length Happ) as Hlr. rewrite length_app in Hlr.
  destruct (Z.eqb_spec (len got) 0) as [E|E].
  - apply returns_ret. destruct (f_rest f) as [|x r]; [|destruct got; [by destruct Hne|simpl in E; lia]].
    rewrite E in Hs1. rewrite take_nil, app_nil_r. simpl. rewrite Z.min_r by lia. done.
  - eapply returns_mono; [apply (IH _ _ _ _ Hs1); lia|]. intros s2 m (-> & Hs2). split.
    + rewrite Happ. rewrite take_app, (take_ge got) by lia. rewrite <- app_assoc. do 3 f_equal. lia.
    + rewrite f_seek_seek in Hs2. simpl in Hs2. rewrite Hlr.
      replace (f_pos f + Z.min limit _) with (f_pos f + len got + Z.min (limit - len got) (len (f_rest (f_seek f (f_pos f + len got))))) by lia.
      done.
Qed.

Lemma createVirtualMapping_spec fuel limit s f :
  rep s f -> 0 <= limit -> (length (f_rest f) < fuel)%nat ->
  returns (createVirtualMapping fuel limit) s (fun s' m =>
    m = take (Z.to_nat limit) (f_rest f) /\
    rep s' (f_seek f (f_pos f + Z.min limit (len (f_rest f))))).
Proof.
  intros Hs Hl Hf. eapply returns_bind; [by apply createFileMapping_law|]. intros s1 m (-> & Hs1).
  exact (mapping_loop_spec fuel limit [] s1 f Hs1 Hl Hf).
Qed.
End DerivedLemmas.

Section CopyLemmas.
Context {S T : Type} `{!Stream S, !FileLaws S, !Stream T, !FileLaws T}.

Lemma copyFrom_all_spec fuel (s : S) f (t : T) g :
  rep s f -> rep t g -> f_writable f = true -> f_pos f + len (f_rest g) <= f_limit f ->
  (length (f_rest g) < fuel)%nat ->
  returns (copyFrom fuel) (s, t) (fun st _ =>
    rep st.1 (f_put f (f_rest g)) /\ rep st.2 (f_seek g (f_pos g + len (f_rest g)))).
Proof.
  revert s f t g. induction fuel as [|fuel IH]; intros s f t g Hs Ht Hw Hfit Hf; [lia|].
  cbn [copyFrom]. pose proof (rep_pos t g Ht) as Hp. pose proof (rep_pos s f Hs) as Hp'.
  eapply returns_bind_on; [apply (read_law t g); [done|lia]|].
  intros t1 got (k & Hgot & Hlen & Hne & Ht1). specialize (Hne ltac:(lia)). cbn [fst snd] in *.
  pose proof (f_rest_seek_app g got k Hp Hgot) as Happ.
  pose proof (f_equal length Happ) as Hlr. rewrite length_app in Hlr.
  destruct got as [|x got'].
  - apply returns_ret. cbn [fst snd].
    destruct (f_rest g) as [|y r]; [by split|]. by destruct Hne.
  - remember (x :: got') as got eqn:E. assert (0 < length got)%nat by (subst; simpl; lia). clear E.
    eapply returns_bind_on; [apply (fullWrite_spec got s f Hs Hw); lia|].
    intros s1 ? Hs1. cbn [fst snd] in *.
    eapply returns_mono; [apply (IH _ _ _ _ Hs1 Ht1);
      rewrite ?f_put_writable, ?f_put_pos, ?f_put_limit; [done|lia..]|].
    intros [s3 t3] ? (Hs3 & Ht3). cbn [fst snd] in *. split.
    + by rewrite f_put_app, <- Happ in Hs3 by done.
    + rewrite f_seek_seek in Ht3. cbn [f_seek f_pos] in Ht3.
      by rewrite <- Z.add_assoc, <- Nat2Z.inj_add, <- Hlr in Ht3.
Qed.

Lemma copyFrom_size_loop_spec fuel size (s : S) f (t : T) g :
  rep s f -> rep t g -> f_writable f = true -> 0 <= size <= len (f_rest g) ->
  f_pos f + size <= f_limit f -> (Z.to_nat size <= fuel)%nat ->
  returns (copyFrom_size_loop fuel size) (s, t) (fun st _ =>
    rep st.1 (f_put f (take (Z.to_nat size) (f_rest g))) /\ rep st.2 (f_seek g (f_pos g + size))).
Proof.
  revert size s f t g. induction fuel as [|fuel IH]; intros size s f t g Hs Ht Hw Hsize Hfit Hf;
    cbn [copyFrom_size_loop]; destruct (Z.ltb_spec 0 size) as [Hl0|?].
  1: lia.
  1, 3: apply returns_ret; replace size with 0 by lia; rewrite Z.add_0_r, f_seek_id; done.
  pose proof (rep_pos t g Ht) as Hp. pose proof (rep_pos s f Hs) as Hp'.
  cbv zeta. set (n := if _ <? _ then _ else _).
  assert (0 < n <= size) as Hn by (unfold n; zcases; lia). clearbody n.
  eapply returns_bind_on; [apply (fullRead_spec n t g Ht); lia|]. intros t1 got (Hgot & Ht1).
  assert (len got = n) as Hlen by (subst got; rewrite length_take; lia).
  eapply returns_bind_on; [apply (fullWrite_spec got s f Hs Hw); lia|]. intros s1 ? Hs1.
  cbn [fst snd] in *.
  assert (f_rest (f_seek g (f_pos g + n)) = drop (Z.to_nat n) (f_rest g)) as Hrest
    by (apply f_rest_seek; lia).
  eapply returns_mono; [apply (IH _ _ _ _ _ Hs1 Ht1);
      rewrite ?f_put_writable, ?f_put_pos, ?f_put_limit, ?Hrest, ?length_drop; [done|lia..]|].
  intros [s3 t3] ? (Hs3 & Ht3). cbn [fst snd] in *. split.
  - rewrite f_put_app, Hrest, Hgot in Hs3 by done.
    rewrite (take_take_drop (f_rest g) (Z.to_nat n) (Z.to_nat (size - n))) in Hs3.
    by replace (Z.to_nat n + Z.to_nat (size - n))%nat with (Z.to_nat size) in Hs3 by lia.
  - rewrite f_seek_seek in Ht3. cbn [f_seek f_pos] in Ht3.
    by replace (f_pos g + n + (size - n)) with (f_pos g + size) in Ht3 by lia.
Qed.
End CopyLemmas.

(** ** Programs of stream operations

    The specification of each operation on the abstract file, and the run of a
    sequence of operations on a stream. *)

Inductive op := ORead (n : Z) | OFullRead (n : Z) | OWrite (d : list Z) | OFullWrite (d : list Z)
  | OSetPos (p : Z) | OGetPos | OGetSize | OFlush.

Inductive reply := RBytes (l : list Z) | RCount (n : Z) | RDone.

(** Which operations are within what the file supports. *)
Definition op_ok (f : file) (o : op) : Prop :=
  match o with
  | ORead n => 0 <= n
  | OFullRead n => 0 <= n <= len (f_rest f)
  | OWrite d => f_writable f = true /\ d <> [] /\ f_pos f + len d <= f_limit f
  | OFullWrite d => f_writable f = true /\ f_pos f + len d <= f_limit f
  | OSetPos p => 0 <= p <= f_limit f
  | OGetPos | OGetSize | OFlush => True
  end.

Inductive file_step : file -> op -> reply -> file -> Prop :=
| step_read f n got k :
    got = take k (f_rest f) -> len got <= n -> (0 < n -> f_rest f <> [] -> got <> []) ->
    file_step f (ORead n) (RBytes got) (f_seek f (f_pos f + len got))
| step_fullRead f n :
    file_step f (OFullRead n) (RBytes (take (Z.to_nat n) (f_rest f))) (f_seek f (f_pos f + n))
| step_write f d n :
    0 < n <= len d -> file_step f (OWrite d) (RCount n) (f_write f (take (Z.to_nat n) d))
| step_fullWrite f d : file_step f (OFullWrite d) RDone (f_put f d)
| step_setPos f p : file_step f (OSetPos p) RDone (f_seek f p)
| step_getPos f : file_step f OGetPos (RCount (f_pos f)) f
| step_getSize f : file_step f OGetSize (RCount (len (f_data f))) f
| step_flush f : file_step f OFlush RDone f.

Section Programs.
Context {S : Type} `{!Stream S}.

Definition run_op (o : op) : M S reply :=
  match o with
  | ORead n => let@ got := read n in ret (RBytes got)
  | OFullRead n => let@ got := fullRead n in ret (RBytes got)
  | OWrite d => let@ n := write d in ret (RCount n)
  | OFullWrite d => let@ _ := fullWrite d in ret RDone
  | OSetPos p => let@ _ := setPos p in ret RDone
  | OGetPos => let@ p := getPos in ret (RCount p)
  | OGetSize => let@ n := getSize in ret (RCount n)
  | OFlush => let@ _ := flush in ret RDone
  end.

Fixpoint run_ops (ops : list op) : M S (list reply) :=
  match ops with
  | [] => ret []
  | o :: ops' => let@ r := run_op o in let@ rs := run_ops ops' in ret (r :: rs)
  end.

(** [file_run f ops rs f']: the replies [rs] are ones the file [f] may give; an
    operation must be supported by every file the earlier ones can lead to. *)
Inductive file_run : file -> list op -> list reply -> file -> Prop :=
| run_nil f : file_run f [] [] f
| run_cons f o ops r rs f1 f' :
    file_step f o r f1 -> file_run f1 ops rs f' -> file_run f (o :: ops) (r :: rs) f'.

Fixpoint ops_ok (f : file) (ops : list op) : Prop :=
  match ops with
  | [] => True
  | o :: ops' => op_ok f o /\ forall r f1, file_step f o r f1 -> ops_ok f1 ops'
  end.

Lemma run_op_refines `{!FileLaws S} o s f :
  rep s f -> op_ok f o ->
  returns (run_op o) s (fun s' r => exists f', file_step f o r f' /\ rep s' f').
Proof.
  intros Hs Hok. destruct o; cbn [run_op op_ok] in *.
  - eapply returns_bind; [by apply (read_law s f)|]. intros s1 got (k & H1 & H2 & H3 & H4).
    apply returns_ret. eexists. split; [by eapply step_read|done].
  - eapply returns_bind; [by apply fullRead_spec|]. intros s1 got (-> & Hs1).
    apply returns_ret. eexists. split; [by constructor|done].
  - destruct Hok as (? & ? & ?).
    eapply returns_bind; [by apply (write_law s f)|]. intros s1 n' (? & ?).
    apply returns_ret. eexists. split; [by constructor|done].
  - destruct Hok as (? & ?).
    eapply returns_bind; [by apply (fullWrite_spec d s f)|]. intros s1 ? Hs1.
    apply returns_ret. eexists. split; [by constructor|done].
  - eapply returns_bind; [by apply (setPos_law s f)|]. intros s1 ? Hs1.
    apply returns_ret. eexists. split; [by constructor|done].
  - eapply returns_bind; [by apply (getPos_law s f)|]. intros s1 ? (-> & Hs1).
    apply returns_ret. eexists. split; [by constructor|done].
  - eapply returns_bind; [by apply (getSize_law s f)|]. intros s1 ? (-> & Hs1).
    apply returns_ret. eexists. split; [by constructor|done].
  - eapply returns_bind; [by apply (flush_law s f)|]. intros s1 ? Hs1.
    apply returns_ret. eexists. split; [by constructor|done].
Qed.

Lemma run_ops_refines `{!FileLaws S} ops s f :
  rep s f -> ops_ok f ops ->
  returns (run_ops ops) s (fun s' rs => exists f', file_run f ops rs f' /\ rep s' f').
Proof.
  revert s f. induction ops as [|o ops IH]; intros s f Hs Hok; cbn [run_ops].
  { apply returns_ret. eexists. split; [constructor|done]. }
  destruct Hok as [Ho Hops]. eapply returns_bind; [by apply run_op_refines|].
  intros s1 r (f1 & Hstep & Hs1). eapply returns_bind; [apply (IH s1 f1 Hs1); eauto|].
  intros s2 rs (f2 & Hrun & Hs2). apply returns_ret. exists f2. split; [by econstructor|done].
Qed.
End Programs.

(** On streams that act as files, the derived functions of Stream do what
    their documentation says.  fullRead returns exactly the next bytes or, when
    there are too few, throws FileTooShortException at the end of the file;
    fullWrite stores all bytes in place; copyFrom moves everything up to the end
    of the source, or exactly the given number of bytes; createVirtualMapping
    maps the bytes from the position on up to the limit and advances past them.
    All loops end: the fuel is at most one more than the bytes the source has. *)
Theorem derived_functions_correct {S T : Type} `{!Stream S, !FileLaws S, !Stream T, !FileLaws T}
    (s : S) (f : file) (t : T) (g : file) :
  rep s f -> rep t g ->
  (forall m, 0 <= m <= len (f_rest f) ->
     returns (fullRead m) s (fun s' got =>
       got = take (Z.to_nat m) (f_rest f) /\ rep s' (f_seek f (f_pos f + m)))) /\
  (forall m, len (f_rest f) < m ->
     throws (fullRead m) s FileTooShortException (fun s' =>
       rep s' (f_seek f (f_pos f + len (f_rest f))))) /\
  (forall d, f_writable f = true -> f_pos f + len d <= f_limit f ->
     returns (fullWrite d) s (fun s' _ => rep s' (f_put f d))) /\
  (forall d, f_writable f = false -> d <> [] ->
     throws (fullWrite d) s (FileProblemException cannotWrite) (fun s' => rep s' f)) /\
  (forall fuel, f_writable f = true -> f_pos f + len (f_rest g) <= f_limit f ->
     (length (f_rest g) < fuel)%nat ->
     returns (copyFrom fuel) (s, t) (fun st _ =>
       rep st.1 (f_put f (f_rest g)) /\ rep st.2 (f_seek g (f_pos g + len (f_rest g))))) /\
  (forall size, f_writable f = true -> 0 <= size <= len (f_rest g) -> f_pos f + size <= f_limit f ->
     returns (copyFrom_size size) (s, t) (fun st _ =>
       rep st.1 (f_put f (take (Z.to_nat size) (f_rest g))) /\ rep st.2 (f_seek g (f_pos g + size)))) /\
  (forall fuel limit, 0 <= limit -> (length (f_rest f) < fuel)%nat ->
     returns (createVirtualMapping fuel limit) s (fun s' m =>
       m = take (Z.to_nat limit) (f_rest f) /\
       rep s' (f_seek f (f_pos f + Z.min limit (len (f_rest f)))))).
Proof.
  intros Hs Ht. repeat split.
  - intros. by apply fullRead_spec.
  - intros. by apply fullRead_short.
  - intros. by apply fullWrite_spec.
  - intros. by apply fullWrite_refused.
  - intros. by apply copyFrom_all_spec.
  - intros. unfold copyFrom_size. by apply copyFrom_size_loop_spec.
  - intros. by apply createVirtualMapping_spec.
Qed.
