(* ===== verification/MemStream.v ===== *)
(** * In-memory streams

    src/afl/io/internalstream.cpp, constmemorystream.cpp, memorystream.cpp and
    nullstream.cpp.  InternalStream, ConstMemoryStream and MemoryStream act as
    files ([FileLaws]); NullStream only counts what is written to it.

    The GrowableMemory of an InternalStream is the list it represents
    (GrowableMemory.v relates the two); whether it can grow is up to the
    allocator and is a parameter, and so is the content of bytes that
    ensureSize() leaves uninitialised. *)

From Stdlib Require Import ZArith Lia Bool.
From stdpp Require Import base tactics numbers option list.
From S2P Require Import Prelude Stream.

Local Open Scope Z_scope.
Local Open Scope afl_scope.

(** What the C++ run-time environment decides. *)
Class Environment := {
  (** Can a GrowableMemory with this content grow to that many elements? *)
  can_grow : list Z -> Z -> bool;
  uninitialised : Z;
}.

(** [Memory::subrange(pos, size)] and a copy out of it. *)
Definition mem_read (mem : list Z) (pos n : Z) : list Z := take (Z.to_nat n) (drop (Z.to_nat pos) mem).

(** [setPos] of the three streams: the position must fit in a size_t. *)
Definition check_pos {S} (pos : Z) : M S Z :=
  if negb (usize pos =? pos) then throw (FileProblemException rangeError) else ret (usize pos).

(** ** InternalStream *)

Record InternalStream := mkInternal {
  is_data : list Z;
  is_pos : Z;
  is_allowWrite : bool;
}.

Section Internal.
Context `{!Environment}.

Definition InternalStream_new : InternalStream := mkInternal [] 0 true.

Definition InternalStream_read (m : Z) : M InternalStream (list Z) :=
  let@ s := get in
  let got := mem_read (is_data s) (is_pos s) m in
  let@ _ := put (mkInternal (is_data s) (usize (is_pos s + len got)) (is_allowWrite s)) in
  ret got.

(** [m_data.appendN(0, count)] *)
Definition data_appendN (count : Z) : M InternalStream unit :=
  let@ s := get in
  if count =? 0 then ret tt
  else if usize (len (is_data s) + count) <? len (is_data s) then throw bad_alloc
  else if negb (can_grow (is_data s) (len (is_data s) + count)) then throw bad_alloc
  else put (mkInternal (is_data s ++ replicate (Z.to_nat count) 0) (is_pos s) (is_allowWrite s)).

(** [m_data.ensureSize(newSize)] *)
Definition data_ensureSize (newSize : Z) : M InternalStream unit :=
  let@ s := get in
  if len (is_data s) <? newSize
  then if negb (can_grow (is_data s) newSize) then throw bad_alloc
       else put (mkInternal (is_data s ++ replicate (Z.to_nat newSize - length (is_data s)) uninitialised)
                            (is_pos s) (is_allowWrite s))
  else ret tt.

Definition InternalStream_write (m : list Z) : M InternalStream Z :=
  let@ s := get in
  if negb (is_allowWrite s) then throw (FileProblemException cannotWrite) else
  let end_ := usize (is_pos s + len m) in
  if end_ <? is_pos s then throw (FileProblemException rangeError) else
  let@ _ := (if len (is_data s) <? is_pos s
             then data_appendN (is_pos s - len (is_data s)) else ret tt) in
  let@ _ := data_ensureSize end_ in
  let@ s := get in
  let amount := Z.min (Z.max 0 (len (is_data s) - is_pos s)) (len m) in
  let@ _ := put (mkInternal (copy_at (is_data s) (Z.to_nat (is_pos s)) m)
                            (usize (is_pos s + amount)) (is_allowWrite s)) in
  let@ s := get in
  if negb (is_pos s =? end_) then throw assertion_failed
  else if negb (amount =? len m) then throw assertion_failed
  else ret amount.

Definition InternalStream_setPos (pos : Z) : M InternalStream unit :=
  let@ p := check_pos pos in
  let@ s := get in put (mkInternal (is_data s) p (is_allowWrite s)).

Definition InternalStream_getCapabilities : M InternalStream Z :=
  let@ s := get in
  let result := Z.lor CanRead CanSeek in
  ret (if is_allowWrite s then Z.lor result CanWrite else result).

Definition getContent (s : InternalStream) : list Z := is_data s.

Definition setWritePermission (allowWrite : bool) : M InternalStream unit :=
  let@ s := get in put (mkInternal (is_data s) (is_pos s) allowWrite).

#[export] Instance InternalStream_stream : Stream InternalStream := {
  read := InternalStream_read;
  write := InternalStream_write;
  flush := ret tt;
  setPos := InternalStream_setPos;
  getPos := let@ s := get in ret (is_pos s);
  getSize := let@ s := get in ret (len (is_data s));
  getCapabilities := InternalStream_getCapabilities;
  createFileMapping _ := ret None;
}.
End Internal.

(** ** ConstMemoryStream and MemoryStream *)

Record ConstMemoryStream := mkConst { cs_mem : list Z; cs_pos : Z }.

Definition ConstMemoryStream_new (mem : list Z) : ConstMemoryStream := mkConst mem 0.

Definition ConstMemoryStream_read (m : Z) : M ConstMemoryStream (list Z) :=
  let@ s := get in
  let got := mem_read (cs_mem s) (cs_pos s) m in
  let@ _ := put (mkConst (cs_mem s) (usize (cs_pos s + len got))) in
  ret got.

Definition ConstMemoryStream_setPos (pos : Z) : M ConstMemoryStream unit :=
  let@ p := check_pos pos in let@ s := get in put (mkConst (cs_mem s) p).

(** [createChild]: an independent stream on the same memory. *)
Definition ConstMemoryStream_createChild (s : ConstMemoryStream) : ConstMemoryStream :=
  ConstMemoryStream_new (cs_mem s).

#[export] Instance ConstMemoryStream_stream : Stream ConstMemoryStream := {
  read := ConstMemoryStream_read;
  write _ := throw (FileProblemException cannotWrite);
  flush := ret tt;
  setPos := ConstMemoryStream_setPos;
  getPos := let@ s := get in ret (cs_pos s);
  getSize := let@ s := get in ret (len (cs_mem s));
  getCapabilities := ret (Z.lor CanRead CanSeek);
  createFileMapping _ := ret None;
}.

Record MemoryStream := mkMem { ms_mem : list Z; ms_pos : Z }.

Definition MemoryStream_new (mem : list Z) : MemoryStream := mkMem mem 0.

Definition MemoryStream_read (m : Z) : M MemoryStream (list Z) :=
  let@ s := get in
  let got := mem_read (ms_mem s) (ms_pos s) m in
  let@ _ := put (mkMem (ms_mem s) (usize (ms_pos s + len got))) in
  ret got.

(** [m_mem.subrange(m_pos, m.size()).copyFrom(m).size()] *)
Definition MemoryStream_write (m : list Z) : M MemoryStream Z :=
  let@ s := get in
  let amount := Z.min (Z.max 0 (len (ms_mem s) - ms_pos s)) (len m) in
  let@ _ := put (mkMem (if amount =? 0 then ms_mem s else copy_at (ms_mem s) (Z.to_nat (ms_pos s)) m)
                       (usize (ms_pos s + amount))) in
  ret amount.

Definition MemoryStream_setPos (pos : Z) : M MemoryStream unit :=
  let@ p := check_pos pos in let@ s := get in put (mkMem (ms_mem s) p).

#[export] Instance MemoryStream_stream : Stream MemoryStream := {
  read := MemoryStream_read;
  write := MemoryStream_write;
  flush := ret tt;
  setPos := MemoryStream_setPos;
  getPos := let@ s := get in ret (ms_pos s);
  getSize := let@ s := get in ret (len (ms_mem s));
  getCapabilities := ret (Z.lor (Z.lor CanRead CanWrite) CanSeek);
  createFileMapping _ := ret None;
}.

(** ** NullStream *)

Record NullStream := mkNull { ns_pos : Z; ns_size : Z }.

Definition NullStream_new : NullStream := mkNull 0 0.

Definition NullStream_write (m : list Z) : M NullStream Z :=
  let@ s := get in
  let m_pos := u64 (ns_pos s + len m) in
  let@ _ := put (mkNull m_pos (if ns_size s <? m_pos then m_pos else ns_size s)) in
  ret (len m).

#[export] Instance NullStream_stream : Stream NullStream := {
  read _ := ret [];
  write := NullStream_write;
  flush := ret tt;
  setPos pos := let@ s := get in put (mkNull pos (ns_size s));
  getPos := let@ s := get in ret (ns_pos s);
  getSize := let@ s := get in ret (ns_size s);
  getCapabilities := ret (Z.lor CanWrite CanSeek);
  createFileMapping _ := ret None;
}.

(** ** The memory streams act as files *)

Lemma mem_read_law mem pos lim w n (f := mkFile mem pos lim w) :
  f_wf f -> 0 <= n ->
  let got := mem_read mem pos n in
  got = take (Z.to_nat n) (f_rest f) /\ len got <= n /\ (0 < n -> f_rest f <> [] -> got <> []) /\
  usize (pos + len got) = pos + len got /\ f_wf (f_seek f (pos + len got)).
Proof.
  intros Hf Hn got. assert (got = take (Z.to_nat n) (f_rest f)) as Hgot by done.
  pose proof (f_wf_read f got _ Hf Hgot) as Hwf. split; [done|]. split; [|split; [|split]].
  - rewrite Hgot, length_take. lia.
  - intros ?. rewrite Hgot. destruct (f_rest f), (Z.to_nat n) eqn:E; [done..|lia|done].
  - destruct Hwf as [Hwf _]. by apply (f_wf_usize f).
  - done.
Qed.

Lemma check_pos_ok {S} (s : S) f p Q :
  f_wf f -> 0 <= p <= f_limit f -> Q s p -> returns (check_pos p) s Q.
Proof.
  intros Hf Hp HQ. unfold check_pos. rewrite (f_wf_usize f) by done. by rewrite Z.eqb_refl.
Qed.

(** Writing within the memory is [overwrite]. *)
Lemma copy_at_overwrite mem pos d :
  0 <= pos -> pos + len d <= len mem -> copy_at mem (Z.to_nat pos) d = overwrite mem pos d.
Proof.
  intros Hp Hd. unfold copy_at, overwrite. rewrite Nat.min_r by lia.
  rewrite (proj2 (Nat.sub_0_le _ _)) by lia. simpl. by rewrite app_nil_r, firstn_all.
Qed.

(** Zero-filling the gap, growing by arbitrary bytes and copying in is [overwrite]. *)
Lemma copy_at_grow data pos d x :
  0 <= pos ->
  let padded := data ++ replicate (Z.to_nat pos - length data) 0 in
  copy_at (padded ++ replicate (Z.to_nat (pos + len d) - length padded) x) (Z.to_nat pos) d
  = overwrite data pos d.
Proof.
  intros Hp padded. unfold copy_at, overwrite. fold padded.
  assert (length padded = Nat.max (length data) (Z.to_nat pos)) as Hl
    by (unfold padded; rewrite length_app, length_replicate; lia).
  rewrite length_app, length_replicate, Nat.min_r, firstn_all by lia.
  rewrite take_app_le by lia. do 2 f_equal.
  rewrite drop_app. unfold padded at 1. rewrite drop_app, ?drop_replicate.
  replace (_ - _ - _)%nat with 0%nat by lia. simpl. rewrite app_nil_r.
  replace (Z.to_nat (pos + len d) - _ - _)%nat with 0%nat by lia. simpl. by rewrite app_nil_r.
Qed.

(** [run_get] evaluates the calls that only look at the object. *)
Ltac run_step := cbv beta iota zeta delta [bind get put ret throw returns throws].

Definition const_rep (s : ConstMemoryStream) (f : file) : Prop :=
  exists lim, f = mkFile (cs_mem s) (cs_pos s) lim false /\ f_wf f.

#[export] Instance ConstMemoryStream_laws : FileLaws ConstMemoryStream.
Proof.
  apply (Build_FileLaws _ _ const_rep); intros [mem pos] f; unfold const_rep; cbn [cs_mem cs_pos].
  - by intros (lim & _ & ?).
  - intros n (lim & -> & Hf) Hn.
    pose proof (mem_read_law mem pos lim false n Hf Hn) as (H1 & H2 & H3 & H4 & H5).
    run_step. simpl in *. rewrite H4. eauto 10.
  - by intros d (lim & -> & Hf).
  - intros d (lim & -> & Hf) _. split; [done|]. by exists lim.
  - intros p (lim & -> & Hf) Hp.
    eapply returns_bind; [by apply (check_pos_ok _ _ _ (fun s' q => q = p /\ s' = mkConst mem pos) Hf Hp)|].
    intros s' q [-> ->]. exists lim. split; [done|]. by apply f_wf_seek.
  - intros (lim & -> & Hf). split; [done|]. by exists lim.
  - intros (lim & -> & Hf). split; [done|]. by exists lim.
  - intros (lim & -> & Hf). by exists lim.
  - intros (lim & -> & Hf). split; [done|]. by exists lim.
  - intros n (lim & -> & Hf). split; [done|]. by exists lim.
Defined.

(** The size of the memory is the limit. *)
Definition memory_rep (s : MemoryStream) (f : file) : Prop :=
  f = mkFile (ms_mem s) (ms_pos s) (len (ms_mem s)) true /\ f_wf f.

#[export] Instance MemoryStream_laws : FileLaws MemoryStream.
Proof.
  apply (Build_FileLaws _ _ memory_rep); intros [mem pos] f; unfold memory_rep; cbn [ms_mem ms_pos].
  - by intros (_ & ?).
  - intros n (-> & Hf) Hn.
    pose proof (mem_read_law mem pos _ true n Hf Hn) as (H1 & H2 & H3 & H4 & H5).
    run_step. simpl in *. rewrite H4. eauto 10.
  - intros d (-> & Hf) _ Hd Hfit. simpl in *. unfold MemoryStream_write. run_step. cbn [ms_mem ms_pos].
    pose proof (proj1 Hf) as Hp. simpl in Hp.
    assert (0 < len d) by (destruct d; simpl; [done|lia]).
    rewrite Z.min_r by lia. rewrite (proj2 (Z.eqb_neq (len d) 0)) by lia. split; [lia|].
    rewrite Nat2Z.id, firstn_all.
    pose proof (f_wf_write _ d Hf Hfit) as Hw. unfold f_write in *. simpl in *.
    rewrite copy_at_overwrite in * by lia.
    assert (len (overwrite mem pos d) = len mem) as -> by (rewrite overwrite_length; lia).
    rewrite (f_wf_usize _ (pos + len d) Hf) by (simpl; lia). done.
  - by intros d (-> & Hf).
  - intros p (-> & Hf) Hp.
    eapply returns_bind; [by apply (check_pos_ok _ _ _ (fun s' q => q = p /\ s' = mkMem mem pos) Hf Hp)|].
    intros s' q [-> ->]. split; [done|]. by apply f_wf_seek.
  - intros (-> & Hf). split; [done|]. by split.
  - intros (-> & Hf). split; [done|]. by split.
  - by intros (-> & Hf).
  - intros (-> & Hf). split; [done|]. by split.
  - intros n (-> & Hf). split; [done|]. by split.
Defined.

Section InternalLaws.
Context `{!Environment}.

(** Up to the limit, the allocator can provide memory. *)
Definition internal_rep (s : InternalStream) (f : file) : Prop :=
  exists lim, f = mkFile (is_data s) (is_pos s) lim (is_allowWrite s) /\ f_wf f /\
    forall l n, n <= lim -> can_grow l n = true.

Lemma data_appendN_ok s k Q :
  0 < k -> len (is_data s) + k < 2 ^ 64 -> can_grow (is_data s) (len (is_data s) + k) = true ->
  Q (mkInternal (is_data s ++ replicate (Z.to_nat k) 0) (is_pos s) (is_allowWrite s)) tt ->
  returns (data_appendN k) s Q.
Proof.
  intros Hk Hl Hg HQ. unfold data_appendN. run_step.
  rewrite (proj2 (Z.eqb_neq k 0)) by lia.
  unfold usize. rewrite wrap_small by (unfold SIZE_BITS; lia).
  rewrite (proj2 (Z.ltb_ge _ _)) by lia. by rewrite Hg.
Qed.

Lemma data_ensureSize_ok s n Q :
  can_grow (is_data s) n = true ->
  Q (mkInternal (is_data s ++ replicate (Z.to_nat n - length (is_data s)) uninitialised)
       (is_pos s) (is_allowWrite s)) tt ->
  returns (data_ensureSize n) s Q.
Proof.
  intros Hg HQ. unfold data_ensureSize. run_step. rewrite Hg. simpl.
  destruct (Z.ltb_spec (len (is_data s)) n); [done|].
  replace (Z.to_nat n - length (is_data s))%nat with 0%nat in HQ by lia. simpl in HQ.
  rewrite app_nil_r in HQ. by destruct s.
Qed.

Lemma InternalStream_write_ok data pos d lim :
  f_wf (mkFile data pos lim true) -> pos + len d <= lim ->
  (forall l n, n <= lim -> can_grow l n = true) ->
  returns (InternalStream_write d) (mkInternal data pos true) (fun s n =>
    s = mkInternal (overwrite data pos d) (pos + len d) true /\ n = len d).
Proof.
  intros Hf Hfit Hg. pose proof Hf as (Hp & Hl). simpl in Hp, Hl.
  assert (usize (pos + len d) = pos + len d) as Hus by (apply (f_wf_usize _ _ Hf); simpl; lia).
  set (padded := data ++ replicate (Z.to_nat pos - length data) 0).
  assert (length padded = Nat.max (length data) (Z.to_nat pos)) as Hlp
    by (unfold padded; rewrite length_app, length_replicate; lia).
  unfold InternalStream_write. apply returns_get. cbn [is_data is_pos is_allowWrite negb]. rewrite Hus.
  rewrite (proj2 (Z.ltb_ge (pos + len d) pos)) by lia.
  eapply returns_bind with (Q := fun s _ => s = mkInternal padded pos true).
  { destruct (Z.ltb_spec (len data) pos).
    - apply data_appendN_ok; simpl; [lia|lia|apply Hg; lia|].
      unfold padded. do 3 f_equal. lia.
    - unfold padded. by rewrite (proj2 (Nat.sub_0_le _ _)), app_nil_r by lia. }
  intros s ? ->.
  eapply returns_bind with (Q := fun s _ =>
    s = mkInternal (padded ++ replicate (Z.to_nat (pos + len d) - length padded) uninitialised) pos true).
  { apply data_ensureSize_ok; [apply Hg; lia|done]. }
  intros s ? ->.
  apply returns_get. cbn [is_data is_pos is_allowWrite].
  unfold padded at 2. rewrite (copy_at_grow data pos d uninitialised) by lia. fold padded.
  rewrite length_app, length_replicate.
  rewrite (Z.min_r _ (len d)), Hus by lia.
  apply returns_put, returns_get. cbn [is_pos]. by rewrite !Z.eqb_refl.
Qed.

#[export] Instance InternalStream_laws : FileLaws InternalStream.
Proof.
  apply (Build_FileLaws _ _ internal_rep); intros [data pos allow] f; unfold internal_rep;
    cbn [is_data is_pos is_allowWrite].
  - by intros (lim & _ & ? & _).
  - intros n (lim & -> & Hf & Hg) Hn.
    pose proof (mem_read_law data pos lim allow n Hf Hn) as (H1 & H2 & H3 & H4 & H5).
    run_step. simpl in *. rewrite H4. eauto 10.
  - intros d (lim & -> & Hf & Hg) Hw Hd Hfit. simpl in *. subst allow.
    eapply returns_mono; [by apply (InternalStream_write_ok _ _ _ lim)|].
    intros s' n [-> ->]. assert (0 < len d) by (destruct d; simpl; [done|lia]). split; [lia|].
    rewrite Nat2Z.id, firstn_all. exists lim. split; [done|]. split; [by apply f_wf_write|done].
  - intros d (lim & -> & Hf & Hg) Hw. simpl in *. subst allow. split; [done|]. by exists lim.
  - intros p (lim & -> & Hf & Hg) Hp.
    eapply returns_bind;
      [by apply (check_pos_ok _ _ _ (fun s' q => q = p /\ s' = mkInternal data pos allow) Hf Hp)|].
    intros s' q [-> ->]. exists lim. split; [done|]. split; [by apply f_wf_seek|done].
  - intros (lim & -> & Hf & Hg). split; [done|]. by exists lim.
  - intros (lim & -> & Hf & Hg). split; [done|]. by exists lim.
  - intros (lim & -> & Hf & Hg). by exists lim.
  - intros (lim & -> & Hf & Hg). split; [by destruct allow|]. by exists lim.
  - intros n (lim & -> & Hf & Hg). split; [done|]. by exists lim.
Defined.
End InternalLaws.

Lemma InternalStream_write_overflow `{!Environment} data pos d :
  0 <= pos < 2 ^ 64 -> len d < 2 ^ 64 <= pos + len d ->
  throws (InternalStream_write d) (mkInternal data pos true) (FileProblemException rangeError)
    (fun s => s = mkInternal data pos true).
Proof.
  intros Hp Hd. unfold InternalStream_write. apply throws_get. cbn [is_data is_pos is_allowWrite negb].
  replace (usize (pos + len d)) with (pos + len d - 2 ^ 64).
  - rewrite (proj2 (Z.ltb_lt _ _)) by lia. done.
  - unfold usize, wrap, SIZE_BITS. apply (Z.mod_unique _ _ 1); lia.
Qed.

(** Writing to a MemoryStream stores what fits in the memory. *)
Lemma MemoryStream_write_partial mem pos d :
  0 <= pos < 2 ^ 64 -> len mem < 2 ^ 64 ->
  returns (MemoryStream_write d) (mkMem mem pos) (fun s n =>
    let fit := take (Z.to_nat (len mem - pos)) d in
    n = len fit /\ s = mkMem (f_data (f_put (mkFile mem pos (len mem) true) fit)) (pos + n)).
Proof.
  intros Hp Hm. unfold MemoryStream_write. apply returns_get. cbn [ms_mem ms_pos].
  apply returns_put, returns_ret. set (fit := take _ d).
  assert (Z.min (Z.max 0 (len mem - pos)) (len d) = len fit) as -> by (unfold fit; rewrite length_take; lia).
  split; [done|]. unfold usize. rewrite wrap_small by (unfold fit, SIZE_BITS; rewrite length_take; lia). f_equal.
  destruct (Z.eqb_spec (len fit) 0) as [E|E].
  - destruct fit; [done|simpl in E; lia].
  - replace (f_data (f_put _ fit)) with (overwrite mem pos fit) by (by destruct fit).
    unfold fit in E. rewrite length_take in E.
    unfold fit. rewrite <- copy_at_overwrite by (rewrite ?length_take; lia).
    unfold copy_at. rewrite length_take, take_take. do 2 f_equal; f_equal; lia.
Qed.

(** C5. The in-memory streams act as files.  Whatever sequence of reads, writes,
    seeks and queries that the file supports is applied, each call returns,
    gives a reply that the abstract file allows, and the stream's content and
    position stay those of the file: an InternalStream grows (a gap behind the
    old end becomes zeros, whatever uninitialised memory holds), a
    ConstMemoryStream never changes its memory, a MemoryStream never leaves its
    memory.  A new stream is a file at position 0.  Writing without permission,
    or past the end of the address range, throws and changes nothing; a
    MemoryStream stores exactly the bytes that fit. *)
Theorem memory_streams_act_as_files `{!Environment} :
  (forall s f ops, internal_rep s f -> ops_ok f ops ->
     returns (run_ops ops) s (fun s' rs => exists f', file_run f ops rs f' /\ internal_rep s' f')) /\
  (forall s f ops, const_rep s f -> ops_ok f ops ->
     returns (run_ops ops) s (fun s' rs => exists f', file_run f ops rs f' /\ const_rep s' f')) /\
  (forall s f ops, memory_rep s f -> ops_ok f ops ->
     returns (run_ops ops) s (fun s' rs => exists f', file_run f ops rs f' /\ memory_rep s' f')) /\
  (forall lim, 0 <= lim < 2 ^ 64 -> (forall l n, n <= lim -> can_grow l n = true) ->
     internal_rep InternalStream_new (mkFile [] 0 lim true)) /\
  (forall mem lim, len mem <= lim < 2 ^ 64 ->
     const_rep (ConstMemoryStream_new mem) (mkFile mem 0 lim false)) /\
  (forall mem, len mem < 2 ^ 64 ->
     memory_rep (MemoryStream_new mem) (mkFile mem 0 (len mem) true)) /\
  (forall data pos d,
     throws (write d) (mkInternal data pos false) (FileProblemException cannotWrite)
       (fun s => s = mkInternal data pos false)) /\
  (forall data pos d, 0 <= pos < 2 ^ 64 -> len d < 2 ^ 64 <= pos + len d ->
     throws (write d) (mkInternal data pos true) (FileProblemException rangeError)
       (fun s => s = mkInternal data pos true)) /\
  (forall mem pos d, 0 <= pos < 2 ^ 64 -> len mem < 2 ^ 64 ->
     returns (write d) (mkMem mem pos) (fun s n =>
       let fit := take (Z.to_nat (len mem - pos)) d in
       n = len fit /\ s = mkMem (f_data (f_put (mkFile mem pos (len mem) true) fit)) (pos + n))).
Proof.
  split; [exact (fun s f ops => run_ops_refines (S := InternalStream) ops s f)|].
  split; [exact (fun s f ops => run_ops_refines (S := ConstMemoryStream) ops s f)|].
  split; [exact (fun s f ops => run_ops_refines (S := MemoryStream) ops s f)|].
  split; [intros lim Hl Hg; exists lim; unfold f_wf; simpl; repeat split; auto; lia|].
  split; [intros mem lim Hl; exists lim; unfold f_wf; simpl; repeat split; auto; lia|].
  split; [intros mem Hl; unfold memory_rep, f_wf; simpl; repeat split; auto; lia|].
  split; [by intros|].
  split; [exact InternalStream_write_overflow|exact MemoryStream_write_partial].
Qed.

(** ** Examples *)

(** An allocator that grants blocks up to 1000 bytes. *)
Definition ex_env : Environment := {| can_grow _ n := n <=? 1000; uninitialised := 0xCC |}.

(** Seeking past the end and writing, then reading everything back. *)
Definition ex_ops : list op :=
  [OFullWrite [1; 2; 3]; OSetPos 5; OWrite [9]; OGetSize; OSetPos 1; ORead 10; OGetPos].

Example ex_ops_run :
  run_ops (Stream0 := @InternalStream_stream ex_env) ex_ops InternalStream_new
  = (mkInternal [1; 2; 3; 0; 0; 9] 6 true,
     Ok [RDone; RDone; RCount 1; RCount 6; RDone; RBytes [2; 3; 0; 0; 9]; RCount 6]).
Proof. vm_compute. reflexivity. Qed.

Definition ex_short_ops : list op := [OFullWrite [1; 2; 3]; OSetPos 1; OFullRead 2].

Lemma ex_short_ops_ok lim : 3 <= lim -> ops_ok (mkFile [] 0 lim true) ex_short_ops.
Proof.
  intros Hl. split; [simpl; lia|]. intros r f1 H1. inversion H1; subst. cbn [f_put].
  split; [simpl; lia|]. intros r2 f2 H2. inversion H2; subst.
  split; [simpl; lia|]. done.
Qed.

Lemma memory_streams_act_as_files_witness :
  @internal_rep ex_env InternalStream_new (mkFile [] 0 1000 true) /\
  returns (run_ops (Stream0 := @InternalStream_stream ex_env) ex_short_ops) InternalStream_new
    (fun s' rs => exists f', file_run (mkFile [] 0 1000 true) ex_short_ops rs f' /\ @internal_rep ex_env s' f').
Proof.
  destruct (@memory_streams_act_as_files ex_env) as (H1 & _ & _ & H2 & _).
  assert (@internal_rep ex_env InternalStream_new (mkFile [] 0 1000 true)) as Hs.
  { apply H2; [lia|]. intros l n Hn. by apply Z.leb_le. }
  split; [exact Hs|]. apply (H1 _ _ _ Hs). by apply ex_short_ops_ok.
Defined.

(** Copying from a ConstMemoryStream to a MemoryStream. *)
Lemma derived_functions_correct_witness :
  memory_rep (mkMem [1; 2; 3; 4] 1) (mkFile [1; 2; 3; 4] 1 4 true) /\
  const_rep (mkConst [7; 8; 9] 1) (mkFile [7; 8; 9] 1 3 false) /\
  returns (copyFrom 3) (mkMem [1; 2; 3; 4] 1, mkConst [7; 8; 9] 1) (fun st _ =>
    memory_rep st.1 (mkFile [1; 8; 9; 4] 3 4 true) /\ const_rep st.2 (mkFile [7; 8; 9] 3 3 false)).
Proof.
  assert (memory_rep (mkMem [1; 2; 3; 4] 1) (mkFile [1; 2; 3; 4] 1 4 true)) as Hs
    by (unfold memory_rep, f_wf; simpl; repeat split; lia).
  assert (const_rep (mkConst [7; 8; 9] 1) (mkFile [7; 8; 9] 1 3 false)) as Ht
    by (exists 3; unfold f_wf; simpl; repeat split; lia).
  split; [exact Hs|]. split; [exact Ht|].
  destruct (@derived_functions_correct _ _ _ MemoryStream_laws _ ConstMemoryStream_laws _ _ _ _ Hs Ht) as (_ & _ & _ & _ & H & _).
  apply (H 3%nat); [reflexivity|simpl; lia|simpl; lia].
Defined.
