(* ===== verification/BufferedStream.v ===== *)
(** * BufferedStream

    src/afl/io/bufferedstream.cpp.  The state machine with the modes Neutral,
    Reading and Writing, its 1024-byte buffer and the descriptor m_buffer into
    that buffer, on top of any stream.  If the underlying stream acts as a file
    ([FileLaws]), so does the BufferedStream, and it shows the same file: bytes
    that were read ahead, or not written yet, are invisible to the user. *)

From Stdlib Require Import ZArith Lia Bool.
From stdpp Require Import base tactics numbers option list.
From S2P Require Import Prelude Stream MemStream.

Local Open Scope Z_scope.
Local Open Scope afl_scope.

Inductive Mode := Neutral | Reading | Writing.

#[export] Instance Mode_eq_dec : EqDecision Mode.
Proof. solve_decision. Defined.

(** [sizeof(m_rawBuffer)] *)
Definition BUFFER_SIZE : nat := 1024.
Arguments BUFFER_SIZE : simpl never.

(** The descriptor m_buffer is an offset into m_rawBuffer and a size. *)
Record BufferedStream (S : Type) := mkBuffered {
  m_mode : Mode;
  m_stream : S;
  m_buffer_off : nat;
  m_buffer_size : nat;
  m_bufferFill : nat;
  m_rawBuffer : list Z;
}.
Arguments mkBuffered {S}.
Arguments m_mode {S}.
Arguments m_stream {S}.
Arguments m_buffer_off {S}.
Arguments m_buffer_size {S}.
Arguments m_bufferFill {S}.
Arguments m_rawBuffer {S}.

Section Operations.
Context {S : Type} `{!Stream S}.
Implicit Types b : BufferedStream S.

Definition BufferedStream_new (s : S) (raw : list Z) : BufferedStream S := mkBuffered Neutral s 0 0 0 raw.

(** Setters for the members. *)
Definition set_stream (s : S) b : BufferedStream S :=
  mkBuffered (m_mode b) s (m_buffer_off b) (m_buffer_size b) (m_bufferFill b) (m_rawBuffer b).
Definition set_mode (m : Mode) : M (BufferedStream S) unit :=
  let@ b := get in
  put (mkBuffered m (m_stream b) (m_buffer_off b) (m_buffer_size b) (m_bufferFill b) (m_rawBuffer b)).
Definition set_buffer (off size : nat) : M (BufferedStream S) unit :=
  let@ b := get in put (mkBuffered (m_mode b) (m_stream b) off size (m_bufferFill b) (m_rawBuffer b)).
Definition set_fill (fill : nat) : M (BufferedStream S) unit :=
  let@ b := get in
  put (mkBuffered (m_mode b) (m_stream b) (m_buffer_off b) (m_buffer_size b) fill (m_rawBuffer b)).
Definition set_raw (raw : list Z) : M (BufferedStream S) unit :=
  let@ b := get in
  put (mkBuffered (m_mode b) (m_stream b) (m_buffer_off b) (m_buffer_size b) (m_bufferFill b) raw).

(** A call of a method of m_stream. *)
Definition call {A} (m : M S A) : M (BufferedStream S) A := on m_stream set_stream m.

(** The bytes m_buffer describes. *)
Definition buffer_bytes b : list Z := take (m_buffer_size b) (drop (m_buffer_off b) (m_rawBuffer b)).

Definition assert (cond : bool) : M (BufferedStream S) unit :=
  if cond then ret tt else throw assertion_failed.

Definition flushBuffer : M (BufferedStream S) unit :=
  let@ b := get in
  let@ _ := assert (bool_decide (m_mode b = Writing)) in
  let@ _ := (if negb (m_bufferFill b =? 0)%nat
             then let@ _ := set_buffer (m_buffer_off b) (Nat.min (m_buffer_size b) (m_bufferFill b)) in
                  let@ b := get in
                  call (fullWrite (buffer_bytes b))
             else ret tt) in
  let@ _ := set_buffer 0 BUFFER_SIZE in
  set_fill 0.

Definition refillBuffer : M (BufferedStream S) unit :=
  let@ b := get in
  let@ _ := assert (bool_decide (m_mode b = Reading)) in
  let@ _ := assert (m_buffer_size b =? 0)%nat in
  let@ _ := set_buffer 0 BUFFER_SIZE in
  let@ got := call (read (Z.of_nat BUFFER_SIZE)) in
  let@ _ := set_raw (copy_at (m_rawBuffer b) 0 got) in
  set_buffer 0 (Nat.min BUFFER_SIZE (length got)).

(** The two halves of setMode: process the old mode, process the new mode. *)
Definition leave_mode : M (BufferedStream S) unit :=
  let@ b := get in
  match m_mode b with
  | Reading =>
      if negb (m_buffer_size b =? 0)%nat
      then let@ p := call getPos in call (setPos (u64 (p - Z.of_nat (m_buffer_size b))))
      else ret tt
  | Writing => flushBuffer
  | Neutral => ret tt
  end.

Definition enter_mode (m : Mode) : M (BufferedStream S) unit :=
  match m with
  | Writing =>
      let@ ok := call (hasCapabilities CanWrite) in
      if negb ok
      then let@ _ := set_mode Neutral in throw (FileProblemException cannotWrite)
      else let@ _ := set_buffer 0 BUFFER_SIZE in set_fill 0
  | Reading => set_buffer 0 0
  | Neutral => ret tt
  end.

Definition setMode (m : Mode) : M (BufferedStream S) unit :=
  let@ b := get in
  if bool_decide (m = m_mode b) then ret tt
  else let@ _ := leave_mode in
       let@ _ := enter_mode m in
       set_mode m.

(** [m_buffer.eat()] and [m_buffer.at(0)], and the byte they point to. *)
Definition buffer_eat : M (BufferedStream S) (option Z) :=
  let@ b := get in
  if (m_buffer_size b =? 0)%nat then ret None
  else let@ _ := set_buffer (m_buffer_off b + 1) (m_buffer_size b - 1) in
       ret (Some (byte_at (m_rawBuffer b) (m_buffer_off b))).

Definition buffer_at0 : M (BufferedStream S) (option Z) :=
  let@ b := get in
  if (m_buffer_size b =? 0)%nat then ret None
  else ret (Some (byte_at (m_rawBuffer b) (m_buffer_off b))).

Definition readByte : M (BufferedStream S) (option Z) :=
  let@ _ := setMode Reading in
  let@ result := buffer_eat in
  match result with
  | None => let@ _ := refillBuffer in buffer_eat
  | Some x => ret (Some x)
  end.

Definition peekByte : M (BufferedStream S) (option Z) :=
  let@ _ := setMode Reading in
  let@ result := buffer_at0 in
  match result with
  | None => let@ _ := refillBuffer in buffer_at0
  | Some x => ret (Some x)
  end.

(** [while ((pout = m.eat()) != 0 && (pin = readByte()) != 0)], with [m] bytes of room. *)
Fixpoint BufferedStream_read (m : nat) : M (BufferedStream S) (list Z) :=
  match m with
  | O => ret []
  | Datatypes.S m' =>
      let@ pin := readByte in
      match pin with
      | None => ret []
      | Some x => let@ rest := BufferedStream_read m' in ret (x :: rest)
      end
  end.

(** [while (!m.empty())]; every round removes a byte of [m] or throws. *)
Fixpoint write_loop (fuel : nat) (m : list Z) (did : Z) : M (BufferedStream S) Z :=
  match m with
  | [] => ret did
  | _ =>
      match fuel with
      | O => throw out_of_fuel
      | Datatypes.S fuel' =>
          let@ b := get in
          if (m_bufferFill b =? 0)%nat && (m_buffer_size b <=? length m)%nat
          then let@ now := call (write m) in
               if now =? 0 then throw (FileProblemException cannotWrite)
               else write_loop fuel' (drop (Z.to_nat now) m) (did + now)
          else
            let copied := Nat.min (m_buffer_size b - m_bufferFill b) (length m) in
            let@ _ := set_raw (copy_at (m_rawBuffer b) (m_buffer_off b + m_bufferFill b) (take copied m)) in
            let@ _ := assert (negb (copied =? 0)%nat) in
            let@ _ := set_fill (m_bufferFill b + copied) in
            let@ _ := (if (m_buffer_size b <=? m_bufferFill b + copied)%nat then flushBuffer else ret tt) in
            write_loop fuel' (drop copied m) (did + Z.of_nat copied)
      end
  end.

Definition BufferedStream_write (m : list Z) : M (BufferedStream S) Z :=
  let@ _ := setMode Writing in write_loop (length m) m 0.

Definition BufferedStream_setPos (pos : Z) : M (BufferedStream S) unit :=
  let@ _ := setMode Neutral in call (setPos pos).

Definition BufferedStream_getPos : M (BufferedStream S) Z :=
  let@ p := call getPos in
  let@ b := get in
  ret match m_mode b with
      | Reading => u64 (p - Z.of_nat (m_buffer_size b))
      | Writing => u64 (p + Z.of_nat (m_bufferFill b))
      | Neutral => p
      end.

Definition BufferedStream_getSize : M (BufferedStream S) Z :=
  let@ p := call getSize in
  let@ b := get in
  match m_mode b with
  | Writing => let@ pos := call getPos in ret (Z.max p (u64 (pos + Z.of_nat (m_bufferFill b))))
  | Reading | Neutral => ret p
  end.

Definition BufferedStream_flush : M (BufferedStream S) unit :=
  let@ _ := setMode Neutral in call flush.

(** The destructor: what is left of the underlying stream. *)
Definition BufferedStream_destroy (b : BufferedStream S) : S := m_stream (BufferedStream_flush b).1.

#[export] Instance BufferedStream_stream : Stream (BufferedStream S) := {
  read n := BufferedStream_read (Z.to_nat n);
  write := BufferedStream_write;
  flush := BufferedStream_flush;
  setPos := BufferedStream_setPos;
  getPos := BufferedStream_getPos;
  getSize := BufferedStream_getSize;
  getCapabilities := call getCapabilities;
  createFileMapping limit := let@ _ := setMode Neutral in call (createFileMapping limit);
}.
End Operations.

(** ** A buffered file is the same file *)

(** Evaluate the members of a known object. *)
Ltac bs_proj := cbn [m_mode m_stream m_buffer_off m_buffer_size m_bufferFill m_rawBuffer set_stream negb] in *.

Section Laws.
Context {S : Type} `{!Stream S} `{!FileLaws S}.
Implicit Types b : BufferedStream S.

(** [writing b g]: the underlying stream is the file [g], and the first
    m_bufferFill bytes of the buffer wait to be written to it. *)
Definition writing b (g : file) : Prop :=
  m_mode b = Writing /\ m_buffer_off b = 0%nat /\ m_buffer_size b = BUFFER_SIZE /\
  (m_bufferFill b <= BUFFER_SIZE)%nat /\ length (m_rawBuffer b) = BUFFER_SIZE /\
  rep (m_stream b) g /\ f_writable g = true /\ f_pos g + Z.of_nat (m_bufferFill b) <= f_limit g.

Definition pending b : list Z := take (m_bufferFill b) (m_rawBuffer b).

(** With an empty buffer, the position is not behind the end. *)
Definition tight b (g : file) : Prop := m_bufferFill b = 0%nat -> f_pos g <= len (f_data g).

(** [reading b g]: the buffer holds the last bytes that were read from [g]. *)
Definition reading b (g : file) : Prop :=
  m_mode b = Reading /\ length (m_rawBuffer b) = BUFFER_SIZE /\
  (m_buffer_off b + m_buffer_size b <= BUFFER_SIZE)%nat /\ rep (m_stream b) g /\
  Z.of_nat (m_buffer_size b) <= f_pos g /\ len (f_data g) <= f_limit g /\
  exists rest, drop (Z.to_nat (f_pos g) - m_buffer_size b) (f_data g) = buffer_bytes b ++ rest.

(** The file a BufferedStream shows. *)
Definition buffered_rep b (f : file) : Prop :=
  match m_mode b with
  | Neutral => length (m_rawBuffer b) = BUFFER_SIZE /\ rep (m_stream b) f
  | Reading => exists g, reading b g /\ f = f_seek g (f_pos g - Z.of_nat (m_buffer_size b))
  | Writing => exists g, writing b g /\ f = f_put g (pending b) /\
                 (m_bufferFill b < BUFFER_SIZE)%nat /\ tight b g
  end.

Lemma f_wf_put g d : f_wf g -> f_pos g + len d <= f_limit g -> f_wf (f_put g d).
Proof. intros Hg Hd. destruct d; [done|]. by apply f_wf_write. Qed.

Lemma pending_length b g : writing b g -> length (pending b) = m_bufferFill b.
Proof. intros (? & ? & ? & ? & ? & _). unfold pending. rewrite length_take. lia. Qed.

Lemma buffered_rep_wf b f : buffered_rep b f -> f_wf f.
Proof.
  unfold buffered_rep. destruct (m_mode b).
  - intros (_ & H). by apply (rep_wf (m_stream b)).
  - intros (g & (_ & _ & _ & Hg & Hp & Hl & _) & ->). pose proof (rep_wf _ _ Hg) as Hwf.
    apply f_wf_seek; [done|]. destruct Hwf. lia.
  - intros (g & Hw & -> & _). pose proof (pending_length b g Hw).
    destruct Hw as (_ & _ & _ & _ & _ & Hg & _ & Hfit).
    apply f_wf_put; [by apply (rep_wf (m_stream b))|lia].
Qed.

(** Running a method of the underlying stream. *)
Lemma returns_call {A B} (m : M S A) (k : A -> M (BufferedStream S) B) b Q R :
  returns m (m_stream b) Q -> (forall s a, Q s a -> returns (k a) (set_stream s b) R) ->
  returns (bind (call m) k) b R.
Proof. apply (returns_bind_on m_stream set_stream). Qed.

Lemma returns_call_last {A} (m : M S A) b Q :
  returns m (m_stream b) (fun s a => Q (set_stream s b) a) -> returns (call m) b Q.
Proof. apply (returns_on m_stream set_stream). Qed.

Lemma returns_assert {B} c (k : unit -> M (BufferedStream S) B) b Q :
  c = true -> returns (k tt) b Q -> returns (bind (assert c) k) b Q.
Proof. by intros ->. Qed.

Lemma returns_set_buffer {B} o z (k : unit -> M (BufferedStream S) B) b Q :
  returns (k tt) (mkBuffered (m_mode b) (m_stream b) o z (m_bufferFill b) (m_rawBuffer b)) Q ->
  returns (bind (set_buffer o z) k) b Q.
Proof. done. Qed.

Lemma returns_set_raw {B} raw (k : unit -> M (BufferedStream S) B) b Q :
  returns (k tt) (mkBuffered (m_mode b) (m_stream b) (m_buffer_off b) (m_buffer_size b) (m_bufferFill b) raw) Q ->
  returns (bind (set_raw raw) k) b Q.
Proof. done. Qed.

Lemma returns_set_fill {B} fill (k : unit -> M (BufferedStream S) B) b Q :
  returns (k tt) (mkBuffered (m_mode b) (m_stream b) (m_buffer_off b) (m_buffer_size b) fill (m_rawBuffer b)) Q ->
  returns (bind (set_fill fill) k) b Q.
Proof. done. Qed.

Lemma flushBuffer_ok b g :
  writing b g -> returns flushBuffer b (fun b' _ => writing b' (f_put g (pending b)) /\ m_bufferFill b' = 0%nat).
Proof.
  intros Hw. pose proof (pending_length b g Hw) as Hpl.
  destruct b as [mode s off size fill raw].
  destruct Hw as (Hm & Ho & Hz & Hfill & Hraw & Hg & Hwr & Hfit); simpl in *; subst.
  unfold flushBuffer. apply returns_get, returns_assert; [done|]. bs_proj.
  eapply returns_bind with (Q := fun b' _ => exists z s', b' = mkBuffered Writing s' 0 z fill raw /\
      rep s' (f_put g (take fill raw))).
  - destruct (Nat.eqb_spec fill 0) as [->|Hf0]; cbn [negb]; [by exists BUFFER_SIZE, s|].
    apply returns_set_buffer, returns_get. unfold buffer_bytes. bs_proj.
    rewrite Nat.min_r, drop_0 by lia. apply returns_call_last.
    eapply returns_mono; [apply (fullWrite_spec (take fill raw) s g Hg Hwr)|].
    + rewrite length_take. lia.
    + intros s' ? Hs'. by exists fill, s'.
  - intros b' ? (z & s' & -> & Hs'). apply returns_set_buffer. split; [|done].
    unfold writing, pending; bs_proj. rewrite f_put_writable, f_put_pos, f_put_limit, length_take.
    repeat split; [unfold BUFFER_SIZE; lia|done..|lia].
Qed.


(** Leaving a mode brings the underlying stream to what the user sees. *)
Lemma leave_mode_ok b f :
  buffered_rep b f ->
  returns leave_mode b (fun b' _ => length (m_rawBuffer b') = BUFFER_SIZE /\ rep (m_stream b') f).
Proof.
  intros Hb. pose proof (buffered_rep_wf b f Hb) as Hwf. unfold leave_mode. apply returns_get.
  unfold buffered_rep in Hb. destruct (m_mode b) eqn:Hm.
  - by apply returns_ret.
  - destruct Hb as (g & (_ & Hraw & Hz & Hg & Hp & Hl & _) & ->).
    destruct (Nat.eqb_spec (m_buffer_size b) 0) as [E|E]; cbn [negb].
    + apply returns_ret. rewrite E, Z.sub_0_r, f_seek_id. done.
    + eapply returns_call; [by apply getPos_law|]. intros s p (-> & Hs).
      apply returns_call_last. bs_proj. unfold u64. rewrite wrap_small.
      2:{ destruct Hwf as [[? ?] [_ ?]]. simpl in *. lia. }
      eapply returns_mono; [apply (setPos_law s g); [done|]|done].
      destruct Hwf as [? _]. simpl in *. lia.
  - destruct Hb as (g & Hw & -> & _). eapply returns_mono; [by apply flushBuffer_ok|].
    intros b' ? (Hw' & Hf). destruct Hw' as (_ & _ & _ & _ & ? & ? & _). done.
Qed.

Lemma setMode_ok m b f :
  buffered_rep b f -> (m = Writing -> f_writable f = true) ->
  returns (setMode m) b (fun b' _ => m_mode b' = m /\
    match m with
    | Writing => exists g, writing b' g /\ (m_bufferFill b' < BUFFER_SIZE)%nat /\ f = f_put g (pending b')
    | _ => buffered_rep b' f
    end).
Proof.
  intros Hb Hw. pose proof (buffered_rep_wf b f Hb) as Hwf. unfold setMode. apply returns_get.
  case_bool_decide as Hm.
  { apply returns_ret. split; [done|]. subst m. destruct (m_mode b) eqn:E; [done..|].
    unfold buffered_rep in Hb. rewrite E in Hb. destruct Hb as (g & ? & ? & ? & _). by exists g. }
  eapply returns_bind; [by apply leave_mode_ok|]. clear b Hb Hm. intros b ? (Hraw & Hs).
  destruct m; cbn [enter_mode].
  - split; [done|]. unfold buffered_rep. done.
  - split; [done|]. unfold buffered_rep. bs_proj. exists f. rewrite Z.sub_0_r, f_seek_id. split; [|done].
    unfold reading, buffer_bytes. bs_proj. destruct Hwf as [? ?]. repeat split; [done|unfold BUFFER_SIZE; lia|done|lia..|].
    rewrite take_0. eexists. reflexivity.
  - eapply returns_bind with (Q := fun b' _ => exists s,
      b' = mkBuffered (m_mode b) s 0 BUFFER_SIZE 0 (m_rawBuffer b) /\ rep s f).
    { eapply returns_call; [by apply hasCapabilities_spec|]. intros s c (-> & Hs').
      rewrite Hw by done. cbn [negb]. apply returns_set_buffer. by exists s. }
    intros b' ? (s & -> & Hs'). split; [done|]. exists f. split; [|bs_proj; split; [unfold BUFFER_SIZE; lia|done]].
    unfold writing. bs_proj. destruct Hwf as [? ?].
    repeat split; [unfold BUFFER_SIZE; lia|done|done|by apply Hw|lia].
Qed.

(** A stream that cannot be written stays as it was, in neutral mode. *)
Lemma setMode_refused b f :
  buffered_rep b f -> f_writable f = false ->
  throws (setMode Writing) b (FileProblemException cannotWrite) (fun b' => buffered_rep b' f).
Proof.
  intros Hb Hw. unfold setMode. apply throws_get. case_bool_decide as Hm.
  { unfold buffered_rep in Hb. rewrite <- Hm in Hb. destruct Hb as (g & Hwr & -> & _).
    rewrite f_put_writable in Hw. destruct Hwr as (_ & _ & _ & _ & _ & _ & ? & _). congruence. }
  eapply returns_throws_bind; [by apply leave_mode_ok|]. clear b Hb Hm. intros b ? (Hraw & Hs).
  apply throws_bind. cbn [enter_mode].
  eapply returns_throws_bind with (Q := fun b' c => c = false /\
    length (m_rawBuffer b') = BUFFER_SIZE /\ rep (m_stream b') f).
  { apply returns_call_last. eapply returns_mono; [by apply hasCapabilities_spec|].
    intros s c (-> & Hs'). done. }
  intros b' c (-> & Hraw' & Hs'). by split.
Qed.

(** ** Reading *)

(** The next byte, or none at the end of the file. *)
Definition next_byte (f : file) (r : option Z) (f' : file) : Prop :=
  (f_rest f = [] /\ r = None /\ f' = f) \/
  (exists x rest, f_rest f = x :: rest /\ r = Some x /\ f' = f_seek f (f_pos f + 1)).

Lemma buffer_eat_ok b f :
  buffered_rep b f -> m_mode b = Reading -> m_buffer_size b <> 0%nat ->
  returns buffer_eat b (fun b' r => r <> None /\ exists f', next_byte f r f' /\ buffered_rep b' f').
Proof.
  intros Hb Hm Hz. unfold buffered_rep in Hb. rewrite Hm in Hb.
  destruct Hb as (g & (_ & Hraw & Hoz & Hg & Hp & Hl & rest & Hrest) & ->).
  unfold buffer_eat. apply returns_get. rewrite (proj2 (Nat.eqb_neq _ _) Hz).
  apply returns_set_buffer, returns_ret.
  set (p := f_pos g - Z.of_nat (m_buffer_size b)).
  assert (f_rest (f_seek g p) = buffer_bytes b ++ rest) as Hfr.
  { unfold f_rest; simpl. rewrite <- Hrest. f_equal. unfold p. lia. }
  assert (buffer_bytes b = byte_at (m_rawBuffer b) (m_buffer_off b) ::
            take (m_buffer_size b - 1) (drop (m_buffer_off b + 1) (m_rawBuffer b))) as Hbb.
  { unfold buffer_bytes. destruct (m_buffer_size b) as [|z]; [done|].
    rewrite drop_byte_at by lia. cbn [firstn]. by rewrite Nat.sub_succ, Nat.sub_0_r, Nat.add_1_r. }
  split; [done|]. exists (f_seek g (p + 1)). split.
  - right. rewrite Hfr, Hbb. eauto.
  - unfold buffered_rep. bs_proj. rewrite Hm. exists g. split; [|unfold p; f_equal; lia].
    unfold reading, buffer_bytes. bs_proj. repeat split; [done|lia|done|lia..|].
    exists rest. replace (_ - (_ - 1))%nat with (Z.to_nat (f_pos g) - m_buffer_size b + 1)%nat by lia.
    by rewrite <- drop_drop, Hrest, Hbb.
Qed.

(** Reading ahead does not change what the user sees. *)
Lemma refillBuffer_ok b f :
  buffered_rep b f -> m_mode b = Reading -> m_buffer_size b = 0%nat ->
  returns refillBuffer b (fun b' _ => buffered_rep b' f /\ m_mode b' = Reading /\
    (f_rest f <> [] -> m_buffer_size b' <> 0%nat) /\ (f_rest f = [] -> m_buffer_size b' = 0%nat)).
Proof.
  intros Hb Hm Hz. pose proof (buffered_rep_wf b f Hb) as Hwf.
  unfold buffered_rep in Hb. rewrite Hm in Hb.
  destruct Hb as (g & (_ & Hraw & _ & Hg & _ & _ & _) & ->). rewrite Hz, Z.sub_0_r, f_seek_id in *.
  unfold refillBuffer. apply returns_get, returns_assert; [by rewrite Hm|].
  apply returns_assert; [by rewrite Hz|]. apply returns_set_buffer.
  eapply returns_call; [apply (read_law (m_stream b) g); [done|unfold BUFFER_SIZE; lia]|].
  intros s got (k & Hgot & Hlen & Hne & Hs). specialize (Hne ltac:(unfold BUFFER_SIZE; lia)). apply returns_set_raw.
  apply (returns_ret tt (mkBuffered _ _ _ _ _ _)). bs_proj. rewrite Nat.min_r by lia.
  pose proof (f_rest_seek_app g got k ltac:(destruct Hwf; lia) Hgot) as Happ.
  assert (buffer_bytes (mkBuffered (m_mode b) s 0 (length got) (m_bufferFill b)
            (copy_at (m_rawBuffer b) 0 got)) = got) as Hbb.
  { unfold buffer_bytes. bs_proj. rewrite drop_0.
    exact (copy_at_prefix (m_rawBuffer b) 0 got ltac:(lia)). }
  split; [|split; [done|split]].
  - unfold buffered_rep. bs_proj. rewrite Hm. exists (f_seek g (f_pos g + len got)). split.
    + unfold reading. rewrite Hm in Hbb. rewrite Hbb. bs_proj. destruct Hwf as [? [? ?]].
      repeat split; [|lia|done|simpl; lia|done|].
      * by rewrite copy_at_length by lia.
      * exists (f_rest (f_seek g (f_pos g + len got))). rewrite <- Happ.
        unfold f_rest. simpl. f_equal. lia.
    + rewrite f_seek_seek. simpl. by replace (_ + _ - _) with (f_pos g) by lia; rewrite f_seek_id.
  - intros Hr. specialize (Hne Hr). by destruct got.
  - intros Hr. rewrite Hr, take_nil in Hgot. by subst got.
Qed.

Lemma readByte_ok b f :
  buffered_rep b f -> returns readByte b (fun b' r => exists f', next_byte f r f' /\ buffered_rep b' f').
Proof.
  intros Hb. unfold readByte. eapply returns_bind; [by apply (setMode_ok Reading b f Hb)|].
  clear b Hb. intros b ? (Hm & Hb).
  destruct (decide (m_buffer_size b = 0%nat)) as [Hz|Hz].
  - eapply returns_bind with (Q := fun b' r => b' = b /\ r = None).
    { unfold buffer_eat. apply returns_get. by rewrite Hz. }
    intros b' r (-> & ->). eapply returns_bind; [by apply refillBuffer_ok|].
    clear b Hb Hm Hz. intros b ? (Hb & Hm & Hne & He).
    destruct (decide (f_rest f = [])) as [E|E].
    + unfold buffer_eat. apply returns_get. rewrite (He E). apply returns_ret. exists f. split; [by left|done].
    + eapply returns_mono; [apply (buffer_eat_ok b f); auto|]. by intros b' r [_ ?].
  - eapply returns_bind; [by apply (buffer_eat_ok b f)|]. intros b' r (Hr & f' & Hn & Hb').
    destruct r as [x|]; [apply returns_ret; by exists f'|done].
Qed.

Lemma buffer_at0_ok b f :
  buffered_rep b f -> m_mode b = Reading -> m_buffer_size b <> 0%nat ->
  returns buffer_at0 b (fun b' r => b' = b /\ r <> None /\ r = head (f_rest f)).
Proof.
  intros Hb Hm Hz. unfold buffered_rep in Hb. rewrite Hm in Hb.
  destruct Hb as (g & (_ & Hraw & Hoz & _ & Hp & _ & rest & Hrest) & ->).
  unfold buffer_at0. apply returns_get. rewrite (proj2 (Nat.eqb_neq _ _) Hz).
  apply returns_ret. split; [done|]. split; [done|].
  unfold f_rest; simpl. replace (Z.to_nat _) with (Z.to_nat (f_pos g) - m_buffer_size b)%nat by lia.
  rewrite Hrest. unfold buffer_bytes. rewrite drop_byte_at by lia.
  by destruct (m_buffer_size b).
Qed.

(** peekByte shows the next byte and leaves the file as it is. *)
Lemma peekByte_ok b f :
  buffered_rep b f -> returns peekByte b (fun b' r => r = head (f_rest f) /\ buffered_rep b' f).
Proof.
  intros Hb. unfold peekByte. eapply returns_bind; [by apply (setMode_ok Reading b f Hb)|].
  clear b Hb. intros b ? (Hm & Hb).
  destruct (decide (m_buffer_size b = 0%nat)) as [Hz|Hz].
  - eapply returns_bind with (Q := fun b' r => b' = b /\ r = None).
    { unfold buffer_at0. apply returns_get. by rewrite Hz. }
    intros b' r (-> & ->). eapply returns_bind; [by apply refillBuffer_ok|].
    clear b Hb Hm Hz. intros b ? (Hb & Hm & Hne & He).
    destruct (decide (f_rest f = [])) as [E|E].
    + unfold buffer_at0. apply returns_get. rewrite (He E). apply returns_ret. by rewrite E.
    + eapply returns_mono; [apply (buffer_at0_ok b f); auto|]. intros b' r (-> & _ & ->). done.
  - eapply returns_bind; [by apply (buffer_at0_ok b f)|]. intros b' r (-> & Hr & ->).
    by destruct (head (f_rest f)).
Qed.

Lemma read_ok m b f :
  buffered_rep b f ->
  returns (BufferedStream_read m) b (fun b' got =>
    got = take m (f_rest f) /\ buffered_rep b' (f_seek f (f_pos f + len got))).
Proof.
  revert b f. induction m as [|m IH]; intros b f Hb; cbn [BufferedStream_read].
  { apply returns_ret. split; [done|]. simpl. by rewrite Z.add_0_r, f_seek_id. }
  pose proof (buffered_rep_wf b f Hb) as [? _].
  eapply returns_bind; [by apply readByte_ok|]. clear b Hb. intros b r (f1 & Hn & Hb).
  destruct Hn as [(E & -> & ->)|(x & rest & E & -> & ->)].
  { apply returns_ret. rewrite E. split; [done|]. simpl. by rewrite Z.add_0_r, f_seek_id. }
  eapply returns_bind; [by apply IH|]. clear b Hb. intros b got (-> & Hb). apply returns_ret.
  assert (f_rest (f_seek f (f_pos f + 1)) = rest) as Hr
    by (rewrite f_rest_seek, E by lia; apply drop_0).
  rewrite Hr in *. rewrite E. split; [done|]. rewrite f_seek_seek in Hb. cbn [f_seek f_pos] in Hb.
  cbn [length]. by rewrite Nat2Z.inj_succ, <- Z.add_1_l, Z.add_assoc.
Qed.

(** ** Writing *)

(** Adding bytes to the buffer that fit in it. *)
Lemma writing_append b g d :
  writing b g -> (m_bufferFill b + length d <= BUFFER_SIZE)%nat ->
  f_pos g + Z.of_nat (m_bufferFill b) + len d <= f_limit g ->
  let b' := mkBuffered (m_mode b) (m_stream b) (m_buffer_off b) (m_buffer_size b)
    (m_bufferFill b + length d) (copy_at (m_rawBuffer b) (m_bufferFill b) d) in
  writing b' g /\ pending b' = pending b ++ d.
Proof.
  intros (? & ? & ? & ? & Hraw & ? & ? & ?) Hd Hfit b'. split; [|apply copy_at_prefix; lia].
  unfold b', writing. bs_proj. rewrite copy_at_length by lia. repeat split; [done..|lia].
Qed.

Lemma f_put_tight g d : f_wf g -> d <> [] -> f_pos (f_put g d) <= len (f_data (f_put g d)).
Proof.
  intros [? _] Hd. rewrite f_put_pos. destruct d as [|x d]; [done|].
  cbn [f_put f_write f_data]. rewrite overwrite_length; lia.
Qed.

(** One round of the loop that goes through the buffer. *)
Lemma write_round_ok b g m :
  writing b g -> (m_bufferFill b < BUFFER_SIZE)%nat -> m <> [] ->
  f_pos g + Z.of_nat (m_bufferFill b) + len m <= f_limit g ->
  let copied := Nat.min (BUFFER_SIZE - m_bufferFill b) (length m) in
  let b1 := mkBuffered (m_mode b) (m_stream b) (m_buffer_off b) (m_buffer_size b)
    (m_bufferFill b + copied) (copy_at (m_rawBuffer b) (m_bufferFill b) (take copied m)) in
  returns (if (BUFFER_SIZE <=? m_bufferFill b + copied)%nat then flushBuffer else ret tt) b1 (fun b' _ =>
    exists g', writing b' g' /\ (m_bufferFill b' < BUFFER_SIZE)%nat /\ tight b' g' /\
      f_put g' (pending b') = f_put (f_put g (pending b)) (take copied m) /\
      f_pos g' + Z.of_nat (m_bufferFill b') = f_pos g + Z.of_nat (m_bufferFill b) + Z.of_nat copied /\
      f_limit g' = f_limit g).
Proof.
  intros Hw Hfill Hm Hfit copied b1.
  assert (0 < length m)%nat by (by destruct m; [|simpl; lia]).
  assert (length (take copied m) = copied) as Hlc by (rewrite length_take; lia).
  pose proof Hw as (_ & _ & _ & _ & _ & Hg & _). pose proof (rep_wf _ _ Hg) as Hwf.
  pose proof Hwf as [Hp _].
  destruct (writing_append b g (take copied m) Hw ltac:(lia) ltac:(lia)) as [Hw1 Hp1].
  rewrite Hlc in Hw1, Hp1. fold b1 in Hw1, Hp1.
  assert (m_bufferFill b1 = m_bufferFill b + copied)%nat as Hf1 by done.
  pose proof (pending_length b1 g Hw1) as Hl1. rewrite Hf1 in Hl1.
  destruct (Nat.leb_spec BUFFER_SIZE (m_bufferFill b + copied)) as [Hfull|Hfull].
  - eapply returns_mono; [by apply flushBuffer_ok|]. intros b' ? (Hw' & Hf0).
    exists (f_put g (pending b1)).
    assert (pending b' = []) as Hpb by (unfold pending; by rewrite Hf0).
    rewrite Hpb, Hf0, f_put_pos, f_put_limit, (f_put_app g (pending b)), <- Hp1, Hl1 by lia.
    split_and!; [done|unfold BUFFER_SIZE; lia| |done|lia|done].
    intros _. apply f_put_tight; [done|]. intros E. rewrite E in Hl1. simpl in Hl1. lia.
  - apply returns_ret. exists g. rewrite (f_put_app g (pending b)), <- Hp1, Hf1 by lia.
    split_and!; [done|lia| |done|lia|done]. unfold tight. lia.
Qed.

Lemma write_loop_ok fuel m did b g :
  writing b g -> (m_bufferFill b < BUFFER_SIZE)%nat -> (m = [] -> tight b g) ->
  f_pos g + Z.of_nat (m_bufferFill b) + len m <= f_limit g -> (length m <= fuel)%nat ->
  returns (write_loop fuel m did) b (fun b' n => n = did + len m /\
    exists g', writing b' g' /\ (m_bufferFill b' < BUFFER_SIZE)%nat /\ tight b' g' /\
      f_put g' (pending b') = f_put (f_put g (pending b)) m).
Proof.
  revert m did b g. induction fuel as [|fuel IH]; intros m did b g Hw Hfill Ht Hfit Hf.
  1, 2: destruct m as [|x m']; [apply returns_ret; split; [simpl; lia|]; exists g; auto|].
  1: simpl in Hf; lia.
  remember (x :: m') as m eqn:Em. assert (m <> []) as Hm by (by subst). 
  assert (0 < length m)%nat by (by destruct m; [|simpl; lia]).
  replace (write_loop (Datatypes.S fuel) m did) with (write_loop (Datatypes.S fuel) (x :: m') did) by (by subst).
  cbn [write_loop]. rewrite <- Em. clear Em. apply returns_get.
  pose proof Hw as (Hmode & Hoff & Hsize & _ & Hraw & Hg & Hwr & _). rewrite Hsize, Hoff. clear Ht.
  pose proof (rep_wf _ _ Hg) as Hwf. pose proof Hwf as [Hp _].
  destruct ((m_bufferFill b =? 0)%nat && (BUFFER_SIZE <=? length m)%nat) eqn:Hdirect.
  - apply andb_prop in Hdirect as [Hz%Nat.eqb_eq _].
    eapply returns_call; [apply (write_law (m_stream b) g m); [done..|lia]|]. intros s n (Hn & Hs).
    rewrite (proj2 (Z.eqb_neq n 0)) by lia.
    assert (pending b = []) as Hpb by (unfold pending; by rewrite Hz).
    set (d := take (Z.to_nat n) m) in *.
    assert (length d = Z.to_nat n) as Hld by (unfold d; rewrite length_take; lia).
    assert (f_put g d = f_write g d) as Hpd by (destruct d; [simpl in Hld; lia|done]).
    eapply returns_mono; [apply (IH _ _ (set_stream s b) (f_put g d)); unfold writing, tight; bs_proj|].
    + rewrite f_put_writable, f_put_pos, f_put_limit, Hpd. split_and!; first [done|lia].
    + done.
    + intros _ _. apply f_put_tight; [done|]. by destruct d; [simpl in Hld; lia|].
    + rewrite f_put_pos, f_put_limit, length_drop. lia.
    + rewrite length_drop. lia.
    + intros b' n' (-> & g' & H1 & H2 & H3 & H4). split; [rewrite length_drop; lia|].
      exists g'. split; [done|]. split; [done|]. split; [done|]. rewrite H4.
      change (pending (set_stream s b)) with (pending b). rewrite Hpb. cbn [f_put].
      unfold d. by rewrite f_put_app, take_drop by lia.
  - clear Hdirect. cbv zeta.
    set (copied := Nat.min (BUFFER_SIZE - m_bufferFill b) (length m)).
    apply returns_set_raw, returns_assert;
      [apply negb_true_iff, Nat.eqb_neq; lia|]. apply returns_set_fill. bs_proj. rewrite Nat.add_0_l.
    eapply returns_bind; [by apply (write_round_ok b g m)|]. fold copied.
    intros b' ? (g' & Hw' & Hfill' & Ht' & Hput & Hpos & Hlim).
    eapply returns_mono; [apply (IH _ _ b' g' Hw' Hfill'); rewrite ?length_drop; auto; lia|].
    intros b2 n (-> & g2 & H1 & H2 & H3 & H4). split; [rewrite length_drop; lia|].
    exists g2. split; [done|]. split; [done|]. split; [done|].
    rewrite H4, Hput, f_put_app, take_drop; [done|rewrite f_put_pos; lia].
Qed.

(** ** The laws *)

(** The file of the underlying stream, and what the user sees of it. *)
Lemma buffered_rep_under b f :
  buffered_rep b f -> exists g, rep (m_stream b) g /\ f_writable g = f_writable f /\
    (forall s, rep s g -> buffered_rep (set_stream s b) f) /\
    f_pos f = match m_mode b with
              | Neutral => f_pos g
              | Reading => f_pos g - Z.of_nat (m_buffer_size b)
              | Writing => f_pos g + Z.of_nat (m_bufferFill b)
              end /\
    len (f_data f) = match m_mode b with
                     | Writing => Z.max (len (f_data g)) (f_pos g + Z.of_nat (m_bufferFill b))
                     | _ => len (f_data g)
                     end.
Proof.
  unfold buffered_rep. cbn [set_stream m_mode m_rawBuffer m_stream m_bufferFill].
  destruct (m_mode b) eqn:E.
  - intros [Hraw Hs]. by exists f.
  - intros (g & (? & ? & ? & Hg & ? & ? & ?) & ->). exists g.
    split_and!; [done..| |done|done]. intros s Hs. by exists g.
  - intros (g & Hw & -> & Hfill & Ht). exists g. pose proof (pending_length b g Hw) as Hpl.
    pose proof Hw as (? & ? & ? & ? & ? & Hg & Hwr & ?). pose proof (rep_wf _ _ Hg) as [? _].
    rewrite f_put_writable, f_put_pos, Hpl. split_and!; [done|done| |done|].
    + intros s Hs. exists g. split_and!; [|done|done|done]. unfold writing. bs_proj. auto 10.
    + unfold tight in Ht. destruct (pending b) as [|x d]; simpl in Hpl.
      * simpl. specialize (Ht ltac:(lia)). lia.
      * cbn [f_put f_write f_data]. rewrite overwrite_length by lia. simpl. lia.
Qed.

Lemma setMode_neutral b f :
  buffered_rep b f ->
  returns (setMode Neutral) b (fun b' _ => m_mode b' = Neutral /\ buffered_rep b' f /\
    rep (m_stream b') f /\ forall s g, rep s g -> buffered_rep (set_stream s b') g).
Proof.
  intros Hb. eapply returns_mono; [by apply (setMode_ok Neutral b f Hb)|].
  intros b' ? (Hm & Hb'). split; [done|]. split; [done|].
  unfold buffered_rep in *. bs_proj. rewrite Hm in *. destruct Hb' as [Hraw Hs]. by split.
Qed.

#[export] Instance BufferedStream_laws : FileLaws (BufferedStream S).
Proof.
  apply (Build_FileLaws _ _ buffered_rep).
  - exact buffered_rep_wf.
  - intros b f n Hb Hn. eapply returns_mono; [by apply read_ok|].
    intros b' got (-> & Hb'). exists (Z.to_nat n). split_and!; [done| | |done].
    + rewrite length_take. lia.
    + intros ?. destruct (f_rest f), (Z.to_nat n) eqn:E; [done..|lia|done].
  - intros b f d Hb Hw Hd Hfit. eapply returns_bind; [by apply (setMode_ok Writing b f Hb)|].
    intros b1 ? (Hm & g & Hw1 & Hfill & ->).
    rewrite f_put_pos, f_put_limit, (pending_length b1 g Hw1) in Hfit.
    eapply returns_mono; [by apply (write_loop_ok _ _ _ b1 g Hw1 Hfill)|].
    intros b2 n (-> & g2 & H1 & H2 & H3 & H4).
    assert (0 < len d) by (destruct d; [done|simpl; lia]). split; [lia|].
    rewrite Z.add_0_l, Nat2Z.id, firstn_all. unfold buffered_rep.
    pose proof H1 as (-> & _). exists g2. rewrite H4. split_and!; [done| |done|done]. by destruct d.
  - intros b f d Hb Hw. apply throws_bind. by apply setMode_refused.
  - intros b f p Hb Hp. eapply returns_bind; [by apply setMode_neutral|].
    intros b' ? (_ & _ & Hs & Hset). apply returns_call_last.
    eapply returns_mono; [by apply (setPos_law (m_stream b') f)|]. intros s ? Hs'. by apply Hset.
  - intros b f Hb. pose proof (buffered_rep_wf b f Hb) as [Hp [_ Hlim]].
    destruct (buffered_rep_under b f Hb) as (g & Hg & _ & Hset & Hpos & _).
    eapply returns_call; [by apply getPos_law|]. intros s p (-> & Hs). apply returns_get, returns_ret.
    split; [|by apply Hset]. bs_proj. destruct (m_mode b); [done|..]; unfold u64; rewrite wrap_small; lia.
  - intros b f Hb. pose proof (buffered_rep_wf b f Hb) as [Hp [_ Hlim]].
    destruct (buffered_rep_under b f Hb) as (g & Hg & _ & Hset & Hpos & Hlen).
    eapply returns_call; [by apply getSize_law|]. intros s n (-> & Hs). apply returns_get. bs_proj.
    destruct (m_mode b) eqn:Hm; [apply returns_ret; split; [lia|by apply Hset]..|].
    eapply returns_call; [by apply getPos_law|]. intros s' p (-> & Hs'). apply returns_ret.
    split; [|by apply Hset]. unfold u64. rewrite wrap_small; lia.
  - intros b f Hb. eapply returns_bind; [by apply setMode_neutral|].
    intros b' ? (_ & _ & Hs & Hset). apply returns_call_last.
    eapply returns_mono; [by apply (flush_law (m_stream b') f)|]. intros s ? Hs'. by apply Hset.
  - intros b f Hb. destruct (buffered_rep_under b f Hb) as (g & Hg & <- & Hset & _).
    apply returns_call_last. eapply returns_mono; [by apply (getCapabilities_law (m_stream b) g)|].
    intros s c (Hc & Hs). split; [done|by apply Hset].
  - intros b f n Hb. eapply returns_bind; [by apply setMode_neutral|].
    intros b' ? (_ & _ & Hs & Hset). apply returns_call_last.
    eapply returns_mono; [by apply (createFileMapping_law (m_stream b') f n)|].
    intros s m (-> & Hs'). split; [done|by apply Hset].
Defined.

(** After the destructor, or flush(), the underlying stream has everything. *)
Lemma destroy_ok b f : buffered_rep b f -> rep (BufferedStream_destroy b) f.
Proof.
  intros Hb. assert (returns BufferedStream_flush b (fun b' _ => rep (m_stream b') f)) as H.
  { eapply returns_bind; [by apply setMode_neutral|]. intros b' ? (_ & _ & Hs & _).
    apply returns_call_last. eapply returns_mono; [by apply (flush_law (m_stream b') f)|]. done. }
  unfold returns in H. unfold BufferedStream_destroy. by destruct (BufferedStream_flush b) as [b' [[]|e]].
Qed.
End Laws.

(** ** What errors of the underlying stream leave behind *)

Section Failures.
Context {S : Type} `{!Stream S}.
Implicit Types b : BufferedStream S.

(** A failing read-ahead leaves the whole raw buffer as if it had been read. *)
Lemma refillBuffer_fails b s' e :
  m_mode b = Reading -> m_buffer_size b = 0%nat ->
  read (Z.of_nat BUFFER_SIZE) (m_stream b) = (s', Throw e) ->
  readByte b = (mkBuffered Reading s' 0 BUFFER_SIZE (m_bufferFill b) (m_rawBuffer b), Throw e).
Proof.
  intros Hm Hz Hr. destruct b as [mode s off size fill raw]; bs_proj. subst.
  assert (call (read (Z.of_nat BUFFER_SIZE)) (mkBuffered Reading s 0 BUFFER_SIZE fill raw)
    = (mkBuffered Reading s' 0 BUFFER_SIZE fill raw, Throw e)) as Hc by (unfold call, on; bs_proj; by rewrite Hr).
  unfold readByte. rewrite (bind_ok _ _ _ (mkBuffered Reading s off 0 fill raw) tt) by done.
  rewrite (bind_ok _ _ _ (mkBuffered Reading s off 0 fill raw) None) by done.
  apply bind_throw. unfold refillBuffer.
  do 3 rewrite (bind_ok _ _ _ (mkBuffered Reading s off 0 fill raw) _ eq_refl).
  rewrite (bind_ok _ _ _ (mkBuffered Reading s 0 BUFFER_SIZE fill raw) tt) by done.
  by apply bind_throw.
Qed.

(** The next read then delivers the old content of the buffer. *)
Lemma readByte_stale b :
  m_mode b = Reading -> m_buffer_size b <> 0%nat ->
  (readByte b).2 = Ok (Some (byte_at (m_rawBuffer b) (m_buffer_off b))).
Proof.
  intros Hm Hz. unfold readByte, setMode, buffer_eat, bind, get, ret.
  rewrite Hm, bool_decide_true, (proj2 (Nat.eqb_neq _ _) Hz) by done. done.
Qed.

(** A failing flush leaves a descriptor that has no room. *)
Lemma flushBuffer_fails b s' e :
  m_mode b = Writing -> m_bufferFill b <> 0%nat -> (m_bufferFill b <= m_buffer_size b)%nat ->
  m_buffer_off b = 0%nat ->
  fullWrite (take (m_bufferFill b) (m_rawBuffer b)) (m_stream b) = (s', Throw e) ->
  flushBuffer b = (mkBuffered Writing s' 0 (m_bufferFill b) (m_bufferFill b) (m_rawBuffer b), Throw e).
Proof.
  intros Hm Hf Hl Ho Hw. destruct b as [mode s off size fill raw]; bs_proj. subst.
  unfold flushBuffer, assert, call, on, set_buffer, buffer_bytes, bind, get, put, ret.
  rewrite bool_decide_true by done. bs_proj. rewrite (proj2 (Nat.eqb_neq _ _) Hf). bs_proj.
  rewrite Nat.min_r by done. rewrite drop_0, Hw. done.
Qed.

(** Writing more then finds no room in the buffer. *)
Lemma write_after_failed_flush b d :
  m_mode b = Writing -> m_bufferFill b <> 0%nat -> m_buffer_size b = m_bufferFill b -> d <> [] ->
  (BufferedStream_write d b).2 = Throw assertion_failed.
Proof.
  intros Hm Hf Hz Hd. destruct d as [|x d]; [done|].
  unfold BufferedStream_write, setMode, assert, set_raw, bind, get, put, ret, throw.
  rewrite Hm, bool_decide_true by done. cbn [write_loop length].
  unfold bind, get, put, ret, throw, set_raw, assert.
  rewrite Hz, Nat.sub_diag, (proj2 (Nat.eqb_neq _ _) Hf). done.
Qed.
End Failures.

(** C1. A BufferedStream on a stream that acts as a file is that file.  Whatever
    supported sequence of reads, writes, seeks, position and size queries and
    flushes is applied, each call returns what the underlying file would allow,
    reading ahead and delayed writing included, across every change between
    reading and writing; peekByte shows the next byte without consuming it; and
    once the BufferedStream is destroyed, the underlying stream has exactly the
    resulting content and position. *)
Theorem buffered_stream_transparent {S : Type} `{!Stream S, !FileLaws S}
    (s : S) (f : file) (raw : list Z) (ops : list op) :
  rep s f -> length raw = BUFFER_SIZE -> ops_ok f ops ->
  returns (run_ops ops) (BufferedStream_new s raw) (fun b rs =>
    exists f', file_run f ops rs f' /\ rep (BufferedStream_destroy b) f' /\
      returns peekByte b (fun b' r => r = head (f_rest f') /\ rep (BufferedStream_destroy b') f')).
Proof.
  intros Hs Hraw Hops.
  assert (buffered_rep (BufferedStream_new s raw) f) as Hb by done.
  eapply returns_mono; [exact (run_ops_refines ops (BufferedStream_new s raw) f Hb Hops)|].
  intros b rs (f' & Hrun & Hb'). exists f'. split; [done|]. split; [by apply destroy_ok|].
  eapply returns_mono; [exact (peekByte_ok b f' Hb')|]. intros b' r (-> & Hb''). split; [done|by apply destroy_ok].
Qed.

(** C40. The state a BufferedStream is left in by an error of the underlying
    stream is not usable.  When a read-ahead throws, the exception is passed on,
    but the descriptor already covers the whole buffer, so the next byte read is
    old buffer content instead of data of the file.  When a flush throws, the
    descriptor stays trimmed to the unwritten bytes, so the next write finds no
    room and fails its assertion. *)
Theorem buffered_failure_states {S : Type} `{!Stream S} (b : BufferedStream S) (s' : S) (e : fault) :
  (m_mode b = Reading -> m_buffer_size b = 0%nat ->
   read (Z.of_nat BUFFER_SIZE) (m_stream b) = (s', Throw e) ->
   (readByte b).2 = Throw e /\
   (readByte (readByte b).1).2 = Ok (Some (byte_at (m_rawBuffer b) 0))) /\
  (m_mode b = Writing -> m_bufferFill b <> 0%nat -> (m_bufferFill b <= m_buffer_size b)%nat ->
   m_buffer_off b = 0%nat ->
   fullWrite (take (m_bufferFill b) (m_rawBuffer b)) (m_stream b) = (s', Throw e) ->
   (BufferedStream_flush b).2 = Throw e /\
   forall d, d <> [] -> (BufferedStream_write d (BufferedStream_flush b).1).2 = Throw assertion_failed).
Proof.
  split.
  - intros Hm Hz Hr. rewrite (refillBuffer_fails b s' e Hm Hz Hr). split; [done|].
    apply (readByte_stale (mkBuffered Reading _ 0 BUFFER_SIZE _ _)); [done|discriminate].
  - intros Hm Hf Hl Ho Hw.
    assert (BufferedStream_flush b = (mkBuffered Writing s' 0 (m_bufferFill b) (m_bufferFill b) (m_rawBuffer b), Throw e)) as ->.
    { apply bind_throw. unfold setMode. rewrite (bind_ok _ _ _ b b eq_refl), Hm, bool_decide_false by done.
      apply bind_throw. unfold leave_mode. rewrite (bind_ok _ _ _ b b eq_refl), Hm.
      by apply flushBuffer_fails. }
    split; [done|]. intros d Hd. by apply write_after_failed_flush.
Qed.

(** ** Examples *)

(** A stream on which every read fails. *)
Inductive Unreadable := unreadable.

#[export] Instance Unreadable_stream : Stream Unreadable := {
  read _ := throw (FileProblemException invalidOperation);
  write d := ret 0;
  flush := ret tt;
  setPos _ := ret tt;
  getPos := ret 0;
  getSize := ret 0;
  getCapabilities := ret 0;
  createFileMapping _ := ret None;
}.

Lemma buffered_failure_states_witness :
  (readByte (mkBuffered Reading unreadable 0 0 0 [65; 66])).2 = Throw (FileProblemException invalidOperation) /\
  (readByte (readByte (mkBuffered Reading unreadable 0 0 0 [65; 66])).1).2 = Ok (Some 65) /\
  (BufferedStream_write [3] (BufferedStream_flush (mkBuffered Writing (MemoryStream_new [0]) 0 1024 2 [1; 2])).1).2
    = Throw assertion_failed.
Proof.
  destruct (buffered_failure_states (mkBuffered Reading unreadable 0 0 0 [65; 66]) unreadable
    (FileProblemException invalidOperation)) as [H1 _].
  destruct (buffered_failure_states (mkBuffered Writing (MemoryStream_new [0]) 0 1024 2 [1; 2]) (mkMem [1] 1)
    (FileProblemException cannotWrite)) as [_ H2].
  split; [apply H1; reflexivity|]. split; [apply H1; reflexivity|].
  apply H2; [reflexivity|discriminate| |reflexivity|reflexivity|discriminate].
  apply Nat.leb_le. reflexivity.
Defined.

Lemma buffered_stream_transparent_witness :
  returns (run_ops (Stream0 := @BufferedStream_stream _ (@InternalStream_stream ex_env)) ex_short_ops)
    (BufferedStream_new InternalStream_new (replicate 1024 0)) (fun b rs =>
    exists f', file_run (mkFile [] 0 1000 true) ex_short_ops rs f' /\
      @internal_rep ex_env (BufferedStream_destroy (Stream0 := @InternalStream_stream ex_env) b) f').
Proof.
  assert (@internal_rep ex_env InternalStream_new (mkFile [] 0 1000 true)) as Hs.
  { exists 1000. split; [done|]. split; [unfold f_wf; simpl; lia|]. intros l n Hn. by apply Z.leb_le. }
  pose proof (@buffered_stream_transparent InternalStream _ (@InternalStream_laws ex_env)
    InternalStream_new (mkFile [] 0 1000 true) (replicate 1024 0) ex_short_ops Hs eq_refl
    (ex_short_ops_ok 1000 ltac:(lia))) as H.
  eapply returns_mono; [exact H|]. intros b rs (f' & Hrun & Hf' & _). exact (ex_intro _ f' (conj Hrun Hf')).
Defined.
