(* ===== verification/LimitedStream.v ===== *)
(** * LimitedStream

    src/afl/io/limitedstream.cpp: a window onto another stream, given by an
    origin and a length that can each be absent ([nil]).  Exceptions of the
    parent are intercepted to repair the position.  On a parent that acts as a
    file the window is a file of its own; on any parent, the position never
    leaves the window. *)

From Stdlib Require Import ZArith Lia Bool.
From stdpp Require Import base tactics numbers option list.
From S2P Require Import Prelude Stream MemStream.

Local Open Scope Z_scope.
Local Open Scope afl_scope.

(** [FileSize_t(-1)] *)
Definition nil_ : Z := 2 ^ 64 - 1.

Record LimitedStream (S : Type) := mkLimited {
  m_parent : S;
  m_origin : Z;
  m_length : Z;
  m_position : Z;
}.
Arguments mkLimited {S}.
Arguments m_parent {S}.
Arguments m_origin {S}.
Arguments m_length {S}.
Arguments m_position {S}.

Section Operations.
Context {S : Type} `{!Stream S}.
Implicit Types l : LimitedStream S.

Definition hasPosition l : bool := negb (m_origin l =? nil_).
Definition hasLength l : bool := negb (m_length l =? nil_).

Definition set_parent (s : S) l : LimitedStream S := mkLimited s (m_origin l) (m_length l) (m_position l).
Definition set_position (p : Z) : M (LimitedStream S) unit :=
  let@ l := get in put (mkLimited (m_parent l) (m_origin l) (m_length l) p).

(** A call of a method of m_parent. *)
Definition pcall {A} (m : M S A) : M (LimitedStream S) A := on m_parent set_parent m.

Definition LimitedStream_setPos (pos : Z) : M (LimitedStream S) unit :=
  let@ l := get in
  if negb (hasPosition l) then throw (FileProblemException invalidOperation)
  else if hasLength l && (m_length l <? pos) then throw (FileProblemException invalidOperation)
  else let@ _ := pcall (setPos (u64 (m_origin l + pos))) in
       set_position pos.

Definition fixupPosition (n : Z) : M (LimitedStream S) unit :=
  let@ l := get in
  if hasLength l
  then if hasPosition l
       then let@ pos := pcall getPos in
            if pos <? m_origin l then LimitedStream_setPos 0
            else if m_length l <? pos - m_origin l then LimitedStream_setPos (m_length l)
            else set_position (pos - m_origin l)
       else set_position (u64 (m_position l + n))
  else ret tt.

(** The size of the buffer, limited to what is left of the window. *)
Definition limit_size l (n : Z) : Z :=
  let left := u64 (m_length l - m_position l) in
  if hasLength l && (left <? n) then Z.min n left else n.

Definition LimitedStream_read (n : Z) : M (LimitedStream S) (list Z) :=
  let@ l := get in
  let n := limit_size l n in
  catch_rethrow
    (let@ result := pcall (read n) in
     let@ l := get in
     let@ _ := set_position (u64 (m_position l + len result)) in
     ret result)
    (fixupPosition n).

Definition LimitedStream_write (m : list Z) : M (LimitedStream S) Z :=
  let@ l := get in
  let m := take (Z.to_nat (limit_size l (len m))) m in
  catch_rethrow
    (let@ result := pcall (write m) in
     let@ l := get in
     let@ _ := set_position (u64 (m_position l + result)) in
     ret result)
    (fixupPosition (len m)).

Definition LimitedStream_getCapabilities : M (LimitedStream S) Z :=
  let@ ops := pcall getCapabilities in
  let@ l := get in
  ret (if negb (hasPosition l) then Z.land ops (unot 32 CanSeek) else ops).

Definition LimitedStream_createFileMapping (limit : Z) : M (LimitedStream S) (option (list Z)) :=
  let@ l := get in
  let left := u64 (m_length l - m_position l) in
  pcall (createFileMapping (if hasLength l && (left <? limit) then left else limit)).

(** The constructor; an exception of setPos leaves no object. *)
Definition LimitedStream_new (parent : S) (origin length : Z) : outcome fault (LimitedStream S) :=
  let l := mkLimited parent origin length 0 in
  if hasPosition l
  then match LimitedStream_setPos 0 l with
       | (l', Ok _) => Ok l'
       | (_, Throw e) => Throw e
       end
  else Ok l.

(** [createChild()], given the child of the parent. *)
Definition LimitedStream_createChild (child : S) l : outcome fault (LimitedStream S) :=
  LimitedStream_new child (m_origin l) (m_length l).

#[export] Instance LimitedStream_stream : Stream (LimitedStream S) := {
  read := LimitedStream_read;
  write := LimitedStream_write;
  flush := pcall flush;
  setPos := LimitedStream_setPos;
  getPos := let@ l := get in ret (m_position l);
  getSize := let@ l := get in ret (m_length l);
  getCapabilities := LimitedStream_getCapabilities;
  createFileMapping := LimitedStream_createFileMapping;
}.
End Operations.

(** Evaluate the members of a known object. *)
Ltac ls_proj := cbn [m_parent m_origin m_length m_position set_parent negb andb] in *.

(** ** On a file, the window is a file *)

(** Writing within the middle part leaves the other parts alone. *)
Lemma overwrite_window pre win post p d :
  0 <= p -> p + len d <= len win ->
  overwrite (pre ++ win ++ post) (len pre + p) d = pre ++ overwrite win p d ++ post.
Proof.
  intros Hp Hd. unfold overwrite.
  rewrite !length_app. rewrite !(proj2 (Nat.sub_0_le _ _)) by lia. simpl. rewrite !app_nil_r.
  rewrite take_app, (take_ge pre) by lia. rewrite take_app_le by lia.
  rewrite drop_app, (drop_ge pre) by lia. rewrite drop_app_le by lia.
  rewrite <- !app_assoc. simpl. do 2 f_equal; [f_equal; lia|]. do 3 f_equal. lia.
Qed.

Section Laws.
Context {S : Type} `{!Stream S} `{!FileLaws S}.
Context (pre post : list Z).
Implicit Types l : LimitedStream S.

(** The parent's content is the window between [pre] and [post], and the
    parent's position is in the window. *)
Definition limited_rep l (f : file) : Prop :=
  exists g, rep (m_parent l) g /\ f_data g = pre ++ f_data f ++ post /\
    f_pos g = len pre + f_pos f /\ f_writable g = f_writable f /\
    m_origin l = len pre /\ m_length l = len (f_data f) /\ m_position l = f_pos f /\
    f_limit f = len (f_data f) /\ 0 <= f_pos f <= len (f_data f) /\
    m_origin l <> nil_ /\ m_length l <> nil_.

Lemma limited_facts l f :
  limited_rep l f -> hasPosition l = true /\ hasLength l = true /\
  len pre + len (f_data f) + len post < 2 ^ 64 /\ f_wf f /\
  (forall n, limit_size l n = Z.min n (len (f_data f) - f_pos f)).
Proof.
  intros (g & Hg & Hd & Hp & Hw & Ho & Hl & Hm & Hlim & Hpos & Hn1 & Hn2).
  pose proof (rep_wf _ _ Hg) as [_ Hwf]. rewrite Hd, !length_app in Hwf.
  assert (hasLength l = true) as Hhl by (unfold hasLength; apply negb_true_iff, Z.eqb_neq; done).
  split_and!; [unfold hasPosition; apply negb_true_iff, Z.eqb_neq; done|done|lia|split; lia|].
  intros n. unfold limit_size. rewrite Hhl, Hl, Hm. unfold u64. rewrite wrap_small by lia. simpl.
  zcases; lia.
Qed.

(** What is left of the window is the beginning of what is left of the parent. *)
Lemma limited_rest g f :
  f_data g = pre ++ f_data f ++ post -> f_pos g = len pre + f_pos f -> 0 <= f_pos f <= len (f_data f) ->
  f_rest g = f_rest f ++ post.
Proof.
  intros Hd Hp Hpos. unfold f_rest. rewrite Hd, Hp.
  rewrite drop_app, drop_ge, drop_app_le by lia. simpl. do 2 f_equal. lia.
Qed.

Lemma set_position_ok l p (Q : LimitedStream S -> unit -> Prop) :
  Q (mkLimited (m_parent l) (m_origin l) (m_length l) p) tt -> returns (set_position p) l Q.
Proof. done. Qed.

Lemma returns_pcall {A B} (m : M S A) (k : A -> M (LimitedStream S) B) l Q R :
  returns m (m_parent l) Q -> (forall s a, Q s a -> returns (k a) (set_parent s l) R) ->
  returns (bind (pcall m) k) l R.
Proof. apply (returns_bind_on m_parent set_parent). Qed.

(** The object after the parent moved to [g'] and the position to [f']. *)
Lemma limited_rep_step l f s g' f' :
  limited_rep l f -> rep s g' -> f_data g' = pre ++ f_data f' ++ post ->
  f_pos g' = len pre + f_pos f' -> f_writable g' = f_writable f' -> f_limit f' = f_limit f ->
  length (f_data f') = length (f_data f) -> 0 <= f_pos f' <= len (f_data f') ->
  limited_rep (mkLimited s (m_origin l) (m_length l) (f_pos f')) f'.
Proof.
  intros (g & Hg & Hd & Hp & Hw & Ho & Hl & Hm & Hlim & Hpos & Hn1 & Hn2) Hs Hd' Hp' Hw' Hlim' Hlen Hpos'.
  exists g'. ls_proj. split_and!; [done..|lia|done|lia|lia|lia|done|done].
Qed.

Lemma limited_read l f n :
  limited_rep l f -> 0 <= n ->
  returns (LimitedStream_read n) l (fun l' got =>
    exists k, got = take k (f_rest f) /\ len got <= n /\ (0 < n -> f_rest f <> [] -> got <> []) /\
      limited_rep l' (f_seek f (f_pos f + len got))).
Proof.
  intros Hl Hn. destruct (limited_facts l f Hl) as (Hhp & Hhl & Hsum & Hwf & Hsize).
  pose proof Hl as (g & Hg & Hd & Hp & Hw & Ho & Hlen & Hm & Hlim & Hpos & _ & _).
  unfold LimitedStream_read. apply returns_get. cbv zeta. rewrite Hsize.
  pose proof (limited_rest g f Hd Hp Hpos) as Hrest. pose proof (f_rest_length f Hwf) as Hfl.
  apply returns_catch. eapply returns_pcall; [apply (read_law (m_parent l) g); [done|lia]|].
  intros s got (k & Hgot & Hle & Hne & Hs). apply returns_get. ls_proj.
  assert (got = take (length got) (f_rest f)) as Hgot'.
  { rewrite Hgot at 1. rewrite Hgot in Hle. rewrite length_take in Hle. rewrite Hgot, length_take, Hrest.
    rewrite Hrest, length_app in Hle.
    rewrite <- (take_app_le (f_rest f) post) by (rewrite length_app; lia).
    rewrite length_app. destruct (decide (k <= length (f_rest f ++ post))%nat) as [Hk|Hk];
      rewrite length_app in Hk; [f_equal; lia|]. rewrite !take_ge; [done|rewrite length_app; lia..]. }
  assert (len got <= len (f_data f) - f_pos f) by lia.
  unfold u64. rewrite wrap_small by lia. apply returns_put, returns_ret. ls_proj. rewrite Hm.
  exists (length got). split_and!; [done|lia| |].
  - intros Hn0 Hr. apply Hne; [|rewrite Hrest; by destruct (f_rest f)].
    destruct (f_rest f) as [|x r]; [done|]. simpl in Hfl. lia.
  - apply (limited_rep_step l f s (f_seek g (f_pos g + len got)) (f_seek f (f_pos f + len got)));
      [done..|simpl; lia|done|done|done|simpl; lia].
Qed.

Lemma limited_write l f d :
  limited_rep l f -> f_writable f = true -> d <> [] -> f_pos f + len d <= f_limit f ->
  returns (LimitedStream_write d) l (fun l' n =>
    0 < n <= len d /\ limited_rep l' (f_write f (take (Z.to_nat n) d))).
Proof.
  intros Hl Hwr Hne Hfit. destruct (limited_facts l f Hl) as (Hhp & Hhl & Hsum & Hwf & Hsize).
  pose proof Hl as (g & Hg & Hd & Hp & Hw & Ho & Hlen & Hm & Hlim & Hpos & _ & _).
  pose proof (rep_wf _ _ Hg) as [_ Hgw]. rewrite Hd, !length_app in Hgw.
  unfold LimitedStream_write. apply returns_get. cbv zeta.
  rewrite Hsize, Z.min_l, Nat2Z.id, firstn_all by lia.
  apply returns_catch. eapply returns_pcall; [apply (write_law (m_parent l) g d); [done|congruence|done|lia]|].
  intros s n (Hn & Hs). apply returns_get. ls_proj. split; [done|].
  set (d' := take (Z.to_nat n) d) in *.
  assert (len d' = n) as Hd' by (unfold d'; rewrite length_take; lia).
  unfold u64. rewrite wrap_small by lia. rewrite Hm, <- Hd'.
  apply (limited_rep_step l f s (f_write g d') (f_write f d')); [done..| |simpl; lia|done|done| |].
  - simpl. rewrite Hd, Hp. apply overwrite_window; lia.
  - pose proof (overwrite_length (f_data f) (f_pos f) d'). simpl. lia.
  - pose proof (overwrite_length (f_data f) (f_pos f) d'). simpl. lia.
Qed.

(** After an exception that left the parent in place, the position is right. *)
Lemma fixupPosition_ok l f n :
  limited_rep l f -> returns (fixupPosition n) l (fun l' _ => limited_rep l' f).
Proof.
  intros Hl. destruct (limited_facts l f Hl) as (Hhp & Hhl & Hsum & Hwf & _).
  pose proof Hl as (g & Hg & Hd & Hp & Hw & Ho & Hlen & Hm & Hlim & Hpos & _ & _).
  unfold fixupPosition. apply returns_get. rewrite Hhl, Hhp.
  eapply returns_pcall; [by apply getPos_law|]. intros s p (-> & Hs).
  rewrite (proj2 (Z.ltb_ge _ _)) by lia. rewrite (proj2 (Z.ltb_ge _ _)) by lia.
  apply set_position_ok. ls_proj. replace (f_pos g - m_origin l) with (f_pos f) by lia.
  by apply (limited_rep_step l f s g f).
Qed.

Lemma limited_write_refused l f d :
  limited_rep l f -> f_writable f = false ->
  throws (LimitedStream_write d) l (FileProblemException cannotWrite) (fun l' => limited_rep l' f).
Proof.
  intros Hl Hwr. pose proof Hl as (g & Hg & Hd & Hp & Hw & Ho & Hlen & Hm & Hlim & Hpos & _ & _).
  unfold LimitedStream_write. apply throws_get. cbv zeta.
  eapply throws_catch; [done| |].
  - apply throws_bind, (throws_on m_parent set_parent).
    eapply throws_mono; [apply (write_refused_law (m_parent l) g); [done|congruence]|].
    intros s Hs. refine (_ : (fun l' => limited_rep l' f) (set_parent s l)). unfold set_parent. rewrite Hm.
    by apply (limited_rep_step l f s g f).
  - intros l' Hl'. by apply fixupPosition_ok.
Qed.

Lemma limited_setPos l f p :
  limited_rep l f -> 0 <= p <= f_limit f ->
  returns (LimitedStream_setPos p) l (fun l' _ => limited_rep l' (f_seek f p)).
Proof.
  intros Hl Hpl. destruct (limited_facts l f Hl) as (Hhp & Hhl & Hsum & Hwf & _).
  pose proof Hl as (g & Hg & Hd & Hp & Hw & Ho & Hlen & Hm & Hlim & Hpos & _ & _).
  pose proof (rep_wf _ _ Hg) as [_ Hgw]. rewrite Hd, !length_app in Hgw.
  unfold LimitedStream_setPos. apply returns_get. rewrite Hhp, Hhl. cbn [negb andb].
  rewrite (proj2 (Z.ltb_ge _ _)) by lia. unfold u64. rewrite wrap_small by lia.
  eapply returns_pcall; [apply (setPos_law (m_parent l) g); [done|lia]|]. intros s ? Hs.
  apply set_position_ok. ls_proj.
  apply (limited_rep_step l f s (f_seek g (m_origin l + p)) (f_seek f p)); [done..|simpl; lia|done|done|done|simpl; lia].
Qed.

Lemma limited_same l f s g :
  limited_rep l f -> rep s g -> f_data g = pre ++ f_data f ++ post -> f_pos g = len pre + f_pos f ->
  f_writable g = f_writable f -> limited_rep (set_parent s l) f.
Proof.
  intros Hl Hs Hd Hp Hw. pose proof Hl as (_ & _ & _ & _ & _ & _ & _ & Hm & _ & Hpos & _).
  unfold set_parent. rewrite Hm. by apply (limited_rep_step l f s g f).
Qed.

Lemma limited_getCapabilities l f :
  limited_rep l f -> returns LimitedStream_getCapabilities l (fun l' caps =>
    Z.testbit caps 1 = f_writable f /\ limited_rep l' f).
Proof.
  intros Hl. pose proof Hl as (g & Hg & Hd & Hp & Hw & _). destruct (limited_facts l f Hl) as (Hhp & _).
  eapply returns_pcall; [by apply (getCapabilities_law (m_parent l) g)|]. intros s c (Hc & Hs).
  apply returns_get, returns_ret. change (hasPosition (set_parent s l)) with (hasPosition l). rewrite Hhp.
  split; [cbn [negb]; congruence|]. by apply (limited_same l f s g).
Qed.

Definition LimitedStream_laws : FileLaws (LimitedStream S).
Proof.
  apply (Build_FileLaws _ _ limited_rep).
  - intros l f Hl. by destruct (limited_facts l f Hl) as (_ & _ & _ & ? & _).
  - exact limited_read.
  - exact limited_write.
  - exact limited_write_refused.
  - exact limited_setPos.
  - intros l f Hl. pose proof Hl as (_ & _ & _ & _ & _ & _ & _ & Hm & _). split; [exact Hm|exact Hl].
  - intros l f Hl. pose proof Hl as (_ & _ & _ & _ & _ & _ & Hlen & _). split; [exact Hlen|exact Hl].
  - intros l f Hl. pose proof Hl as (g & Hg & Hd & Hp & Hw & _). apply (returns_on m_parent set_parent).
    eapply returns_mono; [by apply (flush_law (m_parent l) g)|]. intros s ? Hs. by apply (limited_same l f s g).
  - exact limited_getCapabilities.
  - intros l f n Hl. pose proof Hl as (g & Hg & Hd & Hp & Hw & _). apply returns_get.
    apply (returns_on m_parent set_parent).
    eapply returns_mono; [apply (createFileMapping_law (m_parent l) g); done|].
    intros s m (-> & Hs). split; [done|]. by apply (limited_same l f s g).
Defined.
End Laws.

(** ** On any parent, the position stays in the window *)

Section Bounds.
Context {S : Type} `{!Stream S}.
Implicit Types l : LimitedStream S.

(** What stream.hpp promises of every stream: a read does not return more than
    was asked for, a write not more than was given. *)
Class BoundedStream := {
  read_bound s n s' got : read n s = (s', Ok got) -> 0 <= n -> len got <= n;
  write_bound s d s' n : write d s = (s', Ok n) -> 0 <= n <= len d;
}.

Definition in_window l : Prop := 0 <= m_position l <= m_length l /\ m_length l < nil_.

(** [kept l l']: [l'] has the window of [l], and its position is in it. *)
Definition kept l l' : Prop :=
  m_origin l' = m_origin l /\ m_length l' = m_length l /\ 0 <= m_position l' <= m_length l'.

Lemma kept_pcall {A} (m : M S A) l : in_window l -> kept l (pcall m l).1.
Proof. intros [? _]. unfold pcall, on. by destruct (m (m_parent l)) as [s r]. Qed.

Lemma kept_setPos l p : in_window l -> 0 <= p -> kept l (LimitedStream_setPos p l).1.
Proof.
  intros Hl Hp. assert (kept l l) as Hll by (destruct Hl; done).
  unfold LimitedStream_setPos, bind, get, throw. destruct (hasPosition l); [simpl|done].
  assert (hasLength l = true) as -> by (destruct Hl; unfold hasLength; apply negb_true_iff, Z.eqb_neq; lia).
  simpl. destruct (Z.ltb_spec (m_length l) p); [done|].
  pose proof (kept_pcall (setPos (u64 (m_origin l + p))) l Hl) as Hk.
  destruct (pcall _ l) as [l' [a|e]]; [|done]. destruct Hk as (? & ? & ?). unfold kept. simpl in *. lia.
Qed.

Context `{!BoundedStream}.

Lemma kept_fixupPosition l n :
  in_window l -> 0 <= n <= m_length l - m_position l -> kept l (fixupPosition n l).1.
Proof.
  intros Hl Hn. unfold fixupPosition, bind, get, put, ret.
  assert (hasLength l = true) as -> by (destruct Hl; unfold hasLength; apply negb_true_iff, Z.eqb_neq; lia).
  destruct (hasPosition l).
  2:{ destruct Hl as [? ?]. unfold kept, u64, nil_ in *. simpl. rewrite wrap_small by lia. lia. }
  destruct (pcall getPos l) as [l' [p|e]] eqn:E; pose proof (kept_pcall getPos l Hl) as Hk; rewrite E in Hk; [|done].
  assert (in_window l') as Hl' by (destruct Hk as (? & ? & ?); destruct Hl; split; simpl in *; lia).
  assert (forall l2, kept l' l2 -> kept l l2) as Htrans
    by (destruct Hk as (? & ? & ?); intros l2 (? & ? & ?); unfold kept; simpl in *; split_and!; congruence || lia).
  destruct (Z.ltb_spec p (m_origin l)); [by apply Htrans, kept_setPos|].
  destruct (Z.ltb_spec (m_length l) (p - m_origin l)).
  - apply Htrans, kept_setPos; [done|destruct Hl; lia].
  - destruct Hk as (? & ? & ?). unfold kept. simpl in *. split_and!; [done|done|lia|lia].
Qed.

(** Reading and writing share the limit and the repair. *)
Lemma kept_limited {A} (io : M S A) (count : A -> Z) n l :
  in_window l -> 0 <= n <= m_length l - m_position l ->
  (forall s s' a, io s = (s', Ok a) -> 0 <= count a <= n) ->
  let r := catch_rethrow (let@ result := pcall io in
                          let@ l := get in
                          let@ _ := set_position (u64 (m_position l + count result)) in
                          ret result) (fixupPosition n) l in
  kept l r.1 /\ forall a, r.2 = Ok a -> 0 <= count a <= n /\ m_position r.1 = m_position l + count a.
Proof.
  intros Hl Hn Hio. pose proof (kept_pcall io l Hl) as Hk. pose proof Hl as [Hp Hlen].
  unfold catch_rethrow, bind, get, set_position, put, ret. cbv zeta.
  destruct (pcall io l) as [l' [a|e]] eqn:E; simpl in Hk.
  - assert (0 <= count a <= n /\ m_position l' = m_position l) as [Hc Hpos].
    { unfold pcall, on in E. destruct (io (m_parent l)) as [s [a'|]] eqn:Ei; simplify_eq.
      split; [by apply (Hio _ _ _ Ei)|done]. }
    destruct Hk as (? & ? & ?). unfold kept, u64, nil_ in *. simpl. rewrite wrap_small by lia.
    split; [lia|]. intros a' [= <-]. lia.
  - assert (kept l l' /\ m_position l' = m_position l) as [_ Hpos].
    { split; [done|]. unfold pcall, on in E. destruct (io (m_parent l)) as [s [a'|]]; by simplify_eq. }
    destruct (is_exception e); [|by split].
    assert (in_window l') as Hl' by (destruct Hk as (? & ? & ?); split; lia).
    assert (kept l' (fixupPosition n l').1) as Hf
      by (apply kept_fixupPosition; [done|destruct Hk as (? & ? & ?); lia]).
    assert (kept l (fixupPosition n l').1) as Hf2
      by (destruct Hk as (? & ? & ?), Hf as (? & ? & ?); unfold kept; split_and!; congruence || lia).
    by destruct (fixupPosition n l') as [l2 [u|e2]].
Qed.

Lemma limit_size_window l n :
  in_window l -> 0 <= n -> limit_size l n = Z.min n (m_length l - m_position l).
Proof.
  intros [? ?] Hn. unfold limit_size, u64. unfold nil_ in *. rewrite wrap_small by lia.
  assert (hasLength l = true) as -> by (unfold hasLength; apply negb_true_iff, Z.eqb_neq; unfold nil_; lia).
  simpl. zcases; lia.
Qed.

Lemma kept_read l n :
  in_window l -> 0 <= n ->
  kept l (LimitedStream_read n l).1 /\
  forall got, (LimitedStream_read n l).2 = Ok got ->
    len got <= n /\ m_position (LimitedStream_read n l).1 = m_position l + len got.
Proof.
  intros Hl Hn. pose proof (limit_size_window l n Hl Hn) as Hs.
  pose proof Hl as [? _].
  destruct (kept_limited (read (limit_size l n)) (fun got => len got) (limit_size l n) l Hl ltac:(lia)) as [H1 H2].
  { intros s s' a Ha. split; [lia|]. apply (read_bound _ _ _ _ Ha). lia. }
  split; [exact H1|]. intros got Hgot. specialize (H2 got Hgot). split; [lia|]. exact (proj2 H2).
Qed.

Lemma kept_write l d :
  in_window l ->
  kept l (LimitedStream_write d l).1 /\
  forall n, (LimitedStream_write d l).2 = Ok n ->
    0 <= n <= len d /\ m_position (LimitedStream_write d l).1 = m_position l + n.
Proof.
  intros Hl. pose proof (limit_size_window l (len d) Hl ltac:(lia)) as Hs. pose proof Hl as [? _].
  set (d' := take (Z.to_nat (limit_size l (len d))) d).
  assert (len d' = limit_size l (len d)) as Hd' by (unfold d'; rewrite length_take; lia).
  destruct (kept_limited (write d') (fun n => n) (len d') l Hl ltac:(lia)) as [H1 H2].
  { intros s s' a Ha. exact (write_bound _ _ _ _ Ha). }
  split; [exact H1|]. intros n Hn. specialize (H2 n Hn). split; [lia|]. exact (proj2 H2).
Qed.
End Bounds.
Arguments BoundedStream S {_}.

#[export] Instance MemoryStream_bounded : BoundedStream MemoryStream.
Proof.
  constructor.
  - intros s n s' got H Hn. unfold read in H; simpl in H. injection H as _ <-.
    unfold mem_read. rewrite length_take. lia.
  - intros s d s' n H. unfold write in H; simpl in H. injection H as _ <-. lia.
Qed.

Section New.
Context {S : Type} `{!Stream S} `{!FileLaws S}.

Lemma LimitedStream_new_ok (s : S) g pre win post :
  rep s g -> f_data g = pre ++ win ++ post -> len pre + len win < nil_ ->
  exists l, LimitedStream_new s (len pre) (len win) = Ok l /\
    limited_rep pre post l (mkFile win 0 (len win) (f_writable g)).
Proof.
  intros Hs Hd Hn. pose proof (rep_wf _ _ Hs) as [_ Hgw]. rewrite Hd, !length_app in Hgw.
  unfold LimitedStream_new. set (l0 := mkLimited s (len pre) (len win) 0).
  assert (hasPosition l0 = true) as Hhp by (apply negb_true_iff, Z.eqb_neq; simpl; lia).
  assert (hasLength l0 = true) as Hhl by (apply negb_true_iff, Z.eqb_neq; simpl; lia).
  cbv zeta. rewrite Hhp.
  assert (returns (LimitedStream_setPos 0) l0 (fun l _ =>
    limited_rep pre post l (mkFile win 0 (len win) (f_writable g)))) as H.
  { unfold LimitedStream_setPos. apply returns_get. rewrite Hhp, Hhl. cbn [negb andb].
    rewrite (proj2 (Z.ltb_ge _ _)) by (simpl; lia). unfold u64. rewrite wrap_small by (simpl; lia).
    eapply returns_bind_on; [apply (setPos_law s g); [done|simpl; lia]|]. intros s' ? Hs'.
    apply set_position_ok. exists (f_seek g (m_origin l0 + 0)). ls_proj.
    cbn [f_data f_pos f_limit f_writable f_seek]. split_and!; try done; unfold l0; simpl; lia. }
  unfold returns in H. destruct (LimitedStream_setPos 0 l0) as [l [u|e]]; [|done]. by exists l.
Qed.
End New.

(** C4. A LimitedStream shows exactly its window.  On a parent that acts as a
    file, a stream constructed with an origin and a length inside the content
    is a file that consists of that window and cannot grow: every supported
    sequence of operations gives the replies of that file, and leaves the bytes
    of the parent outside the window untouched and its position at the
    corresponding place.  On any parent, even one that throws and moves, reads,
    writes and seeks leave origin and length alone and the position inside the
    window, and a successful read or write advances it by its count; so at most
    the length of the window can ever be read through it. *)
Theorem limited_stream_correct {S : Type} `{!Stream S} :
  (forall (laws : FileLaws S) (s : S) g pre win post ops,
     rep s g -> f_data g = pre ++ win ++ post -> len pre + len win < nil_ ->
     ops_ok (mkFile win 0 (len win) (f_writable g)) ops ->
     exists l, LimitedStream_new s (len pre) (len win) = Ok l /\
       returns (run_ops ops) l (fun l' rs => exists f' g',
         file_run (mkFile win 0 (len win) (f_writable g)) ops rs f' /\
         rep (m_parent l') g' /\ f_data g' = pre ++ f_data f' ++ post /\ f_pos g' = len pre + f_pos f' /\
         length (f_data f') = length win)) /\
  (forall (bounded : BoundedStream S) (l : LimitedStream S), in_window l ->
     (forall n, 0 <= n ->
        kept l (read n l).1 /\
        forall got, (read n l).2 = Ok got -> len got <= n /\ m_position (read n l).1 = m_position l + len got) /\
     (forall d,
        kept l (write d l).1 /\
        forall n, (write d l).2 = Ok n -> 0 <= n <= len d /\ m_position (write d l).1 = m_position l + n) /\
     (forall p, 0 <= p -> kept l (setPos p l).1)).
Proof.
  split.
  - intros laws s g pre win post ops Hs Hd Hn Hops.
    destruct (LimitedStream_new_ok s g pre win post Hs Hd Hn) as (l & Hnew & Hl). exists l. split; [done|].
    eapply returns_mono;
      [exact (@run_ops_refines _ _ (LimitedStream_laws pre post) ops l _ Hl Hops)|].
    intros l' rs (f' & Hrun & Hl').
    assert (f_limit f' = len win) as Hlim.
    { clear Hl Hl' Hops. remember (mkFile win 0 (len win) (f_writable g)) as f0 eqn:E.
      change (len win) with (f_limit (mkFile win 0 (len win) (f_writable g))). rewrite <- E. clear E.
      induction Hrun as [|f o ops r rs f1 f2 Hst Hrun IH]; [done|]. rewrite IH.
      destruct Hst; cbn; rewrite ?f_put_limit; done. }
    destruct Hl' as (g' & Hg' & Hd' & Hp' & _ & _ & _ & _ & Hlim' & _). exists f', g'. split_and!; [done..|]. lia.
  - intros bounded l Hl. split; [|split].
    + intros n Hn. by apply kept_read.
    + intros d. by apply kept_write.
    + intros p Hp. by apply kept_setPos.
Qed.

(** A window of three bytes in a MemoryStream. *)
Lemma limited_stream_correct_witness :
  (exists l, LimitedStream_new (MemoryStream_new [1; 2; 3; 4; 5]) 1 3 = Ok l /\
     returns (run_ops [OFullRead 2; OFullWrite [9]]) l (fun l' rs => exists f' g',
       file_run (mkFile [2; 3; 4] 0 3 true) [OFullRead 2; OFullWrite [9]] rs f' /\
       memory_rep (m_parent l') g' /\ f_data g' = [1] ++ f_data f' ++ [5] /\ f_pos g' = 1 + f_pos f' /\
       length (f_data f') = 3%nat)) /\
  kept (mkLimited (MemoryStream_new [1; 2]) 0 1 0) (read 2 (mkLimited (MemoryStream_new [1; 2]) 0 1 0)).1.
Proof.
  split.
  - apply (proj1 limited_stream_correct MemoryStream_laws (MemoryStream_new [1; 2; 3; 4; 5])
      (mkFile [1; 2; 3; 4; 5] 0 5 true) [1] [2; 3; 4] [5]).
    + split; [reflexivity|]. unfold f_wf; simpl; lia.
    + reflexivity.
    + unfold nil_; simpl; lia.
    + split; [simpl; lia|]. intros r f1 H1. inversion H1; subst. split; [simpl; lia|done].
  - apply (proj2 limited_stream_correct MemoryStream_bounded (mkLimited (MemoryStream_new [1; 2]) 0 1 0)).
    + unfold in_window, nil_; simpl; lia.
    + lia.
Defined.
