(* ===== verification/Multiplex.v ===== *)
(** * MultiplexableStream

    src/afl/io/multiplexablestream.cpp: any number of child streams share a
    master stream; a control node remembers which child is active, that is,
    whose position the master has, and the position of each other child.  Every
    operation runs with the control node's mutex held, so concurrent use is an
    interleaving of whole operations.  If the master acts as a file, each child
    is a file with a position of its own over the shared content.

    The linked list of children is the map from children to m_posIfInactive. *)

From Stdlib Require Import ZArith Lia Bool.
From stdpp Require Import base tactics numbers option list gmap.
From S2P Require Import Prelude Stream MemStream.

Local Open Scope Z_scope.
Local Open Scope afl_scope.

(** The control node; m_parent is null once the master is destroyed. *)
Record ControlNode (S : Type) := mkNode {
  cn_parent : option S;
  cn_children : gmap nat Z;
  cn_activeChild : option nat;
}.
Arguments mkNode {S}.
Arguments cn_parent {S}.
Arguments cn_children {S}.
Arguments cn_activeChild {S}.

Section Operations.
Context {S : Type} `{!Stream S}.
Implicit Types n : ControlNode S.

Definition ControlNode_new (parent : S) : ControlNode S := mkNode (Some parent) ∅ None.

(** A call of a method of the master, or [dead] if it is gone. *)
Definition mcall {A} (m : M S A) (dead : A) : M (ControlNode S) A := fun n =>
  match cn_parent n with
  | Some p => let '(p', r) := m p in (mkNode (Some p') (cn_children n) (cn_activeChild n), r)
  | None => (n, Ok dead)
  end.

(** addChild, with the constructor of Child (m_posIfInactive is 0). *)
Definition createChild (ch : nat) : M (ControlNode S) unit :=
  let@ n := get in put (mkNode (cn_parent n) (<[ch := 0]> (cn_children n)) (cn_activeChild n)).

Definition set_active (a : option nat) : M (ControlNode S) unit :=
  let@ n := get in put (mkNode (cn_parent n) (cn_children n) a).
Definition set_posIfInactive (ch : nat) (p : Z) : M (ControlNode S) unit :=
  let@ n := get in put (mkNode (cn_parent n) (<[ch := p]> (cn_children n)) (cn_activeChild n)).

Definition removeChild (ch : nat) : M (ControlNode S) unit :=
  let@ n := get in
  put (mkNode (cn_parent n) (delete ch (cn_children n))
         (if bool_decide (cn_activeChild n = Some ch) then None else cn_activeChild n)).

Definition removeParent : M (ControlNode S) unit :=
  let@ n := get in put (mkNode None (cn_children n) None).

(** Returns whether there is a master to perform the operation on. *)
Definition activateChild (ch : nat) (wantSetPos : bool) : M (ControlNode S) bool :=
  let@ n := get in
  if bool_decide (cn_parent n = None) then ret false
  else
    let@ _ := (if bool_decide (cn_activeChild n = Some ch) then ret tt
               else
                 let@ _ := match cn_activeChild n with
                           | Some a =>
                               let@ p := mcall getPos 0 in
                               let@ _ := set_posIfInactive a p in
                               set_active None
                           | None => ret tt
                           end in
                 let@ n := get in
                 let@ _ := (if negb wantSetPos
                            then mcall (setPos (default 0 (cn_children n !! ch))) tt
                            else ret tt) in
                 set_active (Some ch)) in
    ret true.

(** The stream interface of a child. *)
Definition child_stream (ch : nat) : Stream (ControlNode S) := {|
  read m := let@ ok := activateChild ch false in if ok then mcall (read m) [] else ret [];
  write m := let@ ok := activateChild ch false in if ok then mcall (write m) 0 else ret 0;
  flush := mcall flush tt;
  setPos pos := let@ ok := activateChild ch true in if ok then mcall (setPos pos) tt else ret tt;
  getPos := let@ ok := activateChild ch false in if ok then mcall getPos 0 else ret 0;
  getSize := mcall getSize 0;
  getCapabilities := mcall getCapabilities 0;
  createFileMapping limit :=
    let@ ok := activateChild ch false in if ok then mcall (createFileMapping limit) None else ret None;
|}.
End Operations.

Ltac cn_proj := cbn [cn_parent cn_children cn_activeChild] in *.

(** ** A child is a file; the other children keep their places *)

Section Laws.
Context {S : Type} `{!Stream S} `{!FileLaws S}.
Context (ch : nat) (others : gmap nat Z).
Implicit Types n : ControlNode S.

(** The position of child [j] when the master is at [pp]. *)
Definition child_pos n (pp : Z) (j : nat) : option Z :=
  if bool_decide (cn_activeChild n = Some j) then Some pp else cn_children n !! j.

(** Child [ch] is the file [f], the other children are at the positions [others]. *)
Definition child_rep n (f : file) : Prop :=
  f_wf f /\ (forall j x, others !! j = Some x -> 0 <= x <= f_limit f) /\
  exists p pp, cn_parent n = Some p /\ rep p (f_seek f pp) /\
    child_pos n pp ch = Some (f_pos f) /\
    forall j, j <> ch -> child_pos n pp j = others !! j.

(** The same with [ch] active and the master at [pp]. *)
Definition active_rep n (f : file) (pp : Z) : Prop :=
  f_wf f /\ (forall j x, others !! j = Some x -> 0 <= x <= f_limit f) /\
  cn_activeChild n = Some ch /\
  (exists p, cn_parent n = Some p /\ rep p (f_seek f pp)) /\
  forall j, j <> ch -> cn_children n !! j = others !! j.

Lemma active_child_rep n f : active_rep n f (f_pos f) -> child_rep n f.
Proof.
  intros (Hwf & Ho & Ha & (p & Hp & Hr) & Hj). split; [done|]. split; [done|]. exists p, (f_pos f).
  split; [done|]. split; [done|]. unfold child_pos. rewrite Ha, bool_decide_true by done.
  split; [done|]. intros j Hne. rewrite bool_decide_false by congruence. by apply Hj.
Qed.

Lemma mcall_ok {A} (m : M S A) d n p Q :
  cn_parent n = Some p ->
  returns m p (fun p' a => Q (mkNode (Some p') (cn_children n) (cn_activeChild n)) a) ->
  returns (mcall m d) n Q.
Proof. unfold returns, mcall. intros -> Hm. by destruct (m p) as [p' [a|e]]. Qed.

Lemma mcall_throws {A} (m : M S A) d n p e Q :
  cn_parent n = Some p ->
  throws m p e (fun p' => Q (mkNode (Some p') (cn_children n) (cn_activeChild n))) ->
  throws (mcall m d) n e Q.
Proof. unfold throws, mcall. intros -> Hm. by destruct (m p) as [p' [a|e']]. Qed.

(** The positions once no child is active. *)
Definition parked n (f : file) (pp : Z) : Prop :=
  (exists p, cn_parent n = Some p /\ rep p (f_seek f pp)) /\
  cn_children n !! ch = Some (f_pos f) /\ forall j, j <> ch -> cn_children n !! j = others !! j.

Lemma park_ok n f p pp :
  cn_parent n = Some p -> rep p (f_seek f pp) -> cn_activeChild n <> Some ch ->
  child_pos n pp ch = Some (f_pos f) -> (forall j, j <> ch -> child_pos n pp j = others !! j) ->
  returns (match cn_activeChild n with
           | Some a => let@ p := mcall getPos 0 in let@ _ := set_posIfInactive a p in set_active None
           | None => ret tt
           end) n (fun n' _ => parked n' f pp).
Proof.
  intros Hp Hr Hna Hch Hj. unfold child_pos in Hch. rewrite bool_decide_false in Hch by done.
  destruct (cn_activeChild n) as [a|] eqn:Ha.
  - eapply returns_bind with (Q := fun n' x => x = pp /\ cn_children n' = cn_children n /\
      exists p', cn_parent n' = Some p' /\ rep p' (f_seek f pp)).
    { eapply mcall_ok; [done|]. eapply returns_mono; [by apply (getPos_law p (f_seek f pp))|].
      intros p' x (-> & Hp'). cn_proj. eauto. }
    intros n' x (-> & Hc & p' & Hp' & Hr').
    split; cn_proj; [eauto|]. rewrite Hc. split.
    + rewrite lookup_insert_ne; [done|congruence].
    + intros j Hne. specialize (Hj j Hne). unfold child_pos in Hj. rewrite Ha in Hj.
      destruct (decide (a = j)) as [->|Hd].
      * rewrite lookup_insert_eq. by rewrite bool_decide_true in Hj.
      * rewrite lookup_insert_ne by done. by rewrite bool_decide_false in Hj by congruence.
  - apply returns_ret. split; [eauto|]. split; [done|]. intros j Hne. specialize (Hj j Hne).
    unfold child_pos in Hj. by rewrite Ha, bool_decide_false in Hj.
Qed.

Lemma activateChild_ok n f want :
  child_rep n f ->
  returns (activateChild ch want) n (fun n' ok => ok = true /\
    exists pp, active_rep n' f pp /\ (want = false -> pp = f_pos f)).
Proof.
  intros (Hwf & Ho & p & pp & Hp & Hr & Hch & Hj). unfold activateChild. apply returns_get.
  rewrite bool_decide_false by (by rewrite Hp).
  eapply returns_bind with (Q := fun n' _ => exists pp, active_rep n' f pp /\ (want = false -> pp = f_pos f));
    [|intros n' ? HQ; by apply returns_ret].
  case_bool_decide as Ha.
  { apply returns_ret. exists pp. unfold child_pos in Hch. rewrite bool_decide_true in Hch by done.
    injection Hch as Hch. split; [|done]. split_and!; [done..|eauto|].
    intros j Hne. rewrite <- (Hj j Hne). unfold child_pos. by rewrite bool_decide_false by congruence. }
  eapply returns_bind; [by apply (park_ok n f p pp)|]. clear p n Hp Hr Hch Hj Ha.
  intros n ? ((p & Hp & Hr) & Hc & Hj). apply returns_get. rewrite Hc. cbn [default].
  eapply returns_bind with (Q := fun n' _ => cn_children n' = cn_children n /\ exists q p',
    cn_parent n' = Some p' /\ rep p' (f_seek f q) /\ (want = false -> q = f_pos f)).
  - destruct want; cbn [negb].
    + apply returns_ret. split; [done|]. exists pp, p. by split_and!.
    + eapply mcall_ok; [done|].
      eapply returns_mono; [apply (setPos_law p (f_seek f pp)); [done|by destruct Hwf]|].
      intros p' ? Hp'. rewrite f_seek_seek in Hp'. cn_proj. split; [done|]. exists (f_pos f), p'. by split_and!.
  - intros n' ? (Hc' & q & p' & Hp' & Hr' & Hq). exists q. split; [|done].
    split_and!; [done..|eauto|]. cn_proj. by rewrite Hc'.
Qed.

(** An operation of the master on behalf of the active child. *)
Lemma active_call {A} (m : M S A) d n f pp (Q : S -> A -> Prop) (R : ControlNode S -> A -> Prop) :
  active_rep n f pp ->
  (forall p, rep p (f_seek f pp) -> returns m p Q) ->
  (forall p' a, Q p' a -> exists f', f_limit f' = f_limit f /\ f_wf f' /\ rep p' f' /\
     (forall n', child_rep n' f' -> R n' a)) ->
  returns (mcall m d) n R.
Proof.
  intros (Hwf & Ho & Ha & (p & Hp & Hr) & Hj) Hm HQ. eapply mcall_ok; [done|].
  eapply returns_mono; [by apply Hm|]. intros p' a Hpa. destruct (HQ p' a Hpa) as (f' & Hl & Hwf' & Hp' & HR).
  apply HR, active_child_rep. split_and!; [done|by rewrite Hl|done| |done]. exists p'. by rewrite f_seek_id.
Qed.

(** An operation that does not use the position needs no activation. *)
Lemma passive_call {A} (m : M S A) d n f (X : A -> Prop) :
  child_rep n f ->
  (forall p pp, rep p (f_seek f pp) -> returns m p (fun p' a => X a /\ rep p' (f_seek f pp))) ->
  returns (mcall m d) n (fun n' a => X a /\ child_rep n' f).
Proof.
  intros (Hwf & Ho & p & pp & Hp & Hr & Hch & Hj) Hm. eapply mcall_ok; [done|].
  eapply returns_mono; [by apply (Hm p pp)|]. intros p' a (HX & Hp'). split; [done|].
  split; [done|]. split; [done|]. exists p', pp. by split_and!.
Qed.

(** The sequence "activate, then call" of the stateful operations. *)
Lemma child_call {A} (m : M S A) d n f (Q : S -> A -> Prop) (R : ControlNode S -> A -> Prop) :
  child_rep n f ->
  (forall p, rep p f -> returns m p Q) ->
  (forall p' a, Q p' a -> exists f', f_limit f' = f_limit f /\ f_wf f' /\ rep p' f' /\
     (forall n', child_rep n' f' -> R n' a)) ->
  returns (let@ ok := activateChild ch false in if ok then mcall m d else ret d) n R.
Proof.
  intros Hn Hm HQ. eapply returns_bind; [by apply activateChild_ok|].
  intros n' ok (-> & pp & Ha & Hpp). specialize (Hpp eq_refl). subst pp.
  eapply active_call; [done| |exact HQ]. intros p. rewrite f_seek_id. apply Hm.
Qed.

Lemma child_write_refused n f d :
  child_rep n f -> f_writable f = false ->
  throws (let@ ok := activateChild ch false in if ok then mcall (write d) 0 else ret 0) n
    (FileProblemException cannotWrite) (fun n' => child_rep n' f).
Proof.
  intros Hn Hw. eapply returns_throws_bind; [by apply activateChild_ok|].
  intros n' ok (-> & pp & (Hwf & Ho & Ha & (p & Hp & Hr) & Hj) & Hpp). specialize (Hpp eq_refl). subst pp.
  eapply mcall_throws; [done|]. eapply throws_mono; [by apply (write_refused_law p (f_seek f (f_pos f)))|].
  intros p' Hp'. apply active_child_rep. split_and!; [done..|eauto|done].
Qed.

Lemma child_setPos n f p :
  child_rep n f -> 0 <= p <= f_limit f ->
  returns (let@ ok := activateChild ch true in if ok then mcall (setPos p) tt else ret tt) n
    (fun n' _ => child_rep n' (f_seek f p)).
Proof.
  intros Hn Hp. pose proof Hn as [Hwf _]. eapply returns_bind; [by apply activateChild_ok|].
  intros n' ok (-> & pp & Ha & _).
  eapply active_call; [done|intros q Hq; by apply (setPos_law q (f_seek f pp))|].
  intros p' ? Hp'. exists (f_seek f p). split_and!; [done|by apply f_wf_seek|done|done].
Qed.

Definition child_laws : @FileLaws (ControlNode S) (child_stream ch).
Proof.
  apply (@Build_FileLaws _ (child_stream ch) child_rep).
  - by intros n f [? _].
  - intros n f k Hn Hk. pose proof Hn as [Hwf _].
    eapply child_call; [done|intros p Hp; by apply (read_law p f)|].
    intros p' got (j & Hgot & Hl & Hne & Hp'). eexists. split_and!; [|by eapply f_wf_read|exact Hp'|]; eauto 10.
  - intros n f d Hn Hw Hd Hfit. pose proof Hn as [Hwf _].
    eapply child_call; [done|intros p Hp; by apply (write_law p f d)|].
    intros p' k (Hk & Hp'). eexists. split_and!; [|eapply rep_wf; exact Hp'|exact Hp'|]; eauto.
  - exact child_write_refused.
  - exact child_setPos.
  - intros n f Hn. pose proof Hn as [Hwf _].
    eapply child_call; [done|intros p Hp; by apply (getPos_law p f)|]. intros p' k (-> & Hp'). by exists f.
  - intros n f Hn. apply (passive_call _ _ n f); [done|]. intros p pp Hp. by apply (getSize_law p (f_seek f pp)).
  - intros n f Hn. eapply returns_mono; [apply (passive_call flush tt n f (fun _ => True)); [done|]|].
    + intros p pp Hp. eapply returns_mono; [by apply (flush_law p (f_seek f pp))|done].
    + by intros n' ? [_ ?].
  - intros n f Hn. apply (passive_call _ _ n f); [done|]. intros p pp Hp.
    by apply (getCapabilities_law p (f_seek f pp)).
  - intros n f k Hn. pose proof Hn as [Hwf _].
    eapply child_call; [done|intros p Hp; by apply (createFileMapping_law p f k)|].
    intros p' m (-> & Hp'). by exists f.
Defined.
End Laws.

(** ** Interleaved use of the children *)

(** The shared content, and the position of each child. *)
Record mfile := mkMfile { mf_data : list Z; mf_pos : gmap nat Z; mf_limit : Z; mf_writable : bool }.

Definition view (A : mfile) (pos : Z) : file := mkFile (mf_data A) pos (mf_limit A) (mf_writable A).
Definition update (A : mfile) (ch : nat) (f : file) : mfile :=
  mkMfile (f_data f) (<[ch := f_pos f]> (mf_pos A)) (mf_limit A) (mf_writable A).

(** Run operations of children in the given order. *)
Fixpoint run_children {S} `{!Stream S} (script : list (nat * op)) : M (ControlNode S) (list reply) :=
  match script with
  | [] => ret []
  | (ch, o) :: script' =>
      let@ r := run_op (Stream0 := child_stream ch) o in
      let@ rs := run_children script' in
      ret (r :: rs)
  end.

(** Each child acts on the shared content at its own position, and moves no
    position but its own. *)
Inductive children_run : mfile -> list (nat * op) -> list reply -> mfile -> Prop :=
| children_nil A : children_run A [] [] A
| children_cons A ch x o script r rs f A' :
    mf_pos A !! ch = Some x -> file_step (view A x) o r f ->
    children_run (update A ch f) script rs A' ->
    children_run A ((ch, o) :: script) (r :: rs) A'.

Fixpoint script_ok (A : mfile) (script : list (nat * op)) : Prop :=
  match script with
  | [] => True
  | (ch, o) :: script' =>
      exists x, mf_pos A !! ch = Some x /\ op_ok (view A x) o /\
        forall r f, file_step (view A x) o r f -> script_ok (update A ch f) script'
  end.

Section Interleaving.
Context {S : Type} `{!Stream S} `{!FileLaws S}.
Implicit Types n : ControlNode S.

Definition mux_rep n (A : mfile) : Prop :=
  (forall j x, mf_pos A !! j = Some x -> 0 <= x <= mf_limit A) /\
  exists p pp, cn_parent n = Some p /\ rep p (view A pp) /\ forall j, child_pos n pp j = mf_pos A !! j.

Lemma mux_child n A ch x :
  mux_rep n A -> mf_pos A !! ch = Some x -> child_rep ch (delete ch (mf_pos A)) n (view A x).
Proof.
  intros (Hpos & p & pp & Hp & Hr & Hj) Hx. pose proof (rep_wf _ _ Hr) as [_ Hl].
  split; [split; [by apply (Hpos ch)|exact Hl]|]. split.
  - intros j y [_ Hy]%lookup_delete_Some. by apply (Hpos j).
  - exists p, pp. split_and!; [done|done|by rewrite Hj|].
    intros j Hne. by rewrite Hj, lookup_delete_ne.
Qed.

Lemma child_mux n A ch f :
  child_rep ch (delete ch (mf_pos A)) n f -> f_limit f = mf_limit A -> f_writable f = mf_writable A ->
  mux_rep n (update A ch f).
Proof.
  intros (Hwf & Ho & p & pp & Hp & Hr & Hch & Hj) Hl Hw. split; simpl.
  - intros j y. destruct (decide (ch = j)) as [->|Hne].
    + rewrite lookup_insert_eq. intros [= <-]. rewrite <- Hl. by destruct Hwf.
    + rewrite lookup_insert_ne by done. intros Hy. rewrite <- Hl. apply (Ho j). by rewrite lookup_delete_ne.
  - exists p, pp. split; [done|]. split.
    + unfold view, update; simpl. rewrite <- Hl, <- Hw. exact Hr.
    + intros j. destruct (decide (ch = j)) as [->|Hne].
      * by rewrite lookup_insert_eq.
      * rewrite lookup_insert_ne, Hj by done. by rewrite lookup_delete_ne.
Qed.

Lemma file_step_static f o r f' :
  file_step f o r f' -> f_limit f' = f_limit f /\ f_writable f' = f_writable f.
Proof. intros []; cbn; rewrite ?f_put_limit, ?f_put_writable; done. Qed.

Lemma run_children_refines script n A :
  mux_rep n A -> script_ok A script ->
  returns (run_children script) n (fun n' rs => exists A', children_run A script rs A' /\ mux_rep n' A').
Proof.
  revert n A. induction script as [|[ch o] script IH]; intros n A Hn Hok; cbn [run_children].
  { apply returns_ret. exists A. split; [constructor|done]. }
  destruct Hok as (x & Hx & Ho & Hrest).
  eapply returns_bind.
  { exact (@run_op_refines _ (child_stream ch) (child_laws ch (delete ch (mf_pos A))) o n (view A x)
             (mux_child n A ch x Hn Hx) Ho). }
  intros n1 r (f & Hstep & Hn1). destruct (file_step_static _ _ _ _ Hstep) as [Hl Hw].
  eapply returns_bind; [apply (IH n1 (update A ch f)); [by apply child_mux|by apply (Hrest r)]|].
  intros n2 rs (A' & Hrun & Hn2). apply returns_ret. exists A'. split; [by econstructor|done].
Qed.
End Interleaving.

(** ** The properties *)

Lemma createChild_mux {S} `{!Stream S, !FileLaws S} (n : ControlNode S) A ch :
  mux_rep n A -> mf_pos A !! ch = None -> 0 <= mf_limit A ->
  mux_rep (createChild ch n).1 (mkMfile (mf_data A) (<[ch := 0]> (mf_pos A)) (mf_limit A) (mf_writable A)).
Proof.
  intros (Hpos & p & pp & Hp & Hr & Hj) Hch Hl. split; simpl.
  - intros j x. destruct (decide (ch = j)) as [->|Hne].
    + rewrite lookup_insert_eq. intros [= <-]. lia.
    + rewrite lookup_insert_ne by done. apply Hpos.
  - exists p, pp. split; [done|]. split; [done|]. intros j.
    pose proof (Hj j) as Hjj. unfold child_pos in *. cn_proj.
    destruct (decide (ch = j)) as [->|Hne].
    + rewrite lookup_insert_eq. rewrite Hch in Hjj. case_bool_decide; [done|]. by rewrite lookup_insert_eq.
    + rewrite !lookup_insert_ne by done. done.
Qed.

Lemma removeChild_mux {S} `{!Stream S, !FileLaws S} (n : ControlNode S) A ch :
  mux_rep n A ->
  mux_rep (removeChild ch n).1 (mkMfile (mf_data A) (delete ch (mf_pos A)) (mf_limit A) (mf_writable A)).
Proof.
  intros (Hpos & p & pp & Hp & Hr & Hj). split; simpl.
  - intros j x [_ Hx]%lookup_delete_Some. by apply (Hpos j).
  - exists p, pp. split; [done|]. split; [done|]. intros j.
    pose proof (Hj j) as Hjj. unfold child_pos in *. cn_proj.
    destruct (decide (ch = j)) as [->|Hne].
    + rewrite !lookup_delete_eq. destruct (bool_decide (cn_activeChild n = Some j)) eqn:E.
      * by rewrite bool_decide_false by done.
      * by rewrite E.
    + rewrite !lookup_delete_ne by done. rewrite <- Hjj.
      destruct (decide (cn_activeChild n = Some ch)) as [Ha|Ha].
      * rewrite (bool_decide_true _ Ha), (bool_decide_false (None = Some j)),
          (bool_decide_false (cn_activeChild n = Some j)) by congruence. done.
      * by rewrite (bool_decide_false _ Ha).
Qed.

(** C3. Children of a MultiplexableStream are isolated from each other.  On a
    master that acts as a file, however the operations of any number of children
    are interleaved, each one behaves as on a file that has the shared content
    and this child's own position: what one child writes, the others see, but
    no child moves the position of another.  A new child starts at position 0,
    removing one does not disturb the others, and when the master is gone a
    child's operations do nothing: they read and write no bytes and report 0. *)
Theorem children_isolated {S : Type} `{!Stream S, !FileLaws S} :
  (forall (n : ControlNode S) A script, mux_rep n A -> script_ok A script ->
     returns (run_children script) n (fun n' rs =>
       exists A', children_run A script rs A' /\ mux_rep n' A')) /\
  (forall (s : S) f, rep s f ->
     mux_rep (ControlNode_new s) (mkMfile (f_data f) ∅ (f_limit f) (f_writable f))) /\
  (forall (n : ControlNode S) A ch, mux_rep n A -> mf_pos A !! ch = None -> 0 <= mf_limit A ->
     mux_rep (createChild ch n).1 (mkMfile (mf_data A) (<[ch := 0]> (mf_pos A)) (mf_limit A) (mf_writable A))) /\
  (forall (n : ControlNode S) A ch, mux_rep n A ->
     mux_rep (removeChild ch n).1 (mkMfile (mf_data A) (delete ch (mf_pos A)) (mf_limit A) (mf_writable A))) /\
  (forall (n : ControlNode S) ch k d p,
     let dead := (removeParent n).1 in
     let _ := child_stream (S := S) ch in
     read k dead = (dead, Ok []) /\ write d dead = (dead, Ok 0) /\ setPos p dead = (dead, Ok tt) /\
     getPos dead = (dead, Ok 0) /\ getSize dead = (dead, Ok 0) /\ getCapabilities dead = (dead, Ok 0)).
Proof.
  split; [exact (fun n A script => run_children_refines script n A)|].
  split.
  { intros s f Hs. split; simpl; [by intros j x; rewrite lookup_empty|].
    exists s, (f_pos f). split; [done|]. split; [by destruct f|]. intros j. unfold child_pos. simpl.
    by rewrite !lookup_empty. }
  split; [exact createChild_mux|]. split; [exact removeChild_mux|]. done.
Qed.

(** Two children read, write and seek in turn. *)
Definition ex_script : list (nat * op) :=
  [(1%nat, OFullWrite [1; 2; 3]); (2%nat, OFullRead 2); (1%nat, OSetPos 0); (2%nat, OFullRead 1); (1%nat, OGetPos)].

Definition ex_node : ControlNode InternalStream :=
  mkNode (Some InternalStream_new) {[ 1%nat := 0; 2%nat := 0 ]} None.

Example ex_script_run :
  (run_children (Stream0 := @InternalStream_stream ex_env) ex_script ex_node).2
  = Ok [RDone; RBytes [1; 2]; RDone; RBytes [3]; RCount 0].
Proof. vm_compute. reflexivity. Qed.

Lemma children_isolated_witness :
  returns (run_children (Stream0 := @InternalStream_stream ex_env)
      [(1%nat, OFullWrite [1; 2; 3]); (2%nat, OFullRead 2)]) ex_node (fun n' rs =>
    exists A', children_run (mkMfile [] {[ 1%nat := 0; 2%nat := 0 ]} 1000 true)
                 [(1%nat, OFullWrite [1; 2; 3]); (2%nat, OFullRead 2)] rs A').
Proof.
  eapply returns_mono;
    [apply (proj1 (@children_isolated _ _ (@InternalStream_laws ex_env)) ex_node
       (mkMfile [] {[ 1%nat := 0; 2%nat := 0 ]} 1000 true)
       [(1%nat, OFullWrite [1; 2; 3]); (2%nat, OFullRead 2)])|].
  - split.
    + intros j x. cbn [mf_pos mf_limit].
      intros [[<- <-]|[_ [<- <-]%lookup_singleton_Some]]%lookup_insert_Some; lia.
    + exists InternalStream_new, 0. split; [reflexivity|]. split; [|intros j; reflexivity].
      exists 1000. split; [reflexivity|]. split; [unfold f_wf; simpl; lia|]. intros l n Hn. by apply Z.leb_le.
  - exists 0. split; [reflexivity|]. split; [simpl; lia|]. intros r f H1. inversion H1; subst.
    exists 0. split; [reflexivity|]. split; [simpl; lia|]. done.
  - intros n' rs (A' & HA & _). by exists A'.
Defined.
