(* ===== verification/TextFile.v ===== *)
(** * TextFile, TextReader, TextWriter

    src/afl/io/textfile.cpp, textreader.cpp and textwriter.cpp, with
    src/arch/textfile.hpp: lines of text in a character set, on top of a
    BufferedStream.  Reading accepts LF, CR and CRLF as line ends, a byte-order
    mark selects UTF-8, and a final Ctrl-Z is dropped. *)

From Stdlib Require Import ZArith Lia Bool.
From stdpp Require Import base tactics numbers option list.
From S2P Require Import Prelude Encodings Codepage Stream MemStream BufferedStream.

Local Open Scope Z_scope.
Local Open Scope afl_scope.

(** A pointer to an object with the Charset interface. *)
Record AnyCharset := anyCharset { ac_type : Type; ac_class : Charset ac_type; ac_object : ac_type }.
Arguments anyCharset {_ _} _.

Definition encode_text (cs : AnyCharset) : list Z -> list Z := @cs_encode _ (ac_class cs) (ac_object cs).
Definition decode_text (cs : AnyCharset) : list Z -> list Z := @cs_decode _ (ac_class cs) (ac_object cs).

(** TARGET_OS_POSIX or TARGET_OS_WIN32 *)
Inductive platform := Posix | Win32.

(** [NEWLINE] *)
Definition NEWLINE (p : platform) : list Z :=
  match p with
  | Posix => [10]
  | Win32 => [13; 10]
  end.

Definition BOM : list Z := [0xEF; 0xBB; 0xBF].

Record TextFile (S : Type) := mkText {
  tf_buffered : BufferedStream S;
  m_charset : AnyCharset;
  m_utf8Snoop : bool;
  m_sysNewline : bool;
  m_lineNumber : Z;
}.
Arguments mkText {S}.
Arguments tf_buffered {S}.
Arguments m_charset {S}.
Arguments m_utf8Snoop {S}.
Arguments m_sysNewline {S}.
Arguments m_lineNumber {S}.

Section Operations.
Context {S : Type} `{!Stream S} (plat : platform).
Implicit Types t : TextFile S.

Definition TextFile_new (s : S) (raw : list Z) : TextFile S :=
  mkText (BufferedStream_new s raw) (anyCharset {| m_codepage := g_codepageLatin1 |}) true true 0.

(** A call of a method of the base class BufferedStream. *)
Definition set_buffered (b : BufferedStream S) t : TextFile S :=
  mkText b (m_charset t) (m_utf8Snoop t) (m_sysNewline t) (m_lineNumber t).
Definition base {A} (m : M (BufferedStream S) A) : M (TextFile S) A := on tf_buffered set_buffered m.

Definition setCharsetNew (cs : AnyCharset) : M (TextFile S) unit :=
  let@ t := get in put (mkText (tf_buffered t) cs false (m_sysNewline t) (m_lineNumber t)).
Definition setSystemNewline (flag : bool) : M (TextFile S) unit :=
  let@ t := get in put (mkText (tf_buffered t) (m_charset t) (m_utf8Snoop t) flag (m_lineNumber t)).
Definition setUtf8Snoop (flag : bool) : M (TextFile S) unit :=
  let@ t := get in put (mkText (tf_buffered t) (m_charset t) flag (m_sysNewline t) (m_lineNumber t)).

(** "Process it": append a character to the raw line and look for the BOM. *)
Definition process_char (rawLine : list Z) (ch : Z) : M (TextFile S) (list Z) :=
  let@ t := get in
  let rawLine := rawLine ++ [ch] in
  if m_utf8Snoop t && (length rawLine =? 3)%nat
  then if bool_decide (rawLine = BOM)
       then let@ _ := put (mkText (tf_buffered t) (anyCharset MkUtf8Charset) false (m_sysNewline t) (m_lineNumber t)) in
            ret []
       else let@ _ := setUtf8Snoop false in ret rawLine
  else ret rawLine.

(** [while ((pch = readByte()) != 0)]; returns pch and rawLine.  Every round
    consumes a byte of the file. *)
Fixpoint readLine_loop (fuel : nat) (rawLine : list Z) : M (TextFile S) (option Z * list Z) :=
  match fuel with
  | O => throw out_of_fuel
  | Datatypes.S fuel' =>
      let@ pch := base readByte in
      match pch with
      | None => ret (None, rawLine)
      | Some ch =>
          if ch =? 10 then ret (Some ch, rawLine)
          else if ch =? 13
          then let@ pch := base peekByte in
               match pch with
               | Some 10 => let@ _ := base readByte in ret (pch, rawLine)
               | _ => ret (pch, rawLine)
               end
          else let@ rawLine := process_char rawLine ch in
               readLine_loop fuel' rawLine
      end
  end.

(** Returns the flag and the line. *)
Definition doReadLine (fuel : nat) : M (TextFile S) (bool * list Z) :=
  let@ (pch, rawLine) := readLine_loop fuel [] in
  let@ _ := setUtf8Snoop false in
  let rawLine := if bool_decide (pch = None) && bool_decide (last rawLine = Some 26)
                 then take (length rawLine - 1) rawLine else rawLine in
  let@ t := get in
  if negb (bool_decide (pch = None)) || negb (length rawLine =? 0)%nat
  then ret (true, decode_text (m_charset t) rawLine)
  else ret (false, []).

(** TextReader::readLine.  LineNumber_t is a signed 32-bit type; the number is
    kept unbounded here. *)
Definition readLine (fuel : nat) : M (TextFile S) (bool * list Z) :=
  let@ (ok, line) := doReadLine fuel in
  if ok : bool
  then let@ t := get in
       let@ _ := put (mkText (tf_buffered t) (m_charset t) (m_utf8Snoop t) (m_sysNewline t)
                             (m_lineNumber t + 1)) in
       ret (true, line)
  else ret (false, line).

Definition doWriteText (text : list Z) : M (TextFile S) unit :=
  let@ t := get in base (fullWrite (encode_text (m_charset t) text)).

Definition doWriteNewline : M (TextFile S) unit :=
  let@ t := get in base (fullWrite (if m_sysNewline t then NEWLINE plat else [10])).

(** TextWriter::writeText: [data.find('\n')] splits the text. *)
Fixpoint writeText_loop (fuel : nat) (data : list Z) : M (TextFile S) unit :=
  match data with
  | [] => ret tt
  | _ =>
      match fuel with
      | O => throw out_of_fuel
      | Datatypes.S fuel' =>
          let n := default (length data) (fst <$> list_find (fun c => c = 10) data) in
          let@ _ := doWriteText (take n data) in
          match drop n data with
          | [] => ret tt
          | _ :: data' => let@ _ := doWriteNewline in writeText_loop fuel' data'
          end
      end
  end.

Definition writeText (data : list Z) : M (TextFile S) unit := writeText_loop (length data) data.

Definition writeLine (line : list Z) : M (TextFile S) unit :=
  let@ _ := writeText line in doWriteNewline.
End Operations.

(** ** Reading lines of a file *)

Section Reading.
Context {S : Type} `{!Stream S} `{!FileLaws S}.
Implicit Types t : TextFile S.

(** The text file shows the file [f]. *)
Definition text_rep t (f : file) : Prop := buffered_rep (tf_buffered t) f.

Lemma returns_base {A B} (m : M (BufferedStream S) A) (k : A -> M (TextFile S) B) t Q R :
  returns m (tf_buffered t) Q -> (forall b a, Q b a -> returns (k a) (set_buffered b t) R) ->
  returns (bind (base m) k) t R.
Proof. apply (returns_bind_on tf_buffered set_buffered). Qed.

(** What the loop does to (charset, snoop flag, raw line) for a character. *)
Definition line_char (st : AnyCharset * bool * list Z) (ch : Z) : AnyCharset * bool * list Z :=
  let '(cs, snoop, raw) := st in
  let raw := raw ++ [ch] in
  if snoop && (length raw =? 3)%nat
  then if bool_decide (raw = BOM) then (anyCharset MkUtf8Charset, false, []) else (cs, false, raw)
  else (cs, snoop, raw).

(** The state of the object apart from the file, charset and snoop flag. *)
Definition with_text (b : BufferedStream S) (cs : AnyCharset) (snoop : bool) t : TextFile S :=
  mkText b cs snoop (m_sysNewline t) (m_lineNumber t).

(** No line end inside a line. *)
Definition plain_line (w : list Z) : Prop := Forall (fun c => c <> 10 /\ c <> 13) w.

Lemma f_rest_cons f x r :
  0 <= f_pos f -> f_rest f = x :: r -> f_rest (f_seek f (f_pos f + 1)) = r.
Proof. intros Hp Hr. by rewrite f_rest_seek, Hr by lia. Qed.

(** Reading the characters of a line. *)
Lemma readLine_loop_chars w fuel raw t f rest Q :
  text_rep t f -> plain_line w -> f_rest f = w ++ rest -> (length w < fuel)%nat ->
  (forall b, let '(cs, snoop, raw') := foldl line_char (m_charset t, m_utf8Snoop t, raw) w in
     text_rep (with_text b cs snoop t) (f_seek f (f_pos f + len w)) ->
     returns (readLine_loop (fuel - length w) raw') (with_text b cs snoop t) Q) ->
  returns (readLine_loop fuel raw) t Q.
Proof.
  revert fuel raw t f. induction w as [|x w IH]; intros fuel raw t f Ht Hw Hr Hf HQ.
  { specialize (HQ (tf_buffered t)). simpl in HQ. rewrite Z.add_0_r, f_seek_id, Nat.sub_0_r in HQ.
    destruct t. by apply HQ. }
  destruct fuel as [|fuel]; [simpl in Hf; lia|]. pose proof (buffered_rep_wf _ _ Ht) as [Hp _].
  apply Forall_cons in Hw as [[Hx10 Hx13] Hw]. cbn [readLine_loop].
  eapply returns_base; [by apply readByte_ok|]. intros b r (f1 & Hn & Hb).
  unfold next_byte in Hn. rewrite Hr in Hn. destruct Hn as [(? & _)|(y & tl & [= <- <-] & -> & ->)]; [done|].
  rewrite (proj2 (Z.eqb_neq x 10) Hx10), (proj2 (Z.eqb_neq x 13) Hx13).
  assert (f_rest (f_seek f (f_pos f + 1)) = w ++ rest) as Hr1 by (apply (f_rest_cons f x); [lia|done]).
  eapply returns_bind with (Q := fun t' raw' =>
    let '(cs, snoop, raw1) := line_char (m_charset t, m_utf8Snoop t, raw) x in
    raw' = raw1 /\ t' = with_text b cs snoop t).
  { unfold process_char, line_char. apply returns_get. cbn [m_utf8Snoop set_buffered].
    destruct (m_utf8Snoop t && _); [case_bool_decide|]; apply returns_ret; by destruct t. }
  intros t' raw'. cbn [foldl] in HQ. destruct (line_char (m_charset t, m_utf8Snoop t, raw) x) as [[cs snoop] raw1].
  intros [-> ->]. apply (IH fuel raw1 (with_text b cs snoop t) (f_seek f (f_pos f + 1)) Hb Hw Hr1);
    [simpl in Hf; lia|].
  intros b'. specialize (HQ b'). cbn [m_charset m_utf8Snoop with_text].
  destruct (foldl line_char _ w) as [[cs' snoop'] raw2]. rewrite f_seek_seek. cbn [f_seek f_pos].
  replace (f_pos f + 1 + len w) with (f_pos f + len (x :: w)) by (cbn [length]; lia).
  exact HQ.
Qed.

(** A line end: LF, CRLF, or a CR that is followed by something else than LF. *)
Definition line_end (term rest : list Z) : Prop :=
  term = [10] \/ term = [13; 10] \/ (term = [13] /\ rest <> [] /\ head rest <> Some 10).

Lemma base_readByte t f x r :
  text_rep t f -> f_rest f = x :: r ->
  returns (base readByte) t (fun t' a => a = Some x /\
    exists b, t' = set_buffered b t /\ buffered_rep b (f_seek f (f_pos f + 1))).
Proof.
  intros Ht Hr. apply (returns_on tf_buffered set_buffered).
  eapply returns_mono; [by apply readByte_ok|]. intros b a (f1 & Hn & Hb). unfold next_byte in Hn. rewrite Hr in Hn.
  destruct Hn as [(? & _)|(y & tl & [= <- <-] & -> & ->)]; [done|]. eauto.
Qed.

Lemma base_peekByte t f :
  text_rep t f ->
  returns (base peekByte) t (fun t' a => a = head (f_rest f) /\
    exists b, t' = set_buffered b t /\ buffered_rep b f).
Proof.
  intros Ht. apply (returns_on tf_buffered set_buffered).
  eapply returns_mono; [by apply peekByte_ok|]. intros b a (-> & Hb). eauto.
Qed.

Lemma readLine_loop_end fuel raw t f term rest :
  text_rep t f -> f_rest f = term ++ rest -> line_end term rest ->
  returns (readLine_loop (Datatypes.S fuel) raw) t (fun t' r => r.1 <> None /\ r.2 = raw /\
    exists b, t' = set_buffered b t /\ buffered_rep b (f_seek f (f_pos f + len term))).
Proof.
  intros Ht Hr Hend. pose proof (buffered_rep_wf _ _ Ht) as [Hp _]. cbn [readLine_loop].
  destruct Hend as [->|[->|(-> & Hne & Hh)]].
  - eapply returns_bind; [by apply (base_readByte t f 10 rest)|]. intros t1 a (-> & b & -> & Hb).
    cbn [Z.eqb Pos.eqb]. apply returns_ret. split; [done|]. split; [done|]. by exists b.
  - eapply returns_bind; [by apply (base_readByte t f 13 (10 :: rest))|]. intros t1 a (-> & b & -> & Hb).
    pose proof (f_rest_cons f 13 (10 :: rest) ltac:(lia) Hr) as Hr1.
    cbn [Z.eqb Pos.eqb]. eapply returns_bind; [by apply base_peekByte|]. intros t2 a (-> & b2 & -> & Hb2).
    rewrite Hr1. cbn [head].
    eapply returns_bind; [by apply (base_readByte _ (f_seek f (f_pos f + 1)) 10 rest)|].
    intros t3 a (-> & b3 & -> & Hb3). apply returns_ret. rewrite f_seek_seek in Hb3. cbn [f_seek f_pos] in Hb3.
    rewrite <- Z.add_assoc in Hb3. split; [done|]. split; [done|]. by exists b3.
  - eapply returns_bind; [by apply (base_readByte t f 13 rest)|]. intros t1 a (-> & b & -> & Hb).
    pose proof (f_rest_cons f 13 rest ltac:(lia) Hr) as Hr1.
    cbn [Z.eqb Pos.eqb]. eapply returns_bind; [by apply base_peekByte|]. intros t2 a (-> & b2 & -> & Hb2).
    rewrite Hr1. destruct rest as [|y rest]; [done|]. cbn [head] in *.
    assert (returns (ret (Some y, raw)) (set_buffered b2 (set_buffered b t)) (fun t' r => r.1 <> None /\ r.2 = raw /\
      exists b, t' = set_buffered b t /\ buffered_rep b (f_seek f (f_pos f + len [13])))) as Hret
      by (apply returns_ret; split; [done|]; split; [done|]; by exists b2).
    destruct (decide (y = 10)) as [->|Hy]; [done|].
    destruct y as [|p|p]; [exact Hret| |exact Hret].
    repeat (destruct p; try exact Hret). done.
Qed.

Lemma readLine_loop_eof fuel raw t f :
  text_rep t f -> f_rest f = [] ->
  returns (readLine_loop (Datatypes.S fuel) raw) t (fun t' r => r = (None, raw) /\
    exists b, t' = set_buffered b t /\ buffered_rep b f).
Proof.
  intros Ht Hr. cbn [readLine_loop]. eapply returns_base; [by apply readByte_ok|]. intros b a (f1 & Hn & Hb).
  unfold next_byte in Hn. rewrite Hr in Hn.
  destruct Hn as [(_ & -> & ->)|(y & tl & ? & _)]; [|done]. apply returns_ret. eauto.
Qed.

(** A terminated line. *)
Lemma doReadLine_line fuel t f w term rest :
  text_rep t f -> plain_line w -> f_rest f = w ++ term ++ rest -> line_end term rest -> (length w < fuel)%nat ->
  returns (doReadLine fuel) t (fun t' r =>
    let '(cs, _, raw) := foldl line_char (m_charset t, m_utf8Snoop t, []) w in
    r = (true, decode_text cs raw) /\
    exists b, t' = with_text b cs false t /\ buffered_rep b (f_seek f (f_pos f + len (w ++ term)))).
Proof.
  intros Ht Hw Hr Hend Hf. pose proof (buffered_rep_wf _ _ Ht) as [Hp _]. unfold doReadLine.
  destruct (foldl line_char (m_charset t, m_utf8Snoop t, []) w) as [[cs snoop] raw] eqn:E.
  eapply returns_bind with (Q := fun t' r => r.1 <> None /\ r.2 = raw /\
    exists b, t' = with_text b cs snoop t /\ buffered_rep b (f_seek f (f_pos f + len (w ++ term)))).
  - apply (readLine_loop_chars w fuel [] t f (term ++ rest) _ Ht Hw Hr Hf). rewrite E. intros b Hb.
    destruct (fuel - length w)%nat as [|k] eqn:Ek; [lia|].
    eapply returns_mono; [apply (readLine_loop_end k raw _ _ term rest Hb); [|done]|].
    + rewrite f_rest_seek, Hr, drop_app, drop_ge by lia. rewrite Nat2Z.id, Nat.sub_diag. done.
    + intros t' r (? & ? & b' & -> & Hb'). split; [done|]. split; [done|]. exists b'. split; [done|].
      rewrite f_seek_seek in Hb'. cbn [f_seek f_pos] in Hb'. by rewrite length_app, Nat2Z.inj_add, Z.add_assoc.
  - intros t' [pch raw'] (Hpch & Hraw & b & -> & Hb). cbn [fst snd] in *. subst raw'.
    rewrite bool_decide_false by done. cbn [andb negb orb]. apply returns_ret. split; [done|]. by exists b.
Qed.

(** The last line when it has no line end; a final Ctrl-Z does not belong to it. *)
Lemma doReadLine_last fuel t f w :
  text_rep t f -> plain_line w -> f_rest f = w -> (length w < fuel)%nat ->
  returns (doReadLine fuel) t (fun t' r =>
    let '(cs, _, raw) := foldl line_char (m_charset t, m_utf8Snoop t, []) w in
    let raw := if bool_decide (last raw = Some 26) then take (length raw - 1) raw else raw in
    r = (if (length raw =? 0)%nat then (false, []) else (true, decode_text cs raw)) /\
    exists b, t' = with_text b cs false t /\ buffered_rep b (f_seek f (f_pos f + len w))).
Proof.
  intros Ht Hw Hr Hf. pose proof (buffered_rep_wf _ _ Ht) as [Hp _]. unfold doReadLine.
  destruct (foldl line_char (m_charset t, m_utf8Snoop t, []) w) as [[cs snoop] raw] eqn:E.
  eapply returns_bind with (Q := fun t' r => r = (None, raw) /\
    exists b, t' = with_text b cs snoop t /\ buffered_rep b (f_seek f (f_pos f + len w))).
  - apply (readLine_loop_chars w fuel [] t f [] _ Ht Hw); [by rewrite app_nil_r|done|]. rewrite E. intros b Hb.
    destruct (fuel - length w)%nat as [|k] eqn:Ek; [lia|].
    eapply returns_mono; [apply (readLine_loop_eof k raw _ _ Hb)|].
    + rewrite f_rest_seek, Hr by lia. apply drop_ge. lia.
    + intros t' r (-> & b' & -> & Hb'). split; [done|]. by exists b'.
  - intros t' r (-> & b & -> & Hb). rewrite bool_decide_true by done. cbn [andb negb orb].
    set (raw' := if bool_decide _ then _ else _). apply returns_get, returns_get.
    destruct (length raw' =? 0)%nat; cbn [negb]; apply returns_ret; (split; [done|]); by exists b.
Qed.
End Reading.

(** ** Writing text *)

(** The bytes that writing [data] produces; [cur] is the part of the line so far. *)
Fixpoint text_bytes (enc : list Z -> list Z) (nl cur data : list Z) : list Z :=
  match data with
  | [] => match cur with [] => [] | _ => enc cur end
  | c :: data' =>
      if c =? 10 then enc cur ++ nl ++ text_bytes enc nl [] data'
      else text_bytes enc nl (cur ++ [c]) data'
  end.

Lemma text_bytes_line enc nl cur a b :
  Forall (fun c => c <> 10) a ->
  text_bytes enc nl cur (a ++ 10 :: b) = enc (cur ++ a) ++ nl ++ text_bytes enc nl [] b.
Proof.
  revert cur. induction a as [|c a IH]; intros cur Ha; cbn; [by rewrite app_nil_r|].
  apply Forall_cons in Ha as [Hc Ha]. rewrite (proj2 (Z.eqb_neq c 10) Hc), IH by done.
  by rewrite <- app_assoc.
Qed.

Lemma text_bytes_last enc nl cur a :
  Forall (fun c => c <> 10) a -> cur ++ a <> [] -> text_bytes enc nl cur a = enc (cur ++ a).
Proof.
  revert cur. induction a as [|c a IH]; intros cur Ha Hne; cbn.
  - rewrite app_nil_r in *. by destruct cur.
  - apply Forall_cons in Ha as [Hc Ha]. rewrite (proj2 (Z.eqb_neq c 10) Hc), IH by (try by destruct cur).
    by rewrite <- app_assoc.
Qed.

Section Writing.
Context {S : Type} `{!Stream S} `{!FileLaws S} (plat : platform).
Implicit Types t : TextFile S.

Definition newline_of t : list Z := if m_sysNewline t then NEWLINE plat else [10].

(** The object after writing: only the stream has changed. *)
Definition wrote t t' (f : file) : Prop := exists b, t' = set_buffered b t /\ buffered_rep b f.

Lemma base_fullWrite t f d :
  text_rep t f -> f_writable f = true -> f_pos f + len d <= f_limit f ->
  returns (base (fullWrite d)) t (fun t' _ => wrote t t' (f_put f d)).
Proof.
  intros Ht Hw Hd. apply (returns_on tf_buffered set_buffered).
  eapply returns_mono; [exact (fullWrite_spec d (tf_buffered t) f Ht Hw Hd)|]. intros b ? Hb. by exists b.
Qed.

Lemma wrote_trans t t1 t2 f : wrote t t1 f -> (forall g, wrote t1 t2 g -> wrote t t2 g).
Proof. intros (b & -> & _) g (b2 & -> & Hb). by exists b2. Qed.

Lemma writeText_loop_ok fuel data t f :
  text_rep t f -> f_writable f = true -> (length data <= fuel)%nat ->
  f_pos f + len (text_bytes (encode_text (m_charset t)) (newline_of t) [] data) <= f_limit f ->
  returns (writeText_loop plat fuel data) t (fun t' _ =>
    wrote t t' (f_put f (text_bytes (encode_text (m_charset t)) (newline_of t) [] data))).
Proof.
  set (enc := encode_text (m_charset t)). set (nl := newline_of t).
  revert data t f enc nl. induction fuel as [|fuel IH]; intros data t f enc nl Ht Hw Hf Hfit.
  1, 2: destruct data as [|x data']; [apply returns_ret; exists (tf_buffered t); by destruct t|].
  { simpl in Hf. lia. }
  pose proof (buffered_rep_wf _ _ Ht) as [Hp _].
  cbn [writeText_loop]. remember (x :: data') as data eqn:Ed.
  destruct (list_find (fun c => c = 10) data) as [[n y]|] eqn:Efind; cbv zeta.
  - change (default (length data) (fst <$> Some (n, y))) with n. apply list_find_Some in Efind as (Hn & -> & Hbefore).
    assert (data = take n data ++ 10 :: drop (Datatypes.S n) data) as Hsplit.
    { rewrite <- (take_drop n data) at 1. f_equal. by apply drop_S. }
    assert (Forall (fun c => c <> 10) (take n data)) as Htake.
    { apply Forall_lookup. intros i z Hi. apply lookup_take_Some in Hi as [Hi Hlt].
      by apply (Hbefore i). }
    rewrite (drop_S data 10 n Hn).
    assert (text_bytes enc nl [] data = enc (take n data) ++ nl ++ text_bytes enc nl [] (drop (Datatypes.S n) data)) as Htb
      by (rewrite Hsplit at 1; by apply text_bytes_line).
    rewrite Htb, !length_app in Hfit.
    eapply returns_bind; [apply returns_get, (base_fullWrite t f (enc (take n data)) Ht Hw); unfold enc in *; lia|].
    intros t1 ? Hw1. pose proof Hw1 as (b1 & -> & Hb1).
    assert (0 <= f_pos (f_put f (enc (take n data)))) by (rewrite f_put_pos; lia).
    eapply returns_bind.
    { apply returns_get, (base_fullWrite (set_buffered b1 t) (f_put f (enc (take n data))) nl Hb1).
      - by rewrite f_put_writable.
      - rewrite f_put_pos, f_put_limit. lia. }
    intros t2 ? Hw2. pose proof Hw2 as (b2 & -> & Hb2).
    eapply returns_mono; [apply (IH _ (set_buffered b2 (set_buffered b1 t)) _ Hb2)|].
    + by rewrite !f_put_writable.
    + apply lookup_lt_Some in Hn. rewrite length_drop. subst data. simpl in *. lia.
    + rewrite !f_put_pos, !f_put_limit. unfold enc, nl in *. cbn [m_charset set_buffered].
      unfold newline_of in *. cbn [m_sysNewline set_buffered]. lia.
    + intros t3 ? Hw3. rewrite Htb. rewrite f_put_app, f_put_app in Hw3 by (rewrite ?f_put_pos; lia).
      destruct Hw3 as (b3 & -> & Hb3). by exists b3.
  - change (default (length data) (fst <$> @None (nat * Z))) with (length data). apply list_find_None in Efind.
    assert (text_bytes enc nl [] data = enc data) as Htb
      by (apply text_bytes_last; [done|by subst]).
    rewrite Htb in *. rewrite firstn_all, drop_all.
    eapply returns_bind; [apply returns_get, (base_fullWrite t f (enc data) Ht Hw); unfold enc in *; lia|].
    intros t1 ? Hw1. apply returns_ret. done.
Qed.
End Writing.

Section Properties.
Context {S : Type} `{!Stream S} `{!FileLaws S} (plat : platform).
Implicit Types t : TextFile S.

Lemma line_chars_plain cs raw w : foldl line_char (cs, false, raw) w = (cs, false, raw ++ w).
Proof.
  revert raw. induction w as [|c w IH]; intros raw; cbn; [by rewrite app_nil_r|].
  rewrite IH. by rewrite <- app_assoc.
Qed.

Lemma line_chars_bom cs w :
  foldl line_char (cs, true, []) (BOM ++ w) = (anyCharset MkUtf8Charset, false, w).
Proof. rewrite foldl_app. change (foldl line_char (cs, true, []) BOM) with (anyCharset MkUtf8Charset, false, @nil Z). apply line_chars_plain. Qed.

Lemma writeLine_ok line t f :
  text_rep t f -> f_writable f = true ->
  let out := text_bytes (encode_text (m_charset t)) (newline_of plat t) [] line ++ newline_of plat t in
  f_pos f + len out <= f_limit f ->
  returns (writeLine plat line) t (fun t' _ => wrote t t' (f_put f out)).
Proof.
  intros Ht Hw out Hfit. pose proof (buffered_rep_wf _ _ Ht) as [Hp _].
  unfold out in *. rewrite length_app in Hfit.
  eapply returns_bind; [apply (writeText_loop_ok plat _ line t f Ht Hw); [done|lia]|].
  intros t1 ? (b1 & -> & Hb1). apply returns_get.
  eapply returns_mono; [apply (base_fullWrite (set_buffered b1 t) _ (newline_of plat t) Hb1)|].
  - by rewrite f_put_writable.
  - rewrite f_put_pos, f_put_limit. lia.
  - intros t2 ? (b2 & -> & Hb2). rewrite f_put_app in Hb2 by lia. by exists b2.
Qed.

Fixpoint writeLines (lines : list (list Z)) : M (TextFile S) unit :=
  match lines with
  | [] => ret tt
  | l :: lines' => let@ _ := writeLine plat l in writeLines lines'
  end.

(** Read lines until there are none; [fuel] bounds a line, [n] the number of lines. *)
Fixpoint readLines (fuel n : nat) : M (TextFile S) (list (list Z)) :=
  match n with
  | O => throw out_of_fuel
  | Datatypes.S n' =>
      let@ (ok, line) := readLine fuel in
      if ok : bool then let@ rest := readLines fuel n' in ret (line :: rest) else ret []
  end.

Lemma writeLines_ok lines t f :
  text_rep t f -> f_writable f = true ->
  let out := concat (map (fun l => text_bytes (encode_text (m_charset t)) (newline_of plat t) [] l ++ newline_of plat t) lines) in
  f_pos f + len out <= f_limit f ->
  returns (writeLines lines) t (fun t' _ => wrote t t' (f_put f out)).
Proof.
  revert t f. induction lines as [|l lines IH]; intros t f Ht Hw; cbn [map concat writeLines]; cbv zeta; intros Hfit.
  { apply returns_ret. exists (tf_buffered t). by destruct t. }
  pose proof (buffered_rep_wf _ _ Ht) as [Hp _]. rewrite length_app in Hfit.
  eapply returns_bind; [apply (writeLine_ok l t f Ht Hw); lia|]. intros t1 ? (b1 & -> & Hb1).
  eapply returns_mono; [apply (IH (set_buffered b1 t) _ Hb1)|].
  - by rewrite f_put_writable.
  - rewrite f_put_pos, f_put_limit.
    change (newline_of plat (set_buffered b1 t)) with (newline_of plat t).
    change (m_charset (set_buffered b1 t)) with (m_charset t). lia.
  - intros t2 ? (b2 & -> & Hb2). rewrite f_put_app in Hb2 by lia. by exists b2.
Qed.

(** A file that consists of lines, each with its line end. *)
Fixpoint lines_file (enc : list Z -> list Z) (lines : list (list Z * list Z)) : list Z :=
  match lines with
  | [] => []
  | (l, term) :: lines' => enc l ++ term ++ lines_file enc lines'
  end.

Fixpoint lines_ok (cs : AnyCharset) (lines : list (list Z * list Z)) : Prop :=
  match lines with
  | [] => True
  | (l, term) :: lines' =>
      plain_line (encode_text cs l) /\ decode_text cs (encode_text cs l) = l /\
      line_end term (lines_file (encode_text cs) lines') /\ lines_ok cs lines'
  end.

(** A terminated line is read, counted, and the file is behind its end. *)
Lemma readLine_line fuel t f w term rest :
  text_rep t f -> m_utf8Snoop t = false -> plain_line w -> f_rest f = w ++ term ++ rest ->
  line_end term rest -> (length w < fuel)%nat ->
  returns (readLine fuel) t (fun t' r => r = (true, decode_text (m_charset t) w) /\
    m_charset t' = m_charset t /\ m_utf8Snoop t' = false /\ m_lineNumber t' = m_lineNumber t + 1 /\
    text_rep t' (f_seek f (f_pos f + len (w ++ term)))).
Proof.
  intros Ht Hs Hw Hr Hend Hf. unfold readLine.
  eapply returns_bind; [by apply (doReadLine_line fuel t f w term rest)|].
  rewrite Hs, line_chars_plain. intros t1 r (-> & b & -> & Hb). apply returns_get, returns_put, returns_ret. done.
Qed.

Lemma readLine_eof fuel t f :
  text_rep t f -> m_utf8Snoop t = false -> f_rest f = [] -> (0 < fuel)%nat ->
  returns (readLine fuel) t (fun t' r => r = (false, []) /\ text_rep t' f).
Proof.
  intros Ht Hs Hr Hf. unfold readLine.
  eapply returns_bind; [apply (doReadLine_last fuel t f []); [done|constructor|done|done]|].
  rewrite Hs. cbn. intros t1 r (-> & b & -> & Hb). apply returns_ret. split; [done|].
  by rewrite Z.add_0_r, f_seek_id in Hb.
Qed.

Lemma readLines_ok lines fuel n t f :
  text_rep t f -> m_utf8Snoop t = false -> lines_ok (m_charset t) lines ->
  f_rest f = lines_file (encode_text (m_charset t)) lines ->
  (length (f_rest f) < fuel)%nat -> (length lines < n)%nat ->
  returns (readLines fuel n) t (fun t' r => r = map fst lines /\ 
    text_rep t' (f_seek f (f_pos f + len (f_rest f)))).
Proof.
  revert n t f. induction lines as [|[l term] lines IH]; intros n t f Ht Hs Hok Hr Hf Hn;
    (destruct n as [|n]; [simpl in Hn; lia|]); cbn [readLines].
  - eapply returns_bind; [apply (readLine_eof fuel t f Ht Hs Hr); lia|]. intros t1 r (-> & Ht1).
    apply returns_ret. split; [done|]. rewrite Hr. cbn. by rewrite Z.add_0_r, f_seek_id.
  - destruct Hok as (Hp & Hd & Hend & Hok). cbn [lines_file] in Hr. pose proof (buffered_rep_wf _ _ Ht) as [Hpos _].
    pose proof (f_equal length Hr) as Hlen. rewrite !length_app in Hlen.
    eapply returns_bind; [apply (readLine_line fuel t f _ term _ Ht Hs Hp Hr Hend); lia|].
    intros t1 r (-> & Hc & Hs1 & _ & Ht1). rewrite Hd.
    assert (f_rest (f_seek f (f_pos f + len (encode_text (m_charset t) l ++ term)))
      = lines_file (encode_text (m_charset t)) lines) as Hr1.
    { rewrite f_rest_seek, Hr, app_assoc, Nat2Z.id by lia. apply drop_app_length. }
    eapply returns_bind; [apply (IH n t1 _ Ht1 Hs1)|].
    + by rewrite Hc.
    + by rewrite Hc, Hr1.
    + rewrite Hr1. lia.
    + simpl in Hn. lia.
    + intros t2 r (-> & Ht2). apply returns_ret. split; [done|].
      rewrite f_seek_seek in Ht2. cbn [f_seek f_pos] in Ht2. rewrite Hr1 in Ht2.
      replace (f_pos f + len (f_rest f)) with (f_pos f + len (encode_text (m_charset t) l ++ term) + len (lines_file (encode_text (m_charset t)) lines)); [done|].
      rewrite length_app. lia.
Qed.
End Properties.

(** A line that survives being written and read. *)
Definition good_line (cs : AnyCharset) (l : list Z) : Prop :=
  Forall (fun c => c <> 10) l /\ plain_line (encode_text cs l) /\ decode_text cs (encode_text cs l) = l.

Lemma newline_line_end {S} plat (t : TextFile S) rest : line_end (newline_of plat t) rest.
Proof. unfold newline_of, line_end. destruct (m_sysNewline t), plat; auto. Qed.

Lemma written_lines {S} plat (t : TextFile S) lines :
  encode_text (m_charset t) [] = [] -> Forall (good_line (m_charset t)) lines ->
  let lt := map (fun l => (l, newline_of plat t)) lines in
  concat (map (fun l => text_bytes (encode_text (m_charset t)) (newline_of plat t) [] l ++ newline_of plat t) lines)
    = lines_file (encode_text (m_charset t)) lt /\ lines_ok (m_charset t) lt.
Proof.
  intros He. induction 1 as [|l lines (H1 & H2 & H3) _ [IH1 IH2]]; cbn; [done|].
  rewrite IH1. split; [|split_and!; [done|done|apply newline_line_end|done]].
  rewrite <- app_assoc. f_equal. destruct l as [|c l]; [done|]. by rewrite text_bytes_last.
Qed.

Lemma rest_after_put f d : 0 <= f_pos f -> f_rest f = [] -> f_rest (f_seek (f_put f d) (f_pos f)) = d.
Proof.
  intros Hp Hr. destruct d as [|x d]; [by rewrite <- (f_seek_id f) in Hr|].
  unfold f_rest in *. cbn [f_put f_write f_seek f_data f_pos].
  assert (length (f_data f) <= Z.to_nat (f_pos f))%nat
    by (apply (f_equal length) in Hr; rewrite length_drop in Hr; simpl in Hr; lia).
  unfold overwrite. rewrite (drop_ge (f_data f)), app_nil_r by lia.
  rewrite drop_app_length'; [done|]. rewrite length_take, length_app, length_replicate. lia.
Qed.

(** C6. Text files keep lines.  Lines that are written to a TextFile, in any
    character set that can represent them and with either newline convention,
    are read back as they were, in order and nothing else; reading accepts LF,
    CRLF and CR line ends, even mixed in one file.  A byte-order mark at the
    start switches to UTF-8 and is not part of the line; a Ctrl-Z at the end of
    the file is dropped.  An empty line that ends in a CR at the very end of the
    file is not reported, although one that ends in LF is. *)
Theorem text_file_correct {S : Type} `{!Stream S, !FileLaws S} (plat : platform) (t : TextFile S) (f : file) :
  text_rep t f ->
  (forall lines fuel n,
     m_utf8Snoop t = false -> lines_ok (m_charset t) lines ->
     f_rest f = lines_file (encode_text (m_charset t)) lines ->
     (length (f_rest f) < fuel)%nat -> (length lines < n)%nat ->
     returns (readLines fuel n) t (fun t' r => r = map fst lines /\
       text_rep t' (f_seek f (f_pos f + len (f_rest f))))) /\
  (forall lines, let out := concat (map (fun l => text_bytes (encode_text (m_charset t)) (newline_of plat t) [] l
                                                 ++ newline_of plat t) lines) in
     encode_text (m_charset t) [] = [] -> Forall (good_line (m_charset t)) lines ->
     f_rest f = [] -> f_writable f = true -> f_pos f + len out <= f_limit f ->
     returns (writeLines plat lines) t (fun t' _ => text_rep t' (f_put f out) /\
       forall t2 fuel n, text_rep t2 (f_seek (f_put f out) (f_pos f)) ->
         m_utf8Snoop t2 = false -> m_charset t2 = m_charset t ->
         (length out < fuel)%nat -> (length lines < n)%nat ->
         returns (readLines fuel n) t2 (fun _ r => r = lines))) /\
  (forall w term rest fuel, m_utf8Snoop t = true -> plain_line w -> f_rest f = BOM ++ w ++ term ++ rest ->
     line_end term rest -> (length w + 3 < fuel)%nat ->
     returns (doReadLine fuel) t (fun t' r => r = (true, w) /\ m_charset t' = anyCharset MkUtf8Charset)) /\
  (forall w fuel, m_utf8Snoop t = false -> plain_line w -> w <> [] -> f_rest f = w ++ [26] ->
     (length w + 1 < fuel)%nat ->
     returns (doReadLine fuel) t (fun _ r => r = (true, decode_text (m_charset t) w))) /\
  (forall fuel, f_rest f = [13] -> returns (doReadLine (Datatypes.S fuel)) t (fun _ r => r = (false, []))) /\
  (forall fuel, f_rest f = [10] -> returns (doReadLine (Datatypes.S fuel)) t (fun _ r => r.1 = true)).
Proof.
  intros Ht. pose proof (buffered_rep_wf _ _ Ht) as [Hp _]. split_and!.
  - intros. by apply readLines_ok.
  - intros lines out He Hg Hr Hw Hfit. destruct (written_lines plat t lines He Hg) as [Hout Hok].
    eapply returns_mono; [by apply writeLines_ok|]. intros t1 ? (b & -> & Hb). split; [done|].
    intros t2 fuel n Ht2 Hs2 Hc2 Hf Hn.
    pose proof (rest_after_put f out ltac:(lia) Hr) as Hrest.
    eapply returns_mono; [apply (readLines_ok (map (fun l => (l, newline_of plat t)) lines) fuel n t2 _ Ht2 Hs2)|].
    + by rewrite Hc2.
    + by rewrite Hc2, Hrest.
    + by rewrite Hrest.
    + by rewrite length_map.
    + intros ? r [-> _]. rewrite map_map. apply map_id.
  - intros w term rest fuel Hs Hw Hr Hend Hf.
    eapply returns_mono; [apply (doReadLine_line fuel t f (BOM ++ w) term rest Ht)|].
    + apply Forall_app. split; [repeat constructor; done|done].
    + by rewrite <- app_assoc.
    + done.
    + rewrite length_app. simpl. lia.
    + rewrite Hs, line_chars_bom. by intros t' r (-> & b & -> & _).
  - intros w fuel Hs Hw Hne Hr Hf.
    eapply returns_mono; [apply (doReadLine_last fuel t f (w ++ [26]) Ht)|].
    + apply Forall_app. split; [done|]. by repeat constructor.
    + done.
    + rewrite length_app. simpl. lia.
    + rewrite Hs, line_chars_plain. cbn [app]. intros t' r [Hr' _]. rewrite Hr'. clear Hr'.
      rewrite last_snoc, bool_decide_true, length_app, Nat.add_sub by done. rewrite take_app_length.
      by destruct w.
  - intros fuel Hr. unfold doReadLine.
    eapply returns_bind with (Q := fun t' r => r = (None, [])).
    { cbn [readLine_loop]. eapply returns_bind; [by apply (base_readByte t f 13 [])|].
      intros t1 a (-> & b & -> & Hb). cbn [Z.eqb Pos.eqb].
      eapply returns_bind; [by apply base_peekByte|]. intros t2 a (-> & _).
      rewrite (f_rest_cons f 13 []) by (done || lia). by apply returns_ret. }
    intros t1 r ->. by apply returns_get.
  - intros fuel Hr. eapply returns_mono; [apply (doReadLine_line (Datatypes.S fuel) t f [] [10] [] Ht)|].
    + constructor.
    + done.
    + by left.
    + simpl. lia.
    + cbn [foldl]. by intros t' r (-> & _).
Qed.

(** Two lines with different line ends, in UTF-8, on a ConstMemoryStream. *)
Definition ex_text : list Z := [65; 66; 13; 10; 195; 164; 10].
Definition ex_text_file : TextFile ConstMemoryStream :=
  mkText (BufferedStream_new (ConstMemoryStream_new ex_text) (replicate 1024 0)) (anyCharset MkUtf8Charset) false true 0.

Lemma text_file_correct_witness :
  returns (readLines 100 3) ex_text_file (fun _ r => r = [[65; 66]; [195; 164]]).
Proof.
  assert (const_rep (ConstMemoryStream_new ex_text) (mkFile ex_text 0 7 false)) as Hs
    by (exists 7; unfold f_wf; simpl; repeat split; lia).
  assert (@text_rep _ _ ConstMemoryStream_laws ex_text_file (mkFile ex_text 0 7 false)) as Ht
    by (split; [reflexivity|exact Hs]).
  destruct (@text_file_correct _ _ ConstMemoryStream_laws Posix ex_text_file _ Ht) as [H _].
  eapply returns_mono; [apply (H [([65; 66], [13; 10]); ([195; 164], [10])] 100%nat 3%nat)|].
  - reflexivity.
  - unfold lines_ok, plain_line, encode_text. cbn.
    split; [repeat (apply Forall_cons_2; [lia|]); apply Forall_nil_2|]. split; [reflexivity|].
    split; [right; left; reflexivity|].
    split; [repeat (apply Forall_cons_2; [lia|]); apply Forall_nil_2|]. split; [reflexivity|].
    split; [left; reflexivity|exact I].
  - reflexivity.
  - simpl; lia.
  - simpl; lia.
  - intros ? r [-> _]. reflexivity.
Defined.
