(* ===== verification/Strings.v ===== *)
(** * Strings

    src/afl/string/char.hpp, string.cpp, parse.cpp, parse.hpp and
    parsememory.cpp: the locale-independent character tests, case-insensitive
    comparison, trimming, splitting and word extraction, and the parsers for
    decimal numbers.  A string is the list of its bytes. *)

From Stdlib Require Import ZArith Lia Bool String Ascii.
From stdpp Require Import base tactics numbers option list sets.
From S2P Require Import Prelude.

Local Open Scope Z_scope.
Local Open Scope afl_scope.

(** A string literal. *)
Definition lit (s : string) : list Z := map (fun c => Z.of_N (N_of_ascii c)) (list_ascii_of_string s).

(** The value of a byte read as a [char], which is signed. *)
Definition char_value (b : Z) : Z := swrap 8 b.

(** ** Character tests (char.hpp) *)

Definition charIsUpper (ch : Z) : bool := (65 <=? ch) && (ch <=? 90).
Definition charIsLower (ch : Z) : bool := (97 <=? ch) && (ch <=? 122).
Definition charIsSpace (ch : Z) : bool := (ch =? 32) || (ch =? 9) || (ch =? 13) || (ch =? 10).
Definition charIsDigit (ch : Z) : bool := (48 <=? ch) && (ch <=? 57).
Definition charIsAlphanumeric (ch : Z) : bool := charIsUpper ch || charIsLower ch || charIsDigit ch.
Definition charToUpper (ch : Z) : Z := if charIsLower ch then ch - 0x20 else ch.
Definition charToLower (ch : Z) : Z := if charIsUpper ch then ch + 0x20 else ch.

(** ** String functions (string.cpp) *)

(** [strCaseCompare], loop over the common length, then comparison of lengths *)
Fixpoint strCaseCompare_loop (a b : list Z) : option Z :=
  match a, b with
  | ca :: a', cb :: b' =>
      if ca =? cb then strCaseCompare_loop a' b'
      else let diff := char_value (charToUpper ca) - char_value (charToUpper cb) in
           if diff =? 0 then strCaseCompare_loop a' b' else Some diff
  | _, _ => None
  end.

Definition strCaseCompare (a b : list Z) : Z :=
  match strCaseCompare_loop a b with
  | Some diff => diff
  | None => if (length a <? length b)%nat then -1 else if (length a =? length b)%nat then 0 else 1
  end.

(** [std::string::find] *)
Fixpoint find (s sep : list Z) : option nat :=
  if bool_decide (take (length sep) s = sep) then Some 0%nat
  else match s with
       | [] => None
       | _ :: s' => S <$> find s' sep
       end.

(** The loops that move an index over characters with a property. *)
Fixpoint skip_while (p : Z -> bool) (s : list Z) : nat :=
  match s with
  | c :: s' => if p c then S (skip_while p s') else 0%nat
  | [] => 0%nat
  end.

Definition strLTrim (s : list Z) : list Z := drop (skip_while charIsSpace s) s.

(** [while (n > 0 && charIsSpace(s[n-1])) --n;] *)
Fixpoint rtrim_length (s : list Z) (n : nat) : nat :=
  match n with
  | S n' => if charIsSpace (byte_at s n') then rtrim_length s n' else n
  | O => O
  end.

Definition strRTrim (s : list Z) : list Z := take (rtrim_length s (length s)) s.
Definition strTrim (s : list Z) : list Z := strLTrim (strRTrim s).

Definition strFirst (str sep : list Z) : list Z :=
  match find str sep with
  | None => str
  | Some n => take n str
  end.

(** Result and the new value of [str] *)
Definition strRemove (str sep : list Z) : bool * list Z :=
  match find str sep with
  | None => (false, str)
  | Some n => (true, drop (n + length sep) str)
  end.

(** [lhs] and [rhs] when the result is true *)
Definition strSplit (str sep : list Z) : option (list Z * list Z) :=
  match find str sep with
  | None => None
  | Some n => Some (take n str, drop (n + length sep) str)
  end.

Definition strLCase (s : list Z) : list Z := map charToLower s.
Definition strUCase (s : list Z) : list Z := map charToUpper s.

Fixpoint strUCFirst_loop (uc : bool) (s : list Z) : list Z :=
  match s with
  | [] => []
  | c :: s' =>
      if charIsSpace c || (c =? 45) then c :: strUCFirst_loop true s'
      else (if uc then charToUpper c else charToLower c) :: strUCFirst_loop false s'
  end.
Definition strUCFirst (s : list Z) : list Z := strUCFirst_loop true s.

Fixpoint strLCWords_loop (uc : bool) (s : list Z) : list Z :=
  match s with
  | [] => []
  | c :: s' =>
      if charIsSpace c || (c =? 45) then c :: strLCWords_loop true s'
      else (if uc then c else charToLower c) :: strLCWords_loop false s'
  end.
Definition strLCWords (s : list Z) : list Z := strLCWords_loop true s.

Definition notSpace (c : Z) : bool := negb (charIsSpace c).

(** [strNthWordStart] *)
Fixpoint strNthWordStart_loop (s : list Z) (i k : nat) : nat :=
  match i with
  | O => k
  | S i' =>
      let k := (k + skip_while notSpace (drop k s))%nat in
      let k := (k + skip_while charIsSpace (drop k s))%nat in
      strNthWordStart_loop s i' k
  end.
Definition strNthWordStart (s : list Z) (i : nat) : nat :=
  strNthWordStart_loop s i (skip_while charIsSpace s).

Definition strNthWord (s : list Z) (i : nat) : list Z :=
  let k := strNthWordStart s i in
  take (skip_while notSpace (drop k s)) (drop k s).
Definition strNthWordRest (s : list Z) (i : nat) : list Z := drop (strNthWordStart s i) s.

(** ** Parsing numbers (parse.cpp) *)

(** [str.c_str()], without the terminator, as a C function sees it *)
Fixpoint c_str (str : list Z) : list Z :=
  match str with
  | c :: str' => if c =? 0 then [] else c :: c_str str'
  | [] => []
  end.

(** Success and [pos] *)
Definition parsePostValidate (c : list Z) (end_ : nat) (erange refuseNegative : bool) : bool * nat :=
  if erange || (end_ =? 0)%nat then (false, 0%nat)
  else match (if refuseNegative then list_find (fun ch => ch = 45) (take end_ c) else None) with
       | Some (pc, _) => (false, pc)
       | None =>
           let end_ := (end_ + skip_while charIsSpace (drop end_ c))%nat in
           if bool_decide (c = []) || negb (bool_decide (drop end_ c = [])) then (false, end_)
           else (true, 0%nat)
       end.

(** ISO C: [isspace] in the "C" locale *)
Definition isspace (c : Z) : bool := (c =? 32) || ((9 <=? c) && (c <=? 13)).

Definition digits_value (ds : list Z) : Z := fold_left (fun v d => 10 * v + (d - 48)) ds 0.

(** ISO C, 7.22.1.4: the parts of the subject sequence of [strtol] and its
    relatives in base 10: number of spaces, sign, digits. *)
Definition sign_length (s : list Z) : nat :=
  match s with
  | c :: _ => if (c =? 43) || (c =? 45) then 1 else 0
  | [] => 0
  end.
Definition is_minus (s : list Z) : bool := bool_decide (take 1 s = [45]).

Record subject := mkSubject { sj_negative : bool; sj_digits : list Z; sj_end : nat }.
Definition scan (space : Z -> bool) (c : list Z) : subject :=
  let n := skip_while space c in
  let s := drop n c in
  let m := sign_length s in
  let ds := take (skip_while charIsDigit (drop m s)) (drop m s) in
  mkSubject (is_minus s) ds (n + m + length ds).

(** [std::strtol], [std::strtoll] for a type of [w] bits: value, end
    (offset; 0 when there is no subject sequence), [errno == ERANGE] *)
Definition strtol (w : Z) (c : list Z) : Z * nat * bool :=
  let sj := scan isspace c in
  if bool_decide (sj_digits sj = []) then (0, 0%nat, false)
  else let d := digits_value (sj_digits sj) in
       let v := if sj_negative sj then - d else d in
       if v <? - 2 ^ (w - 1) then (- 2 ^ (w - 1), sj_end sj, true)
       else if 2 ^ (w - 1) <=? v then (2 ^ (w - 1) - 1, sj_end sj, true)
       else (v, sj_end sj, false).

(** [std::strtoul], [std::strtoull] *)
Definition strtoul (w : Z) (c : list Z) : Z * nat * bool :=
  let sj := scan isspace c in
  if bool_decide (sj_digits sj = []) then (0, 0%nat, false)
  else let d := digits_value (sj_digits sj) in
       if 2 ^ w <=? d then (2 ^ w - 1, sj_end sj, true)
       else (wrap w (if sj_negative sj then - d else d), sj_end sj, false).

(** The implementations for compilers without [strtoull], [strtoll]:
    [readDigits] yields the value, or None when it returns false. *)
Fixpoint readDigits_loop (ds : list Z) (value : Z) (ok : bool) : option Z :=
  match ds with
  | ch :: ds' =>
      if charIsDigit ch
      then let digit := ch - 48 in
           let limit := 2 ^ 64 - 1 in
           if (limit / 10 <? value) || (u64 (limit - u64 (10 * value)) <? digit) then None
           else readDigits_loop ds' (u64 (10 * value + digit)) true
      else if ok then Some value else None
  | [] => if ok then Some value else None
  end.
Definition readDigits (s : list Z) : option (Z * nat) :=
  match readDigits_loop s 0 false with
  | Some v => Some (v, skip_while charIsDigit s)
  | None => None
  end.

(** Value, end, ERANGE.  When ERANGE is set, end is not written. *)
Definition own_strtoull (c : list Z) : Z * nat * bool :=
  let n := skip_while charIsSpace c in
  let s := drop n c in
  let m := if bool_decide (take 1 s = [43]) then 1%nat else 0%nat in
  match readDigits (drop m s) with
  | None => (0, 0%nat, true)
  | Some (result, k) => (result, (n + m + k)%nat, false)
  end.

Definition own_strtoll (c : list Z) : Z * nat * bool :=
  let n := skip_while charIsSpace c in
  let s := drop n c in
  let m := sign_length s in
  let negative := is_minus s in
  let max := 2 ^ 63 in
  match readDigits (drop m s) with
  | None => (0, 0%nat, true)
  | Some (result, k) =>
      if negative
      then if max <? result then (0, 0%nat, true)
           else (swrap 64 (u64 (- result)), (n + m + k)%nat, false)
      else if max <=? result then (0, 0%nat, true)
      else (result, (n + m + k)%nat, false)
  end.

(** The common form of the four functions: [value] when the result is true, and [pos] *)
Definition parse_with (strto : list Z -> Z * nat * bool) (refuseNegative : bool) (str : list Z) : option Z * nat :=
  let c := c_str str in
  let '(v, end_, erange) := strto c in
  let '(ok, pos) := parsePostValidate c end_ erange refuseNegative in
  (if ok then Some v else None, pos).

(** strToInteger for long and unsigned long, of [w] bits *)
Definition strToLong (w : Z) (str : list Z) : option Z * nat := parse_with (strtol w) false str.
Definition strToULong (w : Z) (str : list Z) : option Z * nat := parse_with (strtoul w) true str.
(** strToInteger for long long and unsigned long long, with the C library *)
Definition strToLongLong (str : list Z) : option Z * nat := parse_with (strtol 64) false str.
Definition strToULongLong (str : list Z) : option Z * nat := parse_with (strtoul 64) true str.
(** ... and without *)
Definition own_strToLongLong (str : list Z) : option Z * nat := parse_with own_strtoll false str.
Definition own_strToULongLong (str : list Z) : option Z * nat := parse_with own_strtoull true str.

(** The template for a type T of [t] bits, t <= w *)
Definition strToInteger (sgn : bool) (t w : Z) (str : list Z) : option Z * nat :=
  let '(tmp, pos) := if sgn then strToLong w str else strToULong w str in
  match tmp with
  | None => (None, pos)
  | Some tmp =>
      let T := if sgn then swrap t tmp else wrap t tmp in
      if negb (T =? tmp) then (None, 0%nat) else (Some T, pos)
  end.

(** strToFloat: std::strtod is a parameter. *)
Definition strToFloat {F} (strtod : list Z -> F * nat * bool) (str : list Z) : option F * nat :=
  let c := c_str str in
  let '(v, end_, erange) := strtod c in
  let '(ok, pos) := parsePostValidate c end_ erange false in
  (if ok then Some v else None, pos).

(** ** Parsers on memory (parsememory.cpp): result and the remaining memory *)

Definition parseIf (mem : list Z) (pred : Z -> bool) : nat * list Z :=
  let n := skip_while pred mem in (n, drop n mem).
Definition parseChar (mem : list Z) (ch : Z) : nat * list Z :=
  match mem with
  | pch :: _ => if pch =? ch then (1%nat, drop 1 mem) else (0%nat, mem)
  | [] => (0%nat, mem)
  end.

Fixpoint parseLiteral_loop (mem l : list Z) (n : nat) : option nat :=
  match l with
  | [] => Some n
  | c :: l' =>
      match mem !! n with
      | None => None
      | Some pch => if pch =? c then parseLiteral_loop mem l' (S n) else None
      end
  end.
Definition parseLiteral (mem l : list Z) : nat * list Z :=
  match parseLiteral_loop mem l 0 with
  | None => (0%nat, mem)
  | Some n => (n, drop n mem)
  end.

(** None: "return 0" on overflow *)
Fixpoint parseNumber_loop (mem : list Z) (n : nat) (result : Z) : option (nat * Z) :=
  match mem with
  | pch :: mem' =>
      if (48 <=? pch) && (pch <=? 57)
      then let newVal := u64 (10 * result + (pch - 48)) in
           if newVal <? result then None else parseNumber_loop mem' (S n) newVal
      else Some (n, result)
  | [] => Some (n, result)
  end.
(** Result, [out] when it is written, remaining memory *)
Definition parseNumber (mem : list Z) : nat * option Z * list Z :=
  match parseNumber_loop mem 0 0 with
  | None => (0%nat, None, mem)
  | Some (n, result) => if (0 <? n)%nat then (n, Some result, drop n mem) else (0%nat, None, mem)
  end.

(** ** Lemmas *)

Lemma skip_while_spec p s :
  let n := skip_while p s in
  Forall (fun c => p c = true) (take n s) /\ (n <= length s)%nat /\ (forall c t, drop n s = c :: t -> p c = false).
Proof.
  induction s as [|c s IH]; simpl; [split; [constructor|split; [lia|by intros]]|].
  destruct (p c) eqn:E; simpl.
  - destruct IH as (H1 & H2 & H3). split; [by constructor|split; [lia|done]].
  - split; [constructor|split; [lia|]]. intros c' t [= <- <-]. done.
Qed.

Lemma skip_while_app p a b :
  Forall (fun c => p c = true) a -> (forall c t, b = c :: t -> p c = false) -> skip_while p (a ++ b) = length a.
Proof.
  intros Ha Hb. induction Ha as [|c a Hc Ha IH]; simpl.
  - destruct b as [|c b]; [done|]. simpl. by rewrite (Hb c b).
  - by rewrite Hc, IH.
Qed.

Lemma take_skip_length p s : length (take (skip_while p s) s) = skip_while p s.
Proof. rewrite length_take. pose proof (skip_while_spec p s). cbv zeta in H. lia. Qed.

Lemma find_take s sep n : find s sep = Some n -> s = take n s ++ sep ++ drop (n + length sep) s.
Proof.
  revert n. induction s as [|c s IH]; intros n; simpl; case_bool_decide as E.
  - intros [= <-]. simpl. rewrite <- (take_drop (length sep) []) at 1. by rewrite E.
  - done.
  - intros [= <-]. simpl. rewrite <- (take_drop (length sep) (c :: s)) at 1. by rewrite E.
  - destruct (find s sep) as [k|]; [|done]. intros [= <-]. simpl. f_equal. by apply IH.
Qed.

Lemma find_least s sep l r : s = l ++ sep ++ r -> exists n, find s sep = Some n /\ (n <= length l)%nat.
Proof.
  revert l. induction s as [|c s IH]; intros l Hs.
  - destruct l; [|done]. destruct sep; [|done]. simpl. exists 0%nat. split; [done|simpl; lia].
  - simpl. case_bool_decide as E; [exists 0%nat; split; [done|lia]|].
    destruct l as [|c' l]; simpl in Hs.
    + destruct E. rewrite Hs. apply take_app_length.
    + injection Hs as -> Hs. destruct (IH l Hs) as (n & -> & Hn). exists (S n). simpl. split; [done|lia].
Qed.

Lemma find_none s sep : find s sep = None <-> forall l r, s <> l ++ sep ++ r.
Proof.
  split.
  - intros H l r Hs. destruct (find_least s sep l r Hs) as (n & Hn & _). congruence.
  - intros H. destruct (find s sep) as [n|] eqn:E; [|done]. destruct (H _ _ (find_take _ _ _ E)).
Qed.

(** The separator of [l ++ sep ++ r] is its first occurrence. *)
Definition first_occurrence (str sep l r : list Z) : Prop :=
  str = l ++ sep ++ r /\ forall l' r', str = l' ++ sep ++ r' -> (length l <= length l')%nat.

Lemma strSplit_spec str sep l r : strSplit str sep = Some (l, r) <-> first_occurrence str sep l r.
Proof.
  unfold strSplit, first_occurrence. split.
  - destruct (find str sep) as [n|] eqn:E; [|done]. intros [= <- <-].
    pose proof (find_take _ _ _ E) as H. split; [done|].
    intros l' r' Hs. destruct (find_least str sep l' r' Hs) as (k & Hk & Hl). simplify_eq. rewrite length_take. lia.
  - intros [Hs Hmin]. destruct (find_least str sep l r Hs) as (n & Hn & Hl). rewrite Hn.
    pose proof (find_take _ _ _ Hn) as H. specialize (Hmin _ _ H). rewrite length_take in Hmin.
    assert (n = length l) as -> by lia.
    rewrite Hs at 1. rewrite take_app_length. rewrite Hs, app_assoc, drop_app_ge by (rewrite length_app; lia).
    rewrite length_app, Nat.sub_diag, drop_0. done.
Qed.

Lemma lookup_byte_at l i : (i < length l)%nat -> l !! i = Some (byte_at l i).
Proof. intros H. destruct (nth_lookup_or_length l i 0) as [E|]; [done|lia]. Qed.

Lemma rtrim_length_spec s n :
  (n <= length s)%nat ->
  let k := rtrim_length s n in
  (k <= n)%nat /\ Forall (fun c => charIsSpace c = true) (drop k (take n s)) /\
  (k <> 0%nat -> charIsSpace (byte_at s (k - 1)) = false).
Proof.
  induction n as [|n IH]; intros Hn; simpl; [split; [lia|split; [constructor|lia]]|].
  destruct (charIsSpace (byte_at s n)) eqn:E.
  - destruct (IH ltac:(lia)) as (H1 & H2 & H3). split; [lia|]. split; [|done].
    rewrite (take_S_r s n (byte_at s n)) by (apply lookup_byte_at; lia).
    rewrite drop_app_le by (rewrite length_take; lia). apply Forall_app. by repeat constructor.
  - split; [lia|]. split; [rewrite drop_ge; [constructor|rewrite length_take; lia]|]. intros _.
    replace (S n - 1)%nat with n by lia. done.
Qed.

Definition spaces (s : list Z) : Prop := Forall (fun c => charIsSpace c = true) s.
(** No space at the start, or at the end. *)
Definition tight (s : list Z) : Prop :=
  (forall c t, s = c :: t -> charIsSpace c = false) /\ (forall c t, s = t ++ [c] -> charIsSpace c = false).

Lemma strLTrim_spec s :
  let n := skip_while charIsSpace s in spaces (take n s) /\ (forall c t, strLTrim s = c :: t -> charIsSpace c = false).
Proof. destruct (skip_while_spec charIsSpace s) as (H1 & H2 & H3). done. Qed.

Lemma strRTrim_spec s :
  spaces (drop (rtrim_length s (length s)) s) /\ (forall c t, strRTrim s = t ++ [c] -> charIsSpace c = false).
Proof.
  destruct (rtrim_length_spec s (length s) (le_n _)) as (H1 & H2 & H3). rewrite take_ge in H2 by lia. split; [done|].
  intros c t Ht. unfold strRTrim in Ht. set (k := rtrim_length s (length s)) in *.
  assert (Hk : length (t ++ [c]) = k) by (rewrite <- Ht, length_take; lia). rewrite length_app in Hk; simpl in Hk.
  specialize (H3 ltac:(lia)). replace (byte_at s (k - 1)) with c in H3; [done|].
  unfold byte_at. rewrite <- (take_drop k s), Ht, <- app_assoc, app_nth2 by lia.
  replace (k - 1 - length t)%nat with 0%nat by lia. done.
Qed.

Lemma strTrim_spec s : exists l r, s = l ++ strTrim s ++ r /\ spaces l /\ spaces r /\ tight (strTrim s).
Proof.
  destruct (strRTrim_spec s) as (R1 & R2). destruct (strLTrim_spec (strRTrim s)) as (L1 & L2).
  set (n := skip_while charIsSpace (strRTrim s)) in *.
  exists (take n (strRTrim s)), (drop (rtrim_length s (length s)) s).
  split; [|split; [done|split; [done|split; [done|]]]].
  - rewrite app_assoc. unfold strTrim, strLTrim. fold n. rewrite take_drop. unfold strRTrim. by rewrite take_drop.
  - intros c t Ht. apply (R2 c (take n (strRTrim s) ++ t)). rewrite <- app_assoc, <- Ht.
    unfold strTrim, strLTrim. fold n. by rewrite take_drop.
Qed.

(** The words of a string. *)
Inductive words : list Z -> list (list Z) -> Prop :=
  | words_nil sp : spaces sp -> words sp []
  | words_cons sp w rest ws :
      spaces sp -> w <> [] -> Forall (fun c => charIsSpace c = false) w ->
      (forall c t, rest = c :: t -> charIsSpace c = true) ->
      words rest ws -> words (sp ++ w ++ rest) (w :: ws).

Definition next_word (s : list Z) : list Z := strLTrim (drop (skip_while notSpace s) s).

Lemma strNthWordStart_iter s i k : drop (strNthWordStart_loop s i k) s = Nat.iter i next_word (drop k s).
Proof.
  revert k. induction i as [|i IH]; intros k; simpl; [done|].
  rewrite IH, <- Nat.iter_swap. f_equal. unfold next_word, strLTrim.
  rewrite <- !drop_drop. done.
Qed.

Lemma strNthWordRest_iter s i : strNthWordRest s i = Nat.iter i next_word (strLTrim s).
Proof. unfold strNthWordRest, strNthWordStart. by rewrite strNthWordStart_iter. Qed.

Lemma strLTrim_spaces sp s : spaces sp -> (forall c t, s = c :: t -> charIsSpace c = false) -> strLTrim (sp ++ s) = s.
Proof. intros H1 H2. unfold strLTrim. rewrite skip_while_app by done. by rewrite drop_app_length. Qed.

Lemma skip_word w rest :
  Forall (fun c => charIsSpace c = false) w -> (forall c t, rest = c :: t -> charIsSpace c = true) ->
  skip_while notSpace (w ++ rest) = length w.
Proof.
  intros Hw Hr. apply skip_while_app.
  - eapply Forall_impl; [done|]. intros c H. unfold notSpace. by rewrite H.
  - intros c t H. unfold notSpace. by rewrite (Hr c t H).
Qed.

Lemma word_head w rest : w <> [] -> Forall (fun c => charIsSpace c = false) w ->
  forall c t, w ++ rest = c :: t -> charIsSpace c = false.
Proof. intros Hn Hw c t H. destruct Hw; [done|]. simpl in H. by simplify_eq. Qed.

Lemma strLTrim_idem s : strLTrim (strLTrim s) = strLTrim s.
Proof. destruct (strLTrim_spec s) as [_ H]. apply (strLTrim_spaces []); [constructor|done]. Qed.

Lemma words_iter s ws i : words s ws ->
  words (Nat.iter i next_word (strLTrim s)) (drop i ws) /\
  strLTrim (Nat.iter i next_word (strLTrim s)) = Nat.iter i next_word (strLTrim s).
Proof.
  intros H. split; [|destruct i; simpl; apply strLTrim_idem].
  revert i. induction H as [sp Hsp|sp w rest ws Hsp Hn Hw Hr Hws IH]; intros i.
  - assert (strLTrim sp = []) as -> by (rewrite <- (app_nil_r sp) at 1; by apply strLTrim_spaces).
    assert (Nat.iter i next_word [] = []) as -> by (induction i as [|i IH]; simpl; [done|by rewrite IH]).
    rewrite drop_nil. by repeat constructor.
  - rewrite strLTrim_spaces by (done || by apply word_head).
    destruct i as [|i]; [apply (words_cons []); done || constructor|].
    rewrite Nat.iter_succ_r. unfold next_word at 2. rewrite skip_word, drop_app_length by done. simpl. apply IH.
Qed.

Lemma words_strNthWord s ws i : words s ws -> strNthWord s i = nth i ws [].
Proof.
  intros H. destruct (words_iter s ws i H) as [Hi Hl].
  assert (Ht : forall t vs, words t vs -> strLTrim t = t -> take (skip_while notSpace t) t = nth 0 vs []).
  { intros t vs Hv Htr. destruct Hv as [sp Hsp|sp w rest vs Hsp Hn Hw Hr Hv].
    - rewrite <- (app_nil_r sp) in Htr at 1. rewrite strLTrim_spaces in Htr by done. by subst.
    - rewrite strLTrim_spaces in Htr by (done || by apply word_head).
      assert (sp = []) as -> by (destruct sp; [done|]; apply (f_equal length) in Htr; rewrite ?length_app in Htr; simpl in Htr; lia).
      simpl. rewrite skip_word by done. apply take_app_length. }
  specialize (Ht _ _ Hi Hl). unfold strNthWord. fold (strNthWordRest s i).
  rewrite strNthWordRest_iter, Ht. rewrite nth_lookup, lookup_drop, Nat.add_0_r, <- nth_lookup. done.
Qed.

Lemma words_exist s : exists ws, words s ws.
Proof.
  remember (length s) as n eqn:Hn. revert s Hn. induction n as [n IH] using lt_wf_ind; intros s ->.
  destruct (skip_while_spec charIsSpace s) as (H1 & H2 & H3). set (k := skip_while charIsSpace s) in *.
  destruct (skip_while_spec notSpace (drop k s)) as (W1 & W2 & W3). set (m := skip_while notSpace (drop k s)) in *.
  destruct (decide (drop k s = [])) as [E|E].
  - exists []. rewrite <- (take_drop k s), E, app_nil_r. by constructor.
  - assert (Hm : (0 < m)%nat).
    { destruct (drop k s) as [|c t] eqn:Ed; [done|]. subst m. simpl. unfold notSpace at 1. rewrite (H3 c t eq_refl). simpl. lia. }
    rewrite length_drop in W2.
    destruct (IH (length (drop m (drop k s)))) with (s := drop m (drop k s)) as [ws Hws]; [rewrite !length_drop; lia|done|].
    exists (take m (drop k s) :: ws). rewrite <- (take_drop k s) at 1. rewrite <- (take_drop m (drop k s)) at 1.
    apply words_cons; [done| | | |done].
    + intros Ht. apply (f_equal length) in Ht. rewrite length_take, length_drop in Ht. simpl in Ht. lia.
    + eapply Forall_impl; [exact W1|]. intros c. unfold notSpace. by destruct (charIsSpace c).
    + intros c t Hc. specialize (W3 c t Hc). unfold notSpace in W3. by destruct (charIsSpace c).
Qed.

(** ** Numbers *)

(** The text [c] starts with spaces, a sign and the digits [ds]; [tail] follows. *)
Definition decimal_text (space : Z -> bool) (c : list Z) (neg : bool) (ds tail : list Z) : Prop :=
  exists ws sg, c = ws ++ sg ++ ds ++ tail /\ Forall (fun ch => space ch = true) ws /\
    (sg = [45] /\ neg = true \/ (sg = [] \/ sg = [43]) /\ neg = false) /\
    ds <> [] /\ Forall (fun ch => charIsDigit ch = true) ds.

Definition signed_value (neg : bool) (ds : list Z) : Z := if neg then - digits_value ds else digits_value ds.

(** Spaces are neither signs nor digits. *)
Definition space_like (space : Z -> bool) : Prop :=
  forall c, space c = true -> charIsDigit c = false /\ c <> 43 /\ c <> 45.

Lemma isspace_like : space_like isspace.
Proof. intros c. unfold isspace, charIsDigit. intros H. split; [|split]; zcases; lia. Qed.
Lemma charIsSpace_like : space_like charIsSpace.
Proof. intros c. unfold charIsSpace, charIsDigit. intros H. split; [|split]; zcases; lia. Qed.

Lemma digits_value_app a b : digits_value (a ++ b) = fold_left (fun v d => 10 * v + (d - 48)) b (digits_value a).
Proof. apply fold_left_app. Qed.

Lemma digits_value_nonneg ds : Forall (fun ch => charIsDigit ch = true) ds -> 0 <= digits_value ds.
Proof.
  intros H. induction ds as [|d ds IH] using rev_ind; [done|].
  rewrite digits_value_app. simpl. apply Forall_app in H as [H1 H2]. specialize (IH H1).
  inversion H2 as [|? ? Hd]; subst. unfold charIsDigit in Hd. zcases; lia.
Qed.

Lemma sign_split s :
  exists sg, s = sg ++ drop (sign_length s) s /\ length sg = sign_length s /\
    (sg = [45] /\ is_minus s = true \/ (sg = [] \/ sg = [43]) /\ is_minus s = false).
Proof.
  unfold is_minus. destruct s as [|c s]; [exists []; simpl; eauto 10|]. simpl.
  destruct (Z.eqb_spec c 43) as [->|]; [exists [43]; simpl; split; [done|split; [done|right; eauto]]|].
  destruct (Z.eqb_spec c 45) as [->|]; [exists [45]; simpl; split; [done|split; [done|left; done]]|].
  exists []. simpl. split; [done|split; [done|right; split; [eauto|]]]. apply bool_decide_false. congruence.
Qed.

Lemma scan_sound space c :
  sj_digits (scan space c) <> [] ->
  decimal_text space c (sj_negative (scan space c)) (sj_digits (scan space c)) (drop (sj_end (scan space c)) c) /\
  (forall ch t, drop (sj_end (scan space c)) c = ch :: t -> charIsDigit ch = false).
Proof.
  unfold scan. cbn [sj_negative sj_digits sj_end].
  destruct (skip_while_spec space c) as (S1 & S2 & _). set (n := skip_while space c) in *.
  destruct (sign_split (drop n c)) as (sg & G1 & G2 & G3). set (m := sign_length (drop n c)) in *.
  destruct (skip_while_spec charIsDigit (drop m (drop n c))) as (D1 & D2 & D3).
  rewrite take_skip_length. set (k := skip_while charIsDigit (drop m (drop n c))) in *. intros Hne.
  rewrite <- (drop_drop c k (n + m)), <- (drop_drop c m n). split; [|done].
  exists (take n c), sg. split; [|done]. rewrite take_drop, <- G1, take_drop. done.
Qed.

Lemma scan_complete space c neg ds tail :
  space_like space -> decimal_text space c neg ds tail -> (forall ch t, tail = ch :: t -> charIsDigit ch = false) ->
  scan space c = mkSubject neg ds (length c - length tail).
Proof.
  intros Hsp (ws & sg & -> & Hws & Hsg & Hne & Hds) Ht.
  assert (Hd : forall ch t, ds ++ tail = ch :: t -> charIsDigit ch = true).
  { intros ch t H. destruct Hds; [done|]. simpl in H. by simplify_eq. }
  assert (Hhead : forall ch t, sg ++ ds ++ tail = ch :: t -> space ch = false).
  { intros ch t H. destruct (space ch) eqn:E; [|done]. destruct (Hsp ch E) as (E1 & E2 & E3).
    destruct Hsg as [[-> _]|[[-> | ->] _]]; simpl in H; simplify_eq. rewrite (Hd ch t H) in E1. done. }
  assert (Hsl : sign_length (sg ++ ds ++ tail) = length sg /\ is_minus (sg ++ ds ++ tail) = neg).
  { unfold is_minus. destruct Hsg as [[-> ->]|[[-> | ->] ->]]; [done| |done].
    simpl. destruct (ds ++ tail) as [|d r] eqn:E; [done|]. specialize (Hd d r eq_refl). simpl. unfold charIsDigit in Hd.
    split; [|apply bool_decide_false; intros [= ->]; done]. zcases; simpl; try done; lia. }
  unfold scan. rewrite skip_while_app, drop_app_length by done. destruct Hsl as [-> ->].
  rewrite drop_app_length, skip_while_app, take_app_length by done. f_equal. rewrite !length_app. lia.
Qed.

Lemma parsePostValidate_spec pre tail erange refuse :
  pre <> [] ->
  (parsePostValidate (pre ++ tail) (length pre) erange refuse).1 = true <->
  erange = false /\ (refuse = true -> 45 ∉ pre) /\ spaces tail.
Proof.
  intros Hpre. unfold parsePostValidate.
  destruct erange; [split; [done|by intros [? _]]|]. simpl.
  destruct (Nat.eqb_spec (length pre) 0) as [E|_]; [by destruct pre|].
  rewrite take_app_length, drop_app_length.
  destruct (if refuse then list_find _ pre else None) as [[i x]|] eqn:F.
  - destruct refuse; [|done]. split; [done|]. intros (_ & H & _). destruct (H eq_refl).
    apply list_find_Some in F as (F & -> & _). by apply list_elem_of_lookup_2 with i.
  - rewrite bool_decide_false by (by destruct pre). simpl.
    rewrite <- drop_drop, drop_app_length. destruct (skip_while_spec charIsSpace tail) as (S1 & S2 & S3).
    case_bool_decide as E; simpl.
    + split; [intros _|done]. split; [done|]. split.
      * intros ->. apply list_find_None in F. intros Hin. rewrite Forall_forall in F. by apply (F 45).
      * rewrite take_ge in S1; [done|]. apply (f_equal length) in E. rewrite length_drop in E. simpl in E. lia.
    + split; [done|]. intros (_ & _ & Hs). destruct E.
      assert (skip_while charIsSpace tail = length tail) as -> by (rewrite <- (app_nil_r tail) at 1; by apply skip_while_app).
      by apply drop_ge.
Qed.

Lemma decimal_prefix space c neg ds tail :
  decimal_text space c neg ds tail -> exists pre, c = pre ++ tail /\ pre <> [] /\ length pre = (length c - length tail)%nat.
Proof.
  intros (ws & sg & -> & Hws & Hsg & Hne & Hds). exists (ws ++ sg ++ ds).
  rewrite <- !app_assoc. split; [done|]. split; [by destruct ws, sg, ds|]. rewrite !length_app. lia.
Qed.

Lemma minus_in_prefix space c neg ds tail pre :
  space_like space -> decimal_text space c neg ds tail -> c = pre ++ tail -> 45 ∈ pre <-> neg = true.
Proof.
  intros Hsp (ws & sg & -> & Hws & Hsg & Hne & Hds) Hc.
  assert (pre = ws ++ sg ++ ds) as -> by (apply (app_inv_tail tail); by rewrite <- Hc, <- !app_assoc).
  rewrite Forall_forall in Hws, Hds.
  assert (45 ∉ ws) by (intros H; destruct (Hsp 45 (Hws _ H)) as (_ & _ & ?); done).
  assert (45 ∉ ds) by (intros H'; by specialize (Hds _ H')).
  destruct Hsg as [[-> ->]|[[-> | ->] ->]]; set_solver.
Qed.

(** A result of [strto...] that the functions accept: a value, the whole
    subject sequence consumed, no range error. *)
Lemma parse_with_spec (strto : list Z -> Z * nat * bool) (good : bool -> Z -> bool) (out : bool -> Z -> Z) space refuse str v :
  space_like space ->
  (forall c, sj_digits (scan space c) = [] -> (strto c).2 = true \/ (strto c).1.2 = 0%nat) ->
  (forall c, let sj := scan space c in sj_digits sj <> [] ->
     let d := digits_value (sj_digits sj) in
     if good (sj_negative sj) d then strto c = (out (sj_negative sj) d, sj_end sj, false)
     else (strto c).2 = true \/ (refuse = true /\ sj_negative sj = true /\ (strto c).1.2 = sj_end sj)) ->
  (parse_with strto refuse str).1 = Some v <->
  exists neg ds tail, decimal_text space (c_str str) neg ds tail /\ spaces tail /\
    good neg (digits_value ds) = true /\ (refuse = true -> neg = false) /\ v = out neg (digits_value ds).
Proof.
  intros Hsp Hnone Hsome. unfold parse_with. set (c := c_str str). split.
  - destruct (decide (sj_digits (scan space c) = [])) as [E|E].
    + specialize (Hnone c E). destruct (strto c) as [[r e] err]. simpl in Hnone.
      unfold parsePostValidate. by destruct Hnone as [->| ->]; [|rewrite Nat.eqb_refl, orb_true_r].
    + destruct (scan_sound space c E) as [Hdt Hnd].
      destruct (decimal_prefix _ _ _ _ _ Hdt) as (pre & Hc & Hpre & Hlen).
      assert (Hend : sj_end (scan space c) = length pre).
      { rewrite (scan_complete space c _ _ _ Hsp Hdt Hnd) at 1. cbn [sj_end]. lia. }
      specialize (Hsome c E). cbv zeta in Hsome.
      set (sj := scan space c) in *.
      pose proof (parsePostValidate_spec pre (drop (sj_end sj) c)) as HP. rewrite <- Hc, <- Hend in HP.
      pose proof (minus_in_prefix space c _ _ _ pre Hsp Hdt Hc) as Hm.
      destruct (good (sj_negative sj) (digits_value (sj_digits sj))) eqn:G.
      * rewrite Hsome. cbn [fst snd]. destruct (parsePostValidate c (sj_end sj) false refuse) as [ok pos] eqn:EP.
        destruct ok; [|done]. intros [= <-]. destruct (proj1 (HP false refuse Hpre)) as (_ & H1 & H2); [by rewrite EP|].
        exists (sj_negative sj), (sj_digits sj), (drop (sj_end sj) c). split; [done|split; [done|split; [done|split; [|done]]]].
        intros Hr. destruct (sj_negative sj); [|done]. destruct (H1 Hr). by apply Hm.
      * destruct (strto c) as [[r e] err]. cbn [fst snd] in *. intros Hf. exfalso. destruct Hsome as [-> | (Hr & Hneg & ->)].
        { unfold parsePostValidate in Hf. done. }
        { destruct (parsePostValidate c (sj_end sj) err refuse) as [ok pos] eqn:EP. destruct ok; [|done].
          destruct (proj1 (HP err refuse Hpre)) as (_ & H1 & H2); [by rewrite EP|]. destruct (H1 Hr). by apply Hm. }
  - intros (neg & ds & tail & Hdt & Htail & G & Hr & ->).
    assert (Hnd : forall ch t, tail = ch :: t -> charIsDigit ch = false).
    { intros ch t ->. inversion Htail as [|? ? H]; subst. apply (charIsSpace_like ch H). }
    pose proof (scan_complete space c neg ds tail Hsp Hdt Hnd) as Hsc.
    destruct (decimal_prefix _ _ _ _ _ Hdt) as (pre & Hc & Hpre & Hlen).
    pose proof (minus_in_prefix space c _ _ _ pre Hsp Hdt Hc) as Hm.
    assert (Hne : ds <> []) by (by destruct Hdt as (? & ? & _ & _ & _ & ? & _)).
    specialize (Hsome c). rewrite Hsc in Hsome. cbn [sj_negative sj_digits sj_end] in Hsome. specialize (Hsome Hne).
    cbv zeta in Hsome. rewrite G in Hsome. fold c in Hc, Hlen. rewrite Hsome, <- Hlen.
    pose proof (proj2 (parsePostValidate_spec pre tail false refuse Hpre)) as HP. rewrite <- Hc in HP.
    destruct (parsePostValidate c (length pre) false refuse) as [ok pos]. cbn [fst] in *. rewrite HP; [done|].
    split; [done|]. split; [|done]. intros Hr'. rewrite Hm, Hr by done. done.
Qed.

(** *** The C library's functions *)

Definition fits_s (w : Z) (neg : bool) (d : Z) : bool := if neg then d <=? 2 ^ (w - 1) else d <? 2 ^ (w - 1).
Definition with_sign (neg : bool) (d : Z) : Z := if neg then - d else d.

Lemma pow_half w : 0 < w -> 2 ^ w = 2 * 2 ^ (w - 1) /\ 0 < 2 ^ (w - 1).
Proof. intros. split; [rewrite <- Z.pow_succ_r by lia; f_equal; lia|apply Z.pow_pos_nonneg; lia]. Qed.

Lemma fits_s_spec w neg d : 0 < w -> 0 <= d -> fits_s w neg d = true <-> in_s w (with_sign neg d).
Proof. intros Hw Hd. destruct (pow_half w Hw). unfold fits_s, in_s, with_sign. destruct neg; zcases; lia. Qed.

Lemma scan_digits space c : Forall (fun ch => charIsDigit ch = true) (sj_digits (scan space c)).
Proof.
  destruct (decide (sj_digits (scan space c) = [])) as [->|E]; [constructor|].
  destruct (scan_sound space c E) as [(? & ? & _ & _ & _ & _ & H) _]. done.
Qed.

Lemma strToLong_iff w str v : 0 < w ->
  (strToLong w str).1 = Some v <->
  exists neg ds tail, decimal_text isspace (c_str str) neg ds tail /\ spaces tail /\
    fits_s w neg (digits_value ds) = true /\ (false = true -> neg = false) /\ v = with_sign neg (digits_value ds).
Proof.
  intros Hw. apply parse_with_spec; [apply isspace_like| |].
  - intros c E. right. unfold strtol. by rewrite bool_decide_true.
  - intros c sj E d. pose proof (digits_value_nonneg _ (scan_digits isspace c)) as Hd. fold sj d in Hd.
    destruct (pow_half w Hw). unfold strtol, fits_s, with_sign. fold sj. rewrite bool_decide_false by done. fold d.
    destruct (sj_negative sj); zcases; try lia; try (by left); done.
Qed.

Lemma strToULong_iff w str v : 0 <= w ->
  (strToULong w str).1 = Some v <->
  exists neg ds tail, decimal_text isspace (c_str str) neg ds tail /\ spaces tail /\
    negb neg && (digits_value ds <? 2 ^ w) = true /\ (true = true -> neg = false) /\ v = digits_value ds.
Proof.
  intros Hw. apply (parse_with_spec _ (fun neg d => negb neg && (d <? 2 ^ w)) (fun _ d => d)); [apply isspace_like| |].
  - intros c E. right. unfold strtoul. by rewrite bool_decide_true.
  - intros c sj E d. pose proof (digits_value_nonneg _ (scan_digits isspace c)) as Hd. fold sj d in Hd.
    unfold strtoul. fold sj. rewrite bool_decide_false by done. fold d.
    destruct (sj_negative sj); simpl; [zcases; [by left|by right]|].
    destruct (Z.ltb_spec d (2 ^ w)); zcases; try lia; [|by left]. by rewrite wrap_small.
Qed.

(** *** The functions of parse.cpp *)

Lemma fold_digits_mono ds v : Forall (fun ch => charIsDigit ch = true) ds -> 0 <= v ->
  v <= fold_left (fun v d => 10 * v + (d - 48)) ds v.
Proof.
  intros H. revert v. induction H as [|d ds Hd H IH]; intros v Hv; simpl; [lia|].
  unfold charIsDigit in Hd. zcases; try done. specialize (IH (10 * v + (d - 48)) ltac:(lia)). lia.
Qed.

Lemma readDigits_loop_spec ds tail v ok :
  Forall (fun ch => charIsDigit ch = true) ds -> (forall c t, tail = c :: t -> charIsDigit c = false) ->
  0 <= v < 2 ^ 64 -> (ok = true \/ ds <> []) ->
  readDigits_loop (ds ++ tail) v ok =
  (let r := fold_left (fun v d => 10 * v + (d - 48)) ds v in if r <? 2 ^ 64 then Some r else None).
Proof.
  intros H Ht. revert v ok. induction H as [|d ds Hd H IH]; intros v ok Hv Hok; simpl.
  - assert (ok = true) as -> by (by destruct Hok). rewrite (proj2 (Z.ltb_lt v (2 ^ 64))) by lia.
    destruct tail as [|c tail]; [done|]. simpl. by rewrite (Ht c tail).
  - rewrite Hd. unfold charIsDigit in Hd.
    assert (Hd2 : 48 <= d <= 57) by (zcases; try done; lia).
    pose proof (fold_digits_mono ds (10 * v + (d - 48)) H ltac:(lia)) as Hm.
    change ((2 ^ 64 - 1) / 10) with 1844674407370955161.
    destruct (Z.ltb_spec 1844674407370955161 v); simpl.
    + rewrite (proj2 (Z.ltb_ge _ _)) by lia. done.
    + unfold u64. rewrite (wrap_small 64 (10 * v)), (wrap_small 64 (2 ^ 64 - 1 - 10 * v)) by lia.
      destruct (Z.ltb_spec (2 ^ 64 - 1 - 10 * v) (d - 48)).
      * rewrite (proj2 (Z.ltb_ge _ _)) by lia. done.
      * rewrite wrap_small by lia. apply IH; [lia|by left].
Qed.

Lemma readDigits_spec s : 
  let k := skip_while charIsDigit s in
  readDigits s = if bool_decide (take k s = []) then None
                 else if digits_value (take k s) <? 2 ^ 64 then Some (digits_value (take k s), k) else None.
Proof.
  intros k. unfold readDigits. fold k. destruct (skip_while_spec charIsDigit s) as (H1 & H2 & H3). fold k in H1, H2, H3.
  case_bool_decide as E.
  - assert (k = 0%nat) as Hk by (apply (f_equal length) in E; rewrite length_take in E; simpl in E; lia).
    rewrite Hk in H3. rewrite drop_0 in H3. destruct s as [|c s]; [done|]. simpl. by rewrite (H3 c s eq_refl).
  - rewrite <- (take_drop k s) at 1. rewrite readDigits_loop_spec by (done || lia || by right). simpl.
    unfold digits_value. by destruct (_ <? _).
Qed.

Lemma sj_end_eq space c : let n := skip_while space c in let s := drop n c in let m := sign_length s in
  sj_end (scan space c) = (n + m + skip_while charIsDigit (drop m s))%nat.
Proof. intros n s m. unfold scan. cbn [sj_end]. by rewrite take_skip_length. Qed.

Lemma own_strToLongLong_iff str v :
  (own_strToLongLong str).1 = Some v <->
  exists neg ds tail, decimal_text charIsSpace (c_str str) neg ds tail /\ spaces tail /\
    fits_s 64 neg (digits_value ds) = true /\ (false = true -> neg = false) /\ v = with_sign neg (digits_value ds).
Proof.
  apply parse_with_spec; [apply charIsSpace_like| |]; intros c; pose proof (sj_end_eq charIsSpace c) as He; cbv zeta in He.
  - intros E. left. unfold own_strtoll. rewrite readDigits_spec. by rewrite bool_decide_true.
  - intros sj E d. unfold own_strtoll. rewrite readDigits_spec, bool_decide_false by done.
    pose proof (digits_value_nonneg _ (scan_digits charIsSpace c)) as Hd. fold sj d in Hd.
    change (digits_value (take _ _)) with d. change (is_minus _) with (sj_negative sj).
    unfold fits_s, with_sign. change (2 ^ (64 - 1)) with (2 ^ 63). fold sj in He. rewrite He.
    destruct (sj_negative sj), (Z.ltb_spec d (2 ^ 64)); zcases; try lia; try (by left); try done.
    unfold u64. rewrite swrap_wrap by (unfold in_s; lia). done.
Qed.

Lemma own_strToULongLong_iff str v :
  (own_strToULongLong str).1 = Some v <->
  exists neg ds tail, decimal_text charIsSpace (c_str str) neg ds tail /\ spaces tail /\
    negb neg && (digits_value ds <? 2 ^ 64) = true /\ (true = true -> neg = false) /\ v = digits_value ds.
Proof.
  apply (parse_with_spec _ (fun neg d => negb neg && (d <? 2 ^ 64)) (fun _ d => d)); [apply charIsSpace_like| |]; intros c;
    pose proof (sj_end_eq charIsSpace c) as He; cbv zeta in He.
  - intros E. left. unfold own_strtoull. rewrite readDigits_spec. unfold scan in E. cbn [sj_digits] in E. revert E. set (s := drop (skip_while charIsSpace c) c).
    unfold sign_length. destruct s as [|ch s]; simpl; [done|].
    destruct (Z.eqb_spec ch 43) as [->|]; simpl; [intros E; by rewrite bool_decide_true|].
    rewrite (bool_decide_false ([ch] = [43])) by congruence. destruct (Z.eqb_spec ch 45) as [->|]; simpl; [done|]. intros E. by rewrite bool_decide_true.
  - intros sj. unfold own_strtoull. rewrite readDigits_spec. fold sj in He. subst sj. unfold scan in *. cbn [sj_digits sj_negative sj_end] in *. rewrite He. clear He.
    set (s := drop (skip_while charIsSpace c) c). unfold is_minus, sign_length. destruct s as [|ch s]; simpl; [done|].
    destruct (Z.eqb_spec ch 43) as [->|]; simpl.
    { intros E. rewrite bool_decide_false by done. destruct (_ <? _); [done|by left]. }
    destruct (Z.eqb_spec ch 45) as [->|]; simpl; [by left|].
    rewrite (bool_decide_false ([ch] = [43])), (bool_decide_false ([ch] = [45])) by congruence.
    intros E. simpl in *. rewrite bool_decide_false by done. destruct (_ <? _); [done|by left].
Qed.

Lemma decimal_space_mono (p q : Z -> bool) c neg ds tail :
  (forall ch, ch ∈ c -> p ch = true -> q ch = true) -> decimal_text p c neg ds tail -> decimal_text q c neg ds tail.
Proof.
  intros H (ws & sg & -> & Hws & Hr). exists ws, sg. split; [done|]. split; [|done].
  rewrite Forall_forall in *. intros ch Hch. apply H; [|by apply Hws]. apply elem_of_app. by left.
Qed.

Lemma elem_of_c_str ch str : ch ∈ c_str str -> ch ∈ str.
Proof.
  induction str as [|x s IH]; simpl; [done|]. destruct (x =? 0); [by intros ?%not_elem_of_nil|].
  rewrite !elem_of_cons. intros [?|?]; [by left|right; auto].
Qed.

Lemma strToInteger_iff sgn t w str v : 0 < t <= w ->
  (strToInteger sgn t w str).1 = Some v <->
  exists neg ds tail, decimal_text isspace (c_str str) neg ds tail /\ spaces tail /\
    (sgn = false -> neg = false) /\ v = with_sign neg (digits_value ds) /\ (if sgn then in_s t v else in_u t v).
Proof.
  intros Ht.
  assert (Hpow : 2 ^ (t - 1) <= 2 ^ (w - 1) /\ 2 ^ t <= 2 ^ w) by (split; apply Z.pow_le_mono_r; lia).
  assert (Hout : forall tmp pos, (match tmp with
     | None => (None, pos)
     | Some tmp => if negb ((if sgn then swrap t tmp else wrap t tmp) =? tmp) then (None, 0%nat)
                   else (Some (if sgn then swrap t tmp else wrap t tmp), pos) end).1 = Some v <->
     tmp = Some v /\ (if sgn then in_s t v else in_u t v)).
  { intros [tmp|] pos; [|split; [done|by intros [? _]]].
    destruct sgn; [destruct (Z.eqb_spec (swrap t tmp) tmp) as [E|E]|destruct (Z.eqb_spec (wrap t tmp) tmp) as [E|E]]; simpl.
    - rewrite ?E. rewrite swrap_fix in E by lia. split; [intros [= ->]; done|by intros [[= ->] _]].
    - rewrite swrap_fix in E by lia. split; [done|]. by intros [[= ->] ?].
    - rewrite ?E. rewrite wrap_fix in E by lia. split; [intros [= ->]; done|by intros [[= ->] _]].
    - rewrite wrap_fix in E by lia. split; [done|]. by intros [[= ->] ?]. }
  unfold strToInteger. destruct sgn.
  - destruct (strToLong w str) as [tmp pos] eqn:E. rewrite Hout. clear Hout.
    pose proof (strToLong_iff w str v ltac:(lia)) as Hl. rewrite E in Hl. cbn [fst] in Hl. rewrite Hl. split.
    + intros [(neg & ds & tail & H1 & H2 & _ & _ & H3) H4]. exists neg, ds, tail. done.
    + intros (neg & ds & tail & H1 & H2 & _ & H3 & H4). split; [|done]. exists neg, ds, tail.
      split; [done|split; [done|split; [|done]]].
      assert (0 <= digits_value ds) by (destruct H1 as (? & ? & _ & _ & _ & _ & ?); by apply digits_value_nonneg).
      apply fits_s_spec; [lia|done|]. unfold in_s in *. subst v. lia.
  - destruct (strToULong w str) as [tmp pos] eqn:E. rewrite Hout. clear Hout.
    pose proof (strToULong_iff w str v ltac:(lia)) as Hl. rewrite E in Hl. cbn [fst] in Hl. rewrite Hl. split.
    + intros [(neg & ds & tail & H1 & H2 & _ & Hn & H3) H4]. exists neg, ds, tail.
      rewrite (Hn eq_refl) in *. done.
    + intros (neg & ds & tail & H1 & H2 & Hn & H3 & H4). split; [|done]. exists neg, ds, tail.
      rewrite (Hn eq_refl) in *. simpl in H3. subst v. unfold in_u in H4. split; [done|split; [done|split; [|done]]]. simpl. zcases; lia.
Qed.

(** *** Memory parsers *)

Lemma parseLiteral_loop_spec mem l n :
  parseLiteral_loop mem l n = if bool_decide (take (length l) (drop n mem) = l) then Some (n + length l)%nat else None.
Proof.
  revert n. induction l as [|c l IH]; intros n; cbn [parseLiteral_loop length take]; [by rewrite Nat.add_0_r|].
  destruct (mem !! n) as [pch|] eqn:E.
  - rewrite (drop_S mem pch n E). simpl. destruct (Z.eqb_spec pch c) as [->|Hne].
    + rewrite IH. replace (S n + length l)%nat with (n + S (length l))%nat by lia.
      rewrite (bool_decide_ext (take (length l) (drop (S n) mem) = l) (c :: take (length l) (drop (S n) mem) = c :: l));
        [done|split; [by intros ->|by intros [= ->]]].
    + rewrite bool_decide_false by congruence. done.
  - rewrite drop_ge by (by apply lookup_ge_None). by rewrite take_nil.
Qed.

Lemma parseNumber_loop_spec ds tail n v :
  Forall (fun ch => charIsDigit ch = true) ds -> (forall c t, tail = c :: t -> charIsDigit c = false) -> 0 <= v ->
  fold_left (fun v d => 10 * v + (d - 48)) ds v < 2 ^ 64 ->
  parseNumber_loop (ds ++ tail) n v = Some ((n + length ds)%nat, fold_left (fun v d => 10 * v + (d - 48)) ds v).
Proof.
  intros H Ht. revert n v. induction H as [|d ds Hd H IH]; intros n v Hv Hlt; simpl in *.
  - rewrite Nat.add_0_r. destruct tail as [|c tail]; [done|]. simpl. fold (charIsDigit c). by rewrite (Ht c tail).
  - fold (charIsDigit d). rewrite Hd. unfold charIsDigit in Hd.
    assert (Hd2 : 48 <= d <= 57) by (zcases; try done; lia).
    pose proof (fold_digits_mono ds (10 * v + (d - 48)) H ltac:(lia)).
    unfold u64. rewrite wrap_small by lia. rewrite (proj2 (Z.ltb_ge _ _)) by lia.
    rewrite IH by lia. f_equal. f_equal. lia.
Qed.

(** *** Comparison *)

Fixpoint lex (a b : list Z) : comparison :=
  match a, b with
  | [], [] => Eq
  | [], _ :: _ => Lt
  | _ :: _, [] => Gt
  | x :: a', y :: b' => match x ?= y with Eq => lex a' b' | c => c end
  end.

Lemma lex_antisym a b : lex b a = CompOpp (lex a b).
Proof.
  revert b. induction a as [|x a IH]; intros [|y b]; simpl; try done.
  rewrite (Z.compare_antisym x y). destruct (x ?= y); simpl; auto.
Qed.

Lemma lex_eq a b : lex a b = Eq <-> a = b.
Proof.
  revert b. induction a as [|x a IH]; intros [|y b]; simpl; try done.
  destruct (Z.compare_spec x y); [rewrite IH|..]; split; intros; try done; simplify_eq; try done; lia.
Qed.

Lemma lex_trans a b d : lex a b = Lt -> lex b d = Lt -> lex a d = Lt.
Proof.
  revert b d. induction a as [|x a IH]; intros [|y b] [|z d]; simpl; try done.
  intros H1 H2. destruct (Z.compare_spec x y), (Z.compare_spec y z), (Z.compare_spec x z); try done; try lia. eauto.
Qed.

Definition case_key (s : list Z) : list Z := map (fun c => char_value (charToUpper c)) s.

Lemma strCaseCompare_lex a b : (strCaseCompare a b ?= 0) = lex (case_key a) (case_key b).
Proof.
  unfold strCaseCompare. revert b. induction a as [|x a IH]; intros [|y b]; try done. simpl.
  specialize (IH b). destruct (Z.eqb_spec x y) as [->|Hne]; [by rewrite Z.compare_refl|].
  destruct (Z.eqb_spec (char_value (charToUpper x) - char_value (charToUpper y)) 0) as [E|E].
  - rewrite (proj2 (Z.compare_eq_iff (char_value (charToUpper x)) _)) by lia. done.
  - destruct (Z.compare_spec (char_value (charToUpper x)) (char_value (charToUpper y))); [lia| |].
    + by apply Z.compare_lt_iff; lia.
    + by apply Z.compare_gt_iff; lia.
Qed.

Lemma char_value_inj a b : is_byte a -> is_byte b -> char_value a = char_value b -> a = b.
Proof.
  intros Ha Hb H. unfold char_value in H. apply (f_equal (wrap 8)) in H. rewrite !wrap_swrap in H by (unfold in_u; lia || done). done.
Qed.

Lemma charToUpper_byte c : is_byte c -> is_byte (charToUpper c).
Proof. unfold charToUpper, charIsLower, is_byte. intros. zcases; simpl; lia. Qed.

Lemma case_key_eq a b : bytes a -> bytes b -> case_key a = case_key b <-> strUCase a = strUCase b.
Proof.
  intros Ha. unfold case_key, strUCase. revert b. induction Ha as [|x a Hx Ha IH]; intros b Hb; destruct Hb as [|y b Hy Hb]; simpl; try done.
  split; intros [= H1 H2].
  - f_equal; [|by apply IH]. apply char_value_inj; by try apply charToUpper_byte.
  - rewrite H1. f_equal. by apply IH.
Qed.

(** ** Properties *)

(** C32. Parsing numbers.  strToInteger accepts exactly the texts made of white
    space, an optional sign, decimal digits and trailing white space, up to the
    first null byte, and yields their value; a minus sign is refused for unsigned
    types, and so is every number that does not fit the type, whatever the width
    of long.  The replacements for missing strtoll and strtoull yield the same
    numbers as the C library's: they accept no others, and accept all texts that
    do not start with a form feed or vertical tab.  parseNumber yields the value
    of the digits at the start of its memory, and consumes these, when it fits 64
    bits; its overflow test lets some larger numbers pass, with a wrong value. *)
Theorem number_parsing_correct t w str v :
  0 < t <= w ->
  (forall sgn, (strToInteger sgn t w str).1 = Some v <->
     exists neg ds tail, decimal_text isspace (c_str str) neg ds tail /\ spaces tail /\
       (sgn = false -> neg = false) /\ v = with_sign neg (digits_value ds) /\ (if sgn then in_s t v else in_u t v)) /\
  ((own_strToLongLong str).1 = Some v -> (strToLongLong str).1 = Some v) /\
  ((own_strToULongLong str).1 = Some v -> (strToULongLong str).1 = Some v) /\
  (11 ∉ str -> 12 ∉ str -> (strToLongLong str).1 = Some v -> (own_strToLongLong str).1 = Some v) /\
  (11 ∉ str -> 12 ∉ str -> (strToULongLong str).1 = Some v -> (own_strToULongLong str).1 = Some v) /\
  (forall ds tail, ds <> [] -> Forall (fun ch => charIsDigit ch = true) ds -> (forall c r, tail = c :: r -> charIsDigit c = false) ->
     digits_value ds < 2 ^ 64 -> parseNumber (ds ++ tail) = (length ds, Some (digits_value ds), tail)) /\
  parseNumber (lit "30000000000000000000") = (20%nat, Some 11553255926290448384, []).
Proof.
  intros Ht. split; [intros sgn; by apply strToInteger_iff|].
  assert (Hup : forall ch, ch ∈ c_str str -> charIsSpace ch = true -> isspace ch = true).
  { intros ch _. unfold charIsSpace, isspace. zcases; simpl; try done; lia. }
  assert (Hdown : 11 ∉ str -> 12 ∉ str -> forall ch, ch ∈ c_str str -> isspace ch = true -> charIsSpace ch = true).
  { intros H1 H2 ch Hc. apply elem_of_c_str in Hc. assert (ch <> 11) by congruence. assert (ch <> 12) by congruence.
    unfold charIsSpace, isspace. zcases; simpl; try done; lia. }
  pose proof (strToLong_iff 64 str v ltac:(lia)) as L. pose proof (strToULong_iff 64 str v ltac:(lia)) as U.
  fold (strToLongLong str) in L. fold (strToULongLong str) in U.
  rewrite L, U, own_strToLongLong_iff, own_strToULongLong_iff. clear L U.
  split; [intros (n & ds & tl & H & R); exists n, ds, tl; split; [by apply (decimal_space_mono charIsSpace)|done]|].
  split; [intros (n & ds & tl & H & R); exists n, ds, tl; split; [by apply (decimal_space_mono charIsSpace)|done]|].
  split; [intros H1 H2 (n & ds & tl & H & R); exists n, ds, tl; split; [apply (decimal_space_mono isspace); auto|done]|].
  split; [intros H1 H2 (n & ds & tl & H & R); exists n, ds, tl; split; [apply (decimal_space_mono isspace); auto|done]|].
  split; [|by vm_compute]. intros ds tail Hne Hds Htl Hlt. unfold parseNumber.
  rewrite parseNumber_loop_spec by (done || lia). simpl. rewrite (proj2 (Nat.ltb_lt _ _)) by (destruct ds; simpl; [done|lia]).
  by rewrite drop_app_length.
Qed.

Lemma number_parsing_correct_witness :
  (strToInteger true 32 64 (lit " -2147483648 ")).1 = Some (-2147483648) /\
  (strToInteger true 32 64 (lit "2147483648")).1 = None /\
  (exists neg ds tail, decimal_text isspace (c_str (lit " -2147483648 ")) neg ds tail /\ -2147483648 = with_sign neg (digits_value ds)).
Proof.
  split; [by vm_compute|]. split; [by vm_compute|].
  destruct (number_parsing_correct 32 64 (lit " -2147483648 ") (-2147483648) ltac:(lia)) as [H _].
  destruct (proj1 (H true)) as (neg & ds & tail & H1 & _ & _ & H2 & _); [by vm_compute|]. exists neg, ds, tail. done.
Defined.

(** String functions.  strTrim removes white space at both ends and nothing
    else; strSplit succeeds exactly when the separator occurs, and splits at its
    first occurrence, where strFirst and strRemove agree with it; strNthWord and
    strNthWordRest yield the i-th word and the text from there on, empty when
    there are fewer words; strCaseCompare is a total order on strings up to the
    case of ASCII letters; parseLiteral consumes the literal exactly when the
    memory starts with it. *)
Theorem string_functions_correct s sep :
  (exists l r, s = l ++ strTrim s ++ r /\ spaces l /\ spaces r /\ tight (strTrim s)) /\
  (forall l r, strSplit s sep = Some (l, r) <-> first_occurrence s sep l r) /\
  (strSplit s sep = None <-> forall l r, s <> l ++ sep ++ r) /\
  (match strSplit s sep with
   | Some (l, r) => strFirst s sep = l /\ strRemove s sep = (true, r)
   | None => strFirst s sep = s /\ strRemove s sep = (false, s)
   end) /\
  (exists ws, words s ws /\ forall i, strNthWord s i = nth i ws [] /\ words (strNthWordRest s i) (drop i ws)) /\
  (forall a b c, bytes a -> bytes b ->
     (strCaseCompare a b = 0 <-> strUCase a = strUCase b) /\ (strCaseCompare a b < 0 <-> 0 < strCaseCompare b a) /\
     (strCaseCompare a b < 0 -> strCaseCompare b c < 0 -> strCaseCompare a c < 0)) /\
  parseLiteral s sep = (if bool_decide (take (length sep) s = sep) then (length sep, drop (length sep) s) else (0%nat, s)).
Proof.
  split; [apply strTrim_spec|]. split; [intros; apply strSplit_spec|].
  split; [rewrite <- find_none; unfold strSplit; by destruct (find s sep)|].
  split; [unfold strSplit, strFirst, strRemove; by destruct (find s sep)|].
  split; [destruct (words_exist s) as [ws Hws]; exists ws; split; [done|]; intros i; split; [by apply words_strNthWord|]|].
  { rewrite strNthWordRest_iter. by apply words_iter. }
  split; [|unfold parseLiteral; rewrite parseLiteral_loop_spec, drop_0; by case_bool_decide].
  intros a b c Ha Hb. rewrite <- (case_key_eq a b), <- lex_eq, <- strCaseCompare_lex, Z.compare_eq_iff by done.
  split; [done|]. rewrite <- !Z.compare_lt_iff, (Z.compare_antisym (strCaseCompare b a) 0), !strCaseCompare_lex.
  split; [|apply lex_trans]. rewrite (lex_antisym (case_key a) (case_key b)). by destruct (lex _ _).
Qed.
