(* ===== verification/Format.v ===== *)
(** * Format

    src/afl/string/format.cpp, formatstate.cpp and formattraits.cpp: the
    type-safe replacement for sprintf.  An argument is, as in the code, a function
    that formats a value under the control of a FormatState, which it can also
    change (conditions).  The formatters of integers, strings and pointers are
    modelled; the one for floating-point numbers can be any such function. *)

From Stdlib Require Import ZArith Lia Bool String Ascii.
From stdpp Require Import base tactics numbers option list sets.
From S2P Require Import Prelude Bits Encodings Strings.

Local Open Scope Z_scope.
Local Open Scope afl_scope.

(** ** FormatState *)

(** [enum Flag], [enum Condition] *)
Definition AlternateFlag : Z := 0.
Definition ZeroPadFlag : Z := 1.
Definition LeftJustFlag : Z := 2.
Definition BlankFlag : Z := 3.
Definition SignFlag : Z := 4.
Definition GroupFlag : Z := 5.
Definition PrecisionFlag : Z := 6.
Definition ZeroCondition : Z := 0.
Definition OneCondition : Z := 1.

Record FormatState := mkFormatState {
  m_code : Z;
  m_width : Z;
  m_precision : Z;
  m_flags : Z;
  m_conditions : Z;
}.

Definition FormatState_new : FormatState := mkFormatState 0 0 0 0 0.

Definition clear (st : FormatState) : FormatState := mkFormatState 0 0 0 (SmallSet.clear (m_flags st)) (m_conditions st).
Definition setCode (code : Z) (st : FormatState) : FormatState :=
  mkFormatState code (m_width st) (m_precision st) (m_flags st) (m_conditions st).
Definition setWidth (width : Z) (st : FormatState) : FormatState :=
  mkFormatState (m_code st) width (m_precision st) (m_flags st) (m_conditions st).
Definition setPrecision (prec : Z) (st : FormatState) : FormatState :=
  mkFormatState (m_code st) (m_width st) prec (m_flags st) (m_conditions st).
Definition hasFlag (which : Z) (st : FormatState) : bool := SmallSet.contains 32 (m_flags st) which.
Definition setFlag (which : Z) (st : FormatState) : FormatState :=
  mkFormatState (m_code st) (m_width st) (m_precision st) (SmallSet.add 32 (m_flags st) which) (m_conditions st).
Definition clearFlags (st : FormatState) : FormatState :=
  mkFormatState (m_code st) (m_width st) (m_precision st) (SmallSet.clear (m_flags st)) (m_conditions st).
Definition hasCondition (which : Z) (st : FormatState) : bool := SmallSet.contains 32 (m_conditions st) which.
Definition setCondition (which : Z) (value : bool) (st : FormatState) : FormatState :=
  mkFormatState (m_code st) (m_width st) (m_precision st) (m_flags st)
    (if value then SmallSet.add 32 (m_conditions st) which else SmallSet.remove 32 (m_conditions st) which).

(** [setNumberConditions]: the loop that finds a digit other than 0 ... *)
Definition skips_to_digit (c : Z) : bool := negb (c =? 0) && negb ((49 <=? c) && (c <=? 57)).
(** ... and the loop over the rest: last digit, number of digits *)
Fixpoint count_digits (s : list Z) (value digits : Z) : Z * Z :=
  match s with
  | c :: s' =>
      if c =? 0 then (value, digits)
      else if (48 <=? c) && (c <=? 57) then count_digits s' (c - 48) (digits + 1)
      else count_digits s' value digits
  | [] => (value, digits)
  end.

Definition setNumberConditions (data : list Z) (st : FormatState) : FormatState :=
  let st := setCondition OneCondition false (setCondition ZeroCondition false st) in
  let '(value, digits) := count_digits (drop (skip_while skips_to_digit data) data) 0 0 in
  if digits =? 0 then setCondition ZeroCondition true st
  else if (digits =? 1) && (value =? 1) then setCondition OneCondition true st
  else st.

(** ** Formatters (formattraits.cpp) *)

(** [uintmax_t], [intmax_t] *)
Definition UINTMAX_BITS : Z := 64.

Definition Arg := FormatState -> list Z * FormatState.

(** [formatUnsigned]: the loop that fills the buffer from its end *)
Fixpoint digits_loop (fuel : nat) (c base : Z) (alpha : list Z) (p : list Z) : list Z :=
  match fuel with
  | O => p
  | S fuel' => if c =? 0 then p else digits_loop fuel' (c / base) base alpha (digit alpha (c mod base) :: p)
  end.

Definition base_of (typ : Z) : Z := if typ =? 111 then 8 else if (typ =? 120) || (typ =? 88) then 16 else 10.
Definition alpha_of (typ : Z) : list Z := if typ =? 88 then HEX_DIGITS_UPPER else HEX_DIGITS_LOWER.

(** The buffer has room for 64 digits. *)
Definition formatUnsigned (c typ : Z) : list Z :=
  let p := digits_loop 64 c (base_of typ) (alpha_of typ) [] in
  if bool_decide (p = []) then [48] else p.

(** [addGrouping] *)
Fixpoint addGrouping (fuel : nat) (s : list Z) (start : nat) : list Z :=
  match fuel with
  | O => s
  | S fuel' =>
      if (3 <? start)%nat
      then let start := (start - 3)%nat in addGrouping fuel' (take start s ++ [44] ++ drop start s) start
      else s
  end.

(** [s.insert(0, n - s.length(), c)] when the text is shorter than [n] *)
Definition pad_left (n c : Z) (s : list Z) : list Z := replicate (Z.to_nat (n - Z.of_nat (length s))) c ++ s.

(** [FormatUnsigned::format] *)
Definition FormatUnsigned (v : Z) : Arg := fun state =>
  let state := setCondition ZeroCondition (v =? 0) state in
  let state := setCondition OneCondition (v =? 1) state in
  if m_code state =? 99 then ([u8 v], state)
  else
    let value := formatUnsigned v (m_code state) in
    let value := if hasFlag PrecisionFlag state && (Z.of_nat (length value) <? m_precision state)
                 then pad_left (m_precision state) 48 value else value in
    let value := if hasFlag GroupFlag state then addGrouping (length value) value (length value) else value in
    let value := if hasFlag AlternateFlag state
                 then if m_code state =? 111 then (if byte_at value 0 =? 48 then value else 48 :: value)
                      else if m_code state =? 120 then lit "0x" ++ value
                      else if m_code state =? 88 then lit "0X" ++ value
                      else value
                 else value in
    let wi := m_width state in
    let wi := if (hasFlag BlankFlag state || hasFlag SignFlag state) && (0 <? wi) then wi - 1 else wi in
    let value := if (Z.of_nat (length value) <? wi) && hasFlag ZeroPadFlag state then pad_left wi 48 value else value in
    let value := if hasFlag SignFlag state then 43 :: value
                 else if hasFlag BlankFlag state then 32 :: value
                 else value in
    (value, state).

(** [FormatSigned::format] *)
Definition FormatSigned (v : Z) : Arg := fun state =>
  if (negb (m_code state =? 100) && negb (m_code state =? 105)) || (0 <=? v)
  then FormatUnsigned (wrap UINTMAX_BITS v) state
  else
    let state := setFlag SignFlag state in
    let '(result, state) := FormatUnsigned (wrap UINTMAX_BITS (- v)) state in
    (match find result [43] with
     | Some t => <[ t := 45 ]> result
     | None => result
     end, state).

Definition is_number_code (st : FormatState) : bool := (m_code st =? 100) || (m_code st =? 105).

(** [formatToString(const String_t&)] *)
Definition FormatString (str : list Z) : Arg := fun state =>
  let state := if is_number_code state then setNumberConditions str state else state in
  (if hasFlag PrecisionFlag state && (m_precision state <? Z.of_nat (length str))
   then take (Z.to_nat (m_precision state)) str else str, state).

(** [formatToString] for pointers, with the address *)
Definition FormatPointer (p : Z) : Arg := fun state =>
  if p =? 0 then (lit "(nil)", state)
  else FormatUnsigned p (setCode 120 (setFlag AlternateFlag state)).

(** [formatToString] for C strings: address, and the bytes up to the null byte
    or, with a precision, at least that many of them *)
Definition FormatCString (p : Z) (mem : list Z) : Arg := fun state =>
  if m_code state =? 112 then FormatPointer p state
  else
    let result := if p =? 0 then lit "(nil)"
                  else if hasFlag PrecisionFlag state then c_str (take (Z.to_nat (m_precision state)) mem)
                  else c_str mem in
    (result, if is_number_code state then setNumberConditions result state else state).

(** ** Format *)

(** The loop over the flag characters: position, state and [show] *)
Fixpoint parse_flags (p : list Z) (state : FormatState) (show : bool) : list Z * FormatState * bool :=
  match p with
  | c :: p' =>
      if c =? 35 then parse_flags p' (setFlag AlternateFlag state) show
      else if c =? 48 then parse_flags p' (setFlag ZeroPadFlag state) show
      else if c =? 45 then parse_flags p' (setFlag LeftJustFlag state) show
      else if c =? 32 then parse_flags p' (setFlag BlankFlag state) show
      else if c =? 43 then parse_flags p' (setFlag SignFlag state) show
      else if c =? 39 then parse_flags p' (setFlag GroupFlag state) show
      else if c =? 33 then parse_flags p' state false
      else (p, state, show)
  | [] => (p, state, show)
  end.

(** The loops that read a width or precision *)
Fixpoint parse_size (p : list Z) (width : Z) : Z * list Z :=
  match p with
  | c :: p' => if (48 <=? c) && (c <=? 57) then parse_size p' (usize (10 * width + (c - 48))) else (width, p)
  | [] => (width, p)
  end.

Record placeholder := mkPlaceholder {
  ph_state : FormatState; ph_show : bool; ph_argIndex : Z; ph_width : Z; ph_rest : list Z;
}.

(** From the label "again" to the conversion character *)
Fixpoint parse_placeholder (fuel : nat) (p : list Z) (state : FormatState) (show : bool) (argIndex : Z) : placeholder :=
  let '(p, state, show) := parse_flags p state show in
  let '(width, p) := parse_size p 0 in
  let plain :=
    let state := setWidth width state in
    match p with
    | c :: p' =>
        if c =? 46
        then let '(prec, p) := parse_size p' 0 in
             mkPlaceholder (setFlag PrecisionFlag (setPrecision prec state)) show argIndex width p
        else mkPlaceholder state show argIndex width p
    | [] => mkPlaceholder state show argIndex width p
    end in
  match p, fuel with
  | c :: p', S fuel' => if c =? 36 then parse_placeholder fuel' p' (clearFlags (setWidth 0 state)) show width else plain
  | _, _ => plain
  end.

Record fmt := mkFmt { argIndex : Z; conditionState : Z; conditionLevel : Z; fstate : FormatState; result : list Z }.

(** Padding after the conversion *)
Definition postprocess (ph : placeholder) (state : FormatState) (here : list Z) : list Z :=
  if Z.of_nat (length here) <? ph_width ph
  then if hasFlag LeftJustFlag state
       then here ++ replicate (Z.to_nat (ph_width ph - Z.of_nat (length here))) 32
       else pad_left (ph_width ph) 32 here
  else here.

(** One placeholder, with the conversion character [c] *)
Definition convert (args : list Arg) (ph : placeholder) (c : Z) (f : fmt) : fmt :=
  let state := ph_state ph in
  let ai := ph_argIndex ph in
  if c =? 123 then
    let level := u32 (conditionLevel f + 1) in
    let cs := u32 (Z.shiftl (conditionState f) 1) in
    let show := if hasCondition (Z.land (ph_width ph) 31) state then negb (ph_show ph) else ph_show ph in
    mkFmt ai (if show then Z.lor cs 1 else cs) level state (result f)
  else if c =? 124 then
    mkFmt ai (if conditionLevel f =? 0 then conditionState f else Z.lxor (conditionState f) 1)
          (conditionLevel f) state (result f)
  else if c =? 125 then
    if conditionState f =? 0 then mkFmt ai (conditionState f) (conditionLevel f) state (result f)
    else mkFmt ai (Z.shiftr (conditionState f) 1) (u32 (conditionLevel f - 1)) state (result f)
  else if conditionState f =? 0 then
    let '(here, state, ai) :=
      if c =? 37 then ([c], state, ai)
      else if Z.of_nat (length args) <=? ai then (lit "<invalid>", state, ai)
      else match args !! Z.to_nat ai with
           | Some fn => let '(h, st) := fn (setCode c state) in (h, st, ai + 1)
           | None => (lit "<invalid>", state, ai)
           end in
    mkFmt ai (conditionState f) (conditionLevel f) state
          (if ph_show ph then result f ++ postprocess ph state here else result f)
  else mkFmt ai (conditionState f) (conditionLevel f) state (result f).

(** [while (const char *q = std::strchr(p, '%'))]; every round consumes characters of the format string. *)
Fixpoint format_loop (fuel : nat) (args : list Arg) (p : list Z) (f : fmt) : list Z :=
  match find p [37], fuel with
  | Some q, S fuel' =>
      let res := if conditionState f =? 0 then result f ++ take q p else result f in
      let ph := parse_placeholder (length p) (drop (S q) p) (clear (fstate f)) true (argIndex f) in
      match ph_rest ph with
      | [] => res
      | c :: p' => format_loop fuel' args p' (convert args ph c (mkFmt (argIndex f) (conditionState f) (conditionLevel f) (fstate f) res))
      end
  | _, _ => result f ++ p
  end.

(** [Format::operator String_t] *)
Definition Format (formatString : list Z) (args : list Arg) : list Z :=
  let p := c_str formatString in
  format_loop (length p) args p (mkFmt 0 0 0 FormatState_new []).

(** Text in a string. *)
Definition show_int (v : Z) : list Z := Format (lit "%d") [FormatSigned v].

Example format_ex1 : Format (lit "%d %1{item%|items%}") [FormatSigned 1] = lit "1 item". Proof. by vm_compute. Qed.
Example format_ex2 : Format (lit "%d %1{item%|items%}") [FormatSigned (-12)] = lit "-12 items". Proof. by vm_compute. Qed.
Example format_ex3 : Format (lit "<%08.3d|%-6s|%#x|%'d>") [FormatSigned (-7); FormatString (lit "ab"); FormatUnsigned 255; FormatUnsigned 1234567]
  = lit "<-0000007|ab    |0xff|1,234,567>". Proof. by vm_compute. Qed.
Example format_ex4 : Format (lit "%!d%1{one item%|%0$d items%}") [FormatSigned 5] = lit "5 items". Proof. by vm_compute. Qed.

(** ** Digits *)

Definition base_value (base : Z) (ds : list Z) : Z := fold_left (fun v d => base * v + getHexDigitValue d) ds 0.
Definition digit_of (base d : Z) : Prop := 0 <= getHexDigitValue d < base.

Lemma alpha_value typ i : 0 <= i < 16 -> getHexDigitValue (digit (alpha_of typ) i) = i.
Proof.
  intros Hi. unfold alpha_of. destruct (typ =? 88);
  assert (i = 0 \/ i = 1 \/ i = 2 \/ i = 3 \/ i = 4 \/ i = 5 \/ i = 6 \/ i = 7 \/ i = 8 \/ i = 9 \/ i = 10 \/ i = 11 \/ i = 12 \/ i = 13 \/ i = 14 \/ i = 15)
    as Hc by lia; repeat destruct Hc as [->|Hc]; subst; reflexivity.
Qed.

Lemma base_of_range typ : 8 <= base_of typ <= 16.
Proof. unfold base_of. destruct (typ =? 111); [lia|]. destruct (_ || _); lia. Qed.

Lemma digits_loop_spec fuel typ c p :
  0 <= c < base_of typ ^ Z.of_nat fuel ->
  exists ds, digits_loop fuel c (base_of typ) (alpha_of typ) p = ds ++ p /\ base_value (base_of typ) ds = c /\
    Forall (digit_of (base_of typ)) ds /\ (forall d r, ds = d :: r -> getHexDigitValue d <> 0).
Proof.
  pose proof (base_of_range typ) as Hb. revert c p. induction fuel as [|fuel IH]; intros c p Hc.
  - exists []. simpl in *. split; [done|]. split; [unfold base_value; simpl; lia|]. split; [constructor|done].
  - simpl. destruct (Z.eqb_spec c 0) as [->|Hne]; [exists []; split; [done|]; split; [done|]; split; [constructor|done]|].
    rewrite Nat2Z.inj_succ, Z.pow_succ_r in Hc by lia.
    assert (Hd : 0 <= c / base_of typ < base_of typ ^ Z.of_nat fuel)
      by (split; [apply Z.div_pos; lia|apply Z.div_lt_upper_bound; lia]).
    pose proof (Z.mod_pos_bound c (base_of typ) ltac:(lia)) as Hm.
    set (b := digit (alpha_of typ) (c mod base_of typ)).
    assert (Hbv : getHexDigitValue b = c mod base_of typ) by (apply alpha_value; lia).
    destruct (IH (c / base_of typ) (b :: p) Hd) as (ds & -> & Hv & Hf & Hh).
    exists (ds ++ [b]). rewrite <- app_assoc. split; [done|]. split; [|split].
    + unfold base_value in *. rewrite fold_left_app, Hv. simpl. rewrite Hbv. symmetry. apply Z.div_mod. lia.
    + apply Forall_app. split; [done|]. constructor; [|constructor]. unfold digit_of. lia.
    + intros d r. destruct ds as [|d' ds]; simpl; [|intros [= <- <-]; by eapply Hh].
      intros [= <- <-]. rewrite Hbv. unfold base_value in Hv. simpl in Hv.
      rewrite (Z.div_mod c (base_of typ)) in Hne by lia. lia.
Qed.

Lemma formatUnsigned_spec typ c : 0 <= c < 2 ^ 64 ->
  base_value (base_of typ) (formatUnsigned c typ) = c /\ Forall (digit_of (base_of typ)) (formatUnsigned c typ) /\
  formatUnsigned c typ <> [] /\ (forall d r, formatUnsigned c typ = d :: r -> getHexDigitValue d = 0 -> r = []).
Proof.
  intros Hc. pose proof (base_of_range typ).
  assert (Hlt : c < base_of typ ^ Z.of_nat 64).
  { apply Z.lt_le_trans with (2 ^ 64); [lia|]. apply Z.pow_le_mono_l. lia. }
  destruct (digits_loop_spec 64 typ c [] ltac:(lia)) as (ds & Hds & Hv & Hf & Hh).
  unfold formatUnsigned. rewrite Hds, app_nil_r. case_bool_decide as E.
  - subst ds. clear Hds Hlt. unfold base_value in Hv. cbn in Hv. subst c. split; [unfold base_value; cbn; lia|]. split; [|split; [done|by intros d r [= <- <-]]].
    constructor; [|constructor]. unfold digit_of. change (getHexDigitValue 48) with 0. lia.
  - split; [done|]. split; [done|]. split; [done|]. intros d r Hd Hz. by destruct (Hh d r Hd).
Qed.

Lemma digit_of_10 d : digit_of 10 d -> charIsDigit d = true /\ getHexDigitValue d = d - 48.
Proof. unfold digit_of, getHexDigitValue, charIsDigit. zcases; simpl; intros; try lia; split; lia || done. Qed.

Lemma base_value_10 ds : Forall (digit_of 10) ds -> base_value 10 ds = digits_value ds /\ Forall (fun c => charIsDigit c = true) ds.
Proof.
  intros H. unfold base_value, digits_value. split; [|eapply Forall_impl; [done|]; intros d Hd; by apply digit_of_10].
  generalize 0. induction H as [|d ds Hd _ IH]; intros v; simpl; [done|]. destruct (digit_of_10 d Hd) as [_ ->]. apply IH.
Qed.

(** The decimal digits of a number. *)
Definition dec (c : Z) : list Z := formatUnsigned c 100.

Lemma dec_spec c : 0 <= c < 2 ^ 64 ->
  digits_value (dec c) = c /\ Forall (fun d => charIsDigit d = true) (dec c) /\ dec c <> [].
Proof.
  intros Hc. destruct (formatUnsigned_spec 100 c Hc) as (H1 & H2 & H3 & _).
  change (base_of 100) with 10 in *. destruct (base_value_10 _ H2) as [E F]. unfold dec. rewrite <- E. done.
Qed.

(** The text of a signed number. *)
Definition int_text (v : Z) : list Z := if 0 <=? v then dec v else 45 :: dec (- v).

Lemma FormatUnsigned_plain v code conds :
  code <> 99 -> fst (FormatUnsigned v (mkFormatState code 0 0 0 conds)) = formatUnsigned v code.
Proof.
  intros Hc. unfold FormatUnsigned, setCondition. cbn [m_code m_width m_precision m_flags m_conditions].
  rewrite (proj2 (Z.eqb_neq code 99)) by done. unfold hasFlag. cbn [m_flags m_width m_code m_precision].
  change (SmallSet.contains 32 0 PrecisionFlag) with false. change (SmallSet.contains 32 0 GroupFlag) with false.
  change (SmallSet.contains 32 0 AlternateFlag) with false. change (SmallSet.contains 32 0 BlankFlag) with false.
  change (SmallSet.contains 32 0 SignFlag) with false. change (SmallSet.contains 32 0 ZeroPadFlag) with false.
  cbn [andb orb fst]. by rewrite andb_false_r.
Qed.

Lemma find_head c s : find (c :: s) [c] = Some 0%nat.
Proof. cbn [find length take]. by rewrite bool_decide_true. Qed.

Lemma FormatSigned_plain v conds : in_s 64 v -> v <> - 2 ^ 63 ->
  fst (FormatSigned v (mkFormatState 100 0 0 0 conds)) = int_text v.
Proof.
  unfold in_s. change (2 ^ (64 - 1)) with (2 ^ 63). intros Hv Hmin. unfold FormatSigned, int_text. cbn [m_code].
  change (negb (100 =? 100) && negb (100 =? 105)) with false. cbn [orb].
  destruct (Z.leb_spec 0 v).
  - rewrite wrap_small by (unfold UINTMAX_BITS; lia). by rewrite FormatUnsigned_plain.
  - rewrite wrap_small by (unfold UINTMAX_BITS; lia).
    change (setFlag SignFlag (mkFormatState 100 0 0 0 conds)) with (mkFormatState 100 0 0 16 conds).
    assert (E : fst (FormatUnsigned (- v) (mkFormatState 100 0 0 16 conds)) = 43 :: dec (- v)).
    { unfold FormatUnsigned, setCondition, hasFlag. cbn [m_code m_width m_precision m_flags m_conditions].
      change (100 =? 99) with false. cbn iota.
      change (SmallSet.contains 32 16 PrecisionFlag) with false. change (SmallSet.contains 32 16 GroupFlag) with false.
      change (SmallSet.contains 32 16 AlternateFlag) with false. change (SmallSet.contains 32 16 BlankFlag) with false.
      change (SmallSet.contains 32 16 SignFlag) with true. change (SmallSet.contains 32 16 ZeroPadFlag) with false.
      cbn [andb orb fst]. by rewrite andb_false_r. }
    destruct (FormatUnsigned (- v) _) as [r st]. cbn [fst] in E. subst r. by rewrite find_head.
Qed.

(** ** Templates *)

Lemma find_char_none c s : c ∉ s -> find s [c] = None.
Proof.
  induction s as [|x s IH]; intros H; [done|]. cbn [find length take].
  rewrite bool_decide_false by (intros [= ->]; set_solver). rewrite IH by set_solver. done.
Qed.

Lemma find_char_app c a s : c ∉ a -> find (a ++ c :: s) [c] = Some (length a).
Proof.
  induction a as [|x a IH]; intros H; [apply find_head|]. cbn [find length take app].
  rewrite bool_decide_false by (intros [= ->]; set_solver). rewrite IH by set_solver. done.
Qed.

(** Conversion characters without a meaning of their own. *)
Definition plain_code (c : Z) : bool :=
  forallb (fun x => negb (c =? x)) [0; 33; 35; 36; 37; 39; 43; 45; 46; 32; 123; 124; 125] && negb (charIsDigit c).

Lemma plain_code_spec c : plain_code c = true ->
  (forall x, x ∈ [0; 33; 35; 36; 37; 39; 43; 45; 46; 32; 123; 124; 125] -> (c =? x) = false) /\
  (c =? 48) = false /\ (48 <=? c) && (c <=? 57) = false.
Proof.
  intros H. apply andb_true_iff in H as [H Hd]. rewrite negb_true_iff in Hd. unfold charIsDigit in Hd.
  split; [|split; [zcases; try done; lia|done]]. rewrite forallb_forall in H. intros x Hx.
  apply list_elem_of_In in Hx. specialize (H x Hx). by apply negb_true_iff in H.
Qed.

Ltac not_special H := rewrite H by (repeat first [apply list_elem_of_here | apply list_elem_of_further]).

Lemma parse_placeholder_plain fuel c p conds ai :
  plain_code c = true ->
  parse_placeholder fuel (c :: p) (mkFormatState 0 0 0 0 conds) true ai = mkPlaceholder (mkFormatState 0 0 0 0 conds) true ai 0 (c :: p).
Proof.
  intros Hc. destruct (plain_code_spec c Hc) as (H & H0 & Hd).
  assert (Hfl : parse_flags (c :: p) (mkFormatState 0 0 0 0 conds) true = (c :: p, mkFormatState 0 0 0 0 conds, true)).
  { cbn [parse_flags]. rewrite H0. do 6 not_special H. done. }
  destruct fuel; unfold parse_placeholder; fold parse_placeholder; rewrite Hfl; cbn [parse_size]; rewrite Hd; do 2 try not_special H; done.
Qed.

Lemma convert_plain args c ai conds lvl (fn : Arg) st0 res p :
  plain_code c = true -> 0 <= ai -> args !! Z.to_nat ai = Some fn ->
  let st := mkFormatState c 0 0 0 conds in
  convert args (mkPlaceholder (mkFormatState 0 0 0 0 conds) true ai 0 p) c (mkFmt ai 0 lvl st0 res) =
  mkFmt (ai + 1) 0 lvl (snd (fn st)) (res ++ fst (fn st)).
Proof.
  intros Hp Hai Hfn st. pose proof (lookup_lt_Some _ _ _ Hfn) as Hlt. destruct (plain_code_spec c Hp) as (H & _).
  unfold convert. cbn [ph_state ph_show ph_argIndex ph_width conditionState conditionLevel result].
  do 4 not_special H. rewrite (proj2 (Z.leb_gt (Z.of_nat (length args)) ai)) by lia. unfold Arg in *. rewrite Hfn. change (0 =? 0) with true. cbn iota.
  change (setCode c (mkFormatState 0 0 0 0 conds)) with st. destruct (fn st) as [h s2]. cbn [fst snd].
  unfold postprocess. cbn [ph_width]. by rewrite (proj2 (Z.ltb_ge _ _)) by lia.
Qed.

Lemma format_loop_plain fuel args a c p ai lvl st res (fn : Arg) :
  37 ∉ a -> plain_code c = true -> 0 <= ai -> args !! Z.to_nat ai = Some fn ->
  let s := mkFormatState c 0 0 0 (m_conditions st) in
  format_loop (S fuel) args (a ++ 37 :: c :: p) (mkFmt ai 0 lvl st res) =
  format_loop fuel args p (mkFmt (ai + 1) 0 lvl (snd (fn s)) (res ++ a ++ fst (fn s))).
Proof.
  intros Ha Hc Hai Hfn s. cbn [format_loop]. rewrite find_char_app by done.
  cbn [conditionState argIndex fstate result conditionLevel]. change (0 =? 0) with true. cbn iota.
  rewrite take_app_length.
  replace (drop (S (length a)) (a ++ 37 :: c :: p)) with (c :: p)
    by (rewrite drop_app_ge by lia; replace (S (length a) - length a)%nat with 1%nat by lia; done).
  change (clear st) with (mkFormatState 0 0 0 0 (m_conditions st)).
  rewrite parse_placeholder_plain by done. cbn [ph_rest]. rewrite (convert_plain args c ai _ lvl fn) by done.
  by rewrite <- app_assoc.
Qed.

Lemma format_loop_end fuel args p f : 37 ∉ p -> format_loop fuel args p f = result f ++ p.
Proof. intros H. destruct fuel; cbn [format_loop]; by rewrite find_char_none. Qed.

(** A template with plain placeholders: texts, each followed by a placeholder
    with a conversion character, and the text that ends it. *)
Fixpoint template (pieces : list (list Z * Z)) (tail : list Z) : list Z :=
  match pieces with
  | [] => tail
  | (a, c) :: ps => a ++ 37 :: c :: template ps tail
  end.
Fixpoint expand (pieces : list (list Z * Z)) (args : list Arg) (conds : Z) (tail : list Z) : list Z :=
  match pieces, args with
  | (a, c) :: ps, fn :: fns =>
      let s := mkFormatState c 0 0 0 conds in
      a ++ fst (fn s) ++ expand ps fns (m_conditions (snd (fn s))) tail
  | _, _ => tail
  end.
Definition plain_piece (ac : list Z * Z) : Prop := (37 ∉ fst ac) /\ (0 ∉ fst ac) /\ plain_code (snd ac) = true.

Lemma format_template_loop pieces tail fuel pre args lvl st res :
  Forall plain_piece pieces -> 37 ∉ tail -> length args = length pieces -> (length (template pieces tail) <= fuel)%nat ->
  format_loop fuel (pre ++ args) (template pieces tail) (mkFmt (Z.of_nat (length pre)) 0 lvl st res) =
  res ++ expand pieces args (m_conditions st) tail.
Proof.
  intros Hp Ht. revert fuel pre args st res. induction Hp as [|[a c] ps (H1 & H2 & H3) Hps IH]; intros fuel pre args st res Hlen Hf.
  - destruct args; [|done]. cbn [template expand]. by apply format_loop_end.
  - destruct args as [|fn fns]; [done|]. cbn [template expand length] in *. rewrite length_app in Hf. cbn [length] in Hf.
    destruct fuel as [|fuel]; [lia|].
    rewrite (format_loop_plain fuel _ a c _ _ _ _ _ fn); [|done|done|lia|].
    2: { rewrite Nat2Z.id, lookup_app_r, Nat.sub_diag by lia. done. }
    replace (Z.of_nat (length pre) + 1) with (Z.of_nat (length (pre ++ [fn]))) by (rewrite length_app; simpl; lia).
    replace (pre ++ fn :: fns) with ((pre ++ [fn]) ++ fns) by (by rewrite <- app_assoc).
    rewrite IH by lia. by rewrite <- !app_assoc.
Qed.

Lemma c_str_id s : 0 ∉ s -> c_str s = s.
Proof.
  induction s as [|x s IH]; intros H; [done|]. cbn [c_str]. rewrite (proj2 (Z.eqb_neq x 0)) by set_solver.
  rewrite IH by set_solver. done.
Qed.

Lemma format_template pieces tail args :
  Forall plain_piece pieces -> 37 ∉ tail -> 0 ∉ tail -> length args = length pieces ->
  Format (template pieces tail) args = expand pieces args 0 tail.
Proof.
  intros Hp Ht H0 Hl. unfold Format. rewrite c_str_id; [by apply (format_template_loop pieces tail _ [] args 0 FormatState_new [])|].
  clear args Hl. induction Hp as [|[a c] ps (H1 & H2 & H3) Hps IH]; [done|]. cbn [template fst snd] in *.
  assert (c <> 0) by (intros ->; done). rewrite elem_of_app, !elem_of_cons. naive_solver.
Qed.

Lemma show_int_text v : in_s 64 v -> v <> - 2 ^ 63 -> show_int v = int_text v.
Proof.
  intros Hv Hm. unfold show_int. change (lit "%d") with (template [([], 100)] []).
  rewrite format_template by (done || set_solver || (repeat constructor; set_solver)).
  cbn [expand app]. rewrite FormatSigned_plain by done. by rewrite app_nil_r.
Qed.

Lemma int_text_decimal v : in_s 64 v ->
  decimal_text isspace (int_text v) (negb (0 <=? v)) (if 0 <=? v then dec v else dec (- v)) [] /\ c_str (int_text v) = int_text v /\
  with_sign (negb (0 <=? v)) (digits_value (if 0 <=? v then dec v else dec (- v))) = v.
Proof.
  unfold in_s. intros Hv. unfold int_text.
  destruct (dec_spec (Z.abs v) ltac:(lia)) as (H1 & H2 & H3).
  assert (Hz : 0 ∉ dec (Z.abs v)) by (intros H; rewrite Forall_forall in H2; by specialize (H2 _ H)).
  destruct (Z.leb_spec 0 v); simpl.
  - rewrite Z.abs_eq in * by lia. split; [|split; [by apply c_str_id|unfold with_sign; lia]].
    exists [], []. simpl. rewrite app_nil_r. split; [done|split; [constructor|split; [right; eauto|done]]].
  - rewrite Z.abs_neq in * by lia. split; [|split; [by rewrite c_str_id|unfold with_sign; lia]].
    exists [], [45]. simpl. rewrite app_nil_r. split; [done|split; [constructor|split; [left; eauto|done]]].
Qed.

(** Numbers written by Format are read back by strToInteger. *)
Lemma strToInteger_show_int v t w :
  0 < t <= w -> in_s t v -> in_s 64 v -> v <> - 2 ^ 63 -> (strToInteger true t w (show_int v)).1 = Some v.
Proof.
  intros Ht Hv H64 Hm. rewrite show_int_text by done. apply strToInteger_iff; [done|].
  destruct (int_text_decimal v H64) as (H1 & H2 & H3). rewrite H2.
  eexists _, _, []. split; [exact H1|]. split; [constructor|]. split; [done|]. by rewrite H3.
Qed.

(** The text so far is only ever extended. *)
Lemma convert_result args ph c ai cs lvl st res :
  convert args ph c (mkFmt ai cs lvl st res) =
  (let f := convert args ph c (mkFmt ai cs lvl st []) in
   mkFmt (argIndex f) (conditionState f) (conditionLevel f) (fstate f) (res ++ result f)).
Proof.
  unfold convert. cbn [conditionState conditionLevel result argIndex fstate].
  repeat case_match; cbn [argIndex conditionState conditionLevel fstate result]; rewrite ?app_nil_r; done.
Qed.

Lemma format_loop_result fuel args p ai cs lvl st res :
  format_loop fuel args p (mkFmt ai cs lvl st res) = res ++ format_loop fuel args p (mkFmt ai cs lvl st []).
Proof.
  revert p ai cs lvl st res. induction fuel as [|fuel IH]; intros p ai cs lvl st res; cbn [format_loop];
    destruct (find p [37]) as [q|]; cbn [result]; try done.
  cbn [conditionState argIndex fstate conditionLevel].
  set (ph := parse_placeholder _ _ _ _ _). set (txt := if cs =? 0 then take q p else []).
  assert (E : (if cs =? 0 then res ++ take q p else res) = res ++ txt)
    by (subst txt; destruct (cs =? 0); [done|by rewrite app_nil_r]).
  assert (E' : (if cs =? 0 then [] ++ take q p else []) = txt) by (by subst txt; destruct (cs =? 0)).
  rewrite E, E'. destruct (ph_rest ph) as [|c p']; [done|].
  rewrite (convert_result _ _ _ _ _ _ _ (res ++ txt)), (convert_result _ _ _ _ _ _ _ txt). cbv zeta.
  set (f := convert _ _ _ _). rewrite IH, (IH _ _ _ _ _ (txt ++ _)). by rewrite !app_assoc.
Qed.

(** Conditions after a number: 0 and 1 tell whether the number was zero or one. *)
Definition number_conditions (v : Z) : Z := if v =? 0 then 1 else if v =? 1 then 2 else 0.

Lemma FormatSigned_conditions v : in_s 64 v -> v <> - 2 ^ 63 ->
  m_conditions (snd (FormatSigned v (mkFormatState 100 0 0 0 0))) = number_conditions (Z.abs v).
Proof.
  unfold in_s. change (2 ^ (64 - 1)) with (2 ^ 63). intros Hv Hm.
  assert (Hu : forall u fl, m_conditions (snd (FormatUnsigned u (mkFormatState 100 0 0 fl 0))) = number_conditions u).
  { intros u fl. unfold FormatUnsigned, setCondition, number_conditions. cbn [m_code m_width m_precision m_flags m_conditions].
    change (100 =? 99) with false. cbn [snd m_conditions]. destruct (Z.eqb_spec u 0) as [->|]; [done|].
    by destruct (Z.eqb_spec u 1). }
  unfold FormatSigned. cbn [m_code]. change (negb (100 =? 100) && negb (100 =? 105)) with false. cbn [orb].
  destruct (Z.leb_spec 0 v).
  - rewrite wrap_small, Hu by (unfold UINTMAX_BITS; lia). f_equal. lia.
  - rewrite wrap_small by (unfold UINTMAX_BITS; lia).
    change (setFlag SignFlag (mkFormatState 100 0 0 0 0)) with (mkFormatState 100 0 0 16 0).
    specialize (Hu (- v) 16). destruct (FormatUnsigned (- v) _) as [r st]. cbn [snd] in *. rewrite Hu. f_equal. lia.
Qed.

Lemma format_04X (fn : Arg) :
  let st := mkFormatState 88 4 0 2 0 in
  Format (lit "%04X") [fn] = postprocess (mkPlaceholder (mkFormatState 0 4 0 2 0) true 0 4 [88]) (snd (fn st)) (fst (fn st)).
Proof.
  intros st. unfold Format. change (c_str (lit "%04X")) with [37; 48; 52; 88].
  change (length [37; 48; 52; 88]) with 4%nat. generalize 3%nat. intros fuel. cbn [format_loop].
  rewrite find_head. change (drop 1 [37; 48; 52; 88]) with [48; 52; 88].
  change (parse_placeholder _ _ _ _ _) with (mkPlaceholder (mkFormatState 0 4 0 2 0) true 0 4 [88]). cbn [ph_rest].
  rewrite format_loop_end by set_solver. rewrite app_nil_r. unfold convert.
  cbn [ph_argIndex ph_state ph_show ph_width conditionState conditionLevel]. change (88 =? 123) with false.
  change (88 =? 124) with false. change (88 =? 125) with false. change (88 =? 37) with false. change (0 =? 0) with true. cbn iota.
  change (Z.of_nat (length [fn]) <=? 0) with false. change ([fn] !! Z.to_nat 0) with (Some fn). cbn iota.
  change (setCode 88 _) with st. destruct (fn st) as [h s]. done.
Qed.

Lemma FormatUnsigned_04X v : Format (lit "%04X") [FormatUnsigned v] = pad_left 4 48 (formatUnsigned v 88).
Proof.
  rewrite format_04X. cbv zeta.
  set (st := mkFormatState 88 4 0 2 0). set (value := formatUnsigned v 88).
  assert (E : fst (FormatUnsigned v st) = pad_left 4 48 value).
  { unfold FormatUnsigned, setCondition, hasFlag, st. cbn [m_code m_width m_precision m_flags m_conditions].
    change (88 =? 99) with false. cbn iota.
    change (SmallSet.contains 32 2 PrecisionFlag) with false. change (SmallSet.contains 32 2 GroupFlag) with false.
    change (SmallSet.contains 32 2 AlternateFlag) with false. change (SmallSet.contains 32 2 BlankFlag) with false.
    change (SmallSet.contains 32 2 SignFlag) with false. change (SmallSet.contains 32 2 ZeroPadFlag) with true.
    cbn [andb orb fst]. fold value. destruct (Z.ltb_spec (Z.of_nat (length value)) 4); [done|].
    unfold pad_left. by replace (Z.to_nat _) with 0%nat by lia. }
  rewrite E. unfold postprocess. cbn [ph_width]. rewrite (proj2 (Z.ltb_ge _ _)); [done|].
  unfold pad_left. rewrite length_app, length_replicate. lia.
Qed.

Lemma base_value_ge base ds v : 0 <= base -> Forall (digit_of base) ds -> 0 <= v ->
  v * base ^ Z.of_nat (length ds) <= fold_left (fun v d => base * v + getHexDigitValue d) ds v.
Proof.
  intros Hb H. revert v. induction H as [|d ds Hd H IH]; intros v Hv; [simpl; lia|]. unfold digit_of in Hd.
  cbn [fold_left length]. rewrite Nat2Z.inj_succ, Z.pow_succ_r by lia.
  specialize (IH (base * v + getHexDigitValue d) ltac:(nia)). pose proof (Z.pow_nonneg base (Z.of_nat (length ds)) Hb). nia.
Qed.

Lemma base_value_zeroes base n ds : base_value base (replicate n 48 ++ ds) = base_value base ds.
Proof.
  unfold base_value. rewrite fold_left_app. f_equal. induction n as [|n IH]; [done|]. cbn [replicate fold_left].
  change (getHexDigitValue 48) with 0. replace (base * 0 + 0) with 0 by lia. done.
Qed.

Lemma hex4_spec v : 0 <= v < 2 ^ 16 ->
  let text := pad_left 4 48 (formatUnsigned v 88) in
  length text = 4%nat /\ base_value 16 text = v /\ Forall (digit_of 16) text.
Proof.
  intros Hv text. destruct (formatUnsigned_spec 88 v ltac:(lia)) as (H1 & H2 & H3 & H4).
  change (base_of 88) with 16 in *. set (ds := formatUnsigned v 88) in *.
  assert (Hl : (length ds <= 4)%nat).
  { destruct ds as [|d r]; [simpl; lia|]. destruct (decide (getHexDigitValue d = 0)) as [E|E]; [rewrite (H4 d r) by done; simpl; lia|].
    apply Forall_cons in H2 as [Hd Hr]. unfold digit_of in Hd.
    pose proof (base_value_ge 16 r (getHexDigitValue d) ltac:(lia) Hr ltac:(lia)) as Hge.
    unfold base_value in H1. cbn [fold_left] in H1. replace (16 * 0 + getHexDigitValue d) with (getHexDigitValue d) in H1 by lia.
    cbn [length]. destruct (decide (length r <= 3)%nat); [lia|].
    assert (16 ^ 4 <= 16 ^ Z.of_nat (length r)) by (apply Z.pow_le_mono_r; lia). nia. }
  subst text. unfold pad_left. split; [rewrite length_app, length_replicate; lia|]. split; [by rewrite base_value_zeroes|].
  apply Forall_app. split; [|done]. apply Forall_replicate. unfold digit_of. change (getHexDigitValue 48) with 0. lia.
Qed.

Lemma format_loop_conditions fuel args p ai cs lvl st res :
  format_loop fuel args p (mkFmt ai cs lvl st res) =
  format_loop fuel args p (mkFmt ai cs lvl (mkFormatState 0 0 0 0 (m_conditions st)) res).
Proof. destruct fuel; reflexivity. Qed.

Lemma format_plural v : in_s 64 v -> v <> - 2 ^ 63 ->
  Format (lit "%d %1{item%|items%}") [FormatSigned v] =
  int_text v ++ lit " " ++ (if Z.abs v =? 1 then lit "item" else lit "items").
Proof.
  intros Hv Hm. unfold Format.
  change (c_str (lit "%d %1{item%|items%}")) with ([] ++ 37 :: 100 :: lit " %1{item%|items%}").
  change (length _) with 19%nat.
  rewrite (format_loop_plain 18 _ [] 100 _ 0 0 FormatState_new [] (FormatSigned v)) by (done || lia || set_solver).
  rewrite format_loop_result, format_loop_conditions. cbn [app m_conditions FormatState_new].
  rewrite FormatSigned_plain, FormatSigned_conditions by done. f_equal. unfold number_conditions.
  destruct (Z.eqb_spec (Z.abs v) 0) as [E|E], (Z.eqb_spec (Z.abs v) 1) as [E'|E']; try lia; by vm_compute.
Qed.

(** ** Flags, width and precision *)

(** Digits in groups of three from the right, separated by commas *)
Fixpoint grouped_rev (l : list Z) : list Z :=
  match l with
  | a :: b :: c :: ((_ :: _) as r) => a :: b :: c :: 44 :: grouped_rev r
  | _ => l
  end.
Definition grouped (s : list Z) : list Z := reverse (grouped_rev (reverse s)).

Lemma grouped_snoc a x y z : a <> [] -> grouped (a ++ [x; y; z]) = grouped a ++ [44; x; y; z].
Proof.
  intros Ha. unfold grouped. rewrite reverse_app. change (reverse [x; y; z]) with [z; y; x].
  destruct (reverse a) as [|c r] eqn:E; [by apply (f_equal reverse) in E; rewrite reverse_involutive in E|].
  change (grouped_rev ([z; y; x] ++ c :: r)) with (z :: y :: x :: 44 :: grouped_rev (c :: r)).
  by rewrite !reverse_cons, <- !app_assoc.
Qed.

Lemma addGrouping_app fuel a b : (length a <= fuel)%nat -> addGrouping fuel (a ++ b) (length a) = grouped a ++ b.
Proof.
  revert a b. induction fuel as [|fuel IH]; intros a b Hf; [by destruct a; [|cbn in Hf; lia]|].
  cbn [addGrouping]. destruct (Nat.ltb_spec 3 (length a)) as [H|H].
  - set (n := (length a - 3)%nat).
    assert (HD : exists x y z, drop n a = [x; y; z]).
    { pose proof (length_drop a n) as HL. destruct (drop n a) as [|x [|y [|z [|w r]]]]; cbn [length] in HL; try lia. by exists x, y, z. }
    destruct HD as (x & y & z & HD). cbv zeta.
    assert (Hn : length (take n a) = n) by (rewrite length_take; lia).
    rewrite take_app_le, drop_app_le, HD by lia.
    transitivity (grouped (take n a ++ [x; y; z]) ++ b); [|by rewrite <- HD, take_drop].
    rewrite grouped_snoc by (intros E; rewrite E in Hn; cbn in Hn; lia).
    rewrite <- Hn at 2. rewrite IH by lia. by rewrite <- app_assoc.
  - assert (HG : grouped a = a); [|by rewrite HG]. destruct a as [|x [|y [|z [|w r]]]]; try done. cbn [length] in H. lia.
Qed.
Lemma addGrouping_spec s : addGrouping (length s) s (length s) = grouped s.
Proof. rewrite <- (app_nil_r s) at 2. by rewrite addGrouping_app, app_nil_r. Qed.

(** A placeholder: flag characters, width, precision, conversion character *)
Record directive := mkDirective { d_flags : list Z; d_width : Z; d_prec : option Z; d_code : Z }.

(** The characters # 0 - blank + ' with the flags they set; ! hides the value *)
Definition flag_table : list (Z * Z) :=
  [(35, AlternateFlag); (48, ZeroPadFlag); (45, LeftJustFlag); (32, BlankFlag); (43, SignFlag); (39, GroupFlag)].
Definition flag_char (c : Z) : Prop := c = 33 \/ c ∈ flag_table.*1.
Definition has (d : directive) (c : Z) : bool := bool_decide (c ∈ d_flags d).

Definition directive_text (d : directive) : list Z :=
  d_flags d ++ (if d_width d =? 0 then [] else dec (d_width d)) ++
  (match d_prec d with Some p => 46 :: dec p | None => [] end) ++ [d_code d].
Definition directive_ok (d : directive) : Prop :=
  Forall flag_char (d_flags d) /\ 0 <= d_width d < 2 ^ 64 /\ (forall p, d_prec d = Some p -> 0 <= p < 2 ^ 64) /\
  plain_code (d_code d) = true.

(** The state that results from parsing it, less the conversion character *)
Definition flag_state (c : Z) (st : FormatState) : FormatState :=
  if c =? 35 then setFlag AlternateFlag st else if c =? 48 then setFlag ZeroPadFlag st
  else if c =? 45 then setFlag LeftJustFlag st else if c =? 32 then setFlag BlankFlag st
  else if c =? 43 then setFlag SignFlag st else if c =? 39 then setFlag GroupFlag st else st.
Definition directive_state (d : directive) (conds : Z) : FormatState :=
  let st := setWidth (d_width d) (fold_left (fun st c => flag_state c st) (d_flags d) (mkFormatState 0 0 0 0 conds)) in
  match d_prec d with Some p => setFlag PrecisionFlag (setPrecision p st) | None => st end.

Lemma parse_flags_text fl r st show : Forall flag_char fl ->
  (match r with c :: _ => ~ flag_char c | [] => True end) ->
  parse_flags (fl ++ r) st show =
  (r, fold_left (fun st c => flag_state c st) fl st, if decide (33 ∈ fl) then false else show).
Proof.
  intros Hfl Hr. revert st show. induction Hfl as [|c fl Hc Hfl IH]; intros st show.
  - cbn [app fold_left]. rewrite decide_False by set_solver. destruct r as [|c r]; [done|]. cbn [parse_flags].
    assert (forall x, x ∈ [35; 48; 45; 32; 43; 39; 33] -> (c =? x) = false) as H.
    { intros x Hx. apply Z.eqb_neq. intros ->. apply Hr. unfold flag_char, flag_table. cbn. set_solver. }
    do 7 not_special H. done.
  - cbn [app fold_left]. change (flag_char c) with (c = 33 \/ c ∈ [35; 48; 45; 32; 43; 39]) in Hc.
    assert (Hs : forall c', c' <> 33 -> (if decide (33 ∈ c' :: fl) then false else show) = (if decide (33 ∈ fl) then false else show))
      by (intros c' H; repeat case_decide; set_solver).
    assert (Hx : (if decide (33 ∈ 33 :: fl) then false else show) = (if decide (33 ∈ fl) then false else false))
      by (repeat case_decide; set_solver).
    rewrite !elem_of_cons in Hc. destruct_or! Hc; try subst c; try (by apply not_elem_of_nil in Hc);
      cbn [parse_flags Z.eqb Pos.eqb]; rewrite IH, ?Hx, ?Hs by lia; done.
Qed.

Lemma parse_size_digits ds r v : Forall (fun d => charIsDigit d = true) ds ->
  (match r with c :: _ => charIsDigit c = false | [] => True end) ->
  parse_size (ds ++ r) (usize v) = (usize (fold_left (fun v d => 10 * v + (d - 48)) ds v), r).
Proof.
  intros Hds Hr. revert v. induction Hds as [|d ds Hd Hds IH]; intros v; cbn [app fold_left].
  - destruct r as [|c r]; [done|]. cbn [parse_size]. unfold charIsDigit in Hr. by rewrite Hr.
  - cbn [parse_size]. unfold charIsDigit in Hd. rewrite Hd, <- IH. f_equal. unfold usize, wrap.
    rewrite Z.add_mod, Z.mul_mod_idemp_r, <- Z.add_mod by (cbv; lia). done.
Qed.

Lemma parse_size_dec w r : 0 <= w < 2 ^ 64 -> (match r with c :: _ => charIsDigit c = false | [] => True end) ->
  parse_size (dec w ++ r) 0 = (w, r).
Proof.
  intros Hw Hr. destruct (dec_spec w Hw) as (H1 & H2 & _). change 0 with (usize 0) at 1.
  rewrite parse_size_digits by done. change (fold_left _ (dec w) 0) with (digits_value (dec w)). rewrite H1.
  f_equal. unfold usize. apply wrap_small. change SIZE_BITS with 64. lia.
Qed.

(** What parse_placeholder finds *)
Lemma plain_code_head c : plain_code c = true -> ~ flag_char c /\ charIsDigit c = false /\ c <> 36 /\ c <> 46.
Proof.
  intros H. destruct (plain_code_spec c H) as (H1 & H2 & H3).
  assert (Hn : forall x, x ∈ [0; 33; 35; 36; 37; 39; 43; 45; 46; 32; 123; 124; 125] -> c <> x) by (intros x Hx; by apply Z.eqb_neq, H1).
  apply Z.eqb_neq in H2. split; [|split; [done|split; apply Hn; set_solver]].
  unfold flag_char, flag_table. cbn. rewrite !elem_of_cons, elem_of_nil.
  intros Hc. destruct_or! Hc; try done; revert Hc; apply Hn; set_solver.
Qed.

Lemma dec_head w : 0 < w < 2 ^ 64 -> exists d r, dec w = d :: r /\ charIsDigit d = true /\ ~ flag_char d.
Proof.
  intros Hw. destruct (formatUnsigned_spec 100 w ltac:(lia)) as (H1 & H2 & H3 & H4). change (base_of 100) with 10 in *.
  fold (dec w) in *. destruct (dec w) as [|d r]; [done|]. exists d, r. split; [done|]. apply Forall_cons in H2 as [Hd _].
  destruct (digit_of_10 d Hd) as [H5 H6]. split; [done|]. unfold charIsDigit in H5.
  unfold flag_char, flag_table. cbn. rewrite !elem_of_cons, elem_of_nil. intros Hc. destruct_or! Hc; subst d; try done.
  rewrite (H4 48 r eq_refl eq_refl) in H1. cbn in H1. lia.
Qed.

(** The precision, with what follows *)
Definition prec_text (d : directive) (p : list Z) : list Z :=
  match d_prec d with Some n => 46 :: dec n | None => [] end ++ d_code d :: p.

Lemma prec_text_head d p : plain_code (d_code d) = true ->
  exists c r, prec_text d p = c :: r /\ ~ flag_char c /\ charIsDigit c = false /\ c <> 36.
Proof.
  intros Hc. unfold prec_text. destruct (d_prec d); eexists _, _; (split; [reflexivity|]).
  - split; [|done]. unfold flag_char, flag_table. cbn. rewrite !elem_of_cons, elem_of_nil. intros H. by destruct_or! H.
  - by destruct (plain_code_head _ Hc) as (H1 & H2 & H3 & _).
Qed.

Lemma parse_placeholder_directive fuel d p conds ai : directive_ok d ->
  parse_placeholder fuel (directive_text d ++ p) (mkFormatState 0 0 0 0 conds) true ai =
  mkPlaceholder (directive_state d conds) (negb (has d 33)) ai (d_width d) (d_code d :: p).
Proof.
  intros (Hfl & Hw & Hp & Hc).
  assert (E : directive_text d ++ p = d_flags d ++ (if d_width d =? 0 then [] else dec (d_width d)) ++ prec_text d p)
    by (unfold directive_text, prec_text; by rewrite <- !app_assoc).
  destruct (prec_text_head d p Hc) as (c & r & HT & Hf & Hd & Hx).
  set (st := fold_left (fun st c => flag_state c st) (d_flags d) (mkFormatState 0 0 0 0 conds)).
  assert (HF : parse_flags (directive_text d ++ p) (mkFormatState 0 0 0 0 conds) true =
    ((if d_width d =? 0 then [] else dec (d_width d)) ++ prec_text d p, st, negb (has d 33))).
  { rewrite E, parse_flags_text; [|done|].
    - unfold has. case_decide; [by rewrite bool_decide_true|by rewrite bool_decide_false].
    - destruct (Z.eqb_spec (d_width d) 0); [by rewrite HT|].
      destruct (dec_head (d_width d) ltac:(lia)) as (d0 & r0 & -> & _ & H). done. }
  assert (HS : parse_size ((if d_width d =? 0 then [] else dec (d_width d)) ++ prec_text d p) 0 = (d_width d, prec_text d p)).
  { destruct (Z.eqb_spec (d_width d) 0) as [->|]; [|apply parse_size_dec; [lia|by rewrite HT]].
    cbn [app]. rewrite HT. cbn [parse_size]. unfold charIsDigit in Hd. by rewrite Hd. }
  assert (HP : forall n, d_prec d = Some n -> parse_size (dec n ++ d_code d :: p) 0 = (n, d_code d :: p)).
  { intros n Hn. apply parse_size_dec; [by apply Hp|]. by apply plain_code_head. }
  destruct fuel; unfold parse_placeholder; fold parse_placeholder; rewrite HF, HS;
    [|rewrite HT at 1; rewrite (proj2 (Z.eqb_neq c 36)) by done];
    unfold directive_state; fold st; unfold prec_text in *; destruct (d_prec d) as [n|]; cbn [app].
  all: try (change (46 =? 36) with false; change (46 =? 46) with true; cbn iota; by rewrite (HP n eq_refl)).
  all: destruct (plain_code_head _ Hc) as (_ & _ & ? & ?); rewrite (proj2 (Z.eqb_neq (d_code d) 46)) by done; done.
Qed.

(** Blanks up to the width, behind the text with the flag - *)
Definition justify (d : directive) (text : list Z) : list Z :=
  let blanks := replicate (Z.to_nat (d_width d - Z.of_nat (length text))) 32 in
  if has d 45 then text ++ blanks else blanks ++ text.

Lemma convert_directive args d ai conds lvl (fn : Arg) st0 res p :
  plain_code (d_code d) = true -> 0 <= ai -> args !! Z.to_nat ai = Some fn ->
  let st := setCode (d_code d) (directive_state d conds) in
  let ph := mkPlaceholder (directive_state d conds) (negb (has d 33)) ai (d_width d) p in
  convert args ph (d_code d) (mkFmt ai 0 lvl st0 res) =
  mkFmt (ai + 1) 0 lvl (snd (fn st)) (res ++ (if has d 33 then [] else postprocess ph (snd (fn st)) (fst (fn st)))).
Proof.
  intros Hp Hai Hfn st ph. pose proof (lookup_lt_Some _ _ _ Hfn) as Hlt. destruct (plain_code_spec _ Hp) as (H & _).
  unfold convert. cbn [ph ph_state ph_show ph_argIndex ph_width conditionState conditionLevel result].
  do 4 not_special H. rewrite (proj2 (Z.leb_gt (Z.of_nat (length args)) ai)) by lia. unfold Arg in *. rewrite Hfn.
  change (0 =? 0) with true. cbn iota. fold st. destruct (fn st) as [h s2]. cbn [fst snd].
  destruct (has d 33); cbn [negb]; by rewrite ?app_nil_r.
Qed.

(** Flags *)
Lemma hasFlag_setFlag a b st : in_u 32 (m_flags st) -> 0 <= a < 32 -> 0 <= b < 32 ->
  hasFlag a (setFlag b st) = (a =? b) || hasFlag a st /\ in_u 32 (m_flags (setFlag b st)).
Proof.
  intros Hs Ha Hb. unfold hasFlag, setFlag. cbn [m_flags].
  split; [by apply (SmallSet.smallset_operations 32 ltac:(lia) _ 0)|].
  unfold SmallSet.add. apply in_u_lor; [lia|done|apply SmallSet.bit_in_u; lia].
Qed.

Ltac in_table := unfold AlternateFlag, ZeroPadFlag, LeftJustFlag, BlankFlag, SignFlag, GroupFlag; lia.

Lemma flag_state_spec c a st x : (x, a) ∈ flag_table -> flag_char c -> in_u 32 (m_flags st) ->
  hasFlag a (flag_state c st) = bool_decide (x = c) || hasFlag a st /\ in_u 32 (m_flags (flag_state c st)).
Proof.
  intros Hx Hc Hs.
  assert (H : forall b, 0 <= b < 32 -> hasFlag a (setFlag b st) = (a =? b) || hasFlag a st /\ in_u 32 (m_flags (setFlag b st))).
  { intros b Hb. apply hasFlag_setFlag; [done| |done]. unfold flag_table in Hx. rewrite !elem_of_cons in Hx.
    destruct_or! Hx; try (injection Hx as -> ->; in_table); by apply not_elem_of_nil in Hx. }
  change (flag_char c) with (c = 33 \/ c ∈ [35; 48; 45; 32; 43; 39]) in Hc. unfold flag_table in Hx. rewrite !elem_of_cons in Hc. rewrite !elem_of_cons in Hx.
  destruct_or! Hc; try subst c; try (by apply not_elem_of_nil in Hc);
  unfold flag_state; cbn [Z.eqb Pos.eqb]; try (rewrite (fun b Hb => proj1 (H b Hb)) by in_table).
  all: split; [|done || (apply H; in_table)].
  all: destruct_or! Hx; try (by apply not_elem_of_nil in Hx); injection Hx as -> ->; reflexivity.
Qed.

Lemma directive_flags fl st : Forall flag_char fl -> in_u 32 (m_flags st) ->
  let st' := fold_left (fun st c => flag_state c st) fl st in
  (forall x a, (x, a) ∈ flag_table -> hasFlag a st' = bool_decide (x ∈ fl) || hasFlag a st) /\ in_u 32 (m_flags st').
Proof.
  intros Hfl. revert st. induction Hfl as [|c fl Hc Hfl IH]; intros st Hs; cbn [fold_left]; [done|].
  assert (Hs' : in_u 32 (m_flags (flag_state c st))) by (by apply (flag_state_spec c AlternateFlag st 35); [apply list_elem_of_here|..]).
  destruct (IH _ Hs') as [H1 H2]. split; [|done]. intros x a Hx. rewrite (H1 x a Hx).
  rewrite (proj1 (flag_state_spec c a st x Hx Hc Hs)).
  repeat case_bool_decide; subst; rewrite ?elem_of_cons in *; destruct (hasFlag a st); cbn; naive_solver.
Qed.

(** The flags set nothing but themselves. *)
Lemma flag_state_fields c st : flag_char c -> in_u 32 (m_flags st) ->
  let st' := flag_state c st in
  m_precision st' = m_precision st /\ m_conditions st' = m_conditions st /\
  hasFlag PrecisionFlag st' = hasFlag PrecisionFlag st /\ in_u 32 (m_flags st').
Proof.
  intros Hc Hs st'. subst st'.
  assert (H : forall b, 0 <= b < 6 -> hasFlag PrecisionFlag (setFlag b st) = hasFlag PrecisionFlag st /\ in_u 32 (m_flags (setFlag b st))).
  { intros b Hb. destruct (hasFlag_setFlag PrecisionFlag b st Hs ltac:(unfold PrecisionFlag; lia) ltac:(lia)) as [-> H2].
    unfold PrecisionFlag at 1. by rewrite (proj2 (Z.eqb_neq 6 b)) by lia. }
  unfold flag_state. repeat case_match; (split; [done|]); (split; [done|]); first [done | apply H; in_table].
Qed.

Lemma directive_fields fl st : Forall flag_char fl -> in_u 32 (m_flags st) ->
  let st' := fold_left (fun st c => flag_state c st) fl st in
  m_precision st' = m_precision st /\ m_conditions st' = m_conditions st /\
  hasFlag PrecisionFlag st' = hasFlag PrecisionFlag st /\ in_u 32 (m_flags st').
Proof.
  intros Hfl. revert st. induction Hfl as [|c fl Hc Hfl IH]; intros st Hs; cbn [fold_left]; [done|].
  destruct (flag_state_fields c st Hc Hs) as (<- & <- & <- & H4). by apply IH.
Qed.

(** The state a conversion starts with *)
Definition start_state (d : directive) (conds : Z) : FormatState := setCode (d_code d) (directive_state d conds).

Lemma start_state_spec d conds : directive_ok d ->
  let st := start_state d conds in
  (forall x a, (x, a) ∈ flag_table -> hasFlag a st = has d x) /\
  hasFlag PrecisionFlag st = bool_decide (is_Some (d_prec d)) /\ m_precision st = default 0 (d_prec d) /\
  m_width st = d_width d /\ m_code st = d_code d /\ m_conditions st = conds /\ in_u 32 (m_flags st).
Proof.
  intros (Hfl & _ & _ & _) st. set (st0 := mkFormatState 0 0 0 0 conds).
  assert (H0 : in_u 32 (m_flags st0)) by (cbv; done).
  destruct (directive_flags _ st0 Hfl H0) as (H1 & _). destruct (directive_fields _ st0 Hfl H0) as (H2 & H3 & H4 & H5).
  subst st. unfold start_state, directive_state. fold st0.
  set (s1 := fold_left (fun st c => flag_state c st) (d_flags d) st0) in *.
  assert (HF : forall x a, (x, a) ∈ flag_table -> hasFlag a s1 = has d x).
  { intros x a Hx. rewrite (H1 x a Hx). unfold has. change (hasFlag a st0) with (negb (Z.land 0 (SmallSet.bit 32 a) =? 0)).
    by rewrite Z.land_0_l, orb_false_r. }
  destruct (d_prec d) as [p|]; cbn [default].
  - set (s2 := setPrecision p (setWidth (d_width d) s1)).
    split; [|split; [|done || (split; [done|]; split; [done|]; split; [done|]; split; [done|])]].
    + intros x a Hx. rewrite <- (HF x a Hx).
      destruct (hasFlag_setFlag a PrecisionFlag s2 H5) as [E _].
      * unfold flag_table in Hx. rewrite !elem_of_cons in Hx. destruct_or! Hx; try (by apply not_elem_of_nil in Hx); injection Hx as -> ->; in_table.
      * unfold PrecisionFlag. lia.
      * change (hasFlag a (setCode _ _)) with (hasFlag a (setFlag PrecisionFlag s2)). rewrite E.
        unfold flag_table in Hx. rewrite !elem_of_cons in Hx. destruct_or! Hx; try (by apply not_elem_of_nil in Hx); injection Hx as -> ->; done.
    + destruct (hasFlag_setFlag PrecisionFlag PrecisionFlag s2 H5) as [E _]; [unfold PrecisionFlag; lia..|].
      change (hasFlag PrecisionFlag (setCode _ _)) with (hasFlag PrecisionFlag (setFlag PrecisionFlag s2)). rewrite E.
      by rewrite bool_decide_true.
    + apply (hasFlag_setFlag 0 PrecisionFlag s2 H5); unfold PrecisionFlag; lia.
  - split; [done|]. split; [by rewrite bool_decide_false by (by intros [])|]. done.
Qed.

(** The text of a number: a sign, with the flag 0 zeroes up to the width, with
    the flag # a prefix, and the digits, with zeroes up to the precision and in
    groups with the flag ' *)
Definition sign_text (d : directive) (neg : bool) : list Z :=
  if neg then [45] else if has d 43 then [43] else if has d 32 then [32] else [].
Definition digits_text (d : directive) (v : Z) : list Z :=
  let ds := formatUnsigned v (d_code d) in
  let ds := replicate (Z.to_nat (default 0 (d_prec d) - Z.of_nat (length ds))) 48 ++ ds in
  if has d 39 then grouped ds else ds.
Definition prefixed (d : directive) (ds : list Z) : list Z :=
  if negb (has d 35) then ds
  else if d_code d =? 111 then (if byte_at ds 0 =? 48 then ds else 48 :: ds)
  else if d_code d =? 120 then lit "0x" ++ ds
  else if d_code d =? 88 then lit "0X" ++ ds
  else ds.
Definition number_text (d : directive) (neg : bool) (v : Z) : list Z :=
  let sign := sign_text d neg in
  let body := prefixed d (digits_text d v) in
  let zeroes := if has d 48 then replicate (Z.to_nat (d_width d - Z.of_nat (length sign + length body))) 48 else [] in
  sign ++ zeroes ++ body.

(** A state that holds what a directive says, but for the sign *)
Definition holds_directive (d : directive) (st : FormatState) : Prop :=
  (forall x a, (x, a) ∈ flag_table -> a <> SignFlag -> hasFlag a st = has d x) /\
  hasFlag PrecisionFlag st = bool_decide (is_Some (d_prec d)) /\ m_precision st = default 0 (d_prec d) /\
  m_width st = d_width d /\ m_code st = d_code d.

Lemma zero_pad_at_least (b : bool) n s :
  (if (Z.of_nat (length s) <? n) && b then pad_left n 48 s else s) =
  (if b then replicate (Z.to_nat (n - Z.of_nat (length s))) 48 else []) ++ s.
Proof.
  destruct b; rewrite ?andb_false_r, ?andb_true_r; [|done]. unfold pad_left. destruct (Z.ltb_spec (Z.of_nat (length s)) n); [done|].
  by replace (Z.to_nat _) with 0%nat by lia.
Qed.

Lemma FormatUnsigned_text d st v : holds_directive d st -> d_code d <> 99 -> 0 <= d_width d ->
  let sign := if hasFlag SignFlag st then [43] else if has d 32 then [32] else [] in
  let body := prefixed d (digits_text d v) in
  fst (FormatUnsigned v st) =
    sign ++ (if has d 48 then replicate (Z.to_nat (d_width d - Z.of_nat (length sign + length body))) 48 else []) ++ body /\
  m_flags (snd (FormatUnsigned v st)) = m_flags st.
Proof.
  intros (HF & HP & Hp & Hw & Hc) Hne Hw0 sign body.
  assert (H0 : hasFlag AlternateFlag st = has d 35) by (apply (HF 35); [apply list_elem_of_here|done]).
  assert (H1 : hasFlag ZeroPadFlag st = has d 48) by (apply (HF 48); [set_solver|done]).
  assert (H2 : hasFlag BlankFlag st = has d 32) by (apply (HF 32); [set_solver|done]).
  assert (H3 : hasFlag GroupFlag st = has d 39) by (apply (HF 39); [set_solver|done]).
  unfold FormatUnsigned. cbv zeta. unfold hasFlag, setCondition. cbn [m_code m_width m_precision m_flags m_conditions].
  fold (hasFlag PrecisionFlag st) (hasFlag GroupFlag st) (hasFlag AlternateFlag st) (hasFlag BlankFlag st) (hasFlag SignFlag st) (hasFlag ZeroPadFlag st).
  rewrite Hc, (proj2 (Z.eqb_neq _ _) Hne), H0, H1, H2, H3, HP, Hp, Hw. cbn [fst snd m_flags]. split; [|done].
  assert (HB : (if bool_decide (is_Some (d_prec d)) && (Z.of_nat (length (formatUnsigned v (d_code d))) <? default 0 (d_prec d))
                then pad_left (default 0 (d_prec d)) 48 (formatUnsigned v (d_code d)) else formatUnsigned v (d_code d)) =
               replicate (Z.to_nat (default 0 (d_prec d) - Z.of_nat (length (formatUnsigned v (d_code d))))) 48 ++ formatUnsigned v (d_code d)).
  { rewrite andb_comm, zero_pad_at_least. destruct (d_prec d) as [p|]; cbn [default]; [by rewrite bool_decide_true|].
    rewrite bool_decide_false by (by intros []). by replace (Z.to_nat _) with 0%nat by lia. }
  rewrite HB, addGrouping_spec. fold (digits_text d v).
  set (whole := if has d 35 then _ else _).
  assert (HW : whole = body) by (subst whole body; unfold prefixed; by destruct (has d 35)).
  rewrite HW, zero_pad_at_least. subst sign.
  assert (HZ : forall n : nat, (n <= 1)%nat ->
     Z.to_nat ((if bool_decide (n = 1%nat) && (0 <? d_width d) then d_width d - 1 else d_width d) - Z.of_nat (length body)) =
     Z.to_nat (d_width d - Z.of_nat (n + length body))).
  { intros n Hn. destruct (decide (n = 1%nat)) as [->|E]; [rewrite bool_decide_true by done; cbn [andb]|rewrite bool_decide_false by done; cbn [andb]; replace n with 0%nat by lia; lia]. destruct (Z.ltb_spec 0 (d_width d)); lia. }
  destruct (hasFlag SignFlag st), (has d 32); cbn [orb app length].
  1-3: by rewrite <- (HZ 1%nat) by lia.
  by rewrite <- (HZ 0%nat) by lia.
Qed.

(** Formatting does not move the text to the other side. *)
Definition keeps_side (fn : Arg) : Prop := forall st, in_u 32 (m_flags st) -> hasFlag LeftJustFlag (snd (fn st)) = hasFlag LeftJustFlag st.

Lemma FormatUnsigned_flags v st : m_flags (snd (FormatUnsigned v st)) = m_flags st.
Proof. unfold FormatUnsigned. cbv zeta. by destruct (m_code _ =? 99). Qed.

Lemma FormatUnsigned_side v : keeps_side (FormatUnsigned v).
Proof. intros st _. unfold hasFlag. by rewrite FormatUnsigned_flags. Qed.

Lemma FormatSigned_side v : keeps_side (FormatSigned v).
Proof.
  intros st Hs. unfold FormatSigned. destruct (_ || _); [by apply FormatUnsigned_side|].
  pose proof (FormatUnsigned_side (wrap UINTMAX_BITS (- v)) (setFlag SignFlag st)) as H.
  destruct (hasFlag_setFlag LeftJustFlag SignFlag st Hs ltac:(unfold LeftJustFlag; lia) ltac:(unfold SignFlag; lia)) as [E Hu].
  specialize (H Hu). destruct (FormatUnsigned _ _) as [r st']. cbn [snd] in *. by rewrite H, E.
Qed.

Lemma FormatString_side s : keeps_side (FormatString s).
Proof.
  intros st _. unfold FormatString. cbn [snd]. destruct (is_number_code st); [|done]. unfold setNumberConditions.
  destruct (count_digits _ 0 0) as [value digits]. by repeat case_match.
Qed.

(** The texts of the arguments *)
Lemma FormatUnsigned_number d conds v : directive_ok d -> d_code d <> 99 ->
  fst (FormatUnsigned v (start_state d conds)) = number_text d false v.
Proof.
  intros Hd Hc. destruct (start_state_spec d conds Hd) as (H1 & H2 & H3 & H4 & H5 & _).
  assert (HH : holds_directive d (start_state d conds)) by (split; [by intros x a Hx _; apply H1|done]).
  destruct (FormatUnsigned_text d _ v HH Hc (proj1 (proj1 (proj2 Hd)))) as [-> _].
  assert (HS : hasFlag SignFlag (start_state d conds) = has d 43) by (apply H1; set_solver). by rewrite HS.
Qed.

Lemma FormatSigned_number d conds v : directive_ok d -> d_code d = 100 \/ d_code d = 105 -> - 2 ^ 63 < v < 2 ^ 63 ->
  fst (FormatSigned v (start_state d conds)) = number_text d (v <? 0) (Z.abs v).
Proof.
  intros Hd Hc Hv. destruct (start_state_spec d conds Hd) as (H1 & H2 & H3 & H4 & H5 & _ & H6).
  unfold FormatSigned. rewrite H5.
  assert (negb (d_code d =? 100) && negb (d_code d =? 105) = false) as -> by (destruct Hc as [-> | ->]; done). cbn [orb].
  destruct (Z.leb_spec 0 v) as [Hp|Hn].
  - rewrite wrap_small by (unfold UINTMAX_BITS; lia). rewrite (proj2 (Z.ltb_ge v 0)), Z.abs_eq by lia.
    apply FormatUnsigned_number; [done|]. intros E. rewrite E in Hc. lia.
  - rewrite wrap_small by (unfold UINTMAX_BITS; lia). rewrite (proj2 (Z.ltb_lt v 0)), Z.abs_neq by lia.
    set (st := setFlag SignFlag (start_state d conds)).
    assert (HF : forall a, 0 <= a < 32 -> hasFlag a st = (a =? SignFlag) || hasFlag a (start_state d conds))
      by (intros a Ha; apply hasFlag_setFlag; [done|done|unfold SignFlag; lia]).
    assert (HH : holds_directive d st).
    { split; [|split; [by rewrite HF by (unfold PrecisionFlag; lia)|done]]. intros x a Hx Ha. rewrite <- (H1 x a Hx), HF.
      - by rewrite (proj2 (Z.eqb_neq a SignFlag)).
      - unfold flag_table in Hx. rewrite !elem_of_cons in Hx. destruct_or! Hx; try (by apply not_elem_of_nil in Hx); injection Hx as -> ->; in_table. }
    destruct (FormatUnsigned_text d st (- v) HH) as [E _]; [by intros E; rewrite E in Hc; lia|exact (proj1 (proj1 (proj2 Hd)))|].
    rewrite HF in E by (unfold SignFlag; lia). change (SignFlag =? SignFlag) with true in E. cbn [orb app length] in E.
    destruct (FormatUnsigned (- v) st) as [r s']. cbn [fst] in *. subst r. rewrite find_head. done.
Qed.

Lemma FormatString_text d conds s : directive_ok d ->
  fst (FormatString s (start_state d conds)) = match d_prec d with Some p => take (Z.to_nat p) s | None => s end.
Proof.
  intros Hd. destruct (start_state_spec d conds Hd) as (_ & H2 & H3 & _). unfold FormatString.
  assert (Hc : forall st, hasFlag PrecisionFlag (if is_number_code st then setNumberConditions s st else st) = hasFlag PrecisionFlag st /\
               m_precision (if is_number_code st then setNumberConditions s st else st) = m_precision st).
  { intros st. destruct (is_number_code st); [|done]. unfold setNumberConditions. destruct (count_digits _ 0 0) as [value digits].
    by repeat case_match. }
  destruct (Hc (start_state d conds)) as [-> ->]. rewrite H2, H3. cbn [fst].
  destruct (d_prec d) as [p|]; cbn [default]; [|by rewrite bool_decide_false by (by intros [])].
  rewrite bool_decide_true by done. cbn [andb id]. destruct (Z.ltb_spec p (Z.of_nat (length s))); [done|]. symmetry. apply take_ge. lia.
Qed.

(** Templates with such placeholders *)
Fixpoint template_of (pieces : list (list Z * directive)) (tail : list Z) : list Z :=
  match pieces with
  | [] => tail
  | (a, d) :: ps => a ++ 37 :: directive_text d ++ template_of ps tail
  end.
Fixpoint expansion (pieces : list (list Z * directive)) (args : list Arg) (conds : Z) (tail : list Z) : list Z :=
  match pieces, args with
  | (a, d) :: ps, fn :: fns =>
      let '(text, st) := fn (start_state d conds) in
      a ++ (if has d 33 then [] else justify d text) ++ expansion ps fns (m_conditions st) tail
  | _, _ => tail
  end.
Definition piece_ok (ad : list Z * directive) : Prop := (37 ∉ fst ad) /\ (0 ∉ fst ad) /\ directive_ok (snd ad).

Lemma postprocess_justify d conds st ai text p : directive_ok d -> hasFlag LeftJustFlag st = hasFlag LeftJustFlag (start_state d conds) ->
  postprocess (mkPlaceholder (directive_state d conds) (negb (has d 33)) ai (d_width d) p) st text = justify d text.
Proof.
  intros Hd Hst. destruct (start_state_spec d conds Hd) as (H1 & _).
  unfold postprocess, justify, pad_left. cbn [ph_width]. rewrite Hst, (H1 45) by set_solver.
  destruct (Z.ltb_spec (Z.of_nat (length text)) (d_width d)); [done|].
  replace (Z.to_nat _) with 0%nat by lia. cbn [replicate app]. rewrite app_nil_r. by destruct (has d 45).
Qed.

Lemma directive_text_length d : (1 <= length (directive_text d))%nat.
Proof. unfold directive_text. rewrite !length_app. cbn. lia. Qed.

Lemma format_templates_loop pieces tail fuel pre args lvl st res :
  Forall piece_ok pieces -> 37 ∉ tail -> Forall keeps_side args -> length args = length pieces ->
  (length (template_of pieces tail) <= fuel)%nat ->
  format_loop fuel (pre ++ args) (template_of pieces tail) (mkFmt (Z.of_nat (length pre)) 0 lvl st res) =
  res ++ expansion pieces args (m_conditions st) tail.
Proof.
  intros Hp Ht. revert fuel pre args st res. induction Hp as [|[a d] ps (H1 & H2 & H3) Hps IH]; intros fuel pre args st res Hk Hlen Hf.
  - destruct args; [|done]. cbn [template_of expansion]. by apply format_loop_end.
  - destruct Hk as [|fn fns Hfn Hk]; [done|]. cbn [template_of expansion length fst snd] in *.
    rewrite length_app in Hf. cbn [length] in Hf. rewrite length_app in Hf. pose proof (directive_text_length d).
    destruct fuel as [|fuel]; [lia|]. cbn [format_loop]. rewrite find_char_app by done.
    cbn [conditionState argIndex fstate result conditionLevel]. change (0 =? 0) with true. cbn iota. rewrite take_app_length.
    set (rest := template_of ps tail) in *.
    replace (drop (S (length a)) (a ++ 37 :: directive_text d ++ rest)) with (directive_text d ++ rest)
      by (rewrite drop_app_ge by lia; replace (S (length a) - length a)%nat with 1%nat by lia; done).
    change (clear st) with (mkFormatState 0 0 0 0 (m_conditions st)).
    rewrite parse_placeholder_directive by done. cbn [ph_rest].
    rewrite (convert_directive _ d _ _ lvl fn);
      [|apply H3|lia|rewrite Nat2Z.id, lookup_app_r, Nat.sub_diag by lia; done].
    fold (start_state d (m_conditions st)).
    destruct (start_state_spec d (m_conditions st) H3) as (_ & _ & _ & _ & _ & _ & Hu).
    rewrite (postprocess_justify d (m_conditions st)) by (done || by apply Hfn).
    replace (Z.of_nat (length pre) + 1) with (Z.of_nat (length (pre ++ [fn]))) by (rewrite length_app; simpl; lia).
    replace (pre ++ fn :: fns) with ((pre ++ [fn]) ++ fns) by (by rewrite <- app_assoc).
    rewrite IH by (done || lia). destruct (fn (start_state d (m_conditions st))) as [text st']. cbn [fst snd]. by rewrite <- !app_assoc.
Qed.

Lemma directive_text_no_zero d : directive_ok d -> 0 ∉ directive_text d.
Proof.
  intros (Hfl & Hw & Hp & Hc).
  assert (Hdec : forall v, 0 <= v < 2 ^ 64 -> 0 ∉ dec v).
  { intros v Hv H. destruct (dec_spec v Hv) as (_ & H2 & _). rewrite Forall_forall in H2. by specialize (H2 _ H). }
  unfold directive_text. rewrite !elem_of_app. intros [H|[H|[H|H]]].
  - rewrite Forall_forall in Hfl. specialize (Hfl _ H). unfold flag_char, flag_table in Hfl. cbn in Hfl. rewrite !elem_of_cons, elem_of_nil in Hfl. naive_solver.
  - destruct (d_width d =? 0); [by apply not_elem_of_nil in H|by apply (Hdec (d_width d))].
  - destruct (d_prec d) as [p|]; [|by apply not_elem_of_nil in H]. apply elem_of_cons in H as [H|H]; [done|by apply (Hdec p); [apply Hp|]].
  - apply list_elem_of_singleton in H. rewrite <- H in Hc. done.
Qed.

Lemma format_templates pieces tail args :
  Forall piece_ok pieces -> 37 ∉ tail -> 0 ∉ tail -> Forall keeps_side args -> length args = length pieces ->
  Format (template_of pieces tail) args = expansion pieces args 0 tail.
Proof.
  intros Hp Ht H0 Hk Hl. unfold Format.
  rewrite c_str_id; [by apply (format_templates_loop pieces tail _ [] args 0 FormatState_new [])|].
  clear args Hl Hk. induction Hp as [|[a d] ps (H1 & H2 & H3) Hps IH]; [done|]. cbn [template_of fst snd] in *.
  pose proof (directive_text_no_zero d H3). rewrite elem_of_app, elem_of_cons, elem_of_app. naive_solver.
Qed.

(** ** Properties *)

(** C33. Format inserts its arguments in the template.
    A template made of texts and placeholders with flags, a width and a precision
    yields the texts and the formatted arguments in order, each filled with
    blanks up to the width, on its right with the flag -, on its left without,
    and left out with the flag !.  A number has a sign (- for a negative one with
    %d and %i, else + or a blank with these flags), with the flag 0 zeroes up to
    the width, with the flag # a prefix, and its digits, with zeroes up to the
    precision and in groups of three with the flag '; the zeroes come before the
    prefix.  A string is cut to the precision.  Without flags, a
    signed number is its decimal text, which strToInteger reads back for every type
    that holds it, and an unsigned one has the digits of its value in base 8, 10 or
    16, without superfluous zeroes; "%04X" yields exactly four digits for a 16-bit value.
    After a number was formatted, condition 1 selects the singular; as it depends on
    the absolute value, it does so after -1 as well, which diverges from format.hpp. *)
Theorem format_correct :
  (forall pieces tail args, Forall piece_ok pieces -> 37 ∉ tail -> 0 ∉ tail -> Forall keeps_side args -> length args = length pieces ->
     Format (template_of pieces tail) args = expansion pieces args 0 tail) /\
  (forall d conds v, directive_ok d ->
     (d_code d <> 99 -> fst (FormatUnsigned v (start_state d conds)) = number_text d false v) /\
     (d_code d = 100 \/ d_code d = 105 -> - 2 ^ 63 < v < 2 ^ 63 ->
        fst (FormatSigned v (start_state d conds)) = number_text d (v <? 0) (Z.abs v)) /\
     (d_code d <> 100 -> d_code d <> 105 -> d_code d <> 99 ->
        fst (FormatSigned v (start_state d conds)) = number_text d false (v mod 2 ^ 64)) /\
     keeps_side (FormatUnsigned v) /\ keeps_side (FormatSigned v)) /\
  (forall d conds s, directive_ok d ->
     fst (FormatString s (start_state d conds)) = match d_prec d with Some p => take (Z.to_nat p) s | None => s end /\
     keeps_side (FormatString s)) /\
  (forall v t w conds, 0 < t <= w -> t <= 64 -> in_s t v -> v <> - 2 ^ 63 ->
     show_int v = int_text v /\ fst (FormatSigned v (mkFormatState 100 0 0 0 conds)) = int_text v /\
     (strToInteger true t w (show_int v)).1 = Some v) /\
  (forall v code, 0 <= v < 2 ^ 64 ->
     let text := formatUnsigned v code in
     base_value (base_of code) text = v /\ Forall (digit_of (base_of code)) text /\
     (forall d r, text = d :: r -> getHexDigitValue d = 0 -> r = [])) /\
  (forall v, 0 <= v < 2 ^ 16 -> let text := Format (lit "%04X") [FormatUnsigned v] in
     length text = 4%nat /\ base_value 16 text = v /\ Forall (digit_of 16) text) /\
  (forall v, in_s 64 v -> v <> - 2 ^ 63 ->
     Format (lit "%d %1{item%|items%}") [FormatSigned v] =
     int_text v ++ lit " " ++ (if Z.abs v =? 1 then lit "item" else lit "items")).
Proof.
  split; [apply format_templates|]. split.
  { intros d conds v Hd. split; [by apply FormatUnsigned_number|]. split; [by apply FormatSigned_number|].
    split; [|split; [apply FormatUnsigned_side|apply FormatSigned_side]].
    intros H1 H2 H3. unfold FormatSigned. change (m_code (start_state d conds)) with (d_code d).
    rewrite (proj2 (Z.eqb_neq _ _) H1), (proj2 (Z.eqb_neq _ _) H2). by apply FormatUnsigned_number. }
  split. { intros d conds s Hd. split; [by apply FormatString_text|apply FormatString_side]. }
  split.
  { intros v t w conds Ht H64 Hv Hm.
    assert (in_s 64 v) by (unfold in_s in *; pose proof (Z.pow_le_mono_r 2 (t - 1) (64 - 1)); lia).
    split; [by apply show_int_text|]. split; [by apply FormatSigned_plain|]. by apply strToInteger_show_int. }
  split. { intros v code Hv text. subst text. by destruct (formatUnsigned_spec code v Hv) as (H1 & H2 & _ & H3). }
  split; [|apply format_plural].
  intros v Hv text. subst text. rewrite FormatUnsigned_04X. by apply hex4_spec.
Qed.

Example format_ex5 : Format (lit "%#06x") [FormatUnsigned 255] = lit "000xff". Proof. by vm_compute. Qed.

(** "<%+'9d|%-6.2s|%!d>" *)
Lemma format_correct_witness :
  Format (lit "<%+'9d|%-6.2s|%!d>") [FormatSigned 12345; FormatString (lit "abc"); FormatSigned 1] = lit "<  +12,345|ab    |>".
Proof.
  assert (Hfl : forall fl, bool_decide (Forall (fun c => c ∈ 33 :: flag_table.*1) fl) = true -> Forall flag_char fl).
  { intros fl H. eapply Forall_impl; [exact (bool_decide_eq_true_1 _ H)|]. intros c Hc. by apply elem_of_cons in Hc. }
  assert (Hok : forall a d, (37 ∉ a) -> (0 ∉ a) -> directive_ok d -> piece_ok (a, d)) by done.
  assert (Hps : Forall piece_ok [(lit "<", mkDirective [43; 39] 9 None 100); (lit "|", mkDirective [45] 6 (Some 2) 115); (lit "|", mkDirective [33] 0 None 100)]).
  { apply Forall_cons; split; [|apply Forall_cons; split; [|apply Forall_cons; split; [|constructor]]];
      (apply Hok; [set_solver|set_solver|]); (split; [by apply Hfl|]); (split; [cbn; lia|]);
      (split; [|reflexivity]); cbn; intros p; naive_solver lia. }
  pose proof (proj1 format_correct _ (lit ">") [FormatSigned 12345; FormatString (lit "abc"); FormatSigned 1] Hps
    ltac:(set_solver) ltac:(set_solver)
    ltac:(repeat constructor; (apply FormatSigned_side || apply FormatString_side)) eq_refl) as H.
  vm_compute in H |- *. exact H.
Defined.
