(* ===== verification/Values.v ===== *)
(** * Values

    src/afl/data: boxed values, Segment (a sequence of values), NameMap (names
    with numbers, found through a hash table with chained buckets), Hash, the
    SegmentView used to consume command arguments, and Access, the type-tolerant
    view of a value.

    A Value pointer is a [value]; the null pointer is [VNull].  Values are
    immutable, so sharing between copies of a vector or hash is not visible. *)

From Stdlib Require Import ZArith Lia Bool String Ascii.
From stdpp Require Import base tactics numbers option list sets.
From S2P Require Import Prelude Strings Format.

Local Open Scope Z_scope.
Local Open Scope afl_scope.
Local Set Warnings "-register-all".

(** ** NameQuery, NameMap *)

Definition HASH_MAX : Z := 64.
Definition nil_index : Z := 2 ^ SIZE_BITS - 1.

(** [hash]: the loop over the first and last (up to) five characters *)
Fixpoint hash_loop (n i : nat) (data : list Z) (h : Z) : Z :=
  match n with
  | O => h
  | S n' =>
      let h := usize (h + byte_at data i) in
      let h := usize (h + byte_at data (length data - i - 1)) in
      hash_loop n' (S i) data h
  end.
Definition hash_name (name : list Z) : Z :=
  let size := length name in
  let limit := if (5 <? size)%nat then 5%nat else size in
  u16 (hash_loop limit 0 name (usize (Z.of_nat size)) mod HASH_MAX).

Record NameMap := mkNameMap {
  m_names : list (list Z);
  m_hashFirst : list Z;
  m_hashNext : list Z;
}.

Definition NameMap_new : NameMap := mkNameMap [] (replicate (Z.to_nat HASH_MAX) nil_index) [].

(** Element of a std::vector *)
Definition vec_at (l : list Z) (i : Z) : Z := nth (Z.to_nat i) l nil_index.
Definition name_at (nm : NameMap) (i : Z) : list Z := nth (Z.to_nat i) (m_names nm) [].

(** [while (i != nil && !name.match(m_names[i])) i = m_hashNext[i];] every
    element refers to an earlier one. *)
Fixpoint find_loop (fuel : nat) (nm : NameMap) (name : list Z) (i : Z) : Z :=
  match fuel with
  | O => i
  | S fuel' =>
      if i =? nil_index then i
      else if bool_decide (name_at nm i = name) then i
      else find_loop fuel' nm name (vec_at (m_hashNext nm) i)
  end.
Definition getIndexByName (nm : NameMap) (name : list Z) : Z :=
  find_loop (S (length (m_names nm))) nm name (vec_at (m_hashFirst nm) (hash_name name)).

Definition getNumNames (nm : NameMap) : Z := Z.of_nat (length (m_names nm)).

Definition add (nm : NameMap) (name : list Z) : NameMap * Z :=
  let h := hash_name name in
  let slot := Z.of_nat (length (m_names nm)) in
  (mkNameMap (m_names nm ++ [name]) (<[ Z.to_nat h := slot ]> (m_hashFirst nm))
             (m_hashNext nm ++ [vec_at (m_hashFirst nm) h]), slot).

Definition addMaybe (nm : NameMap) (name : list Z) : NameMap * Z :=
  let i := getIndexByName nm name in
  if i =? nil_index then add nm name else (nm, i).

(** ** Values *)

Section Values.
(** [double] *)
Context {F : Type}.

Inductive value :=
  | VNull
  | VString (s : list Z)
  | VInteger (iv : Z)
  | VFloat (fv : F)
  | VBoolean (bv : bool)
  | VHash (keys : NameMap) (values : list value)
  | VVector (values : list value)
  | VError (source str : list Z)
  | VOther.

(** *** Segment *)

Definition seg_get (seg : list value) (index : Z) : value :=
  if index <? Z.of_nat (length seg) then nth (Z.to_nat index) seg VNull else VNull.

(** [makeIndexAccessible] *)
Definition makeIndexAccessible (seg : list value) (index : nat) : list value :=
  if (length seg <=? index)%nat then seg ++ replicate (S index - length seg) VNull else seg.

Definition seg_setNew (seg : list value) (index : nat) (v : value) : list value :=
  <[ index := v ]> (makeIndexAccessible seg index).

Definition seg_insertNew (seg : list value) (index : nat) (v : value) : list value :=
  let seg := if (0 <? index)%nat then makeIndexAccessible seg (index - 1) else seg in
  take index seg ++ [v] ++ drop index seg.

(** The slot is left empty. *)
Definition seg_extractElement (seg : list value) (index : nat) : list value * value :=
  if (index <? length seg)%nat then (<[ index := VNull ]> seg, nth index seg VNull) else (seg, VNull).

Definition seg_swapElements (seg : list value) (index : nat) (other : list value) (otherIndex : nat) : list value * list value :=
  let seg := makeIndexAccessible seg index in
  let other := makeIndexAccessible other otherIndex in
  (<[ index := nth otherIndex other VNull ]> seg, <[ otherIndex := nth index seg VNull ]> other).

Definition is_null (v : value) : bool := match v with VNull => true | _ => false end.

Fixpoint used_slots (seg : list value) (result : nat) : nat :=
  match result with
  | S r => if is_null (nth r seg VNull) then used_slots seg r else result
  | O => O
  end.
Definition getNumUsedSlots (seg : list value) : nat := used_slots seg (length seg).

Definition pushBackNew (seg : list value) (v : value) : list value := seg ++ [v].
(** [assert(m_content.size() > 0)] *)
Definition popBack (seg : list value) : option (list value) :=
  match length seg with
  | O => None
  | S n => Some (take n seg)
  end.
Fixpoint popBackN_loop (count : nat) (seg : list value) : option (list value) :=
  match count with
  | O => Some seg
  | S c => popBack seg ≫= popBackN_loop c
  end.
Definition popBackN (seg : list value) (count : nat) : option (list value) :=
  if (length seg <? count)%nat then None else popBackN_loop count seg.
Definition top (seg : list value) (ofs : nat) : option value :=
  if (ofs <? length seg)%nat then seg !! (length seg - ofs - 1)%nat else None.
Definition extractTop (seg : list value) : option (list value * value) :=
  match length seg with
  | O => None
  | S n => Some (take n seg, nth n seg VNull)
  end.

(** Copy elements, leaving empty slots *)
Fixpoint transfer_loop (count pos : nat) (seg other : list value) : list value * list value :=
  match count with
  | O => (seg, other)
  | S c =>
      let '(seg, v) := seg_extractElement seg pos in
      transfer_loop c (S pos) seg (pushBackNew other v)
  end.
Definition transferLastTo (seg : list value) (count : nat) (other : list value) : option (list value * list value) :=
  if (length seg <? count)%nat then None
  else let '(seg, other) := transfer_loop count (length seg - count) seg other in
       seg' ← popBackN seg count; Some (seg', other).

(** *** Hash *)

Record Hash := mkHash { m_keys : NameMap; m_values : list value }.
Definition Hash_new : Hash := mkHash NameMap_new [].
Definition hash_setNew (h : Hash) (key : list Z) (v : value) : Hash :=
  let '(keys, index) := addMaybe (m_keys h) key in
  mkHash keys (seg_setNew (m_values h) (Z.to_nat index) v).
Definition hash_get (h : Hash) (key : list Z) : value := seg_get (m_values h) (getIndexByName (m_keys h) key).
(** [index] when the result is true *)
Definition getIndexByKey (h : Hash) (key : list Z) : option Z :=
  let i := getIndexByName (m_keys h) key in
  if i =? nil_index then None else Some i.

(** *** Access *)

(** The exceptions, with their message and source *)
Inductive exn :=
  | InvalidDataException (msg : list Z)
  | RemoteErrorException (source msg : list Z).

(** [e.what()] *)
Definition what (e : exn) : list Z :=
  match e with
  | InvalidDataException msg => msg
  | RemoteErrorException _ msg => msg
  end.

Definition invalidInteger : exn := InvalidDataException (lit "Invalid number").

(** The width of long, for strToInteger of an int32_t *)
Definition LONG_BITS : Z := 64.
Definition strToInt32 (s : list Z) : option Z := (strToInteger true 32 LONG_BITS s).1.

(** What the code uses of [double]: truncation to int32_t, the "%.25g" format *)
Class Double := {
  float_to_int32 : F -> Z;
  format_float_25g : F -> list Z;
}.
Context `{!Double}.

Definition toInteger (v : value) : outcome exn Z :=
  match v with
  | VNull => Ok 0
  | VString str =>
      if bool_decide (str = []) then Ok 0
      else match strToInt32 str with
           | Some r => Ok r
           | None => Throw invalidInteger
           end
  | VInteger iv => Ok iv
  | VFloat fv => Ok (float_to_int32 fv)
  | VBoolean bv => Ok (if bv then 1 else 0)
  | VHash _ _ | VVector _ | VOther => Throw invalidInteger
  | VError source str => Throw (RemoteErrorException source str)
  end.

(** The visitor appends to [m_result]. *)
Fixpoint toString (v : value) : outcome exn (list Z) :=
  match v with
  | VNull => Ok []
  | VString str => Ok str
  | VInteger iv => Ok (show_int iv)
  | VFloat fv => Ok (format_float_25g fv)
  | VBoolean bv => Ok (if bv then lit "true" else lit "false")
  | VHash _ _ => Ok (lit "<hash>")
  | VVector vv =>
      (fix elements (vv : list value) (first : bool) : outcome exn (list Z) :=
         match vv with
         | [] => Ok []
         | x :: vv' =>
             let! s := toString x in
             let! r := elements vv' false in
             Ok ((if first then [] else [44]) ++ s ++ r)
         end) vv true
  | VOther => Ok (lit "<value>")
  | VError source str => Throw (RemoteErrorException source str)
  end.

(** Values the visitors ignore; errors throw in every conversion. *)
Definition getArraySize (v : value) : outcome exn Z :=
  match v with
  | VVector vv => Ok (Z.of_nat (length vv))
  | VError source str => Throw (RemoteErrorException source str)
  | _ => Ok 0
  end.

(** [for (i = 0; i+1 < n; i += 2)] *)
Fixpoint vector_keys (vv : list value) : outcome exn (list (list Z)) :=
  match vv with
  | k :: _ :: vv' => let! s := toString k in let! r := vector_keys vv' in Ok (s :: r)
  | _ => Ok []
  end.
Definition getHashKeys (v : value) : outcome exn (list (list Z)) :=
  match v with
  | VHash keys _ => Ok (m_names keys)
  | VVector vv => vector_keys vv
  | VError source str => Throw (RemoteErrorException source str)
  | _ => Ok []
  end.

(** [operator[](size_t)] *)
Definition at_index (v : value) (index : Z) : outcome exn value :=
  match v with
  | VVector vv => Ok (seg_get vv index)
  | VError source str => Throw (RemoteErrorException source str)
  | _ => Ok VNull
  end.

Fixpoint vector_find (vv : list value) (key : list Z) : outcome exn value :=
  match vv with
  | k :: x :: vv' =>
      let! s := toString k in
      if bool_decide (s = key) then Ok x else vector_find vv' key
  | _ => Ok VNull
  end.
(** [operator()(String_t)] *)
Definition at_key (v : value) (key : list Z) : outcome exn value :=
  match v with
  | VHash keys values => Ok (hash_get (mkHash keys values) key)
  | VVector vv => vector_find vv key
  | VError source str => Throw (RemoteErrorException source str)
  | _ => Ok VNull
  end.

(** [for (i = 0, n = getArraySize(); i < n; ++i)] *)
Fixpoint list_loop {A} (conv : value -> outcome exn A) (v : value) (n : nat) (i : Z) : outcome exn (list A) :=
  match n with
  | O => Ok []
  | S n' =>
      let! x := at_index v i in
      let! y := conv x in
      let! r := list_loop conv v n' (i + 1) in
      Ok (y :: r)
  end.
Definition toIntegerList (v : value) : outcome exn (list Z) :=
  let! n := getArraySize v in list_loop toInteger v (Z.to_nat n) 0.
Definition toStringList (v : value) : outcome exn (list (list Z)) :=
  let! n := getArraySize v in list_loop toString v (Z.to_nat n) 0.

Definition isError (v : value) : option (list Z * list Z) :=
  match v with
  | VError source str => Some (source, str)
  | _ => None
  end.

(** *** SegmentView *)

Record SegmentView := mkView { m_segment : list value; m_index : nat; m_count : nat }.
Definition SegmentView_new (seg : list value) : SegmentView := mkView seg 0 (length seg).
Definition SegmentView_part (seg : list value) (first limit : nat) : SegmentView :=
  let index := Nat.min (length seg) first in
  mkView seg index (Nat.min (length seg - index) limit).
Definition view_size (v : SegmentView) : nat := m_count v.
Definition view_eat (v : SegmentView) : value * SegmentView :=
  match m_count v with
  | S n => (seg_get (m_segment v) (Z.of_nat (m_index v)), mkView (m_segment v) (S (m_index v)) n)
  | O => (VNull, v)
  end.
(** The new content of the variable when there is a value, i.e. the result is true *)
Definition view_eat_string (v : SegmentView) : outcome exn (option (list Z)) * SegmentView :=
  let '(val, v) := view_eat v in
  (if is_null val then Ok None else let! s := toString val in Ok (Some s), v).
Definition view_eat_int (v : SegmentView) : outcome exn (option Z) * SegmentView :=
  let '(val, v) := view_eat v in
  (if is_null val then Ok None else let! i := toInteger val in Ok (Some i), v).

End Values.
Arguments value F : clear implicits.
Arguments Hash F : clear implicits.
Arguments SegmentView F : clear implicits.
Arguments Double F : clear implicits.

(** ** NameMap: lemmas *)

(** The last of the first [n] names with a given property, or nil. *)
Fixpoint last_index (p : list Z -> bool) (names : list (list Z)) (n : nat) : Z :=
  match n with
  | O => nil_index
  | S k => if p (nth k names []) then Z.of_nat k else last_index p names k
  end.

Definition in_bucket (h : Z) (name : list Z) : bool := hash_name name =? h.
Definition same_name (name name' : list Z) : bool := bool_decide (name' = name).

(** The number of names is below the largest size_t. *)
Definition nm_small (nm : NameMap) : Prop := Z.of_nat (length (m_names nm)) < nil_index.

(** Every bucket starts with the last name in it, every name is followed by the
    previous one of its bucket. *)
Record nm_wf (nm : NameMap) : Prop := {
  wf_first_length : length (m_hashFirst nm) = Z.to_nat HASH_MAX;
  wf_next_length : length (m_hashNext nm) = length (m_names nm);
  wf_first : forall h, 0 <= h < HASH_MAX -> vec_at (m_hashFirst nm) h = last_index (in_bucket h) (m_names nm) (length (m_names nm));
  wf_next : forall i, (i < length (m_names nm))%nat ->
    vec_at (m_hashNext nm) (Z.of_nat i) = last_index (in_bucket (hash_name (nth i (m_names nm) []))) (m_names nm) i;
}.

Lemma hash_name_range name : 0 <= hash_name name < HASH_MAX.
Proof.
  unfold hash_name. unfold u16. pose proof (Z.mod_pos_bound (hash_loop (if (5 <? length name)%nat then 5 else length name) 0 name
    (usize (Z.of_nat (length name)))) HASH_MAX ltac:(done)) as H. rewrite wrap_small; [done|]. unfold HASH_MAX in *. lia.
Qed.

Lemma last_index_range p names n : last_index p names n = nil_index \/ (0 <= last_index p names n < Z.of_nat n).
Proof. induction n as [|n IH]; simpl; [by left|]. destruct (p _); [right; lia|]. destruct IH; [by left|right; lia]. Qed.

Lemma last_index_app p names l n : (n <= length names)%nat -> last_index p (names ++ l) n = last_index p names n.
Proof.
  induction n as [|n IH]; intros H; simpl; [done|]. rewrite app_nth1, IH by lia. done.
Qed.

Lemma last_index_some p names n i :
  Z.of_nat n <= nil_index ->
  last_index p names n = Z.of_nat i -> (i < n)%nat ->
  p (nth i names []) = true /\ (forall j, (i < j < n)%nat -> p (nth j names []) = false).
Proof.
  induction n as [|n IH]; intros Hn; simpl; [lia|]. destruct (p (nth n names [])) eqn:E; intros H Hi.
  - assert (i = n) as -> by lia. split; [done|lia].
  - destruct (decide (i = n)) as [->|]; [destruct (last_index_range p names n); lia|].
    destruct (IH ltac:(lia) H ltac:(lia)) as [H1 H2]. split; [done|]. intros j Hj. destruct (decide (j = n)) as [->|]; [done|]. apply H2. lia.
Qed.

Lemma last_index_none p names n :
  Z.of_nat n <= nil_index ->
  last_index p names n = nil_index <-> forall j, (j < n)%nat -> p (nth j names []) = false.
Proof.
  induction n as [|n IH]; intros Hn; simpl; [split; [lia|done]|]. destruct (p (nth n names [])) eqn:E.
  - split; [lia|]. intros H. by rewrite H in E by lia.
  - rewrite IH by lia. split; [intros H j Hj; destruct (decide (j = n)) as [->|]; [done|apply H; lia]|]. intros H j Hj. apply H. lia.
Qed.

Lemma find_loop_spec fuel nm name n :
  nm_wf nm -> nm_small nm -> (n < fuel)%nat -> (n <= length (m_names nm))%nat ->
  find_loop fuel nm name (last_index (in_bucket (hash_name name)) (m_names nm) n) = last_index (same_name name) (m_names nm) n.
Proof.
  intros Hwf Hsm. revert fuel. induction n as [n IH] using lt_wf_ind. intros [|fuel] Hf Hn; [lia|].
  unfold nm_small in Hsm. set (names := m_names nm) in *. cbn [find_loop].
  pose proof (last_index_none (in_bucket (hash_name name)) names n ltac:(lia)) as Hnone.
  destruct (last_index_range (in_bucket (hash_name name)) names n) as [E|E].
  - rewrite E, Z.eqb_refl. symmetry. apply last_index_none; [lia|]. intros j Hj.
    pose proof (proj1 Hnone E j Hj) as Hb. unfold same_name. apply bool_decide_false. intros H. rewrite H in Hb.
    unfold in_bucket in Hb. by rewrite Z.eqb_refl in Hb.
  - set (k := last_index (in_bucket (hash_name name)) names n) in *.
    rewrite (proj2 (Z.eqb_neq k nil_index)) by lia.
    destruct (last_index_some (in_bucket (hash_name name)) names n (Z.to_nat k) ltac:(lia) ltac:(lia) ltac:(lia)) as [Hp Hq].
    clearbody k.
    assert (Hskip : forall m, (Z.to_nat k < m <= n)%nat -> last_index (same_name name) names n = last_index (same_name name) names m).
    { intros m Hm. clear - Hm Hq. induction n as [|n IHn]; [lia|]. destruct (decide (m = S n)) as [->|]; [done|].
      simpl. specialize (Hq n ltac:(lia)) as Hb. unfold same_name at 1. rewrite bool_decide_false.
      - apply IHn; [intros j Hj; apply Hq; lia|lia].
      - intros H. rewrite H in Hb. unfold in_bucket in Hb. by rewrite Z.eqb_refl in Hb. }
    rewrite (Hskip (S (Z.to_nat k))) by lia. cbn [last_index]. unfold same_name at 1.
    unfold name_at. fold names. case_bool_decide as Em; [lia|].
    rewrite <- (Z2Nat.id k) at 1 by lia. rewrite (wf_next nm Hwf (Z.to_nat k)) by (fold names; lia). fold names.
    unfold in_bucket in Hp. apply Z.eqb_eq in Hp. rewrite Hp. apply IH; lia.
Qed.

Lemma getIndexByName_spec nm name : nm_wf nm -> nm_small nm ->
  getIndexByName nm name = last_index (same_name name) (m_names nm) (length (m_names nm)).
Proof.
  intros Hwf Hsm. unfold getIndexByName. rewrite (wf_first nm Hwf) by apply hash_name_range. apply find_loop_spec; try done; lia.
Qed.

Lemma NameMap_new_wf : nm_wf NameMap_new.
Proof.
  split; [done|done| |simpl; lia]. intros h Hh. unfold vec_at, NameMap_new. cbn [m_hashFirst m_names length last_index]. rewrite nth_lookup.
  unfold HASH_MAX in Hh. rewrite (lookup_replicate_2 (Z.to_nat HASH_MAX) nil_index (Z.to_nat h)); [done|]. unfold HASH_MAX. lia.
Qed.

Lemma add_wf nm name : nm_wf nm -> nm_wf (add nm name).1.
Proof.
  intros Hwf. pose proof (hash_name_range name) as Hh. pose proof (wf_first_length nm Hwf) as Hl.
  split; cbn [add fst m_names m_hashFirst m_hashNext].
  - by rewrite length_insert.
  - by rewrite !length_app, (wf_next_length nm Hwf).
  - intros h Hr. rewrite length_app, Nat.add_1_r. cbn [last_index].
    rewrite app_nth2, Nat.sub_diag, last_index_app by lia. cbn [nth]. unfold in_bucket at 1, vec_at.
    rewrite nth_lookup. destruct (Z.eqb_spec (hash_name name) h) as [<-|Hne].
    + rewrite list_lookup_insert_eq by (unfold HASH_MAX in *; lia). done.
    + rewrite list_lookup_insert_ne by (unfold HASH_MAX in *; lia). rewrite <- nth_lookup. by apply (wf_first nm Hwf).
  - intros i Hi. rewrite length_app, Nat.add_1_r in Hi. rewrite last_index_app by lia. unfold vec_at. rewrite Nat2Z.id.
    destruct (decide (i < length (m_names nm))%nat) as [Hlt|Hge].
    + rewrite !app_nth1 by (rewrite ?(wf_next_length nm Hwf); lia). rewrite <- (wf_next nm Hwf i Hlt). unfold vec_at. by rewrite Nat2Z.id.
    + assert (i = length (m_names nm)) as -> by lia. rewrite (app_nth2 (m_names nm)), Nat.sub_diag by lia.
      rewrite app_nth2 by (rewrite (wf_next_length nm Hwf); lia). rewrite (wf_next_length nm Hwf), Nat.sub_diag. cbn [nth].
      by apply (wf_first nm Hwf).
Qed.

Lemma index_present nm name i : nm_wf nm -> nm_small nm -> NoDup (m_names nm) ->
  m_names nm !! i = Some name -> getIndexByName nm name = Z.of_nat i.
Proof.
  intros Hwf Hsm Hnd Hi. rewrite getIndexByName_spec by done. pose proof (lookup_lt_Some _ _ _ Hi) as Hlt. unfold nm_small in Hsm.
  destruct (last_index_range (same_name name) (m_names nm) (length (m_names nm))) as [E|E].
  - rewrite last_index_none in E by lia. specialize (E i Hlt). unfold same_name in E. apply bool_decide_eq_false in E.
    rewrite nth_lookup, Hi in E. done.
  - set (k := last_index _ _ _) in *.
    destruct (last_index_some (same_name name) (m_names nm) (length (m_names nm)) (Z.to_nat k) ltac:(lia) ltac:(lia) ltac:(lia)) as [H _].
    unfold same_name in H. apply bool_decide_eq_true in H.
    assert (m_names nm !! Z.to_nat k = Some name) as Hk.
    { destruct (nth_lookup_or_length (m_names nm) (Z.to_nat k) []) as [Hx|Hx]; [by rewrite Hx, H|lia]. }
    rewrite (NoDup_lookup _ _ _ _ Hnd Hi Hk). lia.
Qed.

Lemma index_absent nm name : nm_wf nm -> nm_small nm -> getIndexByName nm name = nil_index <-> name ∉ m_names nm.
Proof.
  intros Hwf Hsm. rewrite getIndexByName_spec by done. rewrite last_index_none by (unfold nm_small in Hsm; lia). split.
  - intros H Hin. apply list_elem_of_lookup in Hin as [i Hi]. specialize (H i (lookup_lt_Some _ _ _ Hi)).
    unfold same_name in H. apply bool_decide_eq_false in H. rewrite nth_lookup, Hi in H. done.
  - intros H j Hj. unfold same_name. apply bool_decide_false. intros E. apply H.
    destruct (nth_lookup_or_length (m_names nm) j []) as [Hx|Hx]; [|lia]. rewrite <- E. by eapply list_elem_of_lookup_2.
Qed.

Section Hash.
Context {F : Type}.
Implicit Types (h : Hash F) (v : value F).

Record hash_wf h : Prop := {
  hw_keys : nm_wf (m_keys h);
  hw_small : nm_small (m_keys h);
  hw_nodup : NoDup (m_names (m_keys h));
  hw_values : (length (m_values h) <= length (m_names (m_keys h)))%nat;
}.

Lemma seg_get_setNew (seg : list (value F)) index v j :
  seg_get (seg_setNew seg index v) (Z.of_nat j) = if decide (j = index) then v else seg_get seg (Z.of_nat j).
Proof.
  unfold seg_get, seg_setNew, makeIndexAccessible. rewrite length_insert, Nat2Z.id, !nth_lookup.
  destruct (Nat.leb_spec (length seg) index).
  - rewrite length_app, length_replicate. destruct (decide (j = index)) as [->|Hne].
    + rewrite (proj2 (Z.ltb_lt _ _)) by lia. rewrite list_lookup_insert_eq by (rewrite length_app, length_replicate; lia). done.
    + rewrite list_lookup_insert_ne by done.
      destruct (Z.ltb_spec (Z.of_nat j) (Z.of_nat (length seg))).
      * rewrite (proj2 (Z.ltb_lt _ _)), lookup_app_l by lia. done.
      * destruct (Z.ltb_spec (Z.of_nat j) (Z.of_nat (length seg + (S index - length seg)))); [|done].
        rewrite lookup_app_r by lia. rewrite (lookup_replicate_2 (S index - length seg) VNull) by lia. done.
  - destruct (decide (j = index)) as [->|Hne].
    + rewrite (proj2 (Z.ltb_lt _ _)), list_lookup_insert_eq by lia. done.
    + by rewrite list_lookup_insert_ne.
Qed.

Lemma length_seg_setNew (seg : list (value F)) index v : length (seg_setNew seg index v) = Nat.max (length seg) (S index).
Proof.
  unfold seg_setNew, makeIndexAccessible. rewrite length_insert. destruct (Nat.leb_spec (length seg) index); rewrite ?length_app, ?length_replicate; lia.
Qed.

(** The names after a change: the order in which they were first used. *)
Definition names_add (names : list (list Z)) (k : list Z) : list (list Z) :=
  if decide (k ∈ names) then names else names ++ [k].

Lemma length_names_add names k : (length names <= length (names_add names k) <= length names + 1)%nat.
Proof. unfold names_add. destruct (decide _); rewrite ?length_app; simpl; lia. Qed.

Lemma addMaybe_spec nm k : nm_wf nm -> nm_small nm -> NoDup (m_names nm) ->
  let '(nm', i) := addMaybe nm k in
  nm_wf nm' /\ NoDup (m_names nm') /\ m_names nm' = names_add (m_names nm) k /\ 0 <= i /\ m_names nm' !! Z.to_nat i = Some k.
Proof.
  intros Hwf Hsm Hnd. unfold addMaybe, names_add.
  destruct (Z.eqb_spec (getIndexByName nm k) nil_index) as [E|E].
  - apply index_absent in E; [|done|done]. rewrite decide_False by done.
    split; [apply (add_wf nm k Hwf)|]. cbn [add m_names]. split; [|split; [done|split; [lia|]]].
    + apply NoDup_app. split; [done|]. split; [|apply NoDup_singleton]. intros x Hx Hk. apply list_elem_of_singleton in Hk. congruence.
    + rewrite Nat2Z.id, lookup_app_r, Nat.sub_diag by lia. done.
  - destruct (decide (k ∈ m_names nm)) as [Hin|Hin]; [|by apply index_absent in Hin].
    apply list_elem_of_lookup in Hin as [i Hi]. rewrite (index_present nm k i) by done. rewrite Nat2Z.id. split; [done|]. split; [done|]. split; [done|]. split; [lia|done].
Qed.

Lemma hash_get_present h k i : hash_wf h -> m_names (m_keys h) !! i = Some k -> hash_get h k = seg_get (m_values h) (Z.of_nat i).
Proof. intros [H1 H2 H3 H4] Hi. unfold hash_get. by rewrite (index_present _ _ i). Qed.

Lemma seg_get_nil (seg : list (value F)) : Z.of_nat (length seg) <= nil_index -> seg_get seg nil_index = VNull.
Proof. intros H. unfold seg_get. by rewrite (proj2 (Z.ltb_ge _ _)) by lia. Qed.

Lemma hash_get_absent h k : hash_wf h -> k ∉ m_names (m_keys h) -> hash_get h k = VNull.
Proof.
  intros [H1 H2 H3 H4] Hk. unfold hash_get. rewrite (proj2 (index_absent _ k H1 H2)) by done.
  unfold nm_small in H2. apply seg_get_nil. lia.
Qed.

Lemma hash_setNew_spec h k v : hash_wf h -> Z.of_nat (length (m_names (m_keys h))) + 1 < nil_index ->
  let h' := hash_setNew h k v in
  hash_wf h' /\ m_names (m_keys h') = names_add (m_names (m_keys h)) k /\
  (forall k', hash_get h' k' = if decide (k' = k) then v else hash_get h k').
Proof.
  intros Hh Hsmall h'. pose proof Hh as [H1 H2 H3 H4]. pose proof (addMaybe_spec (m_keys h) k H1 H2 H3) as HA.
  subst h'. unfold hash_setNew. destruct (addMaybe (m_keys h) k) as [keys i]. destruct HA as (A1 & A2 & A3 & A4 & A5).
  pose proof (length_names_add (m_names (m_keys h)) k) as Hlen. rewrite <- A3 in Hlen.
  pose proof (lookup_lt_Some _ _ _ A5) as Hi.
  assert (Hw : hash_wf (mkHash keys (seg_setNew (m_values h) (Z.to_nat i) v))).
  { split; cbn [m_keys m_values]; try done; [unfold nm_small; lia|]. rewrite length_seg_setNew. lia. }
  split; [done|]. split; [done|]. intros k'. destruct (decide (k' = k)) as [->|Hne].
  - rewrite (hash_get_present _ k (Z.to_nat i)) by done. cbn [m_values]. rewrite seg_get_setNew. by rewrite decide_True.
  - destruct (decide (k' ∈ m_names (m_keys h))) as [Hin|Hin].
    + apply list_elem_of_lookup in Hin as [j Hj].
      assert (Hj' : m_names keys !! j = Some k').
      { rewrite A3. unfold names_add. destruct (decide _); [done|]. by apply lookup_app_l_Some. }
      rewrite (hash_get_present _ k' j Hw Hj'), (hash_get_present h k' j Hh Hj). cbn [m_values]. rewrite seg_get_setNew.
      rewrite decide_False; [done|]. intros ->. rewrite A5 in Hj'. congruence.
    + rewrite (hash_get_absent h k') by done. apply (hash_get_absent _ _ Hw). cbn [m_keys]. rewrite A3. unfold names_add.
      destruct (decide _); [done|]. rewrite elem_of_app, list_elem_of_singleton. naive_solver.
Qed.

Lemma Hash_new_wf : hash_wf (Hash_new : Hash F).
Proof. split; [apply NameMap_new_wf|done|constructor|done]. Qed.

(** A sequence of assignments to a new hash. *)
Definition hash_of (l : list (list Z * value F)) : Hash F := fold_left (fun h kv => hash_setNew h kv.1 kv.2) l Hash_new.

(** The value of the last assignment to a key. *)
Definition last_value (l : list (list Z * value F)) (k : list Z) : value F :=
  fold_left (fun r kv => if decide (k = kv.1) then kv.2 else r) l VNull.
Definition first_uses (l : list (list Z * value F)) : list (list Z) := fold_left (fun ns kv => names_add ns kv.1) l [].

Lemma hash_of_spec l : Z.of_nat (length l) + 1 < nil_index ->
  hash_wf (hash_of l) /\ m_names (m_keys (hash_of l)) = first_uses l /\ (length (first_uses l) <= length l)%nat /\
  forall k, hash_get (hash_of l) k = last_value l k.
Proof.
  unfold hash_of, first_uses, last_value. induction l as [|kv l IH] using rev_ind; intros Hl.
  - split; [apply Hash_new_wf|]. split; [done|]. split; [done|]. intros k. apply hash_get_absent; [apply Hash_new_wf|]. apply not_elem_of_nil.
  - rewrite length_app in Hl. simpl in Hl. destruct (IH ltac:(lia)) as (H1 & H2 & H3 & H4). rewrite !fold_left_app. cbn [fold_left].
    destruct (hash_setNew_spec (fold_left (fun h kv => hash_setNew h kv.1 kv.2) l Hash_new) kv.1 kv.2 H1) as (A & B & C).
    { rewrite H2. lia. }
    split; [done|]. split; [by rewrite B, H2|]. split.
    { rewrite length_app. etransitivity; [apply length_names_add|]. simpl. lia. }
    intros k. rewrite C, fold_left_app, H4. done.
Qed.
End Hash.

(** An induction principle that reaches the elements of vectors and hashes *)
Lemma value_nested_ind {F : Type} (P : value F -> Prop) :
  P VNull -> (forall s, P (VString s)) -> (forall i, P (VInteger i)) -> (forall f, P (VFloat f)) -> (forall b, P (VBoolean b)) ->
  (forall keys values, Forall P values -> P (VHash keys values)) -> (forall values, Forall P values -> P (VVector values)) ->
  (forall src s, P (VError src s)) -> P VOther -> forall v, P v.
Proof.
  intros H1 H2 H3 H4 H5 H6 H7 H8 H9. fix IH 1. intros v.
  destruct v as [|s|i|f|b|keys values|values|src s|]; [apply H1|apply H2|apply H3|apply H4|apply H5|apply H6|apply H7|apply H8|apply H9].
  - induction values as [|x values IHv]; constructor; [apply IH|exact IHv].
  - induction values as [|x values IHv]; constructor; [apply IH|exact IHv].
Qed.

(** ** Segment and SegmentView: lemmas *)

Section Segments.
Context {F : Type}.
Implicit Types seg : list (value F).

Lemma popBackN_spec seg n : (n <= length seg)%nat -> popBackN seg n = Some (take (length seg - n) seg).
Proof.
  intros H. unfold popBackN. rewrite (proj2 (Nat.ltb_ge _ _)) by lia.
  revert seg H. induction n as [|n IH]; intros seg H; simpl; [by rewrite Nat.sub_0_r, take_ge|].
  unfold popBack. destruct (length seg) as [|m] eqn:E; [lia|]. simpl.
  rewrite IH by (rewrite length_take; lia). rewrite length_take, take_take. f_equal. f_equal. lia.
Qed.

Lemma transfer_loop_spec n pos seg other :
  (pos + n <= length seg)%nat ->
  exists seg', transfer_loop n pos seg other = (seg', other ++ take n (drop pos seg)) /\
    length seg' = length seg /\ take pos seg' = take pos seg.
Proof.
  revert pos seg other. induction n as [|n IH]; intros pos seg other H; cbn [transfer_loop].
  - exists seg. by rewrite take_0, app_nil_r.
  - unfold seg_extractElement. rewrite (proj2 (Nat.ltb_lt _ _)) by lia.
    destruct (lookup_lt_is_Some_2 seg pos ltac:(lia)) as [v Hv].
    destruct (IH (S pos) (<[pos := VNull]> seg) (pushBackNew other (nth pos seg VNull))) as (seg' & E & L & T);
      [rewrite length_insert; lia|].
    exists seg'. rewrite E, L, length_insert. split; [|split; [done|]].
    + f_equal. unfold pushBackNew. rewrite <- app_assoc. f_equal. rewrite drop_insert_lt by lia.
      rewrite nth_lookup, Hv, (drop_S seg v pos Hv). done.
    + apply (f_equal (take pos)) in T. rewrite !take_take, Nat.min_l in T by lia. rewrite T, take_insert_ge by lia. done.
Qed.

Lemma transferLastTo_spec seg count other : (count <= length seg)%nat ->
  transferLastTo seg count other = Some (take (length seg - count) seg, other ++ drop (length seg - count) seg).
Proof.
  intros H. unfold transferLastTo. rewrite (proj2 (Nat.ltb_ge _ _)) by lia.
  destruct (transfer_loop_spec count (length seg - count) seg other) as (seg' & -> & L & T); [lia|].
  rewrite popBackN_spec by lia. simpl. rewrite L, T. rewrite (take_ge (drop _ _)) by (rewrite length_drop; lia). done.
Qed.

(** The values a view still holds. *)
Definition view_rest (v : SegmentView F) : list (value F) := take (m_count v) (drop (m_index v) (m_segment v)).
Definition view_wf (v : SegmentView F) : Prop := (m_index v + m_count v <= length (m_segment v))%nat.

Lemma view_eat_spec v : view_wf v ->
  match view_rest v with
  | [] => view_eat v = (VNull, v) /\ view_size v = 0%nat
  | x :: r => (view_eat v).1 = x /\ view_rest (view_eat v).2 = r /\ view_wf (view_eat v).2
  end.
Proof.
  unfold view_wf, view_rest, view_eat, view_size. destruct v as [seg i n]. cbn [m_segment m_index m_count]. intros H.
  destruct n as [|n]; [done|]. destruct (lookup_lt_is_Some_2 seg i ltac:(lia)) as [x Hx]. rewrite (drop_S seg x i Hx). cbn [take fst snd].
  unfold seg_get. rewrite (proj2 (Z.ltb_lt _ _)), Nat2Z.id, nth_lookup, Hx by lia. cbn [m_segment m_index m_count]. split; [done|split; [done|lia]].
Qed.
End Segments.

(** Integers convert to text and back. *)
Lemma toInteger_show_int {F} `{!Double F} v : in_s 32 v -> toInteger (VString (show_int v) : value F) = Ok v.
Proof.
  unfold in_s. intros Hv. unfold toInteger, strToInt32, LONG_BITS.
  rewrite strToInteger_show_int by (unfold in_s; lia). rewrite bool_decide_false; [done|].
  rewrite show_int_text by (unfold in_s; lia). unfold int_text. destruct (0 <=? v) eqn:E; [|done].
  apply dec_spec. lia.
Qed.

(** ** Properties *)

(** Values.  A Hash is a map: after any sequence of assignments, looking up
    a key yields the last value assigned to it, or null, and the keys are listed
    once each in the order of their first use; the NameMap's hash buckets stay
    consistent.  A SegmentView yields the values of its part of the segment one
    after the other.  transferLastTo moves the last values of a segment to another
    one in order.  An integer converted to a string converts back. *)
Theorem data_containers_correct {F} `{!Double F} (l : list (list Z * value F)) (seg other : list (value F)) :
  Z.of_nat (length l) + 1 < nil_index ->
  (hash_wf (hash_of l) /\ m_names (m_keys (hash_of l)) = first_uses l /\ forall k, hash_get (hash_of l) k = last_value l k) /\
  (forall first limit, let v := SegmentView_part seg first limit in
     view_rest v = take limit (drop first seg) /\ view_wf v) /\
  (forall v : SegmentView F, view_wf v ->
     match view_rest v with
     | [] => view_eat v = (VNull, v) /\ view_size v = 0%nat
     | x :: r => (view_eat v).1 = x /\ view_rest (view_eat v).2 = r /\ view_wf (view_eat v).2
     end) /\
  (forall count, (count <= length seg)%nat ->
     transferLastTo seg count other = Some (take (length seg - count) seg, other ++ drop (length seg - count) seg)) /\
  (forall iv s, in_s 32 iv -> toString (VInteger iv : value F) = Ok s -> toInteger (VString s : value F) = Ok iv).
Proof.
  intros Hl. destruct (hash_of_spec l Hl) as (H1 & H2 & _ & H3). split; [done|]. split; [|split; [apply view_eat_spec|split; [intros count; apply transferLastTo_spec|]]].
  - intros first limit v. subst v. unfold SegmentView_part, view_rest, view_wf. cbn [m_count m_index m_segment]. split; [|lia].
    destruct (Nat.le_gt_cases (length seg) first) as [E|E].
    + rewrite (Nat.min_l (length seg) first) by lia. rewrite !(drop_ge seg) by lia. by rewrite !take_nil.
    + rewrite (Nat.min_r (length seg) first) by lia. destruct (Nat.le_gt_cases (length seg - first) limit).
      * rewrite (Nat.min_l _ limit) by lia. rewrite !take_ge by (rewrite length_drop; lia). done.
      * by rewrite (Nat.min_r _ limit) by lia.
  - intros iv s Hiv [= <-]. by apply toInteger_show_int.
Qed.

(** A concrete [double]: the integers. *)
#[local] Instance Double_Z : Double Z := {| float_to_int32 := swrap 32; format_float_25g := int_text |}.

Lemma data_containers_correct_witness :
  let l := [(lit "a", VInteger 1); (lit "bc", VInteger 2); (lit "a", VString (lit "x"))] : list (list Z * value Z) in
  hash_get (hash_of l) (lit "a") = VString (lit "x") /\ m_names (m_keys (hash_of l)) = [lit "a"; lit "bc"] /\
  (forall k, hash_get (hash_of l) k = last_value l k).
Proof.
  intros l. split; [by vm_compute|]. split; [by vm_compute|].
  destruct (data_containers_correct l [] []) as [(_ & _ & H) _]; [by vm_compute|exact H].
Defined.
