(* ===== verification/Redis.v ===== *)
(** * InternalDatabase

    src/afl/net/redis/internaldatabase.cpp: the in-process implementation of the
    redis commands.  The database maps keys to strings, hashes, lists and sets;
    a command is a sequence of values, consumed from the front; an error is an
    exception, and what the command has changed by then stays changed.

    std::map and std::set iterate in the order of their keys: [ordered].
    std::rand and std::sort are parameters. *)

From Stdlib Require Import ZArith Lia Bool String Ascii.
From stdpp Require Import base tactics numbers option list gmap sorting.
From S2P Require Import Prelude Strings Format Values.

Local Open Scope Z_scope.
Local Open Scope afl_scope.
Local Set Warnings "-notation-for-abbreviation".

Notation String_t := (list Z) (only parsing).

(** [operator<] of std::string *)
Definition string_le (a b : list Z) : Prop := lex a b <> Gt.
#[export] Instance string_le_dec : RelDecision string_le.
Proof. intros a b. unfold string_le. apply _. Defined.
Definition string_lt (a b : list Z) : bool := match lex a b with Lt => true | _ => false end.

(** The order in which std::map and std::set hold their keys *)
Definition ordered (l : list String_t) : list String_t := merge_sort string_le l.

(** class Key and the classes derived from it *)
Inductive Key :=
  | KString (m_string : String_t)
  | KHash (m_hash : gmap String_t String_t)
  | KList (m_list : list String_t)
  | KSet (m_set : gset String_t).

Definition getType (k : Key) : String_t :=
  match k with
  | KString _ => lit "string"
  | KHash _ => lit "hash"
  | KList _ => lit "list"
  | KSet _ => lit "set"
  end.

Notation Data_t := (gmap (list Z) Key) (only parsing).

(** Error messages *)
Definition MISSING_COMMAND : String_t := lit "Missing command".
Definition INVALID_PARAMETER_COUNT : String_t := lit "Invalid number of parameters".
Definition INVALID_OPTION : String_t := lit "Invalid option".
Definition INVALID_TYPE : String_t := lit "Invalid type".
Definition INVALID_TYPE_INT : String_t := lit "Invalid type (expect integer)".
Definition INVALID_INDEX : String_t := lit "Invalid index".
Definition INVALID_COMMAND : String_t := lit "Invalid command".
Definition KEY_NOT_FOUND : String_t := lit "Key not found".
Definition INTERNAL_DATABASE : String_t := lit "<InternalDatabase>".

(** A thrown exception; [Undefined] stands for an access outside an array. *)
Inductive error :=
  | Raise (e : exn)
  | RuntimeError (what : String_t)
  | Undefined.

(** int32_t(x) *)
Definition int32 (x : Z) : Z := swrap 32 x.
Definition size {A} (l : list A) : Z := Z.of_nat (length l).

Section InternalDatabase.
Context {F : Type} `{!Double F}.

(** ** Commands: the database and the arguments not consumed yet *)

Record state := mkState { m_data : Data_t; args : list (value F) }.
Definition M (A : Type) : Type := state -> state * outcome error A.

Definition ret {A} (a : A) : M A := fun s => (s, Ok a).
Definition bind {A B} (m : M A) (f : A -> M B) : M B := fun s =>
  match m s with
  | (s', Ok a) => f a s'
  | (s', Throw e) => (s', Throw e)
  end.
Notation "'let*' x ':=' m 'in' k" := (bind m (fun x => k))
  (at level 10, x name, m at level 200, k at level 200).
Notation "m ;* k" := (bind m (fun _ => k)) (at level 199, right associativity).

Definition raise {A} (e : error) : M A := fun s => (s, Throw e).
Definition fail {A} (msg : String_t) : M A := raise (Raise (RemoteErrorException INTERNAL_DATABASE msg)).
Definition lift {A} (r : outcome exn A) : M A := fun s =>
  (s, match r with Ok a => Ok a | Throw e => Throw (Raise e) end).

(** m_data *)
Definition get_db : M Data_t := fun s => (s, Ok (m_data s)).
Definition find_key (name : String_t) : M (option Key) := fun s => (s, Ok (m_data s !! name)).
Definition insertNew (name : String_t) (k : Key) : M unit := fun s => (mkState (<[ name := k ]> (m_data s)) (args s), Ok tt).
Definition erase (name : String_t) : M unit := fun s => (mkState (delete name (m_data s)) (args s), Ok tt).

(** v.size(), v.eat(): the variable [old] keeps its value when there is a null value or none *)
Definition argc : M nat := fun s => (s, Ok (length (args s))).
Definition eat_value : M (value F) := fun s =>
  match args s with
  | a :: rest => (mkState (m_data s) rest, Ok a)
  | [] => (s, Ok VNull)
  end.
Definition eat (old : String_t) : M String_t :=
  let* a := eat_value in
  if is_null a then ret old else lift (toString a).
Definition eat_int (old : Z) : M Z :=
  let* a := eat_value in
  if is_null a then ret old else lift (toInteger a).

(** [while (v.size() > 0) { ... }]: every round consumes at least one argument. *)
Fixpoint while_args_loop {A} (fuel : nat) (body : A -> M A) (a : A) : M A :=
  match fuel with
  | O => ret a
  | S fuel' =>
      let* n := argc in
      if (n =? 0)%nat then ret a
      else let* a := body a in while_args_loop fuel' body a
  end.
Definition while_args {A} (body : A -> M A) (a : A) : M A := let* n := argc in while_args_loop n body a.

Definition checkArgumentCount (need : nat) : M unit :=
  let* n := argc in
  if negb (n =? need)%nat then fail INVALID_PARAMETER_COUNT else ret tt.
Definition checkArgumentCountAtLeast (need : nat) : M unit :=
  let* n := argc in
  if (n <? need)%nat then fail INVALID_PARAMETER_COUNT else ret tt.

(** ** get, getCreate *)

(** The types T of get<T>, getCreate<T>: the result of the dynamic_cast, the
    object, the newly created one *)
Record KeyType (A : Type) := mkKeyType { cast : Key -> option A; object : A -> Key; fresh : A }.
#[global] Arguments mkKeyType {A}.
#[global] Arguments cast {A}.
#[global] Arguments object {A}.
#[global] Arguments fresh {A}.

Definition tString : KeyType String_t := mkKeyType (fun k => match k with KString s => Some s | _ => None end) KString [].
Definition tHash : KeyType (gmap String_t String_t) := mkKeyType (fun k => match k with KHash h => Some h | _ => None end) KHash ∅.
Definition tList : KeyType (list String_t) := mkKeyType (fun k => match k with KList l => Some l | _ => None end) KList [].
Definition tSet : KeyType (gset String_t) := mkKeyType (fun k => match k with KSet s => Some s | _ => None end) KSet ∅.

Definition set_elements (s : gset String_t) : list String_t := ordered (elements s).

(** class Sortable, with getValues *)
Definition getValues (k : Key) : option (list String_t) :=
  match k with
  | KList l => Some l
  | KSet s => Some (set_elements s)
  | _ => None
  end.

Definition get_as {A} (c : Key -> option A) (name : String_t) : M (option A) :=
  let* k := find_key name in
  match k with
  | Some k =>
      match c k with
      | Some a => ret (Some a)
      | None => fail INVALID_TYPE
      end
  | None => ret None
  end.
Definition get {A} (T : KeyType A) (name : String_t) : M (option A) := get_as (cast T) name.

Definition getCreate {A} (T : KeyType A) (name : String_t) : M A :=
  let* tk := get T name in
  match tk with
  | Some a => ret a
  | None => insertNew name (object T (fresh T)) ;* ret (fresh T)
  end.

(** An assignment to a member of the object stored under [name] *)
Definition update {A} (T : KeyType A) (name : String_t) (a : A) : M unit := insertNew name (object T a).

(** ** Results *)

Definition createInteger (i : Z) : M (value F) := ret (VInteger i).
Definition createString (s : String_t) : M (value F) := ret (VString s).
Definition createNull : M (value F) := ret VNull.
Definition createVector (l : list (value F)) : M (value F) := ret (VVector l).
Definition OK : M (value F) := createString (lit "OK").

(** ** String commands *)

(** The integer held by a string; an empty string counts as 0 *)
Definition int_of (s : String_t) : M Z :=
  if bool_decide (s = []) then ret 0
  else match strToInt32 s with
       | Some i => ret i
       | None => fail INVALID_TYPE_INT
       end.

(** getCreate<String>(keyArg).modify(delta) *)
Definition modify (keyArg : String_t) (delta : Z) : M Z :=
  let* s := getCreate tString keyArg in
  let* intVal := int_of s in
  let intVal := int32 (intVal + delta) in
  update tString keyArg (show_int intVal) ;* ret intVal.

Definition cmd_APPEND : M (value F) :=
  checkArgumentCount 2 ;*
  let* keyArg := eat [] in
  let* stringArg := eat [] in
  let* sk := getCreate tString keyArg in
  let sk := sk ++ stringArg in
  update tString keyArg sk ;*
  createInteger (int32 (size sk)).

Definition cmd_DECR : M (value F) :=
  checkArgumentCount 1 ;*
  let* keyArg := eat [] in
  let* r := modify keyArg (-1) in createInteger r.

Definition cmd_DECRBY : M (value F) :=
  checkArgumentCount 2 ;*
  let* keyArg := eat [] in
  let* intArg := eat_int 0 in
  let* r := modify keyArg (int32 (- intArg)) in createInteger r.

Definition cmd_INCR : M (value F) :=
  checkArgumentCount 1 ;*
  let* keyArg := eat [] in
  let* r := modify keyArg 1 in createInteger r.

Definition cmd_INCRBY : M (value F) :=
  checkArgumentCount 2 ;*
  let* keyArg := eat [] in
  let* intArg := eat_int 0 in
  let* r := modify keyArg intArg in createInteger r.

Definition cmd_GET : M (value F) :=
  checkArgumentCount 1 ;*
  let* keyArg := eat [] in
  let* sk := get tString keyArg in
  match sk with
  | Some s => createString s
  | None => createNull
  end.

(** The range of GETRANGE *)
Definition getrange (s : String_t) (beg end_ : Z) : String_t :=
  let beg := if beg <? 0 then beg + int32 (size s) else beg in
  let end_ := if end_ <? 0 then end_ + int32 (size s) else end_ in
  let beg := if beg <? 0 then 0 else beg in
  let end_ := if end_ <? 0 then 0 else end_ in
  let end_ := int32 (end_ + 1) in
  if (end_ <=? beg) || (int32 (size s) <=? beg) then []
  else take (Z.to_nat (end_ - beg)) (drop (Z.to_nat beg) s).

Definition cmd_GETRANGE : M (value F) :=
  checkArgumentCount 3 ;*
  let* keyArg := eat [] in
  let* beg := eat_int 0 in
  let* end_ := eat_int 0 in
  let* sk := get tString keyArg in
  match sk with
  | Some s => createString (getrange s beg end_)
  | None => createNull
  end.

Definition cmd_GETSET : M (value F) :=
  checkArgumentCount 2 ;*
  let* keyArg := eat [] in
  let* stringArg := eat [] in
  let* sk := get tString keyArg in
  let* _ := getCreate tString keyArg in
  update tString keyArg stringArg ;*
  match sk with
  | Some s => createString s
  | None => createNull
  end.

Definition cmd_MSET : M (value F) :=
  let* n := argc in
  if negb (n mod 2 =? 0)%nat then fail INVALID_PARAMETER_COUNT
  else
    while_args (fun '(keyArg, stringArg) =>
      let* keyArg := eat keyArg in
      let* stringArg := eat stringArg in
      erase keyArg ;*
      let* _ := getCreate tString keyArg in
      update tString keyArg stringArg ;*
      ret (keyArg, stringArg)) ([], []) ;*
    OK.

Definition cmd_SET : M (value F) :=
  checkArgumentCount 2 ;*
  let* keyArg := eat [] in
  let* stringArg := eat [] in
  erase keyArg ;*
  let* _ := getCreate tString keyArg in
  update tString keyArg stringArg ;*
  OK.

Definition cmd_SETNX : M (value F) :=
  checkArgumentCount 2 ;*
  let* keyArg := eat [] in
  let* stringArg := eat [] in
  let* sk := get tString keyArg in
  match sk with
  | Some _ => createInteger 0
  | None => insertNew keyArg (KString stringArg) ;* createInteger 1
  end.

Definition cmd_STRLEN : M (value F) :=
  checkArgumentCount 1 ;*
  let* keyArg := eat [] in
  let* sk := get tString keyArg in
  match sk with
  | Some s => createInteger (int32 (size s))
  | None => createInteger 0
  end.

(** ** Key commands *)

Definition bool_int (b : bool) : Z := if b then 1 else 0.
Definition present {A} (o : option A) : bool := match o with Some _ => true | None => false end.

Definition cmd_DEL : M (value F) :=
  let* r := while_args (fun '(keyArg, n) =>
      let* keyArg := eat keyArg in
      let* k := find_key keyArg in
      erase keyArg ;*
      ret (keyArg, n + bool_int (present k))) ([], 0) in
  createInteger (snd r).

Definition cmd_EXISTS : M (value F) :=
  let* r := while_args (fun '(keyArg, n) =>
      let* keyArg := eat keyArg in
      let* k := find_key keyArg in
      ret (keyArg, n + bool_int (present k))) ([], 0) in
  createInteger (snd r).

(** matchKey *)
Definition matchKey (pat key : String_t) : bool :=
  match find pat [42] with
  | None => bool_decide (pat = key)
  | Some n =>
      let endLength := (length pat - n - 1)%nat in
      (length pat - 1 <=? length key)%nat
      && bool_decide (take n pat = take n key)
      && bool_decide (take endLength (drop (length pat - endLength) pat) = take endLength (drop (length key - endLength) key))
  end.

Definition db_keys (db : Data_t) : list String_t := ordered (map fst (map_to_list db)).

Definition cmd_KEYS : M (value F) :=
  checkArgumentCount 1 ;*
  let* keyArg := eat [] in
  let* db := get_db in
  createVector (map VString (filter (fun k => matchKey keyArg k = true) (db_keys db))).

Definition cmd_RENAME : M (value F) :=
  checkArgumentCount 2 ;*
  let* keyArg := eat [] in
  let* stringArg := eat [] in
  let* k := find_key keyArg in
  match k with
  | None => fail KEY_NOT_FOUND
  | Some k => erase keyArg ;* insertNew stringArg k ;* OK
  end.

Definition cmd_RENAMENX : M (value F) :=
  checkArgumentCount 2 ;*
  let* keyArg := eat [] in
  let* stringArg := eat [] in
  let* k := find_key keyArg in
  match k with
  | None => fail KEY_NOT_FOUND
  | Some k =>
      let* t := find_key stringArg in
      match t with
      | None => erase keyArg ;* insertNew stringArg k ;* createInteger 1
      | Some _ => createInteger 0
      end
  end.

Definition cmd_TYPE : M (value F) :=
  checkArgumentCount 1 ;*
  let* keyArg := eat [] in
  let* k := get_as Some keyArg in
  match k with
  | None => createString (lit "none")
  | Some k => createString (getType k)
  end.

(** ** Hash commands *)

Definition cmd_HDEL : M (value F) :=
  checkArgumentCountAtLeast 1 ;*
  let* keyArg := eat [] in
  let* hk := get tHash keyArg in
  match hk with
  | None => createInteger 0
  | Some _ =>
      let* r := while_args (fun '(fieldArg, n) =>
          let* fieldArg := eat fieldArg in
          let* h := getCreate tHash keyArg in
          update tHash keyArg (delete fieldArg h) ;*
          ret (fieldArg, n + bool_int (present (h !! fieldArg)))) ([], 0) in
      let* h := getCreate tHash keyArg in
      (if bool_decide (h = ∅) then erase keyArg else ret tt) ;*
      createInteger (snd r)
  end.

Definition cmd_HEXISTS : M (value F) :=
  checkArgumentCountAtLeast 1 ;*
  let* keyArg := eat [] in
  let* hk := get tHash keyArg in
  match hk with
  | None => createInteger 0
  | Some h =>
      let* r := while_args (fun '(keyArg, n) =>
          let* keyArg := eat keyArg in
          ret (keyArg, n + bool_int (present (h !! keyArg)))) (keyArg, 0) in
      createInteger (snd r)
  end.

Definition cmd_HGET : M (value F) :=
  checkArgumentCount 2 ;*
  let* keyArg := eat [] in
  let* fieldArg := eat [] in
  let* hk := get tHash keyArg in
  match hk with
  | Some h => match h !! fieldArg with Some x => createString x | None => createNull end
  | None => createNull
  end.

(** The pairs of a std::map in order *)
Definition hash_pairs (h : gmap String_t String_t) : list (String_t * String_t) :=
  map (fun k => (k, default [] (h !! k))) (ordered (map fst (map_to_list h))).

Definition cmd_HGETALL : M (value F) :=
  checkArgumentCount 1 ;*
  let* keyArg := eat [] in
  let* hk := get tHash keyArg in
  createVector (match hk with
                | Some h => concat (map (fun kx => [VString kx.1; VString kx.2]) (hash_pairs h))
                | None => []
                end).

Definition cmd_HINCRBY : M (value F) :=
  checkArgumentCount 3 ;*
  let* keyArg := eat [] in
  let* fieldArg := eat [] in
  let* intArg := eat_int 0 in
  let* hk := getCreate tHash keyArg in
  let stringVal := default [] (hk !! fieldArg) in
  let hk := <[ fieldArg := stringVal ]> hk in
  update tHash keyArg hk ;*
  let* intVal := int_of stringVal in
  let intVal := int32 (intVal + intArg) in
  update tHash keyArg (<[ fieldArg := show_int intVal ]> hk) ;*
  createInteger intVal.

Definition cmd_HKEYS : M (value F) :=
  checkArgumentCount 1 ;*
  let* keyArg := eat [] in
  let* hk := get tHash keyArg in
  createVector (match hk with
                | Some h => map (fun kx => VString kx.1) (hash_pairs h)
                | None => []
                end).

Definition cmd_HLEN : M (value F) :=
  checkArgumentCount 1 ;*
  let* keyArg := eat [] in
  let* hk := get tHash keyArg in
  createInteger (match hk with Some h => int32 (size (map_to_list h)) | None => 0 end).

Definition cmd_HMGET : M (value F) :=
  checkArgumentCountAtLeast 1 ;*
  let* keyArg := eat [] in
  let* hk := get tHash keyArg in
  match hk with
  | None => createVector []
  | Some h =>
      let* r := while_args (fun '(fieldArg, result) =>
          let* fieldArg := eat fieldArg in
          ret (fieldArg, result ++ [match h !! fieldArg with Some x => VString x | None => VNull end])) ([], []) in
      createVector (snd r)
  end.

Definition cmd_HMSET : M (value F) :=
  let* n := argc in
  if negb (n mod 2 =? 1)%nat then fail INVALID_PARAMETER_COUNT
  else
    let* keyArg := eat [] in
    let* _ := getCreate tHash keyArg in
    while_args (fun '(fieldArg, stringArg) =>
      let* fieldArg := eat fieldArg in
      let* stringArg := eat stringArg in
      let* h := getCreate tHash keyArg in
      update tHash keyArg (<[ fieldArg := stringArg ]> h) ;*
      ret (fieldArg, stringArg)) ([], []) ;*
    OK.

Definition cmd_HSET : M (value F) :=
  checkArgumentCount 3 ;*
  let* keyArg := eat [] in
  let* fieldArg := eat [] in
  let* stringArg := eat [] in
  let* hk := getCreate tHash keyArg in
  let result := bool_int (negb (present (hk !! fieldArg))) in
  update tHash keyArg (<[ fieldArg := stringArg ]> hk) ;*
  createInteger result.

(** ** List commands *)

(** List::convertIndex *)
Definition convertIndex (l : list String_t) (n : Z) : Z :=
  if 0 <=? n then n else usize (size l - usize (int32 (- n))).

(** List::getByIndex, List::setByIndex *)
Fixpoint getByIndex (l : list String_t) (index : Z) : option String_t :=
  match l with
  | [] => None
  | x :: l' => if 0 <? index then getByIndex l' (index - 1) else Some x
  end.
Fixpoint setByIndex (l : list String_t) (index : Z) (val : String_t) : option (list String_t) :=
  match l with
  | [] => None
  | x :: l' => if 0 <? index then cons x <$> setByIndex l' (index - 1) val else Some (val :: l')
  end.

Definition cmd_LINDEX : M (value F) :=
  checkArgumentCount 2 ;*
  let* keyArg := eat [] in
  let* intArg := eat_int 0 in
  let* lk := get tList keyArg in
  match lk with
  | Some l => match getByIndex l (convertIndex l intArg) with Some x => createString x | None => createNull end
  | None => createNull
  end.

Definition cmd_LLEN : M (value F) :=
  checkArgumentCount 1 ;*
  let* keyArg := eat [] in
  let* lk := get tList keyArg in
  createInteger (match lk with Some l => int32 (size l) | None => 0 end).

(** lk->m_list.empty(): remove the key *)
Definition erase_if_empty (keyArg : String_t) (l : list String_t) : M unit :=
  if bool_decide (l = []) then erase keyArg else ret tt.

Definition cmd_LPOP : M (value F) :=
  checkArgumentCount 1 ;*
  let* keyArg := eat [] in
  let* lk := get tList keyArg in
  match lk with
  | Some (x :: l) => update tList keyArg l ;* erase_if_empty keyArg l ;* createString x
  | Some [] => createNull
  | None => createNull
  end.

Definition cmd_LPUSH : M (value F) :=
  checkArgumentCountAtLeast 2 ;*
  let* keyArg := eat [] in
  let* _ := getCreate tList keyArg in
  while_args (fun stringArg =>
    let* stringArg := eat stringArg in
    let* l := getCreate tList keyArg in
    update tList keyArg (stringArg :: l) ;*
    ret stringArg) [] ;*
  let* l := getCreate tList keyArg in
  createInteger (int32 (size l)).

(** [while (i <= j && lk->getByIndex(i, stringArg))]: at most one round per element *)
Fixpoint lrange_loop (fuel : nat) (l : list String_t) (i j : Z) : list String_t :=
  match fuel with
  | O => []
  | S fuel' =>
      if i <=? j
      then match getByIndex l i with
           | Some x => x :: lrange_loop fuel' l (usize (i + 1)) j
           | None => []
           end
      else []
  end.
Definition lrange (l : list String_t) (beg end_ : Z) : list String_t :=
  lrange_loop (length l) l (convertIndex l beg) (convertIndex l end_).

Definition cmd_LRANGE : M (value F) :=
  checkArgumentCount 3 ;*
  let* keyArg := eat [] in
  let* beg := eat_int 0 in
  let* end_ := eat_int 0 in
  let* lk := get tList keyArg in
  createVector (match lk with Some l => map VString (lrange l beg end_) | None => [] end).

(** The loop of LREM: remaining list, number of elements removed.  [step] is
    -1 or 1; the loop ends when the count reaches 0. *)
Fixpoint lrem_loop (val : String_t) (step : Z) (l : list String_t) (count : Z) : list String_t * Z :=
  match l with
  | [] => ([], 0)
  | x :: l' =>
      if bool_decide (x = val)
      then if count + step =? 0 then (l', 1)
           else let '(r, n) := lrem_loop val step l' (count + step) in (r, n + 1)
      else let '(r, n) := lrem_loop val step l' count in (x :: r, n)
  end.
(** A negative count goes from the end of the list to its start. *)
Definition lrem (l : list String_t) (count : Z) (val : String_t) : list String_t * Z :=
  if count <? 0
  then let '(r, n) := lrem_loop val 1 (reverse l) count in (reverse r, n)
  else lrem_loop val (-1) l count.

Definition cmd_LREM : M (value F) :=
  checkArgumentCount 3 ;*
  let* keyArg := eat [] in
  let* intArg := eat_int 0 in
  let* stringArg := eat [] in
  let* lk := get tList keyArg in
  match lk with
  | None => createInteger 0
  | Some l =>
      let '(r, n) := lrem l intArg stringArg in
      update tList keyArg r ;* createInteger n
  end.

Definition cmd_LSET : M (value F) :=
  checkArgumentCount 3 ;*
  let* keyArg := eat [] in
  let* intArg := eat_int 0 in
  let* stringArg := eat [] in
  let* lk := get tList keyArg in
  match lk with
  | None => fail INVALID_INDEX
  | Some l =>
      match setByIndex l (convertIndex l intArg) stringArg with
      | None => fail INVALID_INDEX
      | Some l => update tList keyArg l ;* OK
      end
  end.

(** The two loops of LTRIM *)
Fixpoint ltrim_front (l : list String_t) (i j : Z) : list String_t * Z :=
  match l with
  | [] => ([], j)
  | _ :: l' => if 0 <? i then ltrim_front l' (i - 1) (if 0 <? j then j - 1 else j) else (l, j)
  end.
(** [while (lk->m_list.size() > j+1)] *)
Definition ltrim_back (l : list String_t) (j : Z) : list String_t :=
  if usize (j + 1) <? size l then take (Z.to_nat (usize (j + 1))) l else l.
Definition ltrim (l : list String_t) (beg end_ : Z) : list String_t :=
  let '(l', j) := ltrim_front l (convertIndex l beg) (convertIndex l end_) in ltrim_back l' j.

Definition cmd_LTRIM : M (value F) :=
  checkArgumentCount 3 ;*
  let* keyArg := eat [] in
  let* beg := eat_int 0 in
  let* end_ := eat_int 0 in
  let* lk := get tList keyArg in
  match lk with
  | None => OK
  | Some l =>
      let l := ltrim l beg end_ in
      update tList keyArg l ;* erase_if_empty keyArg l ;* OK
  end.

Definition cmd_RPOP : M (value F) :=
  checkArgumentCount 1 ;*
  let* keyArg := eat [] in
  let* lk := get tList keyArg in
  match lk with
  | None => createNull
  | Some l =>
      match last l with
      | None => createNull
      | Some x =>
          let l := take (length l - 1) l in
          update tList keyArg l ;* erase_if_empty keyArg l ;* createString x
      end
  end.

(** The two lists can be the same one. *)
Definition cmd_RPOPLPUSH : M (value F) :=
  checkArgumentCount 2 ;*
  let* keyArg := eat [] in
  let* stringArg := eat [] in
  let* lk := get tList keyArg in
  match lk with
  | None => createNull
  | Some l =>
      match last l with
      | None => createNull
      | Some x =>
          let* other := getCreate tList stringArg in
          update tList stringArg (x :: other) ;*
          let* l := getCreate tList keyArg in
          let l := take (length l - 1) l in
          update tList keyArg l ;* erase_if_empty keyArg l ;* createString x
      end
  end.

Definition cmd_RPUSH : M (value F) :=
  checkArgumentCountAtLeast 2 ;*
  let* keyArg := eat [] in
  let* _ := getCreate tList keyArg in
  while_args (fun stringArg =>
    let* stringArg := eat stringArg in
    let* l := getCreate tList keyArg in
    update tList keyArg (l ++ [stringArg]) ;*
    ret stringArg) [] ;*
  let* l := getCreate tList keyArg in
  createInteger (int32 (size l)).

(** ** Set commands *)

Inductive SetOperation := Difference | Intersection | Union.

Definition combine_sets (op : SetOperation) (out set : gset String_t) : gset String_t :=
  match op with
  | Difference => out ∖ set
  | Intersection => out ∩ set
  | Union => out ∪ set
  end.

(** [executeSetOperation]; [assert(v.size() > 0)] holds for all callers *)
Definition executeSetOperation (op : SetOperation) : M (gset String_t) :=
  let* key := eat [] in
  let* sk := get tSet key in
  let out := default ∅ sk in
  let* r := while_args (fun '(key, out) =>
      let* key := eat key in
      let* sk := get tSet key in
      ret (key, combine_sets op out (default ∅ sk))) (key, out) in
  ret (snd r).

Definition cmd_SETOP (op : SetOperation) : M (value F) :=
  checkArgumentCountAtLeast 1 ;*
  let* set := executeSetOperation op in
  createVector (map VString (set_elements set)).

Definition cmd_SETOPSTORE (op : SetOperation) : M (value F) :=
  checkArgumentCountAtLeast 2 ;*
  let* keyArg := eat [] in
  let* set := executeSetOperation op in
  let* _ := getCreate tSet keyArg in
  update tSet keyArg set ;*
  (if bool_decide (set = ∅) then erase keyArg else ret tt) ;*
  createInteger (int32 (size (elements set))).

Definition cmd_SADD : M (value F) :=
  checkArgumentCountAtLeast 2 ;*
  let* keyArg := eat [] in
  let* _ := getCreate tSet keyArg in
  let* r := while_args (fun '(stringArg, result) =>
      let* stringArg := eat stringArg in
      let* sk := getCreate tSet keyArg in
      if bool_decide (stringArg ∈ sk) then ret (stringArg, result)
      else update tSet keyArg ({[ stringArg ]} ∪ sk) ;* ret (stringArg, result + 1)) ([], 0) in
  createInteger (snd r).

Definition cmd_SCARD : M (value F) :=
  checkArgumentCount 1 ;*
  let* keyArg := eat [] in
  let* sk := get tSet keyArg in
  createInteger (match sk with Some s => int32 (size (elements s)) | None => 0 end).

Definition cmd_SISMEMBER : M (value F) :=
  checkArgumentCount 2 ;*
  let* keyArg := eat [] in
  let* stringArg := eat [] in
  let* sk := get tSet keyArg in
  createInteger (match sk with Some s => bool_int (bool_decide (stringArg ∈ s)) | None => 0 end).

Definition cmd_SMEMBERS : M (value F) :=
  checkArgumentCount 1 ;*
  let* keyArg := eat [] in
  let* sk := get tSet keyArg in
  createVector (match sk with Some s => map VString (set_elements s) | None => [] end).

(** The two sets can be the same one. *)
Definition cmd_SMOVE : M (value F) :=
  checkArgumentCount 3 ;*
  let* keyArg := eat [] in
  let* dest := eat [] in
  let* stringArg := eat [] in
  let* sk := get tSet keyArg in
  match sk with
  | None => createInteger 0
  | Some s =>
      if bool_decide (stringArg ∈ s)
      then
        update tSet keyArg (s ∖ {[ stringArg ]}) ;*
        let* d := getCreate tSet dest in
        update tSet dest ({[ stringArg ]} ∪ d) ;*
        let* s := getCreate tSet keyArg in
        (if bool_decide (s = ∅) then erase keyArg else ret tt) ;*
        createInteger 1
      else createInteger 0
  end.

(** Set::getRandomElement: element and remaining set; [rand] is what std::rand returns *)
Definition getRandomElement (rand : Z) (s : gset String_t) (remove : bool) : option (String_t * gset String_t) :=
  if bool_decide (s = ∅) then None
  else let l := set_elements s in
       match l !! Z.to_nat (usize rand mod size l) with
       | Some x => Some (x, if remove then s ∖ {[ x ]} else s)
       | None => None
       end.

Definition cmd_SPOP (rand : Z) (remove : bool) : M (value F) :=
  checkArgumentCount 1 ;*
  let* keyArg := eat [] in
  let* sk := get tSet keyArg in
  match sk ≫= (fun s => getRandomElement rand s remove) with
  | Some (x, s) =>
      update tSet keyArg s ;*
      (if bool_decide (s = ∅) then erase keyArg else ret tt) ;*
      createString x
  | None => createNull
  end.

Definition cmd_SREM : M (value F) :=
  checkArgumentCountAtLeast 2 ;*
  let* keyArg := eat [] in
  let* sk := get tSet keyArg in
  match sk with
  | None => createInteger 0
  | Some _ =>
      let* r := while_args (fun '(stringArg, result) =>
          let* stringArg := eat stringArg in
          let* s := getCreate tSet keyArg in
          update tSet keyArg (s ∖ {[ stringArg ]}) ;*
          ret (stringArg, result + bool_int (bool_decide (stringArg ∈ s)))) ([], 0) in
      let* s := getCreate tSet keyArg in
      (if bool_decide (s = ∅) then erase keyArg else ret tt) ;*
      createInteger (snd r)
  end.

(** ** SORT *)

(** [getSortValue]: the result when it is true *)
Definition getSortValue (db : Data_t) (originValue pattern : String_t) : option String_t :=
  if bool_decide (pattern = lit "#") then Some originValue
  else
    let pattern := match find pattern (lit "*") with
                   | Some n => take n pattern ++ originValue ++ drop (n + 1) pattern
                   | None => pattern
                   end in
    match find pattern (lit "->") with
    | Some n =>
        match db !! take n pattern with
        | Some (KHash h) => h !! drop (n + 2) pattern
        | _ => None
        end
    | None =>
        match db !! pattern with
        | Some (KString s) => Some s
        | _ => None
        end
    end.

(** Sorter::operator() *)
Definition sort_int (s : String_t) : option Z := if bool_decide (s = []) then Some 0 else strToInt32 s.
Definition Sorter (db : Data_t) (pattern : String_t) (descending alpha : bool) (a b : String_t) : outcome error bool :=
  let va := default [] (getSortValue db a pattern) in
  let vb := default [] (getSortValue db b pattern) in
  let as_ := if descending then vb else va in
  let bs := if descending then va else vb in
  if alpha then Ok (string_lt as_ bs)
  else match sort_int as_, sort_int bs with
       | Some ai, Some bi => Ok (ai <? bi)
       | _, _ => Throw (Raise (RemoteErrorException INTERNAL_DATABASE INVALID_TYPE_INT))
       end.

Record SortOptions := mkSortOptions {
  so_pattern : String_t; so_get : list String_t; so_limit : bool; so_offset : Z; so_count : Z;
  so_descending : bool; so_alpha : bool; so_store : bool; so_storeKey : String_t;
}.
Definition SortOptions_new : SortOptions := mkSortOptions (lit "#") [] false 0 0 false false false [].

(** "Parse parameters": one option *)
Definition parse_option (o : SortOptions) : M SortOptions :=
  let* flag := eat [] in
  let flag := strUCase flag in
  let '(mkSortOptions pattern get limit offset count descending alpha store storeKey) := o in
  if bool_decide (flag = lit "BY") then
    checkArgumentCountAtLeast 1 ;*
    let* pattern := eat pattern in
    ret (mkSortOptions pattern get limit offset count descending alpha store storeKey)
  else if bool_decide (flag = lit "LIMIT") then
    checkArgumentCountAtLeast 2 ;*
    let* offset := eat_int offset in
    let* count := eat_int count in
    ret (mkSortOptions pattern get true offset count descending alpha store storeKey)
  else if bool_decide (flag = lit "GET") then
    checkArgumentCountAtLeast 1 ;*
    let* n := eat [] in
    ret (mkSortOptions pattern (get ++ [n]) limit offset count descending alpha store storeKey)
  else if bool_decide (flag = lit "ASC") then
    ret (mkSortOptions pattern get limit offset count false alpha store storeKey)
  else if bool_decide (flag = lit "DESC") then
    ret (mkSortOptions pattern get limit offset count true alpha store storeKey)
  else if bool_decide (flag = lit "ALPHA") then
    ret (mkSortOptions pattern get limit offset count descending true store storeKey)
  else if bool_decide (flag = lit "STORE") then
    checkArgumentCountAtLeast 1 ;*
    let* storeKey := eat storeKey in
    ret (mkSortOptions pattern get limit offset count descending alpha true storeKey)
  else fail INVALID_OPTION.

(** [for (i = offset; i < size && count > 0; ++i, --count)], one [row] per element *)
Fixpoint sort_output (fuel : nat) (values : list String_t) (i count : Z) : outcome error (list String_t) :=
  match fuel with
  | O => Ok []
  | S fuel' =>
      if (i <? int32 (size values)) && (0 <? count)
      then if i <? 0 then Throw Undefined
           else match values !! Z.to_nat i with
                | Some x => let! r := sort_output fuel' values (i + 1) (count - 1) in Ok (x :: r)
                | None => Throw Undefined
                end
      else Ok []
  end.

(** [std::sort] with a comparison that can throw *)
Context (std_sort : (String_t -> String_t -> outcome error bool) -> list String_t -> outcome error (list String_t)).

Definition lift_error {A} (r : outcome error A) : M A := fun s => (s, r).

Definition executeSortOperation (key : option (list String_t)) : M (list (value F)) :=
  let* o := while_args parse_option SortOptions_new in
  let gets := if bool_decide (so_get o = []) then [lit "#"] else so_get o in
  let originValues := default [] key in
  let* db := get_db in
  let* originValues := lift_error (std_sort (Sorter db (so_pattern o) (so_descending o) (so_alpha o)) originValues) in
  let offset := if so_limit o then so_offset o else 0 in
  let count := if so_limit o then so_count o else int32 (size originValues) in
  let rows := sort_output (length originValues) originValues offset count in
  if so_store o
  then
    erase (so_storeKey o) ;*
    if bool_decide (originValues = []) then ret []
    else
      let* l := getCreate tList (so_storeKey o) in
      let* db := get_db in
      let* rows := lift_error rows in
      update tList (so_storeKey o)
        (l ++ concat (map (fun x => map (fun p => default [] (getSortValue db x p)) gets) rows)) ;*
      ret []
  else
    let* rows := lift_error rows in
    ret (concat (map (fun x => map (fun p => match getSortValue db x p with Some t => VString t | None => VNull end) gets) rows)).

Definition cmd_SORT : M (value F) :=
  checkArgumentCountAtLeast 1 ;*
  let* keyArg := eat [] in
  let* k := get_as getValues keyArg in
  let* result := executeSortOperation k in
  createVector result.

(** ** execute, call *)

Definition cmd_PING : M (value F) := createString (lit "PONG").

(** The chain of [if (verb == ...)], in order *)
Definition commands (rand : Z) : list (String_t * M (value F)) :=
  [ (lit "APPEND", cmd_APPEND); (lit "DECR", cmd_DECR); (lit "DECRBY", cmd_DECRBY); (lit "DEL", cmd_DEL);
    (lit "EXISTS", cmd_EXISTS); (lit "GET", cmd_GET); (lit "GETRANGE", cmd_GETRANGE); (lit "GETSET", cmd_GETSET);
    (lit "HDEL", cmd_HDEL); (lit "HEXISTS", cmd_HEXISTS); (lit "HGET", cmd_HGET); (lit "HGETALL", cmd_HGETALL);
    (lit "HINCRBY", cmd_HINCRBY); (lit "HKEYS", cmd_HKEYS); (lit "HLEN", cmd_HLEN); (lit "HMGET", cmd_HMGET);
    (lit "HMSET", cmd_HMSET); (lit "HSET", cmd_HSET); (lit "INCR", cmd_INCR); (lit "INCRBY", cmd_INCRBY);
    (lit "KEYS", cmd_KEYS); (lit "LINDEX", cmd_LINDEX); (lit "LLEN", cmd_LLEN); (lit "LPOP", cmd_LPOP);
    (lit "LPUSH", cmd_LPUSH); (lit "LRANGE", cmd_LRANGE); (lit "LREM", cmd_LREM); (lit "LSET", cmd_LSET);
    (lit "LTRIM", cmd_LTRIM); (lit "MSET", cmd_MSET); (lit "RENAME", cmd_RENAME); (lit "RENAMENX", cmd_RENAMENX);
    (lit "RPOP", cmd_RPOP); (lit "RPOPLPUSH", cmd_RPOPLPUSH); (lit "RPUSH", cmd_RPUSH); (lit "SADD", cmd_SADD);
    (lit "SCARD", cmd_SCARD); (lit "SDIFF", cmd_SETOP Difference); (lit "SDIFFSTORE", cmd_SETOPSTORE Difference);
    (lit "SET", cmd_SET); (lit "SETNX", cmd_SETNX); (lit "SINTER", cmd_SETOP Intersection);
    (lit "SINTERSTORE", cmd_SETOPSTORE Intersection); (lit "SISMEMBER", cmd_SISMEMBER); (lit "SMEMBERS", cmd_SMEMBERS);
    (lit "SMOVE", cmd_SMOVE); (lit "SORT", cmd_SORT); (lit "SPOP", cmd_SPOP rand true);
    (lit "SRANDMEMBER", cmd_SPOP rand false); (lit "SREM", cmd_SREM); (lit "STRLEN", cmd_STRLEN);
    (lit "SUNION", cmd_SETOP Union); (lit "SUNIONSTORE", cmd_SETOPSTORE Union); (lit "TYPE", cmd_TYPE);
    (lit "PING", cmd_PING) ].

Fixpoint dispatch (table : list (String_t * M (value F))) (verb : String_t) : M (value F) :=
  match table with
  | [] => fail INVALID_COMMAND
  | (name, cmd) :: table' => if bool_decide (verb = name) then cmd else dispatch table' verb
  end.
Definition execute (rand : Z) (verb : String_t) : M (value F) := dispatch (commands rand) verb.

Definition error_what (e : error) : String_t :=
  match e with
  | Raise e => what e
  | RuntimeError w => w
  | Undefined => []
  end.

(** The address of [e.what()] is not null. *)
Definition rethrow_message (w verb : String_t) : String_t :=
  Format (lit "%s [verb: %s]") [FormatCString 1 w; FormatString verb].

(** [call]: new database, result *)
Definition call (rand : Z) (command : list (value F)) (db : Data_t) : Data_t * outcome error (value F) :=
  let s := mkState db command in
  match eat_value s with
  | (s, Ok VNull) => (m_data s, Throw (Raise (RemoteErrorException INTERNAL_DATABASE MISSING_COMMAND)))
  | (s, Ok a) =>
      match toString a with
      | Throw e => (m_data s, Throw (Raise e))
      | Ok verb =>
          let verb := strUCase verb in
          match execute rand verb s with
          | (s, Ok v) => (m_data s, Ok v)
          | (s, Throw Undefined) => (m_data s, Throw Undefined)
          | (s, Throw e) => (m_data s, Throw (RuntimeError (rethrow_message (error_what e) verb)))
          end
      end
  | (s, Throw e) => (m_data s, Throw e)
  end.
End InternalDatabase.

(** A concrete instance: integers for double, insertion sort. *)
Module Concrete.
#[export] Instance Double_Z : Double Z := {| float_to_int32 := swrap 32; format_float_25g := int_text |}.

Fixpoint insert_sorted (lt : String_t -> String_t -> outcome error bool) (x : String_t) (l : list String_t) : outcome error (list String_t) :=
  match l with
  | [] => Ok [x]
  | y :: l' =>
      let! b := lt y x in
      if b then let! r := insert_sorted lt x l' in Ok (y :: r) else Ok (x :: l)
  end.
Fixpoint insertion_sort (lt : String_t -> String_t -> outcome error bool) (l : list String_t) : outcome error (list String_t) :=
  match l with
  | [] => Ok []
  | x :: l' => let! r := insertion_sort lt l' in insert_sorted lt x r
  end.

(** Run commands; a command is given as its words. *)
Definition split_words (s : list Z) : list String_t :=
  filter (fun w => w <> []) (map (strNthWord s) (seq 0 (length s))).
Definition cmd (words : string) : list (value Z) := map VString (split_words (lit words)).
Fixpoint run (script : list (list (value Z))) (db : Data_t) : Data_t * list (outcome error (value Z)) :=
  match script with
  | [] => (db, [])
  | c :: script' =>
      let '(db, r) := call insertion_sort 0 c db in
      let '(db, rs) := run script' db in
      (db, r :: rs)
  end.
Definition results (script : list (list (value Z))) : list (outcome error (value Z)) := snd (run script ∅).
End Concrete.

Import Concrete.
Example redis_ex1 : results [cmd "set k 41"; cmd "incr k"; cmd "get k"; cmd "lpush k x"] =
  [Ok (VString (lit "OK")); Ok (VInteger 42); Ok (VString (lit "42")); Throw (RuntimeError (lit "Invalid type [verb: LPUSH]"))].
Proof. by vm_compute. Qed.
Example redis_ex2 : results [cmd "rpush l 30 4 100"; cmd "sort l"; cmd "sort l desc limit 0 2"; cmd "sort l alpha"; cmd "lrange l 0 -1";
    cmd "rpoplpush l l"; cmd "lrange l 0 -1"; cmd "lindex l -1"] =
  [Ok (VInteger 3); Ok (VVector (cmd "4 30 100")); Ok (VVector (cmd "100 30")); Ok (VVector (cmd "100 30 4"));
   Ok (VVector (cmd "30 4 100")); Ok (VString (lit "100")); Ok (VVector (cmd "100 30 4")); Ok (VString (lit "4"))].
Proof. by vm_compute. Qed.
Example redis_ex3 : results [cmd "sadd a x z y"; cmd "sadd b y"; cmd "sdiff a b"; cmd "smove a b z"; cmd "smembers b"; cmd "keys *"; cmd "type b"] =
  [Ok (VInteger 3); Ok (VInteger 1); Ok (VVector (cmd "x z")); Ok (VInteger 1); Ok (VVector (cmd "y z")); Ok (VVector (cmd "a b")); Ok (VString (lit "set"))].
Proof. by vm_compute. Qed.
