(* ===== verification/RedisProps.v ===== *)
(** * InternalDatabase: properties

    A small program logic for commands ([wp]) and the properties of the commands
    of Redis.v: stored containers are not empty, a key of the wrong type is an
    error that changes nothing, strings, hashes, lists and sets behave like their
    mathematical counterparts, and SORT sorts. *)

From Stdlib Require Import ZArith Lia Bool String Ascii.
From stdpp Require Import base tactics numbers option list gmap sorting.
From S2P Require Import Prelude Strings Format Values Redis.

Local Open Scope Z_scope.
Local Open Scope afl_scope.
Local Set Warnings "-notation-for-abbreviation".

Section Logic.
Context {F : Type} `{!Double F}.
Notation "'let*' x ':=' m 'in' k" := (bind m (fun x => k))
  (at level 10, x name, m at level 200, k at level 200).
Notation "m ;* k" := (bind m (fun _ => k)) (at level 199, right associativity).
Implicit Types (s : @state F) (E : error -> @state F -> Prop).

(** [m] run in [s] returns with [Q], or throws with [E]. *)
Definition wp {A} (m : M A) (E : error -> state -> Prop) (Q : A -> state -> Prop) s : Prop :=
  match m s with
  | (s', Ok a) => Q a s'
  | (s', Throw e) => E e s'
  end.

Lemma wp_mono {A} (m : M A) E E' Q Q' s :
  wp m E Q s -> (forall e s', E e s' -> E' e s') -> (forall a s', Q a s' -> Q' a s') -> wp m E' Q' s.
Proof. unfold wp. destruct (m s) as [s' [a|e]]; auto. Qed.

Lemma wp_bind {A B} (m : M A) (f : A -> M B) E Q s :
  wp m E (fun a s' => wp (f a) E Q s') s -> wp (bind m f) E Q s.
Proof. unfold wp, bind. by destruct (m s) as [s' [a|e]]. Qed.

Lemma wp_ret {A} (a : A) E (Q : A -> state -> Prop) s : Q a s -> wp (ret a) E Q s.
Proof. done. Qed.

Lemma wp_fail {A} msg E (Q : A -> state -> Prop) s :
  E (Raise (RemoteErrorException INTERNAL_DATABASE msg)) s -> wp (fail msg) E Q s.
Proof. done. Qed.

(** Text of an argument; arguments without error values always have one. *)
Definition clean (a : value F) : Prop := exists t, toString a = Ok t.

Lemma wp_eat old E Q s a rest :
  args s = a :: rest -> clean a -> (forall t, Q t (mkState (m_data s) rest)) -> wp (eat old) E Q s.
Proof.
  intros Ha [t Ht] HQ. unfold eat. apply wp_bind. unfold wp at 1, eat_value. rewrite Ha.
  destruct (is_null a); [apply HQ|]. unfold lift. rewrite Ht. apply HQ.
Qed.

Lemma wp_eat_any old E Q s :
  Forall clean (args s) -> (forall t, Q t (mkState (m_data s) (tail (args s)))) -> wp (eat old) E Q s.
Proof.
  intros Hc HQ. destruct s as [db [|a rest]]; cbn [args m_data tail] in *; [apply HQ|].
  inversion Hc; subst. by eapply (wp_eat old E Q (mkState db (a :: rest)) a rest).
Qed.

Lemma wp_eat_int old E Q s :
  (forall e, E (Raise e) (mkState (m_data s) (tail (args s)))) ->
  (forall t, Q t (mkState (m_data s) (tail (args s)))) -> wp (eat_int old) E Q s.
Proof.
  intros HE HQ. unfold eat_int. apply wp_bind. unfold wp at 1, eat_value. destruct s as [db [|a rest]]; cbn [args m_data tail] in *; [apply HQ|].
  destruct (is_null a); [apply HQ|]. unfold wp, lift. destruct (toInteger a); [apply HQ|apply HE].
Qed.

Lemma wp_argc E Q s : Q (length (args s)) s -> wp argc E Q s.
Proof. done. Qed.

Lemma wp_check n E Q s :
  (length (args s) = n -> Q tt s) -> (length (args s) <> n -> E (Raise (RemoteErrorException INTERNAL_DATABASE INVALID_PARAMETER_COUNT)) s) ->
  wp (checkArgumentCount n) E Q s.
Proof. intros H1 H2. unfold wp, checkArgumentCount, bind, argc. destruct (Nat.eqb_spec (length (args s)) n); simpl; auto. Qed.

Lemma wp_check_at_least n E Q s :
  ((n <= length (args s))%nat -> Q tt s) ->
  ((length (args s) < n)%nat -> E (Raise (RemoteErrorException INTERNAL_DATABASE INVALID_PARAMETER_COUNT)) s) ->
  wp (checkArgumentCountAtLeast n) E Q s.
Proof. intros H1 H2. unfold wp, checkArgumentCountAtLeast, bind, argc. destruct (Nat.ltb_spec (length (args s)) n); simpl; auto. Qed.

(** The loops over the arguments end when all arguments are consumed. *)
Lemma wp_while_args {A} (body : A -> M A) (I : A -> state -> Prop) E Q a s :
  (forall a s, I a s -> args s <> [] ->
     wp (body a) E (fun a' s' => I a' s' /\ (length (args s') < length (args s))%nat) s) ->
  I a s -> (forall a s, I a s -> args s = [] -> Q a s) -> wp (while_args body a) E Q s.
Proof.
  intros Hbody HI HQ. unfold while_args. apply wp_bind. apply wp_argc.
  assert (Hloop : forall n a s, I a s -> (length (args s) <= n)%nat -> wp (while_args_loop n body a) E Q s).
  { clear a s HI. induction n as [|n IH]; intros a s HI Hn; cbn [while_args_loop].
    - apply wp_ret. apply HQ; [done|]. destruct (args s); [done|simpl in Hn; lia].
    - apply wp_bind. apply wp_argc. destruct (Nat.eqb_spec (length (args s)) 0) as [E0|E0].
      + apply wp_ret. apply HQ; [done|]. by destruct (args s).
      + apply wp_bind. eapply wp_mono; [apply Hbody; [done|by destruct (args s)]|done|].
        intros a' s' [HI' Hlt]. apply IH; [done|lia]. }
  by apply Hloop.
Qed.

(** *** Keys *)

Lemma wp_get_as {A} (c : Key -> option A) k E Q s :
  (m_data s !! k = None -> Q None s) ->
  (forall key a, m_data s !! k = Some key -> c key = Some a -> Q (Some a) s) ->
  (forall key, m_data s !! k = Some key -> c key = None -> E (Raise (RemoteErrorException INTERNAL_DATABASE INVALID_TYPE)) s) ->
  wp (get_as c k) E Q s.
Proof.
  intros H1 H2 H3. unfold wp, get_as, bind, find_key. destruct (m_data s !! k) as [key|] eqn:Ek; [|by apply H1].
  destruct (c key) as [a|] eqn:Ec; [by apply (H2 key a)|by apply (H3 key)].
Qed.

(** The dynamic_cast succeeds exactly on the objects of the type. *)
Class KeyLaws {A} (T : KeyType A) : Prop := cast_object : forall key a, cast T key = Some a <-> key = object T a.
#[export] Instance tString_laws : KeyLaws tString.
Proof. intros [] a; simpl; split; congruence. Qed.
#[export] Instance tHash_laws : KeyLaws tHash.
Proof. intros [] a; simpl; split; congruence. Qed.
#[export] Instance tList_laws : KeyLaws tList.
Proof. intros [] a; simpl; split; congruence. Qed.
#[export] Instance tSet_laws : KeyLaws tSet.
Proof. intros [] a; simpl; split; congruence. Qed.

Lemma wp_get {A} (T : KeyType A) `{!KeyLaws T} k E Q s :
  (m_data s !! k = None -> Q None s) ->
  (forall a, m_data s !! k = Some (object T a) -> Q (Some a) s) ->
  (forall key, m_data s !! k = Some key -> (forall a, key <> object T a) -> E (Raise (RemoteErrorException INTERNAL_DATABASE INVALID_TYPE)) s) ->
  wp (get T k) E Q s.
Proof.
  intros H1 H2 H3. apply wp_get_as; [done| |].
  - intros key a Hk Hc. apply cast_object in Hc. subst. by apply H2.
  - intros key Hk Hc. apply (H3 key Hk). intros a Ha. apply cast_object in Ha. congruence.
Qed.

Lemma wp_getCreate {A} (T : KeyType A) `{!KeyLaws T} k E Q s :
  (m_data s !! k = None -> Q (fresh T) (mkState (<[ k := object T (fresh T) ]> (m_data s)) (args s))) ->
  (forall a, m_data s !! k = Some (object T a) -> Q a s) ->
  (forall key, m_data s !! k = Some key -> (forall a, key <> object T a) -> E (Raise (RemoteErrorException INTERNAL_DATABASE INVALID_TYPE)) s) ->
  wp (getCreate T k) E Q s.
Proof. intros H1 H2 H3. unfold getCreate. apply wp_bind. by apply wp_get. Qed.

Lemma wp_insertNew k key E (Q : unit -> state -> Prop) s : Q tt (mkState (<[ k := key ]> (m_data s)) (args s)) -> wp (insertNew k key) E Q s.
Proof. done. Qed.
Lemma wp_update {A} (T : KeyType A) k a E (Q : unit -> state -> Prop) s :
  Q tt (mkState (<[ k := object T a ]> (m_data s)) (args s)) -> wp (update T k a) E Q s.
Proof. done. Qed.
Lemma wp_erase k E (Q : unit -> state -> Prop) s : Q tt (mkState (delete k (m_data s)) (args s)) -> wp (erase k) E Q s.
Proof. done. Qed.
Lemma wp_get_db E Q s : Q (m_data s) s -> wp get_db E Q s.
Proof. done. Qed.
Lemma wp_find_key k E Q s : Q (m_data s !! k) s -> wp (find_key k) E Q s.
Proof. done. Qed.

Lemma wp_int_of t E (Q : Z -> state -> Prop) s :
  (forall e, E (Raise e) s) -> (forall i, Q i s) -> wp (int_of t) E Q s.
Proof. intros HE HQ. unfold int_of. destruct (bool_decide (t = [])); [apply HQ|]. destruct (strToInt32 t); [apply HQ|apply HE]. Qed.

(** ** Containers are not empty *)

Definition key_ok (k : Key) : Prop :=
  match k with
  | KString _ => True
  | KHash h => h <> ∅
  | KList l => l <> []
  | KSet m => m <> ∅
  end.
Definition db_ok (db : Data_t) : Prop := forall n key, db !! n = Some key -> key_ok key.
(** ... but for one key, which a command is working on *)
Definition ok_except (k : String_t) (db : Data_t) : Prop := forall n key, n <> k -> db !! n = Some key -> key_ok key.

Lemma ok_weaken k db : db_ok db -> ok_except k db.
Proof. intros H n key _. apply H. Qed.
Lemma ok_except_insert k key db : ok_except k db -> ok_except k (<[ k := key ]> db).
Proof. intros H n key' Hn. rewrite lookup_insert_ne by done. by apply H. Qed.
Lemma ok_insert k key db : ok_except k db -> key_ok key -> db_ok (<[ k := key ]> db).
Proof. intros H Hk n key'. destruct (decide (n = k)) as [->|Hn]; [rewrite lookup_insert_eq; by intros [= <-]|rewrite lookup_insert_ne by done; by apply H]. Qed.
Lemma ok_delete k db : ok_except k db -> db_ok (delete k db).
Proof. intros H n key'. destruct (decide (n = k)) as [->|Hn]; [by rewrite lookup_delete_eq|rewrite lookup_delete_ne by done; by apply H]. Qed.
Lemma ok_except_keep k key db : ok_except k db -> db !! k = Some key -> key_ok key -> db_ok db.
Proof. intros H Hk Hok n key' Hn. destruct (decide (n = k)) as [->|Hne]; [congruence|by eapply H]. Qed.
Lemma ok_except_put k k' key db : ok_except k db -> key_ok key -> ok_except k (<[ k' := key ]> db).
Proof. intros H Hk n key' Hn. destruct (decide (n = k')) as [->|Hne]; [rewrite lookup_insert_eq; by intros [= <-]|rewrite lookup_insert_ne by done; by apply H]. Qed.
Lemma clean_tail (l : list (value F)) : Forall clean l -> Forall clean (tail l).
Proof. by destruct 1. Qed.
End Logic.

Create HintDb redis.
#[export] Hint Resolve ok_weaken ok_except_insert ok_insert ok_delete clean_tail : redis.
#[export] Hint Extern 1 (key_ok (KString _)) => exact I : redis.
#[export] Hint Extern 1 (key_ok (KList (_ :: _))) => discriminate : redis.

Ltac head_of t := lazymatch t with ?f _ => head_of f | _ => t end.
Ltac unfold_command := lazymatch goal with |- wp ?c _ _ _ => let h := head_of c in unfold h end.

(** One step of symbolic execution. *)
Ltac wp_step :=
  lazymatch goal with
  | |- wp (bind _ _) _ _ _ => apply wp_bind
  | |- wp (ret _) _ _ _ => apply wp_ret
  | |- wp (fail _) _ _ _ => apply wp_fail
  | |- wp (createInteger _) _ _ _ => apply wp_ret
  | |- wp (createString _) _ _ _ => apply wp_ret
  | |- wp createNull _ _ _ => apply wp_ret
  | |- wp (createVector _) _ _ _ => apply wp_ret
  | |- wp OK _ _ _ => apply wp_ret
  | |- wp argc _ _ _ => apply wp_argc
  | |- wp (checkArgumentCount _) _ _ _ => apply wp_check; intros ?
  | |- wp (checkArgumentCountAtLeast _) _ _ _ => apply wp_check_at_least; intros ?
  | |- wp (eat _) _ _ _ => apply wp_eat_any; [cbn [args]; solve [auto 10 with redis]|intros ?]
  | |- wp (eat_int _) _ _ _ => apply wp_eat_int; intros ?
  | |- wp get_db _ _ _ => apply wp_get_db
  | |- wp (find_key _) _ _ _ => apply wp_find_key
  | |- wp (erase _) _ _ _ => apply wp_erase
  | |- wp (insertNew _ _) _ _ _ => apply wp_insertNew
  | |- wp (update _ _ _) _ _ _ => apply wp_update
  | |- wp (get_as _ _) _ _ _ => apply wp_get_as; [intros ?|intros ? ? ? ?|intros ? ? ?]
  | |- wp (get _ _) _ _ _ => apply wp_get; [apply _|intros ?|intros ? ?|intros ? ? ?]
  | |- wp (getCreate _ _) _ _ _ => apply wp_getCreate; [apply _|intros ?|intros ? ?|intros ? ? ?]
  | |- wp (int_of _) _ _ _ => apply wp_int_of; intros ?
  | |- wp (if bool_decide ?P then _ else _) _ _ _ => case_bool_decide
  | |- wp (match ?x with _ => _ end) _ _ _ => destruct x eqn:?
  | |- wp ((fun _ => _) _) _ _ _ => cbv beta
  end; cbn [m_data args fresh object cast tString tHash tList tSet] in *.
(** An object that is known to have the right type *)
Ltac wrong_type := try (match goal with H : forall a, _ <> _ |- _ => by destruct (H _ eq_refl) end).
Ltac wp_steps := repeat (wp_step; try (solve [auto 10 with redis])).

Section Containers.
Context {F : Type} `{!Double F}.
Notation ok_post := (fun _ (s : @state F) => db_ok (m_data s)).

(** The command keeps the containers nonempty, also when it throws. *)
Definition keeps (m : M (value F)) : Prop :=
  forall s, db_ok (m_data s) -> Forall clean (args s) -> wp m ok_post ok_post s.

Ltac keeps_start := intros [db as_] Hok Hc; cbn [m_data args] in *.

Lemma keeps_GET : keeps cmd_GET.
Proof. keeps_start. unfold cmd_GET. wp_steps. Qed.
Lemma keeps_APPEND : keeps cmd_APPEND.
Proof. keeps_start. unfold cmd_APPEND. wp_steps. Qed.
Lemma keeps_modify k d s : db_ok (m_data s) -> wp (modify k d) ok_post ok_post s.
Proof. intros Hok. destruct s as [db as_]. cbn [m_data] in *. unfold modify. wp_steps. Qed.

Lemma insert_nonempty (h : gmap String_t String_t) f x : <[ f := x ]> h <> ∅.
Proof. apply insert_non_empty. Qed.
#[local] Hint Extern 1 (key_ok (KHash (<[ _ := _ ]> _))) => apply insert_nonempty : redis.

Lemma keeps_simple : Forall keeps
  [cmd_APPEND; cmd_GET; cmd_GETRANGE; cmd_GETSET; cmd_SET; cmd_SETNX; cmd_STRLEN; cmd_KEYS; cmd_TYPE;
   cmd_HGET; cmd_HGETALL; cmd_HKEYS; cmd_HLEN; cmd_HSET; cmd_LINDEX; cmd_LLEN; cmd_LRANGE;
   cmd_SCARD; cmd_SISMEMBER; cmd_SMEMBERS; cmd_PING].
Proof.
  repeat first [apply Forall_nil_2 | apply Forall_cons_2]; keeps_start; unfold_command; wp_steps.
Qed.

Lemma keeps_modifiers : Forall keeps [cmd_DECR; cmd_DECRBY; cmd_INCR; cmd_INCRBY].
Proof.
  repeat first [apply Forall_nil_2 | apply Forall_cons_2]; keeps_start; unfold_command; wp_steps;
    (eapply wp_mono; [apply keeps_modify; exact Hok|done|intros; wp_steps; done]).
Qed.

(** Commands with a loop that leaves the database alone or keeps it in order *)
Lemma keeps_while {A} (body : A -> M A) a s Q :
  (forall a s, db_ok (m_data s) -> Forall clean (args s) -> args s <> [] ->
     wp (body a) ok_post (fun _ s' => db_ok (m_data s') /\ Forall clean (args s') /\ (length (args s') < length (args s))%nat) s) ->
  db_ok (m_data s) -> Forall clean (args s) ->
  (forall a s, db_ok (m_data s) -> Q a s) -> wp (while_args body a) ok_post Q s.
Proof.
  intros Hb Hok Hc HQ. apply (wp_while_args body (fun _ s => db_ok (m_data s) /\ Forall clean (args s))).
  - intros a' s' [H1 H2] Hn. eapply wp_mono; [by apply Hb|done|]. intros ? ? (? & ? & ?). done.
  - done.
  - intros a' s' [H1 _] _. by apply HQ.
Qed.

Lemma tail_lt {A} (l : list A) : l <> [] -> (length (tail l) < length l)%nat.
Proof. destruct l; [done|simpl; lia]. Qed.
Lemma tail_le {A} (l : list A) : (length (tail l) <= length l)%nat.
Proof. destruct l; simpl; lia. Qed.

Ltac loop_body := intros ? [db' as'] ? ? ?; cbn [m_data args] in *; repeat wp_step;
  try (split; [auto 10 with redis|split; [auto 10 with redis|]]);
  repeat match goal with H : ?l <> [] |- context [tail ?l] => pose proof (tail_lt l H); clear H end;
  try (pose proof (tail_le (tail as'))); auto 10 with redis; try lia.

Lemma keeps_loops : Forall keeps
  [cmd_DEL; cmd_EXISTS; cmd_MSET; cmd_HEXISTS; cmd_HMGET; cmd_SETOP Difference; cmd_SETOP Intersection; cmd_SETOP Union].
Proof.
  repeat first [apply Forall_nil_2 | apply Forall_cons_2]; keeps_start; unfold_command; unfold executeSetOperation; wp_steps;
    try (apply keeps_while; cbn [m_data args]; [loop_body|auto 10 with redis|auto 10 with redis|intros; wp_steps]).
Qed.

Lemma keeps_erase_if_empty k l db as_ Q :
  ok_except k db -> db !! k = Some (KList l) ->
  (forall s, db_ok (m_data s) -> Q tt s) -> wp (erase_if_empty k l) ok_post Q (mkState db as_).
Proof.
  intros H1 H2 HQ. unfold erase_if_empty. case_bool_decide as E; [apply wp_erase|apply wp_ret]; apply HQ; cbn [m_data].
  - by apply ok_delete.
  - by eapply ok_except_keep.
Qed.

Ltac list_end :=
  apply keeps_erase_if_empty; [auto with redis|apply lookup_insert_eq|intros ? ?; repeat wp_step; auto].

Lemma keeps_lists : Forall keeps [cmd_LPOP; cmd_RPOP; cmd_LTRIM].
Proof.
  repeat first [apply Forall_nil_2 | apply Forall_cons_2]; keeps_start; unfold_command; repeat wp_step; auto with redis; list_end.
Qed.

Lemma setByIndex_nonempty l i x l' : setByIndex l i x = Some l' -> l' <> [].
Proof. destruct l as [|y l]; [done|]. simpl. destruct (0 <? i); [destruct (setByIndex l (i - 1) x); [|done]; by intros [= <-]|by intros [= <-]]. Qed.

Lemma keeps_LSET : keeps cmd_LSET.
Proof.
  keeps_start. unfold_command. repeat wp_step; auto with redis.
  apply ok_insert; [auto with redis|]. by eapply setByIndex_nonempty.
Qed.

Lemma keeps_RPOPLPUSH : keeps cmd_RPOPLPUSH.
Proof.
  keeps_start. unfold_command. repeat wp_step; auto 10 with redis.
  all: apply keeps_erase_if_empty; [auto 10 with redis|apply lookup_insert_eq|intros ? ?; repeat wp_step; auto].
Qed.

Lemma keeps_rename : Forall keeps [cmd_RENAME; cmd_RENAMENX].
Proof.
  repeat first [apply Forall_nil_2 | apply Forall_cons_2]; keeps_start; unfold_command; repeat wp_step; auto 10 with redis; (apply ok_insert; [auto 10 with redis|eauto]).
Qed.

(** Commands with a loop that works on one key: the object has property [P] as
    soon as a round has been made. *)
Lemma keeps_work {A B} (T : KeyType B) (P : B -> Prop) k (body : A -> M A) a s b Q :
  (forall a s b, ok_except k (m_data s) -> Forall clean (args s) -> args s <> [] -> m_data s !! k = Some (object T b) ->
     wp (body a) ok_post (fun _ s' => exists b', ok_except k (m_data s') /\ Forall clean (args s') /\
        (length (args s') < length (args s))%nat /\ m_data s' !! k = Some (object T b') /\ P b') s) ->
  ok_except k (m_data s) -> Forall clean (args s) -> m_data s !! k = Some (object T b) -> (P b \/ args s <> []) ->
  (forall a s b, ok_except k (m_data s) -> m_data s !! k = Some (object T b) -> P b -> Q a s) ->
  wp (while_args body a) ok_post Q s.
Proof.
  intros Hb Hok Hc Hk HP HQ.
  apply (wp_while_args body (fun _ s => exists b, ok_except k (m_data s) /\ Forall clean (args s) /\
    m_data s !! k = Some (object T b) /\ (P b \/ args s <> []))).
  - intros a' s' (b' & H1 & H2 & H3 & H4) Hn. eapply wp_mono; [by apply (Hb a' s' b')|done|].
    intros ? ? (b2 & ? & ? & ? & ? & ?). split; [|done]. exists b2. auto.
  - exists b. auto.
  - intros a' s' (b' & H1 & H2 & H3 & H4) Hn. destruct H4; [|done]. by apply (HQ a' s' b').
Qed.

Lemma tail_nonempty {A} (l : list A) n : (S (S n) <= length l)%nat -> tail l <> [].
Proof. destruct l as [|x [|y l]]; simpl; [lia|lia|done]. Qed.

Ltac work_body :=
  intros ? [db' as'] ? ? ? ? ?; cbn [m_data args object tHash tList tSet] in *;
  repeat wp_step; simplify_map_eq; wrong_type;
  try (eexists; split; [auto with redis|split; [auto with redis|split; [by apply tail_lt|split; [reflexivity|]]]]).
Ltac work_end :=
  intros ? [db' as'] ? ? ? ?; cbn [m_data args object tHash tList tSet] in *;
  repeat wp_step; simplify_map_eq; wrong_type; auto with redis; try (by eapply ok_except_keep).
(** The loop works on an object of type [T]. *)
Ltac work T P :=
  match goal with |- wp (while_args _ _) _ _ _ => match goal with |- context [getCreate T ?k] =>
    eapply (keeps_work T P k); cbn [m_data args];
    [work_body|auto with redis|auto with redis|first [eassumption|apply lookup_insert_eq]|..|work_end] end end.

Lemma keeps_push : Forall keeps [cmd_LPUSH; cmd_RPUSH].
Proof.
  repeat first [apply Forall_nil_2 | apply Forall_cons_2]; keeps_start; unfold_command; repeat wp_step; auto with redis.
  all: work tList (fun l : list String_t => l <> []).
  all: try (right; by eapply tail_nonempty).
  all: try done; by destruct b.
Qed.

Lemma keeps_SADD : keeps cmd_SADD.
Proof.
  keeps_start; unfold_command; repeat wp_step; auto with redis.
  all: work tSet (fun m : gset String_t => m <> ∅); try (right; by eapply tail_nonempty).
  all: set_solver.
Qed.

Lemma keeps_shrink : Forall keeps [cmd_HDEL; cmd_SREM].
Proof.
  repeat first [apply Forall_nil_2 | apply Forall_cons_2]; keeps_start; unfold_command; repeat wp_step; auto with redis.
  - work tHash (fun _ : gmap String_t String_t => True); auto.
  - work tSet (fun _ : gset String_t => True); auto.
Qed.

Lemma keeps_HINCRBY : keeps cmd_HINCRBY.
Proof. keeps_start. unfold_command. repeat wp_step; auto 10 with redis. Qed.

Lemma keeps_SPOP rand remove : keeps (cmd_SPOP rand remove).
Proof. keeps_start. unfold_command. repeat wp_step; auto with redis. Qed.

Lemma keeps_SETOPSTORE op : keeps (cmd_SETOPSTORE op).
Proof.
  keeps_start. unfold_command. unfold executeSetOperation. repeat wp_step; auto with redis.
  all: apply keeps_while; cbn [m_data args]; [loop_body|auto 10 with redis|auto 10 with redis|].
  all: intros ? [db' as'] Hok'; cbn [m_data] in *; repeat wp_step; auto 10 with redis.
Qed.

Lemma keeps_HMSET s : db_ok (m_data s) -> Forall clean (args s) -> length (args s) <> 1%nat -> wp cmd_HMSET ok_post ok_post s.
Proof.
  intros Hok Hc H1. destruct s as [db as_]. cbn [m_data args] in *. unfold_command. repeat wp_step; auto with redis.
  all: assert (tail as_ <> []) by (destruct as_ as [|? [|? ?]]; done).
  all: work tHash (fun h : gmap String_t String_t => h <> ∅); auto.
  all: exists (<[t0:=t1]> b); split; [auto with redis|]; split; [auto with redis|]; split; [|split; [done|apply insert_nonempty]].
  all: pose proof (tail_lt as'); pose proof (tail_le (tail as')); naive_solver lia.
Qed.

(** When the target has the wrong type, SMOVE has removed the value already. *)
Lemma keeps_SMOVE s : db_ok (m_data s) -> Forall clean (args s) -> wp cmd_SMOVE (fun _ _ => True) ok_post s.
Proof.
  intros Hok Hc. destruct s as [db as_]. cbn [m_data args] in *. unfold_command. repeat wp_step; auto with redis.
  all: assert (Hx : forall m : gset String_t, key_ok (KSet ({[t1]} ∪ m))) by (intros m; simpl; set_solver).
  all: rewrite ?insert_insert_eq in *; try done.
  all: assert (He : ok_except t (<[t := KSet (a ∖ {[t1]})]> db)) by auto with redis.
  all: try (apply ok_delete; try apply ok_except_insert; by apply ok_except_put).
  all: try (eapply ok_except_keep; [by apply ok_except_put|eassumption|simpl; set_solver]).
Qed.

(** *** All commands *)

Context (std_sort : (String_t -> String_t -> outcome error bool) -> list String_t -> outcome error (list String_t)).

(** The commands that can leave an empty container *)
Definition exempt : list String_t := [lit "HMSET"; lit "LREM"; lit "SMOVE"; lit "SORT"].

Lemma Forall_pick {A} (P : A -> Prop) l x : Forall P l -> x ∈ l -> P x.
Proof. rewrite Forall_forall. auto. Qed.

Ltac member := solve [repeat first [apply list_elem_of_here | apply list_elem_of_further]].
Ltac pick L := apply (Forall_pick _ _ _ L); member.

Lemma commands_keep rand : Forall (fun nc => nc.1 ∈ exempt \/ keeps nc.2) (commands std_sort rand).
Proof.
  unfold commands.
  repeat first [apply Forall_nil_2 | apply Forall_cons_2]; cbn [fst snd];
    first [left; unfold exempt; member | right;
    first [ apply keeps_SADD | apply keeps_HINCRBY | apply keeps_LSET | apply keeps_RPOPLPUSH | apply keeps_SPOP | apply keeps_SETOPSTORE
          | pick keeps_simple | pick keeps_modifiers | pick keeps_loops | pick keeps_lists | pick keeps_push
          | pick keeps_rename | pick keeps_shrink ]].
Qed.

Lemma dispatch_spec (P : M (value F) -> Prop) table verb :
  Forall (fun nc => nc.1 = verb -> P nc.2) table -> P (fail INVALID_COMMAND) -> P (dispatch table verb).
Proof.
  intros H Hf. induction H as [|[name c] table Hc _ IH]; [done|]. cbn [dispatch]. case_bool_decide; [by apply Hc|done].
Qed.

Lemma execute_keeps rand verb : verb ∉ exempt -> keeps (execute std_sort rand verb).
Proof.
  intros Hv. unfold execute. apply (dispatch_spec keeps); [|by intros s Hok Hc; apply wp_fail].
  eapply Forall_impl; [apply commands_keep|]. intros [name c] [He|Hk] Hn; cbn [fst snd] in *; [by subst|done].
Qed.
End Containers.

(** ** Keys of the wrong type *)

Section Types.
Context {F : Type} `{!Double F}.

(** What a command that uses a key of the wrong type does: it throws and leaves
    the database as it was. *)
Definition refuses {A} (T : KeyType A) (c : M (value F)) : Prop :=
  forall db k key rest, db !! k = Some key -> (forall a, key <> object T a) ->
  wp c (fun _ (s : @state F) => m_data s = db) (fun _ _ => False) (mkState db (VString k :: rest)).

Lemma wp_eat_key old E Q db k rest : Q k (mkState db rest) -> wp (eat old) E Q (mkState db (VString k :: rest) : @state F).
Proof. done. Qed.

Lemma wp_eat_throws old E Q (s : @state F) :
  (forall e, E (Raise e) (mkState (m_data s) (tail (args s)))) ->
  (forall t, Q t (mkState (m_data s) (tail (args s)))) -> wp (eat old) E Q s.
Proof.
  intros HE HQ. unfold eat. apply wp_bind. unfold wp at 1, eat_value. destruct s as [db [|a rest]]; cbn [args m_data tail] in *; [apply HQ|].
  destruct (is_null a); [apply HQ|]. unfold wp, lift. destruct (toString a); [apply HQ|apply HE].
Qed.

Ltac wp_step_throws :=
  lazymatch goal with
  | |- wp (eat _) _ _ (mkState _ (VString _ :: _)) => apply wp_eat_key
  | |- wp (eat _) _ _ _ => apply wp_eat_throws; intros ?; cbn [m_data args] in *
  | |- wp (modify _ _) _ _ _ => unfold modify
  | |- wp (executeSetOperation _) _ _ _ => unfold executeSetOperation
  | |- _ => wp_step
  end.
Ltac refuse := intros db k key rest Hk Hne; unfold_command; repeat wp_step_throws; simplify_eq; try done; by edestruct Hne.

Lemma refuse_string : Forall (refuses tString)
  [cmd_APPEND; cmd_DECR; cmd_DECRBY; cmd_GET; cmd_GETRANGE; cmd_GETSET; cmd_INCR; cmd_INCRBY; cmd_SETNX; cmd_STRLEN].
Proof. repeat first [apply Forall_nil_2 | apply Forall_cons_2]; refuse. Qed.
Lemma refuse_hash : Forall (refuses tHash)
  [cmd_HDEL; cmd_HEXISTS; cmd_HGET; cmd_HGETALL; cmd_HINCRBY; cmd_HKEYS; cmd_HLEN; cmd_HMGET; cmd_HMSET; cmd_HSET].
Proof. repeat first [apply Forall_nil_2 | apply Forall_cons_2]; refuse. Qed.
Lemma refuse_list : Forall (refuses tList)
  [cmd_LINDEX; cmd_LLEN; cmd_LPOP; cmd_LPUSH; cmd_LRANGE; cmd_LREM; cmd_LSET; cmd_LTRIM; cmd_RPOP; cmd_RPOPLPUSH; cmd_RPUSH].
Proof. repeat first [apply Forall_nil_2 | apply Forall_cons_2]; refuse. Qed.
Lemma refuse_set rand : Forall (refuses tSet)
  [cmd_SADD; cmd_SCARD; cmd_SISMEMBER; cmd_SMEMBERS; cmd_SMOVE; cmd_SPOP rand true; cmd_SPOP rand false; cmd_SREM;
   cmd_SETOP Difference; cmd_SETOP Intersection; cmd_SETOP Union].
Proof. repeat first [apply Forall_nil_2 | apply Forall_cons_2]; refuse. Qed.
End Types.

(** ** Lists *)

(** The elements from index [i] to index [j], inclusive *)
Definition slice {A} (l : list A) (i j : Z) : list A := take (Z.to_nat (j + 1 - i)) (drop (Z.to_nat i) l).

Lemma getByIndex_lookup l i : 0 <= i -> getByIndex l i = l !! Z.to_nat i.
Proof.
  revert i. induction l as [|x l IH]; intros i Hi; simpl; [done|]. destruct (Z.ltb_spec 0 i).
  - rewrite IH by lia. replace (Z.to_nat i) with (S (Z.to_nat (i - 1))) by lia. done.
  - by replace i with 0 by lia.
Qed.

Lemma setByIndex_insert l i x : 0 <= i -> setByIndex l i x = if decide (i < size l) then Some (<[ Z.to_nat i := x ]> l) else None.
Proof.
  unfold size. revert i. induction l as [|y l IH]; intros i Hi; simpl; [rewrite decide_False by lia; done|]. destruct (Z.ltb_spec 0 i).
  - rewrite IH by lia. replace (Z.to_nat i) with (S (Z.to_nat (i - 1))) by lia. destruct (decide (i - 1 < Z.of_nat (length l))).
    + rewrite decide_True by lia. done.
    + rewrite decide_False by lia. done.
  - rewrite decide_True by lia. by replace i with 0 by lia.
Qed.

(** An index in the documented range: [n], or [n] from the end *)
Definition index_ok (l : list String_t) (n : Z) : Prop := - size l <= n /\ in_s 32 n.
Definition real_index (l : list String_t) (n : Z) : Z := if 0 <=? n then n else size l + n.

Lemma convertIndex_ok l n : index_ok l n -> size l < 2 ^ 31 -> convertIndex l n = real_index l n /\ 0 <= real_index l n < 2 ^ 31.
Proof.
  intros [H1 H2] Hs. unfold in_s in H2. unfold size in *. unfold convertIndex, real_index.
  destruct (Z.leb_spec 0 n); [lia|]. unfold int32. rewrite swrap_small by (unfold in_s; lia). unfold usize, SIZE_BITS, size.
  rewrite (wrap_small 64 (- n)) by lia. rewrite wrap_small by lia. lia.
Qed.

Lemma lrange_loop_spec fuel l i j : (Z.of_nat (length l) - i <= Z.of_nat fuel) -> 0 <= i -> size l < 2 ^ 31 -> 0 <= j < 2 ^ 31 ->
  lrange_loop fuel l i j = slice l i j.
Proof.
  unfold size. revert i. induction fuel as [|fuel IH]; intros i Hf Hi Hs Hj; cbn [lrange_loop]; unfold slice.
  - rewrite drop_ge, take_nil by lia. done.
  - destruct (Z.leb_spec i j); [|by replace (Z.to_nat (j + 1 - i)) with 0%nat by lia].
    rewrite getByIndex_lookup by lia. destruct (l !! Z.to_nat i) as [x|] eqn:E.
    + rewrite (drop_S l x _ E). pose proof (lookup_lt_Some _ _ _ E). unfold usize. rewrite wrap_small by (unfold SIZE_BITS; lia).
      rewrite IH by lia. unfold slice. replace (Z.to_nat (j + 1 - i)) with (S (Z.to_nat (j + 1 - (i + 1)))) by lia. cbn [take].
      replace (Z.to_nat (i + 1)) with (S (Z.to_nat i)) by lia. done.
    + apply lookup_ge_None in E. rewrite drop_ge, take_nil by lia. done.
Qed.

Lemma lrange_spec l b e : index_ok l b -> index_ok l e -> size l < 2 ^ 31 -> lrange l b e = slice l (real_index l b) (real_index l e).
Proof.
  intros Hb He Hs. destruct (convertIndex_ok l b Hb Hs) as [Eb Rb]. destruct (convertIndex_ok l e He Hs) as [Ee Re].
  unfold lrange. rewrite Eb, Ee. apply lrange_loop_spec; try done; lia.
Qed.

Lemma ltrim_front_spec l i j : 0 <= i -> 0 <= j ->
  ltrim_front l i j = (drop (Z.to_nat i) l, Z.max 0 (j - Z.min i (size l))).
Proof.
  unfold size. revert i j. induction l as [|x l IH]; intros i j Hi Hj; simpl; [rewrite drop_nil; f_equal; lia|].
  destruct (Z.ltb_spec 0 i).
  - replace (Z.to_nat i) with (S (Z.to_nat (i - 1))) by lia. simpl. destruct (Z.ltb_spec 0 j); rewrite IH by lia; f_equal; lia.
  - replace i with 0 by lia. simpl. f_equal. lia.
Qed.

Lemma ltrim_nil b e : ltrim [] b e = [].
Proof. unfold ltrim, ltrim_back. simpl. destruct (_ <? _); [apply take_nil|done]. Qed.

(** LTRIM keeps what LRANGE returns, except that it keeps one element when the
    range is empty because it ends before it starts. *)
Lemma ltrim_spec l b e : index_ok l b -> index_ok l e -> size l < 2 ^ 31 -> real_index l b <= real_index l e ->
  ltrim l b e = slice l (real_index l b) (real_index l e).
Proof.
  intros Hb He Hs Hle. destruct (convertIndex_ok l b Hb Hs) as [Eb Rb]. destruct (convertIndex_ok l e He Hs) as [Ee Re].
  unfold ltrim. rewrite Eb, Ee, ltrim_front_spec by lia. set (i := real_index l b) in *. set (j := real_index l e) in *.
  unfold ltrim_back, slice, size in *. rewrite length_drop. unfold usize, SIZE_BITS. rewrite wrap_small by lia.
  destruct (Z.ltb_spec (Z.max 0 (j - Z.min i (Z.of_nat (length l))) + 1) (Z.of_nat (length l - Z.to_nat i))).
  - f_equal. lia.
  - rewrite take_ge; [done|]. rewrite length_drop. lia.
Qed.

(** Where an index leads: those below the first element lead behind the end.  The negation of -2^31 overflows. *)
Definition index_any (n : Z) : Prop := - 2 ^ 31 < n < 2 ^ 31.
Definition place (l : list String_t) (n : Z) : Z := if 0 <=? n then n else if - size l <=? n then size l + n else size l.
Lemma convertIndex_any l n : index_any n -> size l < 2 ^ 31 -> 0 <= place l n < 2 ^ 31 /\
  convertIndex l n = if n <? - size l then 2 ^ 64 + size l + n else place l n.
Proof.
  intros Hn Hs. unfold index_any in Hn. unfold place. assert (0 <= size l) by (unfold size; lia). split; [zcases; lia|]. destruct (Z.ltb_spec n (- size l)) as [H1|H1].
  - unfold convertIndex. destruct (Z.leb_spec 0 n); [lia|]. unfold int32. rewrite swrap_small by (unfold in_s; lia). unfold usize, SIZE_BITS. rewrite (wrap_small 64 (- n)) by lia. unfold wrap. rewrite <- (Z_mod_plus_full _ 1). rewrite Z.mod_small by lia. lia.
  - destruct (convertIndex_ok l n) as [-> _]; [unfold index_ok, in_s; lia|done|]. unfold real_index. zcases; lia.
Qed.
Lemma getByIndex_any l n : index_any n -> size l < 2 ^ 31 -> getByIndex l (convertIndex l n) = l !! Z.to_nat (place l n).
Proof.
  intros Hn Hs. destruct (convertIndex_any l n Hn Hs) as [Hp ->]. unfold index_any in Hn. destruct (Z.ltb_spec n (- size l)) as [H1|H1]; [|by apply getByIndex_lookup; lia]. assert (0 <= size l) by (unfold size; lia). rewrite getByIndex_lookup by lia. assert (HP : place l n = size l) by (unfold place; zcases; lia).
  rewrite !(proj2 (lookup_ge_None _ _)); [done| |]; unfold size in *; lia.
Qed.
Lemma setByIndex_any l n x : index_any n -> size l < 2 ^ 31 -> setByIndex l (convertIndex l n) x = if decide (place l n < size l) then Some (<[ Z.to_nat (place l n) := x ]> l) else None.
Proof.
  intros Hn Hs. destruct (convertIndex_any l n Hn Hs) as [Hp ->]. unfold index_any in Hn. destruct (Z.ltb_spec n (- size l)) as [H1|H1]; [|by apply setByIndex_insert; lia]. assert (0 <= size l) by (unfold size; lia). rewrite setByIndex_insert by lia. assert (HP : place l n = size l) by (unfold place; zcases; lia). rewrite !decide_False by lia. done.
Qed.
Lemma lrange_behind fuel l i j : size l <= i -> lrange_loop fuel l i j = [].
Proof. intros Hi. destruct fuel as [|fuel]; cbn [lrange_loop]; [done|]. destruct (i <=? j); [|done]. rewrite getByIndex_lookup by (unfold size in Hi; lia). by rewrite (proj2 (lookup_ge_None _ _)) by (unfold size in Hi; lia). Qed.
Lemma lrange_far fuel l i j : Z.of_nat (length l) - i <= Z.of_nat fuel -> 0 <= i -> size l < 2 ^ 31 -> size l <= j -> lrange_loop fuel l i j = drop (Z.to_nat i) l.
Proof.
  unfold size. revert i. induction fuel as [|fuel IH]; intros i Hf Hi Hs Hj; cbn [lrange_loop]; [by rewrite drop_ge by lia|]. rewrite getByIndex_lookup by lia. destruct (l !! Z.to_nat i) as [x|] eqn:E.
  - pose proof (lookup_lt_Some _ _ _ E). rewrite (proj2 (Z.leb_le i j)) by lia. rewrite (drop_S l x _ E). unfold usize. rewrite wrap_small by (unfold SIZE_BITS; lia). rewrite IH by lia. f_equal. f_equal. lia.
  - apply lookup_ge_None in E. rewrite drop_ge by lia. by destruct (i <=? j).
Qed.
Lemma lrange_any l b e : index_any b -> index_any e -> size l < 2 ^ 31 -> lrange l b e = slice l (place l b) (place l e).
Proof.
  intros Hb He Hs. destruct (convertIndex_any l b Hb Hs) as [Pb Eb]. destruct (convertIndex_any l e He Hs) as [Pe Ee]. assert (0 <= size l) by (unfold size; lia). unfold index_any in *. unfold lrange. rewrite Eb, Ee. destruct (Z.ltb_spec b (- size l)) as [H1|H1].
  - rewrite lrange_behind by lia. assert (HP : place l b = size l) by (unfold place; zcases; lia). unfold slice. rewrite drop_ge by (unfold size in *; lia). by rewrite take_nil.
  - destruct (Z.ltb_spec e (- size l)) as [H2|H2]; [|apply lrange_loop_spec; lia]. rewrite lrange_far by lia. assert (HP : place l e = size l) by (unfold place; zcases; lia). rewrite HP. unfold slice. rewrite take_ge; [done|]. rewrite length_drop. unfold size in *. lia.
Qed.
(** What LTRIM keeps: what LRANGE returns, but one element when the range ends before it starts, and, when the range ends
    below the first element, everything from its start on, unless it starts at the first element and ends at the place before it. *)
Definition trimmed (l : list String_t) (b e : Z) : list String_t :=
  if - size l <=? e then slice l (place l b) (Z.max (place l b) (place l e))
  else if (place l b =? 0) && (e =? - size l - 1) then [] else drop (Z.to_nat (place l b)) l.
Lemma ltrim_any l b e : index_any b -> index_any e -> size l < 2 ^ 31 -> ltrim l b e = trimmed l b e.
Proof.
  intros Hb He Hs. destruct (convertIndex_any l b Hb Hs) as [Pb Eb]. destruct (convertIndex_any l e He Hs) as [Pe Ee]. assert (H0 : 0 <= size l) by (unfold size; lia). unfold index_any in *.
  unfold ltrim. rewrite ltrim_front_spec by (rewrite ?Eb, ?Ee; zcases; lia). unfold ltrim_back. assert (HD : drop (Z.to_nat (convertIndex l b)) l = drop (Z.to_nat (place l b)) l /\ Z.min (convertIndex l b) (size l) = Z.min (place l b) (size l)).
  { rewrite Eb. destruct (Z.ltb_spec b (- size l)); [|done]. assert (HP : place l b = size l) by (unfold place; zcases; lia). rewrite !drop_ge by (unfold size in *; lia). split; [done|lia]. } destruct HD as [-> ->]. unfold trimmed, slice. assert (HL : size (drop (Z.to_nat (place l b)) l) = Z.max 0 (size l - place l b)) by (unfold size in *; rewrite length_drop; lia). rewrite HL.
  set (i := place l b) in *. rewrite Ee. destruct (Z.leb_spec (- size l) e) as [H2|H2].
  - rewrite (proj2 (Z.ltb_ge e (- size l))) by lia. set (j := place l e) in *. unfold usize, SIZE_BITS. rewrite wrap_small by lia. destruct (Z.ltb_spec (Z.max 0 (j - Z.min i (size l)) + 1) (Z.max 0 (size l - i))); [f_equal; lia|]. rewrite take_ge; [done|]. rewrite length_drop. unfold size in *. lia.
  - rewrite (proj2 (Z.ltb_lt e (- size l))) by lia. destruct (Z.eqb_spec i 0) as [Hi|Hi]; cbn [andb].
    + rewrite Hi. replace (Z.min 0 (size l)) with 0 by lia. destruct (Z.eqb_spec e (- size l - 1)) as [H3|H3].
      * subst e. replace (Z.max 0 (2 ^ 64 + size l + (- size l - 1) - 0) + 1) with (2 ^ 64) by lia. change (usize (2 ^ 64)) with 0. destruct (Z.ltb_spec 0 (Z.max 0 (size l - 0))); [done|]. destruct l; [done|]. unfold size in *. cbn [length] in *. lia.
      * unfold usize, SIZE_BITS. rewrite wrap_small by lia. by rewrite (proj2 (Z.ltb_ge _ _)) by lia.
    + destruct (decide (size l = 0)) as [Hz|Hz]; [destruct l; [|unfold size in Hz; cbn in Hz; lia]; rewrite drop_nil, take_nil; match goal with |- (if ?b then _ else _) = _ => destruct b end; reflexivity|]. unfold usize, SIZE_BITS. rewrite wrap_small by lia. by rewrite (proj2 (Z.ltb_ge _ _)) by lia.
Qed.

(** ** Commands given as strings *)

Section Commands.
Context {F : Type} `{!Double F}.
Context (std_sort : (String_t -> String_t -> outcome error bool) -> list String_t -> outcome error (list String_t)).
Context (rand : Z).

(** A command: new database, result *)
Definition exec (verb : string) (db : Data_t) (as_ : list (value F)) : Data_t * outcome error (value F) :=
  let '(s, r) := execute std_sort rand (lit verb) (mkState db as_) in (m_data s, r).

(** A loop over string arguments is a fold. *)
Lemma while_args_strings {A} (body : A -> M A) (P : String_t -> Prop) (I : Data_t -> Prop) (step : A * Data_t -> String_t -> A * Data_t) :
  (forall a db x (rest : list (value F)), P x -> I db ->
     body a (mkState db (VString x :: rest)) = (mkState (step (a, db) x).2 rest, Ok (step (a, db) x).1) /\ I (step (a, db) x).2) ->
  forall xs a db, Forall P xs -> I db ->
  while_args body a (mkState db (map VString xs)) =
  (mkState (fold_left step xs (a, db)).2 [], Ok (fold_left step xs (a, db)).1).
Proof.
  intros Hb xs a db HP HI. unfold while_args, bind at 1, argc. cbn [args]. rewrite length_map.
  revert a db HI. induction HP as [|x xs Hx HP IH]; intros a db HI; [done|].
  cbn [length while_args_loop map]. unfold bind at 1, argc. cbn [args length Nat.eqb].
  destruct (Hb a db x (map VString xs) Hx HI) as [Hs HI'].
  unfold bind at 1. rewrite Hs. rewrite IH by done. cbn [fold_left]. by rewrite <- surjective_pairing.
Qed.

Lemma getCreate_present {A} (T : KeyType A) `{!KeyLaws T} db k a as_ : db !! k = Some (object T a) ->
  getCreate T k (mkState db as_ : @state F) = (mkState db as_, Ok a).
Proof.
  intros H. unfold getCreate, get, get_as, bind, find_key. cbn [m_data]. rewrite H.
  by rewrite (proj2 (cast_object (object T a) a) eq_refl).
Qed.

Lemma bind_eat_key {A} old (f : String_t -> M A) db x rest :
  bind (eat old) f (mkState db (VString x :: rest) : @state F) = f x (mkState db rest).
Proof. done. Qed.
Lemma bind_getCreate_present {A B} (T : KeyType A) `{!KeyLaws T} (f : A -> M B) db k a as_ : db !! k = Some (object T a) ->
  bind (getCreate T k) f (mkState db as_ : @state F) = f a (mkState db as_).
Proof. intros H. unfold bind. by rewrite (getCreate_present T db k a). Qed.

(** The list stored under a key; a missing key counts as an empty list. *)
Definition list_at (db : Data_t) (k : String_t) : option (list String_t) :=
  match db !! k with
  | Some (KList l) => Some l
  | Some _ => None
  | None => Some []
  end.
(** ... and storing one *)
Definition put_list (db : Data_t) (k : String_t) (l : list String_t) : Data_t :=
  if decide (l = []) then delete k db else <[ k := KList l ]> db.

Lemma list_at_cases db k l : list_at db k = Some l -> db !! k = Some (KList l) \/ (db !! k = None /\ l = []).
Proof. unfold list_at. destruct (db !! k) as [[]|]; intros [= <-]; auto. Qed.

Lemma getCreate_list db k l as_ : list_at db k = Some l ->
  getCreate tList k (mkState db as_ : @state F) =
  (mkState (if decide (db !! k = None) then <[ k := KList [] ]> db else db) as_, Ok l).
Proof.
  intros H. unfold getCreate, get, get_as, bind, find_key. cbn [m_data]. destruct (list_at_cases db k l H) as [E|[E ->]]; rewrite E.
  - rewrite decide_False by done. done.
  - rewrite decide_True by done. done.
Qed.

Lemma insert_create (db : Data_t) k l (P : Prop) `{!Decision P} :
  <[ k := KList l ]> (if decide P then <[ k := KList [] ]> db else db) = <[ k := KList l ]> db.
Proof. destruct (decide P); [by rewrite insert_insert_eq|done]. Qed.

Lemma push_fold (f : list String_t -> String_t -> list String_t) (k : String_t) (xs : list String_t) (a : String_t) (db : Data_t) l :
  db !! k = Some (KList l) ->
  (fold_left (fun '(a, db) x => (x, <[ k := KList (f (match db !! k with Some (KList l) => l | _ => [] end) x) ]> db)) xs (a, db)).2 =
  <[ k := KList (fold_left f xs l) ]> db.
Proof.
  revert a db l. induction xs as [|x xs IH]; intros a db l H; cbn [fold_left]; [by rewrite insert_id|].
  rewrite H. erewrite IH by apply lookup_insert_eq. by rewrite insert_insert_eq.
Qed.

Lemma exec_push (verb : string) (f : list String_t -> String_t -> list String_t) db k l xs :
  (lit verb = lit "LPUSH" /\ f = (fun l x => x :: l)) \/ (lit verb = lit "RPUSH" /\ f = (fun l x => l ++ [x])) ->
  list_at db k = Some l -> xs <> [] ->
  exec verb db (VString k :: map VString xs) = (<[ k := KList (fold_left f xs l) ]> db, Ok (VInteger (int32 (size (fold_left f xs l))))).
Proof.
  intros Hv Hl Hx.
  set (body := fun stringArg : String_t => bind (eat stringArg) (fun stringArg => bind (getCreate tList k) (fun l =>
    bind (update tList k (f l stringArg)) (fun _ => @ret F _ stringArg)))).
  assert (Hc : execute std_sort rand (lit verb) (mkState db (VString k :: map VString xs)) =
    (bind (getCreate tList k) (fun _ => bind (while_args body []) (fun _ => bind (getCreate tList k) (fun l => createInteger (int32 (size l))))))
      (mkState db (map VString xs) : @state F)).
  { assert (HN : (length (VString k :: map (@VString F) xs) <? 2)%nat = false) by (cbn [length]; rewrite length_map; destruct xs; done).
    destruct Hv as [[-> ->]|[-> ->]]; [change (execute std_sort rand (lit "LPUSH")) with (@cmd_LPUSH F _)|change (execute std_sort rand (lit "RPUSH")) with (@cmd_RPUSH F _)];
      unfold cmd_LPUSH, cmd_RPUSH, checkArgumentCountAtLeast, bind at 1 2, argc; cbn [args]; rewrite HN; done. }
  unfold exec. rewrite Hc. clear Hc Hv. unfold bind at 1. rewrite (getCreate_list db k l) by done.
  set (db1 := if decide (db !! k = None) then <[ k := KList [] ]> db else db).
  assert (H1 : db1 !! k = Some (KList l)).
  { subst db1. destruct (list_at_cases db k l Hl) as [E|[E ->]]; [by rewrite decide_False by congruence|rewrite decide_True by done; apply lookup_insert_eq]. }
  unfold bind at 1. rewrite (while_args_strings body (fun _ => True) (fun db => exists l, db !! k = Some (KList l))
    (fun '(a, db) x => (x, <[ k := KList (f (match db !! k with Some (KList l) => l | _ => [] end) x) ]> db))).
  - rewrite (push_fold f k xs [] db1 l H1). subst db1. rewrite insert_create. unfold bind. rewrite (getCreate_list _ k (fold_left f xs l));
      [|unfold list_at; by rewrite lookup_insert_eq].
    rewrite decide_False by (by rewrite lookup_insert_eq). done.
  - intros a db2 x rest _ [l2 H2]. cbn [fst snd]. rewrite H2. split; [|eexists; apply lookup_insert_eq].
    unfold body. by rewrite bind_eat_key, (bind_getCreate_present tList _ db2 k l2).
  - by apply Forall_true.
  - by eexists.
Qed.

(** Commands without a loop are executed symbolically. *)
Lemma exec_wp verb c db as_ db' r :
  execute std_sort rand (lit verb) = c ->
  wp c (fun e s => m_data s = db' /\ Throw e = r) (fun a s => m_data s = db' /\ Ok a = r) (mkState db as_) ->
  exec verb db as_ = (db', r).
Proof. intros <-. unfold wp, exec. destruct (execute _ _ _ _) as [s [a|e]]; by intros [<- <-]. Qed.

Lemma wp_eat_integer old E Q db i rest : Q i (mkState db rest) -> wp (eat_int old) E Q (mkState db (VInteger i :: rest) : @state F).
Proof. done. Qed.
Lemma wp_eat_integer_text old E Q db i rest : Q (show_int i) (mkState db rest) -> wp (eat old) E Q (mkState db (VInteger i :: rest) : @state F).
Proof. done. Qed.

Ltac wp_exact :=
  lazymatch goal with
  | |- wp (eat _) _ _ (mkState _ (VString _ :: _)) => apply wp_eat_key
  | |- wp (eat _) _ _ (mkState _ (VInteger _ :: _)) => apply wp_eat_integer_text
  | |- wp (eat_int _) _ _ (mkState _ (VInteger _ :: _)) => apply wp_eat_integer
  | |- wp (modify _ _) _ _ _ => unfold modify
  | |- wp (erase_if_empty _ _) _ _ _ => unfold erase_if_empty
  | |- _ => wp_step
  end.
Ltac exec_steps c :=
  apply (exec_wp _ c); [reflexivity|]; unfold_command; repeat wp_exact; simplify_map_eq; wrong_type; try done.

Lemma int32_size {A} (l : list A) : size l < 2 ^ 31 -> int32 (size l) = size l.
Proof. intros H. unfold int32. apply swrap_small; [lia|]. unfold in_s, size in *. lia. Qed.

Lemma put_list_eq (db : Data_t) k l :
  put_list db k l = if decide (l = []) then delete k (<[ k := KList l ]> db) else <[ k := KList l ]> db.
Proof. unfold put_list. destruct (decide (l = [])); [by rewrite delete_insert_eq|done]. Qed.

Section OneList.
Context (db : Data_t) (k : String_t) (l : list String_t) (Hl : list_at db k = Some l) (Hs : size l < 2 ^ 31).

Lemma exec_LLEN : exec "LLEN" db [VString k] = (db, Ok (VInteger (size l))).
Proof.
  rewrite <- (int32_size l Hs). destruct (list_at_cases db k l Hl) as [E|[E E']]; exec_steps (@cmd_LLEN F _).
Qed.
Lemma exec_LPOP x l' : l = x :: l' -> exec "LPOP" db [VString k] = (put_list db k l', Ok (VString x)).
Proof.
  intros ->. rewrite put_list_eq. destruct (list_at_cases db k _ Hl) as [E|[E E']]; [|done]. exec_steps (@cmd_LPOP F _).
Qed.
Lemma exec_RPOP x l' : l = l' ++ [x] -> exec "RPOP" db [VString k] = (put_list db k l', Ok (VString x)).
Proof.
  intros ->. destruct (list_at_cases db k _ Hl) as [E|[E E']]; [|by destruct l'].
  assert (Ht : take (length (l' ++ [x]) - 1) (l' ++ [x]) = l')
    by (rewrite length_app; simpl; replace (length l' + 1 - 1)%nat with (length l') by lia; apply take_app_length).
  rewrite put_list_eq. exec_steps (@cmd_RPOP F _); rewrite ?Ht, ?last_snoc in *; simplify_eq.
  - by rewrite decide_True.
  - by rewrite decide_False.
Qed.
Lemma exec_pop_empty : l = [] -> exec "LPOP" db [VString k] = (db, Ok VNull) /\ exec "RPOP" db [VString k] = (db, Ok VNull).
Proof.
  intros ->. destruct (list_at_cases db k _ Hl) as [E|[E E']]; (split; [exec_steps (@cmd_LPOP F _)|exec_steps (@cmd_RPOP F _)]).
Qed.
Lemma exec_LRANGE b e : index_ok l b -> index_ok l e ->
  exec "LRANGE" db [VString k; VInteger b; VInteger e] = (db, Ok (VVector (map VString (slice l (real_index l b) (real_index l e))))).
Proof.
  intros Hb He. rewrite <- (lrange_spec l b e) by done.
  destruct (list_at_cases db k _ Hl) as [E|[E E']]; exec_steps (@cmd_LRANGE F _).
Qed.
(** The range from the first to the last element *)
Lemma exec_LRANGE_all : exec "LRANGE" db [VString k; VInteger 0; VInteger (-1)] = (db, Ok (VVector (map VString l))).
Proof.
  destruct (decide (l = [])) as [E0|E0].
  - assert (Hl0 : list_at db k = Some []) by (by rewrite Hl, E0). rewrite E0. destruct (list_at_cases db k _ Hl0) as [E|[E E']]; exec_steps (@cmd_LRANGE F _).
  - assert (Hlen : 1 <= size l) by (unfold size; destruct l; [done|cbn [length]; lia]).
    rewrite exec_LRANGE by (unfold index_ok, in_s; lia). do 4 f_equal. unfold slice, real_index. cbn [Z.leb Z.compare Z.to_nat drop].
    apply take_ge. unfold size in *. lia.
Qed.
Lemma exec_LTRIM b e : index_ok l b -> index_ok l e -> real_index l b <= real_index l e ->
  exec "LTRIM" db [VString k; VInteger b; VInteger e] = (put_list db k (slice l (real_index l b) (real_index l e)), Ok (VString (lit "OK"))).
Proof.
  intros Hb He Hle. rewrite <- (ltrim_spec l b e) by done. destruct (list_at_cases db k _ Hl) as [E|[E E']].
  - rewrite put_list_eq. exec_steps (@cmd_LTRIM F _).
  - subst l. unfold put_list. rewrite ltrim_nil, decide_True by done.
    rewrite delete_id by done. exec_steps (@cmd_LTRIM F _).
Qed.
Lemma exec_LINDEX i : index_ok l i ->
  exec "LINDEX" db [VString k; VInteger i] = (db, Ok (match l !! Z.to_nat (real_index l i) with Some x => VString x | None => VNull end)).
Proof.
  intros Hi. destruct (convertIndex_ok l i Hi Hs) as [Ec Er]. rewrite <- getByIndex_lookup, <- Ec by lia.
  destruct (list_at_cases db k _ Hl) as [E|[E E']]; exec_steps (@cmd_LINDEX F _).
Qed.
Lemma exec_LSET i x : index_ok l i -> real_index l i < size l ->
  exec "LSET" db [VString k; VInteger i; VString x] = (<[ k := KList (<[ Z.to_nat (real_index l i) := x ]> l) ]> db, Ok (VString (lit "OK"))).
Proof.
  intros Hi Hlt. destruct (convertIndex_ok l i Hi Hs) as [Ec Er].
  pose proof (setByIndex_insert l (real_index l i) x ltac:(lia)) as Hset. rewrite decide_True in Hset by done. rewrite <- Ec in Hset at 1.
  destruct (list_at_cases db k _ Hl) as [E|[E E']]; [|subst l; unfold size in *; simpl in *; lia]. exec_steps (@cmd_LSET F _).
Qed.
Lemma exec_LRANGE_any b e : index_any b -> index_any e ->
  exec "LRANGE" db [VString k; VInteger b; VInteger e] = (db, Ok (VVector (map VString (slice l (place l b) (place l e))))).
Proof.
  intros Hb He. rewrite <- (lrange_any l b e) by done. destruct (list_at_cases db k _ Hl) as [E|[E E']]; exec_steps (@cmd_LRANGE F _).
Qed.
Lemma exec_LTRIM_any b e : index_any b -> index_any e ->
  exec "LTRIM" db [VString k; VInteger b; VInteger e] = (put_list db k (trimmed l b e), Ok (VString (lit "OK"))).
Proof.
  intros Hb He. rewrite <- (ltrim_any l b e) by done. destruct (list_at_cases db k _ Hl) as [E|[E E']].
  - rewrite put_list_eq. exec_steps (@cmd_LTRIM F _).
  - subst l. unfold put_list. rewrite ltrim_nil, decide_True by done. rewrite delete_id by done. exec_steps (@cmd_LTRIM F _).
Qed.
Lemma exec_LINDEX_any i : index_any i ->
  exec "LINDEX" db [VString k; VInteger i] = (db, Ok (match l !! Z.to_nat (place l i) with Some x => VString x | None => VNull end)).
Proof.
  intros Hi. rewrite <- getByIndex_any by done. destruct (list_at_cases db k _ Hl) as [E|[E E']]; exec_steps (@cmd_LINDEX F _).
Qed.
Lemma exec_LSET_any i x : index_any i ->
  exec "LSET" db [VString k; VInteger i; VString x] =
  (if decide (place l i < size l) then (<[ k := KList (<[ Z.to_nat (place l i) := x ]> l) ]> db, Ok (VString (lit "OK"))) else (db, Throw (Raise (RemoteErrorException INTERNAL_DATABASE INVALID_INDEX)))).
Proof.
  intros Hi. pose proof (setByIndex_any l i x Hi Hs) as Hset. destruct (decide (place l i < size l)) as [Hlt|Hlt].
  - destruct (list_at_cases db k _ Hl) as [E|[E E']]; [|subst l; destruct (convertIndex_any [] i Hi Hs) as [Hp _]; unfold size in *; simpl in *; lia]. exec_steps (@cmd_LSET F _).
  - destruct (list_at_cases db k _ Hl) as [E|[E E']]; exec_steps (@cmd_LSET F _).
Qed.
End OneList.

Ltac last_found := match goal with H : last (_ ++ [_]) = _ |- _ => rewrite last_snoc in H; first [discriminate H | injection H as <-] end.

(** RPOPLPUSH moves the last element of a list to the front of another one, or
    of the same one. *)
Lemma exec_RPOPLPUSH db k k2 l' x l2 :
  list_at db k = Some (l' ++ [x]) -> list_at db k2 = Some l2 ->
  exec "RPOPLPUSH" db [VString k; VString k2] =
  (if decide (k = k2) then <[ k := KList (x :: l') ]> db else put_list (<[ k2 := KList (x :: l2) ]> db) k l', Ok (VString x)).
Proof.
  intros Hl Hl2. assert (E : db !! k = Some (KList (l' ++ [x]))) by (destruct (list_at_cases db k _ Hl) as [?|[? ?]]; [done|by destruct l']).
  assert (Ht : forall r, take (length ((r ++ l') ++ [x]) - 1) ((r ++ l') ++ [x]) = r ++ l')
    by (intros r; rewrite (length_app (r ++ l')); simpl; replace (length (r ++ l') + 1 - 1)%nat with (length (r ++ l')) by lia; apply take_app_length).
  destruct (decide (k = k2)) as [<-|Hne].
  - rewrite Hl in Hl2. simplify_eq. exec_steps (@cmd_RPOPLPUSH F _); last_found.
    + specialize (Ht [x]). simpl in Ht. simpl in *. congruence.
    + rewrite insert_insert_eq. specialize (Ht [x]). simpl in Ht. simpl. by rewrite Ht.
  - rewrite put_list_eq. specialize (Ht []). simpl in Ht.
    destruct (list_at_cases db k2 _ Hl2) as [E2|[E2 ->]]; exec_steps (@cmd_RPOPLPUSH F _); last_found; rewrite ?Ht in *.
    all: rewrite ?insert_insert_eq; first [by rewrite decide_True|by rewrite decide_False].
Qed.

(** *** LREM *)

Definition occurrences (x : String_t) (l : list String_t) : Z := size (filter (fun y => y = x) l).

Lemma occurrences_cons x y l : occurrences x (y :: l) = bool_int (bool_decide (y = x)) + occurrences x l.
Proof.
  unfold occurrences, size, bool_int. destruct (bool_decide_reflect (y = x)) as [->|Hne].
  - rewrite filter_cons_True by done. cbn [length]. lia.
  - rewrite filter_cons_False by done. lia.
Qed.

(** Up to [count] occurrences are removed from the start of the list; all of
    them when the count is not positive. *)
Lemma lrem_loop_spec x l count :
  let '(r, n) := lrem_loop x (-1) l count in
  exists l1 l2, l = l1 ++ l2 /\ r = filter (fun y => y <> x) l1 ++ l2 /\ n = occurrences x l1 /\
    (l2 = [] \/ (0 < count /\ n = count)) /\ (0 < count -> n <= count).
Proof.
  revert count. induction l as [|y l IH]; intros count; cbn [lrem_loop].
  - exists [], []. split; [done|]. split; [done|]. split; [done|]. split; [by left|lia].
  - destruct (bool_decide_reflect (y = x)) as [->|Hne].
    + destruct (Z.eqb_spec (count + -1) 0) as [E|E].
      * exists [x], l. rewrite occurrences_cons, bool_decide_true, filter_cons_False by naive_solver.
        split; [done|]. split; [done|]. split; [done|]. split; [right; lia|lia].
      * specialize (IH (count + -1)). destruct (lrem_loop x (-1) l (count + -1)) as [r n].
        destruct IH as (l1 & l2 & -> & -> & -> & H1 & H2). exists (x :: l1), l2.
        rewrite occurrences_cons, bool_decide_true, filter_cons_False by naive_solver. unfold bool_int.
        split; [done|]. split; [done|]. split; [lia|]. split; [destruct H1; [by left|right; lia]|]. intros. lia.
    + specialize (IH count). destruct (lrem_loop x (-1) l count) as [r n].
      destruct IH as (l1 & l2 & -> & -> & -> & H1 & H2). exists (y :: l1), l2.
      rewrite occurrences_cons, bool_decide_false, filter_cons_True by naive_solver. unfold bool_int.
      split; [done|]. split; [done|]. split; [lia|]. split; [destruct H1; [by left|right; lia]|]. intros. lia.
Qed.

Lemma lrem_loop_up x l count : lrem_loop x 1 l count = lrem_loop x (-1) l (- count).
Proof.
  revert count. induction l as [|y l IH]; intros count; cbn [lrem_loop]; [done|]. destruct (bool_decide (y = x)).
  - rewrite IH. replace (- (count + 1)) with (- count + -1) by lia.
    destruct (Z.eqb_spec (count + 1) 0), (Z.eqb_spec (- count + -1) 0); done || lia.
  - by rewrite IH.
Qed.

Lemma lrem_spec l count x :
  let '(r, n) := lrem l count x in
  exists l1 l2, n = occurrences x l1 /\ (count = 0 -> l2 = []) /\ (l2 = [] \/ n = Z.abs count) /\ (count <> 0 -> n <= Z.abs count) /\
    (if decide (0 <= count) then l = l1 ++ l2 /\ r = filter (fun y => y <> x) l1 ++ l2
     else l = l2 ++ l1 /\ r = l2 ++ filter (fun y => y <> x) l1).
Proof.
  unfold lrem. destruct (Z.ltb_spec count 0).
  - rewrite lrem_loop_up. pose proof (lrem_loop_spec x (reverse l) (- count)) as H1. destruct (lrem_loop x (-1) (reverse l) (- count)) as [r n].
    destruct H1 as (l1 & l2 & E & -> & -> & H1 & H2). exists (reverse l1), (reverse l2).
    apply (f_equal reverse) in E. rewrite reverse_involutive, reverse_app in E. subst l.
    split. { unfold occurrences, size. by rewrite filter_reverse, length_reverse. }
    split; [lia|]. split; [destruct H1 as [->|?]; [by left|right; lia]|]. split; [lia|].
    rewrite decide_False by lia. split; [done|]. by rewrite reverse_app, filter_reverse.
  - pose proof (lrem_loop_spec x l count) as H1. destruct (lrem_loop x (-1) l count) as [r n].
    destruct H1 as (l1 & l2 & -> & -> & -> & H1 & H2). exists l1, l2. rewrite decide_True by lia.
    split; [done|]. split; [intros ->; destruct H1; [done|lia]|]. split; [destruct H1; [by left|right; lia]|]. split; [lia|done].
Qed.

(** *** Sets *)

Definition set_at (db : Data_t) (k : String_t) : option (gset String_t) :=
  match db !! k with
  | Some (KSet m) => Some m
  | Some _ => None
  | None => Some ∅
  end.
Definition put_set (db : Data_t) (k : String_t) (m : gset String_t) : Data_t :=
  if decide (m = ∅) then delete k db else <[ k := KSet m ]> db.
Definition card (m : gset String_t) : Z := Z.of_nat (base.size m).

Lemma set_at_cases db k m : set_at db k = Some m -> db !! k = Some (KSet m) \/ (db !! k = None /\ m = ∅).
Proof. unfold set_at. destruct (db !! k) as [[]|]; intros [= <-]; auto. Qed.

Lemma elements_card (m : gset String_t) : size (elements m) = card m.
Proof. done. Qed.

(** *** SADD *)
Definition sadd_step (k : String_t) (st : (String_t * Z) * Data_t) (x : String_t) : (String_t * Z) * Data_t :=
  let m := match st.2 !! k with Some (KSet m) => m | _ => ∅ end in
  if decide (x ∈ m) then ((x, st.1.2), st.2) else ((x, st.1.2 + 1), <[ k := KSet ({[ x ]} ∪ m) ]> st.2).

Lemma sadd_fold k xs a n db m : db !! k = Some (KSet m) ->
  (fold_left (sadd_step k) xs ((a, n), db)).2 = <[ k := KSet (m ∪ list_to_set xs) ]> db /\
  (fold_left (sadd_step k) xs ((a, n), db)).1.2 = n + (card (m ∪ list_to_set xs) - card m).
Proof.
  revert a n db m. induction xs as [|x xs IH]; intros a n db m H; cbn [fold_left].
  - assert (m ∪ list_to_set [] = m) as -> by set_solver. split; [cbn [snd]; by rewrite insert_id|cbn [fst snd]; lia].
  - rewrite list_to_set_cons. unfold sadd_step at 2 4. cbn [fst snd]. rewrite H. destruct (decide (x ∈ m)).
    + destruct (IH x n db m H) as [-> ->].
      assert (m ∪ ({[x]} ∪ list_to_set xs) = m ∪ list_to_set xs) as -> by set_solver. done.
    + destruct (IH x (n + 1) (<[k := KSet ({[x]} ∪ m)]> db) ({[x]} ∪ m)) as [-> ->]; [apply lookup_insert_eq|].
      rewrite insert_insert_eq. assert ({[x]} ∪ m ∪ list_to_set xs = m ∪ ({[x]} ∪ list_to_set xs)) as -> by set_solver.
      split; [done|]. unfold card. rewrite (size_union {[x]} m) by set_solver. rewrite size_singleton. lia.
Qed.

Lemma exec_SADD db k m xs : set_at db k = Some m -> xs <> [] ->
  exec "SADD" db (VString k :: map VString xs) =
  (<[ k := KSet (m ∪ list_to_set xs) ]> db, Ok (VInteger (card (m ∪ list_to_set xs) - card m))).
Proof.
  intros Hm Hx. set (db1 := if decide (db !! k = None) then <[ k := KSet ∅ ]> db else db).
  assert (H1 : db1 !! k = Some (KSet m)).
  { subst db1. destruct (set_at_cases db k m Hm) as [E|[E ->]]; [by rewrite decide_False by congruence|rewrite decide_True by done; apply lookup_insert_eq]. }
  apply (exec_wp _ cmd_SADD); [reflexivity|]. unfold cmd_SADD. wp_exact.
  apply wp_check_at_least; [intros _|cbn [args length]; rewrite length_map; destruct xs; simpl; [done|lia]].
  do 3 wp_exact.
  match goal with |- wp (getCreate _ _) ?E ?Q _ => assert (HW : wp (getCreate tSet k) E Q (mkState db (map VString xs)) <->
     Q m (mkState db1 (map VString xs))) end.
  { unfold wp, getCreate, get, get_as, bind, find_key. cbn [m_data]. subst db1. destruct (set_at_cases db k m Hm) as [E|[E ->]]; rewrite E; done. }
  apply HW. clear HW. apply wp_bind.
  match goal with |- wp (while_args ?b _) _ _ _ => pose proof (while_args_strings b (fun _ => True) (fun db => exists m, db !! k = Some (KSet m)) (sadd_step k)) as HL end.
  unfold wp at 1. rewrite HL; [| |by apply Forall_true|by eexists].
  - destruct (sadd_fold k xs [] 0 db1 m H1) as [-> ->]. unfold wp, createInteger, ret. cbn [m_data]. split; [|f_equal; f_equal; lia].
    subst db1. destruct (decide _); [by rewrite insert_insert_eq|done].
  - intros [a n] db2 x rest _ [m2 H2]. unfold sadd_step. cbn [fst snd]. rewrite H2.
    rewrite bind_eat_key, (bind_getCreate_present tSet _ db2 k m2) by done. destruct (decide (x ∈ m2)).
    + rewrite bool_decide_true by done. split; [done|by eexists].
    + rewrite bool_decide_false by done. split; [done|]. eexists. apply lookup_insert_eq.
Qed.

(** *** SREM *)
Definition srem_step (k : String_t) (st : (String_t * Z) * Data_t) (x : String_t) : (String_t * Z) * Data_t :=
  let m := match st.2 !! k with Some (KSet m) => m | _ => ∅ end in
  ((x, st.1.2 + bool_int (bool_decide (x ∈ m))), <[ k := KSet (m ∖ {[ x ]}) ]> st.2).

Lemma srem_fold k xs a n db m : db !! k = Some (KSet m) ->
  (fold_left (srem_step k) xs ((a, n), db)).2 = <[ k := KSet (m ∖ list_to_set xs) ]> db /\
  (fold_left (srem_step k) xs ((a, n), db)).1.2 = n + (card m - card (m ∖ list_to_set xs)).
Proof.
  revert a n db m. induction xs as [|x xs IH]; intros a n db m H; cbn [fold_left].
  - assert (m ∖ list_to_set [] = m) as -> by set_solver. split; [cbn [snd]; by rewrite insert_id|cbn [fst snd]; lia].
  - rewrite list_to_set_cons. unfold srem_step at 2 4. cbn [fst snd]. rewrite H.
    destruct (IH x (n + bool_int (bool_decide (x ∈ m))) (<[k := KSet (m ∖ {[x]})]> db) (m ∖ {[x]})) as [-> ->]; [apply lookup_insert_eq|].
    rewrite insert_insert_eq. assert (m ∖ {[x]} ∖ list_to_set xs = m ∖ ({[x]} ∪ list_to_set xs)) as -> by set_solver.
    split; [done|]. unfold card, bool_int. destruct (bool_decide_reflect (x ∈ m)) as [Hin|Hin].
    + assert (base.size m = S (base.size (m ∖ {[x]}))); [|lia].
      assert (Hm : m = {[x]} ∪ (m ∖ {[x]})) by (apply union_difference_L; set_solver).
      rewrite Hm at 1. rewrite size_union by set_solver. by rewrite size_singleton.
    + assert (m ∖ {[x]} = m) as -> by set_solver. lia.
Qed.

Lemma exec_SREM db k m xs : set_at db k = Some m -> m <> ∅ -> xs <> [] ->
  exec "SREM" db (VString k :: map VString xs) =
  (put_set db k (m ∖ list_to_set xs), Ok (VInteger (card m - card (m ∖ list_to_set xs)))).
Proof.
  intros Hm Hm0 Hx. assert (H1 : db !! k = Some (KSet m)) by (by destruct (set_at_cases db k m Hm) as [E|[E ->]]).
  apply (exec_wp _ cmd_SREM); [reflexivity|]. unfold cmd_SREM. wp_exact.
  apply wp_check_at_least; [intros _|cbn [args length]; rewrite length_map; destruct xs; simpl; [done|lia]].
  do 4 wp_exact; simplify_map_eq; wrong_type. apply wp_bind.
  match goal with |- wp (while_args ?b _) _ _ _ => pose proof (while_args_strings b (fun _ => True) (fun db => exists m, db !! k = Some (KSet m)) (srem_step k)) as HL end.
  unfold wp at 1. rewrite HL; [| |by apply Forall_true|by eexists].
  - destruct (srem_fold k xs [] 0 db m H1) as [-> HR]. cbv beta iota. rewrite HR. do 2 wp_exact; simplify_map_eq; wrong_type. wp_exact. unfold put_set.
    case_bool_decide as E; repeat wp_exact.
    + rewrite decide_True by done. split; [by rewrite delete_insert_eq|f_equal; f_equal; lia].
    + rewrite decide_False by done. split; [done|f_equal; f_equal; lia].
  - intros [a n] db2 x rest _ [m2 H2]. unfold srem_step. cbn [fst snd]. rewrite H2.
    rewrite bind_eat_key, (bind_getCreate_present tSet _ db2 k m2) by done. split; [done|]. eexists. apply lookup_insert_eq.
Qed.

(** *** SDIFF, SINTER, SUNION *)
Definition set_of (db : Data_t) (k : String_t) : gset String_t := default ∅ (set_at db k).

Definition setop_step (op : SetOperation) (db0 : Data_t) (st : (String_t * gset String_t) * Data_t) (x : String_t) : (String_t * gset String_t) * Data_t :=
  ((x, combine_sets op st.1.2 (set_of db0 x)), st.2).
Lemma setop_fold op db0 ks k m db :
  (fold_left (setop_step op db0) ks ((k, m), db)).2 = db /\
  (fold_left (setop_step op db0) ks ((k, m), db)).1.2 = fold_left (combine_sets op) (map (set_of db0) ks) m.
Proof. revert k m. induction ks as [|x ks IH]; intros k m; [done|]. cbn [fold_left map]. apply IH. Qed.

Lemma executeSetOperation_spec op db k ks : Forall (fun k => set_at db k <> None) (k :: ks) ->
  executeSetOperation op (mkState db (map VString (k :: ks)) : @state F) =
  (mkState db [], Ok (fold_left (combine_sets op) (map (set_of db) ks) (set_of db k))).
Proof.
  intros Hk. apply Forall_cons in Hk as [H0 Hks]. unfold executeSetOperation. cbn [map]. rewrite bind_eat_key.
  assert (Hget : forall k (as_ : list (value F)), set_at db k <> None -> exists o, get tSet k (mkState db as_) = (mkState db as_, Ok o) /\ default ∅ o = set_of db k).
  { intros k' as_ H. unfold get, get_as, bind, find_key, set_of, set_at in *. cbn [m_data]. destruct (db !! k') as [[]|]; try done; eexists; done. }
  destruct (Hget k (map VString ks) H0) as (o & Ho & Hd). unfold bind at 1. rewrite Ho, Hd. unfold bind at 1.
  match goal with |- context [while_args ?b _] => pose proof (while_args_strings b (fun k => set_at db k <> None) (fun db' => db' = db)
    (setop_step op db)) as HL end.
  rewrite HL; [|clear HL|done|done].
  - destruct (setop_fold op db ks k (set_of db k) db) as [-> E]. unfold ret. cbv beta iota. by rewrite E.
  - intros [a m] db2 x rest Hx ->. cbn [fst snd]. rewrite bind_eat_key. destruct (Hget x rest Hx) as (o' & Ho' & Hd').
    unfold bind. rewrite Ho', Hd'. done.
Qed.

Lemma exec_SETOP op verb db k ks :
  execute std_sort rand (lit verb) = cmd_SETOP op -> Forall (fun k => set_at db k <> None) (k :: ks) ->
  exec verb db (map VString (k :: ks)) =
  (db, Ok (VVector (map VString (set_elements (fold_left (combine_sets op) (map (set_of db) ks) (set_of db k)))))).
Proof.
  intros Hv Hk. apply (exec_wp _ _ _ _ _ _ Hv). unfold cmd_SETOP. wp_exact. apply wp_check_at_least; [intros _|simpl; lia].
  apply wp_bind. unfold wp at 1. by rewrite executeSetOperation_spec.
Qed.

Lemma exec_SETOPSTORE op verb db d k ks :
  execute std_sort rand (lit verb) = cmd_SETOPSTORE op -> Forall (fun k => set_at db k <> None) (d :: k :: ks) ->
  let m := fold_left (combine_sets op) (map (set_of db) ks) (set_of db k) in
  exec verb db (VString d :: map VString (k :: ks)) = (put_set db d m, Ok (VInteger (int32 (card m)))).
Proof.
  intros Hv Hk m. apply Forall_cons in Hk as [Hd Hk]. apply (exec_wp _ _ _ _ _ _ Hv). unfold cmd_SETOPSTORE. wp_exact.
  apply wp_check_at_least; [intros _|simpl; lia]. do 2 wp_exact. apply wp_bind. unfold wp at 1.
  rewrite executeSetOperation_spec by done. cbv beta iota. fold m. unfold put_set. destruct (set_at db d) as [md|] eqn:Ed; [|done].
  destruct (set_at_cases db d md Ed) as [E|[E ->]]; do 2 wp_exact; simplify_map_eq; wrong_type; repeat wp_exact;
    rewrite ?insert_insert_eq, ?delete_insert_eq; try (by rewrite decide_True); by rewrite decide_False.
Qed.

Section OneSet.
Context (db : Data_t) (k : String_t) (m : gset String_t) (Hm : set_at db k = Some m).

Lemma exec_SISMEMBER x : exec "SISMEMBER" db [VString k; VString x] = (db, Ok (VInteger (bool_int (bool_decide (x ∈ m))))).
Proof. destruct (set_at_cases db k m Hm) as [E|[E E']]; exec_steps (@cmd_SISMEMBER F _). Qed.
Lemma exec_SMEMBERS : exec "SMEMBERS" db [VString k] = (db, Ok (VVector (map VString (set_elements m)))).
Proof. destruct (set_at_cases db k m Hm) as [E|[E E']]; exec_steps (@cmd_SMEMBERS F _). Qed.
Lemma exec_SCARD : exec "SCARD" db [VString k] = (db, Ok (VInteger (int32 (card m)))).
Proof. destruct (set_at_cases db k m Hm) as [E|[E E']]; exec_steps (@cmd_SCARD F _). Qed.

Lemma set_elements_spec : (forall x, x ∈ set_elements m <-> x ∈ m) /\ NoDup (set_elements m) /\ StronglySorted string_le (set_elements m).
Proof.
  unfold set_elements, ordered. pose proof (merge_sort_Permutation string_le (elements m)) as HP. split; [|split].
  - intros x. rewrite HP. apply elem_of_elements.
  - rewrite HP. apply NoDup_elements.
  - apply StronglySorted_merge_sort.
    + intros a b c H1 H2. unfold string_le in *. destruct (lex a b) eqn:E1; [apply lex_eq in E1 as ->|..|done]; [done|].
      destruct (lex b c) eqn:E2; [apply lex_eq in E2 as ->|..|done]; [by rewrite E1|]. by rewrite (lex_trans a b c).
    + intros a b. unfold string_le. rewrite (lex_antisym a b). destruct (lex a b); simpl; auto.
Qed.
End OneSet.

(** *** Strings *)

(** The string stored under a key, if any; None when the key has another type *)
Definition string_at (db : Data_t) (k : String_t) : option (option String_t) :=
  match db !! k with
  | Some (KString t) => Some (Some t)
  | Some _ => None
  | None => Some None
  end.
Definition opt_value (o : option String_t) : value F := match o with Some t => VString t | None => VNull end.

Lemma string_at_cases db k o : string_at db k = Some o ->
  (exists t, db !! k = Some (KString t) /\ o = Some t) \/ (db !! k = None /\ o = None).
Proof. unfold string_at. destruct (db !! k) as [[]|]; intros [= <-]; eauto. Qed.

Lemma exec_SET db k x : exec "SET" db [VString k; VString x] = (<[ k := KString x ]> db, Ok (VString (lit "OK"))).
Proof.
  exec_steps (@cmd_SET F _). split; [|done]. by rewrite insert_insert_eq, insert_delete_eq.
Qed.

(** The index range of GETRANGE: negative numbers count from the end, but not beyond the start *)
Definition clamp_index (t : String_t) (n : Z) : Z := if n <? 0 then Z.max 0 (n + size t) else n.
Lemma getrange_spec t b e : size t < 2 ^ 31 -> in_s 32 b -> in_s 32 e -> e < 2 ^ 31 - 1 ->
  getrange t b e = slice t (clamp_index t b) (clamp_index t e).
Proof.
  unfold in_s. intros Hs Hb He He'. unfold getrange, slice, clamp_index. rewrite int32_size by done.
  set (b1 := if b <? 0 then b + size t else b). set (e1 := if e <? 0 then e + size t else e).
  assert (Hsz : 0 <= size t) by (unfold size; lia).
  assert (Eb : (if b1 <? 0 then 0 else b1) = clamp_index t b) by (subst b1; unfold clamp_index; zcases; lia).
  assert (Ee : (if e1 <? 0 then 0 else e1) = clamp_index t e) by (subst e1; unfold clamp_index; zcases; lia).
  rewrite Eb, Ee. assert (Hc : 0 <= clamp_index t e < 2 ^ 31 - 1) by (unfold clamp_index; destruct (Z.ltb_spec e 0); lia).
  assert (Hc' : 0 <= clamp_index t b) by (unfold clamp_index; destruct (Z.ltb_spec b 0); lia).
  fold (clamp_index t b) (clamp_index t e). unfold int32. rewrite swrap_small by (unfold in_s; lia).
  destruct (Z.leb_spec (clamp_index t e + 1) (clamp_index t b)); cbn [orb].
  - by replace (Z.to_nat (clamp_index t e + 1 - clamp_index t b)) with 0%nat by lia.
  - destruct (Z.leb_spec (size t) (clamp_index t b)); [|done]. rewrite drop_ge, take_nil; [done|]. unfold size in *. lia.
Qed.

Section OneString.
Context (db : Data_t) (k : String_t) (o : option String_t) (Ho : string_at db k = Some o).
Let text := default [] o.

Lemma exec_GET : exec "GET" db [VString k] = (db, Ok (opt_value o)).
Proof. destruct (string_at_cases db k o Ho) as [(t & E & ->)|[E ->]]; exec_steps (@cmd_GET F _). Qed.
Lemma exec_APPEND x : exec "APPEND" db [VString k; VString x] = (<[ k := KString (text ++ x) ]> db, Ok (VInteger (int32 (size (text ++ x))))).
Proof.
  subst text. destruct (string_at_cases db k o Ho) as [(t & E & ->)|[E ->]]; exec_steps (@cmd_APPEND F _).
  split; [by rewrite insert_insert_eq|done].
Qed.
Lemma exec_GETSET x : exec "GETSET" db [VString k; VString x] = (<[ k := KString x ]> db, Ok (opt_value o)).
Proof.
  destruct (string_at_cases db k o Ho) as [(t & E & ->)|[E ->]]; exec_steps (@cmd_GETSET F _).
  split; [by rewrite insert_insert_eq|done].
Qed.
Lemma exec_SETNX x : exec "SETNX" db [VString k; VString x] =
  match o with Some _ => (db, Ok (VInteger 0)) | None => (<[ k := KString x ]> db, Ok (VInteger 1)) end.
Proof. destruct (string_at_cases db k o Ho) as [(t & E & ->)|[E ->]]; exec_steps (@cmd_SETNX F _). Qed.
Lemma exec_STRLEN : size text < 2 ^ 31 -> exec "STRLEN" db [VString k] = (db, Ok (VInteger (size text))).
Proof.
  subst text. intros Hs. destruct (string_at_cases db k o Ho) as [(t & E & ->)|[E ->]]; exec_steps (@cmd_STRLEN F _).
  by rewrite int32_size.
Qed.
Lemma exec_GETRANGE b e : exec "GETRANGE" db [VString k; VInteger b; VInteger e] =
  (db, Ok (match o with Some t => VString (getrange t b e) | None => VNull end)).
Proof. destruct (string_at_cases db k o Ho) as [(t & E & ->)|[E ->]]; exec_steps (@cmd_GETRANGE F _). Qed.

(** The number a text stands for; an empty text counts as 0 *)
Lemma modify_spec i d as_ : sort_int text = Some i -> in_s 32 (i + d) ->
  modify k d (mkState db as_ : @state F) = (mkState (<[ k := KString (show_int (i + d)) ]> db) as_, Ok (i + d)).
Proof.
  subst text. intros Hi Hd. assert (E32 : int32 (i + d) = i + d) by (apply swrap_small; done).
  assert (Hint : forall s : @state F, int_of (default [] o) s = (s, Ok i)).
  { intros s. unfold int_of. unfold sort_int in Hi. case_bool_decide; [by injection Hi as <-|by rewrite Hi]. }
  unfold modify. destruct (string_at_cases db k o Ho) as [(t & E & ->)|[E ->]]; simpl in Hint.
  - rewrite (bind_getCreate_present tString _ db k t) by done. unfold bind at 1. rewrite Hint, E32. done.
  - unfold getCreate, get, get_as, bind, find_key. cbn [m_data]. rewrite E. cbn [ret insertNew m_data args fresh tString].
    rewrite Hint, E32. cbn. by rewrite insert_insert_eq.
Qed.
Lemma exec_numbers i d : sort_int text = Some i -> in_s 32 d -> d <> - 2 ^ 31 ->
  (in_s 32 (i + 1) -> exec "INCR" db [VString k] = (<[ k := KString (show_int (i + 1)) ]> db, Ok (VInteger (i + 1)))) /\
  (in_s 32 (i - 1) -> exec "DECR" db [VString k] = (<[ k := KString (show_int (i - 1)) ]> db, Ok (VInteger (i - 1)))) /\
  (in_s 32 (i + d) -> exec "INCRBY" db [VString k; VInteger d] = (<[ k := KString (show_int (i + d)) ]> db, Ok (VInteger (i + d)))) /\
  (in_s 32 (i - d) -> exec "DECRBY" db [VString k; VInteger d] = (<[ k := KString (show_int (i - d)) ]> db, Ok (VInteger (i - d)))).
Proof.
  intros Hi Hd Hd'. unfold in_s in Hd. assert (E32 : int32 (- d) = - d) by (apply swrap_small; [lia|unfold in_s; lia]).
  split; [|split; [|split]]; intros Hr.
  - apply (exec_wp _ cmd_INCR); [reflexivity|]. unfold cmd_INCR. do 2 wp_exact; [|done]. do 3 wp_exact.
    unfold wp. by rewrite (modify_spec i 1).
  - apply (exec_wp _ cmd_DECR); [reflexivity|]. unfold cmd_DECR. do 2 wp_exact; [|done]. do 3 wp_exact.
    unfold wp. by rewrite (modify_spec i (-1)).
  - apply (exec_wp _ cmd_INCRBY); [reflexivity|]. unfold cmd_INCRBY. do 2 wp_exact; [|done]. do 5 wp_exact.
    unfold wp. by rewrite (modify_spec i d).
  - apply (exec_wp _ cmd_DECRBY); [reflexivity|]. unfold cmd_DECRBY. do 2 wp_exact; [|done]. do 5 wp_exact.
    rewrite E32. unfold wp. by rewrite (modify_spec i (- d)).
Qed.
End OneString.

(** *** Hashes *)

Definition hash_at (db : Data_t) (k : String_t) : option (gmap String_t String_t) :=
  match db !! k with
  | Some (KHash h) => Some h
  | Some _ => None
  | None => Some ∅
  end.
Definition put_hash (db : Data_t) (k : String_t) (h : gmap String_t String_t) : Data_t :=
  if decide (h = ∅) then delete k db else <[ k := KHash h ]> db.

Lemma hash_at_cases db k h : hash_at db k = Some h -> db !! k = Some (KHash h) \/ (db !! k = None /\ h = ∅).
Proof. unfold hash_at. destruct (db !! k) as [[]|]; intros [= <-]; auto. Qed.

(** std::map iterates over its keys in ascending order. *)
Lemma ordered_spec (l : list String_t) : ordered l ≡ₚ l /\ StronglySorted string_le (ordered l).
Proof.
  split; [apply merge_sort_Permutation|]. apply StronglySorted_merge_sort.
  - intros a b c H1 H2. unfold string_le in *. destruct (lex a b) eqn:E1; [apply lex_eq in E1 as ->|..|done]; [done|].
    destruct (lex b c) eqn:E2; [apply lex_eq in E2 as ->|..|done]; [by rewrite E1|]. by rewrite (lex_trans a b c).
  - intros a b. unfold string_le. rewrite (lex_antisym a b). destruct (lex a b); simpl; auto.
Qed.
Lemma hash_pairs_spec (h : gmap String_t String_t) :
  hash_pairs h ≡ₚ map_to_list h /\ StronglySorted string_le (map fst (hash_pairs h)).
Proof.
  unfold hash_pairs. destruct (ordered_spec (map fst (map_to_list h))) as [HP HS]. split.
  - rewrite HP, map_map. erewrite map_ext_in; [by rewrite map_id|].
    intros [k x] Hin. apply list_elem_of_In, elem_of_map_to_list in Hin. cbn. by rewrite Hin.
  - rewrite map_map. by rewrite map_id.
Qed.

(** *** HDEL *)
Definition hdel_step (k : String_t) (st : (String_t * Z) * Data_t) (x : String_t) : (String_t * Z) * Data_t :=
  let h := match st.2 !! k with Some (KHash h) => h | _ => ∅ end in
  ((x, st.1.2 + bool_int (present (h !! x))), <[ k := KHash (delete x h) ]> st.2).
Definition delete_all (xs : list String_t) (h : gmap String_t String_t) : gmap String_t String_t :=
  fold_left (fun h x => delete x h) xs h.
Definition hash_size (h : gmap String_t String_t) : Z := Z.of_nat (base.size h).

Lemma delete_all_lookup xs h f : delete_all xs h !! f = if decide (f ∈ xs) then None else h !! f.
Proof.
  unfold delete_all. revert h. induction xs as [|x xs IH]; intros h; [done|]. cbn [fold_left]. rewrite IH.
  destruct (decide (f ∈ xs)); [by rewrite decide_True by set_solver|].
  destruct (decide (f = x)) as [->|Hne]; [rewrite lookup_delete_eq, decide_True by set_solver; done|].
  rewrite lookup_delete_ne, decide_False by set_solver. done.
Qed.

Lemma hdel_fold k xs a n db h : db !! k = Some (KHash h) ->
  (fold_left (hdel_step k) xs ((a, n), db)).2 = <[ k := KHash (delete_all xs h) ]> db /\
  (fold_left (hdel_step k) xs ((a, n), db)).1.2 = n + (hash_size h - hash_size (delete_all xs h)).
Proof.
  unfold delete_all. revert a n db h. induction xs as [|x xs IH]; intros a n db h H; cbn [fold_left].
  - split; [cbn [snd]; by rewrite insert_id|cbn [fst snd]; lia].
  - unfold hdel_step at 2 4. cbn [fst snd]. rewrite H.
    destruct (IH x (n + bool_int (present (h !! x))) (<[k := KHash (delete x h)]> db) (delete x h)) as [-> ->]; [apply lookup_insert_eq|].
    rewrite insert_insert_eq. split; [done|]. unfold hash_size, bool_int, present. destruct (h !! x) as [y|] eqn:E.
    + rewrite (map_size_delete_Some x h) by (by eexists). pose proof (map_size_ne_0_lookup_2 h x (mk_is_Some _ _ E)). lia.
    + rewrite (delete_id h x) by done. lia.
Qed.

Lemma exec_HDEL db k h xs : hash_at db k = Some h -> h <> ∅ ->
  exec "HDEL" db (VString k :: map VString xs) =
  (put_hash db k (delete_all xs h), Ok (VInteger (hash_size h - hash_size (delete_all xs h)))).
Proof.
  intros Hh H0. assert (H1 : db !! k = Some (KHash h)) by (by destruct (hash_at_cases db k h Hh) as [E|[E ->]]).
  apply (exec_wp _ cmd_HDEL); [reflexivity|]. unfold cmd_HDEL. wp_exact.
  apply wp_check_at_least; [intros _|cbn [args length]; lia].
  do 4 wp_exact; simplify_map_eq; wrong_type. apply wp_bind.
  match goal with |- wp (while_args ?b _) _ _ _ => pose proof (while_args_strings b (fun _ => True) (fun db => exists h, db !! k = Some (KHash h)) (hdel_step k)) as HL end.
  unfold wp at 1. rewrite HL; [| |by apply Forall_true|by eexists].
  - destruct (hdel_fold k xs [] 0 db h H1) as [-> HR]. cbv beta iota. rewrite HR. do 2 wp_exact; simplify_map_eq; wrong_type. wp_exact. unfold put_hash.
    case_bool_decide as E; repeat wp_exact.
    + rewrite decide_True by done. split; [by rewrite delete_insert_eq|f_equal; f_equal; lia].
    + rewrite decide_False by done. split; [done|f_equal; f_equal; lia].
  - intros [a n] db2 x rest _ [m2 H2]. unfold hdel_step. cbn [fst snd]. rewrite H2.
    rewrite bind_eat_key, (bind_getCreate_present tHash _ db2 k m2) by done. split; [done|]. eexists. apply lookup_insert_eq.
Qed.

Section OneHash.
Context (db : Data_t) (k : String_t) (h : gmap String_t String_t) (Hh : hash_at db k = Some h).

Lemma exec_HSET f x : exec "HSET" db [VString k; VString f; VString x] =
  (<[ k := KHash (<[ f := x ]> h) ]> db, Ok (VInteger (bool_int (negb (present (h !! f)))))).
Proof.
  destruct (hash_at_cases db k h Hh) as [E|[E ->]]; exec_steps (@cmd_HSET F _). by rewrite insert_insert_eq.
Qed.
Lemma exec_HGET f : exec "HGET" db [VString k; VString f] = (db, Ok (opt_value (h !! f))).
Proof. destruct (hash_at_cases db k h Hh) as [E|[E ->]]; exec_steps (@cmd_HGET F _). by rewrite Heqo. Qed.
Lemma exec_HGETALL : exec "HGETALL" db [VString k] =
  (db, Ok (VVector (concat (map (fun kx => [VString kx.1; VString kx.2]) (hash_pairs h))))).
Proof. destruct (hash_at_cases db k h Hh) as [E|[E ->]]; exec_steps (@cmd_HGETALL F _). Qed.
Lemma exec_HKEYS : exec "HKEYS" db [VString k] = (db, Ok (VVector (map VString (map fst (hash_pairs h))))).
Proof. rewrite map_map. destruct (hash_at_cases db k h Hh) as [E|[E ->]]; exec_steps (@cmd_HKEYS F _). Qed.
Lemma exec_HLEN : exec "HLEN" db [VString k] = (db, Ok (VInteger (int32 (hash_size h)))).
Proof.
  unfold hash_size. rewrite <- length_map_to_list. destruct (hash_at_cases db k h Hh) as [E|[E ->]]; exec_steps (@cmd_HLEN F _).
Qed.
Lemma exec_HEXISTS f : exec "HEXISTS" db [VString k; VString f] = (db, Ok (VInteger (bool_int (present (h !! f))))).
Proof.
  destruct (hash_at_cases db k h Hh) as [E|[E ->]]; unfold exec; change (execute std_sort rand (lit "HEXISTS")) with (@cmd_HEXISTS F _);
    unfold cmd_HEXISTS, checkArgumentCountAtLeast, get, get_as, bind, eat, argc, find_key; cbn; rewrite E; done.
Qed.
Ltac until_int := repeat (lazymatch goal with |- wp (int_of _) _ _ _ => fail | |- _ => wp_exact end).
(** HINCRBY on a field that holds a number, or on a new one *)
Lemma exec_HINCRBY f i d : sort_int (default [] (h !! f)) = Some i -> in_s 32 (i + d) ->
  exec "HINCRBY" db [VString k; VString f; VInteger d] =
  (<[ k := KHash (<[ f := show_int (i + d) ]> h) ]> db, Ok (VInteger (i + d))).
Proof.
  intros Hi Hd. assert (E32 : int32 (i + d) = i + d) by (by apply swrap_small).
  assert (Hint : forall s : @state F, int_of (default [] (h !! f)) s = (s, Ok i)).
  { intros s. unfold int_of. unfold sort_int in Hi. case_bool_decide; [by injection Hi as <-|by rewrite Hi]. }
  apply (exec_wp _ cmd_HINCRBY); [reflexivity|]. unfold cmd_HINCRBY.
  destruct (hash_at_cases db k h Hh) as [E|[E ->]].
  all: until_int; simplify_map_eq; wrong_type; try done.
  all: unfold wp at 1; rewrite ?Hint; cbn [default] in *; repeat wp_exact; rewrite E32.
  all: by rewrite !insert_insert_eq.
Qed.
(** A field that does not hold a number is an error; the field is left as it is. *)
Lemma exec_HINCRBY_error f x d : h !! f = Some x -> sort_int x = None ->
  exec "HINCRBY" db [VString k; VString f; VInteger d] =
  (db, Throw (Raise (RemoteErrorException INTERNAL_DATABASE INVALID_TYPE_INT))).
Proof.
  intros Hf Hx. assert (Hint : forall s : @state F, int_of x s = (s, Throw (Raise (RemoteErrorException INTERNAL_DATABASE INVALID_TYPE_INT)))).
  { intros s. unfold int_of. unfold sort_int in Hx. case_bool_decide; [done|by rewrite Hx]. }
  apply (exec_wp _ cmd_HINCRBY); [reflexivity|]. unfold cmd_HINCRBY.
  destruct (hash_at_cases db k h Hh) as [E|[E E']]; [|subst h; by rewrite lookup_empty in Hf].
  until_int; simplify_map_eq; wrong_type; try done.
  unfold wp at 1. rewrite Hint. split; [|done]. cbn [m_data]. rewrite (insert_id h) by done. by rewrite insert_id.
Qed.
End OneHash.

(** *** Keys *)

(** A pattern with an asterisk matches the keys that start with the text before
    it and end with the text after it; other asterisks stand for themselves. *)
Lemma matchKey_star p s key : 42 ∉ p -> matchKey (p ++ 42 :: s) key = true <-> exists m, key = p ++ m ++ s.
Proof.
  intros Hp. unfold matchKey. assert (Hf : find (p ++ 42 :: s) [42] = Some (length p)).
  { destruct (find_least (p ++ 42 :: s) [42] p s eq_refl) as (n & Hn & Hle). rewrite Hn. f_equal.
    destruct (decide (n < length p)%nat) as [Hlt|]; [|lia]. apply find_take in Hn. exfalso. apply Hp.
    assert (Hi : (p ++ 42 :: s) !! n = Some 42).
    { rewrite Hn, lookup_app_r by (rewrite length_take; lia). rewrite length_take, length_app. simpl.
      replace (n - n `min` (length p + S (length s)))%nat with 0%nat by lia. done. }
    rewrite lookup_app_l in Hi by lia. by apply list_elem_of_lookup_2 in Hi. }
  rewrite Hf, length_app. cbn [length]. rewrite take_app_length, !andb_true_iff, !bool_decide_eq_true, Nat.leb_le.
  replace (length p + S (length s) - length p - 1)%nat with (length s) by lia.
  assert (Hd : drop (length p + S (length s) - length s) (p ++ 42 :: s) = s).
  { rewrite drop_app_ge by lia. replace (length p + S (length s) - length s - length p)%nat with 1%nat by lia. done. }
  rewrite Hd, (take_ge s) by lia. split.
  - intros [[Hlen H1] H2]. rewrite take_ge in H2 by (rewrite length_drop; lia).
    exists (take (length key - length s - length p) (drop (length p) key)).
    rewrite <- (take_drop (length p) key) at 1. rewrite <- H1. f_equal.
    rewrite <- (take_drop (length key - length s - length p) (drop (length p) key)) at 1. f_equal.
    rewrite drop_drop. replace (length p + (length key - length s - length p))%nat with (length key - length s)%nat by lia. done.
  - intros [m ->]. rewrite !length_app, take_app_length. split; [split; [lia|done]|].
    rewrite app_assoc, drop_app_ge by (rewrite length_app; lia). rewrite length_app.
    replace (length p + (length m + length s) - length s - (length p + length m))%nat with 0%nat by lia. simpl. by rewrite take_ge.
Qed.
Lemma matchKey_plain pat key : 42 ∉ pat -> matchKey pat key = true <-> pat = key.
Proof.
  intros Hp. unfold matchKey. assert (find pat [42] = None) as ->; [|apply bool_decide_eq_true].
  apply find_none. intros l r ->. apply Hp. set_solver.
Qed.

Lemma exec_KEYS db pat : exec "KEYS" db [VString pat] =
  (db, Ok (VVector (map VString (filter (fun k => matchKey pat k = true) (db_keys db))))).
Proof. exec_steps (@cmd_KEYS F _). Qed.
Lemma db_keys_spec (db : Data_t) : (forall k, k ∈ db_keys db <-> is_Some (db !! k)) /\ NoDup (db_keys db) /\ StronglySorted string_le (db_keys db).
Proof.
  unfold db_keys. destruct (ordered_spec (map fst (map_to_list db))) as [HP HS]. split; [|split; [|done]].
  - intros k. rewrite HP, list_elem_of_fmap. split.
    + intros ([k' x] & -> & H). apply elem_of_map_to_list in H. by eexists.
    + intros [x Hx]. exists (k, x). split; [done|]. by apply elem_of_map_to_list.
  - rewrite HP. apply NoDup_fst_map_to_list.
Qed.

Lemma exec_TYPE db k : exec "TYPE" db [VString k] = (db, Ok (VString (match db !! k with Some key => getType key | None => lit "none" end))).
Proof. destruct (db !! k) as [key|] eqn:E; exec_steps (@cmd_TYPE F _). Qed.
Lemma exec_RENAME db k k2 : exec "RENAME" db [VString k; VString k2] =
  match db !! k with
  | Some key => (<[ k2 := key ]> (delete k db), Ok (VString (lit "OK")))
  | None => (db, Throw (Raise (RemoteErrorException INTERNAL_DATABASE KEY_NOT_FOUND)))
  end.
Proof. destruct (db !! k) as [key|] eqn:E; exec_steps (@cmd_RENAME F _). Qed.
Lemma exec_RENAMENX db k k2 : exec "RENAMENX" db [VString k; VString k2] =
  match db !! k, db !! k2 with
  | Some key, None => (<[ k2 := key ]> (delete k db), Ok (VInteger 1))
  | Some _, Some _ => (db, Ok (VInteger 0))
  | None, _ => (db, Throw (Raise (RemoteErrorException INTERNAL_DATABASE KEY_NOT_FOUND)))
  end.
Proof. destruct (db !! k) as [key|] eqn:E, (db !! k2) as [key2|] eqn:E2; exec_steps (@cmd_RENAMENX F _). Qed.

(** DEL removes the keys and counts those that were there. *)
Definition del_step (st : (String_t * Z) * Data_t) (x : String_t) : (String_t * Z) * Data_t :=
  ((x, st.1.2 + bool_int (present (st.2 !! x))), delete x st.2).
Definition delete_keys (ks : list String_t) (db : Data_t) : Data_t := fold_left (fun db x => delete x db) ks db.

Lemma del_fold ks a n db :
  (fold_left del_step ks ((a, n), db)).2 = delete_keys ks db /\
  (fold_left del_step ks ((a, n), db)).1.2 = n + (Z.of_nat (base.size db) - Z.of_nat (base.size (delete_keys ks db))).
Proof.
  unfold delete_keys. revert a n db. induction ks as [|x ks IH]; intros a n db; cbn [fold_left]; [split; cbn [fst snd]; [done|lia]|].
  unfold del_step at 2 4. cbn [fst snd]. destruct (IH x (n + bool_int (present (db !! x))) (delete x db)) as [-> ->].
  split; [done|]. unfold bool_int, present. destruct (db !! x) as [y|] eqn:E.
  - rewrite (map_size_delete_Some x db) by (by eexists). pose proof (map_size_ne_0_lookup_2 db x (mk_is_Some _ _ E)). lia.
  - rewrite (delete_id db x) by done. lia.
Qed.
Lemma exec_DEL db ks : exec "DEL" db (map VString ks) =
  (delete_keys ks db, Ok (VInteger (Z.of_nat (base.size db) - Z.of_nat (base.size (delete_keys ks db))))).
Proof.
  apply (exec_wp _ cmd_DEL); [reflexivity|]. unfold cmd_DEL. apply wp_bind.
  match goal with |- wp (while_args ?b _) _ _ _ => pose proof (while_args_strings b (fun _ => True) (fun _ => True) del_step) as HL end.
  unfold wp at 1. rewrite HL; [| |by apply Forall_true|done].
  - destruct (del_fold ks [] 0 db) as [-> HR]. cbv beta iota. rewrite HR. wp_exact. split; [done|]. do 2 f_equal; lia.
  - intros [a n] db2 x rest _ _. done.
Qed.
Lemma delete_keys_lookup ks db k : delete_keys ks db !! k = if decide (k ∈ ks) then None else db !! k.
Proof.
  unfold delete_keys. revert db. induction ks as [|x ks IH]; intros db; [done|]. cbn [fold_left]. rewrite IH.
  destruct (decide (k ∈ ks)); [by rewrite decide_True by set_solver|].
  destruct (decide (k = x)) as [->|Hne]; [rewrite lookup_delete_eq, decide_True by set_solver; done|].
  rewrite lookup_delete_ne, decide_False by set_solver. done.
Qed.

Lemma exec_LREM db k l n x : list_at db k = Some l -> l <> [] ->
  exec "LREM" db [VString k; VInteger n; VString x] = (<[ k := KList (lrem l n x).1 ]> db, Ok (VInteger (lrem l n x).2)).
Proof.
  intros Hl H0. destruct (list_at_cases db k _ Hl) as [E|[E E']]; [|done]. destruct (lrem l n x) as [r c] eqn:El. cbn [fst snd]. exec_steps (@cmd_LREM F _). rewrite El in Heqp. by injection Heqp as <- <-.
Qed.

(** std::rand selects the element; SPOP and SRANDMEMBER agree on it. *)
Lemma getRandomElement_spec (m : gset String_t) : m <> ∅ -> exists x, x ∈ m /\
  forall remove, getRandomElement rand m remove = Some (x, if remove then m ∖ {[ x ]} else m).
Proof.
  intros H0. destruct (set_elements_spec m) as (He & _ & _).
  assert (Hl : 0 < size (set_elements m)).
  { destruct (set_choose_L m H0) as [y Hy]. apply He in Hy. unfold size. destruct (set_elements m); [by apply not_elem_of_nil in Hy|simpl; lia]. }
  pose proof (Z.mod_pos_bound (usize rand) (size (set_elements m)) Hl) as Hb.
  destruct (lookup_lt_is_Some_2 (set_elements m) (Z.to_nat (usize rand mod size (set_elements m)))) as [x Hx]; [unfold size in *; lia|].
  exists x. split; [apply He; by apply list_elem_of_lookup_2 in Hx|]. intros remove. unfold getRandomElement.
  rewrite bool_decide_false by done. by rewrite Hx.
Qed.
Lemma exec_SPOP db k m : set_at db k = Some m -> m <> ∅ -> exists x, x ∈ m /\
  exec "SPOP" db [VString k] = (put_set db k (m ∖ {[ x ]}), Ok (VString x)) /\
  exec "SRANDMEMBER" db [VString k] = (db, Ok (VString x)).
Proof.
  intros Hm H0. assert (E : db !! k = Some (KSet m)) by (by destruct (set_at_cases db k m Hm) as [E|[E ->]]).
  destruct (getRandomElement_spec m H0) as (x & Hx & Hg). exists x. split; [done|].
  assert (Hgo : forall remove (as_ : list (value F)), cmd_SPOP rand remove (mkState db [VString k]) =
    (mkState (put_set db k (if remove then m ∖ {[ x ]} else m)) [], Ok (VString x))).
  { intros remove as_. unfold cmd_SPOP, checkArgumentCount, get, get_as, bind, argc, find_key. cbn. rewrite E. cbn. rewrite Hg. cbn.
    unfold put_set. case_bool_decide as Hc; [rewrite decide_True by done|rewrite decide_False by done]; [|done].
    cbn. unfold erase. cbn. by rewrite delete_insert_eq. }
  unfold exec. change (execute std_sort rand (lit "SPOP")) with (@cmd_SPOP F _ rand true).
  change (execute std_sort rand (lit "SRANDMEMBER")) with (@cmd_SPOP F _ rand false). rewrite !Hgo by exact []. split; [done|].
  cbn [m_data]. unfold put_set. rewrite decide_False by done. by rewrite insert_id.
Qed.
End Commands.
