(* ===== verification/RedisSpec.v ===== *)
(** * InternalDatabase: what the commands promise

    The properties of the commands of Redis.v, from the lemmas of RedisProps.v:
    a key of the wrong type is an error that changes nothing, stored containers
    are not empty, strings, hashes, lists and sets behave like their mathematical
    counterparts, and SORT sorts. *)

From Stdlib Require Import ZArith Lia Bool String Ascii.
From stdpp Require Import base tactics numbers option list gmap sorting.
From S2P Require Import Prelude Strings Format Values Redis RedisProps.
Import Concrete.

Local Open Scope Z_scope.
Local Open Scope afl_scope.
Local Set Warnings "-notation-for-abbreviation".

Notation Sort_t := ((list Z -> list Z -> outcome error bool) -> list (list Z) -> outcome error (list (list Z))) (only parsing).

Section Call.
Context {F : Type} `{!Double F}.
Context (std_sort : Sort_t).
Context (rand : Z).

(** [call] runs the command and says in the error message which one it was. *)
Definition report (verb : String_t) (r : outcome error (value F)) : outcome error (value F) :=
  match r with
  | Ok v => Ok v
  | Throw Undefined => Throw Undefined
  | Throw e => Throw (RuntimeError (rethrow_message (error_what e) verb))
  end.
Lemma call_exec (verb : String_t) (name : string) (as_ : list (value F)) (db : Data_t) : strUCase verb = lit name ->
  call std_sort rand (VString verb :: as_) db =
  ((exec std_sort rand name db as_).1, report (lit name) (exec std_sort rand name db as_).2).
Proof.
  intros Hv. unfold call, exec. cbn [eat_value args toString m_data]. rewrite Hv.
  destruct (execute std_sort rand (lit name) (mkState db as_)) as [s [v|[]]]; done.
Qed.

(** ** SORT *)

(** The numbers or texts that SORT compares *)
Definition number_of (x : String_t) : Z := default 0 (sort_int x).
Definition sort_le (descending alpha : bool) (a b : String_t) : Prop :=
  let '(a, b) := if descending then (b, a) else (a, b) in
  if alpha then string_le a b else number_of a <= number_of b.
#[local] Instance sort_le_dec descending alpha : RelDecision (sort_le descending alpha).
Proof. intros a b. unfold sort_le. destruct descending, alpha; apply _. Defined.

#[local] Instance string_le_preorder : PreOrder string_le.
Proof.
  split; unfold string_le; [intros a; by rewrite (proj2 (lex_eq a a) eq_refl)|].
  intros a b c H1 H2. destruct (lex a b) eqn:E1; [apply lex_eq in E1 as ->|..|done]; [done|].
  destruct (lex b c) eqn:E2; [apply lex_eq in E2 as ->|..|done]; [by rewrite E1|]. by rewrite (lex_trans a b c).
Qed.
#[local] Instance string_le_total : Total string_le.
Proof. intros a b. unfold string_le. rewrite (lex_antisym a b). destruct (lex a b); simpl; auto. Qed.
#[local] Instance sort_le_trans d al : Transitive (sort_le d al).
Proof. intros a b c. unfold sort_le. destruct d, al; intros H1 H2; first [lia|by etrans]. Qed.
#[local] Instance sort_le_total d al : Total (sort_le d al).
Proof. intros a b. unfold sort_le. destruct d, al; first [lia|apply total; apply _]. Qed.

Definition sortable (alpha : bool) (l : list String_t) : Prop := alpha = true \/ Forall (fun x => is_Some (sort_int x)) l.

Lemma string_lt_le x y : string_lt x y = bool_decide (~ string_le y x).
Proof.
  pose proof (lex_antisym x y) as Hxy. unfold string_lt. destruct (lex x y) eqn:E; symmetry;
    rewrite ?bool_decide_eq_true, ?bool_decide_eq_false; unfold string_le; rewrite Hxy; simpl; naive_solver.
Qed.
Lemma Sorter_spec db d al l a b : sortable al l -> a ∈ l -> b ∈ l ->
  Sorter db (lit "#") d al a b = Ok (bool_decide (~ sort_le d al b a)).
Proof.
  intros Hs Ha Hb. unfold Sorter. replace (getSortValue db a (lit "#")) with (Some a) by done.
  replace (getSortValue db b (lit "#")) with (Some b) by done.
  change (default [] (Some a)) with a. change (default [] (Some b)) with b.
  destruct al; [destruct d; by rewrite string_lt_le|]. destruct Hs as [?|Hs]; [done|]. rewrite Forall_forall in Hs.
  destruct (Hs a Ha) as [i Hi], (Hs b Hb) as [j Hj].
  assert (Hni : number_of a = i) by (unfold number_of; by rewrite Hi).
  assert (Hnj : number_of b = j) by (unfold number_of; by rewrite Hj).
  destruct d; rewrite Hi, Hj; f_equal; [destruct (Z.ltb_spec j i)|destruct (Z.ltb_spec i j)]; symmetry;
    rewrite ?bool_decide_eq_true, ?bool_decide_eq_false; unfold sort_le; lia.
Qed.

(** std::sort, with a comparison that is the strict part of a total preorder *)
Class SortLaws : Prop := std_sort_sorts : forall cmp (le : String_t -> String_t -> Prop) `{!RelDecision le} l,
  Transitive le -> Total le ->
  (forall a b, a ∈ l -> b ∈ l -> cmp a b = Ok (bool_decide (~ le b a))) ->
  exists r, std_sort cmp l = Ok r /\ r ≡ₚ l /\ StronglySorted le r.

Lemma sort_output_spec fuel values i n : size values < 2 ^ 31 -> 0 <= i -> (size values - i <= Z.of_nat fuel) ->
  sort_output fuel values i n = Ok (take (Z.to_nat n) (drop (Z.to_nat i) values)).
Proof.
  intros Hs. revert i n. induction fuel as [|fuel IH]; intros i n Hi Hf; cbn [sort_output].
  - rewrite drop_ge, take_nil by (unfold size in *; lia). done.
  - rewrite int32_size by done. destruct (Z.ltb_spec i (size values)) as [Hl|Hl]; cbn [andb].
    + destruct (Z.ltb_spec 0 n) as [Hn|Hn]; [|by replace (Z.to_nat n) with 0%nat by lia].
      rewrite (proj2 (Z.ltb_ge i 0)) by lia. destruct (lookup_lt_is_Some_2 values (Z.to_nat i)) as [x Hx]; [unfold size in *; lia|].
      rewrite Hx, IH by lia. cbn. rewrite (drop_S values x _ Hx). replace (Z.to_nat n) with (S (Z.to_nat (n - 1))) by lia. cbn [take].
      by replace (Z.to_nat (i + 1)) with (S (Z.to_nat i)) by lia.
    + rewrite drop_ge, take_nil by (unfold size in *; lia). done.
Qed.

(** The words of the command *)
Definition sort_words (d al : bool) (limit : option (Z * Z)) : list (value F) :=
  (if d then [VString (lit "DESC")] else []) ++ (if al then [VString (lit "ALPHA")] else []) ++
  match limit with Some (o, n) => [VString (lit "LIMIT"); VInteger o; VInteger n] | None => [] end.
Definition window (limit : option (Z * Z)) (r : list String_t) : list String_t :=
  match limit with Some (o, n) => take (Z.to_nat n) (drop (Z.to_nat o) r) | None => r end.

Lemma parse_sort_words (db : Data_t) d al limit :
  while_args parse_option SortOptions_new (mkState db (sort_words d al limit)) =
  (mkState db [], Ok (mkSortOptions (lit "#") [] (present limit) (default 0 (fst <$> limit)) (default 0 (snd <$> limit)) d al false [])).
Proof. destruct limit as [[o n]|], d, al; reflexivity. Qed.

Lemma sort_window limit r : size r < 2 ^ 31 -> match limit with Some (o, _) => 0 <= o | None => True end ->
  sort_output (length r) r (if present limit then default 0 (fst <$> limit) else 0)
    (if present limit then default 0 (snd <$> limit) else int32 (size r)) = Ok (window limit r).
Proof.
  intros Hs Hl. destruct limit as [[o n]|]; cbn [present window].
  - apply sort_output_spec; [done|done|]. unfold size in *. cbn. lia.
  - rewrite int32_size by done. rewrite sort_output_spec by (unfold size in *; lia).
    rewrite drop_0, take_ge by (unfold size; lia). done.
Qed.
Lemma sort_rows db (l : list String_t) :
  concat (map (fun x => map (fun p => match getSortValue db x p with Some t => VString t | None => VNull end) [lit "#"]) l) =
  map (@VString F) l.
Proof. induction l as [|x l IH]; [done|]. rewrite !map_cons, concat_cons, IH. done. Qed.

Lemma exec_SORT `{!SortLaws} db k key values d al limit :
  db !! k = Some key -> getValues key = Some values -> sortable al values -> size values < 2 ^ 31 ->
  match limit with Some (o, _) => 0 <= o | None => True end ->
  exists r, exec std_sort rand "SORT" db (VString k :: sort_words d al limit) = (db, Ok (VVector (map VString (window limit r)))) /\
    r ≡ₚ values /\ StronglySorted (sort_le d al) r.
Proof.
  intros Hk Hv Hsort Hs Hlim.
  destruct (std_sort_sorts (Sorter db (lit "#") d al) (sort_le d al) values _ _) as (r & Hr & HP & HS).
  { intros a b Ha Hb. by apply Sorter_spec with values. }
  exists r. split; [|done]. apply (exec_wp _ _ _ (cmd_SORT std_sort)); [reflexivity|]. unfold cmd_SORT.
  apply wp_bind, wp_check_at_least; [intros _|cbn [args length]; lia]. apply wp_bind, wp_eat_key. apply wp_bind, wp_get_as; cbn [m_data].
  1, 3: intros; congruence.
  intros key' a Hk' Ha. simplify_eq. apply wp_bind. unfold wp at 1, executeSortOperation. unfold bind at 1. rewrite parse_sort_words.
  unfold bind, get_db. cbn [so_get so_pattern so_descending so_alpha so_limit so_offset so_count so_store m_data].
  rewrite bool_decide_true by done. cbn [default]. unfold lift_error. change (id values) with values. rewrite Hr.
  rewrite sort_window; [|unfold size in *; rewrite HP; lia|done]. cbn [ret]. unfold wp, createVector, ret. cbn [m_data].
  by rewrite sort_rows.
Qed.
End Call.

(** ** Keys of the wrong type *)

(** The commands that work on a key of one type *)
Definition typed_commands : list (string * string) :=
  map (fun verb => (verb, "string"%string)) ["APPEND"; "DECR"; "DECRBY"; "GET"; "GETRANGE"; "GETSET"; "INCR"; "INCRBY"; "SETNX"; "STRLEN"]%string ++
  map (fun verb => (verb, "hash"%string)) ["HDEL"; "HEXISTS"; "HGET"; "HGETALL"; "HINCRBY"; "HKEYS"; "HLEN"; "HMGET"; "HMSET"; "HSET"]%string ++
  map (fun verb => (verb, "list"%string))
    ["LINDEX"; "LLEN"; "LPOP"; "LPUSH"; "LRANGE"; "LREM"; "LSET"; "LTRIM"; "RPOP"; "RPOPLPUSH"; "RPUSH"]%string ++
  map (fun verb => (verb, "set"%string))
    ["SADD"; "SCARD"; "SISMEMBER"; "SMEMBERS"; "SMOVE"; "SPOP"; "SRANDMEMBER"; "SREM"; "SDIFF"; "SINTER"; "SUNION"]%string.

Section WrongType.
Context {F : Type} `{!Double F}.
Context (std_sort : Sort_t).
Context (rand : Z).

Definition refuses_wrong_type (p : string * string) : Prop :=
  forall db k key (rest : list (value F)), db !! k = Some key -> getType key <> lit p.2 ->
  exists e, exec std_sort rand p.1 db (VString k :: rest) = (db, Throw e).

Lemma refuses_type {A} (T : KeyType A) (ty : string) (verbs : list string) cs :
  (forall a, getType (object T a) = lit ty) ->
  Forall (refuses T) cs -> map (fun v => execute std_sort rand (lit v)) verbs = cs ->
  Forall refuses_wrong_type (map (fun v => (v, ty)) verbs).
Proof.
  intros HT HC <-. apply Forall_map. eapply Forall_impl; [exact (proj1 (Forall_map _ _ _) HC)|].
  intros v Hv db k key rest Hk Hty. specialize (Hv db k key rest Hk). unfold wp in Hv. unfold exec. cbn [fst snd] in *.
  destruct (execute std_sort rand (lit v) (mkState db (VString k :: rest))) as [s [x|e]].
  - destruct Hv. intros a ->. by rewrite HT in Hty.
  - exists e. f_equal. apply Hv. intros a ->. by rewrite HT in Hty.
Qed.

Lemma typed_commands_refuse : Forall refuses_wrong_type typed_commands.
Proof.
  unfold typed_commands. repeat apply Forall_app_2.
  - by apply (refuses_type tString "string" _ _ ltac:(done) refuse_string).
  - by apply (refuses_type tHash "hash" _ _ ltac:(done) refuse_hash).
  - by apply (refuses_type tList "list" _ _ ltac:(done) refuse_list).
  - by apply (refuses_type tSet "set" _ _ ltac:(done) (refuse_set rand)).
Qed.
Lemma typed_upper (verb ty : string) : (verb, ty) ∈ typed_commands -> strUCase (lit verb) = lit verb.
Proof.
  intros Hin. assert (H : Forall (fun p => strUCase (lit p.1) = lit p.1) typed_commands) by (repeat constructor).
  rewrite Forall_forall in H. exact (H _ Hin).
Qed.
End WrongType.

(** C31. A command that works on keys of one type - string, hash, list or set -
    refuses a key that holds an object of another type: the call throws, whatever
    the other arguments are, and the database is what it was. *)
Theorem redis_wrong_type {F : Type} `{!Double F} (std_sort : Sort_t) (rand : Z) (verb ty : string) (db : Data_t) (k : String_t) key (rest : list (value F)) :
  (verb, ty) ∈ typed_commands -> db !! k = Some key -> getType key <> lit ty ->
  exists e, call std_sort rand (VString (lit verb) :: VString k :: rest) db = (db, Throw e).
Proof.
  intros Hin Hk Hty. pose proof (typed_commands_refuse (F := F) std_sort rand) as HT. rewrite Forall_forall in HT.
  destruct (HT _ Hin db k key rest Hk Hty) as [e He].
  rewrite (call_exec std_sort rand (lit verb) verb) by (by apply typed_upper with ty). cbn [fst] in He. rewrite He. cbn [fst snd report].
  destruct e; by eexists.
Qed.
Lemma redis_wrong_type_witness : exists e,
  call insertion_sort 0 [VString (lit "RPUSH"); VString (lit "k"); VString (lit "x")] (<[ lit "k" := KString (lit "text") ]> ∅ : Data_t) =
  (<[ lit "k" := KString (lit "text") ]> ∅, Throw e).
Proof.
  apply (redis_wrong_type (F := Z) insertion_sort 0 "RPUSH" "list" _ _ (KString (lit "text"))).
  - apply list_elem_of_In. vm_compute. tauto.
  - apply lookup_insert_eq.
  - discriminate.
Defined.

(** ** Reachable databases *)

Section Reachable.
Context {F : Type} `{!Double F}.
Context (std_sort : Sort_t).

(** Calls that leave no empty container behind: all but HMSET without fields, an SMOVE that fails, and LREM and SORT when they
    store an empty list; no argument is, or contains, an error value *)
Definition tidy (verb : String_t) (as_ : list (value F)) (db db' : Data_t) (r : outcome error (value F)) : Prop :=
  Forall clean as_ /\
  (verb ∉ exempt \/ (verb = lit "HMSET" /\ length as_ <> 1%nat) \/ (verb = lit "SMOVE" /\ exists v, r = Ok v) \/
   (verb ∈ [lit "LREM"; lit "SORT"] /\ (db' = db \/ exists k l, l <> [] /\ db' = <[ k := KList l ]> db))).

Inductive reachable : Data_t -> Prop :=
  | reach_new : reachable ∅
  | reach_call db db' rand verb as_ r :
      reachable db -> call std_sort rand (VString verb :: as_) db = (db', r) ->
      tidy (strUCase verb) as_ db db' r -> reachable db'.

Lemma call_keeps db db' rand verb as_ r : db_ok db ->
  call std_sort rand (VString verb :: as_) db = (db', r) -> tidy (strUCase verb) as_ db db' r -> db_ok db'.
Proof.
  intros Hok Hcall [Hc Ht]. assert (Ht' : (exists k l, l <> [] /\ db' = <[ k := KList l ]> db) \/ db' = db \/ (strUCase verb ∉ exempt \/ (strUCase verb = lit "HMSET" /\ length as_ <> 1%nat) \/ (strUCase verb = lit "SMOVE" /\ exists v, r = Ok v))) by tauto.
  clear Ht. destruct Ht' as [(k & l & Hl & ->)|[-> |Ht]]; [|done|]. { intros n key. rewrite lookup_insert_Some. intros [[_ <-]|[_ H]]; [done|by eapply Hok]. }
  unfold call in Hcall. cbn [eat_value args toString m_data] in Hcall.
  set (v := strUCase verb) in *. set (s0 := mkState db as_) in *.
  assert (Hw : wp (execute std_sort rand v) (fun _ s => v ∈ exempt /\ (v = lit "SMOVE" \/ db_ok (m_data s)) \/ db_ok (m_data s))
                 (fun _ s => db_ok (m_data s)) s0).
  { destruct Ht as [Hv|[[Hv Hl]|[Hv _]]].
    - eapply wp_mono; [by apply execute_keeps|by auto|done].
    - rewrite Hv. change (execute std_sort rand (lit "HMSET")) with (@cmd_HMSET F _).
      eapply wp_mono; [by apply keeps_HMSET|by auto|done].
    - rewrite Hv. change (execute std_sort rand (lit "SMOVE")) with (@cmd_SMOVE F _).
      eapply wp_mono; [by apply keeps_SMOVE| |done]. intros e s _. left. split; [|by left].
      unfold exempt. set_solver. }
  unfold wp in Hw. destruct (execute std_sort rand v s0) as [s [x|e]]; [by simplify_eq|].
  assert (Hr : m_data s = db' /\ forall x, r <> Ok x) by (destruct e; by simplify_eq). destruct Hr as [<- Hr].
  destruct Hw as [[Hex Hw]|Hw]; [|done]. destruct Ht as [Hv|[[Hv _]|[_ [x Hx]]]]; [done| |by destruct (Hr x)].
  destruct Hw as [Hw|Hw]; [|done]. rewrite Hv in Hw. discriminate Hw.
Qed.
End Reachable.

(** C29. Hashes, lists and sets are never empty: in a database that has only seen tidy calls, a key that is present holds a string or
    a container with at least one element, also when a call failed half-way.  Tidy are all calls whose arguments contain no error
    values, but for LREM, which keeps an emptied list, SORT with STORE and a LIMIT that selects
    nothing, HMSET without fields, and an SMOVE that fails because the target has
    the wrong type.  Sequences of calls show what happens after such an LREM, HMSET and SMOVE, and when LPUSH is given an
    error value, which it refuses after having created the list. *)
Theorem redis_containers_nonempty {F : Type} `{!Double F} (std_sort : Sort_t) :
  (forall db, reachable (F := F) std_sort db ->
     (forall k h, db !! k = Some (KHash h) -> h <> ∅) /\
     (forall k l, db !! k = Some (KList l) -> l <> []) /\
     (forall k m, db !! k = Some (KSet m) -> m <> ∅)) /\
  results [cmd "rpush l x"; cmd "lrem l 0 x"; cmd "type l"; cmd "lpop l"] =
    [Ok (VInteger 1); Ok (VInteger 1); Ok (VString (lit "list")); Ok VNull] /\
  results [cmd "hmset h"; cmd "type h"; cmd "hlen h"] = [Ok (VString (lit "OK")); Ok (VString (lit "hash")); Ok (VInteger 0)] /\
  results [cmd "sadd s x"; cmd "set t y"; cmd "smove s t x"; cmd "type s"; cmd "scard s"] =
    [Ok (VInteger 1); Ok (VString (lit "OK")); Throw (RuntimeError (lit "Invalid type [verb: SMOVE]"));
     Ok (VString (lit "set")); Ok (VInteger 0)] /\
  exists e, results [[VString (lit "LPUSH"); VString (lit "k"); VError [] (lit "x")]; cmd "type k"; cmd "llen k"] =
    [Throw e; Ok (VString (lit "list")); Ok (VInteger 0)].
Proof.
  split; [|split; [by vm_compute|split; [by vm_compute|split; [by vm_compute|eexists; by vm_compute]]]]. intros db Hr. assert (Hok : db_ok db).
  { induction Hr as [|db db' rand verb as_ r _ IH Hcall Ht]; [by intros n key; rewrite lookup_empty|by eapply call_keeps]. }
  split; [|split]; intros k c Hk; exact (Hok _ _ Hk).
Qed.
(** A list that has been pushed to, and from which LREM has removed an element *)
Definition pushed_db : Data_t := <[ lit "l" := KList [lit "x"] ]> (<[ lit "l" := KList [lit "x"; lit "y"] ]> ∅).
Lemma redis_containers_nonempty_witness :
  pushed_db !! lit "l" = Some (KList [lit "x"]) /\ forall k l, pushed_db !! k = Some (KList l) -> l <> [].
Proof.
  split; [vm_compute; reflexivity|].
  apply (proj1 (redis_containers_nonempty (F := Z) insertion_sort) pushed_db). assert (HC : forall l : list String_t, Forall (clean (F := Z)) (map VString l)) by (intros l; induction l; constructor; [by eexists|done]).
  eapply (reach_call insertion_sort (<[ lit "l" := KList [lit "x"; lit "y"] ]> ∅) pushed_db 0 (lit "LREM") (map VString [lit "l"; lit "1"; lit "y"])); [|vm_compute; reflexivity|split; [apply HC|right; right; right; split; [left|right; by exists (lit "l"), [lit "x"]]]].
  eapply (reach_call insertion_sort ∅ _ 0 (lit "RPUSH") (map VString [lit "l"; lit "x"; lit "y"])); [constructor|vm_compute; reflexivity|split; [apply HC|left]]. intros H. apply list_elem_of_In in H. cbn in H. repeat destruct H as [H|H]; done.
Defined.

(** ** Lists *)

Lemma fold_push_front {A} (xs l : list A) : fold_left (fun l x => x :: l) xs l = reverse xs ++ l.
Proof.
  revert l. induction xs as [|x xs IH]; intros l; [done|]. cbn [fold_left]. rewrite IH, reverse_cons, <- app_assoc. done.
Qed.
Lemma fold_push_back {A} (xs l : list A) : fold_left (fun l x => l ++ [x]) xs l = l ++ xs.
Proof. revert l. induction xs as [|x xs IH]; intros l; [by rewrite app_nil_r|]. cbn [fold_left]. rewrite IH, <- app_assoc. done. Qed.

(** C30. A key holds a list like the mathematical one, a missing key the empty
    list: RPUSH appends its arguments, LPUSH puts them in front, one after the
    other; LLEN, LPOP and RPOP count and take; LINDEX, LSET and LRANGE read and set elements by indices that count from the end when
    negative, where an index below the first element is one behind the last (LSET refuses it); an
    emptied list disappears.  LTRIM keeps what LRANGE returns, with two exceptions: it keeps one element
    when the range ends before it starts, and it keeps everything from its start on when it ends
    below the first element, but for a case in which it keeps nothing.  LREM removes the first or last occurrences, or all;
    RPOPLPUSH moves the last element to the front of another list or the same. *)
Theorem redis_lists_correct {F : Type} `{!Double F} (std_sort : Sort_t) (rand : Z) (db : Data_t) (k : String_t) l :
  list_at db k = Some l -> size l < 2 ^ 31 ->
  let run verb (as_ : list (value F)) := exec std_sort rand verb db (VString k :: as_) in
  (forall xs, xs <> [] ->
     run "RPUSH"%string (map VString xs) = (<[ k := KList (l ++ xs) ]> db, Ok (VInteger (int32 (size (l ++ xs))))) /\
     run "LPUSH"%string (map VString xs) = (<[ k := KList (reverse xs ++ l) ]> db, Ok (VInteger (int32 (size (l ++ xs)))))) /\
  run "LLEN"%string [] = (db, Ok (VInteger (size l))) /\
  (l = [] -> run "LPOP"%string [] = (db, Ok VNull) /\ run "RPOP"%string [] = (db, Ok VNull)) /\
  (forall x l', l = x :: l' -> run "LPOP"%string [] = (put_list db k l', Ok (VString x))) /\
  (forall x l', l = l' ++ [x] -> run "RPOP"%string [] = (put_list db k l', Ok (VString x))) /\
  (forall i, index_any i ->
     run "LINDEX"%string [VInteger i] = (db, Ok (match l !! Z.to_nat (place l i) with Some x => VString x | None => VNull end)) /\
     forall x, run "LSET"%string [VInteger i; VString x] =
        if decide (place l i < size l) then (<[ k := KList (<[ Z.to_nat (place l i) := x ]> l) ]> db, Ok (VString (lit "OK")))
        else (db, Throw (Raise (RemoteErrorException INTERNAL_DATABASE INVALID_INDEX)))) /\
  (forall b e, index_any b -> index_any e ->
     run "LRANGE"%string [VInteger b; VInteger e] = (db, Ok (VVector (map VString (slice l (place l b) (place l e))))) /\
     run "LTRIM"%string [VInteger b; VInteger e] = (put_list db k (trimmed l b e), Ok (VString (lit "OK"))) /\
     (- size l <= e -> place l b <= place l e -> trimmed l b e = slice l (place l b) (place l e))) /\
  (forall n x, l <> [] -> exists l1 l2 r,
     run "LREM"%string [VInteger n; VString x] = (<[ k := KList r ]> db, Ok (VInteger (occurrences x l1))) /\
     (if decide (0 <= n) then l = l1 ++ l2 /\ r = filter (fun y => y <> x) l1 ++ l2
      else l = l2 ++ l1 /\ r = l2 ++ filter (fun y => y <> x) l1) /\
     (n = 0 -> l2 = []) /\ (l2 = [] \/ occurrences x l1 = Z.abs n) /\ (n <> 0 -> occurrences x l1 <= Z.abs n)) /\
  (forall k2 l2 l' x, list_at db k2 = Some l2 -> l = l' ++ [x] ->
     run "RPOPLPUSH"%string [VString k2] =
     (if decide (k = k2) then <[ k := KList (x :: l') ]> db else put_list (<[ k2 := KList (x :: l2) ]> db) k l', Ok (VString x))).
Proof.
  intros Hl Hs run. subst run. cbv beta. split; [|split; [|split; [|split; [|split; [|split; [|split; [|split]]]]]]].
  - intros xs Hx. rewrite (exec_push std_sort rand "RPUSH" _ db k l xs) by (auto || done).
    rewrite (exec_push std_sort rand "LPUSH" _ db k l xs) by (auto || done).
    rewrite fold_push_front, fold_push_back. split; [done|]. unfold size. by rewrite !length_app, length_reverse, Nat.add_comm.
  - by apply exec_LLEN.
  - by apply exec_pop_empty.
  - intros x l' E. by apply exec_LPOP with l.
  - intros x l' E. by apply exec_RPOP with l.
  - intros i Hi. split; [by apply exec_LINDEX_any|]. intros. by apply exec_LSET_any.
  - intros b e Hb He. split; [by apply exec_LRANGE_any|]. split; [by apply exec_LTRIM_any|]. intros H1 H2. unfold trimmed. rewrite (proj2 (Z.leb_le _ _) H1). by replace (Z.max (place l b) (place l e)) with (place l e) by lia.
  - intros n x H0. pose proof (exec_LREM std_sort rand db k l n x Hl H0) as HR. pose proof (lrem_spec l n x) as HS.
    destruct (lrem l n x) as [r c]. destruct HS as (l1 & l2 & -> & H2 & H3 & H4 & H5). exists l1, l2, r. cbn [fst snd] in HR. auto.
  - intros k2 l2 l' x H2 E. subst l. by apply exec_RPOPLPUSH.
Qed.
Lemma redis_lists_correct_witness :
  exec (F := Z) insertion_sort 0 "LRANGE" (<[ lit "k" := KList [lit "a"; lit "b"; lit "c"] ]> ∅) [VString (lit "k"); VInteger (-2); VInteger (-1)] =
  (<[ lit "k" := KList [lit "a"; lit "b"; lit "c"] ]> ∅, Ok (VVector [VString (lit "b"); VString (lit "c")])).
Proof.
  destruct (redis_lists_correct (F := Z) insertion_sort 0 (<[ lit "k" := KList [lit "a"; lit "b"; lit "c"] ]> ∅) (lit "k")
    [lit "a"; lit "b"; lit "c"] ltac:(by vm_compute) eq_refl) as (_ & _ & _ & _ & _ & _ & H & _).
  apply (H (-2) (-1)); unfold index_any; lia.
Defined.

(** ** Sets *)

(** A key holds a set of strings, a missing key the empty set: SADD and SREM
    form the union and the difference and return how many elements were added or
    removed, SISMEMBER, SMEMBERS and SCARD return membership, the elements in
    ascending order without duplicates, and their number; SDIFF, SINTER and SUNION
    combine sets from left to right, the STORE variants store the combination in
    place of what the target held; an emptied set disappears.  SPOP returns an
    element, which is then gone. *)
Theorem redis_sets_correct {F : Type} `{!Double F} (std_sort : Sort_t) (rand : Z) (db : Data_t) (k : String_t) m :
  set_at db k = Some m ->
  let run verb (as_ : list (value F)) := exec std_sort rand verb db (VString k :: as_) in
  (forall xs, xs <> [] ->
     run "SADD"%string (map VString xs) = (<[ k := KSet (m ∪ list_to_set xs) ]> db, Ok (VInteger (card (m ∪ list_to_set xs) - card m))) /\
     (m <> ∅ -> run "SREM"%string (map VString xs) =
        (put_set db k (m ∖ list_to_set xs), Ok (VInteger (card m - card (m ∖ list_to_set xs)))))) /\
  (forall x, run "SISMEMBER"%string [VString x] = (db, Ok (VInteger (bool_int (bool_decide (x ∈ m)))))) /\
  run "SMEMBERS"%string [] = (db, Ok (VVector (map VString (set_elements m)))) /\
  run "SCARD"%string [] = (db, Ok (VInteger (int32 (card m)))) /\
  ((forall x, x ∈ set_elements m <-> x ∈ m) /\ NoDup (set_elements m) /\ StronglySorted string_le (set_elements m)) /\
  (forall op verb ks, (op, verb) ∈ [(Difference, "SDIFF"); (Intersection, "SINTER"); (Union, "SUNION")]%string ->
     Forall (fun k => set_at db k <> None) ks ->
     run verb (map VString ks) =
     (db, Ok (VVector (map VString (set_elements (fold_left (combine_sets op) (map (set_of db) ks) m)))))) /\
  (forall op verb k1 ks, (op, verb) ∈ [(Difference, "SDIFFSTORE"); (Intersection, "SINTERSTORE"); (Union, "SUNIONSTORE")]%string ->
     Forall (fun k => set_at db k <> None) (k1 :: ks) ->
     let r := fold_left (combine_sets op) (map (set_of db) ks) (set_of db k1) in
     run verb (map VString (k1 :: ks)) = (put_set db k r, Ok (VInteger (int32 (card r))))) /\
  (m <> ∅ -> exists x, x ∈ m /\ run "SPOP"%string [] = (put_set db k (m ∖ {[ x ]}), Ok (VString x)) /\
     run "SRANDMEMBER"%string [] = (db, Ok (VString x))).
Proof.
  intros Hm run. subst run. cbv beta.
  assert (Hof : set_of db k = m) by (unfold set_of; by rewrite Hm).
  split; [|split; [|split; [|split; [|split; [|split; [|split]]]]]].
  - intros xs Hx. split; [by apply exec_SADD|]. intros H0. by apply exec_SREM.
  - intros x. by apply exec_SISMEMBER.
  - by apply exec_SMEMBERS.
  - by apply exec_SCARD.
  - by eapply set_elements_spec.
  - intros op verb ks Hin Hks. rewrite <- Hof. apply (exec_SETOP std_sort rand op verb db k ks).
    + repeat (apply elem_of_cons in Hin as [[= -> ->]|Hin]; [reflexivity|]). set_solver.
    + constructor; [by rewrite Hm|done].
  - intros op verb k1 ks Hin Hks r. apply (exec_SETOPSTORE std_sort rand op verb db k k1 ks).
    + repeat (apply elem_of_cons in Hin as [[= -> ->]|Hin]; [reflexivity|]). set_solver.
    + constructor; [by rewrite Hm|done].
  - intros H0. by apply exec_SPOP.
Qed.
Lemma redis_sets_correct_witness : exists x, x ∈ ({[ lit "a"; lit "b" ]} : gset String_t) /\
  exec (F := Z) insertion_sort 7 "SRANDMEMBER" (<[ lit "k" := KSet {[ lit "a"; lit "b" ]} ]> ∅) [VString (lit "k")] =
  (<[ lit "k" := KSet {[ lit "a"; lit "b" ]} ]> ∅, Ok (VString x)).
Proof.
  destruct (redis_sets_correct (F := Z) insertion_sort 7 (<[ lit "k" := KSet {[ lit "a"; lit "b" ]} ]> ∅) (lit "k")
    {[ lit "a"; lit "b" ]} ltac:(by vm_compute)) as (_ & _ & _ & _ & _ & _ & _ & H).
  destruct H as (x & Hx & _ & Hr); [set_solver|]. exists x. split; [exact Hx|exact Hr].
Defined.

(** ** Strings, hashes, keys *)

Lemma StronglySorted_filter {A} (R : A -> A -> Prop) (P : A -> Prop) `{!forall x, Decision (P x)} l :
  StronglySorted R l -> StronglySorted R (filter P l).
Proof.
  induction 1 as [|x l HS IH Hx]; [constructor|]. rewrite filter_cons. destruct (decide (P x)); [|done].
  constructor; [done|]. apply Forall_forall. intros y Hy. apply list_elem_of_filter in Hy as [_ Hy]. rewrite Forall_forall in Hx. auto.
Qed.

(** A key holds a string, a missing key none: SET, GET, GETSET, SETNX, APPEND,
    STRLEN and GETRANGE write and read it, with offsets that count from the end
    when negative; INCR, DECR, INCRBY and DECRBY add to the number it holds, when
    the result has 32 bits.  TYPE names the type, DEL deletes the keys given and
    counts those that were there, RENAME and RENAMENX move the value, KEYS lists
    the matching keys in ascending order, where the first asterisk of the pattern
    stands for any text. *)
Theorem redis_strings_correct {F : Type} `{!Double F} (std_sort : Sort_t) (rand : Z) (db : Data_t) (k : String_t) (o : option String_t) :
  string_at db k = Some o ->
  let run verb (as_ : list (value F)) := exec std_sort rand verb db (VString k :: as_) in
  let text := default [] o in
  (forall x,
     run "SET"%string [VString x] = (<[ k := KString x ]> db, Ok (VString (lit "OK"))) /\
     run "GETSET"%string [VString x] = (<[ k := KString x ]> db, Ok (opt_value o)) /\
     run "SETNX"%string [VString x] = match o with Some _ => (db, Ok (VInteger 0)) | None => (<[ k := KString x ]> db, Ok (VInteger 1)) end /\
     run "APPEND"%string [VString x] = (<[ k := KString (text ++ x) ]> db, Ok (VInteger (int32 (size (text ++ x)))))) /\
  run "GET"%string [] = (db, Ok (opt_value o)) /\
  (size text < 2 ^ 31 ->
     run "STRLEN"%string [] = (db, Ok (VInteger (size text))) /\
     forall b e, in_s 32 b -> in_s 32 e -> e < 2 ^ 31 - 1 ->
     run "GETRANGE"%string [VInteger b; VInteger e] =
     (db, Ok (opt_value ((fun t => slice t (clamp_index t b) (clamp_index t e)) <$> o)))) /\
  (forall i d, sort_int text = Some i -> in_s 32 d -> d <> - 2 ^ 31 ->
     (in_s 32 (i + 1) -> run "INCR"%string [] = (<[ k := KString (show_int (i + 1)) ]> db, Ok (VInteger (i + 1)))) /\
     (in_s 32 (i - 1) -> run "DECR"%string [] = (<[ k := KString (show_int (i - 1)) ]> db, Ok (VInteger (i - 1)))) /\
     (in_s 32 (i + d) -> run "INCRBY"%string [VInteger d] = (<[ k := KString (show_int (i + d)) ]> db, Ok (VInteger (i + d)))) /\
     (in_s 32 (i - d) -> run "DECRBY"%string [VInteger d] = (<[ k := KString (show_int (i - d)) ]> db, Ok (VInteger (i - d))))) /\
  run "TYPE"%string [] = (db, Ok (VString (match o with Some _ => lit "string" | None => lit "none" end))) /\
  (forall ks, exists db', run "DEL"%string (map VString ks) = (db', Ok (VInteger (Z.of_nat (base.size db) - Z.of_nat (base.size db')))) /\
     forall k', db' !! k' = if decide (k' ∈ k :: ks) then None else db !! k') /\
  (forall k2 t, o = Some t -> run "RENAME"%string [VString k2] = (<[ k2 := KString t ]> (delete k db), Ok (VString (lit "OK"))) /\
     (db !! k2 = None -> run "RENAMENX"%string [VString k2] = (<[ k2 := KString t ]> (delete k db), Ok (VInteger 1)))) /\
  (forall pre post, 42 ∉ pre -> k = pre ++ 42 :: post -> exists r, run "KEYS"%string [] = (db, Ok (VVector (map VString r))) /\
     NoDup r /\ StronglySorted string_le r /\ forall k', k' ∈ r <-> is_Some (db !! k') /\ exists m, k' = pre ++ m ++ post).
Proof.
  intros Ho run text. subst run. cbv beta. split; [|split; [|split; [|split; [|split; [|split; [|split]]]]]].
  - intros x. split; [apply exec_SET|]. split; [by apply exec_GETSET|]. split; [by apply exec_SETNX|by apply exec_APPEND].
  - by apply exec_GET.
  - intros Hs. split; [by apply exec_STRLEN|]. intros b e Hb He He'. rewrite (exec_GETRANGE std_sort rand db k o Ho).
    destruct o as [t|]; [|done]. by rewrite getrange_spec.
  - intros i d Hi Hd Hd'. by apply exec_numbers with o.
  - rewrite exec_TYPE. destruct (string_at_cases db k o Ho) as [(t & -> & ->)|[-> ->]]; done.
  - intros ks. exists (delete_keys (k :: ks) db). split; [apply (exec_DEL std_sort rand db (k :: ks))|]. apply delete_keys_lookup.
  - intros k2 t ->. destruct (string_at_cases db k _ Ho) as [(t' & E & [= <-])|[_ ?]]; [|done].
    rewrite exec_RENAME, exec_RENAMENX, E. split; [done|]. by intros ->.
  - intros pre post Hp ->. rewrite exec_KEYS. eexists. split; [reflexivity|]. destruct (db_keys_spec db) as (H1 & H2 & H3).
    split; [by apply NoDup_filter|]. split; [by apply StronglySorted_filter|]. intros k'.
    rewrite list_elem_of_filter, H1, matchKey_star by done. tauto.
Qed.
Lemma redis_strings_correct_witness :
  exec (F := Z) insertion_sort 0 "INCRBY" (<[ lit "k" := KString (lit "41") ]> ∅) [VString (lit "k"); VInteger 1] =
  (<[ lit "k" := KString (lit "42") ]> ∅, Ok (VInteger 42)).
Proof.
  destruct (redis_strings_correct (F := Z) insertion_sort 0 (<[ lit "k" := KString (lit "41") ]> ∅) (lit "k") (Some (lit "41")) ltac:(by vm_compute))
    as (_ & _ & _ & H & _).
  destruct (H 41 1) as (_ & _ & Hi & _); [reflexivity|unfold in_s; lia|lia|]. rewrite Hi by (unfold in_s; lia). reflexivity.
Defined.

(** A key holds a map from fields to texts, a missing key the empty map: HSET
    sets a field and says whether it is new, HGET and HEXISTS look one up, HDEL
    removes fields and counts those that were there, HLEN, HKEYS and HGETALL list
    the map in ascending order; HINCRBY adds to the number in a field, and leaves
    a field alone that does not hold a number; an emptied hash disappears. *)
Theorem redis_hashes_correct {F : Type} `{!Double F} (std_sort : Sort_t) (rand : Z) (db : Data_t) (k : String_t) h :
  hash_at db k = Some h ->
  let run verb (as_ : list (value F)) := exec std_sort rand verb db (VString k :: as_) in
  (forall f,
     (forall x, run "HSET"%string [VString f; VString x] =
        (<[ k := KHash (<[ f := x ]> h) ]> db, Ok (VInteger (bool_int (negb (present (h !! f))))))) /\
     run "HGET"%string [VString f] = (db, Ok (opt_value (h !! f))) /\
     run "HEXISTS"%string [VString f] = (db, Ok (VInteger (bool_int (present (h !! f))))) /\
     (forall i d, sort_int (default [] (h !! f)) = Some i -> in_s 32 (i + d) ->
        run "HINCRBY"%string [VString f; VInteger d] = (<[ k := KHash (<[ f := show_int (i + d) ]> h) ]> db, Ok (VInteger (i + d)))) /\
     (forall x d, h !! f = Some x -> sort_int x = None ->
        run "HINCRBY"%string [VString f; VInteger d] = (db, Throw (Raise (RemoteErrorException INTERNAL_DATABASE INVALID_TYPE_INT))))) /\
  run "HLEN"%string [] = (db, Ok (VInteger (int32 (hash_size h)))) /\
  (exists pairs, pairs ≡ₚ map_to_list h /\ StronglySorted string_le (map fst pairs) /\
     run "HKEYS"%string [] = (db, Ok (VVector (map VString (map fst pairs)))) /\
     run "HGETALL"%string [] = (db, Ok (VVector (concat (map (fun kx => [VString kx.1; VString kx.2]) pairs))))) /\
  (forall fs, h <> ∅ -> exists h',
     run "HDEL"%string (map VString fs) = (put_hash db k h', Ok (VInteger (hash_size h - hash_size h'))) /\
     forall f, h' !! f = if decide (f ∈ fs) then None else h !! f).
Proof.
  intros Hh run. subst run. cbv beta. split; [|split; [|split]].
  - intros f. split; [intros x; by apply exec_HSET|]. split; [by apply exec_HGET|]. split; [by apply exec_HEXISTS|].
    split; [intros i d; by apply exec_HINCRBY|]. intros x d. by apply exec_HINCRBY_error.
  - by apply exec_HLEN.
  - exists (hash_pairs h). destruct (hash_pairs_spec h) as [HP HS]. split; [done|]. split; [done|].
    split; [by apply exec_HKEYS|by apply exec_HGETALL].
  - intros fs H0. exists (delete_all fs h). split; [by apply exec_HDEL|]. apply delete_all_lookup.
Qed.
Lemma redis_hashes_correct_witness :
  exec (F := Z) insertion_sort 0 "HGET" (<[ lit "k" := KHash {[ lit "f" := lit "x" ]} ]> ∅) [VString (lit "k"); VString (lit "f")] =
  (<[ lit "k" := KHash {[ lit "f" := lit "x" ]} ]> ∅, Ok (VString (lit "x"))).
Proof.
  destruct (redis_hashes_correct (F := Z) insertion_sort 0 (<[ lit "k" := KHash {[ lit "f" := lit "x" ]} ]> ∅) (lit "k")
    {[ lit "f" := lit "x" ]} ltac:(by vm_compute)) as (H & _).
  destruct (H (lit "f")) as (_ & Hg & _). refine (eq_trans Hg _). do 2 f_equal.
Defined.

(** ** SORT *)

(** Insertion sort has the laws required of std::sort. *)
Lemma insert_sorted_spec cmp (le : String_t -> String_t -> Prop) `{!RelDecision le} x l :
  Transitive le -> Total le -> (forall a, a ∈ l -> cmp a x = Ok (bool_decide (~ le x a))) -> StronglySorted le l ->
  exists r, insert_sorted cmp x l = Ok r /\ r ≡ₚ x :: l /\ StronglySorted le r.
Proof.
  intros HT HL Hc HS. induction HS as [|y l HS IH Hy]; [exists [x]; repeat constructor|]. cbn [insert_sorted].
  rewrite Hc by set_solver. cbn. destruct (bool_decide_reflect (~ le x y)) as [Hn|Hn].
  - destruct IH as (r & Hr & HP & HS'); [intros a Ha; apply Hc; set_solver|]. rewrite Hr. exists (y :: r). split; [done|]. split.
    + rewrite HP. constructor.
    + constructor; [done|]. rewrite HP. constructor; [|done]. by destruct (total le x y).
  - apply dec_stable in Hn. exists (x :: y :: l). split; [done|]. split; [done|]. constructor; [by constructor|].
    constructor; [done|]. eapply Forall_impl; [exact Hy|]. intros z Hz. by trans y.
Qed.
#[export] Instance insertion_sort_laws : SortLaws insertion_sort.
Proof.
  intros cmp le Hdec l HT HL Hc. induction l as [|x l IH]; [exists []; repeat constructor|]. cbn [insertion_sort].
  destruct IH as (r & Hr & HP & HS); [intros a b Ha Hb; apply Hc; set_solver|]. rewrite Hr. cbn.
  destruct (insert_sorted_spec cmp le x r HT HL) as (r' & Hr' & HP' & HS'); [|done|].
  - intros a Ha. apply Hc; [|set_solver]. rewrite HP in Ha. set_solver.
  - exists r'. split; [done|]. split; [by rewrite HP', HP|done].
Qed.

(** SORT returns the elements of a list or set as a sorted permutation -
    numerically, or as texts with ALPHA, ascending, or descending with DESC - or
    the part of it that LIMIT selects, and leaves the database alone.  std::sort
    is assumed to sort when its comparison is the strict part of a total preorder
    on the elements. *)
Theorem redis_sort_correct {F : Type} `{!Double F} (std_sort : Sort_t) (rand : Z) (db : Data_t) (k : String_t) key values d al limit :
  SortLaws std_sort ->
  db !! k = Some key -> getValues key = Some values -> sortable al values -> size values < 2 ^ 31 ->
  match limit with Some (o, _) => 0 <= o | None => True end ->
  exists r, call (F := F) std_sort rand (VString (lit "sort") :: VString k :: sort_words d al limit) db =
    (db, Ok (VVector (map VString (window limit r)))) /\
    r ≡ₚ values /\ StronglySorted (sort_le d al) r.
Proof.
  intros HL Hk Hv Hsort Hs Hlim. destruct (exec_SORT (F := F) std_sort rand db k key values d al limit Hk Hv Hsort Hs Hlim) as (r & Hr & HP & HS).
  exists r. split; [|done]. rewrite (call_exec std_sort rand (lit "sort") "SORT") by reflexivity. by rewrite Hr.
Qed.
Lemma redis_sort_correct_witness : exists r,
  call (F := Z) insertion_sort 0 (VString (lit "sort") :: VString (lit "k") :: sort_words true false (Some (0, 2)))
    (<[ lit "k" := KList [lit "30"; lit "4"; lit "100"] ]> ∅) =
    (<[ lit "k" := KList [lit "30"; lit "4"; lit "100"] ]> ∅, Ok (VVector (map VString (window (Some (0, 2)) r)))) /\
  r ≡ₚ [lit "30"; lit "4"; lit "100"] /\ StronglySorted (sort_le true false) r.
Proof.
  apply (redis_sort_correct (F := Z) insertion_sort 0 _ (lit "k") (KList [lit "30"; lit "4"; lit "100"]));
    [apply insertion_sort_laws|by vm_compute|reflexivity| |reflexivity|lia].
  right. repeat constructor; by eexists.
Defined.
