(* ===== verification/Resp.v ===== *)
(** * RESP

    The redis serialisation protocol: the push parser (src/afl/io/resp/parser.cpp),
    the writer (src/afl/io/resp/writer.cpp), the server's protocol handler and the
    client's reader (src/afl/net/resp/protocolhandler.cpp, client.cpp).

    The parser receives its input in pieces.  A state object is a [State]; a null
    state pointer, the sign that a value is complete, is None.  A handler returns the
    parser, the data it did not consume, and whether it threw a FileFormatException;
    the parser keeps what it had changed by then.  A null pointer to a value is the
    value [VNull]. *)

From Stdlib Require Import ZArith Lia Bool String Ascii.
From stdpp Require Import base tactics numbers option list relations.
From S2P Require Import Prelude Strings Format Values.

Local Open Scope Z_scope.
Local Open Scope afl_scope.
Local Set Warnings "-notation-for-abbreviation".

Definition CR : Z := 13.
Definition LF : Z := 10.
Definition SOURCE_ID : list Z := lit "<Parser>".
Definition INT_MAX : Z := 2 ^ 31 - 1.
Definition INT_MIN : Z := - 2 ^ 31.

Inductive Kind := Integer | Bulk | Array.
Inductive int_state := Virgin | Positive | PositiveDigits | Negative | NegativeDigits.

Section Resp.
Context {F : Type}.
Notation value := (value F).

(** ** Parser *)

Inductive State :=
  | RootState
  | StringState (m_success : bool) (m_value : list Z)
  | IntState (m_kind : Kind) (m_state : int_state) (m_value : Z)
  | BulkState (m_size : Z) (m_value : list Z)
  | ArrayState (m_size : Z) (m_value : list value) (m_parser : Parser)
  | ShortState (m_accumulator : list Z) (m_value : list value)
with Parser := mkParser (m_acceptShort : bool) (m_pState : option State) (m_pValue : value).

Definition m_acceptShort (p : Parser) : bool := let '(mkParser a _ _) := p in a.
Definition m_pState (p : Parser) : option State := let '(mkParser _ s _) := p in s.
Definition m_pValue (p : Parser) : value := let '(mkParser _ _ v) := p in v.

Definition Parser_new : Parser := mkParser false (Some RootState) VNull.
Definition setAcceptShortForm (p : Parser) (acceptShort : bool) : Parser := mkParser acceptShort (m_pState p) (m_pValue p).

(** m_pState.reset(new ...), or a change of the members of the current state *)
Definition set_state (p : Parser) (st : State) : Parser := mkParser (m_acceptShort p) (Some st) (m_pValue p).
(** m_pValue.reset(v), m_pState.reset() *)
Definition finish (p : Parser) (v : value) : Parser := mkParser (m_acceptShort p) None v.
(** [extract]: the value, and the parser ready for the next one *)
Definition extract (p : Parser) : value * Parser := (m_pValue p, mkParser (m_acceptShort p) (Some RootState) VNull).

(** Parser, remaining data, true when an exception was thrown *)
Notation result := (Parser * list Z * bool)%type.

Definition ArrayState_new (size : Z) : State := ArrayState size [] Parser_new.

Definition RootState_handleData (p : Parser) (data : list Z) : result :=
  match data with
  | [] => (p, [], false)
  | c :: data =>
      if c =? 43 then (set_state p (StringState true []), data, false)
      else if c =? 45 then (set_state p (StringState false []), data, false)
      else if c =? 58 then (set_state p (IntState Integer Virgin 0), data, false)
      else if c =? 36 then (set_state p (IntState Bulk Virgin 0), data, false)
      else if c =? 42 then (set_state p (IntState Array Virgin 0), data, false)
      else if m_acceptShort p && (charIsUpper c || charIsLower c)
      then (set_state p (ShortState [c] []), data, false)
      else (p, data, true)
  end.

Fixpoint StringState_handleData (p : Parser) (m_success : bool) (m_value : list Z) (data : list Z) : result :=
  match data with
  | [] => (set_state p (StringState m_success m_value), [], false)
  | c :: data =>
      if c =? CR then StringState_handleData p m_success m_value data
      else if c =? LF
      then (finish p (if m_success then VString m_value else VError SOURCE_ID m_value), data, false)
      else StringState_handleData p m_success (m_value ++ [c]) data
  end.

(** What a digit does; None stands for a syntax error *)
Definition add_digit (m_state : int_state) (m_value digit : Z) : option (int_state * Z) :=
  match m_state with
  | Negative | NegativeDigits =>
      if (m_value <? Z.quot INT_MIN 10) || (negb (m_value =? 0) && (10 * m_value - INT_MIN <? digit)) then None
      else Some (NegativeDigits, 10 * m_value - digit)
  | _ =>
      if (Z.quot INT_MAX 10 <? m_value) || (INT_MAX - 10 * m_value <? digit) then None
      else Some (PositiveDigits, 10 * m_value + digit)
  end.
Definition is_virgin (s : int_state) : bool := match s with Virgin => true | _ => false end.
Definition has_digits (s : int_state) : bool := match s with PositiveDigits | NegativeDigits => true | _ => false end.
Definition is_digit (c : Z) : bool := (48 <=? c) && (c <=? 57).

(** The end of the line *)
Definition IntState_end (p : Parser) (m_kind : Kind) (m_value : Z) : Parser :=
  match m_kind with
  | Integer => finish p (VInteger m_value)
  | Array =>
      if m_value <? 0 then finish p VNull
      else if m_value =? 0 then finish p (VVector [])
      else set_state p (ArrayState_new m_value)
  | Bulk => if m_value <? 0 then finish p VNull else set_state p (BulkState m_value [])
  end.

Fixpoint IntState_handleData (p : Parser) (m_kind : Kind) (m_state : int_state) (m_value : Z) (data : list Z) : result :=
  let p := set_state p (IntState m_kind m_state m_value) in
  match data with
  | [] => (p, [], false)
  | ch :: data =>
      if ch =? 43 then
        if is_virgin m_state then IntState_handleData p m_kind Positive m_value data else (p, data, true)
      else if ch =? 45 then
        if is_virgin m_state then IntState_handleData p m_kind Negative m_value data else (p, data, true)
      else if is_digit ch then
        match add_digit m_state m_value (ch - 48) with
        | Some (m_state, m_value) => IntState_handleData p m_kind m_state m_value data
        | None => (p, data, true)
        end
      else if ch =? CR then IntState_handleData p m_kind m_state m_value data
      else if ch =? LF then
        if has_digits m_state then (IntState_end p m_kind m_value, data, false) else (p, data, true)
      else (p, data, true)
  end.

(** The line end after the bulk data *)
Fixpoint BulkState_end (p : Parser) (m_value : list Z) (data : list Z) : result :=
  match data with
  | [] => (p, [], false)
  | c :: data =>
      if c =? CR then BulkState_end p m_value data
      else if c =? LF then (finish p (VString m_value), data, false)
      else (p, data, true)
  end.
Definition BulkState_handleData (p : Parser) (m_size : Z) (m_value : list Z) (data : list Z) : result :=
  let n := Nat.min (Z.to_nat m_size) (length data) in
  let m_value := m_value ++ take n data in
  let data := drop n data in
  let m_size := m_size - Z.of_nat n in
  let p := set_state p (BulkState m_size m_value) in
  if m_size =? 0 then BulkState_end p m_value data else (p, data, false).

Fixpoint ShortState_handleData (p : Parser) (m_accumulator : list Z) (m_value : list value) (data : list Z) : result :=
  match data with
  | [] => (set_state p (ShortState m_accumulator m_value), [], false)
  | c :: data =>
      if (c =? 32) || (c =? 9) || (c =? CR) || (c =? LF)
      then
        let m_value := if bool_decide (m_accumulator = []) then m_value else pushBackNew m_value (VString m_accumulator) in
        if c =? LF then (finish p (VVector m_value), data, false)
        else ShortState_handleData p [] m_value data
      else ShortState_handleData p (m_accumulator ++ [c]) m_value data
  end.

Definition finished (p : Parser) : bool := match m_pState p with None => true | Some _ => false end.
Definition empty (data : list Z) : bool := match data with [] => true | _ => false end.

(** One round of ArrayState::handleData; [parser_handleData] stands for the call of
    the inner parser, [next] for the following rounds. *)
Definition ArrayState_round (parser_handleData : Parser -> list Z -> result) (next : Z -> list value -> Parser -> list Z -> result)
    (p : Parser) (m_size : Z) (m_value : list value) (m_parser : Parser) (data : list Z) : result :=
  if negb (empty data) && (0 <? m_size)
  then
    let '(m_parser, data, threw) := parser_handleData m_parser data in
    if threw then (set_state p (ArrayState m_size m_value m_parser), data, true)
    else if finished m_parser
    then let '(v, m_parser) := extract m_parser in
         next (m_size - 1) (pushBackNew m_value v) m_parser data
    else next m_size m_value m_parser data
  else if m_size =? 0 then (finish p (VVector m_value), data, false)
  else (set_state p (ArrayState m_size m_value m_parser), data, false).

(** The loops of Parser::handleData and ArrayState::handleData.  Every round
    consumes a byte; the fuel of [handleData] below is enough. *)
Fixpoint Parser_loop (fuel : nat) (p : Parser) (data : list Z) : result :=
  match fuel with
  | O => (p, data, false)
  | S fuel' =>
      match m_pState p with
      | None => (p, data, false)
      | Some st =>
          if empty data then (p, data, false)
          else
            let '(p, data, threw) := State_handleData fuel' p st data in
            if threw then (p, data, true) else Parser_loop fuel' p data
      end
  end
with State_handleData (fuel : nat) (p : Parser) (st : State) (data : list Z) : result :=
  match fuel with
  | O => (p, data, false)
  | S fuel' =>
      match st with
      | RootState => RootState_handleData p data
      | StringState m_success m_value => StringState_handleData p m_success m_value data
      | IntState m_kind m_state m_value => IntState_handleData p m_kind m_state m_value data
      | BulkState m_size m_value => BulkState_handleData p m_size m_value data
      | ArrayState m_size m_value m_parser => ArrayState_loop fuel' p m_size m_value m_parser data
      | ShortState m_accumulator m_value => ShortState_handleData p m_accumulator m_value data
      end
  end
with ArrayState_loop (fuel : nat) (p : Parser) (m_size : Z) (m_value : list value) (m_parser : Parser) (data : list Z) : result :=
  match fuel with
  | O => (p, data, false)
  | S fuel' =>
      ArrayState_round (Parser_loop fuel') (ArrayState_loop fuel' p) p m_size m_value m_parser data
  end.

(** How many arrays are open *)
Fixpoint State_depth (st : State) : nat :=
  match st with
  | ArrayState _ _ q => S (Parser_depth q)
  | _ => O
  end
with Parser_depth (p : Parser) : nat :=
  match p with
  | mkParser _ (Some st) _ => State_depth st
  | mkParser _ None _ => O
  end.
Definition needed_fuel (p : Parser) (data : list Z) : nat := (8 * length data + 4 * Parser_depth p + 4)%nat.

(** [Parser::handleData]; the parser is [finished] when the result is true. *)
Definition handleData (p : Parser) (data : list Z) : result := Parser_loop (needed_fuel p data) p data.
End Resp.
Arguments State F : clear implicits.
Arguments Parser F : clear implicits.

(** Parse from the start: value and remaining data *)
Definition parse_all {F} (data : list Z) : option (value F * list Z) :=
  match handleData Parser_new data with
  | (p, rest, false) => if finished p then Some (m_pValue p, rest) else None
  | _ => None
  end.
Definition crlf : list Z := [CR; LF].
Example resp_parse_ex1 : @parse_all Z (lit "*2" ++ crlf ++ lit "$3" ++ crlf ++ lit "foo" ++ crlf ++ lit ":-12" ++ crlf ++ lit "+x") =
  Some (VVector [VString (lit "foo"); VInteger (-12)], lit "+x").
Proof. reflexivity. Qed.
Example resp_parse_ex2 : @parse_all Z (lit ":2147483648" ++ crlf) = None /\
  @parse_all Z (lit ":-2147483648" ++ crlf) = Some (VInteger (- 2 ^ 31), []) /\
  @parse_all Z (lit "*2" ++ crlf ++ lit "$-1" ++ crlf ++ lit "*1" ++ crlf ++ lit "*0" ++ crlf) = Some (VVector [VNull; VVector [VVector []]], []).
Proof. split; [reflexivity|]. split; reflexivity. Qed.

(** ** The parser, byte by byte *)

Section Steps.
Context {F : Type}.
Notation Parser := (Parser F).
Notation State := (State F).

Inductive step_result :=
  | Next (st : State)
  | Done (v : value F)
  | Fail (st : State).

(** What a state does with one byte *)
Fixpoint step_state (short : bool) (st : State) (c : Z) : step_result :=
  match st with
  | RootState =>
      if c =? 43 then Next (StringState true [])
      else if c =? 45 then Next (StringState false [])
      else if c =? 58 then Next (IntState Integer Virgin 0)
      else if c =? 36 then Next (IntState Bulk Virgin 0)
      else if c =? 42 then Next (IntState Array Virgin 0)
      else if short && (charIsUpper c || charIsLower c) then Next (ShortState [c] [])
      else Fail RootState
  | StringState ok v =>
      if c =? CR then Next st
      else if c =? LF then Done (if ok then VString v else VError SOURCE_ID v)
      else Next (StringState ok (v ++ [c]))
  | IntState k s v =>
      if c =? 43 then if is_virgin s then Next (IntState k Positive v) else Fail st
      else if c =? 45 then if is_virgin s then Next (IntState k Negative v) else Fail st
      else if is_digit c then match add_digit s v (c - 48) with Some (s, v) => Next (IntState k s v) | None => Fail st end
      else if c =? CR then Next st
      else if c =? LF then
        if has_digits s
        then match k with
             | Integer => Done (VInteger v)
             | Array => if v <? 0 then Done VNull else if v =? 0 then Done (VVector []) else Next (ArrayState_new v)
             | Bulk => if v <? 0 then Done VNull else Next (BulkState v [])
             end
        else Fail st
      else Fail st
  | BulkState n v =>
      if n =? 0
      then if c =? CR then Next st else if c =? LF then Done (VString v) else Fail st
      else Next (BulkState (n - 1) (v ++ [c]))
  | ArrayState n vs q =>
      let '(q, threw) := step_parser q c in
      if threw then Fail (ArrayState n vs q)
      else if finished q
      then if n - 1 =? 0 then Done (VVector (pushBackNew vs (m_pValue q)))
           else Next (ArrayState (n - 1) (pushBackNew vs (m_pValue q)) (snd (extract q)))
      else Next (ArrayState n vs q)
  | ShortState acc vs =>
      if (c =? 32) || (c =? 9) || (c =? CR) || (c =? LF)
      then
        let vs := if bool_decide (acc = []) then vs else pushBackNew vs (VString acc) in
        if c =? LF then Done (VVector vs) else Next (ShortState [] vs)
      else Next (ShortState (acc ++ [c]) vs)
  end
with step_parser (p : Parser) (c : Z) : Parser * bool :=
  match p with
  | mkParser a (Some st) v =>
      match step_state a st c with
      | Next st => (mkParser a (Some st) v, false)
      | Done v => (mkParser a None v, false)
      | Fail st => (mkParser a (Some st) v, true)
      end
  | mkParser a None v => (p, false)
  end.

Lemma step_parser_state p st c : m_pState p = Some st ->
  step_parser p c = match step_state (m_acceptShort p) st c with
                    | Next st => (set_state p st, false)
                    | Done v => (finish p v, false)
                    | Fail st => (set_state p st, true)
                    end.
Proof. destruct p as [a s v]. simpl. by intros ->. Qed.

(** A parser that is not finished takes a byte. *)
Inductive step1 : Parser * list Z -> Parser * list Z -> Prop :=
  step1_intro p c d p' : finished p = false -> step_parser p c = (p', false) -> step1 (p, c :: d) (p', d).

(** What the loops establish *)
Definition reaches (R : Parser * list Z -> Parser * list Z -> Prop) (p : Parser) (data : list Z) (r : Parser * list Z * bool) : Prop :=
  match r with
  | (p', d', false) => R (p, data) (p', d')
  | (p', d', true) => exists q c, rtc step1 (p, data) (q, c :: d') /\ finished q = false /\ step_parser q c = (p', true)
  end.

Lemma reaches_step p c d p' r : finished p = false -> step_parser p c = (p', false) ->
  reaches (rtc step1) p' d r -> reaches (tc step1) p (c :: d) r.
Proof.
  intros Hf Hs Hr. assert (H1 : step1 (p, c :: d) (p', d)) by (by constructor). destruct r as [[p2 d2] [|]]; cbn in *.
  - destruct Hr as (q & c' & H2 & H3). exists q, c'. split; [|done]. by eapply rtc_l.
  - eapply tc_rtc_r; [by apply tc_once|done].
Qed.
Lemma reaches_weaken p d r : reaches (tc step1) p d r -> reaches (rtc step1) p d r.
Proof. destruct r as [[p2 d2] [|]]; [done|]. apply tc_rtc. Qed.
Lemma reaches_fail p c d p' : finished p = false -> step_parser p c = (p', true) -> reaches (tc step1) p (c :: d) (p', d, true).
Proof. intros Hf Hs. by exists p, c. Qed.

Lemma set_state_twice (p : Parser) s1 s2 : set_state (set_state p s1) s2 = set_state p s2.
Proof. by destruct p. Qed.
Lemma set_state_finish (p : Parser) s v : finish (set_state p s) v = finish p v.
Proof. by destruct p. Qed.
Lemma set_state_id (p : Parser) s : m_pState p = Some s -> set_state p s = p.
Proof. destruct p. simpl. by intros ->. Qed.

Ltac one_step := eapply reaches_step; [done|erewrite step_parser_state by reflexivity; cbn [m_acceptShort set_state step_state]|].

Lemma String_reaches p ok v data : reaches (rtc step1) (set_state p (StringState ok v)) data (StringState_handleData p ok v data).
Proof.
  revert v. induction data as [|c data IH]; intros v; cbn [StringState_handleData]; [apply rtc_refl|]. apply reaches_weaken.
  destruct (c =? CR) eqn:E1; [|destruct (c =? LF) eqn:E2].
  all: one_step; [by rewrite ?E1, ?E2|rewrite ?set_state_twice, ?set_state_finish].
  - apply IH.
  - apply rtc_refl.
  - apply IH.
Qed.

Lemma Root_reaches p data : data <> [] -> reaches (tc step1) (set_state p RootState) data (RootState_handleData (set_state p RootState) data).
Proof.
  destruct data as [|c data]; [done|]. intros _. cbn [RootState_handleData m_acceptShort set_state].
  repeat (match goal with |- reaches _ _ _ (if ?b then _ else _) => destruct b eqn:? end).
  all: try (one_step; [repeat (match goal with H : ?b = _ |- context [?b] => rewrite H end); reflexivity|apply rtc_refl]).
  apply reaches_fail; [done|]. erewrite step_parser_state by reflexivity. cbn [m_acceptShort set_state step_state].
  repeat (match goal with H : ?b = _ |- context [?b] => rewrite H end). done.
Qed.

Lemma Int_reaches p k s v data : reaches (rtc step1) (set_state p (IntState k s v)) data (IntState_handleData p k s v data).
Proof.
  revert p s v. induction data as [|c data IH]; intros p s v; cbn [IntState_handleData]; [apply rtc_refl|]. apply reaches_weaken.
  repeat (match goal with
          | |- reaches _ _ _ (if ?b then _ else _) => destruct b eqn:?
          | |- reaches _ _ _ (match ?o with Some _ => _ | None => _ end) => destruct o as [[s' v']|] eqn:?
          end).
  all: first [apply reaches_fail; [done|erewrite step_parser_state by reflexivity; cbn [m_acceptShort set_state step_state]]
             |one_step].
  all: try (repeat (match goal with H : ?b = _ |- context [?b] => rewrite H end); reflexivity).
  all: rewrite ?set_state_twice.
  all: try (rewrite <- (set_state_twice p (IntState k s v)); apply IH).
  all: try (repeat (match goal with H : ?b = _ |- context [?b] => rewrite H end); instantiate (1 := IntState_end (set_state p (IntState k s v)) k v);
            destruct k; cbn [IntState_end]; repeat (case_match; simplify_eq); by rewrite ?set_state_twice, ?set_state_finish).
  apply rtc_refl.
Qed.

Lemma Short_reaches p acc vs data : reaches (rtc step1) (set_state p (ShortState acc vs)) data (ShortState_handleData p acc vs data).
Proof.
  revert acc vs. induction data as [|c data IH]; intros acc vs; cbn [ShortState_handleData]; [apply rtc_refl|]. apply reaches_weaken.
  destruct ((c =? 32) || (c =? 9) || (c =? CR) || (c =? LF)) eqn:E1; [destruct (c =? LF) eqn:E2|].
  all: one_step; [by rewrite ?E2, ?E1|rewrite ?set_state_twice, ?set_state_finish].
  - apply rtc_refl.
  - apply IH.
  - apply IH.
Qed.

Lemma Bulk_end_reaches p v data : m_pState p = Some (BulkState 0 v) -> reaches (rtc step1) p data (BulkState_end p v data).
Proof.
  intros Hp. assert (Hf : finished p = false) by (unfold finished; by rewrite Hp).
  induction data as [|c data IH]; cbn [BulkState_end]; [apply rtc_refl|]. apply reaches_weaken.
  destruct (c =? CR) eqn:E1; [|destruct (c =? LF) eqn:E2].
  - eapply reaches_step; [done|rewrite (step_parser_state p _ _ Hp); cbn [step_state Z.eqb]; rewrite E1, set_state_id by done; done|done].
  - eapply reaches_step; [done|rewrite (step_parser_state p _ _ Hp); cbn [step_state Z.eqb]; rewrite E1, E2; done|apply rtc_refl].
  - apply reaches_fail; [done|]. rewrite (step_parser_state p _ _ Hp); cbn [step_state Z.eqb]. by rewrite E1, E2, set_state_id.
Qed.

Lemma rtc_reaches p d p' d' r : rtc step1 (p, d) (p', d') -> reaches (rtc step1) p' d' r -> reaches (rtc step1) p d r.
Proof.
  intros H. destruct r as [[p2 d2] [|]]; cbn.
  - intros (q & c & H1 & H2). exists q, c. split; [|done]. by etrans.
  - intros H1. by etrans.
Qed.

Lemma Bulk_data p n v d1 d2 : Z.of_nat (length d1) <= n ->
  rtc step1 (set_state p (BulkState n v), d1 ++ d2) (set_state p (BulkState (n - Z.of_nat (length d1)) (v ++ d1)), d2).
Proof.
  revert n v. induction d1 as [|c d1 IH]; intros n v Hn.
  - simpl. rewrite app_nil_r, Z.sub_0_r. apply rtc_refl.
  - cbn [length app] in *. eapply rtc_l.
    + constructor; [done|]. erewrite step_parser_state by reflexivity. cbn [step_state m_acceptShort set_state].
      rewrite (proj2 (Z.eqb_neq n 0)) by lia. reflexivity.
    + specialize (IH (n - 1) (v ++ [c])). rewrite <- app_assoc in IH. cbn [app] in IH.
      replace (n - Z.of_nat (S (length d1))) with (n - 1 - Z.of_nat (length d1)) by lia. apply IH. lia.
Qed.

Lemma Bulk_reaches p n v data : 0 <= n -> reaches (rtc step1) (set_state p (BulkState n v)) data (BulkState_handleData p n v data).
Proof.
  intros Hn. unfold BulkState_handleData. set (k := Nat.min (Z.to_nat n) (length data)).
  assert (Hk : length (take k data) = k) by (rewrite length_take; lia).
  pose proof (Bulk_data p n v (take k data) (drop k data) ltac:(lia)) as H. rewrite take_drop, Hk in H.
  apply (rtc_reaches _ _ _ _ _ H). destruct (Z.eqb_spec (n - Z.of_nat k) 0) as [E|E]; [|apply rtc_refl].
  apply Bulk_end_reaches. rewrite E. done.
Qed.

(** Consuming something *)
Definition consumes (data : list Z) (r : Parser * list Z * bool) : Prop := (length (r.1.2) < length data)%nat.
Lemma step1_length x y : step1 x y -> length x.2 = S (length y.2).
Proof. destruct 1. done. Qed.
Lemma rtc_length x y : rtc step1 x y -> x = y \/ (length y.2 < length x.2)%nat.
Proof. induction 1 as [|x y z H1 _ IH]; [by left|]. right. apply step1_length in H1. destruct IH as [<-|?]; lia. Qed.
Lemma tc_length x y : tc step1 x y -> (length y.2 < length x.2)%nat.
Proof. induction 1 as [x y H1|x y z H1 _ IH]; apply step1_length in H1; lia. Qed.
Lemma rtc_tc p d p' d' : rtc step1 (p, d) (p', d') -> length d' <> length d -> tc step1 (p, d) (p', d').
Proof.
  intros H Hl. inversion H; subst; [done|]. eapply tc_rtc_r; [by apply tc_once|done].
Qed.
Lemma reaches_strict p d r : reaches (rtc step1) p d r -> length r.1.2 <> length d -> reaches (tc step1) p d r.
Proof. destruct r as [[p2 d2] [|]]; [done|]. apply rtc_tc. Qed.

(** *** Progress *)

Lemma String_consumes p ok v data : data = [] \/ consumes data (StringState_handleData p ok v data).
Proof.
  unfold consumes. revert v. induction data as [|c data IH]; intros v; [by left|right]. cbn [StringState_handleData length].
  destruct (c =? CR); [|destruct (c =? LF); [simpl; lia|]].
  - destruct (IH v) as [->|?]; simpl; lia.
  - destruct (IH (v ++ [c])) as [->|?]; simpl; lia.
Qed.
Lemma Int_consumes p k s v data : data = [] \/ consumes data (IntState_handleData p k s v data).
Proof.
  unfold consumes. revert p s v. induction data as [|c data IH]; intros p s v; [by left|right]. cbn [IntState_handleData length].
  set (p1 := set_state p _).
  assert (HI : forall s v, (length (IntState_handleData p1 k s v data).1.2 < S (length data))%nat)
    by (intros s' v'; destruct (IH p1 s' v') as [->|?]; simpl; lia).
  repeat case_match; try apply HI; simpl; lia.
Qed.
Lemma Short_consumes p acc vs data : data = [] \/ consumes data (ShortState_handleData p acc vs data).
Proof.
  unfold consumes. revert acc vs. induction data as [|c data IH]; intros acc vs; [by left|right]. cbn [ShortState_handleData length].
  assert (HI : forall a v, (length (ShortState_handleData p a v data).1.2 < S (length data))%nat)
    by (intros a' v'; destruct (IH a' v') as [->|?]; simpl; lia).
  repeat case_match; try apply HI; simpl; lia.
Qed.
Lemma Bulk_consumes p n v data : 0 <= n -> data = [] \/ consumes data (BulkState_handleData p n v data).
Proof.
  intros Hn. unfold consumes. destruct data as [|c data]; [by left|right]. unfold BulkState_handleData.
  set (k := Nat.min (Z.to_nat n) (length (c :: data))).
  assert (He : forall (q : Parser) d, d = [] \/ (length (BulkState_end q (v ++ take k (c :: data)) d).1.2 < length d)%nat).
  { intros q d. induction d as [|c' d IH]; [by left|right]. cbn [BulkState_end length]. repeat case_match; try (simpl; lia). destruct IH as [->|?]; simpl; lia. }
  destruct (Z.eqb_spec (n - Z.of_nat k) 0) as [E|E].
  - match goal with |- context [BulkState_end ?q _ ?d] => destruct (He q d) as [H|H] end.
    + rewrite H. simpl. lia.
    + eapply Nat.lt_le_trans; [exact H|]. rewrite length_drop. lia.
  - cbn [fst snd]. rewrite length_drop. subst k. simpl in *. lia.
Qed.

(** *** Well-formed parsers *)

Fixpoint State_wf (st : State) : Prop :=
  match st with
  | ArrayState n _ q => 0 < n /\ finished q = false /\ Parser_wf q
  | BulkState n _ => 0 <= n
  | _ => True
  end
with Parser_wf (p : Parser) : Prop :=
  match p with
  | mkParser _ (Some st) _ => State_wf st
  | mkParser _ None _ => True
  end.

Lemma step_wf c n p p' : (Parser_depth p <= n)%nat -> Parser_wf p -> step_parser p c = (p', false) ->
  Parser_wf p' /\ (Parser_depth p' <= S (Parser_depth p))%nat.
Proof.
  revert p p'. induction n as [n IH] using lt_wf_ind. intros [a [st|] v] p' Hd Hwf; [|intros [= <-]; simpl; lia].
  destruct st as [|ok x|k s x|m x|m vs q|acc vs]; cbn [step_parser step_state Parser_depth State_depth Parser_wf State_wf] in *.
  - intros H. repeat case_match; simplify_eq; simpl; lia.
  - intros H. repeat case_match; simplify_eq; simpl; lia.
  - intros H. unfold ArrayState_new in H. repeat case_match; simplify_eq; simpl; split; try done; try lia.
    split; [lia|done].
  - intros H. destruct (Z.eqb_spec m 0); repeat case_match; simplify_eq; simpl; lia.
  - destruct Hwf as (Hm & Hq & Hwf). destruct (step_parser q c) as [q' threw] eqn:Es. destruct threw; [done|].
    destruct (IH (Parser_depth q) ltac:(lia) q q' ltac:(lia) Hwf Es) as [H1 H2].
    destruct (finished q') eqn:Ef; [destruct (Z.eqb_spec (m - 1) 0)|]; intros [= <-]; simpl; [lia| |].
    + split; [|lia]. split; [lia|done].
    + split; [done|lia].
  - intros H. repeat case_match; simplify_eq; simpl; lia.
Qed.
Lemma rtc_wf x y : rtc step1 x y -> Parser_wf x.1 ->
  Parser_wf y.1 /\ (Parser_depth y.1 + length y.2 <= Parser_depth x.1 + length x.2)%nat.
Proof.
  induction 1 as [|x y z H1 _ IH]; [done|]. intros Hwf. destruct H1 as [p c d p' Hf Hs]. cbn [fst snd] in *.
  destruct (step_wf c (Parser_depth p) p p' ltac:(lia) Hwf Hs) as [H1 H2]. destruct (IH H1) as [H3 H4]. split; [done|]. simpl in *. lia.
Qed.

(** *** Arrays *)

Section OneArray.
Context (p : Parser) (n : Z) (vs : list (value F)).
Notation P q := (set_state p (ArrayState n vs q)).
(** The parser of the array after the value of an element *)
Definition after (q : Parser) : Parser :=
  if n - 1 =? 0 then finish p (VVector (pushBackNew vs (m_pValue q)))
  else set_state p (ArrayState (n - 1) (pushBackNew vs (m_pValue q)) (extract q).2).

Lemma lift_step q c q' : step_parser q c = (q', false) ->
  step_parser (P q) c = (if finished q' then after q' else P q', false).
Proof.
  intros Hs. erewrite step_parser_state by reflexivity. cbn [step_state m_acceptShort set_state]. rewrite Hs. unfold after.
  destruct (finished q'); [|done]. by destruct (n - 1 =? 0).
Qed.
Lemma lift_rtc q d q' d' : rtc step1 (q, d) (q', d') -> finished q' = false -> rtc step1 (P q, d) (P q', d').
Proof.
  intros H Hf. remember (q, d) as x eqn:Ex. remember (q', d') as y eqn:Ey. revert q d Ex.
  induction H as [|x y z H1 H2 IH]; intros q d Ex; subst; [injection Ex as -> ->; apply rtc_refl|].
  inversion H1 as [q0 c d0 q1 Hf0 Hs]; subst. specialize (IH eq_refl q1 d0 eq_refl). eapply rtc_l; [|exact IH].
  constructor; [done|]. rewrite (lift_step _ _ _ Hs). assert (Hq1 : finished q1 = false) by (inversion H2 as [|? ? ? H3]; subst; [done|by inversion H3]).
  by rewrite Hq1.
Qed.
Lemma lift_finished q d q' d' : rtc step1 (q, d) (q', d') -> finished q = false -> finished q' = true -> rtc step1 (P q, d) (after q', d').
Proof.
  intros H Hq Hf. apply rtc_inv_r in H as [[= -> ->]|([q1 d1] & H1 & H2)]; [congruence|].
  inversion H2 as [q0 c d0 q2 Hf0 Hs]; subst. apply lift_rtc in H1; [|done]. eapply rtc_r; [exact H1|].
  constructor; [done|]. rewrite (lift_step _ _ _ Hs). by rewrite Hf.
Qed.
Lemma lift_throw q d q' d' : reaches (rtc step1) q d (q', d', true) -> reaches (rtc step1) (P q) d (P q', d', true).
Proof.
  intros (q1 & c & H1 & Hf & Hs). exists (P q1), c. split; [by apply lift_rtc|]. split; [done|].
  erewrite step_parser_state by reflexivity. cbn [step_state m_acceptShort set_state]. by rewrite Hs.
Qed.
End OneArray.

(** *** The loops *)

(** The loop ends with a value or without data. *)
Definition at_end (r : Parser * list Z * bool) : Prop :=
  match r with
  | (p, d, false) => finished p = true \/ d = []
  | _ => True
  end.

Lemma loops_correct fuel :
  (forall p data, Parser_wf p -> (8 * length data + 4 * Parser_depth p + 4 <= fuel)%nat ->
     reaches (rtc step1) p data (Parser_loop fuel p data) /\ at_end (Parser_loop fuel p data)) /\
  (forall p st data, m_pState p = Some st -> Parser_wf p -> data <> [] -> (8 * length data + 4 * Parser_depth p + 3 <= fuel)%nat ->
     reaches (tc step1) p data (State_handleData fuel p st data)) /\
  (forall p n vs q data, 0 < n -> Parser_wf q -> finished q = false -> (8 * length data + 4 * Parser_depth q + 6 <= fuel)%nat ->
     reaches (rtc step1) (set_state p (ArrayState n vs q)) data (ArrayState_loop fuel p n vs q data) /\
     (data = [] \/ consumes data (ArrayState_loop fuel p n vs q data))).
Proof.
  induction fuel as [|fuel (IHp & IHs & IHa)]; [split; [lia|split; lia]|]. split; [|split].
  - intros p data Hwf Hf. cbn [Parser_loop]. destruct (m_pState p) as [st|] eqn:Est.
    2: { split; [apply rtc_refl|]. left. unfold finished. by rewrite Est. }
    destruct data as [|c data]; [split; [apply rtc_refl|by right]|]. cbn [empty].
    pose proof (IHs p st (c :: data) Est Hwf ltac:(done) ltac:(lia)) as HS.
    destruct (State_handleData fuel p st (c :: data)) as [[p' d'] [|]]; [done|]. cbn [reaches] in HS. apply tc_rtc in HS as HR.
    destruct (rtc_wf _ _ HR Hwf) as [Hwf' Hd]. cbn [fst snd] in *.
    apply tc_length in HS. cbn [snd length] in *.
    destruct (IHp p' d' Hwf' ltac:(lia)) as [H1 H2]. split; [by eapply rtc_reaches|done].
  - intros p st data Hst Hwf Hne Hf. cbn [State_handleData]. pose proof (set_state_id p st Hst) as Hid.
    assert (Hw : State_wf st) by (destruct p as [? ? ?]; simpl in *; by subst).
    assert (Hd : Parser_depth p = State_depth st) by (destruct p as [? ? ?]; simpl in *; by subst).
    rewrite <- Hid at 1. destruct st as [|ok x|k s x|m x|m vs q|acc vs].
    + rewrite <- Hid at 2. by apply Root_reaches.
    + apply reaches_strict; [apply String_reaches|]. destruct (String_consumes p ok x data) as [?|H]; [done|]. unfold consumes in H. lia.
    + apply reaches_strict; [apply Int_reaches|]. destruct (Int_consumes p k s x data) as [?|H]; [done|]. unfold consumes in H. lia.
    + apply reaches_strict; [by apply Bulk_reaches|]. destruct (Bulk_consumes p m x data Hw) as [?|H]; [done|]. unfold consumes in H. lia.
    + destruct Hw as (Hm & Hq & Hwq). cbn [State_depth] in Hd.
      destruct (IHa p m vs q data Hm Hwq Hq ltac:(lia)) as [H1 [?|H2]]; [done|]. apply reaches_strict; [done|]. unfold consumes in H2. lia.
    + apply reaches_strict; [apply Short_reaches|]. destruct (Short_consumes p acc vs data) as [?|H]; [done|]. unfold consumes in H. lia.
  - intros p n vs q data Hn Hwf Hq Hf. cbn [ArrayState_loop]; unfold ArrayState_round. rewrite (proj2 (Z.ltb_lt 0 n)) by done. rewrite andb_true_r.
    destruct data as [|c data].
    { cbn [empty negb]. rewrite (proj2 (Z.eqb_neq n 0)) by lia. split; [apply rtc_refl|by left]. }
    cbn [empty negb]. destruct (IHp q (c :: data) Hwf ltac:(lia)) as [HS HE].
    assert (Hst : exists st, m_pState q = Some st) by (unfold finished in Hq; destruct (m_pState q); [by eexists|done]). destruct Hst as [st Hst].
    destruct (Parser_loop fuel q (c :: data)) as [[q' d'] [|]].
    + split; [by apply lift_throw|]. right. destruct HS as (q1 & c1 & H1 & _ & _). unfold consumes. cbn [fst snd].
      destruct (rtc_length _ _ H1) as [[= -> -> ->]|H]; [simpl; lia|]. cbn [snd length] in *. lia.
    + cbn [reaches at_end] in HS, HE. destruct (rtc_wf _ _ HS Hwf) as [Hwf' Hd]. cbn [fst snd] in Hwf', Hd.
      assert (Hlt : (length d' < length (c :: data))%nat).
      { destruct (rtc_length _ _ HS) as [[= <- <-]|H]; [|done]. by destruct HE as [HE|HE]; [congruence|]. }
      destruct (finished q') eqn:Ef.
      * pose proof (lift_finished p n vs q (c :: data) q' d' HS Hq Ef) as HL. unfold after in HL. cbn [extract].
        destruct (Z.eqb_spec (n - 1) 0) as [E|E].
        { destruct fuel as [|fuel]; [lia|]. cbn [ArrayState_loop]; unfold ArrayState_round. rewrite E. cbn [Z.ltb Z.eqb Z.compare]. rewrite andb_false_r.
          split; [exact HL|]. right. exact Hlt. }
        destruct (IHa p (n - 1) (pushBackNew vs (m_pValue q')) (extract q').2 d' ltac:(lia) I eq_refl) as [H1 H2].
        { cbn [extract snd Parser_depth State_depth]. simpl in *. lia. }
        split; [by eapply rtc_reaches|]. right. unfold consumes in *. destruct H2 as [-> |H2].
        -- destruct fuel as [|fuel]; [simpl; lia|]. cbn [ArrayState_loop]; unfold ArrayState_round; cbn [empty negb andb]. rewrite (proj2 (Z.eqb_neq (n - 1) 0)) by lia. simpl. lia.
        -- eapply Nat.lt_trans; [exact H2|exact Hlt].
      * destruct HE as [?|Hd0]; [congruence|]. pose proof (lift_rtc p n vs q (c :: data) q' d' HS Ef) as HL.
        destruct (IHa p n vs q' d' Hn Hwf' Ef ltac:(simpl in *; lia)) as [H1 H2].
        split; [by eapply rtc_reaches|]. right. unfold consumes in *. destruct H2 as [_|H2].
        -- subst d'. destruct fuel as [|fuel]; [simpl; lia|]. cbn [ArrayState_loop]; unfold ArrayState_round; cbn [empty negb andb]. rewrite (proj2 (Z.eqb_neq n 0)) by lia. simpl. lia.
        -- eapply Nat.lt_trans; [exact H2|exact Hlt].
Qed.
End Steps.

Section Feed.
Context {F : Type}.
Notation Parser := (Parser F).

(** The parser as a function of single bytes *)
Fixpoint feed (p : Parser) (data : list Z) : Parser * list Z * bool :=
  match data with
  | [] => (p, [], false)
  | c :: d =>
      if finished p then (p, data, false)
      else let '(p, threw) := step_parser p c in
           if threw then (p, d, true) else feed p d
  end.

Lemma feed_finished p d : finished p = true -> feed p d = (p, d, false).
Proof. destruct d; [done|]. simpl. by intros ->. Qed.
Lemma feed_step1 x y : step1 x y -> feed x.1 x.2 = feed y.1 y.2.
Proof. destruct 1 as [p c d p' Hf Hs]. cbn [feed fst snd]. by rewrite Hf, Hs. Qed.
Lemma feed_rtc p d p' d' : rtc step1 (p, d) (p', d') -> feed p d = feed p' d'.
Proof.
  intros H. change (feed (p, d).1 (p, d).2 = feed (p', d').1 (p', d').2). revert H. generalize (p, d) (p', d'). intros x y H.
  induction H as [|x y z H1 _ IH]; [done|]. by rewrite (feed_step1 x y).
Qed.

Lemma Parser_loop_feed fuel p data : Parser_wf p -> (needed_fuel p data <= fuel)%nat -> Parser_loop fuel p data = feed p data.
Proof.
  intros Hwf Hf. destruct (loops_correct (F := F) fuel) as (HA & _ & _).
  destruct (HA p data Hwf ltac:(unfold needed_fuel in Hf; lia)) as [HR HE]. destruct (Parser_loop _ p data) as [[p' d'] [|]].
  - destruct HR as (q & c & H1 & Hq & Hs). rewrite (feed_rtc _ _ _ _ H1). cbn [feed]. by rewrite Hq, Hs.
  - rewrite (feed_rtc _ _ _ _ HR). destruct HE as [HE| ->]; [by rewrite feed_finished|done].
Qed.
Lemma handleData_feed p data : Parser_wf p -> handleData p data = feed p data.
Proof. intros Hwf. by apply Parser_loop_feed. Qed.

(** Input in two pieces *)
Lemma feed_app p a b :
  feed p (a ++ b) = let '(p', r, threw) := feed p a in if threw then (p', r ++ b, true) else feed p' (r ++ b).
Proof.
  revert p. induction a as [|c a IH]; intros p; [done|]. cbn [app feed]. destruct (finished p) eqn:Ef.
  - symmetry. apply (feed_finished p ((c :: a) ++ b) Ef).
  - destruct (step_parser p c) as [p' [|]]; [done|]. apply IH.
Qed.
Lemma feed_wf p d p' d' : Parser_wf p -> feed p d = (p', d', false) -> Parser_wf p'.
Proof.
  revert p. induction d as [|c d IH]; intros p Hwf; cbn [feed]; [by intros [= <- _]|]. destruct (finished p); [by intros [= <- _]|].
  destruct (step_parser p c) as [p1 [|]] eqn:Es; [done|]. intros H. eapply IH; [|exact H].
  by destruct (step_wf c (Parser_depth p) p p1 ltac:(lia) Hwf Es).
Qed.
(** The parser is finished, or has taken all data. *)
Lemma feed_end p d p' d' : feed p d = (p', d', false) -> finished p' = true \/ d' = [].
Proof.
  revert p. induction d as [|c d IH]; intros p; cbn [feed]; [intros [= _ <-]; by right|]. destruct (finished p) eqn:Ef; [intros [= <- _]; by left|].
  destruct (step_parser p c) as [p1 [|]] eqn:Es; [done|]. apply IH.
Qed.
End Feed.

(** ** Writer *)

Section Writer.
Context {F : Type} `{!Double F}.
Notation value := (value F).

(** The texts passed to [write], one after the other; the sink takes them all. *)
Definition visitString (str : list Z) : list Z :=
  Format (lit "$%d" ++ crlf) [FormatUnsigned (Z.of_nat (length str))] ++ str ++ crlf.
Definition visitInteger (iv : Z) : list Z := visitString (show_int iv).
Definition visitFloat (fv : F) : list Z := visitString (format_float_25g fv).
Definition visitBoolean (bv : bool) : list Z := visitString (if bv then lit "1" else lit "0").
Definition visitOther : list Z := lit "*-1" ++ crlf.
Definition visitNull : list Z := lit "$-1" ++ crlf.
(** [find_first_of] *)
Definition first_line (str : list Z) : list Z := take (skip_while (fun c => negb ((c =? CR) || (c =? LF))) str) str.
Definition visitError (str : list Z) : list Z := lit "-" ++ first_line str ++ crlf.
Definition sendError (str : list Z) : list Z := visitError str.
Definition sendSuccess (str : list Z) : list Z := lit "+" ++ str ++ crlf.

Fixpoint visit (v : value) : list Z :=
  match v with
  | VNull => visitNull
  | VString str => visitString str
  | VInteger iv => visitInteger iv
  | VFloat fv => visitFloat fv
  | VBoolean bv => visitBoolean bv
  | VHash keys values =>
      Format (lit "*%d" ++ crlf) [FormatUnsigned (usize (2 * getNumNames keys))] ++
      (fix pairs (values : list value) (names : list (list Z)) : list Z :=
         match values, names with
         | x :: values, k :: names => visitString k ++ visit x ++ pairs values names
         | [], _ => concat (map (fun k => visitString k ++ visitNull) names)
         | _, [] => []
         end) values (m_names keys)
  | VVector vv =>
      Format (lit "*%d" ++ crlf) [FormatUnsigned (Z.of_nat (length vv))] ++
      (fix elements (vv : list value) : list Z :=
         match vv with
         | [] => []
         | x :: vv => visit x ++ elements vv
         end) vv
  | VError _ str => visitError str
  | VOther => visitOther
  end.
(** [visitSegment], which [visitVector] calls *)
Definition visitSegment (seg : list value) : list Z := visit (VVector seg).
End Writer.

(** ** Round trip *)

Section RoundTrip.
Context {F : Type} `{!Double F}.
Notation Parser := (Parser F).

Lemma feed_to_rtc (p : Parser) d p' d' : feed p d = (p', d', false) -> rtc step1 (p, d) (p', d').
Proof.
  revert p. induction d as [|c d IH]; intros p; cbn [feed]; [intros [= <- <-]; apply rtc_refl|].
  destruct (finished p) eqn:Ef; [intros [= <- <-]; apply rtc_refl|].
  destruct (step_parser p c) as [p1 [|]] eqn:Es; [done|]. intros H. eapply rtc_l; [by constructor|by apply IH].
Qed.

Lemma feed_progress (p : Parser) d p' d' : feed p d = (p', d', false) -> finished p = false -> d <> [] -> (length d' < length d)%nat.
Proof.
  intros H Hf Hd. destruct (rtc_length _ _ (feed_to_rtc _ _ _ _ H)) as [[= <- <-]|?]; [|done].
  destruct (feed_end _ _ _ _ H); congruence.
Qed.

Lemma feed_next (p : Parser) st c d : m_pState p = Some st ->
  feed p (c :: d) = match step_state (m_acceptShort p) st c with
                    | Next st => feed (set_state p st) d
                    | Done v => (finish p v, d, false)
                    | Fail st => (set_state p st, d, true)
                    end.
Proof.
  intros Hp. cbn [feed]. assert (finished p = false) as -> by (unfold finished; by rewrite Hp). rewrite (step_parser_state p st c Hp).
  destruct (step_state (m_acceptShort p) st c); [done| |done]. by rewrite feed_finished.
Qed.

(** *** Numbers *)

Lemma fold_digits_le ds v : Forall (fun c => charIsDigit c = true) ds -> 0 <= v -> v <= fold_left (fun v d => 10 * v + (d - 48)) ds v.
Proof.
  intros H. revert v. induction H as [|d ds Hd H IH]; intros v Hv; [simpl; lia|]. cbn [fold_left].
  unfold charIsDigit in Hd. specialize (IH (10 * v + (d - 48)) ltac:(lia)). lia.
Qed.
Lemma feed_digits (p : Parser) k s v ds rest : (s = Virgin \/ s = PositiveDigits) -> 0 <= v -> ds <> [] ->
  Forall (fun c => charIsDigit c = true) ds -> fold_left (fun v d => 10 * v + (d - 48)) ds v < 2 ^ 31 ->
  feed (set_state p (IntState k s v)) (ds ++ rest) =
  feed (set_state p (IntState k PositiveDigits (fold_left (fun v d => 10 * v + (d - 48)) ds v))) rest.
Proof.
  intros Hs Hv Hne Hds. revert s v Hs Hv Hne. induction Hds as [|d ds Hd Hds IH]; intros s v Hs Hv Hne Hlt; [done|].
  cbn [fold_left app] in *. assert (Hd' : 48 <= d <= 57) by (unfold charIsDigit in Hd; lia).
  pose proof (fold_digits_le ds (10 * v + (d - 48)) Hds ltac:(lia)).
  rewrite (feed_next _ (IntState k s v)) by done. cbn [step_state m_acceptShort set_state].
  rewrite (proj2 (Z.eqb_neq d 43)), (proj2 (Z.eqb_neq d 45)) by lia.
  assert (is_digit d = true) as -> by (unfold is_digit; lia).
  assert (add_digit s v (d - 48) = Some (PositiveDigits, 10 * v + (d - 48))) as ->.
  { unfold add_digit. change (Z.quot INT_MAX 10) with 214748364. unfold INT_MAX.
    destruct Hs as [-> | ->]; destruct (Z.ltb_spec 214748364 v); try lia; cbn [orb];
      destruct (Z.ltb_spec (2 ^ 31 - 1 - 10 * v) (d - 48)); try lia; done. }
  rewrite set_state_twice. destruct ds as [|d2 ds].
  - done.
  - apply IH; [by right|lia|done|done].
Qed.

Lemma dec_digits n : 0 <= n < 2 ^ 64 -> dec n <> [] /\ Forall (fun c => charIsDigit c = true) (dec n) /\
  fold_left (fun v d => 10 * v + (d - 48)) (dec n) 0 = n.
Proof. intros Hn. by destruct (dec_spec n Hn) as (H1 & H2 & H3). Qed.

(** A number and its line end *)
Lemma feed_number (p : Parser) k n rest : 0 <= n < 2 ^ 31 ->
  feed (set_state p (IntState k Virgin 0)) (dec n ++ crlf ++ rest) = feed (IntState_end p k n) rest.
Proof.
  intros Hn. destruct (dec_digits n ltac:(lia)) as (H1 & H2 & H3).
  rewrite feed_digits by (try done; try (by left); rewrite H3; lia). rewrite H3. unfold crlf. cbn [app].
  rewrite (feed_next _ (IntState k PositiveDigits n)) by done. cbn [step_state]. change (CR =? 43) with false. change (CR =? 45) with false.
  change (is_digit CR) with false. change (CR =? CR) with true. cbn iota.
  rewrite (feed_next _ (IntState k PositiveDigits n)) by done. cbn [step_state]. change (LF =? 43) with false. change (LF =? 45) with false.
  change (is_digit LF) with false. change (LF =? CR) with false. change (LF =? LF) with true. cbn [has_digits].
  rewrite !set_state_twice. destruct k; cbn [IntState_end].
  - by rewrite feed_finished.
  - destruct (n <? 0); [by rewrite feed_finished|]. by rewrite set_state_twice.
  - destruct (n <? 0); [by rewrite feed_finished|]. destruct (n =? 0); [by rewrite feed_finished|]. by rewrite set_state_twice.
Qed.

Lemma header_text c n : c <> 37 -> c <> 0 -> 0 <= n -> Format ([c; 37; 100] ++ crlf) [FormatUnsigned n] = c :: dec n ++ crlf.
Proof.
  intros Hc H0 Hn. change ([c; 37; 100] ++ crlf) with (template [([c], 100)] crlf). rewrite format_template.
  - cbn [expand]. rewrite FormatUnsigned_plain by done. cbn [app]. f_equal.
  - constructor; [|constructor]. unfold plain_piece. cbn [fst snd]. split; [set_solver|]. split; [set_solver|done].
  - unfold crlf, CR, LF. set_solver.
  - unfold crlf, CR, LF. set_solver.
  - done.
Qed.

(** *** Strings *)

Lemma feed_string (p : Parser) str rest : m_pState p = Some RootState -> Z.of_nat (length str) < 2 ^ 31 ->
  feed p (visitString str ++ rest) = (finish p (VString str), rest, false).
Proof.
  intros Hp Hl. unfold visitString. change (lit "$%d") with [36; 37; 100]. rewrite header_text by lia.
  rewrite <- !app_assoc. cbn [app]. rewrite (feed_next p RootState) by done.
  change (step_state (m_acceptShort p) RootState 36) with (@Next F (IntState Bulk Virgin 0)). cbn iota.
  rewrite <- app_assoc. rewrite feed_number by lia. unfold IntState_end. rewrite (proj2 (Z.ltb_ge _ 0)) by lia.
  rewrite (feed_rtc _ _ _ _ (Bulk_data p (Z.of_nat (length str)) [] str (crlf ++ rest) ltac:(lia))). rewrite Z.sub_diag. cbn [app].
  destruct p, rest; reflexivity.
Qed.

Lemma line_chars str : Forall (fun c => c <> CR /\ c <> LF) (first_line str).
Proof.
  unfold first_line. induction str as [|c str IH]; [constructor|]. cbn [skip_while].
  destruct (Z.eqb_spec c CR); [constructor|]. destruct (Z.eqb_spec c LF); [constructor|]. cbn [orb negb take]. by constructor.
Qed.
Lemma feed_line (p : Parser) ok v str rest : Forall (fun c => c <> CR /\ c <> LF) str ->
  feed (set_state p (StringState ok v)) (str ++ crlf ++ rest) =
  (finish p (if ok then VString (v ++ str) else VError SOURCE_ID (v ++ str)), rest, false).
Proof.
  intros H. revert v. induction H as [|c str [H1 H2] H IH]; intros v.
  - rewrite app_nil_r. destruct p, rest; reflexivity.
  - cbn [app]. rewrite (feed_next _ (StringState ok v)) by done. cbn [step_state].
    rewrite (proj2 (Z.eqb_neq c CR)), (proj2 (Z.eqb_neq c LF)) by done. rewrite set_state_twice, IH, <- app_assoc. done.
Qed.
Lemma feed_error (p : Parser) str rest : m_pState p = Some RootState ->
  feed p (visitError str ++ rest) = (finish p (VError SOURCE_ID (first_line str)), rest, false).
Proof.
  intros Hp. unfold visitError. change (lit "-") with [45]. rewrite <- !app_assoc. cbn [app]. rewrite (feed_next p RootState) by done.
  change (step_state (m_acceptShort p) RootState 45) with (@Next F (StringState false [])). cbn iota. by rewrite feed_line by apply line_chars.
Qed.
Lemma feed_success (p : Parser) str rest : m_pState p = Some RootState -> Forall (fun c => c <> CR /\ c <> LF) str ->
  feed p (sendSuccess str ++ rest) = (finish p (VString str), rest, false).
Proof.
  intros Hp Hs. unfold sendSuccess. change (lit "+") with [43]. rewrite <- !app_assoc. cbn [app]. rewrite (feed_next p RootState) by done.
  change (step_state (m_acceptShort p) RootState 43) with (@Next F (StringState true [])). cbn iota. by rewrite feed_line.
Qed.
Lemma feed_nulls (p : Parser) rest : m_pState p = Some RootState ->
  feed p (visitNull ++ rest) = (finish p VNull, rest, false) /\ feed p (visitOther ++ rest) = (finish p VNull, rest, false).
Proof. destruct p as [a st v]. cbn. intros ->. destruct rest; done. Qed.

(** *** Arrays *)

(** Texts that are parsed as values, whatever follows *)
Definition represents (text : list Z) (v : value F) : Prop :=
  forall (p : Parser) rest, m_pState p = Some RootState -> feed p (text ++ rest) = (finish p v, rest, false).

Lemma feed_elements (p : Parser) vs texts vals rest a : Forall2 represents texts vals -> texts <> [] ->
  feed (set_state p (ArrayState (Z.of_nat (length texts)) vs (mkParser a (Some RootState) VNull))) (concat texts ++ rest) =
  (finish p (VVector (vs ++ vals)), rest, false).
Proof.
  intros H. revert vs. induction H as [|text val texts vals Ht H IH]; intros vs Hne; [done|]. cbn [concat]. rewrite <- app_assoc.
  set (q := mkParser a (Some RootState) VNull).
  pose proof (feed_to_rtc _ _ _ _ (Ht q (concat texts ++ rest) eq_refl)) as HR.
  rewrite (feed_rtc _ _ _ _ (lift_finished p (Z.of_nat (length (text :: texts))) vs q _ _ _ HR eq_refl eq_refl)). unfold after.
  cbn [length finish m_pValue extract snd m_acceptShort q]. replace (Z.of_nat (S (length texts)) - 1) with (Z.of_nat (length texts)) by lia.
  destruct H as [|text2 val2 texts vals Ht2 H].
  - cbn [length Z.of_nat Z.eqb concat app]. by rewrite feed_finished.
  - rewrite (proj2 (Z.eqb_neq _ 0)) by (simpl; lia). rewrite IH by done. unfold pushBackNew. by rewrite <- app_assoc.
Qed.

Lemma feed_array n texts vals : Forall2 represents texts vals -> n = Z.of_nat (length texts) -> n < 2 ^ 31 ->
  represents (Format (lit "*%d" ++ crlf) [FormatUnsigned n] ++ concat texts) (VVector vals).
Proof.
  intros H -> Hn p rest Hp. change (lit "*%d") with [42; 37; 100]. rewrite header_text by lia.
  rewrite <- !app_assoc. cbn [app]. rewrite (feed_next p RootState) by done.
  change (step_state (m_acceptShort p) RootState 42) with (@Next F (IntState Array Virgin 0)). cbn iota.
  rewrite <- app_assoc. rewrite feed_number by lia. unfold IntState_end. rewrite (proj2 (Z.ltb_ge _ 0)) by lia.
  destruct H as [|text val texts vals Ht H].
  - cbn [length Z.of_nat Z.eqb concat app]. by rewrite feed_finished.
  - rewrite (proj2 (Z.eqb_neq _ 0)) by (simpl; lia). unfold ArrayState_new, Parser_new.
    by rewrite (feed_elements p [] (text :: texts) (val :: vals)) by (done || by constructor).
Qed.

(** *** Values *)

(** What the receiver of a written value gets: everything but vectors, null and
    errors becomes a string, a hash a vector of keys and values. *)
Fixpoint image (v : value F) : value F :=
  match v with
  | VNull | VOther => VNull
  | VString s => VString s
  | VInteger i => VString (show_int i)
  | VFloat f => VString (format_float_25g f)
  | VBoolean b => VString (if b then lit "1" else lit "0")
  | VHash keys values =>
      VVector ((fix pairs (values : list (value F)) (names : list (list Z)) : list (value F) :=
                  match values, names with
                  | x :: values, k :: names => VString k :: image x :: pairs values names
                  | [], _ => concat (map (fun k => [VString k; VNull]) names)
                  | _, [] => []
                  end) values (m_names keys))
  | VVector vv => VVector (map image vv)
  | VError _ s => VError SOURCE_ID (first_line s)
  end.

(** The protocol has 31-bit sizes. *)
Definition short (s : list Z) : Prop := Z.of_nat (length s) < 2 ^ 31.
Fixpoint fits (v : value F) : Prop :=
  match v with
  | VString s => short s
  | VInteger i => in_s 32 i
  | VFloat f => short (format_float_25g f)
  | VHash keys values => 2 * getNumNames keys < 2 ^ 31 /\ Forall short (m_names keys) /\ foldr (fun x => and (fits x)) True values
  | VVector vv => Z.of_nat (length vv) < 2 ^ 31 /\ foldr (fun x => and (fits x)) True vv
  | _ => True
  end.
Lemma fits_Forall vs : foldr (fun x => and (fits x)) True vs <-> Forall fits vs.
Proof. induction vs as [|x vs IH]; cbn [foldr]; [by split|]. rewrite Forall_cons. tauto. Qed.

Lemma digits_loop_length fuel c base alpha p : (length (digits_loop fuel c base alpha p) <= fuel + length p)%nat.
Proof. revert c p. induction fuel as [|fuel IH]; intros c p; cbn [digits_loop]; [lia|]. destruct (c =? 0); [lia|]. rewrite IH. simpl. lia. Qed.
Lemma show_int_short i : in_s 32 i -> short (show_int i).
Proof.
  intros Hi. rewrite show_int_text by (unfold in_s in *; lia). unfold short, int_text.
  assert (Hd : forall n, (length (dec n) <= 65)%nat).
  { intros n. unfold dec, formatUnsigned. pose proof (digits_loop_length 64 n (base_of 100) (alpha_of 100) []) as H.
    case_bool_decide; [cbn [length]; lia|]. cbn [length] in H. lia. }
  pose proof (Hd i). pose proof (Hd (- i)). destruct (0 <=? i); cbn [length]; lia.
Qed.

Lemma visitString_represents s : short s -> represents (visitString s) (VString s).
Proof. intros Hs p rest Hp. by apply feed_string. Qed.

(** Whatever text follows, a written value is read as its image. *)
Lemma visit_represents v : fits v -> represents (visit v) (image v).
Proof.
  induction v as [|s|i|f|b|keys values IH|vv IH|src s|] using value_nested_ind; intros Hf; cbn [visit image fits] in *.
  - intros p rest Hp. by apply feed_nulls.
  - by apply visitString_represents.
  - by apply visitString_represents, show_int_short.
  - by apply visitString_represents.
  - apply visitString_represents. by destruct b.
  - destruct Hf as (Hn & Hk & Hv). apply fits_Forall in Hv. unfold getNumNames in *.
    assert (HP : exists texts, Forall2 represents texts
        ((fix pairs (values : list (value F)) (names : list (list Z)) : list (value F) :=
            match values, names with
            | x :: values, k :: names => VString k :: image x :: pairs values names
            | [], _ => concat (map (fun k => [VString k; VNull]) names)
            | _, [] => []
            end) values (m_names keys)) /\ length texts = (2 * length (m_names keys))%nat /\
        (fix pairs (values : list (value F)) (names : list (list Z)) : list Z :=
         match values, names with
         | x :: values, k :: names => visitString k ++ visit x ++ pairs values names
         | [], _ => concat (map (fun k => visitString k ++ visitNull) names)
         | _, [] => []
         end) values (m_names keys) = concat texts).
    { clear Hn. revert Hk. generalize (m_names keys). induction values as [|x values IHv]; intros names Hk.
      - induction Hk as [|k names Hk Hks IHk]; [by exists []|]. destruct IHk as (texts & H1 & H2 & H3).
        exists (visitString k :: visitNull :: texts). split; [|split; [simpl; lia|]].
        + cbn [map concat app]. constructor; [by apply visitString_represents|]. constructor; [intros p rest Hp; by apply feed_nulls|done].
        + cbn [map concat]. rewrite H3. by rewrite <- app_assoc.
      - apply Forall_cons in IH as [IHx IH]. apply Forall_cons in Hv as [Hx Hv]. destruct Hk as [|k names Hk Hks]; [by exists []|].
        destruct (IHv IH Hv names Hks) as (texts & H1 & H2 & H3).
        exists (visitString k :: visit x :: texts). split; [|split; [simpl; lia|]].
        + constructor; [by apply visitString_represents|]. constructor; [by apply IHx|done].
        + cbn [concat]. by rewrite H3. }
    destruct HP as (texts & H1 & H2 & H3). rewrite H3.
    assert (usize (2 * Z.of_nat (length (m_names keys))) = Z.of_nat (length texts)) as ->.
    { unfold usize, SIZE_BITS. rewrite wrap_small by lia. lia. }
    apply feed_array; [done|done|lia].
  - destruct Hf as [Hn Hv]. apply fits_Forall in Hv.
    assert (HC : (fix elements (vv : list (value F)) : list Z := match vv with [] => [] | x :: vv => visit x ++ elements vv end) vv
       = concat (map visit vv)) by (clear; induction vv as [|x vv IHv]; [done|]; cbn [map concat]; by rewrite IHv).
    rewrite HC. apply feed_array; [|by rewrite length_map|done].
    clear Hn HC. induction IH as [|x vv Hx _ IHv]; [constructor|]. apply Forall_cons in Hv as [Hx' Hv]. constructor; [by apply Hx|by apply IHv].
  - intros p rest Hp. by apply feed_error.
  - intros p rest Hp. by apply feed_nulls.
Qed.
End RoundTrip.
