(* ===== verification/RespServer.v ===== *)
(** * RESP connections

    The two ends of a connection: the server's ProtocolHandler
    (src/afl/net/resp/protocolhandler.cpp), which parses commands, calls a
    CommandHandler and queues the replies, and the client's sendCommand and
    readResponse (src/afl/net/resp/client.cpp).  The bytes arrive in pieces of any
    size.  [CommandHandler] is the interface both ends share; the internal database
    implements it. *)

From Stdlib Require Import ZArith Lia Bool String Ascii.
From stdpp Require Import base tactics numbers option list relations gmap.
From S2P Require Import Prelude Strings Format Values Redis Resp.

Local Open Scope Z_scope.
Local Open Scope afl_scope.
Local Set Warnings "-notation-for-abbreviation".

(** class CommandHandler: a call with its result, or e.what() of the exception *)
Class CommandHandler (F H : Type) := ch_call : H -> list (value F) -> H * outcome (list Z) (value F).

Section Server.
Context {F H : Type} `{!Double F} `{!CommandHandler F H}.

Inductive ph_state := Idle | Sending | Failed.
Record ProtocolHandler := mkHandler {
  m_state : ph_state;
  m_ch : H;
  m_data : list (list Z);
  m_parser : Parser F;
}.

Definition ProtocolHandler_new (ch : H) : ProtocolHandler :=
  mkHandler Idle ch [] (setAcceptShortForm Parser_new true).

(** [getOperation]: data to send, close the connection? *)
Definition getOperation (ph : ProtocolHandler) : ProtocolHandler * (list Z * bool) :=
  let ph := match m_state ph with
            | Sending => mkHandler Idle (m_ch ph) (tail (m_data ph)) (m_parser ph)
            | _ => ph
            end in
  match m_state ph, m_data ph with
  | Idle, x :: _ => (mkHandler Sending (m_ch ph) (m_data ph) (m_parser ph), (x, false))
  | Failed, _ => (ph, ([], true))
  | _, _ => (ph, ([], false))
  end.

(** [handleNewValue]: only vectors are commands *)
Definition handleNewValue (ph : ProtocolHandler) (p : value F) : ProtocolHandler :=
  let '(ch, out) :=
    match p with
    | VVector vv =>
        let '(ch, r) := ch_call (m_ch ph) vv in
        (ch, match r with
             | Ok result => visit result
             | Throw what => sendError (c_str what)
             end)
    | _ => (m_ch ph, sendError (lit "Invalid operation"))
    end in
  mkHandler (m_state ph) ch (m_data ph ++ [out]) (m_parser ph).

(** [handleData]: every round of the loop consumes a byte *)
Fixpoint ph_loop (fuel : nat) (ph : ProtocolHandler) (bytes : list Z) : ProtocolHandler :=
  match fuel with
  | O => ph
  | S fuel' =>
      if empty bytes then ph
      else
        let '(p, bytes, threw) := handleData (m_parser ph) bytes in
        if threw then mkHandler Failed (m_ch ph) (m_data ph) p
        else if finished p
        then let '(v, p) := extract p in
             ph_loop fuel' (handleNewValue (mkHandler (m_state ph) (m_ch ph) (m_data ph) p) v) bytes
        else ph_loop fuel' (mkHandler (m_state ph) (m_ch ph) (m_data ph) p) bytes
  end.
Definition ph_handleData (ph : ProtocolHandler) (bytes : list Z) : ProtocolHandler := ph_loop (length bytes) ph bytes.

Definition handleSendTimeout (ph : ProtocolHandler) : ProtocolHandler :=
  mkHandler Failed (m_ch ph) (m_data ph) (m_parser ph).

(** *** Client *)

Inductive client_error :=
  | FileTooShortException
  | RemoteError (err : list Z)
  | FileFormatException.

Definition sendCommand (command : list (value F)) : list Z := visitSegment command.

(** The client's parser, the data received and not yet parsed, and what the
    socket delivers; an empty piece is the end of the connection. *)
Record Client := mkClient { c_parser : Parser F; c_input : list Z; c_socket : list (list Z) }.

(** Parse the input: the outer loop goes on with [next]. *)
Definition parse_input (next : Client -> Client * outcome client_error (value F)) (c : Client) : Client * outcome client_error (value F) :=
  let '(p, input, threw) := handleData (c_parser c) (c_input c) in
  let c := mkClient p input (c_socket c) in
  if threw then (c, Throw FileFormatException)
  else if finished p
  then let '(result, p) := extract p in
       let c := mkClient p input (c_socket c) in
       match isError result with
       | Some (_, err) => (c, Throw (RemoteError err))
       | None => (c, Ok result)
       end
  else next c.

(** [readResponse]; it receives at most once per piece, and once at the end. *)
Fixpoint readResponse_loop (fuel : nat) (c : Client) : Client * outcome client_error (value F) :=
  match fuel with
  | O => (c, Throw FileTooShortException)
  | S fuel' =>
      if empty (c_input c)
      then match c_socket c with
           | x :: rest =>
               if empty x then (mkClient (c_parser c) [] rest, Throw FileTooShortException)
               else parse_input (readResponse_loop fuel') (mkClient (c_parser c) x rest)
           | [] => (c, Throw FileTooShortException)
           end
      else parse_input (readResponse_loop fuel') c
  end.
Definition readResponse (c : Client) : Client * outcome client_error (value F) :=
  readResponse_loop (S (S (length (c_socket c)))) c.
End Server.
Arguments ProtocolHandler F H : clear implicits.
Arguments Client F : clear implicits.

(** ** The server's replies *)

Section Replies.
Context {F H : Type} `{!Double F} `{!CommandHandler F H}.

(** The reply to a command, and the replies to a sequence of commands *)
Definition reply (r : outcome (list Z) (value F)) : value F :=
  match r with
  | Ok v => v
  | Throw what => VError [] (c_str what)
  end.
Fixpoint replies (h : H) (commands : list (list (value F))) : H * list (value F) :=
  match commands with
  | [] => (h, [])
  | c :: commands =>
      let '(h, r) := ch_call h (map image c) in
      let '(h, rs) := replies h commands in
      (h, reply r :: rs)
  end.

Definition fresh_parser : Parser F := setAcceptShortForm Parser_new true.
(** The bytes [R] that have not arrived yet complete the commands [todo]. *)
Definition expects (p : Parser F) (R : list Z) (todo : list (list (value F))) : Prop :=
  match todo with
  | [] => R = [] /\ p = fresh_parser
  | c :: todo => Parser_wf p /\ finished p = false /\
      feed p R = (finish fresh_parser (VVector (map image c)), concat (map sendCommand todo), false)
  end.

Lemma replies_app h a b : replies h (a ++ b) =
  ((replies (replies h a).1 b).1, (replies h a).2 ++ (replies (replies h a).1 b).2).
Proof.
  revert h. induction a as [|c a IH]; intros h; cbn [app replies fst snd]; [by destruct (replies h b)|].
  destruct (ch_call h (map image c)) as [h1 r]. rewrite IH. by destruct (replies h1 a) as [h2 rs].
Qed.

Lemma replies_length h cs : length (replies h cs).2 = length cs.
Proof.
  revert h. induction cs as [|c cs IH]; intros h; [done|]. cbn [replies]. destruct (ch_call h (map image c)) as [h1 r].
  specialize (IH h1). destruct (replies h1 cs) as [h2 rs]. cbn [snd length] in *. by rewrite IH.
Qed.

Lemma expects_start todo : Forall (fun c => fits (VVector c)) todo -> expects fresh_parser (concat (map sendCommand todo)) todo.
Proof.
  destruct todo as [|c todo]; [done|]. intros Hf. apply Forall_cons in Hf as [Hc _]. split; [done|]. split; [done|].
  apply (visit_represents (VVector c) Hc); done.
Qed.

Lemma ph_loop_correct fuel ph bytes R todo :
  (length bytes <= fuel)%nat -> expects (m_parser ph) (bytes ++ R) todo -> Forall (fun c => fits (VVector c)) todo ->
  exists done todo', todo = done ++ todo' /\
    let ph' := ph_loop fuel ph bytes in
    expects (m_parser ph') R todo' /\ m_state ph' = m_state ph /\
    m_ch ph' = (replies (m_ch ph) done).1 /\ m_data ph' = m_data ph ++ map visit (replies (m_ch ph) done).2.
Proof.
  revert ph bytes todo. induction fuel as [|fuel IH]; intros ph bytes todo Hl He Hf.
  - destruct bytes; [|simpl in Hl; lia]. exists [], todo. cbn [ph_loop replies fst snd map]. by rewrite app_nil_r.
  - cbn [ph_loop]. destruct bytes as [|b bytes]; [exists [], todo; cbn [empty replies fst snd map]; by rewrite app_nil_r|]. cbn [empty].
    destruct todo as [|c todo]; [by destruct He|]. destruct He as (Hwf & Hq & He). rewrite handleData_feed by done.
    rewrite feed_app in He. destruct (feed (m_parser ph) (b :: bytes)) as [[p rest] threw] eqn:Ef. destruct threw; [done|].
    assert (Hlt : (length rest <= length bytes)%nat) by (pose proof (feed_progress _ _ _ _ Ef Hq ltac:(done)); simpl in *; lia).
    pose proof (feed_wf _ _ _ _ Hwf Ef) as Hwf'. destruct (finished p) eqn:Ep.
    + rewrite feed_finished in He by done. injection He as -> He. cbn [extract].
      apply Forall_cons in Hf as [_ Hf]. destruct (ch_call (m_ch ph) (map image c)) as [h r] eqn:Ec.
      match goal with |- context [ph_loop fuel ?ph1 rest] => set (ph' := ph1); destruct (IH ph' rest todo) as (dn & todo' & -> & H1 & H2 & H3 & H4) end.
      * simpl in *. lia.
      * rewrite He. replace (m_parser ph') with fresh_parser; [by apply expects_start|]. subst ph'. unfold handleNewValue.
        cbn [finish m_pValue m_ch]. by rewrite Ec.
      * done.
      * exists (c :: dn), todo'. split; [done|]. split; [exact H1|].
        assert (E : ph' = mkHandler (m_state ph) h (m_data ph ++ [visit (reply r)]) fresh_parser).
        { subst ph'. unfold handleNewValue. cbn [finish m_pValue m_ch]. rewrite Ec. by destruct r. }
        rewrite E in *. cbn [m_state m_ch m_data replies] in *. rewrite Ec. destruct (replies h dn) as [h2 rs]. cbn [fst snd map] in *.
        rewrite <- app_assoc in H4. done.
    + destruct (feed_end _ _ _ _ Ef) as [?| ->]; [congruence|]. cbn [app] in He.
      destruct (IH (mkHandler (m_state ph) (m_ch ph) (m_data ph) p) [] (c :: todo)) as (dn & todo' & E & Hr); [simpl; lia|done|done|].
      exists dn, todo'. split; [exact E|]. exact Hr.
Qed.

(** Pieces of any size *)
Lemma ph_pieces_correct pieces ph R todo :
  expects (m_parser ph) (concat pieces ++ R) todo -> Forall (fun c => fits (VVector c)) todo ->
  exists done todo', todo = done ++ todo' /\
    let ph' := foldl ph_handleData ph pieces in
    expects (m_parser ph') R todo' /\ m_state ph' = m_state ph /\
    m_ch ph' = (replies (m_ch ph) done).1 /\ m_data ph' = m_data ph ++ map visit (replies (m_ch ph) done).2.
Proof.
  revert ph todo. induction pieces as [|x pieces IH]; intros ph todo He Hf; cbn [foldl concat] in *.
  - exists [], todo. cbn [replies fst snd map]. by rewrite app_nil_r.
  - rewrite <- app_assoc in He. destruct (ph_loop_correct (length x) ph x (concat pieces ++ R) todo ltac:(lia) He Hf)
      as (d1 & todo1 & -> & H1 & H2 & H3 & H4). apply Forall_app in Hf as [_ Hf].
    destruct (IH (ph_handleData ph x) todo1 H1 Hf) as (d2 & todo' & -> & G1 & G2 & G3 & G4).
    exists (d1 ++ d2), todo'. split; [by rewrite app_assoc|]. split; [exact G1|].
    unfold ph_handleData in *. rewrite H2 in G2. rewrite H3 in G3, G4. rewrite H4 in G4. rewrite replies_app. cbn [fst snd].
    split; [done|]. split; [done|]. rewrite G4, map_app, app_assoc. done.
Qed.

(** All commands have arrived: all replies are there, in order. *)
Lemma server_replies h commands pieces : Forall (fun c => fits (VVector c)) commands ->
  concat pieces = concat (map sendCommand commands) ->
  foldl ph_handleData (ProtocolHandler_new h) pieces =
  mkHandler Idle (replies h commands).1 (map visit (replies h commands).2) fresh_parser.
Proof.
  intros Hf Hp. destruct (ph_pieces_correct pieces (ProtocolHandler_new h) [] commands) as (dn & todo & -> & He & H1 & H2 & H3).
  { rewrite app_nil_r, Hp. by apply expects_start. }
  { done. }
  destruct todo as [|c todo]; [|destruct He as (_ & Hq & He); simpl in He; injection He as He _; by rewrite He in Hq].
  destruct He as [_ He]. rewrite app_nil_r. destruct (foldl ph_handleData (ProtocolHandler_new h) pieces) as [st ch data p].
  cbn [m_state m_ch m_data m_parser] in *. by subst.
Qed.

(** [getOperation] sends the queue in order, one entry per call. *)
Fixpoint sent (n : nat) (ph : ProtocolHandler F H) : list (list Z) :=
  match n with
  | O => []
  | S n => let '(ph, (x, _)) := getOperation ph in x :: sent n ph
  end.
Lemma sent_Sending ph x q : m_state ph = Sending -> m_data ph = x :: q -> sent (length q) ph = q.
Proof.
  revert ph x. induction q as [|y q IH]; intros [st ch dt p] x Hs Hd; [done|]. cbn [m_state m_data] in *. subst.
  cbn [length sent getOperation m_state m_data m_ch m_parser tail]. f_equal. by eapply IH.
Qed.
Lemma sent_Idle ph : m_state ph = Idle -> sent (length (m_data ph)) ph = m_data ph.
Proof.
  destruct ph as [st ch [|x q] p]; [done|]. cbn [m_state m_data]. intros ->. cbn [length sent getOperation m_state m_data m_ch m_parser].
  f_equal. by eapply sent_Sending.
Qed.
End Replies.

(** ** The client *)

Section ClientSide.
Context {F H : Type} `{!Double F} `{!CommandHandler F H}.

(** What readResponse makes of a value *)
Definition response (v : value F) : outcome client_error (value F) :=
  match image v with
  | VError _ err => Throw (RemoteError err)
  | r => Ok r
  end.

(** The data received and the pieces to come complete the value. *)
Definition awaits (c : Client F) (v : value F) (rest : list Z) : Prop :=
  Parser_wf (c_parser c) /\ finished (c_parser c) = false /\ Forall (fun x => x <> []) (c_socket c) /\
  feed (c_parser c) (c_input c ++ concat (c_socket c)) = (finish Parser_new (image v), rest, false).
Definition received (v : value F) (rest : list Z) (cr : Client F * outcome client_error (value F)) : Prop :=
  exists input socket, cr = (mkClient Parser_new input socket, response v) /\
    input ++ concat socket = rest /\ Forall (fun x => x <> []) socket.

Lemma parse_input_correct next c v rest : awaits c v rest ->
  (forall c', awaits c' v rest -> c_input c' = [] -> c_socket c' = c_socket c -> received v rest (next c')) ->
  received v rest (parse_input next c).
Proof.
  intros (Hwf & Hq & Hs & Hf) Hn. unfold parse_input. rewrite handleData_feed by done. rewrite feed_app in Hf.
  destruct (feed (c_parser c) (c_input c)) as [[p r] threw] eqn:Ef. destruct threw; [done|].
  pose proof (feed_wf _ _ _ _ Hwf Ef) as Hwf'. destruct (finished p) eqn:Ep.
  - rewrite feed_finished in Hf by done. injection Hf as -> Hr. cbn [extract finish m_pValue m_acceptShort Parser_new].
    exists r, (c_socket c). unfold response. destruct (image v); cbn [isError]; done.
  - destruct (feed_end _ _ _ _ Ef) as [?| ->]; [congruence|]. apply Hn; [|done|done]. by split; [|split; [|split]].
Qed.

Lemma readResponse_loop_correct fuel c v rest : awaits c v rest ->
  (length (c_socket c) + (if empty (c_input c) then 1 else 2) <= fuel)%nat -> received v rest (readResponse_loop fuel c).
Proof.
  revert c. induction fuel as [|fuel IH]; intros c Ha Hl; [destruct (empty (c_input c)); lia|]. cbn [readResponse_loop].
  destruct (empty (c_input c)) eqn:Ee.
  - destruct c as [p [|? ?] sock]; [|done]. cbn [c_socket c_input c_parser] in *. destruct Ha as (Hwf & Hq & Hs & Hf). cbn [c_socket c_input c_parser app] in *.
    destruct Hs as [|x rest' Hx Hs]; [simpl in Hf; injection Hf as -> _; done|].
    destruct x as [|b x]; [done|]. cbn [empty]. apply parse_input_correct; [by split; [|split; [|split]]|].
    intros c' Ha' Hi Hs'. apply IH; [done|]. rewrite Hi, Hs'. simpl in *. lia.
  - apply parse_input_correct; [done|]. intros c' Ha' Hi Hs'. apply IH; [done|]. rewrite Hi, Hs'. simpl. lia.
Qed.

(** Read several responses. *)
Fixpoint read_all (n : nat) (c : Client F) : Client F * list (outcome client_error (value F)) :=
  match n with
  | O => (c, [])
  | S n => let '(c, r) := readResponse c in let '(c, rs) := read_all n c in (c, r :: rs)
  end.

Lemma read_all_correct vs input socket : Forall fits vs -> Forall (fun x => x <> []) socket ->
  input ++ concat socket = concat (map visit vs) ->
  (read_all (length vs) (mkClient Parser_new input socket)).2 = map response vs.
Proof.
  intros Hf. revert input socket. induction Hf as [|v vs Hv Hf IH]; intros input socket Hs Hi; [done|]. cbn [length read_all map concat] in *.
  assert (Ha : awaits (mkClient Parser_new input socket) v (concat (map visit vs))).
  { split; [done|]. split; [done|]. split; [done|]. cbn [c_parser c_input c_socket]. rewrite Hi. by apply (visit_represents v Hv). }
  destruct (readResponse_loop_correct (S (S (length socket))) _ _ _ Ha) as (input' & socket' & Hr & Hi' & Hs').
  { cbn [c_socket c_input]. destruct (empty input); lia. }
  unfold readResponse. cbn [c_socket]. rewrite Hr. specialize (IH input' socket' Hs' Hi').
  destruct (read_all (length vs) _) as [c2 rs]. cbn [snd] in *. by rewrite IH.
Qed.
End ClientSide.

(** ** The internal database behind a connection *)

Section Database.
Context {F : Type} `{!Double F}.
Context (std_sort : (list Z -> list Z -> outcome error bool) -> list (list Z) -> outcome error (list (list Z))).

(** The state holds what std::rand is going to return. *)
#[local] Instance InternalDatabase_handler : CommandHandler F (gmap (list Z) Key * list Z) := fun h command =>
  let '(db, rands) := h in
  let '(db, r) := call std_sort (hd 0 rands) command db in
  ((db, tail rands), match r with Ok v => Ok v | Throw e => Throw (error_what e) end).
End Database.

(** ** Properties *)

(** The RESP parser takes its input in pieces of any size.  Its loops end: more
    fuel than a multiple of the bytes and of the open arrays makes no difference.
    When it returns, it has a value or has consumed all data, and it has consumed
    something; feeding two pieces one after the other is feeding their
    concatenation, whether the parser succeeds or throws. *)
Theorem resp_parser_pieces {F : Type} (p : Parser F) (a b : list Z) :
  Parser_wf p ->
  (forall fuel, (needed_fuel p a <= fuel)%nat -> Parser_loop fuel p a = handleData p a) /\
  handleData p (a ++ b) =
    (let '(p', r, threw) := handleData p a in if threw then (p', r ++ b, true) else handleData p' (r ++ b)) /\
  (forall p' r, handleData p a = (p', r, false) ->
     Parser_wf p' /\ (finished p' = true \/ r = []) /\ (finished p = false -> a <> [] -> (length r < length a)%nat)).
Proof.
  intros Hwf. split; [|split].
  - intros fuel Hf. rewrite handleData_feed by done. by apply Parser_loop_feed.
  - rewrite !handleData_feed by done. rewrite feed_app. destruct (feed p a) as [[p' r] [|]] eqn:Ef; [done|].
    rewrite handleData_feed; [done|]. by eapply feed_wf.
  - intros p' r H. rewrite handleData_feed in H by done. split; [by eapply feed_wf|]. split; [by eapply feed_end|].
    intros Hp Ha. by eapply feed_progress.
Qed.
Lemma resp_parser_pieces_witness :
  handleData (@Parser_new Z) (lit "$3" ++ [CR] ++ ([LF] ++ lit "foo" ++ crlf)) =
  (let '(p', r, threw) := handleData (@Parser_new Z) (lit "$3" ++ [CR]) in
   if threw then (p', r ++ ([LF] ++ lit "foo" ++ crlf), true) else handleData p' (r ++ ([LF] ++ lit "foo" ++ crlf))).
Proof. rewrite app_assoc. exact (proj1 (proj2 (resp_parser_pieces (@Parser_new Z) (lit "$3" ++ [CR]) ([LF] ++ lit "foo" ++ crlf) I))). Defined.

(** C20. A RESP connection is transparent.  A value the writer has written is read
    by the parser as that value - numbers and booleans as their texts, hashes as
    vectors of keys and values, errors with their first line - and nothing of what
    follows is consumed.  A server that receives written commands in pieces of any
    size passes each of them once and in order to its command handler, and sends
    one reply for each; a client that receives the replies in pieces of any size
    returns them one after the other, an error or an exception of the handler as a
    RemoteErrorException with its message. *)
Theorem resp_connection_correct {F H : Type} `{!Double F} `{!CommandHandler F H} (h : H) (commands : list (list (value F))) pieces :
  (forall v rest, fits v -> handleData Parser_new (visit v ++ rest) = (finish Parser_new (image v), rest, false)) /\
  (Forall (fun c => fits (VVector c)) commands -> concat pieces = concat (map sendCommand commands) ->
   let ph := foldl ph_handleData (ProtocolHandler_new h) pieces in
   let rs := (replies h commands).2 in
   m_ch ph = (replies h commands).1 /\ m_state ph = Idle /\ length rs = length commands /\
   forall received, Forall fits rs -> Forall (fun x => x <> []) received ->
     concat received = concat (sent (length commands) ph) ->
     (read_all (length commands) (mkClient Parser_new [] received)).2 = map response rs).
Proof.
  split; [intros v rest Hv; rewrite handleData_feed by done; by apply (visit_represents v Hv)|].
  intros Hc Hp ph rs. subst ph. rewrite (server_replies h commands pieces Hc Hp). split; [done|]. split; [done|].
  assert (Hl : length rs = length commands) by apply replies_length. split; [done|].
  intros received Hr Hne Hs. rewrite <- Hl in *. apply (read_all_correct rs [] received); [done|done|]. cbn [app]. rewrite Hs. f_equal.
  rewrite <- (length_map visit rs). by apply (sent_Idle (mkHandler Idle (replies h commands).1 (map visit rs) fresh_parser)).
Qed.

(** The database behind a connection that delivers single bytes *)
Module ConcreteServer.
Import Concrete.
#[local] Instance handler : CommandHandler Z (gmap (list Z) Key * list Z) := InternalDatabase_handler insertion_sort.
Definition ex_commands : list (list (value Z)) := [cmd "rpush l x y"; cmd "lrange l 0 -1"; cmd "get l"].
Definition ex_server : ProtocolHandler Z (gmap (list Z) Key * list Z) :=
  foldl ph_handleData (ProtocolHandler_new (∅, [])) (map (fun b => [b]) (concat (map sendCommand ex_commands))).

Lemma single_bytes (l : list Z) : concat (map (fun b => [b]) l) = l.
Proof. induction l as [|b l IH]; [done|]. cbn [map concat app]. by rewrite IH. Qed.

Lemma resp_connection_correct_witness :
  (read_all (length ex_commands) (mkClient (@Parser_new Z) [] (map (fun b => [b]) (concat (sent (length ex_commands) ex_server))))).2 =
  [Ok (VString (lit "2")); Ok (VVector [VString (lit "x"); VString (lit "y")]); Throw (RemoteError (lit "Invalid type [verb: GET]"))].
Proof.
  destruct (resp_connection_correct (∅, []) ex_commands (map (fun b => [b]) (concat (map sendCommand ex_commands)))) as [_ Hs].
  destruct Hs as (_ & _ & _ & Hr).
  - unfold ex_commands. repeat (apply Forall_cons_2; [vm_compute; repeat constructor|]). apply Forall_nil_2.
  - apply single_bytes.
  - assert (E : map response (replies (∅, []) ex_commands).2 =
      [Ok (VString (lit "2")); Ok (VVector [VString (lit "x"); VString (lit "y")]); Throw (RemoteError (lit "Invalid type [verb: GET]"))])
      by (vm_compute; reflexivity).
    rewrite <- E. apply Hr.
    + assert (E2 : (replies (∅, []) ex_commands).2 = [VInteger 2; VVector [VString (lit "x"); VString (lit "y")];
        VError [] (lit "Invalid type [verb: GET]")]) by (vm_compute; reflexivity).
      rewrite E2. repeat (apply Forall_cons_2; [vm_compute; repeat constructor; discriminate|]). apply Forall_nil_2.
    + apply Forall_map, Forall_true. discriminate.
    + apply single_bytes.
Defined.
End ConcreteServer.
