(* ===== verification/Json.v ===== *)
(** * JSON

    The parser (src/afl/io/json/parser.cpp) and the writer
    (src/afl/io/json/writer.cpp) of JSON values.

    The parser reads a BufferedStream byte by byte with one byte of look-ahead; the
    model passes the bytes that are still to be read.  The recursive descent is
    bounded by fuel, whose exhaustion is an error of its own: [parse_total] shows
    that it never occurs.  The writer keeps its line length and indentation; its
    sink takes all bytes, as InternalSink does.  std::strtod is a parameter. *)

From Stdlib Require Import ZArith Lia Bool String Ascii.
From stdpp Require Import base tactics numbers option list.
From S2P Require Import Prelude Strings Format Encodings Values Utf8.

Local Open Scope Z_scope.
Local Open Scope afl_scope.
Local Set Warnings "-notation-for-abbreviation".

Inductive json_error :=
  | FileTooShortException
  | FileFormatException
  | OutOfFuel.

(** ** Parser *)

Definition is_ws (c : Z) : bool := (c =? 32) || (c =? 9) || (c =? 13) || (c =? 10).
Fixpoint skipWhitespace (s : list Z) : list Z :=
  match s with
  | c :: s' => if is_ws c then skipWhitespace s' else s
  | [] => []
  end.

(** [parseChar]: the byte is not consumed *)
Definition parseChar (which : Z) (s : list Z) : outcome json_error unit :=
  match s with
  | [] => Throw FileTooShortException
  | ch :: _ => if negb (ch =? which) then Throw FileFormatException else Ok tt
  end.
Definition parseChar2 (first second : Z) (s : list Z) : outcome json_error bool :=
  match s with
  | [] => Throw FileTooShortException
  | ch :: _ => if ch =? first then Ok true else if ch =? second then Ok false else Throw FileFormatException
  end.

Definition hex_value (ch : Z) : option Z :=
  if (48 <=? ch) && (ch <=? 57) then Some (ch - 48)
  else if (65 <=? ch) && (ch <=? 70) then Some (ch - 65 + 10)
  else if (97 <=? ch) && (ch <=? 102) then Some (ch - 97 + 10)
  else None.
(** [parseUnicodeEscape]: [n] digits are missing *)
Fixpoint unicode_loop (n : nat) (result : Z) (s : list Z) : outcome json_error Z :=
  match n with
  | O => Ok result
  | S n' =>
      match s with
      | [] => Throw FileTooShortException
      | ch :: s' =>
          match hex_value ch with
          | Some d => unicode_loop n' (wrap 32 (wrap 32 (Z.shiftl result 4) + d)) s'
          | None => Throw FileFormatException
          end
      end
  end.
Definition parseUnicodeEscape (s : list Z) : outcome json_error Z := unicode_loop 4 0 s.

(** The escapes of one character *)
Definition escape (ch : Z) : option Z :=
  if ch =? 34 then Some 34
  else if ch =? 39 then Some 39
  else if ch =? 92 then Some 92
  else if ch =? 47 then Some 47
  else if ch =? 98 then Some 8
  else if ch =? 102 then Some 12
  else if ch =? 110 then Some 10
  else if ch =? 114 then Some 13
  else if ch =? 116 then Some 9
  else None.

(** The loop of [parseString]: string, remaining bytes *)
Fixpoint parseString_loop (s : list Z) (value : list Z) : outcome json_error (list Z * list Z) :=
  match s with
  | [] => Throw FileTooShortException
  | ch :: s1 =>
      if ch =? 34 then Ok (value, s1)
      else if ch =? 92
      then match s1 with
           | [] => Throw FileTooShortException
           | e :: s2 =>
               match escape e with
               | Some x => parseString_loop s2 (value ++ [x])
               | None =>
                   if e =? 117
                   then match parseUnicodeEscape s2, s2 with
                        | Ok u, _ :: _ :: _ :: _ :: s3 => parseString_loop s3 (value ++ append 0 u)
                        | Throw err, _ => Throw err
                        | Ok _, _ => Throw FileTooShortException
                        end
                   else Throw FileFormatException
               end
           end
      else if ch <? 32 then Throw FileFormatException
      else parseString_loop s1 (value ++ [ch])
  end.
Definition parseString (s : list Z) : outcome json_error (list Z * list Z) := parseString_loop (tail s) [].

Definition is_identifier (c : Z) : bool :=
  ((97 <=? c) && (c <=? 122)) || ((65 <=? c) && (c <=? 90)) || (c =? 95) || ((48 <=? c) && (c <=? 57)).
(** [parseKeyword]: remaining bytes *)
Fixpoint parseKeyword (kw : list Z) (s : list Z) : outcome json_error (list Z) :=
  match kw with
  | [] => match s with
          | ch :: _ => if is_identifier ch then Throw FileFormatException else Ok s
          | [] => Ok s
          end
  | k :: kw' =>
      match s with
      | [] => Throw FileTooShortException
      | ch :: s' => if negb (ch =? k) then Throw FileFormatException else parseKeyword kw' s'
      end
  end.

Definition is_number_char (c : Z) : bool :=
  (c =? 43) || (c =? 45) || (c =? 46) || (c =? 101) || (c =? 69) || ((48 <=? c) && (c <=? 57)).

Section Parser.
Context {F : Type} (strtod : list Z -> F * nat * bool).
Notation value := (value F).

(** The value of the collected characters *)
Definition number_of_text (str : list Z) : outcome json_error value :=
  match strToInt32 str with
  | Some iv => Ok (VInteger iv)
  | None =>
      match (strToFloat strtod str).1 with
      | Some fv => Ok (VFloat fv)
      | None => Throw FileFormatException
      end
  end.
Definition parseNumber (s : list Z) : outcome json_error (value * list Z) :=
  let n := skip_while is_number_char s in
  let! v := number_of_text (take n s) in Ok (v, drop n s).

(** [parse], [parseArray], [parseHash].  The switch of [parse] and the rounds of the
    loops of [parseArray] and [parseHash] take the functions they call as arguments. *)
Notation result := (outcome json_error (value * list Z)).
Definition parseArray (loop : list value -> list Z -> result) (s : list Z) : result :=
  let s := skipWhitespace (tail s) in
  match s with
  | [] => Throw FileTooShortException
  | c :: s' => if negb (c =? 93) then loop [] s else Ok (VVector [], s')
  end.
Definition array_round (parse : list Z -> result) (next : list value -> list Z -> result) (values : list value) (s : list Z) : result :=
  let! r := parse s in
  let values := pushBackNew values r.1 in
  let s := skipWhitespace r.2 in
  let! comma := parseChar2 44 93 s in
  if comma then next values (tail s) else Ok (VVector values, tail s).
Definition parseHash (loop : Hash F -> list Z -> result) (s : list Z) : result :=
  let s := skipWhitespace (tail s) in
  match s with
  | [] => Throw FileTooShortException
  | c :: s' => if negb (c =? 125) then loop Hash_new s else Ok (VHash NameMap_new [], s')
  end.
Definition hash_round (parse : list Z -> result) (next : Hash F -> list Z -> result) (names : Hash F) (s : list Z) : result :=
  let! _ := parseChar 34 s in
  let! r := parseString s in
  let '(keys, index) := addMaybe (m_keys names) r.1 in
  let s := skipWhitespace r.2 in
  let! _ := parseChar 58 s in
  let! r := parse (tail s) in
  let names := mkHash keys (seg_setNew (m_values names) (Z.to_nat index) r.1) in
  let s := skipWhitespace r.2 in
  let! comma := parseChar2 44 125 s in
  if comma then next names (skipWhitespace (tail s)) else Ok (VHash (m_keys names) (m_values names), tail s).

Fixpoint parse (fuel : nat) (s : list Z) : result :=
  match fuel with
  | O => Throw OutOfFuel
  | S fuel' =>
      let s := skipWhitespace s in
      match s with
      | [] => Throw FileTooShortException
      | ch :: _ =>
          if ch =? 91 then parseArray (array_loop fuel') s
          else if ch =? 123 then parseHash (hash_loop fuel') s
          else if ch =? 34 then let! r := parseString s in Ok (VString r.1, r.2)
          else if ch =? 110 then let! s := parseKeyword (lit "null") s in Ok (VNull, s)
          else if ch =? 116 then let! s := parseKeyword (lit "true") s in Ok (VBoolean true, s)
          else if ch =? 102 then let! s := parseKeyword (lit "false") s in Ok (VBoolean false, s)
          else if (ch =? 45) || ((48 <=? ch) && (ch <=? 57)) then parseNumber s
          else Throw FileFormatException
      end
  end
with array_loop (fuel : nat) (values : list value) (s : list Z) : result :=
  match fuel with
  | O => Throw OutOfFuel
  | S fuel' => array_round (parse fuel') (array_loop fuel') values s
  end
with hash_loop (fuel : nat) (names : Hash F) (s : list Z) : result :=
  match fuel with
  | O => Throw OutOfFuel
  | S fuel' => hash_round (parse fuel') (hash_loop fuel') names s
  end.

Definition parseComplete (fuel : nat) (s : list Z) : outcome json_error value :=
  let! r := parse fuel s in
  match skipWhitespace r.2 with
  | [] => Ok r.1
  | _ => Throw FileFormatException
  end.
End Parser.

(** Enough for every input: see [parse_total] *)
Definition fuel_for (s : list Z) : nat := (2 * length s + 2)%nat.
Definition no_float (s : list Z) : Z * nat * bool := (0, 0%nat, false).
Definition json (s : list Z) : outcome json_error (value Z) := parseComplete no_float (fuel_for s) s.
Example json_ex1 : json (lit " [1, -20 ,[], 'x\n\u0041\'', true, null]" ) = Throw FileFormatException.
Proof. reflexivity. Qed.
Definition quote (s : list Z) : list Z := map (fun c => if c =? 39 then 34 else c) s.
Example json_ex2 : json (quote (lit " [1, -20 ,[], 'x\n\u0041', true, null]")) =
  Ok (VVector [VInteger 1; VInteger (-20); VVector []; VString [120; 10; 65]; VBoolean true; VNull]).
Proof. vm_compute. reflexivity. Qed.

(** ** Writer *)

Definition NewlineBefore : Z := 1.
Definition NewlineAfter : Z := 2.
Definition IndentAfter : Z := 4.
Definition UndentBefore : Z := 8.
Definition has_bit (flags bit : Z) : bool := negb (Z.land flags bit =? 0).

Record Writer := mkWriter {
  m_lineLength : Z;
  m_indentStep : Z;
  m_sink : list Z;
  m_currentLineLength : Z;
  m_currentIndentLevel : Z;
  m_currentAllowNewline : bool;
}.
Definition Writer_new : Writer := mkWriter 0 0 [] 0 0 false.
Definition setLineLength (lineLength : Z) (w : Writer) : Writer :=
  mkWriter lineLength (m_indentStep w) (m_sink w) (m_currentLineLength w) (m_currentIndentLevel w) (m_currentAllowNewline w).
Definition setIndentStep (indentStep : Z) (w : Writer) : Writer :=
  mkWriter (m_lineLength w) indentStep (m_sink w) (m_currentLineLength w) (m_currentIndentLevel w) (m_currentAllowNewline w).

(** The loop that writes the indentation, at most 128 bytes at a time *)
Fixpoint indent_loop (fuel : nat) (n : Z) : list Z :=
  match fuel with
  | O => []
  | S fuel' => if 0 <? n then replicate (Z.to_nat (Z.min n 128)) 32 ++ indent_loop fuel' (n - Z.min n 128) else []
  end.

Definition write (str : list Z) (flags : Z) (w : Writer) : Writer :=
  let '(mkWriter lineLength indentStep sink currentLineLength currentIndentLevel currentAllowNewline) := w in
  let currentIndentLevel := if has_bit flags UndentBefore then usize (currentIndentLevel - indentStep) else currentIndentLevel in
  let newline := (has_bit flags NewlineBefore || currentAllowNewline)
                 && ((0 <? indentStep)
                     || (negb (lineLength =? 0) && (lineLength <? usize (currentLineLength + Z.of_nat (length str))))) in
  let sink := if newline
              then sink ++ [10] ++ indent_loop (Z.to_nat currentIndentLevel) currentIndentLevel
              else sink in
  let currentLineLength := if newline then currentIndentLevel else currentLineLength in
  mkWriter lineLength indentStep (sink ++ str) (usize (currentLineLength + Z.of_nat (length str)))
    (if has_bit flags IndentAfter then usize (currentIndentLevel + indentStep) else currentIndentLevel)
    (has_bit flags NewlineAfter).

(** One character of a string *)
Definition quote_char (ch : Z) : list Z :=
  if ch =? 92 then [92; 92]
  else if ch =? 34 then [92; 34]
  else if 32 <=? ch then [ch]
  else if ch =? 10 then [92; 110]
  else if ch =? 13 then [92; 114]
  else if ch =? 8 then [92; 98]
  else if ch =? 9 then [92; 116]
  else if ch =? 12 then [92; 102]
  else Format (lit "\u%04X") [FormatUnsigned ch].
Definition quoted (str : list Z) : list Z := [34] ++ concat (map quote_char str) ++ [34].
Definition visitString (str : list Z) (w : Writer) : Writer := write (quoted str) 0 w.

Section Write.
Context {F : Type} `{!Double F}.
Notation value := (value F).

Fixpoint visit (v : value) (w : Writer) : Writer :=
  match v with
  | VNull | VError _ _ | VOther => write (lit "null") 0 w
  | VString str => visitString str w
  | VInteger iv => write (show_int iv) 0 w
  | VFloat fv => write (format_float_25g fv) 0 w
  | VBoolean bv => write (if bv then lit "true" else lit "false") 0 w
  | VHash keys values =>
      let w := write [123] (Z.lor NewlineAfter IndentAfter) w in
      let w :=
        (fix members (values : list value) (names : list (list Z)) (first : bool) (w : Writer) : Writer :=
           match names, values with
           | [], _ => w
           | k :: names, x :: values =>
               let w := if first then w else write [44] NewlineAfter w in
               members values names false (visit x (write [58] 0 (visitString k w)))
           | _, [] =>
               (fix nulls (names : list (list Z)) (first : bool) (w : Writer) : Writer :=
                  match names with
                  | [] => w
                  | k :: names =>
                      let w := if first then w else write [44] NewlineAfter w in
                      nulls names false (write (lit "null") 0 (write [58] 0 (visitString k w)))
                  end) names first w
           end) values (m_names keys) true w in
      write [125] (Z.lor NewlineBefore UndentBefore) w
  | VVector vv =>
      let w := write [91] (Z.lor NewlineAfter IndentAfter) w in
      let w :=
        (fix elements (vv : list value) (first : bool) (w : Writer) : Writer :=
           match vv with
           | [] => w
           | x :: vv => elements vv false (visit x (if first then w else write [44] NewlineAfter w))
           end) vv true w in
      write [93] (Z.lor NewlineBefore UndentBefore) w
  end.
End Write.

Definition to_json {F} `{!Double F} (lineLength indentStep : Z) (v : value F) : list Z :=
  m_sink (visit v (setIndentStep indentStep (setLineLength lineLength Writer_new))).

(** ** Termination *)

Ltac unfold_loops strtod :=
  cbn [parse array_loop hash_loop]; fold (array_loop strtod) (hash_loop strtod) (parse strtod);
  unfold array_round, hash_round, parseArray, parseHash.

Section Total.
Context {F : Type} (strtod : list Z -> F * nat * bool).

Lemma skip_length s : (length (skipWhitespace s) <= length s)%nat.
Proof. induction s as [|c s IH]; simpl; [lia|]. destruct (is_ws c); simpl; lia. Qed.

Lemma string_loop_length s v r t : parseString_loop s v = Ok (t, r) -> (length r < length s)%nat.
Proof.
  revert v. induction s as [s IH] using (induction_ltof1 _ (@length Z)). unfold ltof in IH. intros v. destruct s as [|ch s1]; [done|].
  cbn [parseString_loop]. destruct (ch =? 34); [intros [= _ <-]; simpl; lia|]. destruct (ch =? 92).
  - destruct s1 as [|e s2]; [done|]. destruct (escape e) as [x|].
    + intros H. apply IH in H; simpl in *; lia.
    + destruct (e =? 117); [|done]. destruct (parseUnicodeEscape s2); [|done]. destruct s2 as [|? [|? [|? [|? s3]]]]; try done.
      intros H. apply IH in H; simpl in *; lia.
  - destruct (ch <? 32); [done|]. intros H. apply IH in H; simpl in *; lia.
Qed.
Lemma parseString_length s r t : parseString s = Ok (t, r) -> (length r < length s)%nat.
Proof. intros H. apply string_loop_length in H. destruct s; simpl in *; lia. Qed.
Lemma keyword_length kw s r : parseKeyword kw s = Ok r -> (length r + length kw = length s)%nat.
Proof.
  revert s. induction kw as [|k kw IH]; intros s; cbn [parseKeyword].
  - destruct s as [|ch s]; [intros [= <-]; done|]. destruct (is_identifier ch); [done|]. intros [= <-]. simpl. lia.
  - destruct s as [|ch s]; [done|]. destruct (negb (ch =? k)); [done|]. intros H. apply IH in H. simpl. lia.
Qed.
Lemma number_length c s v r : is_number_char c = true -> parseNumber strtod (c :: s) = Ok (v, r) -> (length r < length (c :: s))%nat.
Proof.
  intros Hc. unfold parseNumber. cbn [skip_while]. rewrite Hc. cbn [take drop]. destruct (number_of_text _ _); [|done]. cbn.
  intros [= _ <-]. rewrite length_drop. simpl. lia.
Qed.

Definition finishes (s : list Z) (r : outcome json_error (value F * list Z)) : Prop :=
  match r with
  | Ok (_, rest) => (length rest < length s)%nat
  | Throw OutOfFuel => False
  | Throw _ => True
  end.

Lemma tail_length {A} (l : list A) : length (tail l) = (length l - 1)%nat.
Proof. destruct l; simpl; lia. Qed.
Lemma parseChar2_nonempty a b s c : parseChar2 a b s = Ok c -> (0 < length s)%nat.
Proof. destruct s; simpl; [done|lia]. Qed.
Lemma parseChar_nonempty a s c : parseChar a s = Ok c -> (0 < length s)%nat.
Proof. destruct s; simpl; [done|lia]. Qed.
Lemma parseChar_fuel a s : parseChar a s <> Throw OutOfFuel.
Proof. destruct s; simpl; [done|]. by destruct (negb _). Qed.
Lemma parseChar2_fuel a b s : parseChar2 a b s <> Throw OutOfFuel.
Proof. destruct s; simpl; [done|]. destruct (_ =? _); [done|]. by destruct (_ =? _). Qed.
Lemma parseString_fuel s : parseString s <> Throw OutOfFuel.
Proof.
  unfold parseString. generalize (tail s) (@nil Z). clear s. intros s. induction s as [s IH] using (induction_ltof1 _ (@length Z)). unfold ltof in IH.
  intros v. destruct s as [|ch s1]; [done|]. cbn [parseString_loop]. destruct (ch =? 34); [done|]. destruct (ch =? 92).
  - destruct s1 as [|e s2]; [done|]. destruct (escape e) as [x|]; [apply IH; simpl; lia|].
    destruct (e =? 117); [|done]. unfold parseUnicodeEscape. destruct (unicode_loop 4 0 s2) as [u|err] eqn:E.
    + destruct s2 as [|? [|? [|? [|? s3]]]]; try done. apply IH. simpl. lia.
    + intros [= ->]. revert E. generalize 4%nat 0. clear. induction s2 as [|c s2 IH]; intros [|n] z; cbn [unicode_loop]; try done.
      destruct (hex_value c); [|done]. apply IH.
  - destruct (ch <? 32); [done|]. apply IH. simpl. lia.
Qed.
Lemma keyword_fuel kw s : parseKeyword kw s <> Throw OutOfFuel.
Proof.
  revert s. induction kw as [|k kw IH]; intros s; cbn [parseKeyword]; destruct s as [|ch s]; try done; [by destruct (is_identifier ch)|].
  destruct (negb _); [done|]. apply IH.
Qed.

Lemma parse_total fuel :
  (forall s, (2 * length s + 2 <= fuel)%nat -> finishes s (parse strtod fuel s)) /\
  (forall vs s, (2 * length s + 3 <= fuel)%nat -> finishes s (array_loop strtod fuel vs s)) /\
  (forall h s, (2 * length s + 3 <= fuel)%nat -> finishes s (hash_loop strtod fuel h s)).
Proof.
  induction fuel as [|fuel (IHp & IHa & IHh)]; [split; [lia|split; lia]|]. split; [|split].
  - intros s Hf. unfold_loops strtod. pose proof (skip_length s) as Hs. destruct (skipWhitespace s) as [|ch s1]; [done|]. cbn [tail length] in *.
    pose proof (skip_length s1) as Hs1.
    destruct (ch =? 91); [|destruct (ch =? 123); [|destruct (ch =? 34); [|destruct (ch =? 110); [|destruct (ch =? 116); [|destruct (ch =? 102);
      [|destruct ((ch =? 45) || ((48 <=? ch) && (ch <=? 57))) eqn:En; [|done]]]]]]].
    + destruct (skipWhitespace s1) as [|c s2]; [done|]. cbn [length] in Hs1. destruct (negb (c =? 93)); [|simpl; lia].
      specialize (IHa [] (c :: s2) ltac:(simpl; lia)). unfold finishes in *. destruct (array_loop _ _ _ _) as [[v r]|[]]; try done. cbn [length] in *. lia.
    + destruct (skipWhitespace s1) as [|c s2]; [done|]. cbn [length] in Hs1. destruct (negb (c =? 125)); [|simpl; lia].
      specialize (IHh Hash_new (c :: s2) ltac:(simpl; lia)). unfold finishes in *. destruct (hash_loop _ _ _ _) as [[v r]|[]]; try done. cbn [length] in *. lia.
    + pose proof (parseString_fuel (ch :: s1)). pose proof (parseString_length (ch :: s1)) as HL. destruct (parseString (ch :: s1)) as [[t r]|[]]; try done.
      specialize (HL _ _ eq_refl). simpl in *. lia.
    + pose proof (keyword_fuel (lit "null") (ch :: s1)). pose proof (keyword_length (lit "null") (ch :: s1)) as HL. destruct (parseKeyword _ _) as [r|[]]; try done.
      specialize (HL _ eq_refl). change (length (lit "null")) with 4%nat in HL. simpl in *. lia.
    + pose proof (keyword_fuel (lit "true") (ch :: s1)). pose proof (keyword_length (lit "true") (ch :: s1)) as HL. destruct (parseKeyword _ _) as [r|[]]; try done.
      specialize (HL _ eq_refl). change (length (lit "true")) with 4%nat in HL. simpl in *. lia.
    + pose proof (keyword_fuel (lit "false") (ch :: s1)). pose proof (keyword_length (lit "false") (ch :: s1)) as HL. destruct (parseKeyword _ _) as [r|[]]; try done.
      specialize (HL _ eq_refl). change (length (lit "false")) with 5%nat in HL. simpl in *. lia.
    + assert (Hn : is_number_char ch = true) by (unfold is_number_char; lia). pose proof (fun v r => number_length ch s1 v r Hn) as HL.
      unfold parseNumber in *. unfold number_of_text in *. destruct (strToInt32 _); [specialize (HL _ _ eq_refl); simpl in *; lia|].
      destruct (strToFloat _ _).1; [specialize (HL _ _ eq_refl); simpl in *; lia|done].
  - intros vs s Hf. unfold_loops strtod. pose proof (IHp s ltac:(lia)) as H1. destruct (parse _ _ _) as [[v r]|[]]; try done. cbn [obind fst snd finishes] in *.
    pose proof (skip_length r). pose proof (parseChar2_fuel 44 93 (skipWhitespace r)). pose proof (parseChar2_nonempty 44 93 (skipWhitespace r)) as HN.
    destruct (parseChar2 _ _ _) as [comma|[]]; try done. cbn [obind]. specialize (HN _ eq_refl). pose proof (tail_length (skipWhitespace r)). destruct comma; [|simpl; lia].
    specialize (IHa (pushBackNew vs v) (tail (skipWhitespace r)) ltac:(lia)). unfold finishes in *. destruct (array_loop _ _ _ _) as [[v' r']|[]]; try done. lia.
  - intros h s Hf. unfold_loops strtod. pose proof (parseChar_fuel 34 s). destruct (parseChar 34 s) as [u|[]]; try done. cbn [obind].
    pose proof (parseString_fuel s). pose proof (parseString_length s) as HL. destruct (parseString s) as [[t r]|[]]; try done. cbn [obind fst snd].
    specialize (HL _ _ eq_refl). destruct (addMaybe (m_keys h) t) as [keys index]. pose proof (skip_length r).
    pose proof (parseChar_fuel 58 (skipWhitespace r)). destruct (parseChar 58 (skipWhitespace r)) as [u'|[]]; try done. cbn [obind].
    pose proof (tail_length (skipWhitespace r)). pose proof (IHp (tail (skipWhitespace r)) ltac:(lia)) as HP.
    destruct (parse _ _ _) as [[v r2]|[]]; try done. cbn [obind fst snd finishes] in *.
    pose proof (skip_length r2). pose proof (parseChar2_fuel 44 125 (skipWhitespace r2)). pose proof (parseChar2_nonempty 44 125 (skipWhitespace r2)) as HN.
    destruct (parseChar2 _ _ _) as [comma|[]]; try done. cbn [obind]. specialize (HN _ eq_refl). pose proof (tail_length (skipWhitespace r2)). destruct comma; [|simpl; lia].
    pose proof (skip_length (tail (skipWhitespace r2))).
    match goal with |- finishes _ (hash_loop _ _ ?h' ?s') => specialize (IHh h' s' ltac:(lia)) end.
    unfold finishes in *. destruct (hash_loop _ _ _ _) as [[v' r']|[]]; try done. lia.
Qed.

(** More fuel does not change a result. *)
Definition stable {A} (r r' : outcome json_error A) : Prop := r = Throw OutOfFuel \/ r' = r.
Lemma stable_refl {A} (r : outcome json_error A) : stable r r.
Proof. by right. Qed.
Lemma stable_bind {A B} (m m' : outcome json_error A) (k k' : A -> outcome json_error B) :
  stable m m' -> (forall a, stable (k a) (k' a)) -> stable (obind m k) (obind m' k').
Proof. intros [->| ->] Hk; [by left|]. destruct m as [a|e]; [apply Hk|by right]. Qed.

Lemma parse_stable fuel :
  (forall s, stable (parse strtod fuel s) (parse strtod (S fuel) s)) /\
  (forall vs s, stable (array_loop strtod fuel vs s) (array_loop strtod (S fuel) vs s)) /\
  (forall h s, stable (hash_loop strtod fuel h s) (hash_loop strtod (S fuel) h s)).
Proof.
  induction fuel as [|fuel (IHp & IHa & IHh)]; [split; [by left|split; by left]|]. split; [|split].
  - intros s. remember (S fuel) as fuel1 eqn:E. unfold_loops strtod. rewrite E at 1. unfold_loops strtod.
    repeat (match goal with |- stable (match ?x with _ => _ end) _ => destruct x end; try apply stable_refl); subst; auto.
  - intros vs s. remember (S fuel) as fuel1 eqn:E. unfold_loops strtod. rewrite E at 1. unfold_loops strtod. subst.
    apply stable_bind; [apply IHp|intros a]. apply stable_bind; [apply stable_refl|intros [|]]; [apply IHa|apply stable_refl].
  - intros h s. remember (S fuel) as fuel1 eqn:E. unfold_loops strtod. rewrite E at 1. unfold_loops strtod. subst.
    apply stable_bind; [apply stable_refl|intros _]. apply stable_bind; [apply stable_refl|intros r].
    destruct (addMaybe (m_keys h) r.1). apply stable_bind; [apply stable_refl|intros _]. apply stable_bind; [apply IHp|intros a].
    apply stable_bind; [apply stable_refl|intros [|]]; [apply IHh|apply stable_refl].
Qed.
Lemma parse_mono fuel fuel' s r : (fuel <= fuel')%nat -> parse strtod fuel s = r -> r <> Throw OutOfFuel -> parse strtod fuel' s = r.
Proof.
  intros Hle Hp Hr. induction Hle as [|fuel' Hle IH]; [done|]. destruct (parse_stable fuel') as [H _].
  destruct (H s) as [H1|H1]; congruence.
Qed.
Lemma array_mono fuel fuel' vs s r : (fuel <= fuel')%nat -> array_loop strtod fuel vs s = Ok r -> array_loop strtod fuel' vs s = Ok r.
Proof.
  intros Hle Hp. induction Hle as [|fuel' Hle IH]; [done|]. destruct (parse_stable fuel') as (_ & H & _).
  destruct (H vs s) as [H1|H1]; congruence.
Qed.
Lemma hash_mono fuel fuel' h s r : (fuel <= fuel')%nat -> hash_loop strtod fuel h s = Ok r -> hash_loop strtod fuel' h s = Ok r.
Proof.
  intros Hle Hp. induction Hle as [|fuel' Hle IH]; [done|]. destruct (parse_stable fuel') as (_ & _ & H).
  destruct (H h s) as [H1|H1]; congruence.
Qed.
End Total.

(** ** Round trip *)

Section Texts.
Context {F : Type} (strtod : list Z -> F * nat * bool).

Notation spaces := (Forall (fun c => is_ws c = true)).
Lemma skip_app ws s : spaces ws -> skipWhitespace (ws ++ s) = skipWhitespace s.
Proof. induction 1 as [|c ws Hc _ IH]; [done|]. cbn [app skipWhitespace]. by rewrite Hc. Qed.
Lemma skip_idem s : skipWhitespace (skipWhitespace s) = skipWhitespace s.
Proof. induction s as [|c s IH]; [done|]. cbn [skipWhitespace]. destruct (is_ws c) eqn:E; [done|]. cbn [skipWhitespace]. by rewrite E. Qed.
Lemma skip_none c s : is_ws c = false -> skipWhitespace (c :: s) = c :: s.
Proof. intros H. cbn [skipWhitespace]. by rewrite H. Qed.
Lemma parse_skip fuel s s' : skipWhitespace s = skipWhitespace s' -> parse strtod fuel s = parse strtod fuel s'.
Proof. intros H. destruct fuel; [done|]. unfold_loops strtod. by rewrite H. Qed.

(** *** Strings *)

Definition char_ok (c : Z) : Prop := 0 <= c < 256.

(** Control characters: the escape is the one the parser knows. *)
Definition quote_check (c : Z) : bool :=
  match quote_char c with
  | [b; e] => (b =? 92) && bool_decide (escape e = Some c)
  | [b; u; h1; h2; h3; h4] =>
      (b =? 92) && (u =? 117)
      && match parseUnicodeEscape [h1; h2; h3; h4] with Ok x => bool_decide (append 0 x = [c]) | Throw _ => false end
  | _ => false
  end.
Lemma quote_check_all : forallb quote_check (seqZ 0 32) = true.
Proof. vm_compute. reflexivity. Qed.
Lemma unicode_app n z a s x : length a = n -> unicode_loop n z a = Ok x -> unicode_loop n z (a ++ s) = Ok x.
Proof.
  revert z a. induction n as [|n IH]; intros z [|c a] Hl; try done. cbn [app unicode_loop]. destruct (hex_value c); [|done].
  apply IH. by injection Hl.
Qed.
Lemma quote_control c s v : 0 <= c < 32 -> parseString_loop (quote_char c ++ s) v = parseString_loop s (v ++ [c]).
Proof.
  intros Hc. assert (H : quote_check c = true).
  { apply (proj1 (forallb_forall _ _) quote_check_all). apply list_elem_of_In, elem_of_seqZ. lia. }
  unfold quote_check in H. destruct (quote_char c) as [|b [|e [|h1 [|h2 [|h3 [|h4 [|]]]]]]]; try done.
  - apply andb_true_iff in H as [Hb He]. apply Z.eqb_eq in Hb as ->. apply bool_decide_eq_true in He. cbn [app parseString_loop Z.eqb Pos.eqb]. by rewrite He.
  - apply andb_true_iff in H as [H Hx]. apply andb_true_iff in H as [Hb Hu]. apply Z.eqb_eq in Hb as ->. apply Z.eqb_eq in Hu as ->.
    destruct (parseUnicodeEscape _) as [x|] eqn:E; [|done]. apply bool_decide_eq_true in Hx.
    pose proof (unicode_app 4 0 [h1; h2; h3; h4] s x eq_refl E) as E'. cbn [app parseString_loop Z.eqb Pos.eqb] in *.
    assert (escape 117 = None) as -> by done. unfold parseUnicodeEscape. rewrite E'. by rewrite Hx.
Qed.
Lemma parse_quoted_loop str s v : Forall char_ok str ->
  parseString_loop (concat (map quote_char str) ++ [34] ++ s) v = Ok (v ++ str, s).
Proof.
  intros H. revert v. induction H as [|c str Hc H IH]; intros v; [by cbn; rewrite app_nil_r|]. cbn [map concat]. rewrite <- app_assoc.
  unfold char_ok in Hc. transitivity (parseString_loop (concat (map quote_char str) ++ [34] ++ s) (v ++ [c])); [|by rewrite IH, <- app_assoc].
  destruct (decide (c < 32)) as [Hl|Hl]; [apply quote_control; lia|]. unfold quote_char.
  destruct (Z.eqb_spec c 92) as [->|H92]; [reflexivity|]. destruct (Z.eqb_spec c 34) as [->|H34]; [reflexivity|].
  rewrite (proj2 (Z.leb_le 32 c)) by lia. cbn [app parseString_loop].
  rewrite (proj2 (Z.eqb_neq c 34)), (proj2 (Z.eqb_neq c 92)), (proj2 (Z.ltb_ge c 32)) by lia. done.
Qed.
Lemma parse_quoted str s : Forall char_ok str -> parseString (quoted str ++ s) = Ok (str, s).
Proof. intros H. unfold parseString, quoted. cbn [app tail]. rewrite <- app_assoc. by rewrite (parse_quoted_loop str s []). Qed.

(** *** Tokens *)

(** The next byte ends a number or keyword. *)
Definition boundary (s : list Z) : Prop :=
  match s with
  | [] => True
  | c :: _ => is_identifier c = false /\ is_number_char c = false
  end.
(** The text is parsed as a value, and what follows is left. *)
Definition reads (text : list Z) (v : value F) : Prop :=
  forall rest, boundary rest -> exists fuel, parse strtod fuel (text ++ rest) = Ok (v, rest).

Lemma reads_spaces ws text v : spaces ws -> reads text v -> reads (ws ++ text) v.
Proof.
  intros Hw Hr rest Hb. destruct (Hr rest Hb) as [fuel Hf]. exists fuel. rewrite <- app_assoc, <- Hf. apply parse_skip. by rewrite skip_app.
Qed.
Lemma keyword_app kw rest : boundary rest -> parseKeyword kw (kw ++ rest) = Ok rest.
Proof.
  intros Hb. induction kw as [|k kw IH]; cbn [parseKeyword app]; [|by rewrite Z.eqb_refl].
  destruct rest as [|c rest]; [done|]. destruct Hb as [Hb _]. by rewrite Hb.
Qed.
Lemma reads_keyword kw v : (kw, v) ∈ [(lit "null", VNull); (lit "true", VBoolean true); (lit "false", VBoolean false)] -> reads kw v.
Proof.
  intros Hin rest Hb. exists 1%nat. pose proof (keyword_app kw rest Hb) as HK.
  repeat (apply elem_of_cons in Hin as [[= -> ->]|Hin]; [|]); [..|by apply not_elem_of_nil in Hin].
  all: cbn [parse lit map list_ascii_of_string app skipWhitespace] in *; unfold is_ws; vm_compute (Z.of_N _) in *; cbn [Z.eqb Pos.eqb orb] in *.
  all: rewrite HK; done.
Qed.
Lemma reads_string str : Forall char_ok str -> reads (quoted str) (VString str).
Proof.
  intros Hs rest _. exists 1%nat. unfold_loops strtod. assert (skipWhitespace (quoted str ++ rest) = quoted str ++ rest) as -> by done.
  pose proof (parse_quoted str rest Hs) as HP. unfold quoted in *. cbn [app] in *. cbn [Z.eqb Pos.eqb]. rewrite HP. done.
Qed.

Lemma skip_while_all p a b : Forall (fun c => p c = true) a -> match b with [] => True | c :: _ => p c = false end -> skip_while p (a ++ b) = length a.
Proof.
  intros H Hb. induction H as [|c a Hc _ IH]; cbn [app skip_while length]; [destruct b as [|c b]; [done|]; simpl; by rewrite Hb|]. by rewrite Hc, IH.
Qed.
(** A text of number characters *)
Definition number_text (t : list Z) : Prop :=
  Forall (fun c => is_number_char c = true) t /\
  match t with c :: _ => (c =? 45) || ((48 <=? c) && (c <=? 57)) = true | [] => False end.
Lemma reads_number t v : number_text t -> number_of_text strtod t = Ok v -> reads t v.
Proof.
  intros [Hn Hh] Hv rest Hb. exists 1%nat. destruct t as [|c t]; [done|]. unfold_loops strtod.
  assert (skipWhitespace ((c :: t) ++ rest) = (c :: t) ++ rest) as -> by (apply skip_none; unfold is_ws; lia).
  cbn [app]. rewrite (proj2 (Z.eqb_neq c 91)), (proj2 (Z.eqb_neq c 123)), (proj2 (Z.eqb_neq c 34)), (proj2 (Z.eqb_neq c 110)),
    (proj2 (Z.eqb_neq c 116)), (proj2 (Z.eqb_neq c 102)) by lia. rewrite Hh.
  unfold parseNumber. change (c :: t ++ rest) with ((c :: t) ++ rest).
  rewrite skip_while_all; [|done|destruct rest; [done|by destruct Hb]]. rewrite take_app_length, drop_app_length. by rewrite Hv.
Qed.
Lemma int_text_number i : in_s 32 i -> number_text (show_int i) /\ number_of_text strtod (show_int i) = Ok (VInteger i).
Proof.
  intros Hi. split; [|unfold number_of_text, strToInt32; by rewrite (strToInteger_show_int i 32 LONG_BITS) by (unfold LONG_BITS, in_s in *; lia)].
  rewrite show_int_text by (unfold in_s in *; lia). unfold in_s in Hi.
  assert (Hd : forall n, 0 <= n < 2 ^ 64 -> Forall (fun c => is_number_char c = true) (dec n) /\ exists c t, dec n = c :: t /\ 48 <= c <= 57).
  { intros n Hn. destruct (dec_spec n Hn) as (_ & H2 & H3). split.
    - eapply Forall_impl; [exact H2|]. intros c Hc. unfold charIsDigit in Hc. unfold is_number_char. lia.
    - destruct (dec n) as [|c t]; [done|]. exists c, t. split; [done|]. apply Forall_cons in H2 as [H2 _]. unfold charIsDigit in H2. lia. }
  unfold int_text. destruct (Z.leb_spec 0 i).
  - destruct (Hd i ltac:(lia)) as (H1 & c & t & E & Hc). split; [done|]. rewrite E. lia.
  - destruct (Hd (- i) ltac:(lia)) as (H1 & c & t & E & Hc). split; [by constructor|done].
Qed.

(** *** Layout *)

Lemma spaces_boundary ws c rest : spaces ws -> is_identifier c = false -> is_number_char c = false -> boundary (ws ++ c :: rest).
Proof.
  intros Hw H1 H2. destruct Hw as [|x ws Hx Hw]; [done|]. cbn. unfold is_ws in Hx. unfold is_identifier, is_number_char. lia.
Qed.
Lemma parse_starts fuel s r : parse strtod fuel s = Ok r -> exists c s', skipWhitespace s = c :: s' /\ c <> 93.
Proof.
  destruct fuel as [|fuel]; [done|]. unfold_loops strtod. destruct (skipWhitespace s) as [|c s']; [done|]. intros H. exists c, s'. split; [done|]. by intros ->.
Qed.

(** What follows the first item of an array or hash: the items, then the bracket *)
Inductive tail_text (close : Z) : list (list Z -> Prop) -> list Z -> Prop :=
  | tail_end ws : spaces ws -> tail_text close [] (ws ++ [close])
  | tail_item ws (P : list Z -> Prop) Ps item t :
      spaces ws -> P item -> tail_text close Ps t -> tail_text close (P :: Ps) (ws ++ [44] ++ item ++ t).
Lemma tail_boundary close Ps t rest : close = 93 \/ close = 125 -> tail_text close Ps t -> boundary (t ++ rest).
Proof.
  intros Hc [ws Hw|ws P Ps' item t' Hw _ _]; rewrite <- app_assoc; apply spaces_boundary; try done; by destruct Hc as [->| ->].
Qed.

(** The loops, after an item *)
Definition array_next (fuel : nat) (values : list (value F)) (s : list Z) : outcome json_error (value F * list Z) :=
  let s := skipWhitespace s in
  let! comma := parseChar2 44 93 s in
  if comma then array_loop strtod fuel values (tail s) else Ok (VVector values, tail s).
Definition hash_next (fuel : nat) (names : Hash F) (s : list Z) : outcome json_error (value F * list Z) :=
  let s := skipWhitespace s in
  let! comma := parseChar2 44 125 s in
  if comma then hash_loop strtod fuel names (skipWhitespace (tail s)) else Ok (VHash (m_keys names) (m_values names), tail s).
Lemma array_next_mono fuel fuel' vs s r : (fuel <= fuel')%nat -> array_next fuel vs s = Ok r -> array_next fuel' vs s = Ok r.
Proof.
  intros Hle. unfold array_next. destruct (parseChar2 _ _ _) as [[|]|]; [|done|done]. by apply array_mono.
Qed.
Lemma hash_next_mono fuel fuel' h s r : (fuel <= fuel')%nat -> hash_next fuel h s = Ok r -> hash_next fuel' h s = Ok r.
Proof.
  intros Hle. unfold hash_next. destruct (parseChar2 _ _ _) as [[|]|]; [|done|done]. by apply hash_mono.
Qed.
Lemma next_end ws close rest : spaces ws -> is_ws close = false -> skipWhitespace ((ws ++ [close]) ++ rest) = close :: rest.
Proof. intros Hw Hc. rewrite <- app_assoc, skip_app by done. by apply skip_none. Qed.
Lemma next_comma ws t rest : spaces ws -> skipWhitespace ((ws ++ [44] ++ t) ++ rest) = 44 :: t ++ rest.
Proof. intros Hw. rewrite <- app_assoc, skip_app by done. by apply skip_none. Qed.

Definition element (v : value F) (text : list Z) : Prop := reads text v.
Lemma array_item acc item v t rest r :
  reads item v -> boundary (t ++ rest) -> (exists fuel, array_next fuel (acc ++ [v]) (t ++ rest) = Ok r) ->
  exists fuel, array_loop strtod fuel acc (item ++ t ++ rest) = Ok r.
Proof.
  intros Hv Hb [fuel2 H2]. destruct (Hv _ Hb) as [fuel1 H1]. exists (S (fuel1 + fuel2)). unfold_loops strtod. fold (parse strtod) (array_loop strtod).
  rewrite (parse_mono strtod fuel1 (fuel1 + fuel2) _ _ ltac:(lia) H1) by done. cbn [obind fst snd].
  apply (array_next_mono fuel2 (fuel1 + fuel2)) in H2; [|lia]. exact H2.
Qed.
Lemma array_tail vs t : tail_text 93 (map element vs) t ->
  forall acc rest, exists fuel, array_next fuel acc (t ++ rest) = Ok (VVector (acc ++ vs), rest).
Proof.
  revert t. induction vs as [|v vs IH]; cbn [map]; inversion 1 as [ws Hw|ws P Ps item t' Hw Hi Ht]; subst; intros acc rest.
  - exists O. unfold array_next. rewrite (next_end ws 93) by done. by rewrite app_nil_r.
  - destruct (array_item acc item v t' rest (VVector (acc ++ v :: vs), rest)) as [fuel Hf]; [done|by apply (tail_boundary 93 (map element vs)); [left|]| |].
    { destruct (IH t' Ht (acc ++ [v]) rest) as [fuel Hf]. exists fuel. by rewrite Hf, <- app_assoc. }
    exists fuel. unfold array_next. rewrite next_comma by done. cbn [parseChar2 Z.eqb Pos.eqb obind tail]. by rewrite <- app_assoc.
Qed.
Lemma reads_array vs ws text : spaces ws ->
  match vs with
  | [] => exists ws', spaces ws' /\ text = ws' ++ [93]
  | v :: vs => exists item t, text = item ++ t /\ reads item v /\ tail_text 93 (map element vs) t
  end -> reads (ws ++ [91] ++ text) (VVector vs).
Proof.
  intros Hw Ht. apply reads_spaces; [done|]. intros rest _. destruct vs as [|v vs].
  - destruct Ht as (ws' & Hw' & ->). exists 1%nat. unfold_loops strtod; cbn [app tail]. rewrite (skip_none 91) by done. cbn [app Z.eqb Pos.eqb tail].
    by rewrite (next_end ws' 93) by done.
  - destruct Ht as (item & t & -> & Hi & Ht). pose proof (tail_boundary 93 _ t rest (or_introl eq_refl) Ht) as Hb.
    destruct (array_item [] item v t rest (VVector (v :: vs), rest) Hi Hb) as [fuel Hf]; [by apply (array_tail vs t Ht [v])|].
    destruct (Hi _ Hb) as [fuel1 H1]. apply parse_starts in H1 as (c & s' & H1 & Hc). exists (S fuel). unfold_loops strtod; cbn [app tail]. fold (array_loop strtod).
    rewrite (skip_none 91) by done. cbn [app Z.eqb Pos.eqb tail]. rewrite <- app_assoc, H1. rewrite (proj2 (Z.eqb_neq c 93)) by done. cbn [negb].
    rewrite <- Hf. destruct fuel; [done|]. unfold_loops strtod. fold (parse strtod) (array_loop strtod). f_equal. apply parse_skip. by rewrite <- H1, skip_idem.
Qed.

Definition member (kv : list Z * value F) (text : list Z) : Prop :=
  exists ws1 ws2 t, spaces ws1 /\ spaces ws2 /\ Forall char_ok kv.1 /\ text = ws1 ++ quoted kv.1 ++ ws2 ++ [58] ++ t /\ reads t kv.2.
Lemma hash_item h item kv t rest r :
  member kv item -> boundary (t ++ rest) -> (exists fuel, hash_next fuel (hash_setNew h kv.1 kv.2) (t ++ rest) = Ok r) ->
  exists fuel, hash_loop strtod fuel h (skipWhitespace (item ++ t ++ rest)) = Ok r.
Proof.
  intros (ws1 & ws2 & t1 & Hw1 & Hw2 & Hk & -> & Hv) Hb [fuel2 H2]. destruct (Hv _ Hb) as [fuel1 H1]. exists (S (fuel1 + fuel2)).
  rewrite <- app_assoc, skip_app by done. rewrite <- app_assoc. assert (HS : forall x, skipWhitespace (quoted kv.1 ++ x) = quoted kv.1 ++ x) by done. rewrite HS.
  unfold_loops strtod. fold (parse strtod) (hash_loop strtod). assert (HC : forall x, parseChar 34 (quoted kv.1 ++ x) = Ok tt) by done. rewrite HC. cbn [obind].
  rewrite parse_quoted by done. cbn [obind fst snd]. unfold hash_setNew in H2. destruct (addMaybe (m_keys h) kv.1) as [keys index].
  rewrite <- !app_assoc, skip_app by done. cbn [app]. rewrite (skip_none 58) by done. cbn [parseChar Z.eqb Pos.eqb negb obind tail].
  rewrite (parse_mono strtod fuel1 (fuel1 + fuel2) _ _ ltac:(lia) H1) by done. cbn [obind fst snd].
  apply (hash_next_mono fuel2 (fuel1 + fuel2)) in H2; [|lia]. exact H2.
Qed.
Lemma hash_tail kvs t : tail_text 125 (map member kvs) t ->
  forall h rest, let h' := fold_left (fun h kv => hash_setNew h kv.1 kv.2) kvs h in
  exists fuel, hash_next fuel h (t ++ rest) = Ok (VHash (m_keys h') (m_values h'), rest).
Proof.
  revert t. induction kvs as [|kv kvs IH]; cbn [map]; inversion 1 as [ws Hw|ws P Ps item t' Hw Hi Ht]; subst; intros h rest; [|set (h' := fold_left _ _ h)].
  - exists O. unfold hash_next. by rewrite (next_end ws 125) by done.
  - destruct (hash_item h item kv t' rest (VHash (m_keys h') (m_values h'), rest)) as [fuel Hf]; [done|by apply (tail_boundary 125 (map member kvs)); [right|]| |].
    { apply (IH t' Ht). }
    exists fuel. unfold hash_next. rewrite next_comma by done. cbn [parseChar2 Z.eqb Pos.eqb obind tail]. by rewrite <- app_assoc.
Qed.
Lemma reads_hash kvs ws text : spaces ws ->
  match kvs with
  | [] => exists ws', spaces ws' /\ text = ws' ++ [125]
  | kv :: kvs => exists item t, text = item ++ t /\ member kv item /\ tail_text 125 (map member kvs) t
  end -> reads (ws ++ [123] ++ text) (VHash (m_keys (hash_of kvs)) (m_values (hash_of kvs))).
Proof.
  intros Hw Ht. apply reads_spaces; [done|]. intros rest _. destruct kvs as [|kv kvs].
  - destruct Ht as (ws' & Hw' & ->). exists 1%nat. unfold_loops strtod; cbn [app tail]. rewrite (skip_none 123) by done. cbn [app Z.eqb Pos.eqb tail].
    by rewrite (next_end ws' 125) by done.
  - destruct Ht as (item & t & -> & Hi & Ht). pose proof (tail_boundary 125 _ t rest (or_intror eq_refl) Ht) as Hb.
    destruct (hash_item Hash_new item kv t rest _ Hi Hb (hash_tail kvs t Ht _ rest)) as [fuel Hf].
    destruct Hi as (ws1 & ws2 & t1 & Hw1 & Hw2 & Hk & -> & Hv). exists (S fuel). unfold_loops strtod; cbn [app tail]. fold (hash_loop strtod).
    rewrite (skip_none 123) by done. cbn [app Z.eqb Pos.eqb tail]. rewrite <- app_assoc.
    assert (exists s', skipWhitespace ((ws1 ++ quoted kv.1 ++ ws2 ++ [58] ++ t1) ++ t ++ rest) = 34 :: s') as [s' E].
    { rewrite <- app_assoc, skip_app by done. by eexists. }
    cbn [app] in *. rewrite E in *. exact Hf.
Qed.
End Texts.

(** *** The writer *)

Section RoundTrip.
Context {F : Type} `{!Double F} (strtod : list Z -> F * nat * bool).
Notation spaces := (Forall (fun c => is_ws c = true)).

Lemma indent_spaces fuel n : spaces (indent_loop fuel n).
Proof.
  revert n. induction fuel as [|fuel IH]; intros n; cbn [indent_loop]; [done|]. destruct (0 <? n); [|done]. apply Forall_app. split; [|apply IH].
  by apply Forall_replicate.
Qed.
(** The function appends a text with the property. *)
Definition emits (f : Writer -> Writer) (T : list Z -> Prop) : Prop := forall w, exists text, m_sink (f w) = m_sink w ++ text /\ T text.
Definition spaced (str text : list Z) : Prop := exists ws, spaces ws /\ text = ws ++ str.
Lemma emits_write str flags : emits (write str flags) (spaced str).
Proof.
  intros [l i sink cl ci nl]. unfold write. cbn [m_sink]. destruct (_ && _).
  - eexists. rewrite <- app_assoc. split; [reflexivity|]. eexists. split; [|reflexivity]. constructor; [done|apply indent_spaces].
  - exists str. split; [done|]. by exists [].
Qed.
Lemma emits_reads_write str flags v : reads strtod str v -> emits (write str flags) (fun t => reads strtod t v).
Proof. intros Hr w. destruct (emits_write str flags w) as (t & H1 & ws & Hw & ->). eexists. split; [exact H1|]. by apply reads_spaces. Qed.

(** What a reader gets: numbers are parsed from their text, a hash is built by
    assigning its members in order; errors and values of other types become null. *)
Fixpoint image (v : value F) : value F :=
  match v with
  | VNull | VError _ _ | VOther => VNull
  | VString s => VString s
  | VInteger i => VInteger i
  | VFloat f => match number_of_text strtod (format_float_25g f) with Ok v => v | Throw _ => VNull end
  | VBoolean b => VBoolean b
  | VHash keys values =>
      let h := hash_of ((fix members (values : list (value F)) (names : list (list Z)) : list (list Z * value F) :=
                           match values, names with
                           | x :: values, k :: names => (k, image x) :: members values names
                           | [], _ => map (fun k => (k, VNull)) names
                           | _, [] => []
                           end) values (m_names keys)) in
      VHash (m_keys h) (m_values h)
  | VVector vv => VVector (map image vv)
  end.
Definition float_fits (f : F) : Prop :=
  number_text (format_float_25g f) /\ number_of_text strtod (format_float_25g f) <> Throw FileFormatException.
Fixpoint fits (v : value F) : Prop :=
  match v with
  | VString s => Forall char_ok s
  | VInteger i => in_s 32 i
  | VFloat f => float_fits f
  | VHash keys values => Forall (Forall char_ok) (m_names keys) /\ foldr (fun x => and (fits x)) True values
  | VVector vv => foldr (fun x => and (fits x)) True vv
  | _ => True
  end.
Lemma json_fits_Forall vs : foldr (fun x => and (fits x)) True vs <-> Forall fits vs.
Proof. induction vs as [|x vs IH]; cbn [foldr]; [by split|]. rewrite Forall_cons. tauto. Qed.
Lemma float_reads f : float_fits f ->
  reads strtod (format_float_25g f) (match number_of_text strtod (format_float_25g f) with Ok v => v | Throw _ => VNull end).
Proof.
  intros [H1 H2]. apply reads_number; [done|]. revert H2. unfold number_of_text. destruct (strToInt32 _); [done|]. by destruct (strToFloat _ _).1.
Qed.

Notation writes v := (emits (visit v) (fun t => reads strtod t (image v))).

Definition elements : list (value F) -> bool -> Writer -> Writer :=
  fix elements (vv : list (value F)) (first : bool) (w : Writer) : Writer :=
    match vv with
    | [] => w
    | x :: vv => elements vv false (visit x (if first then w else write [44] NewlineAfter w))
    end.
Lemma elements_emit vv flags : Forall (fun v => writes v) vv ->
  emits (fun w => write [93] flags (elements vv false w)) (tail_text 93 (map (element strtod) (map image vv))).
Proof.
  induction 1 as [|x vv Hx _ IH]; intros w; cbn [elements map].
  - destruct (emits_write [93] flags w) as (t & H1 & ws & Hw & ->). eexists. split; [exact H1|]. by constructor.
  - destruct (emits_write [44] NewlineAfter w) as (t1 & H1 & ws & Hw & ->). destruct (Hx (write [44] NewlineAfter w)) as (t2 & H2 & Hr).
    destruct (IH (visit x (write [44] NewlineAfter w))) as (t3 & H3 & Ht). exists (ws ++ [44] ++ t2 ++ t3). split; [|by constructor].
    rewrite H3, H2, H1. by rewrite <- !app_assoc.
Qed.

Definition nulls : list (list Z) -> bool -> Writer -> Writer :=
  fix nulls (names : list (list Z)) (first : bool) (w : Writer) : Writer :=
    match names with
    | [] => w
    | k :: names =>
        let w := if first then w else write [44] NewlineAfter w in
        nulls names false (write (lit "null") 0 (write [58] 0 (visitString k w)))
    end.
Definition members : list (value F) -> list (list Z) -> bool -> Writer -> Writer :=
  fix members (values : list (value F)) (names : list (list Z)) (first : bool) (w : Writer) : Writer :=
    match names, values with
    | [], _ => w
    | k :: names, x :: values =>
        let w := if first then w else write [44] NewlineAfter w in
        members values names false (visit x (write [58] 0 (visitString k w)))
    | _, [] => nulls names first w
    end.
Definition member_values : list (value F) -> list (list Z) -> list (list Z * value F) :=
  fix members (values : list (value F)) (names : list (list Z)) : list (list Z * value F) :=
    match values, names with
    | x :: values, k :: names => (k, image x) :: members values names
    | [], _ => map (fun k => (k, VNull)) names
    | _, [] => []
    end.
(** One member *)
Lemma member_emit k (f : Writer -> Writer) v : Forall char_ok k -> emits f (fun t => reads strtod t v) ->
  emits (fun w => f (write [58] 0 (visitString k w))) (member strtod (k, v)).
Proof.
  intros Hk Hf w. destruct (emits_write (quoted k) 0 w) as (t1 & H1 & ws1 & Hw1 & ->).
  destruct (emits_write [58] 0 (visitString k w)) as (t2 & H2 & ws2 & Hw2 & ->).
  destruct (Hf (write [58] 0 (visitString k w))) as (t3 & H3 & Hr).
  exists (ws1 ++ quoted k ++ ws2 ++ [58] ++ t3). split; [|by exists ws1, ws2, t3].
  rewrite H3, H2. unfold visitString. rewrite H1. by rewrite <- !app_assoc.
Qed.
Lemma emit_comma f T flags : emits f T -> forall w, exists t1 t2, spaces t1 /\ T t2 /\ m_sink (f (write [44] flags w)) = m_sink w ++ t1 ++ [44] ++ t2.
Proof.
  intros Hf w. destruct (emits_write [44] flags w) as (t1 & H1 & ws & Hw & ->). destruct (Hf (write [44] flags w)) as (t2 & H2 & Ht).
  exists ws, t2. rewrite H2, H1, <- !app_assoc. done.
Qed.
Lemma writes_null flags : emits (write (lit "null") flags) (fun t => reads strtod t VNull).
Proof. apply emits_reads_write, reads_keyword. by apply elem_of_cons; left. Qed.
Lemma nulls_emit names flags : Forall (Forall char_ok) names ->
  emits (fun w => write [125] flags (nulls names false w)) (tail_text 125 (map (member strtod) (map (fun k => (k, VNull)) names))).
Proof.
  induction 1 as [|k names Hk _ IH]; intros w; cbn [nulls map].
  - destruct (emits_write [125] flags w) as (t & H1 & ws & Hw & ->). eexists. split; [exact H1|]. by constructor.
  - destruct (emit_comma _ _ NewlineAfter (member_emit k _ VNull Hk (writes_null 0)) w) as (ws & t2 & Hw & Hm & H2).
    destruct (IH (write (lit "null") 0 (write [58] 0 (visitString k (write [44] NewlineAfter w))))) as (t3 & H3 & Ht).
    exists (ws ++ [44] ++ t2 ++ t3). split; [|by constructor]. rewrite H3, H2. by rewrite <- !app_assoc.
Qed.
Lemma members_emit values names flags : Forall (fun v => writes v) values -> Forall (Forall char_ok) names ->
  emits (fun w => write [125] flags (members values names false w)) (tail_text 125 (map (member strtod) (member_values values names))).
Proof.
  intros Hv. revert names. induction Hv as [|x values Hx _ IH]; intros names Hn.
  - intros w. destruct (nulls_emit names flags Hn w) as (t & H1 & Ht). exists t. split; [|done]. rewrite <- H1. by destruct names.
  - intros w. destruct Hn as [|k names Hk Hn]; cbn [members member_values map].
    { destruct (emits_write [125] flags w) as (t & H1 & ws & Hw & ->). eexists. split; [exact H1|]. by constructor. }
    destruct (emit_comma _ _ NewlineAfter (member_emit k _ (image x) Hk Hx) w) as (ws & t2 & Hw & Hm & H2).
    destruct (IH names Hn (visit x (write [58] 0 (visitString k (write [44] NewlineAfter w))))) as (t3 & H3 & Ht).
    exists (ws ++ [44] ++ t2 ++ t3). split; [|by constructor]. rewrite H3, H2. by rewrite <- !app_assoc.
Qed.

Notation open_flags := (Z.lor NewlineAfter IndentAfter).
Notation close_flags := (Z.lor NewlineBefore UndentBefore).
Lemma hash_emits values names : Forall (fun v => writes v) values -> Forall (Forall char_ok) names ->
  let h := hash_of (member_values values names) in
  emits (fun w => write [125] close_flags (members values names true (write [123] open_flags w))) (fun t => reads strtod t (VHash (m_keys h) (m_values h))).
Proof.
  intros HW Hk h w. destruct (emits_write [123] open_flags w) as (t1 & H1 & ws & Hw & ->). set (w1 := write [123] _ w) in *.
  assert (Hstart : forall text, m_sink (write [125] close_flags (members values names true w1)) = m_sink w1 ++ text ->
     match member_values values names with
     | [] => exists ws', spaces ws' /\ text = ws' ++ [125]
     | kv :: kvs => exists item t, text = item ++ t /\ member strtod kv item /\ tail_text 125 (map (member strtod) kvs) t
     end -> exists text, m_sink (write [125] close_flags (members values names true w1)) = m_sink w ++ text /\ reads strtod text (VHash (m_keys h) (m_values h))).
  { intros text E Ht. exists (ws ++ [123] ++ text). split; [by rewrite E, H1, <- !app_assoc|]. by apply reads_hash. }
  destruct Hk as [|k names Hk Hn].
  - destruct (emits_write [125] close_flags w1) as (t & H2 & ws' & Hw' & ->).
    apply (Hstart (ws' ++ [125])); [by destruct values|]. destruct values; by exists ws'.
  - destruct HW as [|x values Hx HW]; cbn [members nulls member_values map] in *.
    + destruct (member_emit k _ VNull Hk (writes_null 0) w1) as (t2 & H2 & Hm).
      destruct (nulls_emit names close_flags Hn (write (lit "null") 0 (write [58] 0 (visitString k w1)))) as (t3 & H3 & Ht).
      apply (Hstart (t2 ++ t3)); [by rewrite H3, H2, <- app_assoc|]. by exists t2, t3.
    + destruct (member_emit k _ (image x) Hk Hx w1) as (t2 & H2 & Hm).
      destruct (members_emit values names close_flags HW Hn (visit x (write [58] 0 (visitString k w1)))) as (t3 & H3 & Ht).
      apply (Hstart (t2 ++ t3)); [by rewrite H3, H2, <- app_assoc|]. by exists t2, t3.
Qed.
Lemma vector_emits vv : Forall (fun v => writes v) vv ->
  emits (fun w => write [93] close_flags (elements vv true (write [91] open_flags w))) (fun t => reads strtod t (VVector (map image vv))).
Proof.
  intros HW w. destruct (emits_write [91] open_flags w) as (t1 & H1 & ws & Hw & ->). set (w1 := write [91] _ w) in *.
  destruct HW as [|x vv Hx HW]; cbn [elements map].
  - destruct (emits_write [93] close_flags w1) as (t & H2 & ws' & Hw' & ->).
    exists (ws ++ [91] ++ ws' ++ [93]). split; [by rewrite H2, H1, <- !app_assoc|]. apply (reads_array strtod []); [done|by exists ws'].
  - destruct (Hx w1) as (t2 & H2 & Hr). destruct (elements_emit vv close_flags HW (visit x w1)) as (t3 & H3 & Ht).
    exists (ws ++ [91] ++ t2 ++ t3). split; [by rewrite H3, H2, H1, <- !app_assoc|].
    apply (reads_array strtod (image x :: map image vv)); [done|]. by exists t2, t3.
Qed.

(** Whatever the writer's state, a written value is read as its image. *)
Lemma visit_reads v : fits v -> writes v.
Proof.
  induction v as [|s|i|f|b|keys values IH|vv IH|src s|] using value_nested_ind; intros Hf; cbn [visit image fits] in *.
  - apply writes_null.
  - by apply emits_reads_write, reads_string.
  - destruct (int_text_number strtod i Hf). by apply emits_reads_write, reads_number.
  - by apply emits_reads_write, float_reads.
  - apply emits_reads_write, reads_keyword. destruct b; rewrite !elem_of_cons; naive_solver.
  - destruct Hf as [Hk Hv]. apply json_fits_Forall in Hv. rewrite Forall_forall in IH, Hv. apply hash_emits; [|done]. apply Forall_forall. auto.
  - apply json_fits_Forall in Hf. rewrite Forall_forall in IH, Hf. apply vector_emits. apply Forall_forall. auto.
  - apply writes_null.
  - apply writes_null.
Qed.

(** A value that fits is read back as its image; the fuel of [fuel_for] is enough. *)
Lemma to_json_parse v lineLength indentStep : fits v ->
  let text := to_json lineLength indentStep v in parseComplete strtod (fuel_for text) text = Ok (image v).
Proof.
  intros Hf text. destruct (visit_reads v Hf (setIndentStep indentStep (setLineLength lineLength Writer_new))) as (t & H1 & Hr).
  destruct (Hr [] I) as [fuel Hp]. rewrite app_nil_r in Hp. assert (t = text) as -> by (symmetry; exact H1).
  unfold parseComplete. destruct (parse_total strtod (fuel_for text)) as [Hfin _]. specialize (Hfin text ltac:(unfold fuel_for; lia)).
  destruct (Nat.le_ge_cases fuel (fuel_for text)) as [Hle|Hle].
  - by rewrite (parse_mono strtod fuel (fuel_for text) text _ Hle Hp).
  - assert (parse strtod (fuel_for text) text = Ok (image v, [])) as ->; [|done].
    rewrite <- Hp. symmetry. apply (parse_mono strtod (fuel_for text) fuel); [done|done|]. intros E. by rewrite E in Hfin.
Qed.
End RoundTrip.

(** *** Hashes *)

Section Hashes.
Context {F : Type} (strtod : list Z -> F * nat * bool) `{!Double F}.

Lemma member_lookup values names i k : names !! i = Some k ->
  member_values strtod values names !! i = Some (k, image strtod (nth i values VNull)).
Proof.
  revert values i. induction names as [|n names IH]; intros values i H; [done|]. destruct values as [|x values].
  - cbn [member_values]. rewrite list_lookup_fmap, H. cbn. by destruct i.
  - destruct i as [|i]; cbn [member_values]; [by injection H as ->|]. exact (IH values i H).
Qed.
Lemma member_keys values names : map fst (member_values strtod values names) = names.
Proof.
  revert values. induction names as [|n names IH]; intros [|x values]; cbn [member_values map]; [done|done| |].
  - cbn. f_equal. rewrite map_map. by rewrite map_id.
  - cbn. by rewrite IH.
Qed.
Lemma last_value_lookup (l : list (list Z * value F)) i k v : NoDup (map fst l) -> l !! i = Some (k, v) -> last_value l k = v.
Proof.
  unfold last_value. induction l as [|kv l IH] using rev_ind; [done|]. rewrite map_app, fold_left_app. cbn [map fold_left]. intros Hnd Hi.
  apply NoDup_app in Hnd as (Hnd & Hdis & _). apply lookup_app_Some in Hi as [Hi|[_ Hi]].
  - rewrite decide_False; [by apply IH|]. intros ->. apply (Hdis kv.1); [|by constructor]. apply (list_elem_of_lookup_2 _ i).
    rewrite list_lookup_fmap, Hi. done.
  - destruct (i - length l)%nat; [|done]. injection Hi as ->. by rewrite decide_True.
Qed.
Lemma last_value_absent (l : list (list Z * value F)) k : k ∉ map fst l -> last_value l k = VNull.
Proof.
  unfold last_value. induction l as [|kv l IH] using rev_ind; [done|]. rewrite map_app, fold_left_app, elem_of_app. cbn [map fold_left]. intros Hk.
  rewrite decide_False; [tauto|]. intros ->. apply Hk. right. by constructor.
Qed.
Lemma first_uses_NoDup (l : list (list Z * value F)) : NoDup (map fst l) -> first_uses l = map fst l.
Proof.
  unfold first_uses. induction l as [|kv l IH] using rev_ind; [done|]. rewrite map_app, fold_left_app. cbn [map fold_left]. intros Hnd.
  apply NoDup_app in Hnd as (Hnd & Hdis & _). rewrite IH by done. unfold names_add. rewrite decide_False; [done|].
  intros Hin. apply (Hdis kv.1 Hin). by constructor.
Qed.
(** The image of a hash has its keys, in their order, with the images of the values. *)
Lemma image_hash h : hash_wf h -> Z.of_nat (length (m_names (m_keys h))) + 1 < nil_index ->
  exists h', image strtod (VHash (m_keys h) (m_values h)) = VHash (m_keys h') (m_values h') /\ hash_wf h' /\
  m_names (m_keys h') = m_names (m_keys h) /\ forall k, hash_get h' k = image strtod (hash_get h k).
Proof.
  intros Hh Hs. pose proof (member_keys (m_values h) (m_names (m_keys h))) as Hkeys. set (l := member_values strtod (m_values h) (m_names (m_keys h))) in *.
  assert (Hnd : NoDup (map fst l)) by (rewrite Hkeys; apply Hh).
  destruct (hash_of_spec l) as (H1 & H2 & _ & H4); [by rewrite <- (length_map fst), Hkeys|].
  exists (hash_of l). split; [done|]. split; [done|]. split; [by rewrite H2, first_uses_NoDup|]. intros k. rewrite H4.
  destruct (decide (k ∈ m_names (m_keys h))) as [Hin|Hin].
  - apply list_elem_of_lookup in Hin as [i Hi]. rewrite (hash_get_present h k i Hh Hi). pose proof (member_lookup (m_values h) _ i k Hi) as HL.
    rewrite (last_value_lookup l i k _ Hnd HL). f_equal. unfold seg_get. rewrite Nat2Z.id. destruct (Z.ltb_spec (Z.of_nat i) (Z.of_nat (length (m_values h)))); [done|].
    by rewrite nth_overflow by lia.
  - rewrite (hash_get_absent h k Hh Hin). cbn [image]. apply last_value_absent. by rewrite Hkeys.
Qed.
End Hashes.

(** The values that are read back as they are *)
Fixpoint plain {F : Type} (v : value F) : Prop :=
  match v with
  | VNull | VString _ | VInteger _ | VBoolean _ => True
  | VVector vv => foldr (fun x => and (plain x)) True vv
  | _ => False
  end.
Lemma image_plain {F : Type} (strtod : list Z -> F * nat * bool) `{!Double F} v : plain v -> image strtod v = v.
Proof.
  induction v as [|s|i|f|b|keys values IH|vv IH|src s|] using value_nested_ind; cbn [plain image]; try done. intros H. f_equal.
  induction IH as [|x vv Hx _ IHv]; [done|]. destruct H as [H1 H2]. cbn [map]. by rewrite Hx, IHv.
Qed.

(** C27. A value written as JSON is read back.  Whatever the line length and the
    indentation, parsing the written text yields the value: null, strings of any
    bytes, 32-bit integers, booleans and vectors of such values are the same; a hash
    has the same keys in the same order, each with the image of its value; a
    floating-point number is what its text says.  Parsing terminates on every input:
    it never needs more steps than twice the input's length. *)
Theorem json_roundtrip {F : Type} (strtod : list Z -> F * nat * bool) `{!Double F} :
  (forall v lineLength indentStep, fits strtod v ->
   let text := to_json lineLength indentStep v in
   parseComplete strtod (fuel_for text) text = Ok (image strtod v) /\ (plain v -> image strtod v = v)) /\
  (forall h : Hash F, hash_wf h -> Z.of_nat (length (m_names (m_keys h))) + 1 < nil_index ->
   exists h', image strtod (VHash (m_keys h) (m_values h)) = VHash (m_keys h') (m_values h') /\ hash_wf h' /\
   m_names (m_keys h') = m_names (m_keys h) /\ forall k, hash_get h' k = image strtod (hash_get h k)) /\
  (forall s, parseComplete strtod (fuel_for s) s <> Throw OutOfFuel).
Proof.
  split; [|split].
  - intros v lineLength indentStep Hf. split; [by apply to_json_parse|apply image_plain].
  - apply image_hash.
  - intros s. unfold parseComplete. destruct (parse_total strtod (fuel_for s)) as [H _]. specialize (H s ltac:(unfold fuel_for; lia)).
    destruct (parse strtod (fuel_for s) s) as [[v r]|[]]; try done. cbn. by destruct (skipWhitespace r).
Qed.

#[local] Instance Double_json : Double Z := {| float_to_int32 := swrap 32; format_float_25g := int_text |}.
Definition ex_hash : Hash Z := hash_setNew (hash_setNew Hash_new (lit "b") (VVector [VNull; VInteger (-7)])) (lit "a") (VString (10 :: 34 :: 200 :: lit "x")).
Definition ex_value : value Z := VVector [VBoolean true; VHash (m_keys ex_hash) (m_values ex_hash); VVector []].
Lemma json_roundtrip_witness :
  to_json 0 2 ex_value = concat (map (fun s => quote (lit s) ++ [10]) ["["; "  true,"; "  {"; "    'b':["; "      null,"; "      -7"; "    ],"]%string)
    ++ quote (lit "    'a':'\n\") ++ [34; 200] ++ quote (lit "x'") ++ [10] ++ lit "  }," ++ [10] ++ lit "  [" ++ [10] ++ lit "  ]" ++ [10] ++ lit "]" /\
  json (to_json 0 2 ex_value) = Ok (image no_float ex_value) /\ image no_float ex_value = ex_value.
Proof.
  split; [vm_compute; reflexivity|]. split; [|vm_compute; reflexivity].
  assert (Hn : m_names (m_keys ex_hash) = [lit "b"; lit "a"]) by (vm_compute; reflexivity).
  assert (Hv : m_values ex_hash = [VVector [VNull; VInteger (-7)]; VString (10 :: 34 :: 200 :: lit "x")]) by (vm_compute; reflexivity).
  assert (Hf : fits no_float ex_value).
  { unfold ex_value. cbn [fits foldr]. rewrite Hn, Hv. cbn [fits foldr]. unfold in_s, char_ok. repeat split; repeat constructor; lia. }
  exact (proj1 (proj1 (json_roundtrip no_float) ex_value 0 2 Hf)).
Defined.
