(* ===== verification/Async.v ===== *)
(** * Asynchronous operations

    src/afl/async: lists of operations, the controller's queue of completed
    operations, semaphores, mutexes, timers and the message exchange.

    Operations and controllers are objects that are referred to by pointers; they
    are numbers here.  The state they keep - the controller of an operation and the
    queue of a controller - is the [world], which all synchronisation objects
    share.  Each method takes its object's mutex, so it is one atomic step; the
    steps of several threads interleave.  Operations use the default notifier. *)

From Stdlib Require Import ZArith Lia Bool.
From stdpp Require Import base tactics numbers option list gmap relations.
From S2P Require Import Prelude.

Local Open Scope Z_scope.
Local Open Scope afl_scope.
Local Set Warnings "-notation-for-abbreviation".

Notation Operation := positive.
Notation Controller := positive.

(** ** Lists of operations *)

Module OperationList.
Definition pushBack (m_list : list Operation) (op : Operation) : list Operation := m_list ++ [op].
Definition extractFront (m_list : list Operation) : option Operation * list Operation :=
  match m_list with
  | [] => (None, [])
  | op :: rest => (Some op, rest)
  end.
Fixpoint extractByController (getController : Operation -> option Controller) (m_list : list Operation) (ctl : Controller) : option Operation * list Operation :=
  match m_list with
  | [] => (None, [])
  | p :: rest =>
      if bool_decide (getController p = Some ctl) then (Some p, rest)
      else let '(result, rest) := extractByController getController rest ctl in (result, p :: rest)
  end.
Fixpoint remove (m_list : list Operation) (op : Operation) : bool * list Operation :=
  match m_list with
  | [] => (false, [])
  | p :: rest =>
      if bool_decide (p = op) then (true, rest)
      else let '(result, rest) := remove rest op in (result, p :: rest)
  end.
End OperationList.
Import OperationList.

(** ** Controllers *)

Record world := mkWorld {
  m_pController : gmap Operation Controller;
  m_completedOperations : gmap Controller (list Operation);
}.
Definition getController (w : world) (op : Operation) : option Controller := m_pController w !! op.
Definition setController (op : Operation) (ctl : Controller) (w : world) : world :=
  mkWorld (<[op := ctl]> (m_pController w)) (m_completedOperations w).
Definition completed (w : world) (ctl : Controller) : list Operation := default [] (m_completedOperations w !! ctl).
Definition set_completed (ctl : Controller) (l : list Operation) (w : world) : world :=
  mkWorld (m_pController w) (<[ctl := l]> (m_completedOperations w)).

(** [post], the critical section: the wake-up that follows it is up to
    ControllerImpl, which is code of the platform. *)
Definition Controller_post (ctl : Controller) (op : Operation) (w : world) : world := set_completed ctl (pushBack (completed w ctl) op) w.
Definition revertPost (ctl : Controller) (op : Operation) (w : world) : world := set_completed ctl (remove (completed w ctl) op).2 w.
(** DefaultNotifier; a notified operation always has a controller. *)
Definition notify (op : Operation) (w : world) : world :=
  match getController w op with
  | Some ctl => Controller_post ctl op w
  | None => w
  end.

(** The critical sections of the two [wait] functions *)
Definition check_any (ctl : Controller) (w : world) : option Operation * world :=
  let '(op, rest) := extractFront (completed w ctl) in
  (op, match op with Some _ => set_completed ctl rest w | None => w end).
Definition check_for (ctl : Controller) (op : Operation) (w : world) : bool * world :=
  let '(found, rest) := remove (completed w ctl) op in
  (found, if found then set_completed ctl rest w else w).

Definition INFINITE_TIMEOUT : Z := 2 ^ 32 - 1.
(** After m_pImpl->wait(timeout): the new timeout and tick counter, [None] when the time is up *)
Definition update_timeout (timeout ticks now : Z) : option (Z * Z) :=
  if negb (timeout =? INFINITE_TIMEOUT)
  then let elapsed := u32 (now - ticks) in
       if elapsed <? timeout then Some (u32 (timeout - elapsed), now) else None
  else Some (timeout, ticks).
(** ** Synchronisation objects *)

(** The interface SynchronisationObject; [wait] is written the same way in each class. *)
Class SynchronisationObject (O : Type) := {
  sync_waitAsync : Controller -> Operation -> O * world -> O * world;
  sync_cancel : Controller -> Operation -> O * world -> O * world;
}.
(** [wait].  Between its steps, other threads act on the object and the world: in
    each round, the effect of what they do until the queue is checked, and the tick
    counter after waiting; the last effect is that between a timeout and [cancel].
    No result when it still waits after the last round. *)
Section Wait.
Context {O : Type} `{!SynchronisationObject O}.
Definition effect : Type := O * world -> O * world.
Fixpoint wait_loop (ctl : Controller) (op : Operation) (rounds : list (effect * Z)) (last : effect) (timeout ticks : Z) (s : O * world) : option (bool * (O * world)) :=
  match rounds with
  | [] => None
  | (f, now) :: rounds =>
      let '(o, w) := f s in
      let '(found, w) := check_for ctl op w in
      if found then Some (true, (o, w))
      else match update_timeout timeout ticks now with
           | Some (timeout, ticks) => wait_loop ctl op rounds last timeout ticks (o, w)
           | None => Some (false, sync_cancel ctl op (last (o, w)))
           end
  end.
Definition wait (ctl : Controller) (op : Operation) (rounds : list (effect * Z)) (last : effect) (timeout ticks : Z) (s : O * world) : option (bool * (O * world)) :=
  wait_loop ctl op rounds last timeout ticks (sync_waitAsync ctl op s).
End Wait.

Module Semaphore.
Record Semaphore := mkSemaphore { m_waiters : list Operation; m_value : Z }.
Definition Semaphore_new (initialValue : Z) : Semaphore := mkSemaphore [] initialValue.
Definition post (s : Semaphore * world) : Semaphore * world :=
  let '(mkSemaphore m_waiters m_value, w) := s in
  match extractFront m_waiters with
  | (Some op, m_waiters) => (mkSemaphore m_waiters m_value, notify op w)
  | (None, m_waiters) => (mkSemaphore m_waiters (u32 (m_value + 1)), w)
  end.
Definition waitAsync (ctl : Controller) (op : Operation) (s : Semaphore * world) : Semaphore * world :=
  let '(mkSemaphore m_waiters m_value, w) := s in
  let w := setController op ctl w in
  if m_value =? 0 then (mkSemaphore (pushBack m_waiters op) m_value, w)
  else (mkSemaphore m_waiters (u32 (m_value - 1)), notify op w).
Definition cancel (ctl : Controller) (op : Operation) (s : Semaphore * world) : Semaphore * world :=
  let '(mkSemaphore m_waiters m_value, w) := s in
  (mkSemaphore (remove m_waiters op).2 m_value, revertPost ctl op w).
#[export] Instance Semaphore_object : SynchronisationObject Semaphore := {| sync_waitAsync := waitAsync; sync_cancel := cancel |}.
End Semaphore.

Module Mutex.
Record Mutex := mkMutex { m_waiters : list Operation; m_nestingLevel : Z; m_pOwner : option Controller }.
Definition Mutex_new : Mutex := mkMutex [] 0 None.
Definition waitAsync (ctl : Controller) (op : Operation) (s : Mutex * world) : Mutex * world :=
  let '(mkMutex m_waiters m_nestingLevel m_pOwner, w) := s in
  let w := setController op ctl w in
  if bool_decide (m_pOwner = Some ctl) then (mkMutex m_waiters (u32 (m_nestingLevel + 1)) m_pOwner, notify op w)
  else if bool_decide (m_pOwner = None) then (mkMutex m_waiters 1 (Some ctl), notify op w)
  else (mkMutex (pushBack m_waiters op) m_nestingLevel m_pOwner, w).
(** The loop of [post] that processes nested acquisitions *)
Fixpoint nested (fuel : nat) (newOwner : Controller) (m_waiters : list Operation) (m_nestingLevel : Z) (w : world) : list Operation * Z * world :=
  match fuel with
  | O => (m_waiters, m_nestingLevel, w)
  | S fuel' =>
      match extractByController (getController w) m_waiters newOwner with
      | (Some op2, m_waiters) => nested fuel' newOwner m_waiters (u32 (m_nestingLevel + 1)) (notify op2 w)
      | (None, m_waiters) => (m_waiters, m_nestingLevel, w)
      end
  end.
(** [None]: the operation has no controller (a null pointer becomes the owner) *)
Definition post (ctl : Controller) (s : Mutex * world) : Mutex * world :=
  let '(mkMutex m_waiters m_nestingLevel m_pOwner, w) := s in
  if bool_decide (m_pOwner = Some ctl)
  then
    let m_nestingLevel := u32 (m_nestingLevel - 1) in
    if m_nestingLevel =? 0
    then match extractFront m_waiters with
         | (Some op, m_waiters) =>
             match getController w op with
             | Some newOwner =>
                 let '(m_waiters, m_nestingLevel, w) := nested (S (length m_waiters)) newOwner m_waiters 1 (notify op w) in
                 (mkMutex m_waiters m_nestingLevel (Some newOwner), w)
             | None => (mkMutex m_waiters 1 None, w)
             end
         | (None, m_waiters) => (mkMutex m_waiters m_nestingLevel None, w)
         end
    else (mkMutex m_waiters m_nestingLevel m_pOwner, w)
  else s.
Definition cancel (ctl : Controller) (op : Operation) (s : Mutex * world) : Mutex * world :=
  let '(mkMutex m_waiters m_nestingLevel m_pOwner, w) := s in
  (mkMutex (remove m_waiters op).2 m_nestingLevel m_pOwner, revertPost ctl op w).
#[export] Instance Mutex_object : SynchronisationObject Mutex := {| sync_waitAsync := waitAsync; sync_cancel := cancel |}.
End Mutex.

Module Timer.
Record Timer := mkTimer {
  m_waiters : list Operation;
  m_numSignals : Z;
  m_interval : Z;
  m_active : bool;
  m_cyclic : bool;
  m_lastCheck : Z;
}.
Definition Timer_new : Timer := mkTimer [] 0 0 false false 0.
(** [now]: the tick counter *)
Definition start (interval : Z) (cyclic : bool) (now : Z) (t : Timer) : Timer := mkTimer (m_waiters t) (m_numSignals t) interval true cyclic now.
Definition stop (t : Timer) : Timer := mkTimer (m_waiters t) 0 0 false false (m_lastCheck t).
Definition waitAsync (ctl : Controller) (op : Operation) (s : Timer * world) : Timer * world :=
  let '(mkTimer m_waiters m_numSignals m_interval m_active m_cyclic m_lastCheck, w) := s in
  let w := setController op ctl w in
  if m_numSignals =? 0 then (mkTimer (pushBack m_waiters op) m_numSignals m_interval m_active m_cyclic m_lastCheck, w)
  else (mkTimer m_waiters (u32 (m_numSignals - 1)) m_interval m_active m_cyclic m_lastCheck, notify op w).
Definition cancel (ctl : Controller) (op : Operation) (s : Timer * world) : Timer * world :=
  let '(mkTimer m_waiters m_numSignals m_interval m_active m_cyclic m_lastCheck, w) := s in
  (mkTimer (remove m_waiters op).2 m_numSignals m_interval m_active m_cyclic m_lastCheck, revertPost ctl op w).
#[export] Instance Timer_object : SynchronisationObject Timer := {| sync_waitAsync := waitAsync; sync_cancel := cancel |}.
(** The time until the next event, and the new state *)
Definition update (now : Z) (s : Timer * world) : Z * (Timer * world) :=
  let '(mkTimer m_waiters m_numSignals m_interval m_active m_cyclic m_lastCheck, w) := s in
  if negb m_active then (INFINITE_TIMEOUT, s)
  else
    let elapsed := u32 (now - m_lastCheck) in
    let '(m_waiters, m_numSignals, m_active, m_lastCheck, elapsed, w) :=
      if m_interval <=? elapsed
      then
        let '(m_waiters, m_numSignals, w) :=
          match extractFront m_waiters with
          | (Some op, m_waiters) => (m_waiters, m_numSignals, notify op w)
          | (None, m_waiters) => (m_waiters, u32 (m_numSignals + 1), w)
          end in
        (m_waiters, m_numSignals, m_cyclic, u32 (m_lastCheck + m_interval), u32 (elapsed - m_interval), w)
      else (m_waiters, m_numSignals, m_active, m_lastCheck, elapsed, w) in
    if m_interval <=? elapsed
    then (1, (mkTimer m_waiters m_numSignals m_interval m_active m_cyclic (u32 (now - m_interval + 1)), w))
    else (u32 (m_interval - elapsed), (mkTimer m_waiters m_numSignals m_interval m_active m_cyclic m_lastCheck, w)).
(** Manager::update *)
Fixpoint update_all (now : Z) (m_timers : list Timer) (result : Z) (w : world) : Z * list Timer * world :=
  match m_timers with
  | [] => (result, [], w)
  | t :: ts =>
      let '(n, (t, w)) := update now (t, w) in
      let '(result, ts, w) := update_all now ts (if n <? result then n else result) w in
      (result, t :: ts, w)
  end.
Definition Manager_update (now : Z) (m_timers : list Timer) (w : world) : Z * list Timer * world := update_all now m_timers INFINITE_TIMEOUT w.
End Timer.

(** ** Message exchange *)

Module MessageExchange.
(** Sizes are those of buffers in memory, their sums do not wrap. *)
Record SendOperation := mkSend { s_data : list Z; m_numSentBytes : nat }.
Record ReceiveOperation := mkReceive { r_data : list Z; m_numReceivedBytes : nat }.
Definition SendOperation_new (data : list Z) : SendOperation := mkSend data 0.
Definition ReceiveOperation_new (data : list Z) : ReceiveOperation := mkReceive data 0.
Definition getUnsentBytes (op : SendOperation) : list Z := drop (m_numSentBytes op) (s_data op).
Definition addSentBytes (n : nat) (op : SendOperation) : SendOperation := mkSend (s_data op) (m_numSentBytes op + n).
Definition send_isCompleted (op : SendOperation) : bool := bool_decide (length (s_data op) <= m_numSentBytes op)%nat.
Definition getReceivedBytes (op : ReceiveOperation) : list Z := take (m_numReceivedBytes op) (r_data op).
Definition receive_isCompleted (op : ReceiveOperation) : bool := bool_decide (length (r_data op) <= m_numReceivedBytes op)%nat.
Definition getUnreceivedBytes (op : ReceiveOperation) : list Z := drop (m_numReceivedBytes op) (r_data op).
(** Memory::copyFrom into the part of the buffer that is still free *)
Definition copyFrom (rx : ReceiveOperation) (tx : SendOperation) : ReceiveOperation * SendOperation :=
  let free := getUnreceivedBytes rx in
  let bytes := getUnsentBytes tx in
  let bytesCopied := Nat.min (length free) (length bytes) in
  (mkReceive (take (m_numReceivedBytes rx) (r_data rx) ++ take bytesCopied bytes ++ drop bytesCopied free) (m_numReceivedBytes rx + bytesCopied),
   addSentBytes bytesCopied tx).

(** The operations' data is part of the state. *)
Record MessageExchange := mkExchange {
  m_pendingSends : list Operation;
  m_pendingReceives : list Operation;
  sends : gmap Operation SendOperation;
  receives : gmap Operation ReceiveOperation;
}.
Definition MessageExchange_new : MessageExchange := mkExchange [] [] ∅ ∅.
Definition send_of (x : MessageExchange) (op : Operation) : SendOperation := default (SendOperation_new []) (sends x !! op).
Definition receive_of (x : MessageExchange) (op : Operation) : ReceiveOperation := default (ReceiveOperation_new []) (receives x !! op).
Definition pair_data (rx tx : Operation) (x : MessageExchange) : MessageExchange :=
  let '(r, t) := copyFrom (receive_of x rx) (send_of x tx) in
  mkExchange (m_pendingSends x) (m_pendingReceives x) (<[tx := t]> (sends x)) (<[rx := r]> (receives x)).
Definition sendAsync (ctl : Controller) (op : Operation) (s : MessageExchange * world) : MessageExchange * world :=
  let '(x, w) := s in
  let w := setController op ctl w in
  match extractFront (m_pendingReceives x) with
  | (Some rx, m_pendingReceives) =>
      (pair_data rx op (mkExchange (m_pendingSends x) m_pendingReceives (sends x) (receives x)), notify op (notify rx w))
  | (None, m_pendingReceives) => (mkExchange (pushBack (m_pendingSends x) op) m_pendingReceives (sends x) (receives x), w)
  end.
Definition receiveAsync (ctl : Controller) (op : Operation) (s : MessageExchange * world) : MessageExchange * world :=
  let '(x, w) := s in
  let w := setController op ctl w in
  match extractFront (m_pendingSends x) with
  | (Some tx, m_pendingSends) =>
      (pair_data op tx (mkExchange m_pendingSends (m_pendingReceives x) (sends x) (receives x)), notify op (notify tx w))
  | (None, m_pendingSends) => (mkExchange m_pendingSends (pushBack (m_pendingReceives x) op) (sends x) (receives x), w)
  end.
Definition cancel (ctl : Controller) (op : Operation) (s : MessageExchange * world) : MessageExchange * world :=
  let '(x, w) := s in
  (mkExchange (remove (m_pendingSends x) op).2 (remove (m_pendingReceives x) op).2 (sends x) (receives x), revertPost ctl op w).
(** [send] and [receive] are the [wait] of these objects. *)
Definition Send_object : SynchronisationObject MessageExchange := {| sync_waitAsync := sendAsync; sync_cancel := cancel |}.
Definition Receive_object : SynchronisationObject MessageExchange := {| sync_waitAsync := receiveAsync; sync_cancel := cancel |}.
End MessageExchange.
