(* ===== verification/AsyncProps.v ===== *)
(** * Asynchronous operations: correctness

    The objects of Async.v are shared by threads whose steps interleave.  Each
    object has a labelled step relation: its own methods, the controllers that
    deliver completed operations, and what the rest of the program does with other
    operations ([env]).  An operation that is used with an object is in one of four
    places: idle, in the object's list of waiters, in the queue of its controller, or
    delivered.  [room] is that invariant, which all objects share. *)

From Stdlib Require Import ZArith Lia Bool.
From stdpp Require Import base tactics numbers option list gmap relations.
From S2P Require Import Prelude Async.
Import OperationList.

Local Open Scope Z_scope.
Local Open Scope afl_scope.
Local Set Warnings "-notation-for-abbreviation,-level-tolerance".

(** ** Lists of operations *)

Lemma remove_spec l op : NoDup l -> remove l op = (bool_decide (op ∈ l), filter (fun p => p <> op) l).
Proof.
  induction 1 as [|p l Hp Hl IH]; [done|]. cbn [remove]. rewrite filter_cons. destruct (decide (p = op)) as [->|Hne].
  - rewrite bool_decide_eq_true_2 by done. rewrite (bool_decide_eq_true_2 (op ∈ op :: l)) by (by constructor). rewrite decide_False by tauto.
    f_equal. clear IH Hl. induction l as [|x l IH]; [done|]. apply not_elem_of_cons in Hp as [Hx Hp]. rewrite filter_cons, decide_True by congruence. f_equal. by apply IH.
  - rewrite bool_decide_eq_false_2 by done. rewrite IH. rewrite decide_True by done. f_equal.
    apply bool_decide_ext. rewrite elem_of_cons. naive_solver.
Qed.
Lemma remove_absent l op : op ∉ l -> remove l op = (false, l).
Proof.
  induction l as [|p l IH]; [done|]. rewrite not_elem_of_cons. intros [Hne Hl]. cbn [remove]. rewrite bool_decide_eq_false_2 by congruence. by rewrite IH.
Qed.
(** With duplicates of other operations, only the first occurrence goes. *)
Lemma remove_other l op p : p <> op -> p ∈ (remove l op).2 <-> p ∈ l.
Proof.
  intros Hne. induction l as [|x l IH]; [done|]. cbn [remove]. case_bool_decide as Hx.
  - subst x. cbn. rewrite elem_of_cons. naive_solver.
  - destruct (remove l op) as [b r]. cbn [snd] in *. rewrite !elem_of_cons, IH. done.
Qed.
Lemma remove_subset l op p : p ∈ (remove l op).2 -> p ∈ l.
Proof.
  induction l as [|x l IH]; [done|]. cbn [remove]. case_bool_decide; cbn [snd]; [by constructor|].
  destruct (remove l op) as [b r]. cbn [snd] in *. rewrite !elem_of_cons. naive_solver.
Qed.
Lemma remove_found l op : (remove l op).1 = bool_decide (op ∈ l).
Proof.
  induction l as [|x l IH]; [done|]. cbn [remove]. destruct (decide (x = op)) as [->|Hx].
  - rewrite bool_decide_eq_true_2 by done. by rewrite bool_decide_eq_true_2 by (by constructor).
  - rewrite bool_decide_eq_false_2 by done. destruct (remove l op) as [b r]. cbn [fst] in *. rewrite IH. apply bool_decide_ext.
    rewrite elem_of_cons. naive_solver.
Qed.

(** ** The world *)

Lemma completed_set c l w c' : completed (set_completed c l w) c' = if decide (c' = c) then l else completed w c'.
Proof.
  unfold completed, set_completed. cbn [m_completedOperations]. destruct (decide (c' = c)) as [->|Hne]; [by rewrite lookup_insert_eq|by rewrite lookup_insert_ne].
Qed.
Lemma controller_set op c w op' : getController (setController op c w) op' = if decide (op' = op) then Some c else getController w op'.
Proof.
  unfold getController, setController. cbn [m_pController]. destruct (decide (op' = op)) as [->|Hne]; [by rewrite lookup_insert_eq|by rewrite lookup_insert_ne].
Qed.

Section Room.
Context (mine : Operation -> bool).
Implicit Types (w : world) (ws : list Operation) (op : Operation) (c : Controller).
Notation filter_mine := (filter (fun op => mine op = true)).

Definition idle ws w op : Prop := op ∉ ws /\ forall c, op ∉ completed w c.

Record room ws w : Prop := {
  room_nodup : NoDup ws;
  room_mine : Forall (fun op => mine op = true) ws;
  room_controller op : op ∈ ws -> is_Some (getController w op);
  room_queue c op : mine op = true -> op ∈ completed w c -> getController w op = Some c /\ op ∉ ws;
  room_queue_nodup c : NoDup (filter_mine (completed w c));
}.

(** What the rest of the program may do: anything with other operations *)
Definition env w w' : Prop :=
  (forall op, mine op = true -> getController w' op = getController w op) /\
  (forall c, filter_mine (completed w' c) = filter_mine (completed w c)).

(** The operations that are queued for delivery *)
Definition granted w : gmap Operation Controller :=
  filter (fun p : Operation * Controller => mine p.1 = true /\ p.1 ∈ completed w p.2) (m_pController w).
Lemma granted_lookup w op c : granted w !! op = Some c <-> getController w op = Some c /\ mine op = true /\ op ∈ completed w c.
Proof. unfold granted. by rewrite map_lookup_filter_Some. Qed.
Lemma granted_none w op : granted w !! op = None <-> mine op = false \/ forall c, getController w op = Some c -> op ∉ completed w c.
Proof.
  rewrite eq_None_not_Some. split.
  - intros H. destruct (mine op) eqn:E; [|by left]. right. intros c Hc Hin. apply H. exists c. by apply granted_lookup.
  - intros H [c Hc]. apply granted_lookup in Hc as (H1 & H2 & H3). destruct H as [H|H]; [congruence|by apply (H c)].
Qed.

Lemma elem_mine op (l : list Operation) : mine op = true -> op ∈ filter_mine l <-> op ∈ l.
Proof. intros H. rewrite list_elem_of_filter. tauto. Qed.

Lemma room_env ws w w' : room ws w -> env w w' -> room ws w' /\ granted w' = granted w.
Proof.
  intros [H1 H2 H3 H4 H5] [E1 E2].
  assert (Hq : forall c op, mine op = true -> op ∈ completed w' c <-> op ∈ completed w c).
  { intros c op Hm. rewrite <- (elem_mine op) by done. rewrite E2. by apply elem_mine. }
  split.
  - split; [done|done| | |].
    + intros op Hop. rewrite E1; [by apply H3|]. rewrite Forall_forall in H2. by apply H2.
    + intros c op Hm Hop. rewrite E1 by done. apply H4; [done|]. by apply Hq.
    + intros c. by rewrite E2.
  - apply map_eq. intros op. apply option_eq. intros c. rewrite !granted_lookup. destruct (mine op) eqn:Em; [|naive_solver].
    rewrite (E1 op Em), Hq by done. done.
Qed.

(** An idle operation gets a controller. *)
Lemma room_set ws w op c : room ws w -> idle ws w op -> room ws (setController op c w) /\ granted (setController op c w) = granted w.
Proof.
  intros [H1 H2 H3 H4 H5] [I1 I2]. split.
  - split; [done|done| | |done].
    + intros op' Hop. rewrite controller_set. destruct (decide _) as [->|]; [done|]. by apply H3.
    + intros c' op' Hm Hop. rewrite controller_set. rewrite decide_False; [by apply H4|]. intros ->. by apply (I2 c').
  - apply map_eq. intros op'. apply option_eq. intros c'. rewrite !granted_lookup, controller_set. destruct (decide (op' = op)) as [->|]; [|done].
    split; [intros (_ & _ & H)|intros (_ & _ & H)]; by apply I2 in H.
Qed.
(** An idle operation with a controller starts to wait. *)
Lemma room_push ws w op : room ws w -> idle ws w op -> mine op = true -> is_Some (getController w op) -> room (ws ++ [op]) w.
Proof.
  intros [H1 H2 H3 H4 H5] [I1 I2] Hm Hc. split; [| | | |done].
  - apply NoDup_app. split; [done|]. split; [|apply NoDup_singleton]. intros x Hx Hy. apply list_elem_of_singleton in Hy. congruence.
  - apply Forall_app. split; [done|by constructor].
  - intros op'. rewrite elem_of_app, list_elem_of_singleton. intros [H| ->]; [by apply H3|done].
  - intros c' op' Hm' Hop. destruct (H4 c' op' Hm' Hop) as [E N]. split; [done|]. rewrite elem_of_app, list_elem_of_singleton.
    intros [H| ->]; [done|]. by apply (I2 c').
Qed.
(** An idle operation is queued for its controller. *)
Lemma room_grant ws w op c : room ws w -> idle ws w op -> mine op = true -> getController w op = Some c ->
  room ws (notify op w) /\ granted (notify op w) = <[op := c]> (granted w) /\ granted w !! op = None.
Proof.
  intros [H1 H2 H3 H4 H5] [I1 I2] Hm Hc. unfold notify. rewrite Hc. split; [|split].
  - split; [done|done|done| |].
    + intros c' op' Hm' Hop. change (getController (Controller_post c op w) op') with (getController w op').
      unfold Controller_post, pushBack in Hop. rewrite completed_set in Hop. destruct (decide (c' = c)) as [->|]; [|by apply H4].
      apply elem_of_app in Hop as [Hop|Hop]; [by apply H4|]. apply list_elem_of_singleton in Hop as ->. done.
    + intros c'. unfold Controller_post, pushBack. rewrite completed_set. destruct (decide (c' = c)) as [->|]; [|done].
      rewrite filter_app. apply NoDup_app. split; [done|]. rewrite filter_cons, decide_True, filter_nil by done. split; [|apply NoDup_singleton].
      intros x Hx Hy. apply list_elem_of_singleton in Hy as ->. apply list_elem_of_filter in Hx as [_ Hx]. by apply (I2 c).
  - apply map_eq. intros op'. apply option_eq. intros c'. rewrite granted_lookup, lookup_insert_Some, granted_lookup.
    change (getController (Controller_post c op w) op') with (getController w op'). unfold Controller_post, pushBack. rewrite completed_set.
    destruct (decide (op' = op)) as [->|Hne].
    + rewrite Hc. split; [intros ([= ->] & _ & _); by left|]. intros [[_ ->]|[? _]]; [|done]. rewrite decide_True by done. rewrite elem_of_app, list_elem_of_singleton. tauto.
    + split.
      * intros (E & Em & Hin). right. split; [done|]. split; [done|]. split; [done|]. destruct (decide (c' = c)) as [->|]; [|done].
        apply elem_of_app in Hin as [Hin|Hin]; [done|]. by apply list_elem_of_singleton in Hin.
      * intros [[? _]|(_ & E & Em & Hin)]; [congruence|]. split; [done|]. split; [done|]. destruct (decide (c' = c)) as [->|]; [|done].
        apply elem_of_app. by left.
  - apply granted_none. right. intros c' _. apply I2.
Qed.
Lemma room_tail ws w op : room (op :: ws) w -> room ws w /\ idle ws w op /\ mine op = true /\ is_Some (getController w op).
Proof.
  intros [H1 H2 H3 H4 H5]. apply NoDup_cons in H1 as [Hn H1]. apply Forall_cons in H2 as [Hm H2].
  split; [split|split; [split|split]]; try done.
  - intros op' Hop. apply H3. by constructor.
  - intros c op' Hm' Hop. destruct (H4 c op' Hm' Hop) as [E N]. split; [done|]. intros H. apply N. by constructor.
  - intros c Hop. destruct (H4 c op Hm Hop) as [_ N]. apply N. by constructor.
  - apply H3. by constructor.
Qed.
(** The first waiter is queued for its controller. *)
Lemma room_grant_front ws w op : room (op :: ws) w ->
  exists c, getController w op = Some c /\ room ws (notify op w) /\ granted (notify op w) = <[op := c]> (granted w) /\ granted w !! op = None.
Proof.
  intros H. apply room_tail in H as (H & Hi & Hm & [c Hc]). exists c. split; [done|]. by apply room_grant.
Qed.

Lemma filter_remove (l : list Operation) op : mine op = true -> filter_mine (remove l op).2 = (remove (filter_mine l) op).2.
Proof.
  intros Hm. induction l as [|p l IH]; [done|]. cbn [remove]. rewrite filter_cons. destruct (decide (p = op)) as [->|Hne].
  - rewrite bool_decide_eq_true_2 by done. rewrite decide_True by done. cbn [remove]. by rewrite bool_decide_eq_true_2.
  - rewrite bool_decide_eq_false_2 by done. destruct (remove l op) as [b r] eqn:E. cbn [snd] in *. rewrite filter_cons.
    destruct (decide (mine p = true)); [|done]. cbn [remove]. rewrite bool_decide_eq_false_2 by done. rewrite IH. by destruct (remove (filter_mine l) op).
Qed.
Lemma completed_revert c op w c' : completed (revertPost c op w) c' = if decide (c' = c) then (remove (completed w c) op).2 else completed w c'.
Proof. unfold revertPost. apply completed_set. Qed.
(** A queued operation is taken out of the queue, by delivery or by [cancel]. *)
Lemma room_revert ws w op c : room ws w -> mine op = true -> getController w op = Some c ->
  room ws (revertPost c op w) /\ granted (revertPost c op w) = delete op (granted w) /\ (forall c', op ∉ completed (revertPost c op w) c').
Proof.
  intros [H1 H2 H3 H4 H5] Hm Hc.
  assert (Hsub : forall c' p, p ∈ completed (revertPost c op w) c' -> p ∈ completed w c').
  { intros c' p. rewrite completed_revert. destruct (decide (c' = c)) as [->|]; [|done]. apply remove_subset. }
  assert (Hgone : forall c', op ∉ completed (revertPost c op w) c').
  { intros c' Hin. pose proof (Hsub c' op Hin) as Hin'. destruct (H4 c' op Hm Hin') as [E _]. assert (c' = c) as -> by congruence.
    rewrite completed_revert, decide_True in Hin by done. apply (elem_mine op) in Hin; [|done]. rewrite filter_remove, remove_spec in Hin by done.
    apply list_elem_of_filter in Hin. tauto. }
  split; [|split; [|done]].
  - split; [done|done|done| |].
    + intros c' p Hm' Hin. apply Hsub in Hin. by apply H4.
    + intros c'. rewrite completed_revert. destruct (decide (c' = c)) as [->|]; [|done]. rewrite filter_remove, remove_spec by done. by apply NoDup_filter.
  - apply map_eq. intros p. apply option_eq. intros c'. rewrite granted_lookup, lookup_delete_Some, granted_lookup.
    change (getController (revertPost c op w) p) with (getController w p). split.
    + intros (E & Em & Hin). split; [intros <-; by apply (Hgone c')|]. split; [done|]. split; [done|]. by apply Hsub.
    + intros (Hne & E & Em & Hin). split; [done|]. split; [done|]. rewrite completed_revert. destruct (decide (c' = c)) as [->|]; [|done]. by rewrite remove_other.
Qed.
Lemma room_leave ws w op : room ws w -> room (remove ws op).2 w /\ op ∉ (remove ws op).2.
Proof.
  intros [H1 H2 H3 H4 H5]. rewrite remove_spec by done. cbn [snd]. split; [|rewrite list_elem_of_filter; tauto]. split; [by apply NoDup_filter| | | |done].
  - apply Forall_forall. intros p Hp. apply list_elem_of_filter in Hp as [_ Hp]. rewrite Forall_forall in H2. by apply H2.
  - intros p Hp. apply list_elem_of_filter in Hp as [_ Hp]. by apply H3.
  - intros c p Hm Hp. destruct (H4 c p Hm Hp). split; [done|]. rewrite list_elem_of_filter. tauto.
Qed.
Lemma check_for_found w op c : op ∈ completed w c -> check_for c op w = (true, revertPost c op w).
Proof.
  intros Hin. unfold check_for, revertPost. pose proof (remove_found (completed w c) op) as Hf. destruct (remove (completed w c) op) as [b r]. cbn [fst snd] in *.
  rewrite Hf. by rewrite bool_decide_eq_true_2.
Qed.
Lemma check_for_missing w op c : op ∉ completed w c -> check_for c op w = (false, w).
Proof. intros Hin. unfold check_for. by rewrite remove_absent. Qed.
Lemma check_any_first w c op rest : completed w c = op :: rest -> check_any c w = (Some op, revertPost c op w).
Proof. intros E. unfold check_any, revertPost. rewrite E. cbn [extractFront remove]. by rewrite bool_decide_eq_true_2. Qed.
End Room.

(** ** Interleaved steps *)

Section Steps.
Context {O L : Type} `{!SynchronisationObject O} (waiters : O -> list Operation) (own : O * world -> L -> O * world -> Prop) (mine : Operation -> bool).

Inductive label :=
  | Own (l : L)
  | WaitAsync (ctl : Controller) (op : Operation)
  | Cancel (ctl : Controller) (op : Operation) (queued : bool)
  | Take (ctl : Controller) (op : Operation)
  | Env.
(** An operation is given to [waitAsync] when it is idle, and cancelled on its
    controller; [Cancel] tells whether it had already been queued for delivery. *)
Inductive step : O * world -> label -> O * world -> Prop :=
  | step_own s l s' : own s l s' -> step s (Own l) s'
  | step_wait s c op : mine op = true -> idle (waiters s.1) s.2 op -> step s (WaitAsync c op) (sync_waitAsync c op s)
  | step_cancel s c op : mine op = true -> getController s.2 op = Some c ->
      step s (Cancel c op (bool_decide (op ∈ completed s.2 c))) (sync_cancel c op s)
  | step_take o w c op : mine op = true -> op ∈ completed w c -> step (o, w) (Take c op) (o, (check_for c op w).2)
  | step_env o w w' : env mine w w' -> step (o, w) Env (o, w').
Inductive run : O * world -> list label -> O * world -> Prop :=
  | run_nil s : run s [] s
  | run_cons s l s1 t s2 : step s l s1 -> run s1 t s2 -> run s (l :: t) s2.
Lemma run_app s t s1 t' s2 : run s t s1 -> run s1 t' s2 -> run s (t ++ t') s2.
Proof. induction 1; [done|]. intros. econstructor; eauto. Qed.

(** The labels of a trace with a property *)
Definition count (p : label -> bool) (t : list label) : nat := length (List.filter p t).
Definition is_own (l : label) : bool := match l with Own _ => true | _ => false end.
Definition is_take (l : label) : bool := match l with Take _ _ => true | _ => false end.
Definition is_lost (l : label) : bool := match l with Cancel _ _ q => q | _ => false end.
Definition mentions (op : Operation) (l : label) : Prop :=
  match l with
  | WaitAsync _ op' | Cancel _ op' _ | Take _ op' => op' = op
  | Own _ | Env => False
  end.

(** Only [waitAsync] sets the controller of an operation, and only [cancel] takes one
    from a queue. *)
Class QueueLaws : Prop := {
  own_completed s l s' c op : own s l s' -> op ∈ completed s.2 c -> op ∈ completed s'.2 c;
  wait_completed c op s c' op' : op' ∈ completed s.2 c' -> op' ∈ completed (sync_waitAsync c op s).2 c';
  cancel_completed c op s c' op' : op' <> op -> op' ∈ completed s.2 c' -> op' ∈ completed (sync_cancel c op s).2 c';
  own_controller s l s' op : own s l s' -> getController s'.2 op = getController s.2 op;
  wait_controller c op s op' : getController (sync_waitAsync c op s).2 op' = if decide (op' = op) then Some c else getController s.2 op';
  cancel_controller c op s op' : getController (sync_cancel c op s).2 op' = getController s.2 op';
}.
Context {HLaws : QueueLaws}.

Lemma take_controller c op w op' : getController (check_for c op w).2 op' = getController w op'.
Proof. unfold check_for. destruct (remove _ _) as [[] r]; done. Qed.
Lemma step_controller s l s' op : step s l s' -> mine op = true -> ~ mentions op l -> getController s'.2 op = getController s.2 op.
Proof.
  intros Hs Hm Hn. destruct Hs as [s l s' Ho|s c op' Hm' Hi|s c op' Hm' Hc|o w c op' Hm' Hin|o w w' He].
  - by eapply own_controller.
  - rewrite wait_controller, decide_False; [done|]. intros ->. by apply Hn.
  - apply cancel_controller.
  - apply take_controller.
  - by apply He.
Qed.
Lemma run_controller s t s' op : run s t s' -> mine op = true -> (forall l, l ∈ t -> ~ mentions op l) -> getController s'.2 op = getController s.2 op.
Proof.
  induction 1 as [s|s l s1 t s2 Hs Hr IH]; intros Hm Hn; [done|]. rewrite IH; [|done|intros l' Hl'; apply Hn; by constructor].
  apply (step_controller s l); [done|done|]. apply Hn. by constructor.
Qed.

(** A queued operation stays queued until it is delivered or cancelled. *)
Lemma step_completed s l s' c op : step s l s' -> mine op = true -> (forall c' q, l <> Take c' op /\ l <> Cancel c' op q) ->
  op ∈ completed s.2 c -> op ∈ completed s'.2 c.
Proof.
  intros Hs Hm Hn Hin. destruct Hs as [s l s' Ho|s c' op' Hm' Hi|s c' op' Hm' Hc|o w c' op' Hm' Hin'|o w w' He].
  - by eapply own_completed.
  - by apply wait_completed.
  - apply cancel_completed; [|done]. intros ->. by destruct (Hn c' (bool_decide (op' ∈ completed s.2 c'))).
  - assert (op <> op') by (intros ->; by destruct (Hn c' true)). rewrite (check_for_found w op' c' Hin'). cbn [snd] in *. rewrite completed_revert.
    destruct (decide (c = c')) as [->|]; [|done]. by rewrite remove_other.
  - cbn [snd] in *. rewrite <- (elem_mine mine op) by done. rewrite (proj2 He c). by apply elem_mine.
Qed.
Lemma run_completed s t s' c op : run s t s' -> mine op = true -> (forall c' q, Cancel c' op q ∉ t) ->
  op ∈ completed s.2 c -> (exists c', Take c' op ∈ t) \/ op ∈ completed s'.2 c.
Proof.
  induction 1 as [s|s l s1 t s2 Hs Hr IH]; intros Hm Hn Hin; [by right|].
  assert (Hl : (exists c', l = Take c' op) \/ forall c', l <> Take c' op).
  { destruct l as [|?| |c' op'|]; try (right; done). destruct (decide (op' = op)) as [->|]; [left; eauto|right; intros c'' [=]; congruence]. }
  destruct Hl as [[c' ->]|Hl]; [left; exists c'; by constructor|].
  destruct IH as [[c' Ht]|Hc]; [done|intros c' q H; apply (Hn c' q); by constructor| |left; exists c'; by constructor|by right].
  apply (step_completed s l); [done|done| |done]. intros c' q. split; [apply Hl|]. intros ->. apply (Hn c' q). by constructor.
Qed.

(** The other threads leave the operation alone. *)
Definition others (op : Operation) (f : effect) : Prop :=
  forall s, exists t, run s t (f s) /\ forall l, l ∈ t -> ~ mentions op l.
(** A synchronous [wait] is a sequence of steps: it ends with the delivery of its
    operation or with [cancel], and other threads act in between. *)
Lemma wait_loop_run c op rounds last timeout ticks s b s' :
  mine op = true -> getController s.2 op = Some c -> Forall (fun r => others op r.1) rounds -> others op last ->
  wait_loop c op rounds last timeout ticks s = Some (b, s') ->
  exists t q, run s (t ++ [if b then Take c op else Cancel c op q]) s' /\ forall l, l ∈ t -> ~ mentions op l.
Proof.
  intros Hm Hc Hr Hl. revert timeout ticks s Hc. induction Hr as [|[f now] rounds Hf Hr IH]; intros timeout ticks s Hc; cbn [wait_loop]; [done|].
  destruct (Hf s) as (t1 & R1 & N1). cbn [fst] in R1. pose proof (run_controller _ _ _ op R1 Hm N1) as C1. destruct (f s) as [o w]. cbn [snd] in C1.
  destruct (decide (op ∈ completed w c)) as [Hin|Hin].
  - pose proof (step_take o w c op Hm Hin) as HS. rewrite (check_for_found w op c Hin) in *. intros [= <- <-]. exists t1, true. split; [|done].
    apply (run_app _ _ (o, w)); [done|]. econstructor; [exact HS|constructor].
  - rewrite (check_for_missing w op c Hin). destruct (update_timeout timeout ticks now) as [[timeout' ticks']|].
    + intros H. apply IH in H as (t & q & R & N); [|cbn [snd]; by rewrite C1]. exists (t1 ++ t), q. split; [rewrite <- app_assoc; by apply (run_app _ _ (o, w))|].
      intros l. rewrite elem_of_app. naive_solver.
    + intros [= <- <-]. destruct (Hl (o, w)) as (t2 & R2 & N2). pose proof (run_controller _ _ _ op R2 Hm N2) as C2.
      exists (t1 ++ t2), (bool_decide (op ∈ completed (last (o, w)).2 c)). split.
      * apply (run_app _ _ (last (o, w))); [by apply (run_app _ _ (o, w))|]. econstructor; [|constructor]. apply step_cancel; [done|]. rewrite C2. cbn [snd]. by rewrite C1.
      * intros l. rewrite elem_of_app. naive_solver.
Qed.
Lemma wait_run c op rounds last timeout ticks s b s' :
  mine op = true -> idle (waiters s.1) s.2 op -> Forall (fun r => others op r.1) rounds -> others op last ->
  wait c op rounds last timeout ticks s = Some (b, s') ->
  exists t q, run s (WaitAsync c op :: t ++ [if b then Take c op else Cancel c op q]) s' /\ forall l, l ∈ t -> ~ mentions op l.
Proof.
  intros Hm Hi Hr Hl H. apply wait_loop_run in H as (t & q & R & N); [|done|by rewrite wait_controller, decide_True|done|done].
  exists t, q. split; [|done]. econstructor; [by apply step_wait|done].
Qed.
End Steps.
Arguments label L : clear implicits.
Arguments QueueLaws {O L} {_} _.

Lemma notify_controller op w op' : getController (notify op w) op' = getController w op'.
Proof. unfold notify. by destruct (getController w op). Qed.
Lemma granted_in mine w op c : granted mine w !! op = Some c -> op ∈ completed w c.
Proof. intros H. apply granted_lookup in H. tauto. Qed.
Lemma size_grant (m : gmap Operation Controller) op c : m !! op = None -> Z.of_nat (size (<[op := c]> m)) = Z.of_nat (size m) + 1.
Proof. intros H. rewrite map_size_insert_None by done. lia. Qed.
Lemma size_ungrant (m : gmap Operation Controller) op :
  Z.of_nat (size (delete op m)) + (if bool_decide (is_Some (m !! op)) then 1 else 0) = Z.of_nat (size m).
Proof.
  case_bool_decide as H; [|rewrite delete_id; [lia|by apply eq_None_not_Some]]. destruct H as [c H]. rewrite map_size_delete_Some by (by exists c).
  assert (size m <> 0)%nat; [|lia]. rewrite map_size_ne_0_lookup. eauto.
Qed.
Lemma granted_own mine w op c : mine op = true -> getController w op = Some c -> bool_decide (is_Some (granted mine w !! op)) = bool_decide (op ∈ completed w c).
Proof.
  intros Hm Hc. apply bool_decide_ext. split.
  - intros [c' H]. apply granted_lookup in H as (E & _ & H). congruence.
  - intros H. exists c. by apply granted_lookup.
Qed.

Lemma notify_completed op w c op' : op' ∈ completed w c -> op' ∈ completed (notify op w) c.
Proof.
  intros H. unfold notify. destruct (getController w op) as [c'|]; [|done]. unfold Controller_post. rewrite completed_set. destruct (decide (c = c')) as [->|]; [|done].
  apply elem_of_app. by left.
Qed.
Lemma revert_completed c op w c' op' : op' <> op -> op' ∈ completed w c' -> op' ∈ completed (revertPost c op w) c'.
Proof. intros Hne H. rewrite completed_revert. destruct (decide (c' = c)) as [->|]; [|done]. by rewrite remove_other. Qed.
Lemma notify_granted op w c : getController w op = Some c -> op ∈ completed (notify op w) c.
Proof. intros H. unfold notify. rewrite H. unfold Controller_post. rewrite completed_set, decide_True by done. apply elem_of_app. right. by constructor. Qed.

Lemma notify_elem q w c p : p ∈ completed (notify q w) c -> p ∈ completed w c \/ p = q.
Proof.
  unfold notify. destruct (getController w q) as [c'|]; [|by left]. unfold Controller_post, pushBack. rewrite completed_set. destruct (decide (c = c')) as [->|]; [|by left].
  rewrite elem_of_app, list_elem_of_singleton. done.
Qed.

(** ** Semaphores *)

Module SemaphoreProps.
Import Semaphore.
Section Semaphore.
Context (mine : Operation -> bool).

Definition posts (s : Semaphore * world) (_ : unit) (s' : Semaphore * world) : Prop := s' = post s.
Notation step := (step m_waiters posts mine).
Notation run := (run m_waiters posts mine).

#[export] Instance Semaphore_laws : QueueLaws posts.
Proof.
  split.
  - intros [[ws v] w] [] s' c op -> Hin. cbn. destruct ws; cbn; [done|]. by apply notify_completed.
  - intros c op [[ws v] w] c' op' Hin. cbn. destruct (v =? 0); cbn [snd]; [done|]. by apply notify_completed.
  - intros c op [[ws v] w] c' op' Hne Hin. by apply revert_completed.
  - intros [[ws v] w] [] s' op ->. cbn. destruct ws; cbn; [done|]. apply notify_controller.
  - intros c op [[ws v] w] op'. cbn. destruct (v =? 0); cbn [snd]; rewrite ?notify_controller; apply controller_set.
  - intros c op [[ws v] w] op'. done.
Qed.

Record sem_ok (s : Semaphore * world) : Prop := {
  so_room : room mine (m_waiters s.1) s.2;
  so_value : 0 <= m_value s.1;
  so_waiting : m_waiters s.1 = [] \/ m_value s.1 = 0;
}.
(** The units that nobody has got yet *)
Definition units (s : Semaphore * world) : Z := m_value s.1 + Z.of_nat (size (granted mine s.2)).

Lemma sem_post s : sem_ok s -> m_value s.1 + 1 < 2 ^ 32 -> sem_ok (post s) /\ units (post s) = units s + 1.
Proof.
  destruct s as [[ws v] w]. intros [H1 H2 H3] Hv. cbn [fst snd m_waiters m_value] in *. unfold units, post. destruct ws as [|op ws]; cbn [extractFront].
  - unfold u32. rewrite wrap_small by lia. cbn. split; [|lia]. split; cbn; [done|lia|by left].
  - destruct (room_grant_front mine ws w op H1) as (c & Hc & HR & HG & HN). cbn [fst snd m_value]. rewrite HG, size_grant by done.
    split; [|lia]. split; cbn; [done|done|]. right. by destruct H3.
Qed.
Lemma sem_wait s c op : sem_ok s -> m_value s.1 < 2 ^ 32 -> mine op = true -> idle (m_waiters s.1) s.2 op ->
  sem_ok (waitAsync c op s) /\ units (waitAsync c op s) = units s.
Proof.
  destruct s as [[ws v] w]. intros [H1 H2 H3] Hv Hm Hi. cbn [fst snd m_waiters m_value] in *. unfold units, waitAsync.
  destruct (room_set mine ws w op c H1 Hi) as [R1 G1]. assert (Hc : getController (setController op c w) op = Some c) by (by rewrite controller_set, decide_True).
  assert (Hi' : idle ws (setController op c w) op) by exact Hi.
  destruct (Z.eqb_spec v 0) as [->|Hne]; cbn [fst snd m_value].
  - rewrite G1. split; [|done]. split; cbn; [|done|by right]. by apply room_push.
  - destruct (room_grant mine ws _ op c R1 Hi' Hm Hc) as (R2 & G2 & N2). rewrite G2, size_grant, G1 by done. unfold u32. rewrite wrap_small by lia.
    split; [|lia]. split; cbn; [done|lia|]. left. by destruct H3.
Qed.
Lemma sem_cancel s c op : sem_ok s -> mine op = true -> getController s.2 op = Some c ->
  sem_ok (cancel c op s) /\ units (cancel c op s) + (if bool_decide (op ∈ completed s.2 c) then 1 else 0) = units s.
Proof.
  destruct s as [[ws v] w]. intros [H1 H2 H3] Hm Hc. cbn [fst snd m_waiters m_value] in *. unfold units, cancel. cbn [fst snd m_value].
  destruct (room_revert mine ws w op c H1 Hm Hc) as (R1 & G1 & _). destruct (room_leave mine ws _ op R1) as [R2 _].
  split; [|rewrite G1, <- (granted_own mine w op c) by done; pose proof (size_ungrant (granted mine w) op); lia].
  split; cbn; [done|done|]. destruct H3 as [->|H3]; [by left|by right].
Qed.
Lemma sem_take o w c op : sem_ok (o, w) -> mine op = true -> op ∈ completed w c ->
  sem_ok (o, (check_for c op w).2) /\ units (o, (check_for c op w).2) + 1 = units (o, w).
Proof.
  intros [H1 H2 H3] Hm Hin. rewrite (check_for_found w op c Hin). cbn [fst snd] in *. destruct (room_queue mine _ _ H1 c op Hm Hin) as [Hc _].
  destruct (room_revert mine _ w op c H1 Hm Hc) as (R1 & G1 & _). split; [by split|]. unfold units. cbn [fst snd]. rewrite G1.
  pose proof (size_ungrant (granted mine w) op) as HS. rewrite (granted_own mine w op c), bool_decide_eq_true_2 in HS by done. lia.
Qed.

Lemma units_bound s : sem_ok s -> m_value s.1 <= units s.
Proof. intros _. unfold units. lia. Qed.
(** A unit that is posted is given to exactly one waiter. *)
Lemma sem_run s t s' : run s t s' -> sem_ok s -> units s + Z.of_nat (count is_own t) < 2 ^ 32 ->
  sem_ok s' /\ units s' + Z.of_nat (count is_take t) + Z.of_nat (count is_lost t) = units s + Z.of_nat (count is_own t).
Proof.
  induction 1 as [s|s l s1 t s2 Hs Hr IH]; intros Hok Hb; [by rewrite !Z.add_0_r|]. pose proof (units_bound s Hok) as Hu.
  destruct Hs as [s [] s1 ->|s c op Hm Hi|s c op Hm Hc|o w c op Hm Hin|o w w' He]; unfold count in *; cbn [List.filter is_own is_take is_lost length] in *.
  - destruct (sem_post s Hok ltac:(lia)) as [H1 H2]. destruct (IH H1 ltac:(lia)) as [H3 H4]. split; [done|lia].
  - destruct (sem_wait s c op Hok ltac:(lia) Hm Hi) as [H1 H2]. destruct (IH H1 ltac:(cbn [sync_waitAsync Semaphore_object]; lia)) as [H3 H4]. split; [done|]. cbn [sync_waitAsync Semaphore_object] in *. lia.
  - destruct (sem_cancel s c op Hok Hm Hc) as [H1 H2]. destruct (IH H1) as [H3 H4]; cbn [sync_cancel Semaphore_object] in *.
    { case_bool_decide; lia. } split; [done|]. case_bool_decide; cbn [length]; lia.
  - destruct (sem_take o w c op Hok Hm Hin) as [H1 H2]. destruct (IH H1 ltac:(lia)) as [H3 H4]. split; [done|lia].
  - destruct Hok as [H1 H2 H3]. destruct (room_env mine _ w w' H1 He) as [R G]. assert (Hok : sem_ok (o, w')) by (by split).
    assert (units (o, w') = units (o, w)) as E by (unfold units; cbn [fst snd]; by rewrite G). destruct (IH Hok ltac:(lia)) as [H5 H6]. split; [done|lia].
Qed.

(** The waiter at position [k] is served by the [k+1]st post at the latest. *)
Lemma remove_position (l : list Operation) op p j : NoDup l -> p <> op -> l !! j = Some p -> exists j', (j' <= j)%nat /\ (remove l op).2 !! j' = Some p.
Proof.
  intros Hnd Hne. revert j. induction l as [|x l IH]; intros j H; [done|]. apply NoDup_cons in Hnd as [_ Hnd]. cbn [remove].
  destruct (decide (x = op)) as [->|Hx].
  - rewrite bool_decide_eq_true_2 by done. destruct j as [|j]; [by injection H|]. exists j. split; [lia|done].
  - rewrite bool_decide_eq_false_2 by done. destruct (remove l op) as [b r] eqn:E. cbn [snd] in *. destruct j as [|j]; [by exists O|].
    destruct (IH Hnd j H) as (j' & Hj & Hl). exists (S j'). split; [lia|done].
Qed.
Lemma sem_progress s l s' op k : step s l s' -> sem_ok s -> (forall c q, l <> Cancel c op q) ->
  m_waiters s.1 !! k = Some op ->
  (is_own l = true /\ exists c, op ∈ completed s'.2 c) \/ exists j, (j + (if is_own l then 1 else 0) <= k)%nat /\ m_waiters s'.1 !! j = Some op.
Proof.
  intros Hs Hok Hn Hk. destruct Hs as [s [] s1 ->|s c op' Hm Hi|s c op' Hm Hc|o w c op' Hm Hin|o w w' He]; cbn [is_own].
  - destruct s as [[ws v] w]. cbn [fst m_waiters] in *. destruct ws as [|op0 ws]; [done|]. cbn [post extractFront fst snd]. destruct k as [|k].
    + injection Hk as ->. left. split; [done|]. destruct (room_controller _ _ _ (so_room _ Hok) op) as [c Hc]; [by constructor|]. exists c. by apply notify_granted.
    + right. exists k. split; [lia|done].
  - right. exists k. split; [lia|]. destruct s as [[ws v] w]. cbn [sync_waitAsync Semaphore_object waitAsync fst m_waiters] in *.
    destruct (v =? 0); [|done]. cbn. by apply lookup_app_l_Some.
  - right. destruct s as [[ws v] w]. cbn [sync_cancel Semaphore_object cancel fst m_waiters] in *.
    destruct (remove_position ws op' op k) as (j & Hj & Hl); [apply (so_room _ Hok)|intros ->; by eapply Hn|done|]. exists j. split; [lia|done].
  - right. exists k. split; [lia|done].
  - right. exists k. split; [lia|done].
Qed.
Lemma sem_served s t s' : run s t s' -> sem_ok s -> units s + Z.of_nat (count is_own t) < 2 ^ 32 ->
  forall k op, m_waiters s.1 !! k = Some op -> (k < count is_own t)%nat -> (forall c q, Cancel c op q ∉ t) ->
  (exists c, Take c op ∈ t) \/ exists c, op ∈ completed s'.2 c.
Proof.
  induction 1 as [s|s l s1 t s2 Hs Hr IH]; intros Hok Hb k op Hk Hp Hn; [cbn in Hp; lia|].
  assert (Hl : forall c q, l <> Cancel c op q) by (intros c q ->; apply (Hn c q); by constructor).
  assert (Hm : mine op = true).
  { pose proof (room_mine _ _ _ (so_room _ Hok)) as HF. rewrite Forall_forall in HF. apply HF. by eapply list_elem_of_lookup_2. }
  assert (H1 : run s [l] s1) by (econstructor; [done|constructor]). destruct (sem_run s [l] s1 H1 Hok) as [Hok1 Hu1].
  { unfold count in *. cbn [List.filter] in *. destruct (is_own l); cbn [length] in *; lia. }
  destruct (sem_progress s l s1 op k Hs Hok Hl Hk) as [[_ [c Hin]]|(j & Hj & Hk1)].
  - destruct (run_completed m_waiters posts mine s1 t s2 c op) as [[c' Ht]|Hc]; [done|done|intros c' q H; apply (Hn c' q); by constructor|done| |right; by exists c].
    left. exists c'. by constructor.
  - destruct (IH Hok1) with (k := j) (op := op) as [[c' Ht]|Hc]; [|done| |intros c' q H; apply (Hn c' q); by constructor|left; exists c'; by constructor|by right].
    + unfold count in *. cbn [List.filter] in *. destruct (is_own l), (is_take l), (is_lost l); cbn [length] in *; lia.
    + unfold count in *. cbn [List.filter] in *. destruct (is_own l); cbn [length] in *; lia.
Qed.
End Semaphore.
End SemaphoreProps.

(** ** Mutexes *)

#[export] Instance room_proper mine : Proper (Permutation ==> eq ==> iff) (room mine).
Proof.
  assert (forall ws ws' w, ws ≡ₚ ws' -> room mine ws w -> room mine ws' w) as H.
  { intros ws ws' w E [H1 H2 H3 H4 H5]. split; [by rewrite <- E|by rewrite <- E| | |done].
    - intros op. rewrite <- E. apply H3.
    - intros c op. rewrite <- E. apply H4. }
  intros ws ws' E w ? <-. split; apply H; [done|by symmetry].
Qed.

Module MutexProps.
Import Mutex.
Section Mutex.
Context (mine : Operation -> bool).

(** The flag tells whether the caller owns the mutex. *)
Definition releases (s : Mutex * world) (l : Controller * bool) (s' : Mutex * world) : Prop :=
  s' = post l.1 s /\ l.2 = bool_decide (m_pOwner s.1 = Some l.1).
Notation step := (step m_waiters releases mine).
Notation run := (run m_waiters releases mine).

(** Operations of a controller that are queued for delivery *)
Definition queued (c : Controller) (w : world) : nat := size (filter (fun p : Operation * Controller => p.2 = c) (granted mine w)).
Lemma queued_grant c w w' op c' : granted mine w' = <[op := c]> (granted mine w) -> granted mine w !! op = None ->
  queued c' w' = (queued c' w + if decide (c' = c) then 1 else 0)%nat.
Proof.
  intros E N. unfold queued. rewrite E. destruct (decide (c' = c)) as [->|Hne].
  - rewrite map_filter_insert_True by done. rewrite map_size_insert_None; [lia|]. apply map_lookup_filter_None. by left.
  - rewrite map_filter_insert_False by (cbn; congruence). rewrite delete_id by done. lia.
Qed.
Lemma queued_ungrant w w' op c c' : granted mine w' = delete op (granted mine w) -> mine op = true -> getController w op = Some c ->
  (queued c' w' + (if decide (c' = c /\ op ∈ completed w c) then 1 else 0) = queued c' w)%nat.
Proof.
  intros E Hm Hc. unfold queued. rewrite E, map_filter_delete. destruct (decide (op ∈ completed w c)) as [Hin|Hin].
  - assert (G : granted mine w !! op = Some c) by (by apply granted_lookup). destruct (decide (c' = c)) as [->|Hne].
    + rewrite decide_True by done. rewrite map_size_delete_Some by (exists c; by apply map_lookup_filter_Some).
      assert (size (filter (fun p : Operation * Controller => p.2 = c) (granted mine w)) <> 0)%nat; [|lia].
      rewrite map_size_ne_0_lookup. exists op, c. by apply map_lookup_filter_Some.
    + rewrite decide_False by tauto. rewrite delete_id; [lia|]. apply map_lookup_filter_None. right. intros x Hx. cbn. congruence.
  - rewrite decide_False by tauto. rewrite delete_id; [lia|]. apply map_lookup_filter_None. left. apply granted_none. right. intros c'' Hc''. congruence.
Qed.

Lemma extract_spec (f : Operation -> option Controller) l c :
  match extractByController f l c with
  | (Some op, rest) => exists l1 l2, l = l1 ++ op :: l2 /\ rest = l1 ++ l2 /\ f op = Some c
  | (None, rest) => rest = l /\ Forall (fun op => f op <> Some c) l
  end.
Proof.
  induction l as [|p l IH]; cbn [extractByController]; [done|]. case_bool_decide as Hp; [by exists [], l|].
  destruct (extractByController f l c) as [[op|] rest].
  - destruct IH as (l1 & l2 & -> & -> & Hf). by exists (p :: l1), l2.
  - destruct IH as [-> IH]. split; [done|]. by constructor.
Qed.

(** The hand-over of nested acquisitions *)
Lemma nested_spec fuel c ws n w : room mine ws w -> (length ws < fuel)%nat -> 0 <= n -> n + Z.of_nat (length ws) < 2 ^ 32 ->
  exists ws' w' (k : nat), nested fuel c ws n w = (ws', n + Z.of_nat k, w') /\ room mine ws' w' /\ (length ws' + k = length ws)%nat /\
  Forall (fun op => getController w' op <> Some c) ws' /\ (forall op, getController w' op = getController w op) /\
  (forall c', queued c' w' = queued c' w + if decide (c' = c) then k else 0)%nat /\
  (forall c' op, op ∈ completed w c' -> op ∈ completed w' c').
Proof.
  revert ws n w. induction fuel as [|fuel IH]; intros ws n w HR Hf Hn Hb; [lia|]. cbn [nested].
  pose proof (extract_spec (getController w) ws c) as HE. destruct (extractByController (getController w) ws c) as [[op|] rest].
  - destruct HE as (l1 & l2 & -> & -> & Hc). rewrite <- Permutation_middle in HR. destruct (room_grant_front mine _ w op HR) as (c0 & Hc0 & R1 & G1 & N1).
    assert (c0 = c) as -> by congruence. rewrite length_app in Hf, Hb. cbn [length] in Hf, Hb. unfold u32. rewrite wrap_small by lia.
    destruct (IH (l1 ++ l2) (n + 1) (notify op w)) as (ws' & w' & k & E & R & L & F1 & C1 & Q1 & M1); [done|rewrite length_app; lia|lia|rewrite length_app; lia|].
    exists ws', w', (S k). rewrite E. split; [f_equal; f_equal; lia|]. split; [done|]. rewrite length_app in *. cbn [length]. split; [lia|]. split; [done|].
    split; [intros p; rewrite C1; apply notify_controller|]. split; [|intros c' p Hp; apply M1; by apply notify_completed].
    intros c'. rewrite Q1, (queued_grant c w (notify op w) op c') by done. destruct (decide (c' = c)); lia.
  - destruct HE as [-> HE]. exists ws, w, O. rewrite Z.add_0_r. split; [done|]. split; [done|]. split; [lia|]. split; [done|]. split; [done|].
    split; [|done]. intros c'. destruct (decide (c' = c)); lia.
Qed.

#[export] Instance Mutex_laws : QueueLaws releases.
Proof.
  assert (HN : forall fuel c ws n w, (forall op, getController (nested fuel c ws n w).2 op = getController w op) /\
      forall c' op, op ∈ completed w c' -> op ∈ completed (nested fuel c ws n w).2 c').
  { induction fuel as [|fuel IH]; intros c ws n w; cbn [nested]; [done|]. destruct (extractByController _ ws c) as [[op|] rest]; [|done].
    destruct (IH c rest (u32 (n + 1)) (notify op w)) as [H1 H2]. split; [intros p; rewrite H1; apply notify_controller|].
    intros c' p Hp. apply H2. by apply notify_completed. }
  split.
  - intros [[ws n o] w] [c b] s' c' op [-> _] Hin. unfold post. cbn [fst]. case_bool_decide; [|done]. destruct (_ =? 0); [|done].
    destruct ws as [|op0 ws]; cbn [extractFront]; [done|]. destruct (getController w op0) as [c0|]; [|done].
    pose proof (proj2 (HN (S (length ws)) c0 ws 1 (notify op0 w)) c' op) as H2. destruct (nested _ _ _ _ _) as [[ws' n'] w']. apply H2. by apply notify_completed.
  - intros c op [[ws n o] w] c' op' Hin. cbn. case_bool_decide; [by apply notify_completed|]. case_bool_decide; [by apply notify_completed|done].
  - intros c op [[ws n o] w] c' op' Hne Hin. by apply revert_completed.
  - intros [[ws n o] w] [c b] s' op [-> _]. unfold post. cbn [fst]. case_bool_decide; [|done]. destruct (_ =? 0); [|done].
    destruct ws as [|op0 ws]; cbn [extractFront]; [done|]. destruct (getController w op0) as [c0|]; [|done].
    pose proof (proj1 (HN (S (length ws)) c0 ws 1 (notify op0 w)) op) as H2. destruct (nested _ _ _ _ _) as [[ws' n'] w']. cbn [snd] in *. rewrite H2. apply notify_controller.
  - intros c op [[ws n o] w] op'. cbn. case_bool_decide; [|case_bool_decide]; cbn [snd]; rewrite ?notify_controller; apply controller_set.
  - intros c op [[ws n o] w] op'. done.
Qed.

Definition holds (c : Controller) (s : Mutex * world) : Z := if decide (m_pOwner s.1 = Some c) then m_nestingLevel s.1 else 0.
(** Acquisitions of a controller that have been delivered *)
Definition acquired (c : Controller) (s : Mutex * world) : Z := holds c s - Z.of_nat (queued c s.2).
Definition weight (s : Mutex * world) : Z := m_nestingLevel s.1 + Z.of_nat (length (m_waiters s.1)).
Record mtx_ok (s : Mutex * world) : Prop := {
  mo_room : room mine (m_waiters s.1) s.2;
  mo_level : 0 <= m_nestingLevel s.1;
  mo_owner : match m_pOwner s.1 with
             | None => m_waiters s.1 = []
             | Some c => 1 <= m_nestingLevel s.1 /\ Forall (fun op => getController s.2 op <> Some c) (m_waiters s.1)
             end;
}.

Lemma mtx_wait s c op : mtx_ok s -> weight s + 1 < 2 ^ 32 -> mine op = true -> idle (m_waiters s.1) s.2 op ->
  let s' := waitAsync c op s in mtx_ok s' /\ (forall c', acquired c' s' = acquired c' s) /\ weight s' <= weight s + 1.
Proof.
  destruct s as [[ws n o] w]. intros [H1 H2 H3] Hb Hm Hi s'. subst s'. unfold weight, acquired, holds in *. cbn [fst snd m_waiters m_nestingLevel m_pOwner] in *.
  destruct (room_set mine ws w op c H1 Hi) as [R1 G1]. assert (Hc : getController (setController op c w) op = Some c) by (by rewrite controller_set, decide_True).
  assert (Hi' : idle ws (setController op c w) op) by exact Hi. destruct (room_grant mine ws _ op c R1 Hi' Hm Hc) as (R2 & G2 & N2).
  assert (Q2 : forall c', queued c' (notify op (setController op c w)) = (queued c' w + if decide (c' = c) then 1 else 0)%nat).
  { intros c'. apply (queued_grant c w _ op); [by rewrite G2, G1|by rewrite <- G1]. }
  assert (Q1 : forall c', queued c' (setController op c w) = queued c' w) by (intros c'; unfold queued; by rewrite G1).
  assert (HF : forall c', Forall (fun p => getController w p <> Some c') ws -> Forall (fun p => getController (setController op c w) p <> Some c') ws).
  { intros c' HF. apply Forall_forall. intros p Hp. rewrite Forall_forall in HF. rewrite controller_set, decide_False; [by apply HF|]. intros ->. by apply Hi. }
  cbn [waitAsync]. case_bool_decide as E1; [|case_bool_decide as E2]; cbn [fst snd m_waiters m_nestingLevel m_pOwner].
  - subst o. destruct H3 as [H3 H4]. unfold u32. rewrite wrap_small by lia. split; [|split; [|lia]].
    + split; cbn; [done|lia|]. split; [lia|]. apply HF in H4. eapply Forall_impl; [exact H4|]. intros p Hp. cbn in Hp. by rewrite notify_controller.
    + intros c'. rewrite Q2. destruct (decide (Some c = Some c')) as [[= <-]|Hne]; [rewrite decide_True by done; lia|]. rewrite decide_False by congruence. lia.
  - subst o ws. split; [|split; [|cbn [length] in *; lia]].
    + split; cbn; [done|lia|]. split; [lia|constructor].
    + intros c'. rewrite Q2. rewrite (decide_False (P := None = Some c')) by done.
      destruct (decide (Some c = Some c')) as [[= <-]|Hne]; [rewrite decide_True by done; lia|]. rewrite decide_False by congruence. lia.
  - destruct o as [c0|]; [|done]. destruct H3 as [H3 H4]. unfold pushBack. rewrite length_app. cbn [length]. split; [|split; [|lia]].
    + split; cbn; [by apply room_push|done|]. split; [done|]. apply Forall_app. split; [by apply HF|]. constructor; [|done]. rewrite Hc. congruence.
    + intros c'. by rewrite Q1.
Qed.
Lemma mtx_post s c : mtx_ok s -> weight s < 2 ^ 32 ->
  let s' := post c s in mtx_ok s' /\
  (forall c', acquired c' s' = acquired c' s - if decide (c' = c /\ m_pOwner s.1 = Some c) then 1 else 0) /\ weight s' <= weight s.
Proof.
  destruct s as [[ws n o] w]. intros [H1 H2 H3] Hb s'. subst s'. unfold weight, acquired, holds, post in *. cbn [fst snd m_waiters m_nestingLevel m_pOwner] in *.
  case_bool_decide as E1; [|split; [by split|]; split; [|done]; intros c'; rewrite (decide_False (P := c' = c /\ o = Some c)) by tauto; cbn; lia].
  subst o. destruct H3 as [H3 H4]. unfold u32. rewrite wrap_small by lia. destruct (Z.eqb_spec (n - 1) 0) as [En|En]; cbn [fst snd m_waiters m_nestingLevel m_pOwner].
  - assert (n = 1) as -> by lia. destruct ws as [|op ws]; cbn [extractFront fst snd m_waiters m_nestingLevel m_pOwner length].
    + split; [by split|]. split; [|lia]. intros c'. rewrite (decide_False (P := None = Some c')) by done.
      destruct (decide (Some c = Some c')) as [[= <-]|Hne]; [rewrite decide_True by done; lia|]. rewrite decide_False by (intros [-> _]; done). lia.
    + apply Forall_cons in H4 as [H4 _]. destruct (room_grant_front mine ws w op H1) as (c0 & Hc0 & R1 & G1 & N1). rewrite Hc0. cbn [length] in Hb.
      destruct (nested_spec (S (length ws)) c0 ws 1 (notify op w)) as (ws' & w' & k & E & R & L & F1 & C1 & Q1 & M1); [done|lia|lia|lia|].
      rewrite E. cbn [fst snd m_waiters m_nestingLevel m_pOwner]. split; [|split; [|lia]]; [split; cbn; [done|lia|split; [lia|done]]|].
      intros c'. rewrite Q1, (queued_grant c0 w (notify op w) op c') by done. rewrite Hc0 in H4.
      destruct (decide (Some c0 = Some c')) as [[= <-]|Hne].
      * rewrite !(decide_True (P := c0 = c0)) by done. rewrite (decide_False (P := Some c = Some c0)) by congruence.
        rewrite decide_False by (intros [-> _]; congruence). lia.
      * rewrite !(decide_False (P := c' = c0)) by congruence. destruct (decide (Some c = Some c')) as [[= <-]|Hne'].
        -- rewrite decide_True by done. lia.
        -- rewrite decide_False by (intros [-> _]; done). lia.
  - split; [|split; [|lia]]; [split; cbn; [done|lia|split; [lia|done]]|]. intros c'. destruct (decide (Some c = Some c')) as [[= <-]|Hne].
    + rewrite decide_True by done. lia.
    + rewrite decide_False by (intros [-> _]; done). lia.
Qed.
Lemma mtx_cancel s c op : mtx_ok s -> mine op = true -> getController s.2 op = Some c ->
  let s' := cancel c op s in mtx_ok s' /\
  (forall c', acquired c' s' = acquired c' s + if decide (c' = c /\ op ∈ completed s.2 c) then 1 else 0) /\ weight s' <= weight s.
Proof.
  destruct s as [[ws n o] w]. intros [H1 H2 H3] Hm Hc s'. subst s'. unfold weight, acquired, holds in *. cbn [cancel fst snd m_waiters m_nestingLevel m_pOwner] in *.
  destruct (room_revert mine ws w op c H1 Hm Hc) as (R1 & G1 & _). destruct (room_leave mine ws _ op R1) as [R2 _].
  assert (HS : (length (remove ws op).2 <= length ws)%nat) by (rewrite remove_spec by apply H1; apply length_filter).
  split; [|split; [|lia]].
  - split; cbn; [done|done|]. destruct o as [c0|]; [|by rewrite H3]. destruct H3 as [H3 H4]. split; [done|]. rewrite remove_spec by apply H1. cbn [snd].
    apply Forall_forall. intros p Hp. apply list_elem_of_filter in Hp as [_ Hp]. rewrite Forall_forall in H4. by apply H4.
  - intros c'. pose proof (queued_ungrant w (revertPost c op w) op c c' G1 Hm Hc) as HQ. destruct (decide (c' = c /\ op ∈ completed w c)); lia.
Qed.
Lemma mtx_take o w c op : mtx_ok (o, w) -> mine op = true -> op ∈ completed w c ->
  let s' := (o, (check_for c op w).2) in mtx_ok s' /\ (forall c', acquired c' s' = acquired c' (o, w) + if decide (c' = c) then 1 else 0).
Proof.
  intros [H1 H2 H3] Hm Hin s'. subst s'. rewrite (check_for_found w op c Hin). cbn [fst snd] in *. destruct (room_queue mine _ _ H1 c op Hm Hin) as [Hc _].
  destruct (room_revert mine _ w op c H1 Hm Hc) as (R1 & G1 & _). split; [by split|]. intros c'. unfold acquired, holds. cbn [fst snd].
  pose proof (queued_ungrant w (revertPost c op w) op c c' G1 Hm Hc) as HQ. destruct (decide (c' = c)).
  - rewrite decide_True in HQ by done. lia.
  - rewrite decide_False in HQ by tauto. lia.
Qed.

Definition is_wait (l : label (Controller * bool)) : bool := match l with WaitAsync _ _ => true | _ => false end.
Definition acquires (c : Controller) (l : label (Controller * bool)) : bool :=
  match l with Take c' _ => bool_decide (c' = c) | Cancel c' _ q => bool_decide (c' = c) && q | _ => false end.
Definition frees (c : Controller) (l : label (Controller * bool)) : bool := match l with Own (c', owner) => bool_decide (c' = c) && owner | _ => false end.

(** What has been delivered to a controller or was queued when it cancelled, less its
    releases, is what it holds. *)
Lemma mtx_run s t s' : run s t s' -> mtx_ok s -> weight s + Z.of_nat (count is_wait t) < 2 ^ 32 ->
  mtx_ok s' /\ (forall c, acquired c s' = acquired c s + Z.of_nat (count (acquires c) t) - Z.of_nat (count (frees c) t)) /\
  weight s' <= weight s + Z.of_nat (count is_wait t).
Proof.
  induction 1 as [s|s l s1 t s2 Hs Hr IH]; intros Hok Hb; [cbn; split; [done|]; split; [intros; lia|lia]|].
  assert (HC : forall p, Z.of_nat (count p (l :: t)) = (if p l then 1 else 0) + Z.of_nat (count p t)).
  { intros p. unfold count. cbn [List.filter]. destruct (p l); cbn [length]; lia. }
  assert (Hstep : mtx_ok s1 /\ (forall c, acquired c s1 = acquired c s + (if acquires c l then 1 else 0) - (if frees c l then 1 else 0)) /\
     weight s1 <= weight s + (if is_wait l then 1 else 0)).
  { rewrite HC in Hb. destruct Hs as [s [c b] s1 [-> Eb]|s c op Hm Hi|s c op Hm Hc|o w c op Hm Hin|o w w' He]; cbn [is_wait acquires frees fst snd] in *.
    - destruct (mtx_post s c Hok ltac:(lia)) as (A & B & C). split; [done|]. split; [|lia]. intros c'. rewrite B, Eb.
      destruct (decide (c' = c /\ m_pOwner s.1 = Some c)) as [[-> E]|Hn]; [rewrite !bool_decide_eq_true_2 by done; cbn; lia|].
      destruct (decide (c' = c)) as [->|Hc]; [rewrite (bool_decide_eq_false_2 (m_pOwner s.1 = Some c)) by tauto|rewrite (bool_decide_eq_false_2 (c = c')) by congruence];
        rewrite ?andb_false_r; cbn; lia.
    - destruct (mtx_wait s c op Hok ltac:(lia) Hm Hi) as (A & B & C). split; [done|]. split; [|exact C]. intros c'.
      cbn [sync_waitAsync Mutex_object]. rewrite B. lia.
    - destruct (mtx_cancel s c op Hok Hm Hc) as (A & B & C). split; [done|]. split; [|cbn [sync_cancel Mutex_object]; lia]. intros c'.
      cbn [sync_cancel Mutex_object]. rewrite B. destruct (decide (c' = c)) as [->|Hne].
      + rewrite (bool_decide_eq_true_2 (c = c)) by done. cbn [andb]. case_bool_decide; [rewrite decide_True by done|rewrite decide_False by tauto]; lia.
      + rewrite (bool_decide_eq_false_2 (c = c')) by congruence. rewrite decide_False by tauto. cbn. lia.
    - destruct (mtx_take o w c op Hok Hm Hin) as (A & B). split; [done|]. split; [|unfold weight; cbn; lia]. intros c'. rewrite B.
      destruct (decide (c' = c)) as [->|Hne]; [rewrite bool_decide_eq_true_2 by done|rewrite bool_decide_eq_false_2 by congruence]; lia.
    - destruct Hok as [H1 H2 H3]. destruct (room_env mine _ w w' H1 He) as [R G]. split; [|split; [|unfold weight; cbn; lia]].
      + split; cbn; [done|done|]. cbn [fst snd] in H3. destruct (m_pOwner o) as [c0|]; [|done]. destruct H3 as [H3 H4]. split; [done|]. apply Forall_forall. intros p Hp.
        rewrite Forall_forall in H4. cbn [snd] in *. rewrite (proj1 He); [by apply H4|]. pose proof (room_mine _ _ _ H1) as HM. rewrite Forall_forall in HM. by apply HM.
      + intros c. unfold acquired, holds, queued. cbn [fst snd]. rewrite G. lia. }
  destruct Hstep as (A & B & C). rewrite HC in Hb. destruct (IH A) as (A' & B' & C'); [lia|]. split; [done|]. split; [|rewrite HC; lia].
  intros c. rewrite B', B, !HC. lia.
Qed.
End Mutex.
End MutexProps.

(** ** Message exchange *)

Module ExchangeProps.
Import MessageExchange.
Section Exchange.
Context (mine : Operation -> bool).
Notation state := (MessageExchange * world)%type.

Inductive xlabel :=
  | SendAsync (ctl : Controller) (op : Operation) (data : list Z)
  | ReceiveAsync (ctl : Controller) (op : Operation) (buffer : list Z)
  | XCancel (ctl : Controller) (op : Operation)
  | XTake (ctl : Controller) (op : Operation)
  | XEnv.
Definition pending (x : MessageExchange) : list Operation := m_pendingSends x ++ m_pendingReceives x.
Definition with_send (op : Operation) (data : list Z) (x : MessageExchange) : MessageExchange :=
  mkExchange (m_pendingSends x) (m_pendingReceives x) (<[op := SendOperation_new data]> (sends x)) (receives x).
Definition with_receive (op : Operation) (buffer : list Z) (x : MessageExchange) : MessageExchange :=
  mkExchange (m_pendingSends x) (m_pendingReceives x) (sends x) (<[op := ReceiveOperation_new buffer]> (receives x)).
Definition ops_of (l : xlabel) : list Operation := match l with SendAsync _ op _ | ReceiveAsync _ op _ => [op] | _ => [] end.
Definition used (t : list xlabel) : list Operation := t ≫= ops_of.

(** Each operation is constructed, used once, and possibly cancelled. *)
Inductive xstep (t : list xlabel) : state -> xlabel -> state -> Prop :=
  | xstep_send x w c op data : mine op = true -> op ∉ used t -> idle (pending x) w op ->
      xstep t (x, w) (SendAsync c op data) (sendAsync c op (with_send op data x, w))
  | xstep_receive x w c op buffer : mine op = true -> op ∉ used t -> idle (pending x) w op ->
      xstep t (x, w) (ReceiveAsync c op buffer) (receiveAsync c op (with_receive op buffer x, w))
  | xstep_cancel s c op : mine op = true -> getController s.2 op = Some c -> xstep t s (XCancel c op) (cancel c op s)
  | xstep_take x w c op : mine op = true -> op ∈ completed w c -> xstep t (x, w) (XTake c op) (x, (check_for c op w).2)
  | xstep_env x w w' : env mine w w' -> xstep t (x, w) XEnv (x, w').
Inductive xrun : list xlabel -> state -> Prop :=
  | xrun_nil w : (forall c op, mine op = true -> op ∉ completed w c) -> xrun [] (MessageExchange_new, w)
  | xrun_snoc t s l s' : xrun t s -> xstep t s l s' -> xrun (t ++ [l]) s'.

(** A send and a receive operation, and the message *)
Definition transferred (x : MessageExchange) (tx rx : Operation) (data buffer : list Z) : Prop :=
  let n := Nat.min (length buffer) (length data) in
  send_of x tx = mkSend data n /\ receive_of x rx = mkReceive (take n data ++ drop n buffer) n.
Record exchanged (t : list xlabel) (s : state) (pairs : list (Operation * Operation)) : Prop := {
  xc_room : room mine (pending s.1) s.2;
  xc_one : m_pendingSends s.1 = [] \/ m_pendingReceives s.1 = [];
  xc_nodup : NoDup (map fst pairs ++ map snd pairs ++ pending s.1);
  xc_used op : op ∈ map fst pairs ++ map snd pairs ++ pending s.1 -> op ∈ used t;
  xc_pairs tx rx : (tx, rx) ∈ pairs ->
    exists c data c' buffer, SendAsync c tx data ∈ t /\ ReceiveAsync c' rx buffer ∈ t /\ transferred s.1 tx rx data buffer;
  xc_pendingSends op : op ∈ m_pendingSends s.1 -> exists c data, SendAsync c op data ∈ t;
  xc_pendingReceives op : op ∈ m_pendingReceives s.1 -> exists c buffer, ReceiveAsync c op buffer ∈ t;
  xc_sends c op data : SendAsync c op data ∈ t -> op ∉ map fst pairs -> send_of s.1 op = SendOperation_new data;
  xc_receives c op buffer : ReceiveAsync c op buffer ∈ t -> op ∉ map snd pairs -> receive_of s.1 op = ReceiveOperation_new buffer;
  xc_queued c op : mine op = true -> op ∈ completed s.2 c -> op ∈ map fst pairs ++ map snd pairs;
  xc_delivered op : op ∈ map fst pairs ++ map snd pairs -> (exists c, op ∈ completed s.2 c) \/ exists c, XTake c op ∈ t \/ XCancel c op ∈ t;
  xc_fifo : (forall c op, XCancel c op ∉ t) ->
    (t ≫= fun l => match l with SendAsync _ op _ => [op] | _ => [] end) = map fst pairs ++ m_pendingSends s.1 /\
    (t ≫= fun l => match l with ReceiveAsync _ op _ => [op] | _ => [] end) = map snd pairs ++ m_pendingReceives s.1;
}.

Lemma copyFrom_new data buffer :
  let n := Nat.min (length buffer) (length data) in
  copyFrom (ReceiveOperation_new buffer) (SendOperation_new data) = (mkReceive (take n data ++ drop n buffer) n, mkSend data n).
Proof. done. Qed.

Lemma used_snoc t l : used (t ++ [l]) = used t ++ ops_of l.
Proof. unfold used. rewrite bind_app. cbn. by rewrite app_nil_r. Qed.
Lemma elem_snoc {A} (t : list A) l l' : l' ∈ t ++ [l] <-> l' ∈ t \/ l' = l.
Proof. by rewrite elem_of_app, list_elem_of_singleton. Qed.
Lemma used_send t c op data : SendAsync c op data ∈ t -> op ∈ used t.
Proof. intros H. apply list_elem_of_bind. exists (SendAsync c op data). split; [by constructor|done]. Qed.
Lemma used_receive t c op buffer : ReceiveAsync c op buffer ∈ t -> op ∈ used t.
Proof. intros H. apply list_elem_of_bind. exists (ReceiveAsync c op buffer). split; [by constructor|done]. Qed.

(** Steps that do not start an operation *)
Lemma exchanged_rest t s pairs x' w' l :
  exchanged t s pairs -> ops_of l = [] ->
  m_pendingSends x' = m_pendingSends s.1 /\ m_pendingReceives x' = m_pendingReceives s.1 \/ (exists c op, l = XCancel c op) ->
  m_pendingSends x' ⊆ m_pendingSends s.1 -> m_pendingReceives x' ⊆ m_pendingReceives s.1 -> NoDup (pending x') ->
  m_pendingSends x' = [] \/ m_pendingReceives x' = [] ->
  sends x' = sends s.1 -> receives x' = receives s.1 -> room mine (pending x') w' ->
  (forall c op, mine op = true -> op ∈ completed w' c -> op ∈ completed s.2 c) ->
  (forall c op, op ∈ map fst pairs ++ map snd pairs -> op ∈ completed s.2 c -> op ∈ completed w' c \/ l = XTake c op \/ l = XCancel c op) ->
  exchanged (t ++ [l]) (x', w') pairs.
Proof.
  intros [R O N U P PS PR S1 R1 Q D F] Hl HF Hps Hpr Hnd Hone Es Er HR HQ HD.
  assert (HU : used (t ++ [l]) = used t) by (rewrite used_snoc, Hl; apply app_nil_r).
  assert (HS : forall op, send_of x' op = send_of s.1 op) by (intros op; unfold send_of; by rewrite Es).
  assert (HR' : forall op, receive_of x' op = receive_of s.1 op) by (intros op; unfold receive_of; by rewrite Er).
  assert (Hsub : pending x' ⊆ pending s.1) by (unfold pending; intros op; rewrite !elem_of_app; naive_solver).
  split; cbn [fst snd]; [done|done| | | | | | | | | |].
  - rewrite app_assoc in N |- *. apply NoDup_app in N as (N1 & N2 & N3). apply NoDup_app. split; [done|]. split; [|done]. intros op H1 H2. by apply (N2 op H1), Hsub.
  - intros op. rewrite HU. intros H. apply U. rewrite !elem_of_app in *. destruct H as [H|[H|H]]; [tauto|tauto|right; right; by apply Hsub].
  - intros tx rx H. destruct (P tx rx H) as (c & data & c' & buffer & H1 & H2 & H3). exists c, data, c', buffer. rewrite !elem_snoc. split; [by left|]. split; [by left|].
    unfold transferred in *. by rewrite HS, HR'.
  - intros op H. destruct (PS op (Hps op H)) as (c & data & H1). exists c, data. apply elem_snoc. by left.
  - intros op H. destruct (PR op (Hpr op H)) as (c & data & H1). exists c, data. apply elem_snoc. by left.
  - intros c op data. rewrite elem_snoc, HS. intros [H| <-]; [by apply (S1 c)|done].
  - intros c op data. rewrite elem_snoc, HR'. intros [H| <-]; [by apply (R1 c)|done].
  - intros c op Hm H. by apply (Q c), HQ.
  - intros op H. destruct (D op H) as [[c Hc]|[c Hc]].
    + destruct (HD c op H Hc) as [H1|H1]; [left; by exists c|]. right. exists c. rewrite !elem_snoc. destruct H1 as [->| ->]; tauto.
    + right. exists c. rewrite !elem_snoc. tauto.
  - intros Hn. destruct HF as [[E1 E2]|(c & op & ->)]; [|exfalso; apply (Hn c op), elem_snoc; by right].
    destruct F as [F1 F2]; [intros c op H; apply (Hn c op), elem_snoc; by left|]. rewrite !bind_app. cbn. rewrite E1, E2.
    destruct l; try done; cbn; rewrite !app_nil_r; done.
Qed.

(** The operation is paired with one that waits. *)
Lemma room_pair rx ws w op c : room mine (rx :: ws) w -> mine op = true -> idle (rx :: ws) w op ->
  let w' := notify op (notify rx (setController op c w)) in
  room mine ws w' /\ (forall c' p, p ∈ completed w' c' -> p ∈ completed w c' \/ p = rx \/ p = op) /\
  (forall c' p, p ∈ completed w c' -> p ∈ completed w' c') /\ (exists c', rx ∈ completed w' c') /\ op ∈ completed w' c.
Proof.
  intros HR Hm Hi w'. destruct (room_set mine _ w op c HR Hi) as [R1 _]. set (w1 := setController op c w) in *.
  assert (Hc : getController w1 op = Some c) by (unfold w1; by rewrite controller_set, decide_True).
  destruct (room_grant_front mine ws w1 rx R1) as (c0 & Hc0 & R2 & _ & _). destruct Hi as [I1 I2]. apply not_elem_of_cons in I1 as [I0 I1].
  assert (I3 : idle ws (notify rx w1) op).
  { split; [done|]. intros c' Hin. apply notify_elem in Hin as [Hin|Hin]; [by apply (I2 c')|congruence]. }
  assert (Hc1 : getController (notify rx w1) op = Some c) by (by rewrite notify_controller). subst w'.
  split; [by apply (room_grant mine ws _ op c)|]. split; [|split; [|split]].
  - intros c' p Hp. apply notify_elem in Hp as [Hp| ->]; [|tauto]. apply notify_elem in Hp as [Hp| ->]; tauto.
  - intros c' p Hp. apply notify_completed, notify_completed. done.
  - exists c0. apply notify_completed. by apply notify_granted.
  - by apply notify_granted.
Qed.

(** No partner: the operation waits. *)
Lemma send_waits t ps xs xr w pairs c op data : exchanged t (mkExchange ps [] xs xr, w) pairs -> mine op = true -> op ∉ used t -> idle ps w op ->
  exchanged (t ++ [SendAsync c op data]) (mkExchange (ps ++ [op]) [] (<[op := SendOperation_new data]> xs) xr, setController op c w) pairs.
Proof.
  intros [R O N U P PS PR S1 R1 Q D F] Hm Hu Hi. unfold pending in *. cbn [fst snd m_pendingSends m_pendingReceives app] in *. rewrite ?app_nil_r in *.
  destruct (room_set mine _ w op c R Hi) as [R2 _]. set (x' := mkExchange (ps ++ [op]) [] (<[op := SendOperation_new data]> xs) xr).
  assert (HS : forall p, send_of x' p = if decide (p = op) then SendOperation_new data else default (SendOperation_new []) (xs !! p)).
  { intros p. unfold send_of, x'. cbn [sends]. destruct (decide (p = op)) as [->|]; [by rewrite lookup_insert_eq|by rewrite lookup_insert_ne]. }
  assert (Hp : map fst pairs ++ map snd pairs ++ ps ++ [op] ≡ₚ op :: map fst pairs ++ map snd pairs ++ ps) by solve_Permutation.
  split; unfold pending; cbn [fst snd]; change (m_pendingSends x') with (ps ++ [op]); change (m_pendingReceives x') with (@nil Operation); cbn [app]; rewrite ?app_nil_r.
  - apply room_push; [done|exact Hi|done|]. rewrite controller_set, decide_True by done. done.
  - by right.
  - rewrite Hp. apply NoDup_cons. split; [intros H; by apply Hu, U|done].
  - intros p. rewrite Hp, used_snoc, elem_of_cons. intros [->|H]; apply elem_of_app; [right; by constructor|left; by apply U].
  - intros tx rx H. destruct (P tx rx H) as (c1 & d1 & c2 & b2 & H1 & H2 & H3 & H4). exists c1, d1, c2, b2. rewrite !elem_snoc. split; [by left|]. split; [by left|].
    split; [|done]. rewrite HS. rewrite decide_False; [done|]. intros ->. apply Hu. by eapply used_send.
  - intros p. rewrite elem_of_app, list_elem_of_singleton. intros [H| ->]; [|exists c, data; apply elem_snoc; by right].
    destruct (PS p H) as (c1 & d1 & H1). exists c1, d1. apply elem_snoc. by left.
  - intros p H. by apply not_elem_of_nil in H.
  - intros c1 p d1 H Hp'. rewrite HS. apply elem_snoc in H as [H|[= -> -> ->]]; [|by rewrite decide_True].
    rewrite decide_False; [by apply (S1 c1)|]. intros ->. apply Hu. by eapply used_send.
  - intros c1 p d1 H Hp'. apply elem_snoc in H as [H|H]; [|done]. by apply (R1 c1).
  - exact Q.
  - intros p H. destruct (D p H) as [H1|[c1 H1]]; [by left|right; exists c1; rewrite !elem_snoc; tauto].
  - intros Hn. destruct F as [F1 F2]; [intros c1 p H; apply (Hn c1 p), elem_snoc; by left|]. rewrite !bind_app. cbn. rewrite F1, F2, ?app_nil_r, <- ?app_assoc. done.
Qed.
(** No partner: the operation waits. *)
Lemma receive_waits t pr xs xr w pairs c op data : exchanged t (mkExchange [] pr xs xr, w) pairs -> mine op = true -> op ∉ used t -> idle pr w op ->
  exchanged (t ++ [ReceiveAsync c op data]) (mkExchange [] (pr ++ [op]) xs (<[op := ReceiveOperation_new data]> xr), setController op c w) pairs.
Proof.
  intros [R O N U P PS PR S1 R1 Q D F] Hm Hu Hi. unfold pending in *. cbn [fst snd m_pendingSends m_pendingReceives app] in *. rewrite ?app_nil_r in *.
  destruct (room_set mine _ w op c R Hi) as [R2 _]. set (x' := mkExchange [] (pr ++ [op]) xs (<[op := ReceiveOperation_new data]> xr)).
  assert (HS : forall p, receive_of x' p = if decide (p = op) then ReceiveOperation_new data else default (ReceiveOperation_new []) (xr !! p)).
  { intros p. unfold receive_of, x'. cbn [receives]. destruct (decide (p = op)) as [->|]; [by rewrite lookup_insert_eq|by rewrite lookup_insert_ne]. }
  assert (Hp : map fst pairs ++ map snd pairs ++ pr ++ [op] ≡ₚ op :: map fst pairs ++ map snd pairs ++ pr) by solve_Permutation.
  split; unfold pending; cbn [fst snd]; change (m_pendingSends x') with (@nil Operation); change (m_pendingReceives x') with (pr ++ [op]); cbn [app]; rewrite ?app_nil_r.
  - apply room_push; [done|exact Hi|done|]. rewrite controller_set, decide_True by done. done.
  - by left.
  - rewrite Hp. apply NoDup_cons. split; [intros H; by apply Hu, U|done].
  - intros p. rewrite Hp, used_snoc, elem_of_cons. intros [->|H]; apply elem_of_app; [right; by constructor|left; by apply U].
  - intros tx rx H. destruct (P tx rx H) as (c1 & d1 & c2 & b2 & H1 & H2 & H3 & H4). exists c1, d1, c2, b2. rewrite !elem_snoc. split; [by left|]. split; [by left|].
    split; [done|]. rewrite HS. rewrite decide_False; [done|]. intros ->. apply Hu. by eapply used_receive.
  - intros p H. by apply not_elem_of_nil in H.
  - intros p. rewrite elem_of_app, list_elem_of_singleton. intros [H| ->]; [|exists c, data; apply elem_snoc; by right].
    destruct (PR p H) as (c1 & d1 & H1). exists c1, d1. apply elem_snoc. by left.
  - intros c1 p d1 H Hp'. apply elem_snoc in H as [H|H]; [|done]. by apply (S1 c1).
  - intros c1 p d1 H Hp'. rewrite HS. apply elem_snoc in H as [H|[= -> -> ->]]; [|by rewrite decide_True].
    rewrite decide_False; [by apply (R1 c1)|]. intros ->. apply Hu. by eapply used_receive.
  - exact Q.
  - intros p H. destruct (D p H) as [H1|[c1 H1]]; [by left|right; exists c1; rewrite !elem_snoc; tauto].
  - intros Hn. destruct F as [F1 F2]; [intros c1 p H; apply (Hn c1 p), elem_snoc; by left|]. rewrite !bind_app. cbn. rewrite F1, F2, ?app_nil_r, <- ?app_assoc. done.
Qed.
(** A new operation [op] meets one that waits, [q]. *)
Definition meets (t : list xlabel) (x x' : MessageExchange) (l : xlabel) (op q tx rx : Operation) (data buffer : list Z) : Prop :=
  op ∉ used t /\
  ((op = tx /\ q = rx /\ (exists c, l = SendAsync c tx data) /\ (exists c, ReceiveAsync c rx buffer ∈ t) /\
    m_pendingSends x = [] /\ m_pendingReceives x = rx :: m_pendingReceives x' /\ m_pendingSends x' = []) \/
   (op = rx /\ q = tx /\ (exists c, l = ReceiveAsync c rx buffer) /\ (exists c, SendAsync c tx data ∈ t) /\
    m_pendingReceives x = [] /\ m_pendingSends x = tx :: m_pendingSends x' /\ m_pendingReceives x' = [])).
Lemma meets_facts t s x' pairs l op q tx rx data buffer : exchanged t s pairs -> meets t s.1 x' l op q tx rx data buffer ->
  pending s.1 ≡ₚ q :: pending x' /\ ops_of l = [op] /\ (forall c p, l <> XCancel c p) /\
  (exists c, SendAsync c tx data ∈ t ++ [l]) /\ (exists c, ReceiveAsync c rx buffer ∈ t ++ [l]) /\
  (m_pendingSends x' = [] \/ m_pendingReceives x' = []) /\
  map fst (pairs ++ [(tx, rx)]) ++ map snd (pairs ++ [(tx, rx)]) ++ pending x' ≡ₚ op :: map fst pairs ++ map snd pairs ++ pending s.1 /\
  NoDup (op :: map fst pairs ++ map snd pairs ++ pending s.1) /\ tx ∉ map fst pairs /\ rx ∉ map snd pairs /\
  m_pendingSends x' ⊆ m_pendingSends s.1 /\ m_pendingReceives x' ⊆ m_pendingReceives s.1.
Proof.
  intros [R O N U P PS PR S1 R1 Q D F] [Hu Hcase]. assert (Hnd : NoDup (op :: map fst pairs ++ map snd pairs ++ pending s.1)).
  { apply NoDup_cons. split; [intros H; by apply Hu, U|done]. }
  assert (Hp : pending s.1 ≡ₚ q :: pending x').
  { unfold pending. destruct Hcase as [(-> & -> & _ & _ & -> & -> & ->)|(-> & -> & _ & _ & -> & -> & ->)]; rewrite ?app_nil_r; done. }
  assert (Hall : map fst (pairs ++ [(tx, rx)]) ++ map snd (pairs ++ [(tx, rx)]) ++ pending x' ≡ₚ op :: map fst pairs ++ map snd pairs ++ pending s.1).
  { rewrite Hp, !map_app. cbn [map fst snd]. destruct Hcase as [(-> & -> & _)|(-> & -> & _)]; solve_Permutation. }
  rewrite <- Hall in Hnd. pose proof Hnd as Hnd'. rewrite !map_app in Hnd'. cbn [map fst snd] in Hnd'. rewrite Hall in Hnd.
  assert (Hfresh : tx ∉ map fst pairs /\ rx ∉ map snd pairs).
  { apply NoDup_app in Hnd' as (H1 & _ & H2). apply NoDup_app in H1 as (_ & H1 & _). apply NoDup_app in H2 as (H2 & _ & _). apply NoDup_app in H2 as (_ & H2 & _).
    split; [intros H; apply (H1 tx H)|intros H; apply (H2 rx H)]; by constructor. }
  destruct Hfresh as [Hf1 Hf2]. split; [done|].
  destruct Hcase as [(-> & -> & (c & ->) & (c2 & Hr) & E1 & E2 & E3)|(-> & -> & (c & ->) & (c2 & Hs) & E1 & E2 & E3)]; rewrite E1, E2, E3;
    (split; [done|]; split; [done|]; split; [(exists c + exists c2); apply elem_snoc; by auto|]; split; [(exists c + exists c2); apply elem_snoc; by auto|]).
  - split; [by left|]. split; [done|]. split; [done|]. split; [done|]. split; [done|]. split; [done|]. intros p H. by constructor.
  - split; [by right|]. split; [done|]. split; [done|]. split; [done|]. split; [done|]. split; [|done]. intros p H. by constructor.
Qed.
Lemma exchanged_pair t x w x' w' pairs l op q tx rx data buffer :
  let n := Nat.min (length buffer) (length data) in
  exchanged t (x, w) pairs -> meets t x x' l op q tx rx data buffer ->
  (forall p, send_of x' p = if decide (p = tx) then mkSend data n else send_of x p) ->
  (forall p, receive_of x' p = if decide (p = rx) then mkReceive (take n data ++ drop n buffer) n else receive_of x p) ->
  room mine (pending x') w' ->
  (forall c p, p ∈ completed w' c -> p ∈ completed w c \/ p = q \/ p = op) -> (forall c p, p ∈ completed w c -> p ∈ completed w' c) ->
  (exists c, q ∈ completed w' c) -> (exists c, op ∈ completed w' c) ->
  exchanged (t ++ [l]) (x', w') (pairs ++ [(tx, rx)]).
Proof.
  intros n HX HM HS HR R3 Q3 M3 Gq Gop. destruct (meets_facts t (x, w) x' pairs l op q tx rx data buffer HX HM)
    as (Hp & Hops & Hnc & [cs Hs] & [cr Hr] & Hone & Hall & Hnd & Hf1 & Hf2 & Hps & Hpr).
  destruct HX as [R O N U P PS PR S1 R1 Q D F]. cbn [fst snd] in *.
  assert (Htwo : forall p, p = tx \/ p = rx <-> p = op \/ p = q) by (destruct HM as [_ [(-> & -> & _)|(-> & -> & _)]]; intros p; tauto).
  assert (Hin : forall p, p ∈ map fst (pairs ++ [(tx, rx)]) ++ map snd (pairs ++ [(tx, rx)]) <-> p ∈ map fst pairs ++ map snd pairs \/ p = tx \/ p = rx).
  { intros p. rewrite !map_app, !elem_of_app. cbn [map fst snd]. rewrite !list_elem_of_singleton. tauto. }
  split; cbn [fst snd]; [done|done|by rewrite Hall| | | | | | | | |].
  - intros p. rewrite Hall, used_snoc, Hops, elem_of_cons. intros [->|H]; apply elem_of_app; [right; by constructor|left; by apply U].
  - intros tx1 rx1. rewrite elem_snoc. intros [H|[= -> ->]].
    + destruct (P tx1 rx1 H) as (c1 & d1 & c3 & b3 & H1 & H2 & H3 & H4). exists c1, d1, c3, b3. rewrite !elem_snoc. split; [by left|]. split; [by left|]. split.
      * rewrite HS, decide_False; [done|]. intros ->. apply Hf1, list_elem_of_fmap. by exists (tx, rx1).
      * rewrite HR, decide_False; [done|]. intros ->. apply Hf2, list_elem_of_fmap. by exists (tx1, rx).
    + exists cs, data, cr, buffer. split; [done|]. split; [done|]. split; [by rewrite HS, decide_True|by rewrite HR, decide_True].
  - intros p H. destruct (PS p (Hps p H)) as (c1 & d1 & H1). exists c1, d1. apply elem_snoc. by left.
  - intros p H. destruct (PR p (Hpr p H)) as (c1 & d1 & H1). exists c1, d1. apply elem_snoc. by left.
  - intros c1 p d1 H. rewrite map_app, not_elem_of_app. cbn [map fst]. rewrite list_elem_of_singleton. intros [Hp1 Hp2]. rewrite HS, decide_False by done.
    apply elem_snoc in H as [H|H]; [by apply (S1 c1)|]. destruct HM as [_ [(_ & _ & (c & ->) & _)|(_ & _ & (c & ->) & _)]]; naive_solver.
  - intros c1 p d1 H. rewrite map_app, not_elem_of_app. cbn [map snd]. rewrite list_elem_of_singleton. intros [Hp1 Hp2]. rewrite HR, decide_False by done.
    apply elem_snoc in H as [H|H]; [by apply (R1 c1)|]. destruct HM as [_ [(_ & _ & (c & ->) & _)|(_ & _ & (c & ->) & _)]]; naive_solver.
  - intros c1 p Hmp H. apply Hin. apply Q3 in H as [H|H]; [left; by apply (Q c1)|right; apply Htwo; tauto].
  - intros p H. apply Hin in H as [H|H]; [|apply Htwo in H as [->| ->]; by left].
    destruct (D p H) as [[c1 H1]|[c1 H1]]; [left; exists c1; by apply M3|right; exists c1; rewrite !elem_snoc; tauto].
  - intros Hn. destruct F as [F1 F2]; [intros c1 p H; apply (Hn c1 p), elem_snoc; by left|]. rewrite !bind_app, !map_app. cbn. rewrite F1, F2.
    destruct HM as [_ [(_ & _ & (c & ->) & _ & -> & -> & ->)|(_ & _ & (c & ->) & _ & -> & -> & ->)]]; cbn; rewrite ?app_nil_r, <- ?app_assoc; done.
Qed.

Lemma exchanged_send t x w pairs c op data : exchanged t (x, w) pairs -> mine op = true -> op ∉ used t -> idle (pending x) w op ->
  exists pairs', exchanged (t ++ [SendAsync c op data]) (sendAsync c op (with_send op data x, w)) pairs'.
Proof.
  intros HX Hm Hu Hi. destruct x as [ps [|rx pr] xs xr]; unfold pending in Hi; cbn [m_pendingSends m_pendingReceives] in Hi.
  - exists pairs. rewrite app_nil_r in Hi. by apply send_waits.
  - destruct (xc_one _ _ _ HX) as [E|E]; [|done]. cbn in E. subst ps. exists (pairs ++ [(op, rx)]).
    destruct (xc_pendingReceives _ _ _ HX rx ltac:(by constructor)) as (c2 & buffer & Hrx). pose proof (used_receive t c2 rx buffer Hrx) as Hrx'.
    destruct (room_pair rx pr w op c (xc_room _ _ _ HX) Hm Hi) as (R3 & Q3 & M3 & Grx & Gop).
    assert (Hns : rx ∉ map snd pairs).
    { pose proof (xc_nodup _ _ _ HX) as N. apply NoDup_app in N as (_ & _ & N). apply NoDup_app in N as (_ & N & _). intros H. apply (N rx H). by constructor. }
    pose proof (xc_receives _ _ _ HX c2 rx buffer Hrx Hns) as Hb. cbn [fst] in Hb.
    unfold sendAsync, with_send. cbn [m_pendingReceives m_pendingSends extractFront sends receives]. unfold pair_data.
    assert (E1 : receive_of (mkExchange [] pr (<[op := SendOperation_new data]> xs) xr) rx = ReceiveOperation_new buffer) by exact Hb.
    assert (E2 : send_of (mkExchange [] pr (<[op := SendOperation_new data]> xs) xr) op = SendOperation_new data) by (unfold send_of; cbn [sends]; by rewrite lookup_insert_eq).
    rewrite E1, E2, copyFrom_new. cbn [sends receives]. rewrite insert_insert_eq. eapply (exchanged_pair t _ w _ _ pairs _ op rx op rx data buffer HX).
    + split; [done|]. left. cbn. by eauto 10.
    + intros p. unfold send_of. cbn [sends]. destruct (decide (p = op)) as [->|]; [by rewrite lookup_insert_eq|by rewrite lookup_insert_ne].
    + intros p. unfold receive_of. cbn [receives]. destruct (decide (p = rx)) as [->|]; [by rewrite lookup_insert_eq|by rewrite lookup_insert_ne].
    + exact R3.
    + exact Q3.
    + exact M3.
    + exact Grx.
    + by exists c.
Qed.
Lemma exchanged_receive t x w pairs c op buffer : exchanged t (x, w) pairs -> mine op = true -> op ∉ used t -> idle (pending x) w op ->
  exists pairs', exchanged (t ++ [ReceiveAsync c op buffer]) (receiveAsync c op (with_receive op buffer x, w)) pairs'.
Proof.
  intros HX Hm Hu Hi. destruct x as [[|tx ps] pr xs xr]; unfold pending in Hi; cbn [m_pendingSends m_pendingReceives app] in Hi.
  - exists pairs. by apply receive_waits.
  - destruct (xc_one _ _ _ HX) as [E|E]; [done|]. cbn in E. subst pr. rewrite app_nil_r in Hi. exists (pairs ++ [(tx, op)]).
    destruct (xc_pendingSends _ _ _ HX tx ltac:(by constructor)) as (c2 & data & Htx). pose proof (used_send t c2 tx data Htx) as Htx'.
    pose proof (xc_room _ _ _ HX) as HR. unfold pending in HR. cbn [fst snd m_pendingSends m_pendingReceives] in HR. rewrite app_nil_r in HR.
    destruct (room_pair tx ps w op c HR Hm Hi) as (R3 & Q3 & M3 & Gtx & Gop).
    assert (Hns : tx ∉ map fst pairs).
    { pose proof (xc_nodup _ _ _ HX) as N. apply NoDup_app in N as (_ & N & _). intros H. apply (N tx H). apply elem_of_app. right. by constructor. }
    pose proof (xc_sends _ _ _ HX c2 tx data Htx Hns) as Hb. cbn [fst] in Hb.
    unfold receiveAsync, with_receive. cbn [m_pendingReceives m_pendingSends extractFront sends receives]. unfold pair_data.
    assert (E1 : send_of (mkExchange ps [] xs (<[op := ReceiveOperation_new buffer]> xr)) tx = SendOperation_new data) by exact Hb.
    assert (E2 : receive_of (mkExchange ps [] xs (<[op := ReceiveOperation_new buffer]> xr)) op = ReceiveOperation_new buffer) by (unfold receive_of; cbn [receives]; by rewrite lookup_insert_eq).
    rewrite E1, E2, copyFrom_new. cbn [sends receives]. rewrite insert_insert_eq. eapply (exchanged_pair t _ w _ _ pairs _ op tx tx op data buffer HX).
    + split; [done|]. right. cbn. by eauto 10.
    + intros p. unfold send_of. cbn [sends]. destruct (decide (p = tx)) as [->|]; [by rewrite lookup_insert_eq|by rewrite lookup_insert_ne].
    + intros p. unfold receive_of. cbn [receives]. destruct (decide (p = op)) as [->|]; [by rewrite lookup_insert_eq|by rewrite lookup_insert_ne].
    + unfold pending. cbn [m_pendingSends m_pendingReceives]. rewrite app_nil_r. exact R3.
    + exact Q3.
    + exact M3.
    + exact Gtx.
    + by exists c.
Qed.

Lemma room_empty w : (forall c op, mine op = true -> op ∉ completed w c) -> room mine [] w.
Proof.
  intros H. split; [constructor|constructor| | |].
  - intros op Hop. by apply not_elem_of_nil in Hop.
  - intros c op Hm Hop. by apply H in Hop.
  - intros c. assert (filter (fun op => mine op = true) (completed w c) = []) as ->; [|constructor].
    specialize (H c). induction (completed w c) as [|p l IH]; [done|]. rewrite filter_cons, decide_False.
    + apply IH. intros op Hm Hop. apply (H op Hm). by constructor.
    + intros Hm. apply (H p Hm). by constructor.
Qed.
Lemma exchanged_cancel t s pairs c op : exchanged t s pairs -> mine op = true -> getController s.2 op = Some c ->
  exchanged (t ++ [XCancel c op]) (cancel c op s) pairs.
Proof.
  intros HX Hm Hc. destruct s as [x w]. pose proof (xc_room _ _ _ HX) as HR. cbn [fst snd] in *. unfold pending in HR.
  pose proof (room_nodup _ _ _ HR) as HN. apply NoDup_app in HN as (N1 & N2 & N3).
  assert (E : (remove (m_pendingSends x) op).2 ++ (remove (m_pendingReceives x) op).2 = (remove (m_pendingSends x ++ m_pendingReceives x) op).2).
  { rewrite !remove_spec by (done || by apply HR). cbn [snd]. by rewrite filter_app. }
  destruct (room_revert mine _ w op c HR Hm Hc) as (R1 & _ & _). destruct (room_leave mine _ _ op R1) as [R2 _]. rewrite <- E in R2.
  unfold cancel. eapply exchanged_rest; [exact HX|done|right; eauto|..]; unfold pending; cbn [fst snd m_pendingSends m_pendingReceives sends receives]; try done.
  - intros p. apply remove_subset.
  - intros p. apply remove_subset.
  - apply R2.
  - destruct (xc_one _ _ _ HX) as [H|H]; cbn in H; rewrite H; [by left|by right].
  - intros c' p Hm'. rewrite completed_revert. destruct (decide (c' = c)) as [->|]; [|done]. apply remove_subset.
  - intros c' p Hp Hin. destruct (decide (p = op)) as [->|Hne]; [|left; by apply revert_completed].
    destruct (room_queue _ _ _ HR c' op Hm Hin) as [Hc' _]. right. right. congruence.
Qed.
Lemma exchanged_take t x w pairs c op : exchanged t (x, w) pairs -> mine op = true -> op ∈ completed w c ->
  exchanged (t ++ [XTake c op]) (x, (check_for c op w).2) pairs.
Proof.
  intros HX Hm Hin. pose proof (xc_room _ _ _ HX) as HR. cbn [fst snd] in *. rewrite (check_for_found w op c Hin). cbn [snd].
  destruct (room_queue _ _ _ HR c op Hm Hin) as [Hc _]. destruct (room_revert mine _ w op c HR Hm Hc) as (R1 & _ & _).
  eapply exchanged_rest; [exact HX|done|by left|..]; cbn [fst snd]; try done.
  - apply HR.
  - apply (xc_one _ _ _ HX).
  - intros c' p Hm'. rewrite completed_revert. destruct (decide (c' = c)) as [->|]; [|done]. apply remove_subset.
  - intros c' p Hp Hin'. destruct (decide (p = op)) as [->|Hne]; [|left; by apply revert_completed].
    destruct (room_queue _ _ _ HR c' op Hm Hin') as [Hc' _]. right. left. congruence.
Qed.
Lemma exchanged_env t x w w' pairs : exchanged t (x, w) pairs -> (forall p, p ∈ map fst pairs ++ map snd pairs -> mine p = true) -> env mine w w' ->
  exchanged (t ++ [XEnv]) (x, w') pairs.
Proof.
  intros HX Hmine He. pose proof (xc_room _ _ _ HX) as HR. cbn [fst snd] in *. destruct (room_env mine _ w w' HR He) as [R1 _].
  assert (Hq : forall c p, mine p = true -> p ∈ completed w' c <-> p ∈ completed w c).
  { intros c p Hm. rewrite <- (elem_mine mine p) by done. rewrite (proj2 He c). by apply elem_mine. }
  eapply exchanged_rest; [exact HX|done|by left|..]; cbn [fst snd]; try done.
  - apply HR.
  - apply (xc_one _ _ _ HX).
  - intros c p Hm. by apply Hq.
  - intros c p Hp Hin. left. apply Hq; [by apply Hmine|done].
Qed.
Lemma xrun_mine t s : xrun t s -> forall p, p ∈ used t -> mine p = true.
Proof.
  induction 1 as [w Hw|t s l s' Hr IH Hs]; intros p; [by intros H; apply not_elem_of_nil in H|]. rewrite used_snoc, elem_of_app. intros [H|H]; [by apply IH|].
  destruct Hs; cbn in H; try (by apply not_elem_of_nil in H); apply list_elem_of_singleton in H; congruence.
Qed.
Lemma xrun_exchanged t s : xrun t s -> exists pairs, exchanged t s pairs.
Proof.
  induction 1 as [w Hw|t s l s' Hr [pairs HX] Hs].
  - exists []. split; cbn; try (intros; exfalso; by eapply not_elem_of_nil); [by apply room_empty|by left|constructor|intros c op Hm H; by apply Hw in H|done].
  - destruct Hs as [x w c op data Hm Hu Hi|x w c op buffer Hm Hu Hi|s c op Hm Hc|x w c op Hm Hin|x w w' He].
    + by eapply exchanged_send.
    + by eapply exchanged_receive.
    + exists pairs. by apply exchanged_cancel.
    + exists pairs. by apply exchanged_take.
    + exists pairs. apply (exchanged_env t x w w'); [done| |done]. intros p Hp. apply (xrun_mine _ _ Hr). apply (xc_used _ _ _ HX).
      rewrite app_assoc. apply elem_of_app. by left.
Qed.
End Exchange.
End ExchangeProps.

(** ** Timers *)

Module TimerProps.
Import Timer.

(** A timer counts its signals in a semaphore. *)
Definition signals (t : Timer) : Semaphore.Semaphore := Semaphore.mkSemaphore (m_waiters t) (m_numSignals t).
Definition fires (now : Z) (t : Timer) : bool := m_active t && (m_interval t <=? u32 (now - m_lastCheck t)).
Lemma wait_signals c op t w : (signals (waitAsync c op (t, w)).1, (waitAsync c op (t, w)).2) = Semaphore.waitAsync c op (signals t, w).
Proof. destruct t. cbn. by destruct (_ =? 0). Qed.
Lemma cancel_signals c op t w : (signals (cancel c op (t, w)).1, (cancel c op (t, w)).2) = Semaphore.cancel c op (signals t, w).
Proof. by destruct t. Qed.
Lemma update_signals now t w :
  let s := (update now (t, w)).2 in
  (signals s.1, s.2) = (if fires now t then Semaphore.post (signals t, w) else (signals t, w)) /\
  m_active s.1 = (if fires now t then m_cyclic t else m_active t) /\ m_interval s.1 = m_interval t /\ m_cyclic s.1 = m_cyclic t.
Proof.
  destruct t as [ws n i a c l]. cbn [update]. unfold fires, signals. cbn [m_active m_interval m_lastCheck m_cyclic m_waiters m_numSignals].
  destruct a; cbn [negb andb]; [|done]. destruct (Z.leb_spec i (u32 (now - l))) as [H|H].
  - destruct ws as [|op ws]; cbn [extractFront]; destruct (i <=? u32 (u32 (now - l) - i)); done.
  - rewrite (proj2 (Z.leb_gt _ _) H). done.
Qed.

Lemma u32_add x y : u32 (u32 x + y) = u32 (x + y).
Proof. unfold u32, wrap. by rewrite Zplus_mod_idemp_l. Qed.
Lemma u32_later now l d : 0 <= u32 (now - l) + d < 2 ^ 32 -> u32 (now + d - l) = u32 (now - l) + d.
Proof. intros H. replace (now + d - l) with ((now - l) + d) by lia. rewrite <- u32_add. unfold u32 at 1. by apply wrap_small. Qed.
(** The returned time is the time after which the timer fires next. *)
Lemma update_next now t w : m_active t = true -> 0 < m_interval t < 2 ^ 31 ->
  let '(r, (t', _)) := update now (t, w) in
  1 <= r <= m_interval t /\ (m_active t' = true -> forall d, 0 <= d <= 2 ^ 31 -> fires (now + d) t' = (r <=? d)).
Proof.
  destruct t as [ws n i a c l]. cbn [m_active m_interval]. intros -> Hi. cbn [update negb].
  pose proof (wrap_range 32 (now - l) ltac:(lia)) as He. fold (u32 (now - l)) in He. set (e := u32 (now - l)) in *. unfold in_u in He.
  assert (HT : forall ws' n' a' l', 0 <= u32 (now - l') < i ->
      1 <= u32 (i - u32 (now - l')) <= i /\ (a' = true -> forall d, 0 <= d <= 2 ^ 31 ->
      fires (now + d) (mkTimer ws' n' i a' c l') = (u32 (i - u32 (now - l')) <=? d))).
  { intros ws' n' a' l' H. assert (u32 (i - u32 (now - l')) = i - u32 (now - l')) as -> by (unfold u32 at 1; apply wrap_small; lia). split; [lia|]. intros -> d Hd. unfold fires. cbn [m_active m_interval m_lastCheck andb].
    rewrite u32_later by lia. destruct (Z.leb_spec i (u32 (now - l') + d)), (Z.leb_spec (i - u32 (now - l')) d); lia. }
  assert (HX : forall ws' n' a', 1 <= 1 <= i /\ (a' = true -> forall d, 0 <= d <= 2 ^ 31 ->
      fires (now + d) (mkTimer ws' n' i a' c (u32 (now - i + 1))) = (1 <=? d))).
  { intros ws' n' a'. split; [lia|]. intros -> d Hd. unfold fires. cbn [m_active m_interval m_lastCheck andb].
    assert (u32 (now + d - u32 (now - i + 1)) = d + i - 1) as ->.
    { unfold u32, wrap. rewrite Zminus_mod_idemp_r. replace (now + d - (now - i + 1)) with (d + i - 1) by lia. apply Z.mod_small. lia. }
    destruct (Z.leb_spec i (d + i - 1)), (Z.leb_spec 1 d); lia. }
  destruct (Z.leb_spec i e) as [H|H].
  - assert (E2 : u32 (now - u32 (l + i)) = e - i).
    { unfold u32, wrap. rewrite Zminus_mod_idemp_r. replace (now - (l + i)) with ((now - l) - i) by lia. rewrite <- Zminus_mod_idemp_l. fold (wrap 32 (now - l)). fold (u32 (now - l)). fold e. apply Z.mod_small. lia. }
    assert (E1 : u32 (e - i) = e - i) by (unfold u32; apply wrap_small; lia).
    destruct ws as [|op ws]; cbn [extractFront]; rewrite E1; destruct (Z.leb_spec i (e - i)) as [H2|H2]; try apply HX; rewrite <- E2; apply HT; lia.
  - rewrite (proj2 (Z.leb_gt _ _) H). apply HT. lia.
Qed.
(** The manager's thread sleeps no longer than any of its timers wants. *)
Lemma update_all_min now ts r w : let '(r', ts', _) := update_all now ts r w in
  r' <= r /\ length ts' = length ts /\
  forall k t, ts !! k = Some t -> exists w0 t', ts' !! k = Some t' /\ (update now (t, w0)).2.1 = t' /\ r' <= (update now (t, w0)).1.
Proof.
  revert r w. induction ts as [|t ts IH]; intros r w; cbn [update_all]; [done|]. destruct (update now (t, w)) as [n [t1 w1]] eqn:E.
  specialize (IH (if n <? r then n else r) w1). destruct (update_all now ts _ w1) as [[r' ts'] w']. destruct IH as (H1 & H2 & H3).
  assert (Hmin : (if n <? r then n else r) <= r /\ (if n <? r then n else r) <= n) by (destruct (Z.ltb_spec n r); lia).
  split; [lia|]. split; [cbn; lia|]. intros [|k] t0 Hk; [injection Hk as <-; exists w, t1; rewrite E; split; [done|]; split; [done|cbn [fst]; lia]|]. exact (H3 k t0 Hk).
Qed.
End TimerProps.
