(* ===== verification/AsyncSpec.v ===== *)
(** * Asynchronous operations: what they promise

    The properties of semaphores, mutexes, the message exchange and timers under
    every interleaving of threads. *)

From Stdlib Require Import ZArith Lia Bool.
From stdpp Require Import base tactics numbers option list gmap relations.
From S2P Require Import Prelude Async AsyncProps.
Import OperationList.

Local Open Scope Z_scope.
Local Open Scope afl_scope.
Local Set Warnings "-notation-for-abbreviation,-level-tolerance".

(** No operation of the object is queued at the start. *)
Definition clean (mine : Operation -> bool) (w : world) : Prop := forall c op, mine op = true -> op ∉ completed w c.
Lemma clean_room mine w : clean mine w -> room mine [] w /\ granted mine w = ∅.
Proof.
  intros H. split; [by apply ExchangeProps.room_empty|]. apply map_eq. intros op. rewrite lookup_empty. apply granted_none.
  destruct (mine op) eqn:E; [right; intros c _; by apply H|by left].
Qed.

(** ** Semaphores *)

Section Semaphores.
Import Semaphore SemaphoreProps.
Context (mine : Operation -> bool).
Notation run := (run m_waiters posts mine).

Lemma sem_new_ok n w : 0 <= n -> clean mine w -> sem_ok mine (Semaphore_new n, w) /\ units mine (Semaphore_new n, w) = n.
Proof.
  intros Hn Hw. destruct (clean_room mine w Hw) as [HR HG]. split; [split; [done|done|by left]|]. unfold units. cbn [fst snd]. rewrite HG, map_size_empty. cbn. lia.
Qed.

(** C17. A semaphore hands out each of its units once, and serves its waiters in
    turn.  Whatever threads do with a semaphore and with other objects, in any
    order: nobody waits while there are units left; the value, the operations that
    are queued for delivery, those that have been delivered and those that were
    cancelled when they had already been queued add up to the initial value and the
    number of posts.  An operation at position k of the waiters is queued for its
    controller or delivered after k+1 posts, unless it is cancelled.  A call of
    wait() is such a sequence of steps that ends with the delivery of its operation
    when it returns true and with cancel() when it returns false. *)
Theorem semaphore_serves_waiters (n : Z) (w : world) (t1 t2 : list (label unit)) (s1 s2 : Semaphore * world) :
  0 <= n -> clean mine w -> n + Z.of_nat (count is_own (t1 ++ t2)) < 2 ^ 32 ->
  run (Semaphore_new n, w) t1 s1 -> run s1 t2 s2 ->
  (m_waiters s2.1 = [] \/ m_value s2.1 = 0) /\
  m_value s2.1 + Z.of_nat (size (granted mine s2.2)) + Z.of_nat (count is_take (t1 ++ t2)) + Z.of_nat (count is_lost (t1 ++ t2)) =
    n + Z.of_nat (count is_own (t1 ++ t2)) /\
  (forall k op, m_waiters s1.1 !! k = Some op -> (k < count is_own t2)%nat -> (forall c q, Cancel c op q ∉ t2) ->
   (exists c, Take c op ∈ t2) \/ exists c, (check_for c op s2.2).1 = true) /\
  (forall c op rounds last timeout ticks b s3, mine op = true -> idle (m_waiters s2.1) s2.2 op ->
   Forall (fun r => others m_waiters posts mine op r.1) rounds -> others m_waiters posts mine op last ->
   wait c op rounds last timeout ticks s2 = Some (b, s3) ->
   exists t3 q, run s2 (WaitAsync c op :: t3 ++ [if b then Take c op else Cancel c op q]) s3).
Proof.
  intros Hn Hw Hb R1 R2. destruct (sem_new_ok n w Hn Hw) as [H0 U0].
  assert (HC : forall p, count p (t1 ++ t2) = (count p t1 + count p t2)%nat).
  { intros p. unfold count. by rewrite List.filter_app, length_app. }
  rewrite !HC in *. destruct (sem_run mine _ _ _ R1 H0) as [H1 U1]; [lia|]. destruct (sem_run mine _ _ _ R2 H1) as [H2 U2]; [lia|].
  split; [apply H2|]. split; [unfold units in *; lia|]. split.
  - intros k op Hk Hp Hc. destruct (sem_served mine _ _ _ R2 H1 ltac:(lia) k op Hk Hp Hc) as [H|[c H]]; [by left|]. right. exists c. by rewrite (check_for_found _ _ _ H).
  - intros c op rounds last timeout ticks b s3 Hm Hi Hr Hl Hwait.
    destruct (wait_run m_waiters posts mine c op rounds last timeout ticks s2 b s3 Hm Hi Hr Hl Hwait) as (t3 & q & R3 & _). eauto.
Qed.
End Semaphores.

(** ** Mutexes *)

Section Mutexes.
Import Mutex MutexProps.
Context (mine : Operation -> bool).
Notation run := (run m_waiters releases mine).

(** C18. At most one thread owns a mutex.  Under every interleaving, the nesting
    level of the owner is the number of its acquisitions - delivered, queued for
    delivery, or cancelled too late - less its releases; for everybody else the two
    are equal, so that no two threads have acquired the mutex without releasing it.
    Nobody waits for a mutex that is free, and when the owner releases it for the
    last time, the first waiter becomes the owner and gets its operation. *)
Theorem mutex_exclusive (w : world) (t : list (label (Controller * bool))) (s : Mutex * world) :
  clean mine w -> Z.of_nat (count is_wait t) < 2 ^ 32 -> run (Mutex_new, w) t s ->
  (forall c, Z.of_nat (count (acquires c) t) + Z.of_nat (queued mine c s.2) - Z.of_nat (count (frees c) t) = holds c s) /\
  (forall c c', (count (frees c) t < count (acquires c) t + queued mine c s.2)%nat ->
   (count (frees c') t < count (acquires c') t + queued mine c' s.2)%nat -> c = c') /\
  (m_pOwner s.1 = None -> m_waiters s.1 = []) /\
  (forall c op ws, m_pOwner s.1 = Some c -> m_nestingLevel s.1 = 1 -> m_waiters s.1 = op :: ws ->
   exists c', getController s.2 op = Some c' /\ m_pOwner (post c s).1 = Some c' /\ (check_for c' op (post c s).2).1 = true).
Proof.
  intros Hw Hb R. destruct (clean_room mine w Hw) as [HR HG].
  assert (H0 : mtx_ok mine (Mutex_new, w)) by (by split).
  destruct (mtx_run mine _ _ _ R H0) as (Hok & HA & HW); [exact Hb|].
  assert (HH : forall c, Z.of_nat (count (acquires c) t) + Z.of_nat (queued mine c s.2) - Z.of_nat (count (frees c) t) = holds c s).
  { intros c. specialize (HA c). unfold acquired in HA. assert (queued mine c (Mutex_new, w).2 = 0)%nat as E by (unfold queued; cbn [snd]; rewrite HG; by rewrite map_filter_empty).
    assert (holds c (Mutex_new, w) = 0) as E' by done. rewrite E, E' in HA. lia. }
  split; [done|]. split; [|split].
  - intros c c' H1 H2. pose proof (HH c) as E1. pose proof (HH c') as E2. unfold holds in *.
    destruct (decide (m_pOwner s.1 = Some c)) as [O1|]; [|lia]. destruct (decide (m_pOwner s.1 = Some c')) as [O2|]; [congruence|lia].
  - intros E. pose proof (mo_owner mine s Hok) as HO. by rewrite E in HO.
  - intros c op ws E1 E2 E3. destruct (room_controller _ _ _ (mo_room mine s Hok) op) as [c' Hc']; [rewrite E3; by constructor|]. exists c'. split; [done|].
    destruct s as [[ws0 n o] w0]. cbn [fst snd m_waiters m_nestingLevel m_pOwner] in *. subst. unfold post. rewrite bool_decide_eq_true_2 by done.
    change (u32 (1 - 1) =? 0) with true. cbn [extractFront]. rewrite Hc'.
    destruct (room_grant_front mine ws w0 op (mo_room mine _ Hok)) as (c0 & Hc0 & R1 & _ & _). unfold weight in HW. cbn in HW.
    destruct (nested_spec mine (S (length ws)) c' ws 1 (notify op w0)) as (ws' & w' & k & E & _ & _ & _ & _ & _ & M1); [done|lia|lia|lia|].
    rewrite E. cbn [fst snd m_pOwner]. split; [done|]. rewrite (check_for_found w' op c'); [done|]. apply M1. by apply notify_granted.
Qed.
End Mutexes.

(** ** Message exchange *)

Section Exchange.
Import MessageExchange ExchangeProps.
Context (mine : Operation -> bool).

Definition sent_ops (t : list xlabel) : list Operation := t ≫= fun l => match l with SendAsync _ op _ => [op] | _ => [] end.
Definition received_ops (t : list xlabel) : list Operation := t ≫= fun l => match l with ReceiveAsync _ op _ => [op] | _ => [] end.
Lemma zip_pairs (pairs : list (Operation * Operation)) ps pr : ps = [] \/ pr = [] -> zip (map fst pairs ++ ps) (map snd pairs ++ pr) = pairs.
Proof.
  intros H. induction pairs as [|[a b] pairs IH]; cbn; [destruct H as [->| ->]; [done|by destruct ps]|]. by rewrite IH.
Qed.

(** C19. The message exchange pairs a send with at most one receive and transfers
    its message once, as far as the receiver's buffer has room.  Under every interleaving there are pairs of operations such that
    no operation is in two pairs; in each pair the receive operation has got the
    sender's message, cut to the size of its buffer, and both report the number of
    bytes; operations that are not in a pair have transferred nothing, even when they
    were cancelled; operations are queued for delivery exactly when they are paired,
    until they are taken or cancelled; a send and a receive are never both left
    waiting.  When nothing is cancelled, the n-th send meets the n-th receive. *)
Theorem exchange_correct (t : list xlabel) (s : MessageExchange * world) : xrun mine t s ->
  exists pairs, NoDup (map fst pairs ++ map snd pairs) /\
  (forall tx rx, (tx, rx) ∈ pairs -> exists c data c' buffer, SendAsync c tx data ∈ t /\ ReceiveAsync c' rx buffer ∈ t /\
   let n := Nat.min (length buffer) (length data) in
   getReceivedBytes (receive_of s.1 rx) = take n data /\ r_data (receive_of s.1 rx) = take n data ++ drop n buffer /\
   m_numSentBytes (send_of s.1 tx) = n /\ m_numReceivedBytes (receive_of s.1 rx) = n) /\
  (forall c op data, SendAsync c op data ∈ t -> op ∉ map fst pairs -> send_of s.1 op = SendOperation_new data) /\
  (forall c op buffer, ReceiveAsync c op buffer ∈ t -> op ∉ map snd pairs -> receive_of s.1 op = ReceiveOperation_new buffer) /\
  (forall c op, mine op = true -> op ∈ completed s.2 c -> op ∈ map fst pairs ++ map snd pairs) /\
  (forall op, op ∈ map fst pairs ++ map snd pairs -> (exists c, (check_for c op s.2).1 = true) \/ exists c, XTake c op ∈ t \/ XCancel c op ∈ t) /\
  (m_pendingSends s.1 = [] \/ m_pendingReceives s.1 = []) /\
  ((forall c op, XCancel c op ∉ t) -> pairs = zip (sent_ops t) (received_ops t)).
Proof.
  intros Hr. destruct (xrun_exchanged mine t s Hr) as [pairs [R O N U P PS PR S1 R1 Q D F]]. exists pairs.
  split; [rewrite app_assoc in N; by apply NoDup_app in N as (N & _ & _)|]. split; [|split; [done|split; [done|split; [done|split; [|split; [done|]]]]]].
  - intros tx rx H. destruct (P tx rx H) as (c & data & c' & buffer & H1 & H2 & H3 & H4). exists c, data, c', buffer. split; [done|]. split; [done|].
    cbn zeta. rewrite H3, H4. unfold getReceivedBytes. cbn [m_numReceivedBytes r_data m_numSentBytes].
    split; [|done]. rewrite take_app_le by (rewrite length_take; lia). rewrite take_take. f_equal. lia.
  - intros op H. destruct (D op H) as [[c Hc]|H1]; [left; exists c; by rewrite (check_for_found _ _ _ Hc)|by right].
  - intros Hn. destruct (F Hn) as [F1 F2]. unfold sent_ops, received_ops. rewrite F1, F2. by rewrite zip_pairs.
Qed.
End Exchange.

(** ** Timers *)

(** C36. A timer that is looked at often enough fires on time.  It signals exactly when
    at least its interval has passed since the last event, as a semaphore that is
    posted; a cyclic timer stays active, others stop.  The time that update() returns
    is between one tick and the interval, and is when the timer fires next: not
    before, and at that time, also when the tick counter wraps around.  The manager
    sleeps no longer than any of its timers. *)
Theorem timer_correct (now : Z) (t : Timer.Timer) (w : world) : 0 < Timer.m_interval t < 2 ^ 31 ->
  let s := (Timer.update now (t, w)).2 in
  (TimerProps.signals s.1, s.2) = (if TimerProps.fires now t then Semaphore.post (TimerProps.signals t, w) else (TimerProps.signals t, w)) /\
  Timer.m_active s.1 = (if TimerProps.fires now t then Timer.m_cyclic t else Timer.m_active t) /\
  (Timer.m_active t = true -> 1 <= (Timer.update now (t, w)).1 <= Timer.m_interval t /\
   (Timer.m_active s.1 = true -> forall d, 0 <= d <= 2 ^ 31 -> TimerProps.fires (now + d) s.1 = ((Timer.update now (t, w)).1 <=? d))) /\
  (forall ts k t', ts !! k = Some t' -> exists w0, (Timer.Manager_update now ts w).1.1 <= (Timer.update now (t', w0)).1).
Proof.
  intros Hi s. destruct (TimerProps.update_signals now t w) as (H1 & H2 & _). split; [done|]. split; [done|]. split.
  - intros Ha. pose proof (TimerProps.update_next now t w Ha Hi) as HN. subst s. destruct (Timer.update now (t, w)) as [r [t' w']]. exact HN.
  - intros ts k t' Hk. unfold Timer.Manager_update. pose proof (TimerProps.update_all_min now ts INFINITE_TIMEOUT w) as HM.
    destruct (Timer.update_all now ts INFINITE_TIMEOUT w) as [[r ts'] w']. destruct HM as (_ & _ & HM). destruct (HM k t' Hk) as (w0 & t1 & _ & _ & H). by exists w0.
Qed.

(** ** Concrete runs *)

Definition all_mine (op : Operation) : bool := true.
Definition w0 : world := mkWorld ∅ ∅.
Lemma clean_w0 : clean all_mine w0.
Proof. intros c op _. unfold completed, w0. cbn [m_completedOperations]. rewrite lookup_empty. apply not_elem_of_nil. Qed.
Lemma idle_compute ws w op : bool_decide (op ∉ ws) = true -> bool_decide (map_Forall (fun _ l => op ∉ l) (m_completedOperations w)) = true -> idle ws w op.
Proof.
  intros H1 H2. apply bool_decide_eq_true in H1, H2. split; [done|]. intros c. unfold completed. destruct (m_completedOperations w !! c) as [l|] eqn:E; [|apply not_elem_of_nil].
  by apply (H2 c).
Qed.
Ltac solve_run :=
  repeat match goal with
  | |- run _ _ _ _ [] _ => constructor
  | |- run _ _ _ _ (WaitAsync _ _ :: _) _ => eapply run_cons; [apply step_wait; [reflexivity|apply idle_compute; vm_compute; reflexivity]|]
  | |- run _ _ _ _ (Take _ _ :: _) _ => eapply run_cons; [apply step_take; [reflexivity|refine (bool_decide_unpack _ _); vm_compute; exact I]|]
  end.

Module SemaphoreExample.
Import Semaphore SemaphoreProps.
Definition s1 : Semaphore * world := waitAsync 1%positive 10%positive (Semaphore_new 0, w0).
Definition s2 : Semaphore * world := ((post s1).1, (check_for 1%positive 10%positive (post s1).2).2).
Lemma semaphore_serves_waiters_witness :
  m_waiters s1.1 = [10%positive] /\ completed (post s1).2 1%positive = [10%positive] /\
  m_value s2.1 + Z.of_nat (size (granted all_mine s2.2)) + 1 + 0 = 0 + 1.
Proof.
  split; [reflexivity|]. split; [reflexivity|].
  refine (proj1 (proj2 (semaphore_serves_waiters all_mine 0 w0 [WaitAsync 1%positive 10%positive] [Own tt; Take 1%positive 10%positive] s1 s2 ltac:(lia) clean_w0 ltac:(vm_compute; reflexivity) _ _))).
  - solve_run.
  - eapply run_cons; [by apply step_own|]. unfold s2. destruct (post s1) as [o w] eqn:E. eapply run_cons; [|constructor]. apply step_take; [reflexivity|].
    assert (w = (post s1).2) as -> by (by rewrite E). refine (bool_decide_unpack _ _). vm_compute. exact I.
Defined.
End SemaphoreExample.

Module MutexExample.
Import Mutex MutexProps.
Definition m1 : Mutex * world := waitAsync 2%positive 20%positive (waitAsync 1%positive 10%positive (Mutex_new, w0)).
Lemma mutex_exclusive_witness :
  m_pOwner m1.1 = Some 1%positive /\
  exists c', getController m1.2 20%positive = Some c' /\ m_pOwner (post 1%positive m1).1 = Some c' /\ (check_for c' 20%positive (post 1%positive m1).2).1 = true.
Proof.
  split; [reflexivity|].
  refine (proj2 (proj2 (proj2 (mutex_exclusive all_mine w0 [WaitAsync 1%positive 10%positive; WaitAsync 2%positive 20%positive] m1 clean_w0 _ _))) 1%positive 20%positive [] _ _ _);
    [vm_compute; reflexivity|solve_run|reflexivity|reflexivity|reflexivity].
Defined.
End MutexExample.

Module ExchangeExample.
Import MessageExchange ExchangeProps.
Definition x1 : MessageExchange * world := sendAsync 1%positive 10%positive (with_send 10%positive [1; 2; 3] MessageExchange_new, w0).
Definition x2 : MessageExchange * world := receiveAsync 2%positive 20%positive (with_receive 20%positive [0; 0] x1.1, x1.2).
Definition trace : list xlabel := [SendAsync 1%positive 10%positive [1; 2; 3]; ReceiveAsync 2%positive 20%positive [0; 0]].
Lemma exchange_correct_witness :
  getReceivedBytes (receive_of x2.1 20%positive) = [1; 2] /\ m_numSentBytes (send_of x2.1 10%positive) = 2%nat /\
  exists pairs : list (Operation * Operation), NoDup (map fst pairs ++ map snd pairs) /\ pairs = zip (sent_ops trace) (received_ops trace).
Proof.
  split; [reflexivity|]. split; [reflexivity|].
  destruct (exchange_correct all_mine trace x2) as (pairs & H1 & _ & _ & _ & _ & _ & _ & H2).
  - apply (xrun_snoc all_mine [SendAsync 1%positive 10%positive [1; 2; 3]] x1 (ReceiveAsync 2%positive 20%positive [0; 0]) x2).
    + apply (xrun_snoc all_mine [] (MessageExchange_new, w0) (SendAsync 1%positive 10%positive [1; 2; 3]) x1); [apply xrun_nil, clean_w0|].
      apply xstep_send; [reflexivity|apply not_elem_of_nil|apply idle_compute; vm_compute; reflexivity].
    + apply (xstep_receive all_mine _ x1.1 x1.2); [reflexivity|refine (bool_decide_unpack _ _); vm_compute; exact I|apply idle_compute; vm_compute; reflexivity].
  - exists pairs. split; [exact H1|]. apply H2. intros c op H. unfold trace in H. rewrite !elem_of_cons in H. destruct H as [H|[H|H]]; [discriminate|discriminate|by apply not_elem_of_nil in H].
Defined.
End ExchangeExample.

Lemma timer_correct_witness :
  let t := Timer.start 10 true 4294967290 Timer.Timer_new in
  TimerProps.fires 4 t = true /\ 1 <= (Timer.update 3 (t, w0)).1 <= 10 /\ (Timer.update 3 (t, w0)).1 = 1.
Proof.
  intros t. split; [reflexivity|]. split; [|reflexivity].
  exact (proj1 (proj1 (proj2 (proj2 (timer_correct 3 t w0 (conj eq_refl eq_refl)))) eq_refl)).
Defined.
