(* ===== verification/Xml.v ===== *)
(** * XML

    src/afl/io/xml: nodes, the writer, the tokenizer Reader, the Parser that builds
    nodes from a reader's tokens, NodeReader, which plays the tokens of given nodes,
    and the default entity handler.

    A reader is an instance of the class [BaseReader].  [Reader] keeps the bytes
    that are left in its buffer and its stream as one list; the entity handler and
    the charset factory are parameters.  Where a loop of the code need not end, the
    model runs out of fuel ([None]). *)

From Stdlib Require Import ZArith Lia Bool String Ascii.
From stdpp Require Import base tactics numbers option list.
From S2P Require Import Prelude Strings Values Utf8.

Local Open Scope Z_scope.
Local Open Scope afl_scope.
Local Set Warnings "-notation-for-abbreviation,-register-all".

(** ** Nodes *)

Record NamedNode := mkNamed {
  m_nodeName : list Z;
  m_attributeNames : NameMap;
  m_attributeValues : list (list Z);
}.
Definition NamedNode_new (name : list Z) : NamedNode := mkNamed name NameMap_new [].
Definition NamedNode_setName (n : NamedNode) (name : list Z) : NamedNode := mkNamed name (m_attributeNames n) (m_attributeValues n).
Definition setAttribute (n : NamedNode) (name value : list Z) : NamedNode :=
  let '(names, index) := addMaybe (m_attributeNames n) name in
  let index := Z.to_nat index in
  let values := if (length (m_attributeValues n) <=? index)%nat
                then m_attributeValues n ++ replicate (S index - length (m_attributeValues n)) []
                else m_attributeValues n in
  mkNamed (m_nodeName n) names (<[index := value]> values).
Definition getAttributeByIndex (n : NamedNode) (index : Z) : list Z :=
  if index <? Z.of_nat (length (m_attributeValues n)) then nth (Z.to_nat index) (m_attributeValues n) [] else [].
Definition getAttributeByName (n : NamedNode) (name : list Z) : list Z := getAttributeByIndex n (getIndexByName (m_attributeNames n) name).

Inductive Node :=
  | PINode (n : NamedNode)
  | TagNode (n : NamedNode) (m_children : list Node)
  | TextNode (m_value : list Z).
Definition addNewChild (n : NamedNode) (m_children : list Node) (pNode : option Node) : Node :=
  TagNode n (match pNode with Some p => m_children ++ [p] | None => m_children end).
Definition TextNode_set (newValue : list Z) : Node := TextNode newValue.
Fixpoint getTextContent (node : Node) : list Z :=
  match node with
  | PINode _ => []
  | TextNode v => v
  | TagNode _ ch => concat (map getTextContent ch)
  end.

(** ** Writer *)

Definition escape_char (c : Z) : list Z :=
  if c =? 60 then lit "&lt;"
  else if c =? 62 then lit "&gt;"
  else if c =? 38 then lit "&amp;"
  else if c =? 34 then lit "&quot;"
  else [c].
Definition escape (s : list Z) : list Z := concat (map escape_char s).
Definition attribute_text (n : NamedNode) (i : nat) (name : list Z) : list Z :=
  [32] ++ name ++ [61; 34] ++ escape (getAttributeByIndex n (Z.of_nat i)) ++ [34].
Definition writeAttributes (n : NamedNode) : list Z := concat (imap (attribute_text n) (m_names (m_attributeNames n))).
Fixpoint visit (node : Node) : list Z :=
  match node with
  | PINode n => [60; 63] ++ m_nodeName n ++ writeAttributes n ++ [63; 62]
  | TagNode n ch =>
      [60] ++ m_nodeName n ++ writeAttributes n ++
      match ch with
      | [] => [47; 62]
      | _ => [62] ++ concat (map visit ch) ++ [60; 47] ++ m_nodeName n ++ [62]
      end
  | TextNode v => escape v
  end.
Definition visit_nodes (nodes : list Node) : list Z := concat (map visit nodes).

(** ** DefaultEntityHandler *)

(** [std::strtoul] with base 16 *)
Definition hex_digit (c : Z) : option Z :=
  if (48 <=? c) && (c <=? 57) then Some (c - 48)
  else if (65 <=? c) && (c <=? 70) then Some (c - 55)
  else if (97 <=? c) && (c <=? 102) then Some (c - 87)
  else None.
Fixpoint hex_digits (s : list Z) (value : Z) : Z :=
  match s with
  | c :: s' => match hex_digit c with Some d => hex_digits s' (Z.min (2 ^ LONG_BITS) (16 * value + d)) | None => value end
  | [] => value
  end.
Definition strtoul16 (s : list Z) : Z :=
  let s := drop (skip_while isspace s) s in
  let '(negative, s) := match s with c :: s' => if c =? 45 then (true, s') else if c =? 43 then (false, s') else (false, s) | [] => (false, []) end in
  let s := match s with
           | a :: b :: c :: s' => if (a =? 48) && ((b =? 120) || (b =? 88)) && bool_decide (is_Some (hex_digit c)) then c :: s' else s
           | _ => s
           end in
  let value := hex_digits s 0 in
  if 2 ^ LONG_BITS <=? value then 2 ^ LONG_BITS - 1 else if negative then wrap LONG_BITS (- value) else value.

Definition expandEntityReference (name : list Z) : list Z :=
  match name with
  | [] => []
  | c :: rest =>
      if c =? 35 then
        match rest with
        | x :: ((_ :: _) as hex) => if x =? 120 then append 0 (u32 (strtoul16 (c_str hex))) else append 0 (u32 (strtoul LONG_BITS (c_str rest)).1.1)
        | _ => append 0 (u32 (strtoul LONG_BITS (c_str rest)).1.1)
        end
      else if bool_decide (name = lit "lt") then [60]
      else if bool_decide (name = lit "gt") then [62]
      else if bool_decide (name = lit "apos") then [39]
      else if bool_decide (name = lit "quot") then [34]
      else if bool_decide (name = lit "amp") then [38]
      else if bool_decide (name = lit "nbsp") then [0xC2; 0xA0]
      else name
  end.
Example entity_ex : expandEntityReference (lit "#x41") = [65] /\ expandEntityReference (lit "#8364") = [0xE2; 0x82; 0xAC] /\ expandEntityReference (lit "foo") = lit "foo".
Proof. split; [reflexivity|split; reflexivity]. Qed.

(** ** Reader *)

Inductive Token := Eof | TagStart | TagAttribute | TagEnd | PIStart | PIAttribute | Comment | Text | Null | Error.
#[export] Instance Token_eq_dec : EqDecision Token.
Proof. solve_decision. Defined.
Inductive WhitespaceMode := TrimWS | SingleWS | AllWS.
#[export] Instance WhitespaceMode_eq_dec : EqDecision WhitespaceMode.
Proof. solve_decision. Defined.

(** The interface: [None] when a call does not return *)
Class BaseReader (R : Type) := {
  readNext : R -> option (Token * R);
  getTag : R -> list Z;
  getName : R -> list Z;
  getValue : R -> list Z;
}.

Inductive Encoding := EncUtf8 | EncCodepage | EncUtf16LE | EncUtf16BE.
Inductive reader_state := Main | InTag | InPI.

Definition WhitespaceChar : Z := 1.
Definition LTChar : Z := 2.
Definition GTChar : Z := 4.
Definition EQChar : Z := 8.
Definition BangChar : Z := 16.
Definition QuesChar : Z := 32.
Definition SlashChar : Z := 64.
Definition MinusChar : Z := 128.
Definition LBracketChar : Z := 256.
Definition AnyChar : Z := 512.
Definition ProcessQuotes : Z := 16384.

Record Reader := mkReader {
  m_whitespaceMode : WhitespaceMode;
  m_state : reader_state;
  m_tag : list Z;
  m_name : list Z;
  m_value : list Z;
  m_tagPos : Z;
  m_data : list Z;
  m_bufferPos : Z;
  m_encoding : Encoding;
  m_codepage : option (list Z);
  m_haveCurrentCharacter : bool;
  m_currentCharacter : Z;
  m_charPos : Z;
}.
Definition set_state (st : reader_state) (r : Reader) : Reader :=
  mkReader (m_whitespaceMode r) st (m_tag r) (m_name r) (m_value r) (m_tagPos r) (m_data r) (m_bufferPos r) (m_encoding r) (m_codepage r) (m_haveCurrentCharacter r) (m_currentCharacter r) (m_charPos r).
Definition set_tag (s : list Z) (r : Reader) : Reader :=
  mkReader (m_whitespaceMode r) (m_state r) s (m_name r) (m_value r) (m_tagPos r) (m_data r) (m_bufferPos r) (m_encoding r) (m_codepage r) (m_haveCurrentCharacter r) (m_currentCharacter r) (m_charPos r).
Definition set_name (s : list Z) (r : Reader) : Reader :=
  mkReader (m_whitespaceMode r) (m_state r) (m_tag r) s (m_value r) (m_tagPos r) (m_data r) (m_bufferPos r) (m_encoding r) (m_codepage r) (m_haveCurrentCharacter r) (m_currentCharacter r) (m_charPos r).
Definition set_value (s : list Z) (r : Reader) : Reader :=
  mkReader (m_whitespaceMode r) (m_state r) (m_tag r) (m_name r) s (m_tagPos r) (m_data r) (m_bufferPos r) (m_encoding r) (m_codepage r) (m_haveCurrentCharacter r) (m_currentCharacter r) (m_charPos r).
Definition set_tagPos (p : Z) (r : Reader) : Reader :=
  mkReader (m_whitespaceMode r) (m_state r) (m_tag r) (m_name r) (m_value r) p (m_data r) (m_bufferPos r) (m_encoding r) (m_codepage r) (m_haveCurrentCharacter r) (m_currentCharacter r) (m_charPos r).
Definition set_encoding (e : Encoding) (cp : option (list Z)) (r : Reader) : Reader :=
  mkReader (m_whitespaceMode r) (m_state r) (m_tag r) (m_name r) (m_value r) (m_tagPos r) (m_data r) (m_bufferPos r) e cp (m_haveCurrentCharacter r) (m_currentCharacter r) (m_charPos r).
Definition setWhitespaceMode (mode : WhitespaceMode) (r : Reader) : Reader :=
  mkReader mode (m_state r) (m_tag r) (m_name r) (m_value r) (m_tagPos r) (m_data r) (m_bufferPos r) (m_encoding r) (m_codepage r) (m_haveCurrentCharacter r) (m_currentCharacter r) (m_charPos r).
(** The input after [n] bytes, and the current character *)
Definition advance (n : nat) (c : option Z) (r : Reader) : Reader :=
  mkReader (m_whitespaceMode r) (m_state r) (m_tag r) (m_name r) (m_value r) (m_tagPos r) (drop n (m_data r)) (m_bufferPos r + Z.of_nat n) (m_encoding r) (m_codepage r)
    (bool_decide (is_Some c)) (default (m_currentCharacter r) c) (m_bufferPos r).

(** [readByte] is taking the next byte of [m_data]. *)
Definition readNextChar (r : Reader) : Reader :=
  match m_encoding r with
  | EncCodepage =>
      match m_data r with
      | [] => advance 0 None r
      | a :: _ =>
          advance 1 (Some (match m_codepage r with Some cp => if 0x80 <=? a then nth (Z.to_nat (a - 0x80)) cp 0 else a | None => a end)) r
      end
  | EncUtf8 =>
      match m_data r with
      | [] => advance 0 None r
      | a :: rest =>
          if (0xC0 <=? a) && (a <? 0xE0) then
            match rest with
            | [] => advance 1 None r
            | b :: _ => advance 2 (Some (Z.shiftl (Z.land a 0x1F) 6 + Z.land b 0x3F)) r
            end
          else if (0xE0 <=? a) && (a <? 0xF0) then
            match rest with
            | [] => advance 1 None r
            | [_] => advance 2 None r
            | b :: c :: _ => advance 3 (Some (Z.shiftl (Z.land a 0x0F) 12 + Z.shiftl (Z.land b 0x3F) 6 + Z.land c 0x3F)) r
            end
          else advance 1 (Some a) r
      end
  | EncUtf16BE =>
      match m_data r with
      | [] => advance 0 None r
      | [_] => advance 1 None r
      | a :: b :: _ => advance 2 (Some (256 * a + b)) r
      end
  | EncUtf16LE =>
      match m_data r with
      | [] => advance 0 None r
      | [_] => advance 1 None r
      | a :: b :: _ => advance 2 (Some (256 * b + a)) r
      end
  end.

(** The encoding and the size of the byte order mark that is skipped; the buffer's
    position is not changed.  [buffer]: the first bytes *)
Definition detectEncoding (buffer : list Z) : Encoding * nat :=
  match buffer with
  | p0 :: p1 :: rest =>
      if (p0 =? 0xEF) && (p1 =? 0xBB) && match rest with p2 :: _ => p2 =? 0xBF | [] => false end then (EncUtf8, 3%nat)
      else if (p0 =? 0xFE) && (p1 =? 0xFF) then (EncUtf16BE, 2%nat)
      else if (p0 =? 0xFF) && (p1 =? 0xFE) then (EncUtf16LE, 2%nat)
      else if (p0 =? 0) && negb (p1 =? 0) then (EncUtf16BE, 0%nat)
      else if negb (p0 =? 0) && (p1 =? 0) then (EncUtf16LE, 0%nat)
      else (EncUtf8, 0%nat)
  | _ => (EncUtf8, 0%nat)
  end.

(** A new reader on the bytes [data]; the first part of them is in the buffer. *)
Definition Reader_new (data : list Z) (pos : Z) : Reader :=
  let '(enc, n) := detectEncoding (take 1024 data) in
  readNextChar (mkReader TrimWS Main [] [] [] 0 (drop n data) pos enc None false 0 0).
(** [file]: the whole content of the stream *)
Definition setPos (file : list Z) (pos : Z) (r : Reader) : Reader :=
  readNextChar (mkReader (m_whitespaceMode r) Main (m_tag r) (m_name r) (m_value r) pos (drop (Z.to_nat pos) file) pos (m_encoding r) (m_codepage r)
    (m_haveCurrentCharacter r) (m_currentCharacter r) pos).

Definition char_class (c : Z) : Z :=
  if (c <=? 32) || (c =? 0x85) || (c =? 0x2028) then WhitespaceChar
  else if c =? 60 then LTChar
  else if c =? 62 then GTChar
  else if c =? 61 then EQChar
  else if c =? 33 then BangChar
  else if c =? 63 then QuesChar
  else if c =? 47 then SlashChar
  else if c =? 45 then MinusChar
  else if c =? 91 then LBracketChar
  else AnyChar.
Definition has (acceptClasses class : Z) : bool := negb (Z.land acceptClasses class =? 0).
(** Number of characters, the characters, the reader behind them *)
Fixpoint sequence_loop (fuel : nat) (acceptClasses currentQuote : Z) (count : nat) (accum : list Z) (r : Reader) : nat * list Z * Reader :=
  match fuel with
  | O => (count, accum, r)
  | S fuel' =>
      if negb (m_haveCurrentCharacter r) then (count, accum, r)
      else
        let c := m_currentCharacter r in
        if negb (currentQuote =? 0) && (c =? currentQuote) then sequence_loop fuel' acceptClasses 0 count accum (readNextChar r)
        else if has acceptClasses ProcessQuotes && (currentQuote =? 0) && ((c =? 34) || (c =? 39))
        then sequence_loop fuel' acceptClasses c count accum (readNextChar r)
        else if has acceptClasses (char_class c) || negb (currentQuote =? 0)
        then sequence_loop fuel' acceptClasses currentQuote (S count) (accum ++ append 0 c) (readNextChar r)
        else (count, accum, r)
  end.
(** Each round consumes a byte or ends the input. *)
Definition readCharacterSequence (acceptClasses : Z) (r : Reader) : nat * list Z * Reader :=
  sequence_loop (2 + length (m_data r)) acceptClasses 0 0 [] r.
Definition skipCharacters (acceptClasses : Z) (r : Reader) : Reader := (readCharacterSequence acceptClasses r).2.
Definition all_but (classes : Z) : Z := Z.lnot classes.

Fixpoint cdata_loop (fuel : nat) (numRBrack : Z) (out : list Z) (r : Reader) : list Z * Reader :=
  match fuel with
  | O => (out, r)
  | S fuel' =>
      if negb (m_haveCurrentCharacter r) then (out, r)
      else
        let c := m_currentCharacter r in
        if numRBrack =? 0 then
          if c =? 93 then cdata_loop fuel' 1 out (readNextChar r) else cdata_loop fuel' 0 (out ++ append 0 c) (readNextChar r)
        else if numRBrack =? 1 then
          if c =? 93 then cdata_loop fuel' 2 out (readNextChar r) else cdata_loop fuel' 0 (out ++ [93] ++ append 0 c) (readNextChar r)
        else
          if c =? 62 then (out, readNextChar r)
          else if c =? 93 then cdata_loop fuel' 2 (out ++ [93]) (readNextChar r)
          else cdata_loop fuel' 0 (out ++ [93; 93] ++ append 0 c) (readNextChar r)
  end.
Definition readUnparsedCharacterData (r : Reader) : list Z * Reader := cdata_loop (2 + length (m_data r)) 0 [] r.

Section Reader.
(** EntityHandler::expandEntityReference; CharsetFactory::createCharset: the
    characters of a codepage, [None] for other charsets *)
Context (expand : list Z -> list Z) (createCharset : list Z -> option (list Z)).

(** [s]: what has not been processed *)
Fixpoint expand_loop (fuel : nat) (s out : list Z) : list Z :=
  match fuel with
  | O => out ++ s
  | S fuel' =>
      match find s [38] with
      | Some n =>
          match find (drop n s) [59] with
          | Some q => expand_loop fuel' (drop (n + q + 1) s) (out ++ take n s ++ expand (take (q - 1) (drop (n + 1) s)))
          | None => out ++ s
          end
      | None => out ++ s
      end
  end.
Definition expandEntities (s : list Z) : list Z := expand_loop (length s) s [].

(** The loop that reads a comment; [None]: still reading after all rounds *)
Fixpoint comment_loop (fuel : nat) (loop : bool) (value : list Z) (r : Reader) : option (list Z * Reader) :=
  match fuel with
  | O => None
  | S fuel' =>
      let value := if loop then value ++ [45] else value in
      let '(_, s, r) := readCharacterSequence (all_but (Z.lor MinusChar ProcessQuotes)) r in
      let value := value ++ s in
      if m_currentCharacter r =? 45
      then let '(n, _, r) := readCharacterSequence MinusChar r in
           if (n <? 2)%nat then comment_loop fuel' true value r else Some (value, r)
      else Some (value, r)
  end.

(** ignore up to the closing angle bracket, read it *)
Definition skip_tag (r : Reader) : Reader := readNextChar (skipCharacters (all_but GTChar) r).
Definition only_blank (s : list Z) : bool := forallb (fun c => (c =? 13) || (c =? 10) || (c =? 9) || (c =? 32)) s.

Definition read_bang (fuel : nat) (r : Reader) : option (Token * Reader) :=
  let r := readNextChar r in
  if negb (m_haveCurrentCharacter r) then Some (Eof, r)
  else if m_currentCharacter r =? 91 then
    let '(_, tmp, r) := readCharacterSequence (all_but (Z.lor LBracketChar ProcessQuotes)) (readNextChar r) in
    if bool_decide (tmp = lit "CDATA")
    then let '(out, r) := readUnparsedCharacterData (readNextChar r) in Some (Text, set_value out r)
    else Some (Error, skip_tag r)
  else if m_currentCharacter r =? 45 then
    let '(n, _, r) := readCharacterSequence MinusChar r in
    if (2 <=? n)%nat
    then match comment_loop fuel false [] r with
         | Some (value, r) => Some (Comment, skip_tag (set_value value r))
         | None => None
         end
    else Some (Comment, skip_tag (set_value [] r))
  else Some (Null, skip_tag r).

Definition read_main (fuel : nat) (r : Reader) : option (Token * Reader) :=
  if m_currentCharacter r =? 60 then
    let r := skipCharacters WhitespaceChar (readNextChar r) in
    if negb (m_haveCurrentCharacter r) then Some (Eof, r)
    else if m_currentCharacter r =? 63 then
      let '(_, tag, r) := readCharacterSequence (all_but (Z.lor (Z.lor WhitespaceChar GTChar) QuesChar)) (skipCharacters WhitespaceChar (readNextChar r)) in
      Some (PIStart, set_state InPI (set_tag tag r))
    else if m_currentCharacter r =? 47 then
      let '(_, tag, r) := readCharacterSequence (all_but (Z.lor WhitespaceChar GTChar)) (skipCharacters WhitespaceChar (readNextChar r)) in
      Some (TagEnd, skip_tag (set_tag tag r))
    else if m_currentCharacter r =? 33 then read_bang fuel r
    else
      let '(_, tag, r) := readCharacterSequence (all_but (Z.lor (Z.lor WhitespaceChar GTChar) SlashChar)) r in
      Some (TagStart, set_state InTag (set_tag tag r))
  else
    let '(_, value, r) := readCharacterSequence (all_but (Z.lor LTChar ProcessQuotes)) r in
    let value := if negb (bool_decide (m_whitespaceMode r = AllWS)) && only_blank value
                 then if bool_decide (m_whitespaceMode r = SingleWS) then [32] else []
                 else expandEntities value in
    Some (Text, set_value value r).

Definition read_tag (r : Reader) : Token * Reader :=
  let r := skipCharacters WhitespaceChar r in
  if negb (m_haveCurrentCharacter r) then (Eof, r)
  else if m_currentCharacter r =? 47 then (TagEnd, set_state Main (skip_tag r))
  else if m_currentCharacter r =? 62 then (Null, set_state Main (readNextChar r))
  else
    let '(_, name, r) := readCharacterSequence (all_but (Z.lor (Z.lor (Z.lor WhitespaceChar EQChar) GTChar) SlashChar)) r in
    let r := skipCharacters WhitespaceChar (set_name name r) in
    if negb (m_haveCurrentCharacter r) then (Eof, r)
    else if m_currentCharacter r =? 61
    then
      let '(_, value, r) := readCharacterSequence (all_but (Z.lor (Z.lor WhitespaceChar GTChar) SlashChar)) (skipCharacters WhitespaceChar (set_value [] (readNextChar r))) in
      (TagAttribute, set_value (expandEntities value) r)
    else (TagAttribute, set_value name r).

Definition read_pi (r : Reader) : Token * Reader :=
  let r := skipCharacters WhitespaceChar r in
  if negb (m_haveCurrentCharacter r) then (Eof, r)
  else if (m_currentCharacter r =? 63) || (m_currentCharacter r =? 62) then (Null, set_state Main (skip_tag r))
  else
    let '(_, name, r) := readCharacterSequence (all_but (Z.lor (Z.lor (Z.lor WhitespaceChar EQChar) QuesChar) GTChar)) r in
    let r := skipCharacters WhitespaceChar (set_name name r) in
    if negb (m_haveCurrentCharacter r) then (Eof, r)
    else
      let r :=
        if m_currentCharacter r =? 61
        then
          let '(_, value, r) := readCharacterSequence (all_but (Z.lor (Z.lor WhitespaceChar QuesChar) GTChar)) (skipCharacters WhitespaceChar (set_value [] (readNextChar r))) in
          set_value value r
        else set_value name r in
      let r :=
        if match m_encoding r with EncUtf8 | EncCodepage => true | _ => false end
           && bool_decide (m_tag r = lit "xml") && bool_decide (m_name r = lit "encoding")
        then match createCharset (m_value r) with
             | Some cp => set_encoding EncCodepage (Some cp) r
             | None => set_encoding EncUtf8 None r
             end
        else r in
      (PIAttribute, r).

Definition readNextToken (fuel : nat) (r : Reader) : option (Token * Reader) :=
  if negb (m_haveCurrentCharacter r) then Some (Eof, r)
  else
    let r := set_tagPos (m_charPos r) r in
    match m_state r with
    | Main => read_main fuel r
    | InTag => Some (read_tag r)
    | InPI => Some (read_pi r)
    end.
(** [readNext]: tokens without content are skipped *)
Fixpoint readNext_loop (fuel : nat) (r : Reader) : option (Token * Reader) :=
  match fuel with
  | O => None
  | S fuel' =>
      match readNextToken fuel r with
      | None => None
      | Some (t, r) =>
          match t with
          | Null => readNext_loop fuel' r
          | Text => if bool_decide (m_value r = []) then readNext_loop fuel' r else Some (t, r)
          | _ => Some (t, r)
          end
      end
  end.
Definition Reader_readNext (r : Reader) : option (Token * Reader) := readNext_loop (3 + length (m_data r)) r.
Definition Reader_BaseReader : BaseReader Reader :=
  {| readNext := Reader_readNext; getTag := m_tag; getName := m_name; getValue := m_value |}.
End Reader.

(** ** Parser *)

Section Parser.
Context {R : Type} `{!BaseReader R}.

(** The reader and the look-ahead token *)
Record Parser := mkParser { m_reader : R; m_token : Token }.
Definition Parser_readNext (p : Parser) : option Parser :=
  match readNext (m_reader p) with
  | Some (t, r) => Some (mkParser r t)
  | None => None
  end.
Definition Parser_new (r : R) : option Parser := Parser_readNext (mkParser r Null).

(** The loops that read the attributes of a tag or processing instruction *)
Fixpoint read_attributes (fuel : nat) (kind : Token) (n : NamedNode) (p : Parser) : option (NamedNode * Parser) :=
  match fuel with
  | O => None
  | S fuel' =>
      if bool_decide (m_token p = kind)
      then let n := setAttribute n (getName (m_reader p)) (getValue (m_reader p)) in
           p ← Parser_readNext p; read_attributes fuel' kind n p
      else Some (n, p)
  end.
Definition parsePI (fuel : nat) (p : Parser) : option (option Node * Parser) :=
  let n := NamedNode_new (getTag (m_reader p)) in
  p ← Parser_readNext p;
  '(n, p) ← read_attributes fuel PIAttribute n p;
  Some (Some (PINode n), p).
(** [parseNodes]: of the children *)
Definition parseTag (parseNodes : list Node -> Parser -> option (list Node * Parser)) (fuel : nat) (p : Parser) : option (option Node * Parser) :=
  let n := NamedNode_new (getTag (m_reader p)) in
  p ← Parser_readNext p;
  '(n, p) ← read_attributes fuel TagAttribute n p;
  '(ch, p) ← parseNodes [] p;
  p ← (if bool_decide (m_token p = TagEnd) && bool_decide (getTag (m_reader p) = m_nodeName n) then Parser_readNext p else Some p);
  Some (Some (TagNode n ch), p).
(** One round of [parse]; [again] stands for the following rounds. *)
Definition parse_round (parseNodes : list Node -> Parser -> option (list Node * Parser)) (again : Parser -> option (option Node * Parser)) (fuel : nat)
    (p : Parser) : option (option Node * Parser) :=
  match m_token p with
  | Eof | TagEnd | Null | Error => Some (None, p)
  | TagStart => parseTag parseNodes fuel p
  | PIStart => parsePI fuel p
  | TagAttribute | PIAttribute | Comment => p ← Parser_readNext p; again p
  | Text =>
      let v := getValue (m_reader p) in
      p ← Parser_readNext p; Some (Some (TextNode v), p)
  end.
Definition parseNodes_round (parse : Parser -> option (option Node * Parser)) (again : list Node -> Parser -> option (list Node * Parser))
    (nodes : list Node) (p : Parser) : option (list Node * Parser) :=
  '(node, p) ← parse p;
  match node with
  | Some node => again (nodes ++ [node]) p
  | None => Some (nodes, p)
  end.
Fixpoint parse (fuel : nat) (p : Parser) : option (option Node * Parser) :=
  match fuel with
  | O => None
  | S fuel' => parse_round (parseNodes fuel') (parse fuel') fuel' p
  end
with parseNodes (fuel : nat) (nodes : list Node) (p : Parser) : option (list Node * Parser) :=
  match fuel with
  | O => None
  | S fuel' => parseNodes_round (parse fuel') (parseNodes fuel') nodes p
  end.
End Parser.
Arguments Parser R : clear implicits.

(** The nodes of a document *)
Definition parse_document (fuel : nat) (mode : WhitespaceMode) (text : list Z) : option (list Node) :=
  let I := Reader_BaseReader expandEntityReference (fun _ => None) in
  p ← Parser_new (setWhitespaceMode mode (Reader_new text 0));
  '(nodes, _) ← parseNodes fuel [] p;
  Some nodes.
Definition quoted (s : string) : list Z := map (fun c => if c =? 39 then 34 else c) (lit s).
Definition named (name : string) (attrs : list (string * string)) : NamedNode :=
  fold_left (fun n a => setAttribute n (lit a.1) (lit a.2)) attrs (NamedNode_new (lit name)).
Example xml_ex1 : parse_document 100 TrimWS (quoted "<?xml version='1.0'?> <!-- c -->< a x='1&lt;' y = 2>t &amp; u<b/><![CDATA[<]]]>  </a>") =
  Some [PINode (named "xml" [("version", "1.0")%string]);
        TagNode (named "a" [("x", "1<"); ("y", "2")]%string) [TextNode (lit "t & u"); TagNode (named "b" []) []; TextNode (lit "<]")]].
Proof. vm_compute. reflexivity. Qed.

(** ** NodeReader *)

Inductive tag_state := TOpen | TAttributes | TContent | TClose | TDone.
Inductive pi_state := POpen | PAttributes | PDone.
Inductive Worker :=
  | TagWorker (m_node : NamedNode) (m_children : list Node) (m_tagState : tag_state) (m_index : nat) (m_child : option Worker)
  | PIWorker (m_node : NamedNode) (m_piState : pi_state) (m_index : nat)
  | TextWorker (m_text : list Z) (m_did : bool).
Record Data := mkData { d_tag : list Z; d_name : list Z; d_value : list Z }.
(** NodeReader::Visitor *)
Definition new_worker (node : Node) : Worker :=
  match node with
  | PINode n => PIWorker n POpen 0
  | TagNode n ch => TagWorker n ch TOpen 0 None
  | TextNode v => TextWorker v false
  end.
Definition attribute_name (n : NamedNode) (i : nat) : list Z := nth i (m_names (m_attributeNames n)) [].

Definition TextWorker_readNext (m_text : list Z) (m_did : bool) (d : Data) (mode : WhitespaceMode) : Token * Worker * Data :=
  if negb m_did
  then
    if negb (bool_decide (mode = AllWS))
    then if only_blank m_text && bool_decide (mode = TrimWS) then (Eof, TextWorker m_text true, mkData (d_tag d) (d_name d) m_text)
         else (Text, TextWorker m_text true, mkData (d_tag d) (d_name d) [32])
    else (Text, TextWorker m_text true, mkData (d_tag d) (d_name d) m_text)
  else (Eof, TextWorker m_text m_did, d).
Definition PIWorker_readNext (n : NamedNode) (st : pi_state) (i : nat) (d : Data) : Token * Worker * Data :=
  match st with
  | POpen => (PIStart, PIWorker n PAttributes 0, mkData (m_nodeName n) (d_name d) (d_value d))
  | PAttributes =>
      if (i <? length (m_names (m_attributeNames n)))%nat
      then (PIAttribute, PIWorker n PAttributes (S i), mkData (m_nodeName n) (attribute_name n i) (getAttributeByIndex n (Z.of_nat i)))
      else (Eof, PIWorker n PDone 0, d)
  | PDone => (Eof, PIWorker n PDone i, d)
  end.
(** The loop over the content; [readNext] is that of the child. *)
Fixpoint content_loop (fuel : nat) (readNext : Worker -> Data -> Token * Worker * Data) (n : NamedNode) (ch : list Node) (i : nat) (child : option Worker) (d : Data)
    : Token * Worker * Data :=
  match fuel with
  | O => (Eof, TagWorker n ch TContent i child, d)
  | S fuel' =>
      let '(result, child, d) :=
        match child with
        | Some w => let '(t, w, d) := readNext w d in if bool_decide (t = Eof) then (Eof, None, d) else (t, Some w, d)
        | None => (Eof, None, d)
        end in
      if negb (bool_decide (result = Eof)) then (result, TagWorker n ch TContent i child, d)
      else match ch !! i with
           | Some node => content_loop fuel' readNext n ch (S i) (Some (new_worker node)) d
           | None => (TagEnd, TagWorker n ch TDone i None, mkData (m_nodeName n) (d_name d) (d_value d))
           end
  end.
(** [fuel]: at least the depth of the nodes *)
Fixpoint Worker_readNext (fuel : nat) (mode : WhitespaceMode) (w : Worker) (d : Data) : Token * Worker * Data :=
  match fuel with
  | O => (Eof, w, d)
  | S fuel' =>
      match w with
      | TextWorker v did => TextWorker_readNext v did d mode
      | PIWorker n st i => PIWorker_readNext n st i d
      | TagWorker n ch st i child =>
          let content i child := content_loop (2 + (length ch - i)) (Worker_readNext fuel' mode) n ch i child d in
          match st with
          | TOpen => (TagStart, TagWorker n ch TAttributes 0 child, mkData (m_nodeName n) (d_name d) (d_value d))
          | TAttributes =>
              if (i <? length (m_names (m_attributeNames n)))%nat
              then (TagAttribute, TagWorker n ch TAttributes (S i) child, mkData (m_nodeName n) (attribute_name n i) (getAttributeByIndex n (Z.of_nat i)))
              else content 0%nat child
          | TContent => content i child
          | TClose => (TagEnd, TagWorker n ch TDone i child, mkData (m_nodeName n) (d_name d) (d_value d))
          | TDone => (Eof, w, d)
          end
      end
  end.

Fixpoint node_depth (node : Node) : nat :=
  match node with
  | TagNode _ ch => S (foldr Nat.max 0%nat (map node_depth ch))
  | _ => 1%nat
  end.
Definition worker_depth (w : Worker) : nat :=
  match w with
  | TagWorker n ch _ _ _ => node_depth (TagNode n ch)
  | _ => 1%nat
  end.
Record NodeReader := mkNodeReader {
  nr_nodes : list Node;
  nr_worker : option Worker;
  nr_whitespaceMode : WhitespaceMode;
  nr_data : Data;
}.
Definition NodeReader_new : NodeReader := mkNodeReader [] None AllWS (mkData [] [] []).
Definition addNode (r : NodeReader) (node : option Node) : NodeReader :=
  match node with
  | Some node => mkNodeReader (nr_nodes r ++ [node]) (nr_worker r) (nr_whitespaceMode r) (nr_data r)
  | None => r
  end.
Definition NodeReader_setWhitespaceMode (mode : WhitespaceMode) (r : NodeReader) : NodeReader := mkNodeReader (nr_nodes r) (nr_worker r) mode (nr_data r).
Fixpoint NodeReader_loop (fuel : nat) (r : NodeReader) : option (Token * NodeReader) :=
  match fuel with
  | O => None
  | S fuel' =>
      let '(t, w, d) :=
        match nr_worker r with
        | Some w => let '(t, w, d) := Worker_readNext (worker_depth w) (nr_whitespaceMode r) w (nr_data r) in (t, if bool_decide (t = Eof) then None else Some w, d)
        | None => (Eof, None, nr_data r)
        end in
      if negb (bool_decide (t = Eof)) then Some (t, mkNodeReader (nr_nodes r) w (nr_whitespaceMode r) d)
      else match nr_nodes r with
           | [] => Some (Eof, mkNodeReader [] None (nr_whitespaceMode r) d)
           | node :: rest => NodeReader_loop fuel' (mkNodeReader rest (Some (new_worker node)) (nr_whitespaceMode r) d)
           end
  end.
Definition NodeReader_readNext (r : NodeReader) : option (Token * NodeReader) := NodeReader_loop (2 + length (nr_nodes r)) r.
#[export] Instance NodeReader_BaseReader : BaseReader NodeReader :=
  {| readNext := NodeReader_readNext; getTag := fun r => d_tag (nr_data r); getName := fun r => d_name (nr_data r); getValue := fun r => d_value (nr_data r) |}.
Example node_reader_ex :
  let nodes := [TextNode (lit " "); TagNode (named "a" [("x", "1<"); ("y", "2")]%string) [TextNode (lit "t"); TagNode (named "b" []) []; PINode (named "p" [("q", "r")%string])]] in
  (p ← Parser_new (fold_left (fun r n => addNode r (Some n)) nodes NodeReader_new); parseNodes 100 [] p) =
  Some (nodes, mkParser (mkNodeReader [] None AllWS (mkData (lit "a") (lit "q") (lit "r"))) Eof).
Proof. vm_compute. reflexivity. Qed.
