(* ===== verification/XmlProps.v ===== *)
(** * XML: correctness

    The parser is proved against the reader's interface: whatever reader yields the
    tokens of some nodes, the parser builds these nodes.  NodeReader yields the tokens
    of its nodes; Reader, on the text that the writer has made of some nodes, yields
    the tokens of these nodes, with adjacent texts joined and white space treated as
    its mode says. *)

From Stdlib Require Import ZArith Lia Bool String Ascii.
From stdpp Require Import base tactics numbers option list.
From S2P Require Import Prelude Strings Values Utf8 Xml.

Local Open Scope Z_scope.
Local Open Scope afl_scope.
Local Set Warnings "-notation-for-abbreviation,-register-all".

Lemma node_nested_ind (P : Node -> Prop) :
  (forall n, P (PINode n)) -> (forall n ch, Forall P ch -> P (TagNode n ch)) -> (forall v, P (TextNode v)) -> forall node, P node.
Proof.
  intros H1 H2 H3. fix IH 1. intros [n|n ch|v]; [apply H1|apply H2|apply H3]. induction ch as [|c ch IHc]; constructor; [apply IH|exact IHc].
Qed.

(** ** Attributes *)

Definition attrs (n : NamedNode) : list (list Z * list Z) := imap (fun i k => (k, getAttributeByIndex n (Z.of_nat i))) (m_names (m_attributeNames n)).
Definition set_attrs (l : list (list Z * list Z)) (n : NamedNode) : NamedNode := fold_left (fun n a => setAttribute n a.1 a.2) l n.
(** Nodes that are made by the constructor and [setAttribute] *)
Inductive built_named : NamedNode -> Prop :=
  | built_new name : built_named (NamedNode_new name)
  | built_set n k v : built_named n -> Z.of_nat (length (m_names (m_attributeNames n))) + 1 < nil_index -> built_named (setAttribute n k v).

(** The shape of such a node: the names in the order of their first use *)
Record named_ok (n : NamedNode) : Prop := {
  no_names : m_attributeNames n = fold_left (fun nm k => (add nm k).1) (m_names (m_attributeNames n)) NameMap_new;
  no_wf : nm_wf (m_attributeNames n);
  no_nodup : NoDup (m_names (m_attributeNames n));
  no_small : nm_small (m_attributeNames n);
  no_values : length (m_attributeValues n) = length (m_names (m_attributeNames n));
}.
Lemma set_known n k v i : named_ok n -> m_names (m_attributeNames n) !! i = Some k ->
  setAttribute n k v = mkNamed (m_nodeName n) (m_attributeNames n) (<[i := v]> (m_attributeValues n)).
Proof.
  intros [H1 H2 H3 H4 H5] Hi. unfold setAttribute, addMaybe. rewrite (index_present _ _ i) by done.
  pose proof (lookup_lt_Some _ _ _ Hi) as Hl. unfold nm_small in H4. rewrite (proj2 (Z.eqb_neq _ nil_index)) by lia. rewrite Nat2Z.id.
  rewrite (proj2 (Nat.leb_gt _ _)) by lia. done.
Qed.
Lemma set_unknown n k v : named_ok n -> k ∉ m_names (m_attributeNames n) ->
  setAttribute n k v = mkNamed (m_nodeName n) (add (m_attributeNames n) k).1 (m_attributeValues n ++ [v]).
Proof.
  intros [H1 H2 H3 H4 H5] Hk. unfold setAttribute, addMaybe. rewrite (proj2 (index_absent _ k H2 H4) Hk), Z.eqb_refl.
  destruct (add (m_attributeNames n) k) as [nm j] eqn:E. assert (j = Z.of_nat (length (m_names (m_attributeNames n)))) as -> by (unfold add in E; by injection E as _ <-).
  rewrite Nat2Z.id, <- H5. rewrite (proj2 (Nat.leb_le _ _)) by lia. replace (S (length (m_attributeValues n)) - length (m_attributeValues n))%nat with 1%nat by lia.
  cbn [fst replicate]. f_equal. by rewrite insert_app_r_alt, Nat.sub_diag by lia.
Qed.
Lemma add_names nm k : m_names (add nm k).1 = m_names nm ++ [k].
Proof. done. Qed.
Lemma set_ok n k v : named_ok n -> Z.of_nat (length (m_names (m_attributeNames n))) + 1 < nil_index -> named_ok (setAttribute n k v).
Proof.
  intros Hn Hb. pose proof Hn as [H1 H2 H3 H4 H5]. destruct (decide (k ∈ m_names (m_attributeNames n))) as [Hk|Hk].
  - apply list_elem_of_lookup in Hk as [i Hi]. rewrite (set_known n k v i) by done. split; cbn; [done|done|done|done|]. by rewrite length_insert.
  - rewrite (set_unknown n k v) by done. split; cbn [m_attributeNames m_attributeValues]; rewrite ?add_names.
    + rewrite fold_left_app. cbn [fold_left]. by rewrite <- H1.
    + by apply add_wf.
    + apply NoDup_app. split; [done|]. split; [|apply NoDup_singleton]. intros x Hx Hy. apply list_elem_of_singleton in Hy. congruence.
    + unfold nm_small. rewrite add_names, length_app. simpl. lia.
    + rewrite !length_app. simpl. lia.
Qed.
Lemma built_ok n : built_named n -> named_ok n.
Proof. induction 1 as [name|n k v _ IH Hb]; [split; cbn; try done; [apply NameMap_new_wf|constructor]|by apply set_ok]. Qed.

(** Setting the attributes of a node again, in order, makes the same node. *)
Lemma set_attrs_prefix n j : named_ok n -> (j <= length (m_names (m_attributeNames n)))%nat ->
  set_attrs (take j (attrs n)) (NamedNode_new (m_nodeName n)) =
  mkNamed (m_nodeName n) (fold_left (fun nm k => (add nm k).1) (take j (m_names (m_attributeNames n))) NameMap_new) (take j (m_attributeValues n)) /\
  named_ok (set_attrs (take j (attrs n)) (NamedNode_new (m_nodeName n))).
Proof.
  intros Hn. pose proof Hn as [H1 H2 H3 H4 H5]. induction j as [|j IH]; intros Hj; [cbn; split; [by rewrite take_0|apply built_ok; constructor]|].
  destruct (IH ltac:(lia)) as [E Hok]. destruct (lookup_lt_is_Some_2 (m_names (m_attributeNames n)) j ltac:(lia)) as [k Hk].
  destruct (lookup_lt_is_Some_2 (m_attributeValues n) j ltac:(lia)) as [v Hv].
  assert (Ha : attrs n !! j = Some (k, v)).
  { unfold attrs. rewrite list_lookup_imap, Hk. cbn. f_equal. f_equal. unfold getAttributeByIndex. rewrite (proj2 (Z.ltb_lt _ _)) by lia.
    rewrite Nat2Z.id. by apply nth_lookup_Some. }
  rewrite (take_S_r _ _ _ Ha), (take_S_r _ _ _ Hk), (take_S_r _ _ _ Hv). unfold set_attrs in *. rewrite !fold_left_app. cbn [fold_left fst snd].
  set (n' := fold_left _ (take j (attrs n)) _) in *.
  assert (Hnames : m_names (m_attributeNames n') = take j (m_names (m_attributeNames n))).
  { rewrite E. cbn [m_attributeNames]. generalize (take j (m_names (m_attributeNames n))) as l. intros l.
    induction l as [|x l IHl] using rev_ind; [done|]. rewrite fold_left_app. cbn [fold_left]. by rewrite add_names, IHl. }
  assert (Hnk : k ∉ m_names (m_attributeNames n')).
  { rewrite Hnames. intros Hin. apply list_elem_of_lookup in Hin as [i Hi]. apply lookup_take_Some in Hi as [Hi Hlt]. pose proof (NoDup_lookup _ _ _ _ H3 Hi Hk). lia. }
  unfold nm_small in H4. split; [|apply set_ok; [done|]; rewrite Hnames, length_take; lia].
  rewrite (set_unknown n' k v Hok Hnk), E. done.
Qed.
Lemma set_attrs_id n : named_ok n -> set_attrs (attrs n) (NamedNode_new (m_nodeName n)) = n.
Proof.
  intros Hn. pose proof Hn as [H1 H2 H3 H4 H5]. destruct (set_attrs_prefix n (length (m_names (m_attributeNames n))) Hn ltac:(lia)) as [E _].
  assert (Hl : length (attrs n) = length (m_names (m_attributeNames n))) by apply length_imap.
  rewrite !take_ge in E by lia. rewrite E, <- H1. by destruct n.
Qed.

(** ** Tokens *)

Inductive token :=
  | TkStart (tag : list Z)
  | TkAttr (name value : list Z)
  | TkEnd (tag : list Z)
  | TkPI (tag : list Z)
  | TkPIAttr (name value : list Z)
  | TkText (value : list Z).
Definition kind (tk : token) : Token :=
  match tk with
  | TkStart _ => TagStart | TkAttr _ _ => TagAttribute | TkEnd _ => TagEnd | TkPI _ => PIStart | TkPIAttr _ _ => PIAttribute | TkText _ => Text
  end.
Fixpoint tokens (node : Node) : list token :=
  match node with
  | PINode n => TkPI (m_nodeName n) :: map (fun a => TkPIAttr a.1 a.2) (attrs n)
  | TagNode n ch => TkStart (m_nodeName n) :: map (fun a => TkAttr a.1 a.2) (attrs n) ++ concat (map tokens ch) ++ [TkEnd (m_nodeName n)]
  | TextNode v => [TkText v]
  end.
Fixpoint built (node : Node) : Prop :=
  match node with
  | PINode n => named_ok n
  | TagNode n ch => named_ok n /\ foldr (fun x => and (built x)) True ch
  | TextNode _ => True
  end.
Lemma built_Forall ch : foldr (fun x => and (built x)) True ch <-> Forall built ch.
Proof. induction ch as [|x ch IH]; cbn [foldr]; [by split|]. rewrite Forall_cons. tauto. Qed.

Section Parser.
Context {R : Type} `{!BaseReader R}.
Implicit Types p : Parser R.

(** What the accessors show after a token has been read *)
Definition shows (r : R) (tk : token) : Prop :=
  match tk with
  | TkStart tag | TkEnd tag | TkPI tag => getTag r = tag
  | TkAttr name value | TkPIAttr name value => getName r = name /\ getValue r = value
  | TkText value => getValue r = value
  end.
Definition sees p (tk : token) : Prop := m_token p = kind tk /\ shows (m_reader p) tk.
(** The parser's token and the ones that follow, up to the next one *)
Fixpoint yields p (tks : list token) p' : Prop :=
  match tks with
  | [] => p = p'
  | tk :: tks => sees p tk /\ exists q, Parser_readNext p = Some q /\ yields q tks p'
  end.
Lemma yields_app p a b p' : yields p (a ++ b) p' <-> exists q, yields p a q /\ yields q b p'.
Proof.
  revert p. induction a as [|tk a IH]; intros p; cbn [yields app]; [split; [eauto|by intros (q & -> & H)]|].
  setoid_rewrite IH. split; [intros (H & q & Hq & q' & H1 & H2); eauto 10|intros (q' & (H & q & Hq & H1) & H2); eauto 10].
Qed.

Lemma read_attributes_spec (f : list Z * list Z -> token) k l p p' n fuel :
  (forall a, kind (f a) = k) -> (forall r a, shows r (f a) -> getName r = a.1 /\ getValue r = a.2) ->
  yields p (map f l) p' -> m_token p' <> k -> (length l < fuel)%nat -> read_attributes fuel k n p = Some (set_attrs l n, p').
Proof.
  intros Hk Hs. revert p n fuel. induction l as [|a l IH]; intros p n fuel Hy Hp Hf; (destruct fuel as [|fuel]; [lia|]); cbn [read_attributes].
  - cbn in Hy. subst p'. by rewrite bool_decide_eq_false_2.
  - destruct Hy as ([H1 H2] & q & Hq & Hy). rewrite bool_decide_eq_true_2 by (by rewrite H1). destruct (Hs _ _ H2) as [-> ->]. rewrite Hq. cbn [mbind option_bind].
    cbn [length] in Hf. apply IH; [done|done|lia].
Qed.

Definition stops p : Prop := match m_token p with Eof | TagEnd | Null | Error => True | _ => False end.
Definition follows p : Prop := match m_token p with TagAttribute | PIAttribute | Comment => False | _ => True end.
Lemma first_follows nodes p p' : yields p (concat (map tokens nodes)) p' -> stops p' -> follows p.
Proof.
  intros Hy Hs. unfold follows, stops in *. destruct nodes as [|node nodes]; cbn in Hy; [subst; by destruct (m_token p')|].
  destruct node; cbn in Hy; destruct Hy as ([-> _] & _); done.
Qed.

Definition parses (node : Node) : Prop := forall fuel p p', (2 * length (tokens node) + 2 <= fuel)%nat ->
  yields p (tokens node) p' -> follows p' -> parse fuel p = Some (Some node, p').
Lemma parse_S fuel p : parse (S fuel) p = parse_round (parseNodes fuel) (parse fuel) fuel p.
Proof. done. Qed.
Lemma parseNodes_S fuel acc p : parseNodes (S fuel) acc p = parseNodes_round (parse fuel) (parseNodes fuel) acc p.
Proof. done. Qed.
Lemma parseNodes_from nodes acc fuel p p' : Forall parses nodes -> (2 * length (concat (map tokens nodes)) + 4 <= fuel)%nat ->
  yields p (concat (map tokens nodes)) p' -> stops p' -> parseNodes fuel acc p = Some (acc ++ nodes, p').
Proof.
  revert acc fuel p. induction nodes as [|node nodes IHn]; intros acc fuel q0 HB Hf Hy Hstop; (destruct fuel as [|fuel]; [lia|]); rewrite parseNodes_S; unfold parseNodes_round.
  - cbn in Hy. subst q0. destruct fuel as [|fuel]; [lia|]. rewrite parse_S. unfold parse_round, stops in *. destruct (m_token p'); try done; cbn [mbind option_bind]; by rewrite app_nil_r.
  - apply Forall_cons in HB as [HB1 HB2]. cbn [map concat] in Hy, Hf. rewrite length_app in Hf. apply yields_app in Hy as (qm & Hy1 & Hy2).
    assert (0 < length (tokens node))%nat by (destruct node; cbn; lia).
    rewrite (HB1 fuel q0 qm); [|lia|done|by eapply first_follows]. cbn [mbind option_bind]. rewrite (IHn (acc ++ [node]) fuel qm HB2); [by rewrite <- app_assoc|lia|done|done].
Qed.
(** The parser builds the nodes whose tokens the reader yields. *)
Lemma parse_tokens node : built node -> parses node.
Proof.
  induction node as [n|n ch IH|v] using node_nested_ind; intros Hb fuel p p' Hf Hy Hp; (destruct fuel as [|fuel]; [lia|]); rewrite parse_S; unfold parse_round.
  - destruct Hy as ([Hk Hs] & q & Hq & Hy). cbn in Hk, Hs. rewrite Hk. unfold parsePI. rewrite Hs, Hq. cbn [mbind option_bind]. cbn [tokens length] in Hf. rewrite length_map in Hf.
    rewrite (read_attributes_spec (fun a => TkPIAttr a.1 a.2) PIAttribute (attrs n) q p'); [|done|by intros r a [-> ->]|done|intros E; unfold follows in Hp; by rewrite E in Hp|lia].
    cbn [mbind option_bind]. by rewrite set_attrs_id.
  - destruct Hb as [Hn Hch]. apply built_Forall in Hch. cbn [tokens] in Hy, Hf. destruct Hy as ([Hk Hs] & q & Hq & Hy). cbn in Hk, Hs. rewrite Hk. unfold parseTag. rewrite Hs, Hq.
    cbn [mbind option_bind]. apply yields_app in Hy as (q1 & H1 & Hy). apply yields_app in Hy as (q2 & H2 & Hy). destruct Hy as ([Hk3 Hs3] & q3 & Hq3 & <-). cbn in Hk3, Hs3.
    assert (Hstop : stops q2) by (unfold stops; by rewrite Hk3). pose proof (first_follows ch q1 q2 H2 Hstop) as Hfol.
    cbn [length] in Hf. rewrite !length_app, length_map in Hf. cbn [length] in Hf.
    rewrite (read_attributes_spec (fun a => TkAttr a.1 a.2) TagAttribute (attrs n) q q1); [|done|by intros r a [-> ->]|done|intros E; unfold follows in Hfol; by rewrite E in Hfol|lia].
    cbn [mbind option_bind]. rewrite set_attrs_id by done.
    assert (HP : Forall parses ch) by (rewrite Forall_forall in IH, Hch |- *; auto).
    rewrite (parseNodes_from ch [] fuel q1 q2 HP); [|lia|done|done]. cbn [mbind option_bind app]. rewrite !bool_decide_eq_true_2 by done. cbn [andb]. rewrite Hq3. done.
  - destruct Hy as ([Hk Hs] & q & Hq & <-). cbn in Hk, Hs. rewrite Hk, Hs, Hq. done.
Qed.
Lemma parseNodes_tokens nodes acc fuel p p' : Forall built nodes -> (2 * length (concat (map tokens nodes)) + 4 <= fuel)%nat ->
  yields p (concat (map tokens nodes)) p' -> stops p' -> parseNodes fuel acc p = Some (acc ++ nodes, p').
Proof. intros HB. apply parseNodes_from. eapply Forall_impl; [exact HB|]. apply parse_tokens. Qed.
End Parser.

(** ** NodeReader *)

Section NodeReader.
Lemma node_depth_pos node : (0 < node_depth node)%nat.
Proof. destruct node; cbn; lia. Qed.
Lemma child_depth n ch node : node ∈ ch -> (node_depth node < node_depth (TagNode n ch))%nat.
Proof.
  cbn [node_depth]. induction ch as [|x ch IH]; [by intros H; apply not_elem_of_nil in H|]. rewrite elem_of_cons. cbn [map foldr]. intros [->|H]; [lia|]. specialize (IH H). lia.
Qed.
Lemma new_worker_depth node : worker_depth (new_worker node) = node_depth node.
Proof. by destruct node. Qed.

(** The tokens that a worker has still to give *)
Fixpoint left (w : Worker) : list token :=
  match w with
  | TextWorker v did => if did then [] else [TkText v]
  | PIWorker n st i =>
      match st with
      | POpen => tokens (PINode n)
      | PAttributes => map (fun a => TkPIAttr a.1 a.2) (drop i (attrs n))
      | PDone => []
      end
  | TagWorker n ch st i child =>
      match st with
      | TOpen => tokens (TagNode n ch)
      | TAttributes => map (fun a => TkAttr a.1 a.2) (drop i (attrs n)) ++ concat (map tokens ch) ++ [TkEnd (m_nodeName n)]
      | TContent => match child with Some w => left w | None => [] end ++ concat (map tokens (drop i ch)) ++ [TkEnd (m_nodeName n)]
      | TClose => [TkEnd (m_nodeName n)]
      | TDone => []
      end
  end.
Fixpoint worker_ok (w : Worker) : Prop :=
  match w with
  | TagWorker n ch st _ child =>
      match st, child with
      | TContent, Some c => (worker_depth c < node_depth (TagNode n ch))%nat /\ worker_ok c
      | _, None => True
      | _, Some _ => False
      end
  | _ => True
  end.
Lemma new_worker_left node : left (new_worker node) = tokens node /\ worker_ok (new_worker node).
Proof. by destruct node. Qed.
Definition data_shows (d : Data) (tk : token) : Prop :=
  match tk with
  | TkStart tag | TkEnd tag | TkPI tag => d_tag d = tag
  | TkAttr name value | TkPIAttr name value => d_name d = name /\ d_value d = value
  | TkText value => d_value d = value
  end.
(** A worker has given the first of the tokens, or reports the end. *)
Definition gives (depth : nat) (tks : list token) (r : Token * Worker * Data) : Prop :=
  match tks with
  | [] => r.1.1 = Eof
  | tk :: tks => r.1.1 = kind tk /\ data_shows r.2 tk /\ left r.1.2 = tks /\ worker_ok r.1.2 /\ worker_depth r.1.2 = depth
  end.
Lemma kind_not_Eof tk : kind tk <> Eof.
Proof. by destruct tk. Qed.
Lemma attrs_lookup n i k : m_names (m_attributeNames n) !! i = Some k -> attrs n !! i = Some (k, getAttributeByIndex n (Z.of_nat i)).
Proof. intros H. unfold attrs. by rewrite list_lookup_imap, H. Qed.
Lemma drop_attr n i : (i < length (m_names (m_attributeNames n)))%nat ->
  drop i (attrs n) = (attribute_name n i, getAttributeByIndex n (Z.of_nat i)) :: drop (S i) (attrs n).
Proof.
  intros Hi. destruct (lookup_lt_is_Some_2 (m_names (m_attributeNames n)) i Hi) as [k Hk]. rewrite (drop_S _ _ _ (attrs_lookup n i k Hk)).
  unfold attribute_name. by rewrite (nth_lookup_Some _ _ [] _ Hk).
Qed.
Lemma drop_attrs_end n i : (length (m_names (m_attributeNames n)) <= i)%nat -> drop i (attrs n) = [].
Proof. intros H. apply drop_ge. unfold attrs. rewrite length_imap. lia. Qed.

Lemma content_gives f rd n ch : (forall w d, (worker_depth w <= f)%nat -> worker_ok w -> gives (worker_depth w) (left w) (rd w d)) ->
  (forall node, node ∈ ch -> (node_depth node <= f)%nat) ->
  forall fuel i child d, (S (length ch - i) < fuel)%nat ->
  match child with Some w => (worker_depth w <= f)%nat /\ (worker_depth w < node_depth (TagNode n ch))%nat /\ worker_ok w | None => True end ->
  gives (node_depth (TagNode n ch)) (match child with Some w => left w | None => [] end ++ concat (map tokens (drop i ch)) ++ [TkEnd (m_nodeName n)])
    (content_loop fuel rd n ch i child d).
Proof.
  intros Hrd Hch. induction fuel as [|fuel IH]; intros i child d Hf Hc; [lia|]. cbn [content_loop].
  assert (Hnext : forall d, gives (node_depth (TagNode n ch)) (concat (map tokens (drop i ch)) ++ [TkEnd (m_nodeName n)])
      (match ch !! i with
       | Some node => content_loop fuel rd n ch (S i) (Some (new_worker node)) d
       | None => (TagEnd, TagWorker n ch TDone i None, mkData (m_nodeName n) (d_name d) (d_value d))
       end)).
  { intros d'. destruct (ch !! i) as [node|] eqn:Ei.
    - pose proof (lookup_lt_Some _ _ _ Ei) as Hi. assert (Hin : node ∈ ch) by (by eapply list_elem_of_lookup_2).
      destruct (new_worker_left node) as [HL HO]. rewrite (drop_S _ _ _ Ei). cbn [map concat]. rewrite <- HL, <- app_assoc.
      refine (IH (S i) (Some (new_worker node)) d' _ _); [lia|]. rewrite new_worker_depth. split; [by apply Hch|]. split; [by apply child_depth|done].
    - apply lookup_ge_None in Ei. rewrite drop_ge by lia. cbn. done. }
  destruct child as [w|]; [|cbn [app]; apply Hnext]. destruct Hc as (H1 & H2 & H3). specialize (Hrd w d H1 H3). destruct (rd w d) as [[t w'] d'].
  destruct (left w) as [|tk tks] eqn:E; cbn [gives fst snd] in Hrd.
  - subst t. cbn [app]. apply Hnext.
  - destruct Hrd as (Ht & Hd & HL & HO & HD). rewrite (bool_decide_eq_false_2 (t = Eof)) by (subst t; apply kind_not_Eof). cbn [negb].
    rewrite (bool_decide_eq_false_2 (t = Eof)) by (subst t; apply kind_not_Eof). cbn [negb app gives fst snd left worker_ok worker_depth].
    split; [done|]. split; [done|]. split; [by rewrite HL|]. split; [split; [lia|done]|done].
Qed.
Lemma worker_gives fuel w d : (worker_depth w <= fuel)%nat -> worker_ok w -> gives (worker_depth w) (left w) (Worker_readNext fuel AllWS w d).
Proof.
  revert w d. induction fuel as [|fuel IH]; intros w d Hf Hw; [destruct w; cbn in Hf; lia|]. cbn [Worker_readNext].
  destruct w as [n ch st i child|n st i|v did].
  - cbn [worker_depth] in *. assert (Hch : forall node, node ∈ ch -> (node_depth node <= fuel)%nat) by (intros node Hin; pose proof (child_depth n ch node Hin); lia).
    pose proof (content_gives fuel (Worker_readNext fuel AllWS) n ch IH Hch) as HC. destruct st; cbn [worker_ok] in Hw; cbn [left].
    + destruct child; [done|]. cbn [gives tokens fst snd left worker_ok worker_depth]. rewrite drop_0. done.
    + destruct child; [done|]. destruct (Nat.ltb_spec i (length (m_names (m_attributeNames n)))) as [Hi|Hi].
      * rewrite (drop_attr n i Hi). cbn [map app gives fst snd left worker_ok worker_depth kind data_shows]. done.
      * rewrite drop_attrs_end by done. cbn [map app]. apply (HC (2 + (length ch - 0))%nat 0%nat None d); [lia|done].
    + apply (HC (2 + (length ch - i))%nat i child d); [lia|]. destruct child as [c|]; [|done]. destruct Hw as [H1 H2]. split; [lia|]. split; [done|done].
    + destruct child; done.
    + done.
  - destruct st; cbn [PIWorker_readNext left].
    + cbn [gives tokens fst snd left worker_ok worker_depth]. rewrite drop_0. done.
    + destruct (Nat.ltb_spec i (length (m_names (m_attributeNames n)))) as [Hi|Hi].
      * rewrite (drop_attr n i Hi). cbn [map app gives fst snd left worker_ok worker_depth kind data_shows]. done.
      * by rewrite drop_attrs_end.
    + done.
  - by destruct did.
Qed.

(** What a reader has still to give *)
Definition reader_left (r : NodeReader) : list token := match nr_worker r with Some w => left w | None => [] end ++ concat (map tokens (nr_nodes r)).
Definition reader_ok (r : NodeReader) : Prop := nr_whitespaceMode r = AllWS /\ match nr_worker r with Some w => worker_ok w | None => True end.
Lemma node_reader_gives r : reader_ok r ->
  exists t r', readNext r = Some (t, r') /\ reader_ok r' /\
  match reader_left r with
  | [] => t = Eof /\ reader_left r' = []
  | tk :: tks => t = kind tk /\ shows r' tk /\ reader_left r' = tks
  end.
Proof.
  cbn [readNext NodeReader_BaseReader]. unfold NodeReader_readNext. assert (Hf : (1 + length (nr_nodes r) < 2 + length (nr_nodes r))%nat) by lia. revert Hf.
  generalize (2 + length (nr_nodes r))%nat as fuel. intros fuel. revert r. induction fuel as [|fuel IH]; intros r Hf [Hm Hw]; [lia|]. cbn [NodeReader_loop]. rewrite Hm.
  assert (Hnext : forall d, exists t r', match nr_nodes r with
       | [] => Some (Eof, mkNodeReader [] None AllWS d)
       | node :: rest => NodeReader_loop fuel (mkNodeReader rest (Some (new_worker node)) AllWS d)
       end = Some (t, r') /\ reader_ok r' /\ match concat (map tokens (nr_nodes r)) with
         | [] => t = Eof /\ reader_left r' = []
         | tk :: tks => t = kind tk /\ shows r' tk /\ reader_left r' = tks
         end).
  { intros d. destruct (nr_nodes r) as [|node rest] eqn:En; [by eexists _, _|]. destruct (new_worker_left node) as [HL HO].
    destruct (IH (mkNodeReader rest (Some (new_worker node)) AllWS d)) as (t & r' & E & Hok & HT); [cbn in *; lia|done|]. exists t, r'. split; [done|]. split; [done|].
    unfold reader_left in HT at 1. cbn [nr_worker nr_nodes] in HT. rewrite HL in HT. exact HT. }
  unfold reader_left at 1. destruct (nr_worker r) as [w|]; [|exact (Hnext (nr_data r))].
  pose proof (worker_gives (worker_depth w) w (nr_data r) ltac:(lia) Hw) as HG. destruct (Worker_readNext (worker_depth w) AllWS w (nr_data r)) as [[t w'] d'].
  destruct (left w) as [|tk tks]; cbn [gives fst snd] in HG.
  - subst t. exact (Hnext d').
  - destruct HG as (Ht & Hd & HL & HO & HD). assert (bool_decide (t = Eof) = false) as -> by (apply bool_decide_eq_false_2; subst t; apply kind_not_Eof). cbn [negb app].
    eexists _, _. split; [done|]. split; [done|]. split; [done|]. split; [by destruct tk|]. unfold reader_left. cbn [nr_worker nr_nodes]. by rewrite HL.
Qed.
Lemma node_reader_yields tks r t : reader_ok r -> reader_left r = tks ->
  forall p, Parser_readNext (mkParser r t) = Some p -> exists p', yields p tks p' /\ m_token p' = Eof.
Proof.
  revert r t. induction tks as [|tk tks IH]; intros r t Hok HL p Hp; unfold Parser_readNext in Hp; cbn [m_reader] in Hp;
    destruct (node_reader_gives r Hok) as (t' & r' & E & Hok' & HT); rewrite E in Hp; injection Hp as <-; rewrite HL in HT.
  - exists (mkParser r' t'). split; [done|]. by destruct HT.
  - destruct HT as (-> & Hs & HL'). destruct (node_reader_gives r' Hok') as (t2 & r2 & E2 & _).
    destruct (IH r' (kind tk) Hok' HL' (mkParser r2 t2)) as (p' & Hy & Hp'); [unfold Parser_readNext; cbn [m_reader]; by rewrite E2|].
    exists p'. split; [|done]. split; [done|]. exists (mkParser r2 t2). split; [|done]. unfold Parser_readNext. cbn [m_reader]. by rewrite E2.
Qed.
End NodeReader.

Lemma add_nodes nodes r : fold_left (fun r node => addNode r (Some node)) nodes r = mkNodeReader (nr_nodes r ++ nodes) (nr_worker r) (nr_whitespaceMode r) (nr_data r).
Proof. revert r. induction nodes as [|node nodes IH]; intros r; cbn [fold_left addNode]; [destruct r; cbn; by rewrite app_nil_r|]. rewrite IH. cbn. by rewrite <- app_assoc. Qed.

(** Nodes survive a round trip through NodeReader and Parser: after any nodes whose
    attributes were set with setAttribute have been added to a NodeReader, a Parser on
    this reader parses exactly these nodes, with all tags, attributes in their order,
    texts and processing instructions, and then is at the end of the input. *)
Theorem node_reader_roundtrip nodes fuel : Forall built nodes -> (2 * length (concat (map tokens nodes)) + 4 <= fuel)%nat ->
  exists p p', Parser_new (fold_left (fun r node => addNode r (Some node)) nodes NodeReader_new) = Some p /\
    parseNodes fuel [] p = Some (nodes, p') /\ m_token p' = Eof.
Proof.
  intros HB Hf. rewrite add_nodes. cbn [nr_nodes nr_worker nr_whitespaceMode nr_data NodeReader_new app]. set (r := mkNodeReader _ _ _ _).
  assert (Hok : reader_ok r) by done. assert (HL : reader_left r = concat (map tokens nodes)) by done.
  destruct (node_reader_gives r Hok) as (t & r' & E & _). exists (mkParser r' t).
  assert (Hp : Parser_new r = Some (mkParser r' t)) by (unfold Parser_new, Parser_readNext; cbn [m_reader]; by rewrite E).
  destruct (node_reader_yields _ r Null Hok HL _ Hp) as (p' & Hy & Hp'). exists p'. split; [done|]. split; [|done].
  apply (parseNodes_tokens nodes [] fuel _ p' HB Hf Hy). unfold stops. by rewrite Hp'.
Qed.
Lemma node_reader_roundtrip_witness :
  let nodes := [TextNode (lit " "); TagNode (named "a" [("x", "1<"); ("y", "2")]%string) [TextNode (lit "t"); TagNode (named "b" []) []; PINode (named "p" [("q", "r")%string])]] in
  exists p p', Parser_new (fold_left (fun r node => addNode r (Some node)) nodes NodeReader_new) = Some p /\ parseNodes 100 [] p = Some (nodes, p') /\ m_token p' = Eof.
Proof.
  refine (node_reader_roundtrip _ 100 _ _); [|vm_compute; repeat constructor].
  constructor; [exact I|]. constructor; [|constructor]. split; [apply built_ok; unfold named; cbn [fold_left]; repeat constructor|]. cbn [foldr built]. split; [exact I|].
  split; [split; [apply built_ok; unfold named; cbn [fold_left]; repeat constructor|exact I]|]. split; [apply built_ok; unfold named; cbn [fold_left]; repeat constructor|exact I].
Defined.
