(* ===== verification/XmlText.v ===== *)
(** * XML: what the writer writes, the reader reads

    The reader is followed character by character: [at_chars r cs] says that [cs] are
    the characters from the current one to the end of the input.  Each kind of text
    the writer produces (a piece) is read as its tokens; a text is read together with
    the texts that follow it. *)

From Stdlib Require Import ZArith Lia Bool String Ascii.
From stdpp Require Import base tactics numbers option list.
From S2P Require Import Prelude Strings Values Utf8 Xml XmlProps.

Local Open Scope Z_scope.
Local Open Scope afl_scope.
Local Set Warnings "-notation-for-abbreviation,-register-all".

(** ** Characters *)

Definition bmp (c : Z) : Prop := 0 < c < 0x10000.
Definition utf8 (cs : list Z) : list Z := concat (map (append 0) cs).
Lemma utf8_app a b : utf8 (a ++ b) = utf8 a ++ utf8 b.
Proof. unfold utf8. by rewrite map_app, concat_app. Qed.
Lemma append_ascii c : 0 <= c < 0x80 -> append 0 c = [c].
Proof.
  intros H. unfold append, flag. rewrite !Z.land_0_l. cbn [Z.eqb negb andb]. rewrite !andb_false_r. rewrite (proj2 (Z.leb_gt _ _)) by lia.
  unfold u8, wrap. by rewrite Z.mod_small by lia.
Qed.
(** Characters of one, two and three bytes *)
Lemma append_shape c : bmp c ->
  (c < 0x80 /\ append 0 c = [c]) \/
  (0x80 <= c < 0x800 /\ append 0 c = [0xC0 + c / 64; 0x80 + c mod 64]) \/
  (0x800 <= c /\ append 0 c = [0xE0 + c / 4096; 0x80 + (c / 64) mod 64; 0x80 + c mod 64]).
Proof.
  intros [H1 H2]. destruct (Z.ltb_spec c 0x80) as [H|H]; [left; split; [done|apply append_ascii; lia]|right].
  assert (append 0 c = appendOne c) as ->.
  { unfold append, flag. rewrite !Z.land_0_l. cbn [Z.eqb negb andb]. rewrite !andb_false_r. by rewrite (proj2 (Z.leb_le _ _)) by lia. }
  unfold appendOne. destruct (Z.leb_spec c 0x7FF) as [H3|H3].
  - left. split; [lia|]. rewrite put_extra_S. cbn [put_extra]. rewrite Z.shiftr_div_pow2 by lia. change (64 ^ Z.of_nat 0) with 1. rewrite Z.div_1_r.
    unfold u8, wrap. rewrite Z.mod_small; [done|]. assert (0 <= c / 64 < 32) by (split; [apply Z.div_pos; lia|apply Z.div_lt_upper_bound; lia]). change (2 ^ 6) with 64. lia.
  - right. split; [lia|]. rewrite (proj2 (Z.leb_le c 0xFFFF)) by lia. rewrite !put_extra_S. cbn [put_extra]. rewrite Z.shiftr_div_pow2 by lia. change (64 ^ Z.of_nat 0) with 1.
    change (64 ^ Z.of_nat 1) with 64. rewrite Z.div_1_r. unfold u8, wrap. rewrite Z.mod_small; [done|].
    assert (0 <= c / 4096 < 16) by (split; [apply Z.div_pos; lia|apply Z.div_lt_upper_bound; lia]). change (2 ^ 12) with 4096. lia.
Qed.
Lemma bmp_nonempty c : bmp c -> (0 < length (append 0 c))%nat.
Proof. intros H. destruct (append_shape c H) as [[_ ->]|[[_ ->]|[_ ->]]]; cbn; lia. Qed.

(** What stays as it is while characters are read *)
Definition same (r r' : Reader) : Prop :=
  m_whitespaceMode r' = m_whitespaceMode r /\ m_state r' = m_state r /\ m_tag r' = m_tag r /\ m_name r' = m_name r /\ m_value r' = m_value r /\ m_encoding r' = m_encoding r.
Definition at_chars (r : Reader) (cs : list Z) : Prop :=
  m_encoding r = EncUtf8 /\ Forall bmp cs /\
  match cs with
  | [] => m_haveCurrentCharacter r = false /\ m_data r = []
  | c :: cs => m_haveCurrentCharacter r = true /\ m_currentCharacter r = c /\ m_data r = utf8 cs
  end.
Lemma same_refl r : same r r.
Proof. done. Qed.
Lemma same_trans a b c : same a b -> same b c -> same a c.
Proof. unfold same. intuition congruence. Qed.
Lemma same_advance n c r : same r (advance n c r).
Proof. done. Qed.
#[local] Hint Resolve same_refl same_trans same_advance : core.

Lemma read_char r cs : m_encoding r = EncUtf8 -> Forall bmp cs -> m_data r = utf8 cs -> at_chars (readNextChar r) cs /\ same r (readNextChar r).
Proof.
  intros He Hcs Hd. unfold readNextChar. rewrite He, Hd. destruct cs as [|c cs]; [split; [|done]; unfold at_chars, advance; cbn; rewrite Hd; done|].
  apply Forall_cons in Hcs as [Hc Hcs]. change (utf8 (c :: cs)) with (append 0 c ++ utf8 cs) in *.
  assert (Hgo : forall n x, x = c -> n = length (append 0 c) -> at_chars (advance n (Some x) r) (c :: cs) /\ same r (advance n (Some x) r)).
  { intros n x -> ->. split; [|done]. unfold at_chars, advance. cbn. rewrite Hd, drop_app_length. rewrite Forall_cons. done. }
  destruct (append_shape c Hc) as [[H E]|[[H E]|[H E]]]; rewrite E in *; cbn [app]; destruct Hc as [H1 H2].
  - rewrite (proj2 (Z.leb_gt 0xC0 c)), (proj2 (Z.leb_gt 0xE0 c)) by lia. by apply Hgo.
  - assert (0 <= c / 64 < 32) by (split; [apply Z.div_pos; lia|apply Z.div_lt_upper_bound; lia]).
    rewrite (proj2 (Z.leb_le 0xC0 _)), (proj2 (Z.ltb_lt _ 0xE0)) by lia. cbn [andb]. apply Hgo; [|done].
    change 0x1F with (Z.ones 5). change 0x3F with (Z.ones 6). rewrite !Z.land_ones, Z.shiftl_mul_pow2 by lia. change (2 ^ 5) with 32. change (2 ^ 6) with 64.
    replace (0xC0 + c / 64) with (c / 64 + 6 * 32) by lia. replace (0x80 + c mod 64) with (c mod 64 + 2 * 64) by lia. rewrite !Z.mod_add by lia.
    rewrite Z.mod_mod by lia. rewrite (Z.mod_small (c / 64)) by lia. pose proof (Z.div_mod c 64). lia.
  - assert (0 <= c / 4096 < 16) by (split; [apply Z.div_pos; lia|apply Z.div_lt_upper_bound; lia]).
    rewrite (proj2 (Z.leb_le 0xC0 _)), (proj2 (Z.ltb_ge _ 0xE0)), (proj2 (Z.leb_le 0xE0 _)), (proj2 (Z.ltb_lt _ 0xF0)) by lia. cbn [andb]. apply Hgo; [|done].
    change 0xF with (Z.ones 4). change 0x3F with (Z.ones 6). rewrite !Z.land_ones, !Z.shiftl_mul_pow2 by lia. change (2 ^ 4) with 16. change (2 ^ 6) with 64. change (2 ^ 12) with 4096.
    replace (0xE0 + c / 4096) with (c / 4096 + 14 * 16) by lia. replace (0x80 + c mod 64) with (c mod 64 + 2 * 64) by lia.
    replace (0x80 + (c / 64) mod 64) with ((c / 64) mod 64 + 2 * 64) by lia. rewrite !Z.mod_add by lia. rewrite !Z.mod_mod by lia. rewrite (Z.mod_small (c / 4096)) by lia.
    pose proof (Z.div_mod c 64). pose proof (Z.div_mod (c / 64) 64). rewrite Z.div_div in * by lia. change (64 * 64) with 4096 in *. lia.
Qed.
Lemma next_char r c cs : at_chars r (c :: cs) -> at_chars (readNextChar r) cs /\ same r (readNextChar r).
Proof. intros (He & Hcs & _ & _ & Hd). apply Forall_cons in Hcs as [_ Hcs]. by apply read_char. Qed.

(** *** Sequences of characters *)

(** readCharacterSequence on characters: the ones it keeps, and the rest *)
Fixpoint seq_chars (acc quote : Z) (cs : list Z) : list Z * list Z :=
  match cs with
  | [] => ([], [])
  | c :: cs' =>
      if negb (quote =? 0) && (c =? quote) then seq_chars acc 0 cs'
      else if has acc ProcessQuotes && (quote =? 0) && ((c =? 34) || (c =? 39)) then seq_chars acc c cs'
      else if has acc (char_class c) || negb (quote =? 0) then let '(a, b) := seq_chars acc quote cs' in (c :: a, b)
      else ([], cs)
  end.
Lemma sequence_spec acc cs : forall fuel quote n accum r, at_chars r cs -> (length cs < fuel)%nat ->
  exists r', sequence_loop fuel acc quote n accum r = ((n + length (seq_chars acc quote cs).1)%nat, accum ++ utf8 (seq_chars acc quote cs).1, r') /\
    at_chars r' (seq_chars acc quote cs).2 /\ same r r'.
Proof.
  induction cs as [|c cs IH]; intros fuel quote n accum r Ha Hf; (destruct fuel as [|fuel]; [cbn in Hf; lia|]); cbn [sequence_loop seq_chars].
  - destruct Ha as (He & Hcs & Hh & Hd). rewrite Hh. cbn. exists r. rewrite Nat.add_0_r, app_nil_r. done.
  - destruct (next_char r c cs Ha) as [Hn Hs]. pose proof Ha as (He & Hcs & Hh & Hc & Hd). rewrite Hh, Hc. cbn [negb]. cbn [length] in Hf.
    assert (IH' : forall quote n accum, exists r', sequence_loop fuel acc quote n accum (readNextChar r) =
        ((n + length (seq_chars acc quote cs).1)%nat, accum ++ utf8 (seq_chars acc quote cs).1, r') /\ at_chars r' (seq_chars acc quote cs).2 /\ same r r').
    { intros q' n' a'. destruct (IH fuel q' n' a' _ Hn ltac:(lia)) as (r' & E & H1 & H2). exists r'. eauto. }
    destruct (negb (quote =? 0) && (c =? quote)); [apply IH'|]. destruct (has acc ProcessQuotes && (quote =? 0) && ((c =? 34) || (c =? 39))); [apply IH'|].
    destruct (has acc (char_class c) || negb (quote =? 0)).
    + destruct (IH' quote (S n) (accum ++ append 0 c)) as (r' & E & H1 & H2). exists r'. destruct (seq_chars acc quote cs) as [a b]. cbn [fst snd length] in *. rewrite E.
      split; [|done]. f_equal. f_equal; [lia|]. by rewrite <- app_assoc.
    + exists r. cbn. by rewrite Nat.add_0_r, app_nil_r.
Qed.
Lemma utf8_length cs : Forall bmp cs -> (length cs <= length (utf8 cs))%nat.
Proof.
  induction 1 as [|c cs Hc _ IH]; [done|]. change (utf8 (c :: cs)) with (append 0 c ++ utf8 cs). rewrite length_app. pose proof (bmp_nonempty c Hc). cbn [length]. lia.
Qed.
Lemma readCharacterSequence_spec acc r cs : at_chars r cs ->
  exists r', readCharacterSequence acc r = (length (seq_chars acc 0 cs).1, utf8 (seq_chars acc 0 cs).1, r') /\ at_chars r' (seq_chars acc 0 cs).2 /\ same r r'.
Proof.
  intros Ha. unfold readCharacterSequence. apply (sequence_spec acc cs (2 + length (m_data r)) 0 0 [] r Ha).
  destruct cs as [|c cs]; [cbn; lia|]. destruct Ha as (_ & Hcs & _ & _ & ->). apply Forall_cons in Hcs as [_ Hcs]. pose proof (utf8_length cs Hcs). cbn [length]. lia.
Qed.

(** A run of accepted characters up to one that ends it *)
Definition is_quote (c : Z) : bool := (c =? 34) || (c =? 39).
Definition ends_at (acc : Z) (cs : list Z) : Prop :=
  match cs with [] => True | c :: _ => has acc (char_class c) = false /\ (has acc ProcessQuotes && is_quote c = false) end.
Lemma seq_run acc a rest : (forall c, c ∈ a -> has acc (char_class c) = true /\ has acc ProcessQuotes && is_quote c = false) -> ends_at acc rest ->
  seq_chars acc 0 (a ++ rest) = (a, rest).
Proof.
  intros Ha He. induction a as [|c a IH]; cbn [app seq_chars].
  - destruct rest as [|c rest]; [done|]. cbn [seq_chars]. destruct He as [E1 E2]. cbn [Z.eqb negb andb]. rewrite andb_true_r. unfold is_quote in E2. by rewrite E2, E1.
  - destruct (Ha c) as [E1 E2]; [apply elem_of_cons; by left|]. cbn [Z.eqb negb andb]. rewrite andb_true_r. unfold is_quote in E2. rewrite E2, E1. cbn [orb].
    rewrite IH; [done|]. intros x Hx. apply Ha, elem_of_cons. by right.
Qed.
(** A string in quotes *)
Lemma seq_in_quote acc v rest : 34 ∉ v -> seq_chars acc 34 (v ++ 34 :: rest) = let '(a, b) := seq_chars acc 0 rest in (v ++ a, b).
Proof.
  intros Hv. induction v as [|c v IH]; cbn [app seq_chars].
  - cbn [Z.eqb Pos.eqb negb andb]. by destruct (seq_chars acc 0 rest).
  - apply not_elem_of_cons in Hv as [Hc Hv]. rewrite (proj2 (Z.eqb_neq c 34)) by congruence. cbn [Z.eqb Pos.eqb negb andb]. rewrite !andb_false_r. cbn [andb]. rewrite orb_true_r.
    rewrite (IH Hv). by destruct (seq_chars acc 0 rest).
Qed.
Lemma seq_quoted acc v rest : has acc ProcessQuotes = true -> 34 ∉ v -> ends_at acc rest -> seq_chars acc 0 (34 :: v ++ 34 :: rest) = (v, rest).
Proof.
  intros Hp Hv He. cbn [seq_chars Z.eqb Pos.eqb negb andb orb]. rewrite Hp. cbn [andb]. rewrite (seq_in_quote acc v rest Hv).
  assert (seq_chars acc 0 rest = ([], rest)) as ->; [|by rewrite app_nil_r]. apply (seq_run acc [] rest); [|done]. intros c Hc. by apply not_elem_of_nil in Hc.
Qed.

(** Reading a run, skipping it, skipping to the end of a tag *)
Lemma read_run acc r a rest : at_chars r (a ++ rest) -> (forall c, c ∈ a -> has acc (char_class c) = true /\ has acc ProcessQuotes && is_quote c = false) -> ends_at acc rest ->
  exists r', readCharacterSequence acc r = (length a, utf8 a, r') /\ at_chars r' rest /\ same r r'.
Proof. intros Ha H1 H2. destruct (readCharacterSequence_spec acc r _ Ha) as (r' & E & H3 & H4). rewrite (seq_run acc a rest H1 H2) in *. eauto. Qed.
Lemma read_quoted acc r v rest : at_chars r (34 :: v ++ 34 :: rest) -> has acc ProcessQuotes = true -> 34 ∉ v -> ends_at acc rest ->
  exists r', readCharacterSequence acc r = (length v, utf8 v, r') /\ at_chars r' rest /\ same r r'.
Proof. intros Ha Hp Hv He. destruct (readCharacterSequence_spec acc r _ Ha) as (r' & E & H3 & H4). rewrite (seq_quoted acc v rest Hp Hv He) in *. eauto. Qed.
Lemma chars_skip_none acc r cs : at_chars r cs -> ends_at acc cs -> at_chars (skipCharacters acc r) cs /\ same r (skipCharacters acc r).
Proof.
  intros Ha He. unfold skipCharacters. destruct (read_run acc r [] cs Ha) as (r' & -> & H1 & H2); [|done|done]. intros c Hc. by apply not_elem_of_nil in Hc.
Qed.
Lemma chars_skip_one acc r c cs : at_chars r (c :: cs) -> has acc (char_class c) = true -> is_quote c = false -> ends_at acc cs ->
  at_chars (skipCharacters acc r) cs /\ same r (skipCharacters acc r).
Proof.
  intros Ha Hc Hq He. unfold skipCharacters. destruct (read_run acc r [c] cs Ha) as (r' & -> & H1 & H2); [|done|done].
  intros x Hx. apply list_elem_of_singleton in Hx as ->. rewrite Hq, andb_false_r. done.
Qed.
Lemma skip_tag_gt r cs : at_chars r (62 :: cs) -> at_chars (skip_tag r) cs /\ same r (skip_tag r).
Proof.
  intros Ha. unfold skip_tag. destruct (chars_skip_none (all_but GTChar) r _ Ha) as [H1 H2]; [done|]. destruct (next_char _ _ _ H1). eauto.
Qed.
Lemma skip_tag_one r c cs : at_chars r (c :: 62 :: cs) -> has (all_but GTChar) (char_class c) = true -> is_quote c = false -> at_chars (skip_tag r) cs /\ same r (skip_tag r).
Proof.
  intros Ha Hc Hq. unfold skip_tag. destruct (chars_skip_one (all_but GTChar) r _ _ Ha) as [H1 H2]; [done|done|done|]. destruct (next_char _ _ _ H1). eauto.
Qed.

(** ** Tokens *)

Definition name_char (c : Z) : bool := has (Z.lor AnyChar MinusChar) (char_class c) && negb (is_quote c).
Lemma char_class_cases c : char_class c ∈ [WhitespaceChar; LTChar; GTChar; EQChar; BangChar; QuesChar; SlashChar; MinusChar; LBracketChar; AnyChar].
Proof. unfold char_class. rewrite !elem_of_cons. repeat case_match; tauto. Qed.
(** Names are accepted wherever no class of their characters is excluded. *)
Lemma name_run acc name : has acc AnyChar = true -> has acc MinusChar = true -> Forall (fun c => name_char c = true) name ->
  forall c, c ∈ name -> has acc (char_class c) = true /\ has acc ProcessQuotes && is_quote c = false.
Proof.
  intros H1 H2 Hn c Hc. rewrite Forall_forall in Hn. specialize (Hn c Hc). unfold name_char in Hn. apply andb_prop in Hn as [Hn Hq]. apply negb_true_iff in Hq. rewrite Hq, andb_false_r.
  split; [|done]. pose proof (char_class_cases c) as HC. repeat (apply elem_of_cons in HC as [HC|HC]; [rewrite HC in *; first [done|by vm_compute in Hn]|]). by apply not_elem_of_nil in HC.
Qed.
Lemma name_head name rest acc : name <> [] -> Forall (fun c => name_char c = true) name -> has acc AnyChar = false -> has acc MinusChar = false -> ends_at acc (name ++ rest).
Proof.
  intros Hne Hn H1 H2. destruct name as [|c name]; [done|]. apply Forall_cons in Hn as [Hn _]. unfold name_char in Hn. apply andb_prop in Hn as [Hn Hq]. apply negb_true_iff in Hq.
  cbn [app ends_at]. rewrite Hq, andb_false_r. split; [|done].
  pose proof (char_class_cases c) as HC. repeat (apply elem_of_cons in HC as [HC|HC]; [rewrite HC in *; first [done|by vm_compute in Hn]|]). by apply not_elem_of_nil in HC.
Qed.
Lemma name_char_not c d : name_char c = true -> name_char d = false -> (c =? d) = false.
Proof. intros Hc Hd. apply Z.eqb_neq. intros ->. congruence. Qed.

Definition inv (mode : WhitespaceMode) (st : reader_state) (r : Reader) (cs : list Z) : Prop := at_chars r cs /\ m_state r = st /\ m_whitespaceMode r = mode.
Lemma same_inv mode st r r' cs cs' : inv mode st r cs -> same r r' -> at_chars r' cs' -> inv mode st r' cs'.
Proof. unfold inv, same. intuition congruence. Qed.

Section Steps.
Context (createCharset : list Z -> option (list Z)) (mode : WhitespaceMode).
Notation next := (readNextToken expandEntityReference createCharset).

(** The first character of a token *)
Lemma next_have fuel r st c cs : inv mode st r (c :: cs) -> next fuel r =
  let r := set_tagPos (m_charPos r) r in
  match st with Main => read_main expandEntityReference fuel r | InTag => Some (read_tag expandEntityReference r) | InPI => Some (read_pi createCharset r) end.
Proof. intros ((_ & _ & Hh & _) & Hs & _). unfold readNextToken. rewrite Hh. cbn [negb]. cbv zeta. cbn [m_state set_tagPos]. by rewrite Hs. Qed.
Lemma inv_tagPos p st r cs : inv mode st r cs -> inv mode st (set_tagPos p r) cs.
Proof. done. Qed.
Lemma inv_cur st r c cs : inv mode st r (c :: cs) -> m_currentCharacter r = c /\ m_haveCurrentCharacter r = true.
Proof. by intros ((_ & _ & Hh & Hc & _) & _). Qed.
Lemma inv_next st r c cs : inv mode st r (c :: cs) -> inv mode st (readNextChar r) cs /\ same r (readNextChar r).
Proof. intros Hi. destruct (next_char r c cs (proj1 Hi)) as [H1 H2]. split; [by eapply same_inv|done]. Qed.
Lemma inv_skip_none acc st r cs : inv mode st r cs -> ends_at acc cs -> inv mode st (skipCharacters acc r) cs /\ same r (skipCharacters acc r).
Proof. intros Hi He. destruct (chars_skip_none acc r cs (proj1 Hi) He) as [H1 H2]. split; [by eapply same_inv|done]. Qed.
Lemma inv_skip_one acc st r c cs : inv mode st r (c :: cs) -> has acc (char_class c) = true -> is_quote c = false -> ends_at acc cs ->
  inv mode st (skipCharacters acc r) cs /\ same r (skipCharacters acc r).
Proof. intros Hi Hc Hq He. destruct (chars_skip_one acc r c cs (proj1 Hi) Hc Hq He) as [H1 H2]. split; [by eapply same_inv|done]. Qed.
Lemma inv_run acc st r a rest : inv mode st r (a ++ rest) -> (forall c, c ∈ a -> has acc (char_class c) = true /\ has acc ProcessQuotes && is_quote c = false) -> ends_at acc rest ->
  exists r', readCharacterSequence acc r = (length a, utf8 a, r') /\ inv mode st r' rest /\ same r r'.
Proof. intros Hi H1 H2. destruct (read_run acc r a rest (proj1 Hi) H1 H2) as (r' & E & H3 & H4). exists r'. split; [done|]. split; [by eapply same_inv|done]. Qed.
Lemma inv_quoted acc st r v rest : inv mode st r (34 :: v ++ 34 :: rest) -> has acc ProcessQuotes = true -> 34 ∉ v -> ends_at acc rest ->
  exists r', readCharacterSequence acc r = (length v, utf8 v, r') /\ inv mode st r' rest /\ same r r'.
Proof. intros Hi H1 H2 H3. destruct (read_quoted acc r v rest (proj1 Hi) H1 H2 H3) as (r' & E & H4 & H5). exists r'. split; [done|]. split; [by eapply same_inv|done]. Qed.

Definition name_ok (name : list Z) : Prop := name <> [] /\ Forall (fun c => name_char c = true) name.
Definition tag_stop (rest : list Z) : Prop := ends_at (all_but (Z.lor (Z.lor WhitespaceChar GTChar) SlashChar)) rest.
Definition pi_stop (rest : list Z) : Prop := ends_at (all_but (Z.lor (Z.lor WhitespaceChar GTChar) QuesChar)) rest.

Lemma step_open fuel r name rest : inv mode Main r (60 :: name ++ rest) -> name_ok name -> tag_stop rest ->
  exists q, next fuel r = Some (TagStart, q) /\ inv mode InTag q rest /\ m_tag q = utf8 name.
Proof.
  intros Hi [Hne Hn] Hr. rewrite (next_have fuel r Main _ _ Hi). cbv zeta. apply (inv_tagPos (m_charPos r)) in Hi. set (r0 := set_tagPos _ r) in *. clearbody r0. unfold read_main.
  destruct (inv_cur _ _ _ _ Hi) as [-> _]. cbn [Z.eqb Pos.eqb]. destruct (inv_next _ _ _ _ Hi) as [Hi1 _].
  destruct (inv_skip_none WhitespaceChar _ _ _ Hi1 (name_head _ _ WhitespaceChar Hne Hn eq_refl eq_refl)) as [Hi2 _]. clear Hi1.
  set (r1 := skipCharacters _ _) in *. clearbody r1. destruct (inv_run (all_but (Z.lor (Z.lor WhitespaceChar GTChar) SlashChar)) Main r1 name rest Hi2) as (q & E & Hq & _);
    [by apply name_run|done|]. destruct name as [|c name]; [done|]. destruct (inv_cur _ _ _ _ Hi2) as [Hc ->]. cbn [negb]. rewrite Hc.
  apply Forall_cons in Hn as [Hn1 _]. rewrite !(name_char_not c) by done. rewrite E. eexists. split; [done|]. split; [|done]. destruct Hq as (H1 & H2 & H3). done.
Qed.
Lemma step_close fuel r name rest : inv mode Main r (60 :: 47 :: name ++ 62 :: rest) -> name_ok name ->
  exists q, next fuel r = Some (TagEnd, q) /\ inv mode Main q rest /\ m_tag q = utf8 name.
Proof.
  intros Hi [Hne Hn]. rewrite (next_have fuel r Main _ _ Hi). cbv zeta. apply (inv_tagPos (m_charPos r)) in Hi. set (r0 := set_tagPos _ r) in *. clearbody r0. unfold read_main.
  destruct (inv_cur _ _ _ _ Hi) as [-> _]. cbn [Z.eqb Pos.eqb]. destruct (inv_next _ _ _ _ Hi) as [Hi1 _].
  destruct (inv_skip_none WhitespaceChar _ _ _ Hi1) as [Hi2 _]; [done|]. set (r1 := skipCharacters _ _) in *. clearbody r1. clear Hi1.
  destruct (inv_cur _ _ _ _ Hi2) as [-> ->]. cbn [Z.eqb Pos.eqb negb]. destruct (inv_next _ _ _ _ Hi2) as [Hi3 _].
  destruct (inv_skip_none WhitespaceChar _ _ _ Hi3 (name_head _ _ WhitespaceChar Hne Hn eq_refl eq_refl)) as [Hi4 _].
  destruct (inv_run (all_but (Z.lor WhitespaceChar GTChar)) Main _ name (62 :: rest) Hi4) as (q & -> & Hq & _); [by apply name_run|done|].
  destruct (skip_tag_gt (set_tag (utf8 name) q) rest) as [H1 H2]; [apply Hq|]. eexists. split; [done|].
  split; [|by destruct H2 as (_ & _ & -> & _)]. destruct Hq as (_ & H3 & H4), H2 as (E1 & E2 & _). split; [done|]. cbn in *. split; congruence.
Qed.
Lemma step_gt fuel r rest : inv mode InTag r (62 :: rest) -> exists q, next fuel r = Some (Null, q) /\ inv mode Main q rest.
Proof.
  intros Hi. rewrite (next_have fuel r InTag _ _ Hi). cbv zeta. apply (inv_tagPos (m_charPos r)) in Hi. set (r0 := set_tagPos _ r) in *. clearbody r0. unfold read_tag.
  destruct (inv_skip_none WhitespaceChar _ _ _ Hi) as [Hi2 _]; [done|]. set (r1 := skipCharacters _ _) in *. clearbody r1.
  destruct (inv_cur _ _ _ _ Hi2) as [-> ->]. cbn [Z.eqb Pos.eqb negb]. destruct (inv_next _ _ _ _ Hi2) as [Hi3 _]. eexists. split; [done|]. by destruct Hi3 as (H1 & H2 & H3).
Qed.
Lemma step_slash fuel r rest : inv mode InTag r (47 :: 62 :: rest) -> exists q, next fuel r = Some (TagEnd, q) /\ inv mode Main q rest /\ m_tag q = m_tag r.
Proof.
  intros Hi. rewrite (next_have fuel r InTag _ _ Hi). cbv zeta. apply (inv_tagPos (m_charPos r)) in Hi. change (m_tag r) with (m_tag (set_tagPos (m_charPos r) r)).
  set (r0 := set_tagPos _ r) in *. clearbody r0. unfold read_tag.
  destruct (inv_skip_none WhitespaceChar _ _ _ Hi) as [Hi2 Hs2]; [done|]. set (r1 := skipCharacters _ _) in *. clearbody r1.
  destruct (inv_cur _ _ _ _ Hi2) as [-> ->]. cbn [Z.eqb Pos.eqb negb]. destruct (skip_tag_one r1 47 rest (proj1 Hi2)) as [H1 H2]; [done|done|].
  eexists. split; [done|]. destruct Hi2 as (_ & H3 & H4), H2 as (E1 & E2 & E3 & _), Hs2 as (_ & _ & E4 & _). cbn. split; [|congruence]. split; [done|]. split; [done|]. cbn. congruence.
Qed.
Lemma step_attr fuel r name v rest : inv mode InTag r (32 :: name ++ 61 :: 34 :: v ++ 34 :: rest) -> name_ok name -> 34 ∉ v -> tag_stop rest ->
  exists q, next fuel r = Some (TagAttribute, q) /\ inv mode InTag q rest /\ m_tag q = m_tag r /\ m_name q = utf8 name /\ m_value q = expandEntities expandEntityReference (utf8 v).
Proof.
  intros Hi [Hne Hn] Hv Hr. rewrite (next_have fuel r InTag _ _ Hi). cbv zeta. apply (inv_tagPos (m_charPos r)) in Hi. change (m_tag r) with (m_tag (set_tagPos (m_charPos r) r)).
  set (r0 := set_tagPos _ r) in *. clearbody r0. unfold read_tag.
  destruct (inv_skip_one WhitespaceChar _ _ _ _ Hi eq_refl eq_refl (name_head _ _ WhitespaceChar Hne Hn eq_refl eq_refl)) as [Hi1 Hs1]. set (r1 := skipCharacters _ _) in *. clearbody r1.
  destruct (inv_run (all_but (Z.lor (Z.lor (Z.lor WhitespaceChar EQChar) GTChar) SlashChar)) InTag r1 name _ Hi1) as (r2 & E2 & Hi2 & Hs2); [by apply name_run|done|].
  assert (Hc : m_haveCurrentCharacter r1 = true /\ (m_currentCharacter r1 =? 47) = false /\ (m_currentCharacter r1 =? 62) = false).
  { destruct name as [|c name]; [done|]. destruct (inv_cur _ _ _ _ Hi1) as [-> ->]. apply Forall_cons in Hn as [Hn _]. by rewrite !(name_char_not c). }
  destruct Hc as (-> & -> & ->). cbn [negb]. rewrite E2.
  destruct (inv_skip_none WhitespaceChar _ (set_name (utf8 name) r2) _ Hi2) as [Hi3 Hs3]; [done|]. set (r3 := skipCharacters _ _) in *. clearbody r3.
  destruct (inv_cur _ _ _ _ Hi3) as [-> ->]. cbn [Z.eqb Pos.eqb negb]. destruct (inv_next _ _ _ _ Hi3) as [Hi4 Hs4].
  destruct (inv_skip_none WhitespaceChar _ (set_value [] (readNextChar r3)) _ Hi4) as [Hi5 Hs5]; [done|].
  destruct (inv_quoted (all_but (Z.lor (Z.lor WhitespaceChar GTChar) SlashChar)) _ _ _ _ Hi5) as (r6 & -> & Hi6 & Hs6); [done|done|done|].
  eexists. split; [done|]. split; [done|]. cbn [set_value m_tag m_name m_value]. unfold same in *. cbn [set_value set_name m_tag m_name] in *. intuition congruence.
Qed.
(** The texts of the reader: what it makes of the characters up to the next tag *)
Definition text_value (raw : list Z) : list Z :=
  if negb (bool_decide (mode = AllWS)) && only_blank raw then if bool_decide (mode = SingleWS) then [32] else [] else expandEntities expandEntityReference raw.
Lemma step_text fuel r v rest : inv mode Main r (v ++ rest) -> v <> [] -> 60 ∉ v -> match rest with [] => True | c :: _ => c = 60 end ->
  exists q, next fuel r = Some (Text, q) /\ inv mode Main q rest /\ m_value q = text_value (utf8 v).
Proof.
  intros Hi Hne Hv Hr. destruct v as [|c v]; [done|]. cbn [app] in Hi. rewrite (next_have fuel r Main _ _ Hi). cbv zeta. apply (inv_tagPos (m_charPos r)) in Hi.
  set (r0 := set_tagPos _ r) in *. clearbody r0. unfold read_main. destruct (inv_cur _ _ _ _ Hi) as [-> _].
  rewrite (proj2 (Z.eqb_neq c 60)) by (intros ->; apply Hv, elem_of_cons; by left).
  destruct (inv_run (all_but (Z.lor LTChar ProcessQuotes)) Main r0 (c :: v) rest Hi) as (q & -> & Hq & Hs).
  - intros x Hx. split; [|done]. assert (x <> 60) by congruence. pose proof (char_class_cases x) as HC.
    assert (char_class x <> LTChar) by (unfold char_class; rewrite (proj2 (Z.eqb_neq x 60)) by done; by repeat case_match).
    repeat (apply elem_of_cons in HC as [HC|HC]; [rewrite HC in *; first [done|by vm_compute]|]). by apply not_elem_of_nil in HC.
  - destruct rest as [|x rest]; [done|]. by subst x.
  - assert (m_whitespaceMode q = mode) as -> by apply Hq. eexists. split; [done|]. done.
Qed.

Lemma step_pi_open fuel r name rest : inv mode Main r (60 :: 63 :: name ++ rest) -> name_ok name -> pi_stop rest ->
  exists q, next fuel r = Some (PIStart, q) /\ inv mode InPI q rest /\ m_tag q = utf8 name.
Proof.
  intros Hi [Hne Hn] Hr. rewrite (next_have fuel r Main _ _ Hi). cbv zeta. apply (inv_tagPos (m_charPos r)) in Hi. set (r0 := set_tagPos _ r) in *. clearbody r0. unfold read_main.
  destruct (inv_cur _ _ _ _ Hi) as [-> _]. cbn [Z.eqb Pos.eqb]. destruct (inv_next _ _ _ _ Hi) as [Hi1 _].
  destruct (inv_skip_none WhitespaceChar _ _ _ Hi1) as [Hi2 _]; [done|]. set (r1 := skipCharacters _ _) in *. clearbody r1.
  destruct (inv_cur _ _ _ _ Hi2) as [-> ->]. cbn [Z.eqb Pos.eqb negb]. destruct (inv_next _ _ _ _ Hi2) as [Hi3 _].
  destruct (inv_skip_none WhitespaceChar _ _ _ Hi3 (name_head _ _ WhitespaceChar Hne Hn eq_refl eq_refl)) as [Hi4 _].
  destruct (inv_run (all_but (Z.lor (Z.lor WhitespaceChar GTChar) QuesChar)) Main _ name rest Hi4) as (q & -> & Hq & _); [by apply name_run|done|].
  eexists. split; [done|]. split; [|done]. by destruct Hq as (H1 & H2 & H3).
Qed.
Lemma step_pi_end fuel r rest : inv mode InPI r (63 :: 62 :: rest) -> exists q, next fuel r = Some (Null, q) /\ inv mode Main q rest.
Proof.
  intros Hi. rewrite (next_have fuel r InPI _ _ Hi). cbv zeta. apply (inv_tagPos (m_charPos r)) in Hi. set (r0 := set_tagPos _ r) in *. clearbody r0. unfold read_pi.
  destruct (inv_skip_none WhitespaceChar _ _ _ Hi) as [Hi2 _]; [done|]. set (r1 := skipCharacters _ _) in *. clearbody r1.
  destruct (inv_cur _ _ _ _ Hi2) as [-> ->]. cbn [Z.eqb Pos.eqb negb orb]. destruct (skip_tag_one r1 63 rest (proj1 Hi2)) as [H1 H2]; [done|done|].
  eexists. split; [done|]. destruct Hi2 as (_ & H3 & H4), H2 as (E1 & E2 & _). split; [done|]. split; [done|]. cbn. congruence.
Qed.
(** The value is not expanded; the charset the attribute names must not be a codepage. *)
Lemma step_pi_attr fuel r name v rest : inv mode InPI r (32 :: name ++ 61 :: 34 :: v ++ 34 :: rest) -> name_ok name -> 34 ∉ v -> pi_stop rest ->
  (m_tag r = lit "xml" -> utf8 name = lit "encoding" -> createCharset (utf8 v) = None) ->
  exists q, next fuel r = Some (PIAttribute, q) /\ inv mode InPI q rest /\ m_tag q = m_tag r /\ m_name q = utf8 name /\ m_value q = utf8 v.
Proof.
  intros Hi [Hne Hn] Hv Hr HE. rewrite (next_have fuel r InPI _ _ Hi). cbv zeta. apply (inv_tagPos (m_charPos r)) in Hi. change (m_tag r) with (m_tag (set_tagPos (m_charPos r) r)) in *.
  set (r0 := set_tagPos _ r) in *. clearbody r0. unfold read_pi.
  destruct (inv_skip_one WhitespaceChar _ _ _ _ Hi eq_refl eq_refl (name_head _ _ WhitespaceChar Hne Hn eq_refl eq_refl)) as [Hi1 Hs1]. set (r1 := skipCharacters _ _) in *. clearbody r1.
  destruct (inv_run (all_but (Z.lor (Z.lor (Z.lor WhitespaceChar EQChar) QuesChar) GTChar)) InPI r1 name _ Hi1) as (r2 & E2 & Hi2 & Hs2); [by apply name_run|done|].
  assert (Hc : m_haveCurrentCharacter r1 = true /\ (m_currentCharacter r1 =? 63) || (m_currentCharacter r1 =? 62) = false).
  { destruct name as [|c name]; [done|]. destruct (inv_cur _ _ _ _ Hi1) as [-> ->]. apply Forall_cons in Hn as [Hn _]. by rewrite !(name_char_not c). }
  destruct Hc as (-> & ->). cbn [negb]. rewrite E2.
  destruct (inv_skip_none WhitespaceChar _ (set_name (utf8 name) r2) _ Hi2) as [Hi3 Hs3]; [done|]. set (r3 := skipCharacters _ _) in *. clearbody r3.
  destruct (inv_cur _ _ _ _ Hi3) as [-> ->]. cbn [Z.eqb Pos.eqb negb]. destruct (inv_next _ _ _ _ Hi3) as [Hi4 Hs4].
  destruct (inv_skip_none WhitespaceChar _ (set_value [] (readNextChar r3)) _ Hi4) as [Hi5 Hs5]; [done|].
  destruct (inv_quoted (all_but (Z.lor (Z.lor WhitespaceChar QuesChar) GTChar)) _ _ _ _ Hi5) as (r6 & -> & Hi6 & Hs6);
    [done|done|destruct rest; done|]. set (r7 := set_value (utf8 v) r6).
  assert (HT : m_tag r7 = m_tag r0 /\ m_name r7 = utf8 name /\ m_value r7 = utf8 v).
  { subst r7. unfold same in *. cbn [set_value set_name m_tag m_name m_value] in *. intuition congruence. }
  destruct HT as (T1 & T2 & T3). assert (Hi7 : inv mode InPI r7 rest) by done. clearbody r7. assert (m_encoding r7 = EncUtf8) as -> by apply Hi7. cbn [andb].
  rewrite T1, T2, T3. case_bool_decide as B1; cbn [andb]; [|by exists r7]. case_bool_decide as B2; [|by exists r7]. rewrite HE by done.
  eexists. split; [done|]. split; [|done]. destruct Hi7 as ((H1 & H2 & H3) & H4 & H5). done.
Qed.
Lemma step_eof fuel r st : inv mode st r [] -> next fuel r = Some (Eof, r).
Proof. intros ((_ & _ & Hh & _) & _). unfold readNextToken. by rewrite Hh. Qed.
End Steps.

(** ** Entities *)

Lemma find_char p x rest : x ∉ p -> find (p ++ x :: rest) [x] = Some (length p).
Proof.
  intros Hp. induction p as [|c p IH]; cbn [app length find].
  - cbn [take]. by rewrite bool_decide_eq_true_2.
  - apply not_elem_of_cons in Hp as [Hc Hp]. rewrite (IH Hp). cbn [take]. rewrite bool_decide_eq_false_2 by congruence. done.
Qed.
Lemma find_no_char p x : x ∉ p -> find p [x] = None.
Proof. intros Hp. apply find_none. intros l r ->. apply Hp. rewrite !elem_of_app, list_elem_of_singleton. auto. Qed.
Lemma expand_step fuel p name rest out : 38 ∉ p -> 59 ∉ name ->
  expand_loop expandEntityReference (S fuel) (p ++ 38 :: name ++ 59 :: rest) out = expand_loop expandEntityReference fuel rest (out ++ p ++ expandEntityReference name).
Proof.
  intros Hp Hn. cbn [expand_loop]. rewrite (find_char p 38 _ Hp). rewrite (drop_app_length p). assert (Hn' : 59 ∉ 38 :: name) by (apply not_elem_of_cons; done).
  pose proof (find_char (38 :: name) 59 rest Hn') as E. cbn [app] in E. rewrite E.
  rewrite (take_app_length p). cbn [length]. f_equal.
  - rewrite drop_app_ge by lia. replace (length p + S (length name) + 1 - length p)%nat with (S (S (length name))) by lia. cbn [drop]. rewrite drop_app_ge by lia.
    replace (S (length name) - length name)%nat with 1%nat by lia. done.
  - do 2 f_equal. rewrite drop_app_ge by lia. replace (length p + 1 - length p)%nat with 1%nat by lia. cbn [drop Nat.sub]. by rewrite drop_0, Nat.sub_0_r, take_app_length.
Qed.
Lemma escape_cons c s : escape (c :: s) = escape_char c ++ escape s.
Proof. done. Qed.
Lemma escape_app a b : escape (a ++ b) = escape a ++ escape b.
Proof. unfold escape. by rewrite map_app, concat_app. Qed.
(** Either a character stays as it is, or it is written as a reference that expands to it. *)
Lemma escape_char_cases c : (escape_char c = [c] /\ c ∉ [38; 60; 34]) \/
  exists name, escape_char c = 38 :: name ++ [59] /\ expandEntityReference name = [c] /\ only_blank [c] = false /\ Forall (fun x => 97 <= x <= 122) name /\ c < 128.
Proof.
  unfold escape_char. rewrite !not_elem_of_cons.
  destruct (Z.eqb_spec c 60) as [->|H1]; [right; exists (lit "lt"); vm_compute; repeat split; repeat constructor; done|].
  destruct (Z.eqb_spec c 62) as [->|H2]; [right; exists (lit "gt"); vm_compute; repeat split; repeat constructor; done|].
  destruct (Z.eqb_spec c 38) as [->|H3]; [right; exists (lit "amp"); vm_compute; repeat split; repeat constructor; done|].
  destruct (Z.eqb_spec c 34) as [->|H4]; [right; exists (lit "quot"); vm_compute; repeat split; repeat constructor; done|].
  left. split; [done|]. repeat split; try done. apply not_elem_of_nil.
Qed.
Lemma not_in_range x l : Forall (fun x => 97 <= x <= 122) l -> x < 97 -> x ∉ l.
Proof. rewrite Forall_forall. intros H Hx Hin. specialize (H x Hin). cbn in H. lia. Qed.
(** What the writer writes for a string expands to this string. *)
Lemma expand_loop_escape s : forall fuel p out, 38 ∉ p -> (length (escape s) <= fuel)%nat -> expand_loop expandEntityReference fuel (p ++ escape s) out = out ++ p ++ s.
Proof.
  induction s as [|c s IH]; intros fuel p out Hp Hf.
  - cbn [escape map concat]. rewrite !app_nil_r. destruct fuel as [|fuel]; cbn [expand_loop]; [done|]. by rewrite find_no_char.
  - rewrite escape_cons in *. rewrite length_app in Hf. destruct (escape_char_cases c) as [[E Hc]|(name & E & Ex & _ & Hn & _)]; rewrite E in *.
    + rewrite (app_assoc p [c]), IH; [by rewrite <- !app_assoc| |cbn in Hf; lia]. rewrite elem_of_app, list_elem_of_singleton. rewrite !not_elem_of_cons in Hc. intuition congruence.
    + cbn [app]. rewrite <- app_assoc. cbn [app]. cbn [length] in Hf. destruct fuel as [|fuel]; [lia|].
      rewrite expand_step by (done || by apply not_in_range with (x := 59)). rewrite Ex. change (escape s) with ([] ++ escape s).
      rewrite IH; [by rewrite <- !app_assoc|apply not_elem_of_nil|rewrite length_app in Hf; cbn [length] in Hf; lia].
Qed.
Lemma expand_escape s : expandEntities expandEntityReference (escape s) = s.
Proof. unfold expandEntities. apply (expand_loop_escape s _ [] []); [apply not_elem_of_nil|done]. Qed.
Lemma escape_no_tag s x : x = 60 \/ x = 34 -> x ∉ escape s.
Proof.
  intros Hx. induction s as [|c s IH]; [apply not_elem_of_nil|]. rewrite escape_cons, elem_of_app. intros [H|H]; [|done].
  destruct (escape_char_cases c) as [[E Hc]|(name & E & _ & _ & Hn & _)]; rewrite E in H.
  - apply list_elem_of_singleton in H. rewrite !not_elem_of_cons in Hc. destruct Hx; intuition congruence.
  - apply elem_of_cons in H as [->|H]; [destruct Hx; done|]. apply elem_of_app in H as [H|H]; [|apply list_elem_of_singleton in H as ->; destruct Hx; done].
    revert H. apply (not_in_range x name Hn). destruct Hx; lia.
Qed.
Lemma only_blank_escape s : only_blank (escape s) = only_blank s.
Proof.
  induction s as [|c s IH]; [done|]. rewrite escape_cons. unfold only_blank in *. rewrite forallb_app, IH. cbn [forallb].
  destruct (escape_char_cases c) as [[-> _]|(name & -> & _ & Hb & _)]; [cbn [forallb]; by rewrite andb_true_r|]. cbn [forallb]. cbn in Hb. rewrite andb_true_r in Hb. by rewrite Hb.
Qed.
Lemma escape_nil s : escape s = [] -> s = [].
Proof. destruct s as [|c s]; [done|]. rewrite escape_cons. by destruct (escape_char_cases c) as [[-> _]|(name & -> & _)]. Qed.
(** Escaping the bytes is escaping the characters. *)
Lemma escape_utf8 cs : Forall bmp cs -> escape (utf8 cs) = utf8 (escape cs) /\ Forall bmp (escape cs).
Proof.
  induction 1 as [|c cs Hc _ [IH1 IH2]]; [done|]. rewrite escape_cons. change (utf8 (c :: cs)) with (append 0 c ++ utf8 cs). rewrite escape_app, utf8_app, IH1.
  split.
  - f_equal. destruct (append_shape c Hc) as [[H ->]|H].
    + cbn [escape map concat]. rewrite app_nil_r. assert (Hl : forall l, Forall (fun x => 0 <= x < 128) l -> utf8 l = l).
      { induction 1 as [|x l Hx _ IHl]; [done|]. change (utf8 (x :: l)) with (append 0 x ++ utf8 l). by rewrite append_ascii, IHl. }
      symmetry. apply Hl. unfold bmp in Hc. destruct (escape_char_cases c) as [[-> _]|(name & -> & _ & _ & Hn & _)]; [repeat constructor; lia|].
      constructor; [lia|]. apply Forall_app. split; [eapply Forall_impl; [exact Hn|cbn; lia]|repeat constructor; lia].
    + assert (escape_char c = [c]) as -> by (destruct (escape_char_cases c) as [[-> _]|(name & _ & _ & _ & _ & Hs)]; [done|lia]). unfold utf8. cbn [map concat]. rewrite app_nil_r.
      assert (Hl : forall l, Forall (fun x => 128 <= x) l -> escape l = l).
      { induction 1 as [|x l Hx _ IHl]; [done|]. rewrite escape_cons, IHl. destruct (escape_char_cases x) as [[-> _]|(name & _ & _ & _ & _ & Hs)]; [done|lia]. }
      apply Hl. unfold bmp in Hc. destruct H as [[H ->]|[H ->]].
      * pose proof (Z.div_pos c 64). pose proof (Z.mod_pos_bound c 64). repeat constructor; lia.
      * pose proof (Z.div_pos c 4096). pose proof (Z.mod_pos_bound c 64). pose proof (Z.mod_pos_bound (c / 64) 64). repeat constructor; lia.
  - apply Forall_app. split; [|done]. destruct (escape_char_cases c) as [[-> _]|(name & -> & _ & _ & Hn & _)]; [by apply Forall_singleton|].
    constructor; [done|]. apply Forall_app. split; [eapply Forall_impl; [exact Hn|unfold bmp; cbn; lia]|by apply Forall_singleton].
Qed.

(** ** Sequences of tokens *)

Section Tokens.
Context (createCharset : list Z -> option (list Z)) (mode : WhitespaceMode).
Notation next := (readNextToken expandEntityReference createCharset).
#[local] Instance the_reader : BaseReader Reader := Reader_BaseReader expandEntityReference createCharset.

(** Only comments need rounds. *)
Lemma bang_any fuel r x : read_bang 0 r = Some x -> read_bang fuel r = Some x.
Proof.
  unfold read_bang. cbv zeta. set (q := readNextChar r). destruct (negb (m_haveCurrentCharacter q)); [done|]. destruct (m_currentCharacter q =? 91); [done|].
  destruct (m_currentCharacter q =? 45); [|done]. destruct (readCharacterSequence MinusChar q) as [[n s] q']. by destruct (2 <=? n)%nat.
Qed.
Lemma next_any fuel r x : next 0 r = Some x -> next fuel r = Some x.
Proof.
  unfold readNextToken. destruct (negb (m_haveCurrentCharacter r)); [done|]. cbv zeta. set (r0 := set_tagPos _ r). destruct (m_state r0); [|done|done].
  unfold read_main. destruct (m_currentCharacter r0 =? 60); [|done]. cbv zeta. set (q := skipCharacters _ _). destruct (negb (m_haveCurrentCharacter q)); [done|].
  destruct (m_currentCharacter q =? 63); [done|]. destruct (m_currentCharacter q =? 47); [done|]. destruct (m_currentCharacter q =? 33); [apply bang_any|done].
Qed.
(** What is left to read *)
Definition rem (r : Reader) : nat := if m_haveCurrentCharacter r then S (length (m_data r)) else 0.
Lemma rem_less r q a b : at_chars r (a ++ b) -> a <> [] -> at_chars q b -> (rem q < rem r)%nat.
Proof.
  intros (_ & Hf & Hr) Ha (_ & _ & Hq). destruct a as [|c a]; [done|]. cbn [app] in Hr, Hf. destruct Hr as (H1 & _ & H2). unfold rem. rewrite H1, H2.
  destruct b as [|d b]; [destruct Hq as [-> _]; lia|]. destruct Hq as (-> & _ & ->). rewrite utf8_app, length_app. apply Forall_cons in Hf as [_ Hf]. apply Forall_app in Hf as [_ Hf].
  apply Forall_cons in Hf as [Hd _]. change (utf8 (d :: b)) with (append 0 d ++ utf8 b). rewrite length_app. pose proof (bmp_nonempty d Hd). lia.
Qed.

(** The reader gives the tokens; in between are tokens that are skipped. *)
Inductive goes : Reader -> list token -> Reader -> Prop :=
  | goes_refl r : goes r [] r
  | goes_silent r q t tks r' : next 0 r = Some (t, q) -> t = Null \/ t = Text /\ m_value q = [] -> (rem q < rem r)%nat -> goes q tks r' -> goes r tks r'
  | goes_token r q tk tks r' : next 0 r = Some (kind tk, q) -> shows q tk -> tk <> TkText [] -> goes q tks r' -> goes r (tk :: tks) r'.
Lemma goes_trans r a q b r' : goes r a q -> goes q b r' -> goes r (a ++ b) r'.
Proof. intros H1 H2. induction H1 as [|r q' t tks r1 E Ht Hr _ IH|r q' tk tks r1 E Hs Ht _ IH]; [done|by eapply goes_silent; eauto|by eapply goes_token; eauto]. Qed.
Lemma goes_one r q tk : next 0 r = Some (kind tk, q) -> shows q tk -> tk <> TkText [] -> goes r [tk] q.
Proof. intros H1 H2 H3. eapply goes_token; eauto. apply goes_refl. Qed.

Lemma loop_accept fuel r q t : next 0 r = Some (t, q) -> t <> Null -> (t = Text -> m_value q <> []) ->
  readNext_loop expandEntityReference createCharset (S fuel) r = Some (t, q).
Proof.
  intros E H1 H2. cbn [readNext_loop]. rewrite (next_any _ _ _ E). destruct t; try done. by rewrite bool_decide_eq_false_2 by auto.
Qed.
Lemma goes_next r tks r' : goes r tks r' -> forall fuel, (rem r < fuel)%nat ->
  match tks with
  | [] => inv mode Main r' [] -> readNext_loop expandEntityReference createCharset fuel r = Some (Eof, r')
  | tk :: tks => exists q, readNext_loop expandEntityReference createCharset fuel r = Some (kind tk, q) /\ shows q tk /\ goes q tks r'
  end.
Proof.
  induction 1 as [r|r q t tks r1 E Ht Hr _ IH|r q tk tks r1 E Hs Ht Hg _]; intros fuel Hf; (destruct fuel as [|fuel]; [lia|]).
  - intros Hi. apply loop_accept; [by apply (step_eof createCharset mode) with (st := Main)|done|done].
  - assert (readNext_loop expandEntityReference createCharset (S fuel) r = readNext_loop expandEntityReference createCharset fuel q) as ->; [|apply IH; lia].
    cbn [readNext_loop]. rewrite (next_any _ _ _ E). destruct Ht as [->|[-> Hv]]; [done|]. by rewrite bool_decide_eq_true_2.
  - exists q. split; [|done]. apply loop_accept; [done|by destruct tk|]. intros Hk Hv. destruct tk; try done. cbn in Hs. apply Ht. f_equal. congruence.
Qed.
Lemma readNext_goes r tks r' : goes r tks r' ->
  match tks with
  | [] => inv mode Main r' [] -> readNext r = Some (Eof, r')
  | tk :: tks => exists q, readNext r = Some (kind tk, q) /\ shows q tk /\ goes q tks r'
  end.
Proof. intros H. apply (goes_next _ _ _ H). unfold rem. destruct (m_haveCurrentCharacter r); lia. Qed.
Lemma goes_yields tks : forall r r' t, goes r tks r' -> inv mode Main r' [] -> exists p p', Parser_readNext (mkParser r t) = Some p /\ yields p tks p' /\ m_token p' = Eof.
Proof.
  induction tks as [|tk tks IH]; intros r r' t Hg Hi; pose proof (readNext_goes _ _ _ Hg) as HN; unfold Parser_readNext; cbn [m_reader].
  - rewrite (HN Hi). by eexists _, _.
  - destruct HN as (q & -> & Hs & Hg'). destruct (IH q r' (kind tk) Hg' Hi) as (p & p' & E & Hy & Ht). exists (mkParser q (kind tk)), p'. split; [done|]. split; [|done].
    split; [done|]. by exists p.
Qed.

(** ** Pieces of text *)

Inductive piece :=
  | Open (name : list Z) (attributes : list (list Z * list Z))
  | Empty (name : list Z) (attributes : list (list Z * list Z))
  | Close (name : list Z)
  | PI (name : list Z) (attributes : list (list Z * list Z))
  | Chars (value : list Z).
Definition attr_text (a : list Z * list Z) : list Z := [32] ++ a.1 ++ [61; 34] ++ escape a.2 ++ [34].
Definition attrs_text (l : list (list Z * list Z)) : list Z := concat (map attr_text l).
Definition piece_text (x : piece) : list Z :=
  match x with
  | Open name l => [60] ++ name ++ attrs_text l ++ [62]
  | Empty name l => [60] ++ name ++ attrs_text l ++ [47; 62]
  | Close name => [60; 47] ++ name ++ [62]
  | PI name l => [60; 63] ++ name ++ attrs_text l ++ [63; 62]
  | Chars v => escape v
  end.
Definition piece_tokens (x : piece) : list token :=
  match x with
  | Open name l => TkStart name :: map (fun a => TkAttr a.1 a.2) l
  | Empty name l => TkStart name :: map (fun a => TkAttr a.1 a.2) l ++ [TkEnd name]
  | Close name => [TkEnd name]
  | PI name l => TkPI name :: map (fun a => TkPIAttr a.1 (escape a.2)) l
  | Chars v => []
  end.
(** The token for a text, if there is one *)
Definition flush (v : list Z) : list Z :=
  if negb (bool_decide (mode = AllWS)) && only_blank v then if bool_decide (mode = SingleWS) && negb (bool_decide (v = [])) then [32] else [] else v.
Definition text_token (v : list Z) : list token := if bool_decide (flush v = []) then [] else [TkText (flush v)].
(** [pending]: the text before the pieces *)
Fixpoint pieces_tokens (pending : list Z) (ps : list piece) : list token :=
  match ps with
  | [] => text_token pending
  | Chars v :: ps => pieces_tokens (pending ++ v) ps
  | x :: ps => text_token pending ++ piece_tokens x ++ pieces_tokens [] ps
  end.

Definition enc (s cs : list Z) : Prop := s = utf8 cs /\ Forall bmp cs.
Definition is_text (s : list Z) : Prop := exists cs, enc s cs.
Definition is_name (s : list Z) : Prop := exists cs, enc s cs /\ name_ok cs.
Definition attr_ok (a : list Z * list Z) : Prop := is_name a.1 /\ is_text a.2.
(** An encoding attribute does not select a codepage. *)
Definition pi_attr_ok (tag : list Z) (a : list Z * list Z) : Prop := attr_ok a /\ (tag = lit "xml" -> a.1 = lit "encoding" -> createCharset (escape a.2) = None).
Definition piece_ok (x : piece) : Prop :=
  match x with
  | Open name l | Empty name l => is_name name /\ Forall attr_ok l
  | Close name => is_name name
  | PI name l => is_name name /\ Forall (pi_attr_ok name) l
  | Chars v => is_text v
  end.
Lemma enc_app a b ca cb : enc a ca -> enc b cb -> enc (a ++ b) (ca ++ cb).
Proof. intros [-> H1] [-> H2]. split; [by rewrite utf8_app|by apply Forall_app]. Qed.
Lemma enc_ascii l : forallb (fun c => (0 <? c) && (c <? 128)) l = true -> enc l l.
Proof.
  induction l as [|c l IH]; [done|]. cbn [forallb]. intros H. apply andb_prop in H as [H1 H2]. apply andb_prop in H1 as [H0%Z.ltb_lt H1%Z.ltb_lt]. destruct (IH H2) as [E HF]. split.
  - change (utf8 (c :: l)) with (append 0 c ++ utf8 l). rewrite append_ascii, <- E by lia. done.
  - constructor; [unfold bmp; lia|done].
Qed.
Lemma enc_escape v cs : enc v cs -> enc (escape v) (escape cs).
Proof. intros [-> H]. by apply escape_utf8. Qed.

Definition attr_chars (kc vc : list Z) : list Z := 32 :: kc ++ 61 :: 34 :: escape vc ++ [34].
Lemma attr_enc k kc v vc : enc k kc -> enc v vc -> enc (attr_text (k, v)) (attr_chars kc vc).
Proof.
  intros Hk Hv. unfold attr_text. cbn [fst snd]. apply (enc_app [32] _ [32]); [by apply enc_ascii|]. apply enc_app; [done|]. apply (enc_app [61; 34] _ [61; 34]); [by apply enc_ascii|].
  apply enc_app; [by apply enc_escape|by apply enc_ascii].
Qed.
Lemma attr_chars_app kc vc cs rest : (attr_chars kc vc ++ cs) ++ rest = 32 :: kc ++ 61 :: 34 :: escape vc ++ 34 :: cs ++ rest.
Proof. unfold attr_chars. cbn [app]. rewrite <- !app_assoc. cbn [app]. by rewrite <- !app_assoc. Qed.

(** The reader over the attributes of a tag, and over those of a processing instruction *)
Lemma read_attrs l : Forall attr_ok l -> exists cs, enc (attrs_text l) cs /\ forall rest, tag_stop rest -> tag_stop (cs ++ rest) /\
  forall r, inv mode InTag r (cs ++ rest) -> exists q, goes r (map (fun a => TkAttr a.1 a.2) l) q /\ inv mode InTag q rest /\ m_tag q = m_tag r.
Proof.
  induction 1 as [|[k v] l [(kc & [Ek Hk] & Hn) (vc & Hv)] _ (cs & Hcs & IH)].
  - exists []. split; [done|]. intros rest Hr. split; [done|]. intros r Hi. exists r. split; [apply goes_refl|done].
  - cbn [fst snd] in *. exists (attr_chars kc vc ++ cs). split.
    + apply (enc_app (attr_text (k, v))); [by apply attr_enc|done].
    + intros rest Hr. destruct (IH rest Hr) as [Hst IHr]. split; [done|]. intros r Hi. rewrite attr_chars_app in Hi.
      destruct (step_attr createCharset mode 0 r kc (escape vc) (cs ++ rest) Hi Hn) as (q & E & Hq & Ht & Hnm & Hvl); [apply escape_no_tag; auto|done|].
      destruct (IHr q Hq) as (q' & Hg & Hi' & Ht'). exists q'. split; [|split; [done|congruence]]. eapply goes_token; [exact E| |done|exact Hg].
      destruct Hv as [-> Hb]. split; [by rewrite Ek|]. change (m_value q = utf8 vc). rewrite Hvl, <- (proj1 (escape_utf8 vc Hb)). apply expand_escape.
Qed.
Lemma read_pi_attrs tag l : Forall (pi_attr_ok tag) l -> exists cs, enc (attrs_text l) cs /\ forall rest, pi_stop rest -> pi_stop (cs ++ rest) /\
  forall r, inv mode InPI r (cs ++ rest) -> m_tag r = tag -> exists q, goes r (map (fun a => TkPIAttr a.1 (escape a.2)) l) q /\ inv mode InPI q rest.
Proof.
  induction 1 as [|[k v] l [[(kc & [Ek Hk] & Hn) (vc & Hv)] Henc] _ (cs & Hcs & IH)].
  - exists []. split; [done|]. intros rest Hr. split; [done|]. intros r Hi _. exists r. split; [apply goes_refl|done].
  - cbn [fst snd] in *. exists (attr_chars kc vc ++ cs). split.
    + apply (enc_app (attr_text (k, v))); [by apply attr_enc|done].
    + intros rest Hr. destruct (IH rest Hr) as [Hst IHr]. split; [done|]. intros r Hi Htag. rewrite attr_chars_app in Hi. destruct (enc_escape v vc Hv) as [Ev _].
      destruct (step_pi_attr createCharset mode 0 r kc (escape vc) (cs ++ rest) Hi Hn) as (q & E & Hq & Ht & Hnm & Hvl); [apply escape_no_tag; auto|done|by rewrite Htag, <- Ek, <- Ev|].
      destruct (IHr q Hq) as (q' & Hg & Hi'); [congruence|]. exists q'. split; [|done]. eapply goes_token; [exact E| |done|exact Hg].
      split; [by rewrite Ek|]. change (m_value q = escape v). congruence.
Qed.

(** A piece that is not text is read as its tokens. *)
Definition markup (x : piece) : Prop := match x with Chars _ => False | _ => True end.
Lemma enc_tag a name tail ca nc tc : enc a ca -> enc name nc -> enc tail tc -> enc (a ++ name ++ tail) (ca ++ nc ++ tc).
Proof. intros H1 H2 H3. apply enc_app; [done|]. by apply enc_app. Qed.
Lemma silent_null r q rest a : next 0 r = Some (Null, q) -> at_chars r (a ++ rest) -> a <> [] -> at_chars q rest -> goes r [] q.
Proof. intros E H1 H2 H3. eapply goes_silent; [exact E|by left|by eapply rem_less|apply goes_refl]. Qed.
Lemma read_piece x : markup x -> piece_ok x -> exists cs, enc (piece_text x) (60 :: cs) /\
  forall r rest, inv mode Main r (60 :: cs ++ rest) -> exists q, goes r (piece_tokens x) q /\ inv mode Main q rest.
Proof.
  intros Hm Hok. destruct x as [name l|name l|name|name l|v]; [| | | |done].
  - destruct Hok as [(nc & Hne & Hn) Hl]. destruct (read_attrs l Hl) as (cs & Hcs & Hat). exists (nc ++ cs ++ [62]). split.
    + apply (enc_tag [60] name _ [60]); [by apply enc_ascii|done|]. apply enc_app; [done|by apply enc_ascii].
    + intros r rest Hi. rewrite <- !app_assoc in Hi. cbn [app] in Hi. destruct (Hat (62 :: rest)) as [Hst Hrd]; [done|].
      destruct (step_open createCharset mode 0 r nc _ Hi Hn Hst) as (q1 & E1 & Hi1 & Ht1). destruct (Hrd q1 Hi1) as (q2 & Hg2 & Hi2 & Ht2).
      destruct (step_gt createCharset mode 0 q2 rest Hi2) as (q3 & E3 & Hi3). exists q3. split; [|done]. cbn [piece_tokens].
      rewrite <- (app_nil_r (TkStart name :: _)). eapply goes_trans; [|eapply (silent_null q2 q3 rest [62]); [done|apply Hi2|done|apply Hi3]].
      eapply goes_token; [exact E1|by destruct Hne as [-> _]|done|exact Hg2].
  - destruct Hok as [(nc & Hne & Hn) Hl]. destruct (read_attrs l Hl) as (cs & Hcs & Hat). exists (nc ++ cs ++ [47; 62]). split.
    + apply (enc_tag [60] name _ [60]); [by apply enc_ascii|done|]. apply enc_app; [done|by apply enc_ascii].
    + intros r rest Hi. rewrite <- !app_assoc in Hi. cbn [app] in Hi. destruct (Hat (47 :: 62 :: rest)) as [Hst Hrd]; [done|].
      destruct (step_open createCharset mode 0 r nc _ Hi Hn Hst) as (q1 & E1 & Hi1 & Ht1). destruct (Hrd q1 Hi1) as (q2 & Hg2 & Hi2 & Ht2).
      destruct (step_slash createCharset mode 0 q2 rest Hi2) as (q3 & E3 & Hi3 & Ht3). exists q3. split; [|done]. cbn [piece_tokens].
      eapply goes_token; [exact E1|by destruct Hne as [-> _]|done|]. eapply goes_trans; [exact Hg2|]. apply goes_one; [exact E3| |done]. destruct Hne as [-> _]. cbn. congruence.
  - destruct Hok as (nc & Hne & Hn). exists (47 :: nc ++ [62]). split.
    + apply (enc_tag [60; 47] name _ [60; 47]); [by apply enc_ascii|done|by apply enc_ascii].
    + intros r rest Hi. cbn [app] in Hi. rewrite <- !app_assoc in Hi. cbn [app] in Hi. destruct (step_close createCharset mode 0 r nc _ Hi Hn) as (q & E & Hi' & Ht). exists q. split; [|done].
      apply goes_one; [exact E|by destruct Hne as [-> _]|done].
  - destruct Hok as [(nc & Hne & Hn) Hl]. destruct (read_pi_attrs name l Hl) as (cs & Hcs & Hat). exists (63 :: nc ++ cs ++ [63; 62]). split.
    + apply (enc_tag [60; 63] name _ [60; 63]); [by apply enc_ascii|done|]. apply enc_app; [done|by apply enc_ascii].
    + intros r rest Hi. cbn [app] in Hi. rewrite <- !app_assoc in Hi. cbn [app] in Hi. destruct (Hat (63 :: 62 :: rest)) as [Hst Hrd]; [done|].
      destruct (step_pi_open createCharset mode 0 r nc _ Hi Hn Hst) as (q1 & E1 & Hi1 & Ht1). destruct (Hrd q1 Hi1) as (q2 & Hg2 & Hi2); [by destruct Hne as [-> _]|].
      destruct (step_pi_end createCharset mode 0 q2 rest Hi2) as (q3 & E3 & Hi3). exists q3. split; [|done]. cbn [piece_tokens].
      rewrite <- (app_nil_r (TkPI name :: _)). eapply goes_trans; [|eapply (silent_null q2 q3 rest [63; 62]); [done|apply Hi2|done|apply Hi3]].
      eapply goes_token; [exact E1|by destruct Hne as [-> _]|done|exact Hg2].
Qed.

(** A text up to the next tag or the end *)
Lemma utf8_nil cs : Forall bmp cs -> utf8 cs = [] -> cs = [].
Proof. destruct 1 as [|c cs Hc]; [done|]. change (utf8 (c :: cs)) with (append 0 c ++ utf8 cs). pose proof (bmp_nonempty c Hc). destruct (append 0 c); [cbn in *; lia|done]. Qed.
Lemma text_value_escape v : v <> [] -> text_value mode (escape v) = flush v.
Proof. intros Hv. unfold text_value, flush. rewrite only_blank_escape, expand_escape. rewrite (bool_decide_eq_false_2 (v = [])) by done. cbn [negb]. by rewrite andb_true_r. Qed.
Lemma flush_nil : flush [] = [].
Proof. unfold flush. rewrite (bool_decide_eq_true_2 ([] = [])) by done. cbn [negb]. rewrite andb_false_r. by destruct (negb _ && _). Qed.
Lemma read_text v cs r rest : enc v cs -> inv mode Main r (escape cs ++ rest) -> match rest with [] => True | c :: _ => c = 60 end ->
  exists q, goes r (text_token v) q /\ inv mode Main q rest.
Proof.
  intros [Ev Hb] Hi Hr. unfold text_token. destruct (decide (cs = [])) as [->|Hne].
  - assert (v = []) as -> by done. rewrite flush_nil, bool_decide_eq_true_2 by done. exists r. split; [apply goes_refl|done].
  - assert (Hv : v <> []) by (intros E; apply Hne, utf8_nil; congruence). assert (He : escape cs <> []) by (intros E; by apply escape_nil in E).
    destruct (step_text createCharset mode 0 r (escape cs) rest Hi) as (q & E & Hq & Hval); [done|by apply escape_no_tag; auto|done|].
    rewrite <- (proj1 (escape_utf8 cs Hb)), <- Ev, text_value_escape in Hval by done. exists q. split; [|done]. case_bool_decide as Hf.
    + eapply goes_silent; [exact E|right; split; [done|congruence]| |apply goes_refl]. eapply rem_less; [apply Hi|done|apply Hq].
    + apply goes_one; [exact E|done|congruence].
Qed.
Lemma read_pieces ps : Forall piece_ok ps -> exists cs, enc (concat (map piece_text ps)) cs /\
  forall r v vc, enc v vc -> inv mode Main r (escape vc ++ cs) -> exists q, goes r (pieces_tokens v ps) q /\ inv mode Main q [].
Proof.
  induction 1 as [|x ps Hx _ (cs & Hcs & IH)].
  - exists []. split; [done|]. intros r v vc Hv Hi. by apply (read_text v vc).
  - assert (HM : markup x -> exists cs, enc (concat (map piece_text (x :: ps))) cs /\
      forall r v vc, enc v vc -> inv mode Main r (escape vc ++ cs) -> exists q, goes r (text_token v ++ piece_tokens x ++ pieces_tokens [] ps) q /\ inv mode Main q []).
    { intros Hm. destruct (read_piece x Hm Hx) as (xc & Hxc & Hrd). exists ((60 :: xc) ++ cs). split; [cbn [map concat]; by apply enc_app|].
      intros r v vc Hv Hi. destruct (read_text v vc r _ Hv Hi eq_refl) as (q1 & Hg1 & Hi1). destruct (Hrd q1 cs Hi1) as (q2 & Hg2 & Hi2).
      destruct (IH q2 [] []) as (q3 & Hg3 & Hi3); [done|done|]. exists q3. split; [|done]. eapply goes_trans; [exact Hg1|]. by eapply goes_trans. }
    destruct x as [name l|name l|name|name l|w]; try (by apply HM). destruct Hx as (wc & Hw). exists (escape wc ++ cs). split; [cbn [map concat piece_text]; apply enc_app; [by apply enc_escape|done]|].
    intros r v vc Hv Hi. apply (IH r (v ++ w) (vc ++ wc)); [by apply enc_app|]. by rewrite escape_app, <- app_assoc.
Qed.
End Tokens.

(** ** Nodes *)

Fixpoint pieces (node : Node) : list piece :=
  match node with
  | PINode n => [PI (m_nodeName n) (attrs n)]
  | TagNode n ch =>
      match ch with
      | [] => [Empty (m_nodeName n) (attrs n)]
      | _ => Open (m_nodeName n) (attrs n) :: concat (map pieces ch) ++ [Close (m_nodeName n)]
      end
  | TextNode v => [Chars v]
  end.
Definition texts (ps : list piece) : list Z := concat (map piece_text ps).
Lemma texts_app a b : texts (a ++ b) = texts a ++ texts b.
Proof. unfold texts. by rewrite map_app, concat_app. Qed.
Lemma writeAttributes_text n : writeAttributes n = attrs_text (attrs n).
Proof.
  unfold writeAttributes, attrs_text, attrs. f_equal. change (map attr_text) with (fmap attr_text : list _ -> list _). rewrite fmap_imap. by apply imap_ext.
Qed.
Lemma visit_pieces node : visit node = texts (pieces node).
Proof.
  induction node as [n|n ch IH|v] using node_nested_ind; cbn [visit pieces].
  - unfold texts. cbn [map concat piece_text]. by rewrite writeAttributes_text, app_nil_r.
  - assert (HC : concat (map visit ch) = texts (concat (map pieces ch))).
    { induction IH as [|x ch Hx _ IHc]; [done|]. cbn [map concat]. by rewrite texts_app, Hx, IHc. }
    rewrite writeAttributes_text. destruct ch as [|x ch]; [unfold texts; cbn [map concat piece_text]; by rewrite app_nil_r|]. set (l := x :: ch) in *. clearbody l.
    change (texts (?a :: ?b)) with (piece_text a ++ texts b). rewrite texts_app, HC. unfold texts at 3. cbn [map concat piece_text]. rewrite app_nil_r, <- !app_assoc. done.
  - unfold texts. cbn. by rewrite app_nil_r.
Qed.
Lemma visit_nodes_pieces nodes : visit_nodes nodes = texts (concat (map pieces nodes)).
Proof. unfold visit_nodes. induction nodes as [|x nodes IH]; [done|]. cbn [map concat]. by rewrite texts_app, visit_pieces, IH. Qed.

Section Nodes.
Context (createCharset : list Z -> option (list Z)) (mode : WhitespaceMode).

(** The nodes as they are read: adjacent texts are joined, white space is treated as
    the mode says, and the attributes of processing instructions are left escaped. *)
Definition text_node (v : list Z) : list Node := if bool_decide (flush mode v = []) then [] else [TextNode (flush mode v)].
Fixpoint join (pending : list Z) (nodes : list Node) : list Node :=
  match nodes with
  | [] => text_node pending
  | TextNode v :: nodes => join (pending ++ v) nodes
  | x :: nodes => text_node pending ++ x :: join [] nodes
  end.
Fixpoint norm (node : Node) : Node :=
  match node with
  | PINode n => PINode (mkNamed (m_nodeName n) (m_attributeNames n) (map escape (m_attributeValues n)))
  | TagNode n ch => TagNode n (join [] (map norm ch))
  | TextNode v => TextNode v
  end.
Definition norm_nodes (nodes : list Node) : list Node := join [] (map norm nodes).

(** Names are words, texts are UTF-8 with characters of at most three bytes. *)
Fixpoint writable (node : Node) : Prop :=
  match node with
  | PINode n => is_name (m_nodeName n) /\ Forall (pi_attr_ok createCharset (m_nodeName n)) (attrs n)
  | TagNode n ch => is_name (m_nodeName n) /\ Forall attr_ok (attrs n) /\ foldr (fun x => and (writable x)) True ch
  | TextNode v => is_text v
  end.
Lemma writable_Forall ch : foldr (fun x => and (writable x)) True ch <-> Forall writable ch.
Proof. induction ch as [|x ch IH]; cbn [foldr]; [by split|]. rewrite Forall_cons. tauto. Qed.
Lemma writable_pieces node : writable node -> Forall (piece_ok createCharset) (pieces node).
Proof.
  induction node as [n|n ch IH|v] using node_nested_ind; cbn [writable pieces]; intros Hw; [by apply Forall_singleton| |by apply Forall_singleton].
  destruct Hw as (H1 & H2 & H3). apply writable_Forall in H3.
  assert (HC : Forall (piece_ok createCharset) (concat (map pieces ch))).
  { clear H1 H2. induction IH as [|x ch Hx _ IHc]; [constructor|]. apply Forall_cons in H3 as [H3 H4]. cbn [map concat]. apply Forall_app. auto. }
  destruct ch as [|x ch]; [by apply Forall_singleton|]. constructor; [done|]. apply Forall_app. split; [done|]. by apply Forall_singleton.
Qed.

Lemma text_node_tokens v : concat (map tokens (text_node v)) = text_token mode v.
Proof. unfold text_node, text_token. by case_bool_decide. Qed.
Lemma text_token_nil : text_token mode [] = [].
Proof. unfold text_token. by rewrite flush_nil, bool_decide_eq_true_2. Qed.
Lemma escaped_attrs n : attrs (mkNamed (m_nodeName n) (m_attributeNames n) (map escape (m_attributeValues n))) = map (fun a => (a.1, escape a.2)) (attrs n).
Proof.
  unfold attrs. cbn [m_attributeNames]. change (map ?f) with (fmap f : list _ -> list _). rewrite fmap_imap. apply imap_ext. intros i k _. cbn. f_equal.
  unfold getAttributeByIndex. cbn [m_attributeValues]. rewrite length_fmap. destruct (_ <? _); [|done]. exact (map_nth escape (m_attributeValues n) [] (Z.to_nat (Z.of_nat i))).
Qed.
(** The tokens of the pieces are the tokens of the nodes as they are read. *)
Definition flat (node : Node) : Prop := match node with TextNode _ => True | _ =>
  forall v rest, pieces_tokens mode v (pieces node ++ rest) = text_token mode v ++ tokens (norm node) ++ pieces_tokens mode [] rest end.
Lemma flat_nodes nodes : Forall flat nodes -> forall v rest, match rest with Chars _ :: _ => False | _ => True end ->
  pieces_tokens mode v (concat (map pieces nodes) ++ rest) = concat (map tokens (join v (map norm nodes))) ++ pieces_tokens mode [] rest.
Proof.
  induction 1 as [|x nodes Hx _ IH]; intros v rest Hr.
  - cbn [map concat app join]. rewrite text_node_tokens. destruct rest as [|[name l|name l|name|name l|w] rest]; cbn [pieces_tokens]; [by rewrite text_token_nil, app_nil_r|by rewrite text_token_nil..|done].
  - cbn [map concat]. rewrite <- app_assoc. destruct x as [n|n ch|w].
    + rewrite Hx, (IH [] rest Hr). cbn [norm join]. rewrite map_app, concat_app, text_node_tokens. cbn [map concat]. by rewrite <- !app_assoc.
    + rewrite Hx, (IH [] rest Hr). cbn [norm join]. rewrite map_app, concat_app, text_node_tokens. cbn [map concat]. by rewrite <- !app_assoc.
    + cbn [pieces app pieces_tokens norm join]. by apply IH.
Qed.
Lemma norm_flat node : flat node.
Proof.
  induction node as [n|n ch IH|v] using node_nested_ind; [| |done]; intros v rest.
  - cbn [pieces app pieces_tokens piece_tokens norm tokens]. f_equal. cbn [app m_nodeName]. f_equal. rewrite escaped_attrs, map_map. done.
  - pose proof (flat_nodes ch IH []) as HC.
    cbn [pieces norm tokens]. destruct ch as [|x ch].
    + cbn [app pieces_tokens piece_tokens map join]. rewrite text_node_tokens, text_token_nil. done.
    + set (l := x :: ch) in *. clearbody l. cbn [app]. rewrite <- app_assoc. cbn [app]. cbn [pieces_tokens piece_tokens]. rewrite (HC (Close (m_nodeName n) :: rest)) by done.
      cbn [pieces_tokens piece_tokens]. rewrite text_token_nil. cbn [app]. rewrite <- !app_assoc. done.
Qed.
Lemma norm_tokens nodes : pieces_tokens mode [] (concat (map pieces nodes)) = concat (map tokens (norm_nodes nodes)).
Proof.
  pose proof (flat_nodes nodes (proj2 (Forall_forall _ _) (fun x _ => norm_flat x)) [] [] I) as H. rewrite app_nil_r in H. rewrite H. cbn [pieces_tokens].
  rewrite text_token_nil. apply app_nil_r.
Qed.

Lemma join_built nodes v : Forall built nodes -> Forall built (join v nodes).
Proof.
  assert (HT : forall w, Forall built (text_node w)) by (intros w; unfold text_node; case_bool_decide; by repeat constructor).
  intros H. revert v. induction H as [|x nodes Hx _ IH]; intros v; cbn [join]; [done|].
  destruct x; [apply Forall_app; split; [done|]; by constructor..|apply IH].
Qed.
Lemma norm_built node : built node -> built (norm node).
Proof.
  induction node as [n|n ch IH|v] using node_nested_ind; cbn [built norm]; [| |done].
  - intros [H1 H2 H3 H4 H5]. split; cbn [m_attributeNames m_attributeValues]; try done. by rewrite length_map.
  - intros [Hn Hch]. split; [done|]. apply built_Forall in Hch. apply built_Forall, join_built. rewrite Forall_forall in *. intros x (y & -> & Hy)%list_elem_of_fmap. auto.
Qed.
End Nodes.

Lemma utf8_bytes cs : Forall bmp cs -> Forall (fun b => 0 < b < 0xF0) (utf8 cs).
Proof.
  induction 1 as [|c cs Hc _ IH]; [constructor|]. change (utf8 (c :: cs)) with (append 0 c ++ utf8 cs). apply Forall_app. split; [|done].
  pose proof (Z.mod_pos_bound c 64 ltac:(lia)) as M1. pose proof (Z.mod_pos_bound (c / 64) 64 ltac:(lia)) as M2. unfold bmp in Hc.
  destruct (append_shape c Hc) as [[H ->]|[[H ->]|[H ->]]]; [repeat constructor; lia| |].
  - assert (0 <= c / 64 < 32) by (split; [apply Z.div_pos; lia|apply Z.div_lt_upper_bound; lia]). repeat constructor; lia.
  - assert (0 <= c / 4096 < 16) by (split; [apply Z.div_pos; lia|apply Z.div_lt_upper_bound; lia]). repeat constructor; lia.
Qed.
Lemma detect_utf8 data : Forall (fun b => 0 < b < 0xF0) data -> take 3 data <> [0xEF; 0xBB; 0xBF] -> detectEncoding (take 1024 data) = (EncUtf8, 0%nat).
Proof.
  intros Hd Hbom. unfold detectEncoding. destruct data as [|p0 [|p1 rest]]; [done|done|]. apply Forall_cons in Hd as [H0 Hd]. apply Forall_cons in Hd as [H1 _].
  replace (take 1024 (p0 :: p1 :: rest)) with (p0 :: p1 :: take 1022 rest) by done.
  rewrite (proj2 (Z.eqb_neq p0 0xFE)), (proj2 (Z.eqb_neq p0 0xFF)), (proj2 (Z.eqb_neq p0 0)), (proj2 (Z.eqb_neq p1 0)) by lia. cbn [andb negb].
  destruct (Z.eqb_spec p0 0xEF) as [->|]; [|done]. destruct (Z.eqb_spec p1 0xBB) as [->|]; [|done]. destruct rest as [|p2 rest]; [done|]. cbn [take andb].
  destruct (Z.eqb_spec p2 0xBF) as [->|]; [|done]. by destruct Hbom.
Qed.

(** C28. What the writer writes, Reader and Parser read: for nodes whose attributes were
    set with setAttribute, whose names are non-empty words without special characters
    and whose texts and attribute values are any UTF-8 of characters of up to three
    bytes (special characters included: these are escaped), parsing the text that
    Writer produces for them returns these nodes, where adjacent texts have become
    one, blank texts are treated as the whitespace mode says (kept, replaced by one
    space, or dropped), and attribute values of processing instructions, which the
    reader does not decode, are in their escaped form; then the parser is at the end
    of the input.  The text must not start with a byte order mark, and no encoding
    attribute of an xml processing instruction may select a codepage. *)
Theorem xml_roundtrip createCharset mode nodes fuel : Forall built nodes -> Forall (writable createCharset) nodes ->
  take 3 (visit_nodes nodes) <> [0xEF; 0xBB; 0xBF] -> (2 * length (concat (map tokens (norm_nodes mode nodes))) + 4 <= fuel)%nat ->
  let I := Reader_BaseReader expandEntityReference createCharset in
  exists p p', Parser_new (setWhitespaceMode mode (Reader_new (visit_nodes nodes) 0)) = Some p /\
    parseNodes fuel [] p = Some (norm_nodes mode nodes, p') /\ m_token p' = Eof.
Proof.
  intros HB HW Hbom Hf I.
  assert (HP : Forall (piece_ok createCharset) (concat (map pieces nodes))).
  { clear - HW. induction HW as [|x nodes Hx _ IH]; [constructor|]. cbn [map concat]. apply Forall_app. split; [by apply writable_pieces|done]. }
  destruct (read_pieces createCharset mode _ HP) as (cs & [Ecs Hcs] & Hrd). rewrite <- norm_tokens in Hf. fold (texts (concat (map pieces nodes))) in Ecs. rewrite <- visit_nodes_pieces in Ecs.
  unfold Reader_new. rewrite detect_utf8; [|rewrite Ecs; by apply utf8_bytes|done]. cbn [drop].
  set (r0 := mkReader TrimWS Main _ _ _ _ _ _ _ _ _ _ _). destruct (read_char r0 cs) as [Ha Hs]; [done|done|done|]. set (r := readNextChar r0) in *. clearbody r.
  assert (Hi : inv mode Main (setWhitespaceMode mode r) cs) by (destruct Hs as (_ & Hst & _); done).
  destruct (Hrd _ [] [] (conj eq_refl (Forall_nil_2 _)) Hi) as (q & Hg & Hq).
  destruct (goes_yields createCharset mode _ _ _ Null Hg Hq) as (p & p' & E & Hy & Ht). exists p, p'. split; [exact E|]. split; [|done]. rewrite norm_tokens in *.
  refine (parseNodes_tokens _ [] fuel p p' _ Hf Hy _); [|unfold stops; by rewrite Ht]. apply join_built. rewrite Forall_forall in *. intros x (y & -> & Hin)%list_elem_of_fmap.
  apply norm_built. auto.
Qed.
Lemma is_name_lit l : forallb (fun c => (0 <? c) && (c <? 128)) l = true -> forallb name_char l = true -> l <> [] -> is_name l.
Proof. intros H1 H2 H3. exists l. split; [by apply enc_ascii|]. split; [done|]. apply Forall_forall. intros c Hc. rewrite forallb_forall in H2. apply H2. by apply list_elem_of_In. Qed.
Lemma is_text_lit l : forallb (fun c => (0 <? c) && (c <? 128)) l = true -> is_text l.
Proof. intros H. exists l. by apply enc_ascii. Qed.
Ltac solve_writable := repeat first
  [ match goal with |- Forall ?P (attrs ?n) => let l := eval vm_compute in (attrs n) in change (Forall P l) end
  | apply Forall_cons_2 | apply Forall_nil_2 | apply is_name_lit; [reflexivity|reflexivity|done] | apply is_text_lit; reflexivity | exact I | split | done ].
Lemma xml_roundtrip_witness :
  let I := Reader_BaseReader expandEntityReference (fun _ => None) in
  let nodes := [PINode (named "xml" [("version", "1.0")%string]); TextNode (lit " "); TextNode (lit " ");
    TagNode (named "a" [("x", "1<&")]%string) [TextNode (lit "t & "); TextNode (lit "u"); TagNode (named "b" []) [TextNode (lit " ")]]] in
  exists p p', Parser_new (setWhitespaceMode TrimWS (Reader_new (visit_nodes nodes) 0)) = Some p /\
    parseNodes 100 [] p = Some ([PINode (named "xml" [("version", "1.0")%string]); TagNode (named "a" [("x", "1<&")]%string) [TextNode (lit "t & u"); TagNode (named "b" []) []]], p') /\
    m_token p' = Eof.
Proof.
  refine (xml_roundtrip (fun _ => None) TrimWS
    [PINode (named "xml" [("version", "1.0")%string]); TextNode (lit " "); TextNode (lit " ");
     TagNode (named "a" [("x", "1<&")]%string) [TextNode (lit "t & "); TextNode (lit "u"); TagNode (named "b" []) [TextNode (lit " ")]]] 100 _ _ _ _).
  - repeat (first [apply Forall_cons_2|apply Forall_nil_2]); repeat split; try (apply built_ok; unfold named; cbn [fold_left]; repeat constructor).
  - repeat (first [apply Forall_cons_2|apply Forall_nil_2]); cbn [writable foldr]; solve_writable.
  - vm_compute. done.
  - vm_compute. repeat constructor.
Defined.

(** ** Comments that do not end

    When the input ends behind a single minus sign, the current character remains that
    sign, so that the loop that reads a comment goes on for ever. *)
Lemma comment_stuck fuel loop value r : m_haveCurrentCharacter r = false -> m_currentCharacter r = 45 -> comment_loop fuel loop value r = None.
Proof.
  intros Hh Hc. revert loop value. induction fuel as [|fuel IH]; intros loop value; [done|]. cbn [comment_loop].
  assert (HR : forall acc, readCharacterSequence acc r = (0%nat, [], r)) by (intros acc; unfold readCharacterSequence; cbn [Nat.add sequence_loop]; by rewrite Hh).
  rewrite !HR, Hc. cbn [Z.eqb Pos.eqb Nat.ltb Nat.leb]. apply IH.
Qed.
Example comment_unfinished : readNextToken expandEntityReference (fun _ => None) 1000 (Reader_new (lit "<!--a-") 0) = None.
Proof. vm_compute. reflexivity. Qed.
(** A character of four bytes is read as four characters, one per byte: U+1F600 does not survive. *)
Lemma four_byte_character_mangled :
  let I := Reader_BaseReader expandEntityReference (fun _ => None) in
  (Parser_new (Reader_new (visit_nodes [TextNode [0xF0; 0x9F; 0x98; 0x80]]) 0) ≫= fun p => fst <$> parseNodes 100 [] p) =
  Some [TextNode [0xC3; 0xB0; 0xC2; 0x9F; 0xC2; 0x98; 0xC2; 0x80]].
Proof. vm_compute. reflexivity. Qed.
