(* ===== verification/RedisClient.v ===== *)
(** * Redis client

    src/afl/net/redis: the typed keys, fields, set and sort operations through which
    programs use a Redis database, and the methods CommandHandler derives from
    [call].  The operations run on any command handler; they are the handler's state
    transformers with an exception.  The identity of an object is the name of its
    key (and field). *)

From Stdlib Require Import ZArith Lia Bool String Ascii.
From stdpp Require Import base tactics numbers option list.
From S2P Require Import Prelude Strings Format Values RespServer.

Local Open Scope Z_scope.
Local Open Scope afl_scope.
Local Set Warnings "-notation-for-abbreviation".

(** An exception of the handler, or one of a conversion *)
Inductive client_exn := HandlerError (what : list Z) | DataError (e : exn).

Section Client.
Context {F H : Type} `{!Double F} `{!CommandHandler F H}.

Definition C (A : Type) : Type := H -> H * outcome client_exn A.
Definition ret {A} (a : A) : C A := fun h => (h, Ok a).
Definition bind {A B} (m : C A) (f : A -> C B) : C B := fun h =>
  match m h with
  | (h, Ok a) => f a h
  | (h, Throw e) => (h, Throw e)
  end.
Notation "'let*' x ':=' m 'in' k" := (bind m (fun x => k)) (at level 10, x name, m at level 200, k at level 200).
Definition convert {A} (r : outcome exn A) : C A := fun h => (h, match r with Ok a => Ok a | Throw e => Throw (DataError e) end).

(** ** CommandHandler *)

Definition call (command : list (value F)) : C (value F) := fun h =>
  let '(h, r) := ch_call h command in (h, match r with Ok v => Ok v | Throw what => Throw (HandlerError what) end).
Definition callVoid (command : list (value F)) : C unit := let* _ := call command in ret tt.
Definition callOptionalInt (command : list (value F)) : C (option Z) :=
  let* result := call command in
  if is_null result then ret None else let* i := convert (toInteger result) in ret (Some i).
Definition callInt (command : list (value F)) : C Z := let* r := callOptionalInt command in ret (default 0 r).
Definition callString (command : list (value F)) : C (list Z) := let* result := call command in convert (toString result).
(** call, then Access::toStringList or toIntegerList into an empty list *)
Definition callStringList (command : list (value F)) : C (list (list Z)) := let* val := call command in convert (toStringList val).
Definition callIntegerList (command : list (value F)) : C (list Z) := let* val := call command in convert (toIntegerList val).

(** Segment().pushBackString(verb)... *)
Definition request (verb : string) (args : list (value F)) : list (value F) := VString (lit verb) :: args.
Definition nonzero (i : Z) : bool := negb (i =? 0).
Definition callBool (command : list (value F)) : C bool := let* i := callInt command in ret (nonzero i).

(** ** Key *)

Inductive Type_t := TNone | TString | TList | TSet | TZSet | THash | TUnknown.
Definition Key_exists (m_name : list Z) : C bool := callBool (request "EXISTS" [VString m_name]).
Definition Key_remove (m_name : list Z) : C unit := callVoid (request "DEL" [VString m_name]).
(** The result is the name afterwards. *)
Definition Key_renameTo (m_name newName : list Z) : C (list Z) :=
  let* _ := callVoid (request "RENAME" [VString m_name; VString newName]) in ret newName.
Definition Key_renameToUnique (m_name newName : list Z) : C (bool * list Z) :=
  let* result := callBool (request "RENAMENX" [VString m_name; VString newName]) in
  ret (result, if result then newName else m_name).
Definition Key_getType (m_name : list Z) : C Type_t :=
  let* result := callString (request "TYPE" [VString m_name]) in
  ret (if bool_decide (result = lit "none") then TNone
       else if bool_decide (result = lit "string") then TString
       else if bool_decide (result = lit "list") then TList
       else if bool_decide (result = lit "set") then TSet
       else if bool_decide (result = lit "zset") then TZSet
       else if bool_decide (result = lit "hash") then THash
       else TUnknown).

(** ** StringKey *)

Definition MAX_SIZE : Z := 512 * 1024 * 1024.
Definition StringKey_append (name text : list Z) : C unit := callVoid (request "APPEND" [VString name; VString text]).
Definition StringKey_get (name : list Z) : C (list Z) := callString (request "GET" [VString name]).
Definition StringKey_substr (name : list Z) (start length : Z) : C (list Z) :=
  if (start <? MAX_SIZE) && (0 <? length)
  then let length := if MAX_SIZE <? length then MAX_SIZE else length in
       callString (request "GETRANGE" [VString name; VInteger start; VInteger (start + length - 1)])
  else ret [].
Definition StringKey_replaceBy (name newValue : list Z) : C (list Z) := callString (request "GETSET" [VString name; VString newValue]).
Definition StringKey_set (name newValue : list Z) : C unit := callVoid (request "SET" [VString name; VString newValue]).
Definition StringKey_setUnique (name newValue : list Z) : C bool := callBool (request "SETNX" [VString name; VString newValue]).
Definition StringKey_size (name : list Z) : C Z :=
  let* n := callInt (request "STRLEN" [VString name]) in
  ret (if (n <? 0) || negb (swrap 32 (usize n) =? n) then 0 else usize n).

(** ** IntegerKey *)

Definition IntegerKey_decr (name : list Z) : C Z := callInt (request "DECR" [VString name]).
Definition IntegerKey_decrBy (name : list Z) (val : Z) : C Z := callInt (request "DECRBY" [VString name; VInteger val]).
Definition IntegerKey_getOptional (name : list Z) : C (option Z) := callOptionalInt (request "GET" [VString name]).
Definition IntegerKey_get (name : list Z) : C Z := let* r := IntegerKey_getOptional name in ret (default 0 r).
Definition IntegerKey_replaceBy (name : list Z) (newValue : Z) : C Z := callInt (request "GETSET" [VString name; VInteger newValue]).
Definition IntegerKey_incr (name : list Z) : C Z := callInt (request "INCR" [VString name]).
Definition IntegerKey_incrBy (name : list Z) (val : Z) : C Z := callInt (request "INCRBY" [VString name; VInteger val]).
Definition IntegerKey_set (name : list Z) (newValue : Z) : C unit := callVoid (request "SET" [VString name; VInteger newValue]).
Definition IntegerKey_setUnique (name : list Z) (newValue : Z) : C bool := callBool (request "SETNX" [VString name; VInteger newValue]).

(** ** HashKey, Field, StringField, IntegerField *)

Definition HashKey_size (name : list Z) : C Z := callInt (request "HLEN" [VString name]).
Definition HashKey_getFieldNames (name : list Z) : C (list (list Z)) := callStringList (request "HKEYS" [VString name]).
Definition HashKey_getAll (name : list Z) : C (list (list Z)) := callStringList (request "HGETALL" [VString name]).
Definition HashKey_setAll (name : list Z) (vec : list (list Z)) : C unit :=
  if bool_decide (vec = []) then ret tt else callVoid (request "HMSET" (VString name :: map VString vec)).
Definition Field_exists (hash name : list Z) : C bool := callBool (request "HEXISTS" [VString hash; VString name]).
Definition Field_remove (hash name : list Z) : C bool := callBool (request "HDEL" [VString hash; VString name]).
Definition Field_getRawValue (hash name : list Z) : C (value F) := call (request "HGET" [VString hash; VString name]).
Definition StringField_set (hash name v : list Z) : C bool := callBool (request "HSET" [VString hash; VString name; VString v]).
Definition StringField_get (hash name : list Z) : C (list Z) := callString (request "HGET" [VString hash; VString name]).
Definition IntegerField_incrBy (hash name : list Z) (incr : Z) : C Z := callInt (request "HINCRBY" [VString hash; VString name; VInteger incr]).
Definition IntegerField_incr (hash name : list Z) : C Z := IntegerField_incrBy hash name 1.
Definition IntegerField_decr (hash name : list Z) : C Z := IntegerField_incrBy hash name (-1).
Definition IntegerField_decrBy (hash name : list Z) (decr : Z) : C Z := IntegerField_incrBy hash name (swrap 32 (- decr)).
Definition IntegerField_set (hash name : list Z) (v : Z) : C bool := callBool (request "HSET" [VString hash; VString name; VInteger v]).
Definition IntegerField_getOptional (hash name : list Z) : C (option Z) := callOptionalInt (request "HGET" [VString hash; VString name]).
Definition IntegerField_get (hash name : list Z) : C Z := let* r := IntegerField_getOptional hash name in ret (default 0 r).

(** ** ListKey, StringListKey, IntegerListKey *)

Definition ListKey_size (name : list Z) : C Z := callInt (request "LLEN" [VString name]).
Definition ListKey_empty (name : list Z) : C bool := let* n := ListKey_size name in ret (n =? 0).
Definition ListKey_trimToRange (name : list Z) (start end_ : Z) : C unit := callVoid (request "LTRIM" [VString name; VInteger start; VInteger end_]).

Definition StringListKey_at (name : list Z) (index : Z) : C (list Z) := callString (request "LINDEX" [VString name; VInteger index]).
Definition StringListKey_popFront (name : list Z) : C (list Z) := callString (request "LPOP" [VString name]).
Definition StringListKey_pushFront (name v : list Z) : C Z := callInt (request "LPUSH" [VString name; VString v]).
Definition StringListKey_popBack (name : list Z) : C (list Z) := callString (request "RPOP" [VString name]).
Definition StringListKey_pushBack (name v : list Z) : C Z := callInt (request "RPUSH" [VString name; VString v]).
Definition StringListKey_set (name : list Z) (index : Z) (v : list Z) : C unit := callVoid (request "LSET" [VString name; VInteger index; VString v]).
Definition StringListKey_removeValue (name v : list Z) (count : Z) : C Z := callInt (request "LREM" [VString name; VInteger count; VString v]).
Definition StringListKey_transferElement (name other : list Z) : C (list Z) := callString (request "RPOPLPUSH" [VString name; VString other]).
Definition StringListKey_getRange (name : list Z) (start end_ : Z) : C (list (list Z)) := callStringList (request "LRANGE" [VString name; VInteger start; VInteger end_]).
Definition StringListKey_getAll (name : list Z) : C (list (list Z)) := StringListKey_getRange name 0 (-1).

Definition IntegerListKey_at (name : list Z) (index : Z) : C Z := callInt (request "LINDEX" [VString name; VInteger index]).
Definition IntegerListKey_popFront (name : list Z) : C Z := callInt (request "LPOP" [VString name]).
Definition IntegerListKey_pushFront (name : list Z) (v : Z) : C Z := callInt (request "LPUSH" [VString name; VInteger v]).
Definition IntegerListKey_popBack (name : list Z) : C Z := callInt (request "RPOP" [VString name]).
Definition IntegerListKey_pushBack (name : list Z) (v : Z) : C Z := callInt (request "RPUSH" [VString name; VInteger v]).
Definition IntegerListKey_set (name : list Z) (index v : Z) : C unit := callVoid (request "LSET" [VString name; VInteger index; VInteger v]).
Definition IntegerListKey_removeValue (name : list Z) (v count : Z) : C Z := callInt (request "LREM" [VString name; VInteger count; VInteger v]).
Definition IntegerListKey_transferElement (name other : list Z) : C Z := callInt (request "RPOPLPUSH" [VString name; VString other]).
Definition IntegerListKey_getRange (name : list Z) (start end_ : Z) : C (list Z) := callIntegerList (request "LRANGE" [VString name; VInteger start; VInteger end_]).
Definition IntegerListKey_getAll (name : list Z) : C (list Z) := IntegerListKey_getRange name 0 (-1).

(** ** SetKey, StringSetKey, IntegerSetKey and the set operations *)

Definition SetKey_size (name : list Z) : C Z := callInt (request "SCARD" [VString name]).
Definition SetKey_empty (name : list Z) : C bool := let* n := SetKey_size name in ret (n =? 0).

Definition StringSetKey_add (name v : list Z) : C bool := callBool (request "SADD" [VString name; VString v]).
Definition StringSetKey_remove (name v : list Z) : C bool := callBool (request "SREM" [VString name; VString v]).
Definition StringSetKey_extractRandom (name : list Z) : C (list Z) := callString (request "SPOP" [VString name]).
Definition StringSetKey_getRandom (name : list Z) : C (list Z) := callString (request "SRANDMEMBER" [VString name]).
Definition StringSetKey_moveTo (name v other : list Z) : C bool := callBool (request "SMOVE" [VString name; VString other; VString v]).
Definition StringSetKey_contains (name v : list Z) : C bool := callBool (request "SISMEMBER" [VString name; VString v]).
Definition StringSetKey_copyTo (name other : list Z) : C unit := callVoid (request "SINTERSTORE" [VString other; VString name]).
Definition StringSetKey_getAll (name : list Z) : C (list (list Z)) := callStringList (request "SMEMBERS" [VString name]).

Definition IntegerSetKey_add (name : list Z) (v : Z) : C bool := callBool (request "SADD" [VString name; VInteger v]).
Definition IntegerSetKey_remove (name : list Z) (v : Z) : C bool := callBool (request "SREM" [VString name; VInteger v]).
Definition IntegerSetKey_extractRandom (name : list Z) : C Z := callInt (request "SPOP" [VString name]).
Definition IntegerSetKey_getRandom (name : list Z) : C Z := callInt (request "SRANDMEMBER" [VString name]).
Definition IntegerSetKey_moveTo (name : list Z) (v : Z) (other : list Z) : C bool := callBool (request "SMOVE" [VString name; VString other; VInteger v]).
Definition IntegerSetKey_contains (name : list Z) (v : Z) : C bool := callBool (request "SISMEMBER" [VString name; VInteger v]).
Definition IntegerSetKey_copyTo (name other : list Z) : C unit := callVoid (request "SINTERSTORE" [VString other; VString name]).
Definition IntegerSetKey_getAll (name : list Z) : C (list Z) := callIntegerList (request "SMEMBERS" [VString name]).

(** StringSetOperation and IntegerSetOperation: the request under construction *)
Definition SetOperation_new (op : string) (a b : list Z) : list (value F) := request op [VString a; VString b].
Definition SetKey_intersect (name other : list Z) : list (value F) := SetOperation_new "SINTER" name other.
Definition SetKey_merge (name other : list Z) : list (value F) := SetOperation_new "SUNION" name other.
Definition SetKey_difference (name other : list Z) : list (value F) := SetOperation_new "SDIFF" name other.
Definition SetOperation_andAlso (m_request : list (value F)) (x : list Z) : list (value F) := m_request ++ [VString x].
Definition StringSetOperation_getAll (m_request : list (value F)) : C (list (list Z)) := callStringList m_request.
Definition IntegerSetOperation_getAll (m_request : list (value F)) : C (list Z) := callIntegerList m_request.
Definition SetOperation_storeTo (m_request : list (value F)) (other : list Z) : C unit :=
  let* op := convert (toString (seg_get m_request 0)) in
  callVoid (VString (op ++ lit "STORE") :: VString other :: tail m_request).

(** ** SortOperation: the request under construction *)

Definition SortOperation_new (key : list Z) : list (value F) := request "SORT" [VString key].
Definition SortOperation_by (m_request : list (value F)) (pattern : list Z) : list (value F) := m_request ++ [VString (lit "BY"); VString pattern].
(** by(Key), get(Key) pass the key's name, by(Field), get(Field) this pattern. *)
Definition field_pattern (hash name : list Z) : list Z := hash ++ lit "->" ++ name.
Definition SortOperation_getOrigin (m_request : list (value F)) : list (value F) := m_request ++ [VString (lit "GET"); VString (lit "#")].
Definition SortOperation_get (m_request : list (value F)) (pattern : list Z) : list (value F) := m_request ++ [VString (lit "GET"); VString pattern].
Definition SortOperation_limit (m_request : list (value F)) (start count : Z) : list (value F) := m_request ++ [VString (lit "LIMIT"); VInteger start; VInteger count].
Definition SortOperation_sortLexicographical (m_request : list (value F)) : list (value F) := m_request ++ [VString (lit "ALPHA")].
Definition SortOperation_sortReversed (m_request : list (value F)) : list (value F) := m_request ++ [VString (lit "DESC")].
Definition SortOperation_sortDisable (m_request : list (value F)) : list (value F) := SortOperation_by m_request (lit "nosort").
Definition SortOperation_getResult (m_request : list (value F)) : C (value F) := call m_request.
Definition SortOperation_getStringList (m_request : list (value F)) : C (list (list Z)) :=
  let* p := SortOperation_getResult m_request in convert (toStringList p).
Definition SortOperation_getIntegerList (m_request : list (value F)) : C (list Z) :=
  let* p := SortOperation_getResult m_request in convert (toIntegerList p).
Definition SortOperation_storeResult (m_request : list (value F)) (out : list Z) : C unit :=
  callVoid (m_request ++ [VString (lit "STORE"); VString out]).

(** ** Subtree *)

Definition DELIMITER : list Z := lit ":".
(** key(), hashKey(), intKey() etc. *)
Definition Subtree_key (m_name name : list Z) : list Z := m_name ++ name.
Definition Subtree_subtree (m_name name : list Z) : list Z := m_name ++ name ++ DELIMITER.
Definition Subtree_subtreeInt (m_name : list Z) (name : Z) : list Z := Subtree_subtree m_name (Format (lit "%d") [FormatSigned name]).
Definition Subtree_getKeyNames (m_name : list Z) : C (list (list Z)) :=
  let* keys := callStringList (request "KEYS" [VString (m_name ++ lit "*")]) in
  ret (map (drop (length m_name)) (filter (fun key => take (length m_name) key = m_name) keys)).
End Client.
