(* ===== verification/RedisClientProps.v ===== *)
(** * Redis client: correctness

    Commands see their arguments only through the conversions to strings and integers,
    so that a number and its text, which is what arrives over a connection, are the
    same to the database.  Hence a client of a database behind a RESP connection gets
    the results of a client of the database itself, and the typed keys are typed
    containers. *)

From Stdlib Require Import ZArith Lia Bool String Ascii.
From stdpp Require Import base tactics numbers option list gmap sorting.
From S2P Require Import Prelude Strings Format Values Redis RedisProps RedisSpec Resp RespServer RedisClient.

Local Open Scope Z_scope.
Local Open Scope afl_scope.
Local Set Warnings "-notation-for-abbreviation".

(** ** Arguments with the same texts and numbers *)

#[local] Create HintDb cong.

Section Similar.
Context {F : Type} `{!Double F}.

Definition similar (v v' : value F) : Prop := is_null v = is_null v' /\ toString v = toString v' /\ toInteger v = toInteger v'.
#[export] Instance similar_refl : Reflexive similar.
Proof. done. Qed.
Lemma similar_integer i : in_s 32 i -> similar (VInteger i) (VString (show_int i)).
Proof. intros Hi. split; [done|]. split; [done|]. by rewrite toInteger_show_int. Qed.

(** The command does the same on similar arguments. *)
Definition cong {A} (m : Redis.M A) : Prop := forall db as1 as2, Forall2 similar as1 as2 ->
  exists db' rest1 rest2 r, m (mkState db as1) = (mkState db' rest1, r) /\ m (mkState db as2) = (mkState db' rest2, r) /\ Forall2 similar rest1 rest2.

Lemma cong_ret {A} (a : A) : cong (Redis.ret a).
Proof. intros db as1 as2 Ha. by eexists _, _, _, _. Qed.
Lemma cong_raise {A} e : cong (@raise F A e).
Proof. intros db as1 as2 Ha. by eexists _, _, _, _. Qed.
Lemma cong_lift {A} (r : outcome exn A) : cong (lift r).
Proof. intros db as1 as2 Ha. by eexists _, _, _, _. Qed.
Lemma cong_lift_error {A} (r : outcome error A) : cong (lift_error r).
Proof. intros db as1 as2 Ha. by eexists _, _, _, _. Qed.
Lemma cong_get_db : cong get_db.
Proof. intros db as1 as2 Ha. by eexists _, _, _, _. Qed.
Lemma cong_find_key k : cong (find_key k).
Proof. intros db as1 as2 Ha. by eexists _, _, _, _. Qed.
Lemma cong_insertNew k key : cong (insertNew k key).
Proof. intros db as1 as2 Ha. by eexists _, _, _, _. Qed.
Lemma cong_erase k : cong (erase k).
Proof. intros db as1 as2 Ha. by eexists _, _, _, _. Qed.
Lemma cong_argc : cong argc.
Proof. intros db as1 as2 Ha. exists db, as1, as2, (Ok (length as1)). unfold argc. cbn. by rewrite (Forall2_length _ _ _ Ha). Qed.
Lemma cong_bind {A B} (m : Redis.M A) (f : A -> Redis.M B) : cong m -> (forall a, cong (f a)) -> cong (Redis.bind m f).
Proof.
  intros Hm Hf db as1 as2 Ha. destruct (Hm db as1 as2 Ha) as (db' & r1 & r2 & [a|e] & E1 & E2 & Hr); unfold Redis.bind; rewrite E1, E2; [by apply Hf|by eexists _, _, _, _].
Qed.
(** [eat] in both forms: the conversion of the next argument *)
Lemma cong_eat_with {A} (old : A) (conv : value F -> outcome exn A) : (forall v v', similar v v' -> conv v = conv v') ->
  cong (Redis.bind eat_value (fun a => if is_null a then Redis.ret old else lift (conv a))).
Proof.
  intros Hc db as1 as2 Ha. destruct Ha as [|v v' as1 as2 Hv Ha]; [by eexists db, [], [], (Ok old)|].
  unfold Redis.bind, eat_value. cbn [args Redis.m_data]. pose proof Hv as (Hn & _). rewrite <- Hn, (Hc _ _ Hv). destruct (is_null v); by eexists _, _, _, _.
Qed.
Lemma cong_eat old : cong (eat old).
Proof. apply (cong_eat_with old toString). by intros v v' (_ & H & _). Qed.
Lemma cong_eat_int old : cong (eat_int old).
Proof. apply (cong_eat_with old toInteger). by intros v v' (_ & _ & H). Qed.
Lemma cong_while {A} (body : A -> Redis.M A) a : (forall a, cong (body a)) -> cong (while_args body a).
Proof.
  intros Hb. apply cong_bind; [apply cong_argc|]. intros n. revert a. induction n as [|n IH]; intros a; cbn [while_args_loop]; [apply cong_ret|].
  apply cong_bind; [apply cong_argc|]. intros k. destruct (k =? 0)%nat; [apply cong_ret|]. by apply cong_bind.
Qed.

#[local] Hint Resolve cong_ret cong_raise cong_lift cong_lift_error cong_get_db cong_find_key cong_insertNew cong_erase cong_argc cong_eat cong_eat_int : cong.
(** Follow the structure of a command. *)
Ltac cong_step :=
  lazymatch goal with
  | |- cong (Redis.bind _ _) => apply cong_bind; [|intros ?]
  | |- cong (while_args _ _) => apply cong_while; intros ?
  | |- cong (match ?x with _ => _ end) => destruct x
  | |- cong (eat _) => apply cong_eat
  | |- cong (eat_int _) => apply cong_eat_int
  | |- cong (while_args _ _) => apply cong_while
  | |- cong ?m => first [solve [auto with cong] | let h := head_of m in unfold h]
  end.
Ltac cong_steps := repeat cong_step.

Context (std_sort : Sort_t).
Lemma commands_cong rand : Forall (fun c => cong c.2) (commands std_sort rand).
Proof. unfold commands. repeat first [apply Forall_nil_2 | apply Forall_cons_2]; cbn [snd]; cong_steps. Qed.
Lemma execute_cong rand verb : cong (execute std_sort rand verb).
Proof.
  unfold execute. induction (commands_cong rand) as [|[name c] table Hc _ IH]; cbn [dispatch]; [apply cong_raise|]. case_bool_decide; done.
Qed.
Lemma call_similar rand verb as1 as2 db : Forall2 similar as1 as2 ->
  Redis.call std_sort rand (VString verb :: as1) db = Redis.call std_sort rand (VString verb :: as2) db.
Proof.
  intros Ha. unfold Redis.call. cbn [eat_value args toString Redis.m_data].
  destruct (execute_cong rand (strUCase verb) db as1 as2 Ha) as (db' & r1 & r2 & r & -> & -> & _). by destruct r as [v|[]].
Qed.
Lemma exec_similar rand verb as1 as2 db : Forall2 similar as1 as2 -> exec std_sort rand verb db as1 = exec std_sort rand verb db as2.
Proof. intros Ha. unfold exec. by destruct (execute_cong rand (lit verb) db as1 as2 Ha) as (db' & r1 & r2 & r & -> & -> & _). Qed.
End Similar.

(** ** Results of commands *)

Section Results.
Context {F : Type} `{!Double F}.

(** Numbers, texts, null, and vectors of texts and null *)
Definition text_or_null (v : value F) : Prop := match v with VString _ | VNull => True | _ => False end.
Definition plain (v : value F) : Prop :=
  match v with
  | VNull | VString _ | VInteger _ => True
  | VVector l => Forall text_or_null l
  | _ => False
  end.
Definition results_in {A} (P : A -> Prop) (m : Redis.M (F := F) A) : Prop := forall s, match (m s).2 with Ok a => P a | Throw _ => True end.
Lemma results_bind {A B} (Q : A -> Prop) (P : B -> Prop) (m : Redis.M A) f : results_in Q m -> (forall a, Q a -> results_in P (f a)) -> results_in P (Redis.bind m f).
Proof.
  intros Hm Hf s. unfold Redis.bind. specialize (Hm s). destruct (m s) as [s' [a|e]]; [by apply Hf|done].
Qed.
Lemma results_any {A B} (P : B -> Prop) (m : Redis.M A) f : (forall a, results_in P (f a)) -> results_in P (Redis.bind m f).
Proof. intros Hf. apply (results_bind (fun _ => True)); [|auto]. intros s. by destruct (m s) as [s' [a|e]]. Qed.
Lemma results_ret {A} (P : A -> Prop) a : P a -> results_in P (Redis.ret a).
Proof. intros Ha s. exact Ha. Qed.
Lemma results_raise {A} (P : A -> Prop) e : results_in P (raise e).
Proof. intros s. exact I. Qed.
Lemma results_while {A} (P : A -> Prop) body a : (forall a, P a -> results_in P (body a)) -> P a -> results_in P (while_args body a).
Proof.
  intros Hb Ha. apply results_any. intros n. revert a Ha. induction n as [|n IH]; intros a Ha; cbn [while_args_loop]; [by apply results_ret|].
  apply results_any. intros k. destruct (k =? 0)%nat; [by apply results_ret|]. by apply (results_bind P); [apply Hb|].
Qed.
Lemma texts_plain (l : list String_t) : Forall text_or_null (map VString l).
Proof. by apply Forall_map, Forall_true. Qed.
#[local] Hint Resolve results_raise texts_plain : core.

Lemma plain_HMGET : results_in plain cmd_HMGET.
Proof.
  unfold cmd_HMGET. apply results_any. intros _. apply results_any. intros k. apply results_any. intros [h|]; [|apply results_ret; by constructor].
  apply (results_bind (fun r => Forall text_or_null r.2)); [|intros r Hr; by apply results_ret]. apply results_while; [|by constructor].
  intros [f result] Hr. apply results_any. intros f'. apply results_ret. cbn. apply Forall_app. split; [done|]. apply Forall_singleton. by destruct (h !! f').
Qed.
Lemma plain_SORT std_sort : results_in plain (cmd_SORT std_sort).
Proof.
  unfold cmd_SORT. apply results_any. intros _. apply results_any. intros k. apply results_any. intros vs.
  apply (results_bind (Forall text_or_null)); [|intros r Hr; by apply results_ret]. unfold executeSortOperation. apply results_any. intros o. cbv zeta.
  apply results_any. intros db. apply results_any. intros vals. destruct (so_store o).
  - apply results_any. intros _. case_bool_decide; [apply results_ret; by constructor|]. do 4 (apply results_any; intros ?). apply results_ret. by constructor.
  - apply results_any. intros rows. apply results_ret. apply Forall_concat, Forall_map, Forall_true. intros x. apply Forall_map, Forall_true. intros p. by destruct (getSortValue db x p).
Qed.
Lemma hash_texts (l : list (String_t * String_t)) : Forall text_or_null (concat (map (fun kx => [VString kx.1; VString kx.2]) l)).
Proof. apply Forall_concat, Forall_map, Forall_true. intros x. by repeat constructor. Qed.

Ltac plain_step :=
  lazymatch goal with
  | |- results_in _ (Redis.bind _ _) => apply results_any; intros ?
  | |- results_in _ (match ?x with _ => _ end) => destruct x
  | |- results_in _ (Redis.ret _) => apply results_ret
  | |- results_in _ (raise _) => apply results_raise
  | |- results_in _ cmd_HMGET => apply plain_HMGET
  | |- results_in _ (cmd_SORT _) => apply plain_SORT
  | |- results_in _ ?m => let h := head_of m in unfold h
  end.
Lemma commands_plain std_sort rand : Forall (fun c => results_in plain c.2) (commands std_sort rand).
Proof.
  unfold commands. repeat first [apply Forall_nil_2 | apply Forall_cons_2]; cbn [snd]; repeat plain_step; first [exact I | done | apply texts_plain | apply hash_texts | idtac].
  all: case_match; cbn [plain]; first [apply Forall_nil_2 | apply texts_plain | apply hash_texts | idtac].
  by apply Forall_map, Forall_true.
Qed.
Lemma call_plain std_sort rand (verb : String_t) as_ db db' v : Redis.call std_sort rand (VString verb :: as_) db = (db', Ok v) -> plain v.
Proof.
  unfold Redis.call. cbn [eat_value args toString Redis.m_data]. unfold execute.
  assert (HD : results_in plain (dispatch (commands std_sort rand) (strUCase verb))).
  { induction (commands_plain std_sort rand) as [|[name c] table Hc _ IH]; cbn [dispatch]; [apply results_raise|]. case_bool_decide; done. }
  specialize (HD (mkState db as_)). destruct (dispatch _ _ _) as [s [x|[]]]; [|done..]. intros [= _ <-]. done.
Qed.

(** What arrives over a connection is the same to the conversions. *)
Lemma redis_image_plain (v : value F) : plain v -> image v = match v with VInteger i => VString (show_int i) | _ => v end.
Proof.
  destruct v as [|s|i|f|b|k vs|vv|src s|]; try done. cbn [plain image]. intros Hv. f_equal. induction Hv as [|x vv Hx _ IH]; [done|]. cbn [map]. rewrite IH. by destruct x.
Qed.
Lemma image_similar (v : value F) : plain v -> fits v ->
  similar v (image v) /\ toStringList v = toStringList (image v) /\ toIntegerList v = toIntegerList (image v).
Proof. intros Hp Hf. rewrite redis_image_plain by done. destruct v as [|s|i|f|b|k vs|vv|src s|]; try done. split; [by apply similar_integer|done]. Qed.
End Results.

(** ** A handler behind a connection *)

Section Remote.
Context {F H0 : Type} `{!Double F} `{!CommandHandler F H0}.

(** The server sends what is queued. *)
Fixpoint pump (fuel : nat) (ph : ProtocolHandler F H0) : list (list Z) * ProtocolHandler F H0 :=
  match fuel with
  | O => ([], ph)
  | S fuel' =>
      let '(ph, (x, _)) := getOperation ph in
      if empty x then ([], ph) else let '(xs, ph) := pump fuel' ph in (x :: xs, ph)
  end.
(** One command: it is written, the server handles it and sends the reply, the client reads it. *)
Definition remote_call (h : ProtocolHandler F H0 * Client F) (command : list (value F)) : (ProtocolHandler F H0 * Client F) * outcome (list Z) (value F) :=
  let '(ph, c) := h in
  let ph := ph_handleData ph (sendCommand command) in
  let '(pieces, ph) := pump (2 + length (m_data ph)) ph in
  let '(c, r) := readResponse (mkClient (c_parser c) (c_input c) (c_socket c ++ pieces)) in
  ((ph, c), match r with Ok v => Ok v | Throw (RemoteError err) => Throw err | Throw _ => Throw [] end).
#[local] Instance remote_handler : CommandHandler F (ProtocolHandler F H0 * Client F) := remote_call.
(** A connection between commands *)
Definition connected (h : H0) : ProtocolHandler F H0 * Client F := (ProtocolHandler_new h, mkClient Parser_new [] []).

Lemma visit_nonempty (v : value F) : visit v <> [].
Proof. by destruct v. Qed.
Lemma pump_one (h : H0) x p : x <> [] -> pump 3 (mkHandler Idle h [x] p) = ([x], mkHandler Idle h [] p).
Proof. by destruct x. Qed.
Lemma readResponse_one (v : value F) : fits v -> readResponse (mkClient Parser_new [] [visit v]) = (mkClient Parser_new [] [], response v).
Proof.
  intros Hv. assert (Ha : awaits (mkClient Parser_new [] [visit v]) v []).
  { split; [done|]. split; [done|]. split; [constructor; [apply visit_nonempty|constructor]|]. cbn [c_parser c_input c_socket concat]. by apply (visit_represents v Hv). }
  destruct (readResponse_loop_correct 3 _ _ _ Ha) as (input & socket & HR & Hi & Hs); [cbn; lia|].
  unfold readResponse. cbn [c_socket length]. rewrite HR. apply app_eq_nil in Hi as [-> Hi].
  assert (socket = []) as -> by (destruct Hs as [|x socket Hx _]; [done|]; cbn in Hi; by apply app_eq_nil in Hi as [-> _]). done.
Qed.
Lemma foldl_one {A B} (f : A -> B -> A) a x : foldl f a [x] = f a x.
Proof. done. Qed.
Lemma replies_one (h : H0) command h' r : ch_call h (map image command) = (h', r) -> replies h [command] = (h', [reply r]).
Proof. intros E. cbn [replies]. by rewrite E. Qed.
Lemma server_one (h : H0) command h' r : fits (VVector command) -> ch_call h (map image command) = (h', r) ->
  ph_handleData (ProtocolHandler_new h) (sendCommand command) = mkHandler Idle h' [visit (reply r)] fresh_parser.
Proof.
  intros Hf E. assert (HF : Forall (fun c => fits (VVector c)) [command]) by (by apply Forall_singleton).
  assert (HC : concat [sendCommand command] = concat (map sendCommand [command])) by done.
  pose proof (server_replies h [command] [sendCommand command] HF HC) as HS. rewrite (foldl_one ph_handleData), (replies_one h command h' r E) in HS. exact HS.
Qed.
Lemma remote_call_spec h command h' r : fits (VVector command) -> ch_call h (map image command) = (h', r) -> fits (reply r) ->
  remote_call (connected h) command =
  (connected h', match response (reply r) with Ok v => Ok v | Throw (RemoteError err) => Throw err | Throw _ => Throw [] end).
Proof.
  intros Hf E Hr. unfold remote_call, connected. cbn [c_parser c_input c_socket app]. rewrite (server_one h command h' r Hf E). cbn [m_data length Nat.add].
  rewrite (pump_one h' _ fresh_parser (visit_nonempty (reply r))). rewrite (readResponse_one _ Hr). done.
Qed.
End Remote.

(** ** The database behind a connection *)

Section Transparent.
Context {F : Type} `{!Double F} (std_sort : Sort_t).
Notation DB := (gmap (list Z) Key * list Z)%type.
Notation Conn := (ProtocolHandler F DB * Client F)%type.
#[local] Instance direct : CommandHandler F DB := InternalDatabase_handler std_sort.
#[local] Instance remote : CommandHandler F Conn := remote_handler.

(** The operation has the same result and leaves the same database when there is a
    connection in between; if it throws, so it does there. *)
Definition transparent {A : Type} (m : @C DB A) (m' : @C Conn A) (h : DB) : Prop :=
  match m h with
  | (h', Ok a) => m' (connected h) = (connected h', Ok a)
  | (h', Throw _) => exists e, m' (connected h) = (connected h', Throw e)
  end.
(** A command of texts and numbers within the limits of the protocol, and a reply
    within these limits *)
Definition argument_ok (v : value F) : Prop := match v with VString _ | VInteger _ => fits v | _ => False end.
Definition sendable (command : list (value F)) (h : DB) : Prop :=
  (exists verb args, command = VString verb :: args /\ fits (VVector command) /\ Forall argument_ok args) /\
  match (ch_call h command).2 with Ok v => fits v | Throw _ => True end.

Lemma image_arguments args : Forall argument_ok args -> Forall2 similar args (map image args).
Proof.
  induction 1 as [|v args Hv _ IH]; [constructor|]. cbn [map]. constructor; [|done]. destruct v as [|s|i|f|b|k vs|vv|src s|]; try done. by apply similar_integer.
Qed.
Lemma direct_image command h : sendable command h -> ch_call h (map image command) = ch_call h command.
Proof.
  intros [(verb & args & -> & _ & Ha) _]. unfold ch_call, direct, InternalDatabase_handler. destruct h as [db rands]. cbn [map image].
  by rewrite <- (call_similar std_sort (hd 0 rands) verb args (map image args) db (image_arguments args Ha)).
Qed.
(** Every operation is a call and a conversion. *)
Lemma transparent_call {A : Type} command (f : value F -> outcome client_exn A) h :
  (forall v, plain v -> fits v -> f (image v) = f v) -> sendable command h ->
  transparent (fun h => let '(h, r) := call command h in (h, match r with Ok v => f v | Throw e => Throw e end))
              (fun h => let '(h, r) := call command h in (h, match r with Ok v => f v | Throw e => Throw e end)) h.
Proof.
  intros Hc Hs. pose proof (direct_image command h Hs) as HI. pose proof Hs as [(verb & args & -> & Hf & Ha) Hr]. unfold transparent, call.
  destruct (ch_call h (VString verb :: args)) as [h' r] eqn:E.
  assert (Hp : forall v, r = Ok v -> plain v).
  { intros v ->. unfold ch_call, direct, InternalDatabase_handler in E. destruct h as [db rands].
    destruct (Redis.call std_sort (hd 0 rands) (VString verb :: args) db) as [db' [x|e]] eqn:Ec; [|done]. injection E as _ <-. by eapply call_plain. }
  assert (HR : fits (reply r)) by (destruct r; [exact Hr|exact I]).
  pose proof (remote_call_spec h (VString verb :: args) h' r Hf HI HR) as HC. change (ch_call (connected h) (VString verb :: args)) with (remote_call (connected h) (VString verb :: args)). rewrite HC.
  destruct r as [v|what]; [|by eexists]. specialize (Hp v eq_refl). cbn [reply]. unfold response. cbn [snd] in Hr.
  assert (match match image v with VError _ err => Throw (RemoteError err) | r => Ok r end with
          | Ok v => Ok v | Throw (RemoteError err) => Throw err | Throw _ => Throw [] end = Ok (image v) :> outcome (list Z) (value F)) as ->.
  { rewrite redis_image_plain by done. by destruct v. }
  rewrite (Hc v Hp Hr). destruct (f v); [done|by eexists].
Qed.
Lemma transparent_ext {A : Type} (m1 m2 : @C DB A) (m1' m2' : @C Conn A) h :
  (forall h, m1 h = m2 h) -> (forall h, m1' h = m2' h) -> transparent m1 m1' h -> transparent m2 m2' h.
Proof. intros H1 H2. unfold transparent. by rewrite H1, H2. Qed.
Lemma transparent_bind {A B : Type} (m : @C DB A) (m' : @C Conn A) (f : A -> @C DB B) (f' : A -> @C Conn B) h :
  transparent m m' h -> (forall h' a, m h = (h', Ok a) -> transparent (f a) (f' a) h') -> transparent (bind m f) (bind m' f') h.
Proof.
  unfold transparent, bind. intros Hm Hf. destruct (m h) as [h' [a|e]].
  - rewrite Hm. by apply Hf.
  - destruct Hm as [e' ->]. by eexists.
Qed.
End Transparent.

Section Primitives.
Context {F : Type} `{!Double F} (std_sort : Sort_t).
Notation DB := (gmap (list Z) Key * list Z)%type.
#[local] Instance direct_db : CommandHandler F DB := InternalDatabase_handler std_sort.
#[local] Instance remote_db : CommandHandler F (ProtocolHandler F DB * Client F) := remote_handler.

Lemma transparent_convert {A : Type} command (conv : value F -> outcome exn A) h :
  (forall v, plain v -> fits v -> conv (image v) = conv v) -> sendable std_sort command h ->
  transparent (bind (call command) (fun v => convert (conv v))) (bind (call command) (fun v => convert (conv v))) h.
Proof.
  intros Hc Hs. pose proof (transparent_call std_sort command (fun v => match conv v with Ok a => Ok a | Throw e => Throw (DataError e) end) h) as HT.
  eapply transparent_ext; [..|apply HT]; [| |intros v Hp Hf; by rewrite Hc|done]; intros h'; unfold bind, convert; by destruct (call command h') as [h2 [v|e]].
Qed.

(** Every method of the client classes is made of these calls. *)
Lemma primitives_transparent command h : sendable std_sort command h ->
  transparent (callVoid command) (callVoid command) h /\
  transparent (callInt command) (callInt command) h /\
  transparent (callOptionalInt command) (callOptionalInt command) h /\
  transparent (callString command) (callString command) h /\
  transparent (callStringList command) (callStringList command) h /\
  transparent (callIntegerList command) (callIntegerList command) h.
Proof.
  intros Hs. assert (HO : transparent (callOptionalInt command) (callOptionalInt command) h).
  { pose proof (transparent_convert command (fun v => if is_null v then Ok None else match toInteger v with Ok i => Ok (Some i) | Throw e => Throw e end) h) as HT.
    eapply transparent_ext; [..|apply HT]; [| | |done].
    1, 2: intros h'; unfold callOptionalInt, bind, convert; destruct (call command h') as [h2 [v|e]]; [|done]; destruct (is_null v); [done|]; by destruct (toInteger v).
    intros v Hp Hf. destruct (image_similar v Hp Hf) as ((-> & _ & ->) & _). done. }
  split; [|split; [|split; [done|split; [|split]]]].
  - pose proof (transparent_convert command (fun _ => Ok tt) h (fun _ _ _ => eq_refl) Hs) as HT.
    eapply transparent_ext; [..|exact HT]; intros h'; unfold callVoid, bind, convert, ret; by destruct (call command h') as [h2 [v|e]].
  - apply transparent_bind; [done|]. done.
  - apply transparent_convert; [|done]. intros v Hp Hf. by destruct (image_similar v Hp Hf) as ((_ & -> & _) & _).
  - apply transparent_convert; [|done]. intros v Hp Hf. by destruct (image_similar v Hp Hf) as (_ & -> & _).
  - apply transparent_convert; [|done]. intros v Hp Hf. by destruct (image_similar v Hp Hf) as (_ & _ & ->).
Qed.
End Primitives.

(** ** Typed keys *)

Section Typed.
Context {F : Type} `{!Double F} (std_sort : Sort_t).
#[local] Instance the_db : CommandHandler F (gmap (list Z) Key * list Z) := InternalDatabase_handler std_sort.
Notation op A := (@C (gmap (list Z) Key * list Z) A).

(** The operation returns [a] and leaves the database [db']. *)
Definition does {A : Type} (m : op A) (db db' : Data_t) (a : A) : Prop := forall rands, m (db, rands) = ((db', tail rands), Ok a).
Definition answers (verb : string) (args : list (value F)) (db db' : Data_t) (v : value F) : Prop := forall rand, exec std_sort rand verb db args = (db', Ok v).

Lemma does_call verb args db db' v : strUCase (lit verb) = lit verb -> answers verb args db db' v -> does (call (request verb args)) db db' v.
Proof.
  intros Hv Ha rands. unfold call, ch_call, the_db, InternalDatabase_handler, request. rewrite (call_exec std_sort (hd 0 rands) (lit verb) verb args db Hv).
  by rewrite Ha.
Qed.
Lemma does_bind {A B : Type} (m : op A) (f : A -> op B) db db' a b : does m db db' a -> (forall rands, f a (db', rands) = ((db', rands), Ok b)) -> does (bind m f) db db' b.
Proof. intros Hm Hf rands. unfold bind. by rewrite Hm, Hf. Qed.
Lemma does_void verb args db db' v : strUCase (lit verb) = lit verb -> answers verb args db db' v -> does (callVoid (request verb args)) db db' tt.
Proof. intros Hv Ha. eapply does_bind; [by apply does_call|done]. Qed.
Lemma does_int verb args db db' v i : strUCase (lit verb) = lit verb -> answers verb args db db' v -> toInteger v = Ok i -> does (callInt (request verb args)) db db' i.
Proof.
  intros Hv Ha Hi. unfold callInt, callOptionalInt. apply (does_bind _ _ db db' (if is_null v then None else Some i)); [|destruct v; try done; by injection Hi as <-].
  eapply does_bind; [by apply does_call|]. intros rands. destruct (is_null v); [done|]. unfold bind, convert. by rewrite Hi.
Qed.
Lemma does_bool verb args db db' v i : strUCase (lit verb) = lit verb -> answers verb args db db' v -> toInteger v = Ok i -> does (callBool (request verb args)) db db' (nonzero i).
Proof. intros Hv Ha Hi. eapply does_bind; [by eapply does_int|done]. Qed.
Lemma does_flag verb args db db' i : strUCase (lit verb) = lit verb -> answers verb args db db' (VInteger i) -> does (callBool (request verb args)) db db' (nonzero i).
Proof. intros Hv Ha. by eapply does_bool. Qed.
Lemma does_number verb args db db' i : strUCase (lit verb) = lit verb -> answers verb args db db' (VInteger i) -> does (callInt (request verb args)) db db' i.
Proof. intros Hv Ha. by eapply does_int. Qed.
Lemma does_string verb args db db' v s : strUCase (lit verb) = lit verb -> answers verb args db db' v -> toString v = Ok s -> does (callString (request verb args)) db db' s.
Proof. intros Hv Ha Hs. eapply does_bind; [by apply does_call|]. intros rands. unfold convert. by rewrite Hs. Qed.

(** Lists of texts, and of numbers that are stored as texts *)
Lemma list_loop_map {A B : Type} (conv : value F -> outcome exn A) (f : B -> value F) (g : B -> A) (l : list B) pre :
  (forall x, x ∈ l -> conv (f x) = Ok (g x)) -> list_loop conv (VVector (pre ++ map f l)) (length l) (Z.of_nat (length pre)) = Ok (map g l).
Proof.
  revert pre. induction l as [|x l IH]; intros pre Hc; [done|]. cbn [length list_loop map at_index]. unfold seg_get.
  rewrite (proj2 (Z.ltb_lt _ _)) by (rewrite length_app; cbn [length]; lia). rewrite Nat2Z.id, app_nth2, Nat.sub_diag by lia. cbn [nth obind]. rewrite Hc by (apply elem_of_cons; by left).
  specialize (IH (pre ++ [f x])). rewrite <- app_assoc in IH. cbn [app] in IH. rewrite length_app in IH. cbn [length] in IH.
  replace (Z.of_nat (length pre) + 1) with (Z.of_nat (length pre + 1)) by lia. cbn [obind]. rewrite IH; [done|]. intros y Hy. apply Hc, elem_of_cons. by right.
Qed.
Lemma string_list_texts (l : list (list Z)) : toStringList (VVector (map VString l) : value F) = Ok l.
Proof.
  unfold toStringList. cbn [getArraySize]. rewrite length_map. cbn. rewrite Nat2Z.id. pose proof (list_loop_map toString VString id l []) as H. rewrite map_id in H. by apply H.
Qed.
Lemma integer_list_texts (l : list Z) : Forall (in_s 32) l -> toIntegerList (VVector (map VString (map show_int l)) : value F) = Ok l.
Proof.
  intros Hl. unfold toIntegerList. cbn [getArraySize]. rewrite !length_map. cbn. rewrite Nat2Z.id, map_map.
  pose proof (list_loop_map toInteger (fun i => VString (show_int i)) id l []) as H. rewrite map_id in H. apply H. intros x Hx. rewrite Forall_forall in Hl. by apply toInteger_show_int, Hl.
Qed.
Lemma does_strings verb args db db' l : strUCase (lit verb) = lit verb -> answers verb args db db' (VVector (map VString l)) -> does (callStringList (request verb args)) db db' l.
Proof. intros Hv Ha. eapply does_bind; [by apply does_call|]. intros rands. unfold convert. by rewrite string_list_texts. Qed.
Lemma does_integers verb args db db' l : strUCase (lit verb) = lit verb -> Forall (in_s 32) l -> answers verb args db db' (VVector (map VString (map show_int l))) ->
  does (callIntegerList (request verb args)) db db' l.
Proof. intros Hv Hl Ha. eapply does_bind; [by apply does_call|]. intros rands. unfold convert. by rewrite integer_list_texts. Qed.
(** A number as an argument is its text. *)
Lemma answers_similar verb as1 as2 db db' v : Forall2 similar as1 as2 -> answers verb as2 db db' v -> answers verb as1 db db' v.
Proof. intros Hs Ha rand. by rewrite (exec_similar std_sort rand verb as1 as2 db Hs). Qed.

(** *** Lists of numbers *)

Definition int_list (db : Data_t) (k : list Z) (xs : list Z) : Prop :=
  list_at db k = Some (map show_int xs) /\ Forall (in_s 32) xs /\ Z.of_nat (length xs) + 1 < 2 ^ 31.
Definition put_ints (db : Data_t) (k : list Z) (xs : list Z) : Data_t := put_list db k (map show_int xs).
Lemma int_list_put db k xs : Forall (in_s 32) xs -> Z.of_nat (length xs) + 1 < 2 ^ 31 -> int_list (put_ints db k xs) k xs.
Proof.
  intros Hx Hs. split; [|done]. unfold put_ints, put_list, list_at. destruct (decide (map show_int xs = [])) as [E|E]; [by rewrite lookup_delete_eq, E|by rewrite lookup_insert_eq].
Qed.
Lemma put_ints_nonempty db k xs : xs <> [] -> put_ints db k xs = <[ k := KList (map show_int xs) ]> db.
Proof. intros Hx. unfold put_ints, put_list. rewrite decide_False; [done|]. by destruct xs. Qed.
Ltac ints H := destruct H as (Hl & Hx & Hsz).
Lemma similar_text (v : list Z) : similar (VString v : value F) (VString v).
Proof. done. Qed.
#[local] Hint Resolve similar_integer similar_text : core.

Lemma int_list_push db k xs v : int_list db k xs -> in_s 32 v ->
  does (IntegerListKey_pushBack k v) db (put_ints db k (xs ++ [v])) (Z.of_nat (length xs) + 1) /\
  does (IntegerListKey_pushFront k v) db (put_ints db k (v :: xs)) (Z.of_nat (length xs) + 1).
Proof.
  intros H Hv. ints H. assert (HS : Forall2 similar [VString k; VInteger v] (VString k :: map VString [show_int v] : list (value F))) by (repeat constructor; by apply similar_integer).
  assert (Hn : forall l : list (list Z), length l = S (length xs) -> toInteger (VInteger (int32 (size l)) : value F) = Ok (Z.of_nat (length xs) + 1)).
  { intros l El. cbn. rewrite int32_size by (unfold size; lia). f_equal. unfold size. lia. }
  rewrite !put_ints_nonempty by (by destruct xs). rewrite map_app. split.
  - eapply does_int; [done| |apply (Hn (map show_int xs ++ [show_int v])); rewrite length_app, length_map; cbn; lia]. eapply answers_similar; [exact HS|]. intros rand.
    rewrite (exec_push std_sort rand "RPUSH" _ db k (map show_int xs)) by (auto || done). done.
  - eapply does_int; [done| |apply (Hn (show_int v :: map show_int xs)); cbn; by rewrite length_map]. eapply answers_similar; [exact HS|]. intros rand.
    rewrite (exec_push std_sort rand "LPUSH" _ db k (map show_int xs)) by (auto || done). done.
Qed.
Lemma int_list_pop db k xs : int_list db k xs ->
  (forall x l, xs = x :: l -> does (IntegerListKey_popFront k) db (put_ints db k l) x) /\
  (forall x l, xs = l ++ [x] -> does (IntegerListKey_popBack k) db (put_ints db k l) x) /\
  (xs = [] -> does (IntegerListKey_popFront k) db db 0 /\ does (IntegerListKey_popBack k) db db 0).
Proof.
  intros H. ints H. assert (Hs : size (map show_int xs) < 2 ^ 31) by (unfold size; rewrite length_map; lia). split; [|split].
  - intros x l ->. apply Forall_cons in Hx as [Hx _]. eapply does_int; [done| |by apply toInteger_show_int]. intros rand. by apply (exec_LPOP std_sort rand db k _ Hl Hs).
  - intros x l ->. apply Forall_app in Hx as [_ Hx]. apply Forall_cons in Hx as [Hx _]. eapply does_int; [done| |by apply toInteger_show_int]. intros rand.
    apply (exec_RPOP std_sort rand db k _ Hl Hs). by rewrite map_app.
  - intros ->. split; (apply (does_int _ _ _ _ VNull); [done| |done]); intros rand; by apply (exec_pop_empty std_sort rand db k _ Hl Hs).
Qed.
Lemma int_list_read db k xs : int_list db k xs ->
  does (ListKey_size k) db db (Z.of_nat (length xs)) /\ does (ListKey_empty k) db db (bool_decide (xs = [])) /\
  does (IntegerListKey_getAll k) db db xs /\
  (forall i, 0 <= i < Z.of_nat (length xs) -> does (IntegerListKey_at k i) db db (nth (Z.to_nat i) xs 0)) /\
  (forall i v, 0 <= i < Z.of_nat (length xs) -> in_s 32 v -> does (IntegerListKey_set k i v) db (put_ints db k (<[ Z.to_nat i := v ]> xs)) tt).
Proof.
  intros H. ints H. assert (Hs : size (map show_int xs) < 2 ^ 31) by (unfold size; rewrite length_map; lia).
  assert (Hsize : does (ListKey_size k) db db (Z.of_nat (length xs))).
  { eapply does_int; [done|intros rand; apply (exec_LLEN std_sort rand db k _ Hl Hs)|]. cbn. unfold size. by rewrite length_map. }
  assert (Hok : forall i, 0 <= i < 2 ^ 31 -> index_ok (map show_int xs) i /\ real_index (map show_int xs) i = i).
  { intros i Hi. unfold index_ok, in_s, size, real_index. rewrite (proj2 (Z.leb_le 0 i)) by lia. lia. }
  split; [done|]. split; [|split; [|split]].
  - eapply does_bind; [exact Hsize|]. intros rands. unfold ret. do 2 f_equal. destruct xs; cbn [length]; [by rewrite bool_decide_eq_true_2|rewrite bool_decide_eq_false_2 by done; apply Z.eqb_neq; lia].
  - eapply does_integers; [done|done|]. intros rand. apply (exec_LRANGE_all std_sort rand db k _ Hl Hs).
  - intros i Hi. destruct (Hok i ltac:(lia)) as [H1 H2]. destruct (lookup_lt_is_Some_2 xs (Z.to_nat i) ltac:(lia)) as [x Ex]. rewrite (nth_lookup_Some _ _ _ _ Ex).
    rewrite Forall_forall in Hx. pose proof (Hx x (list_elem_of_lookup_2 _ _ _ Ex)) as Hxi. eapply does_int; [done|intros rand; apply (exec_LINDEX std_sort rand db k _ Hl Hs i H1)|].
    rewrite H2. change (map show_int xs) with (show_int <$> xs). rewrite list_lookup_fmap, Ex. cbn. by apply toInteger_show_int.
  - intros i v Hi Hv. destruct (Hok i ltac:(lia)) as [H1 H2]. eapply does_void; [done|]. apply (answers_similar _ _ [VString k; VInteger i; VString (show_int v)]); [|intros rand].
    + constructor; [done|]. constructor; [done|]. constructor; [by apply similar_integer|constructor].
    + rewrite (exec_LSET std_sort rand db k _ Hl Hs i (show_int v) H1) by (rewrite H2; unfold size; rewrite length_map; lia). rewrite H2, put_ints_nonempty.
      * change (map show_int ?l) with (show_int <$> l). by rewrite list_fmap_insert.
      * intros E. apply (f_equal length) in E. rewrite length_insert in E. cbn in E. lia.
Qed.

(** *** Sets of numbers *)

Lemma show_int_inj i j : in_s 32 i -> in_s 32 j -> show_int i = show_int j -> i = j.
Proof.
  intros Hi Hj E. pose proof (toInteger_show_int (F := F) i Hi) as H1. rewrite E, (toInteger_show_int j Hj) in H1. congruence.
Qed.
Definition texts (m : gset Z) : gset String_t := set_map show_int m.
Definition int_set (db : Data_t) (k : list Z) (m : gset Z) : Prop := set_at db k = Some (texts m) /\ (forall x, x ∈ m -> in_s 32 x).
Lemma texts_elem (m : gset Z) v : (forall x, x ∈ m -> in_s 32 x) -> in_s 32 v -> show_int v ∈ texts m <-> v ∈ m.
Proof.
  intros Hm Hv. unfold texts. rewrite elem_of_map. split; [|by exists v]. intros (x & E & Hx). by rewrite (show_int_inj v x Hv (Hm x Hx) E).
Qed.
Lemma int_set_member db k m v : int_set db k m -> in_s 32 v -> does (IntegerSetKey_contains k v) db db (bool_decide (v ∈ m)).
Proof.
  intros [Hm Hx] Hv. assert (bool_decide (v ∈ m) = nonzero (bool_int (bool_decide (show_int v ∈ texts m)))) as ->.
  { rewrite (bool_decide_ext _ _ (texts_elem m v Hx Hv)). by case_bool_decide. }
  apply does_flag; [done|]. apply (answers_similar _ _ [VString k; VString (show_int v)]); [constructor; [done|]; constructor; [by apply similar_integer|constructor]|].
  intros rand. by rewrite (exec_SISMEMBER std_sort rand db k _ Hm).
Qed.
Lemma int_set_add db k m v : int_set db k m -> in_s 32 v -> does (IntegerSetKey_add k v) db (<[ k := KSet (texts ({[ v ]} ∪ m)) ]> db) (bool_decide (v ∉ m)).
Proof.
  intros [Hm Hx] Hv. assert (ET : texts ({[ v ]} ∪ m) = texts m ∪ list_to_set [show_int v]).
  { unfold texts. rewrite set_map_union_L, set_map_singleton_L. set_solver. }
  assert (bool_decide (v ∉ m) = nonzero (card (texts m ∪ list_to_set [show_int v]) - card (texts m))) as ->.
  { unfold card, nonzero. cbn [list_to_set]. destruct (decide (v ∈ m)) as [Hin|Hin].
    - rewrite bool_decide_eq_false_2 by auto. apply (texts_elem m v Hx Hv) in Hin. assert (texts m ∪ ({[show_int v]} ∪ ∅) = texts m) as -> by set_solver. by rewrite Z.sub_diag.
    - rewrite bool_decide_eq_true_2 by done. assert (Hni : show_int v ∉ texts m) by (by rewrite texts_elem). rewrite size_union by set_solver.
      assert (base.size ({[show_int v]} ∪ ∅ : gset String_t) = 1%nat) as -> by (rewrite union_empty_r_L; apply size_singleton).
      symmetry. apply negb_true_iff, Z.eqb_neq. lia. }
  rewrite ET. apply does_flag; [done|]. apply (answers_similar _ _ (VString k :: map VString [show_int v])); [constructor; [done|]; constructor; [by apply similar_integer|constructor]|].
  intros rand. by apply exec_SADD.
Qed.
Lemma map_inverse (l : list String_t) (m : gset Z) : (forall x, x ∈ m -> in_s 32 x) -> (forall s, s ∈ l -> s ∈ texts m) -> exists xs, l = map show_int xs /\ (forall x, x ∈ xs -> x ∈ m).
Proof.
  intros Hm. induction l as [|s l IH]; intros Hl; [exists []; split; [done|]; intros x Hx; by apply not_elem_of_nil in Hx|].
  destruct IH as (xs & -> & Hxs); [intros y Hy; apply Hl, elem_of_cons; by right|].
  assert (Hs : s ∈ texts m) by (apply Hl, elem_of_cons; by left). apply elem_of_map in Hs as (x & -> & Hx). exists (x :: xs). split; [done|].
  intros y [->|Hy]%elem_of_cons; auto.
Qed.
Lemma int_set_all db k m : int_set db k m -> exists l, l ≡ₚ elements m /\ does (IntegerSetKey_getAll k) db db l.
Proof.
  intros [Hm Hx]. destruct (set_elements_spec (texts m)) as (HE & HN & _).
  destruct (map_inverse (set_elements (texts m)) m Hx) as (xs & Exs & Hin); [intros s Hs; by apply HE|]. exists xs.
  assert (HF : Forall (in_s 32) xs) by (apply Forall_forall; auto). split.
  - apply NoDup_Permutation; [|apply NoDup_elements|].
    + rewrite Exs in HN. by eapply NoDup_fmap_1.
    + intros x. rewrite elem_of_elements. split; [auto|]. intros Hxm. assert (Hs : show_int x ∈ set_elements (texts m)) by (apply HE; unfold texts; apply elem_of_map; by exists x).
      rewrite Exs in Hs. apply list_elem_of_fmap in Hs as (y & E & Hy). by rewrite (show_int_inj x y (Hx x Hxm) (Hx y (Hin y Hy)) E).
  - eapply does_integers; [done|done|]. intros rand. rewrite <- Exs. by apply (exec_SMEMBERS std_sort rand db k _ Hm).
Qed.

(** *** Numbers in keys and fields *)

Definition int_key (db : Data_t) (k : list Z) (i : Z) : Prop := db !! k = Some (KString (show_int i)) /\ in_s 32 i.
Lemma int_key_set db k i : in_s 32 i -> does (IntegerKey_set k i) db (<[ k := KString (show_int i) ]> db) tt.
Proof.
  intros Hi. eapply does_void; [done|]. apply (answers_similar _ _ [VString k; VString (show_int i)]); [constructor; [done|]; constructor; [by apply similar_integer|constructor]|].
  intros rand. apply exec_SET.
Qed.
Lemma show_int_number i : in_s 32 i -> sort_int (show_int i) = Some i.
Proof.
  intros Hi. pose proof (toInteger_show_int (F := F) i Hi) as H. unfold toInteger in H. unfold sort_int. case_bool_decide; [congruence|].
  destruct (strToInt32 (show_int i)); congruence.
Qed.
Lemma int_key_ops db k i : int_key db k i ->
  does (IntegerKey_get k) db db i /\ does (IntegerKey_getOptional k) db db (Some i) /\
  (in_s 32 (i + 1) -> does (IntegerKey_incr k) db (<[ k := KString (show_int (i + 1)) ]> db) (i + 1)) /\
  (in_s 32 (i - 1) -> does (IntegerKey_decr k) db (<[ k := KString (show_int (i - 1)) ]> db) (i - 1)) /\
  (forall d, in_s 32 d -> d <> - 2 ^ 31 -> in_s 32 (i + d) -> does (IntegerKey_incrBy k d) db (<[ k := KString (show_int (i + d)) ]> db) (i + d)).
Proof.
  intros [Hk Hi]. assert (Ho : string_at db k = Some (Some (show_int i))) by (unfold string_at; by rewrite Hk).
  assert (Hget : does (IntegerKey_getOptional k) db db (Some i)).
  { unfold IntegerKey_getOptional, callOptionalInt. eapply does_bind; [apply does_call; [done|]; intros rand; by apply exec_GET|]. intros rands. cbn [opt_value is_null].
    unfold bind, convert. by rewrite toInteger_show_int. }
  split; [eapply does_bind; [exact Hget|done]|]. split; [done|].
  assert (HN : forall rand d, in_s 32 d -> d <> - 2 ^ 31 -> _) by (intros rand d; exact (exec_numbers std_sort rand db k _ Ho i d (show_int_number i Hi))).
  split; [|split].
  - intros H. apply does_number; [done|]. intros rand. destruct (HN rand 0) as (H1 & _); [unfold in_s; lia|lia|by apply H1].
  - intros H. apply does_number; [done|]. intros rand. destruct (HN rand 0) as (_ & H1 & _); [unfold in_s; lia|lia|by apply H1].
  - intros d Hd Hd' H. apply does_number; [done|]. intros rand. destruct (HN rand d Hd Hd') as (_ & _ & H1 & _). by apply H1.
Qed.

Definition int_field (db : Data_t) (k f : list Z) (i : Z) : Prop := exists h, hash_at db k = Some h /\ h !! f = Some (show_int i) /\ in_s 32 i.
Lemma int_field_set db k f i h : hash_at db k = Some h -> in_s 32 i ->
  does (IntegerField_set k f i) db (<[ k := KHash (<[ f := show_int i ]> h) ]> db) (bool_decide (h !! f = None)).
Proof.
  intros Hh Hi. assert (bool_decide (h !! f = None) = nonzero (bool_int (negb (present (h !! f))))) as -> by (by destruct (h !! f)).
  apply does_flag; [done|]. apply (answers_similar _ _ [VString k; VString f; VString (show_int i)]);
    [constructor; [done|]; constructor; [done|]; constructor; [by apply similar_integer|constructor]|]. intros rand. by rewrite (exec_HSET std_sort rand db k h Hh).
Qed.
Lemma int_field_ops db k f i : int_field db k f i ->
  does (IntegerField_get k f) db db i /\
  (forall d, in_s 32 d -> in_s 32 (i + d) -> exists db', does (IntegerField_incrBy k f d) db db' (i + d) /\ int_field db' k f (i + d)).
Proof.
  intros (h & Hh & Hf & Hi). split.
  - unfold IntegerField_get, IntegerField_getOptional, callOptionalInt. apply (does_bind _ _ db db (Some i)); [|done].
    eapply does_bind; [apply does_call; [done|]; intros rand; by apply (exec_HGET std_sort rand db k h Hh)|]. intros rands. rewrite Hf. cbn [opt_value is_null].
    unfold bind, convert. by rewrite toInteger_show_int.
  - intros d Hd Hr. exists (<[ k := KHash (<[ f := show_int (i + d) ]> h) ]> db). split.
    + apply does_number; [done|]. intros rand. apply (exec_HINCRBY std_sort rand db k h Hh f i d); [|done]. rewrite Hf. by apply show_int_number.
    + exists (<[ f := show_int (i + d) ]> h). unfold hash_at. rewrite lookup_insert_eq. by rewrite lookup_insert_eq.
Qed.

(** *** Keys *)

Lemma key_names db name : 42 ∉ name -> exists l, does (Subtree_getKeyNames name) db db l /\ NoDup l /\ (forall x, x ∈ l <-> is_Some (db !! (name ++ x))).
Proof.
  intros Hn. set (keys := filter (fun k => matchKey (name ++ lit "*") k = true) (db_keys db)). destruct (db_keys_spec db) as (HK & HN & _).
  assert (HM : forall k, k ∈ keys <-> is_Some (db !! k) /\ exists m, k = name ++ m).
  { intros k. unfold keys. rewrite list_elem_of_filter, HK. change (lit "*") with ([42] ++ []). change (name ++ [42] ++ []) with (name ++ 42 :: []). rewrite matchKey_star by done.
    setoid_rewrite app_nil_r. tauto. }
  exists (map (drop (length name)) (filter (fun key => take (length name) key = name) keys)). split; [|split].
  - unfold Subtree_getKeyNames. eapply does_bind; [|done]. eapply does_strings; [done|]. intros rand. apply exec_KEYS.
  - apply NoDup_fmap_2_strong; [|apply NoDup_filter, NoDup_filter, HN]. intros x y Hx Hy E.
    apply list_elem_of_filter in Hx as [_ Hx]. apply list_elem_of_filter in Hy as [_ Hy]. apply HM in Hx as [_ [mx ->]]. apply HM in Hy as [_ [my ->]]. by rewrite !drop_app_length in E; rewrite E.
  - intros x. rewrite list_elem_of_fmap. split.
    + intros (k & -> & Hk). apply list_elem_of_filter in Hk as [_ Hk]. apply HM in Hk as [Hs [m ->]]. by rewrite drop_app_length.
    + intros Hs. exists (name ++ x). rewrite drop_app_length. split; [done|]. apply list_elem_of_filter. rewrite take_app_length. split; [done|]. apply HM. eauto.
Qed.
Lemma key_remove db k : does (Key_remove k) db (delete k db) tt.
Proof. eapply does_void; [done|]. intros rand. apply (exec_DEL std_sort rand db [k]). Qed.
Lemma key_rename db k k2 key : db !! k = Some key -> does (Key_renameTo k k2) db (<[ k2 := key ]> (delete k db)) k2.
Proof. intros Hk. eapply does_bind; [|done]. eapply does_void; [done|]. intros rand. rewrite exec_RENAME, Hk. done. Qed.
End Typed.

(** ** Properties *)

Import Concrete.
(** C21. A connection is transparent to the Redis client: whatever command of texts and
    32-bit numbers is sent to a database through the RESP client, the connection and
    the RESP server, byte by byte, callVoid, callInt, callOptionalInt, callString and
    the conversions to lists have the result they have on the database itself, they
    throw exactly when they throw there, the database afterwards is the same, and the
    connection is ready for the next command.  So do all operations made of such
    calls, one after the other. *)
Theorem redis_remote_transparent {F : Type} `{!Double F} (std_sort : Sort_t) :
  let direct := InternalDatabase_handler std_sort in
  let remote := @remote_handler F _ _ direct in
  (forall command h, sendable std_sort command h ->
     transparent (callVoid command) (callVoid command) h /\
     transparent (callInt command) (callInt command) h /\
     transparent (callOptionalInt command) (callOptionalInt command) h /\
     transparent (callString command) (callString command) h /\
     transparent (callStringList command) (callStringList command) h /\
     transparent (callIntegerList command) (callIntegerList command) h) /\
  (forall (A B : Type) (m : @C _ A) (m' : @C (ProtocolHandler F _ * Client F) A) (f : A -> @C _ B) f' h,
     transparent m m' h -> (forall h' a, m h = (h', Ok a) -> transparent (f a) (f' a) h') -> transparent (bind m f) (bind m' f') h).
Proof. intros direct remote. split; [exact (primitives_transparent std_sort)|]. intros A B m m' f f' h. apply transparent_bind. Qed.
Lemma redis_remote_transparent_witness :
  let direct := InternalDatabase_handler insertion_sort in
  let remote := @remote_handler Z _ _ direct in
  callInt (request "RPUSH" [VString (lit "k"); VInteger 7]) (connected (∅, [])) = (connected (<[ lit "k" := KList [lit "7"] ]> ∅, []), Ok 1).
Proof.
  intros direct remote. pose proof (redis_remote_transparent (F := Z) insertion_sort) as [H _].
  destruct (H (request "RPUSH" [VString (lit "k"); VInteger 7]) (∅, [])) as (_ & HI & _).
  - split; [|by vm_compute]. eexists _, _. split; [reflexivity|]. split; [by vm_compute|]. constructor; [by vm_compute|]. constructor; [by vm_compute|constructor].
  - exact HI.
Defined.

(** The typed keys of the Redis client are containers of numbers on the database.
    An IntegerListKey is a list: pushBack and pushFront add an element and return the
    new length, popFront and popBack remove one and return it (0 when there is none),
    size, empty, getAll and operator[] read it, set replaces an element, and what is
    stored is such a list again.  An IntegerSetKey is a set: contains, add, which says
    whether the number is new, and getAll, which lists every element once.  Integer
    keys and integer fields of a hash return what was set, and add to it as long as
    the result has 32 bits.  Subtree::getKeyNames lists each key below its prefix
    once; remove and renameTo remove and rename a key. *)
Theorem redis_client_typed {F : Type} `{!Double F} (std_sort : Sort_t) (db : Data_t) (k : list Z) :
  let handler := InternalDatabase_handler (F := F) std_sort in
  (forall xs, int_list db k xs ->
     (forall v, in_s 32 v ->
        does (IntegerListKey_pushBack k v) db (put_ints db k (xs ++ [v])) (Z.of_nat (length xs) + 1) /\
        does (IntegerListKey_pushFront k v) db (put_ints db k (v :: xs)) (Z.of_nat (length xs) + 1)) /\
     (forall x l, xs = x :: l -> does (IntegerListKey_popFront k) db (put_ints db k l) x) /\
     (forall x l, xs = l ++ [x] -> does (IntegerListKey_popBack k) db (put_ints db k l) x) /\
     (xs = [] -> does (IntegerListKey_popFront k) db db 0 /\ does (IntegerListKey_popBack k) db db 0) /\
     does (ListKey_size k) db db (Z.of_nat (length xs)) /\ does (ListKey_empty k) db db (bool_decide (xs = [])) /\
     does (IntegerListKey_getAll k) db db xs /\
     (forall i, 0 <= i < Z.of_nat (length xs) -> does (IntegerListKey_at k i) db db (nth (Z.to_nat i) xs 0)) /\
     (forall i v, 0 <= i < Z.of_nat (length xs) -> in_s 32 v -> does (IntegerListKey_set k i v) db (put_ints db k (<[ Z.to_nat i := v ]> xs)) tt)) /\
  (forall xs, Forall (in_s 32) xs -> Z.of_nat (length xs) + 1 < 2 ^ 31 -> int_list (put_ints db k xs) k xs) /\
  (forall m, int_set db k m ->
     (forall v, in_s 32 v ->
        does (IntegerSetKey_contains k v) db db (bool_decide (v ∈ m)) /\
        does (IntegerSetKey_add k v) db (<[ k := KSet (texts ({[ v ]} ∪ m)) ]> db) (bool_decide (v ∉ m))) /\
     (exists l, l ≡ₚ elements m /\ does (IntegerSetKey_getAll k) db db l)) /\
  (forall i, in_s 32 i -> does (IntegerKey_set k i) db (<[ k := KString (show_int i) ]> db) tt) /\
  (forall i, int_key db k i ->
     does (IntegerKey_get k) db db i /\ does (IntegerKey_getOptional k) db db (Some i) /\
     (in_s 32 (i + 1) -> does (IntegerKey_incr k) db (<[ k := KString (show_int (i + 1)) ]> db) (i + 1)) /\
     (in_s 32 (i - 1) -> does (IntegerKey_decr k) db (<[ k := KString (show_int (i - 1)) ]> db) (i - 1)) /\
     (forall d, in_s 32 d -> d <> - 2 ^ 31 -> in_s 32 (i + d) -> does (IntegerKey_incrBy k d) db (<[ k := KString (show_int (i + d)) ]> db) (i + d))) /\
  (forall f i h, hash_at db k = Some h -> in_s 32 i -> does (IntegerField_set k f i) db (<[ k := KHash (<[ f := show_int i ]> h) ]> db) (bool_decide (h !! f = None))) /\
  (forall f i, int_field db k f i -> does (IntegerField_get k f) db db i /\
     (forall d, in_s 32 d -> in_s 32 (i + d) -> exists db', does (IntegerField_incrBy k f d) db db' (i + d) /\ int_field db' k f (i + d))) /\
  (42 ∉ k -> exists l, does (Subtree_getKeyNames k) db db l /\ NoDup l /\ (forall x, x ∈ l <-> is_Some (db !! (k ++ x)))) /\
  does (Key_remove k) db (delete k db) tt /\
  (forall k2 key, db !! k = Some key -> does (Key_renameTo k k2) db (<[ k2 := key ]> (delete k db)) k2).
Proof.
  intros handler. split; [|split; [apply int_list_put|]].
  - intros xs Hxs. split; [intros v Hv; by apply int_list_push|]. destruct (int_list_pop std_sort db k xs Hxs) as (H1 & H2 & H3). split; [done|]. split; [done|]. split; [done|].
    by apply int_list_read.
  - split; [|split; [apply int_key_set|split; [apply int_key_ops|split; [intros f i h; apply int_field_set|split; [intros f i; apply int_field_ops|]]]]].
    + intros m Hm. split; [intros v Hv; split; [by apply int_set_member|by apply int_set_add]|by apply int_set_all].
    + split; [apply key_names|]. split; [apply key_remove|]. intros k2 key. apply key_rename.
Qed.
Lemma redis_client_typed_witness :
  let handler := InternalDatabase_handler (F := Z) insertion_sort in
  does (IntegerListKey_popBack (lit "k")) (<[ lit "k" := KList [lit "7"; lit "-8"] ]> ∅) (put_ints (<[ lit "k" := KList [lit "7"; lit "-8"] ]> ∅) (lit "k") [7]) (-8).
Proof.
  intros handler. destruct (redis_client_typed (F := Z) insertion_sort (<[ lit "k" := KList [lit "7"; lit "-8"] ]> ∅) (lit "k")) as (H & _).
  destruct (H [7; -8]) as (_ & _ & HP & _).
  - split; [by vm_compute|]. split; [repeat constructor; vm_compute; done|cbn; lia].
  - exact (HP (-8) [7] eq_refl).
Defined.
