(* ===== verification/Unicode.v ===== *)
(** * Characters: case mapping, transliteration, choice of a charset

    src/afl/charset: the case tables of unicode.cpp, AsciiTransliterator with its table
    and binary search, and DefaultCharsetFactory. *)

From Stdlib Require Import ZArith Lia Bool String Ascii Sorted.
From stdpp Require Import base tactics numbers option list.
From S2P Require Import Prelude Strings Utf8 Codepage.

Local Open Scope Z_scope.
Local Open Scope afl_scope.
Local Set Warnings "-notation-for-abbreviation".

(** ** Case mapping *)

Record Mapping := mkMapping { m_input : Z; m_output : Z; m_offset : Z; m_count : Z }.

Definition UPPERCASE_TABLE : list Mapping := [
  mkMapping 0x0061 0x0041 1 26; mkMapping 0x00B5 0x039C 1 1; mkMapping 0x00E0 0x00C0 1 23; mkMapping 0x00F8 0x00D8 1 7;
  mkMapping 0x00FF 0x0178 1 1; mkMapping 0x0101 0x0100 2 24; mkMapping 0x0131 0x0049 1 1; mkMapping 0x0133 0x0132 2 3;
  mkMapping 0x013A 0x0139 2 8; mkMapping 0x014B 0x014A 2 23; mkMapping 0x017A 0x0179 2 3; mkMapping 0x017F 0x0053 1 1;
  mkMapping 0x0180 0x0243 1 1; mkMapping 0x0183 0x0182 2 2; mkMapping 0x0188 0x0187 4 2; mkMapping 0x0192 0x0191 1 1;
  mkMapping 0x0195 0x01F6 1 1; mkMapping 0x0199 0x0198 1 1; mkMapping 0x019A 0x023D 1 1; mkMapping 0x019E 0x0220 1 1;
  mkMapping 0x01A1 0x01A0 2 3; mkMapping 0x01A8 0x01A7 1 1; mkMapping 0x01AD 0x01AC 1 1; mkMapping 0x01B0 0x01AF 4 2;
  mkMapping 0x01B6 0x01B5 1 1; mkMapping 0x01B9 0x01B8 4 2; mkMapping 0x01BF 0x01F7 1 1; mkMapping 0x01C5 0x01C4 1 1;
  mkMapping 0x01C6 0x01C4 1 1; mkMapping 0x01C8 0x01C7 1 1; mkMapping 0x01C9 0x01C7 1 1; mkMapping 0x01CB 0x01CA 1 1;
  mkMapping 0x01CC 0x01CA 1 1; mkMapping 0x01CE 0x01CD 2 8; mkMapping 0x01DD 0x018E 1 1; mkMapping 0x01DF 0x01DE 2 9;
  mkMapping 0x01F2 0x01F1 1 1; mkMapping 0x01F3 0x01F1 1 1; mkMapping 0x01F5 0x01F4 4 2; mkMapping 0x01FB 0x01FA 2 19;
  mkMapping 0x0223 0x0222 2 9; mkMapping 0x023C 0x023B 1 1; mkMapping 0x023F 0x2C7E 1 2; mkMapping 0x0242 0x0241 1 1;
  mkMapping 0x0247 0x0246 2 5; mkMapping 0x0250 0x2C6F 1 1; mkMapping 0x0251 0x2C6D 1 1; mkMapping 0x0252 0x2C70 1 1;
  mkMapping 0x0253 0x0181 1 1; mkMapping 0x0254 0x0186 1 1; mkMapping 0x0256 0x0189 1 2; mkMapping 0x0259 0x018F 1 1;
  mkMapping 0x025B 0x0190 1 1; mkMapping 0x0260 0x0193 1 1; mkMapping 0x0263 0x0194 1 1; mkMapping 0x0268 0x0197 1 1;
  mkMapping 0x0269 0x0196 1 1; mkMapping 0x026B 0x2C62 1 1; mkMapping 0x026F 0x019C 1 1; mkMapping 0x0271 0x2C6E 1 1;
  mkMapping 0x0272 0x019D 1 1; mkMapping 0x0275 0x019F 1 1; mkMapping 0x027D 0x2C64 1 1; mkMapping 0x0280 0x01A6 1 1;
  mkMapping 0x0283 0x01A9 1 1; mkMapping 0x0288 0x01AE 1 1; mkMapping 0x0289 0x0244 1 1; mkMapping 0x028A 0x01B1 1 2;
  mkMapping 0x028C 0x0245 1 1; mkMapping 0x0292 0x01B7 1 1; mkMapping 0x0345 0x0399 1 1; mkMapping 0x0371 0x0370 2 2;
  mkMapping 0x0377 0x0376 1 1; mkMapping 0x037B 0x03FD 1 3; mkMapping 0x03AC 0x0386 1 1; mkMapping 0x03AD 0x0388 1 3;
  mkMapping 0x03B1 0x0391 1 17; mkMapping 0x03C2 0x03A3 1 1; mkMapping 0x03C3 0x03A3 1 9; mkMapping 0x03CC 0x038C 1 1;
  mkMapping 0x03CD 0x038E 1 2; mkMapping 0x03D0 0x0392 1 1; mkMapping 0x03D1 0x0398 1 1; mkMapping 0x03D5 0x03A6 1 1;
  mkMapping 0x03D6 0x03A0 1 1; mkMapping 0x03D7 0x03CF 1 1; mkMapping 0x03D9 0x03D8 2 12; mkMapping 0x03F0 0x039A 1 1;
  mkMapping 0x03F1 0x03A1 1 1; mkMapping 0x03F2 0x03F9 1 1; mkMapping 0x03F5 0x0395 1 1; mkMapping 0x03F8 0x03F7 1 1;
  mkMapping 0x03FB 0x03FA 1 1; mkMapping 0x0430 0x0410 1 32; mkMapping 0x0450 0x0400 1 16; mkMapping 0x0461 0x0460 2 17;
  mkMapping 0x048B 0x048A 2 27; mkMapping 0x04C2 0x04C1 2 7; mkMapping 0x04CF 0x04C0 1 1; mkMapping 0x04D1 0x04D0 2 44;
  mkMapping 0x0561 0x0531 1 38; mkMapping 0x1D7D 0x2C63 1 1; mkMapping 0x1E01 0x1E00 2 75; mkMapping 0x1E9B 0x1E60 1 1;
  mkMapping 0x1EA1 0x1EA0 2 48; mkMapping 0x1F00 0x1F08 1 8; mkMapping 0x1F10 0x1F18 1 6; mkMapping 0x1F20 0x1F28 1 8;
  mkMapping 0x1F30 0x1F38 1 8; mkMapping 0x1F40 0x1F48 1 6; mkMapping 0x1F51 0x1F59 2 4; mkMapping 0x1F60 0x1F68 1 8;
  mkMapping 0x1F70 0x1FBA 1 2; mkMapping 0x1F72 0x1FC8 1 4; mkMapping 0x1F76 0x1FDA 1 2; mkMapping 0x1F78 0x1FF8 1 2;
  mkMapping 0x1F7A 0x1FEA 1 2; mkMapping 0x1F7C 0x1FFA 1 2; mkMapping 0x1F80 0x1F88 1 8; mkMapping 0x1F90 0x1F98 1 8;
  mkMapping 0x1FA0 0x1FA8 1 8; mkMapping 0x1FB0 0x1FB8 1 2; mkMapping 0x1FB3 0x1FBC 1 1; mkMapping 0x1FBE 0x0399 1 1;
  mkMapping 0x1FC3 0x1FCC 1 1; mkMapping 0x1FD0 0x1FD8 1 2; mkMapping 0x1FE0 0x1FE8 1 2; mkMapping 0x1FE5 0x1FEC 1 1;
  mkMapping 0x1FF3 0x1FFC 1 1; mkMapping 0x214E 0x2132 1 1; mkMapping 0x2170 0x2160 1 16; mkMapping 0x2184 0x2183 1 1;
  mkMapping 0x24D0 0x24B6 1 26; mkMapping 0x2C30 0x2C00 1 47; mkMapping 0x2C61 0x2C60 1 1; mkMapping 0x2C65 0x023A 1 1;
  mkMapping 0x2C66 0x023E 1 1; mkMapping 0x2C68 0x2C67 2 3; mkMapping 0x2C73 0x2C72 1 1; mkMapping 0x2C76 0x2C75 1 1;
  mkMapping 0x2C81 0x2C80 2 50; mkMapping 0x2CEC 0x2CEB 2 2; mkMapping 0x2D00 0x10A0 1 38].
Definition LOWERCASE_TABLE : list Mapping := [
  mkMapping 0x0041 0x0061 1 26; mkMapping 0x00C0 0x00E0 1 23; mkMapping 0x00D8 0x00F8 1 7; mkMapping 0x0100 0x0101 2 24;
  mkMapping 0x0130 0x0069 1 1; mkMapping 0x0132 0x0133 2 3; mkMapping 0x0139 0x013A 2 8; mkMapping 0x014A 0x014B 2 23;
  mkMapping 0x0178 0x00FF 1 1; mkMapping 0x0179 0x017A 2 3; mkMapping 0x0181 0x0253 1 1; mkMapping 0x0182 0x0183 2 2;
  mkMapping 0x0186 0x0254 1 1; mkMapping 0x0187 0x0188 1 1; mkMapping 0x0189 0x0256 1 2; mkMapping 0x018B 0x018C 1 1;
  mkMapping 0x018E 0x01DD 1 1; mkMapping 0x018F 0x0259 1 1; mkMapping 0x0190 0x025B 1 1; mkMapping 0x0191 0x0192 1 1;
  mkMapping 0x0193 0x0260 1 1; mkMapping 0x0194 0x0263 1 1; mkMapping 0x0196 0x0269 1 1; mkMapping 0x0197 0x0268 1 1;
  mkMapping 0x0198 0x0199 1 1; mkMapping 0x019C 0x026F 1 1; mkMapping 0x019D 0x0272 1 1; mkMapping 0x019F 0x0275 1 1;
  mkMapping 0x01A0 0x01A1 2 3; mkMapping 0x01A6 0x0280 1 1; mkMapping 0x01A7 0x01A8 1 1; mkMapping 0x01A9 0x0283 1 1;
  mkMapping 0x01AC 0x01AD 1 1; mkMapping 0x01AE 0x0288 1 1; mkMapping 0x01AF 0x01B0 1 1; mkMapping 0x01B1 0x028A 1 2;
  mkMapping 0x01B3 0x01B4 2 2; mkMapping 0x01B7 0x0292 1 1; mkMapping 0x01B8 0x01B9 4 2; mkMapping 0x01C4 0x01C6 1 1;
  mkMapping 0x01C5 0x01C6 1 1; mkMapping 0x01C7 0x01C9 1 1; mkMapping 0x01C8 0x01C9 1 1; mkMapping 0x01CA 0x01CC 1 1;
  mkMapping 0x01CB 0x01CC 2 9; mkMapping 0x01DE 0x01DF 2 9; mkMapping 0x01F1 0x01F3 1 1; mkMapping 0x01F2 0x01F3 2 2;
  mkMapping 0x01F6 0x0195 1 1; mkMapping 0x01F7 0x01BF 1 1; mkMapping 0x01F8 0x01F9 2 20; mkMapping 0x0220 0x019E 1 1;
  mkMapping 0x0222 0x0223 2 9; mkMapping 0x023A 0x2C65 1 1; mkMapping 0x023B 0x023C 1 1; mkMapping 0x023D 0x019A 1 1;
  mkMapping 0x023E 0x2C66 1 1; mkMapping 0x0241 0x0242 1 1; mkMapping 0x0243 0x0180 1 1; mkMapping 0x0244 0x0289 1 1;
  mkMapping 0x0245 0x028C 1 1; mkMapping 0x0246 0x0247 2 5; mkMapping 0x0370 0x0371 2 2; mkMapping 0x0376 0x0377 1 1;
  mkMapping 0x0386 0x03AC 1 1; mkMapping 0x0388 0x03AD 1 3; mkMapping 0x038C 0x03CC 1 1; mkMapping 0x038E 0x03CD 1 2;
  mkMapping 0x0391 0x03B1 1 17; mkMapping 0x03A3 0x03C3 1 9; mkMapping 0x03CF 0x03D7 1 1; mkMapping 0x03D8 0x03D9 2 12;
  mkMapping 0x03F4 0x03B8 1 1; mkMapping 0x03F7 0x03F8 1 1; mkMapping 0x03F9 0x03F2 1 1; mkMapping 0x03FA 0x03FB 1 1;
  mkMapping 0x03FD 0x037B 1 3; mkMapping 0x0400 0x0450 1 16; mkMapping 0x0410 0x0430 1 32; mkMapping 0x0460 0x0461 2 17;
  mkMapping 0x048A 0x048B 2 27; mkMapping 0x04C0 0x04CF 1 1; mkMapping 0x04C1 0x04C2 2 7; mkMapping 0x04D0 0x04D1 2 44;
  mkMapping 0x0531 0x0561 1 38; mkMapping 0x10A0 0x2D00 1 38; mkMapping 0x1E00 0x1E01 2 75; mkMapping 0x1E9E 0x00DF 1 1;
  mkMapping 0x1EA0 0x1EA1 2 48; mkMapping 0x1F08 0x1F00 1 8; mkMapping 0x1F18 0x1F10 1 6; mkMapping 0x1F28 0x1F20 1 8;
  mkMapping 0x1F38 0x1F30 1 8; mkMapping 0x1F48 0x1F40 1 6; mkMapping 0x1F59 0x1F51 2 4; mkMapping 0x1F68 0x1F60 1 8;
  mkMapping 0x1F88 0x1F80 1 8; mkMapping 0x1F98 0x1F90 1 8; mkMapping 0x1FA8 0x1FA0 1 8; mkMapping 0x1FB8 0x1FB0 1 2;
  mkMapping 0x1FBA 0x1F70 1 2; mkMapping 0x1FBC 0x1FB3 1 1; mkMapping 0x1FC8 0x1F72 1 4; mkMapping 0x1FCC 0x1FC3 1 1;
  mkMapping 0x1FD8 0x1FD0 1 2; mkMapping 0x1FDA 0x1F76 1 2; mkMapping 0x1FE8 0x1FE0 1 2; mkMapping 0x1FEA 0x1F7A 1 2;
  mkMapping 0x1FEC 0x1FE5 1 1; mkMapping 0x1FF8 0x1F78 1 2; mkMapping 0x1FFA 0x1F7C 1 2; mkMapping 0x1FFC 0x1FF3 1 1;
  mkMapping 0x2126 0x03C9 1 1; mkMapping 0x212A 0x006B 1 1; mkMapping 0x212B 0x00E5 1 1; mkMapping 0x2132 0x214E 1 1;
  mkMapping 0x2160 0x2170 1 16; mkMapping 0x2183 0x2184 1 1; mkMapping 0x24B6 0x24D0 1 26; mkMapping 0x2C00 0x2C30 1 47;
  mkMapping 0x2C60 0x2C61 1 1; mkMapping 0x2C62 0x026B 1 1; mkMapping 0x2C63 0x1D7D 1 1; mkMapping 0x2C64 0x027D 1 1;
  mkMapping 0x2C67 0x2C68 2 3; mkMapping 0x2C6D 0x0251 1 1; mkMapping 0x2C6E 0x0271 1 1; mkMapping 0x2C6F 0x0250 1 1;
  mkMapping 0x2C70 0x0252 1 1; mkMapping 0x2C72 0x2C73 1 1; mkMapping 0x2C75 0x2C76 1 1; mkMapping 0x2C7E 0x023F 1 2;
  mkMapping 0x2C80 0x2C81 2 50; mkMapping 0x2CEB 0x2CEC 2 2].

(** The condition and result of the loop in [lookup] *)
Definition mapping_covers (ch : Z) (p : Mapping) : bool :=
  (m_input p <=? ch) && (ch <? u32 (m_input p + m_offset p * m_count p)) && (Z.land (u32 (ch - m_input p)) (m_offset p - 1) =? 0).
Fixpoint lookup_case (ch : Z) (tab : list Mapping) : Z :=
  match tab with
  | p :: tab' => if mapping_covers ch p then u32 (ch + m_output p - m_input p) else lookup_case ch tab'
  | [] => ch
  end.
Definition getUpperCase (ch : Z) : Z := lookup_case ch UPPERCASE_TABLE.
Definition getLowerCase (ch : Z) : Z := lookup_case ch LOWERCASE_TABLE.

(** ** AsciiTransliterator *)

Definition MAX_CHARS : nat := 4.
Record Element := mkElement { e_code : Z; e_transliteration : list Z }.
Definition E (code a b c d : Z) : Element := mkElement code [a; b; c; d].

Definition TRANSLITERATION_1 : list Element := [
  E 0x00A2 67 47 0 0; E 0x00A3 80 83 0 0; E 0x00A4 36 63 0 0; E 0x00A5 89 61 0 0; E 0x00AA 97 0 0 0; E 0x00AC 33 0 0 0;
  E 0x00B1 43 45 0 0; E 0x00B2 50 0 0 0; E 0x00B3 51 0 0 0; E 0x00B5 117 0 0 0; E 0x00B9 49 0 0 0; E 0x00BA 111 0 0 0;
  E 0x00BC 49 47 52 0; E 0x00BD 49 47 50 0; E 0x00BE 51 47 52 0; E 0x00C0 65 0 0 0; E 0x00C1 65 0 0 0; E 0x00C2 65 0 0 0;
  E 0x00C3 65 0 0 0; E 0x00C4 65 0 0 0; E 0x00C5 65 0 0 0; E 0x00C6 65 69 0 0; E 0x00C7 67 0 0 0; E 0x00C8 69 0 0 0;
  E 0x00C9 69 0 0 0; E 0x00CA 69 0 0 0; E 0x00CB 69 0 0 0; E 0x00CC 73 0 0 0; E 0x00CD 73 0 0 0; E 0x00CE 73 0 0 0;
  E 0x00CF 73 0 0 0; E 0x00D0 68 0 0 0; E 0x00D1 78 0 0 0; E 0x00D2 79 0 0 0; E 0x00D3 79 0 0 0; E 0x00D4 79 0 0 0;
  E 0x00D5 79 0 0 0; E 0x00D6 79 0 0 0; E 0x00D7 120 0 0 0; E 0x00D8 79 0 0 0; E 0x00D9 85 0 0 0; E 0x00DA 85 0 0 0;
  E 0x00DB 85 0 0 0; E 0x00DC 85 0 0 0; E 0x00DD 89 0 0 0; E 0x00DE 84 104 0 0; E 0x00DF 115 115 0 0; E 0x00E0 97 0 0 0;
  E 0x00E1 97 0 0 0; E 0x00E2 97 0 0 0; E 0x00E3 97 0 0 0; E 0x00E4 97 0 0 0; E 0x00E5 97 0 0 0; E 0x00E6 97 101 0 0;
  E 0x00E7 99 0 0 0; E 0x00E8 101 0 0 0; E 0x00E9 101 0 0 0; E 0x00EA 101 0 0 0; E 0x00EB 101 0 0 0; E 0x00EC 105 0 0 0;
  E 0x00ED 105 0 0 0; E 0x00EE 105 0 0 0; E 0x00EF 105 0 0 0; E 0x00F0 100 0 0 0; E 0x00F1 110 0 0 0; E 0x00F2 111 0 0 0;
  E 0x00F3 111 0 0 0; E 0x00F4 111 0 0 0; E 0x00F5 111 0 0 0; E 0x00F6 111 0 0 0; E 0x00F7 47 0 0 0; E 0x00F8 111 0 0 0;
  E 0x00F9 117 0 0 0; E 0x00FA 117 0 0 0; E 0x00FB 117 0 0 0; E 0x00FC 117 0 0 0; E 0x00FD 121 0 0 0; E 0x00FE 116 104 0 0;
  E 0x00FF 121 0 0 0; E 0x0100 65 0 0 0; E 0x0101 97 0 0 0; E 0x0102 65 0 0 0; E 0x0103 97 0 0 0; E 0x0104 65 0 0 0;
  E 0x0105 97 0 0 0; E 0x0106 67 0 0 0; E 0x0107 99 0 0 0; E 0x0108 67 0 0 0; E 0x0109 99 0 0 0; E 0x010A 67 0 0 0;
  E 0x010B 99 0 0 0; E 0x010C 67 0 0 0; E 0x010D 99 0 0 0; E 0x010E 68 0 0 0; E 0x010F 100 0 0 0; E 0x0110 68 0 0 0;
  E 0x0111 100 0 0 0; E 0x0112 69 0 0 0; E 0x0113 101 0 0 0; E 0x0114 69 0 0 0; E 0x0115 101 0 0 0; E 0x0116 69 0 0 0;
  E 0x0117 101 0 0 0; E 0x0118 69 0 0 0; E 0x0119 101 0 0 0; E 0x011A 69 0 0 0; E 0x011B 101 0 0 0; E 0x011C 71 0 0 0;
  E 0x011D 103 0 0 0; E 0x011E 71 0 0 0; E 0x011F 103 0 0 0; E 0x0120 71 0 0 0; E 0x0121 103 0 0 0; E 0x0122 71 0 0 0;
  E 0x0123 103 0 0 0; E 0x0124 72 0 0 0; E 0x0125 104 0 0 0; E 0x0126 72 0 0 0; E 0x0127 104 0 0 0; E 0x0128 73 0 0 0;
  E 0x0129 105 0 0 0; E 0x012A 73 0 0 0; E 0x012B 105 0 0 0; E 0x012C 73 0 0 0; E 0x012D 105 0 0 0; E 0x012E 73 0 0 0;
  E 0x012F 105 0 0 0; E 0x0130 73 0 0 0; E 0x0131 105 0 0 0; E 0x0132 73 74 0 0; E 0x0133 105 106 0 0; E 0x0134 74 0 0 0;
  E 0x0135 106 0 0 0; E 0x0136 75 0 0 0; E 0x0137 107 0 0 0; E 0x0138 107 0 0 0; E 0x0139 76 0 0 0; E 0x013A 108 0 0 0;
  E 0x013B 76 0 0 0; E 0x013C 108 0 0 0].
Definition TRANSLITERATION_2 : list Element := [
  E 0x013D 76 0 0 0; E 0x013E 108 0 0 0; E 0x013F 76 0 0 0; E 0x0140 108 0 0 0; E 0x0141 76 0 0 0; E 0x0142 108 0 0 0;
  E 0x0143 78 0 0 0; E 0x0144 110 0 0 0; E 0x0145 78 0 0 0; E 0x0146 110 0 0 0; E 0x0147 78 0 0 0; E 0x0148 110 0 0 0;
  E 0x0149 39 110 0 0; E 0x014A 110 103 0 0; E 0x014B 78 71 0 0; E 0x014C 79 0 0 0; E 0x014D 111 0 0 0; E 0x014E 79 0 0 0;
  E 0x014F 111 0 0 0; E 0x0150 79 0 0 0; E 0x0151 111 0 0 0; E 0x0152 79 69 0 0; E 0x0153 111 101 0 0; E 0x0154 82 0 0 0;
  E 0x0155 114 0 0 0; E 0x0156 82 0 0 0; E 0x0157 114 0 0 0; E 0x0158 82 0 0 0; E 0x0159 114 0 0 0; E 0x015A 83 0 0 0;
  E 0x015B 115 0 0 0; E 0x015C 83 0 0 0; E 0x015D 115 0 0 0; E 0x015E 83 0 0 0; E 0x015F 115 0 0 0; E 0x0160 83 0 0 0;
  E 0x0161 115 0 0 0; E 0x0162 84 0 0 0; E 0x0163 116 0 0 0; E 0x0164 84 0 0 0; E 0x0165 116 0 0 0; E 0x0166 84 0 0 0;
  E 0x0167 116 0 0 0; E 0x0168 85 0 0 0; E 0x0169 117 0 0 0; E 0x016A 85 0 0 0; E 0x016B 117 0 0 0; E 0x016C 85 0 0 0;
  E 0x016D 117 0 0 0; E 0x016E 85 0 0 0; E 0x016F 117 0 0 0; E 0x0170 85 0 0 0; E 0x0171 117 0 0 0; E 0x0172 85 0 0 0;
  E 0x0173 117 0 0 0; E 0x0174 87 0 0 0; E 0x0175 119 0 0 0; E 0x0176 89 0 0 0; E 0x0177 121 0 0 0; E 0x0178 89 0 0 0;
  E 0x0179 90 0 0 0; E 0x017A 122 0 0 0; E 0x017B 90 0 0 0; E 0x017C 122 0 0 0; E 0x017D 90 0 0 0; E 0x017E 122 0 0 0;
  E 0x017F 115 0 0 0; E 0x0180 98 0 0 0; E 0x0181 66 0 0 0; E 0x0182 66 0 0 0; E 0x0183 98 0 0 0; E 0x0184 54 0 0 0;
  E 0x0185 54 0 0 0; E 0x0186 79 0 0 0; E 0x0187 67 0 0 0; E 0x0188 99 0 0 0; E 0x0189 68 0 0 0; E 0x018A 68 0 0 0;
  E 0x018B 68 0 0 0; E 0x018C 100 0 0 0; E 0x018D 100 0 0 0; E 0x018E 51 0 0 0; E 0x018F 64 0 0 0; E 0x0190 69 0 0 0;
  E 0x0191 70 0 0 0; E 0x0192 102 0 0 0; E 0x0193 71 0 0 0; E 0x0194 71 0 0 0; E 0x0195 104 118 0 0; E 0x0196 73 0 0 0;
  E 0x0197 73 0 0 0; E 0x0198 75 0 0 0; E 0x0199 107 0 0 0; E 0x019A 108 0 0 0; E 0x019B 108 0 0 0; E 0x019C 87 0 0 0;
  E 0x019D 78 0 0 0; E 0x019E 110 0 0 0; E 0x019F 79 0 0 0; E 0x01A0 79 0 0 0; E 0x01A1 111 0 0 0; E 0x01A2 79 73 0 0;
  E 0x01A3 111 105 0 0; E 0x01A4 80 0 0 0; E 0x01A5 112 0 0 0; E 0x01A6 89 82 0 0; E 0x01A7 50 0 0 0; E 0x01A8 50 0 0 0;
  E 0x01A9 83 72 0 0; E 0x01AA 115 104 0 0; E 0x01AB 116 0 0 0; E 0x01AC 84 0 0 0; E 0x01AD 116 0 0 0; E 0x01AE 84 0 0 0;
  E 0x01AF 85 0 0 0; E 0x01B0 117 0 0 0; E 0x01B1 89 0 0 0; E 0x01B2 86 0 0 0; E 0x01B3 89 0 0 0; E 0x01B4 121 0 0 0;
  E 0x01B5 90 0 0 0; E 0x01B6 122 0 0 0; E 0x01B7 90 72 0 0; E 0x01B8 90 72 0 0; E 0x01B9 122 104 0 0; E 0x01BA 122 104 0 0;
  E 0x01BB 50 0 0 0; E 0x01BC 53 0 0 0; E 0x01BD 53 0 0 0; E 0x01BE 116 115 0 0; E 0x01BF 119 0 0 0; E 0x01C0 124 0 0 0;
  E 0x01C1 124 124 0 0; E 0x01C2 124 61 0 0; E 0x01C3 33 0 0 0; E 0x01C4 68 90 0 0; E 0x01C5 68 122 0 0; E 0x01C6 100 122 0 0;
  E 0x01C7 76 74 0 0; E 0x01C8 76 106 0 0].
Definition TRANSLITERATION_3 : list Element := [
  E 0x01C9 108 106 0 0; E 0x01CA 78 74 0 0; E 0x01CB 78 106 0 0; E 0x01CC 110 106 0 0; E 0x01CD 65 0 0 0; E 0x01CE 97 0 0 0;
  E 0x01CF 73 0 0 0; E 0x01D0 105 0 0 0; E 0x01D1 79 0 0 0; E 0x01D2 111 0 0 0; E 0x01D3 85 0 0 0; E 0x01D4 117 0 0 0;
  E 0x01D5 85 0 0 0; E 0x01D6 117 0 0 0; E 0x01D7 85 0 0 0; E 0x01D8 117 0 0 0; E 0x01D9 85 0 0 0; E 0x01DA 117 0 0 0;
  E 0x01DB 85 0 0 0; E 0x01DC 117 0 0 0; E 0x01DD 64 0 0 0; E 0x01DE 65 0 0 0; E 0x01DF 97 0 0 0; E 0x01E0 65 0 0 0;
  E 0x01E1 97 0 0 0; E 0x01E2 65 69 0 0; E 0x01E3 97 101 0 0; E 0x01E4 71 0 0 0; E 0x01E5 103 0 0 0; E 0x01E6 71 0 0 0;
  E 0x01E7 103 0 0 0; E 0x01E8 75 0 0 0; E 0x01E9 107 0 0 0; E 0x01EA 79 0 0 0; E 0x01EB 111 0 0 0; E 0x01EC 79 0 0 0;
  E 0x01ED 111 0 0 0; E 0x01EE 90 72 0 0; E 0x01EF 122 104 0 0; E 0x01F0 106 0 0 0; E 0x01F1 68 90 0 0; E 0x01F2 68 122 0 0;
  E 0x01F3 100 122 0 0; E 0x01F4 71 0 0 0; E 0x01F5 103 0 0 0; E 0x01F6 72 86 0 0; E 0x01F7 87 0 0 0; E 0x01F8 78 0 0 0;
  E 0x01F9 110 0 0 0; E 0x01FA 65 0 0 0; E 0x01FB 97 0 0 0; E 0x01FC 65 69 0 0; E 0x01FD 97 101 0 0; E 0x01FE 79 0 0 0;
  E 0x01FF 111 0 0 0; E 0x0200 65 0 0 0; E 0x0201 97 0 0 0; E 0x0202 65 0 0 0; E 0x0203 97 0 0 0; E 0x0204 69 0 0 0;
  E 0x0205 101 0 0 0; E 0x0206 69 0 0 0; E 0x0207 101 0 0 0; E 0x0208 73 0 0 0; E 0x0209 105 0 0 0; E 0x020A 73 0 0 0;
  E 0x020B 105 0 0 0; E 0x020C 79 0 0 0; E 0x020D 111 0 0 0; E 0x020E 79 0 0 0; E 0x020F 111 0 0 0; E 0x0210 82 0 0 0;
  E 0x0211 114 0 0 0; E 0x0212 82 0 0 0; E 0x0213 114 0 0 0; E 0x0214 85 0 0 0; E 0x0215 117 0 0 0; E 0x0216 85 0 0 0;
  E 0x0217 117 0 0 0; E 0x0218 83 0 0 0; E 0x0219 115 0 0 0; E 0x021A 84 0 0 0; E 0x021B 116 0 0 0; E 0x021C 89 0 0 0;
  E 0x021D 121 0 0 0; E 0x021E 72 0 0 0; E 0x021F 104 0 0 0; E 0x0220 78 0 0 0; E 0x0221 100 0 0 0; E 0x0222 79 85 0 0;
  E 0x0223 111 117 0 0; E 0x0224 90 0 0 0; E 0x0225 122 0 0 0; E 0x0226 65 0 0 0; E 0x0227 97 0 0 0; E 0x0228 69 0 0 0;
  E 0x0229 101 0 0 0; E 0x022A 79 0 0 0; E 0x022B 111 0 0 0; E 0x022C 79 0 0 0; E 0x022D 111 0 0 0; E 0x022E 79 0 0 0;
  E 0x022F 111 0 0 0; E 0x0230 79 0 0 0; E 0x0231 111 0 0 0; E 0x0232 89 0 0 0; E 0x0233 121 0 0 0; E 0x0234 108 0 0 0;
  E 0x0235 110 0 0 0; E 0x0236 116 0 0 0; E 0x0237 106 0 0 0; E 0x0238 100 98 0 0; E 0x0239 113 112 0 0; E 0x023A 65 0 0 0;
  E 0x023B 67 0 0 0; E 0x023C 99 0 0 0; E 0x023D 76 0 0 0; E 0x023E 84 0 0 0; E 0x023F 115 0 0 0; E 0x0240 122 0 0 0;
  E 0x0243 66 0 0 0; E 0x0244 85 0 0 0; E 0x0245 94 0 0 0; E 0x0246 69 0 0 0; E 0x0247 101 0 0 0; E 0x0248 74 0 0 0;
  E 0x0249 106 0 0 0; E 0x024A 113 0 0 0; E 0x024B 113 0 0 0; E 0x024C 82 0 0 0; E 0x024D 114 0 0 0; E 0x024E 89 0 0 0;
  E 0x024F 121 0 0 0; E 0x0250 97 0 0 0; E 0x0251 97 0 0 0; E 0x0252 97 0 0 0; E 0x0253 98 0 0 0; E 0x0254 111 0 0 0;
  E 0x0255 99 0 0 0; E 0x0256 100 0 0 0].
Definition TRANSLITERATION_4 : list Element := [
  E 0x0257 100 0 0 0; E 0x0258 101 0 0 0; E 0x0259 64 0 0 0; E 0x025A 64 0 0 0; E 0x025B 101 0 0 0; E 0x025C 101 0 0 0;
  E 0x025D 101 0 0 0; E 0x025E 101 0 0 0; E 0x025F 106 0 0 0; E 0x0260 103 0 0 0; E 0x0261 103 0 0 0; E 0x0262 103 0 0 0;
  E 0x0263 103 0 0 0; E 0x0264 117 0 0 0; E 0x0265 89 0 0 0; E 0x0266 104 0 0 0; E 0x0267 104 0 0 0; E 0x0268 105 0 0 0;
  E 0x0269 105 0 0 0; E 0x026A 73 0 0 0; E 0x026B 108 0 0 0; E 0x026C 108 0 0 0; E 0x026D 108 0 0 0; E 0x026E 108 90 0 0;
  E 0x026F 87 0 0 0; E 0x0270 87 0 0 0; E 0x0271 109 0 0 0; E 0x0272 110 0 0 0; E 0x0273 110 0 0 0; E 0x0274 110 0 0 0;
  E 0x0275 111 0 0 0; E 0x0276 79 69 0 0; E 0x0277 79 0 0 0; E 0x0278 70 0 0 0; E 0x0279 114 0 0 0; E 0x027A 114 0 0 0;
  E 0x027B 114 0 0 0; E 0x027C 114 0 0 0; E 0x027D 114 0 0 0; E 0x027E 114 0 0 0; E 0x027F 114 0 0 0; E 0x0280 82 0 0 0;
  E 0x0281 82 0 0 0; E 0x0282 115 0 0 0; E 0x0283 83 0 0 0; E 0x0284 106 0 0 0; E 0x0285 83 0 0 0; E 0x0286 83 0 0 0;
  E 0x0287 116 0 0 0; E 0x0288 116 0 0 0; E 0x0289 117 0 0 0; E 0x028A 85 0 0 0; E 0x028B 118 0 0 0; E 0x028C 94 0 0 0;
  E 0x028D 119 0 0 0; E 0x028E 121 0 0 0; E 0x028F 89 0 0 0; E 0x0290 122 0 0 0; E 0x0291 122 0 0 0; E 0x0292 90 0 0 0;
  E 0x0293 90 0 0 0; E 0x0294 63 0 0 0; E 0x0295 63 0 0 0; E 0x0296 63 0 0 0; E 0x0297 67 0 0 0; E 0x0298 64 0 0 0;
  E 0x0299 66 0 0 0; E 0x029A 69 0 0 0; E 0x029B 71 0 0 0; E 0x029C 72 0 0 0; E 0x029D 106 0 0 0; E 0x029E 107 0 0 0;
  E 0x029F 76 0 0 0; E 0x02A0 113 0 0 0; E 0x02A1 63 0 0 0; E 0x02A2 63 0 0 0; E 0x02A3 100 122 0 0; E 0x02A4 100 90 0 0;
  E 0x02A5 100 122 0 0; E 0x02A6 116 115 0 0; E 0x02A7 116 83 0 0; E 0x02A8 116 67 0 0; E 0x02A9 102 78 0 0; E 0x02AA 108 115 0 0;
  E 0x02AB 108 122 0 0; E 0x02AC 87 87 0 0; E 0x02AD 93 93 0 0; E 0x02AE 104 0 0 0; E 0x02AF 104 0 0 0; E 0x02B0 107 0 0 0;
  E 0x02B1 104 0 0 0; E 0x02B2 106 0 0 0; E 0x02B3 114 0 0 0; E 0x02B4 114 0 0 0; E 0x02B5 114 0 0 0; E 0x02B6 114 0 0 0;
  E 0x02B7 119 0 0 0; E 0x02B8 121 0 0 0; E 0x02B9 39 0 0 0; E 0x02BA 92 34 0 0; E 0x02BB 96 0 0 0; E 0x02BC 39 0 0 0;
  E 0x02BD 96 0 0 0; E 0x02BE 96 0 0 0; E 0x02BF 39 0 0 0; E 0x02C0 63 0 0 0; E 0x02C1 63 0 0 0; E 0x02C6 94 0 0 0;
  E 0x02C7 86 0 0 0; E 0x02C8 39 0 0 0; E 0x02C9 45 0 0 0; E 0x02CA 47 0 0 0; E 0x02CB 92 0 0 0; E 0x02CC 44 0 0 0;
  E 0x02CD 95 0 0 0; E 0x02CE 92 0 0 0; E 0x02CF 47 0 0 0; E 0x02D0 58 0 0 0; E 0x02D1 46 0 0 0; E 0x02E0 71 0 0 0;
  E 0x02E1 108 0 0 0; E 0x02E2 115 0 0 0; E 0x02E3 120 0 0 0; E 0x02E4 63 0 0 0; E 0x02EC 86 0 0 0; E 0x02EE 92 34 0 0;
  E 0x0374 39 0 0 0; E 0x0386 65 0 0 0; E 0x0388 69 0 0 0; E 0x0389 69 0 0 0; E 0x038A 73 0 0 0; E 0x038C 79 0 0 0;
  E 0x038E 85 0 0 0; E 0x038F 79 0 0 0; E 0x0390 73 0 0 0; E 0x0391 65 0 0 0; E 0x0392 66 0 0 0; E 0x0393 71 0 0 0;
  E 0x0394 68 0 0 0; E 0x0395 69 0 0 0].
Definition TRANSLITERATION_5 : list Element := [
  E 0x0396 90 0 0 0; E 0x0397 69 0 0 0; E 0x0398 84 104 0 0; E 0x0399 73 0 0 0; E 0x039A 75 0 0 0; E 0x039B 76 0 0 0;
  E 0x039C 77 0 0 0; E 0x039D 78 0 0 0; E 0x039E 75 115 0 0; E 0x039F 79 0 0 0; E 0x03A0 80 0 0 0; E 0x03A1 82 0 0 0;
  E 0x03A3 83 0 0 0; E 0x03A4 84 0 0 0; E 0x03A5 85 0 0 0; E 0x03A6 80 104 0 0; E 0x03A7 75 104 0 0; E 0x03A8 80 115 0 0;
  E 0x03A9 79 0 0 0; E 0x03AA 73 0 0 0; E 0x03AB 85 0 0 0; E 0x03AC 97 0 0 0; E 0x03AD 101 0 0 0; E 0x03AE 101 0 0 0;
  E 0x03AF 105 0 0 0; E 0x03B0 117 0 0 0; E 0x03B1 97 0 0 0; E 0x03B2 98 0 0 0; E 0x03B3 103 0 0 0; E 0x03B4 100 0 0 0;
  E 0x03B5 101 0 0 0; E 0x03B6 122 0 0 0; E 0x03B7 101 0 0 0; E 0x03B8 116 104 0 0; E 0x03B9 105 0 0 0; E 0x03BA 107 0 0 0;
  E 0x03BB 108 0 0 0; E 0x03BC 109 0 0 0; E 0x03BD 110 0 0 0; E 0x03BE 120 0 0 0; E 0x03BF 111 0 0 0; E 0x03C0 112 0 0 0;
  E 0x03C1 114 0 0 0; E 0x03C2 115 0 0 0; E 0x03C3 115 0 0 0; E 0x03C4 116 0 0 0; E 0x03C5 117 0 0 0; E 0x03C6 112 104 0 0;
  E 0x03C7 107 104 0 0; E 0x03C8 112 115 0 0; E 0x03C9 111 0 0 0; E 0x03CA 105 0 0 0; E 0x03CB 117 0 0 0; E 0x03CC 111 0 0 0;
  E 0x03CD 117 0 0 0; E 0x03CE 111 0 0 0; E 0x03D0 98 0 0 0; E 0x03D1 116 104 0 0; E 0x03D2 85 0 0 0; E 0x03D3 85 0 0 0;
  E 0x03D4 85 0 0 0; E 0x03D5 112 104 0 0; E 0x03D6 112 0 0 0; E 0x03D7 38 0 0 0; E 0x03DA 83 116 0 0; E 0x03DB 115 116 0 0;
  E 0x03DC 87 0 0 0; E 0x03DD 119 0 0 0; E 0x03DE 81 0 0 0; E 0x03DF 113 0 0 0; E 0x03E0 83 112 0 0; E 0x03E1 115 112 0 0;
  E 0x03E2 83 104 0 0; E 0x03E3 115 104 0 0; E 0x03E4 70 0 0 0; E 0x03E5 102 0 0 0; E 0x03E6 75 104 0 0; E 0x03E7 107 104 0 0;
  E 0x03E8 72 0 0 0; E 0x03E9 104 0 0 0; E 0x03EA 71 0 0 0; E 0x03EB 103 0 0 0; E 0x03EC 67 72 0 0; E 0x03ED 99 104 0 0;
  E 0x03EE 84 105 0 0; E 0x03EF 116 105 0 0; E 0x03F0 107 0 0 0; E 0x03F1 114 0 0 0; E 0x03F2 99 0 0 0; E 0x03F3 106 0 0 0;
  E 0x0400 73 101 0 0; E 0x0401 73 111 0 0; E 0x0402 68 106 0 0; E 0x0403 71 106 0 0; E 0x0404 73 101 0 0; E 0x0405 68 122 0 0;
  E 0x0406 73 0 0 0; E 0x0407 89 105 0 0; E 0x0408 74 0 0 0; E 0x0409 76 106 0 0; E 0x040A 78 106 0 0; E 0x040B 84 115 104 0;
  E 0x040C 75 106 0 0; E 0x040D 73 0 0 0; E 0x040E 85 0 0 0; E 0x040F 68 122 104 0; E 0x0410 65 0 0 0; E 0x0411 66 0 0 0;
  E 0x0412 86 0 0 0; E 0x0413 71 0 0 0; E 0x0414 68 0 0 0; E 0x0415 69 0 0 0; E 0x0416 90 104 0 0; E 0x0417 90 0 0 0;
  E 0x0418 73 0 0 0; E 0x0419 73 0 0 0; E 0x041A 75 0 0 0; E 0x041B 76 0 0 0; E 0x041C 77 0 0 0; E 0x041D 78 0 0 0;
  E 0x041E 79 0 0 0; E 0x041F 80 0 0 0; E 0x0420 82 0 0 0; E 0x0421 83 0 0 0; E 0x0422 84 0 0 0; E 0x0423 85 0 0 0;
  E 0x0424 70 0 0 0; E 0x0425 75 104 0 0; E 0x0426 84 115 0 0; E 0x0427 67 104 0 0; E 0x0428 83 104 0 0; E 0x0429 83 104 99 104;
  E 0x042A 39 0 0 0; E 0x042B 89 0 0 0; E 0x042C 39 0 0 0; E 0x042D 69 0 0 0; E 0x042E 73 117 0 0; E 0x042F 73 97 0 0;
  E 0x0430 97 0 0 0; E 0x0431 98 0 0 0].
Definition TRANSLITERATION_6 : list Element := [
  E 0x0432 118 0 0 0; E 0x0433 103 0 0 0; E 0x0434 100 0 0 0; E 0x0435 101 0 0 0; E 0x0436 122 104 0 0; E 0x0437 122 0 0 0;
  E 0x0438 105 0 0 0; E 0x0439 105 0 0 0; E 0x043A 107 0 0 0; E 0x043B 108 0 0 0; E 0x043C 109 0 0 0; E 0x043D 110 0 0 0;
  E 0x043E 111 0 0 0; E 0x043F 112 0 0 0; E 0x0440 114 0 0 0; E 0x0441 115 0 0 0; E 0x0442 116 0 0 0; E 0x0443 117 0 0 0;
  E 0x0444 102 0 0 0; E 0x0445 107 104 0 0; E 0x0446 116 115 0 0; E 0x0447 99 104 0 0; E 0x0448 115 104 0 0; E 0x0449 115 104 99 104;
  E 0x044A 39 0 0 0; E 0x044B 121 0 0 0; E 0x044C 39 0 0 0; E 0x044D 101 0 0 0; E 0x044E 105 117 0 0; E 0x044F 105 97 0 0;
  E 0x0450 105 101 0 0; E 0x0451 105 111 0 0; E 0x0452 100 106 0 0; E 0x0453 103 106 0 0; E 0x0454 105 101 0 0; E 0x0455 100 122 0 0;
  E 0x0456 105 0 0 0; E 0x0457 121 105 0 0; E 0x0458 106 0 0 0; E 0x0459 108 106 0 0; E 0x045A 110 106 0 0; E 0x045B 116 115 104 0;
  E 0x045C 107 106 0 0; E 0x045D 105 0 0 0; E 0x045E 117 0 0 0; E 0x045F 100 122 104 0; E 0x0460 79 0 0 0; E 0x0461 111 0 0 0;
  E 0x0462 69 0 0 0; E 0x0463 101 0 0 0; E 0x0464 73 101 0 0; E 0x0465 105 101 0 0; E 0x0466 69 0 0 0; E 0x0467 101 0 0 0;
  E 0x0468 73 101 0 0; E 0x0469 105 101 0 0; E 0x046A 79 0 0 0; E 0x046B 111 0 0 0; E 0x046C 73 111 0 0; E 0x046D 105 111 0 0;
  E 0x046E 75 115 0 0; E 0x046F 107 115 0 0; E 0x0470 80 115 0 0; E 0x0471 112 115 0 0; E 0x0472 70 0 0 0; E 0x0473 102 0 0 0;
  E 0x0474 89 0 0 0; E 0x0475 121 0 0 0; E 0x0476 89 0 0 0; E 0x0477 121 0 0 0; E 0x0478 117 0 0 0; E 0x0479 117 0 0 0;
  E 0x047A 79 0 0 0; E 0x047B 111 0 0 0; E 0x047C 79 0 0 0; E 0x047D 111 0 0 0; E 0x047E 79 116 0 0; E 0x047F 111 116 0 0;
  E 0x0480 81 0 0 0; E 0x0481 113 0 0 0; E 0x048C 92 34 0 0; E 0x048D 92 34 0 0; E 0x048E 82 39 0 0; E 0x048F 114 39 0 0;
  E 0x0490 71 39 0 0; E 0x0491 103 39 0 0; E 0x0492 71 39 0 0; E 0x0493 103 39 0 0; E 0x0494 71 39 0 0; E 0x0495 103 39 0 0;
  E 0x0496 90 104 39 0; E 0x0497 122 104 39 0; E 0x0498 90 39 0 0; E 0x0499 122 39 0 0; E 0x049A 75 39 0 0; E 0x049B 107 39 0 0;
  E 0x049C 75 39 0 0; E 0x049D 107 39 0 0; E 0x049E 75 39 0 0; E 0x049F 107 39 0 0; E 0x04A0 75 39 0 0; E 0x04A1 107 39 0 0;
  E 0x04A2 78 39 0 0; E 0x04A3 110 39 0 0; E 0x04A4 78 103 0 0; E 0x04A5 110 103 0 0; E 0x04A6 80 39 0 0; E 0x04A7 112 39 0 0;
  E 0x04A8 75 104 0 0; E 0x04A9 107 104 0 0; E 0x04AA 83 39 0 0; E 0x04AB 115 39 0 0; E 0x04AC 84 39 0 0; E 0x04AD 116 39 0 0;
  E 0x04AE 85 0 0 0; E 0x04AF 117 0 0 0; E 0x04B0 85 39 0 0; E 0x04B1 117 39 0 0; E 0x04B2 75 104 39 0; E 0x04B3 107 104 39 0;
  E 0x04B4 84 116 115 0; E 0x04B5 116 116 115 0; E 0x04B6 67 104 39 0; E 0x04B7 99 104 39 0; E 0x04B8 67 104 39 0; E 0x04B9 99 104 39 0;
  E 0x04BA 72 0 0 0; E 0x04BB 104 0 0 0; E 0x04BC 67 104 0 0; E 0x04BD 99 104 0 0; E 0x04BE 67 104 39 0; E 0x04BF 99 104 39 0;
  E 0x04C0 96 0 0 0; E 0x04C1 90 104 0 0; E 0x04C2 122 104 0 0; E 0x04C3 75 39 0 0; E 0x04C4 107 39 0 0; E 0x04C7 78 39 0 0;
  E 0x04C8 110 39 0 0; E 0x04CB 67 104 0 0].
Definition TRANSLITERATION_7 : list Element := [
  E 0x04CC 99 104 0 0; E 0x04D0 97 0 0 0; E 0x04D1 97 0 0 0; E 0x04D2 65 0 0 0; E 0x04D3 97 0 0 0; E 0x04D4 65 101 0 0;
  E 0x04D5 97 101 0 0; E 0x04D6 73 101 0 0; E 0x04D7 105 101 0 0; E 0x04D8 64 0 0 0; E 0x04D9 64 0 0 0; E 0x04DA 64 0 0 0;
  E 0x04DB 64 0 0 0; E 0x04DC 90 104 0 0; E 0x04DD 122 104 0 0; E 0x04DE 90 0 0 0; E 0x04DF 122 0 0 0; E 0x04E0 68 122 0 0;
  E 0x04E1 100 122 0 0; E 0x04E2 73 0 0 0; E 0x04E3 105 0 0 0; E 0x04E4 73 0 0 0; E 0x04E5 105 0 0 0; E 0x04E6 79 0 0 0;
  E 0x04E7 111 0 0 0; E 0x04E8 79 0 0 0; E 0x04E9 111 0 0 0; E 0x04EA 79 0 0 0; E 0x04EB 111 0 0 0; E 0x04EC 69 0 0 0;
  E 0x04ED 101 0 0 0; E 0x04EE 85 0 0 0; E 0x04EF 117 0 0 0; E 0x04F0 85 0 0 0; E 0x04F1 117 0 0 0; E 0x04F2 85 0 0 0;
  E 0x04F3 117 0 0 0; E 0x04F4 67 104 0 0; E 0x04F5 99 104 0 0; E 0x04F8 89 0 0 0; E 0x04F9 121 0 0 0; E 0x0531 65 0 0 0;
  E 0x0532 66 0 0 0; E 0x0533 71 0 0 0; E 0x0534 68 0 0 0; E 0x0535 69 0 0 0; E 0x0536 90 0 0 0; E 0x0537 69 0 0 0;
  E 0x0538 69 0 0 0; E 0x0539 84 96 0 0; E 0x053A 90 104 0 0; E 0x053B 73 0 0 0; E 0x053C 76 0 0 0; E 0x053D 75 104 0 0;
  E 0x053E 84 115 0 0; E 0x053F 75 0 0 0; E 0x0540 72 0 0 0; E 0x0541 68 122 0 0; E 0x0542 71 104 0 0; E 0x0543 67 104 0 0;
  E 0x0544 77 0 0 0; E 0x0545 89 0 0 0; E 0x0546 78 0 0 0; E 0x0547 83 104 0 0; E 0x0548 79 0 0 0; E 0x0549 67 104 96 0;
  E 0x054A 80 0 0 0; E 0x054B 74 0 0 0; E 0x054C 82 104 0 0; E 0x054D 83 0 0 0; E 0x054E 86 0 0 0; E 0x054F 84 0 0 0;
  E 0x0550 82 0 0 0; E 0x0551 84 115 96 0; E 0x0552 87 0 0 0; E 0x0553 80 96 0 0; E 0x0554 75 96 0 0; E 0x0555 79 0 0 0;
  E 0x0556 70 0 0 0; E 0x0559 60 0 0 0; E 0x0561 97 0 0 0; E 0x0562 98 0 0 0; E 0x0563 103 0 0 0; E 0x0564 100 0 0 0;
  E 0x0565 101 0 0 0; E 0x0566 122 0 0 0; E 0x0567 101 0 0 0; E 0x0568 101 0 0 0; E 0x0569 116 96 0 0; E 0x056A 122 104 0 0;
  E 0x056B 105 0 0 0; E 0x056C 108 0 0 0; E 0x056D 107 104 0 0; E 0x056E 116 115 0 0; E 0x056F 107 0 0 0; E 0x0570 104 0 0 0;
  E 0x0571 100 122 0 0; E 0x0572 103 104 0 0; E 0x0573 99 104 0 0; E 0x0574 109 0 0 0; E 0x0575 121 0 0 0; E 0x0576 110 0 0 0;
  E 0x0577 115 104 0 0; E 0x0578 111 0 0 0; E 0x0579 99 104 96 0; E 0x057A 112 0 0 0; E 0x057B 106 0 0 0; E 0x057C 114 104 0 0;
  E 0x057D 115 0 0 0; E 0x057E 118 0 0 0; E 0x057F 116 0 0 0; E 0x0580 114 0 0 0; E 0x0581 116 115 96 0; E 0x0582 119 0 0 0;
  E 0x0583 112 96 0 0; E 0x0584 107 96 0 0; E 0x0585 111 0 0 0; E 0x0586 102 0 0 0; E 0x0587 101 119 0 0; E 0x05D1 98 0 0 0;
  E 0x05D2 103 0 0 0; E 0x05D3 100 0 0 0; E 0x05D4 104 0 0 0; E 0x05D5 118 0 0 0; E 0x05D6 122 0 0 0; E 0x05D7 107 104 0 0;
  E 0x05D8 116 0 0 0; E 0x05D9 121 0 0 0; E 0x05DA 107 0 0 0; E 0x05DB 107 0 0 0; E 0x05DC 108 0 0 0; E 0x05DD 109 0 0 0;
  E 0x05DE 109 0 0 0; E 0x05DF 110 0 0 0; E 0x05E0 110 0 0 0; E 0x05E1 115 0 0 0; E 0x05E2 96 0 0 0; E 0x05E3 112 0 0 0;
  E 0x05E4 112 0 0 0; E 0x05E5 116 115 0 0].
Definition TRANSLITERATION_8 : list Element := [
  E 0x05E6 116 115 0 0; E 0x05E7 113 0 0 0; E 0x05E8 114 0 0 0; E 0x05E9 115 104 0 0; E 0x05EA 116 0 0 0; E 0x05F0 86 0 0 0;
  E 0x05F1 111 121 0 0; E 0x05F2 105 0 0 0; E 0x2044 47 0 0 0; E 0x2070 48 0 0 0; E 0x2074 52 0 0 0; E 0x2075 53 0 0 0;
  E 0x2076 54 0 0 0; E 0x2077 55 0 0 0; E 0x2078 56 0 0 0; E 0x2079 57 0 0 0; E 0x207A 43 0 0 0; E 0x207B 45 0 0 0;
  E 0x207C 61 0 0 0; E 0x207F 110 0 0 0; E 0x2080 48 0 0 0; E 0x2081 49 0 0 0; E 0x2082 50 0 0 0; E 0x2083 51 0 0 0;
  E 0x2084 52 0 0 0; E 0x2085 53 0 0 0; E 0x2086 54 0 0 0; E 0x2087 55 0 0 0; E 0x2088 56 0 0 0; E 0x2089 57 0 0 0;
  E 0x208A 43 0 0 0; E 0x208B 45 0 0 0; E 0x208C 61 0 0 0; E 0x20A0 69 67 85 0; E 0x20A1 67 76 0 0; E 0x20A2 67 114 0 0;
  E 0x20A3 70 70 0 0; E 0x20A4 76 0 0 0; E 0x20A5 109 105 108 0; E 0x20A6 78 0 0 0; E 0x20A7 80 116 115 0; E 0x20A8 82 115 0 0;
  E 0x20A9 87 0 0 0; E 0x20AA 78 83 0 0; E 0x20AB 68 0 0 0; E 0x20AC 69 85 0 0; E 0x20AD 75 0 0 0; E 0x20AE 84 0 0 0;
  E 0x20AF 68 114 0 0; E 0x212A 75 0 0 0; E 0x212B 65 0 0 0; E 0x2132 70 0 0 0; E 0x214E 70 0 0 0; E 0x2153 49 47 51 0;
  E 0x2154 50 47 51 0; E 0x2155 49 47 53 0; E 0x2156 50 47 53 0; E 0x2157 51 47 53 0; E 0x2158 52 47 53 0; E 0x2159 49 47 54 0;
  E 0x215A 53 47 54 0; E 0x215B 49 47 56 0; E 0x215C 51 47 56 0; E 0x215D 53 47 56 0; E 0x215E 55 47 56 0; E 0x215F 49 47 0 0;
  E 0x2183 41 0 0 0; E 0x2190 45 0 0 0; E 0x2191 124 0 0 0; E 0x2192 45 0 0 0; E 0x2193 124 0 0 0; E 0x2194 45 0 0 0;
  E 0x219A 45 0 0 0; E 0x219B 45 0 0 0; E 0x21A0 45 0 0 0; E 0x21A3 45 0 0 0; E 0x21A6 45 0 0 0; E 0x21AE 45 0 0 0;
  E 0x21CE 61 0 0 0; E 0x21CF 61 0 0 0; E 0x21D2 61 0 0 0; E 0x21D4 61 0 0 0; E 0x2260 33 61 0 0; E 0x2264 60 61 0 0;
  E 0x2265 62 61 0 0; E 0x24EA 48 0 0 0; E 0x25B7 62 0 0 0; E 0x25C1 60 0 0 0].
Definition TRANSLITERATION : list Element := TRANSLITERATION_1 ++ TRANSLITERATION_2 ++ TRANSLITERATION_3 ++ TRANSLITERATION_4 ++ TRANSLITERATION_5 ++ TRANSLITERATION_6 ++ TRANSLITERATION_7 ++ TRANSLITERATION_8.

(** [while (data.size() > 3)]: every round halves the data *)
Fixpoint bisect (fuel : nat) (ch : Z) (data : list Element) : list Element :=
  match fuel with
  | O => data
  | S fuel' =>
      if (3 <? length data)%nat
      then
        let mid := (length data / 2)%nat in
        match data !! mid with
        | Some ele => bisect fuel' ch (if ch <? e_code ele then take mid data else drop mid data)
        | None => data
        end
      else data
  end.
Fixpoint find_code (ch : Z) (data : list Element) : option Element :=
  match data with
  | ele :: data' => if e_code ele =? ch then Some ele else find_code ch data'
  | [] => None
  end.
Definition findTransliteration (ch : Z) (data : list Element) : option Element := find_code ch (bisect (length data) ch data).

(** [for (i = 0; i < MAX_CHARS && transliteration[i] != 0; ++i)] *)
Fixpoint until_zero (n : nat) (l : list Z) : list Z :=
  match n, l with
  | S n', c :: l' => if c =? 0 then [] else c :: until_zero n' l'
  | _, _ => []
  end.
Definition transliterate (ch : Z) : list Z :=
  if (ch =? 0) || isErrorCharacter ch then []
  else if ch <=? 0x7F then [ch]
  else match findTransliteration ch TRANSLITERATION with
       | Some ele => until_zero MAX_CHARS (e_transliteration ele)
       | None => []
       end.
Fixpoint ascii_decode_loop (fuel : nat) (reader : list Z) (result : list Z) : list Z :=
  match fuel with
  | O => result
  | S fuel' =>
      if hasMore reader
      then let '(ch, reader) := eat 0 reader in ascii_decode_loop fuel' reader (result ++ transliterate ch)
      else result
  end.
Definition AsciiTransliterator_decode (inp : list Z) : list Z := ascii_decode_loop (length inp) inp [].
Definition AsciiTransliterator_encode (inp : list Z) : list Z := inp.

(** ** DefaultCharsetFactory *)

(** [while ((n = name.find('-')) != npos) name.erase(n, 1)] *)
Fixpoint remove_dashes (fuel : nat) (name : list Z) : list Z :=
  match fuel with
  | O => name
  | S fuel' => match find name [45] with Some n => remove_dashes fuel' (take n name ++ drop (n + 1) name) | None => name end
  end.
Inductive AnyCharset := ACodepage (cp : Codepage) | AUtf8.
Definition is_named (name : list Z) (s : string) : bool := strCaseCompare name (lit s) =? 0.
Definition createCharset (name : list Z) : option AnyCharset :=
  let name := remove_dashes (length name) name in
  if is_named name "cp1250" || is_named name "windows1250" then Some (ACodepage g_codepage1250)
  else if is_named name "cp1251" || is_named name "windows1251" then Some (ACodepage g_codepage1251)
  else if is_named name "cp1252" || is_named name "windows1252" then Some (ACodepage g_codepage1252)
  else if is_named name "cp437" || is_named name "ibm437" then Some (ACodepage g_codepage437)
  else if is_named name "cp850" || is_named name "ibm850" then Some (ACodepage g_codepage850)
  else if is_named name "cp852" || is_named name "ibm852" then Some (ACodepage g_codepage852)
  else if is_named name "cp866" || is_named name "ibm866" then Some (ACodepage g_codepage866)
  else if is_named name "koi8r" then Some (ACodepage g_codepageKOI8R)
  else if is_named name "latin1" || is_named name "iso88591" || is_named name "ansi" then Some (ACodepage g_codepageLatin1)
  else if is_named name "latin2" || is_named name "iso88592" then Some (ACodepage g_codepageLatin2)
  else if is_named name "utf8" then Some AUtf8
  else None.

Example unicode_ex : getUpperCase 0xE4 = 0xC4 /\ getLowerCase 0x416 = 0x436 /\ AsciiTransliterator_decode [0x47; 0xC3; 0xBC; 0xE2; 0x82; 0xAC] = lit "GuEU" /\
  createCharset (lit "ISO-8859-1") = Some (ACodepage g_codepageLatin1).
Proof. by vm_compute. Qed.


(** ** Lemmas: case mapping *)

Definition CASE_LIMIT : Z := 0x3000.
(** Lower case after upper case differs from lower case for these only: letters with
    a second lower case form, such as the final sigma ... *)
Definition extra_lower : list Z := [0xB5; 0x131; 0x17F; 0x345; 0x3C2; 0x3D0; 0x3D1; 0x3D5; 0x3D6; 0x3F0; 0x3F1; 0x3F5; 0x1E9B; 0x1FBE].
(** ... and these have a second upper case form, such as the Kelvin sign. *)
Definition extra_upper : list Z := [0x130; 0x3F4; 0x1E9E; 0x2126; 0x212A; 0x212B].
Definition mapping_small (p : Mapping) : bool :=
  (0 <=? m_input p) && (0 <=? m_output p) && (0 <=? m_offset p * m_count p) && (m_input p + m_offset p * m_count p <=? CASE_LIMIT) && (m_output p + m_offset p * m_count p <=? CASE_LIMIT).
Lemma mapping_small_spec p : mapping_small p = true ->
  0 <= m_input p /\ 0 <= m_output p /\ 0 <= m_offset p * m_count p /\ m_input p + m_offset p * m_count p <= 0x3000 /\ m_output p + m_offset p * m_count p <= 0x3000.
Proof.
  unfold mapping_small, CASE_LIMIT. intros H. repeat match type of H with _ && _ = true => apply andb_prop in H as [H ?] end.
  repeat match goal with H : (_ <=? _) = true |- _ => apply Z.leb_le in H end. done.
Qed.
Lemma tables_small : forallb mapping_small UPPERCASE_TABLE = true /\ forallb mapping_small LOWERCASE_TABLE = true.
Proof. split; vm_compute; reflexivity. Qed.

(** The same functions, without machine arithmetic and in an order that is fast to
    evaluate; the tables are sorted. *)
Definition covers_fast (ch : Z) (p : Mapping) : bool :=
  if m_input p <=? ch then if ch <? m_input p + m_offset p * m_count p then Z.land (ch - m_input p) (m_offset p - 1) =? 0 else false else false.
Fixpoint lookup_fast (ch : Z) (tab : list Mapping) : Z :=
  match tab with
  | p :: tab' =>
      if m_input p <=? ch
      then if ch <? m_input p + m_offset p * m_count p
           then if Z.land (ch - m_input p) (m_offset p - 1) =? 0 then ch + m_output p - m_input p else lookup_fast ch tab'
           else lookup_fast ch tab'
      else ch
  | [] => ch
  end.
Fixpoint sorted_from (c : Z) (tab : list Mapping) : bool := match tab with p :: tab' => (c <=? m_input p) && sorted_from (m_input p) tab' | [] => true end.
Lemma tables_sorted : sorted_from 0 UPPERCASE_TABLE = true /\ sorted_from 0 LOWERCASE_TABLE = true.
Proof. split; vm_compute; reflexivity. Qed.
Lemma covers_fast_eq ch p : mapping_small p = true -> 0 <= ch < 2 ^ 32 -> mapping_covers ch p = covers_fast ch p.
Proof.
  intros Hp%mapping_small_spec Hc. unfold mapping_covers, covers_fast, u32, wrap. rewrite (Z.mod_small (m_input p + _)) by lia.
  destruct (Z.leb_spec (m_input p) ch); [|done]. destruct (Z.ltb_spec ch (m_input p + m_offset p * m_count p)); [|done]. cbn [andb]. by rewrite Z.mod_small by lia.
Qed.
Lemma lookup_before c ch tab : sorted_from c tab = true -> forallb mapping_small tab = true -> 0 <= ch < c -> ch < 2 ^ 32 -> lookup_case ch tab = ch.
Proof.
  revert c. induction tab as [|p tab IH]; intros c Hs Ht Hc H32; [done|]. cbn [sorted_from forallb] in *. apply andb_prop in Hs as [Hs%Z.leb_le Hs']. apply andb_prop in Ht as [Hp Ht].
  cbn [lookup_case]. rewrite covers_fast_eq by (done || lia). unfold covers_fast. rewrite (proj2 (Z.leb_gt (m_input p) ch)) by lia. apply (IH (m_input p)); [done|done|lia|done].
Qed.
Lemma lookup_fast_eq ch c tab : sorted_from c tab = true -> forallb mapping_small tab = true -> 0 <= ch < 2 ^ 32 -> lookup_case ch tab = lookup_fast ch tab.
Proof.
  revert c. induction tab as [|p tab IH]; intros c Hs Ht Hc; [done|]. cbn [sorted_from forallb] in *. apply andb_prop in Hs as [_ Hs]. apply andb_prop in Ht as [Hp Ht].
  cbn [lookup_case lookup_fast]. rewrite covers_fast_eq by done. unfold covers_fast. pose proof (mapping_small_spec _ Hp).
  destruct (Z.leb_spec (m_input p) ch); [|apply (lookup_before (m_input p)); [done|done|lia|lia]].
  destruct (Z.ltb_spec ch (m_input p + m_offset p * m_count p)); [|by eapply IH]. destruct (_ =? 0); [|by eapply IH]. unfold u32, wrap. apply Z.mod_small. lia.
Qed.
Definition up (c : Z) : Z := lookup_fast c UPPERCASE_TABLE.
Definition lo (c : Z) : Z := lookup_fast c LOWERCASE_TABLE.

(** The characters a table maps; the others are not changed. *)
Definition mapped (p : Mapping) : list Z := map (fun k => m_input p + m_offset p * Z.of_nat k) (seq 0 (Z.to_nat (m_count p))).
Definition mapped_chars : list Z := concat (map mapped (UPPERCASE_TABLE ++ LOWERCASE_TABLE)).
Definition offset_ok (p : Mapping) : bool := (m_offset p =? 1) || (m_offset p =? 2) || (m_offset p =? 4).
Lemma covers_mapped ch p : offset_ok p = true -> covers_fast ch p = true -> ch ∈ mapped p.
Proof.
  intros Ho Hc. unfold covers_fast in Hc. destruct (Z.leb_spec (m_input p) ch); [|done]. destruct (Z.ltb_spec ch (m_input p + m_offset p * m_count p)); [|done]. apply Z.eqb_eq in Hc.
  assert (HD : exists k, 0 <= k < m_count p /\ ch = m_input p + m_offset p * k).
  { unfold offset_ok in Ho. assert (HM : exists n, 0 <= n <= 2 /\ m_offset p = 2 ^ n).
    { destruct (Z.eqb_spec (m_offset p) 1) as [->|]; [by exists 0|]. destruct (Z.eqb_spec (m_offset p) 2) as [->|]; [by exists 1|]. destruct (Z.eqb_spec (m_offset p) 4) as [->|]; [by exists 2|done]. }
    destruct HM as (n & Hn & E). rewrite E in *. replace (2 ^ n - 1) with (Z.ones n) in Hc by (rewrite Z.ones_equiv; lia). rewrite Z.land_ones in Hc by lia.
    assert (0 < 2 ^ n) by (apply Z.pow_pos_nonneg; lia). exists ((ch - m_input p) / 2 ^ n). pose proof (Z.div_mod (ch - m_input p) (2 ^ n)).
    split; [split; [apply Z.div_pos; lia|apply Z.div_lt_upper_bound; lia]|lia]. }
  destruct HD as (k & Hk & ->). unfold mapped. apply list_elem_of_fmap. exists (Z.to_nat k). split; [by rewrite Z2Nat.id by lia|]. apply elem_of_seq. lia.
Qed.
Lemma lookup_unmapped ch tab : forallb offset_ok tab = true -> (forall p, p ∈ tab -> ch ∉ mapped p) -> lookup_fast ch tab = ch.
Proof.
  intros Ho Hn. induction tab as [|p tab IH]; [done|]. cbn [forallb] in Ho. apply andb_prop in Ho as [Hp Ho].
  assert (Hc : covers_fast ch p = false) by (apply not_true_iff_false; intros Hc; apply (Hn p); [apply elem_of_cons; by left|by apply covers_mapped]).
  assert (IH' : lookup_fast ch tab = ch) by (apply IH; [done|]; intros q Hq; apply Hn, elem_of_cons; by right).
  cbn [lookup_fast]. unfold covers_fast in Hc. destruct (m_input p <=? ch); [|done]. destruct (ch <? _); [|done]. destruct (_ =? 0); done.
Qed.
Lemma offsets_ok : forallb offset_ok UPPERCASE_TABLE = true /\ forallb offset_ok LOWERCASE_TABLE = true.
Proof. split; vm_compute; reflexivity. Qed.

Definition case_char_ok (c : Z) : bool :=
  let u := up c in
  let l := lo c in
  (0 <=? u) && (u <? CASE_LIMIT) && (0 <=? l) && (l <? CASE_LIMIT) && (up u =? u) && (lo l =? l)
  && Bool.eqb (lo u =? l) (negb (existsb (Z.eqb c) extra_lower)) && Bool.eqb (up l =? u) (negb (existsb (Z.eqb c) extra_upper))
  && (if 128 <=? c then true else (u =? charToUpper c) && (l =? charToLower c)).
Definition plain_char_ok (c : Z) : bool := (charToUpper c =? c) && (charToLower c =? c) || existsb (Z.eqb c) mapped_chars.
Lemma case_chars : forallb case_char_ok mapped_chars = true.
Proof. vm_compute. reflexivity. Qed.
Lemma extra_mapped : forallb (fun c => existsb (Z.eqb c) mapped_chars) (extra_lower ++ extra_upper) = true /\ forallb plain_char_ok (map Z.of_nat (seq 0 128)) = true.
Proof. split; vm_compute; reflexivity. Qed.
Lemma lookup_high ch tab : forallb mapping_small tab = true -> CASE_LIMIT <= ch -> lookup_case ch tab = ch.
Proof.
  intros Ht Hc. induction tab as [|p tab IH]; [done|]. cbn [forallb] in Ht. apply andb_prop in Ht as [Hp%mapping_small_spec Ht]. cbn [lookup_case]. unfold CASE_LIMIT in *.
  unfold mapping_covers, u32, wrap. rewrite Z.mod_small by lia. rewrite (proj2 (Z.ltb_ge ch _)) by lia. rewrite andb_false_r. cbn [andb]. auto.
Qed.
Lemma existsb_elem c l : existsb (Z.eqb c) l = true <-> c ∈ l.
Proof. rewrite existsb_exists, list_elem_of_In. split; [intros (x & Hx & ->%Z.eqb_eq); done|intros H; exists c; split; [done|apply Z.eqb_refl]]. Qed.

Lemma elem_mapped_chars c p : p ∈ UPPERCASE_TABLE ++ LOWERCASE_TABLE -> c ∈ mapped p -> c ∈ mapped_chars.
Proof. intros Hp Hc. apply list_elem_of_In, in_concat. exists (mapped p). split; [|by apply list_elem_of_In]. by apply in_map, list_elem_of_In. Qed.
Lemma up_unmapped c : c ∉ mapped_chars -> up c = c.
Proof. intros Hn. apply lookup_unmapped; [apply offsets_ok|]. intros p Hp Hm. apply Hn, (elem_mapped_chars c p); [|done]. apply elem_of_app. by left. Qed.
Lemma lo_unmapped c : c ∉ mapped_chars -> lo c = c.
Proof. intros Hn. apply lookup_unmapped; [apply offsets_ok|]. intros p Hp Hm. apply Hn, (elem_mapped_chars c p); [|done]. apply elem_of_app. by right. Qed.
Lemma getUpperCase_up c : 0 <= c < 0x3000 -> getUpperCase c = up c.
Proof. intros Hc. apply (lookup_fast_eq c 0); [apply tables_sorted|apply tables_small|lia]. Qed.
Lemma getLowerCase_lo c : 0 <= c < 0x3000 -> getLowerCase c = lo c.
Proof. intros Hc. apply (lookup_fast_eq c 0); [apply tables_sorted|apply tables_small|lia]. Qed.
Lemma getUpperCase_high c : 0x3000 <= c -> getUpperCase c = c.
Proof. intros Hc. apply lookup_high; [apply tables_small|exact Hc]. Qed.
Lemma getLowerCase_high c : 0x3000 <= c -> getLowerCase c = c.
Proof. intros Hc. apply lookup_high; [apply tables_small|exact Hc]. Qed.
Lemma extra_low c : c ∈ extra_lower ++ extra_upper -> c < 0x3000.
Proof. intros Hc. apply Z.ltb_lt. revert c Hc. apply Forall_forall. repeat constructor. Qed.
#[local] Opaque up lo getUpperCase getLowerCase mapped_chars charToUpper charToLower.

Lemma eqb_negb_elem a b c l : (a =? b) = negb (existsb (Z.eqb c) l) -> a = b <-> c ∉ l.
Proof. intros H. rewrite <- existsb_elem. rewrite <- (Z.eqb_eq a b), H. destruct (existsb _ _); cbn; naive_solver. Qed.
(** What the theorem says of one character below the limit *)
Definition case_spec (c : Z) : Prop :=
  (0 <= up c < 0x3000 /\ 0 <= lo c < 0x3000) /\ up (up c) = up c /\ lo (lo c) = lo c /\
  (lo (up c) = lo c <-> c ∉ extra_lower) /\ (up (lo c) = up c <-> c ∉ extra_upper) /\
  (c < 128 -> up c = charToUpper c /\ lo c = charToLower c).
Lemma case_char_spec c : case_char_ok c = true -> case_spec c.
Proof.
  unfold case_char_ok, case_spec, CASE_LIMIT. intros H. repeat match type of H with _ && _ = true => apply andb_prop in H as [H ?] end.
  repeat match goal with H : (_ <=? _) = true |- _ => apply Z.leb_le in H | H : (_ <? _) = true |- _ => apply Z.ltb_lt in H
    | H : (_ =? _) = true |- _ => apply Z.eqb_eq in H | H : Bool.eqb _ _ = true |- _ => apply Bool.eqb_prop in H end.
  split; [lia|]. split; [assumption|]. split; [assumption|].
  split; [by match goal with H : (lo _ =? _) = _ |- _ => apply eqb_negb_elem, H end|]. split; [by match goal with H : (up _ =? _) = _ |- _ => apply eqb_negb_elem, H end|]. intros Ha.
  match goal with H : (if 128 <=? c then _ else _) = true |- _ => rewrite (proj2 (Z.leb_gt 128 c)) in H by lia; apply andb_prop in H as [?%Z.eqb_eq ?%Z.eqb_eq] end. done.
Qed.
Lemma unmapped_spec c : 0 <= c < 0x3000 -> c ∉ mapped_chars -> case_spec c.
Proof.
  intros Hc Hn. pose proof (up_unmapped c Hn) as HU. pose proof (lo_unmapped c Hn) as HL.
  destruct extra_mapped as [HE HA]. rewrite forallb_forall in HE, HA.
  assert (HX : forall l : list Z, (forall x, x ∈ l -> x ∈ extra_lower ++ extra_upper) -> c ∉ l).
  { intros l Hl Hx. apply Hn, existsb_elem, HE, list_elem_of_In, Hl, Hx. }
  unfold case_spec. rewrite !HU, !HL, ?HU, ?HL. split; [lia|]. split; [done|]. split; [done|].
  split; [split; [intros _|done]; apply HX; intros; apply elem_of_app; by left|]. split; [split; [intros _|done]; apply HX; intros; apply elem_of_app; by right|].
  intros Ha. assert (HP : plain_char_ok c = true). { apply HA. apply in_map_iff. exists (Z.to_nat c). split; [lia|]. apply in_seq. lia. }
  unfold plain_char_ok in HP. apply orb_prop in HP as [HP|HP]; [|by apply existsb_elem in HP]. apply andb_prop in HP as [?%Z.eqb_eq ?%Z.eqb_eq]. done.
Qed.
Lemma low_spec c : 0 <= c < 0x3000 -> case_spec c.
Proof.
  intros Hc. destruct (decide (c ∈ mapped_chars)) as [Hm|Hm]; [|by apply unmapped_spec]. apply case_char_spec. pose proof case_chars as H. rewrite forallb_forall in H. apply H. by apply list_elem_of_In.
Qed.
(** Case conversion of characters: getUpperCase and getLowerCase are idempotent,
    agree with the conversion of strings on ASCII, and are the identity from U+3000
    on.  Converting to upper case first does not change the
    lower case of a character, except for fourteen letters that are second lower case
    forms (micro sign, dotless i, long s, final sigma, ...), and converting to lower
    case first does not change the upper case, except for six that are second upper
    case forms (dotted I, capital theta symbol, sharp S, Ohm, Kelvin and Angstrom). *)
Theorem case_mapping_correct c : 0 <= c ->
  getUpperCase (getUpperCase c) = getUpperCase c /\ getLowerCase (getLowerCase c) = getLowerCase c /\
  (getLowerCase (getUpperCase c) = getLowerCase c <-> c ∉ extra_lower) /\
  (getUpperCase (getLowerCase c) = getUpperCase c <-> c ∉ extra_upper) /\
  (c < 128 -> getUpperCase c = charToUpper c /\ getLowerCase c = charToLower c) /\
  (0x3000 <= c -> getUpperCase c = c /\ getLowerCase c = c) /\
  (c < 0x3000 -> 0 <= getUpperCase c < 0x3000 /\ 0 <= getLowerCase c < 0x3000).
Proof.
  intros Hc. destruct (Z.ltb_spec c 0x3000) as [Hl|Hl].
  - destruct (low_spec c ltac:(lia)) as ((HU & HL) & H). rewrite (getUpperCase_up c), (getLowerCase_lo c) by lia.
    rewrite (getUpperCase_up (up c)), (getUpperCase_up (lo c)), (getLowerCase_lo (up c)), (getLowerCase_lo (lo c)) by lia.
    destruct H as (H1 & H2 & H3 & H4 & H5). split; [assumption|]. split; [assumption|]. split; [assumption|]. split; [assumption|]. split; [assumption|]. split; [lia|intros _; split; assumption].
  - pose proof (getUpperCase_high c Hl) as HU. pose proof (getLowerCase_high c Hl) as HL. rewrite !HU, !HL, ?HU, ?HL.
    assert (Hn : (c ∉ extra_lower) /\ (c ∉ extra_upper)).
    { split; intros Hx; assert (c < 0x3000); try lia; apply extra_low, elem_of_app; auto. }
    split; [done|]. split; [done|]. split; [tauto|]. split; [tauto|]. split; [lia|]. split; [done|lia].
Qed.
Lemma case_mapping_correct_witness : 0x3C2 ∈ extra_lower /\ ~ (getLowerCase (getUpperCase 0x3C2) = getLowerCase 0x3C2) /\ getUpperCase (getUpperCase 0x3C2) = getUpperCase 0x3C2.
Proof.
  destruct (case_mapping_correct 0x3C2 ltac:(lia)) as (H1 & _ & H2 & _). assert (Hin : 0x3C2 ∈ extra_lower) by (apply existsb_elem; reflexivity).
  split; [exact Hin|]. split; [|exact H1]. intros H. exact (proj1 H2 H Hin).
Defined.

(** ** Lemmas: transliteration *)

Definition code_lt (a b : Element) : Prop := e_code a < e_code b.
Fixpoint codes_from (c : Z) (data : list Element) : bool := match data with ele :: data' => (c <? e_code ele) && codes_from (e_code ele) data' | [] => true end.
Lemma codes_from_forall c data : codes_from c data = true -> Forall (fun ele => c < e_code ele) data /\ StronglySorted code_lt data.
Proof.
  revert c. induction data as [|ele data IH]; intros c H; [by repeat constructor|]. cbn [codes_from] in H. apply andb_prop in H as [Hc%Z.ltb_lt H].
  destruct (IH _ H) as [HF HS]. split; [constructor; [done|]; eapply Forall_impl; [exact HF|]; cbn; lia|]. by constructor.
Qed.
Lemma find_code_none ch data : Forall (fun ele => e_code ele <> ch) data -> find_code ch data = None.
Proof. induction 1 as [|ele data He HF IH]; [done|]. cbn [find_code]. by rewrite (proj2 (Z.eqb_neq _ _)). Qed.
Lemma find_code_app ch l1 l2 : find_code ch (l1 ++ l2) = match find_code ch l1 with Some e => Some e | None => find_code ch l2 end.
Proof. induction l1 as [|ele l1 IH]; [done|]. cbn [app find_code]. by destruct (_ =? _). Qed.
Lemma sorted_middle l1 ele l2 : StronglySorted code_lt (l1 ++ ele :: l2) ->
  Forall (fun x => e_code x < e_code ele) l1 /\ Forall (fun x => e_code ele < e_code x) l2 /\ StronglySorted code_lt l1 /\ StronglySorted code_lt (ele :: l2).
Proof.
  induction l1 as [|x l1 IH]; intros H.
  - cbn [app] in H. inversion H; subst. split; [constructor|]. split; [done|]. split; [constructor|done].
  - cbn [app] in H. inversion H as [|? ? HS HF]; subst. destruct (IH HS) as (H1 & H2 & H3 & H4). apply Forall_app in HF as [HF1 HF2]. apply Forall_cons in HF2 as [Hx _].
    split; [by constructor|]. split; [done|]. split; [by constructor|done].
Qed.
(** One round of the search keeps the element, if it is there. *)
Lemma halve_find ch data mid ele : StronglySorted code_lt data -> data !! mid = Some ele ->
  let half := if ch <? e_code ele then take mid data else drop mid data in
  StronglySorted code_lt half /\ find_code ch half = find_code ch data.
Proof.
  intros HS He. cbn zeta. rewrite (drop_S _ _ _ He). pose proof (take_drop_middle _ _ _ He) as HD. rewrite <- HD in HS. destruct (sorted_middle _ _ _ HS) as (H1 & H2 & H3 & H4).
  rewrite <- (f_equal (find_code ch) HD), find_code_app. destruct (Z.ltb_spec ch (e_code ele)); (split; [done|]).
  - assert (HN : find_code ch (ele :: drop (S mid) data) = None).
    { apply find_code_none. constructor; [lia|]. eapply Forall_impl; [exact H2|]. cbn. lia. }
    rewrite HN. by destruct (find_code ch (take mid data)).
  - rewrite (find_code_none ch (take mid data)); [done|]. eapply Forall_impl; [exact H1|]. cbn. lia.
Qed.
Lemma bisect_spec fuel ch data : (length data <= fuel)%nat -> StronglySorted code_lt data ->
  (length (bisect fuel ch data) <= 3)%nat /\ find_code ch (bisect fuel ch data) = find_code ch data.
Proof.
  revert data. induction fuel as [|fuel IH]; intros data Hf HS; [cbn [bisect]; split; [lia|done]|]. cbn [bisect]. destruct (Nat.ltb_spec 3 (length data)) as [Hl|Hl]; [|by split; [lia|]].
  cbn zeta. pose proof (Nat.div_mod_eq (length data) 2) as HM. pose proof (Nat.mod_upper_bound (length data) 2 ltac:(lia)) as HB.
  destruct (lookup_lt_is_Some_2 data (length data / 2)) as [ele He]; [lia|]. rewrite He. destruct (halve_find ch data _ ele HS He) as [HS' HF].
  rewrite <- HF. apply IH; [|done]. destruct (ch <? _); rewrite ?length_take, ?length_drop; lia.
Qed.
Lemma table_sorted : StronglySorted code_lt TRANSLITERATION.
Proof. apply (codes_from_forall 0x7F). vm_compute. reflexivity. Qed.

Definition element_ascii (ele : Element) : bool := forallb (fun c => (0 <=? c) && (c <=? 127)) (e_transliteration ele).
Lemma table_ascii : forallb element_ascii TRANSLITERATION = true.
Proof. vm_compute. reflexivity. Qed.
Lemma find_code_elem ch data ele : find_code ch data = Some ele -> In ele data.
Proof. induction data as [|e data IH]; [done|]. cbn [find_code]. destruct (_ =? _); [intros [= ->]; by left|right; auto]. Qed.
Lemma until_zero_ascii n l : forallb (fun c => (0 <=? c) && (c <=? 127)) l = true -> Forall (fun c => 1 <= c <= 127) (until_zero n l).
Proof.
  revert l. induction n as [|n IH]; intros [|c l] H; [by constructor..|]. cbn [forallb until_zero] in *. apply andb_prop in H as [Hc H].
  apply andb_prop in Hc as [?%Z.leb_le ?%Z.leb_le]. destruct (Z.eqb_spec c 0); [constructor|]. constructor; [lia|auto].
Qed.

(** What a character becomes, with a search from the start of the table *)
Definition plain_text (ch : Z) : list Z :=
  if (ch =? 0) || isErrorCharacter ch then []
  else if ch <=? 0x7F then [ch]
  else match find_code ch TRANSLITERATION with Some ele => until_zero MAX_CHARS (e_transliteration ele) | None => [] end.
#[local] Opaque TRANSLITERATION.
Lemma findTransliteration_find ch : findTransliteration ch TRANSLITERATION = find_code ch TRANSLITERATION.
Proof. apply bisect_spec; [lia|apply table_sorted]. Qed.
Lemma transliterate_plain ch : transliterate ch = plain_text ch.
Proof. unfold transliterate, plain_text. by rewrite findTransliteration_find. Qed.
Lemma plain_text_ascii ch : 0 <= ch -> Forall (fun c => 1 <= c <= 127) (plain_text ch).
Proof.
  intros Hc. unfold plain_text. destruct (Z.eqb_spec ch 0); [constructor|]. cbn [orb]. destruct (isErrorCharacter ch); [constructor|]. destruct (Z.leb_spec ch 0x7F); [by repeat constructor; lia|].
  destruct (find_code ch TRANSLITERATION) as [ele|] eqn:E; [|constructor]. apply until_zero_ascii. pose proof table_ascii as HT. rewrite forallb_forall in HT. by apply HT, (find_code_elem ch).
Qed.
Lemma ascii_decode_loop_spec fuel data res : (length data <= fuel)%nat -> ascii_decode_loop fuel data res = res ++ concat (map plain_text (decode 0 data)).
Proof.
  revert data res. induction fuel as [|fuel IH]; intros data res Hf.
  { destruct data; [|simpl in Hf; lia]. cbn. by rewrite app_nil_r. }
  cbn [ascii_decode_loop]. destruct (hasMore data) eqn:Hm.
  - apply hasMore_spec in Hm. unfold decode in *. rewrite runes_cons by done. destruct (eat_progress 0 data Hm) as (k & Hk & Ek). destruct (eat 0 data) as [ch rest]. cbn [fst snd map concat] in *.
    rewrite IH by (rewrite Ek, length_drop; lia). by rewrite transliterate_plain, <- app_assoc.
  - destruct data; [|done]. cbn. by rewrite app_nil_r.
Qed.
Lemma eat_nonneg data : bytes data -> 0 <= (eat 0 data).1.
Proof.
  intros Hb. destruct data as [|ch data]; [done|]. destruct (parse_cases 0 ch data Hb) as (_ & Hc).
  assert (Hv : 0 <= c_value (parse 0 (ch :: data))).
  { destruct Hc as [(_ & _ & ->)|(rune & e & mv & _ & Hr & _)]; [apply Z.mod_pos_bound; lia|apply Hr]. }
  assert (HE : forall x, 0 <= makeErrorCharacter x) by (intros x; apply Z.mod_pos_bound; lia).
  unfold eat. repeat match goal with |- context [ if ?b then _ else _ ] => destruct b end; cbn [fst]; (done || apply HE || apply Z.mod_pos_bound; lia).
Qed.
Lemma decode_nonneg data : bytes data -> Forall (fun c => 0 <= c) (decode 0 data).
Proof.
  induction data as [|data Hne IH] using (runes_ind 0); intros Hb; [constructor|]. unfold decode in *. rewrite runes_cons by done. cbn [map fst]. constructor; [by apply eat_nonneg|].
  apply IH. destruct (eat_progress 0 data Hne) as (k & _ & ->). by apply Forall_drop.
Qed.
Lemma ascii_encode text : Forall (fun c => 1 <= c <= 127) text -> encode 0 text = text /\ Forall (encodable 0) text.
Proof.
  induction 1 as [|c text Hc HF [IH1 IH2]]; [done|]. split.
  - unfold encode in *. cbn [map concat]. rewrite IH1. unfold append. change (flag 0 AllowErrorEscapes) with false. change (flag 0 AllowSurrogates) with false. change (flag 0 AllowEncodedZero) with false.
    rewrite !andb_false_r. cbn [andb]. rewrite (proj2 (Z.leb_gt 0x80 c)) by lia. unfold u8. by rewrite wrap_small by lia.
  - constructor; [|done]. unfold encodable, in_u. split; [lia|]. right. unfold plain_ok, surrogate_ok, isErrorCharacter, UNICODE_HIGH_SURROGATE_MIN, UNICODE_ERROR_MIN, UNICODE_MAX.
    change (Z.land c 0xFFFF) with (Z.land c (Z.ones 16)). rewrite Z.land_ones, Z.mod_small by lia. split; zcases; cbn; try lia; try done.
Qed.
Lemma AsciiTransliterator_decode_eq inp : AsciiTransliterator_decode inp = concat (map plain_text (decode 0 inp)).
Proof. unfold AsciiTransliterator_decode. by rewrite ascii_decode_loop_spec. Qed.
Lemma decode_ascii inp : bytes inp -> Forall (fun c => 1 <= c <= 127) (AsciiTransliterator_decode inp).
Proof.
  intros Hb. rewrite AsciiTransliterator_decode_eq. pose proof (decode_nonneg inp Hb) as HN. induction HN as [|c l Hc HF IH]; [constructor|]. cbn [map concat]. apply Forall_app. split; [by apply plain_text_ascii|done].
Qed.
Lemma plain_text_same ch : 1 <= ch <= 127 -> plain_text ch = [ch].
Proof.
  intros Hc. unfold plain_text, isErrorCharacter, UNICODE_ERROR_MIN. by rewrite (proj2 (Z.eqb_neq ch 0)), (proj2 (Z.leb_gt 0xEF80 ch)), (proj2 (Z.leb_le ch 0x7F)) by lia.
Qed.
Lemma ascii_unchanged text : Forall (fun c => 1 <= c <= 127) text -> AsciiTransliterator_decode text = text.
Proof.
  intros HF. destruct (ascii_encode text HF) as [HE HC]. rewrite AsciiTransliterator_decode_eq. rewrite <- HE at 1. rewrite decode_encode_chars by done.
  clear HE HC. induction HF as [|c text Hc HF IH]; [done|]. cbn [map concat]. by rewrite plain_text_same, IH.
Qed.

(** Transliteration to ASCII.  The binary search ends with at most three elements and
    finds, for every character, what a search through the whole table finds.  Decoding any
    bytes yields the concatenation of what the characters read from them stand for; the
    result consists of ASCII characters other than NUL; text of such characters is not
    changed, and transliterating twice changes nothing. *)
Theorem transliteration_correct inp :
  bytes inp ->
  (forall ch, (length (bisect (length TRANSLITERATION) ch TRANSLITERATION) <= 3)%nat /\ findTransliteration ch TRANSLITERATION = find_code ch TRANSLITERATION) /\
  AsciiTransliterator_decode inp = concat (map plain_text (decode 0 inp)) /\
  Forall (fun c => 1 <= c <= 127) (AsciiTransliterator_decode inp) /\
  (Forall (fun c => 1 <= c <= 127) inp -> AsciiTransliterator_decode inp = inp) /\
  AsciiTransliterator_decode (AsciiTransliterator_encode (AsciiTransliterator_decode inp)) = AsciiTransliterator_decode inp.
Proof.
  intros Hb. pose proof (decode_ascii inp Hb) as HA.
  split; [intros ch; split; [apply bisect_spec; [lia|apply table_sorted]|apply findTransliteration_find]|]. split; [apply AsciiTransliterator_decode_eq|].
  split; [done|]. split; [apply ascii_unchanged|]. by apply ascii_unchanged.
Qed.
Lemma transliteration_correct_witness :
  bytes [0x47; 0xC3; 0xBC; 0xE2; 0x82; 0xAC; 0xC3] /\ AsciiTransliterator_decode [0x47; 0xC3; 0xBC; 0xE2; 0x82; 0xAC; 0xC3] = lit "GuEU" /\
  Forall (fun c => 1 <= c <= 127) (AsciiTransliterator_decode [0x47; 0xC3; 0xBC; 0xE2; 0x82; 0xAC; 0xC3]).
Proof.
  assert (Hb : bytes [0x47; 0xC3; 0xBC; 0xE2; 0x82; 0xAC; 0xC3]) by (repeat constructor; unfold is_byte; lia).
  destruct (transliteration_correct _ Hb) as (_ & _ & HA & _). split; [exact Hb|]. split; [vm_compute; reflexivity|exact HA].
Defined.

(** ** Lemmas: choice of a charset *)

Definition not_dash (c : Z) : bool := negb (c =? 45).
Lemma filter_dash_none name : find name [45] = None -> List.filter not_dash name = name.
Proof.
  intros H. pose proof (proj1 (find_none name [45]) H) as HN. clear H. induction name as [|c name IH]; [done|]. cbn [List.filter]. unfold not_dash at 1.
  destruct (Z.eqb_spec c 45) as [->|]; [destruct (HN [] name); done|]. cbn [negb]. rewrite IH; [done|]. intros l r ->. by apply (HN (c :: l) r).
Qed.
Lemma remove_dashes_filter fuel name : (length name <= fuel)%nat -> remove_dashes fuel name = List.filter not_dash name.
Proof.
  revert name. induction fuel as [|fuel IH]; intros name Hf; [by destruct name; [|simpl in Hf; lia]|]. cbn [remove_dashes]. destruct (find name [45]) as [n|] eqn:E; [|by rewrite filter_dash_none].
  pose proof (find_take _ _ _ E) as HT. cbn [length] in HT. assert (HL : length name = (length (take n name) + 1 + length (drop (n + 1) name))%nat).
  { rewrite HT at 1. rewrite !length_app. cbn [length]. lia. }
  rewrite IH by (rewrite length_app; lia). rewrite HT at 3. rewrite !List.filter_app. done.
Qed.
Lemma is_named_key a b s : case_key a = case_key b -> is_named a s = is_named b s.
Proof.
  intros H. unfold is_named. apply eq_iff_eq_true. rewrite !Z.eqb_eq, <- !Z.compare_eq_iff, !strCaseCompare_lex. by rewrite H.
Qed.
(** Names that differ in case and dashes only select the same charset. *)
Theorem createCharset_names a b :
  bytes a -> bytes b -> strUCase (List.filter not_dash a) = strUCase (List.filter not_dash b) -> createCharset a = createCharset b.
Proof.
  intros Ha Hb H. apply case_key_eq in H; [|by apply (incl_Forall (List.incl_filter not_dash _))..]. unfold createCharset. rewrite !remove_dashes_filter by lia. by rewrite !(is_named_key _ _ _ H).
Qed.
