(* ===== verification/Sinks.v ===== *)
(** * Data sinks

    src/afl/io/datasink.hpp and datasink.cpp, internalsink.cpp, limiteddatasink.cpp,
    bufferedsink.cpp, textsink.cpp, Stream::handleData, and
    src/afl/net/http/chunkedsink.cpp.

    A sink is a [DataSink]: handleData takes a descriptor of data, and returns a flag
    and what the descriptor then is.  The contract between a sink and what feeds it is
    [ByteSink]: the sink acts as a machine on single bytes, so that it does not matter
    in which pieces the data comes. *)

From Stdlib Require Import ZArith Lia Bool.
From stdpp Require Import base tactics numbers option list.
From S2P Require Import Prelude Stream.

Local Open Scope Z_scope.
Local Open Scope afl_scope.

(** ** The interface (datasink.hpp, datasink.cpp) *)

Class DataSink (S : Type) := handleData : list Z -> M S (bool * list Z).

Definition handleFullData {S} `{!DataSink S} (data : list Z) : M S unit :=
  let@ (finished, data) := handleData data in
  if finished then (if negb (length data =? 0)%nat then throw (FileProblemException cannotWrite) else ret tt) else ret tt.

(** A stream is a sink (stream.cpp). *)
#[export] Instance stream_sink {S} `{!Stream S} : DataSink S := fun data =>
  let@ n := write data in
  let data := drop (Z.to_nat n) data in
  ret (negb (length data =? 0)%nat, data).

(** TextSink::operator<<; the three overloads take the same characters. *)
Definition TextSink_put {S} `{!DataSink S} (str : list Z) : M S unit := handleFullData str.

(** ** InternalSink *)

Record InternalSink := mkInternalSink { is_data : list Z }.
Definition InternalSink_new : InternalSink := mkInternalSink [].
#[export] Instance internal_sink : DataSink InternalSink := fun data s => (mkInternalSink (is_data s ++ data), Ok (false, data)).
Definition InternalSink_getContent (s : InternalSink) : list Z := is_data s.
Definition InternalSink_clear (s : InternalSink) : InternalSink := mkInternalSink [].

(** ** LimitedDataSink *)

(** The limit is a FileSize_t, which is unsigned; it only ever decreases. *)

Record LimitedDataSink (P : Type) := mkLimitedSink { ls_peer : P; ls_limit : N }.
Arguments mkLimitedSink {P} _ _.
Arguments ls_peer {P} _.
Arguments ls_limit {P} _.
Definition set_ls_peer {P} (p : P) (s : LimitedDataSink P) : LimitedDataSink P := mkLimitedSink p (ls_limit s).
(** [data.splitUpdate(m_limit)] removes what is within the limit from [data], and its
    size from the limit. *)
#[export] Instance limited_sink {P} `{!DataSink P} : DataSink (LimitedDataSink P) := fun data =>
  let@ s := get in
  let n := N.to_nat (N.min (ls_limit s) (N.of_nat (length data))) in
  let peerData := take n data in
  let data := drop n data in
  let@ _ := put (mkLimitedSink (ls_peer s) (ls_limit s - N.of_nat n)) in
  let@ _ := on ls_peer set_ls_peer (handleData peerData) in
  let@ s := get in
  ret ((ls_limit s =? 0)%N, data).

(** ** BufferedSink *)

(** [m_buffer] always covers all of [m_rawBuffer], of which [m_bufferFill] bytes are in use. *)
Record BufferedSink (P : Type) := mkBufferedSink { bk_peer : P; bk_rawBuffer : list Z; bk_bufferFill : nat }.
Arguments mkBufferedSink {P} _ _ _.
Arguments bk_peer {P} _.
Arguments bk_rawBuffer {P} _.
Arguments bk_bufferFill {P} _.
Definition set_bk_peer {P} (p : P) (s : BufferedSink P) : BufferedSink P := mkBufferedSink p (bk_rawBuffer s) (bk_bufferFill s).

Section BufferedSink.
Context {P : Type} `{!DataSink P}.

Definition BufferedSink_flush : M (BufferedSink P) unit :=
  let@ s := get in
  if negb (bk_bufferFill s =? 0)%nat
  then
    let tmp := take (bk_bufferFill s) (bk_rawBuffer s) in
    let@ _ := put (mkBufferedSink (bk_peer s) (bk_rawBuffer s) 0) in
    let@ _ := on bk_peer set_bk_peer (handleData tmp) in
    ret tt
  else ret tt.

(** [m_buffer.subrange(m_bufferFill).copyFrom(data)] *)
Definition buffer_copy (s : BufferedSink P) (data : list Z) : nat * BufferedSink P :=
  let copied := Nat.min (length (bk_rawBuffer s) - bk_bufferFill s) (length data) in
  (copied, mkBufferedSink (bk_peer s)
             (take (bk_bufferFill s) (bk_rawBuffer s) ++ take copied data ++ drop (bk_bufferFill s + copied) (bk_rawBuffer s)) (bk_bufferFill s)).

(** Every round takes at least a byte of [data]. *)
Fixpoint buffered_loop (fuel : nat) (data : list Z) : M (BufferedSink P) (list Z) :=
  if (length data =? 0)%nat then ret data
  else match fuel with
       | O => throw out_of_fuel
       | S fuel' =>
           let@ s := get in
           if (bk_bufferFill s =? 0)%nat && (length (bk_rawBuffer s) <=? length data)%nat
           then let@ _ := on bk_peer set_bk_peer (handleData data) in buffered_loop fuel' []
           else
             let '(copied, s) := buffer_copy s data in
             let@ _ := put s in
             if (copied =? 0)%nat then throw assertion_failed
             else
               let data := drop copied data in
               let@ _ := put (mkBufferedSink (bk_peer s) (bk_rawBuffer s) (bk_bufferFill s + copied)) in
               let@ s := get in
               let@ _ := (if (length (bk_rawBuffer s) <=? bk_bufferFill s)%nat then BufferedSink_flush else ret tt) in
               buffered_loop fuel' data
       end.

#[export] Instance buffered_sink : DataSink (BufferedSink P) := fun data =>
  let@ data := buffered_loop (length data) data in
  ret (false, data).
End BufferedSink.
Definition BufferedSink_new {P} (p : P) (raw : list Z) : BufferedSink P := mkBufferedSink p raw 0.

(** ** ChunkedSink (net/http/chunkedsink.cpp) *)

Inductive ChunkState := ChunkSize | Extension | Payload | PayloadEnd | Trailer | TrailerHeader | Final.
Record ChunkedSink (P : Type) := mkChunked { ck_state : ChunkState; ck_peer : P; ck_size : Z }.
Arguments mkChunked {P} _ _ _.
Arguments ck_state {P} _.
Arguments ck_peer {P} _.
Arguments ck_size {P} _.
Definition ChunkedSink_new {P} (p : P) : ChunkedSink P := mkChunked ChunkSize p 0.

(** The digits of a size; [None] if the character is none *)
Definition chunk_digit (c : Z) : option Z :=
  if (48 <=? c) && (c <=? 57) then Some (c - 48)
  else if (65 <=? c) && (c <=? 70) then Some (c - 65 + 10)
  else if (97 <=? c) && (c <=? 102) then Some (c - 97 + 10)
  else None.
Definition after_size (size : Z) : ChunkState := if size =? 0 then Trailer else Payload.
(** The loops of the cases; they yield the new state, m_size and what is left of [data]. *)
Fixpoint chunk_size_loop (data : list Z) (size : Z) : ChunkState * Z * list Z :=
  match data with
  | [] => (ChunkSize, size, [])
  | c :: data' =>
      match chunk_digit c with
      | Some d => chunk_size_loop data' (u64 (u64 (16 * size) + d))
      | None => if c =? 59 then (Extension, size, data')
                else if c =? 10 then (after_size size, size, data')
                else chunk_size_loop data' size
      end
  end.
Fixpoint skip_line (here next : ChunkState) (data : list Z) : ChunkState * list Z :=
  match data with
  | [] => (here, [])
  | c :: data' => if c =? 10 then (next, data') else skip_line here next data'
  end.
Fixpoint trailer_loop (data : list Z) : ChunkState * list Z :=
  match data with
  | [] => (Trailer, [])
  | c :: data' => if c =? 13 then trailer_loop data' else if c =? 10 then (Final, data') else (TrailerHeader, data')
  end.

Section ChunkedSink.
Context {P : Type} `{!DataSink P}.
Definition set_ck_peer (p : P) (s : ChunkedSink P) : ChunkedSink P := mkChunked (ck_state s) p (ck_size s).
Definition set_ck (st : ChunkState) (size : Z) (s : ChunkedSink P) : ChunkedSink P := mkChunked st (ck_peer s) size.

(** One round of [while (m_state != Final && data.size() != 0)] *)
Definition chunk_round (data : list Z) : M (ChunkedSink P) (list Z) :=
  let@ s := get in
  match ck_state s with
  | ChunkSize =>
      let '(st, size, data) := chunk_size_loop data (ck_size s) in
      let@ _ := put (set_ck st size s) in ret data
  | Extension =>
      let '(st, data) := skip_line Extension (after_size (ck_size s)) data in
      let@ _ := put (set_ck st (ck_size s) s) in ret data
  | Payload =>
      let n := if ck_size s <? len data then ck_size s else len data in
      let@ _ := put (set_ck Payload (u64 (ck_size s - n)) s) in
      let payload := take (Z.to_nat n) data in
      let data := drop (Z.to_nat n) data in
      let@ _ := on ck_peer set_ck_peer (handleData payload) in
      let@ s := get in
      let@ _ := (if ck_size s =? 0 then put (set_ck PayloadEnd (ck_size s) s) else ret tt) in
      ret data
  | PayloadEnd =>
      let '(st, data) := skip_line PayloadEnd ChunkSize data in
      let@ _ := put (set_ck st (ck_size s) s) in ret data
  | Trailer =>
      let '(st, data) := trailer_loop data in
      let@ _ := put (set_ck st (ck_size s) s) in ret data
  | TrailerHeader =>
      let '(st, data) := skip_line TrailerHeader Trailer data in
      let@ _ := put (set_ck st (ck_size s) s) in ret data
  | Final => ret data
  end.
Definition is_final (st : ChunkState) : bool := match st with Final => true | _ => false end.
(** Every second round at least takes a byte of [data]. *)
Fixpoint chunked_loop (fuel : nat) (data : list Z) : M (ChunkedSink P) (list Z) :=
  let@ s := get in
  if negb (is_final (ck_state s)) && negb (length data =? 0)%nat
  then match fuel with
       | O => throw out_of_fuel
       | S fuel' => let@ data := chunk_round data in chunked_loop fuel' data
       end
  else ret data.
#[export] Instance chunked_sink : DataSink (ChunkedSink P) := fun data =>
  let@ data := chunked_loop (2 * length data + 1) data in
  let@ s := get in
  ret (is_final (ck_state s), data).
End ChunkedSink.

Definition lf_text (l : list Z) : list Z := l ++ [13; 10].
Example chunked_ex :
  handleData ([53; 59; 120] ++ lf_text [] ++ lf_text [1; 2; 10; 4; 5] ++ lf_text [65] ++ lf_text [1; 2; 3; 4; 5; 6; 7; 8; 9; 10] ++ lf_text [48] ++ lf_text [120; 58] ++ lf_text [] ++ [77]) (ChunkedSink_new InternalSink_new)
  = (mkChunked Final (mkInternalSink [1; 2; 10; 4; 5; 1; 2; 3; 4; 5; 6; 7; 8; 9; 10]) 0, Ok (true, [77])).
Proof. reflexivity. Qed.

(** ** The contract *)

(** A machine that takes bytes until it is final; it leaves the rest. *)
Section Bytewise.
Context {S : Type} (final : S -> bool) (step : S -> Z -> S).
Fixpoint bytewise (s : S) (data : list Z) : S * list Z :=
  if final s then (s, data)
  else match data with
       | c :: data' => bytewise (step s c) data'
       | [] => (s, [])
       end.
Definition absorb (s : S) (data : list Z) : S := (bytewise s data).1.
Lemma bytewise_nil s : bytewise s [] = (s, []).
Proof. cbn. by destruct (final s). Qed.
Lemma bytewise_final s data : final s = true -> bytewise s data = (s, data).
Proof. intros H. destruct data; cbn; by rewrite H. Qed.
Lemma bytewise_step s c data : final s = false -> bytewise s (c :: data) = bytewise (step s c) data.
Proof. intros H. cbn. by rewrite H. Qed.
Lemma bytewise_rest s data : final (absorb s data) = false -> (bytewise s data).2 = [].
Proof.
  unfold absorb. revert s. induction data as [|c data IH]; intros s; [by rewrite bytewise_nil|]. cbn. destruct (final s) eqn:E; [cbn; intros; congruence|]. apply IH.
Qed.
Lemma bytewise_app s a b :
  bytewise s (a ++ b) = if final (absorb s a) then (absorb s a, (bytewise s a).2 ++ b) else bytewise (absorb s a) b.
Proof.
  unfold absorb. revert s. induction a as [|c a IH]; intros s.
  - cbn [app]. rewrite bytewise_nil. cbn [fst snd app]. destruct (final s) eqn:E; [by rewrite bytewise_final|done].
  - cbn [app]. destruct (final s) eqn:E; [rewrite !bytewise_final by done; cbn; by rewrite E|]. rewrite !bytewise_step by done. apply IH.
Qed.
Lemma absorb_final s data : final s = true -> absorb s data = s.
Proof. intros H. unfold absorb. by rewrite bytewise_final. Qed.
Lemma sink_absorb_app s a b : absorb s (a ++ b) = absorb (absorb s a) b.
Proof.
  unfold absorb at 1. rewrite bytewise_app. destruct (final (absorb s a)) eqn:E; [|done]. by rewrite (absorb_final (absorb s a)).
Qed.
Lemma absorb_cons s c data : absorb s (c :: data) = absorb (absorb s [c]) data.
Proof. apply (sink_absorb_app s [c]). Qed.
End Bytewise.

(** The flag tells whether the machine is final, and then the descriptor has what was left;
    [sink_ok] is the invariant of the object. *)
Class ByteSink (S : Type) `{!DataSink S} := {
  sink_final : S -> bool;
  sink_step : S -> Z -> S;
  sink_ok : S -> Prop;
  sink_ok_step s c : sink_ok s -> sink_ok (sink_step s c);
  sink_law s data : sink_ok s -> exists rest,
    handleData data s = (absorb sink_final sink_step s data, Ok (sink_final (absorb sink_final sink_step s data), rest)) /\
    (sink_final (absorb sink_final sink_step s data) = true -> rest = (bytewise sink_final sink_step s data).2);
}.
Abbreviation feed s data := (absorb sink_final sink_step s data).
Abbreviation feed_rest s data := ((bytewise sink_final sink_step s data).2).

Section Contract.
Context {S : Type} `{!DataSink S, !ByteSink S}.
Lemma feed_nil (s : S) : feed s [] = s.
Proof. unfold absorb. by rewrite bytewise_nil. Qed.
Lemma feed_ok (s : S) data : sink_ok s -> sink_ok (feed s data).
Proof.
  unfold absorb. revert s. induction data as [|c data IH]; intros s Hs; [by rewrite bytewise_nil|]. cbn [bytewise]. destruct (sink_final s); [done|]. by apply IH, sink_ok_step.
Qed.
(** Data in pieces: each piece is given to handleData, as long as it wants more. *)
Fixpoint feed_pieces (pieces : list (list Z)) : M S (bool * list Z) :=
  match pieces with
  | [] => ret (false, [])
  | data :: pieces' =>
      let@ (finished, rest) := handleData data in
      if finished then ret (true, rest ++ concat pieces') else feed_pieces pieces'
  end.
Lemma feed_pieces_spec pieces (s : S) :
  sink_ok s -> sink_final s = false -> feed_pieces pieces s = (feed s (concat pieces), Ok (sink_final (feed s (concat pieces)), feed_rest s (concat pieces))).
Proof.
  revert s. induction pieces as [|data pieces IH]; intros s Ho Hs.
  - cbn [feed_pieces concat]. rewrite feed_nil, bytewise_nil. unfold ret. cbn [snd]. by rewrite Hs.
  - cbn [feed_pieces concat]. destruct (sink_law s data Ho) as (rest & E & HR). unfold bind. rewrite E, sink_absorb_app, bytewise_app.
    destruct (sink_final (feed s data)) eqn:EF.
    + rewrite HR by done. unfold ret. rewrite (absorb_final _ _ (feed s data)) by done. cbn [fst snd]. by rewrite EF.
    + rewrite IH by (done || by apply feed_ok). done.
Qed.
(** handleFullData fails if and only if the sink is final before the end of the data. *)
Lemma handleFullData_spec (s : S) data :
  sink_ok s -> handleFullData data s = (feed s data, if sink_final (feed s data) && negb (length (feed_rest s data) =? 0)%nat then Throw (FileProblemException cannotWrite) else Ok tt).
Proof.
  intros Ho. unfold handleFullData, bind. destruct (sink_law s data Ho) as (rest & E & HR). rewrite E. destruct (sink_final (feed s data)) eqn:EF; [|done]. rewrite HR by done. cbn [andb]. by destruct (negb _).
Qed.
End Contract.

#[export] Program Instance internal_bytes : ByteSink InternalSink := {
  sink_final s := false;
  sink_step s c := mkInternalSink (is_data s ++ [c]);
  sink_ok s := True;
}.
Next Obligation. done. Qed.
Next Obligation.
  intros s data _. exists data. split; [|done]. unfold handleData, internal_sink. f_equal. revert s. induction data as [|c data IH]; intros [l]; [by rewrite app_nil_r|].
  unfold absorb in *. rewrite bytewise_step by done. rewrite <- IH. cbn. by rewrite <- app_assoc.
Qed.
Lemma internal_feed s data : feed s data = mkInternalSink (is_data s ++ data).
Proof. destruct (sink_law s data ltac:(exact I)) as (rest & E & _). unfold handleData, internal_sink in E. by injection E as E1 E2. Qed.

Section LimitedProps.
Context {P : Type} `{!DataSink P, !ByteSink P}.
Definition limited_final (s : LimitedDataSink P) : bool := (ls_limit s =? 0)%N.
Definition limited_step (s : LimitedDataSink P) (c : Z) : LimitedDataSink P := mkLimitedSink (feed (ls_peer s) [c]) (ls_limit s - 1).
Lemma limited_run s data :
  let n := N.to_nat (N.min (ls_limit s) (N.of_nat (length data))) in
  bytewise limited_final limited_step s data = (mkLimitedSink (feed (ls_peer s) (take n data)) (ls_limit s - N.of_nat n), drop n data).
Proof.
  cbn zeta. revert s. induction data as [|c data IH]; intros [p l]; cbn [ls_limit ls_peer length].
  - rewrite bytewise_nil. rewrite N.min_0_r. cbn. by rewrite feed_nil, N.sub_0_r.
  - destruct (N.eqb_spec l 0) as [->|Hl]; [rewrite bytewise_final by done; cbn; by rewrite feed_nil|]. rewrite bytewise_step by (cbn; by apply N.eqb_neq).
    rewrite IH. unfold limited_step. cbn [ls_limit ls_peer]. replace (N.to_nat (N.min l (N.of_nat (S (length data))))) with (S (N.to_nat (N.min (l - 1) (N.of_nat (length data))))) by lia.
    cbn [take drop]. rewrite (absorb_cons _ _ p c (take _ data)). f_equal. f_equal. lia.
Qed.
#[export] Program Instance limited_bytes : ByteSink (LimitedDataSink P) := {
  sink_final := limited_final;
  sink_step := limited_step;
  sink_ok s := sink_ok (ls_peer s);
}.
Next Obligation. intros s c Hs. by apply feed_ok. Qed.
Next Obligation.
  intros s data Ho. eexists. unfold absorb. rewrite limited_run. cbn [fst snd]. set (n := N.to_nat _). split; [|intros _; done].
  unfold handleData, limited_sink, bind, get, put, on, set_ls_peer. fold n. cbn [ls_peer ls_limit]. destruct (sink_law (ls_peer s) (take n data) Ho) as (rest & E & _). by rewrite E.
Qed.
End LimitedProps.

(** ** Lemmas: ChunkedSink *)

Section ChunkedProps.
Context {P : Type} `{!DataSink P, !ByteSink P}.
Implicit Types (s : ChunkedSink P) (data : list Z).

Definition ck_line (here next : ChunkState) (c : Z) : ChunkState := if c =? 10 then next else here.
(** The machine on bytes *)
Definition chunk_step s (c : Z) : ChunkedSink P :=
  match ck_state s with
  | ChunkSize =>
      match chunk_digit c with
      | Some d => set_ck ChunkSize (u64 (u64 (16 * ck_size s) + d)) s
      | None => set_ck (if c =? 59 then Extension else if c =? 10 then after_size (ck_size s) else ChunkSize) (ck_size s) s
      end
  | Extension => set_ck (ck_line Extension (after_size (ck_size s)) c) (ck_size s) s
  | Payload =>
      if ck_size s <=? 0 then set_ck (ck_line PayloadEnd ChunkSize c) 0 s
      else mkChunked (if ck_size s =? 1 then PayloadEnd else Payload) (feed (ck_peer s) [c]) (ck_size s - 1)
  | PayloadEnd => set_ck (ck_line PayloadEnd ChunkSize c) (ck_size s) s
  | Trailer => set_ck (if c =? 13 then Trailer else if c =? 10 then Final else TrailerHeader) (ck_size s) s
  | TrailerHeader => set_ck (ck_line TrailerHeader Trailer c) (ck_size s) s
  | Final => s
  end.
Abbreviation ck_run := (bytewise (fun s => is_final (ck_state s)) chunk_step).

Lemma chunk_size_loop_run p data size st size' rest :
  chunk_size_loop data size = (st, size', rest) -> ck_run (mkChunked ChunkSize p size) data = ck_run (mkChunked st p size') rest.
Proof.
  revert size. induction data as [|c data IH]; intros size H; cbn [chunk_size_loop] in H; [by simplify_eq|]. rewrite bytewise_step by done. unfold chunk_step, set_ck. cbn [ck_state ck_size ck_peer].
  destruct (chunk_digit c); [by apply IH|]. destruct (c =? 59); [by simplify_eq|]. destruct (c =? 10); [by simplify_eq|]. by apply IH.
Qed.
Lemma skip_line_run here next p size data st rest :
  (forall c, chunk_step (mkChunked here p size) c = mkChunked (ck_line here next c) p size) -> is_final here = false ->
  skip_line here next data = (st, rest) -> ck_run (mkChunked here p size) data = ck_run (mkChunked st p size) rest.
Proof.
  intros HS HF. induction data as [|c data IH]; intros H; cbn [skip_line] in H; [by simplify_eq|]. rewrite bytewise_step by done. rewrite HS. unfold ck_line.
  destruct (c =? 10); [by simplify_eq|]. by apply IH.
Qed.
Lemma trailer_loop_run p size data st rest : trailer_loop data = (st, rest) -> ck_run (mkChunked Trailer p size) data = ck_run (mkChunked st p size) rest.
Proof.
  induction data as [|c data IH]; intros H; cbn [trailer_loop] in H; [by simplify_eq|]. rewrite bytewise_step by done. unfold chunk_step, set_ck. cbn [ck_state ck_size ck_peer].
  destruct (c =? 13); [by apply IH|]. destruct (c =? 10); by simplify_eq.
Qed.
Lemma payload_run p size data n :
  0 < size -> (Z.of_nat n <= size) -> (n <= length data)%nat ->
  ck_run (mkChunked Payload p size) data = ck_run (mkChunked (if size - Z.of_nat n =? 0 then PayloadEnd else Payload) (feed p (take n data)) (size - Z.of_nat n)) (drop n data).
Proof.
  revert p size data. induction n as [|n IH]; intros p size data H0 Hs Hn.
  - rewrite Z.sub_0_r, (proj2 (Z.eqb_neq size 0)) by lia. cbn. by rewrite feed_nil.
  - destruct data as [|c data]; [cbn in Hn; lia|]. cbn [length] in Hn. rewrite bytewise_step by done. unfold chunk_step. cbn [ck_state ck_size ck_peer]. rewrite (proj2 (Z.leb_gt size 0)) by lia.
    cbn [take drop]. rewrite (absorb_cons _ _ p c (take n data)). destruct (Z.eqb_spec size 1) as [->|H1].
    + assert (n = 0%nat) as -> by lia. cbn. by rewrite feed_nil.
    + rewrite IH by lia. by replace (size - 1 - Z.of_nat n) with (size - Z.of_nat (S n)) by lia.
Qed.
Lemma chunk_size_loop_length data size st size' rest : chunk_size_loop data size = (st, size', rest) -> (length rest <= pred (length data))%nat.
Proof.
  revert size. induction data as [|c data IH]; intros size H; cbn [chunk_size_loop] in H; [by simplify_eq|]. cbn [length pred].
  destruct (chunk_digit c); [apply IH in H; lia|]. destruct (c =? 59); [by simplify_eq|]. destruct (c =? 10); [by simplify_eq|]. apply IH in H. lia.
Qed.
Lemma skip_line_length here next data st rest : skip_line here next data = (st, rest) -> (length rest <= pred (length data))%nat.
Proof. induction data as [|c data IH]; intros H; cbn [skip_line] in H; [by simplify_eq|]. cbn [length pred]. destruct (c =? 10); [by simplify_eq|]. apply IH in H. lia. Qed.
Lemma trailer_loop_length data st rest : trailer_loop data = (st, rest) -> (length rest <= pred (length data))%nat.
Proof.
  induction data as [|c data IH]; intros H; cbn [trailer_loop] in H; [by simplify_eq|]. cbn [length pred]. destruct (c =? 13); [apply IH in H; lia|]. destruct (c =? 10); by simplify_eq.
Qed.
(** A round takes a byte, unless there is no payload left to take. *)
Definition no_payload s : nat := match ck_state s with Payload => if ck_size s <=? 0 then 1%nat else 0%nat | _ => 0%nat end.
Definition ck_ok s : Prop := sink_ok (ck_peer s) /\ ck_size s < 2 ^ 64.
Lemma chunk_size_loop_range data size st size' rest : chunk_size_loop data size = (st, size', rest) -> size < 2 ^ 64 -> size' < 2 ^ 64.
Proof.
  revert size. induction data as [|c data IH]; intros size E Hsz; cbn [chunk_size_loop] in E; [by simplify_eq|]. destruct (chunk_digit c).
  - eapply IH; [exact E|]. apply Z.mod_pos_bound. lia.
  - destruct (c =? 59); [by simplify_eq|]. destruct (c =? 10); [by simplify_eq|]. by eapply IH.
Qed.
Lemma chunk_round_run s data :
  data <> [] -> is_final (ck_state s) = false -> ck_ok s ->
  exists s' rest, chunk_round data s = (s', Ok rest) /\ ck_run s data = ck_run s' rest /\ ck_ok s' /\
    (2 * length rest + no_payload s' < 2 * length data + no_payload s)%nat.
Proof.
  intros Hne HF [Hp Hsz]. destruct s as [st p size]. unfold ck_ok. cbn [ck_state ck_size ck_peer] in *. assert (HL : (0 < length data)%nat) by (destruct data; [done|cbn; lia]).
  assert (HB : forall s, (no_payload s <= 1)%nat) by (intros [[] ? ?]; cbn; try lia; destruct (_ <=? _); lia).
  unfold chunk_round, bind, get, put, ret, on, set_ck, set_ck_peer. cbn [ck_state ck_size ck_peer]. destruct st; try done.
  - destruct (chunk_size_loop data size) as [[st' size'] rest] eqn:E. eexists _, _. split; [done|]. split; [by eapply chunk_size_loop_run|].
    apply chunk_size_loop_length in E as Hl. specialize (HB (mkChunked st' p size')). split; [|lia]. cbn [ck_size ck_peer]. split; [done|]. by eapply chunk_size_loop_range.
  - destruct (skip_line _ _ data) as [st' rest] eqn:E. eexists _, _. split; [done|]. split; [by eapply skip_line_run|]. apply skip_line_length in E. specialize (HB (mkChunked st' p size)). split; [done|]. lia.
  - set (n := if size <? len data then size else len data). destruct (sink_law p (take (Z.to_nat n) data) Hp) as (r & -> & _). cbn [ck_state ck_size ck_peer].
    pose proof (feed_ok p (take (Z.to_nat n) data) Hp) as Hp'. destruct (Z.leb_spec size 0) as [H0|H0].
    + assert (n = size) as -> by (subst n; by rewrite (proj2 (Z.ltb_lt size _)) by lia). rewrite Z.sub_diag. replace (Z.to_nat size) with 0%nat in * by lia. cbn [u64 wrap]. change (u64 0 =? 0) with true. cbn [ck_state ck_size ck_peer].
      eexists _, _. split; [done|]. split; [|split; [done|]; unfold no_payload; cbn [ck_state ck_size drop]; rewrite (proj2 (Z.leb_le size 0)) by lia; rewrite drop_0; lia]. cbn [take drop]. rewrite feed_nil.
      destruct data as [|c data]; [done|]. rewrite !bytewise_step by done. unfold chunk_step, set_ck. cbn [ck_state ck_size ck_peer]. by rewrite (proj2 (Z.leb_le size 0)) by lia.
    + assert (Hn : 0 < n <= size /\ n <= len data) by (subst n; destruct (Z.ltb_spec size (len data)); lia). assert (HU : u64 (size - n) = size - n) by (apply Z.mod_small; lia). rewrite !HU.
      pose proof (payload_run p size data (Z.to_nat n) ltac:(lia) ltac:(lia) ltac:(lia)) as HP. rewrite Z2Nat.id in HP by lia. rewrite HP.
      pose proof (length_drop data (Z.to_nat n)) as HD. specialize (HB (mkChunked (if size - n =? 0 then PayloadEnd else Payload) (feed p (take (Z.to_nat n) data)) (size - n))).
      destruct (Z.eqb_spec (size - n) 0) as [Hz|Hz]; (eexists _, _; split; [done|]; cbn [ck_state ck_size ck_peer]; split; [done|]; split; [split; [done|lia]|]; lia).
  - destruct (skip_line _ _ data) as [st' rest] eqn:E. eexists _, _. split; [done|]. split; [by eapply skip_line_run|]. apply skip_line_length in E. specialize (HB (mkChunked st' p size)). split; [done|]. lia.
  - destruct (trailer_loop data) as [st' rest] eqn:E. eexists _, _. split; [done|]. split; [by eapply trailer_loop_run|]. apply trailer_loop_length in E. specialize (HB (mkChunked st' p size)). split; [done|]. lia.
  - destruct (skip_line _ _ data) as [st' rest] eqn:E. eexists _, _. split; [done|]. split; [by eapply skip_line_run|]. apply skip_line_length in E. specialize (HB (mkChunked st' p size)). split; [done|]. lia.
Qed.
Definition ck_final s : bool := is_final (ck_state s).
Lemma chunked_loop_run fuel s data :
  (2 * length data + no_payload s <= fuel)%nat -> ck_ok s -> chunked_loop fuel data s = ((ck_run s data).1, Ok (ck_run s data).2).
Proof.
  revert s data. induction fuel as [|fuel IH]; intros s data Hf Ho; cbn [chunked_loop]; unfold bind, get; destruct (is_final (ck_state s)) eqn:EF; cbn [negb andb].
  1,3: by rewrite (bytewise_final _ _ s).
  all: destruct (Nat.eqb_spec (length data) 0) as [Hz|Hz]; cbn [negb]; [apply length_zero_iff_nil in Hz as ->; by rewrite bytewise_nil|].
  - lia.
  - destruct (chunk_round_run s data) as (s' & rest & E & HR & Ho' & Hl); [by intros ->|done|done|]. rewrite E, HR. apply IH; [lia|done].
Qed.
Lemma chunk_step_ok s c : ck_ok s -> ck_ok (chunk_step s c).
Proof.
  intros [Hp Hs]. unfold chunk_step, ck_ok, set_ck. destruct s as [st p size]. cbn [ck_state ck_size ck_peer] in *. destruct st; cbn [ck_size ck_peer]; try done.
  - destruct (chunk_digit c); cbn [ck_size ck_peer]; (split; [done|]); [apply Z.mod_pos_bound; lia|done].
  - destruct (size <=? 0); cbn [ck_size ck_peer]; [done|]. split; [by apply feed_ok|lia].
Qed.
#[export] Program Instance chunked_bytes : ByteSink (ChunkedSink P) := {
  sink_final := ck_final;
  sink_step := chunk_step;
  sink_ok := ck_ok;
}.
Next Obligation. intros s c. apply chunk_step_ok. Qed.
Next Obligation.
  intros s data Ho. exists (ck_run s data).2. split; [|done]. unfold handleData, chunked_sink, bind at 1. rewrite chunked_loop_run; [done| |done].
  unfold no_payload. destruct (ck_state s); try lia. destruct (_ <=? _); lia.
Qed.

(** *** Chunked data *)

Definition hex_value (ds : list Z) : Z := fold_left (fun n c => 16 * n + default 0 (chunk_digit c)) ds 0.
Definition hex_digits (ds : list Z) : Prop := Forall (fun c => is_Some (chunk_digit c)) ds.
(** A line without its end: no LF, and CR is of no meaning *)
Definition no_lf (l : list Z) : Prop := Forall (fun c => c <> 10) l.
Definition extension (l : list Z) : Prop := no_lf l /\ match l with [] => True | c :: _ => c = 59 end.
Record Chunk := mkChunk { k_size : list Z; k_ext : list Z; k_data : list Z }.
Definition chunk_ok (k : Chunk) : Prop :=
  hex_digits (k_size k) /\ hex_value (k_size k) = len (k_data k) /\ len (k_data k) < 2 ^ 64 /\ k_data k <> [] /\ extension (k_ext k).
Definition chunk_text (k : Chunk) : list Z := lf_text (k_size k ++ k_ext k) ++ lf_text (k_data k).
Definition trailer_ok (l : list Z) : Prop := no_lf l /\ match l with [] => False | c :: _ => c <> 13 end.
Definition chunked_text (chunks : list Chunk) (zero ext : list Z) (trailer : list (list Z)) : list Z :=
  concat (map chunk_text chunks) ++ lf_text (zero ++ ext) ++ concat (map lf_text trailer) ++ [13; 10].

Lemma chunk_digit_range c d : chunk_digit c = Some d -> 0 <= d < 16.
Proof.
  unfold chunk_digit. destruct (Z.leb_spec 48 c), (Z.leb_spec c 57); cbn [andb]; try (intros [= <-]; lia);
    destruct (Z.leb_spec 65 c), (Z.leb_spec c 70); cbn [andb]; try (intros [= <-]; lia); destruct (Z.leb_spec 97 c), (Z.leb_spec c 102); cbn [andb]; try (intros [= <-]; lia); done.
Qed.
Lemma hex_fold_ge l n : 0 <= n -> n <= fold_left (fun n c => 16 * n + default 0 (chunk_digit c)) l n.
Proof.
  revert n. induction l as [|c l IH]; intros n Hn; cbn [fold_left]; [lia|]. specialize (IH (16 * n + default 0 (chunk_digit c))).
  destruct (chunk_digit c) as [d|] eqn:E; cbn [default from_option id] in *; [apply chunk_digit_range in E|]; lia.
Qed.
Lemma size_run p ds data : forall size, hex_digits ds -> 0 <= size ->
  fold_left (fun n c => 16 * n + default 0 (chunk_digit c)) ds size < 2 ^ 64 ->
  ck_run (mkChunked ChunkSize p size) (ds ++ data) = ck_run (mkChunked ChunkSize p (fold_left (fun n c => 16 * n + default 0 (chunk_digit c)) ds size)) data.
Proof.
  induction ds as [|c ds IH]; intros size Hd H0 Hs; [done|]. apply Forall_cons in Hd as [[d Ed] Hd]. cbn [app fold_left] in *. rewrite bytewise_step by done. unfold chunk_step, set_ck. cbn [ck_state ck_size ck_peer].
  rewrite Ed in *. cbn [default from_option id] in *. pose proof (chunk_digit_range c d Ed) as Hr. pose proof hex_fold_ge as HM.
  specialize (HM ds (16 * size + d) ltac:(lia)). assert (HU : u64 (u64 (16 * size) + d) = 16 * size + d).
  { unfold u64, wrap. rewrite (Z.mod_small (16 * size)) by lia. apply Z.mod_small. lia. }
  rewrite HU. apply IH; [done|lia|done].
Qed.
Lemma line_run here next p size l data :
  (forall c, chunk_step (mkChunked here p size) c = mkChunked (ck_line here next c) p size) -> is_final here = false -> no_lf l ->
  ck_run (mkChunked here p size) (l ++ 10 :: data) = ck_run (mkChunked next p size) data.
Proof.
  intros HS HF. induction 1 as [|c l Hc Hl IH]; cbn [app]; rewrite bytewise_step by done; rewrite HS; unfold ck_line; [done|]. by rewrite (proj2 (Z.eqb_neq c 10)).
Qed.
Lemma no_lf_cr l : no_lf l -> no_lf (l ++ [13]).
Proof. intros H. apply Forall_app. split; [done|]. by repeat constructor. Qed.
Lemma lf_text_app l data : lf_text l ++ data = (l ++ [13]) ++ 10 :: data.
Proof. unfold lf_text. rewrite <- !app_assoc. done. Qed.
(** A size line, from any position *)
Lemma size_line_run p ds ext data :
  hex_digits ds -> hex_value ds < 2 ^ 64 -> extension ext ->
  ck_run (mkChunked ChunkSize p 0) (lf_text (ds ++ ext) ++ data) = ck_run (mkChunked (after_size (hex_value ds)) p (hex_value ds)) data.
Proof.
  intros Hd Hv [He Hf]. rewrite lf_text_app, <- !app_assoc. rewrite size_run by done. fold (hex_value ds). destruct ext as [|c ext].
  - cbn [app]. rewrite bytewise_step by done. cbn [chunk_step ck_state]. unfold chunk_step. cbn [ck_state ck_size ck_peer]. change (chunk_digit 13) with (@None Z). cbn. done.
  - subst c. apply Forall_cons in He as [_ He]. cbn [app]. rewrite bytewise_step by done. unfold chunk_step. cbn [ck_state ck_size ck_peer]. change (chunk_digit 59) with (@None Z). cbn [Z.eqb Pos.eqb]. unfold set_ck. cbn [ck_peer].
    replace (ext ++ 13 :: 10 :: data) with ((ext ++ [13]) ++ 10 :: data) by (by rewrite <- app_assoc). apply (line_run Extension); [done|done|by apply no_lf_cr].
Qed.
Lemma chunk_run p k data : chunk_ok k -> ck_run (mkChunked ChunkSize p 0) (chunk_text k ++ data) = ck_run (mkChunked ChunkSize (feed p (k_data k)) 0) data.
Proof.
  intros (Hd & Hv & Hs & Hne & He). unfold chunk_text. rewrite <- app_assoc, size_line_run by (done || lia). rewrite Hv. assert (HL : 0 < len (k_data k)) by (destruct (k_data k); [done|cbn; lia]).
  unfold after_size. rewrite (proj2 (Z.eqb_neq _ 0)) by lia. unfold lf_text at 1. rewrite <- app_assoc.
  rewrite (payload_run _ _ _ (length (k_data k))) by (rewrite ?length_app; lia). rewrite Z.sub_diag, take_app_length, drop_app_length. change (0 =? 0) with true. cbn match.
  apply (line_run PayloadEnd ChunkSize _ _ [13]); [done|done|by repeat constructor].
Qed.
Lemma trailer_run p l data : trailer_ok l -> ck_run (mkChunked Trailer p 0) (lf_text l ++ data) = ck_run (mkChunked Trailer p 0) data.
Proof.
  intros [Hl Hf]. rewrite lf_text_app. destruct l as [|c l]; [done|]. apply Forall_cons in Hl as [Hc Hl]. cbn [app]. rewrite bytewise_step by done. unfold chunk_step, set_ck. cbn [ck_state ck_size ck_peer].
  rewrite (proj2 (Z.eqb_neq c 13)), (proj2 (Z.eqb_neq c 10)) by done. apply (line_run TrailerHeader); [done|done|by apply no_lf_cr].
Qed.
Lemma chunked_text_run p chunks zero ext trailer data :
  Forall chunk_ok chunks -> hex_digits zero -> hex_value zero = 0 -> extension ext -> Forall trailer_ok trailer ->
  ck_run (mkChunked ChunkSize p 0) (chunked_text chunks zero ext trailer ++ data) = (mkChunked Final (feed p (concat (map k_data chunks))) 0, data).
Proof.
  intros HC Hz Hv He HT. unfold chunked_text. rewrite <- !app_assoc. revert p. induction HC as [|k chunks Hk HC IH]; intros p.
  - cbn [map concat app]. rewrite size_line_run by (done || lia). rewrite Hv, feed_nil. change (after_size 0) with Trailer.
    induction HT as [|l trailer Hl HT IHT]; [cbn [map concat app]; rewrite !bytewise_step by done; by rewrite bytewise_final|]. cbn [map concat]. by rewrite <- app_assoc, trailer_run.
  - cbn [map concat]. rewrite <- app_assoc, chunk_run by done. rewrite IH. by rewrite sink_absorb_app.
Qed.
End ChunkedProps.

(** ** Lemmas: BufferedSink *)

Section BufferedProps.
Context {P : Type} `{!DataSink P, !ByteSink P}.
Implicit Types (s : BufferedSink P) (data : list Z).
(** The state the peer is in when what is buffered has been given to it *)
Definition bk_view s : P := feed (bk_peer s) (take (bk_bufferFill s) (bk_rawBuffer s)).
Definition bk_ok s : Prop := sink_ok (bk_peer s) /\ (bk_bufferFill s < length (bk_rawBuffer s))%nat.
Lemma flush_spec s : sink_ok (bk_peer s) -> (bk_bufferFill s <= length (bk_rawBuffer s))%nat -> (0 < length (bk_rawBuffer s))%nat ->
  BufferedSink_flush s = (mkBufferedSink (bk_view s) (bk_rawBuffer s) 0, Ok tt).
Proof.
  intros Ho Hf Hr. destruct s as [p raw fill]. unfold BufferedSink_flush, bk_view, bind, get, put, on, set_bk_peer. cbn [bk_peer bk_rawBuffer bk_bufferFill] in *.
  destruct (Nat.eqb_spec fill 0) as [->|Hz]; [by rewrite take_0, feed_nil|]. cbn [negb]. by destruct (sink_law p (take fill raw) Ho) as (rest & -> & _).
Qed.
Lemma buffered_round fuel s data :
  bk_ok s -> data <> [] -> exists s' rest, buffered_loop (S fuel) data s = buffered_loop fuel rest s' /\ bk_ok s' /\ length (bk_rawBuffer s') = length (bk_rawBuffer s) /\
    feed (bk_view s') rest = feed (bk_view s) data /\ (length rest < length data)%nat.
Proof.
  intros [Ho Hf] Hne. assert (HL : (0 < length data)%nat) by (destruct data; [done|cbn; lia]). destruct s as [p raw fill]. cbn [bk_peer bk_rawBuffer bk_bufferFill] in *. cbn [buffered_loop].
  rewrite (proj2 (Nat.eqb_neq (length data) 0)) by lia. unfold bind at 1, get at 1. cbn [bk_peer bk_rawBuffer bk_bufferFill]. destruct (Nat.eqb_spec fill 0) as [Hz|Hz]; destruct (Nat.leb_spec (length raw) (length data)) as [Hd|Hd]; cbn [andb].
  1: { subst fill. destruct (sink_law p data Ho) as (rest & E & _). unfold bind at 1, on. cbn [bk_peer]. rewrite E. unfold set_bk_peer. cbn [bk_peer bk_rawBuffer bk_bufferFill]. eexists _, []. split; [done|].
    unfold bk_ok, bk_view. cbn [bk_peer bk_rawBuffer bk_bufferFill length]. rewrite !take_0, !feed_nil. split; [split; [by apply feed_ok|done]|done]. }
  all: unfold buffer_copy; cbn [bk_peer bk_rawBuffer bk_bufferFill]; set (copied := Nat.min (length raw - fill) (length data));
    assert (Hc : (0 < copied <= length data)%nat /\ (fill + copied <= length raw)%nat) by (subst copied; lia);
    unfold bind at 1, put at 1; rewrite (proj2 (Nat.eqb_neq copied 0)) by lia; unfold bind at 1, put at 1; unfold bind at 1, get at 1; cbn [bk_peer bk_rawBuffer bk_bufferFill];
    set (raw' := take fill raw ++ take copied data ++ drop (fill + copied) raw);
    assert (HR : length raw' = length raw) by (subst raw'; rewrite !length_app, !length_take, length_drop; lia);
    assert (HT : take (fill + copied) raw' = take fill raw ++ take copied data)
      by (subst raw'; rewrite app_assoc; apply take_app_length'; rewrite length_app, !length_take; lia);
    rewrite HR; pose proof (length_drop data copied) as HD;
    (destruct (Nat.leb_spec (length raw) (fill + copied));
     [unfold bind at 1; rewrite flush_spec by (cbn; lia || done) | unfold bind at 1, ret at 1]; eexists _, (drop copied data);
     (split; [done|]); unfold bk_ok, bk_view; cbn [bk_peer bk_rawBuffer bk_bufferFill]; rewrite HR, HT, ?take_0, ?feed_nil, <- !sink_absorb_app, <- ?app_assoc, take_drop;
     (split; [split; [done || by apply feed_ok|lia]|]); (split; [done|]); (split; [done|lia])).
Qed.
Lemma buffered_loop_spec fuel s data :
  (length data <= fuel)%nat -> bk_ok s -> exists s', buffered_loop fuel data s = (s', Ok []) /\ bk_ok s' /\ length (bk_rawBuffer s') = length (bk_rawBuffer s) /\ bk_view s' = feed (bk_view s) data.
Proof.
  revert s data. induction fuel as [|fuel IH]; intros s data Hf Ho.
  { destruct data; [|cbn in Hf; lia]. exists s. by rewrite feed_nil. }
  destruct (decide (data = [])) as [->|Hne]; [exists s; by rewrite feed_nil|]. destruct (buffered_round fuel s data Ho Hne) as (s1 & rest & E & Ho1 & HR1 & HV & Hl). rewrite E.
  destruct (IH s1 rest) as (s' & E' & Ho' & HR' & HV'); [lia|done|]. exists s'. rewrite HV', HV, HR', HR1. done.
Qed.
End BufferedProps.

(** C26. HTTP chunked transfer coding: data that is encoded in any number of chunks, with
    any hexadecimal digits for their sizes, any extensions and trailer fields, and that
    arrives in any pieces, is given to the peer as the concatenation of the chunks; the
    sink is then complete and leaves the bytes behind the end of the encoded data. *)
Theorem chunked_decoding_correct {P} `{!DataSink P, !ByteSink P} (p : P) chunks zero ext trailer pieces rest :
  sink_ok p -> Forall chunk_ok chunks -> hex_digits zero -> hex_value zero = 0 -> extension ext -> Forall trailer_ok trailer ->
  concat pieces = chunked_text chunks zero ext trailer ++ rest ->
  feed_pieces pieces (ChunkedSink_new p) = (mkChunked Final (feed p (concat (map k_data chunks))) 0, Ok (true, rest)).
Proof.
  intros Ho HC Hz Hv He HT HP. rewrite feed_pieces_spec; [|split; [done|cbn; lia]|done]. unfold absorb at 1 2. rewrite HP.
  change (bytewise sink_final sink_step) with (bytewise (S := ChunkedSink P) (fun s => is_final (ck_state s)) chunk_step). unfold ChunkedSink_new. by rewrite chunked_text_run.
Qed.
Lemma chunked_decoding_correct_witness :
  feed_pieces [[53; 59]; [120; 13; 10; 1; 2]; [10; 4; 5; 13]; [10; 48; 48]; [13; 10; 88; 58; 13; 10; 13; 10; 7]; [8]] (ChunkedSink_new InternalSink_new) = (mkChunked Final (mkInternalSink [1; 2; 10; 4; 5]) 0, Ok (true, [7; 8])).
Proof.
  rewrite (chunked_decoding_correct InternalSink_new [mkChunk [53] [59; 120] [1; 2; 10; 4; 5]] [48; 48] [] [[88; 58]]
    [[53; 59]; [120; 13; 10; 1; 2]; [10; 4; 5; 13]; [10; 48; 48]; [13; 10; 88; 58; 13; 10; 13; 10; 7]; [8]] [7; 8]).
  - reflexivity.
  - exact I.
  - constructor; [|constructor]. split; [by repeat constructor|]. split; [reflexivity|]. split; [reflexivity|]. split; [discriminate|]. split; [by repeat constructor|reflexivity].
  - by repeat constructor.
  - reflexivity.
  - split; [constructor|exact I].
  - constructor; [|constructor]. split; [by repeat constructor|discriminate].
  - reflexivity.
Defined.

(** The data sinks, over any peer that keeps the contract.  LimitedDataSink gives the
    peer the data up to the limit, is complete when the limit is reached, and leaves the
    rest.  BufferedSink takes all data, and after a flush the peer is in the state it would
    have without the buffer, whatever the sizes of the pieces and of the buffer.
    handleFullData fails if and only if the sink is complete before the end of the data,
    and InternalSink collects the data. *)
Theorem data_sinks_correct {P} `{!DataSink P, !ByteSink P} (p : P) (limit : N) raw pieces data :
  sink_ok p -> (0 < length raw)%nat ->
  (let n := N.to_nat (N.min limit (N.of_nat (length data))) in
   handleData data (mkLimitedSink p limit) = (mkLimitedSink (feed p (take n data)) (limit - N.of_nat n), Ok ((limit - N.of_nat n =? 0)%N, drop n data))) /\
  (exists s, feed_pieces pieces (BufferedSink_new p raw) = (s, Ok (false, [])) /\
     BufferedSink_flush s = (mkBufferedSink (feed p (concat pieces)) (bk_rawBuffer s) 0, Ok tt)) /\
  handleFullData data p = (feed p data, if sink_final (feed p data) && negb (length (feed_rest p data) =? 0)%nat then Throw (FileProblemException cannotWrite) else Ok tt) /\
  (forall l, InternalSink_getContent (feed (mkInternalSink l) data) = l ++ data).
Proof.
  intros Ho Hr. split; [|split; [|split]].
  - cbn zeta. set (n := N.to_nat _). unfold handleData, limited_sink, bind, get, put, on, set_ls_peer. cbn [ls_limit ls_peer]. fold n. by destruct (sink_law p (take n data) Ho) as (rest & -> & _).
  - assert (HG : forall s, bk_ok s -> exists s', feed_pieces pieces s = (s', Ok (false, [])) /\ bk_ok s' /\ bk_view s' = feed (bk_view s) (concat pieces)).
    { clear. induction pieces as [|d pieces IH]; intros s Hs; [exists s; cbn; by rewrite feed_nil|]. cbn [feed_pieces concat]. unfold bind at 1, handleData, buffered_sink, bind at 1.
      destruct (buffered_loop_spec (length d) s d) as (s1 & -> & Ho1 & _ & HV1); [lia|done|]. cbn [ret]. destruct (IH s1 Ho1) as (s' & E & Ho' & HV). exists s'. split; [exact E|]. split; [done|]. by rewrite HV, HV1, sink_absorb_app. }
    destruct (HG (BufferedSink_new p raw)) as (s & E & [Hs1 Hs2] & HV); [by split|]. exists s. split; [done|]. rewrite flush_spec by (done || lia). rewrite HV. unfold bk_view. cbn [bk_peer bk_rawBuffer bk_bufferFill BufferedSink_new]. by rewrite feed_nil.
  - by apply handleFullData_spec.
  - intros l. by rewrite internal_feed.
Qed.
Lemma data_sinks_correct_witness :
  exists s, feed_pieces [[1; 2]; [3]; [4; 5; 6; 7; 8; 9]; [10]] (BufferedSink_new InternalSink_new [0; 0; 0; 0]) = (s, Ok (false, [])) /\
     BufferedSink_flush s = (mkBufferedSink (mkInternalSink [1; 2; 3; 4; 5; 6; 7; 8; 9; 10]) (bk_rawBuffer s) 0, Ok tt).
Proof. exact (proj1 (proj2 (data_sinks_correct InternalSink_new 3 [0; 0; 0; 0] [[1; 2]; [3]; [4; 5; 6; 7; 8; 9]; [10]] [1] I ltac:(cbn; lia)))). Defined.
