(* ===== verification/Headers.v ===== *)
(** * Header fields and form parameters

    src/afl/net/headerconsumer.hpp, headerparser.cpp, headerfield.cpp, headertable.cpp,
    parameterencoder.cpp, http/formparser.cpp, and quoteFieldName of mimebuilder.cpp.

    A consumer of header fields is a [HeaderConsumer]; a parser is a [DataSink] on top of
    a consumer, and keeps the contract of [ByteSink]. *)

From Stdlib Require Import ZArith Lia Bool String.
From stdpp Require Import base tactics numbers option list.
From S2P Require Import Prelude Encodings Strings Stream Sinks.

Local Open Scope Z_scope.
Local Open Scope afl_scope.

Class HeaderConsumer (C : Type) := handleHeader : C -> list Z -> list Z -> C.

(** ** HeaderParser *)

Inductive HeaderState := InitialState | KeyState | ValueState | NewlineState | ErrorState | FinalState.
Record HeaderParser (C : Type) := mkHeaderParser {
  hp_consumer : C; hp_hasErrors : bool; hp_hasFolding : bool; hp_key : list Z; hp_value : list Z; hp_state : HeaderState }.
Arguments mkHeaderParser {C} _ _ _ _ _ _.
Arguments hp_consumer {C} _.
Arguments hp_hasErrors {C} _.
Arguments hp_hasFolding {C} _.
Arguments hp_key {C} _.
Arguments hp_value {C} _.
Arguments hp_state {C} _.
Definition HeaderParser_new {C} (consumer : C) : HeaderParser C := mkHeaderParser consumer false false [] [] InitialState.

Section HeaderParser.
Context {C : Type} `{!HeaderConsumer C}.
Implicit Types (p : HeaderParser C).

Definition hp_set_state (st : HeaderState) p : HeaderParser C := mkHeaderParser (hp_consumer p) (hp_hasErrors p) (hp_hasFolding p) (hp_key p) (hp_value p) st.
Definition hp_error p : HeaderParser C := mkHeaderParser (hp_consumer p) true (hp_hasFolding p) (hp_key p) (hp_value p) (hp_state p).
Definition hp_folding p : HeaderParser C := mkHeaderParser (hp_consumer p) (hp_hasErrors p) true (hp_key p) (hp_value p) (hp_state p).
Definition hp_clear_key p : HeaderParser C := mkHeaderParser (hp_consumer p) (hp_hasErrors p) (hp_hasFolding p) [] (hp_value p) (hp_state p).
Definition hp_append_key (c : Z) p : HeaderParser C := mkHeaderParser (hp_consumer p) (hp_hasErrors p) (hp_hasFolding p) (hp_key p ++ [c]) (hp_value p) (hp_state p).
Definition hp_append_value (c : Z) p : HeaderParser C := mkHeaderParser (hp_consumer p) (hp_hasErrors p) (hp_hasFolding p) (hp_key p) (hp_value p ++ [c]) (hp_state p).
Definition hp_flush p : HeaderParser C :=
  mkHeaderParser (handleHeader (hp_consumer p) (hp_key p) (hp_value p)) (hp_hasErrors p) (hp_hasFolding p) [] [] (hp_state p).
Definition hp_append_space (c : Z) p : HeaderParser C := if negb (length (hp_value p) =? 0)%nat then hp_append_value c p else p.

(** The cases of the switch on the character, each a switch on the state *)
Definition hp_newline p : HeaderParser C :=
  match hp_state p with
  | InitialState => hp_set_state FinalState p
  | KeyState => hp_set_state InitialState (hp_clear_key (hp_error p))
  | ValueState => hp_set_state NewlineState p
  | NewlineState => hp_set_state FinalState (hp_flush p)
  | ErrorState => hp_set_state InitialState (hp_clear_key p)
  | FinalState => p
  end.
Definition hp_space (c : Z) p : HeaderParser C :=
  match hp_state p with
  | InitialState | KeyState => hp_set_state ErrorState (hp_error (hp_clear_key p))
  | ValueState => hp_append_space c p
  | NewlineState => hp_append_space c (hp_set_state ValueState (hp_folding p))
  | ErrorState | FinalState => p
  end.
Definition hp_colon (c : Z) p : HeaderParser C :=
  match hp_state p with
  | InitialState => hp_set_state ErrorState (hp_error p)
  | KeyState => hp_set_state ValueState p
  | ValueState => hp_append_value c p
  | NewlineState => hp_set_state ErrorState (hp_error (hp_flush p))
  | ErrorState | FinalState => p
  end.
Definition hp_other (c : Z) p : HeaderParser C :=
  match hp_state p with
  | InitialState => hp_set_state KeyState (hp_append_key c p)
  | KeyState => hp_append_key c p
  | ValueState => hp_append_value c p
  | NewlineState => hp_set_state KeyState (hp_append_key c (hp_flush p))
  | ErrorState | FinalState => p
  end.
Definition hp_char p (c : Z) : HeaderParser C :=
  if c =? 0 then hp_error p
  else if c =? 13 then p
  else if c =? 10 then hp_newline p
  else if (c =? 32) || (c =? 9) then hp_space c p
  else if c =? 58 then hp_colon c p
  else hp_other c p.
Definition hp_isCompleted p : bool := match hp_state p with FinalState => true | _ => false end.
Fixpoint hp_loop (bytes : list Z) p : HeaderParser C * list Z :=
  if negb (hp_isCompleted p)
  then match bytes with
       | c :: bytes' => hp_loop bytes' (hp_char p c)
       | [] => (p, [])
       end
  else (p, bytes).
#[export] Instance header_sink : DataSink (HeaderParser C) := fun bytes p =>
  let '(p, bytes) := hp_loop bytes p in (p, Ok (hp_isCompleted p, bytes)).
End HeaderParser.

(** ** HeaderField *)

Record HeaderField := mkField { hf_name : list Z; hf_value : list Z }.
Definition NoComments : Z := 1.
Definition NoQuotes : Z := 2.
Definition NoPrimary : Z := 4.
Definition mode_off (mode bit : Z) : bool := Z.land mode bit =? 0.
Definition setValue (value : list Z) (f : HeaderField) : HeaderField := mkField (hf_name f) value.

(** extractPart: the part, and what is behind the new position *)
Inductive PartState := Raw | DQ | DQQ | Paren | ParenQ.
Fixpoint extract_loop (mode : Z) (state : PartState) (value : list Z) (result : list Z) : list Z * list Z :=
  match value with
  | [] => (result, [])
  | c :: value' =>
      match state with
      | Raw =>
          if (c =? 34) && mode_off mode NoQuotes then extract_loop mode DQ value' result
          else if (c =? 40) && mode_off mode NoComments then extract_loop mode Paren value' result
          else if c =? 59 then (result, value')
          else extract_loop mode Raw value' (result ++ [c])
      | DQ =>
          if c =? 92 then extract_loop mode DQQ value' result
          else if c =? 34 then extract_loop mode Raw value' result
          else extract_loop mode DQ value' (result ++ [c])
      | DQQ => extract_loop mode DQ value' (result ++ [c])
      | Paren =>
          if c =? 41 then extract_loop mode Raw value' result
          else if c =? 92 then extract_loop mode ParenQ value' result
          else extract_loop mode Paren value' result
      | ParenQ => extract_loop mode Paren value' result
      end
  end.
Definition extractPart (value : list Z) (mode : Z) : list Z * list Z := extract_loop mode Raw value [].
Definition getPrimaryValue (f : HeaderField) (mode : Z) : list Z := strTrim (extractPart (hf_value f) mode).1.

Section Secondary.
Context {C : Type} `{!HeaderConsumer C}.
(** [while (pos < m_value.size())]; every part takes a character *)
Fixpoint secondary_loop (fuel : nat) (mode : Z) (value : list Z) (consumer : C) : C :=
  if (length value =? 0)%nat then consumer
  else match fuel with
       | O => consumer
       | S fuel' =>
           let '(part, value) := extractPart value mode in
           let consumer :=
             match find part [61] with
             | Some pos => handleHeader consumer (strTrim (take pos part)) (strTrim (drop (pos + 1) part))
             | None => handleHeader consumer (strTrim part) []
             end in
           secondary_loop fuel' mode value consumer
       end.
Definition enumerateSecondaryValues (f : HeaderField) (mode : Z) (consumer : C) : C :=
  let value := if mode_off mode NoPrimary then (extractPart (hf_value f) mode).2 else hf_value f in
  secondary_loop (length value) mode value consumer.
End Secondary.

(** The helper of getSecondaryValue: the name, and the value when it has been found *)
Record SecondaryHelper := mkHelper { sh_name : list Z; sh_value : option (list Z) }.
#[export] Instance secondary_consumer : HeaderConsumer SecondaryHelper := fun h key value =>
  match sh_value h with
  | None => if strCaseCompare key (sh_name h) =? 0 then mkHelper (sh_name h) (Some value) else h
  | Some _ => h
  end.
Definition getSecondaryValue (f : HeaderField) (name : list Z) (mode : Z) : option (list Z) :=
  sh_value (enumerateSecondaryValues f mode (mkHelper name None)).

Definition getAddressValue (f : HeaderField) : option (list Z) :=
  let parsed := getPrimaryValue f 0 in
  let parsed :=
    match (match find parsed [60] with Some n => (fun p => (n, n + 1 + p)%nat) <$> find (drop (n + 1) parsed) [62] | None => None end) with
    | Some (n, p) => drop (n + 1) (take p parsed)
    | None => match find parsed [44] with Some n => take n parsed | None => parsed end
    end in
  let parsed := strTrim parsed in
  if (match find parsed [64] with None => true | Some _ => false end) || existsb (fun c => (c =? 32) || (c =? 9)) parsed then None else Some parsed.

(** ** HeaderTable *)

Record HeaderTable := mkTable { m_headers : list HeaderField }.
Fixpoint table_get (name : list Z) (l : list HeaderField) : option nat :=
  match l with
  | f :: l' => if strCaseCompare name (hf_name f) =? 0 then Some 0%nat else S <$> table_get name l'
  | [] => None
  end.
(** The position of the field that the result points to *)
Definition HeaderTable_find (t : HeaderTable) (name : list Z) : option nat := table_get name (m_headers t).
Definition HeaderTable_get (t : HeaderTable) (name : list Z) : option HeaderField :=
  match HeaderTable_find t name with Some i => m_headers t !! i | None => None end.
Definition HeaderTable_addField (f : HeaderField) (t : HeaderTable) : HeaderTable := mkTable (m_headers t ++ [f]).
Definition HeaderTable_add (name value : list Z) (t : HeaderTable) : HeaderTable := HeaderTable_addField (mkField name value) t.
Definition HeaderTable_set (name value : list Z) (t : HeaderTable) : HeaderTable :=
  match HeaderTable_find t name with
  | Some i => mkTable (alter (setValue value) i (m_headers t))
  | None => HeaderTable_addField (mkField name value) t
  end.
Definition HeaderTable_clear (t : HeaderTable) : HeaderTable := mkTable [].
#[export] Instance table_consumer : HeaderConsumer HeaderTable := fun t name value => HeaderTable_add name value t.
Definition enumerateHeaders {C} `{!HeaderConsumer C} (t : HeaderTable) (consumer : C) : C :=
  fold_left (fun consumer f => handleHeader consumer (hf_name f) (hf_value f)) (m_headers t) consumer.
Fixpoint writeHeaders_loop {S} `{!DataSink S} (l : list HeaderField) : M S unit :=
  match l with
  | [] => ret tt
  | f :: l' =>
      let@ _ := handleFullData (hf_name f) in
      let@ _ := handleFullData [58; 32] in
      let@ _ := handleFullData (hf_value f) in
      let@ _ := handleFullData [13; 10] in
      writeHeaders_loop l'
  end.
Definition writeHeaders {S} `{!DataSink S} (t : HeaderTable) : M S unit := writeHeaders_loop (m_headers t).

(** ** ParameterEncoder and FormParser *)

Record ParameterEncoder := mkEncoder { pe_result : list Z; pe_first : bool; pe_firstDelimiter : Z }.
Definition ParameterEncoder_new (result : list Z) (firstDelimiter : Z) : ParameterEncoder := mkEncoder result true firstDelimiter.
#[export] Instance encoder_consumer : HeaderConsumer ParameterEncoder := fun e key value =>
  let result :=
    if pe_first e then (if negb (pe_firstDelimiter e =? 0) then pe_result e ++ [pe_firstDelimiter e] else pe_result e)
    else pe_result e ++ [38] in
  mkEncoder (result ++ url_encode key ++ [61] ++ url_encode value) false (pe_firstDelimiter e).

Inductive FormState := Key | Value.
Record FormParser (C : Type) := mkForm { fp_consumer : C; fp_state : FormState; fp_key : list Z; fp_value : list Z }.
Arguments mkForm {C} _ _ _ _.
Arguments fp_consumer {C} _.
Arguments fp_state {C} _.
Arguments fp_key {C} _.
Arguments fp_value {C} _.
Definition FormParser_new {C} (consumer : C) : FormParser C := mkForm consumer Key [] [].
Section FormParser.
Context {C : Type} `{!HeaderConsumer C}.
Definition handleDataComplete (p : FormParser C) : FormParser C :=
  if negb (length (fp_key p) =? 0)%nat || negb (length (fp_value p) =? 0)%nat
  then mkForm (handleHeader (fp_consumer p) (url_decode (fp_key p)) (url_decode (fp_value p))) Key [] []
  else mkForm (fp_consumer p) Key (fp_key p) (fp_value p).
Definition form_char (p : FormParser C) (c : Z) : FormParser C :=
  if c =? 38 then handleDataComplete p
  else match fp_state p with
       | Key => if c =? 61 then mkForm (fp_consumer p) Value (fp_key p) (fp_value p) else mkForm (fp_consumer p) Key (fp_key p ++ [c]) (fp_value p)
       | Value => mkForm (fp_consumer p) Value (fp_key p) (fp_value p ++ [c])
       end.
#[export] Instance form_sink : DataSink (FormParser C) := fun data p => (fold_left form_char data p, Ok (false, [])).
End FormParser.

(** ** quoteFieldName (mimebuilder.cpp) *)
Fixpoint quoteFieldName (name : list Z) : list Z :=
  match name with
  | c :: name' => if (c =? 34) || (c =? 92) then 92 :: c :: quoteFieldName name' else c :: quoteFieldName name'
  | [] => []
  end.

Example headers_ex :
  getSecondaryValue (mkField [] (lit "form-data; name=" ++ [34] ++ quoteFieldName (lit "a;\" ++ [34] ++ lit "b") ++ [34] ++ lit " (c) ; x=y")) (lit "NAME") 0 = Some (lit "a;\" ++ [34] ++ lit "b") /\
  getAddressValue (mkField [] (lit "Me (x) <me@example.com>, you")) = Some (lit "me@example.com").
Proof. split; reflexivity. Qed.

(** ** Lemmas: HeaderParser *)

(** The fields a consumer is given, in order *)
Definition consume {C} `{!HeaderConsumer C} (fields : list (list Z * list Z)) (consumer : C) : C :=
  fold_left (fun consumer f => handleHeader consumer f.1 f.2) fields consumer.
Lemma consume_app {C} `{!HeaderConsumer C} f1 f2 (consumer : C) : consume (f1 ++ f2) consumer = consume f2 (consume f1 consumer).
Proof. apply fold_left_app. Qed.

Section HeaderProps.
Context {C : Type} `{!HeaderConsumer C}.
Implicit Types (p : HeaderParser C).

Lemma hp_loop_run bytes p : hp_loop bytes p = bytewise hp_isCompleted hp_char p bytes.
Proof. revert p. induction bytes as [|c bytes IH]; intros p; cbn [hp_loop bytewise]; destruct (hp_isCompleted p); cbn [negb]; done. Qed.
Lemma header_law p data : True -> exists rest, handleData data p = (absorb hp_isCompleted hp_char p data, Ok (hp_isCompleted (absorb hp_isCompleted hp_char p data), rest)) /\
  (hp_isCompleted (absorb hp_isCompleted hp_char p data) = true -> rest = (bytewise hp_isCompleted hp_char p data).2).
Proof. intros _. exists (bytewise hp_isCompleted hp_char p data).2. split; [|done]. unfold handleData, header_sink, absorb. rewrite hp_loop_run. by destruct (bytewise _ _ _ _). Qed.
#[export] Instance header_bytes : ByteSink (HeaderParser C) :=
  { sink_final := hp_isCompleted; sink_step := hp_char; sink_ok := fun _ => True; sink_ok_step := fun _ _ _ => I; sink_law := header_law }.
Abbreviation hp_run := (bytewise (S := HeaderParser C) hp_isCompleted hp_char).

(** Characters of a key, and of a value *)
Definition key_char (c : Z) : Prop := c <> 0 /\ c <> 13 /\ c <> 10 /\ c <> 32 /\ c <> 9 /\ c <> 58.
Definition value_char (c : Z) : Prop := c <> 0 /\ c <> 13 /\ c <> 10.
Definition blank (c : Z) : Prop := c = 32 \/ c = 9.
Definition key_ok (k : list Z) : Prop := k <> [] /\ Forall key_char k.
Definition value_ok (v : list Z) : Prop := Forall value_char v /\ match v with c :: _ => ~ blank c | [] => True end.
Definition field_ok (f : list Z * list Z) : Prop := key_ok f.1 /\ value_ok f.2.

Lemma hp_char_key c p : key_char c -> hp_char p c = hp_other c p.
Proof. intros (H0 & H1 & H2 & H3 & H4 & H5). unfold hp_char. by rewrite !(proj2 (Z.eqb_neq c _)) by done. Qed.
Lemma key_run k data cs e fo k0 v : Forall key_char k ->
  hp_run (mkHeaderParser cs e fo k0 v KeyState) (k ++ data) = hp_run (mkHeaderParser cs e fo (k0 ++ k) v KeyState) data.
Proof.
  intros Hk. revert k0. induction Hk as [|c k Hc Hk IH]; intros k0; [by rewrite app_nil_r|]. cbn [app]. rewrite bytewise_step by done. rewrite hp_char_key by done. unfold hp_other, hp_append_key. cbn [hp_consumer hp_hasErrors hp_hasFolding hp_key hp_value hp_state].
  rewrite IH. by rewrite <- app_assoc.
Qed.
Lemma hp_char_value c cs e fo k v : value_char c -> v <> [] \/ ~ blank c ->
  hp_char (mkHeaderParser cs e fo k v ValueState) c = mkHeaderParser cs e fo k (v ++ [c]) ValueState.
Proof.
  intros (H0 & H1 & H2) Hv. unfold hp_char. rewrite (proj2 (Z.eqb_neq c 0)), (proj2 (Z.eqb_neq c 13)), (proj2 (Z.eqb_neq c 10)) by done.
  destruct ((c =? 32) || (c =? 9)) eqn:EB; [|by destruct (c =? 58)]. unfold hp_space, hp_append_space. cbn [hp_state hp_value].
  destruct v as [|x v]; [|done]. destruct Hv as [Hv|Hv]; [done|]. destruct Hv. apply orb_prop in EB as [EB%Z.eqb_eq|EB%Z.eqb_eq]; [by left|by right].
Qed.
Lemma value_run v data cs e fo k v0 : Forall value_char v -> (v0 <> [] \/ match v with c :: _ => ~ blank c | [] => True end) ->
  hp_run (mkHeaderParser cs e fo k v0 ValueState) (v ++ data) = hp_run (mkHeaderParser cs e fo k (v0 ++ v) ValueState) data.
Proof.
  intros Hv. revert v0. induction Hv as [|c v Hc Hv IH]; intros v0 H0; [by rewrite app_nil_r|]. cbn [app]. rewrite bytewise_step by done. rewrite hp_char_value by done.
  rewrite IH by (left; by destruct v0). by rewrite <- app_assoc.
Qed.
(** One field, from where a key can start; what was read before is given to the consumer.
    A line ends in LF, with or without a CR before it. *)
Definition field_line (f : list Z * list Z) : list Z := f.1 ++ [58; 32] ++ f.2.
Definition line_end (e : list Z) : Prop := e = [13; 10] \/ e = [10].
Lemma field_run e f data cs er fo : line_end e -> field_ok f ->
  hp_run (mkHeaderParser cs er fo [] [] InitialState) (field_line f ++ e ++ data) = hp_run (mkHeaderParser cs er fo f.1 f.2 NewlineState) data.
Proof.
  intros He [[Hne Hk] [Hv Hf]]. destruct f as [k v]. cbn [fst snd] in *. unfold field_line. cbn [fst snd]. rewrite <- !app_assoc. destruct k as [|c k]; [done|]. apply Forall_cons in Hk as [Hc Hk].
  cbn [app]. rewrite bytewise_step by done. rewrite hp_char_key by done. unfold hp_other, hp_set_state, hp_append_key. cbn [hp_consumer hp_hasErrors hp_hasFolding hp_key hp_value hp_state app].
  rewrite key_run by done. cbn [app]. rewrite !bytewise_step by done. change (hp_char (hp_char (mkHeaderParser cs er fo (c :: k) [] KeyState) 58) 32) with (mkHeaderParser cs er fo (c :: k) [] ValueState). rewrite value_run by (done || by right). cbn [app].
  destruct He as [-> | ->]; cbn [app]; by rewrite !bytewise_step by done.
Qed.
Lemma next_field_run e f data cs er fo k v : line_end e -> field_ok f ->
  hp_run (mkHeaderParser cs er fo k v NewlineState) (field_line f ++ e ++ data) = hp_run (mkHeaderParser (handleHeader cs k v) er fo f.1 f.2 NewlineState) data.
Proof.
  intros He Hf. rewrite <- (field_run e) by done. destruct f as [kf vf]. destruct Hf as [[Hne Hk] _]. cbn [fst] in *. unfold field_line. cbn [fst snd]. rewrite <- !app_assoc. destruct kf as [|c kf]; [done|]. apply Forall_cons in Hk as [Hc Hk].
  cbn [app]. rewrite !bytewise_step by done. by rewrite !hp_char_key by done.
Qed.
Definition fields_text (e : list Z) (fields : list (list Z * list Z)) : list Z := concat (map (fun f => field_line f ++ e) fields).
Lemma next_fields_run e fields data cs k v : line_end e -> Forall field_ok fields ->
  hp_run (mkHeaderParser cs false false k v NewlineState) (fields_text e fields ++ e ++ data) = (mkHeaderParser (consume ((k, v) :: fields) cs) false false [] [] FinalState, data).
Proof.
  unfold fields_text. intros He HF. revert cs k v. induction HF as [|f fields Hf HF IH]; intros cs k v.
  - cbn [map concat app]. destruct He as [-> | ->]; cbn [app]; rewrite !bytewise_step by done; by rewrite bytewise_final.
  - cbn [map concat]. rewrite <- !app_assoc, (next_field_run e) by done. rewrite IH. by destruct f.
Qed.
Lemma fields_run e fields data cs : line_end e -> Forall field_ok fields ->
  hp_run (HeaderParser_new cs) (fields_text e fields ++ e ++ data) = (mkHeaderParser (consume fields cs) false false [] [] FinalState, data).
Proof.
  unfold HeaderParser_new. intros He HF. destruct HF as [|f fields Hf HF].
  - unfold fields_text. cbn [map concat app]. destruct He as [-> | ->]; cbn [app]; rewrite !bytewise_step by done; by rewrite bytewise_final.
  - unfold fields_text. cbn [map concat]. rewrite <- !app_assoc, (field_run e) by done. fold (fields_text e fields). rewrite next_fields_run by done. by destruct f.
Qed.
End HeaderProps.

(** ** Lemmas: trimming *)

Lemma exists_last_app (s : list Z) : s <> [] -> exists c t, s = t ++ [c].
Proof. intros H. destruct (exists_last H) as (t & c & E). by exists c, t. Qed.
Lemma strRTrim_spaces s b : spaces b -> (forall c t, s = t ++ [c] -> charIsSpace c = false) -> strRTrim (s ++ b) = s.
Proof.
  intros Hb Hs. unfold strRTrim. destruct (rtrim_length_spec (s ++ b) (length (s ++ b)) (le_n _)) as (H1 & H2 & H3). rewrite take_ge in H2 by lia. set (k := rtrim_length _ _) in *.
  rewrite length_app in H1. unfold spaces in Hb. rewrite Forall_forall in H2, Hb. destruct (lt_eq_lt_dec k (length s)) as [[Hk|Hk]|Hk].
  - destruct (decide (s = [])) as [->|(c & t & ->)%exists_last_app]; [cbn in Hk; lia|]. rewrite length_app in Hk. cbn in Hk. assert (Hc : charIsSpace c = true); [|by rewrite (Hs c t eq_refl) in Hc].
    apply H2. rewrite <- app_assoc, drop_app_le by lia. apply elem_of_app. right. by constructor.
  - subst k. rewrite Hk. apply take_app_length.
  - specialize (H3 ltac:(lia)). assert (Hc : charIsSpace (byte_at (s ++ b) (k - 1)) = true); [|by rewrite Hc in H3]. unfold byte_at. rewrite app_nth2 by lia. apply Hb. apply list_elem_of_In, nth_In. lia.
Qed.
Lemma strTrim_pad a s b : spaces a -> spaces b -> tight s -> strTrim (a ++ s ++ b) = s.
Proof.
  intros Ha Hb [Hl Hr]. unfold strTrim. destruct (decide (s = [])) as [->|(c & t & ->)%exists_last_app].
  - cbn [app]. change (a ++ b) with ([] ++ (a ++ b)). rewrite strRTrim_spaces; [done|by apply Forall_app|]. intros c t Ht. by destruct t.
  - rewrite app_assoc, strRTrim_spaces; [by apply strLTrim_spaces|done|]. intros c' t' Ht. rewrite app_assoc in Ht. apply app_inj_tail in Ht as [_ <-]. by apply (Hr c t).
Qed.

Lemma tight_ends s : charIsSpace (List.hd 0 s) = false -> charIsSpace (List.last s 0) = false -> tight s.
Proof. intros H1 H2. split; intros c t ->; [done|]. by rewrite List.last_last in H2. Qed.

(** ** Lemmas: HeaderField *)

Lemma quoted_run v : forall mode result rest, extract_loop mode DQ (quoteFieldName v ++ 34 :: rest) result = extract_loop mode Raw rest (result ++ v).
Proof.
  induction v as [|c v IH]; intros mode result rest; [cbn; by rewrite app_nil_r|]. cbn [quoteFieldName]. destruct ((c =? 34) || (c =? 92)) eqn:E.
  - cbn [app extract_loop]. change (92 =? 92) with true. cbn match. rewrite IH. by rewrite <- app_assoc.
  - apply orb_false_iff in E as [E1 E2]. cbn [app extract_loop]. rewrite E1, E2. rewrite IH. by rewrite <- app_assoc.
Qed.
(** Characters that are of no meaning in a value, and in a name *)
Definition plain_char (c : Z) : Prop := c <> 34 /\ c <> 40 /\ c <> 59.
Definition name_char (c : Z) : Prop := plain_char c /\ c <> 61.
Lemma raw_run l : Forall plain_char l -> forall mode result rest, extract_loop mode Raw (l ++ rest) result = extract_loop mode Raw rest (result ++ l).
Proof.
  induction 1 as [|c l (H1 & H2 & H3) Hl IH]; intros mode result rest; [by rewrite app_nil_r|]. cbn [app extract_loop]. rewrite !(proj2 (Z.eqb_neq c _)) by done. cbn [andb]. rewrite IH. by rewrite <- app_assoc.
Qed.
Lemma raw_stop mode rest result : extract_loop mode Raw (59 :: rest) result = (result, rest).
Proof. done. Qed.

Definition param_text (f : list Z * list Z) : list Z := [59; 32] ++ f.1 ++ [61; 34] ++ quoteFieldName f.2 ++ [34].
Definition param_ok (f : list Z * list Z) : Prop := Forall name_char f.1 /\ tight f.1 /\ tight f.2.
Lemma params_head params : params = [] \/ exists rest, concat (map param_text params) = 59 :: rest.
Proof. destruct params as [|f params]; [by left|right]. by eexists. Qed.
Lemma extract_end result params mode : extract_loop mode Raw (concat (map param_text params)) result = (result, drop 1 (concat (map param_text params))).
Proof. destruct (params_head params) as [->|(rest & E)]; [done|]. rewrite E. by rewrite raw_stop. Qed.
Lemma find_eq_name k v : Forall name_char k -> find (32 :: k ++ 61 :: v) [61] = Some (S (length k)).
Proof.
  intros Hk. cbn [find take length app]. rewrite bool_decide_eq_false_2 by done. assert (HF : find (k ++ 61 :: v) [61] = Some (length k)); [|by rewrite HF].
  induction Hk as [|c k [_ Hc] Hk IH]; [cbn [app find take length]; by rewrite bool_decide_eq_true_2|]. cbn [app find take length]. rewrite bool_decide_eq_false_2 by congruence. by rewrite IH.
Qed.
Lemma name_plain k : Forall name_char k -> Forall plain_char k.
Proof. intros H. eapply Forall_impl; [exact H|]. by intros c [? _]. Qed.
Section SecondaryProps.
Context {C : Type} `{!HeaderConsumer C}.
Lemma secondary_run params fuel (c : C) :
  Forall param_ok params -> (length (drop 1 (concat (map param_text params))) <= fuel)%nat -> secondary_loop fuel 0 (drop 1 (concat (map param_text params))) c = consume params c.
Proof.
  intros HP. revert fuel c. induction HP as [|[k v] params (Hk & Htk & Htv) HP IH]; intros fuel c Hf; [by destruct fuel|]. cbn [fst snd] in *.
  assert (HD : drop 1 (concat (map param_text ((k, v) :: params))) = 32 :: k ++ 61 :: 34 :: quoteFieldName v ++ 34 :: concat (map param_text params)).
  { cbn [map concat]. unfold param_text at 1. cbn [fst snd app drop]. by repeat (rewrite <- ?app_assoc; cbn [app]). }
  rewrite HD in *. cbn [length] in Hf. destruct fuel as [|fuel]; [lia|]. cbn [secondary_loop length Nat.eqb]. unfold extractPart.
  assert (HE : extract_loop 0 Raw (32 :: k ++ 61 :: 34 :: quoteFieldName v ++ 34 :: concat (map param_text params)) [] = (32 :: k ++ 61 :: v, drop 1 (concat (map param_text params)))).
  { change (32 :: k ++ 61 :: 34 :: ?x) with ([32] ++ k ++ [61] ++ 34 :: x). rewrite raw_run by (by repeat constructor). rewrite raw_run by (by apply name_plain). rewrite raw_run by (by repeat constructor).
    cbn [extract_loop]. change ((34 =? 34) && mode_off 0 NoQuotes) with true. cbn match. rewrite quoted_run, extract_end. by rewrite <- !app_assoc. }
  rewrite HE, find_eq_name by done. cbn [take drop]. rewrite take_app_length. replace (S (length k) + 1)%nat with (S (length k + 1)) by lia. cbn [drop]. rewrite <- drop_drop, drop_app_length. cbn [drop].
  pose proof (strTrim_pad [32] k [] ltac:(by repeat constructor) ltac:(constructor) Htk) as H1. pose proof (strTrim_pad [] v [] ltac:(constructor) ltac:(constructor) Htv) as H2. rewrite !app_nil_r in H1, H2. cbn [app] in H1, H2. rewrite ?drop_0, H1, H2.
  rewrite IH; [done|]. rewrite length_app in Hf. cbn [length] in Hf. rewrite length_app in Hf. cbn [length] in Hf. rewrite length_drop. lia.
Qed.
End SecondaryProps.

(** ** Lemmas: HeaderTable *)

Lemma internal_full (s : InternalSink) data : handleFullData data s = (mkInternalSink (is_data s ++ data), Ok tt).
Proof. done. Qed.
Lemma writeHeaders_internal t s : writeHeaders t s = (mkInternalSink (is_data s ++ fields_text [13; 10] (map (fun f => (hf_name f, hf_value f)) (m_headers t))), Ok tt).
Proof.
  destruct t as [l]. unfold writeHeaders, fields_text. cbn [m_headers]. revert s. induction l as [|f l IH]; intros [d]; [cbn; by rewrite app_nil_r|].
  cbn [writeHeaders_loop map concat]. unfold bind. do 4 (rewrite internal_full; cbn match). rewrite IH. cbn [is_data]. unfold field_line. cbn [fst snd]. by rewrite <- !app_assoc.
Qed.
Lemma consume_table fields t : consume fields t = mkTable (m_headers t ++ map (fun f => mkField f.1 f.2) fields).
Proof.
  revert t. induction fields as [|f fields IH]; intros [l]; [cbn; by rewrite app_nil_r|]. cbn [consume fold_left]. fold (consume fields (handleHeader (mkTable l) f.1 f.2)). rewrite IH. cbn [m_headers map handleHeader table_consumer HeaderTable_add HeaderTable_addField]. by rewrite <- app_assoc.
Qed.
Definition table_fields (t : HeaderTable) : list (list Z * list Z) := map (fun f => (hf_name f, hf_value f)) (m_headers t).
Lemma enumerateHeaders_consume {C} `{!HeaderConsumer C} t (consumer : C) : enumerateHeaders t consumer = consume (table_fields t) consumer.
Proof. unfold enumerateHeaders, consume, table_fields. generalize (m_headers t) as l, consumer as c. induction l as [|f l IH]; intros c; [done|]. cbn. apply IH. Qed.

(** *** Lookup by name *)

Definition same_name (a b : list Z) : Prop := strCaseCompare a b = 0.
Lemma same_name_key a b : same_name a b <-> case_key a = case_key b.
Proof. unfold same_name. rewrite <- Z.compare_eq_iff, strCaseCompare_lex. apply lex_eq. Qed.
Lemma table_get_spec name l i : table_get name l = Some i <-> (exists f, l !! i = Some f /\ same_name name (hf_name f)) /\ forall j g, (j < i)%nat -> l !! j = Some g -> ~ same_name name (hf_name g).
Proof.
  revert i. induction l as [|f l IH]; intros i; cbn [table_get].
  - split; [done|]. intros [(f & Hf & _) _]. by rewrite lookup_nil in Hf.
  - destruct (Z.eqb_spec (strCaseCompare name (hf_name f)) 0) as [E|E].
    + split; [intros [= <-]; split; [by exists f|]; intros; lia|]. intros [_ HN]. destruct i as [|i]; [done|]. by destruct (HN 0%nat f ltac:(lia) eq_refl).
    + split.
      * destruct (table_get name l) as [k|] eqn:EK; [|done]. cbn. intros [= <-]. destruct (proj1 (IH k) eq_refl) as [(g & Hg & Hs) HN]. split; [by exists g|]. intros [|j] x Hj Hx; [by injection Hx as <-|]. apply (HN j); [lia|done].
      * intros [(g & Hg & Hs) HN]. destruct i as [|i]; [injection Hg as <-; done|]. assert (EI : table_get name l = Some i); [|by rewrite EI]. apply IH. split; [by exists g|]. intros j x Hj Hx. apply (HN (S j)); [lia|done].
Qed.
Lemma table_get_none name l : table_get name l = None <-> Forall (fun f => ~ same_name name (hf_name f)) l.
Proof.
  induction l as [|f l IH]; cbn [table_get]; [split; [constructor|done]|]. rewrite Forall_cons, <- IH. destruct (Z.eqb_spec (strCaseCompare name (hf_name f)) 0) as [E|E]; [split; [done|]; by intros [? _]|].
  destruct (table_get name l); cbn; split; try done. by intros [_ ?].
Qed.

(** ** Lemmas: form parameters *)

Definition nonempty_pair (f : list Z * list Z) : bool := negb ((length f.1 =? 0)%nat && (length f.2 =? 0)%nat).
Definition pair_text (f : list Z * list Z) : list Z := url_encode f.1 ++ [61] ++ url_encode f.2.
Fixpoint pairs_text (fields : list (list Z * list Z)) : list Z :=
  match fields with
  | [] => []
  | [f] => pair_text f
  | f :: fields' => pair_text f ++ [38] ++ pairs_text fields'
  end.
Lemma pairs_text_cons f fields : pairs_text (f :: fields) = pair_text f ++ match fields with [] => [] | _ => 38 :: pairs_text fields end.
Proof. destruct fields; [cbn; by rewrite app_nil_r|done]. Qed.
Lemma encoder_rest fields r d : pe_result (consume fields (mkEncoder r false d)) = r ++ concat (map (fun f => 38 :: pair_text f) fields).
Proof.
  revert r. induction fields as [|f fields IH]; intros r; [cbn; by rewrite app_nil_r|]. cbn [consume fold_left]. fold (consume fields (handleHeader (mkEncoder r false d) f.1 f.2)). unfold handleHeader, encoder_consumer. cbn [pe_result pe_first pe_firstDelimiter].
  rewrite IH. cbn [map concat]. fold (pair_text f). unfold pair_text at 2. by repeat (rewrite <- ?app_assoc; cbn [app]).
Qed.
Lemma pairs_text_concat f fields : pairs_text (f :: fields) = pair_text f ++ concat (map (fun f => 38 :: pair_text f) fields).
Proof.
  revert f. induction fields as [|g fields IH]; intros f; [cbn; by rewrite app_nil_r|]. rewrite pairs_text_cons, IH. cbn [map concat]. done.
Qed.
Lemma encoder_text fields r d : fields <> [] -> pe_result (consume fields (ParameterEncoder_new r d)) = r ++ (if d =? 0 then [] else [d]) ++ pairs_text fields.
Proof.
  destruct fields as [|f fields]; [done|]. intros _. cbn [consume fold_left]. fold (consume fields (handleHeader (ParameterEncoder_new r d) f.1 f.2)). unfold handleHeader, encoder_consumer, ParameterEncoder_new. cbn [pe_result pe_first pe_firstDelimiter].
  rewrite encoder_rest, pairs_text_concat. unfold pair_text. destruct (d =? 0); cbn [negb]; by rewrite <- !app_assoc.
Qed.
Lemma encoded_chars s : bytes s -> Forall (fun c => c <> 38 /\ c <> 61) (url_encode s).
Proof.
  intros Hs. pose proof (url_encode_chars s Hs) as H. rewrite forallb_forall in H. apply Forall_forall. intros c Hc. specialize (H c ltac:(by apply list_elem_of_In)). unfold text_char in H.
  apply andb_prop in H as [_ H]. cbn in H. apply andb_prop in H as [_ H]. apply andb_prop in H as [H1 H]. apply andb_prop in H as [H2 _]. apply negb_true_iff in H1, H2. by rewrite Z.eqb_neq in H1, H2.
Qed.
Lemma url_roundtrip_bytes s : bytes s -> url_decode (url_encode s) = s.
Proof. intros Hs. exact (decode_encode MkUrlEncoding s I Hs). Qed.

Section FormProps.
Context {C : Type} `{!HeaderConsumer C}.
Lemma form_law (p : FormParser C) data : True -> exists rest, handleData data p = (absorb (fun _ => false) form_char p data, Ok (false, rest)) /\ (false = true -> rest = (bytewise (fun _ => false) form_char p data).2).
Proof.
  intros _. exists []. split; [|done]. unfold handleData, form_sink, absorb. f_equal. revert p. induction data as [|c data IH]; intros p; [done|]. rewrite bytewise_step by done. cbn [fold_left]. apply IH.
Qed.
#[export] Instance form_bytes : ByteSink (FormParser C) :=
  { sink_final := fun _ => false; sink_step := form_char; sink_ok := fun _ => True; sink_ok_step := fun _ _ _ => I; sink_law := form_law }.
Lemma form_feed (p : FormParser C) data : feed p data = fold_left form_char data p.
Proof. destruct (form_law p data I) as (rest & E & _). unfold handleData, form_sink in E. by injection E. Qed.
Lemma form_key_run (cs : C) k k0 : Forall (fun c => c <> 38 /\ c <> 61) k -> fold_left form_char k (mkForm cs Key k0 []) = mkForm cs Key (k0 ++ k) [].
Proof.
  intros Hk. revert k0. induction Hk as [|c k [H1 H2] Hk IH]; intros k0; [by rewrite app_nil_r|]. cbn [fold_left]. unfold form_char at 2. rewrite (proj2 (Z.eqb_neq c 38)), (proj2 (Z.eqb_neq c 61)) by done. cbn [fp_state fp_consumer fp_key fp_value].
  rewrite IH. by rewrite <- app_assoc.
Qed.
Lemma form_value_run (cs : C) k v v0 : Forall (fun c => c <> 38 /\ c <> 61) v -> fold_left form_char v (mkForm cs Value k v0) = mkForm cs Value k (v0 ++ v).
Proof.
  intros Hv. revert v0. induction Hv as [|c v [H1 H2] Hv IH]; intros v0; [by rewrite app_nil_r|]. cbn [fold_left]. unfold form_char at 2. rewrite (proj2 (Z.eqb_neq c 38)) by done. cbn [fp_state fp_consumer fp_key fp_value].
  rewrite IH. by rewrite <- app_assoc.
Qed.
Definition pair_bytes (f : list Z * list Z) : Prop := bytes f.1 /\ bytes f.2.
Lemma url_encode_nil s : (length (url_encode s) =? 0)%nat = (length s =? 0)%nat.
Proof. destruct s as [|c s]; [done|]. cbn [url_encode length]. rewrite length_app. destruct (_ || (c =? 61)); [done|]. by destruct (c =? 32). Qed.
Lemma form_pair_run (cs : C) f : pair_bytes f -> handleDataComplete (fold_left form_char (pair_text f) (mkForm cs Key [] [])) = mkForm (consume (if nonempty_pair f then [f] else []) cs) Key [] [].
Proof.
  destruct f as [k v]. intros [Hk Hv]. cbn [fst snd] in *. unfold pair_text. cbn [fst snd]. rewrite !fold_left_app, form_key_run by (by apply encoded_chars). cbn [fold_left app]. unfold form_char at 2. cbn [fp_state fp_consumer fp_key fp_value Z.eqb Pos.eqb].
  rewrite form_value_run by (by apply encoded_chars). unfold handleDataComplete. cbn [fp_state fp_consumer fp_key fp_value app]. rewrite !url_encode_nil, !url_roundtrip_bytes by done. unfold nonempty_pair. cbn [fst snd].
  destruct k, v; done.
Qed.
Lemma form_run (cs : C) fields : Forall pair_bytes fields -> handleDataComplete (fold_left form_char (pairs_text fields) (mkForm cs Key [] [])) = mkForm (consume (List.filter nonempty_pair fields) cs) Key [] [].
Proof.
  intros HF. revert cs. induction HF as [|f fields Hf HF IH]; intros cs; [done|]. rewrite pairs_text_cons. cbn [List.filter]. assert (HC : (if nonempty_pair f then f :: List.filter nonempty_pair fields else List.filter nonempty_pair fields) = (if nonempty_pair f then [f] else []) ++ List.filter nonempty_pair fields) by (by destruct (nonempty_pair f)).
  rewrite HC, consume_app. destruct fields as [|g fields].
  - rewrite app_nil_r, form_pair_run by done. done.
  - rewrite fold_left_app. cbn [fold_left]. unfold form_char at 2. cbn [Z.eqb Pos.eqb]. rewrite form_pair_run by done. apply IH.
Qed.
End FormProps.

(** ** Theorems *)

Definition field_pairs (fields : list (list Z * list Z)) : HeaderTable := mkTable (map (fun f => mkField f.1 f.2) fields).

(** C23. Header fields.  A table of fields that is written to a sink and read by a header
    parser, in any pieces, is given to the parser's consumer field by field and in order;
    the parser has seen no errors and leaves what is behind the blank line.  A field
    value that consists of a text and named values in quotes, as MimeBuilder writes them,
    is taken apart again: the primary value is the text, the secondary values are the
    named values, with any characters in them. *)
Theorem headers_roundtrip {C} `{!HeaderConsumer C} (cs : C) fields pieces rest primary params name :
  Forall field_ok fields -> Forall plain_char primary -> tight primary -> Forall param_ok params ->
  concat pieces = InternalSink_getContent (writeHeaders (field_pairs fields) InternalSink_new).1 ++ [13; 10] ++ rest ->
  feed_pieces pieces (HeaderParser_new cs) = (mkHeaderParser (consume fields cs) false false [] [] FinalState, Ok (true, rest)) /\
  getPrimaryValue (mkField name (primary ++ concat (map param_text params))) 0 = primary /\
  enumerateSecondaryValues (mkField name (primary ++ concat (map param_text params))) 0 cs = consume params cs.
Proof.
  intros HF HP HT HR HC. rewrite writeHeaders_internal in HC. cbn [fst InternalSink_getContent is_data InternalSink_new m_headers field_pairs] in HC. rewrite app_nil_l in HC.
  rewrite map_map in HC. cbn [hf_name hf_value] in HC. rewrite (map_ext _ id), map_id in HC by (by intros []). split; [|split].
  - rewrite feed_pieces_spec by done. unfold absorb. rewrite HC. change (bytewise sink_final sink_step) with (bytewise (S := HeaderParser C) hp_isCompleted hp_char). by rewrite (fields_run [13; 10]) by (done || by left).
  - unfold getPrimaryValue, extractPart. cbn [hf_value]. rewrite raw_run, extract_end by done. cbn [fst app]. pose proof (strTrim_pad [] primary [] ltac:(constructor) ltac:(constructor) HT) as H. by rewrite app_nil_r in H.
  - unfold enumerateSecondaryValues, extractPart. cbn [hf_value]. change (mode_off 0 NoPrimary) with true. cbn match. rewrite raw_run, extract_end by done. cbn [snd]. by apply secondary_run.
Qed.
Lemma headers_roundtrip_witness :
  let fields := [(lit "Host", lit "a b"); (lit "X", [])] in
  feed_pieces [lit "Ho"; lit "st: a b" ++ [13]; [10] ++ lit "X: " ++ [13; 10; 13]; [10; 65]] (HeaderParser_new (mkTable [])) = (mkHeaderParser (field_pairs fields) false false [] [] FinalState, Ok (true, [65])) /\
  enumerateSecondaryValues (mkField [] (lit "form-data" ++ param_text (lit "name", lit "a;\b"))) 0 (mkTable []) = field_pairs [(lit "name", lit "a;\b")].
Proof.
  cbn zeta. pose proof (headers_roundtrip (mkTable []) [(lit "Host", lit "a b"); (lit "X", [])] [lit "Ho"; lit "st: a b" ++ [13]; [10] ++ lit "X: " ++ [13; 10; 13]; [10; 65]] [65] (lit "form-data") [(lit "name", lit "a;\b")] []) as H.
  destruct H as (H1 & _ & H2).
  - repeat first [constructor | discriminate | (intros [|]; discriminate)].
  - repeat first [constructor | discriminate].
  - by apply tight_ends.
  - constructor; [|constructor]. split; [repeat first [constructor | discriminate]|]. split; by apply tight_ends.
  - reflexivity.
  - split; [exact H1|exact H2].
Defined.
