(* ===== verification/Url.v ===== *)
(** * URLs

    src/afl/net/url.cpp and name.hpp: parsing and printing of URLs, resolution of relative
    URLs, and the parameters of a query.  A position in a string is the rest of the string
    behind it. *)

From Stdlib Require Import ZArith Lia Bool String.
From stdpp Require Import base tactics numbers option list sets.
From S2P Require Import Prelude Encodings Strings Format Stream Sinks Headers.

Local Open Scope Z_scope.
Local Open Scope afl_scope.

(** *** Functions of std::string *)

(** [find_first_of] and [find_first_not_of] *)
Definition member (set : list Z) (c : Z) : bool := existsb (Z.eqb c) set.
Definition find_first (p : Z -> bool) (s : list Z) : option nat :=
  let n := skip_while (fun c => negb (p c)) s in if (n <? length s)%nat then Some n else None.
Definition find_first_of (set : list Z) (s : list Z) : option nat := find_first (member set) s.
Definition find_first_not_of (set : list Z) (s : list Z) : option nat := find_first (fun c => negb (member set c)) s.
(** [rfind] of a character *)
Fixpoint rfind (c : Z) (s : list Z) : option nat :=
  match s with
  | x :: s' => match rfind c s' with Some n => Some (S n) | None => if x =? c then Some 0%nat else None end
  | [] => None
  end.
(** [rfind(c, pos)]: the last one up to [pos] *)
Definition rfind_to (c : Z) (pos : nat) (s : list Z) : option nat := rfind c (take (S pos) s).
Definition char_at (s : list Z) (n : nat) (p : Z -> bool) : bool := match s !! n with Some c => p c | None => false end.

(** ** Name *)

Record Name := mkName { n_name : list Z; n_service : list Z }.
Definition Name_setName (name : list Z) (n : Name) : Name := mkName name (n_service n).
Definition Name_setService (service : list Z) (n : Name) : Name := mkName (n_name n) service.
(** [sprintf] of an uint16_t *)
Definition Name_setPort (port : Z) (n : Name) : Name := mkName (n_name n) (dec port).
Definition Name_isValid (n : Name) : bool := negb (length (n_name n) =? 0)%nat && negb (length (n_service n) =? 0)%nat.
Definition Name_plain (name defaultService : list Z) : Name :=
  match find name [58] with
  | Some n => mkName (take n name) (drop (n + 1) name)
  | None => mkName name defaultService
  end.
Definition Name_parse (name defaultService : list Z) : Name :=
  if char_at name 0 (Z.eqb 91)
  then
    match find name [93] with
    | Some n =>
        if char_at name (n + 1) (Z.eqb 58) then mkName (take (n - 1) (drop 1 name)) (drop (n + 2) name)
        else if (n =? length name - 1)%nat then mkName (take (n - 1) (drop 1 name)) defaultService
        else Name_plain name defaultService
    | None => Name_plain name defaultService
    end
  else Name_plain name defaultService.
Definition Name_toString (n : Name) : list Z :=
  if Name_isValid n
  then (match find (n_name n) [58] with Some _ => [91] ++ n_name n ++ [93] | None => n_name n end) ++ [58] ++ n_service n
  else [].
Definition Name_equal (a b : Name) : bool := bool_decide (n_name a = n_name b) && bool_decide (n_service a = n_service b).

(** ** Url *)

Record Url := mkUrl { m_scheme : list Z; m_user : list Z; m_password : list Z; m_host : list Z; m_port : list Z; m_path : list Z; m_fragment : list Z }.
Definition Url_new : Url := mkUrl [] [] [] [] [] [] [].
Definition clear (u : Url) : Url := Url_new.
Definition set_scheme (x : list Z) u := mkUrl x (m_user u) (m_password u) (m_host u) (m_port u) (m_path u) (m_fragment u).
Definition set_user (x y : list Z) u := mkUrl (m_scheme u) x y (m_host u) (m_port u) (m_path u) (m_fragment u).
Definition set_host (x : list Z) u := mkUrl (m_scheme u) (m_user u) (m_password u) x (m_port u) (m_path u) (m_fragment u).
Definition set_port (x : list Z) u := mkUrl (m_scheme u) (m_user u) (m_password u) (m_host u) x (m_path u) (m_fragment u).
Definition set_path (x y : list Z) u := mkUrl (m_scheme u) (m_user u) (m_password u) (m_host u) (m_port u) x y.

(** *** parse *)

(** The scheme; the rest is behind its colon *)
Definition parse_scheme (url : list Z) (u : Url) : Url * list Z :=
  match find_first_of [64; 58; 47; 35] url with
  | Some n =>
      if negb (n =? 0)%nat && char_at url n (Z.eqb 58)
      then (set_scheme (url_decode (take n url)) u, drop (n + 1) url)
      else (u, url)
  | None => (u, url)
  end.
(** User and password; [None] is a syntax error, on which parse returns false. *)
Definition parse_user (url : list Z) (u : Url) : Url * option (list Z) :=
  match find url [64] with
  | Some atPos =>
      if (atPos =? 0)%nat then (u, None)
      else
        match find url [58] with
        | Some colonPos =>
            if (colonPos =? 0)%nat then (u, None)
            else if (colonPos <? atPos)%nat
            then (set_user (url_decode (take colonPos url)) (url_decode (take (atPos - colonPos - 1) (drop (colonPos + 1) url))) u, Some (drop (atPos + 1) url))
            else (set_user (url_decode (take atPos url)) [] u, Some (drop (atPos + 1) url))
        | None => (set_user (url_decode (take atPos url)) [] u, Some (drop (atPos + 1) url))
        end
  | None => (set_user [] [] u, Some url)
  end.
Definition parse_host (url : list Z) (u : Url) : Url * option (list Z) :=
  if char_at url 0 (Z.eqb 91)
  then
    match find url [93] with
    | Some bracketPos =>
        let u := set_host (url_decode (take (bracketPos - 1) (drop 1 url))) u in
        let rest := drop (bracketPos + 1) url in
        if char_at rest 0 (fun c => negb (member [58; 47; 35] c)) then (u, None) else (u, Some rest)
    | None => (u, None)
    end
  else
    match find_first_of [58; 47; 35; 63] url with
    | Some endPos => (set_host (url_decode (take endPos url)) u, Some (drop endPos url))
    | None => (set_host (url_decode url) u, Some [])
    end.
Definition parse_port (url : list Z) (u : Url) : Url * option (list Z) :=
  if char_at url 0 (Z.eqb 58)
  then
    let url := drop 1 url in
    match find_first_not_of (lit "0123456789") url with
    | Some portEndPos =>
        if (portEndPos =? 0)%nat then (u, None)
        else
          let u := set_port (url_decode (take portEndPos url)) u in
          if char_at url portEndPos (fun c => negb (member [47; 35; 63] c)) then (u, None) else (u, Some (drop portEndPos url))
    | None => (set_port (url_decode url) u, Some [])
    end
  else (u, Some url).
Definition parse_path (forceRoot : bool) (url : list Z) (u : Url) : Url :=
  let '(path, fragment) :=
    match find url [35] with
    | Some fragPos => (take fragPos url, url_decode (drop fragPos url))
    | None => (url, [])
    end in
  let path := if forceRoot && negb (char_at path 0 (Z.eqb 47)) then 47 :: path else path in
  set_path path fragment u.
(** The result and the new value of the object *)
Definition parse (url : list Z) : bool * Url :=
  let '(u, url) := parse_scheme url Url_new in
  if bool_decide (take 2 url = [47; 47])
  then
    match parse_user (drop 2 url) u with
    | (u, None) => (false, u)
    | (u, Some url) =>
        match parse_host url u with
        | (u, None) => (false, u)
        | (u, Some url) =>
            match parse_port url u with
            | (u, None) => (false, u)
            | (u, Some url) => (true, parse_path true url u)
            end
        end
    end
  else (true, parse_path false url u).

(** *** Resolution *)

(** [if (result.size() >= 2 && (drop = result.rfind('/', result.size()-2)) != npos)]; [keep] is 1 if the slash stays *)
Definition drop_component (keep : nat) (result : list Z) : list Z :=
  match (if (2 <=? length result)%nat then rfind_to 47 (length result - 2) result else None) with
  | Some n => take (n + keep) result
  | None => [47]
  end.
Fixpoint merge_loop (fuel : nat) (result right : list Z) : list Z * list Z :=
  match fuel with
  | O => (result, right)
  | S fuel' =>
      match find right [47] with
      | Some length =>
          let part := take length right in
          let result :=
            if bool_decide (part = [46; 46]) then drop_component 1 result
            else if bool_decide (part = [46]) then result
            else result ++ take (length + 1) right in
          merge_loop fuel' result (drop (length + 1) right)
      | None => (result, right)
      end
  end.
Definition mergePath (left right : list Z) : list Z :=
  let result := match rfind 47 left with Some n => take (n + 1) left | None => left end in
  let '(result, rem) := merge_loop (length right) result right in
  if bool_decide (rem = [46; 46]) then drop_component 0 result
  else if bool_decide (rem = [46]) then result
  else result ++ rem.

Definition empty (s : list Z) : bool := (length s =? 0)%nat.
Definition mergeFrom (u other : Url) : Url :=
  let keep := negb (empty (m_scheme u)) in
  let u := if keep then u else set_scheme (m_scheme other) u in
  let copy := empty (m_host u) && negb keep in
  let u := if copy then set_user (m_user other) (m_password other) (set_port (m_port other) (set_host (m_host other) u)) else u in
  let keep := negb copy in
  if keep then u
  else if char_at (m_path u) 0 (Z.eqb 47) then u
  else if empty (m_path u) then set_path (m_path other) (m_fragment u) u
  else set_path (mergePath (m_path other) (m_path u)) (m_fragment u) u.

Definition isNull (u : Url) : bool := empty (m_scheme u) && empty (m_path u) && empty (m_fragment u).
Definition isValid (u : Url) : bool := negb (empty (m_scheme u)) && negb (empty (m_path u)).
Definition isValidId (u : Url) : bool := negb (empty (m_scheme u)) && negb (empty (m_path u)) && empty (m_host u).
Definition isValidHost (u : Url) : bool := negb (empty (m_scheme u)) && negb (empty (m_path u)) && negb (empty (m_host u)).
Definition getName (u : Url) (service : list Z) : Name := mkName (m_host u) (if negb (empty (m_port u)) then m_port u else service).
Definition setName (name : Name) (u : Url) : Url := set_port (n_service name) (set_host (n_name name) u).

Definition toString (u : Url) : list Z :=
  (if negb (empty (m_scheme u)) then m_scheme u ++ [58] else []) ++
  (if negb (empty (m_host u))
   then [47; 47] ++
        (if negb (empty (m_user u)) then m_user u ++ [58] ++ m_password u ++ [64] else []) ++
        (match find (m_host u) [58] with Some _ => [91] ++ m_host u ++ [93] | None => m_host u end) ++
        (if negb (empty (m_port u)) then [58] ++ m_port u else []) ++
        (if negb (char_at (m_path u) 0 (Z.eqb 47)) then [47] else [])
   else []) ++
  m_path u ++ m_fragment u.

(** *** Queries *)

(** The suffix, if the result is true *)
Definition matchPath (path prefix : list Z) : option (list Z) :=
  if bool_decide (path = prefix) then Some []
  else if (length prefix <? length path)%nat && bool_decide (take (length prefix) path = prefix) && char_at path (length prefix) (fun c => (c =? 63) || (c =? 47))
  then Some (drop (length prefix) path)
  else None.

Section Arguments.
Context {C : Type} `{!HeaderConsumer C}.
(** [while (n < path.size())]; the rest starts with a question mark or ampersand *)
Fixpoint arguments_loop (fuel : nat) (rest : list Z) (consumer : C) : C :=
  match fuel, rest with
  | S fuel', _ :: rest =>
      let last := match find rest [38] with Some e => e | None => length rest end in
      let eq := find rest [61] in
      let consumer :=
        match (match eq with Some eq => if (eq <? last)%nat then Some eq else None | None => None end) with
        | Some eq => handleHeader consumer (url_decode (take eq rest)) (url_decode (take (last - eq - 1) (drop (eq + 1) rest)))
        | None => if negb (last =? 0)%nat then handleHeader consumer (url_decode (take last rest)) [] else consumer
        end in
      arguments_loop fuel' (drop last rest) consumer
  | _, _ => consumer
  end.
(** The new path, and the consumer *)
Definition matchArguments (path : list Z) (consumer : C) : list Z * C :=
  match find path [63] with
  | Some p => (take p path, arguments_loop (length path) (drop p path) consumer)
  | None => (path, consumer)
  end.
End Arguments.

Example url_ex :
  parse (lit "http://me:pw@[::1]:80/a/b?c#d") = (true, mkUrl (lit "http") (lit "me") (lit "pw") (lit "::1") (lit "80") (lit "/a/b?c") (lit "#d")) /\
  mergePath (lit "/a/b/c") (lit "../d/./e") = lit "/a/d/e" /\ mergePath (lit "/foo/x") (lit "..") = [] /\
  parse (lit "http://host/@x") = (true, mkUrl (lit "http") (lit "host/") [] (lit "x") [] (lit "/") []) /\
  matchArguments (lit "/x?a=b+c&d&=") (mkTable []) = (lit "/x", mkTable [mkField (lit "a") (lit "b c"); mkField (lit "d") []; mkField [] []]).
Proof. vm_compute. done. Qed.

(** ** Lemmas: searching *)

Lemma find_at_none c s : Forall (fun x => x <> c) s -> find s [c] = None.
Proof. induction 1 as [|x s Hx Hs IH]; [done|]. cbn [find take length]. rewrite bool_decide_eq_false_2 by congruence. by rewrite IH. Qed.
Lemma find_at_app c s r : Forall (fun x => x <> c) s -> find (s ++ c :: r) [c] = Some (length s).
Proof. induction 1 as [|x s Hx Hs IH]; cbn [app find take length]; [by rewrite bool_decide_eq_true_2|]. rewrite bool_decide_eq_false_2 by congruence. by rewrite IH. Qed.
Lemma find_at_free c s : find s [c] = None -> Forall (fun x => x <> c) s.
Proof. intros H. pose proof (proj1 (find_none s [c]) H) as HN. apply Forall_forall. intros x Hx ->. apply list_elem_of_split in Hx as (l & r & ->). by apply (HN l r). Qed.
Lemma find_first_app p s x r : Forall (fun c => p c = false) s -> p x = true -> find_first p (s ++ x :: r) = Some (length s).
Proof.
  intros Hs Hx. unfold find_first. rewrite skip_while_app.
  - rewrite length_app. cbn [length]. by rewrite (proj2 (Nat.ltb_lt _ _)) by lia.
  - eapply Forall_impl; [exact Hs|]. intros c Hc. by rewrite Hc.
  - intros c t [= -> _]. by rewrite Hx.
Qed.
Lemma find_first_none p s : Forall (fun c => p c = false) s -> find_first p s = None.
Proof.
  intros Hs. unfold find_first. rewrite <- (app_nil_r s) at 1. rewrite skip_while_app; [by rewrite (proj2 (Nat.ltb_ge _ _)) by lia| |done].
  eapply Forall_impl; [exact Hs|]. intros c Hc. by rewrite Hc.
Qed.
Lemma url_decode_same s : Forall (fun c => c <> 37 /\ c <> 43) s -> url_decode s = s.
Proof. induction 1 as [|c s [H1 H2] Hs IH]; [done|]. cbn [url_decode]. rewrite (proj2 (Z.eqb_neq c 37)), (proj2 (Z.eqb_neq c 43)) by done. by rewrite IH. Qed.

(** ** Lemmas: printing and parsing *)

(** No characters of the set *)
Definition free (set s : list Z) : Prop := Forall (fun c => member set c = false) s.
Lemma member_false set c x : member set c = false -> x ∈ set -> c <> x.
Proof. intros H Hx ->. unfold member in H. rewrite <- not_true_iff_false, existsb_exists in H. apply H. exists x. split; [by apply list_elem_of_In|apply Z.eqb_refl]. Qed.
Lemma free_char set s x : x ∈ set -> free set s -> Forall (fun c => c <> x) s.
Proof. intros Hx H. eapply Forall_impl; [exact H|]. intros c Hc. by apply (member_false set). Qed.
Lemma free_decode set s : 37 ∈ set -> 43 ∈ set -> free set s -> url_decode s = s.
Proof. intros H1 H2 H. apply url_decode_same. eapply Forall_impl; [exact H|]. intros c Hc. split; by apply (member_false set). Qed.
Lemma free_sub set set' s : (forall x, x ∈ set' -> x ∈ set) -> free set s -> free set' s.
Proof.
  intros HS H. eapply Forall_impl; [exact H|]. intros c Hc. apply not_true_iff_false. unfold member. rewrite existsb_exists. intros (x & Hx & ->%Z.eqb_eq).
  by apply (member_false set x x Hc); [apply HS, list_elem_of_In|].
Qed.
Ltac subset := let x := fresh in intros x; set_unfold; tauto.

Lemma drop_past (l r : list Z) x : drop (length l + 1) (l ++ x :: r) = r.
Proof. replace (length l + 1)%nat with (length (l ++ [x])) by (rewrite length_app; done). replace (l ++ x :: r) with ((l ++ [x]) ++ r) by (by rewrite <- app_assoc). apply drop_app_length. Qed.
Lemma scheme_stage scheme rest u :
  scheme <> [] -> free [37; 43; 64; 58; 47; 35] scheme -> parse_scheme (scheme ++ 58 :: rest) u = (set_scheme scheme u, rest).
Proof.
  intros Hne HF. unfold parse_scheme, find_first_of. rewrite find_first_app; [|by eapply (free_sub [37; 43; 64; 58; 47; 35] [64; 58; 47; 35]); [subset|done]|done].
  rewrite (proj2 (Nat.eqb_neq _ 0)) by (by destruct scheme). unfold char_at. rewrite list_lookup_middle by done. change (58 =? 58) with true. cbn [negb andb]. rewrite take_app_length, (free_decode [37; 43; 64; 58; 47; 35] scheme) by (done || set_solver).
  by rewrite drop_past.
Qed.
Lemma user_stage user password rest u :
  user <> [] -> free [37; 43; 64; 58] user -> free [37; 43; 64] password ->
  parse_user (user ++ 58 :: password ++ 64 :: rest) u = (set_user user password u, Some rest).
Proof.
  intros Hne HU HP. unfold parse_user. assert (HA : find (user ++ 58 :: password ++ 64 :: rest) [64] = Some (length (user ++ 58 :: password))).
  { replace (user ++ 58 :: password ++ 64 :: rest) with ((user ++ 58 :: password) ++ 64 :: rest) by (by rewrite <- app_assoc). apply find_at_app. apply Forall_app. split; [by apply (free_char [37; 43; 64; 58]); [set_solver|exact HU]|].
    constructor; [done|]. by apply (free_char [37; 43; 64]); [set_solver|exact HP]. }
  rewrite HA. rewrite find_at_app by (by apply (free_char [37; 43; 64; 58]); [set_solver|exact HU]). rewrite length_app. cbn [length]. rewrite (proj2 (Nat.eqb_neq _ 0)) by lia.
  rewrite (proj2 (Nat.eqb_neq _ 0)) by (by destruct user). rewrite (proj2 (Nat.ltb_lt _ _)) by lia. rewrite take_app_length, (free_decode [37; 43; 64; 58] user) by (done || set_solver).
  rewrite drop_past. replace (length user + S (length password) - length user - 1)%nat with (length password) by lia. rewrite take_app_length, (free_decode [37; 43; 64] password) by (done || set_solver).
  replace (length user + S (length password) + 1)%nat with (length (user ++ 58%Z :: password) + 1)%nat by (rewrite length_app; done).
  replace (user ++ 58 :: password ++ 64 :: rest) with ((user ++ 58 :: password) ++ 64 :: rest) by (by rewrite <- app_assoc). by rewrite drop_past.
Qed.
(** The host, when what follows starts with a colon or slash *)
Definition host_text (host : list Z) : list Z := match find host [58] with Some _ => [91] ++ host ++ [93] | None => host end.
Definition host_ok (host : list Z) : Prop :=
  host <> [] /\ free [37; 43; 64] host /\
  match find host [58] with
  | Some _ => free [93] host
  | None => free [47; 35; 63] host /\ char_at host 0 (Z.eqb 91) = false
  end.
Lemma host_stage host c rest u : host_ok host -> c = 58 \/ c = 47 -> parse_host (host_text host ++ c :: rest) u = (set_host host u, Some (c :: rest)).
Proof.
  intros (Hne & HF & HH) Hc. unfold host_text. destruct (find host [58]) as [n|] eqn:E.
  - unfold parse_host. cbn [app]. unfold char_at at 1. cbn [lookup list_lookup]. change (91 =? 91) with true. cbn match.
    replace (91 :: (host ++ [93]) ++ c :: rest) with ((91 :: host) ++ 93 :: c :: rest) by (cbn [app]; by rewrite <- app_assoc).
    rewrite find_at_app by (constructor; [done|]; by apply (free_char [93]); [set_solver|exact HH]). rewrite (drop_past (91 :: host)). cbn [length].
    cbn [app drop]. replace (S (length host) - 1)%nat with (length host) by lia. rewrite drop_0, take_app_length, (free_decode [37; 43; 64] host) by (done || set_solver).
    by destruct Hc as [-> | ->].
  - destruct HH as [H1 H2]. unfold parse_host. assert (HA : char_at (host ++ c :: rest) 0 (Z.eqb 91) = false) by (by destruct host). rewrite HA. unfold find_first_of. rewrite find_first_app.
    + rewrite take_app_length, drop_app_length, (free_decode [37; 43; 64] host) by (done || set_solver). done.
    + apply Forall_forall. intros x Hx. unfold free in H1. rewrite Forall_forall in H1. specialize (H1 x Hx). apply find_at_free in E. rewrite Forall_forall in E. specialize (E x Hx). cbn in H1 |- *.
      rewrite (proj2 (Z.eqb_neq x 58)) by done. exact H1.
    + by destruct Hc as [-> | ->].
Qed.
Definition is_digit (c : Z) : Prop := 48 <= c <= 57.
Lemma digit_member c : is_digit c -> negb (member (lit "0123456789") c) = false /\ c <> 37 /\ c <> 43.
Proof. intros Hc. unfold is_digit in Hc. assert (c ∈ lit "0123456789") as H by (cbn; set_unfold; lia). split; [|lia]. apply negb_false_iff, existsb_exists. exists c. split; [by apply list_elem_of_In|apply Z.eqb_refl]. Qed.
Lemma port_stage port rest u : port <> [] -> Forall is_digit port -> parse_port (58 :: port ++ 47 :: rest) u = (set_port port u, Some (47 :: rest)).
Proof.
  intros Hne HD. unfold parse_port. unfold char_at at 1. cbn [lookup list_lookup]. change (58 =? 58) with true. cbn match zeta. cbn [drop]. rewrite drop_0. unfold find_first_not_of.
  rewrite find_first_app; [|eapply Forall_impl; [exact HD|]; intros c Hc; by apply digit_member|done]. rewrite (proj2 (Nat.eqb_neq _ 0)) by (by destruct port). unfold char_at. rewrite list_lookup_middle by done. cbn [negb member existsb Z.eqb Pos.eqb orb].
  rewrite take_app_length, drop_app_length, url_decode_same; [done|]. eapply Forall_impl; [exact HD|]. intros c Hc. by apply digit_member.
Qed.
Definition fragment_ok (f : list Z) : Prop := free [37; 43] f /\ match f with [] => True | c :: _ => c = 35 end.
Lemma path_stage root path fragment u : free [35] path -> fragment_ok fragment -> (root = true -> char_at path 0 (Z.eqb 47) = true) -> parse_path root (path ++ fragment) u = set_path path fragment u.
Proof.
  intros HP [HF HS] HR. unfold parse_path. assert (HE : (match find (path ++ fragment) [35] with Some fragPos => (take fragPos (path ++ fragment), url_decode (drop fragPos (path ++ fragment))) | None => (path ++ fragment, []) end) = (path, fragment)).
  { pose proof (free_char [35] path 35 ltac:(set_solver) HP) as HC. destruct fragment as [|c fragment]; [rewrite app_nil_r; by rewrite find_at_none|]. subst c. rewrite find_at_app by done. rewrite take_app_length, drop_app_length. by rewrite (free_decode [37; 43] _ ltac:(set_solver) ltac:(set_solver) HF). }
  rewrite HE. destruct root; [|done]. by rewrite HR.
Qed.

(** Which URLs can be written and read back.  The fields other than the path are decoded
    when they are read, but not encoded when they are written; an at sign anywhere behind
    the host is taken for the end of a user name. *)
Definition no_scheme (s : list Z) : Prop := match find_first_of [64; 58; 47; 35] s with Some n => n = 0%nat \/ char_at s n (Z.eqb 58) = false | None => True end.
Definition url_ok (u : Url) : Prop :=
  free [37; 43; 64; 58; 47; 35] (m_scheme u) /\ free [35] (m_path u) /\ fragment_ok (m_fragment u) /\
  (m_user u = [] -> m_password u = []) /\
  if empty (m_host u)
  then m_user u = [] /\ m_host u = [] /\ m_port u = [] /\ take 2 (m_path u ++ m_fragment u) <> [47; 47] /\ (m_scheme u = [] -> no_scheme (m_path u ++ m_fragment u))
  else host_ok (m_host u) /\ free [37; 43; 64; 58] (m_user u) /\ free [37; 43; 64] (m_password u) /\ Forall is_digit (m_port u) /\ char_at (m_path u) 0 (Z.eqb 47) = true /\
       (m_user u = [] -> free [64] (m_path u ++ m_fragment u)).

Lemma parse_no_scheme s u : no_scheme s -> parse_scheme s u = (u, s).
Proof.
  unfold no_scheme, parse_scheme. destruct (find_first_of _ s) as [n|]; [|done]. intros [-> |H]; [done|]. rewrite H. by rewrite andb_false_r.
Qed.
Lemma scheme_text_stage scheme rest : free [37; 43; 64; 58; 47; 35] scheme -> (scheme = [] -> no_scheme rest) ->
  parse_scheme ((if negb (empty scheme) then scheme ++ [58] else []) ++ rest) Url_new = (set_scheme scheme Url_new, rest).
Proof.
  intros HF HN. destruct scheme as [|c scheme]; [cbn [empty length Nat.eqb negb app]; by rewrite parse_no_scheme by auto|]. cbn [empty length Nat.eqb negb]. rewrite <- app_assoc. by apply scheme_stage.
Qed.
Lemma authority_stage user password host port path fragment u :
  m_user u = [] -> m_password u = [] -> m_port u = [] -> (user = [] -> password = []) ->
  host_ok host -> free [37; 43; 64; 58] user -> free [37; 43; 64] password -> Forall is_digit port -> char_at path 0 (Z.eqb 47) = true -> (user = [] -> free [64] (path ++ fragment)) ->
  let text := (if negb (empty user) then user ++ [58] ++ password ++ [64] else []) ++ host_text host ++ (if negb (empty port) then [58] ++ port else []) ++ path ++ fragment in
  parse_user text u = (set_user user password u, Some (host_text host ++ (if negb (empty port) then [58] ++ port else []) ++ path ++ fragment)) /\
  parse_host (host_text host ++ (if negb (empty port) then [58] ++ port else []) ++ path ++ fragment) (set_user user password u)
    = (set_host host (set_user user password u), Some ((if negb (empty port) then [58] ++ port else []) ++ path ++ fragment)) /\
  parse_port ((if negb (empty port) then [58] ++ port else []) ++ path ++ fragment) (set_host host (set_user user password u))
    = (set_port port (set_host host (set_user user password u)), Some (path ++ fragment)).
Proof.
  intros U1 U2 U3 HUP HH HU HP HD HR HA. cbn zeta. destruct path as [|c path]; [done|]. change ((47 =? c) = true) in HR. apply Z.eqb_eq in HR as <-. split; [|split].
  - destruct user as [|x user].
    + rewrite (HUP eq_refl). cbn [empty length Nat.eqb negb app]. unfold parse_user. rewrite find_at_none; [done|]. destruct HH as (_ & HF & _). specialize (HA eq_refl). apply Forall_app. split.
      * unfold host_text. destruct (find host [58]); [apply Forall_app; split; [by repeat constructor|]; apply Forall_app; split; [|by repeat constructor]|]; (apply (free_char [37; 43; 64]); [set_solver|done]).
      * apply Forall_app. split; [|by apply (free_char [64]); [set_solver|done]]. destruct port as [|d port]; [constructor|]. cbn [empty length Nat.eqb negb]. constructor; [done|]. eapply Forall_impl; [exact HD|]. unfold is_digit. cbn. lia.
    + cbn [empty length Nat.eqb negb]. repeat (rewrite <- ?app_assoc; cbn [app]). by apply (user_stage (x :: user)).
  - destruct port as [|d port]; cbn [empty length Nat.eqb negb app]; (apply host_stage; [done|auto]).
  - destruct port as [|d port]; cbn [empty length Nat.eqb negb app]; [|by apply (port_stage (d :: port))]. unfold parse_port. cbn. destruct u. cbn in *. by subst.
Qed.

(** ** Lemmas: arguments *)

Section ArgumentProps.
Context {C : Type} `{!HeaderConsumer C}.
Lemma arguments_run fields x fuel (cs : C) :
  fields <> [] -> Forall pair_bytes fields -> (length (pairs_text fields) < fuel)%nat -> arguments_loop fuel (x :: pairs_text fields) cs = consume fields cs.
Proof.
  intros Hne HF. revert x fuel cs Hne. induction HF as [|[k v] fields [Hk Hv] HF IH]; intros x fuel cs Hne Hf; [done|]. cbn [fst snd] in *. destruct fuel as [|fuel]; [lia|]. rewrite pairs_text_cons in *.
  set (tail := match fields with [] => [] | _ => 38 :: pairs_text fields end) in *. pose proof (encoded_chars k Hk) as HCk. pose proof (encoded_chars v Hv) as HCv.
  assert (HL : (match find (pair_text (k, v) ++ tail) [38] with Some e => e | None => length (pair_text (k, v) ++ tail) end) = length (pair_text (k, v))).
  { assert (HP : Forall (fun c => c <> 38) (pair_text (k, v))).
    { unfold pair_text. cbn [fst snd]. apply Forall_app. split; [eapply Forall_impl; [exact HCk|]; cbn; tauto|]. constructor; [done|]. eapply Forall_impl; [exact HCv|]; cbn; tauto. }
    subst tail. destruct fields as [|g fields]; [rewrite app_nil_r; by rewrite find_at_none|]. by rewrite find_at_app. }
  cbn [arguments_loop]. rewrite HL. assert (HE : find (pair_text (k, v) ++ tail) [61] = Some (length (url_encode k))).
  { unfold pair_text. cbn [fst snd]. rewrite <- !app_assoc. apply (find_at_app 61). eapply Forall_impl; [exact HCk|]; cbn; tauto. }
  rewrite HE. assert (HPL : length (pair_text (k, v)) = (length (url_encode k) + 1 + length (url_encode v))%nat) by (unfold pair_text; cbn [fst snd]; rewrite !length_app; cbn; lia).
  rewrite (proj2 (Nat.ltb_lt _ _)) by lia. rewrite drop_app_length.
  assert (HT : take (length (url_encode k)) (pair_text (k, v) ++ tail) = url_encode k) by (unfold pair_text; cbn [fst snd]; rewrite <- !app_assoc; apply take_app_length).
  assert (HV : take (length (pair_text (k, v)) - length (url_encode k) - 1) (drop (length (url_encode k) + 1) (pair_text (k, v) ++ tail)) = url_encode v).
  { unfold pair_text at 2. cbn [fst snd]. rewrite <- !app_assoc. cbn [app]. rewrite (drop_past (url_encode k)). rewrite HPL. replace (_ - _ - 1)%nat with (length (url_encode v)) by lia. apply take_app_length. }
  rewrite HT, HV, !url_roundtrip_bytes by done. subst tail. destruct fields as [|g fields]; [by destruct fuel|]. rewrite (IH 38) ; [done|done|]. rewrite length_app in Hf. cbn [length] in Hf |- *. lia.
Qed.
End ArgumentProps.

(** ** Theorems *)

(** C24. URLs.  A URL with a host (and, with it, user, password, port), or without, whose
    fields have no characters of a meaning in that place, is printed and parsed back to
    the same URL.  The conditions are those of url_ok: scheme, user, password, host and
    port have no delimiters and no % or +, a port has digits only, a password comes with a user, a path has no #; with a host, the path starts
    with a slash, and without a user, path and fragment have no @ (parse would take what is before
    it for the user); without a host there is no user or port, path and fragment do not start with //, and
    without a scheme they have nothing that parse would take for one. *)
Theorem url_roundtrip u : url_ok u -> parse (toString u) = (true, u).
Proof.
  intros (HS & HP & HF & HUP & HH). unfold parse, toString. destruct u as [scheme user password host port path fragment]. cbn [m_scheme m_user m_password m_host m_port m_path m_fragment] in *. destruct (empty host) eqn:EH.
  - destruct HH as (-> & -> & -> & H2 & HN). rewrite (HUP eq_refl). cbn [negb]. rewrite app_nil_l, scheme_text_stage by done. rewrite bool_decide_eq_false_2 by done. by rewrite path_stage.
  - destruct HH as (HO & HU & HW & HD & HR & HA). cbn [negb]. rewrite <- !app_assoc. fold (host_text host). rewrite HR. cbn [negb]. rewrite (app_nil_l (path ++ fragment)).
    rewrite scheme_text_stage; [|done|intros _; by left]. cbn [app take drop]. rewrite bool_decide_eq_true_2 by done. rewrite drop_0.
    destruct (authority_stage user password host port path fragment (set_scheme scheme Url_new)) as (H1 & H2 & H3); try done. cbn [app] in H1, H2, H3. rewrite H1, H2, H3. by rewrite path_stage.
Qed.
Lemma url_roundtrip_witness : parse (toString (mkUrl (lit "http") (lit "me") (lit "p:w") (lit "::1") (lit "80") (lit "/a@b?c=%20") (lit "#d"))) = (true, mkUrl (lit "http") (lit "me") (lit "p:w") (lit "::1") (lit "80") (lit "/a@b?c=%20") (lit "#d")).
Proof.
  apply url_roundtrip. split; [repeat constructor|]. split; [repeat constructor|]. split; [split; [repeat constructor|reflexivity]|]. split; [discriminate|].
  change (empty _) with false. cbn match. split; [split; [discriminate|]; split; [repeat constructor|]; vm_compute; repeat constructor|]. split; [repeat constructor|]. split; [repeat constructor|]. split; [change (Forall is_digit [56; 48]); constructor; [unfold is_digit; lia|constructor; [unfold is_digit; lia|constructor]]|]. split; [reflexivity|discriminate].
Defined.

(** Parameters of a query or form.  Whatever pairs of names and values (any bytes)
    ParameterEncoder writes, with a question mark behind a path, Url's matchArguments
    takes apart: the path remains, and the consumer is given the pairs in order.
    Without the question mark, in any pieces, FormParser gives the consumer the same
    pairs, except those with empty name and empty value. *)
Theorem parameters_roundtrip {C} `{!HeaderConsumer C} (cs : C) path fields pieces :
  fields <> [] -> Forall pair_bytes fields -> Forall (fun c => c <> 63) path ->
  concat pieces = pe_result (consume fields (ParameterEncoder_new [] 0)) ->
  matchArguments (pe_result (consume fields (ParameterEncoder_new path 63))) cs = (path, consume fields cs) /\
  exists p, feed_pieces pieces (FormParser_new cs) = (p, Ok (false, [])) /\ fp_consumer (handleDataComplete p) = consume (List.filter nonempty_pair fields) cs.
Proof.
  intros Hne HB HP HC. rewrite encoder_text in HC |- * by done. cbn [Z.eqb app] in HC |- *. split.
  - unfold matchArguments. rewrite find_at_app by done. rewrite take_app_length, drop_app_length. f_equal. apply arguments_run; [done|done|]. rewrite length_app. cbn [length]. lia.
  - exists (feed (FormParser_new cs) (pairs_text fields)). rewrite feed_pieces_spec by done. rewrite HC. split; [f_equal; f_equal; f_equal; by apply bytewise_rest|]. rewrite form_feed. unfold FormParser_new. by rewrite form_run.
Qed.
Lemma parameters_roundtrip_witness :
  matchArguments (lit "/x?a=b+%26&=") (mkTable []) = (lit "/x", field_pairs [(lit "a", lit "b &"); ([], [])]) /\
  exists p, feed_pieces [lit "a=b+%"; lit "26&="] (FormParser_new (mkTable [])) = (p, Ok (false, [])) /\ fp_consumer (handleDataComplete p) = field_pairs [(lit "a", lit "b &")].
Proof.
  refine (parameters_roundtrip (mkTable []) (lit "/x") [(lit "a", lit "b &"); ([], [])] [lit "a=b+%"; lit "26&="] _ _ _ _).
  - discriminate.
  - repeat constructor; cbn; unfold is_byte; lia.
  - repeat constructor; discriminate.
  - reflexivity.
Defined.

(** Names of network endpoints can be printed and parsed back. *)
Theorem name_roundtrip n service :
  Name_isValid n = true -> (match find (n_name n) [58] with Some _ => free [93] (n_name n) | None => char_at (n_name n) 0 (Z.eqb 91) = false end) ->
  Name_parse (Name_toString n) service = n.
Proof.
  intros HV HN. unfold Name_toString. rewrite HV. destruct n as [name srv]. cbn [n_name n_service] in *. apply andb_prop in HV as [HV _]. apply negb_true_iff, Nat.eqb_neq in HV. unfold Name_parse. destruct (find name [58]) as [k|] eqn:E.
  - cbn [app]. unfold char_at at 1. cbn [lookup list_lookup]. change (91 =? 91) with true. cbn match.
    replace (91 :: (name ++ [93]) ++ 58 :: srv) with ((91 :: name) ++ 93 :: 58 :: srv) by (cbn [app]; by rewrite <- app_assoc).
    rewrite find_at_app by (constructor; [done|]; by apply (free_char [93]); [set_solver|exact HN]).
    assert (HC : char_at ((91 :: name) ++ 93 :: 58 :: srv) (length (91 :: name) + 1) (Z.eqb 58) = true).
    { unfold char_at. rewrite lookup_app_r by lia. by replace (length (91%Z :: name) + 1 - length (91%Z :: name))%nat with 1%nat by lia. }
    replace (length (91%Z :: name) + 2)%nat with (length (91%Z :: name) + 1 + 1)%nat by lia. rewrite HC, <- (drop_drop _ 1), drop_past. cbn [length]. replace (S (length name) - 1)%nat with (length name) by lia. cbn [drop app]. by rewrite !drop_0, take_app_length.
  - assert (HC : char_at (name ++ [58] ++ srv) 0 (Z.eqb 91) = false) by (by destruct name). rewrite HC. unfold Name_plain. cbn [app]. rewrite find_at_app by (by apply find_at_free). by rewrite take_app_length, drop_past.
Qed.
