(* ===== verification/Mime.v ===== *)
(** * MIME messages

    src/afl/net/mimebuilder.cpp and mimeparser.cpp.  The builder keeps a list of elements
    and fills in the boundaries at the end; the parser is a sink with a header parser and
    a body parser for each transfer encoding, and takes multipart messages apart. *)

From Stdlib Require Import ZArith Lia Bool String.
From stdpp Require Import base tactics numbers option list.
From S2P Require Import Prelude Encodings Strings Utf8 Codepage Stream Unicode Sinks Headers.

Local Open Scope Z_scope.
Local Open Scope afl_scope.

(** ** MimeBuilder *)

Definition CRLF : list Z := [13; 10].
Inductive ElementType := TextElement | ContentTypeElement | BoundaryElement.
Record Part := mkPart { m_Text : list Z; m_Type : ElementType }.
Inductive BuilderState := StateHeader | StateBody.
Record MimeBuilder := mkBuilder {
  m_Content : list Part; m_ContentType : list Z; m_Base64Accumulator : list Z; m_PendingCRLF : bool; m_State : BuilderState }.
Definition push (e : Part) (b : MimeBuilder) : MimeBuilder := mkBuilder (m_Content b ++ [e]) (m_ContentType b) (m_Base64Accumulator b) (m_PendingCRLF b) (m_State b).
Definition push_text (t : list Z) (b : MimeBuilder) : MimeBuilder := push (mkPart t TextElement) b.
Definition set_state (st : BuilderState) (b : MimeBuilder) : MimeBuilder := mkBuilder (m_Content b) (m_ContentType b) (m_Base64Accumulator b) (m_PendingCRLF b) st.
Definition set_pending (x : bool) (b : MimeBuilder) : MimeBuilder := mkBuilder (m_Content b) (m_ContentType b) (m_Base64Accumulator b) x (m_State b).
Definition set_accumulator (l : list Z) (b : MimeBuilder) : MimeBuilder := mkBuilder (m_Content b) (m_ContentType b) l (m_PendingCRLF b) (m_State b).
Definition set_content (l : list Part) (b : MimeBuilder) : MimeBuilder := mkBuilder l (m_ContentType b) (m_Base64Accumulator b) (m_PendingCRLF b) (m_State b).

Definition MimeBuilder_new (ctype : list Z) : MimeBuilder :=
  let b := mkBuilder [] ctype [] false StateHeader in
  if negb (length ctype =? 0)%nat then push (mkPart [] ContentTypeElement) b else b.
Definition flushHeaderAndStartBody (b : MimeBuilder) : MimeBuilder :=
  match m_State b with
  | StateHeader => push_text CRLF (set_state StateBody b)
  | StateBody => b
  end.
Definition flushBase64 (b : MimeBuilder) : MimeBuilder :=
  let b := if negb (length (m_Base64Accumulator b) =? 0)%nat
           then set_accumulator [] (push_text (base64_encode (m_Base64Accumulator b) ++ CRLF) b) else b in
  if m_PendingCRLF b then set_pending false (push_text CRLF b) else b.
Definition addHeader (name value : list Z) (b : MimeBuilder) : MimeBuilder := push_text (name ++ [58; 32] ++ value ++ CRLF) b.
Definition addLine (line : list Z) (b : MimeBuilder) : MimeBuilder := push_text (line ++ CRLF) (flushHeaderAndStartBody b).
(** [while (!data.empty())]; every round takes a byte, since the accumulator is emptied when it has 57 *)
Fixpoint addBase64_loop (fuel : nat) (data : list Z) (b : MimeBuilder) : MimeBuilder :=
  match fuel, data with
  | S fuel', _ :: _ =>
      let room := (57 - length (m_Base64Accumulator b))%nat in
      let b := set_accumulator (m_Base64Accumulator b ++ take room data) b in
      let b := if (length (m_Base64Accumulator b) =? 57)%nat then flushBase64 b else b in
      addBase64_loop fuel' (drop room data) b
  | _, _ => b
  end.
Definition addBase64 (data : list Z) (b : MimeBuilder) : MimeBuilder := addBase64_loop (length data) data (flushHeaderAndStartBody b).
Fixpoint addLineQP_loop (fuel : nat) (line : list Z) (b : MimeBuilder) : MimeBuilder :=
  match fuel with
  | O => push_text (qp_encode line ++ CRLF) b
  | S fuel' =>
      match find line [10] with
      | Some n => addLineQP_loop fuel' (drop (n + 1) line) (push_text (qp_encode (take n line) ++ CRLF) b)
      | None => push_text (qp_encode line ++ CRLF) b
      end
  end.
Definition addLineQP (line : list Z) (b : MimeBuilder) : MimeBuilder := addLineQP_loop (length line) line (flushHeaderAndStartBody b).
Fixpoint addRawData_loop (fuel : nat) (data : list Z) (b : MimeBuilder) : MimeBuilder :=
  let last := if negb (length data =? 0)%nat then push_text data b else b in
  match fuel with
  | O => last
  | S fuel' =>
      match find data [10] with
      | Some n => addRawData_loop fuel' (drop (n + 1) data) (push_text (take (n + 1) data) b)
      | None => last
      end
  end.
Definition addRawData (data : list Z) (b : MimeBuilder) : MimeBuilder := set_pending true (addRawData_loop (length data) data (flushHeaderAndStartBody b)).
Definition ends_in_boundary (b : MimeBuilder) : bool := match last (m_Content b) with Some e => (match m_Type e with BoundaryElement => true | _ => false end) | None => false end.
Definition addBoundary (b : MimeBuilder) : MimeBuilder :=
  if negb (ends_in_boundary b)
  then set_state StateHeader (push (mkPart [] BoundaryElement) (flushBase64 (flushHeaderAndStartBody b)))
  else b.
Definition addFormField (name : list Z) (b : MimeBuilder) : MimeBuilder :=
  addHeader (lit "Content-Disposition") (lit "form-data; name=" ++ [34] ++ quoteFieldName name ++ [34]) (addBoundary b).
Definition addFormFieldValue (name data : list Z) (b : MimeBuilder) : MimeBuilder := addBoundary (addRawData data (addFormField name b)).
Definition addFormFile (name fileName : list Z) (b : MimeBuilder) : MimeBuilder :=
  addHeader (lit "Content-Disposition") (lit "form-data; name=" ++ [34] ++ quoteFieldName name ++ [34] ++ lit "; filename=" ++ [34] ++ quoteFieldName fileName ++ [34]) (addBoundary b).
(** The local classes Enum of addFormFields and addHeaders *)
Record FormFieldEnum := mkFormFieldEnum { ff_self : MimeBuilder }.
#[export] Instance form_field_enum : HeaderConsumer FormFieldEnum := fun e key value => mkFormFieldEnum (addFormFieldValue key value (ff_self e)).
Definition addFormFields (tab : HeaderTable) (b : MimeBuilder) : MimeBuilder := ff_self (enumerateHeaders tab (mkFormFieldEnum b)).
Record HeaderEnum := mkHeaderEnum { he_self : MimeBuilder }.
#[export] Instance header_enum : HeaderConsumer HeaderEnum := fun e key value => mkHeaderEnum (addHeader key value (he_self e)).
Definition addHeaders (tab : HeaderTable) (b : MimeBuilder) : MimeBuilder := he_self (enumerateHeaders tab (mkHeaderEnum b)).

(** *** finish *)

Definition starts_with (prefix text : list Z) : bool := (length prefix <=? length text)%nat && bool_decide (take (length prefix) text = prefix).
Definition boundary_used (boundary : list Z) (content : list Part) : bool := existsb (fun e => starts_with boundary (m_Text e)) content.
(** The digits behind the two dashes count up, the least significant first. *)
Fixpoint next_digits (ds : list Z) : list Z :=
  match ds with
  | d :: ds' => if d =? 57 then 48 :: next_digits ds' else d + 1 :: ds'
  | [] => [48]
  end.
Definition next_boundary (boundary : list Z) : list Z := take 2 boundary ++ next_digits (drop 2 boundary).
(** [while (1)]; the number of the texts' characters is enough fuel. *)
Fixpoint find_boundary (fuel : nat) (content : list Part) (boundary : list Z) : option (list Z) :=
  if negb (boundary_used boundary content) then Some boundary
  else match fuel with
       | O => None
       | S fuel' => find_boundary fuel' content (next_boundary boundary)
       end.
Definition first_boundary : list Z := lit "--000".
(** The loop that fills in the content; the last boundary has two more dashes. *)
Fixpoint fill_content (ctype boundary : list Z) (content : list Part) : list Part :=
  match content with
  | [] => []
  | e :: content' =>
      match m_Type e with
      | ContentTypeElement => mkPart (lit "Content-Type: " ++ ctype ++ lit "; boundary=" ++ drop 2 boundary ++ CRLF) ContentTypeElement
      | BoundaryElement =>
          mkPart (if existsb (fun e => match m_Type e with BoundaryElement => true | _ => false end) content' then boundary ++ CRLF else boundary ++ [45; 45] ++ CRLF) BoundaryElement
      | TextElement => e
      end :: fill_content ctype boundary content'
  end.
Definition getTotalSize (b : MimeBuilder) : nat := list_sum (map (fun e => length (m_Text e)) (m_Content b)).
Definition finish_builder (b : MimeBuilder) : option (list Z * MimeBuilder) :=
  match find_boundary (getTotalSize b + length (m_Content b)) (m_Content b) first_boundary with
  | Some boundary => Some (drop 2 boundary, set_content (fill_content (m_ContentType b) boundary (m_Content b)) b)
  | None => None
  end.
Fixpoint write_loop {S} `{!DataSink S} (escapeDots : bool) (content : list Part) : M S unit :=
  match content with
  | [] => ret tt
  | e :: content' =>
      let@ _ := (if escapeDots && (match m_Text e with c :: _ => c =? 46 | [] => false end) then handleFullData [46] else ret tt) in
      let@ _ := handleFullData (m_Text e) in
      write_loop escapeDots content'
  end.
Definition write_builder {S} `{!DataSink S} (b : MimeBuilder) (escapeDots : bool) : M S unit := write_loop escapeDots (m_Content b).
Fixpoint remove_headers (content : list Part) : list Z * list Part :=
  match content with
  | e :: content' => match m_Type e with BoundaryElement => ([], content) | _ => let '(result, rest) := remove_headers content' in (m_Text e ++ result, rest) end
  | [] => ([], [])
  end.
Definition removeInitialHeaders (b : MimeBuilder) : list Z * MimeBuilder := let '(result, rest) := remove_headers (m_Content b) in (result, set_content rest b).

(** ** MimeParser *)

Definition isEntirelyWhitespace (s : list Z) : bool := forallb charIsSpace s.
Definition decode_with (cs : AnyCharset) (s : list Z) : list Z :=
  match cs with
  | ACodepage cp => cs_decode {| m_codepage := cp |} s
  | AUtf8 => cs_decode MkUtf8Charset s
  end.
(** The logger: the messages it was given, if there is one *)
Definition warn (msg : list Z) (log : option (list (list Z))) : option (list (list Z)) := match log with Some l => Some (l ++ [msg]) | None => None end.
Definition unknown_charset (charset : list Z) : list Z := lit "unknown character set '" ++ charset ++ lit "' (ignored)".
Definition unknown_encoding (typ : list Z) : list Z := lit "unknown Content-Transfer-Encoding '" ++ typ ++ lit "' (ignored)".
(** The three parts of an encoded word; [inr] is what is behind the position when one is missing *)
Definition parse_word (rest : list Z) : (list Z * list Z * list Z * list Z) + list Z :=
  match find rest [63] with
  | None => inr rest
  | Some n =>
      let charset := strLCase (take n rest) in
      let rest := drop (n + 1) rest in
      match find rest [63] with
      | None => inr rest
      | Some n =>
          let encoding := strLCase (take n rest) in
          let rest := drop (n + 1) rest in
          match find rest [63; 61] with
          | None => inr rest
          | Some n => inl (charset, encoding, take n rest, drop (n + 2) rest)
          end
      end
  end.
Fixpoint decodeHeader_loop (fuel : nat) (start : bool) (header result : list Z) (log : option (list (list Z))) : list Z * option (list (list Z)) :=
  match fuel with
  | O => (result ++ header, log)
  | S fuel' =>
      match find header [61; 63] with
      | None => (result ++ header, log)
      | Some n =>
          let result := if start || negb (isEntirelyWhitespace (take n header)) then result ++ take n header else result in
          match parse_word (drop (n + 2) header) with
          | inr rest => (result ++ rest, log)
          | inl (charset, encoding, word, rest) =>
              let word := if bool_decide (encoding = lit "b") then base64_decode word else qp_decode (map (fun c => if c =? 95 then 32 else c) word) in
              match createCharset charset with
              | Some cs => decodeHeader_loop fuel' false rest (result ++ decode_with cs word) log
              | None => decodeHeader_loop fuel' false rest (result ++ word) (warn (unknown_charset charset) log)
              end
          end
      end
  end.
Definition decodeHeader (header : list Z) (log : option (list (list Z))) : list Z * option (list (list Z)) := decodeHeader_loop (length header) true header [] log.

(** What the header parser's consumer, the MimeParser itself, keeps *)
Record MimeHeaders := mkMimeHeaders { mh_headers : HeaderTable; mh_trace : list Z; mh_log : option (list (list Z)) }.
Definition processReceivedHeader (value : list Z) (h : MimeHeaders) : MimeHeaders :=
  match find value [91], find value [93] with
  | Some a, Some e =>
      if (a <? e)%nat
      then mkMimeHeaders (mh_headers h) (mh_trace h ++ (if negb (length (mh_trace h) =? 0)%nat then [47] else []) ++ take (e - (a + 1)) (drop (a + 1) value)) (mh_log h)
      else h
  | _, _ => h
  end.
#[export] Instance mime_consumer : HeaderConsumer MimeHeaders := fun h key value =>
  if strCaseCompare key (lit "Received") =? 0 then processReceivedHeader value h
  else let '(decoded, log) := decodeHeader (strLTrim value) (mh_log h) in mkMimeHeaders (HeaderTable_add key decoded (mh_headers h)) (mh_trace h) log.

Inductive MimeState := MStateHeader | StatePlainBody | StateBase64Body | StateQPBody.
#[export] Instance MimeState_eq_dec : EqDecision MimeState.
Proof. solve_decision. Defined.
Record MimeParser := mkMime { mp_headerParser : HeaderParser MimeHeaders; mp_body : list (list Z); mp_accum : list Z; mp_state : MimeState; mp_decodeBody : bool }.
Definition mp_headers (p : MimeParser) : HeaderTable := mh_headers (hp_consumer (mp_headerParser p)).
Definition mp_trace (p : MimeParser) : list Z := mh_trace (hp_consumer (mp_headerParser p)).
Definition mp_log (p : MimeParser) : option (list (list Z)) := mh_log (hp_consumer (mp_headerParser p)).
Definition MimeParser_new : MimeParser := mkMime (HeaderParser_new (mkMimeHeaders (mkTable []) [] None)) [[]] [] MStateHeader true.
Definition setLog (log : option (list (list Z))) (p : MimeParser) : MimeParser :=
  let hp := mp_headerParser p in
  mkMime (mkHeaderParser (mkMimeHeaders (mp_headers p) (mp_trace p) log) (hp_hasErrors hp) (hp_hasFolding hp) (hp_key hp) (hp_value hp) (hp_state hp)) (mp_body p) (mp_accum p) (mp_state p) (mp_decodeBody p).
Definition setDecodeBody (enable : bool) (p : MimeParser) : MimeParser := mkMime (mp_headerParser p) (mp_body p) (mp_accum p) (mp_state p) enable.
Definition MimeParser_clear (p : MimeParser) : MimeParser :=
  mkMime (HeaderParser_new (mkMimeHeaders (mkTable []) [] (mp_log p))) [[]] [] MStateHeader (mp_decodeBody p).
Definition set_body (body : list (list Z)) (p : MimeParser) : MimeParser := mkMime (mp_headerParser p) body (mp_accum p) (mp_state p) (mp_decodeBody p).
Definition set_accum (accum : list Z) (p : MimeParser) : MimeParser := mkMime (mp_headerParser p) (mp_body p) accum (mp_state p) (mp_decodeBody p).
Definition set_mime_state (st : MimeState) (p : MimeParser) : MimeParser := mkMime (mp_headerParser p) (mp_body p) (mp_accum p) st (mp_decodeBody p).

(** [m_body.back() += c] *)
Fixpoint append_back (c : Z) (body : list (list Z)) : list (list Z) :=
  match body with
  | [] => []
  | [l] => [l ++ [c]]
  | l :: body' => l :: append_back c body'
  end.
Definition body_char (body : list (list Z)) (c : Z) : list (list Z) := if c =? 10 then body ++ [[]] else append_back c body.
Definition addBody (str : list Z) (p : MimeParser) : MimeParser := set_body (fold_left body_char str (mp_body p)) p.
Definition flushBase64Body (p : MimeParser) : MimeParser := set_accum [] (addBody (base64_decode (mp_accum p)) p).
Definition body_state (p : MimeParser) : MimeParser :=
  match HeaderTable_get (mp_headers p) (lit "Content-Transfer-Encoding") with
  | None => set_mime_state StatePlainBody p
  | Some hf =>
      if negb (mp_decodeBody p) then set_mime_state StatePlainBody p
      else
        let typ := strLCase (getPrimaryValue hf 0) in
        if bool_decide (typ = lit "base64") then set_mime_state StateBase64Body p
        else if bool_decide (typ = lit "quoted-printable") then set_mime_state StateQPBody p
        else set_mime_state StatePlainBody (if bool_decide (typ = lit "8bit") || bool_decide (typ = lit "7bit") then p else setLog (warn (unknown_encoding typ) (mp_log p)) p)
  end.
Definition addDataHeader (data : list Z) (p : MimeParser) : MimeParser * list Z :=
  let '(hp, data) := hp_loop data (mp_headerParser p) in
  let p := mkMime hp (mp_body p) (mp_accum p) (mp_state p) (mp_decodeBody p) in
  (if hp_isCompleted hp then body_state p else p, data).
Definition plain_byte (p : MimeParser) (c : Z) : MimeParser := if c =? 13 then p else set_body (body_char (mp_body p) c) p.
Definition base64_byte (p : MimeParser) (c : Z) : MimeParser :=
  if c =? 13 then p else if c =? 10 then flushBase64Body p else set_accum (mp_accum p ++ [c]) p.
Definition qp_byte (p : MimeParser) (c : Z) : MimeParser :=
  if c =? 13 then p
  else if c =? 10
  then
    let soft := match last (mp_accum p) with Some x => x =? 61 | None => false end in
    let accum := if soft then take (length (mp_accum p) - 1) (mp_accum p) else mp_accum p in
    let p := set_accum [] (addBody (qp_decode accum) p) in
    if soft then p else set_body (mp_body p ++ [[]]) p
  else set_accum (mp_accum p ++ [c]) p.
(** One round of [while (!data.empty())] *)
Definition mime_round (data : list Z) (p : MimeParser) : MimeParser * list Z :=
  match mp_state p with
  | MStateHeader => addDataHeader data p
  | StatePlainBody => (fold_left plain_byte data p, [])
  | StateBase64Body => (fold_left base64_byte data p, [])
  | StateQPBody => (fold_left qp_byte data p, [])
  end.
(** Two rounds at most: the header, then the body *)
Definition mime_data (data : list Z) (p : MimeParser) : MimeParser * list Z :=
  match data with
  | [] => (p, [])
  | _ => let '(p, data) := mime_round data p in match data with [] => (p, []) | _ => mime_round data p end
  end.
#[export] Instance mime_sink : DataSink MimeParser := fun data p => let '(p, data) := mime_data data p in (p, Ok (true, data)).
Definition finish (p : MimeParser) : MimeParser :=
  set_accum [] (match mp_state p with
    | MStateHeader => (addDataHeader [10; 10] p).1
    | StatePlainBody => p
    | StateBase64Body => flushBase64Body p
    | StateQPBody => addBody (qp_decode (mp_accum p)) p
    end).
Definition getHeader (p : MimeParser) (name : list Z) : option (list Z) := hf_value <$> HeaderTable_get (mp_headers p) name.
Definition secondary_of (p : MimeParser) (header name : list Z) : option (list Z) :=
  match HeaderTable_get (mp_headers p) header with Some hf => getSecondaryValue hf name 0 | None => None end.
Definition getFileName (p : MimeParser) : option (list Z) :=
  match secondary_of p (lit "Content-Disposition") (lit "filename") with
  | Some result => Some result
  | None => secondary_of p (lit "Content-Type") (lit "name")
  end.
Definition getBodyAsString (p : MimeParser) : list Z :=
  match mp_body p with
  | [] => []
  | l :: body => l ++ concat (map (fun l => 10 :: l) body)
  end.

(** *** Parts *)

Inductive PartEnumerator :=
| PartIterator (m_parent : MimeParser) (m_boundary : list Z) (m_position : nat)
| MessageIterator (m_parent : MimeParser) (m_did : bool).
Definition is_boundary (boundary line : list Z) : bool := starts_with boundary line && forallb (Z.eqb 45) (drop (length boundary) line).
(** The new position *)
Fixpoint find_line (boundary : list Z) (lines : list (list Z)) (pos : nat) : option nat :=
  match lines with
  | l :: lines' => if is_boundary boundary l then Some (pos + 1)%nat else find_line boundary lines' (pos + 1)
  | [] => None
  end.
Definition findNextBoundary (parent : MimeParser) (boundary : list Z) (pos : nat) : option nat := find_line boundary (drop pos (mp_body parent)) pos.
Fixpoint copy_lines (first : bool) (lines : list (list Z)) : M MimeParser unit :=
  match lines with
  | [] => ret tt
  | l :: lines' =>
      let@ _ := (if negb first then handleFullData [10] else ret tt) in
      let@ _ := handleFullData l in
      copy_lines false lines'
  end.
Definition copyBodyPart (from to : MimeParser) (start stop : nat) : MimeParser :=
  finish (copy_lines true (take (stop - start) (drop start (mp_body from))) (MimeParser_clear to)).1.
(** getNextElement, for a result that is not the parent itself *)
Definition getNextElement (e : PartEnumerator) (result : MimeParser) : option (MimeParser * PartEnumerator) :=
  match e with
  | PartIterator parent boundary pos =>
      match findNextBoundary parent boundary pos with
      | Some next => Some (copyBodyPart parent result pos (next - 1), PartIterator parent boundary next)
      | None => None
      end
  | MessageIterator parent did =>
      if did then None else Some (copyBodyPart parent result 0 (length (mp_body parent)), MessageIterator parent true)
  end.
Definition new_PartIterator (parent : MimeParser) (boundary : list Z) : PartEnumerator :=
  PartIterator parent boundary (match findNextBoundary parent boundary 0 with Some pos => pos | None => 0%nat end).
Definition getParts (p : MimeParser) : option PartEnumerator :=
  match HeaderTable_get (mp_headers p) (lit "Content-Type") with
  | None => None
  | Some hf =>
      let ct := getPrimaryValue hf 0 in
      if strCaseCompare ct (lit "message/rfc822") =? 0 then Some (MessageIterator p false)
      else if strCaseCompare (take 10 ct) (lit "multipart/") =? 0
      then match getSecondaryValue hf (lit "boundary") 0 with
           | Some boundary => if (length boundary =? 0)%nat then None else Some (new_PartIterator p ([45; 45] ++ boundary))
           | None => None
           end
      else None
  end.
