(* ===== verification/MimeProps.v ===== *)
(** * MIME messages: the boundary search ends, and messages can be taken apart again *)

From Stdlib Require Import ZArith Lia Bool String.
From stdpp Require Import base tactics numbers option list.
From S2P Require Import Prelude Encodings Strings Stream Sinks Headers Mime.

Local Open Scope Z_scope.
Local Open Scope afl_scope.

(** Every character of a literal has a property. *)
Ltac literal_chars := apply Forall_forall; let c := fresh in let H := fresh in intros c H; cbn in H; repeat (apply elem_of_cons in H as [->|H]; [repeat split; cbn; lia|]); by apply elem_of_nil in H.

(** ** The boundary search *)

Definition digit_char (c : Z) : Prop := 48 <= c <= 57.
(** A number with the digits 1 to 10: no two sequences of digits have the same value. *)
Fixpoint rank (ds : list Z) : Z := match ds with d :: ds' => (d - 47) + 10 * rank ds' | [] => 0 end.
Lemma next_digits_rank ds : Forall digit_char ds -> rank (next_digits ds) = rank ds + 1 /\ Forall digit_char (next_digits ds).
Proof.
  induction 1 as [|d ds Hd Hds [IH1 IH2]]; [cbn; split; [lia|]; repeat constructor; lia|]. cbn [next_digits]. unfold digit_char in *. destruct (Z.eqb_spec d 57) as [->|]; cbn [rank].
  - split; [lia|]. constructor; [lia|done].
  - split; [lia|]. constructor; [lia|done].
Qed.
Lemma next_digits_length ds : (length ds <= length (next_digits ds))%nat.
Proof. induction ds as [|d ds IH]; [cbn; lia|]. cbn [next_digits]. destruct (d =? 57); cbn [length]; lia. Qed.
Definition boundary_ok (b : list Z) : Prop := exists ds, b = [45; 45] ++ ds /\ Forall digit_char ds /\ (3 <= length ds)%nat.
Lemma next_boundary_ok b : boundary_ok b -> boundary_ok (next_boundary b) /\ rank (drop 2 (next_boundary b)) = rank (drop 2 b) + 1.
Proof.
  intros (ds & -> & Hd & Hl). destruct (next_digits_rank ds Hd) as [H1 H2]. pose proof (next_digits_length ds). unfold next_boundary. cbn [take drop app]. rewrite !take_0, !drop_0. split; [|done]. exists (next_digits ds). split; [done|]. split; [done|lia].
Qed.
Lemma first_boundary_ok : boundary_ok first_boundary.
Proof. exists (lit "000"). split; [done|]. split; [|cbn; lia]. change (lit "000") with [48; 48; 48]. unfold digit_char. repeat (constructor; [lia|]). constructor. Qed.

(** All candidates *)
Fixpoint candidates (n : nat) (b : list Z) : list (list Z) := match n with S n' => b :: candidates n' (next_boundary b) | O => [] end.
Lemma candidates_length n b : length (candidates n b) = n.
Proof. revert b. induction n as [|n IH]; intros b; [done|]. cbn. by rewrite IH. Qed.
Lemma candidates_rank n b x : boundary_ok b -> x ∈ candidates n b -> rank (drop 2 b) <= rank (drop 2 x).
Proof.
  revert b. induction n as [|n IH]; intros b Hb Hx; [by apply elem_of_nil in Hx|]. cbn [candidates] in Hx. apply elem_of_cons in Hx as [->|Hx]; [lia|]. destruct (next_boundary_ok b Hb) as [Hn HR]. specialize (IH _ Hn Hx). lia.
Qed.
Lemma candidates_NoDup n b : boundary_ok b -> NoDup (candidates n b).
Proof.
  revert b. induction n as [|n IH]; intros b Hb; [constructor|]. cbn [candidates]. destruct (next_boundary_ok b Hb) as [Hn HR]. constructor; [|by apply IH]. intros Hx. apply candidates_rank in Hx; [|done]. lia.
Qed.
(** All prefixes of the texts; a boundary that is in use is one of them. *)
Definition prefixes (content : list Part) : list (list Z) := concat (map (fun e => map (fun k => take k (m_Text e)) (seq 0 (S (length (m_Text e))))) content).
Lemma prefixes_length b : length (prefixes (m_Content b)) = (getTotalSize b + length (m_Content b))%nat.
Proof.
  unfold prefixes, getTotalSize. induction (m_Content b) as [|e l IH]; [done|]. cbn [map concat length]. rewrite length_app, length_map, length_seq, IH. change (list_sum (?x :: ?l)) with (x + list_sum l)%nat. lia.
Qed.
Lemma starts_with_take prefix text : starts_with prefix text = true <-> exists rest, text = prefix ++ rest.
Proof.
  unfold starts_with. rewrite andb_true_iff, Nat.leb_le, bool_decide_eq_true. split; [intros [_ H]; exists (drop (length prefix) text); rewrite <- H at 1; by rewrite take_drop|].
  intros [rest ->]. rewrite length_app, take_app_length. split; [lia|done].
Qed.
Lemma used_prefix boundary content : boundary_used boundary content = true -> boundary ∈ prefixes content.
Proof.
  unfold boundary_used. rewrite existsb_exists. intros (e & He & Hs). apply list_elem_of_In, in_concat. eexists. split; [by apply in_map|]. cbn beta. apply starts_with_take in Hs as [rest Hs]. apply in_map_iff. exists (length boundary).
  split; [by rewrite Hs, take_app_length|]. apply in_seq. rewrite Hs, length_app. lia.
Qed.
Lemma find_boundary_none fuel content b : find_boundary fuel content b = None -> Forall (fun x => boundary_used x content = true) (candidates (S fuel) b).
Proof.
  revert b. induction fuel as [|fuel IH]; intros b H; cbn [find_boundary candidates] in *; destruct (boundary_used b content) eqn:E; try done; cbn [negb] in H; constructor; [done|constructor|done|].
  by apply (IH (next_boundary b)).
Qed.
Lemma find_boundary_some fuel content b b' : find_boundary fuel content b = Some b' -> boundary_ok b -> boundary_ok b' /\ boundary_used b' content = false.
Proof.
  revert b. induction fuel as [|fuel IH]; intros b H Hb; cbn [find_boundary] in H; destruct (boundary_used b content) eqn:E; cbn [negb] in H; simplify_eq; [done| |done].
  apply (IH _ H). by apply next_boundary_ok.
Qed.
Lemma finish_boundary b : exists boundary, find_boundary (getTotalSize b + length (m_Content b)) (m_Content b) first_boundary = Some boundary /\ boundary_ok boundary /\ boundary_used boundary (m_Content b) = false.
Proof.
  destruct (find_boundary _ _ _) as [boundary|] eqn:E; [exists boundary; split; [done|]; eapply find_boundary_some; [exact E|apply first_boundary_ok]|]. exfalso.
  apply find_boundary_none in E. pose proof (candidates_NoDup (S (getTotalSize b + length (m_Content b))) first_boundary first_boundary_ok) as HN.
  assert (HI : (length (candidates (S (getTotalSize b + length (m_Content b))) first_boundary) <= length (prefixes (m_Content b)))%nat).
  { apply NoDup_incl_length; [by apply NoDup_ListNoDup|]. intros x Hx. apply list_elem_of_In, used_prefix. rewrite Forall_forall in E. apply E. by apply list_elem_of_In. }
  rewrite candidates_length, prefixes_length in HI. lia.
Qed.

(** MimeBuilder::finish ends, although it has a loop without a bound: whatever was
    added to the builder, the search finds a boundary of at least three digits that no
    element starts with. *)
Theorem mime_finish_terminates b :
  exists boundary b', finish_builder b = Some (boundary, b') /\ Forall digit_char boundary /\ (3 <= length boundary)%nat /\
    Forall (fun e => starts_with ([45; 45] ++ boundary) (m_Text e) = false) (m_Content b).
Proof.
  destruct (finish_boundary b) as (bd & E & (ds & -> & Hd & Hl) & HU). unfold finish_builder. rewrite E. eexists ds, _. split; [done|]. split; [done|]. split; [done|].
  apply Forall_forall. intros e He. apply not_true_iff_false. intros Hs. rewrite <- not_true_iff_false in HU. apply HU. unfold boundary_used. apply existsb_exists. exists e. split; [by apply list_elem_of_In|done].
Qed.

(** ** The parser as a machine on bytes *)

Definition mime_step (p : MimeParser) (c : Z) : MimeParser :=
  match mp_state p with
  | MStateHeader =>
      let hp := hp_char (mp_headerParser p) c in
      let p := mkMime hp (mp_body p) (mp_accum p) (mp_state p) (mp_decodeBody p) in
      if hp_isCompleted hp then body_state p else p
  | StatePlainBody => plain_byte p c
  | StateBase64Body => base64_byte p c
  | StateQPBody => qp_byte p c
  end.
(** While in the header, the header parser is not complete. *)
Definition mp_ok (p : MimeParser) : Prop := mp_state p = MStateHeader -> hp_isCompleted (mp_headerParser p) = false.
Lemma body_state_state p : mp_state (body_state p) <> MStateHeader.
Proof. unfold body_state. destruct (HeaderTable_get _ _); [|done]. destruct (negb _); [done|]. cbn zeta. repeat match goal with |- context [if ?b then _ else _] => destruct b end; done. Qed.
Lemma mime_step_ok p c : mp_ok p -> mp_ok (mime_step p c).
Proof.
  intros Hp. unfold mime_step. destruct (mp_state p) eqn:E.
  - cbn zeta. destruct (hp_isCompleted (hp_char (mp_headerParser p) c)) eqn:EC; [|by intros _]. intros H. by apply body_state_state in H.
  - unfold plain_byte, mp_ok. destruct (c =? 13); [by rewrite E|]. cbn. by rewrite E.
  - unfold base64_byte, mp_ok. destruct (c =? 13); [by rewrite E|]. destruct (c =? 10); cbn; by rewrite E.
  - unfold qp_byte, mp_ok. destruct (c =? 13); [by rewrite E|]. destruct (c =? 10); [|cbn; by rewrite E]. cbn zeta. destruct (match last (mp_accum p) with Some x => x =? 61 | None => false end); cbn; by rewrite E.
Qed.
Lemma mime_steps_ok p data : mp_ok p -> mp_ok (fold_left mime_step data p).
Proof. revert p. induction data as [|c data IH]; intros p Hp; [done|]. cbn. by apply IH, mime_step_ok. Qed.
Lemma fold_same {A} (f g : A -> Z -> A) (P : A -> Prop) data a : (forall a c, P a -> f a c = g a c /\ P (g a c)) -> P a -> fold_left f data a = fold_left g data a.
Proof. intros H. revert a. induction data as [|c data IH]; intros a Ha; [done|]. cbn. destruct (H a c Ha) as [-> Hg]. by apply IH. Qed.
Lemma body_round p data : mp_state p <> MStateHeader -> mime_round data p = (fold_left mime_step data p, []).
Proof.
  intros Hs. unfold mime_round. destruct (mp_state p) eqn:E; [done|..]; f_equal.
  - apply (fold_same _ _ (fun p => mp_state p = StatePlainBody)); [|done]. intros a c Ha. unfold mime_step. rewrite Ha. split; [done|]. unfold plain_byte. by destruct (c =? 13).
  - apply (fold_same _ _ (fun p => mp_state p = StateBase64Body)); [|done]. intros a c Ha. unfold mime_step. rewrite Ha. split; [done|]. unfold base64_byte. destruct (c =? 13); [done|]. by destruct (c =? 10).
  - apply (fold_same _ _ (fun p => mp_state p = StateQPBody)); [|done]. intros a c Ha. unfold mime_step. rewrite Ha. split; [done|]. unfold qp_byte. destruct (c =? 13); [done|]. destruct (c =? 10); [|done]. cbn zeta. by destruct (match last _ with Some x => x =? 61 | None => false end).
Qed.
(** The header parser runs until it is complete. *)
Lemma header_round p data : mp_state p = MStateHeader -> mp_ok p ->
  let '(q, rest) := addDataHeader data p in fold_left mime_step data p = fold_left mime_step rest q /\ (rest <> [] -> mp_state q <> MStateHeader).
Proof.
  intros Hs Ho. unfold addDataHeader. specialize (Ho Hs). destruct p as [hp body accum st dec]. cbn [mp_state mp_headerParser mp_body mp_accum mp_decodeBody] in *. subst st. revert hp Ho. induction data as [|c data IH]; intros hp Ho.
  - cbn. rewrite Ho. cbn. rewrite Ho. split; done.
  - cbn [hp_loop]. rewrite Ho. cbn [negb fold_left]. unfold mime_step at 2. cbn [mp_state mp_headerParser mp_body mp_accum mp_decodeBody]. destruct (hp_isCompleted (hp_char hp c)) eqn:EC; [|by apply IH].
    rewrite hp_loop_run, bytewise_final by done. rewrite EC. split; [done|]. intros _. apply body_state_state.
Qed.
Lemma mime_data_steps p data : mp_ok p -> mime_data data p = (fold_left mime_step data p, []).
Proof.
  intros Ho. unfold mime_data. destruct data as [|c data]; [done|]. destruct (decide (mp_state p = MStateHeader)) as [Hs|Hs].
  - pose proof (header_round p (c :: data) Hs Ho) as HR. unfold mime_round at 1. rewrite Hs. destruct (addDataHeader (c :: data) p) as [q rest]. destruct HR as [-> HR]. destruct rest as [|x rest]; [done|]. by apply body_round, HR.
  - by rewrite body_round.
Qed.
Lemma mime_full p data : mp_ok p -> handleFullData data p = (fold_left mime_step data p, Ok tt).
Proof. intros Ho. unfold handleFullData, bind, handleData, mime_sink. by rewrite mime_data_steps. Qed.
(** Pieces of a message, each given to handleData *)
Definition parse_pieces (pieces : list (list Z)) (p : MimeParser) : MimeParser := fold_left (fun p d => (handleData d p).1) pieces p.
Lemma parse_pieces_steps pieces p : mp_ok p -> parse_pieces pieces p = fold_left mime_step (concat pieces) p.
Proof.
  revert p. induction pieces as [|d pieces IH]; intros p Ho; [done|]. cbn [parse_pieces fold_left concat]. rewrite fold_left_app. unfold handleData at 2, mime_sink. rewrite mime_data_steps by done. cbn [fst]. apply IH. by apply mime_steps_ok.
Qed.

(** ** Building a multipart message *)

Inductive PartBody := Lines (ls : list (list Z)) | Base64Data (data : list Z).
Record PartSpec := mkSpec { ps_headers : list (list Z * list Z); ps_body : PartBody }.
Definition CTE : list Z * list Z := (lit "Content-Transfer-Encoding", lit "base64").
Definition add_fields (fields : list (list Z * list Z)) (b : MimeBuilder) : MimeBuilder := fold_left (fun b f => addHeader f.1 f.2 b) fields b.
Definition build_part (b : MimeBuilder) (s : PartSpec) : MimeBuilder :=
  let b := add_fields (ps_headers s) (addBoundary b) in
  match ps_body s with
  | Lines ls => fold_left (fun b l => addLine l b) ls b
  | Base64Data data => addBase64 data (addHeader CTE.1 CTE.2 b)
  end.
Definition build (ctype : list Z) (parts : list PartSpec) : MimeBuilder := addBoundary (fold_left build_part parts (MimeBuilder_new ctype)).

(** The fields and lines a part is made of; data is encoded in lines, in some division. *)
Definition all_fields (s : PartSpec) : list (list Z * list Z) := ps_headers s ++ match ps_body s with Lines _ => [] | Base64Data _ => [CTE] end.
Definition body_lines (s : PartSpec) (lines : list (list Z)) : Prop :=
  match ps_body s with
  | Lines ls => lines = ls
  | Base64Data data => exists cs, concat cs = data /\ lines = map base64_encode cs
  end.
Definition line_text (l : list Z) : Part := mkPart (l ++ CRLF) TextElement.
Definition boundary_mark : Part := mkPart [] BoundaryElement.
Definition part_content (s : PartSpec) (content : list Part) : Prop :=
  exists lines, body_lines s lines /\ content = boundary_mark :: map line_text (map field_line (all_fields s) ++ [] :: lines).

(** What the content is when a boundary is added *)
Definition closed (b : MimeBuilder) : list Part := m_Content (flushBase64 (flushHeaderAndStartBody b)).
Lemma addBoundary_eq b : ends_in_boundary b = false -> m_PendingCRLF b = false -> addBoundary b = mkBuilder (closed b ++ [boundary_mark]) (m_ContentType b) [] false StateHeader.
Proof.
  intros He Hp. unfold addBoundary, closed. rewrite He. cbn [negb]. destruct b as [content ctype acc pending st]. cbn [m_PendingCRLF] in Hp. subst pending.
  unfold flushHeaderAndStartBody, flushBase64, push_text, push, set_state, set_accumulator, set_pending. cbn [m_State m_Content m_ContentType m_Base64Accumulator m_PendingCRLF].
  destruct st; cbn [m_State m_Content m_ContentType m_Base64Accumulator m_PendingCRLF]; destruct acc as [|x acc]; done.
Qed.
Lemma add_fields_eq fields content ctype acc pending st :
  add_fields fields (mkBuilder content ctype acc pending st) = mkBuilder (content ++ map line_text (map field_line fields)) ctype acc pending st.
Proof.
  revert content. induction fields as [|f fields IH]; intros content; [cbn; by rewrite app_nil_r|]. unfold add_fields. cbn [fold_left]. fold (add_fields fields). unfold addHeader, push_text, push. cbn [m_State m_Content m_ContentType m_Base64Accumulator m_PendingCRLF].
  rewrite IH, <- app_assoc. cbn [map app]. do 3 f_equal. unfold line_text, field_line. f_equal. by rewrite <- !app_assoc.
Qed.
Lemma last_text content l : (match last (content ++ [l]) with Some e => (match m_Type e with BoundaryElement => true | _ => false end) | None => false end) = (match m_Type l with BoundaryElement => true | _ => false end).
Proof. by rewrite last_snoc. Qed.
(** A builder that has lines in its last part: the content when closed *)
Definition open_part (b : MimeBuilder) (content : list Part) (ctype : list Z) : Prop :=
  closed b = content /\ ends_in_boundary b = false /\ m_PendingCRLF b = false /\ m_ContentType b = ctype.
Lemma add_lines_eq ls content ctype : fold_left (fun b l => addLine l b) ls (mkBuilder content ctype [] false StateBody) = mkBuilder (content ++ map line_text ls) ctype [] false StateBody.
Proof.
  revert content. induction ls as [|l ls IH]; intros content; [cbn; by rewrite app_nil_r|]. cbn [fold_left]. unfold addLine at 2, flushHeaderAndStartBody, push_text, push. cbn [m_State m_Content m_ContentType m_Base64Accumulator m_PendingCRLF]. rewrite IH, <- app_assoc. done.
Qed.
Lemma lines_part ls content ctype e : m_Type e = TextElement \/ ls <> [] ->
  open_part (fold_left (fun b l => addLine l b) ls (mkBuilder (content ++ [e]) ctype [] false StateHeader)) ((content ++ [e]) ++ map line_text ([] :: ls)) ctype.
Proof.
  intros Hc. destruct ls as [|l ls].
  - destruct Hc as [Hc|]; [|done]. cbn [fold_left]. split; [done|]. split; [|done]. unfold ends_in_boundary. cbn [m_Content]. rewrite last_text. by rewrite Hc.
  - cbn [fold_left]. unfold addLine at 2, flushHeaderAndStartBody, push_text, push, set_state. cbn [m_State m_Content m_ContentType m_Base64Accumulator m_PendingCRLF]. rewrite add_lines_eq.
    rewrite <- !app_assoc. cbn [app map]. split; [done|]. split; [|done]. unfold ends_in_boundary. cbn [m_Content].
    assert (HL : exists x y, line_text l :: map line_text ls = x ++ [line_text y]).
    { destruct (exists_last (l := l :: ls) ltac:(done)) as (x & y & E). exists (map line_text x), y. change (line_text l :: map line_text ls) with (map line_text (l :: ls)). rewrite E, map_app. done. }
    destruct HL as (x & y & E). cbn [app]. match goal with |- context [last ?t] => replace t with ((content ++ e :: mkPart CRLF TextElement :: x) ++ [line_text y]) end; [by rewrite last_text|]. rewrite <- app_assoc. cbn [app]. rewrite <- E. done.
Qed.
(** The encoded lines, and what is still in the accumulator (nothing, or one piece) *)
Definition encoded (content : list Part) (ctype : list Z) (cs acc' : list (list Z)) (b : MimeBuilder) : Prop :=
  b = mkBuilder (content ++ map line_text (map base64_encode (take (length cs - length acc') cs))) ctype (concat acc') false StateBody /\
  drop (length cs - length acc') cs = acc' /\ (length acc' <= 1)%nat /\ Forall (fun c => c <> []) acc'.
Lemma encoded_rest content ctype acc : exists cs acc', concat cs = acc /\ encoded content ctype cs acc' (mkBuilder content ctype acc false StateBody).
Proof.
  destruct acc as [|x acc].
  - exists [], []. split; [done|]. split; [cbn; by rewrite app_nil_r|]. split; [done|]. split; [cbn; lia|constructor].
  - exists [x :: acc], [x :: acc]. split; [cbn; by rewrite app_nil_r|]. split; [cbn; by rewrite !app_nil_r|]. split; [done|]. split; [cbn; lia|by repeat constructor].
Qed.
Lemma base64_lines fuel data content ctype acc :
  (length data <= fuel)%nat -> (length acc < 57)%nat ->
  exists cs acc', concat cs = acc ++ data /\ encoded content ctype cs acc' (addBase64_loop fuel data (mkBuilder content ctype acc false StateBody)).
Proof.
  revert data content acc. induction fuel as [|fuel IH]; intros data content acc Hf Ha.
  - destruct data; [|cbn in Hf; lia]. rewrite app_nil_r. apply encoded_rest.
  - destruct data as [|x data]; [rewrite app_nil_r; apply encoded_rest|].
    cbn [addBase64_loop]. unfold set_accumulator. cbn [m_State m_Content m_ContentType m_Base64Accumulator m_PendingCRLF]. set (room := (57 - length acc)%nat). set (d := x :: data) in *.
    assert (HD : (length (drop room d) <= fuel)%nat) by (rewrite length_drop; subst room d; cbn [length] in *; lia).
    destruct (Nat.eqb_spec (length (acc ++ take room d)) 57) as [E57|E57].
    + unfold flushBase64, push_text, push, set_accumulator. cbn [m_State m_Content m_ContentType m_Base64Accumulator m_PendingCRLF]. rewrite E57. cbn [Nat.eqb negb m_PendingCRLF].
      destruct (IH (drop room d) (content ++ [line_text (base64_encode (acc ++ take room d))]) [] HD ltac:(cbn; lia)) as (cs & acc' & Hcs & H2 & H3 & H4 & H5). cbn [app] in Hcs.
      exists ((acc ++ take room d) :: cs), acc'. split; [cbn [concat]; rewrite Hcs, <- app_assoc; by rewrite take_drop|]. fold (line_text (base64_encode (acc ++ take room d))).
      assert (HL : (length acc' <= length cs)%nat) by (rewrite <- H3, length_drop; lia). unfold encoded. cbn [length]. replace (S (length cs) - length acc')%nat with (S (length cs - length acc')) by lia. cbn [take drop map].
      split; [rewrite H2; f_equal; by rewrite <- app_assoc|]. done.
    + rewrite length_app, length_take in E57. assert (Hr : drop room d = []) by (apply drop_ge; subst room; lia). rewrite Hr. assert (HT : take room d = d) by (apply take_ge; subst room; lia). rewrite HT in *.
      destruct fuel; cbn [addBase64_loop]; apply encoded_rest.
Qed.
Lemma base64_part data content ctype e : m_Type e = TextElement ->
  exists cs, concat cs = data /\ open_part (addBase64 data (mkBuilder (content ++ [e]) ctype [] false StateHeader)) ((content ++ [e]) ++ map line_text ([] :: map base64_encode cs)) ctype.
Proof.
  intros He. unfold addBase64, flushHeaderAndStartBody, push_text, push, set_state. cbn [m_State m_Content m_ContentType m_Base64Accumulator m_PendingCRLF].
  destruct (base64_lines (length data) data ((content ++ [e]) ++ [mkPart CRLF TextElement]) ctype [] ltac:(lia) ltac:(cbn; lia)) as (cs & acc' & Hcs & H2 & H3 & H4 & H5). exists cs. split; [done|]. rewrite H2.
  assert (HL : (length acc' <= length cs)%nat) by (rewrite <- H3, length_drop; lia). set (k := (length cs - length acc')%nat) in *.
  assert (HC : cs = take k cs ++ acc') by (rewrite <- H3 at 1; by rewrite take_drop). assert (HM : map base64_encode cs = map base64_encode (take k cs) ++ map base64_encode acc') by (rewrite <- map_app; by rewrite <- HC). split; [|split; [|done]].
  - unfold closed, flushHeaderAndStartBody, flushBase64, push_text, push, set_accumulator. cbn [m_State m_Content m_ContentType m_Base64Accumulator m_PendingCRLF]. rewrite <- !app_assoc. cbn [map].
    rewrite HM, !map_app. destruct acc' as [|a [|]]; [cbn; by rewrite !app_nil_r| |cbn in H4; lia]. apply Forall_cons in H5 as [H5 _]. cbn [concat]. rewrite app_nil_r. destruct a as [|y a]; [done|]. cbn [length Nat.eqb negb m_PendingCRLF m_Content map app].
    done.
  - unfold ends_in_boundary. cbn [m_Content]. destruct (take k cs) as [|c t] eqn:E using rev_ind; [cbn [map]; rewrite app_nil_r; by rewrite last_text|]. rewrite !map_app. cbn [map]. rewrite app_assoc. by rewrite last_text.
Qed.

(** A part has a field or a line: one without either is no part, since two boundaries in a row are one. *)
Definition part_nonempty (s : PartSpec) : Prop := match ps_body s with Lines ls => ps_headers s <> [] \/ ls <> [] | Base64Data _ => True end.
Lemma build_part_open b s content ctype : open_part b content ctype -> part_nonempty s -> exists pc, part_content s pc /\ open_part (build_part b s) (content ++ pc) ctype.
Proof.
  intros (<- & He & Hp & <-) Hn. unfold build_part. rewrite addBoundary_eq by done. unfold part_nonempty in Hn. unfold part_content, body_lines, all_fields. destruct s as [fields body]. cbn [ps_headers ps_body] in *. destruct body as [ls|data].
  - rewrite app_nil_r, add_fields_eq. eexists. split; [by exists ls|]. assert (HE : exists c e, (closed b ++ [boundary_mark]) ++ map line_text (map field_line fields) = c ++ [e] /\ (m_Type e = TextElement \/ ls <> [])).
    { destruct fields as [|f fields] using rev_ind; [rewrite app_nil_r; exists (closed b), boundary_mark; split; [done|]; destruct Hn; [done|by right]|]. rewrite !map_app. eexists (_ ++ _), _. split; [by rewrite app_assoc|by left]. }
    destruct HE as (c & e & HE & Hc). pose proof (lines_part ls c (m_ContentType b) e Hc) as HO. rewrite <- HE, <- !app_assoc in HO. rewrite <- !app_assoc. cbn [app map] in HO |- *. rewrite map_app. cbn [map]. exact HO.
  - rewrite add_fields_eq. unfold addHeader, push_text, push. cbn [m_State m_Content m_ContentType m_Base64Accumulator m_PendingCRLF].
    destruct (base64_part data ((closed b ++ [boundary_mark]) ++ map line_text (map field_line fields)) (m_ContentType b) (mkPart (CTE.1 ++ [58; 32] ++ CTE.2 ++ CRLF) TextElement) eq_refl) as (cs & Hcs & HO).
    eexists. split; [exists (map base64_encode cs); split; [by exists cs|done]|]. rewrite <- !app_assoc in HO. rewrite !map_app. cbn [map]. repeat (rewrite <- ?app_assoc; cbn [app]). cbn [app map] in HO. exact HO.
Qed.
Lemma build_content ctype parts : ctype <> [] -> Forall part_nonempty parts ->
  exists pcs, Forall2 part_content parts pcs /\ m_Content (build ctype parts) = mkPart [] ContentTypeElement :: mkPart CRLF TextElement :: concat pcs ++ [boundary_mark] /\ m_ContentType (build ctype parts) = ctype.
Proof.
  intros Hne HP. assert (HB : open_part (MimeBuilder_new ctype) [mkPart [] ContentTypeElement; mkPart CRLF TextElement] ctype) by (destruct ctype; done).
  assert (HG : forall b content, open_part b content ctype -> exists pcs, Forall2 part_content parts pcs /\ open_part (fold_left build_part parts b) (content ++ concat pcs) ctype).
  { clear HB. induction HP as [|s parts Hs HP IH]; intros b content Hb; [exists []; rewrite app_nil_r; by split; [constructor|]|]. destruct (build_part_open b s content ctype Hb Hs) as (pc & Hpc & Hb'). destruct (IH _ _ Hb') as (pcs & Hpcs & HO).
    exists (pc :: pcs). split; [by constructor|]. cbn [fold_left concat]. by rewrite app_assoc. }
  destruct (HG _ _ HB) as (pcs & Hpcs & Hc & He & Hp & Ht). exists pcs. split; [done|]. unfold build. rewrite addBoundary_eq by done. cbn [m_Content m_ContentType]. by rewrite Hc.
Qed.

(** *** The text *)

Definition lines_text (ls : list (list Z)) : list Z := concat (map (fun l => l ++ CRLF) ls).
Definition fill_part (ctype boundary : list Z) (e : Part) : Part :=
  match m_Type e with
  | ContentTypeElement => mkPart (lit "Content-Type: " ++ ctype ++ lit "; boundary=" ++ drop 2 boundary ++ CRLF) ContentTypeElement
  | BoundaryElement => mkPart (boundary ++ CRLF) BoundaryElement
  | TextElement => e
  end.
Lemma fill_content_snoc ctype boundary content : fill_content ctype boundary (content ++ [boundary_mark]) = map (fill_part ctype boundary) content ++ [mkPart (boundary ++ [45; 45] ++ CRLF) BoundaryElement].
Proof.
  induction content as [|e content IH]; [done|]. cbn [app fill_content map]. rewrite IH. unfold fill_part at 2. destruct (m_Type e); try done. rewrite existsb_app. cbn [existsb m_Type boundary_mark]. by rewrite orb_true_r.
Qed.
Lemma fill_lines ctype boundary ls : map (fill_part ctype boundary) (map line_text ls) = map line_text ls.
Proof. rewrite map_map. done. Qed.
(** All lines of a part *)
Definition part_lines (s : PartSpec) (L : list (list Z)) : Prop := exists lines, body_lines s lines /\ L = map field_line (all_fields s) ++ [] :: lines.
Lemma fill_parts ctype boundary parts pcs : Forall2 part_content parts pcs ->
  exists Ls, Forall2 part_lines parts Ls /\ concat pcs = concat (map (fun L => boundary_mark :: map line_text L) Ls) /\
    concat (map m_Text (map (fill_part ctype boundary) (concat pcs))) = lines_text (concat (map (cons boundary) Ls)).
Proof.
  induction 1 as [|s pc parts pcs (lines & Hl & ->) HF (Ls & H1 & H2 & H3)]; [exists []; split; [constructor|done]|].
  set (L := map field_line (all_fields s) ++ [] :: lines). exists (L :: Ls). split; [constructor; [by exists lines|done]|]. split; [cbn [concat map]; by rewrite H2|].
  cbn [concat]. rewrite !map_app, concat_app, H3. cbn [map concat]. rewrite fill_lines. unfold lines_text. cbn [map concat app]. rewrite map_app, concat_app. cbn [map concat fill_part m_Type boundary_mark m_Text]. rewrite <- !app_assoc. do 2 f_equal.
  rewrite map_map. done.
Qed.
Lemma write_internal b escape s : escape = false -> write_builder b escape s = (mkInternalSink (is_data s ++ concat (map m_Text (m_Content b))), Ok tt).
Proof.
  intros ->. unfold write_builder. revert s. induction (m_Content b) as [|e l IH]; intros [d]; [cbn; by rewrite app_nil_r|]. cbn [write_loop andb map concat]. unfold bind, ret. rewrite internal_full. cbn match. rewrite IH. cbn [is_data]. by rewrite <- app_assoc.
Qed.
Definition content_type_field (ctype ds : list Z) : list Z * list Z := (lit "Content-Type", ctype ++ lit "; boundary=" ++ ds).
Lemma build_text ctype parts : ctype <> [] -> Forall part_nonempty parts ->
  exists ds b Ls, finish_builder (build ctype parts) = Some (ds, b) /\ Forall digit_char ds /\ (3 <= length ds)%nat /\ Forall2 part_lines parts Ls /\
    Forall (Forall (fun l => starts_with ([45; 45] ++ ds) l = false)) Ls /\
    is_data (write_builder b false InternalSink_new).1 = fields_text CRLF [content_type_field ctype ds] ++ CRLF ++ lines_text (concat (map (cons ([45; 45] ++ ds)) Ls) ++ [([45; 45] ++ ds) ++ [45; 45]]).
Proof.
  intros Hne HP. destruct (build_content ctype parts Hne HP) as (pcs & Hpcs & HC & HT). destruct (finish_boundary (build ctype parts)) as (bd & E & (ds & -> & Hd & Hl) & HU).
  destruct (fill_parts ctype ([45; 45] ++ ds) parts pcs Hpcs) as (Ls & HLs & HL & HF). unfold finish_builder. rewrite E, HT. eexists ds, _, Ls. split; [done|]. split; [done|]. split; [done|]. split; [done|]. split.
  - apply Forall_forall. intros L HLin. apply Forall_forall. intros l Hlin. apply not_true_iff_false. intros Hs. apply starts_with_take in Hs as [rest ->]. rewrite <- not_true_iff_false in HU. apply HU. unfold boundary_used. apply existsb_exists.
    exists (line_text (([45; 45] ++ ds) ++ rest)). split; [|apply starts_with_take; exists (rest ++ CRLF); unfold line_text; cbn [m_Text]; by rewrite <- app_assoc].
    rewrite HC. right. right. apply in_app_iff. left. rewrite HL. apply in_concat. eexists. split; [by apply in_map, list_elem_of_In|]. right. by apply in_map, list_elem_of_In.
  - assert (Hbd : drop 2 ([45; 45] ++ ds) = ds) by done. set (bd := [45; 45] ++ ds) in *. clearbody bd. rewrite write_internal by done. cbn [fst is_data InternalSink_new]. rewrite app_nil_l. unfold set_content. cbn [m_Content]. rewrite HC. change (mkPart [] ContentTypeElement :: mkPart CRLF TextElement :: concat pcs ++ [boundary_mark]) with ((mkPart [] ContentTypeElement :: mkPart CRLF TextElement :: concat pcs) ++ [boundary_mark]).
    rewrite fill_content_snoc. cbn [map app]. rewrite map_app. cbn [map concat m_Text fill_part m_Type drop]. rewrite concat_app, HF. cbn [concat m_Text]. unfold fields_text, field_line, content_type_field. cbn [map concat fst snd]. rewrite !app_nil_r, Hbd.
    unfold lines_text. rewrite map_app, concat_app. cbn [map concat]. rewrite app_nil_r, <- !app_assoc. done.
Qed.

(** ** Reading a message *)

(** Fields that are kept as they are: no "Received" field, which only adds to the trace, and no encoded words *)
Definition plain_field (f : list Z * list Z) : Prop := field_ok f /\ strCaseCompare f.1 (lit "Received") <> 0 /\ find f.2 [61; 63] = None.
Lemma decodeHeader_plain v log : find v [61; 63] = None -> decodeHeader v log = (v, log).
Proof. intros H. unfold decodeHeader. destruct v as [|c v]; [done|]. cbn [length decodeHeader_loop]. by rewrite H. Qed.
Lemma value_no_trim v : value_ok v -> strLTrim v = v.
Proof.
  intros [Hv Hf]. apply (strLTrim_spaces []); [constructor|]. intros c t ->. apply Forall_cons in Hv as [(H0 & H1 & H2) _]. unfold blank in Hf. unfold charIsSpace. rewrite !(proj2 (Z.eqb_neq c _)) by tauto. done.
Qed.
Lemma consume_mime fields t tr log : Forall plain_field fields -> consume fields (mkMimeHeaders t tr log) = mkMimeHeaders (consume fields t) tr log.
Proof.
  intros HF. revert t. induction HF as [|f fields ([_ Hv] & Hr & He) HF IH]; intros t; [done|]. cbn [consume fold_left]. fold (consume fields (handleHeader (mkMimeHeaders t tr log) f.1 f.2)). fold (consume fields (handleHeader t f.1 f.2)).
  unfold handleHeader at 1, mime_consumer. rewrite (proj2 (Z.eqb_neq _ 0)) by done. rewrite value_no_trim by done. cbn [mh_log mh_headers mh_trace]. rewrite decodeHeader_plain by done. apply IH.
Qed.
Definition fresh (log : option (list (list Z))) (dec : bool) : MimeParser := mkMime (HeaderParser_new (mkMimeHeaders (mkTable []) [] log)) [[]] [] MStateHeader dec.
Definition headed (fields : list (list Z * list Z)) (log : option (list (list Z))) (dec : bool) : MimeParser :=
  mkMime (mkHeaderParser (mkMimeHeaders (field_pairs fields) [] log) false false [] [] FinalState) [[]] [] MStateHeader dec.
Lemma plain_field_ok fields : Forall plain_field fields -> Forall field_ok fields.
Proof. intros H. eapply Forall_impl; [exact H|]. by intros f [? _]. Qed.
Lemma header_phase e fields data log dec : line_end e -> Forall plain_field fields ->
  fold_left mime_step (fields_text e fields ++ e ++ data) (fresh log dec) = fold_left mime_step data (body_state (headed fields log dec)).
Proof.
  intros He HF. pose proof (header_round (fresh log dec) (fields_text e fields ++ e ++ data) eq_refl ltac:(done)) as HR. unfold addDataHeader in HR. rewrite hp_loop_run in HR. cbn [mp_headerParser fresh] in HR.
  rewrite (fields_run e) in HR by (done || by apply plain_field_ok). cbn [hp_isCompleted hp_state] in HR. destruct HR as [-> _]. do 2 f_equal. unfold headed. f_equal. f_equal. rewrite consume_mime, consume_table by done. done.
Qed.
Lemma fields_open e fields (cs : MimeHeaders) : line_end e -> Forall field_ok fields ->
  exists hp, bytewise hp_isCompleted hp_char (HeaderParser_new cs) (fields_text e fields) = (hp, []) /\ hp_isCompleted hp = false.
Proof.
  intros He HF. assert (HG : forall cs k v, exists hp, bytewise hp_isCompleted hp_char (mkHeaderParser (C := MimeHeaders) cs false false k v NewlineState) (fields_text e fields) = (hp, []) /\ hp_isCompleted hp = false).
  { induction HF as [|f fields Hf HF IH]; intros cs' k v; [eexists; split; [apply bytewise_nil|done]|]. unfold fields_text. cbn [map concat]. rewrite <- app_assoc. rewrite (next_field_run e) by done. apply IH. }
  destruct HF as [|f fields Hf HF]; [eexists; split; [apply bytewise_nil|done]|]. unfold fields_text, HeaderParser_new. cbn [map concat]. rewrite <- app_assoc, (field_run e) by done. fold (fields_text e fields).
  assert (HG' : forall cs k v, exists hp, bytewise hp_isCompleted hp_char (mkHeaderParser (C := MimeHeaders) cs false false k v NewlineState) (fields_text e fields) = (hp, []) /\ hp_isCompleted hp = false); [|apply HG'].
  clear HG Hf. induction HF as [|g fields Hg HF IH]; intros cs' k v; [eexists; split; [apply bytewise_nil|done]|]. unfold fields_text. cbn [map concat]. rewrite <- app_assoc. rewrite (next_field_run e) by done. apply IH.
Qed.
(** A message that ends within its header *)
Lemma header_only fields log dec : Forall plain_field fields -> finish (fold_left mime_step (fields_text [10] fields) (fresh log dec)) = set_accum [] (body_state (headed fields log dec)).
Proof.
  intros HF. pose proof (plain_field_ok fields HF) as HO. destruct (fields_open [10] fields (mkMimeHeaders (mkTable []) [] log) ltac:(by right) HO) as (hp & E & HC).
  pose proof (header_round (fresh log dec) (fields_text [10] fields) eq_refl ltac:(done)) as HR. unfold addDataHeader in HR. rewrite hp_loop_run in HR. cbn [mp_headerParser fresh] in HR. rewrite E, HC in HR. destruct HR as [-> _]. cbn [fold_left].
  unfold finish. cbn [mp_state fresh]. unfold addDataHeader. rewrite hp_loop_run. cbn [mp_headerParser].
  pose proof (fields_run [10] fields [10] (mkMimeHeaders (mkTable []) [] log) ltac:(by right) HO) as HX. rewrite bytewise_app in HX. unfold absorb in HX. rewrite E in HX. cbn [fst] in HX. rewrite HC in HX. cbn [app] in HX. rewrite HX. cbn [hp_isCompleted hp_state fst].
  do 2 f_equal. unfold headed. f_equal. f_equal. rewrite consume_mime, consume_table by done. done.
Qed.

(** *** Bodies *)

Definition plain_text_line (l : list Z) : Prop := Forall (fun c => c <> 10 /\ c <> 13) l.
Lemma append_back_snoc c X cur : append_back c (X ++ [cur]) = X ++ [cur ++ [c]].
Proof.
  induction X as [|x X IH]; [done|]. change ((x :: X) ++ [cur]) with (x :: X ++ [cur]). rewrite <- app_comm_cons, <- IH. by destruct X.
Qed.
Lemma plain_line_run l X cur p : mp_state p = StatePlainBody -> mp_body p = X ++ [cur] -> plain_text_line l -> fold_left mime_step l p = set_body (X ++ [cur ++ l]) p.
Proof.
  intros Hs Hb Hl. revert cur p Hs Hb. induction Hl as [|c l [H1 H2] Hl IH]; intros cur p Hs Hb; [destruct p; cbn in *; by rewrite app_nil_r, Hb|]. cbn [fold_left]. rewrite (IH (cur ++ [c])).
  - unfold mime_step. rewrite Hs. unfold plain_byte. rewrite (proj2 (Z.eqb_neq c 13)) by done. unfold set_body. cbn. by rewrite <- app_assoc.
  - unfold mime_step. rewrite Hs. unfold plain_byte. by rewrite (proj2 (Z.eqb_neq c 13)).
  - unfold mime_step. rewrite Hs. unfold plain_byte, body_char. rewrite (proj2 (Z.eqb_neq c 13)), (proj2 (Z.eqb_neq c 10)) by done. cbn. rewrite Hb. apply append_back_snoc.
Qed.
Lemma plain_newline p : mp_state p = StatePlainBody -> mime_step p 10 = set_body (mp_body p ++ [[]]) p /\ mime_step p 13 = p.
Proof. intros Hs. unfold mime_step. rewrite Hs. done. Qed.
Lemma plain_lines_run ls X p : mp_state p = StatePlainBody -> mp_body p = X ++ [[]] -> Forall plain_text_line ls -> fold_left mime_step (lines_text ls) p = set_body (X ++ ls ++ [[]]) p.
Proof.
  intros Hs Hb HL. revert X p Hs Hb. induction HL as [|l ls Hl HL IH]; intros X p Hs Hb; [destruct p; cbn in *; by rewrite Hb|]. unfold lines_text. cbn [map concat]. rewrite !fold_left_app. rewrite (plain_line_run l X []) by done. cbn [app fold_left CRLF].
  rewrite (proj2 (plain_newline (set_body (X ++ [l]) p) Hs)). rewrite (proj1 (plain_newline (set_body (X ++ [l]) p) Hs)). fold (lines_text ls). rewrite (IH (X ++ [l])) by done. unfold set_body. cbn. by rewrite <- app_assoc.
Qed.
Lemma plain_join_run ls X cur p : mp_state p = StatePlainBody -> mp_body p = X ++ [cur] -> Forall plain_text_line ls -> fold_left mime_step (concat (map (cons 10) ls)) p = set_body (X ++ cur :: ls) p.
Proof.
  intros Hs Hb HL. revert X cur p Hs Hb. induction HL as [|l ls Hl HL IH]; intros X cur p Hs Hb; [destruct p; cbn in *; by rewrite Hb|]. cbn [map concat app fold_left]. rewrite fold_left_app. rewrite (proj1 (plain_newline p Hs)).
  rewrite (plain_line_run l (X ++ [cur]) []) by (done || by rewrite <- Hb). cbn [app]. rewrite (IH (X ++ [cur]) l) by done. unfold set_body. cbn. by rewrite <- app_assoc.
Qed.
Definition body_string (body : list (list Z)) : list Z := match body with [] => [] | l :: body => l ++ concat (map (fun l => 10 :: l) body) end.
Lemma body_string_snoc X cur : body_string (X ++ [cur]) = match X with [] => cur | _ => body_string X ++ 10 :: cur end.
Proof. destruct X as [|x X]; [cbn; by rewrite app_nil_r|]. cbn [app body_string]. rewrite map_app, concat_app. cbn [map concat]. by rewrite app_nil_r, <- app_assoc. Qed.
Lemma body_chars_string str X cur : exists X' cur', fold_left body_char str (X ++ [cur]) = X' ++ [cur'] /\ body_string (X' ++ [cur']) = body_string (X ++ [cur]) ++ str.
Proof.
  revert X cur. induction str as [|c str IH]; intros X cur; [exists X, cur; by rewrite app_nil_r|]. cbn [fold_left]. unfold body_char at 2. destruct (Z.eqb_spec c 10) as [->|Hc].
  - destruct (IH (X ++ [cur]) []) as (X' & cur' & H1 & H2). exists X', cur'. split; [done|]. rewrite H2, (body_string_snoc (X ++ [cur])). destruct (X ++ [cur]) as [|y Y] eqn:E; [by apply app_nil in E as [_ ?]|]. generalize (body_string (y :: Y)) as B. intros B. by rewrite <- app_assoc.
  - rewrite append_back_snoc. destruct (IH X (cur ++ [c])) as (X' & cur' & H1 & H2). exists X', cur'. split; [done|]. rewrite H2, !body_string_snoc. destruct X as [|x X]; [by rewrite <- app_assoc|]. generalize (body_string (x :: X)) as B. intros B. by repeat (rewrite <- ?app_assoc; cbn [app]).
Qed.

(** A Base64 body: every line is decoded when it ends, the last one at the end. *)
Lemma base64_chars_run l p : mp_state p = StateBase64Body -> plain_text_line l -> fold_left mime_step l p = set_accum (mp_accum p ++ l) p.
Proof.
  intros Hs Hl. revert p Hs. induction Hl as [|c l [H1 H2] Hl IH]; intros p Hs; [destruct p; cbn; by rewrite app_nil_r|]. cbn [fold_left].
  assert (HX : mime_step p c = set_accum (mp_accum p ++ [c]) p) by (unfold mime_step; rewrite Hs; unfold base64_byte; by rewrite !(proj2 (Z.eqb_neq c _)) by done).
  rewrite HX, IH by done. unfold set_accum. cbn. by rewrite <- app_assoc.
Qed.
Lemma base64_stays data p : mp_state p = StateBase64Body -> mp_state (fold_left mime_step data p) = StateBase64Body.
Proof.
  revert p. induction data as [|c data IH]; intros p Hs; [done|]. cbn [fold_left]. apply IH. unfold mime_step. rewrite Hs. unfold base64_byte. destruct (c =? 13); [done|]. by destruct (c =? 10).
Qed.
Lemma base64_text_line c : plain_text_line (base64_encode c).
Proof.
  pose proof (base64_encode_chars c) as H. rewrite forallb_forall in H. apply Forall_forall. intros x Hx%list_elem_of_In. specialize (H x Hx). unfold text_char in H. apply andb_true_iff in H as [H _]. lia.
Qed.
Lemma flush_base64 c X cur p : bytes c -> mp_accum p = base64_encode c -> mp_body p = X ++ [cur] ->
  exists X' cur', flushBase64Body p = set_accum [] (set_body (X' ++ [cur']) p) /\ body_string (X' ++ [cur']) = body_string (X ++ [cur]) ++ c.
Proof.
  intros Hc Ha Hb. unfold flushBase64Body, addBody. rewrite Ha, Hb. pose proof (decode_encode MkBase64 c I Hc) as HD. cbn [cs_encode cs_decode Base64_charset] in HD. rewrite HD.
  destruct (body_chars_string c X cur) as (X' & cur' & -> & H). by exists X', cur'.
Qed.
Lemma base64_run cs c X cur p : mp_state p = StateBase64Body -> bytes c -> Forall bytes cs -> mp_accum p = base64_encode c -> mp_body p = X ++ [cur] ->
  exists X' cur', flushBase64Body (fold_left mime_step (concat (map (cons 10) (map base64_encode cs))) p) = set_accum [] (set_body (X' ++ [cur']) p) /\
    body_string (X' ++ [cur']) = body_string (X ++ [cur]) ++ c ++ concat cs.
Proof.
  intros Hs Hc HC. revert c X cur p Hs Hc. induction HC as [|d cs Hd HC IH]; intros c X cur p Hs Hc Ha Hb; [cbn; rewrite app_nil_r; by apply flush_base64|].
  cbn [map concat app fold_left]. rewrite fold_left_app. destruct (flush_base64 c X cur p Hc Ha Hb) as (X1 & cur1 & H1 & H2).
  assert (HX : mime_step p 10 = flushBase64Body p) by (unfold mime_step; by rewrite Hs). rewrite HX, H1. set (p1 := set_accum [] (set_body (X1 ++ [cur1]) p)). rewrite (base64_chars_run (base64_encode d) p1) by (done || apply base64_text_line).
  destruct (IH d X1 cur1 (set_accum (mp_accum p1 ++ base64_encode d) p1) Hs Hd eq_refl eq_refl) as (X2 & cur2 & H3 & H4). exists X2, cur2. split; [by rewrite H3|]. rewrite H4, H2. by rewrite <- !app_assoc.
Qed.

(** *** The transfer encoding *)

Lemma get_field fields f : Forall (fun g => ~ same_name f.1 g.1) fields -> HeaderTable_get (field_pairs (fields ++ [f])) f.1 = Some (mkField f.1 f.2).
Proof.
  intros HF. unfold HeaderTable_get, HeaderTable_find, field_pairs. cbn [m_headers]. rewrite map_app. cbn [map]. assert (HX : table_get f.1 (map (fun f => mkField f.1 f.2) fields ++ [mkField f.1 f.2]) = Some (length fields)).
  - induction HF as [|g fields Hg HF IH]; cbn [map app table_get hf_name]; [by rewrite (proj2 (same_name_key f.1 f.1) eq_refl)|]. rewrite (proj2 (Z.eqb_neq _ 0)) by done. by rewrite IH.
  - rewrite HX. rewrite lookup_app_r by (by rewrite length_map). by rewrite length_map, Nat.sub_diag.
Qed.
Lemma get_no_field fields name : Forall (fun g => ~ same_name name g.1) fields -> HeaderTable_get (field_pairs fields) name = None.
Proof.
  intros HF. unfold HeaderTable_get, HeaderTable_find, field_pairs. cbn [m_headers]. rewrite (proj2 (table_get_none _ _)); [done|]. by apply Forall_map.
Qed.
Definition no_encoding (fields : list (list Z * list Z)) : Prop := Forall (fun g => ~ same_name CTE.1 g.1) fields.
Lemma body_state_plain fields log dec : no_encoding fields -> body_state (headed fields log dec) = set_mime_state StatePlainBody (headed fields log dec).
Proof. intros HF. unfold body_state, headed, mp_headers. cbn [mp_headerParser hp_consumer mh_headers]. by rewrite get_no_field. Qed.
Lemma body_state_base64 fields log : no_encoding fields -> body_state (headed (fields ++ [CTE]) log true) = set_mime_state StateBase64Body (headed (fields ++ [CTE]) log true).
Proof. intros HF. unfold body_state, headed, mp_headers. cbn [mp_headerParser hp_consumer mh_headers mp_decodeBody negb]. change (lit "Content-Transfer-Encoding") with CTE.1. by rewrite (get_field fields CTE). Qed.

(** The parts of a message: getNextElement, until it returns false *)
Fixpoint all_parts (fuel : nat) (e : PartEnumerator) (result : MimeParser) : list MimeParser :=
  match fuel with
  | O => []
  | S fuel' => match getNextElement e result with Some (q, e) => q :: all_parts fuel' e q | None => [] end
  end.

(** *** Reading one part *)

Lemma copy_rest L p : mp_ok p -> copy_lines false L p = (fold_left mime_step (concat (map (cons 10) L)) p, Ok tt).
Proof.
  revert p. induction L as [|l L IH]; intros p Ho; [done|]. cbn [copy_lines negb map concat]. unfold bind at 1. rewrite mime_full by done. unfold bind at 1. rewrite mime_full by (by apply mime_steps_ok). rewrite IH by (by apply mime_steps_ok, mime_steps_ok).
  by rewrite <- !fold_left_app.
Qed.
Lemma copy_all L p : mp_ok p -> (copy_lines true L p).1 = fold_left mime_step (body_string L) p.
Proof.
  intros Ho. destruct L as [|l L]; [done|]. cbn [copy_lines negb body_string]. unfold bind, ret. rewrite mime_full by done. rewrite copy_rest by (by apply mime_steps_ok). by rewrite fold_left_app.
Qed.
Lemma join_lines L : L <> [] -> concat (map (cons 10) L) = 10 :: body_string L.
Proof. by destruct L. Qed.
Lemma part_text fields lines : body_string (map field_line fields ++ [] :: lines) = fields_text [10] fields ++ concat (map (cons 10) lines).
Proof.
  induction fields as [|f fields IH]; [done|]. cbn [map app body_string]. change (fun l => 10 :: l) with (cons (A := Z) 10). rewrite join_lines by (by destruct fields). rewrite IH. unfold fields_text. cbn [map concat]. by rewrite <- !app_assoc.
Qed.
Definition part_ok (s : PartSpec) : Prop :=
  Forall plain_field (ps_headers s) /\ no_encoding (ps_headers s) /\ part_nonempty s /\
  match ps_body s with Lines ls => Forall plain_text_line ls | Base64Data data => bytes data end.
Definition part_string (s : PartSpec) : list Z := match ps_body s with Lines ls => body_string ls | Base64Data data => data end.
(** A parser that has read a part *)
Definition part_read (s : PartSpec) (q : MimeParser) : Prop := table_fields (mp_headers q) = all_fields s /\ getBodyAsString q = part_string s.
Lemma headed_fields fields log dec : table_fields (mp_headers (headed fields log dec)) = fields.
Proof. unfold table_fields, mp_headers, headed, field_pairs. cbn. rewrite map_map. cbn. induction fields as [|[a b] fields IH]; [done|]. cbn. by rewrite IH. Qed.
Lemma CTE_plain : plain_field CTE.
Proof.
  split; [|by split]. split; [split; [done|]|split; [|by intros [|]]]; literal_chars.
Qed.
Lemma all_fields_plain s : part_ok s -> Forall plain_field (all_fields s).
Proof. intros (HF & _). unfold all_fields. apply Forall_app. split; [done|]. destruct (ps_body s); [constructor|]. constructor; [apply CTE_plain|constructor]. Qed.
Lemma all_fields_state s log : part_ok s -> body_state (headed (all_fields s) log true) = set_mime_state (match ps_body s with Lines _ => StatePlainBody | Base64Data _ => StateBase64Body end) (headed (all_fields s) log true).
Proof. intros (_ & HN & _). unfold all_fields. destruct (ps_body s); [rewrite app_nil_r; by apply body_state_plain|by apply body_state_base64]. Qed.
Lemma concat_bytes (cs : list (list Z)) : bytes (concat cs) -> Forall bytes cs.
Proof. induction cs as [|c cs IH]; [constructor|]. cbn. intros [H1 H2]%Forall_app. constructor; [done|by apply IH]. Qed.
Lemma parse_part s L log : part_ok s -> part_lines s L ->
  let q := finish (fold_left mime_step (body_string L) (fresh log true)) in part_read s q /\ mp_decodeBody q = true.
Proof.
  intros Hs (lines & Hl & ->). cbn zeta. rewrite part_text. pose proof (all_fields_plain s Hs) as HF. pose proof (all_fields_state s log Hs) as HB. unfold part_read, part_string. destruct Hs as (_ & _ & _ & HS). unfold body_lines in Hl.
  destruct lines as [|l lines].
  - cbn [map concat]. rewrite app_nil_r, header_only by done. rewrite HB. split; [|done]. split; [exact (headed_fields _ log true)|]. destruct (ps_body s) as [ls|data]; [by rewrite <- Hl|]. destruct Hl as (cs & <- & Hl). by destruct cs.
  - rewrite join_lines by done. change (10 :: body_string (l :: lines)) with ([10] ++ body_string (l :: lines)). rewrite header_phase by (done || by right). rewrite HB. cbn [body_string]. rewrite fold_left_app.
    set (p := set_mime_state _ _). destruct (ps_body s) as [ls|data].
    + subst ls. apply Forall_cons in HS as [H1 H2]. rewrite (plain_line_run l [] []) by done. cbn [app]. rewrite (plain_join_run lines [] l) by done. split; [|done]. split; [exact (headed_fields _ log true)|done].
    + destruct Hl as (cs & <- & Hl). destruct cs as [|c cs]; [done|]. cbn [map] in Hl. injection Hl as -> ->. cbn [concat] in HS. apply Forall_app in HS as [H1 H2]. rewrite (base64_chars_run (base64_encode c) p) by (done || apply base64_text_line).
      destruct (base64_run cs c [] [] (set_accum (mp_accum p ++ base64_encode c) p) eq_refl H1 (concat_bytes cs H2) eq_refl eq_refl) as (X & cur & H3 & H4).
      assert (HQ : finish (fold_left mime_step (concat (map (cons 10) (map base64_encode cs))) (set_accum (mp_accum p ++ base64_encode c) p)) = set_accum [] (set_accum [] (set_body (X ++ [cur]) (set_accum (mp_accum p ++ base64_encode c) p)))).
      { rewrite <- H3. unfold finish. by rewrite base64_stays. }
      change (fun l => 10 :: l) with (cons (A := Z) 10). split; [|by rewrite HQ]. rewrite HQ. split; [exact (headed_fields _ log true)|exact H4].
Qed.

(** ** Taking a message apart *)

(** Characters of a subtype such as "form-data" *)
Definition subtype_char (c : Z) : Prop := 33 <= c <= 126 /\ c <> 34 /\ c <> 40 /\ c <> 59 /\ c <> 61.
Ltac chars_impl H := eapply Forall_impl; [exact H|]; unfold digit_char, subtype_char, value_char, plain_char; cbn; intros; lia.
Definition multipart (sub : list Z) : list Z := lit "multipart/" ++ sub.
Lemma subtype_no_space c : 33 <= c <= 126 -> charIsSpace c = false.
Proof. intros Hc. unfold charIsSpace. by rewrite !(proj2 (Z.eqb_neq c _)) by lia. Qed.
Lemma multipart_chars sub : Forall subtype_char sub -> Forall subtype_char (multipart sub).
Proof. intros HS. apply Forall_app. split; [|done]. literal_chars. Qed.
Lemma visible_tight l : Forall (fun c => 33 <= c <= 126) l -> tight l.
Proof. intros H. split; intros c t ->; [apply Forall_cons in H as [H _]|apply Forall_app in H as [_ [H _]%Forall_cons]]; by apply subtype_no_space. Qed.
Lemma find_word_none A B : Forall (fun c => c <> 61) A -> find B [61; 63] = None -> find (A ++ B) [61; 63] = None.
Proof. intros HA HB. induction HA as [|c A Hc HA IH]; [done|]. cbn [app find length take]. rewrite bool_decide_eq_false_2 by congruence. by rewrite IH. Qed.
Lemma boundary_word_none ds : Forall digit_char ds -> find (61 :: ds) [61; 63] = None.
Proof.
  intros HD. cbn [find length take]. rewrite bool_decide_eq_false_2 by (destruct HD as [|d ds Hd HD]; [done|]; cbn; unfold digit_char in Hd; intros [= ->]; lia).
  rewrite <- (app_nil_r ds). rewrite find_word_none; [done| |done]. chars_impl HD.
Qed.
Lemma content_type_plain sub ds : Forall subtype_char sub -> Forall digit_char ds -> plain_field (content_type_field (multipart sub) ds).
Proof.
  intros HS HD. pose proof (multipart_chars sub HS) as HM. split; [split|split; [done|]].
  - split; [done|]. literal_chars.
  - split; [|by intros [|]]. cbn [content_type_field snd]. apply Forall_app. split; [chars_impl HM|]. apply Forall_app. split.
    + literal_chars.
    + chars_impl HD.
  - cbn [content_type_field snd]. change (lit "; boundary=" ++ ds) with (lit "; boundary" ++ 61 :: ds). rewrite app_assoc. apply find_word_none; [|by apply boundary_word_none]. apply Forall_app. split; [chars_impl HM|].
    literal_chars.
Qed.
Lemma content_type_values sub ds name : Forall subtype_char sub -> Forall digit_char ds ->
  let f := mkField name (content_type_field (multipart sub) ds).2 in getPrimaryValue f 0 = multipart sub /\ getSecondaryValue f (lit "boundary") 0 = Some ds.
Proof.
  intros HS HD. pose proof (multipart_chars sub HS) as HM. cbn zeta. assert (HP : Forall plain_char (multipart sub)) by (chars_impl HM).
  assert (HE : extractPart (content_type_field (multipart sub) ds).2 0 = (multipart sub, 32 :: lit "boundary" ++ 61 :: ds)). { unfold extractPart. cbn [content_type_field snd]. by rewrite raw_run. }
  split.
  - unfold getPrimaryValue. cbn [hf_value]. rewrite HE. cbn [fst]. pose proof (strTrim_pad [] (multipart sub) [] ltac:(constructor) ltac:(constructor)) as HT. rewrite app_nil_r in HT. apply HT, visible_tight. eapply Forall_impl; [exact HM|]. by intros c [].
  - unfold getSecondaryValue, enumerateSecondaryValues. cbn [hf_value]. change (mode_off 0 NoPrimary) with true. cbn match. rewrite HE. cbn [snd length secondary_loop Nat.eqb].
    assert (HX : extractPart (32 :: lit "boundary" ++ 61 :: ds) 0 = (32 :: lit "boundary" ++ 61 :: ds, [])).
    { unfold extractPart. pose proof (raw_run (32 :: lit "boundary" ++ 61 :: ds)) as HR. rewrite <- (app_nil_r (32 :: _)) at 1. rewrite HR; [done|]. change (32 :: lit "boundary" ++ 61 :: ds) with (lit " boundary=" ++ ds). apply Forall_app. split.
      - literal_chars.
      - chars_impl HD. }
    rewrite HX, find_eq_name. 2: { literal_chars. }
    change (strTrim (take _ _)) with (lit "boundary"). change (drop (S _ + 1) _) with ds. pose proof (strTrim_pad [] ds [] ltac:(constructor) ltac:(constructor)) as HT. rewrite app_nil_r in HT. cbn [app] in HT. rewrite HT by (apply visible_tight; chars_impl HD).
    by destruct (length (lit "boundary" ++ 61 :: ds)).
Qed.
Lemma getParts_multipart p sub ds : Forall subtype_char sub -> Forall digit_char ds -> ds <> [] -> mp_headers p = field_pairs [content_type_field (multipart sub) ds] ->
  getParts p = Some (new_PartIterator p ([45; 45] ++ ds)).
Proof.
  intros HS HD Hne Hp. unfold getParts. rewrite Hp. pose proof (get_field [] (content_type_field (multipart sub) ds) ltac:(constructor)) as HG. rewrite app_nil_l in HG. change (HeaderTable_get (field_pairs [content_type_field (multipart sub) ds]) (lit "Content-Type") = Some (mkField (lit "Content-Type") (content_type_field (multipart sub) ds).2)) in HG. rewrite HG.
  destruct (content_type_values sub ds (lit "Content-Type") HS HD) as [-> ->]. rewrite (proj2 (Z.eqb_neq _ 0)) by (intros E%same_name_key; discriminate E). by destruct ds.
Qed.

(** The lines of a message: the boundary in front of each part, the last boundary, and the end of its line *)
Section Iteration.
Context (ds : list Z).
Definition bd : list Z := [45; 45] ++ ds.
Definition mark (Ls : list (list (list Z))) : list Z := match Ls with [] => bd ++ [45; 45] | _ => bd end.
Fixpoint after (Ls : list (list (list Z))) : list (list Z) := match Ls with [] => [[]] | L :: Ls' => L ++ mark Ls' :: after Ls' end.
Lemma message_lines Ls : (concat (map (cons bd) Ls) ++ [bd ++ [45; 45]]) ++ [[]] = mark Ls :: after Ls.
Proof.
  induction Ls as [|L Ls IH]; [done|]. cbn [map concat after mark]. rewrite <- IH. cbn [app]. by rewrite <- !app_assoc.
Qed.
Definition no_boundary (L : list (list Z)) : Prop := Forall (fun l => starts_with bd l = false) L.
Lemma find_line_skip L rest pos : no_boundary L -> find_line bd (L ++ rest) pos = find_line bd rest (pos + length L).
Proof.
  intros HL. revert pos. induction HL as [|l L Hl HL IH]; intros pos; cbn [app find_line length]; [by rewrite Nat.add_0_r|]. unfold is_boundary. rewrite Hl. cbn [andb]. rewrite IH. f_equal. lia.
Qed.
Lemma mark_found Ls : is_boundary bd (mark Ls) = true.
Proof.
  unfold is_boundary. apply andb_true_iff. destruct Ls as [|L Ls]; cbn [mark]; (split; [apply starts_with_take|]).
  - by eexists. - by rewrite drop_app_length. - exists []. by rewrite app_nil_r. - by rewrite drop_all.
Qed.
Lemma iterate_parts parent parts Ls pos result :
  Forall part_ok parts -> Forall2 part_lines parts Ls -> Forall no_boundary Ls -> drop pos (mp_body parent) = after Ls -> mp_decodeBody result = true ->
  Forall2 part_read parts (all_parts (S (length parts)) (PartIterator parent bd pos) result).
Proof.
  intros HP HL. revert pos result HP. induction HL as [|s L parts Ls Hs HL IH]; intros pos result HP HN Hd Hr.
  - cbn [length all_parts getNextElement]. unfold findNextBoundary. rewrite Hd. cbn [after find_line]. unfold is_boundary, starts_with. cbn. constructor.
  - apply Forall_cons in HP as [Hs' HP]. apply Forall_cons in HN as [HNL HN]. cbn [length]. set (n := S (length parts)). cbn [all_parts getNextElement]. unfold findNextBoundary. rewrite Hd. cbn [after]. rewrite find_line_skip by done. cbn [find_line]. rewrite mark_found.
    unfold copyBodyPart. rewrite Hd. cbn [after]. replace (pos + length L + 1 - 1 - pos)%nat with (length L) by lia. rewrite take_app_length, copy_all by done.
    destruct (parse_part s L (mp_log result) Hs' Hs) as [H1 H2]. unfold MimeParser_clear. rewrite Hr. constructor; [exact H1|]. apply IH; [done|done| |exact H2].
    replace (pos + length L + 1)%nat with (pos + (length L + 1))%nat by lia. rewrite <- drop_drop, Hd. cbn [after]. rewrite <- drop_drop, drop_app_length. done.
Qed.
End Iteration.

Lemma field_line_plain f : field_ok f -> plain_text_line (field_line f).
Proof.
  intros [[_ Hk] [Hv _]]. unfold field_line. apply Forall_app. split; [eapply Forall_impl; [exact Hk|]; unfold key_char; cbn; intros; lia|]. apply Forall_app. split; [literal_chars|]. eapply Forall_impl; [exact Hv|]. unfold value_char. cbn. intros; lia.
Qed.
Lemma part_lines_plain s L : part_ok s -> part_lines s L -> Forall plain_text_line L.
Proof.
  intros Hs (lines & Hl & ->). pose proof (plain_field_ok _ (all_fields_plain s Hs)) as HF. destruct Hs as (_ & _ & _ & HB). apply Forall_app. split; [apply Forall_map; eapply Forall_impl; [exact HF|]; apply field_line_plain|]. constructor; [constructor|].
  unfold body_lines in Hl. destruct (ps_body s); [by subst|]. destruct Hl as (cs & _ & ->). apply Forall_map, Forall_true. apply base64_text_line.
Qed.
Lemma message_plain parts Ls ds : Forall digit_char ds -> Forall part_ok parts -> Forall2 part_lines parts Ls -> Forall plain_text_line (concat (map (cons (bd ds)) Ls) ++ [bd ds ++ [45; 45]]).
Proof.
  intros HD HP HL. assert (HB : plain_text_line (bd ds)) by (apply Forall_app; split; [literal_chars|chars_impl HD]).
  apply Forall_app. split; [|constructor; [apply Forall_app; split; [done|literal_chars]|constructor]].
  induction HL as [|s L parts Ls Hs HL IH]; [constructor|]. apply Forall_cons in HP as [Hs' HP]. cbn [map concat]. apply Forall_app. split; [constructor; [done|by apply (part_lines_plain s)]|by apply IH].
Qed.
(** The message after all its text was read *)
Lemma parse_message sub ds lines : Forall subtype_char sub -> Forall digit_char ds -> Forall plain_text_line lines ->
  let p := finish (fold_left mime_step (fields_text CRLF [content_type_field (multipart sub) ds] ++ CRLF ++ lines_text lines) MimeParser_new) in
  mp_headers p = field_pairs [content_type_field (multipart sub) ds] /\ mp_body p = lines ++ [[]].
Proof.
  intros HS HD HL. cbn zeta. change MimeParser_new with (fresh None true). rewrite header_phase; [|by left|by constructor; [apply content_type_plain|constructor]].
  rewrite body_state_plain by (constructor; [by intros E%same_name_key|constructor]). rewrite (plain_lines_run lines []) by done. done.
Qed.

(** C22. A multipart message that is made with MimeBuilder, from parts with header fields and
    lines or Base64 data, written to a sink and given to a MimeParser in any pieces, is taken
    apart again by getParts and getNextElement: the parts come in order and no more of them,
    each with all its fields and its lines or the data, whatever the lines are and although
    they may look like boundaries. *)
Theorem mime_roundtrip sub parts result : Forall subtype_char sub -> Forall part_ok parts -> mp_decodeBody result = true ->
  exists ds b, finish_builder (build (multipart sub) parts) = Some (ds, b) /\
    forall pieces, concat pieces = InternalSink_getContent (write_builder b false InternalSink_new).1 ->
    exists e, getParts (finish (parse_pieces pieces MimeParser_new)) = Some e /\ Forall2 part_read parts (all_parts (S (length parts)) e result).
Proof.
  intros HS HP Hr. destruct (build_text (multipart sub) parts ltac:(done)) as (ds & b & Ls & HF & HD & H3 & HL & HN & HT); [eapply Forall_impl; [exact HP|]; by intros s (_ & _ & ? & _)|].
  exists ds, b. split; [done|]. intros pieces Hc. unfold InternalSink_getContent in Hc. rewrite HT in Hc. rewrite parse_pieces_steps by done. rewrite Hc. fold (bd ds) in *.
  pose proof (message_plain parts Ls ds HD HP HL) as HM. destruct (parse_message sub ds _ HS HD HM) as [Hh Hb]. set (p := finish _) in *. clearbody p. exists (new_PartIterator p (bd ds)). split; [by apply (getParts_multipart p sub); [..|destruct ds; [cbn in H3; lia|]|]|].
  rewrite message_lines in Hb. unfold new_PartIterator, findNextBoundary. rewrite drop_0, Hb. cbn [find_line]. rewrite mark_found. apply (iterate_parts ds p parts Ls); try done. by rewrite Hb.
Qed.
Lemma mime_roundtrip_witness :
  let parts := [mkSpec [(lit "Name", lit "a")] (Lines [lit "--000"; lit "x"]); mkSpec [] (Base64Data [0; 255; 10])] in
  exists ds b, finish_builder (build (multipart (lit "mixed")) parts) = Some (ds, b) /\
    exists e, getParts (finish (parse_pieces [InternalSink_getContent (write_builder b false InternalSink_new).1] MimeParser_new)) = Some e /\ Forall2 part_read parts (all_parts 3 e MimeParser_new).
Proof.
  intros parts. destruct (mime_roundtrip (lit "mixed") parts MimeParser_new) as (ds & b & HF & HR).
  - literal_chars.
  - assert (HN : plain_field (lit "Name", lit "a")) by (split; [split; [split; [done|literal_chars]|split; [literal_chars|by intros [|]]]|by split]).
    repeat constructor; cbn; try done; try lia; try apply HN; by left.
  - done.
  - exists ds, b. split; [exact HF|]. apply HR. cbn [concat]. apply app_nil_r.
Defined.
