(* ===== verification/FileNames.v ===== *)
(** * File names

    src/afl/string/posixfilenames.cpp and win32filenames.cpp: making, taking apart and
    normalising path names.  The two versions of getCanonicalPathName share their loop,
    which is defined here once for a separator. *)

From Stdlib Require Import ZArith Lia Bool String.
From stdpp Require Import base tactics numbers option list.
From S2P Require Import Prelude Strings.

Local Open Scope Z_scope.
Local Open Scope afl_scope.

(** [rfind] of a character, and [find_last_of] *)
Fixpoint find_last_of (set : list Z) (s : list Z) : option nat :=
  match s with
  | x :: s' => match find_last_of set s' with Some n => Some (S n) | None => if bool_decide (x ∈ set) then Some 0%nat else None end
  | [] => None
  end.

(** ** The loop of getCanonicalPathName *)

Record Canon := mkCanon { out : list (list Z); upCount : nat }.
Definition component (c : Canon) (piece : list Z) : Canon :=
  if bool_decide (piece = []) then c
  else if bool_decide (piece = [46]) then c
  else if bool_decide (piece = [46; 46])
  then match out c with
       | [] => mkCanon [] (S (upCount c))
       | _ => mkCanon (removelast (out c)) (upCount c)
       end
  else mkCanon (out c ++ [piece]) (upCount c).
(** [while (pos < name.length())]; every round takes a character *)
Fixpoint canon_loop (fuel : nat) (sep : Z) (name : list Z) (c : Canon) : Canon :=
  match fuel, name with
  | S fuel', _ :: _ =>
      match find name [sep] with
      | None => component c name
      | Some n => canon_loop fuel' sep (drop (n + 1) name) (component c (take n name))
      end
  | _, _ => c
  end.
Fixpoint join (sep : Z) (l : list (list Z)) : list Z :=
  match l with
  | [] => []
  | [x] => x
  | x :: l' => x ++ sep :: join sep l'
  end.
Definition canonical (sep : Z) (name : list Z) : list Z :=
  let isAbsolute := match name with c :: _ => c =? sep | [] => false end in
  let pos := if isAbsolute then 1%nat else 0%nat in
  let c := canon_loop (length name) sep (drop pos name) (mkCanon [] 0) in
  let s := (if isAbsolute then [sep] else concat (replicate (upCount c) [46; 46; sep])) ++ join sep (out c) in
  if bool_decide (s = []) then [46] else s.

(** ** PosixFileNames *)

Module Posix.
Definition PATH_SEPARATOR : Z := 47.
Definition isAbsolutePathName (path : list Z) : bool := match path with c :: _ => c =? PATH_SEPARATOR | [] => false end.
Definition isPathSeparator (c : Z) : bool := c =? PATH_SEPARATOR.
Definition makePathName (path name : list Z) : list Z :=
  if isAbsolutePathName name then name
  else if bool_decide (path = [46]) then name
  else (match last path with Some c => if negb (isPathSeparator c) then path ++ [PATH_SEPARATOR] else path | None => path end) ++ name.
Definition getCanonicalPathName (name : list Z) : list Z := canonical PATH_SEPARATOR name.
Definition getFileName (name : list Z) : list Z :=
  match find_last_of [PATH_SEPARATOR] name with
  | Some n => drop (n + 1) name
  | None => name
  end.
Definition getDirectoryName (name : list Z) : list Z :=
  match find_last_of [PATH_SEPARATOR] name with
  | Some 0%nat => [PATH_SEPARATOR]
  | Some n => take n name
  | None => [46]
  end.
End Posix.

(** ** Win32FileNames *)

Module Win32.
Definition PATH_SEPARATOR : Z := 92.
Definition flipSlashes (name : list Z) : list Z := map (fun c => if c =? 47 then PATH_SEPARATOR else c) name.
Definition isAbsolutePathName (path : list Z) : bool :=
  match path with _ :: c1 :: c2 :: _ => (c1 =? 58) && ((c2 =? 92) || (c2 =? 47)) | _ => false end.
Definition isPathSeparator (c : Z) : bool := (c =? 92) || (c =? 58) || (c =? 47).
Definition makePathName (path name : list Z) : list Z :=
  if isAbsolutePathName name || (match name with _ :: c1 :: _ => c1 =? 58 | _ => false end) || (match name with c0 :: _ => (c0 =? 47) || (c0 =? 92) | [] => false end) then name
  else if bool_decide (path = [46]) then name
  else (match last path with Some c => if negb (isPathSeparator c) then path ++ [PATH_SEPARATOR] else path | None => path end) ++ name.
(** [name[1]] is a null character if the name has one character. *)
Definition getCanonicalPathName (name : list Z) : list Z :=
  let name := flipSlashes name in
  let prefix := match name with c0 :: c1 :: _ => if c1 =? 58 then [c0; c1] else [] | _ => [] end in
  prefix ++ canonical PATH_SEPARATOR (drop (length prefix) name).
Definition getFileName (name : list Z) : list Z :=
  match find_last_of [92; 58; 47] name with
  | Some d => if (byte_at name d =? 92) || (byte_at name d =? 47) || (d =? 1)%nat then drop (d + 1) name else name
  | None => name
  end.
Definition getDirectoryName (name : list Z) : list Z :=
  let name := flipSlashes name in
  match find_last_of [92; 58] name with
  | Some d =>
      if (d =? 0)%nat && (byte_at name d =? 92) then [PATH_SEPARATOR]
      else if (d =? 1)%nat && (byte_at name 1 =? 58) then take 2 name
      else if (d =? 2)%nat && (byte_at name 1 =? 58) && (byte_at name 2 =? 92) then take 3 name
      else if byte_at name d =? 92 then take d name
      else [46]
  | None => [46]
  end.
End Win32.

Example canonical_ex : map Posix.getCanonicalPathName [lit "/a//b/./../c/"; lit "../../a"; lit "a/.."; lit "/../x"; []; lit "a/../../b"] = [lit "/a/c"; lit "../../a"; lit "."; lit "/x"; lit "."; lit "../b"].
Proof. by vm_compute. Qed.
Example win32_ex : Win32.getCanonicalPathName (lit "c:/a/../b") = lit "c:\b" /\ Win32.getDirectoryName (lit "a:\b") = lit "a:\" /\ Win32.getFileName (lit "x:y") = lit "y".
Proof. by vm_compute. Qed.

(** ** What a path name means *)

Section Paths.
Context (sep : Z).
Hypothesis sep_dot : sep <> 46.
Fixpoint pieces (name : list Z) : list (list Z) :=
  match name with
  | [] => [[]]
  | c :: r => if c =? sep then [] :: pieces r else match pieces r with p :: ps => (c :: p) :: ps | [] => [[c]] end
  end.
(** A directory is the list of its components from the root; ".." of the root is the root. *)
Definition enter (dir : list (list Z)) (piece : list Z) : list (list Z) :=
  if bool_decide (piece = []) then dir
  else if bool_decide (piece = [46]) then dir
  else if bool_decide (piece = [46; 46]) then removelast dir
  else dir ++ [piece].
Definition absolute (name : list Z) : bool := match name with c :: _ => c =? sep | [] => false end.
Definition walk (start : list (list Z)) (name : list Z) : list (list Z) := fold_left enter (pieces name) (if absolute name then [] else start).

Lemma pieces_nonempty name : pieces name <> [].
Proof. destruct name as [|c r]; [done|]. cbn. destruct (c =? sep); [done|]. by destruct (pieces r). Qed.
Lemma pieces_app a b : pieces (a ++ sep :: b) = pieces a ++ pieces b.
Proof.
  induction a as [|c a IH]; cbn [app pieces]; [by rewrite Z.eqb_refl|]. rewrite IH. destruct (c =? sep); [done|]. pose proof (pieces_nonempty a). by destruct (pieces a).
Qed.
Definition no_sep (p : list Z) : Prop := Forall (fun c => c <> sep) p.
Lemma pieces_one p : no_sep p -> pieces p = [p].
Proof. induction 1 as [|c p Hc Hp IH]; [done|]. cbn. by rewrite (proj2 (Z.eqb_neq c sep)), IH. Qed.
Lemma pieces_no_sep name : Forall no_sep (pieces name).
Proof.
  induction name as [|c name IH]; cbn; [by repeat constructor|]. destruct (Z.eqb_spec c sep); [by repeat constructor|]. destruct (pieces name) as [|p ps]; [by repeat constructor|]. apply Forall_cons in IH as [H1 H2]. by repeat constructor.
Qed.
Lemma pieces_find name : pieces name = match find name [sep] with Some n => take n name :: pieces (drop (n + 1) name) | None => [name] end.
Proof.
  induction name as [|c name IH]; [done|]. cbn [pieces find length take]. rewrite take_0. destruct (Z.eqb_spec c sep) as [->|Hc]; [rewrite bool_decide_eq_true_2 by done; cbn; by rewrite drop_0|].
  rewrite bool_decide_eq_false_2 by congruence. rewrite IH. by destruct (find name [sep]).
Qed.
(** The loop processes the pieces; the last one is not looked at if it is empty. *)
Lemma canon_loop_fold fuel name c : (length name <= fuel)%nat -> canon_loop fuel sep name c = fold_left component (pieces name) c.
Proof.
  revert name c. induction fuel as [|fuel IH]; intros name c Hf; [by destruct name; [|cbn in Hf; lia]|]. destruct name as [|x name]; [done|]. cbn [canon_loop]. rewrite pieces_find. destruct (find (x :: name) [sep]) as [n|]; [|done].
  cbn [fold_left]. apply IH. rewrite length_drop. cbn [length] in *. lia.
Qed.
Lemma canonical_pieces name :
  let c := fold_left component (pieces name) (mkCanon [] 0) in
  canonical sep name = let s := (if absolute name then [sep] else concat (replicate (upCount c) [46; 46; sep])) ++ join sep (out c) in if bool_decide (s = []) then [46] else s.
Proof.
  cbn zeta. unfold canonical. fold (absolute name). rewrite canon_loop_fold by (rewrite length_drop; lia). destruct (absolute name) eqn:E; [|by rewrite drop_0]. destruct name as [|x name]; [done|]. cbn in E. cbn [pieces drop]. rewrite E, drop_0. done.
Qed.

(** *** Directories that are some levels up *)

Definition up (n : nat) (dir : list (list Z)) : list (list Z) := take (length dir - n) dir.
Lemma removelast_take {A} (l : list A) : removelast l = take (length l - 1) l.
Proof. rewrite removelast_firstn_len. f_equal. lia. Qed.
Lemma up_S n dir : removelast (up n dir) = up (S n) dir.
Proof. unfold up. rewrite removelast_take, take_take, length_take. f_equal. lia. Qed.
Lemma removelast_snoc {A} (l l' : list A) : l' <> [] -> removelast (l ++ l') = l ++ removelast l'.
Proof. apply removelast_app. Qed.
Definition meant (start : list (list Z)) (c : Canon) : list (list Z) := up (upCount c) start ++ out c.
Lemma component_meant start c p : enter (meant start c) p = meant start (component c p).
Proof.
  unfold enter, component, meant. repeat case_bool_decide; try done.
  - destruct (out c) as [|o os]; cbn [out upCount]; [rewrite !app_nil_r; apply up_S|by apply removelast_snoc].
  - cbn [out upCount]. by rewrite <- app_assoc.
Qed.
Lemma components_meant start ps c : fold_left enter ps (meant start c) = meant start (fold_left component ps c).
Proof. revert c. induction ps as [|p ps IH]; intros c; [done|]. cbn [fold_left]. rewrite component_meant. apply IH. Qed.
Lemma walk_meant start name : walk start name = meant (if absolute name then [] else start) (fold_left component (pieces name) (mkCanon [] 0)).
Proof. unfold walk. rewrite <- components_meant. f_equal. unfold meant, up. cbn. by rewrite Nat.sub_0_r, firstn_all, app_nil_r. Qed.

(** *** Normal form *)

Definition normal (p : list Z) : Prop := no_sep p /\ p <> [] /\ p <> [46] /\ p <> [46; 46].
Definition canon_ok (c : Canon) : Prop := Forall normal (out c).
Lemma component_ok c p : no_sep p -> canon_ok c -> canon_ok (component c p).
Proof.
  intros Hp Hc. unfold component. repeat case_bool_decide; try done.
  - destruct (out c) as [|o os] eqn:E; [constructor|]. unfold canon_ok in *. cbn [out]. rewrite removelast_take. apply Forall_take. by rewrite <- E.
  - apply Forall_app. split; [done|]. by constructor; [|constructor].
Qed.
Lemma components_ok ps c : Forall no_sep ps -> canon_ok c -> canon_ok (fold_left component ps c).
Proof. intros H. revert c. induction H as [|p ps Hp Hps IH]; intros c Hc; [done|]. by apply IH, component_ok. Qed.
Lemma normal_components ps c : Forall normal ps -> fold_left component ps c = mkCanon (out c ++ ps) (upCount c).
Proof.
  intros H. revert c. induction H as [|p ps (Hp & H1 & H2 & H3) Hps IH]; intros c; [destruct c; cbn; by rewrite app_nil_r|]. cbn [fold_left]. rewrite IH. unfold component. rewrite !bool_decide_eq_false_2 by done. cbn. by rewrite <- app_assoc.
Qed.
Lemma join_pieces ps : Forall normal ps -> pieces (join sep ps) = match ps with [] => [[]] | _ => ps end.
Proof.
  induction 1 as [|p ps (Hp & _) Hps IH]; [done|]. destruct ps as [|q ps]; [by apply pieces_one|]. change (join sep (p :: q :: ps)) with (p ++ sep :: join sep (q :: ps)). by rewrite pieces_app, IH, pieces_one.
Qed.
Lemma join_components ps c : Forall normal ps -> fold_left component (pieces (join sep ps)) c = mkCanon (out c ++ ps) (upCount c).
Proof. intros H. rewrite join_pieces by done. destruct ps as [|p ps]; [destruct c; cbn; by rewrite app_nil_r|]. by apply normal_components. Qed.
Lemma up_pieces n s c : out c = [] -> fold_left component (pieces (concat (replicate n [46; 46; sep]) ++ s)) c = fold_left component (pieces s) (mkCanon [] (n + upCount c)).
Proof.
  revert c. induction n as [|n IH]; intros c Hc; [destruct c; cbn in *; by rewrite Hc|]. cbn [replicate concat app]. change (46 :: 46 :: sep :: ?l) with ([46; 46] ++ sep :: l). rewrite pieces_app, fold_left_app, (pieces_one [46; 46]) by (repeat constructor; congruence).
  cbn [fold_left component]. unfold component at 2. rewrite !bool_decide_eq_false_2 by done. rewrite bool_decide_eq_true_2 by done. rewrite Hc. rewrite IH by done. cbn [upCount]. do 2 f_equal. lia.
Qed.
(** The canonical name, and the result of the loop on it *)
Definition spelled (abs : bool) (c : Canon) : list Z := let s := (if abs then [sep] else concat (replicate (upCount c) [46; 46; sep])) ++ join sep (out c) in if bool_decide (s = []) then [46] else s.
Lemma spelled_components abs c : canon_ok c -> fold_left component (pieces (spelled abs c)) (mkCanon [] 0) = mkCanon (out c) (if abs then 0%nat else upCount c).
Proof.
  intros Hc. unfold spelled. cbn zeta. case_bool_decide as E.
  - apply app_nil in E as [E1 E2]. destruct abs; [done|]. destruct c as [o u]. cbn [out upCount] in *. destruct u; [|done]. destruct o as [|p [|]]; [|by apply Forall_cons in Hc as [(_ & H & _) _]; cbn in E2|by destruct p].
    rewrite pieces_one by (repeat constructor; congruence). done.
  - destruct abs; [cbn [app]; change (sep :: ?l) with ([] ++ sep :: l); rewrite pieces_app; cbn [pieces app fold_left]; unfold component at 2; rewrite bool_decide_eq_true_2 by done; by rewrite join_components|].
    rewrite up_pieces by done. rewrite join_components by done. cbn. f_equal. lia.
Qed.
Lemma spelled_absolute abs c : canon_ok c -> absolute (spelled abs c) = abs.
Proof.
  intros Hc. unfold spelled. cbn zeta. assert (H46 : 46 <> sep) by congruence. case_bool_decide as E.
  - apply app_nil in E as [E _]. destruct abs; [done|]. by apply Z.eqb_neq.
  - destruct abs; [apply Z.eqb_refl|]. destruct c as [o u]. cbn [out upCount] in *. destruct u as [|u]; [|by apply Z.eqb_neq]. cbn [replicate concat app] in *. destruct o as [|p o]; [done|]. apply Forall_cons in Hc as [(Hp & Hne & _) _].
    destruct p as [|x p]; [done|]. apply Forall_cons in Hp as [Hx _]. assert (HJ : exists t, join sep ((x :: p) :: o) = x :: t) by (destruct o; by eexists). destruct HJ as [t ->]. by apply Z.eqb_neq.
Qed.
Lemma canonical_spelled name : exists c, canon_ok c /\ canonical sep name = spelled (absolute name) c /\ fold_left component (pieces name) (mkCanon [] 0) = c.
Proof. exists (fold_left component (pieces name) (mkCanon [] 0)). split; [apply components_ok; [apply pieces_no_sep|constructor]|]. split; [apply canonical_pieces|done]. Qed.
Lemma canonical_walk start name : walk start (canonical sep name) = walk start name.
Proof.
  rewrite !walk_meant. destruct (canonical_spelled name) as (c & Hc & -> & ->). rewrite spelled_absolute, spelled_components by done. unfold meant. cbn [out upCount]. by destruct (absolute name).
Qed.
Lemma canonical_idempotent name : canonical sep (canonical sep name) = canonical sep name.
Proof.
  destruct (canonical_spelled (canonical sep name)) as (c' & Hc' & -> & <-). destruct (canonical_spelled name) as (c & Hc & -> & _). rewrite spelled_absolute, spelled_components by done. unfold spelled. cbn [out upCount]. by destruct (absolute name).
Qed.
Lemma canonical_absolute name : absolute (canonical sep name) = absolute name.
Proof. destruct (canonical_spelled name) as (c & Hc & -> & _). by apply spelled_absolute. Qed.
(** *** Joining *)

Lemma walk_sep start p name : absolute name = false -> walk start (p ++ sep :: name) = walk (walk start (p ++ [sep])) name.
Proof.
  intros HA. unfold walk. rewrite HA. assert (HE : absolute (p ++ sep :: name) = absolute (p ++ [sep])) by (by destruct p). by rewrite HE, !pieces_app, !fold_left_app.
Qed.
Lemma walk_end start p : p <> [] -> walk start (p ++ [sep]) = walk start p.
Proof. intros Hp. unfold walk. assert (HE : absolute (p ++ [sep]) = absolute p) by (by destruct p). by rewrite HE, pieces_app, fold_left_app. Qed.
Lemma walk_absolute start start' name : absolute name = true -> walk start name = walk start' name.
Proof. intros H. unfold walk. by rewrite H. Qed.
Lemma join_chars (P : Z -> Prop) l : P sep -> Forall (Forall P) l -> Forall P (join sep l).
Proof. intros Hs. induction 1 as [|p l Hp Hl IH]; [constructor|]. destruct l as [|q l]; [done|]. apply Forall_app. split; [done|]. by constructor. Qed.
Lemma pieces_chars (P : Z -> Prop) name : Forall P name -> Forall (Forall P) (pieces name).
Proof.
  induction 1 as [|c name Hc Hn IH]; [by repeat constructor|]. cbn. destruct (c =? sep); [constructor; [constructor|done]|]. destruct (pieces name) as [|p ps]; [by repeat constructor|]. apply Forall_cons in IH as [H1 H2]. by constructor; [constructor|].
Qed.
Lemma components_chars (P : Z -> Prop) ps c : Forall (Forall P) ps -> Forall (Forall P) (out c) -> Forall (Forall P) (out (fold_left component ps c)).
Proof.
  intros H. revert c. induction H as [|p ps Hp Hps IH]; intros c Hc; [done|]. cbn [fold_left]. apply IH. unfold component. repeat case_bool_decide; try done.
  - destruct (out c) as [|o os]; [constructor|]. cbn [out]. rewrite removelast_take. by apply Forall_take.
  - apply Forall_app. split; [done|]. by constructor; [|constructor].
Qed.
Lemma canonical_chars (P : Z -> Prop) name : P sep -> P 46 -> Forall P name -> Forall P (canonical sep name).
Proof.
  intros Hs Hd Hn. rewrite canonical_pieces. cbn zeta. case_bool_decide; [by repeat constructor|]. apply Forall_app. split.
  - destruct (absolute name); [by repeat constructor|]. apply Forall_concat, Forall_replicate. by repeat constructor.
  - apply join_chars; [done|]. apply components_chars; [by apply pieces_chars|constructor].
Qed.
End Paths.

Lemma find_last_of_spec set s n : find_last_of set s = Some n -> exists c, s = take n s ++ c :: drop (n + 1) s /\ c ∈ set /\ Forall (fun x => x ∉ set) (drop (n + 1) s).
Proof.
  revert n. induction s as [|x s IH]; intros n; [done|]. cbn [find_last_of]. destruct (find_last_of set s) as [m|] eqn:E.
  - intros [= <-]. destruct (IH m eq_refl) as (c & H1 & H2 & H3). exists c. cbn [take drop Nat.add app]. by rewrite <- H1.
  - case_bool_decide; [|done]. intros [= <-]. exists x. cbn [take app Nat.add drop]. rewrite drop_0. split; [done|]. split; [done|]. clear IH. induction s as [|y s IH]; [constructor|]. cbn [find_last_of] in E. destruct (find_last_of set s); [done|]. case_bool_decide; [done|]. constructor; [done|by apply IH].
Qed.
Lemma find_last_of_none set s : find_last_of set s = None -> Forall (fun x => x ∉ set) s.
Proof. induction s as [|y s IH]; intros E; [constructor|]. cbn [find_last_of] in E. destruct (find_last_of set s); [done|]. case_bool_decide; [done|]. constructor; [done|by apply IH]. Qed.
Lemma no_slash s : Forall (fun x => x ∉ [Posix.PATH_SEPARATOR]) s -> no_sep 47 s.
Proof. intros H. eapply Forall_impl; [exact H|]. intros x Hx ->. apply Hx. by constructor. Qed.
Lemma no_sep_absolute sep s : no_sep sep s -> absolute sep s = false.
Proof. destruct 1 as [|c s Hc Hs]; [done|]. by apply Z.eqb_neq. Qed.
Lemma makePathName_walk start path name : walk 47 start (Posix.makePathName path name) = walk 47 (walk 47 start path) name.
Proof.
  unfold Posix.makePathName. destruct (Posix.isAbsolutePathName name) eqn:EA; [by apply walk_absolute|]. change (absolute 47 name = false) in EA. case_bool_decide as E; [by subst|].
  destruct path as [|c path _] using rev_ind; [done|]. rewrite last_snoc. unfold Posix.isPathSeparator, Posix.PATH_SEPARATOR. destruct (Z.eqb_spec c 47) as [->|Hc]; cbn [negb].
  - rewrite <- app_assoc. by apply walk_sep.
  - rewrite <- (app_assoc _ [47]). cbn [app]. rewrite walk_sep by done. by rewrite walk_end by (by destruct path).
Qed.
Lemma split_walk start name : walk 47 start (Posix.makePathName (Posix.getDirectoryName name) (Posix.getFileName name)) = walk 47 start name /\ no_sep 47 (Posix.getFileName name).
Proof.
  rewrite makePathName_walk. unfold Posix.getDirectoryName, Posix.getFileName. destruct (find_last_of [Posix.PATH_SEPARATOR] name) as [n|] eqn:E.
  - apply find_last_of_spec in E as (c & H1 & H2 & H3%no_slash). apply list_elem_of_singleton in H2 as ->. split; [|done]. set (a := take n name) in *. set (b := drop (n + 1) name) in *.
    assert (HD : walk 47 start (match n with 0%nat => [Posix.PATH_SEPARATOR] | S _ => a end) = walk 47 start (a ++ [47])).
    { destruct n as [|m]; [done|]. rewrite walk_end; [done|]. subst a. intros HT. destruct name; [|done]. by apply (f_equal length) in H1. }
    cbn match. rewrite HD, <- walk_sep by (by apply no_sep_absolute). change 47 with Posix.PATH_SEPARATOR at 2. by rewrite <- H1.
  - apply find_last_of_none, no_slash in E. by split.
Qed.

(** The drive and the rest of a Win32 name *)
Definition drive (name : list Z) : list Z := match name with c0 :: c1 :: _ => if c1 =? 58 then [c0; c1] else [] | _ => [] end.
Definition behind_drive (name : list Z) : list Z := drop (length (drive name)) name.
Lemma drive_split name : name = drive name ++ behind_drive name.
Proof. unfold behind_drive, drive. destruct name as [|c0 [|c1 name]]; [done..|]. by destruct (c1 =? 58). Qed.
Lemma drive_behind name r : (drive name <> [] \/ Forall (fun c => c <> 58) r) -> drive (drive name ++ r) = drive name.
Proof.
  intros H. destruct (drive name) as [|c0 d] eqn:E.
  - destruct H as [|H]; [done|]. unfold drive. cbn [app]. destruct r as [|x [|y r]]; [done..|]. rewrite !Forall_cons in H. by rewrite (proj2 (Z.eqb_neq y 58)) by tauto.
  - unfold drive in E. destruct name as [|x [|y name]]; [done..|]. destruct (Z.eqb_spec y 58) as [->|]; [|done]. injection E as <- <-. done.
Qed.
Lemma flip_same s : Forall (fun c => c <> 47) s -> Win32.flipSlashes s = s.
Proof. induction 1 as [|c s Hc Hs IH]; [done|]. cbn. rewrite (proj2 (Z.eqb_neq c 47)) by done. by f_equal. Qed.
Lemma flip_chars s : Forall (fun c => c <> 47) (Win32.flipSlashes s).
Proof. induction s as [|c s IH]; [constructor|]. cbn. constructor; [|done]. destruct (Z.eqb_spec c 47); [unfold Win32.PATH_SEPARATOR; lia|done]. Qed.
Lemma win32_canonical name : let n := Win32.flipSlashes name in Win32.getCanonicalPathName name = drive n ++ canonical 92 (behind_drive n).
Proof. done. Qed.
Lemma win32_idempotent name : Forall (fun c => c <> 58) (behind_drive (Win32.flipSlashes name)) -> Win32.getCanonicalPathName (Win32.getCanonicalPathName name) = Win32.getCanonicalPathName name.
Proof.
  intros HC. rewrite (win32_canonical name). cbn zeta. set (n := Win32.flipSlashes name) in *. set (r := canonical 92 (behind_drive n)). pose proof (flip_chars name) as HF. fold n in HF. rewrite (drive_split n) in HF. apply Forall_app in HF as [HF1 HF2].
  assert (HR : Forall (fun c => c <> 47) (drive n ++ r)) by (apply Forall_app; split; [done|by apply canonical_chars]). rewrite win32_canonical. cbn zeta. rewrite (flip_same (drive n ++ r)) by done.
  assert (HD : drive (drive n ++ r) = drive n) by (apply drive_behind; right; by apply canonical_chars). unfold behind_drive at 1. rewrite HD, drop_app_length. f_equal. by apply canonical_idempotent.
Qed.

(** Path names.  A path name means a way through directories: enter each component, go
    up for "..", start at the root if the name is absolute.  The canonical form of a POSIX
    name means the same from every directory, is as absolute as the name, and is its own
    canonical form.  makePathName means the second name as seen from the first, and
    putting a name's directory and file name together again means the name, where the file
    name has no slash.  The canonical form of a Win32 name keeps the drive, means the same
    behind it, and is its own canonical form if the drive has the name's only colon. *)
Theorem path_names_correct (start : list (list Z)) path name :
  walk 47 start (Posix.getCanonicalPathName name) = walk 47 start name /\
  Posix.isAbsolutePathName (Posix.getCanonicalPathName name) = Posix.isAbsolutePathName name /\
  Posix.getCanonicalPathName (Posix.getCanonicalPathName name) = Posix.getCanonicalPathName name /\
  walk 47 start (Posix.makePathName path name) = walk 47 (walk 47 start path) name /\
  walk 47 start (Posix.makePathName (Posix.getDirectoryName name) (Posix.getFileName name)) = walk 47 start name /\
  find_last_of [47] (Posix.getFileName name) = None /\
  (let n := Win32.flipSlashes name in
   exists r, Win32.getCanonicalPathName name = drive n ++ r /\ walk 92 start r = walk 92 start (behind_drive n) /\
     (find_last_of [58] (behind_drive n) = None -> Win32.getCanonicalPathName (Win32.getCanonicalPathName name) = Win32.getCanonicalPathName name)).
Proof.
  split; [by apply canonical_walk|]. split; [by apply canonical_absolute|]. split; [by apply canonical_idempotent|]. split; [apply makePathName_walk|]. destruct (split_walk start name) as [H1 H2]. split; [done|]. split.
  - destruct (find_last_of [47] (Posix.getFileName name)) as [n|] eqn:E; [|done]. apply find_last_of_spec in E as (c & HE & Hc & _). apply list_elem_of_singleton in Hc as ->. unfold no_sep in H2. rewrite HE in H2. apply Forall_app in H2 as [_ [H2 _]%Forall_cons]. done.
  - eexists. split; [apply win32_canonical|]. split; [by apply canonical_walk|]. intros HN. apply win32_idempotent. apply find_last_of_none in HN. eapply Forall_impl; [exact HN|]. intros x Hx ->. apply Hx. by constructor.
Qed.
Lemma path_names_correct_witness :
  let name := lit "c:/a/../b" in Win32.getCanonicalPathName (Win32.getCanonicalPathName name) = lit "c:\b" /\ walk 47 [lit "x"] (Posix.makePathName (lit "y/..") (lit "../z")) = [lit "z"].
Proof.
  split.
  - destruct (path_names_correct [] [] (lit "c:/a/../b")) as (_ & _ & _ & _ & _ & _ & r & _ & _ & H). exact (H eq_refl).
  - destruct (path_names_correct [lit "x"] (lit "y/..") (lit "../z")) as (_ & _ & _ & H & _). exact H.
Defined.
