(* ===== verification/MultiList.v ===== *)
(** * Lists with several iterators

    src/afl/container/ptrmultilistbase.cpp, ptrmultilistbase.hpp and ptrmultilist.hpp: a
    linked list whose iterators survive changes of the list.  Nodes live in a heap; a node
    has a pointer to the next node, and a pointer to the pointer that points to it.  The
    live iterators, which the code keeps in a list of their own, are a map. *)

From Stdlib Require Import ZArith Lia Bool List.
From stdpp Require Import base tactics numbers option list gmap sorting.
From S2P Require Import Prelude.

(** ** The list *)

(** Where a pointer to a node is: the list's first pointer, or a node's next pointer *)
Inductive Link := FirstNode | NextOf (n : nat).
Record iterator := mkIterator { m_item : option nat; m_nextItem : option nat }.
#[export] Instance iterator_eq_dec : EqDecision iterator.
Proof. solve_decision. Defined.

Section MultiList.
Context {D : Type}.
Record Node := mkNode { m_nextNode : option nat; m_pThisNode : Link; m_data : D }.
Record MultiList := mkList { m_nodes : gmap nat Node; m_firstNode : option nat; m_pLastNode : Link; m_iterators : gmap nat iterator }.
Definition MultiList_new : MultiList := mkList ∅ None FirstNode ∅.
Definition empty (l : MultiList) : bool := match m_firstNode l with None => true | Some _ => false end.

(** Changes of one thing *)
Definition set_nodes (h : gmap nat Node) (l : MultiList) : MultiList := mkList h (m_firstNode l) (m_pLastNode l) (m_iterators l).
Definition set_last (k : Link) (l : MultiList) : MultiList := mkList (m_nodes l) (m_firstNode l) k (m_iterators l).
Definition set_this (k : Link) (n : Node) : Node := mkNode (m_nextNode n) k (m_data n).
Definition set_next (x : option nat) (n : Node) : Node := mkNode x (m_pThisNode n) (m_data n).
Definition set_node_data (d : D) (n : Node) : Node := mkNode (m_nextNode n) (m_pThisNode n) d.
Definition set_iterators (f : iterator -> iterator) (l : MultiList) : MultiList := mkList (m_nodes l) (m_firstNode l) (m_pLastNode l) (f <$> m_iterators l).
(** [*link = x] *)
Definition store (k : Link) (x : option nat) (l : MultiList) : MultiList :=
  match k with
  | FirstNode => mkList (m_nodes l) x (m_pLastNode l) (m_iterators l)
  | NextOf n => set_nodes (alter (set_next x) n (m_nodes l)) l
  end.
Definition new_node (l : MultiList) : nat := fresh (dom (m_nodes l)).

(** *** Iterators *)

Definition node_next (l : MultiList) (x : option nat) : option nat := match x with Some n => m_nodes l !! n ≫= m_nextNode | None => None end.
Definition begin (l : MultiList) : iterator := mkIterator (m_firstNode l) (node_next l (m_firstNode l)).
Definition end_ : iterator := mkIterator None None.
Definition next (l : MultiList) (it : iterator) : iterator :=
  match m_nextItem it with
  | Some n => mkIterator (Some n) (node_next l (Some n))
  | None => mkIterator None None
  end.
Definition get (l : MultiList) (it : iterator) : option D := match m_item it with Some n => m_data <$> m_nodes l !! n | None => None end.
Definition valid (it : iterator) : bool := match m_item it with Some _ => true | None => false end.
(** A live iterator is registered with the list, under a number. *)
Definition link (i : nat) (it : iterator) (l : MultiList) : MultiList := mkList (m_nodes l) (m_firstNode l) (m_pLastNode l) (<[i := it]> (m_iterators l)).
Definition unlink (i : nat) (l : MultiList) : MultiList := mkList (m_nodes l) (m_firstNode l) (m_pLastNode l) (delete i (m_iterators l)).
(** The loop over the live iterators in extractElement, and the one in insertBefore *)
Definition erase_iterator (item : nat) (after : option nat) (it : iterator) : iterator :=
  if bool_decide (m_item it = Some item) then mkIterator None (m_nextItem it)
  else if bool_decide (m_nextItem it = Some item) then mkIterator (m_item it) after
  else it.
Definition rewrite_iterator (item n : nat) (it : iterator) : iterator :=
  if valid it && bool_decide (m_nextItem it = Some item) then mkIterator (m_item it) (Some n) else it.

(** *** Operations *)

Definition insertAtEnd (d : D) (l : MultiList) : nat * MultiList :=
  let n := new_node l in
  let l1 := set_nodes (<[n := mkNode None (m_pLastNode l) d]> (m_nodes l)) l in
  (n, set_last (NextOf n) (store (m_pLastNode l) (Some n) l1)).
Definition pushBackNew (d : D) (l : MultiList) : MultiList := (insertAtEnd d l).2.
Definition pushFrontNew (d : D) (l : MultiList) : MultiList :=
  let n := new_node l in
  let l1 := set_nodes (<[n := mkNode (m_firstNode l) FirstNode d]> (m_nodes l)) l in
  let l2 := if empty l then set_last (NextOf n) l1 else l1 in
  store FirstNode (Some n) l2.
(** [item] is the node to insert before. *)
Definition insertBefore (item : nat) (d : D) (l : MultiList) : nat * MultiList :=
  let n := new_node l in
  let this := match m_nodes l !! item with Some x => m_pThisNode x | None => FirstNode end in
  let l1 := set_nodes (<[n := mkNode (Some item) this d]> (m_nodes l)) l in
  let l2 := store this (Some n) l1 in
  let l3 := set_nodes (alter (set_this (NextOf n)) item (m_nodes l2)) l2 in
  (n, set_iterators (rewrite_iterator item n) l3).
Definition insert_at (it : iterator) (d : D) (l : MultiList) : iterator * MultiList :=
  let '(n, l) := match m_item it with
                 | None => match m_nextItem it with
                           | None => insertAtEnd d l
                           | Some nextItem => insertBefore nextItem d l
                           end
                 | Some item => insertBefore item d l
                 end in
  (mkIterator (Some n) (node_next l (Some n)), l).
Definition extractElement (it : iterator) (l : MultiList) : option D * MultiList :=
  match m_item it with
  | None => (None, l)
  | Some item =>
      match m_nodes l !! item with
      | None => (None, l)
      | Some x =>
          let l1 := set_iterators (erase_iterator item (m_nextNode x)) l in
          let l2 := store (m_pThisNode x) (m_nextNode x) l1 in
          let l3 := match m_nextNode x with
                    | Some n => set_nodes (alter (set_this (m_pThisNode x)) n (m_nodes l2)) l2
                    | None => set_last (m_pThisNode x) l2
                    end in
          (Some (m_data x), set_nodes (delete item (m_nodes l3)) l3)
      end
  end.
Definition erase (it : iterator) (l : MultiList) : MultiList := (extractElement it l).2.
Definition extractFront (l : MultiList) : option D * MultiList := extractElement (begin l) l.
Definition swapElements (a b : iterator) (l : MultiList) : MultiList :=
  match m_item a, m_item b with
  | Some x, Some y =>
      match m_nodes l !! x, m_nodes l !! y with
      | Some nx, Some ny => set_nodes (alter (set_node_data (m_data nx)) y (alter (set_node_data (m_data ny)) x (m_nodes l))) l
      | _, _ => l
      end
  | _, _ => l
  end.
Definition invalidateAllIterators (l : MultiList) : MultiList := mkList (m_nodes l) (m_firstNode l) (m_pLastNode l) ∅.
Fixpoint clear_loop (fuel : nat) (l : MultiList) : MultiList :=
  match fuel with
  | O => l
  | S fuel' => if negb (empty l) then clear_loop fuel' (extractFront l).2 else l
  end.
Definition clear (l : MultiList) : MultiList := clear_loop (size (m_nodes l)) (invalidateAllIterators l).
Fixpoint size_loop (fuel : nat) (l : MultiList) (n : option nat) (result : nat) : nat :=
  match fuel, n with
  | S fuel', Some x => size_loop fuel' l (node_next l (Some x)) (result + 1)
  | _, _ => result
  end.
Definition list_size (l : MultiList) : nat := size_loop (size (m_nodes l)) l (m_firstNode l) 0.

(** *** Sorting (ptrmultilist.hpp); an iterator of the functions is live in the list under a new number *)

Definition new_iterator (l : MultiList) : nat := fresh (dom (m_iterators l)).
Definition live (l : MultiList) (i : nat) : iterator := default end_ (m_iterators l !! i).
(** [while (i != e && p( *i, elem))] *)
Fixpoint advance (fuel : nat) (p : D -> D -> bool) (elem : D) (i : nat) (l : MultiList) : MultiList :=
  match fuel with
  | O => l
  | S fuel' =>
      match get l (live l i) with
      | Some d => if negb (bool_decide (live l i = end_)) && p d elem then advance fuel' p elem i (link i (next l (live l i)) l) else l
      | None => l
      end
  end.
Fixpoint merge_loop (fuel : nat) (p : D -> D -> bool) (i : nat) (l other : MultiList) : MultiList * MultiList :=
  match fuel with
  | O => (l, other)
  | S fuel' =>
      match extractFront other with
      | (Some elem, other) =>
          let l := advance (size (m_nodes l)) p elem i l in
          merge_loop fuel' p i (insert_at (live l i) elem l).2 other
      | (None, other) => (l, other)
      end
  end.
Definition merge (p : D -> D -> bool) (l other : MultiList) : MultiList * MultiList :=
  let i := new_iterator l in
  let '(l, other) := merge_loop (size (m_nodes other)) p i (link i (begin l) l) other in
  (unlink i l, other).
(** Every other element moves to [tmp]. *)
Fixpoint split_loop (fuel : nat) (n : nat) (i : nat) (l tmp : MultiList) : MultiList * MultiList * nat :=
  match fuel with
  | O => (l, tmp, n)
  | S fuel' =>
      if bool_decide (live l i = end_) then (l, tmp, n)
      else
        let '(l, tmp) := if Nat.odd n
                         then match extractElement (live l i) l with (Some d, l) => (l, pushBackNew d tmp) | (None, l) => (l, tmp) end
                         else (l, tmp) in
        split_loop fuel' (n + 1) i (link i (next l (live l i)) l) tmp
  end.
Fixpoint sort (fuel : nat) (p : D -> D -> bool) (l : MultiList) : MultiList :=
  match fuel with
  | O => l
  | S fuel' =>
      let i := new_iterator l in
      let '(l, tmp, n) := split_loop (S (size (m_nodes l))) 0 i (link i (begin l) l) MultiList_new in
      let l := unlink i l in
      let '(l, tmp) := if (2 <? n)%nat then (sort fuel' p l, sort fuel' p tmp) else (l, tmp) in
      (merge p l tmp).1
  end.
End MultiList.
Arguments MultiList : clear implicits.
Arguments Node : clear implicits.

(** ** Chains *)

Section Chains.
Context {D : Type}.
Implicit Types (h : gmap nat (Node D)) (xs a b : list (nat * D)).
Abbreviation ids xs := (map fst xs).

(** The first node of a list that is followed by [t], and the pointer behind its last node *)
Definition head_of xs (t : option nat) : option nat := match xs with (n, _) :: _ => Some n | [] => t end.
Fixpoint end_link (k : Link) xs : Link := match xs with (n, _) :: xs' => end_link (NextOf n) xs' | [] => k end.
Fixpoint chain h (k : Link) xs (t : option nat) : Prop :=
  match xs with
  | (n, d) :: xs' => h !! n = Some (mkNode (head_of xs' t) k d) /\ chain h (NextOf n) xs' t
  | [] => True
  end.
Lemma head_of_app a b t : head_of (a ++ b) t = head_of a (head_of b t).
Proof. by destruct a as [|[n d] a]. Qed.
Lemma end_link_app k a b : end_link k (a ++ b) = end_link (end_link k a) b.
Proof. revert k. induction a as [|[n d] a IH]; intros k; [done|]. apply IH. Qed.
Lemma chain_app h k a b t : chain h k (a ++ b) t <-> chain h k a (head_of b t) /\ chain h (end_link k a) b t.
Proof.
  revert k. induction a as [|[n d] a IH]; intros k; cbn [app chain end_link]; [tauto|]. rewrite IH, head_of_app. tauto.
Qed.
Lemma chain_frame h h' k xs t : (forall n, n ∈ ids xs -> h !! n = h' !! n) -> chain h k xs t -> chain h' k xs t.
Proof.
  revert k. induction xs as [|[n d] xs IH]; intros k HE; [done|]. cbn [chain]. intros [H1 H2]. split; [rewrite <- HE; [done|by constructor]|]. apply IH; [|done]. intros m Hm. apply HE. by constructor.
Qed.
Lemma chain_elem h k xs t n : chain h k xs t -> n ∈ ids xs -> is_Some (h !! n).
Proof. revert k. induction xs as [|[m d] xs IH]; intros k; cbn; [by intros _ ?%elem_of_nil|]. intros [H1 H2] [->|Hn]%elem_of_cons; [by eexists|by eapply IH]. Qed.

Definition store_map (k : Link) (x : option nat) h : gmap nat (Node D) := match k with FirstNode => h | NextOf n => alter (set_next x) n h end.
Lemma store_map_frame xs n x h : n ∉ ids xs -> store_map (end_link FirstNode xs) x h !! n = h !! n.
Proof.
  intros Hn. destruct xs as [|[m d] xs _] using rev_ind; [done|]. rewrite end_link_app. cbn. rewrite map_app in Hn. cbn in Hn. apply lookup_alter_ne. set_solver.
Qed.
Lemma chain_retarget h xs t x : NoDup (ids xs) -> chain h FirstNode xs t -> chain (store_map (end_link FirstNode xs) x h) FirstNode xs x.
Proof.
  destruct xs as [|[m d] xs _] using rev_ind; [done|]. intros HN HC. apply chain_app in HC as [H1 H2]. rewrite end_link_app. cbn [end_link store_map]. rewrite map_app in HN. cbn in HN. apply NoDup_app in HN as (HN1 & HN2 & _). apply chain_app. cbn [chain head_of] in *. destruct H2 as [H2 _]. split.
  - eapply chain_frame; [|exact H1]. intros n Hn. rewrite lookup_alter_ne; [done|]. intros ->. by eapply HN2; [|apply list_elem_of_singleton].
  - split; [|done]. by rewrite lookup_alter_eq, H2.
Qed.
Lemma chain_relink h k k' m d b t : NoDup (ids ((m, d) :: b)) -> chain h k ((m, d) :: b) t -> chain (alter (set_this k') m h) k' ((m, d) :: b) t.
Proof.
  intros [Hm _]%NoDup_cons [H1 H2]. split; [by rewrite lookup_alter_eq, H1|]. eapply chain_frame; [|exact H2]. intros n Hn. rewrite lookup_alter_ne; [done|]. by intros ->.
Qed.

(** What a list stands for: its nodes with their data *)
Definition shape (l : MultiList D) xs : Prop :=
  NoDup (ids xs) /\ m_firstNode l = head_of xs None /\ m_pLastNode l = end_link FirstNode xs /\ chain (m_nodes l) FirstNode xs None /\ forall n, n ∈ dom (m_nodes l) <-> n ∈ ids xs.
Lemma new_node_fresh l xs : shape l xs -> new_node l ∉ ids xs.
Proof. intros (_ & _ & _ & _ & HD). rewrite <- HD. unfold new_node. apply is_fresh. Qed.
Lemma store_eq k x (l : MultiList D) : store k x l = mkList (store_map k x (m_nodes l)) (match k with FirstNode => x | NextOf _ => m_firstNode l end) (m_pLastNode l) (m_iterators l).
Proof. by destruct k. Qed.
Lemma store_first (a : list (nat * D)) x t : match end_link FirstNode a with FirstNode => x | NextOf _ => head_of a t end = head_of a x.
Proof. destruct a as [|[m d] a]; [done|]. cbn. generalize m at 1. induction a as [|[m' d'] a IH]; intros k; [done|]. apply IH. Qed.
Lemma dom_store_map k x h : dom (store_map k x h) = dom h.
Proof. destruct k; [done|]. apply dom_alter_L. Qed.

(** *** Inserting and removing *)

Lemma NoDup_insert n (a b : list nat) : NoDup (a ++ b) -> n ∉ a ++ b -> NoDup (a ++ n :: b).
Proof. intros HN Hn. rewrite elem_of_app in Hn. apply NoDup_app in HN as (H1 & H2 & H3). apply NoDup_app. split; [done|]. split; [|constructor; tauto]. intros x Hx [->|Hb]%elem_of_cons; [tauto|by eapply H2]. Qed.
(** A node behind [a], before the relinking of what follows *)
Lemma chain_insert h a b t n d : NoDup (ids (a ++ b)) -> n ∉ ids (a ++ b) -> chain h FirstNode (a ++ b) t ->
  let h' := store_map (end_link FirstNode a) (Some n) (<[n := mkNode (head_of b t) (end_link FirstNode a) d]> h) in
  chain h' FirstNode (a ++ [(n, d)]) (head_of b t) /\ chain h' (end_link FirstNode a) b t.
Proof.
  intros HN Hn HC. cbn zeta. rewrite map_app in HN, Hn. rewrite elem_of_app in Hn. apply NoDup_app in HN as (HN1 & HN2 & HN3). apply chain_app in HC as [H1 H2].
  assert (HA : chain (<[n := mkNode (head_of b t) (end_link FirstNode a) d]> h) FirstNode a (head_of b t)) by (eapply chain_frame; [|exact H1]; intros m Hm; rewrite lookup_insert_ne; [done|]; intros ->; tauto).
  split.
  - apply chain_app. split; [by eapply chain_retarget|]. cbn [chain]. split; [|done]. rewrite store_map_frame by tauto. by rewrite lookup_insert_eq.
  - eapply chain_frame; [|exact H2]. intros m Hm. rewrite store_map_frame by (intros Ha; by eapply HN2). rewrite lookup_insert_ne; [done|]. intros ->. tauto.
Qed.
Lemma insertAtEnd_shape d l xs : shape l xs -> let '(n, l') := insertAtEnd d l in (n ∉ ids xs) /\ shape l' (xs ++ [(n, d)]).
Proof.
  intros HS. pose proof (new_node_fresh l xs HS) as Hn. unfold insertAtEnd. set (n := new_node l) in *. split; [done|]. destruct HS as (HN & HF & HL & HC & HD). rewrite HL, store_eq. unfold set_last, set_nodes. cbn [m_nodes m_firstNode m_pLastNode m_iterators].
  destruct (chain_insert (m_nodes l) xs [] None n d ltac:(by rewrite app_nil_r) ltac:(by rewrite app_nil_r) ltac:(by rewrite app_nil_r)) as [H1 _].
  split; [rewrite map_app; apply NoDup_insert; by rewrite app_nil_r|]. cbn [m_firstNode m_pLastNode m_nodes]. split; [rewrite HF, store_first; by rewrite head_of_app|]. split; [by rewrite end_link_app|]. split; [done|].
  intros m. rewrite dom_store_map, dom_insert, map_app, elem_of_union, elem_of_app, HD. cbn. rewrite elem_of_singleton, list_elem_of_singleton. tauto.
Qed.
Lemma insertBefore_shape m e d l a b : shape l (a ++ (m, e) :: b) -> let '(n, l') := insertBefore m d l in (n ∉ ids (a ++ (m, e) :: b)) /\ shape l' (a ++ (n, d) :: (m, e) :: b) /\ m_iterators l' = rewrite_iterator m n <$> m_iterators l.
Proof.
  intros HS. pose proof (new_node_fresh l _ HS) as Hn. unfold insertBefore. set (n := new_node l) in *. split; [done|]. destruct HS as (HN & HF & HL & HC & HD). pose proof (proj1 (chain_app _ _ _ _ _) HC) as [_ [HM _]]. rewrite HM. cbn [m_pThisNode].
  destruct (chain_insert (m_nodes l) a ((m, e) :: b) None n d HN Hn HC) as [H1 H2]. cbn [head_of] in H1, H2. rewrite store_eq. unfold set_nodes, set_iterators. cbn [m_nodes m_firstNode m_pLastNode m_iterators]. split; [|done].
  assert (HN' : NoDup (ids (a ++ (n, d) :: (m, e) :: b))) by (rewrite !map_app in *; cbn in *; by apply NoDup_insert). split; [done|]. cbn [m_firstNode m_pLastNode m_nodes].
  split; [rewrite HF, head_of_app, store_first; by rewrite head_of_app|]. split; [rewrite HL; by rewrite !end_link_app|]. split.
  - change (a ++ (n, d) :: (m, e) :: b) with (a ++ [(n, d)] ++ (m, e) :: b). rewrite app_assoc. apply chain_app. cbn [head_of]. rewrite end_link_app. cbn [end_link].
    change (a ++ (n, d) :: (m, e) :: b) with (a ++ [(n, d)] ++ (m, e) :: b) in HN'. rewrite app_assoc, map_app in HN'. apply NoDup_app in HN' as (_ & HX & HB). split.
    + eapply chain_frame; [|exact H1]. intros x Hx. rewrite lookup_alter_ne; [done|]. intros ->. eapply HX; [exact Hx|]. by constructor.
    + eapply chain_relink; [done|]. exact H2.
  - intros x. rewrite dom_alter_L, dom_store_map, dom_insert, !map_app, elem_of_union, !elem_of_app, HD, map_app, elem_of_app. cbn. rewrite elem_of_singleton, !elem_of_cons. tauto.
Qed.
Lemma extract_shape l a b x d it : shape l (a ++ (x, d) :: b) -> m_item it = Some x ->
  let '(r, l') := extractElement it l in r = Some d /\ shape l' (a ++ b) /\ m_iterators l' = erase_iterator x (head_of b None) <$> m_iterators l.
Proof.
  intros (HN & HF & HL & HC & HD) Hi. unfold extractElement. rewrite Hi. pose proof HC as HC'. apply chain_app in HC' as [H1 [HX H2]]. rewrite HX. cbn [m_nextNode m_pThisNode m_data head_of] in *.
  rewrite store_eq. cbn [set_iterators m_nodes m_firstNode m_pLastNode m_iterators]. rewrite map_app in HN. cbn in HN. apply NoDup_app in HN as (HN1 & HN2 & [Hx HN3]%NoDup_cons).
  set (h1 := store_map (end_link FirstNode a) (head_of b None) (m_nodes l)). assert (HA : chain h1 FirstNode a (head_of b None)) by (eapply chain_retarget; [done|exact H1]).
  assert (HB : chain h1 (NextOf x) b None). { eapply chain_frame; [|exact H2]. intros m Hm. unfold h1. rewrite store_map_frame; [done|]. intros Ha. eapply HN2; [exact Ha|]. by constructor. }
  assert (HXA : x ∉ ids a) by (intros Ha; eapply HN2; [exact Ha|by constructor]). assert (HNab : NoDup (ids (a ++ b))). { rewrite map_app. apply NoDup_app. split; [done|]. split; [|done]. intros y Hy Hb. eapply HN2; [exact Hy|]. by constructor. }
  rewrite HF, head_of_app. cbn [head_of]. rewrite store_first. rewrite HL, end_link_app. cbn [end_link].
  assert (HDel : forall h k xs t, x ∉ ids xs -> chain h k xs t -> chain (delete x h) k xs t) by (intros h k xs t Hne; apply chain_frame; intros m Hm; rewrite lookup_delete_ne; [done|]; intros ->; done).
  assert (HDom : forall y, y ∈ ids (a ++ (x, d) :: b) /\ y <> x <-> y ∈ ids (a ++ b)). { intros y. rewrite !map_app, !elem_of_app. cbn. rewrite elem_of_cons. split; [tauto|]. intros [Hy|Hy]; (split; [tauto|]); intros ->; done. }
  split; [done|]. destruct b as [|[m e] b]; cbn [head_of]; (split; [|done]).
  - unfold set_nodes, set_last, shape. cbn [m_nodes m_firstNode m_pLastNode m_iterators]. rewrite app_nil_r in *. split; [done|]. split; [done|]. split; [done|]. split; [by apply HDel|]. intros y. rewrite dom_delete_L, elem_of_difference, not_elem_of_singleton. subst h1. rewrite dom_store_map, HD. apply HDom.
  - unfold set_nodes, shape. cbn [m_nodes m_firstNode m_pLastNode m_iterators]. split; [done|]. split; [by rewrite head_of_app|]. split; [by rewrite end_link_app|]. split.
    + apply HDel; [rewrite map_app, elem_of_app; tauto|]. apply chain_app. split; [|by eapply chain_relink]. eapply chain_frame; [|exact HA]. intros y Hy. rewrite lookup_alter_ne; [done|]. intros ->. rewrite map_app in HNab. apply NoDup_app in HNab as (_ & HX2 & _). eapply HX2; [exact Hy|by constructor].
    + intros y. rewrite dom_delete_L, elem_of_difference, not_elem_of_singleton, dom_alter_L. subst h1. rewrite dom_store_map, HD. apply HDom.
Qed.
End Chains.

(** ** Iterators *)

(** The part of a list that begins with an element *)
Fixpoint from (n : nat) (l : list nat) : list nat := match l with x :: l' => if decide (x = n) then l else from n l' | [] => [] end.
Definition rest (l : list nat) (o : option nat) : list nat := match o with Some n => from n l | None => [] end.
(** What an iterator will still return *)
Definition ahead (l : list nat) (it : iterator) : list nat := (match m_item it with Some x => [x] | None => [] end) ++ rest l (m_nextItem it).
(** An iterator knows its successor, or none if it was at the end when elements were added. *)
Definition it_ok (l : list nat) (it : iterator) : Prop :=
  (forall x, m_item it = Some x -> (x ∈ l)) /\ (forall y, m_nextItem it = Some y -> y ∈ l) /\
  (forall x y, m_item it = Some x -> m_nextItem it = Some y -> exists a b, l = a ++ x :: y :: b).

Lemma from_eq n (a b : list nat) : n ∉ a -> from n (a ++ n :: b) = n :: b.
Proof. induction a as [|x a IH]; intros Hn; cbn; [by rewrite decide_True|]. rewrite elem_of_cons in Hn. rewrite decide_False by (intros ->; tauto). apply IH. tauto. Qed.
Lemma from_split (n : nat) (l : list nat) : n ∈ l -> exists a b, l = a ++ n :: b /\ (n ∉ a).
Proof.
  induction l as [|x l IH]; [by intros ?%elem_of_nil|]. destruct (decide (x = n)) as [->|Hx]; [exists [], l; split; [done|by apply not_elem_of_nil]|]. intros [?|Hn]%elem_of_cons; [congruence|]. destruct (IH Hn) as (a & b & -> & Ha). exists (x :: a), b. split; [done|]. apply not_elem_of_cons. by split.
Qed.
Lemma filter_ne_id x (l : list nat) : x ∉ l -> filter (.≠ x) l = l.
Proof. induction l as [|y l IH]; [done|]. intros [H1 H2]%not_elem_of_cons. rewrite filter_cons_True by congruence. by rewrite IH. Qed.
(** Removing an element, for the elements behind a given one *)
Lemma from_erase (a : list nat) x (b : list nat) y : NoDup (a ++ x :: b) -> y ∈ a ++ x :: b -> y <> x -> from y (a ++ b) = filter (.≠ x) (from y (a ++ x :: b)).
Proof.
  intros HN Hy Hne. apply NoDup_app in HN as (H1 & H2 & [Hx H3]%NoDup_cons). assert (Hxa : x ∉ a) by (intros Ha; by eapply H2; [|constructor]). apply elem_of_app in Hy as [Hy|Hy].
  - destruct (from_split y a Hy) as (a1 & a2 & -> & Hn). rewrite <- !app_assoc. cbn [app]. rewrite !from_eq by done. rewrite filter_cons_True by done. rewrite filter_app, filter_cons_False by (intros HH; by apply HH). rewrite !filter_ne_id; [done|done|]. rewrite elem_of_app, elem_of_cons in Hxa. tauto.
  - apply elem_of_cons in Hy as [|Hy]; [done|]. destruct (from_split y b Hy) as (b1 & b2 & -> & Hn). assert (Hya : y ∉ a) by (intros Ha; eapply H2; [exact Ha|]; apply elem_of_cons; right; apply elem_of_app; right; by constructor).
    rewrite app_assoc, from_eq by (rewrite elem_of_app; tauto). replace (a ++ x :: b1 ++ y :: b2) with ((a ++ x :: b1) ++ y :: b2) by (by rewrite <- app_assoc). rewrite from_eq by (rewrite elem_of_app, elem_of_cons; tauto).
    rewrite filter_ne_id; [done|]. rewrite elem_of_app in Hx. tauto.
Qed.
Lemma from_head (a b : list nat) y : NoDup (a ++ y :: b) -> from y (a ++ y :: b) = y :: b.
Proof. intros (_ & H2 & _)%NoDup_app. apply from_eq. intros Ha. by eapply H2; [|constructor]. Qed.
(** The successor of an element is unique. *)
Lemma successor_unique (a b a' b' : list nat) x y : NoDup (a ++ x :: b) -> a ++ x :: b = a' ++ x :: y :: b' -> b = y :: b'.
Proof.
  intros HN HE. pose proof (from_head a b x HN) as H1. rewrite HE in HN. pose proof (from_head a' (y :: b') x HN) as H2. rewrite HE in H1. rewrite H1 in H2. by injection H2.
Qed.
Definition head_id (b : list nat) : option nat := match b with y :: _ => Some y | [] => None end.
Lemma erase_iterator_ok (a : list nat) x (b : list nat) it : NoDup (a ++ x :: b) -> it_ok (a ++ x :: b) it ->
  it_ok (a ++ b) (erase_iterator x (head_id b) it) /\ ahead (a ++ b) (erase_iterator x (head_id b) it) = filter (.≠ x) (ahead (a ++ x :: b) it).
Proof.
  intros HN (H1 & H2 & H3). assert (HM : forall y, y <> x -> y ∈ a ++ x :: b -> y ∈ a ++ b) by (intros y Hy; rewrite !elem_of_app, elem_of_cons; tauto). unfold erase_iterator. destruct it as [item nxt]. cbn [m_item m_nextItem] in *. case_bool_decide as E1.
  - subst item. destruct nxt as [y|]; [|split; [done|]; unfold ahead; cbn [m_item m_nextItem rest app]; by rewrite filter_cons_False by (intros HH; by apply HH)]. destruct (H3 x y eq_refl eq_refl) as (a' & b' & HE). pose proof (successor_unique a b a' b' x y HN HE) as ->.
    assert (Hyx : y <> x). { intros ->. apply NoDup_app in HN as (_ & _ & [HN _]%NoDup_cons). apply HN. by constructor. }
    split; [split; [done|]; split; [|done]; intros z [= <-]; cbn; apply HM; [done|by apply H2]|]. unfold ahead. cbn [m_item m_nextItem rest app]. rewrite filter_cons_False by (intros HH; by apply HH). apply from_erase; [done|by apply H2|done].
  - case_bool_decide as E2.
    + subst nxt. split.
      * split; [|split]; cbn [m_item m_nextItem].
        -- intros z Hz. apply HM; [congruence|by apply H1].
        -- intros z Hz. destruct b as [|y b]; [done|]. injection Hz as <-. apply elem_of_app. right. by constructor.
        -- intros z y Hz Hy. destruct b as [|y' b]; [done|]. injection Hy as ->. destruct (H3 z x Hz eq_refl) as (a' & b' & HE). assert (HR : b' = y :: b). { rewrite HE in HN. change (a' ++ z :: x :: b') with (a' ++ [z] ++ x :: b') in HE, HN. rewrite app_assoc in HE, HN. pose proof (from_head _ _ _ HN) as HF. rewrite <- HE in HF. rewrite from_head in HF by (by rewrite HE). by injection HF. }
           subst b'. exists a', b. change (a' ++ z :: x :: y :: b) with (a' ++ [z] ++ x :: y :: b) in HE. rewrite app_assoc in HE. apply (app_inv_tail (x :: y :: b)) in HE. by rewrite HE, <- app_assoc.
      * unfold ahead. cbn [m_item m_nextItem]. rewrite filter_app. f_equal; [destruct item as [z|]; [|done]; rewrite filter_cons_True; [done|congruence]|]. cbn [rest]. rewrite from_head by done. rewrite filter_cons_False by (intros HH; by apply HH). apply NoDup_app in HN as (HN1 & HN2 & [HN3 HN4]%NoDup_cons). rewrite filter_ne_id by done.
        destruct b as [|y b]; [done|]. cbn [head_id rest]. apply from_eq. intros Ha. eapply HN2; [exact Ha|]. apply elem_of_cons. right. by constructor.
    + split.
      * split; [|split]; cbn [m_item m_nextItem]; [intros z Hz; apply HM; [congruence|by apply H1]|intros z Hz; apply HM; [congruence|by apply H2]|].
        intros z y Hz Hy. destruct (H3 z y Hz Hy) as (a' & b' & HE). assert (HI : filter (.≠ x) (a ++ x :: b) = a ++ b).
        { rewrite filter_app, filter_cons_False by (intros HH; by apply HH). apply NoDup_app in HN as (_ & HN2 & [HN3 _]%NoDup_cons). rewrite !filter_ne_id; [done|done|]. intros Ha. by eapply HN2; [|constructor]. }
        rewrite HE, filter_app, !filter_cons_True in HI by congruence. eauto.
      * unfold ahead. cbn [m_item m_nextItem]. rewrite filter_app. f_equal; [destruct item as [z|]; [|done]; rewrite filter_cons_True; [done|congruence]|]. destruct nxt as [y|]; [|done]. cbn [rest]. apply from_erase; [done|by apply H2|congruence].
Qed.
(** Neighbours are on the same side of any other element. *)
Lemma neighbours (a b a' b' : list nat) m x y : a ++ m :: b = a' ++ x :: y :: b' -> y <> m -> (exists c, a = a' ++ x :: y :: c) \/ exists c, a' = a ++ c /\ m :: b = c ++ x :: y :: b'.
Proof.
  intros HE Hy. revert a HE. induction a' as [|u a' IH]; intros a HE; destruct a as [|v a]; cbn [app] in *.
  - right. by exists [].
  - injection HE as -> HE. destruct a as [|w a]; cbn [app] in HE; injection HE as ? ?; [congruence|]. subst. left. by exists a.
  - right. by exists (u :: a').
  - injection HE as -> HE. destruct (IH a HE) as [[c ->]|(c & -> & Hc)]; [left; by exists c|right; by exists c].
Qed.
Lemma rewrite_iterator_ok (a : list nat) n m (b : list nat) it : NoDup (a ++ n :: m :: b) -> it_ok (a ++ m :: b) it -> it_ok (a ++ n :: m :: b) (rewrite_iterator m n it).
Proof.
  intros HN (H1 & H2 & H3). destruct it as [item nxt]. unfold rewrite_iterator, valid. cbn [m_item m_nextItem] in *. assert (HM : forall y, y ∈ a ++ m :: b -> y ∈ a ++ n :: m :: b) by (intros y; rewrite !elem_of_app, !elem_of_cons; tauto).
  destruct item as [x|]; cbn [andb]; [|split; [done|]; split; [|done]; intros y Hy; by apply HM, H2]. case_bool_decide as E.
  - subst nxt. split; [|split]; cbn [m_item m_nextItem]; [intros z Hz; by apply HM, H1|intros z [= <-]; apply elem_of_app; right; constructor|]. intros z y [= <-] [= <-]. destruct (H3 x m eq_refl eq_refl) as (a' & b' & HE). exists a', (m :: b).
    assert (HN' : NoDup (a ++ m :: b)). { apply NoDup_app in HN as (HN1 & HN2 & [_ HN3]%NoDup_cons). apply NoDup_app. split; [done|]. split; [|done]. intros z Hz Hb. eapply HN2; [exact Hz|]. by constructor. }
    assert (HR : b' = b). { pose proof HN' as HN2. rewrite HE in HN2. change (a' ++ x :: m :: b') with (a' ++ [x] ++ m :: b') in HE, HN2. rewrite app_assoc in HE, HN2. pose proof (from_head _ _ _ HN2) as HF. rewrite <- HE in HF. rewrite from_head in HF by done. by injection HF. }
    subst b'. change (a' ++ x :: m :: b) with (a' ++ [x] ++ m :: b) in HE. rewrite app_assoc in HE. apply (app_inv_tail (m :: b)) in HE. by rewrite HE, <- app_assoc.
  - split; [|split]; cbn [m_item m_nextItem]; [intros z Hz; by apply HM, H1|intros z Hz; by apply HM, H2|]. intros z y [= <-] Hy. destruct (H3 x y eq_refl Hy) as (a' & b' & HE). assert (Hym : y <> m) by congruence.
    destruct (neighbours a b a' b' m x y HE Hym) as [[c ->]|(c & -> & Hc)].
    + exists a', (c ++ n :: m :: b). by rewrite <- app_assoc.
    + exists (a ++ n :: c), b'. by rewrite Hc, <- app_assoc.
Qed.
Lemma append_iterator_ok (l : list nat) n it : it_ok l it -> it_ok (l ++ [n]) it.
Proof.
  intros (H1 & H2 & H3). split; [|split]; [intros x Hx; apply elem_of_app; left; by apply H1|intros y Hy; apply elem_of_app; left; by apply H2|]. intros x y Hx Hy. destruct (H3 x y Hx Hy) as (a & b & ->). exists a, (b ++ [n]). by rewrite <- app_assoc.
Qed.

(** ** The list and its live iterators *)

Section Lists.
Context {D : Type}.
Implicit Types (l : MultiList D) (xs a b : list (nat * D)).
Abbreviation ids xs := (map fst xs).
Definition list_ok l xs : Prop := shape l xs /\ forall i it, m_iterators l !! i = Some it -> it_ok (ids xs) it.
Lemma head_of_id xs : head_of xs None = head_id (ids xs).
Proof. by destruct xs as [|[n d] xs]. Qed.
Lemma new_ok : list_ok MultiList_new [].
Proof. split; [|done]. split; [constructor|]. split; [done|]. split; [done|]. split; [done|]. intros n. cbn. set_solver. Qed.
Lemma split_at xs n : n ∈ ids xs -> exists a d b, xs = a ++ (n, d) :: b.
Proof. intros Hn. apply list_elem_of_fmap in Hn as ([n' d] & -> & Hx). apply list_elem_of_split in Hx as (a & b & ->). by exists a, d, b. Qed.
Lemma shape_lookup l a n d b : shape l (a ++ (n, d) :: b) -> m_nodes l !! n = Some (mkNode (head_id (ids b)) (end_link FirstNode a) d).
Proof. intros (_ & _ & _ & HC & _). apply chain_app in HC as [_ [H _]]. by rewrite H, head_of_id. Qed.
Lemma shape_split l a n d b : shape l (a ++ (n, d) :: b) -> NoDup (ids a ++ n :: ids b).
Proof. intros (HN & _). by rewrite map_app in HN. Qed.

(** *** Each operation *)

Lemma pushBack_ok d l xs : list_ok l xs -> exists n, list_ok (pushBackNew d l) (xs ++ [(n, d)]).
Proof.
  intros [HS HI]. unfold pushBackNew. pose proof (insertAtEnd_shape d l xs HS) as HX. assert (HE : m_iterators (insertAtEnd d l).2 = m_iterators l) by (unfold insertAtEnd, store; by destruct (m_pLastNode l)). destruct (insertAtEnd d l) as [n l'] eqn:E. destruct HX as [_ HX]. exists n. cbn [snd] in *. split; [done|].
  rewrite HE. intros i it Hit. rewrite map_app. apply append_iterator_ok. by eapply HI.
Qed.
(** The place that an iterator points to: the element, or what follows if it was removed *)
Definition place (it : iterator) : option nat := match m_item it with Some x => Some x | None => m_nextItem it end.
Lemma insert_ok it d l xs : list_ok l xs -> it_ok (ids xs) it -> let '(it', l') := insert_at it d l in
  exists a b n, xs = a ++ b /\ head_of b None = place it /\ list_ok l' (a ++ (n, d) :: b) /\ m_item it' = Some n /\ it_ok (ids (a ++ (n, d) :: b)) it'.
Proof.
  intros [HS HI] (H1 & H2 & _). unfold insert_at, place.
  assert (HB : forall m, m ∈ ids xs -> let '(n, l') := insertBefore m d l in exists a b, xs = a ++ b /\ head_of b None = Some m /\ list_ok l' (a ++ (n, d) :: b)).
  { intros m Hm. destruct (split_at xs m Hm) as (a & e & b & ->). pose proof (insertBefore_shape m e d l a b HS) as HX. destruct (insertBefore m d l) as [n l']. destruct HX as (_ & HX & HE). exists a, ((m, e) :: b). split; [done|]. split; [done|]. split; [done|]. rewrite HE. intros i jt. rewrite lookup_fmap. destruct (m_iterators l !! i) as [kt|] eqn:EK; [|done]. intros [= <-].
    pose proof (shape_split l' a n d ((m, e) :: b) HX) as HN. rewrite map_app. apply rewrite_iterator_ok; [done|]. specialize (HI i kt EK). by rewrite map_app in HI. }
  assert (HR : forall a b n l', list_ok l' (a ++ (n, d) :: b) -> it_ok (ids (a ++ (n, d) :: b)) (mkIterator (Some n) (node_next l' (Some n)))).
  { intros a b n l' [HL _]. cbn [node_next]. rewrite (shape_lookup l' a n d b HL). cbn. rewrite map_app. split; [|split]; cbn [m_item m_nextItem]; [intros x [= <-]; apply elem_of_app; right; constructor|intros y Hy; destruct b as [|[y' e] b]; [done|]; injection Hy as <-; set_solver|].
    intros x y [= <-] Hy. destruct b as [|[y' e] b]; [done|]. injection Hy as <-. by eexists _, _. }
  destruct (m_item it) as [x|]; [|destruct (m_nextItem it) as [y|]].
  - specialize (HB x (H1 x eq_refl)). destruct (insertBefore x d l) as [n l']. destruct HB as (a & b & -> & HB & HL). exists a, b, n. split; [done|]. split; [done|]. split; [done|]. split; [done|]. by apply HR.
  - specialize (HB y (H2 y eq_refl)). destruct (insertBefore y d l) as [n l']. destruct HB as (a & b & -> & HB & HL). exists a, b, n. split; [done|]. split; [done|]. split; [done|]. split; [done|]. by apply HR.
  - destruct (insertAtEnd d l) as [n l'] eqn:E. pose proof (insertAtEnd_shape d l xs HS) as HX. rewrite E in HX. destruct HX as [_ HX]. exists xs, [], n. split; [by rewrite app_nil_r|]. split; [done|]. assert (HL : list_ok l' (xs ++ [(n, d)])); [|split; [done|]; split; [done|]; by apply HR].
    split; [done|]. assert (HE : m_iterators l' = m_iterators l) by (pose proof (f_equal (fun p => m_iterators p.2) E) as HE; cbn in HE; rewrite <- HE; unfold store; by destruct (m_pLastNode l)). rewrite HE. intros i jt Hj. rewrite map_app. apply append_iterator_ok. by eapply HI.
Qed.
Lemma extract_ok it l a x d b : list_ok l (a ++ (x, d) :: b) -> m_item it = Some x -> let '(r, l') := extractElement it l in
  r = Some d /\ list_ok l' (a ++ b) /\
  forall j jt, m_iterators l !! j = Some jt -> exists jt', m_iterators l' !! j = Some jt' /\ ahead (ids (a ++ b)) jt' = filter (.≠ x) (ahead (ids (a ++ (x, d) :: b)) jt).
Proof.
  intros [HS HI] Hi. pose proof (extract_shape l a b x d it HS Hi) as HX. pose proof (shape_split l a x d b HS) as HN. destruct (extractElement it l) as [r l']. destruct HX as (-> & HX & HE). rewrite head_of_id in HE. rewrite !map_app in *. cbn [map fst] in *.
  split; [done|]. rewrite HE. split.
  - split; [done|]. rewrite HE. intros j jt. rewrite lookup_fmap. destruct (m_iterators l !! j) as [kt|] eqn:EK; [|done]. intros [= <-]. rewrite map_app. apply erase_iterator_ok; [done|]. by eapply HI.
  - intros j jt Hj. rewrite lookup_fmap, Hj. eexists. split; [done|]. apply erase_iterator_ok; [done|]. by eapply HI.
Qed.

(** *** Iterating *)

Lemma begin_ok l xs : list_ok l xs -> it_ok (ids xs) (begin l) /\ ahead (ids xs) (begin l) = ids xs.
Proof.
  intros [HS _]. unfold begin. pose proof HS as (HN & HF & _). rewrite HF. destruct xs as [|[n d] xs]; [by split; [split|]|]. cbn [head_of node_next]. rewrite (shape_lookup l [] n d xs HS). cbn [mbind option_bind m_nextNode]. split.
  - split; [|split]; cbn [m_item m_nextItem]; [intros x [= <-]; cbn; constructor|intros y Hy; destruct xs as [|[y' e] xs]; [done|]; injection Hy as <-; set_solver|]. intros x y [= <-] Hy. destruct xs as [|[y' e] xs]; [done|]. injection Hy as <-. by exists [], (ids xs).
  - unfold ahead. cbn [m_item m_nextItem map fst app]. f_equal. destruct xs as [|[m e] xs]; [done|]. cbn [map fst head_id rest]. cbn [map fst] in HN. apply (from_head [n] (ids xs) m). done.
Qed.
Lemma next_ok l xs it : list_ok l xs -> it_ok (ids xs) it -> it_ok (ids xs) (next l it) /\ ahead (ids xs) (next l it) = rest (ids xs) (m_nextItem it) /\ (m_item (next l it) = None -> next l it = end_).
Proof.
  intros [HS _] (_ & H2 & _). unfold next. destruct (m_nextItem it) as [n|]; [|by split; [split|]]. destruct (split_at xs n (H2 n eq_refl)) as (a & d & b & ->). cbn [node_next]. rewrite (shape_lookup l a n d b HS). cbn [mbind option_bind m_nextNode]. pose proof (shape_split l a n d b HS) as HN. rewrite map_app. cbn [map fst]. split; [|split; [|done]].
  - split; [|split]; cbn [m_item m_nextItem]; [intros x [= <-]; apply elem_of_app; right; constructor|intros y Hy; destruct b as [|[y' e] b]; [done|]; injection Hy as <-; set_solver|]. intros x y [= <-] Hy. destruct b as [|[y' e] b]; [done|]. injection Hy as <-. by eexists _, _.
  - unfold ahead. cbn [m_item m_nextItem rest]. rewrite from_head by done. cbn [app]. f_equal. destruct b as [|[m e] b]; [done|]. cbn [map fst head_id rest] in *. replace (ids a ++ n :: m :: ids b) with ((ids a ++ [n]) ++ m :: ids b) in * by (by rewrite <- app_assoc). by apply from_head.
Qed.
(** The loop that clients use: [for (it = begin; it != end; ++it) if ( *it != 0)] *)
Fixpoint visit (fuel : nat) l (it : iterator) : list D :=
  match fuel with
  | O => []
  | S fuel' => if bool_decide (it = end_) then [] else match get l it with Some d => d :: visit fuel' l (next l it) | None => visit fuel' l (next l it) end
  end.
Definition data_at l (n : nat) : option D := m_data <$> m_nodes l !! n.
(** A round for a removed element returns nothing. *)
Definition lag (it : iterator) : nat := match m_item it, m_nextItem it with None, Some _ => 1 | _, _ => 0 end.
Lemma visit_ok fuel l xs it : list_ok l xs -> it_ok (ids xs) it -> (length (ahead (ids xs) it) + lag it < fuel)%nat -> visit fuel l it = omap (data_at l) (ahead (ids xs) it).
Proof.
  intros HL. revert it. induction fuel as [|fuel IH]; intros it Hi Hf; [lia|]. cbn [visit]. case_bool_decide as E; [by rewrite E|]. destruct (next_ok l xs it HL Hi) as (H1 & H2 & H3).
  assert (HG : lag (next l it) = 0%nat) by (unfold lag; destruct (m_item (next l it)); [done|]; by rewrite H3). specialize (IH (next l it) H1). rewrite H2, HG in IH. destruct it as [[x|] nxt]; unfold ahead in *; cbn [m_item m_nextItem get app length] in *.
  - destruct Hi as (Hx & _). destruct HL as [HS HL]. destruct (split_at xs x (Hx x eq_refl)) as (a & d & b & ->). pose proof (shape_lookup l a x d b HS) as HM. cbn [omap list_omap]. unfold data_at at 1. unfold get. cbn [m_item]. rewrite HM. cbn [fmap option_fmap option_map m_data]. f_equal. apply IH. lia.
  - destruct nxt as [y|]; [|done]. unfold lag in Hf. cbn [m_item m_nextItem] in Hf. apply IH. lia.
Qed.
Lemma data_all l xs : shape l xs -> omap (data_at l) (ids xs) = map snd xs.
Proof.
  intros (_ & _ & _ & HC & _). revert HC. generalize FirstNode as k. induction xs as [|[n d] xs IH]; intros k; [done|]. cbn [chain]. intros [H1 H2]. cbn [map fst snd omap list_omap]. unfold data_at at 1. rewrite H1. cbn. f_equal. by eapply IH.
Qed.
Lemma visit_all l xs : list_ok l xs -> visit (S (length xs)) l (begin l) = map snd xs.
Proof.
  intros HL. destruct (begin_ok l xs HL) as [H1 H2]. rewrite (visit_ok _ l xs) by (try done; rewrite H2, length_map; unfold lag, begin; cbn; destruct (m_firstNode l); cbn; lia). rewrite H2. apply data_all, HL.
Qed.
Lemma shape_size l xs : shape l xs -> size (m_nodes l) = length xs.
Proof.
  intros (HN & _ & _ & _ & HD). rewrite <- size_dom, <- (length_map fst xs). rewrite <- (size_list_to_set (C := gset nat)) by done. f_equal. apply set_eq. intros n. rewrite HD. by rewrite elem_of_list_to_set.
Qed.
Lemma size_ok l xs : list_ok l xs -> list_size l = length xs.
Proof.
  intros [HS _]. unfold list_size. rewrite (shape_size l xs HS). destruct HS as (_ & HF & _ & HC & _). rewrite HF.
  assert (HG : forall xs k r, chain (m_nodes l) k xs None -> size_loop (length xs) l (head_of xs None) r = (r + length xs)%nat); [|by apply (HG xs FirstNode)].
  clear. intros xs. induction xs as [|[n d] xs IH]; intros k r HC; cbn [head_of size_loop length]; [lia|]. destruct HC as [H1 H2]. cbn [node_next]. rewrite H1. cbn [mbind option_bind m_nextNode]. rewrite (IH (NextOf n)) by done. lia.
Qed.
Lemma empty_ok l xs : list_ok l xs -> empty l = bool_decide (xs = []).
Proof. intros [(_ & HF & _) _]. unfold empty. rewrite HF. by destruct xs as [|[n d] xs]. Qed.
Lemma extractFront_ok l x d xs : list_ok l ((x, d) :: xs) -> let '(r, l') := extractFront l in r = Some d /\ list_ok l' xs /\ (m_iterators l = ∅ -> m_iterators l' = ∅).
Proof.
  intros HL. unfold extractFront. assert (HI : m_item (begin l) = Some x) by (destruct HL as [(_ & HF & _) _]; unfold begin; by rewrite HF). pose proof (extract_ok (begin l) l [] x d xs HL HI) as HX. pose proof (extract_shape l [] xs x d (begin l) (proj1 HL) HI) as HY. destruct (extractElement (begin l) l) as [r l']. destruct HX as (-> & HX & _), HY as (_ & _ & HY). split; [done|]. split; [done|]. intros HE. by rewrite HY, HE, fmap_empty.
Qed.
Lemma clear_ok l xs : list_ok l xs -> list_ok (clear l) [] /\ m_iterators (clear l) = ∅.
Proof.
  intros [HS HI]. unfold clear. rewrite (shape_size l xs HS). assert (HL : list_ok (invalidateAllIterators l) xs) by (by split). assert (HE : m_iterators (invalidateAllIterators l) = ∅) by done. clear HS HI. revert HL HE. generalize (invalidateAllIterators l) as l0. induction xs as [|[x d] xs IH]; intros l0 HL HE; [done|]. cbn [length clear_loop].
  rewrite (empty_ok l0 _ HL). cbn [negb]. rewrite bool_decide_eq_false_2 by done. cbn [negb]. pose proof (extractFront_ok l0 x d xs HL) as HX. destruct (extractFront l0) as [r l1]. destruct HX as (_ & HX & HE'). cbn [snd]. apply IH; [done|by apply HE'].
Qed.
End Lists.

Section Refinement.
Context {D : Type}.
Implicit Types (l : MultiList D) (xs a b : list (nat * D)).
Abbreviation ids xs := (map fst xs).
Lemma link_ok i it l xs : list_ok l xs -> it_ok (ids xs) it -> list_ok (link i it l) xs.
Proof. intros [HS HI] Hi. split; [done|]. intros j jt. cbn [link m_iterators]. intros [[_ <-]|[_ Hj]]%lookup_insert_Some; [done|by eapply HI]. Qed.
Lemma data_at_erase l l' a x d b n : shape l (a ++ (x, d) :: b) -> shape l' (a ++ b) -> n ∈ ids (a ++ b) -> data_at l' n = data_at l n.
Proof.
  intros HS HS' Hn. assert (HG : forall l0 xs, shape l0 xs -> forall e, (n, e) ∈ xs -> data_at l0 n = Some e).
  { intros l0 xs H0 e He. apply list_elem_of_split in He as (a0 & b0 & ->). unfold data_at. by rewrite (shape_lookup l0 a0 n e b0 H0). }
  apply list_elem_of_fmap in Hn as ([n' e] & -> & Hx). rewrite (HG l' _ HS' e Hx). symmetry. apply (HG l _ HS). rewrite elem_of_app in *. rewrite elem_of_cons. tauto.
Qed.
Lemma ahead_elem (m : list nat) it n : it_ok m it -> n ∈ ahead m it -> n ∈ m.
Proof.
  intros (H1 & H2 & _). unfold ahead. rewrite elem_of_app. intros [Hn|Hn]; [destruct (m_item it); [apply list_elem_of_singleton in Hn as ->; by apply H1|by apply elem_of_nil in Hn]|]. destruct (m_nextItem it) as [y|]; [|by apply elem_of_nil in Hn]. cbn [rest] in Hn.
  destruct (from_split y m (H2 y eq_refl)) as (a & b & -> & Ha). rewrite from_eq in Hn by done. apply elem_of_app. by right.
Qed.
Lemma ahead_length (m : list nat) it : NoDup m -> it_ok m it -> (length (ahead m it) + lag it < length m + 2)%nat.
Proof.
  intros HN (H1 & H2 & H3). unfold ahead, lag. rewrite length_app. destruct (m_nextItem it) as [y|].
  - cbn [rest]. destruct (from_split y m (H2 y eq_refl)) as (a & b & -> & Ha). rewrite from_eq by done. rewrite length_app. cbn [length]. destruct (m_item it); cbn; lia.
  - cbn. destruct (m_item it); cbn; lia.
Qed.

End Refinement.

Example sort_ex : let l := sort 9 Nat.ltb (fold_left (fun l d => pushBackNew d l) [3; 1; 2; 5; 4; 2; 0] MultiList_new) in visit 9 l (begin l) = [0; 1; 2; 2; 3; 4; 5].
Proof. by vm_compute. Qed.
(** An element that was put in front of others is lost when the element behind it is removed:
    the pointer of the second element to the pointer that points to it was not changed. *)
Lemma push_front_loses :
  let l := pushFrontNew 2 (pushBackNew 1 MultiList_new) in
  visit 4 l (begin l) = [2; 1] /\ visit 4 (erase (next l (begin l)) l) (begin (erase (next l (begin l)) l)) = [].
Proof. by vm_compute. Qed.
