(* ===== verification/MultiListSort.v ===== *)
(** * Sorting a list with several iterators: PtrMultiList::sort and merge *)

From Stdlib Require Import ZArith Lia Bool List.
From stdpp Require Import base tactics numbers option list gmap sorting.
From S2P Require Import Prelude MultiList.

(** ** A live iterator within a list *)

Section Cursor.
Context {D : Type}.
Implicit Types (l : MultiList D) (xs a b : list (nat * D)).
Abbreviation ids xs := (map fst xs).

Definition at_head b : iterator := mkIterator (head_id (ids b)) (head_id (ids (tail b))).
(** The list is [a ++ b], and the iterator is at the beginning of [b]. *)
Definition cursor l (i : nat) a b : Prop := list_ok l (a ++ b) /\ m_iterators l !! i = Some (at_head b).
Lemma cursor_live l i a b : cursor l i a b -> live l i = at_head b.
Proof. intros [_ H]. unfold live. by rewrite H. Qed.
Lemma at_head_end b : at_head b = end_ <-> b = [].
Proof. split; [|by intros ->]. by destruct b as [|[x d] b]. Qed.
Lemma at_head_ok l a b : shape l (a ++ b) -> it_ok (ids (a ++ b)) (at_head b).
Proof.
  intros HS. rewrite map_app. split; [|split]; unfold at_head; cbn [m_item m_nextItem].
  - intros x Hx. destruct b as [|[y d] b]; [done|]. injection Hx as <-. set_solver.
  - intros y Hy. destruct b as [|[z d] [|[z' d'] b]]; try done. injection Hy as <-. set_solver.
  - intros x y Hx Hy. destruct b as [|[z d] [|[z' d'] b]]; try done. injection Hx as <-. injection Hy as <-. by eexists _, _.
Qed.
Lemma cursor_begin l i xs : list_ok l xs -> cursor (link i (begin l) l) i [] xs.
Proof.
  intros HL. assert (HB : begin l = at_head xs). { pose proof HL as [HS _]. pose proof HS as (_ & HF & _). unfold begin. rewrite HF. destruct xs as [|[x d] xs]; [done|]. cbn [head_of node_next]. by rewrite (shape_lookup l [] x d xs HS). }
  split; [|cbn; rewrite lookup_insert_eq; by rewrite HB]. apply link_ok; [done|]. apply begin_ok, HL.
Qed.
Lemma cursor_next l i a x d b : cursor l i a ((x, d) :: b) -> cursor (link i (next l (live l i)) l) i (a ++ [(x, d)]) b.
Proof.
  intros HC. rewrite (cursor_live _ _ _ _ HC). destruct HC as [HL _]. assert (HE : next l (at_head ((x, d) :: b)) = at_head b).
  { destruct HL as [HS _]. unfold next, at_head. cbn [m_nextItem tail]. destruct b as [|[y e] b]; [done|]. cbn [map fst head_id node_next]. replace (a ++ (x, d) :: (y, e) :: b) with ((a ++ [(x, d)]) ++ (y, e) :: b) in HS by (by rewrite <- app_assoc). by rewrite (shape_lookup l _ y e b HS). }
  rewrite HE. split; [|cbn; by rewrite lookup_insert_eq]. rewrite <- app_assoc. cbn [app]. apply link_ok; [done|]. destruct HL as [HS _]. replace (a ++ (x, d) :: b) with ((a ++ [(x, d)]) ++ b) in HS |- * by (by rewrite <- app_assoc). by eapply at_head_ok.
Qed.
Lemma cursor_get l i a x d b : cursor l i a ((x, d) :: b) -> get l (live l i) = Some d.
Proof. intros HC. rewrite (cursor_live _ _ _ _ HC). destruct HC as [[HS _] _]. unfold get, at_head. cbn [m_item map fst head_id]. by rewrite (shape_lookup l a x d b HS). Qed.
Lemma cursor_extract l i a x d b : cursor l i a ((x, d) :: b) ->
  let '(r, l') := extractElement (live l i) l in r = Some d /\ cursor (link i (next l' (live l' i)) l') i a b.
Proof.
  intros HC. pose proof (cursor_live _ _ _ _ HC) as HV. rewrite HV. destruct HC as [HL HI]. pose proof (extract_ok (at_head ((x, d) :: b)) l a x d b HL eq_refl) as HX. pose proof (extract_shape l a b x d (at_head ((x, d) :: b)) (proj1 HL) eq_refl) as HY.
  destruct (extractElement (at_head ((x, d) :: b)) l) as [r l']. destruct HX as (-> & HL' & _), HY as (_ & HS' & HE). split; [done|]. assert (HV' : live l' i = mkIterator None (head_id (ids b))). { unfold live. rewrite HE, lookup_fmap, HI. cbn. unfold erase_iterator. by rewrite bool_decide_eq_true_2. }
  rewrite HV'. assert (HN : next l' (mkIterator None (head_id (ids b))) = at_head b). { unfold next, at_head. cbn [m_nextItem]. destruct b as [|[y e] b]; [done|]. cbn [map fst head_id node_next tail]. by rewrite (shape_lookup l' a y e b HS'). }
  rewrite HN. split; [|cbn; by rewrite lookup_insert_eq]. apply link_ok; [done|]. by eapply at_head_ok.
Qed.
Lemma cursor_insert l i a b e : cursor l i a b -> exists n, cursor (insert_at (live l i) e l).2 i (a ++ [(n, e)]) b.
Proof.
  intros HC. rewrite (cursor_live _ _ _ _ HC). destruct HC as [HL HI]. pose proof (at_head_ok l a b (proj1 HL)) as Hok. pose proof (insert_ok (at_head b) e l (a ++ b) HL Hok) as HX. destruct b as [|[x d] b].
  - unfold insert_at in *. cbn [at_head m_item m_nextItem map head_id tail] in *. pose proof (insertAtEnd_shape e l (a ++ []) (proj1 HL)) as HY. assert (HE : m_iterators (insertAtEnd e l).2 = m_iterators l) by (unfold insertAtEnd, store; by destruct (m_pLastNode l)).
    destruct (insertAtEnd e l) as [n l']. destruct HX as (a' & b' & n' & H1 & H2 & H3 & [= <-] & _). cbn [snd] in *. destruct b' as [|[y f] b']; [|done]. rewrite !app_nil_r in *. subst a'. exists n. split; [by rewrite app_nil_r|]. by rewrite HE.
  - unfold insert_at in *. cbn [at_head m_item m_nextItem map head_id tail fst] in *. pose proof (insertBefore_shape x d e l a b (proj1 HL)) as HY. destruct (insertBefore x e l) as [n l']. destruct HX as (a' & b' & n' & H1 & H2 & H3 & [= <-] & _). destruct HY as (_ & HS & HE). cbn [snd] in *. exists n. unfold cursor. rewrite <- app_assoc. cbn [app].
    split; [|rewrite HE, lookup_fmap, HI; cbn; f_equal; unfold rewrite_iterator; cbn; rewrite bool_decide_eq_false_2; [done|]].
    + split; [done|]. rewrite HE. intros j jt. rewrite lookup_fmap. destruct (m_iterators l !! j) as [kt|] eqn:EK; [|done]. intros [= <-]. pose proof (shape_split l' a n e ((x, d) :: b) HS) as HN. rewrite map_app. apply rewrite_iterator_ok; [done|]. pose proof (proj2 HL j kt EK) as Hk. by rewrite map_app in Hk.
    + pose proof (shape_split l a x d b (proj1 HL)) as HN. apply NoDup_app in HN as (_ & _ & [HN _]%NoDup_cons). destruct b as [|[y f] b]; [done|]. intros [= ->]. apply HN. constructor.
Qed.
End Cursor.

(** ** What the functions do with the values *)

Section Values.
Context {D : Type} (p : D -> D -> bool).
Implicit Types (l : MultiList D) (xs a b : list (nat * D)) (ds : list D).
Abbreviation ids xs := (map fst xs).
Abbreviation vals xs := (map snd xs).

(** The values in front of the iterator when it has advanced for [elem] *)
Fixpoint less elem ds : list D := match ds with d :: ds' => if p d elem then d :: less elem ds' else [] | [] => [] end.
Definition others elem ds : list D := drop (length (less elem ds)) ds.
Fixpoint merged ds es : list D := match es with e :: es' => less e ds ++ e :: merged (others e ds) es' | [] => ds end.
Lemma less_others elem ds : less elem ds ++ others elem ds = ds.
Proof. unfold others. induction ds as [|d ds IH]; [done|]. cbn [less]. destruct (p d elem); [|done]. cbn [app length drop]. by rewrite IH. Qed.
Lemma advance_ok fuel elem i l a b : cursor l i a b -> (length b <= fuel)%nat ->
  exists b1 b2, b = b1 ++ b2 /\ vals b1 = less elem (vals b) /\ cursor (advance fuel p elem i l) i (a ++ b1) b2.
Proof.
  revert l a b. induction fuel as [|fuel IH]; intros l a b HC Hf.
  - destruct b; [|cbn in Hf; lia]. exists [], []. by rewrite (app_nil_r a).
  - cbn [advance]. destruct b as [|[x d] b].
    + rewrite (cursor_live _ _ _ _ HC). cbn. exists [], []. by rewrite (app_nil_r a).
    + rewrite (cursor_get _ _ _ _ _ _ HC). rewrite (bool_decide_eq_false_2 (live l i = end_)) by (rewrite (cursor_live _ _ _ _ HC), at_head_end; done). cbn [negb andb map snd less]. destruct (p d elem) eqn:E.
      * destruct (IH _ _ _ (cursor_next _ _ _ _ _ _ HC) ltac:(cbn in Hf; lia)) as (b1 & b2 & -> & H1 & H2). exists ((x, d) :: b1), b2. split; [done|]. split; [cbn; by rewrite H1|]. by rewrite <- app_assoc in H2.
      * exists [], ((x, d) :: b). by rewrite (app_nil_r a).
Qed.
Lemma merge_loop_ok fuel i l a b other ys : cursor l i a b -> list_ok other ys -> (length ys <= fuel)%nat ->
  exists xs, list_ok (merge_loop fuel p i l other).1 xs /\ vals xs = vals a ++ merged (vals b) (vals ys).
Proof.
  revert l a b other ys. induction fuel as [|fuel IH]; intros l a b other ys HC HO Hf.
  - destruct ys; [|cbn in Hf; lia]. exists (a ++ b). split; [apply HC|]. by rewrite map_app.
  - cbn [merge_loop]. destruct ys as [|[y e] ys].
    + assert (HE : extractFront other = (None, other)) by (unfold extractFront, begin; destruct HO as [(_ & -> & _) _]; done). rewrite HE. exists (a ++ b). split; [apply HC|]. by rewrite map_app.
    + pose proof (extractFront_ok other y e ys HO) as HX. destruct (extractFront other) as [r other']. destruct HX as (-> & HO' & _).
      destruct (advance_ok (size (m_nodes l)) e i l a b HC) as (b1 & b2 & -> & H1 & H2). { rewrite (shape_size l _ (proj1 (proj1 HC))), length_app. lia. }
      destruct (cursor_insert _ _ _ _ e H2) as (n & H3). destruct (IH _ _ _ other' ys H3 HO' ltac:(cbn in Hf; lia)) as (xs & H4 & H5). exists xs. split; [done|]. rewrite H5, !map_app. cbn [map snd merged]. rewrite map_app in H1. rewrite <- H1, <- !app_assoc. cbn [app]. do 3 f_equal. unfold others. rewrite <- H1. by rewrite drop_app_length.
Qed.
Lemma unlink_ok i l xs : list_ok l xs -> list_ok (unlink i l) xs.
Proof. intros [HS HI]. split; [done|]. intros j jt. cbn. intros [_ Hj]%lookup_delete_Some. by eapply HI. Qed.
Lemma merge_ok l xs other ys : list_ok l xs -> list_ok other ys -> exists zs, list_ok (merge p l other).1 zs /\ vals zs = merged (vals xs) (vals ys).
Proof.
  intros HL HO. unfold merge. destruct (merge_loop_ok (size (m_nodes other)) (new_iterator l) _ [] xs other ys (cursor_begin l (new_iterator l) xs HL) HO) as (zs & H1 & H2); [by rewrite (shape_size other _ (proj1 HO))|].
  destruct (merge_loop _ _ _ _ _) as [l' other']. exists zs. split; [by apply unlink_ok|done].
Qed.

(** Every other value, from position [n] on *)
Fixpoint halves (n : nat) ds : list D * list D := match ds with d :: ds' => let '(x, y) := halves (n + 1) ds' in if Nat.odd n then (x, d :: y) else (d :: x, y) | [] => ([], []) end.
Lemma split_loop_ok fuel n i l a b tmp ys : cursor l i a b -> list_ok tmp ys -> (length b < fuel)%nat ->
  let '(l', tmp', n') := split_loop fuel n i l tmp in n' = (n + length b)%nat /\ exists xs' ys', list_ok l' xs' /\ list_ok tmp' ys' /\ vals xs' = vals a ++ (halves n (vals b)).1 /\ vals ys' = vals ys ++ (halves n (vals b)).2.
Proof.
  revert n l a b tmp ys. induction fuel as [|fuel IH]; intros n l a b tmp ys HC HT Hf; [lia|]. cbn [split_loop]. destruct b as [|[x d] b].
  - rewrite (bool_decide_eq_true_2 (live l i = end_)) by (by rewrite (cursor_live _ _ _ _ HC)). split; [cbn; lia|]. exists a, ys. cbn. rewrite !app_nil_r. split; [|done]. destruct HC as [HL _]. by rewrite app_nil_r in HL.
  - rewrite (bool_decide_eq_false_2 (live l i = end_)) by (rewrite (cursor_live _ _ _ _ HC), at_head_end; done). cbn [map snd halves length] in *. destruct (Nat.odd n).
    + pose proof (cursor_extract l i a x d b HC) as HX. destruct (extractElement (live l i) l) as [r l']. destruct HX as [-> HC']. destruct (pushBack_ok d tmp ys HT) as (m & HT'). specialize (IH (n + 1)%nat _ a b _ _ HC' HT' ltac:(lia)). destruct (split_loop _ _ _ _ _) as [[l2 tmp2] n2]. destruct IH as (-> & xs' & ys' & H1 & H2 & H3 & H4). split; [lia|].
      exists xs', ys'. destruct (halves (n + 1) (map snd b)) as [u v]. cbn [fst snd] in *. split; [done|]. split; [done|]. split; [done|]. rewrite H4, map_app, <- app_assoc. done.
    + specialize (IH (n + 1)%nat _ _ b _ _ (cursor_next _ _ _ _ _ _ HC) HT ltac:(lia)). destruct (split_loop _ _ _ _ _) as [[l2 tmp2] n2]. destruct IH as (-> & xs' & ys' & H1 & H2 & H3 & H4). split; [lia|].
      exists xs', ys'. destruct (halves (n + 1) (map snd b)) as [u v]. cbn [fst snd] in *. split; [done|]. split; [done|]. split; [|done]. rewrite H3, map_app, <- app_assoc. done.
Qed.

(** *** Order *)

Context (p_asym : forall x y, p x y = true -> p y x = false) (p_trans : forall x y z, p y x = false -> p z y = false -> p z x = false).
Definition le (x y : D) : Prop := p y x = false.
Lemma less_le e ds : Forall (fun d => le d e) (less e ds).
Proof. induction ds as [|d ds IH]; [constructor|]. cbn. destruct (p d e) eqn:E; [|constructor]. constructor; [by apply p_asym|done]. Qed.
Lemma others_le e ds : StronglySorted le ds -> Forall (le e) (others e ds).
Proof.
  unfold others. induction 1 as [|d ds HS IH HF]; [constructor|]. cbn [less]. destruct (p d e) eqn:E; [exact IH|]. cbn [length drop]. constructor; [done|]. eapply Forall_impl; [exact HF|]. intros y Hy. by eapply p_trans.
Qed.
Lemma sorted_parts ds1 ds2 : StronglySorted le (ds1 ++ ds2) <-> StronglySorted le ds1 /\ StronglySorted le ds2 /\ Forall (fun x => Forall (le x) ds2) ds1.
Proof.
  induction ds1 as [|d ds1 IH]; cbn [app]; [split; [intros H; by repeat constructor|by intros (_ & ? & _)]|]. split.
  - intros [H1 H2]%StronglySorted_inv. apply IH in H1 as (H3 & H4 & H5). apply Forall_app in H2 as [H6 H7]. split; [by constructor|]. split; [done|by constructor].
  - intros (H1 & H2 & H3). apply StronglySorted_inv in H1 as [H4 H5]. apply Forall_cons in H3 as [H6 H7]. constructor; [by apply IH|]. by apply Forall_app.
Qed.
Lemma merged_perm ds es : merged ds es ≡ₚ ds ++ es.
Proof.
  revert ds. induction es as [|e es IH]; intros ds; cbn [merged]; [by rewrite app_nil_r|]. rewrite IH. rewrite <- (less_others e ds) at 3. rewrite <- app_assoc. apply Permutation_app_head. apply Permutation_middle.
Qed.
Lemma merged_sorted ds es : StronglySorted le ds -> StronglySorted le es -> StronglySorted le (merged ds es).
Proof.
  intros HD HE. revert ds HD. induction HE as [|e es HE IH HF]; intros ds HD; [done|]. cbn [merged]. pose proof HD as HD'. rewrite <- (less_others e ds) in HD'. apply sorted_parts in HD' as (H1 & H2 & H3). pose proof (others_le e ds HD) as HO. pose proof (less_le e ds) as HL.
  assert (HA : Forall (le e) (merged (others e ds) es)) by (rewrite merged_perm; apply Forall_app; by split). apply sorted_parts. split; [done|]. split; [constructor; [by apply IH|done]|]. apply Forall_forall. intros x Hx. rewrite Forall_forall in HL. specialize (HL x Hx). constructor; [done|].
  eapply Forall_impl; [exact HA|]. intros y Hy. by eapply p_trans.
Qed.
Lemma halves_perm n ds : (halves n ds).1 ++ (halves n ds).2 ≡ₚ ds.
Proof. revert n. induction ds as [|d ds IH]; intros n; [done|]. cbn [halves]. specialize (IH (n + 1)%nat). destruct (halves (n + 1) ds) as [u v]. cbn [fst snd] in IH. destruct (Nat.odd n); cbn [fst snd]; rewrite <- ?app_comm_cons; [rewrite <- Permutation_middle|]; by apply perm_skip. Qed.
(** Neither half has everything. *)
Lemma halves_length ds : (2 < length ds)%nat -> (length (halves 0 ds).1 < length ds)%nat /\ (length (halves 0 ds).2 < length ds)%nat.
Proof.
  intros Hl. pose proof (Permutation_length (halves_perm 0 ds)) as HP. rewrite length_app in HP. destruct ds as [|a [|b ds]]; [cbn in Hl; lia..|]. cbn [halves Nat.add] in *. destruct (halves 2 ds) as [u v]. cbn in *. lia.
Qed.
Lemma halves_short ds : (length ds <= 2)%nat -> StronglySorted le (halves 0 ds).1 /\ StronglySorted le (halves 0 ds).2.
Proof. intros Hl. destruct ds as [|a [|b [|]]]; cbn in *; try lia; split; repeat constructor. Qed.
Lemma sort_ok fuel l xs : list_ok l xs -> (length xs <= fuel)%nat -> exists zs, list_ok (sort fuel p l) zs /\ vals zs ≡ₚ vals xs /\ StronglySorted le (vals zs).
Proof.
  revert l xs. induction fuel as [|fuel IH]; intros l xs HL Hf; [destruct xs; [|cbn in Hf; lia]; exists []; split; [done|]; split; [done|constructor]|]. cbn [sort].
  pose proof (split_loop_ok (S (size (m_nodes l))) 0 (new_iterator l) _ [] xs MultiList_new [] (cursor_begin l (new_iterator l) xs HL) new_ok ltac:(rewrite (shape_size l _ (proj1 HL)); lia)) as HX.
  destruct (split_loop _ _ _ _ _) as [[l1 tmp] n]. destruct HX as (-> & xs1 & ys1 & H1 & H2 & H3 & H4). cbn [map app Nat.add] in *. apply (unlink_ok (new_iterator l)) in H1.
  assert (HQ : exists xs2 ys2, list_ok (if (2 <? length xs)%nat then (sort fuel p (unlink (new_iterator l) l1), sort fuel p tmp) else (unlink (new_iterator l) l1, tmp)).1 xs2 /\ list_ok (if (2 <? length xs)%nat then (sort fuel p (unlink (new_iterator l) l1), sort fuel p tmp) else (unlink (new_iterator l) l1, tmp)).2 ys2 /\
    vals xs2 ≡ₚ vals xs1 /\ vals ys2 ≡ₚ vals ys1 /\ StronglySorted le (vals xs2) /\ StronglySorted le (vals ys2)).
  { destruct (Nat.ltb_spec 2 (length xs)) as [Hn|Hn].
    - destruct (halves_length (vals xs) ltac:(by rewrite length_map)) as [G1 G2]. rewrite <- H3, !length_map in G1. rewrite <- H4, !length_map in G2. destruct (IH _ xs1 H1 ltac:(lia)) as (xs2 & G3 & G4 & G5). destruct (IH _ ys1 H2 ltac:(lia)) as (ys2 & G6 & G7 & G8). by exists xs2, ys2.
    - exists xs1, ys1. destruct (halves_short (vals xs) ltac:(by rewrite length_map)) as [G1 G2]. rewrite <- H3 in G1. rewrite <- H4 in G2. by split_and!. }
  destruct HQ as (xs2 & ys2 & G1 & G2 & G3 & G4 & G5 & G6). destruct (if (2 <? length xs)%nat then _ else _) as [l2 tmp2]. cbn [fst snd] in *. destruct (merge_ok l2 xs2 tmp2 ys2 G1 G2) as (zs & G7 & G8). exists zs. split; [done|]. rewrite G8. split; [|by apply merged_sorted].
  rewrite merged_perm, G3, G4, H3, H4. apply halves_perm.
Qed.
End Values.

(** C25. PtrMultiList::sort sorts: for a comparison that is a strict weak order, the list is a
    list again, with the same values, and no value is less than one in front of it.  The
    recursion ends: as many levels as there are elements are enough. *)
Theorem multi_list_sorts {D} (p : D -> D -> bool) l xs :
  (forall x y, p x y = true -> p y x = false) -> (forall x y z, p y x = false -> p z y = false -> p z x = false) -> list_ok l xs ->
  let l' := sort (length xs) p l in
  exists zs, list_ok l' zs /\ visit (S (length zs)) l' (begin l') = map snd zs /\ map snd zs ≡ₚ map snd xs /\ StronglySorted (fun x y => p y x = false) (map snd zs).
Proof.
  intros H1 H2 HL. cbn zeta. destruct (sort_ok p H1 H2 (length xs) l xs HL (le_n _)) as (zs & G1 & G2 & G3). exists zs. split; [done|]. split; [by apply visit_all|]. done.
Qed.
Lemma multi_list_sorts_witness :
  exists l (xs : list (nat * nat)), list_ok l xs /\ map snd xs = [2; 1] /\ exists zs, list_ok (sort (length xs) Nat.ltb l) zs /\ map snd zs ≡ₚ [2; 1] /\ StronglySorted (fun x y => (y <? x) = false) (map snd zs).
Proof.
  destruct (pushBack_ok 2 MultiList_new [] new_ok) as (n1 & H1). destruct (pushBack_ok 1 _ _ H1) as (n2 & H2). exists (pushBackNew 1 (pushBackNew 2 MultiList_new)), [(n1, 2); (n2, 1)]. split; [done|]. split; [done|].
  destruct (multi_list_sorts Nat.ltb _ _ ltac:(intros x y; rewrite Nat.ltb_lt, Nat.ltb_ge; lia) ltac:(intros x y z; rewrite !Nat.ltb_ge; lia) H2) as (zs & G1 & _ & G2 & G3). by exists zs.
Defined.
