(* ===== verification/FileSystem.v ===== *)
(** * The in-memory file system

    src/afl/io/internalfilesystem.cpp with the base classes DirectoryEntry
    (directoryentry.cpp) and Directory (directory.cpp).  The lists of nodes and the
    contents of files are shared objects, so they live in a heap; directories and entries
    are handles to them.  A list of nodes is a PtrMultiList, that is, a sequence
    (MultiList.v). *)

From Stdlib Require Import ZArith Lia Bool String.
From stdpp Require Import base tactics numbers option list gmap.
From S2P Require Import Prelude Strings FileNames.

Local Open Scope Z_scope.
Local Open Scope afl_scope.

(** ** State *)

Inductive Content := FileNode (stream : nat) | DirectoryNode (nodes : nat).
Record Node := mkNode { name : list Z; content : Content }.
#[export] Instance Content_eq_dec : EqDecision Content.
Proof. solve_decision. Defined.
#[export] Instance Node_eq_dec : EqDecision Node.
Proof. solve_decision. Defined.
(** The data of an InternalStream, and its name *)
Record FileData := mkData { file_name : list Z; file_data : list Z }.
Record Fs := mkFs { f_lists : gmap nat (list Node); f_streams : gmap nat FileData }.
Definition m_root : nat := 0.
Definition InternalFileSystem_new : Fs := mkFs {[m_root := []]} ∅.

(** Messages, and what ends a call: a FileProblemException with the name and the message, or
    an access through a null pointer *)
Inductive Message := invalidFileName | fileNotFound | fileExists | invalidOperation | cannotAccessFiles | cannotAccessDirectories.
Inductive FsFault := FileProblem (fileName : list Z) (msg : Message) | NullPointer | OutOfFuel.
Definition F (A : Type) : Type := Fs -> Fs * outcome FsFault A.
Definition fret {A} (a : A) : F A := fun s => (s, Ok a).
Definition fail {A} (fileName : list Z) (msg : Message) : F A := fun s => (s, Throw (FileProblem fileName msg)).
Definition fbind {A B} (m : F A) (f : A -> F B) : F B := fun s => match m s with (s', Ok a) => f a s' | (s', Throw e) => (s', Throw e) end.
Notation "'let%' x ':=' m 'in' k" := (fbind m (fun x => k)) (at level 10, x pattern, m at level 100, k at level 200) : afl_scope.
(** [try { m; return true; } catch (FileProblemException&) { return false; }] *)
Definition no_throw {A} (m : F A) : F (option A) := fun s =>
  match m s with
  | (s', Ok a) => (s', Ok (Some a))
  | (s', Throw (FileProblem _ _)) => (s', Ok None)
  | (s', Throw e) => (s', Throw e)
  end.

Definition nodes_of (s : Fs) (k : nat) : list Node := default [] (f_lists s !! k).
Definition get_nodes (k : nat) : F (list Node) := fun s => (s, Ok (nodes_of s k)).
Definition set_nodes (k : nat) (l : list Node) : F unit := fun s => (mkFs (<[k := l]> (f_lists s)) (f_streams s), Ok tt).
Definition new_stream (d : FileData) : F nat := fun s => let n := fresh (dom (f_streams s)) in (mkFs (f_lists s) (<[n := d]> (f_streams s)), Ok n).
Definition new_list : F nat := fun s => let n := fresh (dom (f_lists s)) in (mkFs (<[n := []]> (f_lists s)) (f_streams s), Ok n).
(** What a user of a stream does to its data *)
Definition write_stream (n : nat) (data : list Z) : F unit := fun s => (mkFs (f_lists s) (alter (fun d => mkData (file_name d) data) n (f_streams s)), Ok tt).

(** ** Names *)

Definition prepareFileName (name : list Z) : list Z := match name with c :: r => if c =? 47 then r else name | [] => [] end.
Definition component_ok (str : list Z) : bool := negb (bool_decide (str = [])) && (match find str [47] with Some _ => false | None => true end) && negb (bool_decide (str = [46])).
Definition verifyFileNameComponent (str : list Z) : F unit := if component_ok str then fret tt else fail str invalidFileName.
Definition isDot (name : list Z) : bool := bool_decide (name = [46]).

(** ** NodeList *)

(** findIterator; the position of the node *)
Fixpoint findIterator (l : list Node) (componentName : list Z) : option nat :=
  match l with
  | n :: l' => if bool_decide (componentName = name n) then Some 0%nat else S <$> findIterator l' componentName
  | [] => None
  end.
Definition findNode (l : list Node) (componentName : list Z) : option Node := findIterator l componentName ≫= fun i => l !! i.

Inductive Dir := mkDir (d_name : list Z) (d_content : nat) (d_parent : option Dir).
Definition getDirectoryName (d : Dir) : list Z := let 'mkDir n _ _ := d in n.
Definition dir_content (d : Dir) : nat := let 'mkDir _ k _ := d in k.
Definition getParentDirectory (d : Dir) : option Dir := let 'mkDir _ _ p := d in p.

(** The directory, and the last component *)
Fixpoint findDirectory_loop (fuel : nat) (meDir : Dir) (pathName fullName : list Z) : F (Dir * list Z) :=
  match find pathName [47] with
  | None => fret (meDir, pathName)
  | Some n =>
      match fuel with
      | O => fun s => (s, Throw OutOfFuel)
      | S fuel' =>
          let componentName := take n pathName in
          let pathName := drop (n + 1) pathName in
          if negb (isDot componentName)
          then
            let% l := get_nodes (dir_content meDir) in
            match findNode l componentName with
            | Some (mkNode _ (DirectoryNode k)) =>
                findDirectory_loop fuel' (mkDir (Posix.makePathName (getDirectoryName meDir) componentName) k (Some meDir)) pathName fullName
            | _ => fail fullName fileNotFound
            end
          else findDirectory_loop fuel' meDir pathName fullName
      end
  end.
Definition findDirectory (root : nat) (pathName fullName : list Z) : F (Dir * list Z) := findDirectory_loop (length pathName) (mkDir [47] root None) pathName fullName.

(** ** Dir *)

Inductive OpenMode := OpenRead | OpenWrite | Create | CreateNew.
Inductive DirTitle := RootTitle | NamedTitle (title : list Z).
Definition Dir_getTitle (d : Dir) : DirTitle := match getParentDirectory d with None => RootTitle | Some _ => NamedTitle (Posix.getFileName (getDirectoryName d)) end.
(** Dir::open; the result stands for a child of the stream with this number *)
Definition Dir_open (d : Dir) (nm fullName : list Z) (mode : OpenMode) : F nat :=
  let% _ := verifyFileNameComponent nm in
  let% l := get_nodes (dir_content d) in
  let node := findNode l nm in
  match node with
  | Some (mkNode _ (DirectoryNode _)) => fail fullName fileExists
  | _ =>
      match mode with
      | OpenRead | OpenWrite =>
          match node with
          | Some (mkNode _ (FileNode k)) => fret k
          | _ => fail fullName fileNotFound
          end
      | Create =>
          let% k := new_stream (mkData fullName []) in
          let% _ := set_nodes (dir_content d) (match findIterator l nm with None => l ++ [mkNode nm (FileNode k)] | Some i => alter (fun n => mkNode (name n) (FileNode k)) i l end) in
          fret k
      | CreateNew =>
          match node with
          | Some _ => fail fullName fileExists
          | None =>
              let% k := new_stream (mkData fullName []) in
              let% _ := set_nodes (dir_content d) (l ++ [mkNode nm (FileNode k)]) in
              fret k
          end
      end
  end.

(** ** DirectoryEntry *)

Inductive FileType := tUnknown | tFile | tDirectory | tArchive | tRoot | tDevice | tOther.
#[export] Instance FileType_eq_dec : EqDecision FileType.
Proof. solve_decision. Defined.
Inductive FileFlag := Hidden | Link | Executable.
#[export] Instance FileFlag_eq_dec : EqDecision FileFlag.
Proof. solve_decision. Defined.
(** Flags are a set, times are a number if valid. *)
Record Info := mkInfo {
  m_availableInfo : Z; m_requestedInfo : Z; m_fileSize : Z; m_fileType : FileType; m_linkText : list Z; m_modificationTime : option Z; m_flags : list FileFlag }.
Definition InfoType : Z := 1.
Definition InfoSize : Z := 2.
Definition InfoLinkText : Z := 4.
Definition InfoModificationTime : Z := 8.
Definition InfoFlags : Z := 16.
Definition Info_new : Info := mkInfo 0 0 0 tUnknown [] None [].
Definition setFileType (t : FileType) (i : Info) : Info := mkInfo (Z.lor (m_availableInfo i) InfoType) (m_requestedInfo i) (m_fileSize i) t (m_linkText i) (m_modificationTime i) (m_flags i).
Definition setFileSize (n : Z) (i : Info) : Info := mkInfo (Z.lor (m_availableInfo i) InfoSize) (m_requestedInfo i) n (m_fileType i) (m_linkText i) (m_modificationTime i) (m_flags i).
Definition setLinkText (text : list Z) (i : Info) : Info := mkInfo (Z.lor (m_availableInfo i) InfoLinkText) (m_requestedInfo i) (m_fileSize i) (m_fileType i) text (m_modificationTime i) (m_flags i).
Definition setModificationTime (t : option Z) (i : Info) : Info := mkInfo (Z.lor (m_availableInfo i) InfoModificationTime) (m_requestedInfo i) (m_fileSize i) (m_fileType i) (m_linkText i) t (m_flags i).
Definition setFlags (flags : list FileFlag) (i : Info) : Info := mkInfo (Z.lor (m_availableInfo i) InfoFlags) (m_requestedInfo i) (m_fileSize i) (m_fileType i) (m_linkText i) (m_modificationTime i) flags.
Definition clearInfo (i : Info) : Info := mkInfo 0 0 (m_fileSize i) (m_fileType i) (m_linkText i) (m_modificationTime i) (m_flags i).
Definition available (requested : Z) (i : Info) : bool := Z.land (m_availableInfo i) requested =? requested.

(** The functions that need information, for a given updateInfo *)
Section Fetch.
Context (updateInfo : Z -> Info -> Info).
Definition fetchInfo (requested : Z) (i : Info) : bool * Info :=
  if available requested i then (true, i)
  else
    let i := if negb (Z.land (m_requestedInfo i) requested =? requested)
             then updateInfo requested (mkInfo (m_availableInfo i) (Z.lor (m_requestedInfo i) requested) (m_fileSize i) (m_fileType i) (m_linkText i) (m_modificationTime i) (m_flags i))
             else i in
    (available requested i, i).
Definition getFileType (i : Info) : FileType * Info := let '(b, i) := fetchInfo InfoType i in (if b then m_fileType i else tUnknown, i).
Definition getFileSize (i : Info) : Z * Info := let '(b, i) := fetchInfo InfoSize i in (if b then m_fileSize i else 0, i).
Definition getLinkText (i : Info) : list Z * Info := let '(b, i) := fetchInfo InfoLinkText i in (if b then m_linkText i else [], i).
Definition getModificationTime (i : Info) : option Z * Info := let '(b, i) := fetchInfo InfoModificationTime i in (if b then m_modificationTime i else None, i).
Definition getFlags (i : Info) : list FileFlag * Info := let '(b, i) := fetchInfo InfoFlags i in (if b then m_flags i else [], i).
(** copyInfo; [updateInfo] is the other entry's, the result has both entries' information *)
Definition copyInfo (requested : Z) (other i : Info) : Info * Info :=
  let other := updateInfo requested other in
  let requested := Z.land requested (m_availableInfo other) in
  let want bit := negb (Z.land requested bit =? 0) in
  let '(i, other) := if want InfoType then let '(x, other) := getFileType other in (setFileType x i, other) else (i, other) in
  let '(i, other) := if want InfoSize then let '(x, other) := getFileSize other in (setFileSize x i, other) else (i, other) in
  let '(i, other) := if want InfoLinkText then let '(x, other) := getLinkText other in (setLinkText x i, other) else (i, other) in
  let '(i, other) := if want InfoModificationTime then let '(x, other) := getModificationTime other in (setModificationTime x i, other) else (i, other) in
  let '(i, other) := if want InfoFlags then let '(x, other) := getFlags other in (setFlags x i, other) else (i, other) in
  (other, i).
End Fetch.

(** ** InternalFileSystem::Entry *)

Record Entry := mkEntry { e_info : Info; e_parent : Dir; e_name : list Z }.
Definition Entry_new (parent : Dir) (nm : list Z) : Entry := mkEntry Info_new parent nm.
Definition getPathName (e : Entry) : list Z := Posix.makePathName (getDirectoryName (e_parent e)) (e_name e).
Definition entry_list (e : Entry) : nat := dir_content (e_parent e).
Definition Entry_openFile (e : Entry) (mode : OpenMode) : F nat := Dir_open (e_parent e) (e_name e) (getPathName e) mode.
Definition Entry_openDirectory (e : Entry) : F Dir :=
  let% l := get_nodes (entry_list e) in
  match findNode l (e_name e) with
  | Some (mkNode _ (DirectoryNode k)) => fret (mkDir (getPathName e) k (Some (e_parent e)))
  | _ => fail (getPathName e) fileNotFound
  end.
Definition Entry_updateInfo (s : Fs) (e : Entry) (requested : Z) (i : Info) : Info :=
  match findNode (nodes_of s (entry_list e)) (e_name e) with
  | Some (mkNode _ (DirectoryNode _)) => setFileType tDirectory i
  | Some (mkNode _ (FileNode k)) => setFileSize (match f_streams s !! k with Some d => Z.of_nat (length (file_data d)) | None => 0 end) (setFileType tFile i)
  | None => setFileType tUnknown i
  end.
Definition Entry_getFileType (e : Entry) : F (FileType * Entry) := fun s =>
  let '(t, i) := getFileType (Entry_updateInfo s e) (e_info e) in (s, Ok (t, mkEntry i (e_parent e) (e_name e))).
Definition Entry_getFlags (e : Entry) : F (list FileFlag * Entry) := fun s =>
  let '(t, i) := getFlags (Entry_updateInfo s e) (e_info e) in (s, Ok (t, mkEntry i (e_parent e) (e_name e))).
(** The position of a node after another one was erased from the same list *)
Definition shifted (erased i : nat) : nat := if (erased <? i)%nat then (i - 1)%nat else i.
Definition doRename (e : Entry) (newName : list Z) : F unit :=
  let% _ := verifyFileNameComponent newName in
  let% l := get_nodes (entry_list e) in
  match findIterator l (e_name e) with
  | None => fail (getPathName e) fileNotFound
  | Some i =>
      if negb (bool_decide (newName = e_name e))
      then
        match content <$> l !! i with
        | Some (FileNode _) =>
            match findIterator l newName with
            | Some j =>
                match content <$> l !! j with
                | Some (FileNode _) =>
                    if (j =? i)%nat then fail (getPathName e) fileExists
                    else set_nodes (entry_list e) (alter (fun n => mkNode newName (content n)) (shifted j i) (delete j l))
                | _ => fail (getPathName e) fileExists
                end
            | None => set_nodes (entry_list e) (alter (fun n => mkNode newName (content n)) i l)
            end
        | Some (DirectoryNode _) =>
            match findNode l newName with
            | Some _ => fail (getPathName e) fileExists
            | None => set_nodes (entry_list e) (alter (fun n => mkNode newName (content n)) i l)
            end
        | None => fail (getPathName e) fileNotFound
        end
      else fret tt
  end.
Definition doErase (e : Entry) : F unit :=
  let% l := get_nodes (entry_list e) in
  match findIterator l (e_name e) with
  | None => fail (getPathName e) fileNotFound
  | Some i =>
      match content <$> l !! i with
      | Some (DirectoryNode k) =>
          let% inner := get_nodes k in
          if negb (bool_decide (inner = [])) then fail (getPathName e) fileExists
          else set_nodes (entry_list e) (delete i l)
      | Some (FileNode _) => set_nodes (entry_list e) (delete i l)
      | None => fail (getPathName e) fileNotFound
      end
  end.
Definition doCreateAsDirectory (e : Entry) : F unit :=
  let% l := get_nodes (entry_list e) in
  match findNode l (e_name e) with
  | Some _ => fail (getPathName e) fileExists
  | None =>
      let% k := new_list in
      let% l := get_nodes (entry_list e) in
      set_nodes (entry_list e) (l ++ [mkNode (e_name e) (DirectoryNode k)])
  end.
Definition doSetFlag (e : Entry) (flag : FileFlag) (value : bool) : F unit := fail (getPathName e) invalidOperation.
(** A directory of any class; only one of this file system's can be the target of a move. *)
Inductive AnyDirectory := ADir (d : Dir) | ARootDir (k : nat) | AnOtherDirectory (dirName : list Z).
Definition doMoveTo (e : Entry) (dir : AnyDirectory) (nm : list Z) : F unit :=
  match dir with
  | ADir d =>
      let% src := get_nodes (entry_list e) in
      match findIterator src (e_name e) with
      | None => fail (getPathName e) fileNotFound
      | Some i =>
          let% dest := get_nodes (dir_content d) in
          let destIt := findIterator dest nm in
          let node := default (mkNode [] (FileNode 0)) (src !! i) in
          let same := bool_decide (entry_list e = dir_content d) in
          let% erased :=
            match content node, destIt with
            | FileNode _, Some j =>
                match content <$> dest !! j with
                | Some (FileNode _) => let% _ := set_nodes (dir_content d) (delete j dest) in fret (Some j)
                | _ => fail (Posix.makePathName (getDirectoryName d) nm) fileExists
                end
            | DirectoryNode _, Some _ => fail (Posix.makePathName (getDirectoryName d) nm) fileExists
            | _, None => fret None
            end in
          match erased with
          | Some j =>
              if same && (j =? i)%nat then fun s => (s, Throw NullPointer)
              else
                let% src := get_nodes (entry_list e) in
                let% _ := set_nodes (entry_list e) (delete (if same then shifted j i else i) src) in
                let% dest := get_nodes (dir_content d) in
                set_nodes (dir_content d) (dest ++ [mkNode nm (content node)])
          | None =>
              let% _ := set_nodes (entry_list e) (delete i src) in
              let% dest := get_nodes (dir_content d) in
              set_nodes (dir_content d) (dest ++ [mkNode nm (content node)])
          end
      end
  | _ => fail (getPathName e) invalidOperation
  end.

(** *** The public functions; the information is forgotten whether or not the operation fails *)

Definition cleared (e : Entry) : Entry := mkEntry (clearInfo (e_info e)) (e_parent e) (e_name e).
Definition renameTo (e : Entry) (newName : list Z) : Entry * F unit := (cleared e, doRename (cleared e) newName).
Definition moveTo (e : Entry) (dir : AnyDirectory) (newName : list Z) : Entry * F unit := (cleared e, doMoveTo (cleared e) dir newName).
Definition erase (e : Entry) : Entry * F unit := (cleared e, doErase (cleared e)).
Definition createAsDirectory (e : Entry) : Entry * F unit := (cleared e, doCreateAsDirectory (cleared e)).
Definition setFlag (e : Entry) (flag : FileFlag) (value : bool) : Entry * F unit := (cleared e, doSetFlag (cleared e) flag value).
Definition renameToNT (e : Entry) (newName : list Z) : F (option unit) := no_throw (renameTo e newName).2.
Definition moveToNT (e : Entry) (dir : AnyDirectory) (newName : list Z) : F (option unit) := no_throw (moveTo e dir newName).2.
Definition eraseNT (e : Entry) : F (option unit) := no_throw (erase e).2.

(** ** Directory *)

Definition getDirectoryEntryByName (d : Dir) (nm : list Z) : F Entry := let% _ := verifyFileNameComponent nm in fret (Entry_new d nm).
(** The enumerator, for a directory that does not change meanwhile *)
Record Enum := mkEnum { en_parent : Dir; m_iterator : nat }.
Definition getDirectoryEntries (d : Dir) : Enum := mkEnum d 0.
Definition getNextElement (e : Enum) : F (option (Entry * Enum)) := fun s =>
  (s, Ok (match nodes_of s (dir_content (en_parent e)) !! m_iterator e with
          | Some n => Some (Entry_new (en_parent e) (name n), mkEnum (en_parent e) (m_iterator e + 1))
          | None => None
          end)).
Definition Directory_openDirectory (d : Dir) (nm : list Z) : F Dir := let% e := getDirectoryEntryByName d nm in Entry_openDirectory e.
Definition Directory_openFile (d : Dir) (nm : list Z) (mode : OpenMode) : F nat := let% e := getDirectoryEntryByName d nm in Entry_openFile e mode.
Definition Directory_openFileNT (d : Dir) (nm : list Z) (mode : OpenMode) : F (option nat) := no_throw (Directory_openFile d nm mode).
Definition Directory_erase (d : Dir) (nm : list Z) : F unit := let% e := getDirectoryEntryByName d nm in (erase e).2.
Definition Directory_eraseNT (d : Dir) (nm : list Z) : F (option unit) := no_throw (Directory_erase d nm).
Fixpoint read_entries (fuel : nat) (e : Enum) : F (list Entry) :=
  match fuel with
  | O => fun s => (s, Throw OutOfFuel)
  | S fuel' =>
      let% r := getNextElement e in
      match r with
      | Some (entry, e) => let% l := read_entries fuel' e in fret (entry :: l)
      | None => fret []
      end
  end.
(** The second loop of eraseContentRecursively *)
Fixpoint erase_entries (erase_directory : Dir -> F unit) (entries : list Entry) : F unit :=
  match entries with
  | [] => fret tt
  | e :: entries' =>
      let% (t, e) := Entry_getFileType e in
      let% _ :=
        (if bool_decide (t = tDirectory)
         then
           let% (flags, e) := Entry_getFlags e in
           if negb (bool_decide (Link ∈ flags)) then let% sub := Entry_openDirectory e in erase_directory sub else fret tt
         else fret tt) in
      let% _ := (erase e).2 in
      erase_entries erase_directory entries'
  end.
(** Fuel for the recursion is more than the depth of the directory; for the loop, the number of entries. *)
Fixpoint eraseContentRecursively (fuel : nat) (d : Dir) : F unit :=
  match fuel with
  | O => fun s => (s, Throw OutOfFuel)
  | S fuel' =>
      let% l := get_nodes (dir_content d) in
      let% entries := read_entries (S (length l)) (getDirectoryEntries d) in
      erase_entries (eraseContentRecursively fuel') entries
  end.
(** moveFileByCopying *)
Definition moveFileByCopying (e : Entry) (d : Dir) (newName : list Z) : F unit :=
  let% (t, e) := Entry_getFileType e in
  if negb (bool_decide (t = tFile)) && negb (bool_decide (t = tArchive)) then fail (getPathName e) invalidOperation
  else fun s =>
    let '(e, m) := moveTo e (ADir d) newName in
    match m s with
    | (s, Throw (FileProblem _ _)) =>
        (let% inp := Entry_openFile e OpenRead in
         let% out := Directory_openFile d newName Create in
         let% data := (fun s => (s, Ok (match f_streams s !! inp with Some x => file_data x | None => [] end))) in
         let% _ := write_stream out data in
         (erase e).2) s
    | r => r
    end.

(** *** The directory that contains the root as a link *)

Record RootEntry := mkRootEntry { re_info : Info; re_content : nat }.
Definition RootDir_getDirectoryEntryByName (k : nat) (nm : list Z) : F RootEntry := fail nm cannotAccessFiles.
Record RootEnum := mkRootEnum { rn_content : nat; m_did : bool }.
Definition RootDir_getDirectoryEntries (k : nat) : RootEnum := mkRootEnum k false.
Definition RootEnum_getNextElement (e : RootEnum) : option (RootEntry * RootEnum) := if m_did e then None else Some (mkRootEntry Info_new (rn_content e), mkRootEnum (rn_content e) true).
Definition RootEntry_getPathName (e : RootEntry) : list Z := [47].
Definition RootEntry_openDirectory (e : RootEntry) : F Dir := fret (mkDir [47] (re_content e) None).
Definition RootEntry_updateInfo (e : RootEntry) (requested : Z) (i : Info) : Info := setLinkText [47] (setFlags [Link] (setFileType tDirectory i)).
(** The title of the directory, which is in the messages, is a constant text. *)
Definition RootEntry_openFile (title : list Z) (e : RootEntry) (mode : OpenMode) : F nat := fail title cannotAccessFiles.
Definition RootEntry_doRename (title : list Z) (e : RootEntry) (newName : list Z) : F unit := fail title cannotAccessFiles.
Definition RootEntry_doErase (title : list Z) (e : RootEntry) : F unit := fail title cannotAccessFiles.
Definition RootEntry_doCreateAsDirectory (title : list Z) (e : RootEntry) : F unit := fail title cannotAccessDirectories.
Definition RootEntry_doSetFlag (title : list Z) (e : RootEntry) (flag : FileFlag) (value : bool) : F unit := fail title cannotAccessFiles.
Definition RootEntry_doMoveTo (title : list Z) (e : RootEntry) (dir : AnyDirectory) (nm : list Z) : F unit := fail title cannotAccessFiles.

(** ** InternalFileSystem *)

Definition createDirectory (dirName : list Z) : F unit :=
  let nm := prepareFileName dirName in
  let% (dir, nm) := findDirectory m_root nm dirName in
  let% _ := verifyFileNameComponent nm in
  (createAsDirectory (Entry_new dir nm)).2.
Definition openFile (fileName : list Z) (mode : OpenMode) : F nat :=
  let nm := prepareFileName fileName in
  let% (dir, nm) := findDirectory m_root nm fileName in
  Dir_open dir nm fileName mode.
Definition openFileNT (fileName : list Z) (mode : OpenMode) : F (option nat) := no_throw (openFile fileName mode).
Definition openDirectory (dirName : list Z) : F Dir :=
  let nm := prepareFileName dirName in
  let% (dir, nm) := findDirectory m_root nm dirName in
  if negb (bool_decide (nm = [])) && negb (isDot nm)
  then
    let% l := get_nodes (dir_content dir) in
    match findNode l nm with
    | Some (mkNode _ (DirectoryNode k)) => fret (mkDir (Posix.makePathName (getDirectoryName dir) nm) k (Some dir))
    | _ => fail dirName fileNotFound
    end
  else fret dir.
Definition openRootDirectory : AnyDirectory := ARootDir m_root.
Definition getWorkingDirectoryName : list Z := [47].
Definition getAbsolutePathName (nm : list Z) : list Z := Posix.getCanonicalPathName (Posix.makePathName getWorkingDirectoryName nm).

Definition run {A} (m : F A) (s : Fs) : Fs := (m s).1.
Definition fs_ex : Fs := run (let% _ := createDirectory (lit "a") in let% _ := createDirectory (lit "/a/b") in let% k := openFile (lit "a/b/f") Create in write_stream k [1; 2]) InternalFileSystem_new.
Example fs_ex1 : (openFile (lit "a/./b/f") OpenRead fs_ex).2 = Ok 0%nat /\ (openFile (lit "a/x") OpenRead fs_ex).2 = Throw (FileProblem (lit "a/x") fileNotFound) /\
  getDirectoryName <$> (match (openDirectory (lit "/a/b/") fs_ex).2 with Ok d => Some d | _ => None end) = Some (lit "/a/b").
Proof. by vm_compute. Qed.
Example fs_ex2 : (eraseContentRecursively 3 (mkDir [47] 0 None) fs_ex).2 = Ok tt /\ nodes_of (run (eraseContentRecursively 3 (mkDir [47] 0 None)) fs_ex) 0 = [].
Proof. by vm_compute. Qed.
(** A file that is moved to its own name is erased first, and there is nothing left to move. *)
Lemma move_to_itself_fails : let e := Entry_new (mkDir (lit "/a/b") 2 (Some (mkDir (lit "/a") 1 None))) (lit "f") in
  (doMoveTo e (ADir (e_parent e)) (lit "f") fs_ex).2 = Throw NullPointer /\ (openFile (lit "a/b/f") OpenRead (run (doMoveTo e (ADir (e_parent e)) (lit "f")) fs_ex)).2 = Throw (FileProblem (lit "a/b/f") fileNotFound).
Proof. by vm_compute. Qed.
(** A file can be moved to a name that is refused everywhere else. *)
Lemma move_to_bad_name : let e := Entry_new (mkDir (lit "/a/b") 2 (Some (mkDir (lit "/a") 1 None))) (lit "f") in
  (doMoveTo e (ADir (mkDir [47] 0 None)) (lit "x/y") fs_ex).2 = Ok tt /\ (doRename e (lit "x/y") fs_ex).2 = Throw (FileProblem (lit "x/y") invalidFileName).
Proof. by vm_compute. Qed.
