(* ===== verification/FileSystemProps.v ===== *)
(** * The in-memory file system: the heap stays a tree, and what each operation does to paths *)

From Stdlib Require Import ZArith Lia Bool String.
From stdpp Require Import base tactics numbers option list gmap.
From S2P Require Import Prelude Strings FileNames FileSystem.

Local Open Scope Z_scope.
Local Open Scope afl_scope.

(** ** Lists of nodes *)

Definition distinct (l : list Node) : Prop := NoDup (map name l).
Lemma findIterator_some l nm i : findIterator l nm = Some i -> exists n, l !! i = Some n /\ name n = nm.
Proof.
  revert i. induction l as [|n l IH]; intros i; cbn [findIterator]; [done|]. case_bool_decide as E; [intros [= <-]; by exists n|]. destruct (findIterator l nm) as [j|]; [|done]. intros [= <-]. by apply IH.
Qed.
Lemma findIterator_none l nm : findIterator l nm = None <-> nm ∉ map name l.
Proof.
  induction l as [|n l IH]; cbn [findIterator map]; [split; [intros _; apply not_elem_of_nil|done]|]. rewrite not_elem_of_cons, <- IH. case_bool_decide as E; [split; [done|]; by intros [? _]|]. destruct (findIterator l nm); cbn; split; try done. by intros [_ ?].
Qed.
Definition find_content (l : list Node) (nm : list Z) : option Content := content <$> findNode l nm.
Lemma findNode_iter l nm n : findNode l nm = Some n <-> exists i, findIterator l nm = Some i /\ l !! i = Some n.
Proof. unfold findNode. rewrite bind_Some. naive_solver. Qed.
Lemma findNode_elem l nm n : distinct l -> findNode l nm = Some n <-> n ∈ l /\ name n = nm.
Proof.
  intros HD. rewrite findNode_iter. split.
  - intros (i & H1 & H2). apply findIterator_some in H1 as (n' & H1 & H3). rewrite H2 in H1. injection H1 as <-. split; [by eapply list_elem_of_lookup_2|done].
  - intros [Hn <-]. destruct (findIterator l (name n)) as [i|] eqn:E; [|apply findIterator_none in E; exfalso; apply E; by apply list_elem_of_fmap_2]. exists i. split; [done|]. apply findIterator_some in E as (n' & H1 & H2). apply list_elem_of_lookup_1 in Hn as (j & Hj).
    assert (i = j) as ->; [|done]. unfold distinct in HD. eapply NoDup_lookup; [exact HD|..]; rewrite list_lookup_fmap; [by rewrite H1; cbn; rewrite H2|by rewrite Hj].
Qed.
Lemma find_content_some l nm c : distinct l -> find_content l nm = Some c <-> mkNode nm c ∈ l.
Proof.
  intros HD. unfold find_content. rewrite fmap_Some. split.
  - intros (n & [Hn <-]%findNode_elem & ->); [by destruct n|done].
  - intros Hn. exists (mkNode nm c). split; [|done]. by apply findNode_elem.
Qed.
Lemma find_content_none l nm : find_content l nm = None <-> nm ∉ map name l.
Proof. unfold find_content. rewrite fmap_None, <- findIterator_none. unfold findNode. destruct (findIterator l nm) as [i|] eqn:E; [|done]. apply findIterator_some in E as (n & H & _). cbn. by rewrite H. Qed.
Lemma find_content_perm l l' nm : distinct l -> l' ≡ₚ l -> find_content l' nm = find_content l nm.
Proof.
  intros HD HP. assert (HD' : distinct l') by (unfold distinct; by rewrite HP). destruct (find_content l nm) as [c|] eqn:E; [apply find_content_some in E; [|done]; apply find_content_some; [done|by rewrite HP]|]. apply find_content_none in E. apply find_content_none. by rewrite HP.
Qed.
Lemma find_content_cons n l nm : find_content (n :: l) nm = if bool_decide (nm = name n) then Some (content n) else find_content l nm.
Proof. unfold find_content, findNode. cbn [findIterator]. case_bool_decide; [done|]. by destruct (findIterator l nm). Qed.
(** The node that was found, and the others *)
Lemma lookup_perm (l : list Node) i n : l !! i = Some n -> l ≡ₚ n :: delete i l.
Proof. apply delete_Permutation. Qed.
Lemma alter_perm (f : Node -> Node) l i n : l !! i = Some n -> alter f i l ≡ₚ f n :: delete i l.
Proof.
  revert i. induction l as [|x l IH]; intros i; [done|]. destruct i as [|i]; cbn; [by intros [= ->]|]. intros Hn. change (alter f (S i) (x :: l)) with (x :: alter f i l). change (delete (S i) (x :: l)) with (x :: delete i l). rewrite (IH i Hn). by apply Permutation_swap.
Qed.

(** ** The heap *)

Definition entry (s : Fs) (k : nat) (nm : list Z) : option Content := find_content (nodes_of s k) nm.
Definition exists_in (s : Fs) (c : Content) : Prop := match c with FileNode f => f ∈ dom (f_streams s) | DirectoryNode d => d ∈ dom (f_lists s) /\ d <> m_root end.
Record fs_ok (s : Fs) : Prop := {
  ok_root : m_root ∈ dom (f_lists s);
  ok_distinct : forall k, distinct (nodes_of s k);
  ok_names : forall k nm c, entry s k nm = Some c -> component_ok nm = true;
  ok_exists : forall k nm c, entry s k nm = Some c -> exists_in s c;
  ok_unique : forall k nm k' nm' c, entry s k nm = Some c -> entry s k' nm' = Some c -> k = k' /\ nm = nm' }.
Definition upd (k : nat) (l : list Node) (s : Fs) : Fs := mkFs (<[k := l]> (f_lists s)) (f_streams s).
Lemma nodes_upd k l s k' : nodes_of (upd k l s) k' = if decide (k' = k) then l else nodes_of s k'.
Proof. unfold nodes_of, upd. cbn. destruct (decide (k' = k)) as [->|]; [by rewrite lookup_insert_eq|by rewrite lookup_insert_ne]. Qed.
Lemma entry_upd k l s k' nm : entry (upd k l s) k' nm = if decide (k' = k) then find_content l nm else entry s k' nm.
Proof. unfold entry. rewrite nodes_upd. by destruct (decide (k' = k)). Qed.
Lemma exists_upd k l s c : exists_in s c -> exists_in (upd k l s) c.
Proof. destruct c; [done|]. cbn. rewrite dom_insert. set_solver. Qed.

(** One entry of a directory changes *)
Definition entry_changed (s s' : Fs) (k : nat) (nm : list Z) (v : option Content) : Prop :=
  forall k' nm', entry s' k' nm' = if decide (k' = k /\ nm' = nm) then v else entry s k' nm'.
Lemma upd_remove s k n r l' : fs_ok s -> nodes_of s k ≡ₚ n :: r -> l' ≡ₚ r -> fs_ok (upd k l' s) /\ entry_changed s (upd k l' s) k (name n) None.
Proof.
  intros HS HP HP'. assert (HD : distinct (n :: r)) by (unfold distinct; rewrite <- HP; apply HS). assert (HD' : distinct l') by (unfold distinct; rewrite HP'; by apply NoDup_cons in HD as [_ ?]).
  assert (HE : entry_changed s (upd k l' s) k (name n) None).
  { intros k' nm'. rewrite entry_upd. destruct (decide (k' = k)) as [->|Hk]; [|rewrite decide_False by tauto; done]. rewrite (find_content_perm r l') by (done || by apply NoDup_cons in HD as [_ ?]). destruct (decide (k = k /\ nm' = name n)) as [[_ ->]|Hn]; [apply find_content_none; by apply NoDup_cons in HD as [? _]|].
    unfold entry. rewrite (find_content_perm (n :: r) (nodes_of s k)) by done. rewrite find_content_cons, bool_decide_eq_false_2 by (intros ->; tauto). done. }
  assert (HO : forall k' nm' c, entry (upd k l' s) k' nm' = Some c -> entry s k' nm' = Some c) by (intros k' nm' c; rewrite HE; by destruct (decide _)).
  split; [|done]. split.
  - cbn. rewrite dom_insert. pose proof (ok_root s HS). set_solver.
  - intros k'. rewrite nodes_upd. destruct (decide (k' = k)); [done|apply HS].
  - intros k' nm' c Hc. eapply ok_names; [done|by apply HO].
  - intros k' nm' c Hc. apply exists_upd. eapply ok_exists; [done|by apply HO].
  - intros k1 n1 k2 n2 c H1 H2. eapply ok_unique; [done|by apply HO|by apply HO].
Qed.
Lemma upd_add s k n l' : fs_ok s -> l' ≡ₚ n :: nodes_of s k -> entry s k (name n) = None -> component_ok (name n) = true -> exists_in s (content n) -> (forall k' nm', entry s k' nm' <> Some (content n)) ->
  fs_ok (upd k l' s) /\ entry_changed s (upd k l' s) k (name n) (Some (content n)).
Proof.
  intros HS HP HN HC HX HU. assert (HD : distinct (n :: nodes_of s k)) by (apply NoDup_cons; split; [by apply find_content_none|apply HS]). assert (HD' : distinct l') by (unfold distinct; by rewrite HP).
  assert (HE : entry_changed s (upd k l' s) k (name n) (Some (content n))).
  { intros k' nm'. rewrite entry_upd. destruct (decide (k' = k)) as [->|Hk]; [|rewrite decide_False by tauto; done]. rewrite (find_content_perm (n :: nodes_of s k) l') by done. rewrite find_content_cons. destruct (decide (k = k /\ nm' = name n)) as [[_ ->]|Hn]; [by rewrite bool_decide_eq_true_2|]. by rewrite bool_decide_eq_false_2 by (intros ->; tauto). }
  split; [|done]. split.
  - cbn. rewrite dom_insert. pose proof (ok_root s HS). set_solver.
  - intros k'. rewrite nodes_upd. destruct (decide (k' = k)); [done|apply HS].
  - intros k' nm' c. rewrite HE. destruct (decide _) as [[_ ->]|]; [done|apply ok_names, HS].
  - intros k' nm' c. rewrite HE. destruct (decide _) as [[_ ->]|]; [intros [= <-]; by apply exists_upd|]. intros Hc. apply exists_upd. by eapply ok_exists.
  - intros k1 n1 k2 n2 c. rewrite !HE. destruct (decide _) as [[-> ->]|], (decide _) as [[-> ->]|]; [done|intros [= <-] H; by apply HU in H|intros H [= <-]; by apply HU in H|by apply ok_unique].
Qed.
Lemma upd_upd k l l' s : upd k l (upd k l' s) = upd k l s.
Proof. unfold upd. cbn. by rewrite insert_insert_eq. Qed.
(** Replacing a node by one with another name or content *)
Lemma upd_replace s k n m r l' : fs_ok s -> nodes_of s k ≡ₚ n :: r -> l' ≡ₚ m :: r -> (name m = name n \/ entry s k (name m) = None) -> component_ok (name m) = true -> exists_in s (content m) -> (content m = content n \/ forall k' nm', entry s k' nm' <> Some (content m)) ->
  fs_ok (upd k l' s) /\ forall k' nm', entry (upd k l' s) k' nm' = if decide (k' = k /\ nm' = name m) then Some (content m) else if decide (k' = k /\ nm' = name n) then None else entry s k' nm'.
Proof.
  intros HS HP HP' HN HC HX HU. destruct (upd_remove s k n r r HS HP (Permutation_refl _)) as [H1 H2]. assert (HL : distinct (n :: r)) by (unfold distinct; rewrite <- HP; apply HS).
  assert (HE : entry s k (name n) = Some (content n)) by (unfold entry; rewrite (find_content_perm (n :: r)) by done; by rewrite find_content_cons, bool_decide_eq_true_2).
  assert (HR : nodes_of (upd k r s) k = r) by (rewrite nodes_upd; by rewrite decide_True).
  destruct (upd_add (upd k r s) k m l' H1) as [H3 H4]; [by rewrite HR| |done|by apply exists_upd| |].
  - rewrite H2. destruct (decide _) as [|Hd]; [done|]. destruct HN as [HN|HN]; [rewrite HN in Hd; tauto|done].
  - intros k' nm'. rewrite H2. destruct (decide _) as [|Hd]; [done|]. destruct HU as [-> |HU]; [|apply HU]. intros HY. destruct (ok_unique s HS _ _ _ _ _ HY HE). tauto.
  - rewrite upd_upd in H3, H4. split; [done|]. intros k' nm'. rewrite H4. destruct (decide (k' = k /\ nm' = name m)); [done|]. apply H2.
Qed.
Lemma new_stream_ok d s : fs_ok s -> let '(s', r) := new_stream d s in exists f, r = Ok f /\ fs_ok s' /\ (f ∉ dom (f_streams s)) /\ f_streams s' = <[f := d]> (f_streams s) /\ f_lists s' = f_lists s /\ (forall k nm, entry s k nm <> Some (FileNode f)).
Proof.
  intros HS. cbn. set (f := fresh (dom (f_streams s))). assert (Hf : f ∉ dom (f_streams s)) by apply is_fresh. exists f. assert (HE : forall k nm, entry (mkFs (f_lists s) (<[f:=d]> (f_streams s))) k nm = entry s k nm) by done. split; [done|]. split; [|split; [done|]; split; [done|]; split; [done|]; intros k nm H; apply Hf; by apply (ok_exists s HS) in H].
  destruct HS as [H1 H2 H3 H4 H5]. split; [done|done|exact H3| |exact H5]. intros k nm c Hc. specialize (H4 k nm c Hc). destruct c; [cbn in *; rewrite dom_insert; set_solver|done].
Qed.
Lemma new_list_ok s : fs_ok s -> let '(s', r) := new_list s in exists k, r = Ok k /\ fs_ok s' /\ f_streams s' = f_streams s /\ (k ∉ dom (f_lists s)) /\ exists_in s' (DirectoryNode k) /\ (forall k' nm, entry s' k' nm = entry s k' nm) /\ (forall nm, entry s k nm = None) /\ (forall k' nm, entry s k' nm <> Some (DirectoryNode k)).
Proof.
  intros HS. cbn. set (k := fresh (dom (f_lists s))). assert (Hk : k ∉ dom (f_lists s)) by apply is_fresh. exists k. assert (HN : nodes_of s k = []) by (unfold nodes_of; by apply not_elem_of_dom in Hk as ->).
  change (mkFs (<[k:=[]]> (f_lists s)) (f_streams s)) with (upd k [] s). assert (HE : forall k' nm, entry (upd k [] s) k' nm = entry s k' nm) by (intros k' nm; rewrite entry_upd; destruct (decide (k' = k)) as [->|]; [unfold entry; by rewrite HN|done]). pose proof (ok_root s HS) as HR.
  split; [done|]. split; [|split; [done|]; split; [done|]; split; [split; [cbn; set_solver|intros ->; done]|]; split; [done|]; split; [intros nm; unfold entry; by rewrite HN|]; intros k' nm H; apply Hk; by apply (ok_exists s HS) in H as [? _]].
  destruct HS as [H1 H2 H3 H4 H5]. split.
  - cbn. set_solver.
  - intros k'. rewrite nodes_upd. destruct (decide (k' = k)); [constructor|done].
  - intros k' nm c. rewrite HE. apply H3.
  - intros k' nm c. rewrite HE. intros Hc. apply exists_upd. by eapply H4.
  - intros k1 n1 k2 n2 c. rewrite !HE. apply H5.
Qed.

(** ** The operations on a directory *)

Lemma found s k nm c : fs_ok s -> entry s k nm = Some c -> exists i, findIterator (nodes_of s k) nm = Some i /\ nodes_of s k !! i = Some (mkNode nm c).
Proof.
  intros HS HE. unfold entry, find_content in HE. apply fmap_Some in HE as (n & Hn & ->). apply findNode_iter in Hn as (i & H1 & H2). exists i. split; [done|]. apply findIterator_some in H1 as (n' & H1 & <-). rewrite H2 in H1. injection H1 as <-. by destruct n.
Qed.
Lemma found_node s k nm c : fs_ok s -> entry s k nm = Some c -> findNode (nodes_of s k) nm = Some (mkNode nm c).
Proof. intros HS HE. destruct (found s k nm c HS HE) as (i & H1 & H2). unfold findNode. rewrite H1. done. Qed.
Lemma not_found s k nm : entry s k nm = None -> findIterator (nodes_of s k) nm = None /\ findNode (nodes_of s k) nm = None.
Proof. intros HE%find_content_none%findIterator_none. split; [done|]. unfold findNode. by rewrite HE. Qed.

(** A new, empty file *)
Definition created (s s' : Fs) (k : nat) (nm full : list Z) (f : nat) : Prop :=
  fs_ok s' /\ (f ∉ dom (f_streams s)) /\ f_streams s' = <[f := mkData full []]> (f_streams s) /\ entry_changed s s' k nm (Some (FileNode f)).
Definition throws_at {A} (r : Fs * outcome FsFault A) (s : Fs) (nm : list Z) (msg : Message) : Prop := r = (s, Throw (FileProblem nm msg)).
Lemma Dir_open_spec s d nm full mode : fs_ok s -> let r := Dir_open d nm full mode s in
  if component_ok nm then
    match entry s (dir_content d) nm, mode with
    | Some (DirectoryNode _), _ => throws_at r s full fileExists
    | Some (FileNode f), (OpenRead | OpenWrite) => r = (s, Ok f)
    | Some (FileNode _), CreateNew => throws_at r s full fileExists
    | None, (OpenRead | OpenWrite) => throws_at r s full fileNotFound
    | _, _ => exists f s', r = (s', Ok f) /\ created s s' (dir_content d) nm full f
    end
  else throws_at r s nm invalidFileName.
Proof.
  intros HS. cbn zeta. unfold Dir_open, verifyFileNameComponent, throws_at. destruct (component_ok nm) eqn:EC; [|done]. unfold fbind, fret, get_nodes. set (k := dir_content d). destruct (entry s k nm) as [[f|d']|] eqn:EE.
  - destruct (found s k nm _ HS EE) as (i & H1 & H2). rewrite (found_node s k nm _ HS EE). destruct mode; try done. cbn match. pose proof (new_stream_ok (mkData full []) s HS) as HX. destruct (new_stream (mkData full []) s) as [s1 r1]. destruct HX as (f' & -> & HS1 & HF & HD & HL & HU).
    cbn match. rewrite H1. unfold set_nodes, fret. eexists f', _. split; [done|]. fold (upd k (alter (fun n => mkNode (name n) (FileNode f')) i (nodes_of s k)) s1). assert (HN : nodes_of s1 k = nodes_of s k) by (unfold nodes_of; by rewrite HL). assert (HEE : forall k' nm', entry s1 k' nm' = entry s k' nm') by (intros; unfold entry, nodes_of; by rewrite HL).
    destruct (upd_replace s1 k (mkNode nm (FileNode f)) (mkNode nm (FileNode f')) (delete i (nodes_of s k)) (alter (fun n => mkNode (name n) (FileNode f')) i (nodes_of s k)) HS1) as [G1 G2]; [rewrite HN; by apply lookup_perm|exact (alter_perm (fun n => mkNode (name n) (FileNode f')) _ _ _ H2)|by left|done|cbn; rewrite HD; set_solver|right; intros; rewrite HEE; apply HU|].
    split; [done|]. split; [done|]. split; [done|]. intros k' nm'. rewrite G2. cbn [name content]. destruct (decide (k' = k /\ nm' = nm)); [done|]. apply HEE.
  - rewrite (found_node s k nm _ HS EE). done.
  - destruct (not_found s k nm EE) as [H1 H2]. rewrite H2. assert (HCr : exists f s', (let% k0 := new_stream (mkData full []) in let% _ := set_nodes k (nodes_of s k ++ [mkNode nm (FileNode k0)]) in fret k0) s = (s', Ok f) /\ created s s' k nm full f).
    { unfold fbind. pose proof (new_stream_ok (mkData full []) s HS) as HX. destruct (new_stream (mkData full []) s) as [s1 r1]. destruct HX as (f' & -> & HS1 & HF & HD & HL & HU). cbn match. unfold set_nodes, fret. eexists f', _. split; [done|]. fold (upd k (nodes_of s k ++ [mkNode nm (FileNode f')]) s1).
      assert (HN : nodes_of s1 k = nodes_of s k) by (unfold nodes_of; by rewrite HL). assert (HEE : forall k' nm', entry s1 k' nm' = entry s k' nm') by (intros; unfold entry, nodes_of; by rewrite HL).
      destruct (upd_add s1 k (mkNode nm (FileNode f')) (nodes_of s k ++ [mkNode nm (FileNode f')]) HS1) as [G1 G2]; [rewrite HN; by rewrite Permutation_app_comm|by rewrite HEE|done|cbn; rewrite HD; set_solver|intros; rewrite HEE; apply HU|].
      split; [done|]. split; [done|]. split; [done|]. intros k' nm'. rewrite G2. cbn [name content]. destruct (decide (k' = k /\ nm' = nm)); [done|]. apply HEE. }
    destruct mode; try done. cbn match. rewrite H1. exact HCr.
Qed.

Definition removed (s s' : Fs) (k : nat) (nm : list Z) : Prop := fs_ok s' /\ f_streams s' = f_streams s /\ entry_changed s s' k nm None.
Lemma doErase_spec s e : fs_ok s -> let r := doErase e s in
  match entry s (entry_list e) (e_name e) with
  | None => throws_at r s (getPathName e) fileNotFound
  | Some (DirectoryNode k) => if bool_decide (nodes_of s k = []) then exists s', r = (s', Ok tt) /\ removed s s' (entry_list e) (e_name e) else throws_at r s (getPathName e) fileExists
  | Some (FileNode _) => exists s', r = (s', Ok tt) /\ removed s s' (entry_list e) (e_name e)
  end.
Proof.
  intros HS. cbn zeta. unfold doErase, fbind, get_nodes, throws_at. set (k := entry_list e). set (nm := e_name e). destruct (entry s k nm) as [c|] eqn:EE; [|destruct (not_found s k nm EE) as [-> _]; done].
  destruct (found s k nm _ HS EE) as (i & -> & H2). rewrite H2. cbn [fmap option_fmap option_map content]. assert (HR : exists s', set_nodes k (delete i (nodes_of s k)) s = (s', Ok tt) /\ removed s s' k nm).
  { eexists. split; [done|]. destruct (upd_remove s k (mkNode nm c) (delete i (nodes_of s k)) (delete i (nodes_of s k)) HS) as [G1 G2]; [by apply lookup_perm|done|]. by split. }
  destruct c as [f|k']; [done|]. case_bool_decide; [exact HR|done].
Qed.
(** A new, empty directory *)
Definition made (s s' : Fs) (k : nat) (nm : list Z) : Prop :=
  fs_ok s' /\ f_streams s' = f_streams s /\ exists k', entry_changed s s' k nm (Some (DirectoryNode k')) /\ (k' ∉ dom (f_lists s)) /\ (k' <> k -> forall nm', entry s' k' nm' = None).
Lemma doCreateAsDirectory_spec s e : fs_ok s -> component_ok (e_name e) = true -> let r := doCreateAsDirectory e s in
  match entry s (entry_list e) (e_name e) with
  | Some _ => throws_at r s (getPathName e) fileExists
  | None => exists s', r = (s', Ok tt) /\ made s s' (entry_list e) (e_name e)
  end.
Proof.
  intros HS HC. cbn zeta. unfold doCreateAsDirectory, fbind, get_nodes, throws_at. set (k := entry_list e) in *. set (nm := e_name e) in *. destruct (entry s k nm) as [c|] eqn:EE; [by rewrite (found_node s k nm c HS EE)|]. destruct (not_found s k nm EE) as [_ ->]. cbn match.
  pose proof (new_list_ok s HS) as HX. destruct (new_list s) as [s1 r1]. destruct HX as (k' & -> & HS1 & HF & Hk & HI & HE & HN & HU). cbn match. eexists. split; [done|]. fold (upd k (nodes_of s1 k ++ [mkNode nm (DirectoryNode k')]) s1).
  destruct (upd_add s1 k (mkNode nm (DirectoryNode k')) (nodes_of s1 k ++ [mkNode nm (DirectoryNode k')]) HS1) as [G1 G2]; [by rewrite Permutation_app_comm|by rewrite HE|done|done|intros; rewrite HE; apply HU|].
  cbn [name content] in *. split; [done|]. split; [done|]. exists k'. split; [|split; [done|]].
  - intros k2 n2. rewrite G2, HE. done.
  - intros Hne nm'. rewrite G2, decide_False by tauto. by rewrite HE.
Qed.
(** A node is at another place *)
Definition relocated (s s' : Fs) (k : nat) (nm : list Z) (k2 : nat) (nm2 : list Z) (c : Content) : Prop :=
  fs_ok s' /\ f_streams s' = f_streams s /\ forall k' nm', entry s' k' nm' = if decide (k' = k2 /\ nm' = nm2) then Some c else if decide (k' = k /\ nm' = nm) then None else entry s k' nm'.
Lemma delete_shifted (l : list Node) i j n : l !! i = Some n -> i <> j -> delete j l !! shifted j i = Some n.
Proof. intros Hn Hij. unfold shifted. destruct (Nat.ltb_spec j i); [rewrite list_lookup_delete_ge by lia; by replace (S (i - 1)) with i by lia|by rewrite list_lookup_delete_lt by lia]. Qed.
Definition may_replace (c : Content) (target : option Content) : bool := match c, target with _, None => true | FileNode _, Some (FileNode _) => true | _, _ => false end.
Lemma doRename_spec s e new : fs_ok s -> let r := doRename e new s in
  if component_ok new then
    match entry s (entry_list e) (e_name e) with
    | None => throws_at r s (getPathName e) fileNotFound
    | Some c =>
        if bool_decide (new = e_name e) then r = (s, Ok tt)
        else if may_replace c (entry s (entry_list e) new) then exists s', r = (s', Ok tt) /\ relocated s s' (entry_list e) (e_name e) (entry_list e) new c
        else throws_at r s (getPathName e) fileExists
    end
  else throws_at r s new invalidFileName.
Proof.
  intros HS. cbn zeta. unfold doRename, verifyFileNameComponent, throws_at. destruct (component_ok new) eqn:EC; [|done]. unfold fbind, fret, get_nodes. set (k := entry_list e). set (nm := e_name e). destruct (entry s k nm) as [c|] eqn:EE; [|destruct (not_found s k nm EE) as [-> _]; done].
  destruct (found s k nm _ HS EE) as (i & -> & H2). case_bool_decide as EN; [done|]. cbn [negb]. rewrite H2. cbn [fmap option_fmap option_map content]. pose proof (ok_exists s HS _ _ _ EE) as HX.
  assert (HR : forall s1 j, fs_ok s1 -> f_streams s1 = f_streams s -> exists_in s1 c -> nodes_of s1 k !! j = Some (mkNode nm c) -> entry s1 k new = None -> (forall k' nm', ~ (k' = k /\ nm' = new) -> entry s1 k' nm' = entry s k' nm') ->
    relocated s (upd k (alter (fun n => mkNode new (content n)) j (nodes_of s1 k)) s1) k nm k new c).
  { intros s1 j HS1 HF HX1 Hj Hnew HE. destruct (upd_replace s1 k (mkNode nm c) (mkNode new c) (delete j (nodes_of s1 k)) (alter (fun n => mkNode new (content n)) j (nodes_of s1 k)) HS1) as [G1 G2]; [by apply lookup_perm|exact (alter_perm (fun n => mkNode new (content n)) _ _ _ Hj)|by right|done|done|by left|].
    split; [done|]. split; [done|]. intros k' nm'. rewrite G2. cbn [name content]. destruct (decide (k' = k /\ nm' = new)) as [|Hd]; [done|]. destruct (decide _); [done|]. by apply HE. }
  destruct (entry s k new) as [c2|] eqn:E2.
  - destruct (found s k new _ HS E2) as (j & G1 & G2). unfold findNode. rewrite G1. cbn [mbind option_bind]. rewrite G2. cbn [fmap option_fmap option_map content]. assert (Hij : i <> j) by (intros ->; rewrite H2 in G2; by injection G2 as ->). destruct c as [f|c]; [|done]. destruct c2 as [f2|]; [|done]. cbn [may_replace]. rewrite (proj2 (Nat.eqb_neq j i)) by congruence.
    eexists. split; [done|]. destruct (upd_remove s k (mkNode new (FileNode f2)) (delete j (nodes_of s k)) (delete j (nodes_of s k)) HS) as [G3 G4]; [by apply lookup_perm|done|]. specialize (HR (upd k (delete j (nodes_of s k)) s) (shifted j i) G3 eq_refl). rewrite nodes_upd, decide_True in HR by done. rewrite upd_upd in HR. apply HR.
    + by apply exists_upd. + by apply delete_shifted. + rewrite G4. by rewrite decide_True. + intros k' nm' Hd. rewrite G4. by rewrite decide_False.
  - destruct (not_found s k new E2) as [G1 G2]. rewrite G1, G2. unfold may_replace. assert (HQ : exists s', set_nodes k (alter (fun n => mkNode new (content n)) i (nodes_of s k)) s = (s', Ok tt) /\ relocated s s' k nm k new c) by (eexists; split; [done|]; by apply HR). destruct c; exact HQ.
Qed.
Lemma doMoveTo_spec s e d new : fs_ok s -> component_ok new = true -> ~ (entry_list e = dir_content d /\ e_name e = new) -> let r := doMoveTo e (ADir d) new s in
  match entry s (entry_list e) (e_name e) with
  | None => throws_at r s (getPathName e) fileNotFound
  | Some c =>
      if may_replace c (entry s (dir_content d) new) then exists s', r = (s', Ok tt) /\ relocated s s' (entry_list e) (e_name e) (dir_content d) new c
      else throws_at r s (Posix.makePathName (getDirectoryName d) new) fileExists
  end.
Proof.
  intros HS HC Hne. cbn zeta. unfold doMoveTo, throws_at, fbind, fret, get_nodes. set (k := entry_list e) in *. set (nm := e_name e) in *. set (k2 := dir_content d) in *. destruct (entry s k nm) as [c|] eqn:EE; [|destruct (not_found s k nm EE) as [-> _]; done].
  destruct (found s k nm _ HS EE) as (i & -> & H2). rewrite H2. cbn [from_option id content]. pose proof (ok_exists s HS _ _ _ EE) as HX.
  (** removing the node and adding it again, from a state without the target *)
  assert (HR : forall s1 j, fs_ok s1 -> f_streams s1 = f_streams s -> exists_in s1 c -> nodes_of s1 k !! j = Some (mkNode nm c) -> entry s1 k2 new = None -> (forall k' nm', ~ (k' = k2 /\ nm' = new) -> entry s1 k' nm' = entry s k' nm') ->
    relocated s (upd k2 (nodes_of (upd k (delete j (nodes_of s1 k)) s1) k2 ++ [mkNode new c]) (upd k (delete j (nodes_of s1 k)) s1)) k nm k2 new c).
  { intros s1 j HS1 HF HX1 Hj Hnew HE. destruct (upd_remove s1 k (mkNode nm c) (delete j (nodes_of s1 k)) (delete j (nodes_of s1 k)) HS1) as [G1 G2]; [by apply lookup_perm|done|]. set (s2 := upd k (delete j (nodes_of s1 k)) s1) in *. cbn [name] in G2.
    assert (HEs : entry s1 k nm = Some c) by (rewrite HE by tauto; done).
    destruct (upd_add s2 k2 (mkNode new c) (nodes_of s2 k2 ++ [mkNode new c]) G1) as [G3 G4]; [by rewrite Permutation_app_comm|rewrite G2; by destruct (decide _)|done|by apply exists_upd|intros k' nm'; rewrite G2; destruct (decide _) as [|Hd]; [done|]; intros HY; destruct (ok_unique s1 HS1 _ _ _ _ _ HY HEs); tauto|].
    split; [done|]. split; [done|]. intros k' nm'. rewrite G4. cbn [name content]. destruct (decide (k' = k2 /\ nm' = new)) as [|Hd]; [done|]. rewrite G2. destruct (decide _); [done|]. by apply HE. }
  destruct (entry s k2 new) as [c2|] eqn:E2.
  - destruct (found s k2 new _ HS E2) as (j & G1 & G2). rewrite G1, G2. cbn [fmap option_fmap option_map content]. destruct c as [f|c]; [|done]. destruct c2 as [f2|]; [|done]. cbn [may_replace from_option id content]. unfold set_nodes at 1. cbn match.
    destruct (upd_remove s k2 (mkNode new (FileNode f2)) (delete j (nodes_of s k2)) (delete j (nodes_of s k2)) HS) as [G3 G4]; [by apply lookup_perm|done|]. set (s1 := upd k2 (delete j (nodes_of s k2)) s) in *. fold s1. cbn [name] in G4.
    assert (Hij : k = k2 -> i <> j) by (intros -> ->; rewrite H2 in G2; injection G2 as -> ->; tauto). assert (Hsame : bool_decide (k = k2) && (j =? i)%nat = false) by (case_bool_decide as Hk; [|done]; cbn; apply Nat.eqb_neq; intros ->; by apply Hij). rewrite Hsame.
    eexists. split; [reflexivity|]. refine (HR s1 (if bool_decide (k = k2) then shifted j i else i) G3 eq_refl (exists_upd _ _ _ _ HX) _ _ _); [|rewrite G4; by rewrite decide_True|intros k' nm' Hd; rewrite G4; by rewrite decide_False].
    subst s1. rewrite nodes_upd. case_bool_decide as Hk; [rewrite decide_True by done; rewrite <- Hk; apply delete_shifted; [done|by apply Hij]|by rewrite decide_False].
  - destruct (not_found s k2 new E2) as [-> _]. unfold may_replace. assert (HQ : exists s', (let% _ := set_nodes k (delete i (nodes_of s k)) in let% dest := (fun s => (s, Ok (nodes_of s k2))) in set_nodes k2 (dest ++ [mkNode new c])) s = (s', Ok tt) /\ relocated s s' k nm k2 new c) by (eexists; split; [reflexivity|]; by apply HR). destruct c; exact HQ.
Qed.

(** ** Paths *)

Fixpoint dir_at (s : Fs) (k : nat) (P : list (list Z)) : option nat :=
  match P with
  | [] => Some k
  | c :: P' => match entry s k c with Some (DirectoryNode k') => dir_at s k' P' | _ => None end
  end.
(** What is at a path below a directory *)
Fixpoint node_at (s : Fs) (k : nat) (P : list (list Z)) : option Content :=
  match P with
  | [] => Some (DirectoryNode k)
  | c :: P' =>
      match entry s k c with
      | Some (DirectoryNode k') => node_at s k' P'
      | Some (FileNode f) => match P' with [] => Some (FileNode f) | _ => None end
      | None => None
      end
  end.
Lemma dir_at_app s k P Q : dir_at s k (P ++ Q) = dir_at s k P ≫= fun k' => dir_at s k' Q.
Proof. revert k. induction P as [|c P IH]; intros k; [done|]. cbn [app dir_at]. destruct (entry s k c) as [[f|k']|]; [done|apply IH|done]. Qed.
Lemma node_at_app s k P c Q : node_at s k (P ++ c :: Q) = dir_at s k P ≫= fun k' => node_at s k' (c :: Q).
Proof. revert k. induction P as [|x P IH]; intros k; [done|]. cbn [app dir_at]. cbn [node_at]. destruct (entry s k x) as [[f|k']|]; [by destruct P|apply IH|done]. Qed.
Lemma dir_at_snoc s k P c k' : dir_at s k (P ++ [c]) = Some k' <-> exists k1, dir_at s k P = Some k1 /\ entry s k1 c = Some (DirectoryNode k').
Proof.
  rewrite dir_at_app. split.
  - intros (k1 & H1 & H2)%bind_Some. exists k1. split; [done|]. cbn in H2. destruct (entry s k1 c) as [[f|k2]|]; [done| |done]. by injection H2 as ->.
  - intros (k1 & -> & H2). cbn. by rewrite H2.
Qed.
Lemma dir_at_node s k P : node_at s k P = match dir_at s k P with Some k' => Some (DirectoryNode k') | None => node_at s k P end.
Proof. revert k. induction P as [|c P IH]; intros k; [done|]. cbn [node_at dir_at]. destruct (entry s k c) as [[f|k']|]; [done|apply IH|done]. Qed.
(** No two paths lead to the same directory. *)
Lemma path_unique s P Q k : fs_ok s -> dir_at s m_root P = Some k -> dir_at s m_root Q = Some k -> P = Q.
Proof.
  intros HS. revert Q k. induction P as [|c P IH] using rev_ind; intros Q k HP HQ.
  - injection HP as <-. destruct Q as [|c' Q _] using rev_ind; [done|]. apply dir_at_snoc in HQ as (k1 & _ & HE). apply (ok_exists s HS) in HE as [_ HE]. done.
  - apply dir_at_snoc in HP as (k1 & HP & HE). destruct Q as [|c' Q _] using rev_ind; [injection HQ as <-; by apply (ok_exists s HS) in HE as [_ HE]|]. apply dir_at_snoc in HQ as (k2 & HQ & HE2). destruct (ok_unique s HS _ _ _ _ _ HE HE2) as [-> ->]. by rewrite (IH Q k2).
Qed.
(** Walks that meet no changed entry *)
Lemma walks_agree s s' k Q : (forall P c R k', Q = P ++ c :: R -> dir_at s k P = Some k' -> entry s' k' c = entry s k' c) -> node_at s' k Q = node_at s k Q /\ dir_at s' k Q = dir_at s k Q.
Proof.
  revert k. induction Q as [|c Q IH]; intros k HA; [done|]. cbn [node_at dir_at]. rewrite (HA [] c Q k) by done. destruct (entry s k c) as [[f|k']|] eqn:E; [done| |done]. apply IH. intros P c' R k2 -> HP. apply (HA (c :: P) c' R k2); [done|]. cbn. by rewrite E.
Qed.
#[export] Instance below_dec (P : list (list Z)) nm (Q : list (list Z)) : Decision (exists R, Q = P ++ nm :: R).
Proof.
  refine (cast_if (decide (prefix (P ++ [nm]) Q))); [by destruct p as [R ->]; exists R; rewrite <- app_assoc|intros [R ->]; apply n; exists R; by rewrite <- app_assoc].
Defined.
Definition leaf (s : Fs) (o : option Content) : Prop := match o with Some (DirectoryNode k) => forall nm, entry s k nm = None | _ => True end.
Lemma leaf_below s k c x Q : leaf s (entry s k c) -> node_at s k (c :: x :: Q) = None.
Proof. intros HL. cbn [node_at]. destruct (entry s k c) as [[f|k']|]; [done| |done]. cbn in HL. by rewrite HL. Qed.
Lemma changed_paths s s' P k nm v : fs_ok s -> dir_at s m_root P = Some k -> entry_changed s s' k nm v -> leaf s (entry s k nm) -> leaf s' v ->
  forall Q, node_at s' m_root Q = if decide (Q = P ++ [nm]) then v else node_at s m_root Q.
Proof.
  intros HS HP HE HL HL' Q. destruct (decide (exists R, Q = P ++ nm :: R)) as [HX|HX].
  - destruct HX as [R ->]. assert (HA : dir_at s' m_root P = Some k).
    { rewrite <- HP. apply walks_agree. intros P0 c R0 k' HQ Hk. rewrite HE. rewrite decide_False; [done|]. intros [-> ->]. rewrite (path_unique s P0 P k HS Hk HP) in HQ. apply (f_equal length) in HQ. rewrite length_app in HQ. cbn in HQ. lia. }
    rewrite !node_at_app, HA, HP. cbn [mbind option_bind]. destruct R as [|x R].
    + rewrite decide_True by done. cbn [node_at]. rewrite HE, decide_True by done. by destruct v as [[f|k']|].
    + rewrite decide_False by (intros HQ; apply (f_equal length) in HQ; rewrite !length_app in HQ; cbn in HQ; lia). rewrite !leaf_below; [done|done|]. by rewrite HE, decide_True.
  - rewrite decide_False by (intros ->; apply HX; by exists []). apply walks_agree. intros P0 c R0 k' -> Hk. rewrite HE. rewrite decide_False; [done|]. intros [-> ->]. apply HX. exists R0. by rewrite (path_unique s P0 P k HS Hk HP).
Qed.
Lemma relocated_paths s s' P1 k nm P2 k2 nm2 c : fs_ok s -> dir_at s m_root P1 = Some k -> dir_at s m_root P2 = Some k2 -> entry s k nm = Some c -> relocated s s' k nm k2 nm2 c -> ~ (k = k2 /\ nm = nm2) -> leaf s (entry s k2 nm2) -> (forall R, P2 <> P1 ++ nm :: R) ->
  (forall R, node_at s' m_root (P2 ++ nm2 :: R) = node_at s m_root (P1 ++ nm :: R)) /\
  (forall Q, (forall R, Q <> P2 ++ nm2 :: R) -> node_at s' m_root Q = if decide (exists R, Q = P1 ++ nm :: R) then None else node_at s m_root Q).
Proof.
  intros HS HP1 HP2 HC (HS' & _ & HE) Hne HL HN. assert (HLen : forall P (x : list Z) R, P <> P ++ x :: R) by (intros P x R HQ; apply (f_equal length) in HQ; rewrite length_app in HQ; cbn in HQ; lia).
  assert (HG : forall Q, (forall R, Q <> P2 ++ nm2 :: R) -> (forall R, Q <> P1 ++ nm :: R) -> node_at s' m_root Q = node_at s m_root Q /\ dir_at s' m_root Q = dir_at s m_root Q).
  { intros Q H2 H1. apply walks_agree. intros P0 x R0 k' HQ Hk. rewrite HE. rewrite decide_False; [rewrite decide_False; [done|]|]; intros [-> ->]; [apply (H1 R0); by rewrite <- (path_unique s P0 P1 k HS Hk HP1)|apply (H2 R0); by rewrite <- (path_unique s P0 P2 k2 HS Hk HP2)]. }
  split.
  - intros R. rewrite !node_at_app, HP1. destruct (HG P2 (HLen P2 nm2) HN) as [_ ->]. rewrite HP2. cbn [mbind option_bind node_at]. rewrite HE, decide_True by done. rewrite HC. destruct c as [f|k3]; [done|]. apply walks_agree. intros P0 x R0 k' -> Hk. assert (Hk' : dir_at s m_root (P1 ++ nm :: P0) = Some k') by (rewrite dir_at_app, HP1; cbn; by rewrite HC).
    rewrite HE. rewrite decide_False; [rewrite decide_False; [done|]|]; intros [-> ->]; [by apply (HLen P1 nm P0), (path_unique s _ _ k HS)|by apply (HN P0), (path_unique s _ _ k2 HS)].
  - intros Q H2. destruct (decide (exists R, Q = P1 ++ nm :: R)) as [[R ->]|H1]; [|apply HG; [done|]; intros R ->; apply H1; by exists R]. rewrite node_at_app. destruct (HG P1) as [_ ->]; [|by apply HLen|].
    + intros R0 HQ. apply (H2 (R0 ++ nm :: R)). rewrite HQ. by rewrite <- app_assoc.
    + rewrite HP1. cbn [mbind option_bind node_at]. rewrite HE, decide_False by tauto. by rewrite decide_True.
Qed.

(** ** Names *)

Lemma find_none_no_sep l : find l [47] = None <-> no_sep 47 l.
Proof.
  induction l as [|c l IH]; [split; [constructor|done]|]. cbn [find length take]. rewrite take_0. unfold no_sep. rewrite Forall_cons. fold (no_sep 47 l). rewrite <- IH. case_bool_decide as E; [injection E as ->; split; [done|]; by intros [? _]|]. destruct (find l [47]); cbn; split; try done; [by intros [_ ?]|]. intros _. split; [congruence|done].
Qed.
Lemma component_ok_iff c : component_ok c = true <-> c <> [] /\ no_sep 47 c /\ c <> [46].
Proof.
  unfold component_ok. rewrite !andb_true_iff, !negb_true_iff, !bool_decide_eq_false, <- find_none_no_sep. destruct (find c [47]); naive_solver.
Qed.
Definition good (P : list (list Z)) : Prop := Forall (fun c => component_ok c = true) P.
Definition path_text (P : list (list Z)) : list Z := 47 :: join 47 P.
Lemma join_snoc P c : join 47 (P ++ [c]) = match P with [] => c | _ => join 47 P ++ 47 :: c end.
Proof.
  induction P as [|x P IH]; [done|]. destruct P as [|y P]; [done|]. change (join 47 ((x :: y :: P) ++ [c])) with (x ++ 47 :: join 47 ((y :: P) ++ [c])). rewrite IH. change (join 47 (x :: y :: P)) with (x ++ 47 :: join 47 (y :: P)). by rewrite <- app_assoc.
Qed.
Lemma join_last P c : good (P ++ [c]) -> exists t x, join 47 (P ++ [c]) = t ++ [x] /\ x <> 47.
Proof.
  intros [_ [Hc _]%Forall_cons]%Forall_app. apply component_ok_iff in Hc as (Hne & Hs & _). destruct c as [|x c _] using rev_ind; [done|]. apply Forall_app in Hs as [_ [Hx _]%Forall_cons]. rewrite join_snoc. destruct P as [|y P]; [by exists c, x|]. exists (join 47 (y :: P) ++ 47 :: c), x. split; [by rewrite <- app_assoc|done].
Qed.
Lemma makePathName_text P c : good P -> component_ok c = true -> Posix.makePathName (path_text P) c = path_text (P ++ [c]).
Proof.
  intros HP Hc. pose proof Hc as (Hne & Hs & _)%component_ok_iff. unfold Posix.makePathName. assert (HA : Posix.isAbsolutePathName c = false) by (destruct c as [|x c]; [done|]; apply Forall_cons in Hs as [Hx _]; by apply Z.eqb_neq). rewrite HA. rewrite bool_decide_eq_false_2 by done. unfold path_text. rewrite join_snoc.
  destruct P as [|y P _] using rev_ind; [done|]. destruct (join_last P y HP) as (t & x & HJ & Hx). rewrite HJ. change (47 :: t ++ [x]) with ((47 :: t) ++ [x]). rewrite last_snoc. unfold Posix.isPathSeparator, Posix.PATH_SEPARATOR. rewrite (proj2 (Z.eqb_neq x 47)) by done. cbn [negb]. destruct (P ++ [y]) eqn:EP; [by apply app_nil in EP as [_ ?]|]. cbn [app]. by rewrite <- !app_assoc.
Qed.
Lemma dir_at_good s k P k' : fs_ok s -> dir_at s k P = Some k' -> good P.
Proof. intros HS. revert k. induction P as [|c P IH]; intros k; [constructor|]. cbn [dir_at]. destruct (entry s k c) as [[f|k1]|] eqn:E; [done| |done]. intros H. constructor; [by eapply ok_names|by eapply IH]. Qed.
(** A directory object for the directory at a path *)
Definition handle (s : Fs) (d : Dir) (P : list (list Z)) : Prop := dir_at s m_root P = Some (dir_content d) /\ getDirectoryName d = path_text P.
Definition named (P : list (list Z)) : list (list Z) := filter (.≠ [46]) P.
Lemma findDirectory_loop_spec s fuel d P path full : fs_ok s -> (length path <= fuel)%nat -> handle s d P -> let ps := pieces 47 path in
  match dir_at s (dir_content d) (named (removelast ps)) with
  | Some k => exists d', findDirectory_loop fuel d path full s = (s, Ok (d', List.last ps [])) /\ dir_content d' = k /\ handle s d' (P ++ named (removelast ps))
  | None => findDirectory_loop fuel d path full s = (s, Throw (FileProblem full fileNotFound))
  end.
Proof.
  intros HS. revert d P path. induction fuel as [|fuel IH]; intros d P path Hf Hd; cbn zeta; rewrite pieces_find.
  - destruct path; [|cbn in Hf; lia]. cbn. exists d. rewrite app_nil_r. done.
  - cbn [findDirectory_loop]. destruct (find path [47]) as [n|] eqn:EF; [|cbn; exists d; rewrite app_nil_r; done]. set (c := take n path). set (rest := drop (n + 1) path). pose proof (pieces_nonempty 47 rest) as Hne. assert (HR : removelast (c :: pieces 47 rest) = c :: removelast (pieces 47 rest)) by (by destruct (pieces 47 rest)). assert (HLa : List.last (c :: pieces 47 rest) [] = List.last (pieces 47 rest) []) by (by destruct (pieces 47 rest)).
    assert (Hlen : (length rest <= fuel)%nat). { unfold rest. rewrite length_drop. assert (n < length path)%nat; [|lia]. clear -EF. revert n EF. induction path as [|x path IH]; intros n; cbn [find length take]; [done|]. case_bool_decide; [intros [= <-]; lia|]. destruct (find path [47]) as [m|]; [|done]. intros [= <-]. specialize (IH m eq_refl). lia. }
    rewrite HR, HLa. unfold isDot, named. destruct (decide (c = [46])) as [Hc|Hc].
    + rewrite bool_decide_eq_true_2 by done. cbn [negb]. rewrite filter_cons_False by (intros HH; by apply HH). exact (IH d P rest Hlen Hd).
    + rewrite bool_decide_eq_false_2 by done. cbn [negb]. rewrite filter_cons_True by done. cbn [dir_at]. unfold fbind, get_nodes. destruct (entry s (dir_content d) c) as [[f|k]|] eqn:EE; [by rewrite (found_node s _ c _ HS EE)| |by rewrite (proj2 (not_found s _ c EE))]. rewrite (found_node s _ c _ HS EE).
      destruct Hd as [Hd1 Hd2]. assert (Hd' : handle s (mkDir (Posix.makePathName (getDirectoryName d) c) k (Some d)) (P ++ [c])). { split; [apply dir_at_snoc; eauto|]. cbn. rewrite Hd2. apply makePathName_text; [by eapply dir_at_good|by eapply ok_names]. }
      specialize (IH _ _ rest Hlen Hd'). cbn zeta in IH. cbn [dir_content] in IH. fold (named (removelast (pieces 47 rest))). destruct (dir_at s k (named (removelast (pieces 47 rest)))) as [k'|]; [|exact IH]. destruct IH as (d' & H1 & H2 & H3). exists d'. split; [exact H1|]. split; [done|]. by rewrite <- app_assoc in H3.
Qed.
(** The path of the directory that a name is in, and the last component *)
Definition name_dirs (nm : list Z) : list (list Z) := named (removelast (pieces 47 (prepareFileName nm))).
Definition name_last (nm : list Z) : list Z := List.last (pieces 47 (prepareFileName nm)) [].
Lemma findDirectory_spec s nm : fs_ok s ->
  match dir_at s m_root (name_dirs nm) with
  | Some k => exists d, findDirectory m_root (prepareFileName nm) nm s = (s, Ok (d, name_last nm)) /\ dir_content d = k /\ handle s d (name_dirs nm)
  | None => findDirectory m_root (prepareFileName nm) nm s = (s, Throw (FileProblem nm fileNotFound))
  end.
Proof. intros HS. assert (HH : handle s (mkDir [47] m_root None) []) by done. exact (findDirectory_loop_spec s _ _ [] (prepareFileName nm) nm HS (le_n _) HH). Qed.
Lemma text_parts P c : good (P ++ [c]) -> name_dirs (path_text (P ++ [c])) = P /\ name_last (path_text (P ++ [c])) = c.
Proof.
  intros HG. assert (HP : pieces 47 (prepareFileName (path_text (P ++ [c]))) = P ++ [c]).
  { cbn. revert HG. generalize (P ++ [c]) as Q, (app_cons_not_nil P [] c). intros Q HQ HG. induction HG as [|x Q Hx HG IH]; [done|]. apply component_ok_iff in Hx as (_ & Hx & _). destruct Q as [|y Q]; [by apply pieces_one|]. change (join 47 (x :: y :: Q)) with (x ++ 47 :: join 47 (y :: Q)). rewrite pieces_app, IH by done. by rewrite pieces_one. }
  unfold name_dirs, name_last. rewrite HP, removelast_last, List.last_last. split; [|done]. apply Forall_app in HG as [HG _]. unfold named. clear HP. induction HG as [|x P Hx HG IH]; [done|]. apply component_ok_iff in Hx as (_ & _ & Hx). rewrite filter_cons_True by done. by rewrite IH.
Qed.
