(* ===== verification/FileSystemSpec.v ===== *)
(** * The in-memory file system: its theorems *)

From Stdlib Require Import ZArith Lia Bool String.
From stdpp Require Import base tactics numbers option list gmap.
From S2P Require Import Prelude Strings FileNames FileSystem FileSystemProps.

Local Open Scope Z_scope.
Local Open Scope afl_scope.

(** ** Operations that users have *)

Inductive Op :=
| OpCreateDirectory (nm : list Z) | OpOpenFile (nm : list Z) (mode : OpenMode)
| OpOpen (d : Dir) (nm : list Z) (mode : OpenMode) | OpErase (d : Dir) (nm : list Z) | OpRename (d : Dir) (nm new : list Z)
| OpMakeDirectory (d : Dir) (nm : list Z) | OpMove (d : Dir) (nm : list Z) (d2 : Dir) (new : list Z) | OpWrite (f : nat) (data : list Z).
Definition exec (op : Op) : F unit :=
  match op with
  | OpCreateDirectory nm => createDirectory nm
  | OpOpenFile nm mode => let% _ := openFile nm mode in fret tt
  | OpOpen d nm mode => let% _ := Directory_openFile d nm mode in fret tt
  | OpErase d nm => Directory_erase d nm
  | OpRename d nm new => let% e := getDirectoryEntryByName d nm in (renameTo e new).2
  | OpMakeDirectory d nm => let% e := getDirectoryEntryByName d nm in (createAsDirectory e).2
  | OpMove d nm d2 new => let% e := getDirectoryEntryByName d nm in (moveTo e (ADir d2) new).2
  | OpWrite f data => write_stream f data
  end.
(** moveTo is given a proper name, and a file is not moved to its own place. *)
Definition safe (op : Op) : Prop := match op with OpMove d nm d2 new => component_ok new = true /\ ~ (dir_content d = dir_content d2 /\ nm = new) | _ => True end.

(** An operation is done, or changes nothing. *)
Definition atomic {A} (s : Fs) (r : Fs * outcome FsFault A) : Prop := match r with (s', Ok _) => fs_ok s' | (s', Throw (FileProblem _ _)) => s' = s | (_, Throw _) => False end.
Lemma atomic_then {A} s (m : F A) : atomic s (m s) -> atomic s ((let% _ := m in fret tt) s).
Proof. unfold fbind, fret. destruct (m s) as [s' [a|[]]]; done. Qed.
Lemma Dir_open_atomic s d nm full mode : fs_ok s -> atomic s (Dir_open d nm full mode s).
Proof.
  intros HS. pose proof (Dir_open_spec s d nm full mode HS) as H. cbn zeta in H. unfold throws_at in H. destruct (component_ok nm); [|by rewrite H]. destruct (entry s (dir_content d) nm) as [[f|k]|]; [destruct mode| |destruct mode]; try (by rewrite H); destruct H as (f' & s' & -> & H); apply H.
Qed.
Lemma verified {A} s d nm (g : Entry -> F A) : (component_ok nm = true -> atomic s (g (Entry_new d nm) s)) -> fs_ok s -> atomic s ((let% e := getDirectoryEntryByName d nm in g e) s).
Proof. intros H HS. unfold getDirectoryEntryByName, verifyFileNameComponent, fbind, fret. destruct (component_ok nm); [by apply H|done]. Qed.
Lemma mkdir_atomic s e : fs_ok s -> component_ok (e_name e) = true -> atomic s (doCreateAsDirectory e s).
Proof. intros HS HC. pose proof (doCreateAsDirectory_spec s e HS HC) as H. cbn zeta in H. unfold throws_at in H. destruct (entry s (entry_list e) (e_name e)); [by rewrite H|]. destruct H as (s' & -> & H). apply H. Qed.
Lemma exec_atomic s op : fs_ok s -> safe op -> atomic s (exec op s).
Proof.
  intros HS Hop. destruct op as [nm|nm mode|d nm mode|d nm|d nm new|d nm|d nm d2 new|f data]; cbn [exec].
  - unfold createDirectory. cbn zeta. unfold fbind at 1. pose proof (findDirectory_spec s nm HS) as H. destruct (dir_at s m_root (name_dirs nm)) as [k|]; [|by rewrite H]. destruct H as (d & -> & _ & _). unfold fbind, verifyFileNameComponent, fret. destruct (component_ok (name_last nm)) eqn:EC; [|done]. by apply mkdir_atomic.
  - apply atomic_then. unfold openFile. cbn zeta. unfold fbind. pose proof (findDirectory_spec s nm HS) as H. destruct (dir_at s m_root (name_dirs nm)) as [k|]; [|by rewrite H]. destruct H as (d & -> & _ & _). by apply Dir_open_atomic.
  - apply atomic_then. apply verified; [|done]. intros _. by apply Dir_open_atomic.
  - apply verified; [|done]. intros _. pose proof (doErase_spec s (cleared (Entry_new d nm)) HS) as H. cbn zeta in H. unfold throws_at in H. cbn [erase snd]. destruct (entry s _ _) as [[f|k]|]; [destruct H as (s' & -> & H); apply H|case_bool_decide; [destruct H as (s' & -> & H); apply H|by rewrite H]|by rewrite H].
  - apply verified; [|done]. intros _. pose proof (doRename_spec s (cleared (Entry_new d nm)) new HS) as H. cbn zeta in H. unfold throws_at in H. cbn [renameTo snd]. destruct (component_ok new); [|by rewrite H]. destruct (entry s _ (e_name _)) as [c|]; [|by rewrite H]. case_bool_decide; [by rewrite H|]. destruct (may_replace _ _); [destruct H as (s' & -> & H); apply H|by rewrite H].
  - apply verified; [|done]. intros HC. by apply mkdir_atomic.
  - apply verified; [|done]. intros HC. destruct Hop as [H1 H2]. pose proof (doMoveTo_spec s (cleared (Entry_new d nm)) d2 new HS H1 H2) as H. cbn zeta in H. unfold throws_at in H. cbn [moveTo snd]. destruct (entry s _ (e_name _)) as [c|]; [|by rewrite H]. destruct (may_replace _ _); [destruct H as (s' & -> & H); apply H|by rewrite H].
  - cbn. destruct HS as [H1 H2 H3 H4 H5]. split; [done|done|exact H3| |exact H5]. intros k nm c Hc. specialize (H4 k nm c Hc). destruct c; [cbn in *; by rewrite dom_alter|done].
Qed.
Lemma new_fs_ok : fs_ok InternalFileSystem_new.
Proof.
  assert (HN : forall k, nodes_of InternalFileSystem_new k = []) by (intros k; unfold nodes_of, InternalFileSystem_new; cbn [f_lists]; destruct (decide (k = m_root)) as [->|]; [by rewrite lookup_singleton_eq|by rewrite lookup_singleton_ne]). assert (HE : forall k nm, entry InternalFileSystem_new k nm = None) by (intros; unfold entry; by rewrite HN).
  split; [cbn; set_solver|intros k; rewrite HN; constructor|intros k nm c; by rewrite HE..|intros k nm k' nm' c; by rewrite HE].
Qed.
Definition run_ops (ops : list Op) : Fs := fold_left (fun s op => (exec op s).1) ops InternalFileSystem_new.
Lemma run_ops_ok ops : Forall safe ops -> fs_ok (run_ops ops).
Proof.
  unfold run_ops. intros H. generalize new_fs_ok. generalize InternalFileSystem_new as s. induction H as [|op ops Hop H IH]; intros s HS; [done|]. cbn [fold_left]. apply IH. pose proof (exec_atomic s op HS Hop) as HA. destruct (exec op s) as [s' [a|[]]]; cbn in *; [done|by subst|done|done].
Qed.

(** C9. The file system stays well-formed: after any operations (with any
    directory objects, also stale ones), names within a directory are distinct and can be
    used in paths, every node refers to an existing list or stream, and nothing is referred
    to twice; and the next operation either succeeds or throws a FileProblemException and
    has changed nothing.  This excludes moving a file to its own name, and to an improper
    name, which moveTo does not refuse.  A directory that is moved below itself keeps all this, but is cut off from the root. *)
Theorem file_system_invariant ops op : Forall safe ops -> safe op -> fs_ok (run_ops ops) /\ atomic (run_ops ops) (exec op (run_ops ops)).
Proof. intros H Hop. pose proof (run_ops_ok ops H) as HS. split; [done|]. by apply exec_atomic. Qed.
Lemma file_system_invariant_witness :
  let d := mkDir (lit "/a") 1 None in
  let ops := [OpCreateDirectory (lit "a"); OpOpenFile (lit "a/f") Create; OpRename d (lit "f") (lit "g"); OpMove d (lit "g") (mkDir [47] 0 None) (lit "h")] in
  fs_ok (run_ops ops) /\ atomic (run_ops ops) (exec (OpErase d (lit "g")) (run_ops ops)).
Proof. intros d ops. apply file_system_invariant; [|done]. repeat constructor. by intros [? _]. Defined.

(** ** Paths *)

Lemma node_entry s d P nm : handle s d P -> node_at s m_root (P ++ [nm]) = entry s (dir_content d) nm.
Proof. intros [HP _]. rewrite node_at_app, HP. cbn. by destruct (entry s (dir_content d) nm) as [[f|k]|]. Qed.
Lemma Dir_open_same d d' nm full mode : dir_content d = dir_content d' -> Dir_open d nm full mode = Dir_open d' nm full mode.
Proof. intros HE. unfold Dir_open. by rewrite HE. Qed.
Lemma reported_name s d P nm : fs_ok s -> handle s d P -> component_ok nm = true -> getPathName (Entry_new d nm) = path_text (P ++ [nm]) /\ name_dirs (path_text (P ++ [nm])) = P /\ name_last (path_text (P ++ [nm])) = nm.
Proof.
  intros HS [HP HN] HC. pose proof (dir_at_good s _ P _ HS HP) as HG. split; [unfold getPathName; cbn [e_parent e_name Entry_new]; rewrite HN; by apply makePathName_text|]. apply text_parts. apply Forall_app. split; [done|]. by constructor; [|constructor].
Qed.
Lemma open_by_name s d P nm mode : fs_ok s -> handle s d P -> component_ok nm = true -> openFile (path_text (P ++ [nm])) mode s = Entry_openFile (Entry_new d nm) mode s.
Proof.
  intros HS HH HC. destruct (reported_name s d P nm HS HH HC) as (HR & H1 & H2). unfold openFile. cbn zeta. unfold fbind. pose proof (findDirectory_spec s (path_text (P ++ [nm])) HS) as H. rewrite H1 in H. rewrite (proj1 HH) in H. destruct H as (d' & -> & Hd & _). rewrite H2. unfold Entry_openFile. rewrite HR. cbn [e_parent e_name Entry_new]. by rewrite (Dir_open_same d' d) by congruence.
Qed.
Lemma mkdir_by_name s d P nm : fs_ok s -> handle s d P -> component_ok nm = true -> createDirectory (path_text (P ++ [nm])) s = doCreateAsDirectory (Entry_new d nm) s.
Proof.
  intros HS HH HC. destruct (reported_name s d P nm HS HH HC) as (HR & H1 & H2). unfold createDirectory. cbn zeta. unfold fbind at 1. pose proof (findDirectory_spec s (path_text (P ++ [nm])) HS) as H. rewrite H1 in H. rewrite (proj1 HH) in H. destruct H as (d' & -> & Hd & Hd'). rewrite H2. unfold fbind at 1, verifyFileNameComponent. rewrite HC. unfold fret. cbn [createAsDirectory snd].
  assert (HR' : getPathName (cleared (Entry_new d' nm)) = getPathName (Entry_new d nm)) by (rewrite HR; by apply (reported_name s d' P nm)). unfold doCreateAsDirectory. rewrite HR'. unfold entry_list. cbn [cleared e_parent e_name Entry_new]. by rewrite Hd.
Qed.
Lemma reached_exists s P k : fs_ok s -> dir_at s m_root P = Some k -> k ∈ dom (f_lists s).
Proof. intros HS HP. destruct P as [|c P _] using rev_ind; [injection HP as <-; by apply ok_root|]. apply dir_at_snoc in HP as (k1 & _ & HE). by apply (ok_exists s HS) in HE as [? _]. Qed.
Definition only_here (s s' : Fs) (here : list (list Z)) (v : option Content) : Prop := forall Q, node_at s' m_root Q = if decide (Q = here) then v else node_at s m_root Q.

(** C7. What operations do to paths, for an entry of a directory that is reached by a path:
    a path has a node, and creating a file or a directory and erasing change what is at the
    entry's path and at no other path.  An entry's path name can be used with the file
    system itself and means the same.  A file that exists is opened as it is or replaced by
    an empty one, as the mode says; what exists is never created anew as something else, a
    directory is erased when it is empty, and other streams keep their data. *)
Theorem file_system_correct s d P nm : fs_ok s -> handle s d P -> component_ok nm = true ->
  let e := Entry_new d nm in let here := P ++ [nm] in let full := path_text here in
  getPathName e = full /\ (forall mode, openFile full mode s = Entry_openFile e mode s) /\ createDirectory full s = doCreateAsDirectory e s /\
  let creates mode := exists f s', Entry_openFile e mode s = (s', Ok f) /\ (f ∉ dom (f_streams s)) /\ f_streams s' = <[f := mkData full []]> (f_streams s) /\ only_here s s' here (Some (FileNode f)) in
  let erases := exists s', doErase e s = (s', Ok tt) /\ f_streams s' = f_streams s /\ only_here s s' here None in
  match node_at s m_root here with
  | None =>
      Entry_openFile e OpenRead s = (s, Throw (FileProblem full fileNotFound)) /\ creates Create /\ creates CreateNew /\ doErase e s = (s, Throw (FileProblem full fileNotFound)) /\
      exists k s', doCreateAsDirectory e s = (s', Ok tt) /\ f_streams s' = f_streams s /\ only_here s s' here (Some (DirectoryNode k))
  | Some (FileNode f) =>
      Entry_openFile e OpenRead s = (s, Ok f) /\ creates Create /\ Entry_openFile e CreateNew s = (s, Throw (FileProblem full fileExists)) /\ erases /\ doCreateAsDirectory e s = (s, Throw (FileProblem full fileExists))
  | Some (DirectoryNode k) =>
      (forall mode, Entry_openFile e mode s = (s, Throw (FileProblem full fileExists))) /\ doCreateAsDirectory e s = (s, Throw (FileProblem full fileExists)) /\
      if bool_decide (nodes_of s k = []) then erases else doErase e s = (s, Throw (FileProblem full fileExists))
  end.
Proof.
  intros HS HH HC. cbn zeta. destruct (reported_name s d P nm HS HH HC) as (HR & _). split; [done|]. split; [intros mode; by apply open_by_name|]. split; [by apply mkdir_by_name|]. rewrite (node_entry s d P nm HH). pose proof (fun mode => Dir_open_spec s d nm (path_text (P ++ [nm])) mode HS) as HO. cbn zeta in HO. rewrite HC in HO. unfold throws_at, created in HO.
  pose proof (doErase_spec s (Entry_new d nm) HS) as HX. cbn zeta in HX. unfold throws_at, removed in HX. rewrite HR in HX. pose proof (doCreateAsDirectory_spec s (Entry_new d nm) HS HC) as HM. cbn zeta in HM. unfold throws_at in HM. rewrite HR in HM. change (entry_list (Entry_new d nm)) with (dir_content d) in *. change (e_name (Entry_new d nm)) with nm in *.
  unfold Entry_openFile. rewrite HR. change (e_parent (Entry_new d nm)) with d. change (e_name (Entry_new d nm)) with nm. unfold only_here. pose proof (proj1 HH) as HP. destruct (entry s (dir_content d) nm) as [[f|k]|] eqn:EE.
  - split; [exact (HO OpenRead)|]. split; [|split; [exact (HO CreateNew)|split; [|done]]].
    + destruct (HO Create) as (f' & s' & H1 & _ & H3 & H4 & H5). exists f', s'. do 3 (split; [done|]). apply (changed_paths s s' P _ nm _ HS HP H5); [by rewrite EE|done].
    + destruct HX as (s' & H1 & _ & H3 & H4). exists s'. do 2 (split; [done|]). apply (changed_paths s s' P _ nm _ HS HP H4); [by rewrite EE|done].
  - split; [intros mode; specialize (HO mode); by destruct mode|]. split; [done|]. case_bool_decide as EK; [|done]. destruct HX as (s' & H1 & _ & H3 & H4). exists s'. do 2 (split; [done|]). apply (changed_paths s s' P _ nm _ HS HP H4); [|done]. rewrite EE. intros x. unfold entry. by rewrite EK.
  - split; [exact (HO OpenRead)|]. split; [|split; [|split; [done|]]].
    + destruct (HO Create) as (f' & s' & H1 & _ & H3 & H4 & H5). exists f', s'. do 3 (split; [done|]). apply (changed_paths s s' P _ nm _ HS HP H5); [by rewrite EE|done].
    + destruct (HO CreateNew) as (f' & s' & H1 & _ & H3 & H4 & H5). exists f', s'. do 3 (split; [done|]). apply (changed_paths s s' P _ nm _ HS HP H5); [by rewrite EE|done].
    + destruct HM as (s' & H1 & H2 & H3 & k & H4 & H5 & H6). exists k, s'. do 2 (split; [done|]). apply (changed_paths s s' P _ nm _ HS HP H4); [by rewrite EE|]. refine (H6 _). intros ->. by apply H5, (reached_exists s P).
Qed.
Lemma fs_ex_handle : fs_ok fs_ex /\ handle fs_ex (mkDir (lit "/a") 1 None) [lit "a"] /\ handle fs_ex (mkDir [47] 0 None) [].
Proof. split; [exact (run_ops_ok [OpCreateDirectory (lit "a"); OpCreateDirectory (lit "/a/b"); OpOpenFile (lit "a/b/f") Create; OpWrite 0 [1; 2]] ltac:(by repeat constructor))|]. split; split; vm_compute; reflexivity. Qed.
Lemma file_system_correct_witness :
  let e := Entry_new (mkDir (lit "/a") 1 None) (lit "b") in
  getPathName e = lit "/a/b" /\ doErase e fs_ex = (fs_ex, Throw (FileProblem (lit "/a/b") fileExists)).
Proof.
  destruct fs_ex_handle as (HS & HH & _). destruct (file_system_correct fs_ex _ _ (lit "b") HS HH eq_refl) as (H1 & _ & _ & H2). split; [exact H1|]. vm_compute in H2. exact (proj2 (proj2 H2)).
Defined.

(** What is at and below [P ++ [nm]] has come to [P2 ++ [new]], and all other paths have what they had; streams keep their data. *)
Definition moved (s s' : Fs) (P : list (list Z)) (nm : list Z) (P2 : list (list Z)) (new : list Z) : Prop :=
  fs_ok s' /\ f_streams s' = f_streams s /\ (forall R, node_at s' m_root (P2 ++ new :: R) = node_at s m_root (P ++ nm :: R)) /\
  forall Q, (forall R, Q <> P2 ++ new :: R) -> node_at s' m_root Q = if decide (exists R, Q = P ++ nm :: R) then None else node_at s m_root Q.
Lemma relocated_moved s s' d P nm d2 P2 new c : fs_ok s -> handle s d P -> handle s d2 P2 -> ~ (P = P2 /\ nm = new) -> (forall R, P2 <> P ++ nm :: R) ->
  entry s (dir_content d) nm = Some c -> may_replace c (entry s (dir_content d2) new) = true -> relocated s s' (dir_content d) nm (dir_content d2) new c -> moved s s' P nm P2 new.
Proof.
  intros HS HH HH2 Hne HI HN EM HR. pose proof (proj1 HH) as HP. pose proof (proj1 HH2) as HP2. assert (Hne' : ~ (dir_content d = dir_content d2 /\ nm = new)). { intros [HE ->]. apply Hne. split; [|done]. rewrite HE in HP. by eapply path_unique. }
  assert (HL : leaf s (entry s (dir_content d2) new)) by (destruct c, (entry s (dir_content d2) new) as [[|]|]; done).
  pose proof HR as (H3 & H4 & _). do 2 (split; [done|]). by apply (relocated_paths s s' P (dir_content d) nm P2 (dir_content d2) new c).
Qed.
(** C8. Renaming and moving.  Renaming a node refuses an improper name, does nothing when the name is the old one, and
    otherwise takes everything at and below its path to the new path and leaves all other paths alone; a file may replace a
    file, any other existing target is refused, and a refusal or a missing node changes nothing.  Moving to a
    directory does the same, provided that the new name is proper, that the target is not the node itself, and that a
    directory is not moved into itself: doMoveTo does not check these three. *)
Theorem file_system_moves s d P nm d2 P2 new : fs_ok s -> handle s d P -> handle s d2 P2 -> component_ok nm = true ->
  let e := Entry_new d nm in let fails r path msg := r = (s, Throw (FileProblem path msg) : outcome FsFault unit) in
  (if component_ok new then
     match node_at s m_root (P ++ [nm]) with
     | None => fails (doRename e new s) (path_text (P ++ [nm])) fileNotFound
     | Some c =>
         if bool_decide (new = nm) then doRename e new s = (s, Ok tt)
         else if may_replace c (node_at s m_root (P ++ [new])) then exists s', doRename e new s = (s', Ok tt) /\ moved s s' P nm P new
         else fails (doRename e new s) (path_text (P ++ [nm])) fileExists
     end
   else fails (doRename e new s) new invalidFileName) /\
  (component_ok new = true -> ~ (P = P2 /\ nm = new) -> (forall R, P2 <> P ++ nm :: R) ->
     match node_at s m_root (P ++ [nm]) with
     | None => fails (doMoveTo e (ADir d2) new s) (path_text (P ++ [nm])) fileNotFound
     | Some c =>
         if may_replace c (node_at s m_root (P2 ++ [new])) then exists s', doMoveTo e (ADir d2) new s = (s', Ok tt) /\ moved s s' P nm P2 new
         else fails (doMoveTo e (ADir d2) new s) (path_text (P2 ++ [new])) fileExists
     end).
Proof.
  intros HS HH HH2 HCn. cbn zeta. rewrite (node_entry s d P nm HH), (node_entry s d P new HH), (node_entry s d2 P2 new HH2).
  assert (HT : getPathName (Entry_new d nm) = path_text (P ++ [nm])) by (by apply (reported_name s)). split.
  - pose proof (doRename_spec s (Entry_new d nm) new HS) as HR. cbn zeta in HR. change (entry_list (Entry_new d nm)) with (dir_content d) in HR. change (e_name (Entry_new d nm)) with nm in HR. rewrite HT in HR. destruct (component_ok new); [|exact HR]. destruct (entry s (dir_content d) nm) as [c|] eqn:EE; [|exact HR].
    destruct (bool_decide_reflect (new = nm)) as [E|E]; [exact HR|]. destruct (may_replace _ _) eqn:EM; [|exact HR]. destruct HR as (s' & H1 & H2). exists s'. split; [done|]. apply (relocated_moved s s' d P nm d P new c); try done; [intros [_ ?]; congruence|]. intros R HRR. apply (f_equal length) in HRR. rewrite length_app in HRR. cbn in HRR. lia.
  - intros HC Hne HI. assert (Hne' : ~ (dir_content d = dir_content d2 /\ nm = new)). { pose proof (proj1 HH) as HP. pose proof (proj1 HH2) as HP2. intros [HE ->]. apply Hne. split; [|done]. rewrite HE in HP. by eapply path_unique. }
    pose proof (doMoveTo_spec s (Entry_new d nm) d2 new HS HC Hne') as HM. cbn zeta in HM. change (entry_list (Entry_new d nm)) with (dir_content d) in HM. change (e_name (Entry_new d nm)) with nm in HM. rewrite HT in HM. assert (HT2 : Posix.makePathName (getDirectoryName d2) new = path_text (P2 ++ [new])). { rewrite (proj2 HH2). apply makePathName_text; [eapply dir_at_good; [done|apply HH2]|done]. } rewrite HT2 in HM.
    destruct (entry s (dir_content d) nm) as [c|] eqn:EE; [|exact HM]. destruct (may_replace _ _) eqn:EM; [|exact HM]. destruct HM as (s' & H1 & H2). exists s'. split; [done|]. by apply (relocated_moved s s' d P nm d2 P2 new c).
Qed.
Lemma file_system_moves_witness :
  (exists s', doMoveTo (Entry_new (mkDir (lit "/a") 1 None) (lit "b")) (ADir (mkDir [47] 0 None)) (lit "c") fs_ex = (s', Ok tt) /\ node_at s' m_root [lit "c"; lit "f"] = Some (FileNode 0)) /\
  doRename (Entry_new (mkDir (lit "/a") 1 None) (lit "b")) (lit "b") fs_ex = (fs_ex, Ok tt).
Proof.
  destruct fs_ex_handle as (HS & HH & HH0). split.
  - destruct (file_system_moves fs_ex _ _ (lit "b") _ _ (lit "c") HS HH HH0 eq_refl) as [_ H]. specialize (H eq_refl ltac:(by intros [? _]) ltac:(by intros R)). destruct (node_at fs_ex m_root ([lit "a"] ++ [lit "b"])) as [c|] eqn:EN; [|vm_compute in EN; discriminate]. vm_compute in EN. injection EN as <-. destruct (may_replace _ _) eqn:E; [|vm_compute in E; discriminate]. destruct H as (s' & H1 & _ & _ & H2 & _). exists s'. split; [exact H1|]. etransitivity; [exact (H2 [lit "f"])|]. vm_compute. reflexivity.
  - destruct (file_system_moves fs_ex _ _ (lit "b") _ _ (lit "b") HS HH HH0 eq_refl) as [H _]. vm_compute in H |- *. exact H.
Defined.

(** ** Erasing a directory's content *)

Lemma node_dir s k P k' : node_at s k P = Some (DirectoryNode k') <-> dir_at s k P = Some k'.
Proof. revert k. induction P as [|c P IH]; intros k; cbn; [naive_solver|]. destruct (entry s k c) as [[f|k1]|]; [by destruct P|apply IH|done]. Qed.
Lemma read_entries_ok fuel d pos s : (length (drop pos (nodes_of s (dir_content d))) < fuel)%nat -> read_entries fuel (mkEnum d pos) s = (s, Ok (map (fun n => Entry_new d (name n)) (drop pos (nodes_of s (dir_content d))))).
Proof.
  revert pos. induction fuel as [|fuel IH]; intros pos Hf; [lia|]. cbn [read_entries]. unfold fbind at 1, getNextElement. cbn [en_parent m_iterator]. destruct (nodes_of s (dir_content d) !! pos) as [n|] eqn:E.
  - rewrite (drop_S _ _ _ E) in *. cbn [length map] in *. unfold fbind, fret. replace (pos + 1)%nat with (S pos) by lia. by rewrite IH by lia.
  - apply lookup_ge_None in E. by rewrite drop_ge.
Qed.
(** What there is at and below a path ends before a depth. *)
Definition depth_below (s : Fs) (P : list (list Z)) (n : nat) : Prop := forall R c, node_at s m_root (P ++ R) = Some c -> (length R < n)%nat.
(** Everything below a path is gone, and nothing else. *)
Definition emptied (s s' : Fs) (P : list (list Z)) : Prop :=
  fs_ok s' /\ f_streams s' = f_streams s /\ (forall c R, node_at s' m_root (P ++ c :: R) = None) /\ forall Q, (forall c R, Q <> P ++ c :: R) -> node_at s' m_root Q = node_at s m_root Q.
Lemma type_of_entry s d nm : exists e, e_parent e = d /\ e_name e = nm /\
  Entry_getFileType (Entry_new d nm) s = (s, Ok (match entry s (dir_content d) nm with Some (FileNode _) => tFile | Some (DirectoryNode _) => tDirectory | None => tUnknown end, e)) /\
  exists e', e_parent e' = d /\ e_name e' = nm /\ (forall k, entry s (dir_content d) nm = Some (DirectoryNode k) -> Entry_getFlags e s = (s, Ok ([], e'))).
Proof.
  unfold Entry_getFileType, entry, find_content, Entry_updateInfo, entry_list. cbn [Entry_new e_info e_parent e_name]. unfold getFileType, fetchInfo, available, Info_new. cbn [m_availableInfo m_requestedInfo]. change (Z.land 0 InfoType =? InfoType) with false. cbn [negb].
  destruct (findNode (nodes_of s (dir_content d)) nm) as [[nm' [f|k]]|] eqn:E; cbn [fmap option_fmap option_map content]; eexists; (split; [|split; [|split; [reflexivity|]]]); try done; eexists (mkEntry _ d nm); (split; [done|split; [done|]]); intros k' Hk; try done.
  unfold Entry_getFlags, getFlags, fetchInfo, Entry_updateInfo, entry_list. cbn [e_info e_parent e_name]. rewrite E. cbn. reflexivity.
  Unshelve. all: exact Info_new.
Qed.
Lemma entry_gone s k : fs_ok s -> (forall nm, entry s k nm = None) -> nodes_of s k = [].
Proof. intros HS HN. destruct (nodes_of s k) as [|n l] eqn:E; [done|]. specialize (HN (name n)). unfold entry in HN. rewrite E in HN. apply find_content_none in HN. exfalso. apply HN. constructor. Qed.
Lemma snoc_cons {A} (P : list A) a R : (P ++ [a]) ++ R = P ++ a :: R.
Proof. by rewrite <- app_assoc. Qed.
Lemma erase_entries_ok fuel d P ns s :
  (forall s d P, fs_ok s -> handle s d P -> depth_below s P fuel -> exists s', eraseContentRecursively fuel d s = (s', Ok tt) /\ emptied s s' P) ->
  fs_ok s -> handle s d P -> depth_below s P (S fuel) -> NoDup ns -> (forall nm, nm ∈ ns <-> entry s (dir_content d) nm <> None) ->
  exists s', erase_entries (eraseContentRecursively fuel) (map (Entry_new d) ns) s = (s', Ok tt) /\ emptied s s' P.
Proof.
  intros IHf. revert s. induction ns as [|nm ns IH]; intros s HS HH HB HN HE.
  - exists s. split; [done|]. split; [done|]. split; [done|]. split; [|done]. intros c R. rewrite node_at_app, (proj1 HH). cbn. destruct (entry s (dir_content d) c) as [x|] eqn:E; [|done]. exfalso. assert (HX : c ∈ []) by (apply HE; by rewrite E). by apply elem_of_nil in HX.
  - apply NoDup_cons in HN as [Hnm HN]. cbn [map erase_entries]. destruct (type_of_entry s d nm) as (e & He1 & He2 & HT & e' & He1' & He2' & HF). unfold fbind at 1. rewrite HT. cbn match.
    assert (HC : exists c, entry s (dir_content d) nm = Some c) by (destruct (entry s (dir_content d) nm) as [c|] eqn:E; [by exists c|]; exfalso; by apply (proj1 (HE nm) ltac:(constructor))). destruct HC as [c HC].
    assert (HLen : forall (x : list Z) R y, P ++ [nm] <> P ++ x :: y :: R) by (intros x R y HQ; apply (f_equal length) in HQ; rewrite !length_app in HQ; cbn in HQ; lia).
    (** the entry's own content, if any, is erased first *)
    assert (HS1 : exists s1, (if bool_decide (match entry s (dir_content d) nm with Some (FileNode _) => tFile | Some (DirectoryNode _) => tDirectory | None => tUnknown end = tDirectory) then let% (flags, e) := Entry_getFlags e in if negb (bool_decide (Link ∈ flags)) then let% sub := Entry_openDirectory e in eraseContentRecursively fuel sub else fret tt else fret tt) s = (s1, Ok tt) /\ emptied s s1 (P ++ [nm])).
    { rewrite HC. destruct c as [f|k]; [rewrite bool_decide_eq_false_2 by done; exists s; split; [done|]; split; [done|]; split; [done|]; split; [|done]; intros x R; rewrite snoc_cons, node_at_app, (proj1 HH); cbn; by rewrite HC|].
      rewrite bool_decide_eq_true_2 by done. unfold fbind at 1. rewrite (HF k HC). rewrite bool_decide_eq_false_2 by (by intros ?%elem_of_nil). cbn [negb]. unfold fbind at 1, Entry_openDirectory, fbind at 1, get_nodes, entry_list. rewrite He1', He2', (found_node s _ _ _ HS HC). unfold fret at 1. cbn match.
      apply IHf; [done| |intros R c HR; rewrite snoc_cons in HR; apply HB in HR; cbn in HR; lia]. split; [cbn; apply dir_at_snoc; exists (dir_content d); by split; [apply HH|]|]. cbn. unfold getPathName. rewrite He1', He2', (proj2 HH). apply makePathName_text; [eapply dir_at_good; [done|apply HH]|by eapply ok_names]. }
    destruct HS1 as (s1 & H1 & HS1 & HF1 & HB1 & HO1). unfold fbind at 1. rewrite H1. assert (HP1 : node_at s1 m_root P = node_at s m_root P) by (apply HO1; intros x R HQ; apply (f_equal length) in HQ; rewrite !length_app in HQ; cbn in HQ; lia).
    assert (HH1 : handle s1 d P) by (split; [apply node_dir; rewrite HP1; apply node_dir, HH|apply HH]). assert (HC1 : entry s1 (dir_content d) nm = Some c) by (rewrite <- (node_entry s1 d P nm HH1), HO1 by (intros x R; rewrite snoc_cons; apply HLen); by rewrite (node_entry s d P nm HH)).
    pose proof (doErase_spec s1 (cleared e) HS1) as HX. cbn zeta in HX. unfold entry_list in HX. cbn [cleared e_parent e_name] in HX. rewrite He1, He2, HC1 in HX.
    assert (HR : exists s2, doErase (cleared e) s1 = (s2, Ok tt) /\ removed s1 s2 (dir_content d) nm).
    { destruct c as [f|k]; [done|]. assert (HK : nodes_of s1 k = []); [|by rewrite bool_decide_eq_true_2 in HX]. apply entry_gone; [done|]. intros x. specialize (HB1 x []). rewrite snoc_cons in HB1. rewrite node_at_app, (proj1 HH1) in HB1. cbn in HB1. rewrite HC1 in HB1. by destruct (entry s1 k x) as [[|]|]. }
    destruct HR as (s2 & H2 & HS2 & HF2 & HE2). unfold fbind at 1. cbn [erase snd]. rewrite H2. assert (HLeaf : leaf s1 (entry s1 (dir_content d) nm)). { rewrite HC1. destruct c as [f|k]; [done|]. intros x. specialize (HB1 x []). rewrite snoc_cons in HB1. rewrite node_at_app, (proj1 HH1) in HB1. cbn in HB1. rewrite HC1 in HB1. by destruct (entry s1 k x) as [[|]|]. }
    pose proof (changed_paths s1 s2 P _ nm None HS1 (proj1 HH1) HE2 HLeaf I) as HQ2. assert (HA : forall Q, node_at s2 m_root Q = if decide (exists R, Q = P ++ nm :: R) then None else node_at s m_root Q).
    { intros Q. rewrite HQ2. destruct (decide (Q = P ++ [nm])) as [->|HQ]; [rewrite decide_True; [done|by exists []]|]. destruct (decide (exists R, Q = P ++ nm :: R)) as [[R ->]|HX2]; [destruct R as [|x R]; [done|]; specialize (HB1 x R); by rewrite snoc_cons in HB1|]. apply HO1. intros x R ->. apply HX2. exists (x :: R). by rewrite snoc_cons. }
    assert (HH2 : handle s2 d P) by (split; [apply node_dir; rewrite HA, decide_False; [apply node_dir, HH|intros [R HQ]; apply (f_equal length) in HQ; rewrite length_app in HQ; cbn in HQ; lia]|apply HH]).
    destruct (IH s2 HS2 HH2) as (s3 & H3 & HS3 & HF3 & HB3 & HO3).
    + intros R x. rewrite HA. destruct (decide _); [done|]. apply HB.
    + done.
    + intros x. rewrite HE2, <- (node_entry s1 d P x HH1). destruct (decide (dir_content d = dir_content d /\ x = nm)) as [[_ ->]|Hx]; [split; [done|by intros ?]|]. rewrite HO1 by (intros y R; rewrite snoc_cons; intros HQ; apply app_inv_head in HQ; done). rewrite (node_entry s d P x HH), <- HE, elem_of_cons. split; [by right|]. intros [->|]; [tauto|done].
    + exists s3. split; [exact H3|]. split; [done|]. split; [congruence|]. split; [done|]. intros Q HQ. rewrite HO3 by done. rewrite HA, decide_False; [done|]. intros [R ->]. by eapply HQ.
Qed.
Lemma erase_content_ok fuel : forall s d P, fs_ok s -> handle s d P -> depth_below s P fuel -> exists s', eraseContentRecursively fuel d s = (s', Ok tt) /\ emptied s s' P.
Proof.
  induction fuel as [|fuel IH]; intros s d P HS HH HB.
  - exfalso. assert (HX : node_at s m_root (P ++ []) = Some (DirectoryNode (dir_content d))) by (rewrite app_nil_r; apply node_dir, HH). apply HB in HX. lia.
  - cbn [eraseContentRecursively]. unfold fbind at 1, get_nodes. cbn match. unfold fbind at 1, getDirectoryEntries. rewrite read_entries_ok by (rewrite drop_0; lia). rewrite drop_0. cbn match. rewrite <- (map_map name (Entry_new d)). apply erase_entries_ok with (P := P); try done; [apply HS|].
    intros nm. unfold entry. destruct (find_content (nodes_of s (dir_content d)) nm) as [c|] eqn:E.
    + apply find_content_some in E; [|apply HS]. split; [done|]. intros _. change nm with (name (mkNode nm c)). by apply list_elem_of_fmap_2.
    + apply find_content_none in E. split; [done|by intros ?].
Qed.
(** A path is no longer than the number of lists: the directories on it are all different. *)
Lemma path_length s Q c : fs_ok s -> node_at s m_root Q = Some c -> (length Q <= size (f_lists s))%nat.
Proof.
  intros HS HQ. assert (HD : forall i, (i < length Q)%nat -> exists k, dir_at s m_root (take i Q) = Some k).
  { intros i Hi. destruct (lookup_lt_is_Some_2 Q i Hi) as [x Hx]. rewrite <- (take_drop_middle Q i x Hx), node_at_app in HQ. destruct (dir_at s m_root (take i Q)) as [k|]; [by exists k|done]. }
  set (ks := map (fun i => default 0%nat (dir_at s m_root (take i Q))) (seq 0 (length Q))). assert (HN : NoDup ks).
  { apply NoDup_alt. intros i j k Hi Hj. unfold ks in Hi, Hj. rewrite list_lookup_fmap in Hi, Hj. destruct (seq 0 (length Q) !! i) as [a|] eqn:Ea; [|done]. destruct (seq 0 (length Q) !! j) as [b|] eqn:Eb; [|done]. apply lookup_seq in Ea as [-> Ha], Eb as [-> Hb]. cbn in Hi, Hj. destruct (HD i Ha) as [k1 E1], (HD j Hb) as [k2 E2]. rewrite E1 in Hi. rewrite E2 in Hj. injection Hi as ->. injection Hj as ->.
    pose proof (path_unique s _ _ _ HS E1 E2) as HE. apply (f_equal length) in HE. rewrite !length_take in HE. lia. }
  assert (HS2 : length ks = length Q) by (unfold ks; by rewrite length_map, length_seq). rewrite <- HS2, <- size_dom, <- (size_list_to_set (C := gset nat) ks HN). apply subseteq_size. intros k. rewrite elem_of_list_to_set. unfold ks. intros (i & -> & Hi%elem_of_seq)%list_elem_of_fmap. destruct (HD i ltac:(lia)) as [k E]. rewrite E. by eapply reached_exists.
Qed.

(** C10. Directory::eraseContentRecursively ends and succeeds for every directory of the file
    system that is reached by a path, however deep: everything below the directory is gone,
    everything else is as before, and the file system is a tree again.  As many levels of
    recursion as there are directories are enough. *)
Theorem erase_content_terminates s d P : fs_ok s -> handle s d P ->
  exists s', eraseContentRecursively (S (size (f_lists s))) d s = (s', Ok tt) /\ fs_ok s' /\ nodes_of s' (dir_content d) = [] /\
    (forall c R, node_at s' m_root (P ++ c :: R) = None) /\ (forall Q, (forall c R, Q <> P ++ c :: R) -> node_at s' m_root Q = node_at s m_root Q).
Proof.
  intros HS HH. destruct (erase_content_ok (S (size (f_lists s))) s d P HS HH) as (s' & H1 & H2 & _ & H3 & H4).
  - intros R c HR. apply (path_length s _ _ HS) in HR. rewrite length_app in HR. lia.
  - exists s'. split; [done|]. split; [done|]. split; [|by split]. apply entry_gone; [done|]. intros nm. specialize (H3 nm []). assert (HP : dir_at s' m_root P = Some (dir_content d)).
    { apply node_dir. rewrite H4; [apply node_dir, HH|]. intros c R HQ. apply (f_equal length) in HQ. rewrite length_app in HQ. cbn in HQ. lia. }
    rewrite node_at_app, HP in H3. cbn in H3. by destruct (entry s' (dir_content d) nm) as [[|]|].
Qed.
Lemma erase_content_terminates_witness : exists s', eraseContentRecursively 4 (mkDir (lit "/a") 1 None) fs_ex = (s', Ok tt) /\ nodes_of s' 1 = [].
Proof.
  destruct fs_ex_handle as (HS & HH & _). destruct (erase_content_terminates fs_ex _ _ HS HH) as (s' & H1 & _ & H2 & _). exists s'. split; [exact H1|exact H2].
Defined.
