(* ===== verification/Directories.v ===== *)
(** * Virtual directories

    src/afl/io/internaldirectory.cpp: a flat directory of streams; multidirectory.cpp: the
    union of several directories; unchangeabledirectoryentry.cpp.  Streams are references,
    so a directory maps names to their numbers; the content is a PtrMultiList, that is, a
    sequence. *)

From Stdlib Require Import ZArith Lia Bool String.
From stdpp Require Import base tactics numbers option list gmap.
From S2P Require Import Prelude Strings FileSystem.

Local Open Scope Z_scope.
Local Open Scope afl_scope.

(** ** InternalDirectory *)

Module Internal.
Record Node := mkNode { m_name : list Z; m_stream : nat }.
(** The directory, and how many streams exist *)
Record Directory := mkDirectory { d_title : list Z; m_content : list Node; streams : nat }.
Definition create (nm : list Z) (streams : nat) : Directory := mkDirectory nm [] streams.
Definition set_content (l : list Node) (d : Directory) : Directory := mkDirectory (d_title d) l (streams d).
Definition new_stream (d : Directory) : nat * Directory := (streams d, mkDirectory (d_title d) (m_content d) (S (streams d))).
Fixpoint findName (l : list Node) (nm : list Z) : option nat :=
  match l with
  | n :: l' => if negb (bool_decide (m_name n = nm)) then S <$> findName l' nm else Some 0%nat
  | [] => None
  end.
Definition stream_at (d : Directory) (i : nat) : option nat := m_stream <$> m_content d !! i.
Definition set_stream (s : nat) (n : Node) : Node := mkNode (m_name n) s.
Definition set_name (nm : list Z) (n : Node) : Node := mkNode nm (m_stream n).
Definition addStream (nm : list Z) (s : nat) (d : Directory) : Directory :=
  match findName (m_content d) nm with
  | Some p => set_content (alter (set_stream s) p (m_content d)) d
  | None => set_content (m_content d ++ [mkNode nm s]) d
  end.
Definition getStream (nm : list Z) (d : Directory) : option nat := findName (m_content d) nm ≫= stream_at d.
Definition eraseStream (nm : list Z) (d : Directory) : bool * Directory :=
  match findName (m_content d) nm with
  | Some p => (true, set_content (delete p (m_content d)) d)
  | None => (false, d)
  end.
(** The iterator to the old element stays valid when the new one is erased. *)
Definition renameStream (oldName newName : list Z) (d : Directory) : bool * Directory :=
  let oldP := findName (m_content d) oldName in
  let newP := findName (m_content d) newName in
  if bool_decide (oldP = newP) then (match oldP with Some _ => true | None => false end, d)
  else match oldP with
       | None => (false, d)
       | Some o =>
           match newP with
           | Some n => (true, set_content (alter (set_name newName) (shifted n o) (delete n (m_content d))) d)
           | None => (true, set_content (alter (set_name newName) o (m_content d)) d)
           end
       end.

(** *** Entry *)

Definition result (A : Type) : Type := Directory * outcome FsFault A.
Definition Entry_openFile (nm : list Z) (mode : OpenMode) (d : Directory) : result nat :=
  let it := findName (m_content d) nm in
  match mode with
  | OpenRead | OpenWrite => match it ≫= stream_at d with Some s => (d, Ok s) | None => (d, Throw (FileProblem nm fileNotFound)) end
  | Create => let '(s, d) := new_stream d in (match it with Some p => set_content (alter (set_stream s) p (m_content d)) d | None => set_content (m_content d ++ [mkNode nm s]) d end, Ok s)
  | CreateNew => match it with Some _ => (d, Throw (FileProblem nm fileExists)) | None => let '(s, d) := new_stream d in (set_content (m_content d ++ [mkNode nm s]) d, Ok s) end
  end.
Definition Entry_openDirectory (nm : list Z) (d : Directory) : result unit := (d, Throw (FileProblem nm cannotAccessDirectories)).
(** [sizes] are the sizes of the streams. *)
Definition Entry_updateInfo (sizes : nat -> Z) (nm : list Z) (d : Directory) (requested : Z) (i : Info) : Info :=
  match getStream nm d with Some s => setFileSize (sizes s) (setFileType tFile i) | None => i end.
Definition Entry_doRename (nm newName : list Z) (d : Directory) : result unit :=
  let '(ok, d') := renameStream nm newName d in if ok then (d', Ok tt) else (d', Throw (FileProblem nm fileNotFound)).
Definition Entry_doErase (nm : list Z) (d : Directory) : result unit :=
  let '(ok, d') := eraseStream nm d in if ok then (d', Ok tt) else (d', Throw (FileProblem nm fileNotFound)).
Definition Entry_doCreateAsDirectory (nm : list Z) (d : Directory) : result unit := (d, Throw (FileProblem nm cannotAccessDirectories)).
Definition Entry_doSetFlag (nm : list Z) (flag : FileFlag) (value : bool) (d : Directory) : result unit := (d, Throw (FileProblem nm invalidOperation)).
Definition Entry_doMoveTo (nm : list Z) (same_directory : bool) (newName : list Z) (d : Directory) : result unit :=
  if negb same_directory then (d, Throw (FileProblem nm invalidOperation)) else Entry_doRename nm newName d.

(** *** Enum, for a directory that does not change meanwhile *)

Record Enum := mkEnum { m_currentEntry : option (list Z); m_iter : nat }.
(** There are no null elements. *)
Definition next (d : Directory) (iter : nat) : Enum := mkEnum (m_name <$> m_content d !! iter) iter.
Definition getDirectoryEntries (d : Directory) : Enum := next d 0.
Definition advance (d : Directory) (iter : nat) : nat := if (iter <? length (m_content d))%nat then (iter + 1)%nat else iter.
Definition getNextElement (d : Directory) (e : Enum) : option (list Z) * Enum := (m_currentEntry e, next d (advance d (m_iter e))).
End Internal.

(** ** UnchangeableDirectoryEntry *)

Module Unchangeable.
(** The names that getPathName and getTitle return, and the function that opens the file *)
Record Entry := mkEntry { path_name : list Z; title : list Z; m_errorMessage : Message; openFileForReading : outcome FsFault nat }.
Definition failure (e : Entry) : FsFault := FileProblem (if bool_decide (path_name e = []) then title e else path_name e) (m_errorMessage e).
Definition openFile (e : Entry) (mode : OpenMode) : outcome FsFault nat := match mode with OpenRead => openFileForReading e | _ => Throw (failure e) end.
Definition doRename (e : Entry) (newName : list Z) : outcome FsFault unit := Throw (failure e).
Definition doErase (e : Entry) : outcome FsFault unit := Throw (failure e).
Definition doCreateAsDirectory (e : Entry) : outcome FsFault unit := Throw (failure e).
Definition doSetFlag (e : Entry) (flag : FileFlag) (value : bool) : outcome FsFault unit := Throw (failure e).
Definition doMoveTo (e : Entry) (dir : AnyDirectory) (nm : list Z) : outcome FsFault unit := Throw (failure e).
End Unchangeable.

(** ** MultiDirectory *)

Module Multi.
(** What the class uses of a directory: the entry for a name with its type (or an exception),
    the entries in the order of the enumerator, and the title *)
Class DirectoryOps (D E : Type) := {
  getDirectoryEntryByName : D -> list Z -> outcome FsFault E;
  getFileType : E -> FileType;
  entry_title : E -> list Z;
  getDirectoryEntries : D -> list E;
  getTitle : D -> list Z }.
Section Multi.
Context {D E : Type} `{!DirectoryOps D E}.
(** m_directories *)
Definition MultiDirectory : Type := list D.
Definition create : MultiDirectory := [].
Definition addDirectory (dir : D) (m : MultiDirectory) : MultiDirectory := m ++ [dir].
Fixpoint Multi_getDirectoryEntryByName (m : MultiDirectory) (nm : list Z) : outcome FsFault E :=
  match m with
  | [] => Throw (FileProblem nm cannotAccessFiles)
  | d :: m' =>
      match getDirectoryEntryByName d nm with
      | Ok entry => if negb (bool_decide (getFileType entry = tUnknown)) then Ok entry else Multi_getDirectoryEntryByName m' nm
      | Throw (FileProblem _ _) => Multi_getDirectoryEntryByName m' nm
      | Throw e => Throw e
      end
  end.
(** Enum: the names that were seen, the current entry, what the current iterator still has, and
    the directories that follow *)
Record Enum := mkEnum { m_seenFileNames : list (list Z); m_currentEntry : option E; m_currentIterator : option (list E); later : list D }.
(** [while (!found)]; a round takes an entry, ends an iterator or starts one *)
Fixpoint next_loop (fuel : nat) (e : Enum) : Enum :=
  match fuel with
  | O => e
  | S fuel' =>
      match m_currentIterator e with
      | Some (x :: it) =>
          if bool_decide (entry_title x ∈ m_seenFileNames e) then next_loop fuel' (mkEnum (m_seenFileNames e) (Some x) (Some it) (later e))
          else mkEnum (entry_title x :: m_seenFileNames e) (Some x) (Some it) (later e)
      | Some [] => next_loop fuel' (mkEnum (m_seenFileNames e) (m_currentEntry e) None (later e))
      | None =>
          match later e with
          | d :: l => next_loop fuel' (mkEnum (m_seenFileNames e) (m_currentEntry e) (Some (getDirectoryEntries d)) l)
          | [] => mkEnum (m_seenFileNames e) None None []
          end
      end
  end.
Definition work (e : Enum) : nat := (match m_currentIterator e with Some it => S (length it) | None => 0 end + list_sum (map (fun d => 2 + length (getDirectoryEntries d)) (later e)) + 1)%nat.
Definition next (e : Enum) : Enum := next_loop (work e) e.
Definition Multi_getDirectoryEntries (m : MultiDirectory) : Enum := next (mkEnum [] None None m).
Definition getNextElement (e : Enum) : option E * Enum := (m_currentEntry e, next e).
Fixpoint title_loop (m : MultiDirectory) (result : list Z) : list Z :=
  match m with
  | [] => result
  | d :: m' => title_loop m' ((if negb (bool_decide (result = [])) then result ++ lit " + " else result) ++ getTitle d)
  end.
Definition Multi_getTitle (m : MultiDirectory) : list Z := title_loop m [].
End Multi.
Arguments Enum : clear implicits.
End Multi.
