(* ===== verification/DirectoriesProps.v ===== *)
(** * Virtual directories: an InternalDirectory is a map, a MultiDirectory is a union *)

From Stdlib Require Import ZArith Lia Bool String.
From stdpp Require Import base tactics numbers option list gmap.
From S2P Require Import Prelude Strings FileSystem FileSystemProps Directories.

Local Open Scope Z_scope.
Local Open Scope afl_scope.

(** ** Lists of named nodes *)

Lemma find_removed l n r l' : distinct l -> l ≡ₚ n :: r -> l' ≡ₚ r -> distinct l' /\ forall x, find_content l' x = if decide (x = name n) then None else find_content l x.
Proof.
  intros HD HP HP'. assert (HD1 : distinct (n :: r)) by (unfold distinct; by rewrite <- HP). pose proof HD1 as [Hn HD2]%NoDup_cons. split; [unfold distinct; by rewrite HP'|]. intros x. rewrite (find_content_perm r l') by done. destruct (decide (x = name n)) as [->|Hx]; [by apply find_content_none|].
  rewrite (find_content_perm (n :: r) l) by done. by rewrite find_content_cons, bool_decide_eq_false_2.
Qed.
Lemma find_added l n l' : distinct l -> find_content l (name n) = None -> l' ≡ₚ n :: l -> distinct l' /\ forall x, find_content l' x = if decide (x = name n) then Some (content n) else find_content l x.
Proof.
  intros HD HN HP. assert (HD1 : distinct (n :: l)) by (apply NoDup_cons; split; [by apply find_content_none|done]). split; [unfold distinct; by rewrite HP|]. intros x. rewrite (find_content_perm (n :: l) l') by done. rewrite find_content_cons. destruct (decide (x = name n)); [by rewrite bool_decide_eq_true_2|by rewrite bool_decide_eq_false_2].
Qed.

(** ** InternalDirectory *)

Module InternalProps.
Import Internal.
Definition conv (n : Internal.Node) : FileSystem.Node := FileSystem.mkNode (m_name n) (FileNode (m_stream n)).
Definition nodes (d : Directory) : list FileSystem.Node := map conv (m_content d).
Definition dir_ok (d : Directory) : Prop := NoDup (map m_name (m_content d)).
Lemma dir_distinct d : dir_ok d <-> distinct (nodes d).
Proof. unfold dir_ok, distinct, nodes. rewrite map_map. done. Qed.
Lemma findName_iter l nm : findName l nm = findIterator (map conv l) nm.
Proof. induction l as [|n l IH]; [done|]. cbn [findName map findIterator]. cbn [conv name]. rewrite IH. repeat case_bool_decide; naive_solver. Qed.
Lemma getStream_content d nm : FileNode <$> getStream nm d = find_content (nodes d) nm.
Proof.
  unfold getStream, find_content, findNode, nodes. rewrite <- findName_iter. destruct (findName (m_content d) nm) as [i|]; [|done]. cbn. unfold stream_at. rewrite list_lookup_fmap. by destruct (m_content d !! i).
Qed.
Lemma by_content (d' : Directory) (g : list Z -> option nat) : (forall x, find_content (nodes d') x = FileNode <$> g x) -> forall x, getStream x d' = g x.
Proof. intros H x. specialize (H x). rewrite <- getStream_content in H. destruct (getStream x d'), (g x); naive_solver. Qed.
Lemma found_at d nm p : findName (m_content d) nm = Some p -> exists s, m_content d !! p = Some (mkNode nm s) /\ getStream nm d = Some s.
Proof.
  intros HF. pose proof HF as HI. rewrite findName_iter in HI. apply findIterator_some in HI as (n & H1 & <-). rewrite list_lookup_fmap in H1. destruct (m_content d !! p) as [n'|] eqn:E; [|done]. injection H1 as <-. exists (m_stream n'). split; [by destruct n'|]. unfold getStream. rewrite HF. cbn. unfold stream_at. by rewrite E.
Qed.
Lemma name_missing d nm : findName (m_content d) nm = None -> getStream nm d = None /\ find_content (nodes d) nm = None.
Proof. intros H. assert (HG : getStream nm d = None) by (unfold getStream; by rewrite H). split; [done|]. by rewrite <- getStream_content, HG. Qed.
Lemma conv_alter f g i l : (forall n, conv (f n) = g (conv n)) -> map conv (alter f i l) = alter g i (map conv l).
Proof. intros H. revert i. induction l as [|n l IH]; intros i; [done|]. destruct i as [|i]; cbn; [by rewrite H|]. by rewrite <- IH. Qed.
Lemma conv_delete i l : map conv (delete i l) = delete i (map conv l).
Proof. revert i. induction l as [|n l IH]; intros i; [done|]. destruct i as [|i]; cbn; [done|]. by rewrite IH. Qed.
(** The directory as a map, with one name changed *)
Definition maps (d d' : Directory) (nm : list Z) (v : option nat) : Prop := dir_ok d' /\ forall x, getStream x d' = if decide (x = nm) then v else getStream x d.
Lemma put_ok d nm s d' : dir_ok d -> m_content d' = match findName (m_content d) nm with Some p => alter (set_stream s) p (m_content d) | None => m_content d ++ [mkNode nm s] end -> maps d d' nm (Some s).
Proof.
  intros HD HE. apply dir_distinct in HD. assert (HX : distinct (nodes d') /\ forall x, find_content (nodes d') x = if decide (x = nm) then Some (FileNode s) else find_content (nodes d) x).
  - unfold nodes at 1 2. rewrite HE. destruct (findName (m_content d) nm) as [p|] eqn:EF.
    + destruct (found_at d nm p EF) as (s0 & H1 & _). assert (HL : nodes d !! p = Some (FileSystem.mkNode nm (FileNode s0))) by (unfold nodes; by rewrite list_lookup_fmap, H1). rewrite (conv_alter _ (fun n => FileSystem.mkNode (name n) (FileNode s))) by done.
      destruct (find_removed _ _ _ (delete p (nodes d)) HD (lookup_perm _ _ _ HL) (Permutation_refl _)) as [G1 G2]. destruct (find_added (delete p (nodes d)) (FileSystem.mkNode nm (FileNode s)) _ G1 ltac:(rewrite G2; by rewrite decide_True) (alter_perm (fun n => FileSystem.mkNode (name n) (FileNode s)) _ _ _ HL)) as [G3 G4].
      split; [done|]. intros x. rewrite G4. cbn [name content]. destruct (decide (x = nm)); [done|]. rewrite G2. by rewrite decide_False.
    + rewrite map_app. cbn [map conv]. destruct (name_missing d nm EF) as [_ H2]. destruct (find_added (nodes d) (FileSystem.mkNode nm (FileNode s)) (nodes d ++ [FileSystem.mkNode nm (FileNode s)]) HD H2 ltac:(by rewrite Permutation_app_comm)) as [G1 G2]. done.
  - destruct HX as [H1 H2]. split; [by apply dir_distinct|]. apply by_content. intros x. rewrite H2. destruct (decide (x = nm)); [done|]. by rewrite getStream_content.
Qed.
Lemma erase_ok d nm : dir_ok d -> eraseStream nm d = (match getStream nm d with Some _ => true | None => false end, (eraseStream nm d).2) /\ maps d (eraseStream nm d).2 nm None.
Proof.
  intros HD. apply dir_distinct in HD. unfold eraseStream. destruct (findName (m_content d) nm) as [p|] eqn:EF.
  - destruct (found_at d nm p EF) as (s0 & H1 & ->). split; [done|]. assert (HL : nodes d !! p = Some (FileSystem.mkNode nm (FileNode s0))) by (unfold nodes; by rewrite list_lookup_fmap, H1). destruct (find_removed _ _ _ (delete p (nodes d)) HD (lookup_perm _ _ _ HL) (Permutation_refl _)) as [G1 G2]. cbn [name] in G2.
    assert (HE : nodes (set_content (delete p (m_content d)) d) = delete p (nodes d)) by apply conv_delete. split; [apply dir_distinct; cbn [snd]; by rewrite HE|]. apply by_content. intros x. cbn [snd]. rewrite HE, G2. destruct (decide (x = nm)); [done|]. by rewrite getStream_content.
  - destruct (name_missing d nm EF) as [-> _]. split; [done|]. split; [by apply dir_distinct|]. intros x. destruct (decide (x = nm)) as [->|]; [|done]. by apply name_missing.
Qed.
Lemma rename_ok d old new : dir_ok d -> let '(r, d') := renameStream old new d in
  match getStream old d with
  | None => r = false /\ d' = d
  | Some s => r = true /\ dir_ok d' /\ forall x, getStream x d' = if decide (x = new) then Some s else if decide (x = old) then None else getStream x d
  end.
Proof.
  intros HD. unfold renameStream. cbn zeta. destruct (findName (m_content d) old) as [o|] eqn:EO; [|destruct (name_missing d old EO) as [-> _]; case_bool_decide; done]. destruct (found_at d old o EO) as (s & H1 & HG). rewrite HG. apply dir_distinct in HD. assert (HL : nodes d !! o = Some (FileSystem.mkNode old (FileNode s))) by (unfold nodes; by rewrite list_lookup_fmap, H1).
  (** a node gets another name in a list that does not have it *)
  assert (HR : forall l j, distinct l -> l !! j = Some (FileSystem.mkNode old (FileNode s)) -> find_content l new = None -> let l' := alter (fun n => FileSystem.mkNode new (content n)) j l in distinct l' /\ forall x, find_content l' x = if decide (x = new) then Some (FileNode s) else if decide (x = old) then None else find_content l x).
  { intros l j Hd Hj Hn. cbn zeta. destruct (find_removed _ _ _ (delete j l) Hd (lookup_perm _ _ _ Hj) (Permutation_refl _)) as [G1 G2]. cbn [name] in G2. destruct (find_added (delete j l) (FileSystem.mkNode new (FileNode s)) _ G1 ltac:(rewrite G2; by destruct (decide _)) (alter_perm (fun n => FileSystem.mkNode new (content n)) _ _ _ Hj)) as [G3 G4]. split; [done|]. intros x. rewrite G4. cbn [name content]. destruct (decide (x = new)); [done|]. apply G2. }
  destruct (findName (m_content d) new) as [n|] eqn:EN.
  - destruct (found_at d new n EN) as (s2 & H2 & HG2). case_bool_decide as EE.
    + injection EE as ->. rewrite H1 in H2. injection H2 as -> ->. split; [done|]. split; [by apply dir_distinct|]. intros x. destruct (decide (x = new)) as [->|]; done.
    + assert (Hon : o <> n) by congruence. assert (HL2 : nodes d !! n = Some (FileSystem.mkNode new (FileNode s2))) by (unfold nodes; by rewrite list_lookup_fmap, H2). destruct (find_removed _ _ _ (delete n (nodes d)) HD (lookup_perm _ _ _ HL2) (Permutation_refl _)) as [G1 G2]. cbn [name] in G2.
      destruct (HR (delete n (nodes d)) (shifted n o) G1 ltac:(by apply delete_shifted) ltac:(rewrite G2; by rewrite decide_True)) as [G3 G4]. split; [done|]. assert (HE : nodes (set_content (alter (set_name new) (shifted n o) (delete n (m_content d))) d) = alter (fun n => FileSystem.mkNode new (content n)) (shifted n o) (delete n (nodes d))) by (unfold nodes; cbn [set_content m_content]; rewrite (conv_alter _ (fun n => FileSystem.mkNode new (content n))) by done; by rewrite conv_delete).
      split; [apply dir_distinct; by rewrite HE|]. apply by_content. intros x. rewrite HE, G4. destruct (decide (x = new)); [done|]. destruct (decide (x = old)); [done|]. rewrite G2, decide_False by done. by rewrite getStream_content.
  - destruct (name_missing d new EN) as [_ HN]. rewrite bool_decide_eq_false_2 by done. split; [done|]. destruct (HR (nodes d) o HD HL HN) as [G1 G2]. assert (HE : nodes (set_content (alter (set_name new) o (m_content d)) d) = alter (fun n => FileSystem.mkNode new (content n)) o (nodes d)) by (unfold nodes; cbn [set_content m_content]; by rewrite (conv_alter _ (fun n => FileSystem.mkNode new (content n)))).
    split; [apply dir_distinct; by rewrite HE|]. apply by_content. intros x. rewrite HE, G2. destruct (decide (x = new)); [done|]. destruct (decide (x = old)); [done|]. by rewrite getStream_content.
Qed.
(** All elements of the enumerator *)
Fixpoint read_all (fuel : nat) (d : Directory) (e : Enum) : list (list Z) :=
  match fuel with
  | O => []
  | S fuel' => match getNextElement d e with (Some x, e) => x :: read_all fuel' d e | (None, _) => [] end
  end.
Lemma read_all_ok fuel d i : (length (drop i (m_content d)) < fuel)%nat -> read_all fuel d (next d i) = map m_name (drop i (m_content d)).
Proof.
  revert i. induction fuel as [|fuel IH]; intros i Hf; [lia|]. cbn [read_all getNextElement next m_currentEntry m_iter]. destruct (m_content d !! i) as [n|] eqn:E; cbn [fmap option_fmap option_map].
  - rewrite (drop_S _ _ _ E) in *. cbn [map length] in *. f_equal. unfold advance. pose proof (lookup_lt_Some _ _ _ E). rewrite (proj2 (Nat.ltb_lt _ _)) by done. replace (i + 1)%nat with (S i) by lia. apply IH. lia.
  - apply lookup_ge_None in E. by rewrite drop_ge.
Qed.

(** An InternalDirectory is a map from names to streams: adding a stream and creating a
    file set a name, erasing removes it and tells whether it was there, renaming moves the
    stream to the new name and replaces what was there, opening and getStream look a name
    up, other names keep their streams, and the enumerator returns each name once. *)
Theorem internal_directory_correct d nm new s : dir_ok d ->
  maps d (addStream nm s d) nm (Some s) /\
  (let '(r, d') := eraseStream nm d in r = (match getStream nm d with Some _ => true | None => false end) /\ maps d d' nm None) /\
  (let '(r, d') := renameStream nm new d in
   match getStream nm d with
   | None => r = false /\ d' = d
   | Some s => r = true /\ dir_ok d' /\ forall x, getStream x d' = if decide (x = new) then Some s else if decide (x = nm) then None else getStream x d
   end) /\
  Entry_openFile nm OpenRead d = (d, match getStream nm d with Some s => Ok s | None => Throw (FileProblem nm fileNotFound) end) /\
  (let '(d', r) := Entry_openFile nm Create d in r = Ok (streams d) /\ maps d d' nm (Some (streams d))) /\
  (let '(d', r) := Entry_openFile nm CreateNew d in match getStream nm d with Some _ => d' = d /\ r = Throw (FileProblem nm fileExists) | None => r = Ok (streams d) /\ maps d d' nm (Some (streams d)) end) /\
  (let names := read_all (S (length (m_content d))) d (getDirectoryEntries d) in NoDup names /\ forall x, x ∈ names <-> getStream x d <> None).
Proof.
  intros HD. split; [apply put_ok; [done|]; unfold addStream; by destruct (findName (m_content d) nm)|]. split; [destruct (erase_ok d nm HD) as [-> H]; by split|]. split; [by apply rename_ok|]. split; [cbn [Entry_openFile]; fold (getStream nm d); by destruct (getStream nm d)|]. split; [|split].
  - cbn [Entry_openFile new_stream]. split; [done|]. apply put_ok; [done|]. by destruct (findName (m_content d) nm).
  - cbn [Entry_openFile new_stream]. destruct (findName (m_content d) nm) as [p|] eqn:E; [destruct (found_at d nm p E) as (s0 & _ & ->); done|]. destruct (name_missing d nm E) as [-> _]. split; [done|]. apply put_ok; [done|]. by rewrite E.
  - cbn zeta. unfold getDirectoryEntries. rewrite read_all_ok, drop_0 by (rewrite drop_0; lia). split; [done|]. intros x. assert (HX : x ∈ map m_name (m_content d) <-> find_content (nodes d) x <> None).
    { pose proof (find_content_none (nodes d) x) as HN. unfold nodes in HN at 2. rewrite map_map in HN. change (fun x => name (conv x)) with m_name in HN. destruct (find_content (nodes d) x); split; try done; [intros _; destruct (decide (x ∈ map m_name (m_content d))) as [|Hx]; [done|]; by apply HN in Hx|intros Hx; by apply HN in Hx]. }
    rewrite HX, <- getStream_content. by destruct (getStream x d).
Qed.
Lemma internal_directory_correct_witness :
  let d := addStream (lit "b") 8 (addStream (lit "a") 7 (create [] 9)) in
  getStream (lit "c") (renameStream (lit "a") (lit "c") d).2 = Some 7%nat /\ (Entry_openFile (lit "b") CreateNew d).2 = Throw (FileProblem (lit "b") fileExists).
Proof.
  intros d. assert (HD : dir_ok d) by (apply (bool_decide_unpack _); vm_compute; reflexivity). destruct (internal_directory_correct d (lit "a") (lit "c") 0 HD) as (_ & _ & H1 & _). destruct (internal_directory_correct d (lit "b") [] 0 HD) as (_ & _ & _ & _ & _ & H2 & _). split.
  - vm_compute in H1. exact (proj2 (proj2 H1) (lit "c")).
  - exact (proj2 H2).
Defined.
End InternalProps.

(** ** MultiDirectory *)

Module MultiProps.
Import Multi.
Section Multi.
Context {D E : Type} `{!DirectoryOps D E}.
Definition ahead_of (e : Enum D E) : list E := (match m_currentIterator e with Some it => it | None => [] end) ++ concat (map getDirectoryEntries (later e)).
Lemma next_loop_ok fuel e : (work e <= fuel)%nat ->
  let e' := next_loop fuel e in
  firsts entry_title (m_seenFileNames e) (ahead_of e) = match m_currentEntry e' with Some x => x :: firsts entry_title (m_seenFileNames e') (ahead_of e') | None => [] end.
Proof.
  revert e. induction fuel as [|fuel IH]; intros e Hw; [unfold work in Hw; lia|]. destruct e as [seen cur [it|] l]; cbn [next_loop m_currentIterator m_seenFileNames later m_currentEntry].
  - destruct it as [|x it].
    + apply (IH (mkEnum seen cur None l)). unfold work in *. cbn [m_currentIterator later length] in *. lia.
    + unfold ahead_of. cbn [m_currentIterator later app firsts]. destruct (decide (entry_title x ∈ seen)) as [Hx|Hx].
      * rewrite bool_decide_eq_true_2 by done. apply (IH (mkEnum seen (Some x) (Some it) l)). unfold work in *. cbn [m_currentIterator later length] in *. lia.
      * rewrite bool_decide_eq_false_2 by done. done.
  - destruct l as [|d l]; [done|]. unfold ahead_of. cbn [m_currentIterator later app map concat]. apply (IH (mkEnum seen cur (Some (getDirectoryEntries d)) l)). unfold work in *. cbn [m_currentIterator later length map] in *. change (list_sum (?a :: ?b)) with (a + list_sum b)%nat in Hw. lia.
Qed.
Fixpoint read_entries_all (fuel : nat) (e : Enum D E) : list E :=
  match fuel with
  | O => []
  | S fuel' => match getNextElement e with (Some x, e) => x :: read_entries_all fuel' e | (None, _) => [] end
  end.
Lemma read_step fuel e : read_entries_all (S fuel) e = match m_currentEntry e with Some x => x :: read_entries_all fuel (next e) | None => [] end.
Proof. reflexivity. Qed.
Lemma read_multi fuel e : (length (firsts entry_title (m_seenFileNames e) (ahead_of e)) < fuel)%nat ->
  read_entries_all (S fuel) e = match m_currentEntry e with Some x => x :: firsts entry_title (m_seenFileNames e) (ahead_of e) | None => [] end.
Proof.
  revert e. induction fuel as [|fuel IH]; intros e Hf; [lia|]. rewrite read_step. destruct (m_currentEntry e) as [x|]; [|done]. f_equal.
  pose proof (next_loop_ok (work e) e (le_n _)) as HN. cbn zeta in HN. fold (next e) in HN. rewrite HN in Hf |- *.
  destruct (m_currentEntry (next e)) as [y|] eqn:EC; [|by rewrite read_step, EC]. rewrite (IH (next e)) by (cbn [length] in Hf; lia). by rewrite EC.
Qed.
Lemma read_from_start (m : list D) : read_entries_all (length (concat (map getDirectoryEntries m)) + 2) (Multi_getDirectoryEntries m) = firsts entry_title [] (concat (map getDirectoryEntries m)).
Proof.
  unfold Multi_getDirectoryEntries. pose proof (next_loop_ok (work (mkEnum [] None None m)) (mkEnum [] None None m) (le_n _)) as HN. cbn zeta in HN. fold (next (mkEnum [] None None m)) in HN. set (e := next _) in *.
  change (firsts entry_title (m_seenFileNames (mkEnum [] None None m)) (ahead_of (mkEnum [] None None m))) with (firsts entry_title [] (concat (map getDirectoryEntries m))) in HN. pose proof (firsts_length entry_title [] (concat (map getDirectoryEntries m))) as HL. rewrite HN in HL |- *.
  replace (length _ + 2)%nat with (S (length (concat (map getDirectoryEntries m)) + 1)) by lia. destruct (m_currentEntry e) as [x|] eqn:EC; [|by rewrite read_step, EC].
  rewrite read_multi; [by rewrite EC|cbn [length] in HL; lia].
Qed.
(** The directories that are passed over when an entry is asked for *)
Definition passes (nm : list Z) (d : D) : Prop :=
  match getDirectoryEntryByName d nm with Ok e => getFileType e = tUnknown | Throw (FileProblem _ _) => True | Throw _ => False end.
Lemma first_known (m : list D) nm (e : E) : Multi_getDirectoryEntryByName m nm = Ok e <-> exists m1 d m2, m = m1 ++ d :: m2 /\ getDirectoryEntryByName d nm = Ok e /\ getFileType e <> tUnknown /\ Forall (passes nm) m1.
Proof.
  induction m as [|d m IH]; cbn [Multi_getDirectoryEntryByName]; [split; [done|by intros ([|] & ?d & m2 & ? & _)]|].
  assert (HP : passes nm d -> (exists m1 d0 m2, m = m1 ++ d0 :: m2 /\ getDirectoryEntryByName d0 nm = Ok e /\ getFileType e <> tUnknown /\ Forall (passes nm) m1) ->
               exists m1 d0 m2, d :: m = m1 ++ d0 :: m2 /\ getDirectoryEntryByName d0 nm = Ok e /\ getFileType e <> tUnknown /\ Forall (passes nm) m1)
    by (intros HP (m1 & d0 & m2 & -> & H1 & H2 & H3); exists (d :: m1), d0, m2; split_and!; [done|done|done|by constructor]).
  assert (HB : (exists m1 d0 m2, d :: m = m1 ++ d0 :: m2 /\ getDirectoryEntryByName d0 nm = Ok e /\ getFileType e <> tUnknown /\ Forall (passes nm) m1) ->
               (getDirectoryEntryByName d nm = Ok e /\ getFileType e <> tUnknown) \/ passes nm d /\ exists m1 d0 m2, m = m1 ++ d0 :: m2 /\ getDirectoryEntryByName d0 nm = Ok e /\ getFileType e <> tUnknown /\ Forall (passes nm) m1)
    by (intros ([|d1 m1] & d0 & m2 & [= <- ->] & H1 & H2 & H3); [by left|right; apply Forall_cons in H3 as [H3 H4]; split; [done|]; by exists m1, d0, m2]).
  unfold passes in HP, HB at 2. destruct (getDirectoryEntryByName d nm) as [e0|[fn msg| |]] eqn:EG.
  - case_bool_decide as ET; cbn [negb]; [rewrite IH; split; [by apply HP|intros [[[= ->] ?]|[_ ?]]%HB; done]|].
    split; [intros [= ->]; exists [], d, m; by split_and!|intros [[? ?]|[? _]]%HB; done].
  - rewrite IH. split; [by apply HP|intros [[? ?]|[_ ?]]%HB; done].
  - split; [done|intros [[? ?]|[? _]]%HB; done].
  - split; [done|intros [[? ?]|[? _]]%HB; done].
Qed.
End Multi.

(** A MultiDirectory is the union of its directories, where the first directory that has a
    name wins: the enumerator ends and returns the entries of all directories in order,
    without those whose title an earlier entry has, so that titles are distinct and none
    is missing.  An entry that is asked for by name comes from the first directory that
    knows it; directories that throw a FileProblemException are skipped. *)
Theorem multi_directory_correct {D E} `{!DirectoryOps D E} (m : list D) nm :
  let all := concat (map getDirectoryEntries m) in
  let entries := read_entries_all (length all + 2) (Multi_getDirectoryEntries m) in
  NoDup (map entry_title entries) /\
  (forall x, x ∈ entries <-> exists a b, all = a ++ x :: b /\ Forall (fun y => entry_title y <> entry_title x) a) /\
  (forall e : E, Multi_getDirectoryEntryByName m nm = Ok e <->
     exists m1 d m2, m = m1 ++ d :: m2 /\ getDirectoryEntryByName d nm = Ok e /\ getFileType e <> tUnknown /\ Forall (passes nm) m1).
Proof.
  cbn zeta. rewrite read_from_start. split; [apply firsts_distinct|]. split; [|intros e; apply first_known].
  intros x. rewrite firsts_first. split; [intros (a & b & H1 & _ & H2); by exists a, b|].
  intros (a & b & H1 & H2). exists a, b. split; [done|]. split; [apply not_elem_of_nil|done].
Qed.
End MultiProps.
