(* ===== verification/Transforms.v ===== *)
(** * Data transformations

    src/afl/io/transform.hpp: the interface; transformreaderstream.cpp and
    transformdatasink.cpp: reading from a stream, and writing into a sink, through a
    transformation; msexpandtransform.cpp: the decoder of MS-EXPAND files;
    inflatetransform.cpp: gzip and zlib files, with zlib itself as a parameter. *)

From Stdlib Require Import ZArith Lia Bool.
From stdpp Require Import base tactics numbers option list.
From S2P Require Import Prelude Stream Sinks.

Local Open Scope Z_scope.
Local Open Scope afl_scope.

(** ** The interface

    [transform t in room]: the transformation works on the input [in] and an output buffer
    of [room] bytes; what remains are the unprocessed input, and the output that was
    produced or an exception. *)

Class Transform (T : Type) := {
  transform : T -> list Z -> nat -> T * list Z * outcome fault (list Z);
  transform_flush : M T unit }.

(** ** TransformReaderStream *)

Record TransformReader (S T : Type) := mkReader {
  ts_stream : S; ts_transform : T; ts_inputBuffer : list Z; ts_input : list Z; ts_numBytesRead : Z; ts_flushed : bool }.
Arguments mkReader {S T} _ _ _ _ _ _.
Arguments ts_stream {S T} _.
Arguments ts_transform {S T} _.
Arguments ts_inputBuffer {S T} _.
Arguments ts_input {S T} _.
Arguments ts_numBytesRead {S T} _.
Arguments ts_flushed {S T} _.

Section Reader.
Context {S T : Type} `{!Stream S, !Transform T}.
Local Abbreviation R := (TransformReader S T).

(** The buffer is not initialised. *)
Definition TransformReader_new (stream : S) (t : T) (buffer : list Z) : R := mkReader stream t buffer [] 0 false.
(** [m_transform.transform(m_input, out); m_numBytesRead += out.size();] *)
Definition run_transform (room : nat) : M R (list Z) := fun r =>
  match transform (ts_transform r) (ts_input r) room with
  | (t, rest, Ok out) => (mkReader (ts_stream r) t (ts_inputBuffer r) rest (u64 (ts_numBytesRead r + len out)) (ts_flushed r), Ok out)
  | (t, rest, Throw e) => (mkReader (ts_stream r) t (ts_inputBuffer r) rest (ts_numBytesRead r) (ts_flushed r), Throw e)
  end.
(** [m_input = m_inputBuffer; m_input.trim(m_stream.read(m_inputBuffer));]; when read()
    throws, m_input has already become the whole buffer. *)
Definition refill : M R (list Z) := fun r =>
  match read 2048 (ts_stream r) with
  | (s, Ok got) => (mkReader s (ts_transform r) (got ++ drop (length got) (ts_inputBuffer r)) got (ts_numBytesRead r) (ts_flushed r), Ok got)
  | (s, Throw e) => (mkReader s (ts_transform r) (ts_inputBuffer r) (ts_inputBuffer r) (ts_numBytesRead r) (ts_flushed r), Throw e)
  end.
(** [m_transform.flush(); m_flushed = true;] *)
Definition flush_transform : M R unit := fun r =>
  match transform_flush (ts_transform r) with
  | (t, Ok _) => (mkReader (ts_stream r) t (ts_inputBuffer r) (ts_input r) (ts_numBytesRead r) true, Ok tt)
  | (t, Throw e) => (mkReader (ts_stream r) t (ts_inputBuffer r) (ts_input r) (ts_numBytesRead r) (ts_flushed r), Throw e)
  end.
Fixpoint reader_loop (fuel : nat) (size : nat) (did : list Z) : M R (list Z) :=
  match fuel with
  | O => throw out_of_fuel
  | Datatypes.S fuel' =>
      let@ out := run_transform (size - length did) in
      let did := did ++ out in
      if (size <=? length did)%nat then ret did
      else let@ r := get in
           match ts_input r with
           | [] => if ts_flushed r then ret did
                   else let@ got := refill in
                        match got with
                        | [] => let@ _ := flush_transform in reader_loop fuel' size did
                        | _ => reader_loop fuel' size did
                        end
           | _ => reader_loop fuel' size did
           end
  end.
(** The other operations of the stream *)
#[local] Instance TransformReader_stream (fuel : nat) : Stream R := {
  read := fun n => reader_loop fuel (Z.to_nat n) [];
  write := fun _ => throw (FileProblemException cannotWrite);
  flush := ret tt;
  setPos := fun pos => let@ r := get in if negb (pos =? ts_numBytesRead r) then throw (FileProblemException invalidOperation) else ret tt;
  getPos := let@ r := get in ret (ts_numBytesRead r);
  getSize := ret (2 ^ 64 - 1);
  getCapabilities := ret CanRead;
  createFileMapping := fun _ => ret None }.
End Reader.

(** ** TransformDataSink *)

Record TransformSink (T P : Type) := mkTransformSink { tk_transform : option T; tk_other : P }.
Arguments mkTransformSink {T P} _ _.
Arguments tk_transform {T P} _.
Arguments tk_other {T P} _.
Section Sink.
Context {T P : Type} `{!Transform T, !DataSink P}.
Local Abbreviation K := (TransformSink T P).
Definition TransformSink_new (other : P) : K := mkTransformSink None other.
Definition setNewTransform (t : option T) (s : K) : K := mkTransformSink t (tk_other s).
Definition set_tk_other (p : P) (s : K) : K := mkTransformSink (tk_transform s) p.
(** [while (!data.empty())] *)
Fixpoint sink_loop (fuel : nat) (data : list Z) (result : bool) : M K (bool * list Z) :=
  match data with
  | [] => ret (result, [])
  | _ =>
      match fuel with
      | O => throw out_of_fuel
      | Datatypes.S fuel' =>
          let@ s := get in
          match tk_transform s with
          | None => throw out_of_fuel
          | Some t =>
              match transform t data 4096 with
              | (t, rest, Throw e) => let@ _ := put (mkTransformSink (Some t) (tk_other s)) in throw e
              | (t, rest, Ok out) =>
                  let@ _ := put (mkTransformSink (Some t) (tk_other s)) in
                  if negb (length out =? 0)%nat
                  then let@ (result, _) := on tk_other set_tk_other (handleData out) in sink_loop fuel' rest result
                  else sink_loop fuel' rest result
              end
          end
      end
  end.
Definition TransformSink_handleData (fuel : nat) (data : list Z) : M K (bool * list Z) :=
  let@ s := get in
  match tk_transform s with
  | None => on tk_other set_tk_other (handleData data)
  | Some _ => sink_loop fuel data false
  end.
End Sink.

(** ** MsExpandTransform *)

Definition HEADER : list Z := [83; 90; 68; 68; 0x88; 0xF0; 0x27; 0x33; 65].
Definition WINDOW_SIZE : nat := 4096.
Definition next (p : nat) : nat := ((p + 1) mod WINDOW_SIZE)%nat.
Inductive MsState := Header | Control | ReadData | ReadLength | WriteLiteral | WriteBackreference.
(** [m_header] has the bytes of the header that were read; [m_count] counts them and, later,
    the bytes of a back reference that are to be written. *)
Record MsExpand := mkMs { m_window : list Z; m_windowPos : nat; m_state : MsState; m_header : list Z; m_control : Z; m_mask : Z; m_count : nat; m_pos : nat; m_data : Z }.
Definition MsExpand_new : MsExpand := mkMs (replicate WINDOW_SIZE 32) (WINDOW_SIZE - 16) Header [] 0 0 0 0 0.
Definition set_ms_state (s : MsState) (m : MsExpand) : MsExpand := mkMs (m_window m) (m_windowPos m) s (m_header m) (m_control m) (m_mask m) (m_count m) (m_pos m) (m_data m).
(** [*q = m_window[m_windowPos] = v; m_windowPos = next(m_windowPos);] *)
Definition put_byte (v : Z) (m : MsExpand) : MsExpand := mkMs (<[m_windowPos m := v]> (m_window m)) (next (m_windowPos m)) (m_state m) (m_header m) (m_control m) (m_mask m) (m_count m) (m_pos m) (m_data m).
(** One round of the loop that writes a back reference *)
Definition back_byte (m : MsExpand) : Z * MsExpand :=
  let v := nth (m_pos m) (m_window m) 0 in
  let m := put_byte v m in
  (v, mkMs (m_window m) (m_windowPos m) (m_state m) (m_header m) (m_control m) (m_mask m) (m_count m - 1) (next (m_pos m)) (m_data m)).
Fixpoint write_back (room : nat) (m : MsExpand) : MsExpand * list Z :=
  match room with
  | O => (m, [])
  | S room' => if (0 <? m_count m)%nat then let '(v, m) := back_byte m in let '(m, out) := write_back room' m in (m, v :: out) else (m, [])
  end.
Definition add_header (l : list Z) (m : MsExpand) : MsExpand := mkMs (m_window m) (m_windowPos m) (m_state m) (m_header m ++ l) (m_control m) (m_mask m) (m_count m + length l) (m_pos m) (m_data m).
Definition set_control (c : Z) (m : MsExpand) : MsExpand := mkMs (m_window m) (m_windowPos m) ReadData (m_header m) c 1 (m_count m) (m_pos m) (m_data m).
Definition set_data (c : Z) (m : MsExpand) : MsExpand :=
  mkMs (m_window m) (m_windowPos m) (if negb (Z.land (m_control m) (m_mask m) =? 0) then WriteLiteral else ReadLength) (m_header m) (m_control m) (wrap 8 (Z.shiftl (m_mask m) 1)) (m_count m) (m_pos m) c.
Definition set_length (c : Z) (m : MsExpand) : MsExpand :=
  mkMs (m_window m) (m_windowPos m) WriteBackreference (m_header m) (m_control m) (m_mask m) (Z.to_nat (Z.land c 15 + 3)) (Z.to_nat (Z.lor (m_data m) (Z.shiftl (Z.land c 0xF0) 4))) (m_data m).
(** [while (running)]; a round takes a byte of the input or of the output, stops, or leads to a
    round that does *)
Fixpoint ms_loop (fuel : nat) (m : MsExpand) (inp : list Z) (room : nat) (out : list Z) : MsExpand * list Z * outcome fault (list Z) :=
  match fuel with
  | O => (m, inp, Throw out_of_fuel)
  | S fuel' =>
      match m_state m with
      | Header =>
          let k := Nat.min (14 - m_count m) (length inp) in
          let m := add_header (take k inp) m in
          let inp := drop k inp in
          if (14 <=? m_count m)%nat
          then if negb (bool_decide (take 9 (m_header m) = HEADER)) then (m, inp, Throw (InvalidDataException invalidFileHeader))
               else ms_loop fuel' (set_ms_state Control m) inp room out
          else (m, inp, Ok out)
      | Control => match inp with c :: inp => ms_loop fuel' (set_control c m) inp room out | [] => (m, inp, Ok out) end
      | ReadData =>
          if m_mask m =? 0 then ms_loop fuel' (set_ms_state Control m) inp room out
          else match inp with c :: inp => ms_loop fuel' (set_data c m) inp room out | [] => (m, inp, Ok out) end
      | ReadLength => match inp with c :: inp => ms_loop fuel' (set_length c m) inp room out | [] => (m, inp, Ok out) end
      | WriteLiteral =>
          match room with
          | S room' => ms_loop fuel' (set_ms_state ReadData (put_byte (m_data m) m)) inp room' (out ++ [m_data m])
          | O => (m, inp, Ok out)
          end
      | WriteBackreference =>
          let '(m, o) := write_back room m in
          if (m_count m =? 0)%nat then ms_loop fuel' (set_ms_state ReadData m) inp (room - length o) (out ++ o)
          else (m, inp, Ok (out ++ o))
      end
  end.
#[export] Instance ms_expand : Transform MsExpand := {
  transform := fun m inp room => ms_loop (2 * (length inp + room) + 2) m inp room [];
  transform_flush := ret tt }.

(** ** InflateTransform *)

Inductive Personality := Gzip | Raw | Zlib.
Inductive ZResult := Z_OK | Z_STREAM_END | Z_BUF_ERROR | Z_ERROR.
(** zlib: inflateInit2 with its windowBits, and inflate, which takes a number of bytes of its
    input and returns output.  The buffers have less than 4 GiB, so that convertSize changes nothing. *)
Class ZlibOps (Zs : Type) := {
  inflateInit2 : Z -> Zs * ZResult;
  inflate : Zs -> list Z -> nat -> Zs * nat * list Z * ZResult }.
Section Inflate.
Context {Zs : Type} `{!ZlibOps Zs}.
Inductive GzState := CheckHeader | CheckExtraDataLength | CheckExtraData | CheckFileName | CheckComment | CheckHeaderCRC | FinishedHeader | Decompressing (z : Zs) | CheckingTrailer (z : Zs) | EndReached (z : Zs).
(** [m_buffer] has the [m_size] bytes that were stored. *)
Record Inflate := mkInflate { m_personality : Personality; gz_state : GzState; m_buffer : list Z; m_size : nat; m_gzHeaderFlags : Z; m_gzExtraDataLength : nat }.
Definition Inflate_new (pers : Personality) : Inflate := mkInflate pers (match pers with Gzip => CheckHeader | _ => FinishedHeader end) [] 0 0 0.
Definition set_gz (s : GzState) (i : Inflate) : Inflate := mkInflate (m_personality i) s (m_buffer i) (m_size i) (m_gzHeaderFlags i) (m_gzExtraDataLength i).
Definition set_size (n : nat) (i : Inflate) : Inflate := mkInflate (m_personality i) (gz_state i) (m_buffer i) n (m_gzHeaderFlags i) (m_gzExtraDataLength i).
(** [while (m_size < n && !in.empty()) m_buffer[m_size++] = *in.eat();] *)
Definition fill_buffer (n : nat) (inp : list Z) (i : Inflate) : Inflate * list Z :=
  let k := Nat.min (n - m_size i) (length inp) in
  (mkInflate (m_personality i) (gz_state i) (take (m_size i) (m_buffer i) ++ take k inp) (m_size i + k) (m_gzHeaderFlags i) (m_gzExtraDataLength i), drop k inp).
Definition buffer_at (n : nat) (i : Inflate) : Z := nth n (m_buffer i) 0.
(** [while (pc = in.eat()) if ( *pc == 0) { m_state = s; break; }] *)
Fixpoint skip_text (s : GzState) (inp : list Z) (i : Inflate) : Inflate * list Z :=
  match inp with
  | [] => (i, [])
  | c :: inp' => if c =? 0 then (set_gz s i, inp') else skip_text s inp' i
  end.
(** [m_size += in.split(n - m_size).size(); if (m_size >= n) { m_size = 0; m_state = s; }] *)
Definition skip_bytes (n : nat) (s : GzState) (inp : list Z) (i : Inflate) : Inflate * list Z :=
  let k := Nat.min (n - m_size i) (length inp) in
  (if (n <=? m_size i + k)%nat then set_size 0 (set_gz s i) else set_size (m_size i + k) i, drop k inp).
Definition flag (i : Inflate) (b : Z) : bool := negb (Z.land (m_gzHeaderFlags i) b =? 0).
Definition after_trailer (i : Inflate) (z : Zs) (inp : list Z) : Inflate * list Z := match m_personality i with Gzip => skip_bytes 8 (EndReached z) inp i | _ => (set_gz (EndReached z) i, inp) end.
(** One round of the loop; the output it adds *)
Definition gz_round (i : Inflate) (inp : list Z) (room : nat) : Inflate * list Z * outcome fault (list Z) :=
  match gz_state i with
  | CheckHeader =>
      let '(i, inp) := fill_buffer 10 inp i in
      if (10 <=? m_size i)%nat
      then if negb (buffer_at 0 i =? 0x1F) || negb (buffer_at 1 i =? 0x8B) || negb (buffer_at 2 i =? 8) || negb (Z.land (buffer_at 3 i) (Z.lnot 31) =? 0)
           then (i, inp, Throw (InvalidDataException invalidFileHeader))
           else (mkInflate (m_personality i) CheckExtraDataLength (m_buffer i) 0 (buffer_at 3 i) (m_gzExtraDataLength i), inp, Ok [])
      else (i, inp, Ok [])
  | CheckExtraDataLength =>
      if flag i 4
      then let '(i, inp) := fill_buffer 2 inp i in
           if (2 <=? m_size i)%nat
           then (mkInflate (m_personality i) CheckExtraData (m_buffer i) 0 (m_gzHeaderFlags i) (Z.to_nat (wrap 16 (256 * buffer_at 1 i + buffer_at 0 i))), inp, Ok [])
           else (i, inp, Ok [])
      else (set_gz CheckFileName i, inp, Ok [])
  | CheckExtraData =>
      let k := Nat.min (m_gzExtraDataLength i) (length inp) in
      let left := (m_gzExtraDataLength i - k)%nat in
      (mkInflate (m_personality i) (if (left =? 0)%nat then CheckFileName else CheckExtraData) (m_buffer i) (m_size i) (m_gzHeaderFlags i) left, drop k inp, Ok [])
  | CheckFileName => if flag i 8 then let '(i, inp) := skip_text CheckComment inp i in (i, inp, Ok []) else (set_gz CheckComment i, inp, Ok [])
  | CheckComment => if flag i 16 then let '(i, inp) := skip_text CheckHeaderCRC inp i in (i, inp, Ok []) else (set_gz CheckHeaderCRC i, inp, Ok [])
  | CheckHeaderCRC => if flag i 2 then let '(i, inp) := skip_bytes 2 FinishedHeader inp i in (i, inp, Ok []) else (set_gz FinishedHeader i, inp, Ok [])
  | FinishedHeader =>
      let '(z, result) := inflateInit2 (match m_personality i with Zlib => 15 | _ => -15 end) in
      (set_gz (Decompressing z) i, inp, match result with Z_OK => Ok [] | _ => Throw (InvalidDataException invalidCompressedData) end)
  | Decompressing z =>
      let '(z, used, out, result) := inflate z inp room in
      let inp := drop used inp in
      match result with
      | Z_STREAM_END => (set_gz (CheckingTrailer z) i, inp, Ok out)
      | Z_BUF_ERROR | Z_OK => (set_gz (Decompressing z) i, inp, Ok out)
      | Z_ERROR => match inp with [] => (set_gz (Decompressing z) i, inp, Ok out) | _ => (set_gz (EndReached z) i, inp, Throw (InvalidDataException invalidCompressedData)) end
      end
  | CheckingTrailer z => let '(i, inp) := after_trailer i z inp in (i, inp, Ok [])
  | EndReached _ => (i, inp, Ok [])
  end.
Definition at_end (i : Inflate) : bool := match gz_state i with EndReached _ => true | _ => false end.
(** [while (m_state != EndReached && !in.empty() && outIndex < out.size())] *)
Fixpoint gz_loop (fuel : nat) (i : Inflate) (inp : list Z) (room : nat) (out : list Z) : Inflate * list Z * outcome fault (list Z) :=
  if negb (at_end i) && negb (length inp =? 0)%nat && (length out <? room)%nat
  then match fuel with
       | O => (i, inp, Throw out_of_fuel)
       | S fuel' =>
           match gz_round i inp (room - length out) with
           | (i, inp, Ok o) => gz_loop fuel' i inp room (out ++ o)
           | (i, inp, Throw e) => (i, inp, Throw e)
           end
       end
  else (i, inp, Ok out).
#[local] Instance inflate_transform (fuel : nat) : Transform Inflate := {
  transform := fun i inp room => gz_loop fuel i inp room [];
  transform_flush := ret tt }.
End Inflate.
Arguments GzState : clear implicits.
Arguments Inflate : clear implicits.
