(* ===== verification/TransformsProps.v ===== *)
(** * Theorems on transformations

    What a transformation promises ([TransformLaws]), that the readers deliver what the
    transformation of the whole input is, and that the MS-EXPAND decoder is such a
    transformation and inverts the format. *)

From Stdlib Require Import ZArith Lia Bool.
From stdpp Require Import base tactics numbers option list.
From S2P Require Import Prelude Stream MemStream Sinks Transforms.

Local Open Scope Z_scope.
Local Open Scope afl_scope.

(** ** The contract of a transformation

    [yields t x y]: when [x] is all input that is still to come, then the output will be [y];
    [finishes t y]: the same after flush().  As transform.hpp says, a call takes all of the
    input or fills the output. *)
Class TransformLaws (T : Type) `{!Transform T} := {
  yields : T -> list Z -> list Z -> Prop;
  finishes : T -> list Z -> Prop;
  transform_law t inp x y room : yields t (inp ++ x) y ->
    exists t' rest out y', transform t inp room = (t', rest, Ok out) /\ (exists i, inp = i ++ rest) /\ y = out ++ y' /\ yields t' (rest ++ x) y' /\
      (length out <= room)%nat /\ (rest = [] \/ length out = room);
  flush_law t y : yields t [] y -> returns transform_flush t (fun t' _ => finishes t' y);
  finish_law t y room : finishes t y -> exists t', transform t [] room = (t', [], Ok (take room y)) /\ finishes t' (drop room y) }.

Section Reader.
Context {S T : Type} `{!Stream S, !FileLaws S, !Transform T, !TransformLaws T}.
Local Abbreviation R := (TransformReader S T).
(** The reader still has to deliver [y], and it has [n] bytes of the file ahead. *)
Definition delivers (r : R) (y : list Z) (n : nat) : Prop :=
  if ts_flushed r then ts_input r = [] /\ finishes (ts_transform r) y /\ n = 0%nat
  else exists f, rep (ts_stream r) f /\ n = length (f_rest f) /\ yields (ts_transform r) (ts_input r ++ f_rest f) y.

Lemma run_transform_ok r y n room : delivers r y n ->
  returns (run_transform room) r (fun r' out => exists y', y = out ++ y' /\ delivers r' y' n /\ (length out <= room)%nat /\ ts_flushed r' = ts_flushed r /\
    ((length out < room)%nat -> ts_input r' = [] /\ (ts_flushed r = true -> y' = []))).
Proof.
  unfold delivers, returns, run_transform. destruct (ts_flushed r) eqn:EF.
  - intros (HI & HF & ->). rewrite HI. destruct (finish_law (ts_transform r) y room HF) as (t' & -> & HF'). cbn [ts_flushed ts_input ts_transform].
    exists (drop room y). rewrite take_drop. split; [done|]. split; [done|]. split; [rewrite length_take; lia|]. split; [done|]. intros Hl. split; [done|]. intros _. rewrite length_take in Hl. apply drop_ge. lia.
  - intros (f & Hr & -> & HY). destruct (transform_law (ts_transform r) (ts_input r) (f_rest f) y room HY) as (t' & rest & out & y' & -> & _ & -> & HY' & Hl & HC). cbn [ts_flushed ts_input ts_transform ts_stream].
    exists y'. split; [done|]. split; [by exists f|]. split; [done|]. split; [done|]. intros Hlt. destruct HC as [->|HC]; [done|lia].
Qed.
Lemma refill_ok r y n : ts_flushed r = false -> ts_input r = [] -> delivers r y n ->
  returns refill r (fun r' got => ts_flushed r' = false /\ ts_input r' = got /\
    match got with [] => n = 0%nat /\ yields (ts_transform r') [] y | _ => exists k, (k < n)%nat /\ delivers r' y k end).
Proof.
  unfold delivers. intros HF HI HD. rewrite HF in HD. destruct HD as (f & Hr & -> & HY). rewrite HI in HY. cbn [app] in HY. unfold returns, refill.
  pose proof (read_law (ts_stream r) f 2048 Hr ltac:(lia)) as HR. unfold returns in HR. destruct (read 2048 (ts_stream r)) as [s [got|e]]; [|done]. destruct HR as (k & Hg & Hl & Hne & Hr'). cbn [ts_flushed ts_input ts_transform ts_stream]. split; [done|]. split; [done|].
  destruct got as [|c got].
  - destruct (f_rest f) as [|x l] eqn:EF; [done|]. by destruct (Hne ltac:(lia) ltac:(done)).
  - pose proof (f_rest_seek_app f (c :: got) k (rep_pos _ _ Hr) Hg) as HA. exists (length (f_rest (f_seek f (f_pos f + len (c :: got))))). split; [rewrite HA, length_app; cbn; lia|]. rewrite HF. exists (f_seek f (f_pos f + len (c :: got))). split; [done|]. split; [done|]. by rewrite <- HA.
Qed.
Lemma reader_loop_ok fuel size did r y n : delivers r y n -> (length did <= size)%nat -> (n + (if ts_flushed r then 1 else 2) <= fuel)%nat ->
  returns (reader_loop fuel size did) r (fun r' got => got = did ++ take (size - length did) y /\ exists k, (k <= n)%nat /\ delivers r' (drop (size - length did) y) k).
Proof.
  revert did r y n. induction fuel as [|fuel IH]; intros did r y n HD Hdid Hf; [destruct (ts_flushed r); lia|]. cbn [reader_loop].
  eapply returns_bind; [apply (run_transform_ok r y n (size - length did) HD)|]. intros r1 out (y1 & -> & HD1 & Ho & HF1 & HI1). cbn zeta.
  rewrite length_app. destruct (Nat.leb_spec size (length did + length out)) as [Hs|Hs].
  - apply returns_ret. rewrite (take_app_length' out y1), (drop_app_length' out y1) by lia. split; [done|]. exists n. done.
  - destruct HI1 as [HI1 Hend]; [lia|]. apply returns_get. rewrite HI1, HF1. rewrite (take_app_ge out y1), (drop_app_ge out y1) by lia.
    destruct (ts_flushed r) eqn:EF.
    + specialize (Hend eq_refl). subst y1. apply returns_ret. rewrite take_nil, drop_nil, app_nil_r. split; [done|]. exists n. done.
    + eapply returns_bind; [apply (refill_ok r1 y1 n); [by rewrite HF1|done|done]|]. intros r2 got (HF2 & HI2 & HG).
      replace (did ++ out ++ take (size - length did - length out) y1) with ((did ++ out) ++ take (size - length (did ++ out)) y1) by (rewrite <- app_assoc, length_app, Nat.sub_add_distr; done).
      replace (size - length did - length out)%nat with (size - length (did ++ out))%nat by (rewrite length_app; lia).
      destruct got as [|c got].
      * destruct HG as [-> HY]. assert (HFL : returns flush_transform r2 (fun r3 _ => delivers r3 y1 0 /\ ts_flushed r3 = true)).
        { unfold returns, flush_transform. pose proof (flush_law (ts_transform r2) y1 HY) as HL. unfold returns in HL. destruct (transform_flush (ts_transform r2)) as [t [u|e]]; [|done]. cbn. unfold delivers. cbn. by rewrite HI2. }
        eapply returns_bind; [exact HFL|]. intros r3 _ (HD3 & HF3). eapply returns_mono; [apply (IH (did ++ out) r3 y1 0%nat HD3)|]; [rewrite length_app; lia|rewrite HF3; lia|done].
      * destruct HG as (k & Hk & HD2). eapply returns_mono; [apply (IH (did ++ out) r2 y1 k HD2)|]; [rewrite length_app; lia|rewrite HF2; lia|]. intros r4 g (-> & k' & Hk' & HD4). split; [done|]. exists k'. split; [lia|done].
Qed.
End Reader.

Section Pieces.
Context {S T : Type} `{!Stream S, !Transform T}.
(** A sequence of calls of read() *)
Fixpoint read_pieces (fuel : nat) (sizes : list nat) : M (TransformReader S T) (list (list Z)) :=
  match sizes with
  | [] => ret []
  | n :: sizes' => let@ got := reader_loop fuel n [] in let@ rest := read_pieces fuel sizes' in ret (got :: rest)
  end.
Fixpoint pieces_of (sizes : list nat) (y : list Z) : list (list Z) :=
  match sizes with
  | [] => []
  | n :: sizes' => take n y :: pieces_of sizes' (drop n y)
  end.
Lemma read_pieces_ok `{!FileLaws S, !TransformLaws T} fuel sizes r y n : delivers r y n -> (n + 2 <= fuel)%nat ->
  returns (read_pieces fuel sizes) r (fun _ got => got = pieces_of sizes y).
Proof.
  revert r y n. induction sizes as [|k sizes IH]; intros r y n HD Hf; cbn [read_pieces pieces_of]; [done|].
  eapply returns_bind; [apply (reader_loop_ok fuel k [] r y n HD); [cbn; lia|destruct (ts_flushed r); lia]|]. intros r1 got (-> & k1 & Hk1 & HD1). cbn [length app] in *. rewrite Nat.sub_0_r in *.
  eapply returns_bind; [apply (IH r1 (drop k y) k1 HD1); lia|]. intros r2 rest ->. by apply returns_ret.
Qed.
(** A transformation that neither takes input nor makes output, although there is both input
    and room, keeps read() from returning. *)
Lemma reader_stalls fuel n did (r : TransformReader S T) : (length did < n)%nat -> ts_input r <> [] ->
  (forall room, transform (ts_transform r) (ts_input r) room = (ts_transform r, ts_input r, Ok [])) -> (reader_loop fuel n did r).2 = Throw out_of_fuel.
Proof.
  intros Hn Hi HT. revert r Hi HT. induction fuel as [|fuel IH]; intros r Hi HT; [done|]. cbn [reader_loop]. unfold bind at 1, run_transform. rewrite HT. cbn zeta. rewrite app_nil_r.
  destruct (Nat.leb_spec n (length did)); [lia|]. unfold bind, get. cbn [ts_input]. destruct (ts_input r) as [|c l] eqn:EI; [done|]. apply IH; cbn [ts_input ts_transform]; [done|done].
Qed.
End Pieces.

Section Sink.
Context {T P : Type} `{!Transform T, !TransformLaws T, !DataSink P, !ByteSink P}.
(** The peer gets the output for the data, up to what is still in the transformation. *)
Lemma sink_loop_ok fuel data result (s : TransformSink T P) t x y : tk_transform s = Some t -> yields t (data ++ x) y -> sink_ok (tk_other s) -> (length y < fuel)%nat ->
  returns (sink_loop fuel data result) s (fun s' _ => exists o y' t', y = o ++ y' /\ s' = mkTransformSink (Some t') (feed (tk_other s) o) /\ yields t' x y').
Proof.
  revert data result s t y. induction fuel as [|fuel IH]; intros data result s t y Ht HY HS Hf; [lia|]. destruct data as [|c data].
  - apply returns_ret. exists [], y, t. rewrite feed_nil. destruct s. cbn in *. subst. done.
  - cbn [sink_loop]. apply returns_get. rewrite Ht. destruct (transform_law t (c :: data) x y 4096%nat HY) as (t' & rest & out & y' & -> & _ & -> & HY' & Hl & HC). apply returns_put. rewrite length_app in Hf.
    assert (Hnext : forall b s1, s1 = mkTransformSink (Some t') (feed (tk_other s) out) -> returns (sink_loop fuel rest b) s1 (fun s' _ => exists o y2 t2, out ++ y' = o ++ y2 /\ s' = mkTransformSink (Some t2) (feed (tk_other s) o) /\ yields t2 x y2)).
    { intros b s1 ->. assert (HG : forall b s1, s1 = mkTransformSink (Some t') (feed (tk_other s) out) -> (length y' < fuel)%nat \/ rest = [] -> returns (sink_loop fuel rest b) s1 (fun s' _ => exists o y2 t2, y' = o ++ y2 /\ s' = mkTransformSink (Some t2) (feed (feed (tk_other s) out) o) /\ yields t2 x y2)).
      { intros b1 s1 -> [Hy| ->]; [apply (IH rest b1 (mkTransformSink (Some t') (feed (tk_other s) out)) t' y'); [done|done|by apply feed_ok|done]|]. destruct fuel; apply returns_ret; exists [], y', t'; rewrite feed_nil; done. }
      eapply returns_mono; [apply (HG b _ eq_refl); destruct HC as [HC|HC]; [by right|left; lia]|]. intros s2 _ (o & y2 & t2 & -> & -> & HY2). exists (out ++ o), y2, t2. rewrite <- app_assoc, sink_absorb_app. done. }
    destruct (Nat.eqb_spec (length out) 0) as [H0|H0]; cbn [negb].
    + apply Hnext. apply nil_length_inv in H0. subst out. by rewrite feed_nil.
    + destruct (sink_law (tk_other s) out HS) as (r0 & HD & _). eapply (returns_bind_on tk_other set_tk_other (handleData out) _ _ (fun p a => p = feed (tk_other s) out)); [unfold returns; cbn [tk_other]; by rewrite HD|]. intros p [b q] ->. apply Hnext. done.
Qed.
End Sink.

(** ** The MS-EXPAND decoder as a transformation *)

(** The output that a state still has to write, *)
Definition drain (m : MsExpand) : MsExpand * list Z :=
  match m_state m with
  | WriteLiteral => (set_ms_state ReadData (put_byte (m_data m) m), [m_data m])
  | WriteBackreference => let '(m, o) := write_back (m_count m) m in (set_ms_state ReadData m, o)
  | _ => (m, [])
  end.
(** the step for a byte of input when nothing has to be written, *)
Definition eat (m : MsExpand) (c : Z) : option MsExpand :=
  match m_state m with
  | Header =>
      let m := add_header [c] m in
      if (14 <=? m_count m)%nat then if bool_decide (take 9 (m_header m) = HEADER) then Some (set_ms_state Control m) else None else Some m
  | Control => Some (set_control c m)
  | ReadData => Some (if m_mask m =? 0 then set_control c m else set_data c m)
  | ReadLength => Some (set_length c m)
  | _ => None
  end.
(** and the output for a whole input *)
Fixpoint ms_run (m : MsExpand) (inp : list Z) : option (list Z) :=
  let '(m, o) := drain m in
  match inp with
  | [] => Some o
  | c :: inp' => match eat m c with Some m' => (fun y => o ++ y) <$> ms_run m' inp' | None => None end
  end.
Definition ms_ok (m : MsExpand) : Prop :=
  match m_state m with Header => (m_count m < 14)%nat | WriteBackreference => (0 < m_count m)%nat | _ => True end.

Definition quiet (m : MsExpand) : bool := match m_state m with WriteLiteral | WriteBackreference => false | _ => true end.
Lemma run_quiet m inp : quiet m = true -> ms_run m inp = match inp with [] => Some [] | c :: inp' => match eat m c with Some m' => ms_run m' inp' | None => None end end.
Proof.
  intros Hq. destruct inp as [|c inp]; cbn [ms_run]; unfold drain, quiet in *; destruct (m_state m) eqn:E; try done; (destruct (eat m c) as [m'|]; [|done]); cbn; by destruct (ms_run m' inp).
Qed.
Lemma run_control m inp : m_state m = ReadData -> m_mask m = 0 -> ms_run (set_ms_state Control m) inp = ms_run m inp.
Proof. intros HS HM. rewrite !run_quiet by (unfold quiet; cbn; rewrite ?HS; done). destruct inp as [|c inp]; [done|]. unfold eat. cbn [m_state set_ms_state]. rewrite HS, HM. done. Qed.
Lemma fmap_app_nil (o : option (list Z)) : (fun y => [] ++ y) <$> o = o.
Proof. by destruct o. Qed.
Lemma run_literal m inp : m_state m = WriteLiteral -> ms_run m inp = (fun y => m_data m :: y) <$> ms_run (set_ms_state ReadData (put_byte (m_data m) m)) inp.
Proof.
  intros HS. rewrite (run_quiet (set_ms_state _ _)) by done. destruct inp as [|c inp]; cbn [ms_run]; unfold drain; rewrite HS; [done|]. by destruct (eat _ c).
Qed.

Lemma back_byte_state m : m_state (back_byte m).2 = m_state m.
Proof. done. Qed.
Lemma write_back_facts room m :
  let '(m', o) := write_back room m in
  length o = Nat.min room (m_count m) /\ m_count m' = (m_count m - length o)%nat /\ m_state m' = m_state m /\ m_header m' = m_header m /\ m_control m' = m_control m /\ m_mask m' = m_mask m.
Proof.
  revert m. induction room as [|room IH]; intros m; cbn [write_back]; [cbn [length]; split_and!; done || lia|]. destruct (Nat.ltb_spec 0 (m_count m)) as [Hc|Hc]; [|cbn [length]; split_and!; done || lia].
  specialize (IH (back_byte m).2). assert (HC : m_count (back_byte m).2 = (m_count m - 1)%nat) by done. destruct (back_byte m) as [v m0] eqn:EB. cbn [snd] in *. destruct (write_back room m0) as [m' o]. cbn [length]. destruct IH as (H1 & H2 & H3). injection EB as _ <-. split_and!; [lia|lia|apply H3..].
Qed.
Lemma write_back_done room m : m_count m = 0%nat -> write_back room m = (m, []).
Proof. intros H. destruct room; cbn [write_back]; [done|]. by rewrite H. Qed.
Lemma write_back_add a b m : write_back (a + b) m = let '(m1, o1) := write_back a m in let '(m2, o2) := write_back b m1 in (m2, o1 ++ o2).
Proof.
  revert m. induction a as [|a IH]; intros m; cbn [write_back Nat.add]; [by destruct (write_back b m)|]. destruct (Nat.ltb_spec 0 (m_count m)) as [Hc|Hc]; [|by rewrite write_back_done by lia].
  destruct (back_byte m) as [v m0]. rewrite IH. destruct (write_back a m0) as [m1 o1]. by destruct (write_back b m1).
Qed.
Lemma run_back_all m inp : m_state m = WriteBackreference -> ms_run m inp = let '(m', o) := write_back (m_count m) m in (fun y => o ++ y) <$> ms_run (set_ms_state ReadData m') inp.
Proof.
  intros HS. destruct (write_back (m_count m) m) as [m' o] eqn:E. rewrite (run_quiet (set_ms_state ReadData m')) by done. destruct inp as [|c inp]; cbn [ms_run]; unfold drain; rewrite HS, E; [cbn; by rewrite app_nil_r|]. by destruct (eat _ c).
Qed.
Lemma run_back room m inp : m_state m = WriteBackreference ->
  let '(m', o) := write_back room m in
  ms_run m inp = (fun y => o ++ y) <$> ms_run (if (m_count m' =? 0)%nat then set_ms_state ReadData m' else m') inp.
Proof.
  intros HS. pose proof (write_back_facts room m) as HF. rewrite run_back_all by done. destruct (write_back room m) as [m1 o1] eqn:E1. destruct HF as (Hl & Hc & Hs & _). destruct (Nat.eqb_spec (m_count m1) 0) as [H0|H0].
  - replace room with (m_count m + (room - m_count m))%nat in E1 by lia. rewrite write_back_add in E1. pose proof (write_back_facts (m_count m) m) as HF2. destruct (write_back (m_count m) m) as [m2 o2]. destruct HF2 as (Hl2 & Hc2 & _). rewrite write_back_done in E1 by lia. injection E1 as <- <-. by rewrite app_nil_r.
  - replace (m_count m) with (room + m_count m1)%nat by lia. rewrite write_back_add, E1, (run_back_all m1) by congruence. destruct (write_back (m_count m1) m1) as [m2 o2]. destruct (ms_run (set_ms_state ReadData m2) inp); cbn; [by rewrite <- app_assoc|done].
Qed.
Lemma run_header l m inp : m_state m = Header -> (m_count m + length l <= 14)%nat -> l <> [] ->
  ms_run m (l ++ inp) = if (m_count m + length l =? 14)%nat then if bool_decide (take 9 (m_header m ++ l) = HEADER) then ms_run (set_ms_state Control (add_header l m)) inp else None
                        else ms_run (add_header l m) inp.
Proof.
  revert m. induction l as [|c l IH]; intros m HS Hc Hl; [done|]. cbn [app]. rewrite run_quiet by (unfold quiet; by rewrite HS). unfold eat. rewrite HS. cbn [m_count add_header m_header length]. cbn [length] in Hc.
  destruct l as [|d l].
  - cbn [app length]. destruct (Nat.leb_spec 14 (m_count m + 1)) as [H1|H1]; destruct (Nat.eqb_spec (m_count m + 1) 14) as [H2|H2]; try lia; [|done]. case_bool_decide; done.
  - destruct (Nat.leb_spec 14 (m_count m + 1)) as [H1|H1]; [cbn [length] in Hc; lia|]. rewrite IH by (done || (cbn [m_count add_header length] in *; lia)). cbn [m_count add_header m_header length].
    assert (HA : add_header (d :: l) (add_header [c] m) = add_header (c :: d :: l) m) by (unfold add_header; cbn; f_equal; [by rewrite <- app_assoc|lia]). rewrite HA, <- app_assoc. cbn [app]. replace (m_count m + 1 + Datatypes.S (length l))%nat with (m_count m + Datatypes.S (Datatypes.S (length l)))%nat by lia. done.
Qed.

(** What a run of the loop does: it returns the output up to where it stopped. *)
Definition loop_spec (r : MsExpand * list Z * outcome fault (list Z)) (inp x y out : list Z) (room : nat) : Prop :=
  exists m' rest o y', r = (m', rest, Ok (out ++ o)) /\ (exists i, inp = i ++ rest) /\ y = o ++ y' /\ ms_ok m' /\ ms_run m' (rest ++ x) = Some y' /\ (length o <= room)%nat /\ (rest = [] /\ quiet m' = true \/ length o = room).
Definition idle (m : MsExpand) : nat := match m_state m with ReadData => if m_mask m =? 0 then 1 else 0 | _ => 0 end.
Lemma loop_stop m inp x y out room : ms_ok m -> ms_run m (inp ++ x) = Some y -> inp = [] /\ quiet m = true \/ room = 0%nat -> loop_spec (m, inp, Ok out) inp x y out room.
Proof. intros Hm HY HC. exists m, inp, [], y. rewrite app_nil_r. split_and!; try done; [by exists []|cbn; lia|]. destruct HC as [[-> ?]| ->]; [by left|by right]. Qed.
Lemma loop_wrote r inp x y1 o1 out room : loop_spec r inp x y1 (out ++ o1) (room - length o1) -> (length o1 <= room)%nat -> loop_spec r inp x (o1 ++ y1) out room.
Proof.
  intros (m' & rest & o & y' & -> & HI & -> & Hm & HY & Hl & HC) Ho. exists m', rest, (o1 ++ o), y'. rewrite !app_assoc, length_app. split_and!; try done; [lia|]. destruct HC as [HC|HC]; [by left|right; lia].
Qed.
Lemma loop_ate r i inp x y out room : loop_spec r inp x y out room -> loop_spec r (i ++ inp) x y out room.
Proof. intros (m' & rest & o & y' & -> & [i' ->] & H). exists m', rest, o, y'. split; [done|]. split; [exists (i ++ i'); by rewrite app_assoc|done]. Qed.
Lemma loop_ate_eq r i inp' inp x y out room : inp = i ++ inp' -> loop_spec r inp' x y out room -> loop_spec r inp x y out room.
Proof. intros ->. apply loop_ate. Qed.
Lemma ms_loop_ok fuel m inp x y room out : ms_ok m -> ms_run m (inp ++ x) = Some y -> (2 * (length inp + room) + idle m < fuel)%nat -> loop_spec (ms_loop fuel m inp room out) inp x y out room.
Proof.
  revert m inp y room out. induction fuel as [|fuel IH]; intros m inp y room out Hm HY Hf; [lia|]. unfold idle in Hf. cbn [ms_loop]. destruct (m_state m) eqn:HS.
  - unfold ms_ok in Hm. rewrite HS in Hm. set (k := Nat.min (14 - m_count m) (length inp)). cbn zeta. destruct (Nat.eq_dec k 0%nat) as [Hk|Hk].
    { assert (length inp = 0%nat) as H0 by lia. apply nil_length_inv in H0. subst inp. rewrite Hk, take_0, drop_0. destruct (Nat.leb_spec 14 (m_count (add_header [] m))) as [H1|H1]; [cbn in H1; lia|].
      apply loop_stop; [unfold ms_ok; cbn; rewrite HS; cbn; lia| |left; split; [done|unfold quiet; cbn; by rewrite HS]]. rewrite <- HY. f_equal. destruct m. unfold add_header. cbn. by rewrite app_nil_r, Nat.add_0_r. }
    assert (HT : take k inp <> []) by (intros H%(f_equal length); rewrite length_take in H; cbn in H; lia). assert (HL : length (take k inp) = k) by (rewrite length_take; lia).
    rewrite <- (take_drop k inp) in HY at 1. rewrite <- app_assoc, run_header in HY by (done || lia). rewrite HL in HY. cbn [m_count add_header m_header]. rewrite HL.
    destruct (Nat.eqb_spec (m_count m + k) 14) as [H14|H14].
    + destruct (Nat.leb_spec 14 (m_count m + k)) as [_|?]; [|lia]. case_bool_decide as HB; [|done]. cbn [negb]. apply (loop_ate_eq _ (take k inp) (drop k inp)); [by rewrite take_drop|]. apply IH; [done|done|]. unfold idle. cbn [m_state set_ms_state]. rewrite length_drop. lia.
    + destruct (Nat.leb_spec 14 (m_count m + k)) as [?|_]; [lia|]. apply (loop_ate_eq _ (take k inp) (drop k inp)); [by rewrite take_drop|]. apply loop_stop; [unfold ms_ok; cbn; rewrite HS, HL; lia|done|]. left. split; [apply drop_ge; lia|unfold quiet; cbn; by rewrite HS].
  - destruct inp as [|c inp]; [apply loop_stop; [done|done|left; split; [done|unfold quiet; by rewrite HS]]|]. cbn [app] in HY. rewrite run_quiet in HY by (unfold quiet; by rewrite HS). unfold eat in HY. rewrite HS in HY. apply (loop_ate _ [c]), IH; [done|done|]. unfold idle. cbn [m_state set_control m_mask length] in *. change (1 =? 0) with false. cbn iota. lia.
  - destruct (Z.eqb_spec (m_mask m) 0) as [HM|HM].
    + apply IH; [done|by rewrite run_control|]. unfold idle. cbn [m_state set_ms_state]. lia.
    + destruct inp as [|c inp]; [apply loop_stop; [done|done|left; split; [done|unfold quiet; by rewrite HS]]|]. cbn [app] in HY. rewrite run_quiet in HY by (unfold quiet; by rewrite HS). unfold eat in HY. rewrite HS in HY. destruct (Z.eqb_spec (m_mask m) 0) as [?|_]; [done|].
      apply (loop_ate _ [c]), IH; [unfold ms_ok, set_data; cbn; by destruct (negb _)|done|]. unfold idle, set_data. cbn [m_state length] in *. destruct (negb _); lia.
  - destruct inp as [|c inp]; [apply loop_stop; [done|done|left; split; [done|unfold quiet; by rewrite HS]]|]. cbn [app] in HY. rewrite run_quiet in HY by (unfold quiet; by rewrite HS). unfold eat in HY. rewrite HS in HY. apply (loop_ate _ [c]), IH; [unfold ms_ok, set_length; cbn [m_state m_count]|done|unfold idle; cbn [m_state set_length length] in *; lia].
    assert (0 <= Z.land c 15) by (apply Z.land_nonneg; right; lia). lia.
  - destruct room as [|room]; [apply loop_stop; [done|done|by right]|]. rewrite run_literal in HY by done. destruct (ms_run _ (inp ++ x)) as [y1|] eqn:EY; [|done]. injection HY as <-. change (m_data m :: y1) with ([m_data m] ++ y1). apply loop_wrote; [|cbn; lia].
    replace (S room - length [m_data m])%nat with room by (cbn; lia). apply IH; [done|done|]. unfold idle. cbn [m_state set_ms_state]. destruct (_ =? 0); lia.
  - unfold ms_ok in Hm. rewrite HS in Hm. pose proof (run_back room m (inp ++ x) HS) as HB. pose proof (write_back_facts room m) as HF. destruct (write_back room m) as [m1 o1]. destruct HF as (Hl & Hc & Hs & _). rewrite HB in HY.
    destruct (Nat.eqb_spec (m_count m1) 0) as [H0|H0]; destruct (ms_run _ (inp ++ x)) as [y1|] eqn:EY; try done; injection HY as <-; apply loop_wrote; try lia.
    + apply IH; [done|done|]. unfold idle. cbn [m_state set_ms_state]. destruct (_ =? 0); lia.
    + apply loop_stop; [unfold ms_ok; rewrite Hs, HS; lia|done|right; lia].
Qed.
#[export] Instance ms_laws : TransformLaws MsExpand.
Proof.
  apply (Build_TransformLaws MsExpand _ (fun m x y => ms_ok m /\ ms_run m x = Some y) (fun m y => ms_ok m /\ ms_run m [] = Some y)).
  - intros m inp x y room [Hm HY]. destruct (ms_loop_ok (2 * (length inp + room) + 2) m inp x y room [] Hm HY) as (m' & rest & o & y' & HE & H1 & H2 & H3 & H4 & H5); [unfold idle; destruct (m_state m); try lia; destruct (_ =? 0); lia|].
    exists m', rest, o, y'. split; [exact HE|]. destruct H5 as [H5 H6]. split_and!; try done. destruct H6 as [[? _]|?]; [by left|by right].
  - intros m y H. exact H.
  - intros m y room [Hm HY]. destruct (ms_loop_ok (2 * (length (@nil Z) + room) + 2) m [] [] y room [] Hm HY) as (m' & rest & o & y' & HE & [i Hi] & -> & Hm' & HY' & Hl & HC); [unfold idle; destruct (m_state m); try lia; destruct (_ =? 0); lia|].
    symmetry in Hi. apply app_eq_nil in Hi as [-> ->]. cbn [app] in HE, HY'. exists m'. destruct (Nat.eq_dec (length o) room) as [Ho|Ho]; [rewrite take_app_length', drop_app_length' by lia; done|].
    assert (y' = []) as ->. { destruct HC as [[_ HQ]|?]; [|done]. rewrite run_quiet in HY' by done. by injection HY'. }
    rewrite app_nil_r, take_ge, drop_ge by lia. split; [exact HE|done].
Defined.

(** ** The MS-EXPAND format

    A file is a sequence of literals and of copies of a number of bytes from some distance
    back in the output, which is preceded by spaces.  They are stored in groups of eight with
    a control byte. *)
Inductive Token := Literal (c : Z) | Copy (dist count : nat).
Definition token_ok (t : Token) : Prop := match t with Literal c => 0 <= c < 256 | Copy d n => (1 <= d <= WINDOW_SIZE /\ 3 <= n <= 18)%nat end.
Definition hist_at (h : list Z) (d : nat) : Z := if (d <=? length h)%nat then nth (length h - d) h 32 else 32.
Fixpoint copy_bytes (d n : nat) (h : list Z) : list Z := match n with O => [] | S n' => let v := hist_at h d in v :: copy_bytes d n' (h ++ [v]) end.
Definition token_out (h : list Z) (t : Token) : list Z := match t with Literal c => [c] | Copy d n => copy_bytes d n h end.
Fixpoint expand (h : list Z) (ts : list Token) : list Z := match ts with [] => [] | t :: ts' => let o := token_out h t in o ++ expand (h ++ o) ts' end.
Definition place (h : list Z) : nat := ((WINDOW_SIZE - 16 + length h) mod WINDOW_SIZE)%nat.
Definition back (h : list Z) (d : nat) : nat := ((place h + WINDOW_SIZE - d) mod WINDOW_SIZE)%nat.
Definition token_bytes (h : list Z) (t : Token) : list Z :=
  match t with
  | Literal c => [c]
  | Copy d n => let pos := Z.of_nat (back h d) in [pos mod 256; pos / 256 * 16 + (Z.of_nat n - 3)]
  end.
Fixpoint tokens_bytes (h : list Z) (ts : list Token) : list Z := match ts with [] => [] | t :: ts' => token_bytes h t ++ tokens_bytes (h ++ token_out h t) ts' end.
Fixpoint control_byte (ts : list Token) : Z := match ts with [] => 0 | t :: ts' => (match t with Literal _ => 1 | Copy _ _ => 0 end) + 2 * control_byte ts' end.
Fixpoint groups_bytes (h : list Z) (gs : list (list Token)) : list Z :=
  match gs with
  | [] => []
  | g :: gs' => control_byte g :: tokens_bytes h g ++ groups_bytes (h ++ expand h g) gs'
  end.
Definition ms_file (extra : list Z) (gs : list (list Token)) : list Z := HEADER ++ extra ++ groups_bytes [] gs.

Ltac ltb_cases := repeat match goal with |- context [(?a <? ?b)%nat] => destruct (Nat.ltb_spec a b) end.
Lemma window_pos : (16 < WINDOW_SIZE)%nat.
Proof. apply Nat.ltb_lt. vm_compute. reflexivity. Qed.
Lemma mod_window a : (a < WINDOW_SIZE + WINDOW_SIZE)%nat -> (a mod WINDOW_SIZE = if a <? WINDOW_SIZE then a else a - WINDOW_SIZE)%nat.
Proof.
  intros Ha. destruct (Nat.ltb_spec a WINDOW_SIZE) as [H|H]; [by apply Nat.mod_small|]. replace a with (a - WINDOW_SIZE + 1 * WINDOW_SIZE)%nat at 1 by lia. rewrite Nat.Div0.mod_add. apply Nat.mod_small. lia.
Qed.
Lemma place_range h : (place h < WINDOW_SIZE)%nat.
Proof. pose proof window_pos. apply Nat.mod_upper_bound. lia. Qed.
Lemma place_next h v : place (h ++ [v]) = next (place h).
Proof. unfold place, next. rewrite length_app. cbn [length]. rewrite Nat.Div0.add_mod_idemp_l. by rewrite Nat.add_assoc. Qed.
(** The window has the last WINDOW_SIZE bytes. *)
Definition win_ok (m : MsExpand) (h : list Z) : Prop :=
  length (m_window m) = WINDOW_SIZE /\ m_windowPos m = place h /\ forall d, (1 <= d <= WINDOW_SIZE)%nat -> nth (back h d) (m_window m) 0 = hist_at h d.
Lemma hist_snoc h v d : (1 <= d)%nat -> hist_at (h ++ [v]) d = if (d =? 1)%nat then v else hist_at h (d - 1).
Proof.
  intros Hd. unfold hist_at. rewrite length_app. cbn [length]. destruct (Nat.eqb_spec d 1) as [->|H1].
  - destruct (Nat.leb_spec 1 (length h + 1)); [|lia]. rewrite app_nth2 by lia. by replace (length h + 1 - 1 - length h)%nat with 0%nat by lia.
  - destruct (Nat.leb_spec d (length h + 1)) as [H2|H2]; destruct (Nat.leb_spec (d - 1) (length h)) as [H3|H3]; try lia. rewrite app_nth1 by lia. f_equal. lia.
Qed.
Lemma back_snoc h v d : (1 <= d <= WINDOW_SIZE)%nat -> back (h ++ [v]) d = if (d =? 1)%nat then place h else back h (d - 1).
Proof.
  intros Hd. unfold back. rewrite place_next. unfold next. pose proof (place_range h) as HP. rewrite (mod_window (place h + 1)) by lia.
  destruct (Nat.ltb_spec (place h + 1) WINDOW_SIZE) as [H|H]; rewrite !mod_window by lia; destruct (Nat.eqb_spec d 1); ltb_cases; lia.
Qed.
Lemma next_back h v d : (d <= WINDOW_SIZE)%nat -> next (back h d) = back (h ++ [v]) d.
Proof.
  intros Hd. unfold back. rewrite place_next. unfold next. replace ((place h + 1) mod WINDOW_SIZE + WINDOW_SIZE - d)%nat with ((place h + 1) mod WINDOW_SIZE + (WINDOW_SIZE - d))%nat by lia. rewrite !Nat.Div0.add_mod_idemp_l. f_equal. lia.
Qed.
Lemma put_byte_ok m h v : win_ok m h -> win_ok (put_byte v m) (h ++ [v]).
Proof.
  intros (HL & HP & HN). unfold win_ok, put_byte. cbn [m_window m_windowPos]. rewrite length_insert. split; [done|]. split; [by rewrite HP, place_next|]. intros d Hd.
  rewrite back_snoc, hist_snoc by lia. pose proof (place_range h) as HR. rewrite nth_lookup, HP. destruct (Nat.eqb_spec d 1) as [->|H1]; [by rewrite list_lookup_insert_eq by lia|].
  rewrite list_lookup_insert_ne; [rewrite <- nth_lookup; apply HN; lia|]. unfold back. rewrite mod_window by lia. destruct (Nat.ltb_spec (place h + WINDOW_SIZE - (d - 1)) WINDOW_SIZE); lia.
Qed.
Lemma win_start : win_ok MsExpand_new [].
Proof.
  split; [apply length_replicate|]. split; [done|]. intros d Hd. cbn [m_window MsExpand_new]. unfold hist_at. destruct (Nat.leb_spec d (length (@nil Z))) as [H|H]; [cbn in H; lia|].
  rewrite nth_lookup, lookup_replicate_2; [done|]. unfold back. pose proof window_pos. apply Nat.mod_upper_bound. lia.
Qed.
(** States that differ in neither window nor position *)
Lemma win_same m m' h : m_window m' = m_window m -> m_windowPos m' = m_windowPos m -> win_ok m h -> win_ok m' h.
Proof. unfold win_ok. by intros -> ->. Qed.
Lemma write_back_copy n m h d : win_ok m h -> m_count m = n -> m_pos m = back h d -> (1 <= d <= WINDOW_SIZE)%nat ->
  exists m', write_back n m = (m', copy_bytes d n h) /\ win_ok m' (h ++ copy_bytes d n h).
Proof.
  revert m h. induction n as [|n IH]; intros m h HW HC HP Hd; cbn [write_back copy_bytes]; [exists m; by rewrite app_nil_r|]. rewrite HC. cbn [Nat.ltb Nat.leb]. unfold back_byte. rewrite HP. pose proof HW as (HL & HPo & HN). rewrite (HN d Hd). cbn zeta.
  set (v := hist_at h d). set (m1 := mkMs _ _ _ _ _ _ _ _ _). assert (HW1 : win_ok m1 (h ++ [v])) by (apply (win_same (put_byte v m)); [done|done|by apply put_byte_ok]).
  destruct (IH m1 (h ++ [v])) as (m' & -> & HW'); [done|cbn; lia| |done|].
  - unfold m1. cbn [m_pos put_byte]. rewrite HP. apply next_back. lia.
  - exists m'. split; [done|]. by rewrite <- app_assoc in HW'.
Qed.

(** The mask of the token with number [i] *)
Definition mask_at (i : nat) : Z := wrap 8 (2 ^ Z.of_nat i).
Lemma mask_next i : wrap 8 (Z.shiftl (mask_at i) 1) = mask_at (S i).
Proof. unfold mask_at, wrap. rewrite Z.shiftl_mul_pow2 by lia. rewrite Zmult_mod_idemp_l. rewrite Nat2Z.inj_succ, Z.pow_succ_r by lia. f_equal. lia. Qed.
Lemma mask_small i : (i < 8)%nat -> mask_at i = 2 ^ Z.of_nat i.
Proof. intros Hi. unfold mask_at, wrap. apply Z.mod_small. split; [apply Z.pow_nonneg; lia|]. apply Z.pow_lt_mono_r; lia. Qed.
Lemma mask_nonzero i : (i < 8)%nat -> mask_at i <> 0.
Proof. intros Hi. rewrite mask_small by done. apply Z.pow_nonzero; lia. Qed.
Lemma land_pow2 c i : 0 <= i -> negb (Z.land c (2 ^ i) =? 0) = Z.testbit c i.
Proof.
  intros Hi. destruct (Z.testbit c i) eqn:E.
  - destruct (Z.eqb_spec (Z.land c (2 ^ i)) 0) as [H|H]; [|done]. apply (f_equal (fun z => Z.testbit z i)) in H. rewrite Z.land_spec, E, Z.pow2_bits_true, Z.bits_0 in H by done. done.
  - destruct (Z.eqb_spec (Z.land c (2 ^ i)) 0) as [H|H]; [done|]. destruct H. apply Z.bits_inj'. intros n Hn. rewrite Z.land_spec, Z.bits_0, Z.pow2_bits_eqb by done. destruct (Z.eqb_spec i n) as [<-|]; [by rewrite E|by rewrite andb_false_r].
Qed.
Definition is_literal (t : Token) : bool := match t with Literal _ => true | _ => false end.
Lemma control_bit g t ts : Z.testbit (control_byte (g ++ t :: ts)) (Z.of_nat (length g)) = is_literal t.
Proof.
  induction g as [|u g IH]; cbn [app control_byte length].
  - change (Z.of_nat 0) with 0. destruct t; cbn [is_literal]; [rewrite Z.add_comm; apply Z.testbit_odd_0|rewrite Z.add_0_l; apply Z.testbit_even_0].
  - rewrite Nat2Z.inj_succ, <- IH. destruct u; [rewrite Z.add_comm; apply Z.testbit_odd_succ; lia|rewrite Z.add_0_l; apply Z.testbit_even_succ; lia].
Qed.
Lemma land_F0 a b : 0 <= a < 16 -> 0 <= b < 16 -> Z.land (a * 16 + b) 15 = b /\ Z.shiftl (Z.land (a * 16 + b) 0xF0) 4 = a * 256.
Proof.
  intros Ha Hb. assert (H15 : Z.land (a * 16 + b) 15 = b) by (change 15 with (Z.ones 4); rewrite Z.land_ones, Z.add_comm by lia; change (2 ^ 4) with 16; rewrite Z.mod_add, Z.mod_small by lia; done). split; [done|].
  assert (HF : Z.land (a * 16 + b) 0xF0 = a * 16).
  { change 0xF0 with (Z.shiftl (Z.ones 4) 4). assert (HS : Z.land (a * 16 + b) (Z.shiftl (Z.ones 4) 4) = Z.shiftl (Z.land (Z.shiftr (a * 16 + b) 4) (Z.ones 4)) 4).
    { apply Z.bits_inj'. intros n Hn. rewrite Z.land_spec, !Z.shiftl_spec by lia. destruct (Z.ltb_spec n 4) as [H|H]; [rewrite !(Z.testbit_neg_r _ (n - 4)) by lia; apply andb_false_r|]. rewrite Z.land_spec, Z.shiftr_spec by lia. by replace (n - 4 + 4) with n by lia. }
    rewrite HS, Z.land_ones, Z.shiftr_div_pow2, Z.shiftl_mul_pow2 by lia. change (2 ^ 4) with 16. rewrite Z.div_add_l, (Z.div_small b), Z.add_0_r, Z.mod_small by lia. done. }
  rewrite HF, Z.shiftl_mul_pow2 by lia. change (2 ^ 4) with 16. lia.
Qed.
Lemma lor_high a b : 0 <= a < 256 -> 0 <= b -> Z.lor a (b * 256) = b * 256 + a.
Proof.
  intros Ha Hb. replace (b * 256) with (Z.shiftl b 8) by (rewrite Z.shiftl_mul_pow2; lia). pose proof (Z.add_lor_land a (Z.shiftl b 8)) as HE. assert (Z.land a (Z.shiftl b 8) = 0) as H0; [|lia].
  apply Z.bits_inj'. intros n Hn. rewrite Z.land_spec, Z.shiftl_spec, Z.bits_0 by lia. destruct (Z.ltb_spec n 8) as [H|H]; [rewrite (Z.testbit_neg_r _ (n - 8)) by lia; apply andb_false_r|]. rewrite <- (Z.mod_small a (2 ^ 8)) by lia. by rewrite Z.mod_pow2_bits_high by lia.
Qed.
Lemma window_Z : Z.of_nat WINDOW_SIZE = 4096.
Proof. vm_compute. reflexivity. Qed.
(** The bytes of a copy give its position and length. *)
Lemma copy_decode h d n m : token_ok (Copy d n) ->
  let m' := set_length (Z.of_nat (back h d) / 256 * 16 + (Z.of_nat n - 3)) (set_data (Z.of_nat (back h d) mod 256) m) in m_count m' = n /\ m_pos m' = back h d.
Proof.
  intros [Hd Hn]. cbn zeta. assert (HB : 0 <= Z.of_nat (back h d) < 4096) by (rewrite <- window_Z; pose proof window_pos; unfold back; split; [lia|]; apply Nat2Z.inj_lt, Nat.mod_upper_bound; lia).
  set (p := Z.of_nat (back h d)) in *. assert (Hq : 0 <= p / 256 < 16) by (split; [apply Z.div_pos; lia|apply Z.div_lt_upper_bound; lia]). destruct (land_F0 (p / 256) (Z.of_nat n - 3) Hq ltac:(lia)) as [H1 H2]. cbn [set_length m_count m_pos set_data m_data]. rewrite H1, H2.
  split; [lia|]. rewrite lor_high by (lia || apply Z.mod_pos_bound; lia). pose proof (Z.div_mod p 256 ltac:(lia)). apply Nat2Z.inj. fold p. lia.
Qed.

(** The state within a group, after [i] tokens and the output [h] *)
Definition within (m : MsExpand) (c : Z) (i : nat) (h : list Z) : Prop := m_state m = ReadData /\ m_control m = c /\ m_mask m = mask_at i /\ win_ok m h.
Lemma token_run m c i h t rest : within m c i h -> (i < 8)%nat -> token_ok t -> Z.testbit c (Z.of_nat i) = is_literal t ->
  exists m', ms_run m (token_bytes h t ++ rest) = (fun y => token_out h t ++ y) <$> ms_run m' rest /\ within m' c (S i) (h ++ token_out h t).
Proof.
  intros (HS & HC & HM & HW) Hi Ht Hb. pose proof (mask_nonzero i Hi) as HN. assert (HQ : forall x l, ms_run m (x :: l) = ms_run (set_data x m) l) by (intros x l; rewrite run_quiet by (unfold quiet; by rewrite HS); unfold eat; rewrite HS, HM; by destruct (Z.eqb_spec (mask_at i) 0)).
  assert (HD : forall x, m_state (set_data x m) = if is_literal t then WriteLiteral else ReadLength) by (intros x; cbn [set_data m_state]; rewrite HC, HM, mask_small, land_pow2 by (done || lia); by rewrite Hb).
  destruct t as [x|d n]; cbn [token_bytes token_out is_literal app] in *.
  - rewrite HQ, run_literal by done. eexists. split; [done|]. split; [done|]. cbn [m_control set_ms_state put_byte set_data m_mask m_data]. split; [done|]. rewrite HM. split; [apply mask_next|]. apply (win_same (put_byte x m)); [done|done|by apply put_byte_ok].
  - destruct (copy_decode h d n m Ht) as [H1 H2]. rewrite HQ, run_quiet by (unfold quiet; by rewrite HD). unfold eat. rewrite HD. set (m2 := set_length _ _) in *. rewrite run_back_all by done. destruct Ht as [Hd Hn].
    pose proof (write_back_facts (m_count m2) m2) as HF. rewrite H1 in *. destruct (write_back_copy n m2 h d) as (m3 & E3 & HW3); [apply (win_same m); [reflexivity|reflexivity|exact HW]|done|done|done|]. rewrite E3 in *. destruct HF as (_ & _ & _ & _ & HC3 & HM3). exists (set_ms_state ReadData m3). split; [done|]. split; [done|]. cbn [m_control set_ms_state m_mask]. rewrite HC3, HM3. split; [done|]. split; [cbn [m2 m_mask set_length set_data]; rewrite HM; apply mask_next|]. by apply (win_same m3).
Qed.
Lemma tokens_run g ts m h rest : (length (g ++ ts) <= 8)%nat -> Forall token_ok ts -> within m (control_byte (g ++ ts)) (length g) h ->
  exists m', ms_run m (tokens_bytes h ts ++ rest) = (fun y => expand h ts ++ y) <$> ms_run m' rest /\ within m' (control_byte (g ++ ts)) (length (g ++ ts)) (h ++ expand h ts).
Proof.
  revert g m h. induction ts as [|t ts IH]; intros g m h Hl Hts Hm; cbn [tokens_bytes expand]; [exists m; rewrite !app_nil_r in *; split; [by rewrite fmap_app_nil|done]|].
  apply Forall_cons in Hts as [Ht Hts]. rewrite length_app in Hl. cbn [length] in Hl. destruct (token_run m _ (length g) h t (tokens_bytes (h ++ token_out h t) ts ++ rest) Hm ltac:(lia) Ht (control_bit g t ts)) as (m1 & E1 & Hm1). rewrite <- app_assoc, E1.
  assert (HG : g ++ t :: ts = (g ++ [t]) ++ ts) by (by rewrite <- app_assoc). rewrite HG in *. destruct (IH (g ++ [t]) m1 (h ++ token_out h t)) as (m2 & E2 & Hm2); [rewrite !length_app; cbn; lia|done|replace (length (g ++ [t])) with (S (length g)) by (rewrite length_app; cbn; lia); exact Hm1|]. rewrite E2. exists m2. split; [destruct (ms_run m2 rest); cbn; [by rewrite <- app_assoc|done]|]. by rewrite <- (app_assoc h (token_out h t)) in Hm2.
Qed.
(** The groups of a file: all but the last are full. *)
Fixpoint groups_ok (gs : list (list Token)) : Prop := match gs with [] => True | g :: gs' => Forall token_ok g /\ (length g <= 8)%nat /\ (gs' <> [] -> length g = 8%nat) /\ groups_ok gs' end.
Definition between (m : MsExpand) (h : list Z) : Prop := (m_state m = Control \/ m_state m = ReadData /\ m_mask m = 0) /\ win_ok m h.
Lemma groups_run gs m h : groups_ok gs -> between m h -> ms_run m (groups_bytes h gs) = Some (expand h (concat gs)).
Proof.
  revert m h. induction gs as [|g gs IH]; intros m h Hg [HS HW]; cbn [groups_bytes concat expand].
  - rewrite run_quiet; [done|]. unfold quiet. by destruct HS as [->|[-> _]].
  - destruct Hg as (Ht & Hl & Hfull & Hg). rewrite run_quiet by (unfold quiet; by destruct HS as [->|[-> _]]). assert (HE : eat m (control_byte g) = Some (set_control (control_byte g) m)) by (unfold eat; destruct HS as [->|[-> ->]]; done). rewrite HE.
    destruct (tokens_run [] g (set_control (control_byte g) m) h (groups_bytes (h ++ expand h g) gs)) as (m' & -> & HS' & HC' & HM' & HW'); [done|done|done|]. cbn [app] in *.
    assert (HEx : forall h ts us, expand h (ts ++ us) = expand h ts ++ expand (h ++ expand h ts) us) by (intros h0 ts; revert h0; induction ts as [|t ts IHt]; intros h0 us; cbn [app expand]; [by rewrite app_nil_r|]; rewrite IHt, <- !app_assoc; done). rewrite HEx.
    destruct gs as [|g2 gs]; [cbn [groups_bytes concat expand]; rewrite run_quiet by (unfold quiet; by rewrite HS'); done|]. rewrite IH; [done|done|]. split; [|done]. right. split; [done|]. rewrite HM', Hfull by done. vm_compute. reflexivity.
Qed.
Lemma ms_file_run extra gs : length extra = 5%nat -> groups_ok gs -> yields MsExpand_new (ms_file extra gs) (expand [] (concat gs)).
Proof.
  intros He Hg. change (ms_ok MsExpand_new /\ ms_run MsExpand_new (ms_file extra gs) = Some (expand [] (concat gs))). split; [unfold ms_ok; cbn; lia|]. unfold ms_file. rewrite app_assoc, (run_header (HEADER ++ extra)) by (rewrite ?length_app, ?He; done || (cbn; lia)). cbn [m_count MsExpand_new m_header app]. rewrite length_app, He. cbn [Nat.eqb Nat.add length HEADER].
  rewrite bool_decide_eq_true_2 by done. apply groups_run; [done|]. split; [by left|]. apply (win_same MsExpand_new); [done|done|apply win_start].
Qed.

(** C11. TransformReaderStream and TransformDataSink deliver the transformation of their input.
    For a transformation that keeps the contract of transform.hpp (a call takes all input or
    fills the output), on a stream that acts as a file: read() always returns, and any
    sequence of reads returns the output for the whole content of the file, cut into pieces
    of the requested sizes, which are short only at its end.  Data that is given to a sink
    leads to the output for it at the peer, up to what the transformation still holds back.
    A transformation that neither takes input nor makes output keeps read() from returning. *)
Theorem transform_reader_correct {S T P} `{!Stream S, !FileLaws S, !Transform T, !TransformLaws T, !DataSink P, !ByteSink P} :
  (forall (s : S) f (t : T) buffer y sizes fuel, rep s f -> yields t (f_rest f) y -> (length (f_rest f) + 2 <= fuel)%nat ->
     returns (read_pieces fuel sizes) (TransformReader_new s t buffer) (fun _ got => got = pieces_of sizes y)) /\
  (forall (p : P) (t : T) data x y fuel, sink_ok p -> yields t (data ++ x) y -> (length y < fuel)%nat ->
     returns (TransformSink_handleData fuel data) (mkTransformSink (Some t) p) (fun s _ => exists o y' t', y = o ++ y' /\ s = mkTransformSink (Some t') (feed p o) /\ yields t' x y')) /\
  (forall fuel n (r : TransformReader S T), (0 < n)%nat -> ts_input r <> [] -> (forall room, transform (ts_transform r) (ts_input r) room = (ts_transform r, ts_input r, Ok [])) ->
     (reader_loop fuel n [] r).2 = Throw out_of_fuel).
Proof.
  split; [|split].
  - intros s f t buffer y sizes fuel Hr HY Hf. apply (read_pieces_ok fuel sizes _ y (length (f_rest f))); [|lia]. unfold delivers. cbn. by exists f.
  - intros p t data x y fuel HP HY Hf. unfold TransformSink_handleData. apply returns_get. cbn [tk_transform]. by apply (sink_loop_ok fuel data false (mkTransformSink (Some t) p) t x y).
  - intros fuel n r Hn Hi HT. by apply reader_stalls.
Qed.
(** C15. MsExpandTransform decodes MS-EXPAND files: reading a file that stores literals and copies
    (from up to 4096 bytes back in the output, where spaces precede it) through a
    TransformReaderStream returns the text they stand for, whatever pieces are requested.  A
    file with another signature is refused with an InvalidDataException. *)
Theorem msexpand_correct {S} `{!Stream S, !FileLaws S} (s : S) f buffer sizes fuel :
  (forall extra gs, rep s f -> f_rest f = ms_file extra gs -> length extra = 5%nat -> groups_ok gs -> (length (f_rest f) + 2 <= fuel)%nat ->
     returns (read_pieces fuel sizes) (TransformReader_new s MsExpand_new buffer) (fun _ got => got = pieces_of sizes (expand [] (concat gs)))) /\
  (forall data room, (14 <= length data)%nat -> take 9 data <> HEADER -> (transform MsExpand_new data room).2 = Throw (InvalidDataException invalidFileHeader)).
Proof.
  split.
  - intros extra gs Hr HE He Hg Hf. apply (read_pieces_ok fuel sizes _ _ (length (f_rest f))); [|lia]. unfold delivers. cbn [TransformReader_new ts_flushed ts_stream ts_transform ts_input app]. exists f. split; [done|]. split; [done|]. rewrite HE. by apply ms_file_run.
  - intros data room Hl HH. unfold transform, ms_expand. rewrite Nat.add_comm. cbn [Nat.add ms_loop m_state MsExpand_new]. replace (Nat.min (14 - m_count MsExpand_new) (length data)) with 14%nat by (cbn [m_count MsExpand_new]; lia). cbn zeta. cbn [m_count add_header MsExpand_new m_header app]. rewrite length_take, Nat.min_l by lia. cbn [Nat.leb Nat.add]. rewrite take_take. cbn [Nat.min]. rewrite bool_decide_eq_false_2 by done. done.
Qed.
Definition ms_ex : list (list Token) := [[Literal 65; Literal 66; Copy 2 5; Copy 8 3]].
Lemma ms_ex_ok : groups_ok ms_ex.
Proof. split; [rewrite !Forall_cons, Forall_nil; cbn [token_ok]; pose proof window_pos; lia|]. split; [cbn; lia|]. split; [intros H; by destruct H|exact I]. Qed.
Lemma transform_reader_correct_witness :
  returns (TransformSink_handleData 20 (ms_file [65; 0; 0; 0; 0] ms_ex)) (mkTransformSink (Some MsExpand_new) InternalSink_new)
    (fun s _ => exists o y' t', expand [] (concat ms_ex) = o ++ y' /\ s = mkTransformSink (Some t') (mkInternalSink ([] ++ o)) /\ yields t' [] y').
Proof.
  eapply returns_mono; [apply (proj1 (proj2 (@transform_reader_correct ConstMemoryStream MsExpand InternalSink _ _ _ _ _ _)) InternalSink_new MsExpand_new (ms_file [65; 0; 0; 0; 0] ms_ex) [] (expand [] (concat ms_ex)) 20%nat)|].
  - exact I.
  - rewrite app_nil_r. apply ms_file_run; [reflexivity|apply ms_ex_ok].
  - vm_compute. repeat constructor.
  - intros s a (o & y' & t' & H1 & H2 & H3). exists o, y', t'. rewrite H2, internal_feed. done.
Defined.
Lemma msexpand_correct_witness :
  returns (read_pieces 100 [4%nat; 9%nat; 3%nat]) (TransformReader_new (ConstMemoryStream_new (ms_file [65; 0; 0; 0; 0] ms_ex)) MsExpand_new []) (fun _ got => got = [[65; 66; 65; 66]; [65; 66; 65; 32; 65; 66]; []]).
Proof.
  set (data := ms_file [65; 0; 0; 0; 0] ms_ex).
  apply (proj1 (msexpand_correct (ConstMemoryStream_new data) (mkFile data 0 (len data) false) [] [4%nat; 9%nat; 3%nat] 100) [65; 0; 0; 0; 0] ms_ex).
  - exists (len data). split; [reflexivity|]. unfold f_wf. vm_compute. repeat split; intros H; discriminate H.
  - reflexivity.
  - reflexivity.
  - apply ms_ex_ok.
  - vm_compute. repeat constructor.
Defined.
(** At the end of a gzip stream the transformation leaves further data untouched, so that read()
    does not return on a file with data behind it. *)
Lemma gzip_trailing_data_hangs {S Zs} `{!Stream S, !ZlibOps Zs} fuel zfuel n (s : S) (i : Inflate Zs) buffer data pos : at_end i = true -> data <> [] -> (0 < n)%nat ->
  (@reader_loop S (Inflate Zs) _ (inflate_transform zfuel) fuel n [] (mkReader s i buffer data pos false)).2 = Throw out_of_fuel.
Proof. intros Hi Hd Hn. apply (@reader_stalls S (Inflate Zs) _ (inflate_transform zfuel)); [done|done|]. intros room. cbn [transform inflate_transform ts_transform ts_input]. destruct zfuel; cbn [gz_loop]; by rewrite Hi. Qed.
(** TransformDataSink stops when its data is used up, so that output for which there was no room
    in its buffer of 4096 bytes stays in the transformation. *)
Definition long_ex : list (list Token) := replicate 28 (replicate 8 (Copy 1 18)) ++ [replicate 4 (Copy 1 18)].
Lemma sink_holds_back :
  length (expand [] (concat long_ex)) = 4104%nat /\
  (fun r => length (is_data (tk_other r.1))) (TransformSink_handleData 9 (ms_file [65; 0; 0; 0; 0] long_ex) (mkTransformSink (Some MsExpand_new) InternalSink_new)) = 4096%nat.
Proof. vm_compute. split; reflexivity. Qed.

(** ** Headers of gzip files *)
Section Gzip.
Context {Zs : Type} `{!ZlibOps Zs}.
Definition has (flags b : Z) : bool := negb (Z.land flags b =? 0).
Definition gzip_header (flags : Z) (times extra name comment crc : list Z) : list Z :=
  [0x1F; 0x8B; 8; flags] ++ times ++ (if has flags 4 then [len extra mod 256; len extra / 256] ++ extra else []) ++
  (if has flags 8 then name ++ [0] else []) ++ (if has flags 16 then comment ++ [0] else []) ++ (if has flags 2 then crc else []).
Lemma skip_text_run (s : GzState Zs) text rest (i : Inflate Zs) : Forall (fun c => c <> 0) text -> skip_text s (text ++ 0 :: rest) i = (set_gz s i, rest).
Proof. induction 1 as [|c text Hc _ IH]; cbn [app skip_text]; [done|]. destruct (Z.eqb_spec c 0); [done|]. exact IH. Qed.
Lemma gz_step fuel (i : Inflate Zs) inp room i' inp' : at_end i = false -> inp <> [] -> (0 < room)%nat -> gz_round i inp (room - 0) = (i', inp', Ok []) -> gz_loop (S fuel) i inp room [] = gz_loop fuel i' inp' room [].
Proof. intros Hi Hn Hr HG. cbn [gz_loop]. rewrite Hi. destruct inp as [|c inp]; [done|]. cbn [length Nat.eqb negb andb]. destruct (Nat.ltb_spec 0 room); [|lia]. by rewrite HG. Qed.
Lemma skip_bytes_run n (s : GzState Zs) l rest (i : Inflate Zs) : length l = n -> m_size i = 0%nat -> skip_bytes n s (l ++ rest) i = (set_size 0 (set_gz s i), rest).
Proof. intros <- Hs. unfold skip_bytes. rewrite Hs, Nat.sub_0_r, length_app, Nat.min_l by lia. rewrite drop_app_length. by rewrite Nat.leb_refl. Qed.
(** The decoder skips the header: what follows is given to zlib. *)
Lemma gzip_header_skipped flags times extra name comment crc data room fuel :
  Z.land flags (Z.lnot 31) = 0 -> length times = 6%nat -> len extra < 65536 -> Forall (fun c => c <> 0) name -> Forall (fun c => c <> 0) comment -> length crc = 2%nat -> data <> [] -> (0 < room)%nat ->
  exists i : Inflate Zs, gz_loop (6 + fuel) (Inflate_new Gzip) (gzip_header flags times extra name comment crc ++ data) room [] = gz_loop (if has flags 4 then fuel else S fuel) i data room [] /\ gz_state i = FinishedHeader /\ m_personality i = Gzip /\ m_size i = 0%nat.
Proof.
  intros Hf Ht Hx Hn Hc Hcrc Hd Hr. unfold gzip_header. rewrite <- !app_assoc. set (r3 := (if has flags 2 then crc else []) ++ data). set (r2 := (if has flags 16 then comment ++ [0] else []) ++ r3). set (r1 := (if has flags 8 then name ++ [0] else []) ++ r2). set (r0 := (if has flags 4 then _ else []) ++ r1).
  assert (HN : forall l : list Z, forall r, r <> [] -> l ++ r <> []) by (intros [|] r; done). assert (H3 : r3 <> []) by (by apply HN). assert (H2 : r2 <> []) by (by apply HN). assert (H1 : r1 <> []) by (by apply HN). assert (H0 : r0 <> []) by (by apply HN).
  change (6 + fuel)%nat with (S (S (S (S (S (S fuel)))))).
  set (b0 := [0x1F; 0x8B; 8; flags] ++ times). assert (Hb0 : length b0 = 10%nat) by (unfold b0; rewrite length_app, Ht; done).
  rewrite (gz_step _ _ _ _ (mkInflate Gzip CheckExtraDataLength b0 0 flags 0) r0); [|done|done|done|].
  2: { unfold gz_round, fill_buffer. cbn [gz_state Inflate_new m_size m_buffer m_personality m_gzHeaderFlags m_gzExtraDataLength take]. change ([0x1F; 0x8B; 8; flags] ++ times ++ r0) with (b0 ++ r0). replace (Nat.min (10 - 0) (length (b0 ++ r0))) with (length b0) by (rewrite length_app; lia). rewrite take_app_length, drop_app_length. cbn [app]. rewrite Hb0. cbn [Nat.leb Nat.add buffer_at m_buffer nth b0 app]. rewrite Hf. done. }
  assert (HX : exists b k i, i = mkInflate Gzip CheckFileName b 0 flags k /\ gz_loop (S (S (S (S (S fuel))))) (mkInflate Gzip CheckExtraDataLength b0 0 flags 0) r0 room [] = gz_loop (if has flags 4 then S (S (S fuel)) else S (S (S (S fuel)))) i r1 room []).
  { unfold r0. destruct (has flags 4) eqn:E4.
    - assert (HLb : Z.to_nat (wrap 16 (256 * (len extra / 256) + len extra mod 256)) = length extra) by (rewrite <- (Z.div_mod (len extra) 256) by lia; unfold wrap; rewrite Z.mod_small by lia; lia). set (lb := [len extra mod 256; len extra / 256]). exists lb, 0%nat. eexists. split; [reflexivity|]. rewrite (gz_step _ _ _ _ (mkInflate Gzip CheckExtraData lb 0 flags (length extra)) (extra ++ r1)); [|done|done|done|].
      2: { unfold gz_round. cbn [gz_state]. unfold flag. cbn [m_gzHeaderFlags]. unfold has in E4. rewrite E4. unfold fill_buffer. cbn [m_size m_buffer m_personality m_gzHeaderFlags m_gzExtraDataLength take gz_state]. rewrite <- app_assoc. replace (Nat.min (2 - 0) (length (lb ++ extra ++ r1))) with (length lb) by (rewrite length_app; cbn [lb length]; lia). rewrite take_app_length, drop_app_length. cbn [app length lb Nat.leb Nat.add]. unfold buffer_at. cbn [m_buffer]. rewrite take_0. cbn [app lb nth]. by rewrite HLb. }
      rewrite (gz_step _ _ _ _ (mkInflate Gzip CheckFileName lb 0 flags 0) r1); [done|done|by apply HN|done|]. unfold gz_round. cbn [gz_state m_gzExtraDataLength m_personality m_buffer m_size m_gzHeaderFlags]. rewrite length_app, Nat.min_l, Nat.sub_diag, drop_app_length by lia. done.
    - exists b0, 0%nat. eexists. split; [reflexivity|]. cbn [app]. rewrite (gz_step _ _ _ _ (mkInflate Gzip CheckFileName b0 0 flags 0) r1); [done|done|done|done|]. unfold gz_round. cbn [gz_state]. unfold flag. cbn [m_gzHeaderFlags]. unfold has in E4. by rewrite E4. }
  destruct HX as (b & k & i & -> & ->). assert (HF : forall n, exists i : Inflate Zs, gz_loop (S (S (S n))) (mkInflate Gzip CheckFileName b 0 flags k) r1 room [] = gz_loop n i data room [] /\ gz_state i = FinishedHeader /\ m_personality i = Gzip /\ m_size i = 0%nat).
  { intros n. rewrite (gz_step _ _ _ _ (mkInflate Gzip CheckComment b 0 flags k) r2); [|done|done|done|].
    2: { unfold gz_round. cbn [gz_state]. unfold flag. cbn [m_gzHeaderFlags]. unfold r1, has. destruct (negb (Z.land flags 8 =? 0)); [|done]. rewrite <- app_assoc. cbn [app]. by rewrite skip_text_run. }
    rewrite (gz_step _ _ _ _ (mkInflate Gzip CheckHeaderCRC b 0 flags k) r3); [|done|done|done|].
    2: { unfold gz_round. cbn [gz_state]. unfold flag. cbn [m_gzHeaderFlags]. unfold r2, has. destruct (negb (Z.land flags 16 =? 0)); [|done]. rewrite <- app_assoc. cbn [app]. by rewrite skip_text_run. }
    exists (mkInflate Gzip FinishedHeader b 0 flags k). split; [|done]. apply gz_step; [done|done|done|]. unfold gz_round. cbn [gz_state]. unfold flag. cbn [m_gzHeaderFlags]. unfold r3, has. destruct (negb (Z.land flags 2 =? 0)); [|done]. by rewrite skip_bytes_run. }
  destruct (has flags 4); apply HF.
Qed.
End Gzip.
