(* ===== verification/Archives.v ===== *)
(** * Archive readers

    src/afl/io/archive/tarreader.cpp, arreader.cpp and zipreader.cpp.  The three readers read
    their index lazily from a stream; [ArchiveReader] has what they share, and the search by name and
    the enumeration are written once for it.  A member is a window of a child of the archive's
    stream; the child is an argument, as for LimitedStream::createChild.  Times are the
    milliseconds of afl::sys::Time, whose epoch depends on the platform and is a parameter. *)

From Stdlib Require Import ZArith Lia Bool String.
From stdpp Require Import base tactics numbers option list.
From S2P Require Import Prelude Bits Pack Strings Utf8 Encodings Codepage FileNames FileSystem Stream LimitedStream Transforms.

Local Open Scope Z_scope.
Local Open Scope afl_scope.

(** ** What the readers share *)

Class ArchiveReader (R E : Type) := { m_index : R -> list E; entry_name : E -> list Z; readNextEntry : M R bool }.
Section Reader.
Context {R E : Type} `{!ArchiveReader R E}.
Definition findEntryByName (index : list E) (nm : list Z) (start end_ : nat) : option E := List.find (fun e => bool_decide (entry_name e = nm)) (take (end_ - start) (drop start index)).
(** [while (xe == 0 && readNextEntry())] *)
Fixpoint lookup_loop (fuel : nat) (nm : list Z) (size : nat) (xe : option E) : M R (option E) :=
  match xe with
  | Some e => ret (Some e)
  | None =>
      match fuel with
      | O => throw out_of_fuel
      | S fuel' =>
          let@ more := readNextEntry in
          if more then let@ r := get in let nsize := length (m_index r) in lookup_loop fuel' nm nsize (findEntryByName (m_index r) nm size nsize)
          else ret None
      end
  end.
Definition getDirectoryEntryByName (fuel : nat) (nm : list Z) : M R E :=
  let@ r := get in
  let size := length (m_index r) in
  let@ xe := lookup_loop fuel nm size (findEntryByName (m_index r) nm 0 size) in
  match xe with Some e => ret e | None => throw (FileProblemException fileNotFound) end.
(** [while (m_parent->m_index.size() <= m_current)] *)
Fixpoint read_until (fuel : nat) (current : nat) : M R bool :=
  let@ r := get in
  if (length (m_index r) <=? current)%nat
  then match fuel with
       | O => throw out_of_fuel
       | S fuel' => let@ more := readNextEntry in if more then read_until fuel' current else ret false
       end
  else ret true.
(** The enumerator is the number [m_current] of the next element. *)
Definition getNextElement (fuel : nat) (current : nat) : M R (option E * nat) :=
  let@ more := read_until fuel current in
  if more then let@ r := get in ret (m_index r !! current, (current + 1)%nat) else ret (None, current).
End Reader.

Record IndexEntry := mkIndex { ie_name : list Z; ie_start : Z; ie_length : Z; ie_executable : bool; ie_modificationTime : Z }.
(** A time in a header is below 2^36, so that its conversion to int64_t and the product are exact. *)
Definition fromUnixTime (epoch unixTime : Z) : Z := epoch + 1000 * unixTime.
(** The part of a header from [pos] on that has [n] bytes *)
Definition field (hdr : list Z) (pos n : nat) : list Z := take n (drop pos hdr).

Section Skip.
Context {S : Type} `{!Stream S}.
(** [while (amount > 0)]; every round takes a byte *)
Fixpoint skip_loop (fuel : nat) (amount : Z) : M S unit :=
  if 0 <? amount
  then match fuel with
       | O => throw out_of_fuel
       | Datatypes.S fuel' =>
           let@ got := read (Z.min amount 4096) in
           if len got =? 0 then throw FileTooShortException else skip_loop fuel' (amount - len got)
       end
  else ret tt.
Definition skip (amount : Z) : M S unit := skip_loop (Z.to_nat amount) amount.
(** The start of readNextEntry of the TAR and the AR reader *)
Definition goto_entry (next : Z) : M S unit :=
  let@ pos := getPos in
  if negb (pos =? next)
  then let@ caps := getCapabilities in
       if (next <? pos) || negb (Z.land caps CanSeek =? 0) then setPos next else skip (u64 (next - pos))
  else ret tt.
End Skip.

(** *** Members *)

Record Member (S : Type) := mkMember { mb_file : S; mb_worker : LimitedStream S; mb_name : list Z }.
Arguments mkMember {S} _ _ _.
Arguments mb_file {S} _.
Arguments mb_worker {S} _.
Arguments mb_name {S} _.
Section Member.
Context {S : Type} `{!Stream S}.
Definition Member_new (file child : S) (e : IndexEntry) : outcome fault (Member S) :=
  match LimitedStream_new child (ie_start e) (ie_length e) with Ok l => Ok (mkMember file l (ie_name e)) | Throw f => Throw f end.
Definition set_worker (l : LimitedStream S) (m : Member S) : Member S := mkMember (mb_file m) l (mb_name m).
Definition set_mb_file (f : S) (m : Member S) : Member S := mkMember f (mb_worker m) (mb_name m).
Definition wcall {A} (c : M (LimitedStream S) A) : M (Member S) A := on mb_worker set_worker c.
(** A child is not a member, but a plain LimitedStream. *)
Definition Member_createChild (child : S) (m : Member S) : outcome fault (LimitedStream S) := LimitedStream_createChild child (mb_worker m).
#[export] Instance Member_stream : Stream (Member S) := {
  read := fun n => wcall (read n);
  write := fun _ => throw (FileProblemException cannotWrite);
  flush := wcall flush;
  setPos := fun pos => wcall (setPos pos);
  getPos := wcall getPos;
  getSize := wcall getSize;
  getCapabilities := let@ caps := on mb_file set_mb_file getCapabilities in ret (Z.land caps (Z.lor CanSeek CanRead));
  createFileMapping := fun limit => wcall (createFileMapping limit) }.
End Member.
(** updateInfo of an entry *)
Definition entry_updateInfo (e : IndexEntry) (requested : Z) (i : Info) : Info :=
  setFlags (if ie_executable e then [Executable] else []) (setModificationTime (Some (ie_modificationTime e)) (setFileSize (ie_length e) (setFileType tFile i))).

(** ** TarReader *)

Module Tar.
Definition KeepPaths : Z := 1.
Definition getString (m : list Z) : list Z := match find m [0] with Some n => take n m | None => m end.
Fixpoint skip_spaces (m : list Z) : list Z := match m with c :: m' => if charIsSpace c then skip_spaces m' else m | [] => [] end.
Definition is_octal (c : Z) : bool := (48 <=? c) && (c <=? 55).
Fixpoint octal_loop (m : list Z) (result : Z) : list Z * Z := match m with c :: m' => if is_octal c then octal_loop m' (u64 (8 * result + (c - 48))) else (m, result) | [] => ([], result) end.
Definition getNumber (m : list Z) : option Z :=
  let '(m, result) := octal_loop (skip_spaces m) 0 in
  match skip_spaces m with c :: _ => if negb (c =? 0) then None else Some result | [] => Some result end.
Record TarReader (S : Type) := mkTar { t_file : S; t_options : Z; t_nextEntryPosition : Z; t_atEnd : bool; t_index : list IndexEntry }.
Arguments mkTar {S} _ _ _ _ _.
Arguments t_file {S} _.
Arguments t_options {S} _.
Arguments t_nextEntryPosition {S} _.
Arguments t_atEnd {S} _.
Arguments t_index {S} _.
Section Tar.
Context {S : Type} `{!Stream S} (epoch : Z).
Local Abbreviation T := (TarReader S).
Definition open (file : S) (options : Z) : outcome fault T := match getPos file with (file, Ok pos) => Ok (mkTar file options pos false []) | (_, Throw e) => Throw e end.
Definition set_file (f : S) (t : T) : T := mkTar f (t_options t) (t_nextEntryPosition t) (t_atEnd t) (t_index t).
Definition set_end (t : T) : T := mkTar (t_file t) (t_options t) (t_nextEntryPosition t) true (t_index t).
Definition fcall {A} (c : M S A) : M T A := on t_file set_file c.
Definition normalizeName (options : Z) (nm : list Z) : list Z :=
  if Z.land options KeepPaths =? 0
  then match find_last_of [47] nm with Some n => drop (n + 1) nm | None => nm end
  else match nm with
       | 46 :: 47 :: r => r
       | 47 :: r => r
       | _ => nm
       end.
Definition number_field (m : list Z) : M T Z := match getNumber m with Some n => ret n | None => throw (FileFormatException invalidNumber) end.
Definition is_file (typeflag : Z) : bool := (typeflag =? 48) || (typeflag =? 0) || (typeflag =? 55).
(** [~511U] is a 32-bit number. *)
Definition padded_size (size : Z) : Z := Z.land (u64 (size + 511)) (unot 32 511).
Definition name_of (l : list IndexEntry) (nm : list Z) : bool := match List.find (fun e => bool_decide (ie_name e = nm)) l with Some _ => true | None => false end.
Definition handle_header (hdr : list Z) : M T unit :=
  let@ t := get in
  let nm := getString (field hdr 0 100) in
  if bool_decide (nm = []) then put (set_end t)
  else
    let prefix := getString (field hdr 345 155) in
    let nm := normalizeName (t_options t) (if negb (bool_decide (prefix = [])) then prefix ++ 47 :: nm else nm) in
    let@ size := number_field (field hdr 124 12) in
    let@ mode := number_field (field hdr 100 8) in
    let@ mtime := number_field (field hdr 136 12) in
    let thisEntryPosition := u64 (t_nextEntryPosition t + 512) in
    let next := u64 (thisEntryPosition + padded_size size) in
    let e := mkIndex nm thisEntryPosition size (negb (Z.land mode 73 =? 0)) (fromUnixTime epoch mtime) in
    put (mkTar (t_file t) (t_options t) next (t_atEnd t) (if is_file (byte_at hdr 156) && negb (name_of (t_index t) nm) then t_index t ++ [e] else t_index t)).
Definition Tar_readNextEntry : M T bool :=
  let@ t := get in
  if negb (t_atEnd t)
  then let@ _ := fcall (goto_entry (t_nextEntryPosition t)) in
       let@ hdr := fcall (read 512) in
       let@ _ := (if len hdr =? 512 then handle_header hdr else let@ t := get in put (set_end t)) in
       let@ t := get in ret (negb (t_atEnd t))
  else ret (negb (t_atEnd t)).
#[export] Instance tar_reader : ArchiveReader T IndexEntry := { m_index := t_index; entry_name := ie_name; readNextEntry := Tar_readNextEntry }.
End Tar.
End Tar.

(** ** ArReader *)

Module Ar.
Definition MAX_LONG_NAME_TABLE_SIZE : Z := 32 * 1024 * 1024.
Definition FILE_MAGIC : list Z := [33; 60; 97; 114; 99; 104; 62; 10].
Definition MEMBER_MAGIC : list Z := [96; 10].
Fixpoint parseNumber_loop (base : Z) (inp : list Z) (result : Z) : Z :=
  match inp with
  | c :: inp' => if (48 <=? c) && (c <? 48 + base) then parseNumber_loop base inp' (u32 (base * result + (c - 48))) else result
  | [] => result
  end.
Definition parseNumber (inp : list Z) (base : Z) : Z := parseNumber_loop base inp 0.
Fixpoint checkSpecialName (inp nm : list Z) : bool :=
  match nm with
  | ch :: nm' => match inp with c :: inp' => (c =? ch) && checkSpecialName inp' nm' | [] => false end
  | [] => forallb (Z.eqb 32) inp
  end.
Fixpoint name_index (l : list Z) (index : Z) : Z := match l with c :: l' => if (48 <=? c) && (c <=? 57) then name_index l' (usize (10 * index + (c - 48))) else index | [] => index end.
Fixpoint until_space (l : list Z) : list Z := match l with c :: l' => if c =? 32 then [] else c :: until_space l' | [] => [] end.
(** [None] for the exception *)
Definition getFileName (nm longNameTable : list Z) : option (list Z) :=
  if (byte_at nm 0 =? 32) || (byte_at nm 0 =? 47)
  then
    let longNameTable := drop (Z.to_nat (name_index (drop 1 nm) 0)) longNameTable in
    match find longNameTable [10] with
    | None => None
    | Some nameLen =>
        if (nameLen =? 0)%nat then None
        else let l := take nameLen longNameTable in Some (if byte_at l (length l - 1) =? 47 then take (length l - 1) l else l)
    end
  else
    let i := trim_right 32 nm (length nm) in
    if negb (i =? 0)%nat && (byte_at nm (i - 1) =? 47) then Some (take (i - 1) nm) else Some (until_space nm).
Record ArReader (S : Type) := mkAr { a_file : S; a_nextEntryPosition : Z; a_atEnd : bool; a_index : list IndexEntry; a_longNameTable : list Z }.
Arguments mkAr {S} _ _ _ _ _.
Arguments a_file {S} _.
Arguments a_nextEntryPosition {S} _.
Arguments a_atEnd {S} _.
Arguments a_index {S} _.
Arguments a_longNameTable {S} _.
Section Ar.
Context {S : Type} `{!Stream S} (epoch : Z).
Local Abbreviation A := (ArReader S).
Definition set_file (f : S) (a : A) : A := mkAr f (a_nextEntryPosition a) (a_atEnd a) (a_index a) (a_longNameTable a).
Definition set_end (a : A) : A := mkAr (a_file a) (a_nextEntryPosition a) true (a_index a) (a_longNameTable a).
Definition set_next (n : Z) (a : A) : A := mkAr (a_file a) n (a_atEnd a) (a_index a) (a_longNameTable a).
Definition set_table (l : list Z) (a : A) : A := mkAr (a_file a) (a_nextEntryPosition a) (a_atEnd a) (a_index a) l.
Definition add_entry (e : IndexEntry) (a : A) : A := mkAr (a_file a) (a_nextEntryPosition a) (a_atEnd a) (a_index a ++ [e]) (a_longNameTable a).
Definition fcall {B} (c : M S B) : M A B := on a_file set_file c.
Definition readHeader : M A unit :=
  let@ tmp := fcall (fullRead 8) in
  if negb (bool_decide (tmp = FILE_MAGIC)) then throw (FileFormatException invalidFileHeader)
  else let@ pos := fcall getPos in let@ a := get in put (set_next pos a).
Definition open (file : S) : outcome fault A :=
  match getPos file with
  | (file, Ok pos) => match readHeader (mkAr file pos false [] []) with (a, Ok _) => Ok a | (_, Throw e) => Throw e end
  | (_, Throw e) => Throw e
  end.
Definition handle_member (mem : list Z) : M A unit :=
  let size := parseNumber (field mem 48 10) 10 in
  let mtime := parseNumber (field mem 16 12) 10 in
  let mode := parseNumber (field mem 40 8) 8 in
  let fileName := field mem 0 16 in
  let@ thisEntryPos := fcall getPos in
  let@ a := get in
  let@ _ := put (set_next (u64 (thisEntryPos + size + Z.land size 1)) a) in
  if checkSpecialName fileName (lit "/") then ret tt
  else if checkSpecialName fileName (lit "__.SYMDEF") || checkSpecialName fileName (lit "__.SYMDEF/") then ret tt
  else if checkSpecialName fileName (lit "//") || checkSpecialName fileName (lit "ARFILENAMES/")
  then if MAX_LONG_NAME_TABLE_SIZE <? size then throw (FileFormatException unsupportedFeature)
       else let@ a := get in
            if bool_decide (a_longNameTable a = [])
            then let@ _ := put (set_table (replicate (Z.to_nat size) 0) a) in let@ l := fcall (fullRead size) in let@ a := get in put (set_table l a)
            else ret tt
  else let@ a := get in
       match getFileName fileName (a_longNameTable a) with
       | None => throw (FileFormatException invalidNameIndex)
       | Some nm => if bool_decide (nm = []) then ret tt else put (add_entry (mkIndex nm thisEntryPos size (negb (Z.land mode 73 =? 0)) (fromUnixTime epoch mtime)) a)
       end.
Definition Ar_readNextEntry : M A bool :=
  let@ a := get in
  if negb (a_atEnd a)
  then let@ _ := fcall (goto_entry (a_nextEntryPosition a)) in
       let@ mem := fcall (read 60) in
       let@ _ := (if (len mem =? 60) && bool_decide (field mem 58 2 = MEMBER_MAGIC) then handle_member mem else let@ a := get in put (set_end a)) in
       let@ a := get in ret (negb (a_atEnd a))
  else ret (negb (a_atEnd a)).
#[export] Instance ar_reader : ArchiveReader A IndexEntry := { m_index := a_index; entry_name := ie_name; readNextEntry := Ar_readNextEntry }.
End Ar.
End Ar.

(** ** ZipReader *)

Module Zip.
Definition KeepPaths : Z := 1.
Definition gfEncrypted : Z := 1.
Definition gfUnicodeName : Z := 2048.
Definition gfKnown : Z := 1 + 2 + 4 + 2048 + 32768.
Definition cmStored : Z := 0.
Definition cmDeflated : Z := 8.
Record ZipEntry := mkZip { z_name : list Z; z_method : Z; z_start : Z; z_compressedSize : Z; z_uncompressedSize : Z }.
Record ZipReader (S : Type) := mkZipReader { zr_view : S; zr_options : Z; zr_index : list ZipEntry; zr_indexerReachedEnd : bool; zr_hadUnsupportedFeature : bool }.
Arguments mkZipReader {S} _ _ _ _ _.
Arguments zr_view {S} _.
Arguments zr_options {S} _.
Arguments zr_index {S} _.
Arguments zr_indexerReachedEnd {S} _.
Arguments zr_hadUnsupportedFeature {S} _.
Section Zip.
Context {S : Type} `{!Stream S}.
Local Abbreviation R := (ZipReader S).
Definition set_view (v : S) (r : R) : R := mkZipReader v (zr_options r) (zr_index r) (zr_indexerReachedEnd r) (zr_hadUnsupportedFeature r).
Definition set_reachedEnd (r : R) : R := mkZipReader (zr_view r) (zr_options r) (zr_index r) true (zr_hadUnsupportedFeature r).
Definition set_unsupported (r : R) : R := mkZipReader (zr_view r) (zr_options r) (zr_index r) (zr_indexerReachedEnd r) true.
Definition set_index (l : list ZipEntry) (r : R) : R := mkZipReader (zr_view r) (zr_options r) l (zr_indexerReachedEnd r) (zr_hadUnsupportedFeature r).
Definition vcall {A} (c : M S A) : M R A := on zr_view set_view c.
Definition update (f : R -> R) : M R unit := let@ r := get in put (f r).
(** loadString *)
Definition loadString (n : Z) : M S (list Z) := fullRead n.
(** The name of a member: empty for a directory, without the path if it is not wanted *)
Definition local_name (options flags : Z) (nm : list Z) : list Z :=
  let nm := match find_last_of [47] nm with
            | Some n => if (Z.land options KeepPaths =? 0) || (n + 1 =? length nm)%nat then drop (n + 1) nm else nm
            | None => nm
            end in
  if Z.land flags gfUnicodeName =? 0 then CodepageCharset_decode {| m_codepage := g_codepage437 |} nm else nm.
Definition has_name (l : list ZipEntry) (nm : list Z) : bool := match List.find (fun e => bool_decide (z_name e = nm)) l with Some _ => true | None => false end.
(** [m_view->setPos(m_view->getPos() + n)] *)
Definition forward (n : Z) : M R unit := let@ pos := vcall getPos in vcall (setPos (u64 (pos + n))).
Definition read_local : M R bool :=
  let@ header := vcall (fullRead 26) in
  let flags := UInt16LE_unpack (field header 2 2) in
  let method := UInt16LE_unpack (field header 4 2) in
  let compsize := UInt32LE_unpack (field header 14 4) in
  let uncompsize := UInt32LE_unpack (field header 18 4) in
  let namelength := UInt16LE_unpack (field header 22 2) in
  let extraLength := UInt16LE_unpack (field header 24 2) in
  if negb (Z.land flags (Z.lnot gfKnown) =? 0) then let@ _ := update set_unsupported in ret false
  else
    let@ nm := vcall (loadString namelength) in
    let@ r := get in
    let nm := local_name (zr_options r) flags nm in
    let@ _ := (if negb (extraLength =? 0) then forward extraLength else ret tt) in
    let@ _ := (if bool_decide (nm = []) then ret tt
               else if (Z.land flags gfEncrypted =? 0) && ((method =? cmStored) || (method =? cmDeflated))
               then let@ r := get in
                    if negb (has_name (zr_index r) nm) then let@ pos := vcall getPos in update (fun r => set_index (zr_index r ++ [mkZip nm method pos compsize uncompsize]) r) else ret tt
               else ret tt) in
    let@ _ := forward compsize in
    ret true.
Definition Zip_readNextEntry : M R bool :=
  let@ r := get in
  if zr_indexerReachedEnd r || zr_hadUnsupportedFeature r then let@ _ := update set_reachedEnd in ret false
  else let@ blockType := vcall (read 4) in
       if negb (len blockType =? 4) then let@ _ := update set_reachedEnd in ret false
       else let block := UInt32LE_unpack blockType in
            if block =? 0x04034B50 then read_local
            else if (block =? 0x02014B50) || (block =? 0x06054B50) then let@ _ := update set_reachedEnd in ret false
            else let@ _ := update set_unsupported in ret false.
(** The constructor, given a child of the file *)
Definition open (view : S) (options : Z) : outcome fault R := match Zip_readNextEntry (mkZipReader view options [] false false) with (r, Ok _) => Ok r | (_, Throw e) => Throw e end.
#[export] Instance zip_reader : ArchiveReader R ZipEntry := { m_index := zr_index; entry_name := z_name; readNextEntry := Zip_readNextEntry }.
Definition zip_updateInfo (e : ZipEntry) (requested : Z) (i : Info) : Info := setFileSize (z_uncompressedSize e) (setFileType tFile i).

(** *** Stored members *)

Record StoredMember := mkStored { sm_worker : LimitedStream S; sm_name : list Z }.
Definition StoredMember_new (child : S) (e : ZipEntry) : outcome fault StoredMember := match LimitedStream_new child (z_start e) (z_compressedSize e) with Ok l => Ok (mkStored l (z_name e)) | Throw f => Throw f end.
Definition set_sm_worker (l : LimitedStream S) (m : StoredMember) : StoredMember := mkStored l (sm_name m).
Definition StoredMember_createChild (child : S) (m : StoredMember) : outcome fault StoredMember := match LimitedStream_createChild child (sm_worker m) with Ok l => Ok (mkStored l (sm_name m)) | Throw f => Throw f end.
#[export] Instance StoredMember_stream : Stream StoredMember := {
  read := fun n => on sm_worker set_sm_worker (read n);
  write := fun _ => throw (FileProblemException cannotWrite);
  flush := on sm_worker set_sm_worker flush;
  setPos := fun pos => on sm_worker set_sm_worker (setPos pos);
  getPos := on sm_worker set_sm_worker getPos;
  getSize := on sm_worker set_sm_worker getSize;
  getCapabilities := ret (Z.lor CanRead CanSeek);
  createFileMapping := fun limit => on sm_worker set_sm_worker (createFileMapping limit) }.

(** *** Deflated members; the transformation is InflateTransform for raw data *)

Context {T : Type} `{!Transform T}.
Record DeflatedMember := mkDeflated { dm_worker : LimitedStream S; dm_transform : T; dm_name : list Z; dm_bufferDescriptor : list Z; dm_bytesRead : Z }.
Definition DeflatedMember_new (child : S) (t : T) (e : ZipEntry) : outcome fault DeflatedMember := match LimitedStream_new child (z_start e) (z_compressedSize e) with Ok l => Ok (mkDeflated l t (z_name e) [] 0) | Throw f => Throw f end.
(** [b.trim(m_worker.read(b)); m_bufferDescriptor = b;] *)
Definition dm_refill : M DeflatedMember unit := fun m =>
  match dm_bufferDescriptor m with
  | [] => match read 4096 (dm_worker m) with
          | (l, Ok got) => (mkDeflated l (dm_transform m) (dm_name m) got (dm_bytesRead m), Ok tt)
          | (l, Throw e) => (mkDeflated l (dm_transform m) (dm_name m) [] (dm_bytesRead m), Throw e)
          end
  | _ => (m, Ok tt)
  end.
Definition dm_transform_some (room : nat) : M DeflatedMember (list Z) := fun m =>
  match transform (dm_transform m) (dm_bufferDescriptor m) room with
  | (t, rest, Ok out) => (mkDeflated (dm_worker m) t (dm_name m) rest (u64 (dm_bytesRead m + len out)), Ok out)
  | (t, rest, Throw e) => (mkDeflated (dm_worker m) t (dm_name m) rest (dm_bytesRead m), Throw e)
  end.
(** [while (!m.empty())] *)
Fixpoint deflated_loop (fuel : nat) (room : nat) (did : list Z) : M DeflatedMember (list Z) :=
  if (room =? 0)%nat then ret did
  else match fuel with
       | O => throw out_of_fuel
       | Datatypes.S fuel' =>
           let@ _ := dm_refill in
           let@ m := get in
           match dm_bufferDescriptor m with
           | [] => ret did
           | _ => let@ out := dm_transform_some room in deflated_loop fuel' (room - length out) (did ++ out)
           end
       end.
#[local] Instance DeflatedMember_stream (fuel : nat) : Stream DeflatedMember := {
  read := fun n => deflated_loop fuel (Z.to_nat n) [];
  write := fun _ => throw (FileProblemException cannotWrite);
  flush := ret tt;
  setPos := fun pos => let@ m := get in if negb (pos =? dm_bytesRead m) then throw (FileProblemException invalidOperation) else ret tt;
  getPos := let@ m := get in ret (dm_bytesRead m);
  getSize := ret (2 ^ 64 - 1);
  getCapabilities := ret CanRead;
  createFileMapping := fun _ => ret None }.
(** openFileForReading *)
Definition openFileForReading (child : S) (t : T) (e : ZipEntry) : outcome fault (StoredMember + DeflatedMember) :=
  if z_method e =? cmStored then match StoredMember_new child e with Ok m => Ok (inl m) | Throw f => Throw f end
  else if z_method e =? cmDeflated then match DeflatedMember_new child t e with Ok m => Ok (inr m) | Throw f => Throw f end
  else Throw (FileProblemException unsupportedCompressionMode).
End Zip.
End Zip.
