(* ===== verification/ArchivesProps.v ===== *)
(** * Theorems on archive readers

    What a reader of an archive promises ([ArchiveLaws]): that it has a list of entries, which
    it reads one by one.  The search and the enumeration are proved against it, and the
    readers discharge it for archives of their format. *)

From Stdlib Require Import ZArith Lia Bool String.
From stdpp Require Import base tactics numbers option list.
From S2P Require Import Prelude Bits Pack Strings Format Utf8 Encodings Codepage FileNames FileSystem Stream MemStream LimitedStream Transforms TransformsProps Archives.

Local Open Scope Z_scope.
Local Open Scope afl_scope.

Lemma returns_put_last {R} (r s : R) (Q : R -> unit -> Prop) : Q r tt -> returns (put r) s Q.
Proof. done. Qed.
(** ** The contract *)

(** [ready r ahead]: [ahead] is what the following calls of readNextEntry add to the index. *)
Class ArchiveLaws (R E : Type) `{!ArchiveReader R E} := {
  ready : R -> list (list E) -> Prop;
  ready_more r x ahead : ready r (x :: ahead) -> returns readNextEntry r (fun r' b => b = true /\ m_index r' = m_index r ++ x /\ ready r' ahead);
  ready_end r : ready r [] -> returns readNextEntry r (fun r' b => b = false /\ m_index r' = m_index r /\ ready r' []) }.
Section Contract.
Context {R E : Type} `{!ArchiveReader R E, !ArchiveLaws R E}.
Definition all_entries (r : R) (ahead : list (list E)) : list E := m_index r ++ concat ahead.
Definition named (nm : list Z) (l : list E) : option E := List.find (fun e => bool_decide (entry_name e = nm)) l.
Lemma named_app nm a b : named nm (a ++ b) = match named nm a with Some e => Some e | None => named nm b end.
Proof. unfold named. induction a as [|x a IH]; cbn; [done|]. by destruct (bool_decide _). Qed.
Lemma find_new (l : list E) nm x : findEntryByName (l ++ x) nm (length l) (length (l ++ x)) = named nm x.
Proof. unfold findEntryByName. rewrite drop_app_length, length_app, Nat.add_comm, Nat.add_sub, take_ge by lia. done. Qed.
Lemma lookup_loop_ok fuel nm r ahead xe : ready r ahead -> (length ahead < fuel)%nat -> named nm (m_index r) = xe ->
  returns (lookup_loop fuel nm (length (m_index r)) xe) r (fun r' res => res = named nm (all_entries r ahead) /\ exists k, ready r' (drop k ahead) /\ all_entries r' (drop k ahead) = all_entries r ahead).
Proof.
  revert r ahead xe. induction fuel as [|fuel IH]; intros r ahead xe Hr Hf Hx; [lia|]. unfold all_entries in *. destruct xe as [e|].
  { cbn [lookup_loop]. apply returns_ret. rewrite named_app, Hx. split; [done|]. exists 0%nat. by rewrite drop_0. }
  cbn [lookup_loop]. destruct ahead as [|x ahead].
  - eapply returns_bind; [by apply ready_end|]. intros r' b (-> & HI & Hr'). apply returns_ret. cbn [concat]. rewrite app_nil_r, Hx. split; [done|]. exists 0%nat. rewrite drop_0, HI. split; [done|]. cbn. by rewrite app_nil_r.
  - eapply returns_bind; [by apply ready_more|]. intros r' b (-> & HI & Hr'). apply returns_get. cbn zeta. rewrite HI, find_new, <- HI. eapply returns_mono; [apply (IH r' ahead (named nm x) Hr'); [cbn in Hf; lia|]|].
    + by rewrite HI, named_app, Hx.
    + intros r2 res (-> & k & Hk & HA). cbn [concat]. rewrite HI, <- app_assoc in *. split; [done|]. exists (S k). done.
Qed.
Lemma lookup_ok fuel nm r ahead : ready r ahead -> (length ahead < fuel)%nat ->
  match named nm (all_entries r ahead) with
  | Some e => returns (getDirectoryEntryByName fuel nm) r (fun r' res => res = e /\ exists k, ready r' (drop k ahead) /\ all_entries r' (drop k ahead) = all_entries r ahead)
  | None => throws (getDirectoryEntryByName fuel nm) r (FileProblemException fileNotFound) (fun r' => exists k, ready r' (drop k ahead) /\ all_entries r' (drop k ahead) = all_entries r ahead)
  end.
Proof.
  intros Hr Hf. assert (HN : findEntryByName (m_index r) nm 0 (length (m_index r)) = named nm (m_index r)) by (unfold findEntryByName; rewrite drop_0, Nat.sub_0_r, take_ge by lia; done).
  pose proof (lookup_loop_ok fuel nm r ahead _ Hr Hf eq_refl) as HL. unfold getDirectoryEntryByName. destruct (named nm (all_entries r ahead)) as [e|].
  - apply returns_get. cbn zeta. rewrite HN. eapply returns_bind; [exact HL|]. intros r' res [-> HK]. by apply returns_ret.
  - apply throws_get. cbn zeta. rewrite HN. eapply returns_throws_bind; [exact HL|]. intros r' res [-> HK]. by split.
Qed.
Lemma read_until_ok fuel current r ahead : ready r ahead -> (length ahead < fuel)%nat ->
  returns (read_until fuel current) r (fun r' b => b = (current <? length (all_entries r ahead))%nat /\ (b = true -> m_index r' !! current = all_entries r ahead !! current) /\
    exists k, ready r' (drop k ahead) /\ all_entries r' (drop k ahead) = all_entries r ahead).
Proof.
  revert r ahead. induction fuel as [|fuel IH]; intros r ahead Hr Hf; [lia|]. cbn [read_until]. apply returns_get. unfold all_entries in *. destruct (Nat.leb_spec (length (m_index r)) current) as [Hc|Hc].
  - destruct ahead as [|x ahead].
    + eapply returns_bind; [by apply ready_end|]. intros r' b (-> & HI & Hr'). apply returns_ret. cbn [concat]. rewrite app_nil_r. destruct (Nat.ltb_spec current (length (m_index r))); [lia|]. split; [done|]. split; [done|]. exists 0%nat. rewrite drop_0, HI. cbn. by rewrite app_nil_r.
    + eapply returns_bind; [by apply ready_more|]. intros r' b (-> & HI & Hr'). eapply returns_mono; [apply (IH r' ahead Hr'); cbn in Hf; lia|]. intros r2 b (-> & HE & k & Hk & HA). cbn [concat]. rewrite HI, <- app_assoc in *. split; [done|]. split; [done|]. by exists (S k).
  - apply returns_ret. rewrite length_app. destruct (Nat.ltb_spec current (length (m_index r) + length (concat ahead))); [|lia]. split; [done|]. split; [intros _; by rewrite lookup_app_l|]. exists 0%nat. by rewrite drop_0.
Qed.
(** All elements of an enumerator *)
Fixpoint enumerate (n fuel current : nat) : M R (list E) :=
  match n with
  | O => throw out_of_fuel
  | S n' => let@ (e, current) := getNextElement fuel current in match e with Some e => let@ l := enumerate n' fuel current in ret (e :: l) | None => ret [] end
  end.
Lemma enumerate_ok n fuel current r ahead : ready r ahead -> (length ahead < fuel)%nat -> (length (all_entries r ahead) - current < n)%nat ->
  returns (enumerate n fuel current) r (fun r' l => l = drop current (all_entries r ahead)).
Proof.
  revert current r ahead. induction n as [|n IH]; intros current r ahead Hr Hf Hn; [lia|]. cbn [enumerate]. unfold getNextElement. eapply (returns_bind _ _ _ (fun r' p => (p.1 = all_entries r ahead !! current) /\ p.2 = (if (current <? length (all_entries r ahead))%nat then (current + 1)%nat else current) /\ exists k, ready r' (drop k ahead) /\ all_entries r' (drop k ahead) = all_entries r ahead)).
  - eapply returns_bind; [by apply read_until_ok|]. intros r' b (-> & HE & HK). destruct (Nat.ltb_spec current (length (all_entries r ahead))) as [H|H]; [apply returns_get, returns_ret; split; [by apply HE|done]|]. apply returns_ret. split; [symmetry; apply lookup_ge_None; lia|done].
  - intros r' [o c] (H1 & H2 & k & Hk & HA). cbn [fst snd] in *. subst. destruct (all_entries r ahead !! current) as [e|] eqn:EL.
    + pose proof (lookup_lt_Some _ _ _ EL). destruct (Nat.ltb_spec current (length (all_entries r ahead))); [|lia]. eapply returns_bind; [apply (IH _ r' (drop k ahead) Hk); [rewrite length_drop; lia|rewrite HA; lia]|]. intros r2 l ->. apply returns_ret. rewrite HA, Nat.add_1_r. symmetry. by apply drop_S.
    + apply returns_ret. apply lookup_ge_None in EL. symmetry. by apply drop_ge.
Qed.
End Contract.

(** ** Streams that read as much as there is *)

Class ExactReads (S : Type) `{!Stream S, !FileLaws S} :=
  read_exact s f n : rep s f -> 0 <= n -> returns (read n) s (fun s' got => got = take (Z.to_nat n) (f_rest f) /\ rep s' (f_seek f (f_pos f + len got))).
Section Streams.
Context {S : Type} `{!Stream S, !FileLaws S}.
Lemma skip_loop_ok fuel amount (s : S) f : rep s f -> 0 <= amount <= len (f_rest f) -> (Z.to_nat amount <= fuel)%nat -> returns (skip_loop fuel amount) s (fun s' _ => rep s' (f_seek f (f_pos f + amount))).
Proof.
  revert amount s f. induction fuel as [|fuel IH]; intros amount s f Hs Ha Hf; cbn [skip_loop]; destruct (Z.ltb_spec 0 amount) as [H0|H0]; try lia; try (apply returns_ret; replace amount with 0 by lia; by rewrite Z.add_0_r, f_seek_id).
  eapply returns_bind; [apply (read_law s f); [done|lia]|]. intros s1 got (k & Hg & Hl & Hne & Hs1). pose proof (f_rest_seek_app f got k (rep_pos _ _ Hs) Hg) as HA. assert (got <> []) as Hgn by (apply Hne; [lia|]; intros E; rewrite E in Ha; cbn in Ha; lia).
  destruct (Z.eqb_spec (len got) 0) as [E|E]; [destruct got; [done|cbn in E; lia]|]. apply (f_equal length) in HA. rewrite length_app in HA. eapply returns_mono; [apply (IH (amount - len got) s1 _ Hs1); lia|]. intros s2 ? Hs2. rewrite f_seek_seek in Hs2. cbn [f_pos f_seek] in Hs2. by replace (f_pos f + len got + (amount - len got)) with (f_pos f + amount) in Hs2 by lia.
Qed.
Lemma goto_entry_ok next (s : S) f : rep s f -> 0 <= next <= len (f_data f) -> returns (goto_entry next) s (fun s' _ => rep s' (f_seek f next)).
Proof.
  intros Hs Hn. pose proof (rep_wf _ _ Hs) as [Hp Hd]. unfold goto_entry. eapply returns_bind; [by apply (getPos_law s f)|]. intros s1 p (-> & Hs1). destruct (Z.eqb_spec (f_pos f) next) as [<-|Hne]; cbn [negb]; [apply returns_ret; by rewrite f_seek_id|].
  eapply returns_bind; [by apply (getCapabilities_law s1 f)|]. intros s2 caps (_ & Hs2). destruct (Z.ltb_spec next (f_pos f)) as [H1|H1]; [cbn [orb]; apply (setPos_law s2 f); [done|lia]|]. destruct (negb (Z.land caps CanSeek =? 0)); cbn [orb]; [apply (setPos_law s2 f); [done|lia]|].
  unfold u64. rewrite wrap_small by lia. unfold skip. eapply returns_mono; [apply (skip_loop_ok _ (next - f_pos f) s2 f Hs2); [|lia]|].
  - unfold f_rest. rewrite length_drop. lia.
  - intros s3 ? Hs3. by replace (f_pos f + (next - f_pos f)) with next in Hs3 by lia.
Qed.
Lemma rest_at f (pre tl : list Z) : f_data f = pre ++ tl -> f_rest (f_seek f (len pre)) = tl.
Proof. intros H. unfold f_rest. cbn [f_data f_pos f_seek]. by rewrite H, Nat2Z.id, drop_app_length. Qed.
(** Positioning and reading a header of [n] bytes, for a reader with a stream in it *)
Lemma fetch_ok `{!ExactReads S} {R A} (getter : R -> S) (setter : S -> R -> R) (n : nat) (r : R) f pre tl next (k : list Z -> M R A) Q :
  (forall s, getter (setter s r) = s) -> (forall s s', setter s' (setter s r) = setter s' r) -> rep (getter r) f -> next = len pre -> f_data f = pre ++ tl ->
  (forall s, rep s (f_seek f (len pre + len (take n tl))) -> returns (k (take n tl)) (setter s r) Q) ->
  returns (let@ _ := on getter setter (goto_entry next) in let@ hdr := on getter setter (read (Z.of_nat n)) in k hdr) r Q.
Proof.
  intros G1 G2 Hr Hn Hd Hk. eapply returns_bind_on; [apply (goto_entry_ok _ (getter r) f Hr); rewrite Hn, Hd, length_app; lia|]. intros s1 ? Hs1. eapply returns_bind_on; [rewrite G1; apply (read_exact s1 _ (Z.of_nat n) Hs1); lia|]. intros s2 got [Hg Hs2]. rewrite Hn, (rest_at f pre tl Hd), Nat2Z.id in Hg. subst got. rewrite f_seek_seek, Hn in Hs2. rewrite G2. apply Hk. exact Hs2.
Qed.
End Streams.

(** ** TAR *)

Definition pad (n : nat) (s : list Z) : list Z := s ++ replicate (n - length s) 0.
Lemma pad_length n s : (length s <= n)%nat -> length (pad n s) = n.
Proof. intros H. unfold pad. rewrite length_app, length_replicate. lia. Qed.
Lemma getString_pad n s : 0 ∉ s -> Tar.getString (pad n s) = s.
Proof.
  intros Hs. unfold Tar.getString, pad. destruct (n - length s)%nat as [|k]; cbn [replicate]; [rewrite app_nil_r; by rewrite find_char_none|]. rewrite find_char_app by done. by rewrite take_app_length.
Qed.
Definition octal_value (r : Z) (d : list Z) : Z := fold_left (fun a c => 8 * a + (c - 48)) d r.
(** A number of a header: octal digits between spaces, up to the end or a zero byte *)
Definition number_text (n : Z) (t : list Z) : Prop :=
  exists a d b c, t = a ++ d ++ b ++ c /\ forallb charIsSpace a = true /\ forallb Tar.is_octal d = true /\ forallb charIsSpace b = true /\ (c = [] \/ exists c', c = 0 :: c') /\ octal_value 0 d = n.
Lemma octal_ge d r : 0 <= r -> forallb Tar.is_octal d = true -> r <= octal_value r d.
Proof.
  revert r. induction d as [|c d IH]; intros r Hr Hd; cbn [octal_value fold_left]; [lia|]. cbn [forallb] in Hd. apply andb_true_iff in Hd as [Hc Hd]. unfold Tar.is_octal in Hc. apply andb_true_iff in Hc as [H1%Z.leb_le H2%Z.leb_le].
  specialize (IH (8 * r + (c - 48)) ltac:(lia) Hd). unfold octal_value in IH. lia.
Qed.
Lemma skip_spaces_app a r : forallb charIsSpace a = true -> Tar.skip_spaces (a ++ r) = Tar.skip_spaces r.
Proof. induction a as [|c a IH]; cbn [forallb app Tar.skip_spaces]; [done|]. intros [Hc Ha]%andb_true_iff. rewrite Hc. by apply IH. Qed.
Lemma octal_not_space c : Tar.is_octal c = true -> charIsSpace c = false.
Proof. unfold Tar.is_octal, charIsSpace. intros [H1%Z.leb_le H2%Z.leb_le]%andb_true_iff. zcases; lia || done. Qed.
Lemma space_not_octal c : charIsSpace c = true -> Tar.is_octal c = false.
Proof. intros H. destruct (Tar.is_octal c) eqn:E; [|done]. by rewrite (octal_not_space c E) in H. Qed.
Lemma octal_loop_run d r rest : 0 <= r -> forallb Tar.is_octal d = true -> octal_value r d < 2 ^ 64 -> (match rest with c :: _ => Tar.is_octal c = false | [] => True end) ->
  Tar.octal_loop (d ++ rest) r = (rest, octal_value r d).
Proof.
  revert r. induction d as [|c d IH]; intros r Hr Hd Hv Hrest; cbn [app Tar.octal_loop octal_value fold_left].
  - destruct rest as [|c rest]; cbn [Tar.octal_loop]; [done|]. by rewrite Hrest.
  - cbn [forallb] in Hd. apply andb_true_iff in Hd as [Hc Hd]. rewrite Hc. pose proof Hc as Hc'. unfold Tar.is_octal in Hc'. apply andb_true_iff in Hc' as [H1%Z.leb_le H2%Z.leb_le].
    pose proof (octal_ge d (8 * r + (c - 48)) ltac:(lia) Hd) as HG. change (octal_value r (c :: d)) with (octal_value (8 * r + (c - 48)) d) in *. unfold u64. rewrite wrap_small by lia. apply IH; [lia|done|done|done].
Qed.
Lemma getNumber_text n t : number_text n t -> n < 2 ^ 64 -> Tar.getNumber t = Some n.
Proof.
  intros (a & d & b & c & -> & Ha & Hd & Hb & Hc & Hn) Hv. unfold Tar.getNumber. rewrite skip_spaces_app by done.
  assert (HC : Tar.skip_spaces c = c) by (destruct Hc as [->|[c' ->]]; done). assert (HO : match b ++ c with x :: _ => Tar.is_octal x = false | [] => True end).
  { destruct b as [|x b]; cbn [app]; [by destruct Hc as [->|[c' ->]]|]. cbn [forallb] in Hb. apply andb_true_iff in Hb as [Hx _]. by apply space_not_octal. }
  assert (HS : Tar.octal_loop (Tar.skip_spaces (d ++ b ++ c)) 0 = (match d with [] => c | _ => b ++ c end, n)).
  { destruct d as [|x d]; cbn [app].
    - rewrite skip_spaces_app, HC by done. cbn in Hn. subst n. by destruct Hc as [->|[c' ->]].
    - cbn [forallb] in Hd. cbn [Tar.skip_spaces]. rewrite (octal_not_space x) by (by apply andb_true_iff in Hd as [? _]). change (x :: d ++ b ++ c) with ((x :: d) ++ b ++ c). rewrite octal_loop_run; [by rewrite Hn|lia|done|by rewrite Hn|done]. }
  rewrite HS. assert (HE : Tar.skip_spaces (match d with [] => c | _ => b ++ c end) = c) by (destruct d; [done|]; by rewrite skip_spaces_app). rewrite HE. by destruct Hc as [->|[c' ->]].
Qed.

(** A member of a TAR file: the fields of its header, and its data *)
Record TarFile := mkTarFile { tf_name : list Z; tf_mode : list Z; tf_ids : list Z; tf_size : list Z; tf_mtime : list Z; tf_chksum : list Z; tf_type : Z; tf_link : list Z; tf_prefix : list Z; tf_unused : list Z; tf_data : list Z; mode_value : Z; mtime_value : Z }.
Definition tar_header (m : TarFile) : list Z :=
  pad 100 (tf_name m) ++ tf_mode m ++ tf_ids m ++ tf_size m ++ tf_mtime m ++ tf_chksum m ++ [tf_type m] ++ tf_link m ++ pad 155 (tf_prefix m) ++ tf_unused m.
Definition tar_pad (n : Z) : Z := (- n) mod 512.
Definition tar_member (m : TarFile) : list Z := tar_header m ++ tf_data m ++ replicate (Z.to_nat (tar_pad (len (tf_data m)))) 0.
Record tar_ok (m : TarFile) : Prop := {
  ok_name : tf_name m <> [] /\ (0 ∉ tf_name m) /\ (length (tf_name m) <= 100)%nat;
  ok_prefix : (0 ∉ tf_prefix m) /\ (length (tf_prefix m) <= 155)%nat;
  ok_lengths : length (tf_mode m) = 8%nat /\ length (tf_ids m) = 16%nat /\ length (tf_size m) = 12%nat /\ length (tf_mtime m) = 12%nat /\ length (tf_chksum m) = 8%nat /\ length (tf_link m) = 188%nat /\ length (tf_unused m) = 12%nat;
  ok_mode : number_text (mode_value m) (tf_mode m) /\ mode_value m < 2 ^ 64;
  ok_mtime : number_text (mtime_value m) (tf_mtime m) /\ mtime_value m < 2 ^ 64;
  ok_size : number_text (len (tf_data m)) (tf_size m) /\ len (tf_data m) + 511 < 2 ^ 32 }.
Definition full_name (m : TarFile) : list Z := match tf_prefix m with [] => tf_name m | _ => tf_prefix m ++ 47 :: tf_name m end.
Lemma header_length m : tar_ok m -> length (tar_header m) = 512%nat.
Proof.
  intros [(_ & _ & H1) (_ & H2) (H3 & H4 & H5 & H6 & H7 & H8 & H9) _ _ _]. unfold tar_header. rewrite !length_app, !pad_length by done. rewrite H3, H4, H5, H6, H7, H8, H9. done.
Qed.
Lemma field_app a x b n k : length a = n -> length x = k -> field (a ++ x ++ b) n k = x.
Proof. intros <- <-. unfold field. by rewrite drop_app_length, take_app_length. Qed.
Lemma header_fields m rest : tar_ok m -> let hdr := tar_header m ++ rest in
  field hdr 0 100 = pad 100 (tf_name m) /\ field hdr 100 8 = tf_mode m /\ field hdr 124 12 = tf_size m /\ field hdr 136 12 = tf_mtime m /\ byte_at hdr 156 = tf_type m /\ field hdr 345 155 = pad 155 (tf_prefix m).
Proof.
  intros [(_ & _ & H1) (_ & H2) (H3 & H4 & H5 & H6 & H7 & H8 & H9) _ _ _]. cbn zeta. unfold tar_header. pose proof (pad_length 100 (tf_name m) H1) as P1. pose proof (pad_length 155 (tf_prefix m) H2) as P2. rewrite <- !app_assoc. split_and!.
  - by apply (field_app []).
  - by apply field_app.
  - rewrite (app_assoc (pad 100 _)), (app_assoc _ (tf_ids m)). apply field_app; [rewrite !length_app; cbn [length]; lia|done].
  - rewrite (app_assoc (pad 100 _)), (app_assoc _ (tf_ids m)), (app_assoc _ (tf_size m)). apply field_app; [rewrite !length_app; cbn [length]; lia|done].
  - rewrite (app_assoc (pad 100 _)), (app_assoc _ (tf_ids m)), (app_assoc _ (tf_size m)), (app_assoc _ (tf_mtime m)), (app_assoc _ (tf_chksum m)). unfold byte_at. rewrite app_nth2; rewrite !length_app; [|lia]. cbn [app]. by replace (156 - _)%nat with 0%nat by lia.
  - rewrite (app_assoc (pad 100 _)), (app_assoc _ (tf_ids m)), (app_assoc _ (tf_size m)), (app_assoc _ (tf_mtime m)), (app_assoc _ (tf_chksum m)), (app_assoc _ [tf_type m]), (app_assoc _ (tf_link m)). apply field_app; [rewrite !length_app; cbn [length]; lia|done].
Qed.

Lemma padded_size_ok n : 0 <= n -> n + 511 < 2 ^ 32 -> Tar.padded_size n = n + tar_pad n.
Proof.
  intros H0 H1. unfold Tar.padded_size, tar_pad, u64. rewrite wrap_small by lia. change (unot 32 511) with (Z.land (Z.ones 32) (Z.lnot (Z.ones 9))). rewrite Z.land_assoc, <- Z.ldiff_land, Z.land_ones, Z.mod_small, Z.ldiff_ones_r, Z.shiftl_mul_pow2, Z.shiftr_div_pow2 by lia. change (2 ^ 9) with 512.
  pose proof (Z.div_mod (n + 511) 512 ltac:(lia)). pose proof (Z.mod_pos_bound (n + 511) 512 ltac:(lia)). pose proof (Z.div_mod (- n) 512 ltac:(lia)). pose proof (Z.mod_pos_bound (- n) 512 ltac:(lia)). assert ((n + 511) / 512 = - (- n / 512)) by nia. lia.
Qed.
Lemma name_of_spec l nm : Tar.name_of l nm = bool_decide (nm ∈ map ie_name l).
Proof.
  unfold Tar.name_of. induction l as [|e l IH]; cbn [List.find map]; [by rewrite bool_decide_eq_false_2 by (by intros ?%elem_of_nil)|]. destruct (decide (ie_name e = nm)) as [H|H]; [rewrite (bool_decide_eq_true_2 (ie_name e = nm)) by done; symmetry; apply bool_decide_eq_true_2, elem_of_cons; by left|]. rewrite (bool_decide_eq_false_2 (ie_name e = nm)), IH by done. apply bool_decide_ext. rewrite elem_of_cons. split; [by right|]. intros [->|?]; done.
Qed.
Section TarLaws.
Context {S : Type} `{!Stream S, !FileLaws S, !ExactReads S} (epoch : Z).
Definition tar_entry (options p : Z) (m : TarFile) : IndexEntry := mkIndex (Tar.normalizeName options (full_name m)) (p + 512) (len (tf_data m)) (negb (Z.land (mode_value m) 73 =? 0)) (fromUnixTime epoch (mtime_value m)).
(** The entries for the files among the members, which start at [p] *)
Fixpoint tar_entries (options p : Z) (ms : list TarFile) : list IndexEntry :=
  match ms with
  | [] => []
  | m :: ms' => (if Tar.is_file (tf_type m) then [tar_entry options p m] else []) ++ tar_entries options (p + len (tar_member m)) ms'
  end.
Fixpoint tar_ahead (options p : Z) (index : list IndexEntry) (ms : list TarFile) : list (list IndexEntry) :=
  match ms with
  | [] => []
  | m :: ms' =>
      let x := if Tar.is_file (tf_type m) && negb (Tar.name_of index (ie_name (tar_entry options p m))) then [tar_entry options p m] else [] in
      x :: tar_ahead options (p + len (tar_member m)) (index ++ x) ms'
  end.
Lemma ahead_firsts options p index ms : concat (tar_ahead options p index ms) = firsts ie_name (map ie_name index) (tar_entries options p ms).
Proof.
  revert p index. induction ms as [|m ms IH]; intros p index; cbn [tar_ahead tar_entries concat]; [done|]. cbn zeta. rewrite name_of_spec, IH. destruct (Tar.is_file (tf_type m)); cbn [andb app]; [|by rewrite app_nil_r]. cbn [firsts]. destruct (decide (ie_name (tar_entry options p m) ∈ map ie_name index)) as [H|H].
  - rewrite bool_decide_eq_true_2 by done. cbn [negb app]. by rewrite app_nil_r.
  - rewrite bool_decide_eq_false_2 by done. cbn [negb app]. f_equal. apply firsts_same. intros k. rewrite map_app, elem_of_app, elem_of_cons. cbn [map]. rewrite list_elem_of_singleton. tauto.
Qed.
Lemma handle_header_ok (t : Tar.TarReader S) m : tar_ok m -> 0 <= Tar.t_nextEntryPosition t -> Tar.t_nextEntryPosition t + len (tar_member m) < 2 ^ 64 ->
  Tar.handle_header epoch (tar_header m) t = (Tar.mkTar (Tar.t_file t) (Tar.t_options t) (Tar.t_nextEntryPosition t + len (tar_member m)) (Tar.t_atEnd t)
    (Tar.t_index t ++ (if Tar.is_file (tf_type m) && negb (Tar.name_of (Tar.t_index t) (ie_name (tar_entry (Tar.t_options t) (Tar.t_nextEntryPosition t) m))) then [tar_entry (Tar.t_options t) (Tar.t_nextEntryPosition t) m] else [])), Ok tt).
Proof.
  intros Hm Hp Hlim. pose proof (header_fields m [] Hm) as HF. cbn zeta in HF. rewrite app_nil_r in HF. destruct HF as (F1 & F2 & F3 & F4 & F5 & F6). pose proof (header_length m Hm) as HL. destruct Hm as [(N1 & N2 & _) (N3 & _) _ [M1 M2] [T1 T2] [S1 S2]].
  assert (HTL : len (tar_member m) = 512 + Tar.padded_size (len (tf_data m))) by (rewrite padded_size_ok by lia; unfold tar_member; rewrite !length_app, length_replicate, HL; pose proof (Z.mod_pos_bound (- len (tf_data m)) 512 ltac:(lia)); unfold tar_pad in *; lia).
  unfold Tar.handle_header, Tar.number_field. unfold bind at 1, get. cbn zeta. rewrite F1, F2, F3, F4, F5, F6, !getString_pad by done. rewrite bool_decide_eq_false_2 by done. rewrite (getNumber_text _ _ M1 M2), (getNumber_text _ _ S1 ltac:(lia)), (getNumber_text _ _ T1 T2). unfold bind, ret, put.
  assert (HN : (if negb (bool_decide (tf_prefix m = [])) then tf_prefix m ++ 47 :: tf_name m else tf_name m) = full_name m) by (unfold full_name; destruct (tf_prefix m); [by rewrite bool_decide_eq_true_2|by rewrite bool_decide_eq_false_2]). rewrite HN.
  pose proof (padded_size_ok (len (tf_data m)) ltac:(lia) ltac:(lia)). pose proof (Z.mod_pos_bound (- len (tf_data m)) 512 ltac:(lia)). unfold tar_pad in *. unfold u64. rewrite !(wrap_small 64) by (rewrite ?(wrap_small 64) by lia; lia).
  f_equal. f_equal; [lia|]. cbn [tar_entry ie_name]. by destruct (_ && _); [|rewrite app_nil_r].
Qed.
Definition tar_tail (tail : list Z) : Prop := (length tail < 512)%nat \/ exists l, tail = 0 :: l.
Definition tar_ready (t : Tar.TarReader S) (ahead : list (list IndexEntry)) : Prop :=
  if Tar.t_atEnd t then ahead = []
  else exists f pre ms tail, rep (Tar.t_file t) f /\ Tar.t_nextEntryPosition t = len pre /\ f_data f = pre ++ concat (map tar_member ms) ++ tail /\ Forall tar_ok ms /\ tar_tail tail /\ ahead = tar_ahead (Tar.t_options t) (len pre) (Tar.t_index t) ms.
#[local] Instance tar_laws : @ArchiveLaws (Tar.TarReader S) IndexEntry (Tar.tar_reader epoch).
Proof.
  apply (@Build_ArchiveLaws (Tar.TarReader S) IndexEntry (Tar.tar_reader epoch) tar_ready).
  - intros t x ahead Hr. unfold tar_ready in Hr. cbn [readNextEntry Tar.tar_reader m_index]. unfold Tar.Tar_readNextEntry. apply returns_get. destruct (Tar.t_atEnd t) eqn:EE; [done|]. destruct Hr as (f & pre & ms & tail & Hs & Hn & Hd & Hms & Ht & HA). destruct ms as [|m ms]; [done|]. cbn [tar_ahead] in HA. injection HA as -> ->. apply Forall_cons in Hms as [Hm Hms]. cbn [map concat] in Hd. rewrite <- app_assoc in Hd. pose proof (header_length m Hm) as HL. pose proof (rep_wf _ _ Hs) as [_ Hw]. rewrite Hd, !length_app in Hw.
    apply (fetch_ok Tar.t_file Tar.set_file 512 t f pre (tar_member m ++ concat (map tar_member ms) ++ tail)); [done|done|done|done|done|]. intros s Hs'.
    assert (HT : take 512 (tar_member m ++ concat (map tar_member ms) ++ tail) = tar_header m) by (unfold tar_member; rewrite <- app_assoc, <- HL; apply take_app_length). rewrite HT in *. rewrite HL. change (Z.of_nat 512 =? 512) with true. cbn iota. unfold returns, bind at 1.
    rewrite handle_header_ok; [|done|cbn [Tar.set_file Tar.t_nextEntryPosition]; lia|cbn [Tar.set_file Tar.t_nextEntryPosition]; lia]. unfold bind, get, ret. cbn [Tar.set_file Tar.t_file Tar.t_options Tar.t_nextEntryPosition Tar.t_atEnd Tar.t_index]. rewrite EE. cbn [negb]. split; [done|]. rewrite Hn. split; [done|]. unfold tar_ready. cbn [Tar.t_file Tar.t_options Tar.t_nextEntryPosition Tar.t_atEnd Tar.t_index].
    eexists _, (pre ++ tar_member m), ms, tail. split; [exact Hs'|]. rewrite length_app, Nat2Z.inj_add. split; [done|]. split; [cbn [f_data f_seek]; by rewrite Hd, <- app_assoc|]. done.
  - intros t Hr. unfold tar_ready in Hr. cbn [readNextEntry Tar.tar_reader m_index]. unfold Tar.Tar_readNextEntry. apply returns_get. destruct (Tar.t_atEnd t) eqn:EE; [apply returns_ret; unfold tar_ready; by rewrite EE|]. destruct Hr as (f & pre & ms & tail & Hs & Hn & Hd & Hms & Ht & HA). destruct ms as [|m ms]; [|done]. cbn [map concat app] in Hd.
    apply (fetch_ok Tar.t_file Tar.set_file 512 t f pre tail); [done|done|done|done|done|]. intros s Hs'. assert (HE : forall t', Tar.t_index t' = Tar.t_index t -> Tar.t_atEnd t' = true -> returns (let@ t := get in ret (negb (Tar.t_atEnd t))) t' (fun r' b => b = false /\ Tar.t_index r' = Tar.t_index t /\ tar_ready r' [])).
    { intros t' HI HT. apply returns_get, returns_ret. unfold tar_ready. by rewrite HT. }
    destruct (Z.eqb_spec (len (take 512 tail)) 512) as [HL|HL].
    + rewrite length_take in HL. destruct Ht as [Ht|[l ->]]; [lia|]. unfold returns, bind at 1, Tar.handle_header. unfold bind at 1, get. cbn zeta. assert (HN : Tar.getString (field (take 512 (0 :: l)) 0 100) = []) by (unfold field; rewrite drop_0; reflexivity). rewrite HN. rewrite bool_decide_eq_true_2 by done. unfold put. by apply HE.
    + unfold returns, bind at 1. unfold bind at 1, get, put. by apply HE.
Defined.
End TarLaws.

(** ** Members *)

Section Members.
Context {S : Type} `{!Stream S, !FileLaws S}.
Lemma member_fullRead fuel n (mb : Member S) : fullRead_loop fuel n mb = (let '(l, r) := fullRead_loop fuel n (mb_worker mb) in (set_worker l mb, r)).
Proof.
  revert n mb. induction fuel as [|fuel IH]; intros n [fl [p o ln ps] nm]; cbn [fullRead_loop]; destruct (n =? 0); try done.
  unfold bind. cbn [read Member_stream]. unfold wcall, on. cbn [mb_worker]. destruct (read n _) as [l [got|e]]; [|done].
  destruct (len got =? 0); [done|]. rewrite IH. cbn [mb_worker set_worker]. destruct (fullRead_loop fuel _ l) as [l2 [r|e]]; done.
Qed.
(** A member reads as the window, and refuses to be written. *)
Lemma member_reads (s child : S) g pre win post e : rep child g -> f_data g = pre ++ win ++ post -> len (f_data g) < nil_ -> ie_start e = len pre -> ie_length e = len win ->
  exists mb, Member_new s child e = Ok mb /\ returns (fullRead (len win)) mb (fun _ got => got = win) /\ forall d, throws (write d) mb (FileProblemException cannotWrite) (fun mb' => mb' = mb).
Proof.
  intros Hc Hd Hn He Hl. rewrite Hd, !length_app in Hn. destruct (LimitedStream_new_ok child g pre win post Hc Hd ltac:(lia)) as (l & Hnew & Hrep). unfold Member_new. rewrite He, Hl, Hnew. eexists. split; [done|]. split; [|done].
  pose proof (@fullRead_spec _ _ (LimitedStream_laws pre post) (len win) l _ Hrep ltac:(unfold f_rest; cbn [f_pos f_data Z.to_nat]; rewrite drop_0; lia)) as HF. unfold returns, fullRead in *. rewrite member_fullRead. cbn [mb_worker].
  destruct (fullRead_loop _ _ l) as [l2 [got|x]]; [|done]. destruct HF as [-> _]. unfold f_rest. cbn [f_pos f_data Z.to_nat]. by rewrite drop_0, Nat2Z.id, firstn_all.
Qed.
End Members.

#[export] Instance ConstMemoryStream_exact : ExactReads ConstMemoryStream.
Proof.
  intros [mem pos] f n (lim & -> & Hf) Hn. cbn [cs_mem cs_pos] in *. destruct (mem_read_law mem pos lim false n Hf Hn) as (H1 & H2 & H3 & H4 & H5). run_step. simpl in *. rewrite H4. split; [done|]. by exists lim.
Qed.
Section TarCorrect.
Context {S : Type} `{!Stream S, !FileLaws S, !ExactReads S} (epoch : Z).
Lemma tar_ahead_length options p index ms : length (tar_ahead epoch options p index ms) = length ms.
Proof. revert p index. induction ms as [|m ms IH]; intros p index; cbn [tar_ahead length]; [done|]. cbn zeta. by rewrite IH. Qed.
Lemma entries_length options p ms : (length (tar_entries epoch options p ms) <= length ms)%nat.
Proof. revert p. induction ms as [|m ms IH]; intros p; cbn [tar_entries length]; [done|]. rewrite length_app. specialize (IH (p + len (tar_member m))). destruct (Tar.is_file _); cbn [length]; lia. Qed.
Lemma entry_of_member options p l m r : Tar.is_file (tf_type m) = true -> tar_entry epoch options (p + len (concat (map tar_member l))) m ∈ tar_entries epoch options p (l ++ m :: r).
Proof.
  intros Hm. revert p. induction l as [|x l IH]; intros p; cbn [app tar_entries map concat].
  - rewrite Hm, Z.add_0_r. apply elem_of_app. left. apply elem_of_cons. by left.
  - apply elem_of_app. right. rewrite length_app, Nat2Z.inj_add, Z.add_assoc. apply IH.
Qed.
Lemma tar_open (s : S) f pre ms tail options : rep s f -> f_data f = pre ++ concat (map tar_member ms) ++ tail -> f_pos f = len pre -> Forall tar_ok ms -> tar_tail tail ->
  exists t, Tar.open s options = Ok t /\ Tar.t_index t = [] /\ tar_ready epoch t (tar_ahead epoch options (len pre) [] ms).
Proof.
  intros Hs Hd Hp Hms Ht. unfold Tar.open. pose proof (getPos_law s f Hs) as HG. unfold returns in HG. destruct (getPos s) as [s' [p|x]]; [|done]. destruct HG as [-> Hs']. eexists. split; [done|]. split; [done|]. unfold tar_ready. cbn [Tar.t_atEnd Tar.t_file Tar.t_nextEntryPosition Tar.t_options Tar.t_index]. by exists f, pre, ms, tail.
Qed.
End TarCorrect.
(** C12. A TAR file can be read back.  On a stream that acts as a file, whose content from its position on is a sequence of well-formed
    members (header with name, path prefix and octal numbers between spaces; data; padding to 512 bytes) followed by a block that starts
    with a zero byte or by less than a block, TarReader can be opened, its enumerator returns exactly the
    entries of the members that are files, in order, the first one for each name and normalized as the options say; a search
    by name returns the first such entry or throws "file not found"; and the stream opened for an entry of a member reads exactly the
    member's data and refuses to be written.  All loops end: one round per member suffices. *)
Theorem tar_reader_correct {S : Type} `{!Stream S, !FileLaws S, !ExactReads S} (epoch options : Z) (s : S) f pre ms tail :
  rep s f -> f_data f = pre ++ concat (map tar_member ms) ++ tail -> f_pos f = len pre -> len (f_data f) < nil_ -> Forall tar_ok ms -> tar_tail tail ->
  let entries := firsts ie_name [] (tar_entries epoch options (len pre) ms) in
  exists t, Tar.open s options = Ok t /\
    (forall fuel n, (length ms < fuel)%nat -> (length ms < n)%nat -> returns (enumerate (ArchiveReader0 := Tar.tar_reader epoch) n fuel 0) t (fun _ l => l = entries)) /\
    (forall fuel nm, (length ms < fuel)%nat ->
       match List.find (fun e => bool_decide (ie_name e = nm)) entries with
       | Some e => returns (getDirectoryEntryByName (ArchiveReader0 := Tar.tar_reader epoch) fuel nm) t (fun _ r => r = e)
       | None => throws (getDirectoryEntryByName (ArchiveReader0 := Tar.tar_reader epoch) fuel nm) t (FileProblemException fileNotFound) (fun _ => True)
       end) /\
    (forall l m r child g, ms = l ++ m :: r -> Tar.is_file (tf_type m) = true -> rep child g -> f_data g = f_data f ->
       let e := tar_entry epoch options (len pre + len (concat (map tar_member l))) m in
       e ∈ tar_entries epoch options (len pre) ms /\
       exists mb, Member_new (Tar.t_file t) child e = Ok mb /\ returns (fullRead (ie_length e)) mb (fun _ got => got = tf_data m) /\
         forall d, throws (write d) mb (FileProblemException cannotWrite) (fun mb' => mb' = mb)).
Proof.
  intros Hs Hd Hp Hn Hms Ht entries. destruct (tar_open epoch s f pre ms tail options Hs Hd Hp Hms Ht) as (t & Ho & HI & Hr). exists t. split; [done|].
  assert (HA : all_entries (ArchiveReader0 := Tar.tar_reader epoch) t (tar_ahead epoch options (len pre) [] ms) = entries) by (unfold all_entries; cbn [m_index Tar.tar_reader]; rewrite HI, ahead_firsts; done).
  pose proof (tar_ahead_length epoch options (len pre) [] ms) as HL. split; [|split].
  - intros fuel n Hf Hn'. eapply returns_mono; [apply (enumerate_ok (ArchiveLaws0 := tar_laws epoch) n fuel 0 t _ Hr); [lia|]|].
    + rewrite HA. pose proof (firsts_length ie_name [] (tar_entries epoch options (len pre) ms)). pose proof (entries_length epoch options (len pre) ms). unfold entries. lia.
    + intros ? l ->. by rewrite HA, drop_0.
  - intros fuel nm Hf. pose proof (lookup_ok (ArchiveLaws0 := tar_laws epoch) fuel nm t _ Hr ltac:(lia)) as H. rewrite HA in H. unfold named in H. cbn [entry_name Tar.tar_reader] in H. destruct (List.find _ entries); [eapply returns_mono; [exact H|]; by intros ? ? [-> _]|by eapply throws_mono; [exact H|]].
  - intros l m r child g -> Hm Hc Hg. cbn zeta. split; [by apply entry_of_member|]. apply Forall_app in Hms as [_ [Hm1 _]%Forall_cons].
    rewrite map_app, concat_app in Hd. cbn [map concat] in Hd. unfold tar_member at 2 in Hd. pose proof (header_length m Hm1) as HH.
    apply (member_reads _ _ g (pre ++ concat (map tar_member l) ++ tar_header m) (tf_data m) (replicate (Z.to_nat (tar_pad (len (tf_data m)))) 0 ++ concat (map tar_member r) ++ tail)); [done|rewrite Hg, Hd; by rewrite <- !app_assoc|by rewrite Hg| |done].
    cbn [ie_start tar_entry]. rewrite !length_app, HH. lia.
Qed.
(** The file "a/b" with the bytes [1; 2; 3], a directory and the end of the archive; the entry keeps its path. *)
Definition tar_ex : TarFile := mkTarFile [97; 47; 98] (replicate 7 53 ++ [0]) (replicate 16 48) (replicate 9 32 ++ [48; 51; 32]) (replicate 11 49 ++ [0]) (replicate 8 32) 48 (replicate 188 7) [] (replicate 12 0) [1; 2; 3] (octal_value 0 (replicate 7 53)) (octal_value 0 (replicate 11 49)).
Definition tar_ex_dir : TarFile := mkTarFile [97; 47] (replicate 7 53 ++ [0]) (replicate 16 48) (replicate 12 32) (replicate 11 49 ++ [0]) (replicate 8 32) 53 (replicate 188 7) [120] (replicate 12 0) [] (octal_value 0 (replicate 7 53)) (octal_value 0 (replicate 11 49)).
Lemma tar_ex_ok : Forall tar_ok [tar_ex; tar_ex_dir].
Proof.
  assert (HM : number_text (octal_value 0 (replicate 7 53)) (replicate 7 53 ++ [0])) by (exists [], (replicate 7 53), [], [0]; split_and!; try reflexivity; right; by exists []).
  assert (HT : number_text (octal_value 0 (replicate 11 49)) (replicate 11 49 ++ [0])) by (exists [], (replicate 11 49), [], [0]; split_and!; try reflexivity; right; by exists []).
  assert (HS : number_text 3 (replicate 9 32 ++ [48; 51; 32])) by (exists (replicate 9 32), [48; 51], [32], []; split_and!; try reflexivity; by left).
  assert (HZ : number_text 0 (replicate 12 32)) by (exists (replicate 12 32), [], [], []; split_and!; try reflexivity; by left).
  assert (HB : octal_value 0 (replicate 7 53) < 2 ^ 64 /\ octal_value 0 (replicate 11 49) < 2 ^ 64) by (vm_compute; done). destruct HB as [HB1 HB2].
  assert (HE : forall l : list Z, forallb (fun c => negb (c =? 0)) l = true -> 0 ∉ l) by (intros l Hl H; rewrite forallb_forall in Hl; apply list_elem_of_In in H; by apply Hl in H).
  apply Forall_cons; split; [|apply Forall_cons; split; [|constructor]]; (constructor; [split_and!; [done|by apply HE|cbn; lia]|split; [by apply HE|cbn; lia]|split_and!; reflexivity|split; [exact HM|exact HB1]|split; [exact HT|exact HB2]|split; [exact HS || exact HZ|cbn; lia]]).
Qed.
Lemma tar_reader_correct_witness :
  let data := [9] ++ concat (map tar_member [tar_ex; tar_ex_dir]) ++ [0] in
  let e := mkIndex [97; 47; 98] 513 3 true (1000 * octal_value 0 (replicate 11 49)) in
  exists t, Tar.open (mkConst data 1) Tar.KeepPaths = Ok t /\ returns (enumerate (ArchiveReader0 := Tar.tar_reader 0) 3 3 0) t (fun _ l => l = [e]) /\
    returns (getDirectoryEntryByName (ArchiveReader0 := Tar.tar_reader 0) 3 [97; 47; 98]) t (fun _ r => r = e) /\
    exists mb, Member_new (Tar.t_file t) (mkConst data 0) e = Ok mb /\ returns (fullRead 3) mb (fun _ got => got = [1; 2; 3]).
Proof.
  intros data e. assert (HD : len data < 4096) by (vm_compute; done).
  assert (HW : forall p, 0 <= p <= 1 -> rep (mkConst data p) (mkFile data p 4096 false)) by (intros p Hp; exists 4096; split; [done|]; unfold f_wf; cbn [f_pos f_limit f_data]; lia).
  destruct (tar_reader_correct (S := ConstMemoryStream) 0 Tar.KeepPaths (mkConst data 1) (mkFile data 1 4096 false) [9] [tar_ex; tar_ex_dir] [0] (HW 1 ltac:(lia)) eq_refl eq_refl ltac:(cbn [f_data]; unfold nil_; lia) tar_ex_ok ltac:(left; cbn; lia)) as (t & Ho & H1 & H2 & H3). exists t. split; [done|].
  split; [exact (H1 3%nat 3%nat ltac:(cbn; lia) ltac:(cbn; lia))|]. split; [exact (H2 3%nat [97; 47; 98] ltac:(cbn; lia))|].
  destruct (H3 [] tar_ex [tar_ex_dir] (mkConst data 0) (mkFile data 0 4096 false) eq_refl eq_refl (HW 0 ltac:(lia)) eq_refl) as (_ & mb & Hmb & Hr & _). by exists mb.
Defined.
(** A member of more than 4 GiB: the next header is looked for too early. *)
Lemma tar_large_member : Tar.padded_size (2 ^ 32 + 1) = 512.
Proof. reflexivity. Qed.
(** Nothing can be written to a member, but to its child. *)
Lemma member_child_writable :
  let e := mkIndex [97] 1 2 false 0 in let file := MemoryStream_new [1; 2; 3] in
  exists m l, Member_new file file e = Ok m /\ (write [9] m).2 = Throw (FileProblemException cannotWrite) /\ Member_createChild file m = Ok l /\ (write [9] l).2 = Ok 1 /\ ms_mem (m_parent (write [9] l).1) = [1; 9; 3].
Proof. eexists _, _. split_and!; reflexivity. Qed.
