(* ===== verification/ArReaderProps.v ===== *)
(** * Theorems on AR files

    The texts of member headers (numbers, special names, the three forms of file names),
    the reader's laws, and the theorem on archives. *)

From Stdlib Require Import ZArith Lia Bool String.
From stdpp Require Import base tactics numbers option list.
From S2P Require Import Prelude Strings Format Stream MemStream LimitedStream Archives ArchivesProps.

Local Open Scope Z_scope.
Local Open Scope afl_scope.

(** ** Texts *)

(** [t] is [s], padded with spaces. *)
Definition padded (t s : list Z) : Prop := exists k, t = s ++ replicate k 32.
Lemma special_spec t s : Ar.checkSpecialName t s = true <-> padded t s.
Proof.
  revert t. induction s as [|c s IH]; intros t.
  - assert (HN : Ar.checkSpecialName t [] = forallb (Z.eqb 32) t) by (by destruct t). rewrite HN. clear HN. unfold padded. cbn [app]. induction t as [|x t IHt]; cbn [forallb]; [split; [by exists 0%nat|done]|]. rewrite andb_true_iff, IHt, Z.eqb_eq. split.
    + intros [<- [k ->]]. by exists (S k).
    + intros [[|k] H]; [done|]. cbn [replicate] in H. injection H as -> ->. split; [done|by exists k].
  - destruct t as [|x t]; cbn [Ar.checkSpecialName]; [split; [done|by intros [k ?]]|]. rewrite andb_true_iff, IH, Z.eqb_eq. split.
    + intros [-> [k ->]]. by exists k.
    + intros [k H]. cbn [app] in H. injection H as -> ->. split; [done|by exists k].
Qed.
(** A number: digits, and what does not go on with a digit *)
Definition in_base (base c : Z) : bool := (48 <=? c) && (c <? 48 + base).
Definition base_value (base r : Z) (d : list Z) : Z := fold_left (fun a c => base * a + (c - 48)) d r.
Definition stops (p : Z -> bool) (l : list Z) : Prop := match l with c :: _ => p c = false | [] => True end.
Definition base_text (base n : Z) (t : list Z) : Prop := exists d c, t = d ++ c /\ forallb (in_base base) d = true /\ stops (in_base base) c /\ base_value base 0 d = n.
Lemma base_ge base d r : 1 <= base -> 0 <= r -> forallb (in_base base) d = true -> r <= base_value base r d.
Proof.
  intros Hb. revert r. induction d as [|c d IH]; intros r Hr Hd; cbn [base_value fold_left]; [lia|]. cbn [forallb] in Hd. apply andb_true_iff in Hd as [Hc Hd]. unfold in_base in Hc. apply andb_true_iff in Hc as [H1%Z.leb_le H2%Z.ltb_lt].
  specialize (IH (base * r + (c - 48)) ltac:(nia) Hd). unfold base_value in IH. nia.
Qed.
Lemma parse_run base d c r : 1 <= base -> 0 <= r -> forallb (in_base base) d = true -> stops (in_base base) c -> base_value base r d < 2 ^ 32 -> Ar.parseNumber_loop base (d ++ c) r = base_value base r d.
Proof.
  intros Hb. revert r. induction d as [|x d IH]; intros r Hr Hd Hc Hv; cbn [app].
  - destruct c as [|x c]; cbn [Ar.parseNumber_loop]; [done|]. change ((48 <=? x) && (x <? 48 + base)) with (in_base base x). by rewrite Hc.
  - cbn [forallb] in Hd. apply andb_true_iff in Hd as [Hx Hd]. cbn [Ar.parseNumber_loop]. change ((48 <=? x) && (x <? 48 + base)) with (in_base base x). rewrite Hx. unfold in_base in Hx. apply andb_true_iff in Hx as [H1%Z.leb_le H2%Z.ltb_lt].
    pose proof (base_ge base d (base * r + (x - 48)) Hb ltac:(nia) Hd) as HG. change (base_value base r (x :: d)) with (base_value base (base * r + (x - 48)) d) in *. unfold u32. rewrite wrap_small by nia. apply IH; [nia|done|done|done].
Qed.
Lemma parseNumber_text base n t : 1 <= base -> base_text base n t -> n < 2 ^ 32 -> Ar.parseNumber t base = n.
Proof. intros Hb (d & c & -> & Hd & Hc & <-) Hn. by apply parse_run. Qed.
Lemma name_index_run d c r : 0 <= r -> forallb (in_base 10) d = true -> stops (in_base 10) c -> base_value 10 r d < 2 ^ 64 -> Ar.name_index (d ++ c) r = base_value 10 r d.
Proof.
  assert (HE : forall x, (48 <=? x) && (x <=? 57) = in_base 10 x) by (intros x; unfold in_base; f_equal; zcases; lia).
  revert r. induction d as [|x d IH]; intros r Hr Hd Hc Hv; cbn [app].
  - destruct c as [|x c]; cbn [Ar.name_index]; [done|]. rewrite HE. by rewrite Hc.
  - cbn [forallb] in Hd. apply andb_true_iff in Hd as [Hx Hd]. cbn [Ar.name_index]. rewrite HE, Hx. unfold in_base in Hx. apply andb_true_iff in Hx as [H1%Z.leb_le H2%Z.ltb_lt].
    pose proof (base_ge 10 d (10 * r + (x - 48)) ltac:(lia) ltac:(lia) Hd) as HG. change (base_value 10 r (x :: d)) with (base_value 10 (10 * r + (x - 48)) d) in *. unfold usize, SIZE_BITS. rewrite wrap_small by lia. apply IH; [lia|done|done|done].
Qed.
Inductive ar_name (table : list Z) : list Z -> list Z -> Prop :=
| name_sysv x nm k : x <> 32 -> x <> 47 -> ar_name table ((x :: nm) ++ 47 :: replicate k 32) (x :: nm)
| name_bsd x nm k : x <> 47 -> 32 ∉ x :: nm -> last (x :: nm) <> Some 47 -> ar_name table ((x :: nm) ++ replicate k 32) (x :: nm)
| name_long c d r pre nm slash post : c = 32 \/ c = 47 -> forallb (in_base 10) d = true -> stops (in_base 10) r -> base_value 10 0 d = len pre -> len pre < 2 ^ 64 ->
    table = pre ++ (nm ++ slash) ++ 10 :: post -> nm <> [] -> (10 ∉ nm) -> slash = [47] \/ (slash = [] /\ last nm <> Some 47) -> ar_name table (c :: d ++ r) nm.
Lemma byte_last l x : byte_at (l ++ [x]) (length (l ++ [x]) - 1) = x.
Proof. unfold byte_at. rewrite length_app, app_nth2; cbn [length]; [|lia]. by replace (_ - _)%nat with 0%nat by lia. Qed.
Lemma byte_not_last l x c : last (x :: l) <> Some c -> byte_at (x :: l) (length (x :: l) - 1) <> c.
Proof.
  intros H E. apply H. destruct (lookup_lt_is_Some_2 (x :: l) (length (x :: l) - 1)) as [y Hy]; [cbn [length]; lia|]. unfold byte_at in E. rewrite (nth_lookup_Some _ _ 0 _ Hy) in E. subst y. rewrite last_lookup, <- Hy. f_equal. cbn [length]. lia.
Qed.
Lemma name_text table text nm : ar_name table text nm -> Ar.getFileName text table = Some nm /\ nm <> [].
Proof.
  intros [x l k H1 H2|x l k H1 H2 H3|c d r pre l slash post Hc Hd Hr Hv Hl Ht Hn Hnl Hs]; (split; [|done]); unfold Ar.getFileName.
  - change (byte_at ((x :: l) ++ 47 :: replicate k 32) 0) with x. rewrite (proj2 (Z.eqb_neq x 32) H1), (proj2 (Z.eqb_neq x 47) H2). cbn [orb].
    change (47 :: replicate k 32) with ([47] ++ replicate k 32). rewrite app_assoc, length_app, length_replicate, trim_right_padding by (by rewrite last_snoc). assert (HB : byte_at (((x :: l) ++ [47]) ++ replicate k 32) (length ((x :: l) ++ [47]) - 1) = 47).
    { rewrite byte_at_app_l by (rewrite length_app; cbn [length]; lia). apply byte_last. }
    rewrite HB. cbn zeta. replace (_ =? 0)%nat with false by (symmetry; apply Nat.eqb_neq; rewrite length_app; cbn [length]; lia). change (negb false && (47 =? 47)) with true. cbn iota. do 1 f_equal. rewrite length_app. cbn [length]. rewrite Nat.add_sub, <- app_assoc. apply (take_app_length (x :: l)).
  - change (byte_at ((x :: l) ++ replicate k 32) 0) with x. assert (x <> 32) by (intros ->; apply H2, elem_of_cons; by left). rewrite (proj2 (Z.eqb_neq x 32)), (proj2 (Z.eqb_neq x 47) H1) by done. cbn [orb].
    rewrite length_app, length_replicate, trim_right_padding by (intros E; apply H2; rewrite last_lookup in E; by eapply list_elem_of_lookup_2). cbn zeta. assert (HB : byte_at ((x :: l) ++ replicate k 32) (length (x :: l) - 1) <> 47).
    { rewrite byte_at_app_l by (cbn [length]; lia). by apply byte_not_last. }
    rewrite (proj2 (Z.eqb_neq _ _) HB), andb_false_r. f_equal. clear - H2. induction (x :: l) as [|y m IH]; cbn [app]; [by destruct k|]. cbn [Ar.until_space]. apply not_elem_of_cons in H2 as [Hy Hm]. rewrite (proj2 (Z.eqb_neq y 32)) by done. f_equal. by apply IH.
  - assert (HC : (byte_at (c :: d ++ r) 0 =? 32) || (byte_at (c :: d ++ r) 0 =? 47) = true) by (change (byte_at (c :: d ++ r) 0) with c; by destruct Hc as [-> | ->]). rewrite HC. clear HC. change (drop 1 (c :: d ++ r)) with (d ++ r). rewrite name_index_run by (done || lia). cbn zeta. rewrite Hv, Nat2Z.id, Ht, drop_app_length.
    rewrite find_char_app by (rewrite elem_of_app; intros [?|E]; [done|]; destruct Hs as [-> |[-> _]]; [by apply list_elem_of_singleton in E|by apply elem_of_nil in E]). destruct l as [|y l]; [done|]. cbn [app length Nat.eqb]. change (S (length (l ++ slash))) with (length ((y :: l) ++ slash)). change (y :: (l ++ slash) ++ 10 :: post) with (((y :: l) ++ slash) ++ 10 :: post). rewrite take_app_length.
    destruct Hs as [-> |[-> Hs]].
    + rewrite byte_last. change (47 =? 47) with true. cbn iota. f_equal. rewrite length_app. cbn [length]. rewrite Nat.add_sub. apply (take_app_length (y :: l)).
    + rewrite app_nil_r, (proj2 (Z.eqb_neq _ _) (byte_not_last l y 47 Hs)). done.
Qed.

(** A member: the texts of its header, and its data *)
Record ArItem := mkArItem { ai_name : list Z; ai_mtime : list Z; ai_ids : list Z; ai_mode : list Z; ai_size : list Z; ai_data : list Z; ai_mtime_value : Z; ai_mode_value : Z }.
Definition ar_header (i : ArItem) : list Z := ai_name i ++ ai_mtime i ++ ai_ids i ++ ai_mode i ++ ai_size i ++ Ar.MEMBER_MAGIC.
Definition ar_item (i : ArItem) : list Z := ar_header i ++ ai_data i ++ replicate (Z.to_nat (Z.land (len (ai_data i)) 1)) 10.
Record ar_ok (i : ArItem) : Prop := {
  ar_lengths : length (ai_name i) = 16%nat /\ length (ai_mtime i) = 12%nat /\ length (ai_ids i) = 12%nat /\ length (ai_mode i) = 8%nat /\ length (ai_size i) = 10%nat;
  ar_mtime : base_text 10 (ai_mtime_value i) (ai_mtime i) /\ ai_mtime_value i < 2 ^ 32;
  ar_mode : base_text 8 (ai_mode_value i) (ai_mode i) /\ ai_mode_value i < 2 ^ 32;
  ar_size : base_text 10 (len (ai_data i)) (ai_size i) /\ len (ai_data i) < 2 ^ 32 }.
Definition is_map (t : list Z) : Prop := padded t (lit "/") \/ padded t (lit "__.SYMDEF") \/ padded t (lit "__.SYMDEF/").
Definition is_names (t : list Z) : Prop := padded t (lit "//") \/ padded t (lit "ARFILENAMES/").
Lemma ar_header_fields i : ar_ok i -> length (ar_header i) = 60%nat /\
  field (ar_header i) 0 16 = ai_name i /\ field (ar_header i) 16 12 = ai_mtime i /\ field (ar_header i) 40 8 = ai_mode i /\ field (ar_header i) 48 10 = ai_size i /\ field (ar_header i) 58 2 = Ar.MEMBER_MAGIC.
Proof.
  intros [(H1 & H2 & H3 & H4 & H5) _ _ _]. unfold ar_header. split_and!.
  - rewrite !length_app, H1, H2, H3, H4, H5. done.
  - by apply (field_app []).
  - by apply field_app.
  - rewrite (app_assoc (ai_name i)), (app_assoc _ (ai_ids i)). apply field_app; [rewrite !length_app; lia|done].
  - rewrite (app_assoc (ai_name i)), (app_assoc _ (ai_ids i)), (app_assoc _ (ai_mode i)). apply field_app; [rewrite !length_app; lia|done].
  - rewrite (app_assoc (ai_name i)), (app_assoc _ (ai_ids i)), (app_assoc _ (ai_mode i)), (app_assoc _ (ai_size i)), <- (app_nil_r Ar.MEMBER_MAGIC) at 1. apply field_app; [rewrite !length_app; lia|done].
Qed.
Section ArLaws.
Context {S : Type} `{!Stream S, !FileLaws S, !ExactReads S} (epoch : Z).
Definition ar_entry (p : Z) (nm : list Z) (i : ArItem) : IndexEntry := mkIndex nm (p + 60) (len (ai_data i)) (negb (Z.land (ai_mode_value i) 73 =? 0)) (fromUnixTime epoch (ai_mtime_value i)).
(** One member at [p]: the name table after it, and what it adds to the index *)
Inductive ar_adds (table : list Z) (p : Z) (i : ArItem) : list Z -> list IndexEntry -> Prop :=
| adds_map : is_map (ai_name i) -> ar_adds table p i table []
| adds_names : is_names (ai_name i) -> len (ai_data i) <= Ar.MAX_LONG_NAME_TABLE_SIZE -> ar_adds table p i (if bool_decide (table = []) then ai_data i else table) []
| adds_file nm : ~ is_map (ai_name i) -> ~ is_names (ai_name i) -> ar_name table (ai_name i) nm -> ar_adds table p i table [ar_entry p nm i].
Inductive ar_items : list Z -> Z -> list ArItem -> list (list IndexEntry) -> Prop :=
| items_nil table p : ar_items table p [] []
| items_cons table p i l table' x ahead : ar_ok i -> ar_adds table p i table' x -> ar_items table' (p + len (ar_item i)) l ahead -> ar_items table p (i :: l) (x :: ahead).
Lemma map_special i : is_map (ai_name i) <-> (Ar.checkSpecialName (ai_name i) (lit "/") || (Ar.checkSpecialName (ai_name i) (lit "__.SYMDEF") || Ar.checkSpecialName (ai_name i) (lit "__.SYMDEF/"))) = true.
Proof. by rewrite !orb_true_iff, !special_spec. Qed.
Lemma names_special i : is_names (ai_name i) <-> (Ar.checkSpecialName (ai_name i) (lit "//") || Ar.checkSpecialName (ai_name i) (lit "ARFILENAMES/")) = true.
Proof. by rewrite !orb_true_iff, !special_spec. Qed.
Lemma not_both t : is_names t -> ~ is_map t.
Proof.
  intros [[k ->]|[k ->]] [[k' H]|[[k' H]|[k' H]]]; cbn in H; try discriminate H; destruct k'; try discriminate H.
Qed.
Lemma handle_member_ok (a : Ar.ArReader S) f p i table' x rest : rep (Ar.a_file a) f -> ar_ok i -> 0 <= p -> f_pos f = p + 60 -> f_rest f = ai_data i ++ rest -> p + len (ar_item i) < 2 ^ 64 -> ar_adds (Ar.a_longNameTable a) p i table' x ->
  returns (Ar.handle_member epoch (ar_header i)) a (fun a' _ => Ar.a_atEnd a' = Ar.a_atEnd a /\ Ar.a_index a' = Ar.a_index a ++ x /\ Ar.a_nextEntryPosition a' = p + len (ar_item i) /\ Ar.a_longNameTable a' = table' /\ exists f', rep (Ar.a_file a') f' /\ f_data f' = f_data f).
Proof.
  intros Hr Hi Hp0 Hp Hrest Hlim Hx. destruct (ar_header_fields i Hi) as (HL & F1 & F2 & F3 & F4 & F5). destruct Hi as [_ [M1 M2] [O1 O2] [S1 S2]].
  assert (HT : len (ar_item i) = 60 + len (ai_data i) + Z.land (len (ai_data i)) 1). { unfold ar_item. rewrite !length_app, length_replicate, HL. pose proof (Z.land_nonneg (len (ai_data i)) 1). lia. }
  unfold Ar.handle_member. rewrite F1, F2, F3, F4, (parseNumber_text 10 _ _ ltac:(lia) S1 S2), (parseNumber_text 10 _ _ ltac:(lia) M1 M2), (parseNumber_text 8 _ _ ltac:(lia) O1 O2). cbn zeta.
  eapply returns_bind_on; [by apply (getPos_law _ f)|]. intros s1 pos [-> Hs1]. apply returns_get. rewrite Hp. unfold u64. rewrite (wrap_small 64) by lia. set (a1 := Ar.set_next _ _). assert (HN : Ar.a_nextEntryPosition a1 = p + len (ar_item i)) by (subst a1; cbn; lia). apply returns_put.
  destruct (Ar.checkSpecialName (ai_name i) (lit "/") || (Ar.checkSpecialName (ai_name i) (lit "__.SYMDEF") || Ar.checkSpecialName (ai_name i) (lit "__.SYMDEF/"))) eqn:EM; [pose proof (proj2 (map_special i) EM) as HM|assert (HM : ~ is_map (ai_name i)) by (by rewrite map_special, EM)].
  - destruct Hx as [Hm|Hn Hz|nm Hm Hn Hnm]; [|by apply not_both in Hn|done].
    assert (HE : forall X : M (Ar.ArReader S) unit, returns (if Ar.checkSpecialName (ai_name i) (lit "/") then ret tt else if Ar.checkSpecialName (ai_name i) (lit "__.SYMDEF") || Ar.checkSpecialName (ai_name i) (lit "__.SYMDEF/") then ret tt else X) a1 (fun a' _ => a' = a1)) by (intros X; destruct (Ar.checkSpecialName (ai_name i) (lit "/")); [done|]; cbn [orb] in EM; by rewrite EM).
    eapply returns_mono; [apply HE|]. intros a' [] ->. rewrite app_nil_r. split_and!; try done. by exists f.
  - apply orb_false_iff in EM as [EM1 EM2]. rewrite EM1, EM2. cbn iota. destruct Hx as [Hm|Hn Hz|nm Hm Hn Hnm]; [done| |].
    + rewrite (proj1 (names_special i) Hn). cbn iota. rewrite (proj2 (Z.ltb_ge _ _) Hz). apply returns_get. change (Ar.a_longNameTable a1) with (Ar.a_longNameTable a). rewrite app_nil_r. destruct (bool_decide (Ar.a_longNameTable a = [])); [|apply returns_ret; split_and!; try done; by exists f].
      apply returns_put. eapply returns_bind_on; [apply (fullRead_spec (len (ai_data i)) s1 f Hs1); rewrite Hrest, length_app; lia|]. intros s2 got [-> Hs2]. apply returns_get, returns_put_last. rewrite Hrest, Nat2Z.id, take_app_length. split_and!; try done. eexists. split; [exact Hs2|done].
    + assert (HF : (Ar.checkSpecialName (ai_name i) (lit "//") || Ar.checkSpecialName (ai_name i) (lit "ARFILENAMES/")) = false) by (apply not_true_iff_false; by rewrite <- names_special). rewrite HF. cbn iota. apply returns_get. change (Ar.a_longNameTable a1) with (Ar.a_longNameTable a). destruct (name_text _ _ _ Hnm) as [-> Hne]. rewrite bool_decide_eq_false_2 by done. apply returns_put_last. split_and!; try done. by exists f.
Qed.
End ArLaws.

Section ArReaderLaws.
Context {S : Type} `{!Stream S, !FileLaws S, !ExactReads S} (epoch : Z).
Definition ar_tail (tail : list Z) : Prop := (length tail < 60)%nat \/ field tail 58 2 <> Ar.MEMBER_MAGIC.
Definition ar_ready (a : Ar.ArReader S) (ahead : list (list IndexEntry)) : Prop :=
  if Ar.a_atEnd a then ahead = []
  else exists f pre items tail, rep (Ar.a_file a) f /\ Ar.a_nextEntryPosition a = len pre /\ f_data f = pre ++ concat (map ar_item items) ++ tail /\ ar_tail tail /\ ar_items epoch (Ar.a_longNameTable a) (len pre) items ahead.
Definition ar_laws : @ArchiveLaws (Ar.ArReader S) IndexEntry (Ar.ar_reader epoch).
Proof.
  apply (@Build_ArchiveLaws (Ar.ArReader S) IndexEntry (Ar.ar_reader epoch) ar_ready).
  - intros a x ahead Hr. unfold ar_ready in Hr. cbn [readNextEntry Ar.ar_reader m_index]. unfold Ar.Ar_readNextEntry. apply returns_get. destruct (Ar.a_atEnd a) eqn:EE; [done|]. destruct Hr as (f & pre & items & tail & Hs & Hn & Hd & Ht & HA). inversion HA as [|table p i l table' x' ahead' Hi Hx HI]; subst. cbn [map concat] in Hd. rewrite <- app_assoc in Hd. destruct (ar_header_fields i Hi) as (HL & _ & _ & _ & _ & FM). pose proof (rep_wf _ _ Hs) as [_ Hw]. rewrite Hd, !length_app in Hw.
    apply (fetch_ok Ar.a_file Ar.set_file 60 a f pre (ar_item i ++ concat (map ar_item l) ++ tail)); [done|done|done|done|done|]. intros s Hs'.
    assert (HT : take 60 (ar_item i ++ concat (map ar_item l) ++ tail) = ar_header i) by (unfold ar_item; rewrite <- app_assoc, <- HL; apply take_app_length). rewrite HT in *. rewrite HL, FM in *. rewrite bool_decide_eq_true_2 by done. change ((Z.of_nat 60 =? 60) && true) with true. cbn iota.
    eapply returns_bind; [apply (handle_member_ok epoch (Ar.set_file s a) (f_seek f (len pre + Z.of_nat 60)) (len pre) i table' x (replicate (Z.to_nat (Z.land (len (ai_data i)) 1)) 10 ++ concat (map ar_item l) ++ tail)); [done|done|lia|done| |lia|done]|].
    + replace (len pre + Z.of_nat 60) with (len (pre ++ ar_header i)) by (rewrite length_app, HL; lia). rewrite (rest_at f (pre ++ ar_header i) (ai_data i ++ replicate (Z.to_nat (Z.land (len (ai_data i)) 1)) 10 ++ concat (map ar_item l) ++ tail)); [done|]. rewrite Hd. unfold ar_item at 1. by rewrite <- !app_assoc.
    + intros a' [] (E1 & E2 & E3 & E4 & f' & Hf' & Hd'). apply returns_get, returns_ret. cbn [Ar.set_file Ar.a_atEnd Ar.a_index] in *. rewrite E1, EE. split; [done|]. split; [done|]. unfold ar_ready. rewrite E1, EE. exists f', (pre ++ ar_item i), l, tail. rewrite length_app, Nat2Z.inj_add, E4. split; [done|]. split; [done|]. split; [rewrite Hd'; cbn [f_data f_seek]; by rewrite Hd, <- app_assoc|]. done.
  - intros a Hr. unfold ar_ready in Hr. cbn [readNextEntry Ar.ar_reader m_index]. unfold Ar.Ar_readNextEntry. apply returns_get. destruct (Ar.a_atEnd a) eqn:EE; [apply returns_ret; unfold ar_ready; by rewrite EE|]. destruct Hr as (f & pre & items & tail & Hs & Hn & Hd & Ht & HA). inversion HA; subst. cbn [map concat app] in Hd.
    apply (fetch_ok Ar.a_file Ar.set_file 60 a f pre tail); [done|done|done|done|done|]. intros s Hs'. assert (HF : (len (take 60 tail) =? 60) && bool_decide (field (take 60 tail) 58 2 = Ar.MEMBER_MAGIC) = false).
    { apply andb_false_iff. rewrite length_take. destruct (decide (length tail < 60)%nat) as [H|H]; [left; apply Z.eqb_neq; lia|]. right. apply bool_decide_eq_false_2. destruct Ht as [Ht|Ht]; [done|]. intros E. apply Ht. rewrite <- E. unfold field. by rewrite skipn_firstn_comm, take_take. }
    rewrite HF. apply returns_bind with (Q := fun a' _ => a' = Ar.set_end (Ar.set_file s a)); [done|]. intros a' [] ->. apply returns_get, returns_ret. unfold ar_ready. done.
Defined.
Lemma ar_open (s : S) f pre items tail ahead : rep s f -> f_data f = pre ++ Ar.FILE_MAGIC ++ concat (map ar_item items) ++ tail -> f_pos f = len pre -> ar_tail tail -> ar_items epoch [] (len pre + 8) items ahead ->
  exists a, Ar.open s = Ok a /\ Ar.a_index a = [] /\ ar_ready a ahead.
Proof.
  intros Hs Hd Hp Ht Hi. unfold Ar.open. pose proof (getPos_law s f Hs) as HG. unfold returns in HG. destruct (getPos s) as [s' [p|x]]; [|done]. destruct HG as [-> Hs'].
  assert (HH : returns Ar.readHeader (Ar.mkAr s' (f_pos f) false [] []) (fun a _ => Ar.a_index a = [] /\ ar_ready a ahead)).
  { unfold Ar.readHeader. assert (HR : f_rest f = Ar.FILE_MAGIC ++ concat (map ar_item items) ++ tail) by (rewrite <- (f_seek_id f), Hp; by apply rest_at). eapply returns_bind_on; [apply (fullRead_spec 8 s' f Hs'); rewrite HR, length_app; cbn [length Ar.FILE_MAGIC]; lia|]. intros s2 got [-> Hs2]. rewrite HR. change (take (Z.to_nat 8) (Ar.FILE_MAGIC ++ concat (map ar_item items) ++ tail)) with Ar.FILE_MAGIC. rewrite bool_decide_eq_true_2 by done. cbn [negb].
    eapply returns_bind_on; [by apply (getPos_law s2 (f_seek f (f_pos f + 8)))|]. intros s3 q [-> Hs3]. apply returns_get, returns_put_last. split; [done|]. unfold ar_ready. cbn [Ar.a_atEnd Ar.set_next Ar.set_file Ar.a_file Ar.a_nextEntryPosition Ar.a_longNameTable f_pos f_seek]. exists (f_seek f (f_pos f + 8)), (pre ++ Ar.FILE_MAGIC), items, tail. rewrite length_app, Nat2Z.inj_add. change (len Ar.FILE_MAGIC) with 8. split_and!; try done; [by rewrite Hp|]. cbn [f_data f_seek]. by rewrite Hd, <- app_assoc. }
  unfold returns in HH. destruct (Ar.readHeader _) as [a [u|x]]; [|done]. by exists a.
Qed.
Lemma items_entry table p l i r ahead : ar_items epoch table p (l ++ i :: r) ahead -> exists table1 table2 x, ar_ok i /\ ar_adds epoch table1 (p + len (concat (map ar_item l))) i table2 x /\ (x ∈ ahead).
Proof.
  revert table p ahead. induction l as [|y l IH]; intros table p ahead H; inversion H as [|t q j l' t' x ahead' Hj Hx Hl]; subst.
  - exists table, t', x. cbn. rewrite Z.add_0_r. split_and!; try done. apply elem_of_cons. by left.
  - destruct (IH _ _ _ Hl) as (t1 & t2 & x' & H1 & H2 & H3). exists t1, t2, x'. cbn [map concat]. rewrite length_app, Nat2Z.inj_add, Z.add_assoc. split_and!; try done. apply elem_of_cons. by right.
Qed.
Lemma items_length table p l ahead : ar_items epoch table p l ahead -> length ahead = length l /\ (length (concat ahead) <= length l)%nat.
Proof. induction 1 as [|t q i l t' x ahead Hi Hx Hl [IH1 IH2]]; [done|]. cbn [length concat]. rewrite length_app. split; [lia|]. destruct Hx; cbn [length]; lia. Qed.
End ArReaderLaws.
(** C14. An AR file can be read back.  On a stream that acts as a file, whose content from its position on is the signature, a sequence of
    members (symbol tables, name tables, and files whose names are of the System V form "name/", the BSD form "name", or an offset into
    the name table that came before), each padded to an even size, and the end or a block without the member signature, ArReader can be
    opened; its enumerator returns exactly the entries of the files in order, with duplicates, and their names, sizes, modes and times; a search by name
    returns the first such entry or throws "file not found"; and the stream opened for an entry reads exactly the member's
    data.  All loops end: one round per member suffices. *)
Theorem ar_reader_correct {S : Type} `{!Stream S, !FileLaws S, !ExactReads S} (epoch : Z) (s : S) f pre items tail ahead :
  rep s f -> f_data f = pre ++ Ar.FILE_MAGIC ++ concat (map ar_item items) ++ tail -> f_pos f = len pre -> len (f_data f) < nil_ -> ar_tail tail -> ar_items epoch [] (len pre + 8) items ahead ->
  exists a, Ar.open s = Ok a /\
    (forall fuel n, (length items < fuel)%nat -> (length items < n)%nat -> returns (enumerate (ArchiveReader0 := Ar.ar_reader epoch) n fuel 0) a (fun _ l => l = concat ahead)) /\
    (forall fuel nm, (length items < fuel)%nat ->
       match List.find (fun e => bool_decide (ie_name e = nm)) (concat ahead) with
       | Some e => returns (getDirectoryEntryByName (ArchiveReader0 := Ar.ar_reader epoch) fuel nm) a (fun _ r => r = e)
       | None => throws (getDirectoryEntryByName (ArchiveReader0 := Ar.ar_reader epoch) fuel nm) a (FileProblemException fileNotFound) (fun _ => True)
       end) /\
    (forall l i r child g, items = l ++ i :: r -> ~ is_map (ai_name i) -> ~ is_names (ai_name i) -> rep child g -> f_data g = f_data f ->
       exists nm, let e := ar_entry epoch (len pre + 8 + len (concat (map ar_item l))) nm i in
       e ∈ concat ahead /\
       exists mb, Member_new (Ar.a_file a) child e = Ok mb /\ returns (fullRead (ie_length e)) mb (fun _ got => got = ai_data i) /\
         forall d, throws (write d) mb (FileProblemException cannotWrite) (fun mb' => mb' = mb)).
Proof.
  intros Hs Hd Hp Hn Ht Hi. destruct (ar_open epoch s f pre items tail ahead Hs Hd Hp Ht Hi) as (a & Ho & HI & Hr). exists a. split; [done|].
  assert (HA : all_entries (ArchiveReader0 := Ar.ar_reader epoch) a ahead = concat ahead) by (unfold all_entries; cbn [m_index Ar.ar_reader]; by rewrite HI).
  destruct (items_length epoch _ _ _ _ Hi) as [HL1 HL2]. split; [|split].
  - intros fuel n Hf Hn'. eapply returns_mono; [apply (enumerate_ok (ArchiveLaws0 := ar_laws epoch) n fuel 0 a _ Hr); [lia|rewrite HA; lia]|]. intros ? l ->. by rewrite HA, drop_0.
  - intros fuel nm Hf. pose proof (lookup_ok (ArchiveLaws0 := ar_laws epoch) fuel nm a _ Hr ltac:(lia)) as H. rewrite HA in H. unfold named in H. cbn [entry_name Ar.ar_reader] in H. destruct (List.find _ (concat ahead)); [eapply returns_mono; [exact H|]; by intros ? ? [-> _]|by eapply throws_mono; [exact H|]].
  - intros l i r child g -> Hm1 Hm2 Hc Hg. destruct (items_entry epoch _ _ _ _ _ _ Hi) as (t1 & t2 & x & Hok & Hx & Hin). destruct Hx as [H|H _|nm _ _ Hnm]; [done|done|]. exists nm. cbn zeta. split.
    { apply list_elem_of_In, in_concat. eexists. split; [by apply list_elem_of_In|by left]. }
    rewrite map_app, concat_app in Hd. cbn [map concat] in Hd. unfold ar_item at 2 in Hd. destruct (ar_header_fields i Hok) as [HH _].
    apply (member_reads _ _ g (pre ++ Ar.FILE_MAGIC ++ concat (map ar_item l) ++ ar_header i) (ai_data i) (replicate (Z.to_nat (Z.land (len (ai_data i)) 1)) 10 ++ concat (map ar_item r) ++ tail)); [done|rewrite Hg, Hd; by rewrite <- !app_assoc|by rewrite Hg| |done].
    cbn [ie_start ar_entry]. rewrite !length_app, HH. change (length Ar.FILE_MAGIC) with 8%nat. lia.
Qed.
(** A name table, the file "longname.o" with one byte, and "a b" with two *)
Definition sp (n : nat) (s : string) : list Z := lit s ++ replicate (n - length (lit s)) 32.
Definition ar_ex (nm : string) (size : string) (data : list Z) : ArItem := mkArItem (sp 16 nm) (sp 12 "7") (sp 12 "") (sp 8 "755") (sp 10 size) data 7 493.
Definition ar_ex_items : list ArItem := [ar_ex "//" "12" (lit "longname.o/" ++ [10]); ar_ex "/0" "1" [5]; ar_ex "a b/" "2" [6; 7]].
Definition ar_ex_entries : list IndexEntry := [mkIndex (lit "longname.o") 140 1 true 7000; mkIndex (lit "a b") 202 2 true 7000].
Lemma ar_ex_ok nm size data d : length (sp 16 nm) = 16%nat -> sp 10 size = d ++ replicate (10 - length d) 32 -> (length d < 10)%nat -> forallb (in_base 10) d = true -> base_value 10 0 d = len data -> len data < 100 -> ar_ok (ar_ex nm size data).
Proof.
  intros H1 H2 H3 H4 H5 H6. constructor; cbn [ar_ex ai_name ai_mtime ai_ids ai_mode ai_size ai_data ai_mtime_value ai_mode_value].
  - split_and!; try done. rewrite H2, length_app, length_replicate. lia.
  - split; [|lia]. exists (lit "7"), (replicate 11 32). split_and!; reflexivity.
  - split; [|lia]. exists (lit "755"), (replicate 5 32). split_and!; reflexivity.
  - split; [|lia]. exists d, (replicate (10 - length d) 32). split_and!; try done. by destruct (10 - length d)%nat.
Qed.
(** Evaluates the position of a member. *)
Ltac at_number := match goal with |- ar_adds _ _ ?p _ _ _ => let v := eval vm_compute in p in change p with v end.
Lemma ar_reader_correct_witness :
  let data := Ar.FILE_MAGIC ++ concat (map ar_item ar_ex_items) in
  exists a, Ar.open (mkConst data 0) = Ok a /\ returns (enumerate (ArchiveReader0 := Ar.ar_reader 0) 4 4 0) a (fun _ l => l = ar_ex_entries) /\
    returns (getDirectoryEntryByName (ArchiveReader0 := Ar.ar_reader 0) 4 (lit "longname.o")) a (fun _ r => ie_start r = 140).
Proof.
  intros data. assert (HD : len data < 4096) by (vm_compute; done). assert (HW : rep (mkConst data 0) (mkFile data 0 4096 false)) by (exists 4096; split; [done|]; unfold f_wf; cbn [f_pos f_limit f_data]; lia).
  assert (HN : forall l, forallb (fun s => negb (Ar.checkSpecialName l (lit s))) ["/"; "__.SYMDEF"; "__.SYMDEF/"; "//"; "ARFILENAMES/"]%string = true -> ~ is_map l /\ ~ is_names l).
  { intros l H. cbn [forallb] in H. rewrite !andb_true_iff, !negb_true_iff in H. destruct H as (A1 & A2 & A3 & A4 & A5 & _). unfold is_map, is_names. rewrite <- !special_spec, A1, A2, A3, A4, A5. split; intros H; repeat destruct H as [H|H]; done. }
  assert (HI : ar_items 0 [] 8 ar_ex_items [[]; [ar_entry 0 80 (lit "longname.o") (ar_ex "/0" "1" [5])]; [ar_entry 0 142 (lit "a b") (ar_ex "a b/" "2" [6; 7])]]).
  { eapply items_cons; [apply (ar_ex_ok _ _ _ (lit "12")); reflexivity || (cbn; lia)|apply adds_names; [left; by exists 14%nat|vm_compute; done]|]. rewrite bool_decide_eq_true_2 by done.
    eapply items_cons; [apply (ar_ex_ok _ _ _ (lit "1")); reflexivity || (cbn; lia)|at_number; apply (adds_file 0 _ _ _ (lit "longname.o")); [by apply HN|by apply HN|]|].
    { apply (name_long _ 47 (lit "0") (replicate 14 32) [] (lit "longname.o") [47] []); first [done|reflexivity|by left|by right|intros H]. apply list_elem_of_In in H. cbn in H. repeat destruct H as [H|H]; done. }
    eapply items_cons; [apply (ar_ex_ok _ _ _ (lit "2")); reflexivity || (cbn; lia)|at_number; apply (adds_file 0 _ _ _ (lit "a b")); [by apply HN|by apply HN|apply (name_sysv _ 97 (lit " b") 12); done]|apply items_nil]. }
  destruct (ar_reader_correct (S := ConstMemoryStream) 0 (mkConst data 0) (mkFile data 0 4096 false) [] ar_ex_items [] _ HW eq_refl eq_refl ltac:(cbn [f_data]; unfold nil_; lia) ltac:(left; cbn; lia) HI) as (a & Ho & H1 & H2 & _). exists a. split; [done|].
  split; [exact (H1 4%nat 4%nat ltac:(cbn; lia) ltac:(cbn; lia))|]. eapply returns_mono; [exact (H2 4%nat (lit "longname.o") ltac:(cbn; lia))|]. by intros ? ? ->.
Defined.
