(* ===== verification/ZipReaderProps.v ===== *)
(** * Theorems on ZIP files

    The format of local headers, the reader's laws, the members, and the theorem on archives. *)

From Stdlib Require Import ZArith Lia Bool String.
From stdpp Require Import base tactics numbers option list.
From S2P Require Import Prelude Pack Codepage Stream MemStream LimitedStream Transforms TransformsProps Archives ArchivesProps.

Local Open Scope Z_scope.
Local Open Scope afl_scope.

(** ** The format *)

Record ZipItem := mkZipItem { zi_version : list Z; zi_flags : Z; zi_method : Z; zi_stamp : list Z; zi_size : Z; zi_name : list Z; zi_extra : list Z; zi_data : list Z }.
Definition zip_signature : list Z := [0x50; 0x4B; 3; 4].
Definition zip_header (i : ZipItem) : list Z :=
  zi_version i ++ le_bytes 2 (zi_flags i) ++ le_bytes 2 (zi_method i) ++ zi_stamp i ++ le_bytes 4 (len (zi_data i)) ++ le_bytes 4 (zi_size i) ++ le_bytes 2 (len (zi_name i)) ++ le_bytes 2 (len (zi_extra i)).
Definition zip_item (i : ZipItem) : list Z := zip_signature ++ zip_header i ++ zi_name i ++ zi_extra i ++ zi_data i.
Record zip_ok (i : ZipItem) : Prop := {
  zok_lengths : length (zi_version i) = 2%nat /\ length (zi_stamp i) = 8%nat;
  zok_flags : in_u 16 (zi_flags i) /\ Z.land (zi_flags i) (Z.lnot Zip.gfKnown) = 0;
  zok_method : in_u 16 (zi_method i);
  zok_sizes : len (zi_data i) < 2 ^ 32 /\ in_u 32 (zi_size i);
  zok_texts : len (zi_name i) < 2 ^ 16 /\ len (zi_extra i) < 2 ^ 16 }.
Lemma le16_field w : in_u 16 w -> UInt16LE_unpack (le_bytes 2 w) = w.
Proof. intros H. rewrite UInt16LE_val by (apply le_bytes_bytes || apply le_bytes_length). by apply le_val_le_bytes. Qed.
Lemma le32_field w : in_u 32 w -> UInt32LE_unpack (le_bytes 4 w) = w.
Proof. intros H. rewrite UInt32LE_val by (apply le_bytes_bytes || apply le_bytes_length). by apply le_val_le_bytes. Qed.
Lemma zip_header_fields i : zip_ok i -> length (zip_header i) = 26%nat /\
  UInt16LE_unpack (field (zip_header i) 2 2) = zi_flags i /\ UInt16LE_unpack (field (zip_header i) 4 2) = zi_method i /\ UInt32LE_unpack (field (zip_header i) 14 4) = len (zi_data i) /\ UInt32LE_unpack (field (zip_header i) 18 4) = zi_size i /\
  UInt16LE_unpack (field (zip_header i) 22 2) = len (zi_name i) /\ UInt16LE_unpack (field (zip_header i) 24 2) = len (zi_extra i).
Proof.
  intros [[L1 L2] [F1 _] M1 [D1 D2] [N1 N2]]. unfold zip_header. set (e := le_bytes 2 (len (zi_extra i))). set (n := le_bytes 2 (len (zi_name i))). set (u := le_bytes 4 (zi_size i)). set (c := le_bytes 4 (len (zi_data i))). set (m := le_bytes 2 (zi_method i)). set (g := le_bytes 2 (zi_flags i)).
  assert (HL : length e = 2%nat /\ length n = 2%nat /\ length u = 4%nat /\ length c = 4%nat /\ length m = 2%nat /\ length g = 2%nat) by (split_and!; apply le_bytes_length). destruct HL as (LE & LN & LU & LC & LM & LG). split_and!.
  - rewrite !length_app. lia.
  - rewrite field_app by done. by apply le16_field.
  - rewrite (app_assoc _ g), field_app by (rewrite ?length_app; lia). by apply le16_field.
  - rewrite (app_assoc _ g), (app_assoc _ m), (app_assoc _ (zi_stamp i)), field_app by (rewrite ?length_app; lia). apply le32_field. unfold in_u. lia.
  - rewrite (app_assoc _ g), (app_assoc _ m), (app_assoc _ (zi_stamp i)), (app_assoc _ c), field_app by (rewrite ?length_app; lia). by apply le32_field.
  - rewrite (app_assoc _ g), (app_assoc _ m), (app_assoc _ (zi_stamp i)), (app_assoc _ c), (app_assoc _ u), field_app by (rewrite ?length_app; lia). apply le16_field. unfold in_u. lia.
  - rewrite (app_assoc _ g), (app_assoc _ m), (app_assoc _ (zi_stamp i)), (app_assoc _ c), (app_assoc _ u), (app_assoc _ n), <- (app_nil_r e), field_app by (rewrite ?length_app; lia). apply le16_field. unfold in_u. lia.
Qed.
Section ZipLaws.
Context {S : Type} `{!Stream S, !FileLaws S, !ExactReads S}.
Definition item_name (options : Z) (i : ZipItem) : list Z := Zip.local_name options (zi_flags i) (zi_name i).
(** A member that can be read: not a directory, not encrypted, with a known method *)
Definition supported (options : Z) (i : ZipItem) : bool :=
  negb (bool_decide (item_name options i = [])) && (Z.land (zi_flags i) Zip.gfEncrypted =? 0) && ((zi_method i =? Zip.cmStored) || (zi_method i =? Zip.cmDeflated)).
Definition data_start (p : Z) (i : ZipItem) : Z := p + 30 + len (zi_name i) + len (zi_extra i).
Definition zip_entry (options p : Z) (i : ZipItem) : Zip.ZipEntry := Zip.mkZip (item_name options i) (zi_method i) (data_start p i) (len (zi_data i)) (zi_size i).
Definition zip_adds (options p : Z) (index : list Zip.ZipEntry) (i : ZipItem) : list Zip.ZipEntry := if supported options i && negb (Zip.has_name index (item_name options i)) then [zip_entry options p i] else [].
Lemma zip_item_length i : zip_ok i -> len (zip_item i) = 30 + len (zi_name i) + len (zi_extra i) + len (zi_data i).
Proof. intros Hi. destruct (zip_header_fields i Hi) as [HL _]. unfold zip_item. rewrite !length_app, HL. cbn [length zip_signature]. lia. Qed.
Lemma at_view {A} (c : M S A) (r : Zip.ZipReader S) (Q : S -> A -> Prop) : returns c (Zip.zr_view r) Q -> returns (Zip.vcall c) r (fun r' a => exists v, r' = Zip.set_view v r /\ Q v a).
Proof. intros H. apply (returns_on Zip.zr_view Zip.set_view). eapply returns_mono; [exact H|]. intros v a Hv. by exists v. Qed.
Lemma view_forward (r : Zip.ZipReader S) f n : rep (Zip.zr_view r) f -> 0 <= n -> f_pos f + n <= f_limit f ->
  returns (Zip.forward n) r (fun r' _ => exists v, r' = Zip.set_view v r /\ rep v (f_seek f (f_pos f + n))).
Proof.
  intros Hr Hn Hl. pose proof (rep_wf _ _ Hr) as [W1 W2]. unfold Zip.forward. eapply returns_bind; [apply at_view; by apply (getPos_law _ f)|]. intros r1 pos (v & -> & -> & Hv). unfold u64. rewrite wrap_small by lia. eapply returns_mono; [apply at_view; apply (setPos_law v f); [done|lia]|]. intros r2 [] (v2 & -> & Hv2). by exists v2.
Qed.
Lemma read_local_ok (r : Zip.ZipReader S) f p i rest : rep (Zip.zr_view r) f -> zip_ok i -> 0 <= p -> f_pos f = p + 4 -> f_rest f = zip_header i ++ zi_name i ++ zi_extra i ++ zi_data i ++ rest -> p + len (zip_item i) <= f_limit f ->
  returns Zip.read_local r (fun r' b => b = true /\ exists v, r' = Zip.set_index (Zip.zr_index r ++ zip_adds (Zip.zr_options r) p (Zip.zr_index r) i) (Zip.set_view v r) /\ rep v (f_seek f (p + len (zip_item i)))).
Proof.
  intros Hr Hi Hp0 Hp HR Hlim. pose proof (zip_item_length i Hi) as HL. pose proof (rep_wf _ _ Hr) as [W1 W2]. destruct (zip_header_fields i Hi) as (H0 & H1 & H2 & H3 & H4 & H5 & H6). destruct Hi as [_ [F1 F2] _ [D1 D2] [N1 N2]]. unfold Zip.read_local.
  eapply returns_bind; [apply at_view, (fullRead_spec 26 (Zip.zr_view r) f Hr); rewrite HR, length_app; lia|]. intros r1 hdr (v1 & -> & -> & Hv1). rewrite HR. assert (HT : take (Z.to_nat 26) (zip_header i ++ zi_name i ++ zi_extra i ++ zi_data i ++ rest) = zip_header i) by (change (Z.to_nat 26) with 26%nat; rewrite <- H0; apply take_app_length). rewrite HT. clear HT. cbn zeta. rewrite H1, H2, H3, H4, H5, H6, F2. cbn [Z.eqb negb].
  assert (HR1 : f_rest (f_seek f (f_pos f + 26)) = zi_name i ++ zi_extra i ++ zi_data i ++ rest) by (rewrite f_rest_seek by lia; change (Z.to_nat 26) with 26%nat; rewrite HR, <- H0; apply drop_app_length).
  eapply returns_bind; [apply at_view, (fullRead_spec (len (zi_name i)) v1 _ Hv1); rewrite HR1, length_app; lia|]. intros r2 nm (v2 & -> & -> & Hv2). rewrite HR1, Nat2Z.id, take_app_length. apply returns_get. cbn [f_pos f_seek] in Hv2. rewrite f_seek_seek in Hv2. set (r2 := Zip.set_view v2 _). fold (item_name (Zip.zr_options r2) i). cbn zeta.
  eapply (returns_bind _ _ _ (fun r' _ => exists v, r' = Zip.set_view v r /\ rep v (f_seek f (data_start p i)))).
  { destruct (Z.eqb_spec (len (zi_extra i)) 0) as [E|E]; cbn [negb].
    - apply returns_ret. exists v2. split; [done|]. unfold data_start. by replace (p + 30 + len (zi_name i) + len (zi_extra i)) with (f_pos f + 26 + len (zi_name i)) by lia.
    - eapply returns_mono; [apply (view_forward r2 (f_seek f (f_pos f + 26 + len (zi_name i)))); [done|lia|cbn [f_pos f_limit f_seek]; lia]|]. intros r3 [] (v3 & -> & Hv3). exists v3. split; [done|]. rewrite f_seek_seek in Hv3. cbn [f_pos f_seek] in Hv3. unfold data_start. by replace (p + 30 + len (zi_name i) + len (zi_extra i)) with (f_pos f + 26 + len (zi_name i) + len (zi_extra i)) by lia. }
  intros r3 [] (v3 & -> & Hv3).
  eapply (returns_bind _ _ _ (fun r' _ => exists v, r' = Zip.set_index (Zip.zr_index r ++ zip_adds (Zip.zr_options r) p (Zip.zr_index r) i) (Zip.set_view v r) /\ rep v (f_seek f (data_start p i)))).
  { unfold zip_adds, supported. change (Zip.zr_options r2) with (Zip.zr_options r). destruct (bool_decide (item_name (Zip.zr_options r) i = [])); cbn [negb andb]; [apply returns_ret; exists v3; rewrite app_nil_r; by destruct r|].
    destruct ((Z.land (zi_flags i) Zip.gfEncrypted =? 0) && ((zi_method i =? Zip.cmStored) || (zi_method i =? Zip.cmDeflated))); cbn [andb]; [|apply returns_ret; exists v3; rewrite app_nil_r; by destruct r].
    apply returns_get. change (Zip.zr_index (Zip.set_view v3 r)) with (Zip.zr_index r). destruct (Zip.has_name (Zip.zr_index r) _); cbn [negb]; [apply returns_ret; exists v3; rewrite app_nil_r; by destruct r|].
    eapply returns_bind; [apply at_view; by apply (getPos_law _ (f_seek f (data_start p i)))|]. intros r4 pos (v4 & -> & -> & Hv4). unfold Zip.update. apply returns_get, returns_put_last. by exists v4. }
  intros r4 [] (v4 & -> & Hv4). eapply returns_bind; [apply (view_forward _ (f_seek f (data_start p i)) (len (zi_data i))); [done|lia|cbn [f_pos f_limit f_seek]; unfold data_start; lia]|]. intros r5 [] (v5 & -> & Hv5). apply returns_ret. split; [done|]. exists v5. split; [done|]. rewrite f_seek_seek in Hv5. cbn [f_pos f_seek] in Hv5. unfold data_start in Hv5. by replace (p + len (zip_item i)) with (p + 30 + len (zi_name i) + len (zi_extra i) + len (zi_data i)) by lia.
Qed.
End ZipLaws.

Section ZipReaderLaws.
Context {S : Type} `{!Stream S, !FileLaws S, !ExactReads S}.
Local Abbreviation R := (Zip.ZipReader S).
(** The entries for the supported members, which start at [p] *)
Fixpoint zip_entries (options p : Z) (items : list ZipItem) : list Zip.ZipEntry :=
  match items with
  | [] => []
  | i :: l => (if supported options i then [zip_entry options p i] else []) ++ zip_entries options (p + len (zip_item i)) l
  end.
Fixpoint zip_ahead (options p : Z) (index : list Zip.ZipEntry) (items : list ZipItem) : list (list Zip.ZipEntry) :=
  match items with
  | [] => []
  | i :: l => let x := zip_adds options p index i in x :: zip_ahead options (p + len (zip_item i)) (index ++ x) l
  end.
Lemma has_name_spec l nm : Zip.has_name l nm = bool_decide (nm ∈ map Zip.z_name l).
Proof.
  unfold Zip.has_name. induction l as [|e l IH]; cbn [List.find map]; [by rewrite bool_decide_eq_false_2 by (by intros ?%elem_of_nil)|]. destruct (decide (Zip.z_name e = nm)) as [H|H]; [rewrite (bool_decide_eq_true_2 (Zip.z_name e = nm)) by done; symmetry; apply bool_decide_eq_true_2, elem_of_cons; by left|]. rewrite (bool_decide_eq_false_2 (Zip.z_name e = nm)), IH by done. apply bool_decide_ext. rewrite elem_of_cons. split; [by right|]. intros [->|?]; done.
Qed.
Lemma zip_firsts options p index items : concat (zip_ahead options p index items) = firsts Zip.z_name (map Zip.z_name index) (zip_entries options p items).
Proof.
  revert p index. induction items as [|i l IH]; intros p index; cbn [zip_ahead zip_entries concat]; [done|]. cbn zeta. rewrite IH. unfold zip_adds. destruct (supported options i); cbn [andb app]; [|by rewrite app_nil_r]. rewrite has_name_spec. cbn [firsts]. change (Zip.z_name (zip_entry options p i)) with (item_name options i). destruct (decide (item_name options i ∈ map Zip.z_name index)) as [H|H].
  - rewrite bool_decide_eq_true_2 by done. cbn [negb app]. by rewrite app_nil_r.
  - rewrite bool_decide_eq_false_2 by done. cbn [negb app]. f_equal. apply firsts_same. intros k. rewrite map_app, elem_of_app, elem_of_cons. cbn [map]. rewrite list_elem_of_singleton. change (Zip.z_name (zip_entry options p i)) with (item_name options i). tauto.
Qed.
Lemma zip_ahead_length options p index items : length (zip_ahead options p index items) = length items /\ (length (zip_entries options p items) <= length items)%nat.
Proof. revert p index. induction items as [|i l IH]; intros p index; cbn [zip_ahead zip_entries length]; [done|]. cbn zeta. destruct (IH (p + len (zip_item i)) (index ++ zip_adds options p index i)) as [-> H]. rewrite length_app. destruct (supported options i); cbn [length]; lia. Qed.
(** Behind the members: the end, or another block *)
Definition zip_tail (tail : list Z) : Prop := (length tail < 4)%nat \/ UInt32LE_unpack (take 4 tail) <> 0x04034B50.
Definition zip_ready (r : R) (ahead : list (list Zip.ZipEntry)) : Prop :=
  if Zip.zr_indexerReachedEnd r || Zip.zr_hadUnsupportedFeature r then ahead = []
  else exists f pre items tail, rep (Zip.zr_view r) f /\ f_pos f = len pre /\ f_data f = pre ++ concat (map zip_item items) ++ tail /\ Forall zip_ok items /\ zip_tail tail /\ ahead = zip_ahead (Zip.zr_options r) (len pre) (Zip.zr_index r) items.
Lemma at_position f (pre tl : list Z) : f_pos f = len pre -> f_data f = pre ++ tl -> f_rest f = tl.
Proof. intros Hp Hd. rewrite <- (f_seek_id f), Hp. by apply rest_at. Qed.
Lemma zip_stops (r : R) (m : M R bool) r' : m r = (r', Ok false) -> Zip.zr_index r' = Zip.zr_index r -> Zip.zr_indexerReachedEnd r' || Zip.zr_hadUnsupportedFeature r' = true ->
  returns m r (fun r' b => b = false /\ Zip.zr_index r' = Zip.zr_index r /\ zip_ready r' []).
Proof. intros E HI HE. unfold returns. rewrite E. split; [done|]. split; [done|]. unfold zip_ready. by rewrite HE. Qed.
Definition zip_laws : @ArchiveLaws R Zip.ZipEntry Zip.zip_reader.
Proof.
  apply (@Build_ArchiveLaws R Zip.ZipEntry Zip.zip_reader zip_ready).
  - intros r x ahead Hr. unfold zip_ready in Hr. cbn [readNextEntry Zip.zip_reader m_index]. unfold Zip.Zip_readNextEntry. apply returns_get. destruct (Zip.zr_indexerReachedEnd r || Zip.zr_hadUnsupportedFeature r) eqn:EE; [done|]. destruct Hr as (f & pre & items & tail & Hs & Hp & Hd & Hok & Ht & HA). destruct items as [|i l]; [done|]. cbn [zip_ahead] in HA. injection HA as -> ->. apply Forall_cons in Hok as [Hi Hok]. cbn [map concat] in Hd. rewrite <- app_assoc in Hd. pose proof (rep_wf _ _ Hs) as [_ Hw]. pose proof Hd as Hw2. apply (f_equal length) in Hw2. rewrite !length_app in Hw2. pose proof (at_position f _ _ Hp Hd) as HR.
    eapply returns_bind; [apply at_view; apply (read_exact _ f 4 Hs); lia|]. intros r1 got (v1 & -> & Hg & Hv1). rewrite HR in Hg. change (Z.to_nat 4) with 4%nat in Hg. unfold zip_item at 1 in Hg. rewrite <- app_assoc in Hg. change (take 4 (zip_signature ++ _)) with zip_signature in Hg. subst got. change (negb (len zip_signature =? 4)) with false. change (UInt32LE_unpack zip_signature =? 67324752) with true. cbn iota zeta. change (len zip_signature) with 4 in Hv1.
    eapply returns_mono; [apply (read_local_ok _ (f_seek f (f_pos f + 4)) (len pre) i (concat (map zip_item l) ++ tail)); [done|done|lia|cbn [f_pos f_seek]; lia| |cbn [f_limit f_seek]; lia]|].
    + rewrite f_rest_seek by lia. change (Z.to_nat 4) with (length zip_signature). rewrite HR. unfold zip_item at 1. rewrite <- app_assoc, drop_app_length. by rewrite <- !app_assoc.
    + intros r2 b (-> & v2 & -> & Hv2). split; [done|]. split; [done|]. unfold zip_ready. change (Zip.zr_indexerReachedEnd (Zip.set_index _ _)) with (Zip.zr_indexerReachedEnd r). change (Zip.zr_hadUnsupportedFeature (Zip.set_index _ _)) with (Zip.zr_hadUnsupportedFeature r). rewrite EE. rewrite f_seek_seek in Hv2. eexists _, (pre ++ zip_item i), l, tail. split; [exact Hv2|]. rewrite length_app, Nat2Z.inj_add. split; [done|]. split; [cbn [f_data f_seek]; by rewrite Hd, <- app_assoc|]. done.
  - intros r Hr. unfold zip_ready in Hr. cbn [readNextEntry Zip.zip_reader m_index]. unfold Zip.Zip_readNextEntry. apply returns_get. destruct (Zip.zr_indexerReachedEnd r || Zip.zr_hadUnsupportedFeature r) eqn:EE; [by eapply zip_stops|]. destruct Hr as (f & pre & items & tail & Hs & Hp & Hd & Hok & Ht & HA). destruct items as [|i l]; [|done]. cbn [map concat app] in Hd. pose proof (at_position f _ _ Hp Hd) as HR.
    eapply returns_bind; [apply at_view; apply (read_exact _ f 4 Hs); lia|]. intros r1 got (v1 & -> & Hg & Hv1). rewrite HR in Hg. change (Z.to_nat 4) with 4%nat in Hg. subst got. change (Zip.zr_index r) with (Zip.zr_index (Zip.set_view v1 r)). destruct (Z.eqb_spec (len (take 4 tail)) 4) as [HL|HL]; cbn [negb]; [|by eapply zip_stops].
    cbn zeta. destruct (Z.eqb_spec (UInt32LE_unpack (take 4 tail)) 0x04034B50) as [HE|HE]; [rewrite length_take in HL; destruct Ht as [Ht|Ht]; [lia|done]|]. destruct ((UInt32LE_unpack (take 4 tail) =? 0x02014B50) || (UInt32LE_unpack (take 4 tail) =? 0x06054B50)); (eapply zip_stops; [reflexivity|done|]); [done|apply orb_true_r].
Defined.
#[local] Existing Instance Zip.zip_reader.
#[local] Existing Instance zip_laws.
(** The constructor has already read the first entry. *)
Lemma zip_open (s : S) f pre items tail options : rep s f -> f_pos f = len pre -> f_data f = pre ++ concat (map zip_item items) ++ tail -> Forall zip_ok items -> zip_tail tail ->
  exists r ahead, Zip.open s options = Ok r /\ ready r ahead /\ (length ahead <= length items)%nat /\ all_entries r ahead = firsts Zip.z_name [] (zip_entries options (len pre) items).
Proof.
  intros Hs Hp Hd Hok Ht. unfold Zip.open. set (r0 := Zip.mkZipReader s options [] false false). set (ahead0 := zip_ahead options (len pre) [] items).
  assert (H0 : ready r0 ahead0) by (unfold ready; cbn; unfold zip_ready; cbn; by exists f, pre, items, tail).
  assert (HF : all_entries r0 ahead0 = firsts Zip.z_name [] (zip_entries options (len pre) items)) by (exact (zip_firsts options (len pre) [] items)).
  pose proof (proj1 (zip_ahead_length options (len pre) [] items)) as HL. fold ahead0 in HL. change Zip.Zip_readNextEntry with (readNextEntry (R := R) (E := Zip.ZipEntry)). destruct ahead0 as [|x ahead] eqn:EA.
  - pose proof (ready_end r0 H0) as HE. unfold returns in HE. destruct (readNextEntry r0) as [r1 [b|e]]; [|done]. destruct HE as (_ & HI & HR). exists r1, []. split_and!; try done; [cbn; lia|]. rewrite <- HF. unfold all_entries. by rewrite HI.
  - pose proof (ready_more r0 x ahead H0) as HE. unfold returns in HE. destruct (readNextEntry r0) as [r1 [b|e]]; [|done]. destruct HE as (_ & HI & HR). exists r1, ahead. split_and!; try done; [cbn [length] in HL; lia|]. rewrite <- HF. unfold all_entries. rewrite HI. cbn [concat]. by rewrite app_assoc.
Qed.
End ZipReaderLaws.

(** ** Members *)

Section ZipMembers.
Context {S : Type} `{!Stream S, !FileLaws S}.
#[local] Existing Instance Zip.StoredMember_stream.
Lemma stored_fullRead fuel n (m : Zip.StoredMember (S := S)) : fullRead_loop fuel n m = (let '(l, r) := fullRead_loop fuel n (Zip.sm_worker m) in (Zip.set_sm_worker l m, r)).
Proof.
  revert n m. induction fuel as [|fuel IH]; intros n [[p o ln ps] nm]; cbn [fullRead_loop]; destruct (n =? 0); try done.
  unfold bind. cbn [read Zip.StoredMember_stream]. unfold on. cbn [Zip.sm_worker]. destruct (read n _) as [l [got|e]]; [|done].
  destruct (len got =? 0); [done|]. rewrite IH. cbn [Zip.sm_worker Zip.set_sm_worker]. destruct (fullRead_loop fuel _ l) as [l2 [r|e]]; done.
Qed.
Lemma stored_reads (child : S) g pre win post e : rep child g -> f_data g = pre ++ win ++ post -> len (f_data g) < nil_ -> Zip.z_start e = len pre -> Zip.z_compressedSize e = len win ->
  exists m, Zip.StoredMember_new child e = Ok m /\ returns (fullRead (len win)) m (fun _ got => got = win).
Proof.
  intros Hc Hd Hn He Hl. rewrite Hd, !length_app in Hn. destruct (LimitedStream_new_ok child g pre win post Hc Hd ltac:(lia)) as (l & Hnew & Hrep). unfold Zip.StoredMember_new. rewrite He, Hl, Hnew. eexists. split; [done|].
  pose proof (@fullRead_spec _ _ (LimitedStream_laws pre post) (len win) l _ Hrep ltac:(unfold f_rest; cbn [f_pos f_data Z.to_nat]; rewrite drop_0; lia)) as HF. unfold returns, fullRead in *. rewrite stored_fullRead. cbn [Zip.sm_worker].
  destruct (fullRead_loop _ _ l) as [l2 [got|x]]; [|done]. destruct HF as [-> _]. unfold f_rest. cbn [f_pos f_data Z.to_nat]. by rewrite drop_0, Nat2Z.id, firstn_all.
Qed.

End ZipMembers.

(** *** Decompression

    [feeds t x y]: when [x] is all input that is still to come, the output will be [y].  A call with input
    takes all of it or fills the output; when it has taken everything and there is room left, nothing is held back. *)
Class FeedLaws (T : Type) `{!Transform T} := {
  feeds : T -> list Z -> list Z -> Prop;
  feed_law t inp x y room : feeds t (inp ++ x) y -> inp <> [] ->
    exists t' rest out y', transform t inp room = (t', rest, Ok out) /\ y = out ++ y' /\ feeds t' (rest ++ x) y' /\
      (length out <= room)%nat /\ (rest = [] \/ length out = room) /\ ((length out < room)%nat -> rest ++ x = [] -> y' = []) }.
(** What zlib documents of inflateInit2 and inflate, for raw data: inflate goes on until the input is used up or the output
    is full, and reports the end of the stream when it has returned all output.  [raw_deflate x y]: [x] is the deflate stream for [y];
    [inflating z x y]: in state [z], the rest [x] of the stream yields [y]. *)
Class ZlibLaws (Zs : Type) `{!ZlibOps Zs} := {
  raw_deflate : list Z -> list Z -> Prop;
  inflating : Zs -> list Z -> list Z -> Prop;
  init_law : exists z, inflateInit2 (-15) = (z, Z_OK) /\ forall x y, raw_deflate x y -> x <> [] /\ inflating z x y;
  inflate_law z inp x y room : inflating z (inp ++ x) y -> inp <> [] -> (0 < room)%nat ->
    exists z' used out y', y = out ++ y' /\ (length out <= room)%nat /\
      (inflate z inp room = (z', used, out, Z_STREAM_END) /\ y' = [] /\ drop used inp ++ x = [] \/
       inflate z inp room = (z', used, out, Z_OK) /\ inflating z' (drop used inp ++ x) y' /\ (drop used inp = [] \/ length out = room) /\ ((length out < room)%nat -> drop used inp ++ x <> [])) }.
Section Inflating.
Context {Zs : Type} `{!ZlibOps Zs, !ZlibLaws Zs}.
Definition inflate_feeds (i : Inflate Zs) (x y : list Z) : Prop :=
  m_personality i = Raw /\ match gz_state i with FinishedHeader => raw_deflate x y | Decompressing z => inflating z x y | CheckingTrailer _ => x = [] /\ y = [] | _ => False end.
Lemma gz_done fuel (i : Inflate Zs) inp room out : inp = [] \/ (room <= length out)%nat -> gz_loop fuel i inp room out = (i, inp, Ok out).
Proof. intros H. assert (HC : negb (at_end i) && negb (length inp =? 0)%nat && (length out <? room)%nat = false) by (destruct H as [->|H]; [cbn; by rewrite andb_false_r|]; rewrite (proj2 (Nat.ltb_ge _ _) H); apply andb_false_r). destruct fuel; cbn [gz_loop]; by rewrite HC. Qed.
Lemma inflate_run fuel (i : Inflate Zs) z inp x y room : gz_state i = Decompressing z -> m_personality i = Raw -> inflating z (inp ++ x) y -> inp <> [] -> (0 < room)%nat ->
  exists i' rest out y', gz_loop (S fuel) i inp room [] = (i', rest, Ok out) /\ y = out ++ y' /\ inflate_feeds i' (rest ++ x) y' /\ (length out <= room)%nat /\ (rest = [] \/ length out = room) /\ ((length out < room)%nat -> rest ++ x = [] -> y' = []).
Proof.
  intros HS HP HI Hne Hr. destruct (inflate_law z inp x y room HI Hne Hr) as (z' & used & out & y' & -> & Hlo & HC). cbn [gz_loop]. assert (HG : negb (at_end i) && negb (length inp =? 0)%nat && (length (@nil Z) <? room)%nat = true) by (unfold at_end; rewrite HS; destruct inp; [done|]; cbn; by destruct room; [lia|]).
  rewrite HG. cbn [length]. rewrite Nat.sub_0_r. unfold gz_round. rewrite HS. destruct HC as [(HE & -> & Hx)|(HE & HI' & HF & HL)]; rewrite HE; cbn [app]; eexists _, _, out, _.
  - assert (drop used inp = []) as HD by (by destruct (drop used inp)). rewrite gz_done by (by left). split; [done|]. split; [done|]. split; [split; [done|]; cbn; by rewrite Hx|]. split; [done|]. split; [by left|done].
  - rewrite gz_done by (destruct HF as [HF|HF]; [by left|right; lia]). split; [done|]. split; [done|]. split; [split; [done|]; exact HI'|]. split; [done|]. split; [done|]. intros H1 H2. by destruct (HL H1).
Qed.
(** InflateTransform for raw data keeps the contract, given zlib does. *)
#[local] Instance inflate_feed_laws (zfuel : nat) : FeedLaws (Inflate Zs) (Transform0 := inflate_transform (S (S zfuel))).
Proof.
  apply (@Build_FeedLaws _ (inflate_transform (S (S zfuel))) inflate_feeds). intros i inp x y room (HP & HS) Hne. cbn [transform inflate_transform]. destruct room as [|room].
  { rewrite gz_done by (right; cbn; lia). exists i, inp, [], y. split; [done|]. split; [done|]. split; [done|]. split; [done|]. split; [by right|]. intros H. cbn in H. lia. }
  destruct (gz_state i) as [| | | | | | |z|z|z] eqn:ES; try done.
  - destruct init_law as (z & HI & HZ). destruct (HZ _ _ HS) as [_ HY]. cbn [gz_loop]. assert (HG : negb (at_end i) && negb (length inp =? 0)%nat && (length (@nil Z) <? S room)%nat = true) by (unfold at_end; rewrite ES; by destruct inp). rewrite HG. cbn [length Nat.sub]. unfold gz_round at 1. rewrite ES, HP, HI. cbn [app]. by apply (inflate_run zfuel (set_gz (Decompressing z) i) z inp x y (S room)); [..|lia].
  - by apply (inflate_run (S zfuel) i z inp x y (S room)); [..|lia].
  - destruct HS as [HS _]. by destruct inp.
Defined.
End Inflating.
Section Deflated.
Context {S : Type} `{!Stream S, !FileLaws S} {T : Type} `{!Transform T, !FeedLaws T} (pre post : list Z).
Local Abbreviation D := (Zip.DeflatedMember (S := S) (T := T)).
(** The member has [n] bytes of its window ahead, and will produce [y]. *)
Definition inflates (m : D) (n : nat) (y : list Z) : Prop := exists f, limited_rep pre post (Zip.dm_worker m) f /\ length (f_rest f) = n /\ feeds (Zip.dm_transform m) (Zip.dm_bufferDescriptor m ++ f_rest f) y.
Lemma dm_refill_ok (m : D) n y : inflates m n y -> returns Zip.dm_refill m (fun m' _ => Zip.dm_transform m' = Zip.dm_transform m /\ Zip.dm_bytesRead m' = Zip.dm_bytesRead m /\ exists n', inflates m' n' y /\ (n' <= n)%nat /\
  (Zip.dm_bufferDescriptor m' = [] -> n' = 0%nat) /\ (Zip.dm_bufferDescriptor m = [] -> Zip.dm_bufferDescriptor m' <> [] -> (n' < n)%nat) /\ (Zip.dm_bufferDescriptor m' = [] -> n = 0%nat /\ Zip.dm_bufferDescriptor m = [])).
Proof.
  intros (f & Hf & Hn & HY). unfold returns, Zip.dm_refill. destruct (Zip.dm_bufferDescriptor m) as [|c b] eqn:EB.
  - pose proof (limited_read pre post (Zip.dm_worker m) f 4096 Hf ltac:(lia)) as HR. cbn [read LimitedStream_stream]. unfold returns in HR. destruct (LimitedStream_read 4096 (Zip.dm_worker m)) as [l [got|e]]; [|done]. destruct HR as (k & Hg & Hl & Hne & Hf'). cbn [Zip.dm_transform Zip.dm_bytesRead]. split; [done|]. split; [done|].
    pose proof (limited_facts pre post _ f Hf) as (_ & _ & _ & [Hw _] & _). pose proof (f_rest_seek_app f got k ltac:(lia) Hg) as HA. exists (length (f_rest (f_seek f (f_pos f + len got)))). cbn [app] in HY. pose proof (f_equal length HA) as HL. rewrite length_app in HL. split; [exists (f_seek f (f_pos f + len got)); cbn [Zip.dm_worker Zip.dm_transform Zip.dm_bufferDescriptor]; by rewrite <- HA|]. split; [lia|]. cbn [Zip.dm_bufferDescriptor]. assert (HZ : got = [] -> n = 0%nat) by (intros ->; subst n; destruct (f_rest f); [done|]; by destruct (Hne ltac:(lia) ltac:(done))). split; [|split].
    + intros HG. specialize (HZ HG). lia.
    + intros _ Hgn. assert (0 < length got)%nat by (destruct got; [done|]; cbn [length]; lia). lia.
    + intros HG. by split; [apply HZ|].
  - split; [done|]. split; [done|]. exists n. split; [exists f; by rewrite EB|]. rewrite EB. done.
Qed.
Definition used_up (m : D) (n : nat) : Prop := n = 0%nat /\ Zip.dm_bufferDescriptor m = [].
(** A read returns the next bytes of the output; one that returns less than was asked for has used up all input, and returned all output unless the input had been used up before. *)
Lemma deflated_loop_ok fuel room did (m : D) n y : inflates m n y -> (n + (match Zip.dm_bufferDescriptor m with [] => 0 | _ => 1 end) < fuel)%nat ->
  returns (Zip.deflated_loop fuel room did) m (fun m' got => exists out y' n', got = did ++ out /\ y = out ++ y' /\ inflates m' n' y' /\ (length out <= room)%nat /\ (length out = room \/ (used_up m' n' /\ (used_up m n \/ y' = [])))).
Proof.
  revert room did m n y. induction fuel as [|fuel IH]; intros room did m n y Hm Hf; [lia|]. cbn [Zip.deflated_loop]. destruct (Nat.eqb_spec room 0) as [->|Hroom]; [apply returns_ret; exists [], y, n; rewrite app_nil_r; split_and!; try done; by left|].
  eapply returns_bind; [by apply dm_refill_ok|]. intros m1 [] (ET & EC & n1 & Hm1 & Hn1 & HE & HL & HU). apply returns_get. destruct (Zip.dm_bufferDescriptor m1) as [|c b] eqn:EB.
  { apply returns_ret. exists [], y, n1. rewrite app_nil_r. split_and!; try done; try (cbn; lia). right. specialize (HE eq_refl). split; [done|]. left. by apply HU. }
  eapply (returns_bind _ _ _ (fun m2 out => exists y', y = out ++ y' /\ inflates m2 n1 y' /\ (length out <= room)%nat /\ (Zip.dm_bufferDescriptor m2 = [] \/ length out = room) /\ ((length out < room)%nat -> n1 = 0%nat -> y' = []))).
  - destruct Hm1 as (f & Hf1 & Hfn & HY). unfold returns, Zip.dm_transform_some. destruct (feed_law _ _ _ _ room HY ltac:(by rewrite EB)) as (t & rest & out & y' & -> & -> & HY' & Hlo & HC & HN). exists y'. split; [done|]. split; [by exists f|]. split; [done|]. cbn [Zip.dm_bufferDescriptor]. split; [destruct HC as [->|HC]; [by left|by right]|]. intros H1 H2. apply HN; [done|]. destruct HC as [->|HC]; [|lia]. subst n1. by destruct (f_rest f).
  - intros m2 out (y' & -> & Hm2 & Hlo & HC & HN). destruct (decide (length out = room)) as [E|E].
    + replace (room - length out)%nat with 0%nat by lia. assert (HX : Zip.deflated_loop fuel 0 (did ++ out) = ret (S := D) (did ++ out)) by (by destruct fuel). rewrite HX. apply returns_ret. exists out, y', n1. split_and!; try done. by left.
    + destruct HC as [HC|HC]; [|done]. eapply returns_mono; [apply (IH (room - length out)%nat (did ++ out) m2 n1 y' Hm2); rewrite HC; destruct (Zip.dm_bufferDescriptor m); [specialize (HL eq_refl ltac:(done))|]; lia|]. intros m3 got (out2 & y2 & n2 & -> & -> & Hm3 & Hl2 & HD). exists (out ++ out2), y2, n2. rewrite <- !app_assoc, length_app. split_and!; try done; [lia|]. destruct HD as [HD|[HD HD2]]; [left; lia|]. right. split; [done|]. right. destruct HD2 as [[HD2 _]|HD2]; [|done]. specialize (HN ltac:(lia) HD2). by apply app_eq_nil in HN as [_ HN].
Qed.
(** Reading everything at once *)
Lemma deflated_all fuel room (m : D) n y : inflates m n y -> (n + 1 < fuel)%nat -> ~ used_up m n -> (length y <= room)%nat -> returns (Zip.deflated_loop fuel room []) m (fun _ got => got = y).
Proof.
  intros Hm Hf Hu Hr. eapply returns_mono; [apply (deflated_loop_ok fuel room [] m n y Hm); destruct (Zip.dm_bufferDescriptor m); lia|]. intros m' got (out & y' & n' & -> & -> & _ & Hlo & HD). cbn [app]. rewrite length_app in Hr. destruct HD as [HD|[_ [HD| ->]]]; [|done|by rewrite app_nil_r]. assert (y' = []) as -> by (apply length_zero_iff_nil; lia). by rewrite app_nil_r.
Qed.
End Deflated.
#[local] Existing Instance Zip.zip_reader.
#[local] Existing Instance Zip.StoredMember_stream.
#[local] Existing Instance Zip.DeflatedMember_stream.
Lemma zip_entry_of_member options p l i r : supported options i = true -> zip_entry options (p + len (concat (map zip_item l))) i ∈ zip_entries options p (l ++ i :: r).
Proof.
  intros Hi. revert p. induction l as [|x l IH]; intros p; cbn [app zip_entries map concat].
  - rewrite Hi, Z.add_0_r. apply elem_of_app. left. apply elem_of_cons. by left.
  - apply elem_of_app. right. rewrite length_app, Nat2Z.inj_add, Z.add_assoc. apply IH.
Qed.
(** The data of a member, as a window of the file *)
Lemma zip_window pre l i r tail : zip_ok i -> exists a b, pre ++ concat (map zip_item (l ++ i :: r)) ++ tail = a ++ zi_data i ++ b /\ len a = data_start (len pre + len (concat (map zip_item l))) i.
Proof.
  intros Hi. destruct (zip_header_fields i Hi) as [HH _]. exists (pre ++ concat (map zip_item l) ++ zip_signature ++ zip_header i ++ zi_name i ++ zi_extra i), (concat (map zip_item r) ++ tail). split.
  - rewrite map_app, concat_app. cbn [map concat]. unfold zip_item at 2. by rewrite <- !app_assoc.
  - unfold data_start. rewrite !length_app, HH. change (length zip_signature) with 4%nat. lia.
Qed.
Lemma deflated_open {S Zs : Type} `{!Stream S, !FileLaws S, !ZlibOps Zs, !ZlibLaws Zs} (zfuel : nat) (child : S) g a b i e y :
  rep child g -> f_data g = a ++ zi_data i ++ b -> len (f_data g) < nil_ -> Zip.z_method e = Zip.cmDeflated -> Zip.z_start e = len a -> Zip.z_compressedSize e = len (zi_data i) -> raw_deflate (zi_data i) y ->
  exists m, Zip.openFileForReading child (Inflate_new (Zs := Zs) Raw) e = Ok (inr m) /\ inflates (FeedLaws0 := inflate_feed_laws zfuel) a b m (length (zi_data i)) y /\ ~ used_up m (length (zi_data i)).
Proof.
  intros Hc HW Hn HM Hla Hlz HY. unfold Zip.openFileForReading. rewrite HM. change (Zip.cmDeflated =? Zip.cmStored) with false. rewrite Z.eqb_refl. cbn iota. unfold Zip.DeflatedMember_new. rewrite HW, !length_app in Hn. destruct (LimitedStream_new_ok child g a (zi_data i) b Hc HW ltac:(lia)) as (w & Hw & Hrep). rewrite Hla, Hlz, Hw. eexists. split; [done|]. split.
  - eexists. split; [exact Hrep|]. cbn [Zip.dm_transform Zip.dm_bufferDescriptor app]. unfold f_rest. cbn [f_pos f_data Z.to_nat]. rewrite drop_0. split; [done|]. split; [done|exact HY].
  - intros [H _]. destruct init_law as (z & _ & HZ). destruct (HZ _ _ HY) as [Hne _]. by apply length_zero_iff_nil in H.
Qed.
(** C13. A ZIP file can be read back.  On a stream that acts as a file, whose content from its position on is a sequence of members with local headers
    (known flags; names, extra data, stored or compressed data) followed by the central directory, another block or the end, ZipReader can
    be opened; its enumerator returns exactly the entries of the supported members, that is, no directories, no encrypted ones and only known methods, in
    order, the first one for each name; a search by name returns the first such entry or throws "file not found".  A stored member
    reads exactly its data.  A compressed member is read through InflateTransform: given that zlib behaves as documented, a read of the whole member
    returns what its data is the deflate stream of, and reads in pieces return the next bytes of it; a read that returns less than
    was asked for has used up the compressed data and returned all that was left, unless the compressed data had been used up
    by the reads before it, in which case what zlib still holds is lost.  All loops end. *)
Theorem zip_reader_correct {S Zs : Type} `{!Stream S, !FileLaws S, !ExactReads S, !ZlibOps Zs, !ZlibLaws Zs} (zfuel : nat) (options : Z) (s : S) f pre items tail :
  rep s f -> f_pos f = len pre -> f_data f = pre ++ concat (map zip_item items) ++ tail -> len (f_data f) < nil_ -> Forall zip_ok items -> zip_tail tail ->
  let entries := firsts Zip.z_name [] (zip_entries options (len pre) items) in
  let member_read fuel size := read (Stream := Zip.DeflatedMember_stream (Transform0 := inflate_transform (Datatypes.S (Datatypes.S zfuel))) fuel) size in
  let holds := inflates (FeedLaws0 := inflate_feed_laws zfuel) in
  exists z, Zip.open s options = Ok z /\
    (forall fuel n, (length items < fuel)%nat -> (length items < n)%nat -> returns (enumerate n fuel 0) z (fun _ l => l = entries)) /\
    (forall fuel nm, (length items < fuel)%nat ->
       match List.find (fun e => bool_decide (Zip.z_name e = nm)) entries with
       | Some e => returns (getDirectoryEntryByName fuel nm) z (fun _ r => r = e)
       | None => throws (getDirectoryEntryByName fuel nm) z (FileProblemException fileNotFound) (fun _ => True)
       end) /\
    (forall l i r child g, items = l ++ i :: r -> supported options i = true -> rep child g -> f_data g = f_data f ->
       let e := zip_entry options (len pre + len (concat (map zip_item l))) i in
       e ∈ zip_entries options (len pre) items /\
       (zi_method i = Zip.cmStored -> exists m, Zip.openFileForReading child (Inflate_new (Zs := Zs) Raw) e = Ok (inl m) /\ returns (fullRead (len (zi_data i))) m (fun _ got => got = zi_data i)) /\
       (zi_method i = Zip.cmDeflated -> forall y, raw_deflate (zi_data i) y -> exists a b m, Zip.openFileForReading child (Inflate_new (Zs := Zs) Raw) e = Ok (inr m) /\ holds a b m (length (zi_data i)) y /\
          forall fuel size, (length (zi_data i) + 1 < fuel)%nat -> len y <= size -> returns (member_read fuel size) m (fun _ got => got = y))) /\
    (forall a b m n y fuel size, holds a b m n y -> (n + 1 < fuel)%nat -> 0 <= size ->
       returns (member_read fuel size) m (fun m' got => exists y' n', y = got ++ y' /\ holds a b m' n' y' /\ len got <= size /\ (len got = size \/ (used_up m' n' /\ (used_up m n \/ y' = []))))).
Proof.
  intros Hs Hp Hd Hn Hok Ht entries member_read holds. destruct (zip_open s f pre items tail options Hs Hp Hd Hok Ht) as (z & ahead & Ho & Hr & HL & HA). exists z. split; [done|]. split; [|split; [|split]].
  - intros fuel n Hf Hn'. eapply returns_mono; [apply (enumerate_ok (ArchiveLaws0 := zip_laws) n fuel 0 z ahead Hr); [lia|]|].
    + rewrite HA. pose proof (firsts_length Zip.z_name [] (zip_entries options (len pre) items)). pose proof (proj2 (zip_ahead_length options (len pre) [] items)). lia.
    + intros ? l ->. by rewrite HA, drop_0.
  - intros fuel nm Hf. pose proof (lookup_ok (ArchiveLaws0 := zip_laws) fuel nm z ahead Hr ltac:(lia)) as H. rewrite HA in H. fold entries in H. unfold named in H. cbn [entry_name Zip.zip_reader] in H. destruct (List.find _ entries); [eapply returns_mono; [exact H|]; by intros ? ? [-> _]|by eapply throws_mono; [exact H|]].
  - intros l i r child g -> Hi Hc Hg. cbn zeta. split; [by apply zip_entry_of_member|]. apply Forall_app in Hok as [_ [Hi1 _]%Forall_cons]. destruct (zip_window pre l i r tail Hi1) as (a & b & HW & Hla). rewrite <- Hd, <- Hg in HW. rewrite <- Hg in Hn. split.
    + intros HM. unfold Zip.openFileForReading. cbn [zip_entry Zip.z_method]. rewrite HM, Z.eqb_refl. destruct (stored_reads child g a (zi_data i) b (zip_entry options (len pre + len (concat (map zip_item l))) i)) as (m & Hm & HR); try done. rewrite Hm. by exists m.
    + intros HM y HY. destruct (deflated_open zfuel child g a b i (zip_entry options (len pre + len (concat (map zip_item l))) i) y) as (m & Hm & HI & HU); try done. exists a, b, m. split; [done|]. split; [exact HI|]. intros fuel size Hf Hz. apply (deflated_all (FeedLaws0 := inflate_feed_laws zfuel) a b fuel (Z.to_nat size) m (length (zi_data i)) y HI Hf HU). lia.
  - intros a b m n y fuel size Hm Hf Hz. eapply returns_mono; [apply (deflated_loop_ok (FeedLaws0 := inflate_feed_laws zfuel) a b fuel (Z.to_nat size) [] m n y Hm); destruct (Zip.dm_bufferDescriptor m); lia|]. intros m' got (out & y' & n' & -> & -> & Hm' & Hlo & HD). exists y', n'. cbn [app]. split_and!; try done; [lia|]. destruct HD as [HD|HD]; [left; lia|by right].
Qed.
(** A zlib whose streams are the text and a byte 255 *)
Fixpoint before_end (l : list Z) : list Z := match l with c :: l' => if c =? 255 then [] else c :: before_end l' | [] => [] end.
#[local] Instance toy_zlib : ZlibOps unit := {
  inflateInit2 := fun _ => (tt, Z_OK);
  inflate := fun _ inp room => let t := before_end inp in
    if (length t <? length inp)%nat && (length t <=? room)%nat then (tt, S (length t), t, Z_STREAM_END) else let n := Nat.min (length t) room in (tt, n, take n t, Z_OK) }.
Lemma before_end_app y x : 255 ∉ y -> before_end (y ++ 255 :: x) = y /\ before_end y = y.
Proof. induction y as [|c y IH]; intros H; [done|]. apply not_elem_of_cons in H as [H1 H2]. destruct (IH H2) as [I1 I2]. cbn [app before_end]. rewrite (proj2 (Z.eqb_neq c 255)) by congruence. by rewrite I1, I2. Qed.
#[local] Instance toy_zlib_laws : ZlibLaws unit.
Proof.
  refine {| raw_deflate := fun x y => x = y ++ [255] /\ (255 ∉ y); inflating := fun _ x y => x = y ++ [255] /\ (255 ∉ y) |}.
  - exists tt. split; [done|]. intros x y [-> H]. split; [by destruct y|done].
  - intros [] inp x y room [HX HY] Hne Hr. cbn [inflate toy_zlib]. destruct (decide (length inp <= length y)%nat) as [HL|HL].
    + pose proof (f_equal (take (length inp)) HX) as H1. rewrite take_app_length, take_app_le in H1 by lia. pose proof (f_equal (drop (length inp)) HX) as H2. rewrite drop_app_length, drop_app_le in H2 by lia. assert (HI : 255 ∉ inp) by (rewrite H1; intros H; apply HY; by apply (subseteq_take (length inp))). rewrite (proj2 (before_end_app inp [] HI)), Nat.ltb_irrefl. cbn [andb]. set (n := Nat.min (length inp) room).
      assert (HT : take n inp = take n y) by (rewrite H1, take_take; f_equal; lia). exists tt, n, (take n inp), (drop n y). rewrite HT, take_drop, length_take. split; [done|]. split; [lia|]. right. split; [done|].
      assert (HDX : drop n inp ++ x = drop n y ++ [255]). { pose proof (f_equal (drop n) HX) as HD. rewrite drop_app_le, (drop_app_le y) in HD by lia. exact HD. } rewrite HDX. split; [split; [done|]; intros H; apply HY; by apply (subseteq_drop n)|]. split; [|intros _; by destruct (drop n y)]. destruct (decide (length inp <= room)%nat); [left; apply drop_ge; lia|right; lia].
    + assert (HE : inp = y ++ [255] /\ x = []). { pose proof (f_equal length HX) as HLX. rewrite !length_app in HLX. cbn [length] in HLX. assert (x = []) as -> by (apply length_zero_iff_nil; lia). by rewrite app_nil_r in HX. } destruct HE as [-> ->]. rewrite (proj1 (before_end_app y [] HY)), length_app. cbn [length]. rewrite (proj2 (Nat.ltb_lt _ _)) by lia. cbn [andb]. destruct (Nat.leb_spec (length y) room) as [H|H].
      * exists tt, (S (length y)), y, []. rewrite !app_nil_r. split; [done|]. split; [done|]. left. split; [done|]. split; [done|]. apply drop_ge. rewrite length_app. cbn [length]. lia.
      * rewrite Nat.min_r by lia. exists tt, room, (take room y), (drop room y). rewrite take_drop, length_take, app_nil_r, drop_app_le by lia. split; [done|]. split; [lia|]. right. split; [done|]. split; [split; [done|]; intros HH; apply HY; by apply (subseteq_drop room)|]. split; [right; lia|]. intros _. by destruct (drop room y).
Defined.
(** A stored file in a directory, an encrypted one, a compressed one, and the central directory *)
Definition zip_ex : list ZipItem :=
  [mkZipItem [10; 0] 0 0 (replicate 8 1) 3 [100; 47; 97] [9; 9] [1; 2; 3]; mkZipItem [10; 0] 1 0 (replicate 8 1) 1 [98] [] [7]; mkZipItem [20; 0] 2 8 (replicate 8 1) 4 [99] [] [4; 5; 6; 7; 255]].
Lemma zip_ex_ok : Forall zip_ok zip_ex.
Proof. repeat (apply Forall_cons; split); [..|constructor]; (constructor; [done| |unfold in_u; cbn; lia|unfold in_u; cbn; lia|cbn; lia]); (split; [unfold in_u; cbn; lia|reflexivity]). Qed.
Lemma zip_reader_correct_witness :
  let data := concat (map zip_item zip_ex) ++ [0x50; 0x4B; 1; 2] in
  let packed := Zip.mkZip [99] 8 101 5 4 in
  exists z, Zip.open (mkConst data 0) 0 = Ok z /\ returns (enumerate 4 4 0) z (fun _ l => l = [Zip.mkZip [97] 0 35 3 3; packed]) /\
    returns (getDirectoryEntryByName 4 [99]) z (fun _ r => Zip.z_start r = 101) /\
    (exists m, Zip.openFileForReading (mkConst data 0) (Inflate_new (Zs := unit) Raw) (Zip.mkZip [97] 0 35 3 3) = Ok (inl m) /\ returns (fullRead 3) m (fun _ got => got = [1; 2; 3])) /\
    exists m, Zip.openFileForReading (mkConst data 0) (Inflate_new (Zs := unit) Raw) packed = Ok (inr m) /\
      returns (read (Stream := Zip.DeflatedMember_stream (Transform0 := inflate_transform 2) 9) 10) m (fun _ got => got = [4; 5; 6; 7]).
Proof.
  intros data packed. assert (HD : len data < 4096) by (vm_compute; done). assert (HW : rep (mkConst data 0) (mkFile data 0 4096 false)) by (exists 4096; split; [done|]; unfold f_wf; cbn [f_pos f_limit f_data]; lia).
  destruct (zip_reader_correct (S := ConstMemoryStream) (Zs := unit) 0 0 (mkConst data 0) (mkFile data 0 4096 false) [] zip_ex [0x50; 0x4B; 1; 2] HW eq_refl eq_refl ltac:(cbn [f_data]; unfold nil_; lia) zip_ex_ok ltac:(right; vm_compute; done)) as (z & Ho & H1 & H2 & H3 & _). exists z. split; [done|].
  split; [exact (H1 4%nat 4%nat ltac:(cbn; lia) ltac:(cbn; lia))|]. split; [eapply returns_mono; [exact (H2 4%nat [99] ltac:(cbn; lia))|]; by intros ? ? ->|]. split.
  - destruct (H3 [] _ _ (mkConst data 0) (mkFile data 0 4096 false) eq_refl eq_refl HW eq_refl) as (_ & HS & _). exact (HS eq_refl).
  - destruct (H3 (take 2 zip_ex) _ [] (mkConst data 0) (mkFile data 0 4096 false) eq_refl eq_refl HW eq_refl) as (_ & _ & HS). destruct (HS eq_refl [4; 5; 6; 7]) as (a & b & m & Hm & _ & HR); [split; [done|]; rewrite !not_elem_of_cons; split_and!; lia || apply not_elem_of_nil|]. exists m. split; [exact Hm|]. exact (HR 9%nat 10 ltac:(cbn; lia) ltac:(cbn; lia)).
Defined.
(** When the output buffer is full and the input used up, the output that the transformation still holds is lost: of six bytes, a caller that reads two at a time gets two. *)
Lemma deflated_member_loses :
  let data := HEADER ++ [0; 0; 0; 0; 0; 1; 65; 0xF0; 0xF2] in
  let m := Zip.mkDeflated (mkLimited (mkConst data 0) 0 (len data) 0) MsExpand_new [] [] 0 in
  let r := read (Stream := Zip.DeflatedMember_stream 9) in
  (r 6 m).2 = Ok (replicate 6 65) /\ (let@ a := r 2 in let@ b := r 2 in ret (a, b)) m = (((let@ _ := r 2 in r 2) m).1, Ok ([65; 65], [])).
Proof. vm_compute. done. Qed.
(** A file that is not a ZIP file is opened as an empty one. *)
Lemma zip_open_anything : exists z, Zip.open (mkConst [1; 2; 3; 4; 5] 0) 0 = Ok z /\ Zip.zr_index z = [].
Proof. eexists. split; reflexivity. Qed.
